(* ===== verification/_CoqProject ===== *)
-Q . S2P
Prelude.v
Pool.v
PoolProofs.v
PoolProps.v
Serde.v
SerdeProofs.v
SerdeProps.v
Rowsel.v
RowselProofs.v
RowselProps.v
Timer.v
TimerProofs.v
TimerProps.v
Csr.v
CsrProofs.v
CsrProps.v
Lftj.v
LftjProofs.v
LftjProps.v
Glob.v
GlobProofs.v
GlobProps.v
NumParse.v
NumParseProofs.v
NumParseProps.v
Heap.v
HeapTiling.v
HeapLists.v
HeapProofs.v
HeapInv.v
HeapOps.v
HeapSpec.v
HeapProps.v
Lang.v
Compile.v
Vm.v
VmRef.v
CompileProofs.v
VmProofs.v
VmSteps.v
VmSim.v
VmBounds.v
VmProps.v
Hash.v
Arena.v
HashProofs.v
Sym.v
SymRing.v
SymInv.v
SymGrow.v
SymSegs.v
SymIntern.v
SymOps.v
SymLoad.v
SymLazy.v
SymProps.v
Sort.v
SortOrder.v
SortRadix.v
SortScatter.v
SortLsd.v
SortMsd.v
SortMerge.v
SortEnc.v
SortPar.v
SortPacked.v
SortColumn.v
SortTopk.v
SortProps.v
Cal.v
CalProofs.v
CalText.v
CalTextProofs.v
CalProps.v
Join.v
JoinKeys.v
JoinChain.v
JoinRadix.v
JoinTable.v
JoinProps.v
