(* ===== verification/Prelude.v ===== *)
(** * Rayforce: a verification development

    Rayforce is a columnar database with an array language, written in C. This
    library models parts of its kernel as Rocq functions that can be run, and
    proves what these parts promise to their callers. Paths below are relative
    to the repository; every component has three kinds of files:
    [X] (the data and the operations, translated from the C code, and nothing
    else), [XProofs] (lemmas; for the heap several files), [XProps] (the
    properties, each numbered C<n>, with witnesses on concrete inputs).

    ** How the code is modelled

    - Machine integers are [Z]; a result that the C code truncates is wrapped
      where it is truncated ([u8], [u32], [u64], [s64] below).
    - An array is a list read with [l.[i]] and written with [zset]: both are
      [None] out of bounds. So [None] at the top of an operation's result is
      undefined behaviour (an access out of bounds, a read of a freed or never
      written block, a signed overflow) or, in a loop with fuel, a loop that
      has not ended; the theorems show neither happens. Where the C code can
      answer [NULL] or an error this is an inner option or sum.
    - A loop runs on fuel computed by the definition from its input. The
      theorems about it are of the form "the result is [Some ...]", so they
      include termination and freedom from out-of-bounds accesses.
    - The allocator, as seen by the other components, is the class [Heap] below
      (does an allocation succeed, what does fresh memory hold): theorems hold
      for every instance, so for every pattern of failures. The operating
      system's answer to the allocator itself is the class [Heap.Os].

    ** The parts and where they are modelled

    - The buddy allocator, src/src/mem/heap.c: files [Heap] (operations),
      [HeapTiling] (blocks as a tiling of the pools), [HeapLists] (circular
      lists), [HeapProofs] (splitting and coalescing), [HeapInv] (the
      invariant), [HeapOps] (every operation preserves it), [HeapSpec] (the
      reachable heaps, the abstract specification), [HeapProps].
    - The wire format, src/src/store/serde.c: [Serde*]. The reader is a
      function on arbitrary bytes; symbols and function names are looked up in
      a runtime given by the class [Serde.Runtime].
    - The worker pool, src/src/core/pool.c: [Pool*], a step relation in which
      the main thread and the workers interleave at every shared access.
    - Row selections, src/src/ops/rowsel.c: [Rowsel*]; its passes run on the
      pool through the interface [Rowsel.Dispatcher], whose law (each segment
      runs once, in some order) is what [PoolProps] shows.
    - Timers, src/src/core/timer.c: [Timer*].
    - Edge indexes, src/src/store/csr.c: [Csr*], with the column files they are
      saved in.
    - The worst-case optimal join, src/src/ops/lftj.c: [Lftj*]; its iterators
      walk the edge indexes of [Csr].
    - Glob patterns, src/src/ops/glob.c: [Glob*].
    - Integer parsing, src/src/core/numparse.c: [NumParse*].
    - The symbol table, src/src/table/sym.c: [Sym] (interning, dotted names,
      reservation, snapshots, the lazily mapped dictionary), on the hash of
      src/src/ops/hash.h ([Hash*]) and the arenas of src/src/mem/arena.c
      ([Arena*]). [SymRing] is linear probing on the ring of buckets
      and the table as the list of its names, [SymInv] the invariant,
      [SymGrow], [SymSegs] and [SymIntern] what growing, scanning a dotted name
      and interning do, [SymOps] and [SymLoad] that every operation keeps the
      invariant, [SymLazy] the dictionary files, [SymProps] the
      properties. Which memory requests the system grants is the class
      [Arena.SysMem].
    - Sorting and top-k, src/src/ops/sort.c: [Sort] (keys, comparison sorts,
      radix sorts, merge sort, sorted columns, top-k). [SortOrder] is what it
      means to be sorted and the sorts by comparison, [SortRadix] and
      [SortScatter] the histograms and the buffered scatter, [SortLsd] the sort
      from the lowest digit, [SortMsd] by buckets, [SortMerge] the merge sort,
      [SortEnc] the encoding of cells as keys, [SortPar] and [SortPacked] the
      parallel scans and the packed path, [SortColumn] sorted
      rows and columns, [SortTopk] the heaps of top-k, [SortProps] the
      properties. Tasks run on the pool through [Rowsel.Dispatcher]; how many
      workers there are and which of them runs a task is the class
      [Sort.Workers], which requests for scratch memory are served the class
      [Sort.Scratch].
    - Dates and times: [Cal] has both calendars of the code (src/src/lang/cal.h
      and the one in src/src/ops/temporal.c), field extraction and truncation;
      [CalText] the literals of src/src/lang/parse.c that start with a digit or
      a sign and their text in src/src/lang/format.c. [CalProofs] relates the
      calendars to a Gregorian one and is about the column kernels,
      [CalTextProofs] about what is read of what was printed, [CalProps] the
      properties. The division of [double]s in the calendar is rounded as IEEE
      754 does, on integers; columns are those of [Sort].
    - Hash joins, src/src/ops/join.c: [Join] (hashing and comparing keys, the
      chained table and its concurrent building, the radix partitions and
      their open-addressing tables, inner, left, full and anti joins up to the
      pairs of rows). [JoinKeys] says when keys meet, what a join should
      answer, and that the chains hold the rows put in, by one thread or by
      several; [JoinChain] is the chained path, [JoinRadix] the partitioning,
      [JoinTable] the open-addressing tables and the radix path, [JoinProps]
      the properties. Columns are those of [Sort], tasks run through
      [Rowsel.Dispatcher] and [Sort.Workers]; refused memory, cancellation and
      the test knobs are the class [Join.JoinEnv].
    - The language: values and the lexical environment, src/src/lang/env.c and
      internal.h: [Lang]; the bytecode compiler, src/src/lang/compile.c:
      [Compile]; the stack machine vm_exec of src/src/lang/eval.c: [Vm]. Their
      specification is [VmRef], which resolves the names of a lambda's body
      and evaluates the result without code, jumps or a constant pool.
      [CompileProofs] says which bytes and constants the
      compiler emits, [VmProofs] and [VmSteps] what an instruction does to a
      frame, [VmSim] is the simulation, [VmBounds] the stack bounds, [VmProps]
      the properties. What a builtin does, and the tree walker behind ray_eval
      and call_lambda, are the class [Vm.Dynamic]; its law [DynamicLaws] says
      only that lambdas already compiled stay as they are and that new ones
      are as [lambda_ok] wants. Dotted names are the class [Lang.Dotted].
      Values are never lazy here and reference counts are not modelled, so a
      lambda's address names it for ever.

    ** What the theorems show

    - Heap: in every reachable state the blocks handed out overlap neither each
      other nor the allocator's own data and no operation is undefined;
      allocation refines an abstract specification and release is its inverse;
      when everything has been released and the caches flushed the pools are
      whole again.
    - Wire format: round trip (also with bytes following), exact size, and
      safety of the reader on hostile input.
    - Pool: every element of a dispatch is visited exactly once under every
      interleaving, and the barrier opens.
    - Row selections: the sequential, parallel and streaming builders agree and
      select exactly the rows of the predicate; refinement and intersection.
    - Timers: the heap's order and contents under each operation; expired
      timers fire in order.
    - Edge indexes: forward and reverse index list exactly the edges, loading
      arbitrary columns is safe, saving and loading round-trips.
    - Join: leapfrog search ends and finds the least common value; the
      enumeration writes exactly the join; triangles.
    - Glob: the matcher decides the declarative meaning of the pattern; the
      compiled shapes agree; the substring search finds the first match.
    - Integers: the chunked parser equals the digit-by-digit reference on every
      input, overflow and signs included.
    - Language: compiled code does what the source means: running the bytecode
      of a lambda gives exactly the outcome and the final world of the
      reference semantics, with nested, self-recursive and failing calls,
      traps, early returns and the machine's three limits; the machine reads
      nothing out of bounds and ends unless a builtin does not return. Two
      theorems are about what the compiler gets wrong.

    - Symbol table: under every pattern of refused memory, interning refines
      "the position of the name, appended when new", symbols keep their names
      for ever, distinct symbols have distinct names, a dotted name carries
      the symbols of its segments, snapshots round-trip, and the mapped
      dictionary reads what was saved; one theorem is about an identifier
      wider than the table that escapes its bounds check.

    - Sorting: for every run order of the tasks, every number of workers and
      every pattern of refused memory, a sorted column is the cells in the
      order of a stable sort, whichever of the paths (insertion sort,
      introsort, packed words, radix by lowest or highest digit, merge sort)
      sorted it; the radix sorts equal the comparison sort; keys encode the
      order of the comparator; top-k is the first [k] rows of the stable order.
      The theorems about whole columns assume what the code needs and does not
      check: [SortColumn.column_plain] (cells of the column's type, no negative
      zero, no NaN in a float column without nulls, no largest number where
      nulls sort last), [SortPar.grain_kept] (the ring has room for tasks of
      the standard grain; otherwise pairs between tasks are looked for at the
      wrong rows) and [SortColumn.bytes_scanned] (the keys do not differ only
      between tasks). That the last can fail is itself a theorem. When the
      histograms of the wide path are refused the code copies from [NULL]: the
      sort is then undefined, and the theorems say that only then.

    - Hash joins: for every schedule, every pattern of refused memory and every
      setting of the knobs a join answers exactly the pairs of its
      specification, each once, or an error with a cause; the radix path and
      the chained path agree; the chained table is right under every
      interleaving of the compare-and-swaps that build it, from every state of
      which it can be completed; the antijoin keeps the rows that meet nobody.
      They assume what join.c does not check: [JoinKeys.keys_ok] (cells of the
      columns' types, no keys of 32-bit floats, a float only against a float,
      identifiers within their dictionaries), [JoinChain.asp_safe] (the right
      key of a factorized join has 64 bits) and [JoinTable.join_fits] (the ring
      has room for the tasks; further ones are dropped silently).

    - Dates and times: from year 1 on days and dates correspond one to one and
      both calendars agree; extraction in both executors gives the Gregorian
      fields, truncation the start of the unit, nulls stay nulls; what is
      printed is read back.

    ** Bounds and fuel

    Fuel is computed from the input in the operations themselves: the length of
    the text for scanners, [(sn + 1) * (pn + 1)] turns for the glob matcher,
    [k * (remaining + 1)] turns for a leapfrog search over [k] iterators, one
    turn per order for the heap's splits and merges (39 orders). The fuel of
    the language's reference semantics counts nested calls: 1025 is always
    enough, because the machine's return stack holds 1024. The reader's
    recursion is bounded by the code's own [RAY_DE_MAX_DEPTH] of 512. A
    probe of the symbol table turns once per bucket, its reservation doubles a
    32-bit count at most 32 times, and the scanner of a dotted name turns once
    per byte. The
    introsort's depth is the code's own, twice the halvings of the length; a
    sift turns at most once per element, a merge once per element written, the
    bucket sort recurses once per byte of the key. A walk along a chain of a
    join turns at most once per row, a probe of an open-addressing table once
    per slot, of which at least half are free; its capacity doubles at most 32
    times. The one
    loop that need not end, firing timers of interval zero, takes its bound as
    an argument and reports whether it was reached.

    ** Not modelled

    Floating-point results, the operating system (files, sockets, threads as
    such; the memory model is sequential consistency, the pool's fences being
    read as such; the symbol table's spinlock and the locking of its
    dictionary files likewise), the query front end and the column kernels (query.c,
    group.c, exec.c and the like: type-specialised loops of many thousands of
    lines), in the sorts symbol, string and GUID columns, the composite radix
    keys of several columns and the fused top-k, in the joins the gathering of
    the output columns, partitioned tables, asof and window joins and constant
    keys, the clock functions and
    expressions and strings in the parser and formatter, and the parts of modelled files named in their own headers. *)

From stdpp Require Export base tactics numbers option list sets gmap.
From Stdlib Require Export ZArith Lia Sorted.
#[export] Set Default Goal Selector "!".

(** ** Machine integers

    C integers are [Z]; a [w]-bit unsigned result is reduced with [wrap w], a
    signed one with [swrap w] (two's complement). *)
Open Scope Z_scope.

Definition wrap (w z : Z) : Z := z `mod` 2 ^ w.
Definition swrap (w z : Z) : Z := (z + 2 ^ (w - 1)) `mod` 2 ^ w - 2 ^ (w - 1).
Abbreviation u8 := (wrap 8).
Abbreviation u16 := (wrap 16).
Abbreviation u32 := (wrap 32).
Abbreviation u64 := (wrap 64).
Abbreviation s64 := (swrap 64).
Abbreviation s32 := (swrap 32).

Definition INT64_MAX : Z := 2 ^ 63 - 1.
Definition INT64_MIN : Z := - 2 ^ 63.
Definition SIZE_MAX : Z := 2 ^ 64 - 1.

Definition in_u (w z : Z) : Prop := 0 ≤ z < 2 ^ w.
Definition in_s (w z : Z) : Prop := - 2 ^ (w - 1) ≤ z < 2 ^ (w - 1).

Lemma wrap_id w z : in_u w z → wrap w z = z.
Proof. intros H. by apply Z.mod_small. Qed.

Lemma wrap_range w z : 0 ≤ w → in_u w (wrap w z).
Proof. intros Hw. apply Z.mod_pos_bound, Z.pow_pos_nonneg; lia. Qed.

Lemma swrap_id w z : 0 < w → in_s w z → swrap w z = z.
Proof.
  unfold swrap, in_s. intros Hw H.
  assert (Hp : 2 ^ w = 2 * 2 ^ (w - 1)) by (rewrite <- Z.pow_succ_r by lia; f_equal; lia).
  rewrite Z.mod_small; lia.
Qed.

Lemma swrap_wrap w z : 0 < w → in_s w z → swrap w (wrap w z) = z.
Proof.
  unfold swrap, wrap. intros Hw H.
  rewrite Zplus_mod_idemp_l. by apply swrap_id.
Qed.

(** ** Arrays

    A C array is a list indexed by [Z]. A read or write outside its bounds is
    undefined behaviour: it gives [None], so every theorem that says an
    operation returns [Some] also says it stays inside its arrays. *)
Section arrays.
Context {A : Type}.
Implicit Types (l : list A) (i : Z).

Definition zlen l : Z := Z.of_nat (length l).
Definition zget l i : option A := if 0 <=? i then l !! Z.to_nat i else None.
Definition zset l i (x : A) : option (list A) :=
  if (0 <=? i) && (i <? zlen l) then Some (<[Z.to_nat i := x]> l) else None.
End arrays.

Notation "l .[ i ]" := (zget l i) (at level 1, left associativity, format "l .[ i ]").

Section array_lemmas.
Context {A : Type}.
Implicit Types (l : list A) (i : Z).

Lemma zlen_nonneg l : 0 ≤ zlen l.
Proof. unfold zlen. lia. Qed.
Lemma to_nat_zlen l : Z.to_nat (zlen l) = length l.
Proof. unfold zlen. lia. Qed.
Lemma zlen_nil : zlen (@nil A) = 0.
Proof. done. Qed.
Lemma zlen_cons x l : zlen (x :: l) = 1 + zlen l.
Proof. unfold zlen. simpl length. lia. Qed.
Lemma zlen_app l k : zlen (l ++ k) = zlen l + zlen k.
Proof. unfold zlen. rewrite length_app. lia. Qed.

Lemma zget_Some l i x : l.[i] = Some x → 0 ≤ i < zlen l.
Proof.
  unfold zget, zlen. destruct (Z.leb_spec 0 i); [|done].
  intros ?%lookup_lt_Some. lia.
Qed.
Lemma zget_is_Some l i : 0 ≤ i < zlen l → ∃ x, l.[i] = Some x.
Proof.
  unfold zget, zlen. intros Hi. destruct (Z.leb_spec 0 i); [|lia].
  destruct (lookup_lt_is_Some_2 l (Z.to_nat i)) as [x Hx]; [lia|eauto].
Qed.
Lemma zget_lookup l (n : nat) : l.[Z.of_nat n] = l !! n.
Proof. unfold zget. destruct (Z.leb_spec 0 (Z.of_nat n)); [|lia]. by rewrite Nat2Z.id. Qed.

Lemma zset_Some l i x : 0 ≤ i < zlen l → zset l i x = Some (<[Z.to_nat i := x]> l).
Proof.
  intros Hi. unfold zset.
  destruct (Z.leb_spec 0 i); [|lia]. destruct (Z.ltb_spec i (zlen l)); [done|lia].
Qed.
Lemma zset_inv l i x l' :
  zset l i x = Some l' → 0 ≤ i < zlen l ∧ l' = <[Z.to_nat i := x]> l.
Proof.
  unfold zset. destruct (Z.leb_spec 0 i), (Z.ltb_spec i (zlen l)); simpl; naive_solver lia.
Qed.
End array_lemmas.

(** ** Bytes: little-endian [memcpy] of integers *)
Fixpoint le_enc (n : nat) (z : Z) : list Z :=
  match n with
  | O => []
  | S n => z `mod` 256 :: le_enc n (z / 256)
  end.

Fixpoint le_dec (l : list Z) : Z :=
  match l with
  | [] => 0
  | b :: r => b + 256 * le_dec r
  end.

(** Reading [k] bytes at a pointer: undefined past the end of the memory. *)
Definition rd (k : nat) (buf : list Z) : option (list Z) :=
  if (k <=? length buf)%nat then Some (take k buf) else None.

Abbreviation byte_list := (Forall (in_u 8)).

Lemma length_le_enc n z : length (le_enc n z) = n.
Proof. revert z. induction n as [|n IH]; intros z; simpl; [done|by rewrite IH]. Qed.

Lemma zlen_le_enc n z : zlen (le_enc n z) = Z.of_nat n.
Proof. unfold zlen. by rewrite length_le_enc. Qed.

Lemma le_dec_enc n z : le_dec (le_enc n z) = wrap (8 * Z.of_nat n) z.
Proof.
  revert z. induction n as [|n IH]; intros z.
  - unfold wrap. simpl. by rewrite Z.mod_1_r.
  - cbn [le_enc le_dec]. rewrite IH. unfold wrap.
    replace (8 * Z.of_nat (S n)) with (8 + 8 * Z.of_nat n) by lia.
    rewrite Z.pow_add_r by lia. change (2 ^ 8) with 256.
    rewrite Z.rem_mul_r by lia. done.
Qed.

Lemma le_enc_bytes n z : byte_list (le_enc n z).
Proof.
  revert z. induction n as [|n IH]; intros z; simpl; constructor; [|done].
  unfold in_u. change (2 ^ 8) with 256. apply Z.mod_pos_bound. lia.
Qed.

Lemma rd_app k l r : k = length l → rd k (l ++ r) = Some l.
Proof.
  intros ->. unfold rd. rewrite length_app.
  destruct (Nat.leb_spec (length l) (length l + length r)); [|lia].
  by rewrite take_app_length.
Qed.
Lemma rd_cons b l : rd 1 (b :: l) = Some [b].
Proof. done. Qed.
Lemma rd_Some k l : (k ≤ length l)%nat → rd k l = Some (take k l).
Proof. intros H. unfold rd. by rewrite (proj2 (Nat.leb_le _ _) H). Qed.

(** ** Shared tactics *)

(** Splits every [if] and boolean comparison on [Z] into its two cases. *)
Ltac zbool :=
  repeat match goal with
  | H : context [?a <=? ?b] |- _ => destruct (Z.leb_spec a b); simpl in H
  | H : context [?a <? ?b] |- _ => destruct (Z.ltb_spec a b); simpl in H
  | H : context [?a =? ?b] |- _ => destruct (Z.eqb_spec a b); simpl in H
  | |- context [?a <=? ?b] => destruct (Z.leb_spec a b); simpl
  | |- context [?a <? ?b] => destruct (Z.ltb_spec a b); simpl
  | |- context [?a =? ?b] => destruct (Z.eqb_spec a b); simpl
  end.

(** Evaluates the comparisons of closed tag constants in the goal. *)
Ltac closed_tags :=
  repeat match goal with
  | |- context [?a =? ?b] =>
      let v := eval vm_compute in (a =? b) in
      match v with true => idtac | false => idtac end;
      change (a =? b) with v; cbn [orb andb]; cbn iota
  end.

(** ** Sums *)
Definition zsum (l : list Z) : Z := foldr Z.add 0 l.

Lemma zsum_app l k : zsum (l ++ k) = zsum l + zsum k.
Proof. induction l as [|x l IH]; [done|]. cbn [app]. unfold zsum in *. cbn. lia. Qed.

Lemma foldl_zsum {A} (f : A → Z) b l : foldl (λ s x, s + f x) b l = b + zsum (map f l).
Proof.
  revert b. induction l as [|x l IH]; intros b; [unfold zsum; simpl; lia|].
  cbn [foldl map]. rewrite IH. unfold zsum. cbn. lia.
Qed.

Lemma zlen_mjoin {A} (ls : list (list A)) : zlen (mjoin ls) = zsum (map zlen ls).
Proof.
  induction ls as [|l ls IH]; [done|]. change (mjoin (l :: ls)) with (l ++ mjoin ls).
  by rewrite zlen_app, IH.
Qed.

Lemma zlen_zero_nil {A} (l : list A) : zlen l = 0 → l = [].
Proof. destruct l; [done|]. rewrite zlen_cons. pose proof (zlen_nonneg l). lia. Qed.
Lemma zlen_take {A} (n : nat) (l : list A) : zlen (take n l) = Z.min (Z.of_nat n) (zlen l).
Proof. unfold zlen. rewrite length_take. lia. Qed.
Lemma zlen_drop {A} (n : nat) (l : list A) : zlen (drop n l) = Z.max 0 (zlen l - Z.of_nat n).
Proof. unfold zlen. rewrite length_drop. lia. Qed.
Lemma zlen_replicate {A} (n : nat) (x : A) : zlen (replicate n x) = Z.of_nat n.
Proof. unfold zlen. by rewrite length_replicate. Qed.
Lemma zlen_map {A B} (f : A → B) l : zlen (map f l) = zlen l.
Proof. unfold zlen. by rewrite length_map. Qed.

Lemma mjoin_cons {A} (l : list A) ls : mjoin (l :: ls) = l ++ mjoin ls.
Proof. done. Qed.
Lemma mjoin_map_Permutation {A B} (f : A → list B) l k :
  l ≡ₚ k → mjoin (map f l) ≡ₚ mjoin (map f k).
Proof.
  induction 1 as [|x l l' _ IH|x y l|l l' l'' _ IH1 _ IH2]; [done| | |by rewrite IH1].
  - cbn [map]. by rewrite !mjoin_cons, IH.
  - cbn [map]. rewrite !mjoin_cons, !app_assoc. apply Permutation_app_tail, Permutation_app_comm.
Qed.

Create Rewrite HintDb zlen.
#[export] Hint Rewrite @zlen_cons @zlen_app @zlen_nil zlen_le_enc @zlen_take @zlen_drop
  @zlen_replicate @zlen_map @zlen_mjoin : zlen.

(** ** Loops

    [foldM f l s] runs the body [f] on the elements of [l] in order, threading
    the state [s]; [None] is undefined behaviour in some iteration. A C loop
    [for (i = lo; i < hi; i++)] is a fold over [range lo hi]. *)
Fixpoint foldM {A S} (f : A → S → option S) (l : list A) (s : S) : option S :=
  match l with
  | [] => Some s
  | a :: l => s' ← f a s; foldM f l s'
  end.

Definition range (lo hi : Z) : list Z := seqZ lo (hi - lo).

Section loops.
Context {A S : Type}.
Implicit Types (f : A → S → option S).

Lemma foldM_app f l k s : foldM f (l ++ k) s = foldM f l s ≫= foldM f k.
Proof.
  revert s. induction l as [|a l IH]; intros s; [done|]. cbn.
  destruct (f a s); cbn; [apply IH|done].
Qed.

(** Total correctness of a loop over any list: the invariant is indexed by
    the elements already processed. *)
Lemma foldM_done f (P : list A → S → Prop) (l : list A) s :
  P [] s →
  (∀ pre a post s, l = pre ++ a :: post → P pre s → ∃ s', f a s = Some s' ∧ P (pre ++ [a]) s') →
  ∃ s', foldM f l s = Some s' ∧ P l s'.
Proof.
  intros H0 Hstep.
  enough (∀ pre post s, l = pre ++ post → P pre s → ∃ s', foldM f post s = Some s' ∧ P l s')
    as H by (by apply (H [] l s)).
  clear s H0. intros pre post. revert pre.
  induction post as [|a post IH]; intros pre s Hl HP.
  - rewrite app_nil_r in Hl. subst. by exists s.
  - destruct (Hstep pre a post s Hl HP) as (s1 & Hf & HP1). cbn. rewrite Hf. cbn.
    apply (IH (pre ++ [a])); [|done]. by rewrite <- app_assoc.
Qed.
End loops.

(** Total correctness of a counting loop. *)
Lemma foldM_range {S} (f : Z → S → option S) (P : Z → S → Prop) lo hi s :
  lo ≤ hi → P lo s →
  (∀ i s, lo ≤ i < hi → P i s → ∃ s', f i s = Some s' ∧ P (i + 1) s') →
  ∃ s', foldM f (range lo hi) s = Some s' ∧ P hi s'.
Proof.
  unfold range. intros Hle H0 Hstep.
  remember (Z.to_nat (hi - lo)) as n eqn:Hn. revert lo s Hle H0 Hstep Hn.
  induction n as [|n IH]; intros lo s Hle H0 Hstep Hn.
  - assert (lo = hi) as -> by lia. rewrite Z.sub_diag. by exists s.
  - rewrite seqZ_cons by lia. destruct (Hstep lo s) as (s1 & Hf & H1); [lia|done|].
    cbn. rewrite Hf. cbn. replace (Z.pred (hi - lo)) with (hi - Z.succ lo) by lia.
    apply IH; [lia|done| |lia]. intros. apply Hstep; [lia|done].
Qed.

(** A loop whose body has a pure meaning computes a fold. *)
Lemma foldM_pure {A S} (f : A → S → option S) (g : S → A → S) l s :
  (∀ a s, a ∈ l → f a s = Some (g s a)) → foldM f l s = Some (foldl g s l).
Proof.
  revert s. induction l as [|a l IH]; intros s H; [done|]. cbn.
  rewrite H by set_solver. cbn. apply IH. set_solver.
Qed.

Section ranges.
Lemma elem_of_range i lo hi : i ∈ range lo hi ↔ lo ≤ i < hi.
Proof. unfold range. rewrite elem_of_seqZ. lia. Qed.
Lemma NoDup_range lo hi : NoDup (range lo hi).
Proof. apply NoDup_seqZ. Qed.
Lemma zlen_range lo hi : zlen (range lo hi) = Z.max 0 (hi - lo).
Proof. unfold zlen, range. rewrite length_seqZ. lia. Qed.
Lemma range_empty lo hi : hi ≤ lo → range lo hi = [].
Proof. intros H. unfold range. by rewrite seqZ_nil by lia. Qed.
Lemma range_cons lo hi : lo < hi → range lo hi = lo :: range (lo + 1) hi.
Proof.
  intros H. unfold range. rewrite seqZ_cons by lia.
  by replace (Z.pred (hi - lo)) with (hi - (lo + 1)) by lia.
Qed.
Lemma range_app lo mid hi : lo ≤ mid ≤ hi → range lo mid ++ range mid hi = range lo hi.
Proof.
  intros H. unfold range. replace (hi - lo) with ((mid - lo) + (hi - mid)) by lia.
  rewrite seqZ_app by lia. by replace (lo + (mid - lo)) with mid by lia.
Qed.
Lemma range_snoc lo hi : lo ≤ hi → range lo (hi + 1) = range lo hi ++ [hi].
Proof.
  intros H. rewrite <- (range_app lo hi (hi + 1)) by lia.
  by rewrite (range_cons hi), (range_empty (hi + 1)) by lia.
Qed.
Lemma range_shift lo hi : range lo hi = map (λ i, lo + i) (range 0 (hi - lo)).
Proof.
  unfold range. rewrite Z.sub_0_r. rewrite <- (Z.add_0_r lo) at 1.
  rewrite <- fmap_add_seqZ. done.
Qed.
End ranges.

(** ** Arrays under update *)
Section array_update.
Context {A : Type}.
Implicit Types (l : list A) (i j : Z).

Lemma zlen_zset l i x l' : zset l i x = Some l' → zlen l' = zlen l.
Proof. intros [_ ->]%zset_inv. unfold zlen. by rewrite length_insert. Qed.
Lemma zget_zset_eq l i x l' : zset l i x = Some l' → l'.[i] = Some x.
Proof.
  intros [Hi ->]%zset_inv. unfold zget, zlen in *. rewrite (proj2 (Z.leb_le _ _)) by lia.
  apply list_lookup_insert_eq. lia.
Qed.
Lemma zget_zset_ne l i j x l' : zset l i x = Some l' → i ≠ j → l'.[j] = l.[j].
Proof.
  intros [Hi ->]%zset_inv Hj. unfold zget. destruct (Z.leb_spec 0 j); [|done].
  apply list_lookup_insert_ne. lia.
Qed.
Lemma zset_total l i x : 0 ≤ i < zlen l → ∃ l', zset l i x = Some l'.
Proof. intros H. eexists. by apply zset_Some. Qed.
Lemma zlist_ext l k : zlen l = zlen k → (∀ i, 0 ≤ i < zlen l → l.[i] = k.[i]) → l = k.
Proof.
  intros Hl H. apply list_eq. intros n. rewrite <- !zget_lookup.
  destruct (decide (Z.of_nat n < zlen l)) as [Hn|Hn]; [apply H; lia|].
  rewrite !zget_lookup, !lookup_ge_None_2; [done| |]; unfold zlen in *; lia.
Qed.
End array_update.

(** ** The allocator, as a client sees it

    Whether a request of so many bytes is served, and what the fresh memory
    holds: blocks are not cleared. *)
Class Heap := {
  alloc_ok : Z → bool;
  alloc_junk : Z → Z;
}.

Definition fresh `{Heap} (n : Z) : list Z := map alloc_junk (range 0 n).

(** [n] elements of [size] bytes each. *)
Definition new_array `{Heap} (size n : Z) : option (list Z) :=
  if alloc_ok (size * n) then Some (fresh n) else None.

Lemma zlen_fresh `{Heap} n : zlen (fresh n) = Z.max 0 n.
Proof. unfold fresh. rewrite zlen_map, zlen_range. lia. Qed.
#[export] Hint Rewrite zlen_range @zlen_fresh : zlen.

(** ** Cursor writes: [a[k++] = x] *)
Definition push {A} (x : A) (st : list A * Z) : option (list A * Z) :=
  let '(a, k) := st in a' ← zset a k x; Some (a', k + 1).

(** [a] holds [l] from index [k] on. *)
Definition holds {A} (a : list A) (k : Z) (l : list A) : Prop :=
  ∀ j, 0 ≤ j < zlen l → a.[k + j] = l.[j].

(** [a'] is [a] except in [k, k + n). *)
Definition agree_off {A} (a a' : list A) (k n : Z) : Prop :=
  zlen a' = zlen a ∧ ∀ i, i < k ∨ k + n ≤ i → a'.[i] = a.[i].

Section cursor.
Context {A : Type}.
Implicit Types (a l : list A) (x : A) (k n : Z).

Lemma holds_nil a k : holds a k [].
Proof. intros j Hj. unfold zlen in Hj. simpl in Hj. lia. Qed.

Lemma zget_cons_0 x l : (x :: l).[0] = Some x.
Proof. done. Qed.
Lemma zget_cons_S x l j : 0 < j → (x :: l).[j] = l.[j - 1].
Proof.
  intros Hj. unfold zget. rewrite !(proj2 (Z.leb_le _ _)) by lia.
  by replace (Z.to_nat j) with (S (Z.to_nat (j - 1))) by lia.
Qed.
Lemma zget_app_l l1 l2 j : j < zlen l1 → (l1 ++ l2).[j] = l1.[j].
Proof.
  intros Hj. unfold zget. destruct (Z.leb_spec 0 j); [|done].
  apply lookup_app_l. unfold zlen in Hj. lia.
Qed.
Lemma zget_app_r l1 l2 j : zlen l1 ≤ j → (l1 ++ l2).[j] = l2.[j - zlen l1].
Proof.
  intros Hj. pose proof (zlen_nonneg l1). unfold zget. rewrite !(proj2 (Z.leb_le _ _)) by lia.
  rewrite lookup_app_r by (unfold zlen in *; lia). f_equal. unfold zlen in *. lia.
Qed.
Lemma zget_out l j : zlen l ≤ j → l.[j] = None.
Proof.
  intros Hj. unfold zget. destruct (Z.leb_spec 0 j); [|done].
  apply lookup_ge_None_2. unfold zlen in Hj. lia.
Qed.

Lemma holds_cons a k x l : a.[k] = Some x → holds a (k + 1) l → holds a k (x :: l).
Proof.
  intros Hx Hl j Hj. rewrite zlen_cons in Hj. destruct (decide (j = 0)) as [->|].
  - by rewrite Z.add_0_r.
  - rewrite zget_cons_S by lia. rewrite <- Hl by lia. f_equal. lia.
Qed.

Lemma holds_agree a a' k l i n :
  holds a k l → agree_off a a' i n → (k + zlen l ≤ i ∨ i + n ≤ k) → holds a' k l.
Proof. intros Hh [_ Ha] Hd j Hj. rewrite Ha by lia. by apply Hh. Qed.

Lemma agree_off_refl a k n : agree_off a a k n.
Proof. done. Qed.
Lemma agree_off_trans a a' a'' k n :
  agree_off a a' k n → agree_off a' a'' k n → agree_off a a'' k n.
Proof. intros [H1 H2] [H3 H4]. split; [lia|]. intros i Hi. by rewrite H4, H2. Qed.
Lemma agree_off_mono a a' k n k' n' :
  agree_off a a' k n → k' ≤ k → k + n ≤ k' + n' → agree_off a a' k' n'.
Proof. intros [H1 H2] ? ?. split; [done|]. intros i Hi. apply H2. lia. Qed.

(** A run of cursor writes. *)
Lemma push_all l : ∀ a k, 0 ≤ k → k + zlen l ≤ zlen a →
  ∃ a', foldM push l (a, k) = Some (a', k + zlen l) ∧ holds a' k l ∧ agree_off a a' k (zlen l).
Proof.
  induction l as [|x l IH]; intros a k Hk Hl.
  { exists a. rewrite Z.add_0_r. split; [done|]. split; [apply holds_nil|done]. }
  rewrite zlen_cons in Hl |- *. pose proof (zlen_nonneg l).
  destruct (zset_total a k x) as [a1 Ha1]; [lia|].
  pose proof (zlen_zset _ _ _ _ Ha1).
  destruct (IH a1 (k + 1)) as (a2 & Hf & Hh & Hag); [lia..|].
  exists a2. cbn. rewrite Ha1. cbn. rewrite Hf. split; [do 2 f_equal; lia|]. split.
  - apply holds_cons; [|done]. destruct Hag as [_ Hag]. rewrite Hag by lia.
    by eapply zget_zset_eq.
  - apply agree_off_trans with a1.
    + split; [done|]. intros i Hi. eapply zget_zset_ne; [done|lia].
    + eapply agree_off_mono; [done|lia..].
Qed.
End cursor.

Lemma holds_app {A} (a : list A) k l1 l2 : holds a k l1 → holds a (k + zlen l1) l2 → holds a k (l1 ++ l2).
Proof.
  intros H1 H2 j Hj. rewrite zlen_app in Hj. destruct (Z.lt_ge_cases j (zlen l1)).
  - rewrite zget_app_l by done. apply H1. lia.
  - rewrite zget_app_r by done. rewrite <- H2 by lia. f_equal. lia.
Qed.

Lemma holds_whole {A} (a l : list A) : holds a 0 l → zlen a = zlen l → a = l.
Proof. intros Hh Hl. apply zlist_ext; [done|]. intros i Hi. rewrite <- Hh by lia. by rewrite Z.add_0_l. Qed.

(** An array laid out as consecutive chunks. *)
Lemma chunks_whole {A} (a : list A) (g : Z → list A) (o : Z → Z) (N : Z) :
  0 ≤ N → o 0 = 0 → (∀ s, 0 ≤ s < N → o (s + 1) = o s + zlen (g s)) →
  (∀ s, 0 ≤ s < N → holds a (o s) (g s)) → zlen a = o N → a = mjoin (map g (range 0 N)).
Proof.
  intros HN H0 HS Hh Hl.
  enough (∀ k : nat, Z.of_nat k ≤ N → let l := mjoin (map g (range 0 (Z.of_nat k))) in
    holds a 0 l ∧ zlen l = o (Z.of_nat k)) as Hk.
  { destruct (Hk (Z.to_nat N)) as [H1 H2]; [lia|]. rewrite Z2Nat.id in H1, H2 by done.
    apply holds_whole; [done|lia]. }
  intros k. induction k as [|k IH]; intros Hk; [by split; [apply holds_nil|]|].
  destruct IH as [H1 H2]; [lia|]. rewrite Nat2Z.inj_succ. unfold Z.succ.
  rewrite range_snoc, map_app, join_app by lia. cbn [map]. rewrite mjoin_cons, app_nil_r.
  split; [|by rewrite zlen_app, H2, HS by lia].
  apply holds_app; [done|]. rewrite H2, Z.add_0_l. apply Hh. lia.
Qed.

(** A loop that acts only on the elements passing a test. *)
Lemma foldM_filter {A B S} (t : A → bool) (g : A → B) (w : B → S → option S) l s :
  foldM (λ r s, if t r then w (g r) s else Some s) l s = foldM w (map g (List.filter t l)) s.
Proof.
  revert s. induction l as [|r l IH]; intros s; [done|]. cbn.
  destruct (t r); cbn; [|apply IH]. destruct (w (g r) s); cbn; [apply IH|done].
Qed.

Lemma foldM_map {A B S} (f : B → S → option S) (g : A → B) l s :
  foldM f (map g l) s = foldM (λ a, f (g a)) l s.
Proof. revert s. induction l as [|a l IH]; intros s; [done|]. cbn. destruct (f (g a) s); cbn; auto. Qed.

Lemma foldM_ext {A S} (f g : A → S → option S) l s :
  (∀ a s, a ∈ l → f a s = g a s) → foldM f l s = foldM g l s.
Proof.
  revert s. induction l as [|a l IH]; intros s H; [done|]. cbn.
  rewrite H by set_solver. destruct (g a s); cbn; [|done]. apply IH. set_solver.
Qed.

(** Reading an array slice in a loop is looping over what it holds. *)
Lemma holds_loop {A S} (f : A → S → option S) (a : list A) k l (st : S) :
  holds a k l →
  foldM (λ i st, x ← a.[k + i]; f x st) (range 0 (zlen l)) st = foldM f l st.
Proof.
  intros Hh. rewrite (foldM_ext _ (λ i st, x ← l.[i]; f x st));
    [|intros i s' Hi%elem_of_range; by rewrite Hh by lia].
  clear. revert st. induction l as [|x l IH]; intros st; [done|].
  rewrite zlen_cons. pose proof (zlen_nonneg l). rewrite range_cons by lia. cbn [foldM].
  rewrite zget_cons_0. cbn. destruct (f x st) as [st'|]; cbn; [|done].
  rewrite <- IH. rewrite range_shift. replace (1 + zlen l - (0 + 1)) with (zlen l) by lia.
  rewrite foldM_map. apply foldM_ext. intros i s' Hi%elem_of_range.
  rewrite zget_cons_S by lia. by replace (0 + 1 + i - 1) with i by lia.
Qed.

Lemma holds_app_l {A} (a b : list A) k l : holds a k l → 0 ≤ k → k + zlen l ≤ zlen a → holds (a ++ b) k l.
Proof. intros Hh Hk Hl j Hj. rewrite zget_app_l by lia. by apply Hh. Qed.

(** ** More on reads and writes *)
Lemma zget_take {A} (l : list A) (m i : Z) : i < m → (take (Z.to_nat m) l).[i] = l.[i].
Proof.
  intros Hi. unfold zget. destruct (Z.leb_spec 0 i); [|done]. apply lookup_take_lt. lia.
Qed.
Lemma zget_elem {A} (l : list A) i x : l.[i] = Some x → x ∈ l.
Proof. unfold zget. destruct (Z.leb_spec 0 i); [|done]. apply list_elem_of_lookup_2. Qed.
Lemma elem_zget {A} (l : list A) x : x ∈ l → ∃ i, 0 ≤ i < zlen l ∧ l.[i] = Some x.
Proof.
  intros [i Hi]%list_elem_of_lookup_1. exists (Z.of_nat i). rewrite zget_lookup. split; [|done].
  apply lookup_lt_Some in Hi. unfold zlen. lia.
Qed.
Lemma zget_nat {A} (l : list A) i : 0 ≤ i → l.[i] = l !! Z.to_nat i.
Proof. intros. unfold zget. by rewrite (proj2 (Z.leb_le _ _)). Qed.
Lemma take_take_app {A} (m : nat) (l k : list A) :
  (m ≤ length l)%nat → take m (take m l ++ k) = take m l.
Proof. intros. by rewrite take_app_le, take_take, Nat.min_id by (rewrite length_take; lia). Qed.
Lemma filter_all {A} (P : A → Prop) `{∀ x, Decision (P x)} l : Forall P l → filter P l = l.
Proof. induction 1; [done|]. rewrite filter_cons_True by done. by f_equal. Qed.
Lemma zget_insert {A} (l : list A) i x j :
  0 ≤ i < zlen l → (<[Z.to_nat i := x]> l).[j] = if i =? j then Some x else l.[j].
Proof.
  intros Hi. pose proof (zset_Some l i x Hi) as Hz. destruct (Z.eqb_spec i j) as [<-|Hne].
  - by eapply zget_zset_eq.
  - by eapply zget_zset_ne.
Qed.
Lemma zlen_insert {A} (l : list A) i x : zlen (<[i := x]> l) = zlen l.
Proof. unfold zlen. by rewrite length_insert. Qed.
Lemma filter_perm {A} (p : A → bool) l k : l ≡ₚ k → List.filter p l ≡ₚ List.filter p k.
Proof.
  induction 1 as [|x l k _ IH|x y l|l k m _ IH1 _ IH2]; [done| | |by etrans]; cbn.
  - destruct (p x); [by constructor|done].
  - destruct (p x), (p y); try done. constructor.
Qed.

(** ** Array writes seen through [holds] *)
Section writes.
Context {A : Type}.
Implicit Types (a l : list A) (k i : Z).

Lemma agree_off_zset a i v a' : zset a i v = Some a' → agree_off a a' i 1.
Proof.
  intros H. split; [by eapply zlen_zset|]. intros j Hj. eapply zget_zset_ne; [done|lia].
Qed.
Lemma holds_zset a k l i v a' :
  holds a k l → zset a i v = Some a' → i < k ∨ k + zlen l ≤ i → holds a' k l.
Proof. intros Hh Hz Hd. eapply holds_agree; [done|by eapply agree_off_zset|lia]. Qed.
Lemma holds_app_inv a k l1 l2 : holds a k (l1 ++ l2) → holds a k l1 ∧ holds a (k + zlen l1) l2.
Proof.
  intros Hh. split; intros j Hj.
  - rewrite Hh by (rewrite zlen_app; pose proof (zlen_nonneg l2); lia). apply zget_app_l. lia.
  - rewrite <- Z.add_assoc, Hh by (rewrite zlen_app; pose proof (zlen_nonneg l1); lia).
    rewrite zget_app_r by lia. f_equal. lia.
Qed.
Lemma holds_single a k x : a.[k] = Some x ↔ holds a k [x].
Proof.
  split.
  - intros Hx j Hj. unfold zlen in Hj. simpl in Hj. assert (j = 0) as -> by lia. by rewrite Z.add_0_r.
  - intros Hh. specialize (Hh 0). rewrite Z.add_0_r in Hh. apply Hh. done.
Qed.
Lemma holds_inv a k x l : holds a k (x :: l) → a.[k] = Some x ∧ holds a (k + 1) l.
Proof. intros Hh. apply (holds_app_inv a k [x] l) in Hh as [Hx Hl]. split; [by apply holds_single|done]. Qed.
Lemma holds_bound a k l : holds a k l → l ≠ [] → 0 ≤ k ∧ k + zlen l ≤ zlen a.
Proof.
  intros Hh Hne. pose proof (zlen_nonneg l).
  assert (Hl : 0 < zlen l) by (destruct l; [done|rewrite zlen_cons; pose proof (zlen_nonneg l); lia]).
  destruct (zget_is_Some l 0) as [x Hx]; [lia|]. destruct (zget_is_Some l (zlen l - 1)) as [y Hy]; [lia|].
  rewrite <- Hh in Hx, Hy by lia. apply zget_Some in Hx, Hy. lia.
Qed.
Lemma holds_snoc_write a k l x a' :
  holds a k l → zset a (k + zlen l) x = Some a' → holds a' k (l ++ [x]).
Proof.
  intros Hh Hz. apply holds_app; [eapply holds_zset; [done..|lia]|].
  apply holds_single. by eapply zget_zset_eq.
Qed.
End writes.
