(* ===== verification/Pool.v ===== *)
(** * The worker pool ([src/src/core/pool.c])

    How a dispatch is cut into tasks, and the claim protocol by which the main
    thread and the workers share them: a step relation on the pool, its ring
    of task slots, its two ticket cursors and the state of every thread. *)

From S2P Require Import Prelude.
Local Open Scope Z_scope.

(** ** Cutting a dispatch into tasks *)
Definition RAY_MORSEL_ELEMS : Z := 1024.
Definition RAY_DISPATCH_MORSELS : Z := 8.
Definition TASK_GRAIN : Z := RAY_DISPATCH_MORSELS * RAY_MORSEL_ELEMS.
Definition MAX_RING_CAP : Z := 2 ^ 16.
Definition RAY_POOL_INIT_TASKS : Z := 1024.

(** The work function with its context is named by a number. *)
Record task := Task { t_fn : Z; t_start : Z; t_end : Z }.

(** The ring's capacity is doubled up to [MAX_RING_CAP]; 32 doublings reach
    it from any non-zero capacity. *)
Fixpoint grow_cap (fuel : nat) (new_cap n_tasks : Z) : Z :=
  if (new_cap <? n_tasks) && (new_cap <? MAX_RING_CAP) then
    match fuel with
    | O => new_cap
    | S fuel => grow_cap fuel (u32 (new_cap * 2)) n_tasks
    end
  else new_cap.

(** Capacity after "grow ring if needed"; [realloc_ok] tells whether
    [ray_sys_realloc] succeeds. *)
Definition ring_reserve (realloc_ok : bool) (task_cap n_tasks : Z) : Z :=
  if task_cap <? n_tasks then
    let new_cap := grow_cap 32 task_cap n_tasks in
    if task_cap <? new_cap then (if realloc_ok then new_cap else task_cap) else task_cap
  else task_cap.

Definition mk_task (fn grain total i : Z) : task :=
  let start := i * grain in
  let end_ := start + grain in
  Task fn start (if total <? end_ then total else end_).

(** [ray_pool_dispatch]: the tasks of a dispatch over [total] elements. *)
Definition dispatch_tasks (realloc_ok : bool) (task_cap fn total : Z) : Z * list task :=
  if total <=? 0 then (task_cap, []) else
  let total := if INT64_MAX - TASK_GRAIN + 1 <? total then INT64_MAX - TASK_GRAIN + 1 else total in
  let n_tasks := u32 ((total + TASK_GRAIN - 1) / TASK_GRAIN) in
  let cap := ring_reserve realloc_ok task_cap n_tasks in
  if cap <? n_tasks
  then (cap, map (mk_task fn ((total + cap - 1) / cap) total) (range 0 cap))
  else (cap, map (mk_task fn TASK_GRAIN total) (range 0 n_tasks)).

(** [ray_pool_dispatch_n]: one task per partition. *)
Definition dispatch_n_tasks (realloc_ok : bool) (task_cap fn n_tasks : Z) : Z * list task :=
  if n_tasks =? 0 then (task_cap, []) else
  let cap := ring_reserve realloc_ok task_cap n_tasks in
  let n_tasks := if cap <? n_tasks then cap else n_tasks in
  (cap, map (λ i, Task fn i (i + 1)) (range 0 n_tasks)).

(** The elements a task's [for (i = start; i < end; i++)] visits. *)
Definition task_elems (t : task) : list Z := range (t_start t) (t_end t).

(** ** The claim protocol *)

(** A thread in its drain loop: before [pool_claim], holding a ticket, or past
    the task and before the decrement of [pending]. *)
Inductive wstate := Idle | Claimed (ticket : Z) | Finishing.

(** The main thread in a dispatch: filling slot [i], about to store [pending],
    about to publish [task_limit], draining and waiting. *)
Inductive mstate :=
| MIdle
| MFill (ts : list task) (base : Z) (i : nat)
| MPending (ts : list task) (base : Z)
| MDrain (ts : list task).

Record pool := Pool {
  tasks : list task;       (* the ring; its length is [task_cap] *)
  task_claim : Z;
  task_limit : Z;
  pending : Z;
  cancelled : bool;
  workers : list wstate;   (* thread 0 is the main thread *)
  main : mstate;
  log : list task;         (* ghost: tasks run since the dispatch began *)
}.

Definition task_cap (p : pool) : Z := zlen (tasks p).
Definition slot (p : pool) (ticket : Z) : Z := Z.land ticket (task_cap p - 1).

Definition set_worker (p : pool) (w : nat) (s : wstate) : list wstate := <[w := s]> (workers p).

(** Thread 0 drains only inside a dispatch. *)
Definition may_drain (p : pool) (w : nat) : Prop :=
  w = 0%nat → ∃ ts, main p = MDrain ts.

Inductive step : pool → pool → Prop :=
(** A dispatch begins: its tasks are cut and the ring may have been
    reallocated, which keeps its slots. *)
| step_begin p by_n realloc_ok fn n cap ts junk :
    main p = MIdle →
    (if by_n : bool then dispatch_n_tasks else dispatch_tasks) realloc_ok (task_cap p) fn n = (cap, ts) →
    ts ≠ [] → zlen (tasks p ++ junk) = cap →
    step p (Pool (tasks p ++ junk) (task_claim p) (task_limit p) (pending p) (cancelled p) (workers p)
              (MFill ts (task_limit p) 0) [])
| step_fill p ts base i t ring :
    main p = MFill ts base i → ts !! i = Some t →
    zset (tasks p) (slot p (base + Z.of_nat i)) t = Some ring →
    step p (Pool ring (task_claim p) (task_limit p) (pending p) (cancelled p) (workers p)
              (MFill ts base (S i)) (log p))
| step_pending p ts base :
    main p = MFill ts base (length ts) →
    step p (Pool (tasks p) (task_claim p) (task_limit p) (zlen ts) (cancelled p) (workers p)
              (MPending ts base) (log p))
| step_publish p ts base :
    main p = MPending ts base →
    step p (Pool (tasks p) (task_claim p) (base + zlen ts) (pending p) (cancelled p) (workers p)
              (MDrain ts) (log p))
(** [pool_claim]: the successful compare-and-swap. *)
| step_claim p w :
    workers p !! w = Some Idle → may_drain p w → task_claim p < task_limit p →
    step p (Pool (tasks p) (task_claim p + 1) (task_limit p) (pending p) (cancelled p)
              (set_worker p w (Claimed (task_claim p))) (main p) (log p))
(** The claimed task is run, or skipped when the query was cancelled. *)
| step_run p w ticket t :
    workers p !! w = Some (Claimed ticket) → cancelled p = false →
    (tasks p).[slot p ticket] = Some t →
    step p (Pool (tasks p) (task_claim p) (task_limit p) (pending p) (cancelled p)
              (set_worker p w Finishing) (main p) (log p ++ [t]))
| step_skip p w ticket :
    workers p !! w = Some (Claimed ticket) → cancelled p = true →
    step p (Pool (tasks p) (task_claim p) (task_limit p) (pending p) (cancelled p)
              (set_worker p w Finishing) (main p) (log p))
| step_finish p w :
    workers p !! w = Some Finishing →
    step p (Pool (tasks p) (task_claim p) (task_limit p) (pending p - 1) (cancelled p)
              (set_worker p w Idle) (main p) (log p))
| step_cancel p :
    step p (Pool (tasks p) (task_claim p) (task_limit p) (pending p) true (workers p) (main p) (log p))
(** The next query clears the flag, outside any dispatch. *)
| step_reset p :
    main p = MIdle →
    step p (Pool (tasks p) (task_claim p) (task_limit p) (pending p) false (workers p) (main p) (log p))
(** The barrier: thread 0 found no ticket and read [pending = 0]. *)
| step_barrier p ts :
    main p = MDrain ts → workers p !! 0%nat = Some Idle →
    task_limit p ≤ task_claim p → pending p = 0 →
    step p (Pool (tasks p) (task_claim p) (task_limit p) (pending p) (cancelled p) (workers p)
              MIdle (log p)).

(** [ray_pool_create]: an empty ring window and every thread idle. *)
Definition pool_init (ring : list task) (n_workers : nat) : pool :=
  Pool ring 0 0 0 false (replicate (S n_workers) Idle) MIdle [].
