(* ===== verification/PoolProofs.v ===== *)
(** * Theorems about the worker pool *)

From S2P Require Import Prelude Pool.
Local Open Scope Z_scope.

(** ** Task cutting *)
Lemma grow_cap_pow fuel k n :
  0 ≤ k ≤ 16 → ∃ k', grow_cap fuel (2 ^ k) n = 2 ^ k' ∧ k ≤ k' ≤ 16.
Proof.
  revert k. induction fuel as [|fuel IH]; intros k Hk; cbn [grow_cap].
  { exists k. destruct (_ && _); (split; [done|lia]). }
  destruct (Z.ltb_spec (2 ^ k) n), (Z.ltb_spec (2 ^ k) MAX_RING_CAP) as [Hc|]; cbn [andb];
    try (exists k; split; [done|lia]).
  assert (k < 16) by (apply (Z.pow_lt_mono_r_iff 2); [lia..|exact Hc]).
  replace (2 ^ k * 2) with (2 ^ (k + 1)) by (rewrite Z.pow_add_r by lia; lia).
  rewrite wrap_id.
  - destruct (IH (k + 1)) as (k' & -> & ?); [lia|]. exists k'. split; [done|lia].
  - split; [lia|]. apply Z.pow_lt_mono_r; lia.
Qed.

Lemma ring_reserve_pow ok k n :
  0 ≤ k ≤ 16 → ∃ k', ring_reserve ok (2 ^ k) n = 2 ^ k' ∧ k ≤ k' ≤ 16.
Proof.
  intros Hk. unfold ring_reserve. destruct (_ <? n); [|exists k; split; [done|lia]].
  destruct (grow_cap_pow 32 k n) as (k' & -> & ?); [done|].
  destruct (_ <? _); [destruct ok|]; [exists k'; split; [done|lia]|exists k; split; [done|lia]..].
Qed.

(** The first [i] tasks cover a prefix of the elements. *)
Lemma tasks_cover fn grain total (i : nat) :
  0 < grain → 0 ≤ total →
  mjoin (map task_elems (map (mk_task fn grain total) (range 0 (Z.of_nat i))))
  = range 0 (Z.min (Z.of_nat i * grain) total).
Proof.
  intros Hg Ht. induction i as [|i IH].
  - rewrite !range_empty by lia. done.
  - rewrite Nat2Z.inj_succ. unfold Z.succ. rewrite range_snoc, !map_app, join_app, IH by lia.
    cbn [map]. change (mjoin [?l]) with (l ++ []). rewrite app_nil_r.
    unfold task_elems, mk_task. cbn [t_start t_end].
    destruct (Z.leb_spec total (Z.of_nat i * grain)).
    + rewrite (range_empty (Z.of_nat i * grain)) by (destruct (_ <? _) eqn:?; nia).
      rewrite app_nil_r. f_equal. nia.
    + rewrite (Z.min_l (Z.of_nat i * grain)) by lia. rewrite range_app.
      * f_equal. destruct (Z.ltb_spec total (Z.of_nat i * grain + grain)); nia.
      * destruct (Z.ltb_spec total (Z.of_nat i * grain + grain)); nia.
Qed.

Lemma dispatch_tasks_cover ok k fn total cap ts :
  0 ≤ k ≤ 16 → 0 ≤ total ≤ 2 ^ 44 → dispatch_tasks ok (2 ^ k) fn total = (cap, ts) →
  mjoin (map task_elems ts) = range 0 total.
Proof.
  intros Hk Ht. unfold dispatch_tasks.
  destruct (Z.leb_spec total 0); [intros [= <- <-]; by rewrite range_empty by lia|].
  change (INT64_MAX - TASK_GRAIN + 1) with (2 ^ 63 - TASK_GRAIN).
  unfold TASK_GRAIN, RAY_DISPATCH_MORSELS, RAY_MORSEL_ELEMS. change (8 * 1024) with 8192.
  cbv zeta. rewrite (proj2 (Z.ltb_ge (2 ^ 63 - 8192) total)) by lia.
  set (n := (total + 8192 - 1) / 8192). assert (0 < n < 2 ^ 32 ∧ total ≤ n * 8192) as [Hn Hcov].
  { unfold n. pose proof (Z.div_mod (total + 8192 - 1) 8192). 
    pose proof (Z.mod_pos_bound (total + 8192 - 1) 8192). lia. }
  rewrite wrap_id by (unfold in_u; lia).
  destruct (ring_reserve_pow ok k n) as (k' & -> & Hk'); [done|].
  assert (0 < 2 ^ k') by (apply Z.pow_pos_nonneg; lia).
  destruct (Z.ltb_spec (2 ^ k') n); intros [= <- <-].
  - set (grain := (total + 2 ^ k' - 1) / 2 ^ k').
    pose proof (Z.div_mod (total + 2 ^ k' - 1) (2 ^ k')).
    pose proof (Z.mod_pos_bound (total + 2 ^ k' - 1) (2 ^ k')).
    pose proof (tasks_cover fn grain total (Z.to_nat (2 ^ k'))) as Hc.
    rewrite Z2Nat.id in Hc by lia. rewrite Hc; [|apply Z.div_str_pos; lia|lia].
    f_equal. apply Z.min_r. fold grain in H1. nia.
  - pose proof (tasks_cover fn 8192 total (Z.to_nat n)) as Hc.
    rewrite Z2Nat.id in Hc by lia. rewrite Hc by lia. f_equal. lia.
Qed.

(** Every dispatch fits its ring, whose capacity stays a power of two. *)
Definition cap_ok (cap : Z) : Prop := ∃ k, 0 ≤ k ≤ 16 ∧ cap = 2 ^ k.

Lemma dispatch_fits (by_n : bool) ok cap fn n cap' ts :
  cap_ok cap →
  (if by_n then dispatch_n_tasks else dispatch_tasks) ok cap fn n = (cap', ts) →
  ts ≠ [] → cap_ok cap' ∧ zlen ts ≤ cap'.
Proof.
  intros (k & Hk & ->).
  assert (∀ n, cap_ok (ring_reserve ok (2 ^ k) n)) as Hcap.
  { intros m. destruct (ring_reserve_pow ok k m) as (k' & -> & ?); [done|]. exists k'. split; [lia|done]. }
  destruct by_n; unfold dispatch_n_tasks, dispatch_tasks.
  - destruct (_ =? 0); [by intros [= <- <-]|].
    intros [= <- <-] _. split; [done|]. autorewrite with zlen. specialize (Hcap n).
    destruct Hcap as (k' & ? & ->). destruct (Z.ltb_spec (2 ^ k') n); lia.
  - destruct (_ <=? 0); [by intros [= <- <-]|]. cbv zeta.
    match goal with |- context [ring_reserve ok (2 ^ k) ?m] => set (nt := m) end.
    specialize (Hcap nt). destruct Hcap as (k' & ? & Hr). rewrite Hr.
    destruct (Z.ltb_spec (2 ^ k') nt); intros [= <- <-] _;
      (split; [by exists k'|]); autorewrite with zlen; lia.
Qed.

(** ** The claim protocol *)

Lemma list_split_at {A} (l : list A) w a :
  l !! w = Some a → ∃ l1 l2, l = l1 ++ a :: l2 ∧ ∀ b, <[w := b]> l = l1 ++ b :: l2.
Proof.
  intros Hw. exists (take w l), (drop (S w) l). split; [by rewrite take_drop_middle|].
  intros b. apply insert_take_drop. by eapply lookup_lt_Some.
Qed.

Definition busy (ws : list wstate) : Z :=
  zsum (map (λ s, match s with Idle => 0 | _ => 1 end) ws).

(** The tasks whose tickets are claimed and not yet run. *)
Definition held (ts : list task) (base : Z) (ws : list wstate) : list task :=
  omap (λ s, match s with Claimed t => ts !! Z.to_nat (t - base) | _ => None end) ws.

#[local] Arguments busy : simpl never.
#[local] Arguments held : simpl never.

Definition all_idle (ws : list wstate) : Prop := Forall (λ s, s = Idle) ws.

Lemma busy_nonneg ws : 0 ≤ busy ws.
Proof. unfold busy, zsum. induction ws as [|s ws IH]; [done|]. cbn. destruct s; lia. Qed.

Lemma busy_update ws w s s' :
  ws !! w = Some s →
  busy (<[w := s']> ws) = busy ws - match s with Idle => 0 | _ => 1 end
                                  + match s' with Idle => 0 | _ => 1 end.
Proof.
  intros (l1 & l2 & -> & Hi)%list_split_at. rewrite Hi. unfold busy.
  rewrite !map_app, !zsum_app. cbn. fold (zsum (map (λ s, match s with Idle => 0 | _ => 1 end) l2)).
  destruct s, s'; lia.
Qed.

Lemma busy_zero ws : busy ws = 0 → all_idle ws.
Proof.
  induction ws as [|s ws IH]; [constructor|]. intros H.
  change (busy (s :: ws)) with (match s with Idle => 0 | _ => 1 end + busy ws) in H.
  pose proof (busy_nonneg ws). destruct s; [|lia..]. constructor; [done|]. apply IH. lia.
Qed.

Lemma busy_idle ws : all_idle ws → busy ws = 0.
Proof. induction 1 as [|s ws -> _ IH]; [done|exact IH]. Qed.

Lemma held_update ts base ws w s s' :
  ws !! w = Some s → ∀ rest,
  rest ++ held ts base ws ≡ₚ rest ++ held ts base [s] ++ held ts base (<[w := Idle]> ws) ∧
  rest ++ held ts base (<[w := s']> ws) ≡ₚ
  rest ++ held ts base [s'] ++ held ts base (<[w := Idle]> ws).
Proof.
  intros (l1 & l2 & -> & Hi)%list_split_at rest. rewrite !Hi. unfold held.
  assert (∀ s, omap (λ s, match s with Claimed t => ts !! Z.to_nat (t - base) | _ => None end)
    (l1 ++ s :: l2) ≡ₚ
    omap (λ s, match s with Claimed t => ts !! Z.to_nat (t - base) | _ => None end) [s] ++
    omap (λ s, match s with Claimed t => ts !! Z.to_nat (t - base) | _ => None end) (l1 ++ l2)) as H.
  { intros x. rewrite !omap_app. cbn. by destruct x as [|t|]; [|destruct (ts !! _)|]; cbn;
      rewrite <- ?Permutation_middle. }
  split; apply Permutation_app_head; rewrite H, (H Idle); done.
Qed.

Lemma held_idle ts base ws : all_idle ws → held ts base ws = [].
Proof. induction 1 as [|s ws -> _ IH]; [done|exact IH]. Qed.

(** The ring holds the window's tasks from [base] on, the first [n] of them. *)
Definition ring_holds (p : pool) (ts : list task) (base : Z) (n : nat) : Prop :=
  ∀ j, (j < n)%nat → (tasks p).[slot p (base + Z.of_nat j)] = ts !! j.

#[local] Arguments ring_holds : simpl never.

Definition window (p : pool) : Prop :=
  match main p with
  | MIdle => task_claim p = task_limit p ∧ all_idle (workers p)
  | MFill ts base i =>
      task_claim p = task_limit p ∧ all_idle (workers p) ∧ base = task_limit p ∧
      (i ≤ length ts)%nat ∧ zlen ts ≤ task_cap p ∧ log p = [] ∧ ring_holds p ts base i
  | MPending ts base =>
      task_claim p = task_limit p ∧ all_idle (workers p) ∧ base = task_limit p ∧
      zlen ts ≤ task_cap p ∧ log p = [] ∧ ring_holds p ts base (length ts) ∧ pending p = zlen ts
  | MDrain ts =>
      ∃ base, base + zlen ts = task_limit p ∧ base ≤ task_claim p ≤ task_limit p ∧ 0 ≤ base ∧
        zlen ts ≤ task_cap p ∧ ring_holds p ts base (length ts) ∧
        pending p = (task_limit p - task_claim p) + busy (workers p) ∧
        Forall (λ s, match s with Claimed t => base ≤ t < task_claim p | _ => True end) (workers p) ∧
        log p ++ held ts base (workers p) ⊆+ take (Z.to_nat (task_claim p - base)) ts ∧
        (cancelled p = false →
         log p ++ held ts base (workers p) ≡ₚ take (Z.to_nat (task_claim p - base)) ts)
  end.

Definition pool_inv (p : pool) : Prop :=
  cap_ok (task_cap p) ∧ 0 ≤ task_claim p ∧ window p.

Lemma slot_mod p t : cap_ok (task_cap p) → slot p t = t `mod` task_cap p.
Proof.
  intros (k & Hk & Hc). unfold slot. rewrite Hc. rewrite <- Z.land_ones by lia.
  f_equal. rewrite Z.ones_equiv. lia.
Qed.

Lemma cap_pos p : cap_ok (task_cap p) → 0 < task_cap p.
Proof. intros (k & Hk & ->). apply Z.pow_pos_nonneg; lia. Qed.

(** Two tickets of one window never share a slot. *)
Lemma slot_inj p base i j :
  cap_ok (task_cap p) → 0 ≤ i < task_cap p → 0 ≤ j < task_cap p →
  slot p (base + i) = slot p (base + j) → i = j.
Proof.
  intros Hc Hi Hj. rewrite !slot_mod by done. intros H. pose proof (cap_pos _ Hc).
  rewrite <- (Z.mod_small i (task_cap p)), <- (Z.mod_small j (task_cap p)) by lia.
  replace i with ((base + i) - base) by lia. replace j with ((base + j) - base) by lia.
  by rewrite (Zminus_mod (base + i)), (Zminus_mod (base + j)), H.
Qed.

Lemma pool_inv_init ring n : cap_ok (zlen ring) → pool_inv (pool_init ring n).
Proof.
  intros H. split; [done|]. split; [done|]. split; [done|]. unfold pool_init, all_idle. cbn [workers].
  by apply Forall_replicate.
Qed.

Lemma all_idle_lookup ws w s : all_idle ws → ws !! w = Some s → s = Idle.
Proof. intros H Hw. exact (Forall_lookup_1 _ _ _ _ H Hw). Qed.

(** Outside [MDrain] no ticket is open and no thread is in its loop. *)
Lemma window_closed p :
  window p → (∀ ts, main p ≠ MDrain ts) → task_claim p = task_limit p ∧ all_idle (workers p).
Proof. unfold window. intros H Hm. destruct (main p); naive_solver. Qed.

Lemma busy_drains p w s :
  window p → workers p !! w = Some s → s ≠ Idle → ∃ ts, main p = MDrain ts.
Proof.
  intros Hw Hs Hne. destruct (main p) as [| | |ts] eqn:Hm; [exfalso..|by exists ts];
    destruct (window_closed p Hw) as [_ Hi]; try congruence;
    by apply Hne, (all_idle_lookup _ _ _ Hi Hs).
Qed.

Lemma begin_inv p by_n ok fn n cap ts junk :
  pool_inv p → main p = MIdle →
  (if by_n : bool then dispatch_n_tasks else dispatch_tasks) ok (task_cap p) fn n = (cap, ts) →
  ts ≠ [] → zlen (tasks p ++ junk) = cap →
  pool_inv (Pool (tasks p ++ junk) (task_claim p) (task_limit p) (pending p) (cancelled p) (workers p)
              (MFill ts (task_limit p) 0) []).
Proof.
  intros (Hc & Hn & Hw) Hm Hd Hts Hl.
  destruct (dispatch_fits by_n ok _ fn n cap ts Hc Hd Hts) as [Hc' Hfit].
  unfold window in Hw. rewrite Hm in Hw. destruct Hw as [Hw Hi].
  unfold pool_inv, window, task_cap. cbn. rewrite Hl.
  do 2 (split; [done|]). do 3 (split; [done|]). split; [lia|]. split; [done|]. split; [done|].
  intros j ?. lia.
Qed.

Lemma fill_inv p ts base i t ring :
  pool_inv p → main p = MFill ts base i → ts !! i = Some t →
  zset (tasks p) (slot p (base + Z.of_nat i)) t = Some ring →
  pool_inv (Pool ring (task_claim p) (task_limit p) (pending p) (cancelled p) (workers p)
              (MFill ts base (S i)) (log p)).
Proof.
  intros (Hc & Hn & Hw) Hm Ht Hs. unfold window in Hw. rewrite Hm in Hw.
  destruct Hw as (Hcl & Hi & -> & Hle & Hfit & Hlog & Hr).
  pose proof (zlen_zset _ _ _ _ Hs) as Hlen. pose proof (lookup_lt_Some _ _ _ Ht) as Hlt.
  unfold pool_inv, window, task_cap. cbn. rewrite Hlen.
  do 2 (split; [done|]). do 3 (split; [done|]). split; [lia|]. split; [done|]. split; [done|].
  intros j Hj. cbn. unfold slot, task_cap. cbn. rewrite Hlen.
  destruct (decide (j = i)) as [->|Hne].
  - fold (task_cap p). fold (slot p (task_limit p + Z.of_nat i)). rewrite Ht.
    by eapply zget_zset_eq.
  - erewrite zget_zset_ne; [apply Hr; lia|done|].
    intros He. apply Hne. unfold zlen in Hfit.
    enough (Z.of_nat i = Z.of_nat j) by lia.
    apply (slot_inj p (task_limit p)); [done|lia|lia|exact He].
Qed.

Lemma claim_inv p w :
  pool_inv p → workers p !! w = Some Idle → task_claim p < task_limit p →
  pool_inv (Pool (tasks p) (task_claim p + 1) (task_limit p) (pending p) (cancelled p)
              (set_worker p w (Claimed (task_claim p))) (main p) (log p)).
Proof.
  intros (Hc & Hn & Hw) Hw' Hlt.
  unfold pool_inv, window, task_cap in *. cbn. unfold set_worker. split; [done|]. split; [lia|].
  destruct (main p) as [| | |ts] eqn:Hm; [naive_solver lia..|].
  destruct Hw as (base & Hb & Hcl & Hb0 & Hfit & Hr & Hp & Hh & Hsub & Hperm).
  exists base. do 2 (split; [lia|]). do 2 (split; [lia|]). split; [exact Hr|].
  split. { rewrite (busy_update _ _ _ _ Hw'). lia. }
  split. { apply Forall_insert; [|lia]. eapply Forall_impl; [exact Hh|]. intros []; lia. }
  destruct (lookup_lt_is_Some_2 ts (Z.to_nat (task_claim p - base))) as [t Ht];
    [unfold zlen in *; lia|].
  replace (Z.to_nat (task_claim p + 1 - base)) with (S (Z.to_nat (task_claim p - base))) by lia.
  rewrite (take_S_r _ _ _ Ht).
  destruct (held_update ts base (workers p) w Idle (Claimed (task_claim p)) Hw' (log p)) as [H1 H2].
  unfold held at 2 in H1. unfold held at 2 in H2. cbn in H1, H2. rewrite Ht in H2. cbn in H2. rewrite H2.
  rewrite <- Permutation_middle, (Permutation_cons_append _ t).
  split.
  - apply submseteq_app; [|done]. by rewrite <- H1.
  - intros Hf. apply Permutation_app_tail. rewrite <- H1. auto.
Qed.

Lemma run_inv p w ticket t :
  pool_inv p → workers p !! w = Some (Claimed ticket) → (tasks p).[slot p ticket] = Some t →
  pool_inv (Pool (tasks p) (task_claim p) (task_limit p) (pending p) (cancelled p)
              (set_worker p w Finishing) (main p) (log p ++ [t])).
Proof.
  intros (Hc & Hn & Hw) Hw' Ht.
  destruct (busy_drains _ _ _ Hw Hw') as [ts Hm]; [done|].
  unfold pool_inv, window, task_cap in *. cbn. unfold set_worker. do 2 (split; [done|]).
  rewrite Hm in *.
  destruct Hw as (base & Hb & Hcl & Hb0 & Hfit & Hr & Hp & Hh & Hsub & Hperm).
  exists base. do 4 (split; [done|]). split; [exact Hr|].
  split. { rewrite (busy_update _ _ _ _ Hw'). lia. }
  split. { by apply Forall_insert. }
  pose proof (Forall_lookup_1 _ _ _ _ Hh Hw') as Hrange. cbn in Hrange.
  assert (ts !! Z.to_nat (ticket - base) = Some t) as Hts.
  { rewrite <- Hr by (unfold zlen in *; lia). rewrite Z2Nat.id by lia.
    by replace (base + (ticket - base)) with ticket by lia. }
  destruct (held_update ts base (workers p) w _ Finishing Hw' (log p)) as [H1 H2].
  unfold held at 2 in H1. cbn in H1. rewrite Hts in H1. cbn in H1.
  destruct (held_update ts base (workers p) w _ Finishing Hw' (log p ++ [t])) as [_ H3].
  unfold held at 2 in H3. cbn in H3. rewrite H3, <- app_assoc. cbn. rewrite <- H1. done.
Qed.

Lemma skip_inv p w ticket :
  pool_inv p → workers p !! w = Some (Claimed ticket) → cancelled p = true →
  pool_inv (Pool (tasks p) (task_claim p) (task_limit p) (pending p) (cancelled p)
              (set_worker p w Finishing) (main p) (log p)).
Proof.
  intros (Hc & Hn & Hw) Hw' Hca.
  destruct (busy_drains _ _ _ Hw Hw') as [ts Hm]; [done|].
  unfold pool_inv, window, task_cap in *. cbn. unfold set_worker. do 2 (split; [done|]).
  rewrite Hm in *.
  destruct Hw as (base & Hb & Hcl & Hb0 & Hfit & Hr & Hp & Hh & Hsub & Hperm).
  exists base. do 4 (split; [done|]). split; [exact Hr|].
  split. { rewrite (busy_update _ _ _ _ Hw'). lia. }
  split. { by apply Forall_insert. }
  split; [|congruence].
  destruct (held_update ts base (workers p) w _ Finishing Hw' (log p)) as [H1 H2].
  unfold held at 2 in H2. cbn in H2. rewrite H2, <- Hsub, H1. apply submseteq_skips_l, submseteq_inserts_l. done.
Qed.

Lemma finish_inv p w :
  pool_inv p → workers p !! w = Some Finishing →
  pool_inv (Pool (tasks p) (task_claim p) (task_limit p) (pending p - 1) (cancelled p)
              (set_worker p w Idle) (main p) (log p)).
Proof.
  intros (Hc & Hn & Hw) Hw'.
  destruct (busy_drains _ _ _ Hw Hw') as [ts Hm]; [done|].
  unfold pool_inv, window, task_cap in *. cbn. unfold set_worker. do 2 (split; [done|]).
  rewrite Hm in *.
  destruct Hw as (base & Hb & Hcl & Hb0 & Hfit & Hr & Hp & Hh & Hsub & Hperm).
  exists base. do 4 (split; [done|]). split; [exact Hr|].
  split. { rewrite (busy_update _ _ _ _ Hw'). lia. }
  split. { by apply Forall_insert. }
  destruct (held_update ts base (workers p) w _ Idle Hw' (log p)) as [H1 H2].
  unfold held at 2 in H1. cbn in H1. by rewrite <- H1.
Qed.

Lemma step_inv p p' : step p p' → pool_inv p → pool_inv p'.
Proof.
  intros Hs Hinv. inversion Hs; subst; clear Hs;
    eauto using begin_inv, fill_inv, claim_inv, run_inv, skip_inv, finish_inv;
    destruct Hinv as (Hc & Hn & Hw); unfold pool_inv, window, task_cap in *; cbn;
    repeat match goal with H : main _ = _ |- _ => rewrite H in * end.
  - destruct Hw as (? & ? & ? & ? & ? & ? & ?). done.
  - destruct Hw as (Hcl & Hi & -> & ? & Hl & Hr & Hp). do 2 (split; [done|]).
    exists (task_limit p). pose proof (zlen_nonneg ts). rewrite Hcl, Hp, Z.sub_diag, Hl.
    rewrite busy_idle, held_idle by done. cbn [app Z.to_nat take].
    do 4 (split; [lia|]). split; [exact Hr|]. split; [lia|].
    split; [|done]. eapply Forall_impl; [exact Hi|]. by intros ? ->.
  - do 2 (split; [done|]). destruct (main p); try done.
    destruct Hw as (base & Hw). exists base. naive_solver.
  - done.
  - do 2 (split; [done|]). destruct Hw as (base & ? & ? & ? & ? & ? & Hp & _).
    split; [lia|]. apply busy_zero. pose proof (busy_nonneg (workers p)). lia.
Qed.

Lemma reachable_inv p p' : pool_inv p → rtc step p p' → pool_inv p'.
Proof. intros Hp. induction 1; eauto using step_inv. Qed.

(** ** The barrier *)
Lemma barrier_closed p ts :
  pool_inv p → main p = MDrain ts → pending p = 0 →
  all_idle (workers p) ∧ task_claim p = task_limit p ∧ log p ⊆+ ts ∧
  (cancelled p = false → log p ≡ₚ ts).
Proof.
  intros (_ & _ & Hw) Hm Hp. unfold window in Hw. rewrite Hm in Hw.
  destruct Hw as (base & Hb & Hcl & _ & _ & _ & Hpe & _ & Hsub & Hperm).
  pose proof (busy_nonneg (workers p)).
  assert (all_idle (workers p)) as Hi by (apply busy_zero; lia).
  rewrite (held_idle _ _ _ Hi), app_nil_r in *.
  assert (task_claim p = task_limit p) as He by lia.
  rewrite take_ge in * by (unfold zlen in *; lia). done.
Qed.

(** ** Progress *)

(** Work left before the barrier opens: three moves per unclaimed ticket, two
    per claimed one, one per finishing thread. *)
Definition drain_measure (p : pool) : Z :=
  3 * (task_limit p - task_claim p) +
  zsum (map (λ s, match s with Idle => 0 | Claimed _ => 2 | Finishing => 1 end) (workers p)).

(** A thread's own move, as opposed to the main thread's or the canceller's. *)
Definition drain_step (p p' : pool) : Prop :=
  step p p' ∧ main p' = main p ∧ workers p' ≠ workers p.

Definition wcost (s : wstate) : Z := match s with Idle => 0 | Claimed _ => 2 | Finishing => 1 end.

Lemma wcost_update ws w s s' :
  ws !! w = Some s →
  zsum (map wcost (<[w := s']> ws)) = zsum (map wcost ws) - wcost s + wcost s'.
Proof.
  intros (l1 & l2 & -> & Hi)%list_split_at. rewrite Hi, !map_app, !zsum_app.
  cbn [map]. unfold zsum. cbn. lia.
Qed.

Lemma wcost_nonneg ws : 0 ≤ zsum (map wcost ws).
Proof. unfold zsum. induction ws as [|s ws IH]; [done|]. cbn. destruct s; cbn; lia. Qed.

Lemma drain_measure_nonneg p : pool_inv p → 0 ≤ drain_measure p.
Proof.
  intros (_ & _ & Hw). unfold drain_measure. pose proof (wcost_nonneg (workers p)) as Hc.
  fold wcost. enough (task_claim p ≤ task_limit p) by lia.
  unfold window in Hw. destruct (main p); naive_solver lia.
Qed.

Lemma drain_measure_dec p p' : drain_step p p' → drain_measure p' < drain_measure p.
Proof.
  intros (Hs & _ & Hne). unfold drain_measure. fold wcost. inversion Hs; subst; cbn in *; try done;
    unfold set_worker; match goal with H : workers p !! _ = Some _ |- _ =>
      rewrite (wcost_update _ _ _ _ H); unfold wcost; lia end.
Qed.

Lemma workers_length p p' : rtc step p p' → length (workers p') = length (workers p).
Proof.
  induction 1 as [|p1 p2 p3 Hs _ IH]; [done|]. rewrite IH.
  inversion Hs; subst; cbn; unfold set_worker; by rewrite ?length_insert.
Qed.

Lemma find_busy ws : all_idle ws ∨ ∃ w s, ws !! w = Some s ∧ s ≠ Idle.
Proof.
  induction ws as [|s ws [IH|(w & s' & Hw & Hs)]]; [left; constructor| |].
  - destruct s as [|t|]; [left; by constructor|right; by exists 0%nat, (Claimed t)|].
    right. by exists 0%nat, Finishing.
  - right. by exists (S w), s'.
Qed.

Lemma insert_ne (ws : list wstate) w s s' : ws !! w = Some s → s ≠ s' → <[w := s']> ws ≠ ws.
Proof.
  intros Hw Hne He. apply Hne. apply (f_equal (lookup w)) in He.
  rewrite list_lookup_insert_eq in He by (by eapply lookup_lt_Some). congruence.
Qed.

(** In a drain some thread can always move, or the barrier is open. *)
Lemma drain_progress p ts :
  pool_inv p → main p = MDrain ts → workers p ≠ [] →
  (∃ p', drain_step p p') ∨ (∃ p', step p p' ∧ main p' = MIdle).
Proof.
  intros (Hc & Hn & Hw) Hm Hne. unfold window in Hw. rewrite Hm in Hw.
  destruct Hw as (base & Hb & Hcl & Hb0 & Hfit & Hr & Hp & Hh & _).
  destruct (find_busy (workers p)) as [Hi|(w & s & Hws & Hs)].
  - destruct (workers p) as [|s0 ws] eqn:Hws; [done|].
    assert (workers p !! 0%nat = Some Idle) as H0
      by (rewrite Hws; cbn; f_equal; by inversion Hi).
    destruct (Z.lt_ge_cases (task_claim p) (task_limit p)).
    + left. eexists. split; [apply step_claim with (w := 0%nat); [done|by intros _; exists ts|done]|].
      split; [done|]. by apply (insert_ne _ _ _ _ H0).
    + right. eexists. split; [eapply step_barrier; [done|done|lia|]|done].
      rewrite Hp, busy_idle by done. lia.
  - left. destruct s as [|t|]; [done| |].
    + pose proof (Forall_lookup_1 _ _ _ _ Hh Hws) as Ht. cbn in Ht.
      destruct (cancelled p) eqn:Hca.
      { eexists. split; [by eapply step_skip|]. split; [done|]. by eapply insert_ne. }
      destruct (lookup_lt_is_Some_2 ts (Z.to_nat (t - base))) as [tk Htk]; [unfold zlen in *; lia|].
      eexists. split; [eapply step_run with (t := tk); [done|done|]|].
      { rewrite <- Htk, <- Hr by (unfold zlen in *; lia).
        rewrite Z2Nat.id by lia. by replace (base + (t - base)) with t by lia. }
      split; [done|]. by eapply insert_ne.
    + eexists. split; [by eapply step_finish|]. split; [done|]. by eapply insert_ne.
Qed.

(** Every drain reaches its barrier. *)
Lemma drain_reaches_barrier p ts :
  pool_inv p → main p = MDrain ts → workers p ≠ [] →
  ∃ p1 p2, rtc drain_step p p1 ∧ step p1 p2 ∧ main p2 = MIdle.
Proof.
  remember (Z.to_nat (drain_measure p)) as n eqn:Hn. revert p Hn.
  induction n as [n IH] using lt_wf_ind. intros p -> Hinv Hm Hne.
  destruct (drain_progress p ts Hinv Hm Hne) as [[p' Hd]|(p' & Hs & Hi)];
    [|by exists p, p'; split; [apply rtc_refl|]].
  pose proof (drain_measure_dec _ _ Hd). pose proof (drain_measure_nonneg _ Hinv).
  pose proof Hd as (Hs & Hm' & _). pose proof (step_inv _ _ Hs Hinv) as Hinv'.
  pose proof (drain_measure_nonneg _ Hinv').
  destruct (IH (Z.to_nat (drain_measure p')) ltac:(lia) p') as (p1 & p2 & ? & ? & ?); try done.
  - congruence.
  - intros He. pose proof (workers_length p p' (rtc_once _ _ Hs)) as Hl. rewrite He in Hl.
    by destruct (workers p).
  - exists p1, p2. split; [by eapply rtc_l|done].
Qed.
