(* ===== verification/PoolProps.v ===== *)
(** * What the worker pool guarantees *)

From S2P Require Import Prelude Pool PoolProofs.
Local Open Scope Z_scope.

(** C7. Exactly once. In every state the pool can reach, under every
    interleaving of the main thread and the workers, once the main thread sees
    [pending = 0] in a dispatch no thread holds a ticket, no task ran twice or
    came from another dispatch, and, unless the query was cancelled, every
    element of [0, total) was visited exactly once. *)
Theorem dispatch_exactly_once (ring : list task) (n_workers : nat) (p : pool) (ts : list task)
    (realloc_ok : bool) (cap fn total : Z) :
  cap_ok (zlen ring) → rtc step (pool_init ring n_workers) p → main p = MDrain ts → pending p = 0 →
  cap_ok cap → 0 ≤ total ≤ 2 ^ 44 → snd (dispatch_tasks realloc_ok cap fn total) = ts →
  all_idle (workers p) ∧ log p ⊆+ ts ∧
  (cancelled p = false → mjoin (map task_elems (log p)) ≡ₚ range 0 total).
Proof.
  intros Hr Hreach Hm Hp (k & Hk & ->) Ht Hts.
  destruct (barrier_closed p ts (reachable_inv _ _ (pool_inv_init _ _ Hr) Hreach) Hm Hp)
    as (Hi & _ & Hsub & Hperm). split; [done|]. split; [done|]. intros Hc.
  destruct (dispatch_tasks realloc_ok (2 ^ k) fn total) as [cap' ts'] eqn:Hd. cbn in Hts. subst ts'.
  rewrite <- (dispatch_tasks_cover _ _ _ _ _ _ Hk Ht Hd).
  by apply mjoin_map_Permutation, Hperm.
Qed.

(** A run of two tasks by the main thread and one worker, finishing in the
    order opposite to the claims. *)
Module Run.
Definition junk : task := Task 7 0 0.
Definition t0 : task := Task 1 0 8192.
Definition t1 : task := Task 1 8192 10000.
Definition final : pool :=
  Pool [t0; t1] 2 2 0 false [Idle; Idle] (MDrain [t0; t1]) [t1; t0].

Lemma run : rtc step (pool_init [junk; junk] 1) final.
Proof.
  eapply rtc_l; [apply (step_begin _ false true 1 10000 2 [t0; t1] []); done|]. vm_compute.
  do 2 (eapply rtc_l; [eapply step_fill; reflexivity|]; vm_compute).
  eapply rtc_l; [apply (step_pending _ [t0; t1] 0); reflexivity|]. vm_compute.
  eapply rtc_l; [apply (step_publish _ [t0; t1] 0); reflexivity|]. vm_compute.
  eapply rtc_l; [eapply (step_claim _ 0); [done|by eexists|done]|]. vm_compute.
  eapply rtc_l; [eapply (step_claim _ 1); [done|by eexists|done]|]. vm_compute.
  eapply rtc_l; [eapply (step_run _ 1); reflexivity|]. vm_compute.
  eapply rtc_l; [eapply (step_run _ 0); reflexivity|]. vm_compute.
  eapply rtc_l; [eapply (step_finish _ 1); reflexivity|]. vm_compute.
  eapply rtc_l; [eapply (step_finish _ 0); reflexivity|]. apply rtc_refl.
Qed.
End Run.

Lemma dispatch_exactly_once_witness :
  all_idle (workers Run.final) ∧ log Run.final ⊆+ [Run.t0; Run.t1] ∧
  (cancelled Run.final = false → mjoin (map task_elems (log Run.final)) ≡ₚ range 0 10000).
Proof.
  apply (dispatch_exactly_once [Run.junk; Run.junk] 1 Run.final [Run.t0; Run.t1] true 2 1 10000);
    [by exists 1|apply Run.run|done|done|by exists 1|lia|by vm_compute].
Defined.

(** C37. Liveness of the drain: from every reachable state of a dispatch, the
    threads' own moves strictly decrease a measure and lead to an open barrier,
    so the dispatch returns whatever the schedule. *)
Theorem dispatch_terminates (ring : list task) (n_workers : nat) (p : pool) (ts : list task) :
  cap_ok (zlen ring) → rtc step (pool_init ring n_workers) p → main p = MDrain ts →
  (∀ p', drain_step p p' → 0 ≤ drain_measure p' < drain_measure p) ∧
  ∃ p1 p2, rtc drain_step p p1 ∧ step p1 p2 ∧ main p2 = MIdle.
Proof.
  intros Hr Hreach Hm. pose proof (reachable_inv _ _ (pool_inv_init _ _ Hr) Hreach) as Hinv.
  pose proof (workers_length _ _ Hreach) as Hl. split.
  - intros p' Hd. pose proof (drain_measure_dec _ _ Hd). destruct Hd as (Hs & _).
    pose proof (drain_measure_nonneg _ (step_inv _ _ Hs Hinv)). lia.
  - apply (drain_reaches_barrier p ts Hinv Hm). intros He. by rewrite He in Hl.
Qed.

Lemma dispatch_terminates_witness :
  (∀ p', drain_step Run.final p' → 0 ≤ drain_measure p' < drain_measure Run.final) ∧
  ∃ p1 p2, rtc drain_step Run.final p1 ∧ step p1 p2 ∧ main p2 = MIdle.
Proof.
  apply (dispatch_terminates [Run.junk; Run.junk] 1 Run.final [Run.t0; Run.t1]);
    [by exists 1|apply Run.run|done].
Defined.

(** [ray_pool_dispatch_n] has no such guarantee: when the ring cannot grow
    to [n_tasks], the partitions past its capacity are silently dropped. *)
Theorem dispatch_n_drops_tasks (realloc_ok : bool) (cap fn n_tasks : Z) :
  cap_ok cap → 0 < n_tasks →
  mjoin (map task_elems (snd (dispatch_n_tasks realloc_ok cap fn n_tasks)))
  = range 0 (Z.min n_tasks (ring_reserve realloc_ok cap n_tasks)).
Proof.
  intros (k & Hk & ->) Hn. unfold dispatch_n_tasks. rewrite (proj2 (Z.eqb_neq _ _)) by lia. cbn [snd].
  destruct (ring_reserve_pow realloc_ok k n_tasks) as (k' & -> & Hk'); [done|].
  assert (0 < 2 ^ k') by (apply Z.pow_pos_nonneg; lia).
  transitivity (range 0 (if 2 ^ k' <? n_tasks then 2 ^ k' else n_tasks));
    [|f_equal; destruct (Z.ltb_spec (2 ^ k') n_tasks); lia].
  generalize (if 2 ^ k' <? n_tasks then 2 ^ k' else n_tasks). intros m.
  rewrite map_map. unfold task_elems. cbn [t_start t_end].
  induction (range 0 m) as [|i l IH]; [done|]. cbn [map].
  rewrite mjoin_cons, IH, range_cons, range_empty by lia. done.
Qed.

Lemma dispatch_n_drops_tasks_witness :
  mjoin (map task_elems (snd (dispatch_n_tasks false 4 1 6))) = range 0 (Z.min 6 (ring_reserve false 4 6)).
Proof. apply (dispatch_n_drops_tasks false 4 1 6); [by exists 2|lia]. Defined.
