(* ===== verification/Serde.v ===== *)
(** * Wire format of values ([src/src/store/serde.c])

    The value type [ray_t], the size pass [ray_serde_size], the writer
    [ray_ser_raw], the reader [ray_de_raw] and the framed entry points
    [ray_ser] and [ray_de]. What serialisation needs from the rest of the
    runtime (the symbol table, the symbol domains, the environment of builtins
    and the allocator) is the interface [Runtime]. *)

From S2P Require Import Prelude.
From Stdlib Require Import String Ascii.
Local Open Scope Z_scope.

(** ** Type tags ([include/rayforce.h]) *)
Definition RAY_LIST : Z := 0.
Definition RAY_BOOL : Z := 1.
Definition RAY_U8 : Z := 2.
Definition RAY_I16 : Z := 3.
Definition RAY_I32 : Z := 4.
Definition RAY_I64 : Z := 5.
Definition RAY_F32 : Z := 6.
Definition RAY_F64 : Z := 7.
Definition RAY_DATE : Z := 8.
Definition RAY_TIME : Z := 9.
Definition RAY_TIMESTAMP : Z := 10.
Definition RAY_GUID : Z := 11.
Definition RAY_SYM : Z := 12.
Definition RAY_STR : Z := 13.
Definition RAY_TABLE : Z := 98.
Definition RAY_DICT : Z := 99.
Definition RAY_LAMBDA : Z := 100.
Definition RAY_UNARY : Z := 101.
Definition RAY_BINARY : Z := 102.
Definition RAY_VARY : Z := 103.
Definition RAY_SERDE_NULL : Z := 126.
Definition RAY_ERROR : Z := 127.

Definition RAY_ATTR_SORTED : Z := 0x20.
Definition RAY_ATTR_HAS_NULLS : Z := 0x40.
Definition ATTR_QUOTED : Z := 0x20.
Definition RAY_SERDE_ATTR_WIRE_MASK : Z := Z.lor RAY_ATTR_HAS_NULLS RAY_ATTR_SORTED.
Definition RAY_SERDE_LAMBDA_ATTR_WIRE_MASK : Z := 0.
Definition RAY_SERDE_PREFIX : Z := 0xcefadefa.
Definition RAY_SERDE_WIRE_VERSION : Z := 3.
Definition RAY_SERDE_ENDIAN : Z := 0.
Definition RAY_DE_MAX_DEPTH : nat := 512.
Definition IPC_HEADER_SIZE : Z := 16.
Definition MAX_WIRE_LEN : Z := 1000000000.

(** Element sizes ([ray_type_sizes], [src/src/core/types.c]). *)
Definition ray_type_sizes (t : Z) : Z :=
  if t =? RAY_LIST then 8 else if t =? RAY_BOOL then 1 else if t =? RAY_U8 then 1
  else if t =? RAY_I16 then 2 else if t =? RAY_I32 then 4 else if t =? RAY_I64 then 8
  else if t =? RAY_F32 then 4 else if t =? RAY_F64 then 8 else if t =? RAY_DATE then 4
  else if t =? RAY_TIME then 4 else if t =? RAY_TIMESTAMP then 8
  else if t =? RAY_GUID then 16 else if t =? RAY_SYM then 8 else if t =? RAY_STR then 16
  else 0.

(** ** Values

    [RNone] is a C [NULL] pointer, [RNull] the singleton [RAY_NULL_OBJ]. An
    atom carries the typed-null bit of [aux[0]] and its payload, read at the
    width of its type (floats as bit patterns). Strings and symbols are byte
    strings; a fixed-width vector keeps its raw element bytes; a [RAY_SYM]
    vector keeps its cell positions and the domain they resolve in ([None] is
    the runtime domain). *)
Inductive ray_t : Type :=
| RNone
| RNull
| RErr (sdata : list Z)
| RAtom (t : Z) (null : bool) (v : Z)
| RGuid (null : bool) (bytes : list Z)
| RSym (quoted : bool) (id : Z)
| RStr (null : bool) (bytes : list Z)
| RVec (t attrs n : Z) (data : list Z)
| RSymVec (attrs : Z) (dom : option Z) (ids : list Z)
| RStrVec (attrs : Z) (cells : list (list Z))
| RList (attrs : Z) (elems : list ray_t)
| RTable (attrs : Z) (schema : option (list Z)) (cols : ray_t)
| RDict (attrs : Z) (keys vals : ray_t)
| RLambda (attrs : Z) (params body : ray_t)
| RFn (t : Z) (name : list Z)
| ROther (t n : Z).

(** What the serialiser calls in the rest of the runtime. *)
Class Runtime (R : Type) := {
  ray_sym_str : R → Z → option (list Z);            (* table/sym.c *)
  ray_sym_intern : R → list Z → R * Z;              (* table/sym.c *)
  ray_sym_domain_str : R → Z → Z → option (list Z); (* table/domain.c *)
  ray_env_get : R → Z → option ray_t;               (* lang/env.c *)
  ray_alloc_ok : Z → bool;                          (* mem/heap.c: a request of n bytes is served *)
  ray_block_bytes : Z → Z;                          (* mem/heap.c: usable bytes of its block *)
  ray_freed_readable : Z → bool;                    (* mem/heap.c: its block stays mapped when freed *)
}.

(** What a caller may rely on: in a well-formed runtime an interned string
    keeps its id, and a block holds what was asked for. *)
Class RuntimeLaws (R : Type) `{Runtime R} := {
  rt_ok : R → Prop;
  block_holds : ∀ n, 0 ≤ n → n ≤ ray_block_bytes n;
  intern_known : ∀ r id s, rt_ok r → ray_sym_str r id = Some s → ray_sym_intern r s = (r, id);
}.

(** ** Error objects ([ray_error], [src/src/core/runtime.c]): the code is cut at 7 bytes. *)
Fixpoint cstr_len (l : list Z) : nat :=
  match l with
  | [] => O
  | b :: r => if b =? 0 then O else S (cstr_len r)
  end.

Definition sdata_of (code : list Z) : list Z :=
  let len := Nat.min (cstr_len code) 7 in
  take len code ++ replicate (7 - len) 0.

Definition ray_error (code : string) : ray_t :=
  RErr (sdata_of (map (λ c, Z.of_nat (nat_of_ascii c)) (list_ascii_of_string code))).

Definition is_err (o : ray_t) : bool := match o with RErr _ => true | _ => false end.
(** The callers' test [!x || RAY_IS_ERR(x)]. *)
Definition is_bad (o : ray_t) : bool := match o with RNone | RErr _ => true | _ => false end.

(** [obj->len] of the objects that reach the vector part of the size pass. *)
Definition obj_len (o : ray_t) : Z :=
  match o with
  | RVec _ _ n _ => n
  | RSymVec _ _ ids => zlen ids
  | RStrVec _ cells => zlen cells
  | RList _ es => zlen es
  | RTable _ _ _ | RDict _ _ _ => 2
  | ROther _ n => n
  | _ => 0
  end.

Section serialize.
Context {R : Type} `{!Runtime R}.
Implicit Types (r : R).

(** [ray_sym_vec_cell]: the string of cell [i] in the vector's own domain. *)
Definition ray_sym_vec_cell r (dom : option Z) (id : Z) : option (list Z) :=
  match dom with
  | None => ray_sym_str r id
  | Some d => ray_sym_domain_str r d id
  end.

(** Size of a resolved symbol with its terminator; an unresolved one is the
    terminator alone. *)
Definition sym_size (s : option (list Z)) : Z :=
  (match s with Some b => zlen b | None => 0 end) + 1.

Definition schema_names_serde_size r (schema : option (list Z)) : Z :=
  match schema with
  | None => 0
  | Some ids => foldl (λ size id, size + sym_size (ray_sym_str r id)) (1 + 1 + 8) ids
  end.

Definition ray_serde_size_atom (t : Z) : Z :=
  if (t =? RAY_BOOL) || (t =? RAY_U8) then 1 + 1 + 1
  else if t =? RAY_I16 then 1 + 1 + 2
  else if (t =? RAY_I32) || (t =? RAY_DATE) || (t =? RAY_TIME) || (t =? RAY_F32) then 1 + 1 + 4
  else if (t =? RAY_I64) || (t =? RAY_TIMESTAMP) || (t =? RAY_F64) then 1 + 1 + 8
  else 0.

Definition ray_serde_size_vec (t n : Z) : Z :=
  if (t =? RAY_BOOL) || (t =? RAY_U8) then 1 + 1 + 8 + n
  else if t =? RAY_I16 then 1 + 1 + 8 + n * 2
  else if (t =? RAY_I32) || (t =? RAY_DATE) || (t =? RAY_TIME) || (t =? RAY_F32) then 1 + 1 + 8 + n * 4
  else if (t =? RAY_I64) || (t =? RAY_TIMESTAMP) || (t =? RAY_F64) then 1 + 1 + 8 + n * 8
  else if t =? RAY_GUID then 1 + 1 + 8 + n * 16
  else 0.

Definition LEN_GUARD : Z := (INT64_MAX - 32) / 16.

(** [ray_serde_size]: bytes [ray_ser_raw] needs; [-1] on a length overflow,
    [0] for an object with no wire form. *)
Fixpoint ray_serde_size r (o : ray_t) : Z :=
  match o with
  | RNone => 1
  | RErr _ => 1 + 8
  | RNull => 1
  | RAtom t _ _ => ray_serde_size_atom t
  | RGuid _ _ => 1 + 1 + 16
  | RSym _ id => 1 + 1 + sym_size (ray_sym_str r id)
  | RStr _ b => 1 + 1 + 8 + zlen b
  | _ =>
    if LEN_GUARD <? obj_len o then -1 else
    match o with
    | RVec t _ n _ => ray_serde_size_vec t n
    | RSymVec _ dom ids =>
        foldl (λ size id, size + sym_size (ray_sym_vec_cell r dom id)) (1 + 1 + 8) ids
    | RStrVec _ cells => foldl (λ size c, size + (8 + zlen c)) (1 + 1 + 8) cells
    | RList _ es => foldl Z.add (1 + 1 + 8) (map (ray_serde_size r) es)
    | RTable _ schema cols => 1 + 1 + schema_names_serde_size r schema + ray_serde_size r cols
    | RDict _ k v => 1 + 1 + ray_serde_size r k + ray_serde_size r v
    | RLambda _ p b => 1 + 1 + ray_serde_size r p + ray_serde_size r b
    | RFn _ name => 1 + Z.min (zlen name) 15 + 1
    | _ => 0
    end
  end.

(** A symbol on the wire: its bytes and a NUL. *)
Definition sym_bytes (s : option (list Z)) : list Z :=
  (match s with Some b => b | None => [] end) ++ [0].

Definition ser_schema_names r (schema : option (list Z)) : list Z :=
  match schema with
  | None => []
  | Some ids =>
      RAY_SYM :: 3 :: le_enc 8 (zlen ids) ++ mjoin (map (λ id, sym_bytes (ray_sym_str r id)) ids)
  end.

Definition atom_width (t : Z) : option nat :=
  if (t =? RAY_BOOL) || (t =? RAY_U8) then Some 1%nat
  else if t =? RAY_I16 then Some 2%nat
  else if (t =? RAY_I32) || (t =? RAY_DATE) || (t =? RAY_TIME) || (t =? RAY_F32) then Some 4%nat
  else if (t =? RAY_I64) || (t =? RAY_TIMESTAMP) || (t =? RAY_F64) then Some 8%nat
  else None.

Definition is_fixed_vec (t : Z) : bool :=
  match atom_width t with Some _ => true | None => t =? RAY_GUID end.

(** The tag byte [(uint8_t)type] of an atom of base type [t]. *)
Definition atom_tag (t : Z) : Z := u8 (- t).
Definition flag (b : bool) : Z := if b then 1 else 0.

Definition ser_atom (t : Z) (null : bool) (v : Z) : list Z :=
  match atom_width t with
  | Some w => atom_tag t :: flag null :: le_enc w v
  | None => []
  end.

(** [ray_ser_raw]: the bytes written at [buf]; their number is the value the
    function returns. *)
Fixpoint ray_ser_raw r (o : ray_t) : list Z :=
  match o with
  | RNone => [RAY_SERDE_NULL]
  | RErr sdata => RAY_ERROR :: take 7 sdata ++ [0]
  | RNull => [RAY_SERDE_NULL]
  | RAtom t null v => ser_atom t null v
  | RGuid null b => atom_tag RAY_GUID :: flag null :: b
  | RSym q id =>
      atom_tag RAY_SYM :: (if q then ATTR_QUOTED else 0) :: sym_bytes (ray_sym_str r id)
  | RStr null b => atom_tag RAY_STR :: flag null :: le_enc 8 (zlen b) ++ b
  | RVec t attrs n data =>
      if is_fixed_vec t
      then t :: Z.land attrs RAY_ATTR_HAS_NULLS :: le_enc 8 n ++ data
      else []
  | RSymVec attrs dom ids =>
      RAY_SYM :: Z.land attrs RAY_ATTR_HAS_NULLS :: le_enc 8 (zlen ids) ++
      mjoin (map (λ id, sym_bytes (ray_sym_vec_cell r dom id)) ids)
  | RStrVec attrs cells =>
      RAY_STR :: Z.land attrs RAY_ATTR_HAS_NULLS :: le_enc 8 (zlen cells) ++
      mjoin (map (λ c, le_enc 8 (zlen c) ++ c) cells)
  | RList attrs es =>
      RAY_LIST :: Z.land attrs RAY_SERDE_ATTR_WIRE_MASK :: le_enc 8 (zlen es) ++
      mjoin (map (ray_ser_raw r) es)
  | RTable attrs schema cols =>
      RAY_TABLE :: Z.land attrs RAY_SERDE_ATTR_WIRE_MASK ::
      ser_schema_names r schema ++ ray_ser_raw r cols
  | RDict attrs k v =>
      RAY_DICT :: Z.land attrs RAY_SERDE_ATTR_WIRE_MASK :: ray_ser_raw r k ++ ray_ser_raw r v
  | RLambda attrs p b =>
      RAY_LAMBDA :: Z.land attrs RAY_SERDE_LAMBDA_ATTR_WIRE_MASK ::
      ray_ser_raw r p ++ ray_ser_raw r b
  | RFn t name => t :: take 15 name ++ [0]
  | ROther _ _ => []
  end.

(** [ray_ser]: header and payload in one U8 vector. [None]: the writer left
    the buffer's declared size unfilled or overran it. *)
Definition ipc_header (payload : Z) : list Z :=
  le_enc 4 RAY_SERDE_PREFIX ++ [RAY_SERDE_WIRE_VERSION; 0; RAY_SERDE_ENDIAN; 0] ++
  le_enc 8 payload.

Definition ray_ser r (o : ray_t) : option ray_t :=
  let payload := ray_serde_size r o in
  if payload <=? 0 then Some (ray_error "domain") else
  let total := IPC_HEADER_SIZE + payload in
  if negb (ray_alloc_ok total) then Some (ray_error "oom") else
  let written := ray_ser_raw r o in
  if zlen written =? 0 then Some (ray_error "domain") else
  if negb (zlen written =? payload) then None else
  Some (RVec RAY_U8 0 total (ipc_header payload ++ written)).
End serialize.

(** ** The reader

    A reader gets the memory from its pointer on ([buf]) and the number of
    bytes [*len] it may use; it returns the runtime, the object and the
    remaining [*len]. [None] is undefined behaviour: a read past the memory, or
    the dereference of the [NULL] an atom constructor gets when [ray_alloc]
    fails. *)
Section deserialize.
Context {R : Type} `{!Runtime R}.
Implicit Types (r : R) (buf : list Z) (len : Z).

Definition de_out : Type := option (R * ray_t * Z).
Definition fail r (code : string) len : de_out := Some (r, ray_error code, len).

(** Atom constructors ([src/src/vec/atom.c]) test only [RAY_IS_ERR] on the
    block, so a [NULL] block is dereferenced. *)
Definition alloc_atom (o : ray_t) : option ray_t :=
  if ray_alloc_ok 0 then Some o else None.

Definition NULL_F64_BITS : Z := 0x7ff8000000000000.
Definition NULL_F32_BITS : Z := 0x7fc00000.

(** [ray_guid]: the 16-byte buffer may fail to allocate, which is returned. *)
Definition ray_guid (null : bool) (bytes : list Z) : option ray_t :=
  if ray_alloc_ok 16 then alloc_atom (RGuid null bytes) else Some RNone.

(** [ray_str]: seven bytes or more live in a separate block of [len + 1]. *)
Definition ray_str (bytes : list Z) : option ray_t :=
  if zlen bytes <? 7 then alloc_atom (RStr false bytes)
  else if ray_alloc_ok (zlen bytes + 1) then alloc_atom (RStr false bytes)
  else Some RNone.

Definition typed_null_payload (t : Z) : Z :=
  if t =? RAY_F64 then NULL_F64_BITS
  else if t =? RAY_F32 then NULL_F32_BITS
  else if (t =? RAY_I64) || (t =? RAY_TIMESTAMP) then - 2 ^ 63
  else if (t =? RAY_I32) || (t =? RAY_DATE) || (t =? RAY_TIME) then - 2 ^ 31
  else if t =? RAY_I16 then - 2 ^ 15
  else 0.

(** [ray_typed_null(-t)]. *)
Definition ray_typed_null (t : Z) : option ray_t :=
  if t =? RAY_GUID then
    v ← ray_guid false (replicate 16 0);
    match v with RGuid _ b => Some (RGuid true b) | _ => None end
  else if t =? RAY_SYM then alloc_atom (RSym false 0)
  else if t =? RAY_STR then alloc_atom (RStr true [])
  else alloc_atom (RAtom t true (typed_null_payload t)).

(** [safe_strlen]: offset of the first NUL among [max] bytes, else [max]. *)
Fixpoint safe_strlen buf (max : Z) : option Z :=
  if max <=? 0 then Some 0 else
  match buf with
  | [] => None
  | b :: buf' => if b =? 0 then Some 0 else n ← safe_strlen buf' (max - 1); Some (1 + n)
  end.

(** A decoded integer payload: signed types are sign extended, a BOOL is
    normalised to 0 or 1, floats stay bit patterns. *)
Definition decode_payload (t : Z) (bytes : list Z) : Z :=
  let z := le_dec bytes in
  if t =? RAY_BOOL then (if z =? 0 then 0 else 1)
  else if (t =? RAY_U8) || (t =? RAY_F32) || (t =? RAY_F64) then z
  else swrap (8 * zlen bytes) z.

(** The atom part of [de_raw_inner]; [buf] and [len] are past the tag byte. *)
Definition de_atom r (t : Z) buf len : de_out :=
  if len <? 1 then fail r "domain" len else
  aflags ← rd 1 buf;
  let aflags := le_dec aflags in
  let buf := drop 1 buf in
  let len := len - 1 in
  let is_null := Z.odd aflags in
  match atom_width t with
  | Some w =>
      if len <? Z.of_nat w then fail r "domain" len else
      bytes ← rd w buf;
      o ← (if is_null then ray_typed_null t
           else alloc_atom (RAtom t false (decode_payload t bytes)));
      Some (r, o, len - Z.of_nat w)
  | None =>
      if t =? RAY_GUID then
        if len <? 16 then fail r "domain" len else
        bytes ← rd 16 buf;
        o ← (if is_null then ray_typed_null t else ray_guid false bytes);
        Some (r, o, len - 16)
      else if t =? RAY_SYM then
        slen ← safe_strlen buf len;
        if len <=? slen then fail r "domain" len else
        let len := len - (slen + 1) in
        if is_null then o ← ray_typed_null t; Some (r, o, len) else
        let '(r, id) := ray_sym_intern r (take (Z.to_nat slen) buf) in
        o ← alloc_atom (RSym (negb (Z.land aflags ATTR_QUOTED =? 0)) id);
        Some (r, o, len)
      else if t =? RAY_STR then
        if len <? 8 then fail r "domain" len else
        lb ← rd 8 buf;
        let slen := s64 (le_dec lb) in
        let buf := drop 8 buf in
        let len := len - 8 in
        if (len <? slen) || (slen <? 0) then fail r "domain" len else
        bytes ← rd (Z.to_nat slen) buf;
        o ← (if is_null then ray_typed_null t else ray_str bytes);
        Some (r, o, len - slen)
      else fail r "type" len
  end.

(** The header every vector and list starts with: attribute byte and count. *)
Definition de_header buf len : option (option (Z * Z * list Z * Z)) :=
  if len <? 9 then Some None else
  h ← rd 9 buf;
  Some (Some (le_dec (take 1 h), s64 (le_dec (drop 1 h)), drop 9 buf, len - 9)).

Definition de_fixed_vec r (t : Z) buf len : de_out :=
  hd ← de_header buf len;
  match hd with
  | None => fail r "domain" len
  | Some (attrs, l, buf, len) =>
      if (l <? 0) || (MAX_WIRE_LEN <? l) then fail r "domain" len else
      let data_bytes := l * ray_type_sizes t in
      if len <? data_bytes then fail r "domain" len else
      if negb (ray_alloc_ok data_bytes) then Some (r, RNone, len) else
      data ← rd (Z.to_nat data_bytes) buf;
      Some (r, RVec t (Z.land attrs RAY_ATTR_HAS_NULLS) l data, len - data_bytes)
  end.

(** The loop over the cells of a SYM vector; [inl] is the error return. *)
Fixpoint de_sym_cells (n : nat) r buf len : option (R * (ray_t + list Z) * Z) :=
  match n with
  | O => Some (r, inr [], len)
  | S n =>
      slen ← safe_strlen buf len;
      if len <=? slen then Some (r, inl (ray_error "domain"), len) else
      let '(r, id) := ray_sym_intern r (take (Z.to_nat slen) buf) in
      res ← de_sym_cells n r (drop (Z.to_nat (slen + 1)) buf) (len - (slen + 1));
      let '(r, e, len) := res in
      Some (r, match e with inl err => inl err | inr ids => inr (id :: ids) end, len)
  end.

Definition de_sym_vec r buf len : de_out :=
  hd ← de_header buf len;
  match hd with
  | None => fail r "domain" len
  | Some (attrs, l, buf, len) =>
      if (l <? 0) || (MAX_WIRE_LEN <? l) then fail r "domain" len else
      if len <? l then fail r "domain" len else
      if negb (ray_alloc_ok (l * 8)) then fail r "oom" len else
      res ← de_sym_cells (Z.to_nat l) r buf len;
      let '(r, e, len) := res in
      match e with
      | inl err => Some (r, err, len)
      | inr ids => Some (r, RSymVec (Z.lor 3 (Z.land attrs RAY_ATTR_HAS_NULLS)) None ids, len)
      end
  end.

(** *** String vectors ([src/src/vec/vec.c]): strings longer than 12 bytes go
    to a pool block with 32-bit offsets, here its usable bytes and the bytes
    in use. *)
Definition UINT32_MAX : Z := 2 ^ 32 - 1.
Definition RAY_STR_INLINE_MAX : Z := 12.

(** The capacity doubling loop; the [SIZE_MAX / 2] test ends it after at most
    64 doublings. *)
Fixpoint pool_grow (fuel : nat) (new_cap need : Z) : option Z :=
  if new_cap <? need then
    match fuel with
    | O => None
    | S fuel => if SIZE_MAX / 2 <? new_cap then None else pool_grow fuel (new_cap * 2) need
    end
  else Some new_cap.

(** The pool is created on the first long string. *)
Definition str_pool_init (pool : option (Z * Z)) (len : Z) : option (Z * Z) :=
  match pool with
  | Some p => Some p
  | None =>
      let init_pool := if len <? 256 then 256 else len * 2 in
      if ray_alloc_ok init_pool then Some (ray_block_bytes init_pool, 0) else None
  end.

(** [ray_str_vec_append] on an unshared vector made by [ray_vec_new] with room
    for all its elements. *)
Definition str_vec_append (pool : option (Z * Z)) (s : list Z) : ray_t + option (Z * Z) :=
  let len := zlen s in
  if UINT32_MAX <? len then inl (ray_error "range")
  else if len <=? RAY_STR_INLINE_MAX then inr pool
  else
    match str_pool_init pool len with
    | None => inl (ray_error "oom")
    | Some (pool_cap, pool_used) =>
        if (pool_used <? 0) || (UINT32_MAX <? pool_used) || (UINT32_MAX - pool_used <? len)
        then inl (ray_error "range") else
        let need := pool_used + len in
        if pool_cap <? need then
          match pool_grow 64 (if pool_cap =? 0 then 256 else pool_cap) need with
          | None => inl (ray_error "oom")
          | Some new_cap =>
              if ray_alloc_ok new_cap then inr (Some (ray_block_bytes new_cap, need))
              else inl (ray_error "oom")
          end
        else inr (Some (pool_cap, need))
    end.

Fixpoint de_str_cells (n : nat) (pool : option (Z * Z)) buf len : option ((ray_t + list (list Z)) * Z) :=
  match n with
  | O => Some (inr [], len)
  | S n =>
      if len <? 8 then Some (inl (ray_error "domain"), len) else
      lb ← rd 8 buf;
      let slen := s64 (le_dec lb) in
      let buf := drop 8 buf in
      let len := len - 8 in
      if (len <? slen) || (slen <? 0) then Some (inl (ray_error "domain"), len) else
      s ← rd (Z.to_nat slen) buf;
      match str_vec_append pool s with
      | inl err => Some (inl err, len)
      | inr pool =>
          res ← de_str_cells n pool (drop (Z.to_nat slen) buf) (len - slen);
          let '(e, len) := res in
          Some (match e with inl err => inl err | inr cs => inr (s :: cs) end, len)
      end
  end.

Definition de_str_vec r buf len : de_out :=
  hd ← de_header buf len;
  match hd with
  | None => fail r "domain" len
  | Some (attrs, l, buf, len) =>
      if (l <? 0) || (MAX_WIRE_LEN <? l) then fail r "domain" len else
      if len <? l then fail r "domain" len else
      if negb (ray_alloc_ok (l * 16)) then fail r "oom" len else
      res ← de_str_cells (Z.to_nat l) None buf len;
      let '(e, len) := res in
      match e with
      | inl err => Some (r, err, len)
      | inr cells => Some (r, RStrVec (Z.land attrs RAY_ATTR_HAS_NULLS) cells, len)
      end
  end.

(** *** Tables ([src/src/table/table.c]) *)
Definition ray_table_new (ncols : Z) : ray_t :=
  if ncols <? 0 then ray_error "range"
  else if negb (ray_alloc_ok 16) then ray_error "oom"
  else if negb (ray_alloc_ok (ncols * 8)) then ray_error "oom"
  else RTable 0 (Some []) (RList 0 []).

(** [ray_table_add_col] on an unshared table, whose schema and column list
    were sized by [ray_table_new]. *)
Definition ray_table_add_col (tbl : ray_t) (name_id : Z) (col : ray_t) : ray_t :=
  match tbl with
  | RTable attrs (Some ids) (RList lattrs cols) =>
      if is_bad col then ray_error "type"
      else RTable attrs (Some (ids ++ [name_id])) (RList lattrs (cols ++ [col]))
  | _ => tbl
  end.

(** The add-column loop of the table reader: stops at the shorter of schema
    and columns, and at the first error. *)
Fixpoint add_cols (tbl : ray_t) (names : list Z) (cols : list ray_t) : ray_t :=
  match names, cols with
  | nm :: names, c :: cols =>
      let tbl' := ray_table_add_col tbl nm c in
      if is_bad tbl' then tbl' else add_cols tbl' names cols
  | _, _ => tbl
  end.

Fixpoint chunks8 (n : nat) (data : list Z) : list Z :=
  match n with
  | O => []
  | S n => s64 (le_dec (take 8 data)) :: chunks8 n (drop 8 data)
  end.

(** The name ids of a schema object: an I64 vector or a (W64) SYM vector. *)
Definition schema_ids (schema : ray_t) : option (list Z) :=
  match schema with
  | RVec t _ n data => if t =? RAY_I64 then Some (chunks8 (Z.to_nat n) data) else None
  | RSymVec _ _ ids => Some ids
  | _ => None
  end.

(** [rec] is [ray_de_raw] one level deeper; [pos] recomputes the pointer
    [buf + (saved - *len)]. *)
Definition pos buf (saved len : Z) : list Z := drop (Z.to_nat (saved - len)) buf.

Section inner.
Context (rec : R → list Z → Z → de_out).

(** The element loop of a list: [buf] is its first element's pointer and
    [saved] the [*len] there; a [NULL] element becomes [RAY_NULL_OBJ]. *)
Fixpoint de_elems (n : nat) r buf (saved len : Z) : option (R * (ray_t + list ray_t) * Z) :=
  match n with
  | O => Some (r, inr [], len)
  | S n =>
      out ← rec r (pos buf saved len) len;
      let '(r, e, len) := out in
      if is_err e then Some (r, inl e, len) else
      let e := match e with RNone => RNull | _ => e end in
      res ← de_elems n r buf saved len;
      let '(r, es, len) := res in
      Some (r, match es with inl err => inl err | inr es => inr (e :: es) end, len)
  end.

Definition de_list r buf len : de_out :=
  hd ← de_header buf len;
  match hd with
  | None => fail r "domain" len
  | Some (attrs, l, buf, len) =>
      if (l <? 0) || (MAX_WIRE_LEN <? l) then fail r "domain" len else
      if len <? l then fail r "domain" len else
      if negb (ray_alloc_ok (l * 8)) then Some (r, RNone, len) else
      res ← de_elems (Z.to_nat l) r buf len len;
      let '(r, es, len) := res in
      match es with
      | inl err =>
          (* [ray_release(list); return elems[i];] reads the freed block *)
          if ray_freed_readable (l * 8) then Some (r, err, len) else None
      | inr es => Some (r, RList (Z.land attrs RAY_SERDE_ATTR_WIRE_MASK) es, len)
      end
  end.

(** Two objects one after the other (table, dict and lambda bodies): the
    first failure is returned in [inl]. *)
Definition de_pair r buf len : option (R * (ray_t + ray_t * ray_t) * Z) :=
  out ← rec r buf len;
  let '(r, a, len1) := out in
  if is_bad a then Some (r, inl a, len1) else
  out ← rec r (pos buf len len1) len1;
  let '(r, b, len2) := out in
  if is_bad b then Some (r, inl b, len2) else
  Some (r, inr (a, b), len2).

Definition de_table r buf len : de_out :=
  if len <? 1 then fail r "domain" len else
  _ ← rd 1 buf;
  res ← de_pair r (drop 1 buf) (len - 1);
  let '(r, p, len) := res in
  match p with
  | inl bad => Some (r, bad, len)
  | inr (schema, cols) =>
      match cols, schema_ids schema with
      | RList _ es, Some names =>
          let tbl := ray_table_new (zlen es) in
          if is_bad tbl then Some (r, tbl, len)
          else Some (r, add_cols tbl names es, len)
      | _, _ => fail r "domain" len
      end
  end.

Definition de_dict r buf len : de_out :=
  if len <? 1 then fail r "domain" len else
  a ← rd 1 buf;
  res ← de_pair r (drop 1 buf) (len - 1);
  let '(r, p, len) := res in
  match p with
  | inl bad => Some (r, bad, len)
  | inr (k, v) =>
      if negb (ray_alloc_ok 16) then Some (r, RNone, len)
      else Some (r, RDict (Z.land (le_dec a) RAY_SERDE_ATTR_WIRE_MASK) k v, len)
  end.

Definition de_lambda r buf len : de_out :=
  if len <? 1 then fail r "domain" len else
  a ← rd 1 buf;
  res ← de_pair r (drop 1 buf) (len - 1);
  let '(r, p, len) := res in
  match p with
  | inl bad => Some (r, bad, len)
  | inr (params, body) =>
      if negb (ray_alloc_ok 56) then Some (r, RNone, len)
      else Some (r, RLambda (Z.land (le_dec a) RAY_SERDE_LAMBDA_ATTR_WIRE_MASK) params body, len)
  end.

Definition de_fn r buf len : de_out :=
  nlen ← safe_strlen buf len;
  if len <=? nlen then fail r "domain" len else
  let '(r, sym) := ray_sym_intern r (take (Z.to_nat nlen) buf) in
  match ray_env_get r sym with
  | None => fail r "name" len
  | Some fn => Some (r, fn, len - (nlen + 1))
  end.

Definition de_error r buf len : de_out :=
  if len <? 8 then fail r "domain" len else
  code ← rd 8 buf;
  Some (r, RErr (sdata_of code), len - 8).

(** The dispatch of [de_raw_inner] on the tag; [buf] and [len] are past it. *)
Definition de_dispatch r (type : Z) buf len : de_out :=
  if type =? RAY_SERDE_NULL then Some (r, RNull, len)
  else if type <? 0 then de_atom r (- type) buf len
  else if is_fixed_vec type then de_fixed_vec r type buf len
  else if type =? RAY_SYM then de_sym_vec r buf len
  else if type =? RAY_STR then de_str_vec r buf len
  else if type =? RAY_LIST then de_list r buf len
  else if type =? RAY_TABLE then de_table r buf len
  else if type =? RAY_DICT then de_dict r buf len
  else if type =? RAY_LAMBDA then de_lambda r buf len
  else if (type =? RAY_UNARY) || (type =? RAY_BINARY) || (type =? RAY_VARY) then de_fn r buf len
  else if type =? RAY_ERROR then de_error r buf len
  else fail r "type" len.

(** [de_raw_inner]. *)
Definition de_raw_inner r buf len : de_out :=
  if len <? 1 then Some (r, RNone, len) else
  tb ← rd 1 buf;
  de_dispatch r (swrap 8 (le_dec tb)) (drop 1 buf) (len - 1).
End inner.

(** [ray_de_raw]: the depth counter is the fuel, [RAY_DE_MAX_DEPTH] minus the
    current [g_de_depth]. *)
Fixpoint ray_de_raw (depth_left : nat) r buf len : de_out :=
  match depth_left with
  | O => fail r "domain" len
  | S d => de_raw_inner (ray_de_raw d) r buf len
  end.

(** [ray_de]: header checks, then the payload. *)
Definition ray_de r (bytes : ray_t) : option (R * ray_t) :=
  match bytes with
  | RVec t _ total buf =>
      if negb (t =? RAY_U8) then Some (r, ray_error "type") else
      if total <? IPC_HEADER_SIZE then Some (r, ray_error "domain") else
      hdr ← rd 16 buf;
      let size := s64 (le_dec (drop 8 hdr)) in
      if negb (le_dec (take 4 hdr) =? RAY_SERDE_PREFIX) then Some (r, ray_error "domain")
      else if negb (le_dec (take 1 (drop 4 hdr)) =? RAY_SERDE_WIRE_VERSION)
      then Some (r, ray_error "version")
      else if negb (le_dec (take 1 (drop 6 hdr)) =? RAY_SERDE_ENDIAN)
      then Some (r, ray_error "domain")
      else if (size <? 0) || (MAX_WIRE_LEN <? size) then Some (r, ray_error "domain")
      else if negb (size + IPC_HEADER_SIZE =? total) then Some (r, ray_error "domain")
      else
        out ← ray_de_raw RAY_DE_MAX_DEPTH r (drop 16 buf) size;
        let '(r, o, _) := out in Some (r, o)
  | RAtom t _ v =>
      (* an atom's [len] overlays its value and it has no data block *)
      if negb (t =? RAY_U8) then Some (r, ray_error "type")
      else if v <? IPC_HEADER_SIZE then Some (r, ray_error "domain")
      else None
  | _ => Some (r, ray_error "type")
  end.
End deserialize.
