(* ===== verification/SerdeProofs.v ===== *)
(** * Theorems about the wire format *)

From S2P Require Import Prelude Serde.
Local Open Scope Z_scope.

(** ** Induction on values *)
Section ray_t_ind.
Variable P : ray_t → Prop.
Hypothesis HNone : P RNone.
Hypothesis HNull : P RNull.
Hypothesis HErr : ∀ s, P (RErr s).
Hypothesis HAtom : ∀ t n v, P (RAtom t n v).
Hypothesis HGuid : ∀ n b, P (RGuid n b).
Hypothesis HSym : ∀ q i, P (RSym q i).
Hypothesis HStr : ∀ n b, P (RStr n b).
Hypothesis HVec : ∀ t a n d, P (RVec t a n d).
Hypothesis HSymVec : ∀ a d i, P (RSymVec a d i).
Hypothesis HStrVec : ∀ a c, P (RStrVec a c).
Hypothesis HList : ∀ a es, Forall P es → P (RList a es).
Hypothesis HTable : ∀ a s c, P c → P (RTable a s c).
Hypothesis HDict : ∀ a k v, P k → P v → P (RDict a k v).
Hypothesis HLambda : ∀ a p b, P p → P b → P (RLambda a p b).
Hypothesis HFn : ∀ t n, P (RFn t n).
Hypothesis HOther : ∀ t n, P (ROther t n).

Fixpoint ray_t_nested_ind (o : ray_t) : P o :=
  match o with
  | RNone => HNone | RNull => HNull | RErr s => HErr s
  | RAtom t n v => HAtom t n v | RGuid n b => HGuid n b
  | RSym q i => HSym q i | RStr n b => HStr n b
  | RVec t a n d => HVec t a n d | RSymVec a d i => HSymVec a d i
  | RStrVec a c => HStrVec a c
  | RList a es => HList a es (Forall_true P es ray_t_nested_ind)
  | RTable a s c => HTable a s c (ray_t_nested_ind c)
  | RDict a k v => HDict a k v (ray_t_nested_ind k) (ray_t_nested_ind v)
  | RLambda a p b => HLambda a p b (ray_t_nested_ind p) (ray_t_nested_ind b)
  | RFn t n => HFn t n | ROther t n => HOther t n
  end.
End ray_t_ind.

(** Objects whose stored lengths agree with their data and stay under the
    size pass's overflow guard. *)
Fixpoint shape_ok (o : ray_t) : bool :=
  (obj_len o <=? LEN_GUARD) &&
  match o with
  | RErr s => zlen s =? 7
  | RGuid _ b => zlen b =? 16
  | RVec t _ n d => if is_fixed_vec t then zlen d =? n * ray_type_sizes t else true
  | RList _ es => forallb shape_ok es
  | RTable _ _ c => shape_ok c
  | RDict _ k v => shape_ok k && shape_ok v
  | RLambda _ p b => shape_ok p && shape_ok b
  | _ => true
  end.

Lemma type_cases t :
  is_fixed_vec t = true →
  t ∈ [RAY_BOOL; RAY_U8; RAY_I16; RAY_I32; RAY_DATE; RAY_TIME; RAY_F32; RAY_I64;
       RAY_TIMESTAMP; RAY_F64; RAY_GUID].
Proof.
  unfold is_fixed_vec, atom_width. intros H.
  repeat (match type of H with context [t =? ?b] => destruct (Z.eqb_spec t b) as [e|] end;
    [subst t; apply list_elem_of_In; simpl; tauto|]; simpl in H).
  done.
Qed.

Lemma size_vec_fixed t n :
  ray_serde_size_vec t n = if is_fixed_vec t then 10 + n * ray_type_sizes t else 0.
Proof.
  destruct (is_fixed_vec t) eqn:Ht.
  - apply type_cases in Ht. repeat (apply elem_of_cons in Ht as [->|Ht]; [cbv -[Z.add Z.mul]; lia|]).
    by apply elem_of_nil in Ht.
  - unfold is_fixed_vec, atom_width in Ht. unfold ray_serde_size_vec.
    repeat (match type of Ht with context [t =? ?b] => destruct (Z.eqb_spec t b) end;
      simpl in Ht; [done|]). done.
Qed.

Lemma size_atom_width t :
  ray_serde_size_atom t = match atom_width t with Some w => 2 + Z.of_nat w | None => 0 end.
Proof.
  unfold ray_serde_size_atom, atom_width.
  repeat (match goal with |- context [t =? ?b] => destruct (Z.eqb_spec t b) end; simpl; [done|]).
  done.
Qed.

Section size.
Context {R : Type} `{!Runtime R}.
Implicit Types (r : R) (o : ray_t).

Lemma zlen_sym_bytes (s : option (list Z)) : zlen (sym_bytes s) = sym_size s.
Proof. unfold sym_bytes, sym_size. rewrite zlen_app. by destruct s. Qed.

Lemma zlen_schema_names r s : zlen (ser_schema_names r s) = schema_names_serde_size r s.
Proof.
  destruct s as [ids|]; [|done]. cbn [ser_schema_names schema_names_serde_size].
  rewrite foldl_zsum. autorewrite with zlen. rewrite map_map.
  rewrite (map_ext _ (λ id, sym_size (ray_sym_str r id))) by (intros; apply zlen_sym_bytes).
  lia.
Qed.

Lemma foldl_Zadd b l : foldl Z.add b l = b + zsum l.
Proof. rewrite <- (map_id l) at 2. apply (foldl_zsum (λ x, x)). Qed.

Lemma ser_size r o : shape_ok o = true → zlen (ray_ser_raw r o) = ray_serde_size r o.
Proof.
  induction o as [| |s|t n v|n b|q i|n b|t a n d|a d i|a c|a es IH|a s c IH|a k v IHk IHv
    |a p b IHp IHb|t n|t n] using ray_t_nested_ind;
  cbn [shape_ok obj_len]; intros H; apply andb_prop in H as [Hl H];
  cbn [ray_ser_raw ray_serde_size obj_len];
  try (rewrite (proj2 (Z.ltb_ge _ _)) by lia); try done.
  - autorewrite with zlen. lia.
  - rewrite size_atom_width. unfold ser_atom. destruct (atom_width t); [|done].
    autorewrite with zlen. lia.
  - autorewrite with zlen. lia.
  - autorewrite with zlen. rewrite zlen_sym_bytes. lia.
  - autorewrite with zlen. lia.
  - rewrite size_vec_fixed. destruct (is_fixed_vec t); [|done]. autorewrite with zlen. lia.
  - rewrite foldl_zsum. autorewrite with zlen. rewrite map_map.
    rewrite (map_ext _ (λ id, sym_size (ray_sym_vec_cell r d id)))
      by (intros; apply zlen_sym_bytes). lia.
  - rewrite foldl_zsum. autorewrite with zlen. rewrite map_map.
    rewrite (map_ext _ (λ x : list Z, 8 + zlen x))
      by (intros; by autorewrite with zlen). lia.
  - rewrite foldl_Zadd. autorewrite with zlen. rewrite map_map.
    enough (map (λ x, zlen (ray_ser_raw r x)) es = map (ray_serde_size r) es) as -> by lia.
    apply map_ext_Forall.
    clear Hl. induction IH as [|x es Hx _ IHes]; [constructor|].
    cbn in H. apply andb_prop in H as [H1 H2]. constructor; auto.
  - autorewrite with zlen. rewrite IH by done. rewrite zlen_schema_names. lia.
  - apply andb_prop in H as [H1 H2]. autorewrite with zlen. rewrite IHk, IHv by done. lia.
  - apply andb_prop in H as [H1 H2]. autorewrite with zlen. rewrite IHp, IHb by done. lia.
  - autorewrite with zlen. lia.
Qed.
End size.

(** ** Round trip *)

(** Ranges of an integer payload (floats are bit patterns). *)
Definition payload_ok (t v : Z) : Prop :=
  if t =? RAY_BOOL then v = 0 ∨ v = 1
  else if t =? RAY_U8 then in_u 8 v
  else if t =? RAY_F32 then in_u 32 v
  else if t =? RAY_F64 then in_u 64 v
  else in_s (8 * ray_type_sizes t) v.

Lemma atom_width_sizes t w : atom_width t = Some w → ray_type_sizes t = Z.of_nat w.
Proof.
  unfold atom_width. intros H.
  repeat (match type of H with context [t =? ?b] => destruct (Z.eqb_spec t b) as [e|] end;
    [subst t; cbv in H |- *; by injection H as <-|]; simpl in H).
  done.
Qed.

Lemma decode_enc t w v :
  atom_width t = Some w → payload_ok t v → decode_payload t (le_enc w v) = v.
Proof.
  intros Hw Hp. unfold decode_payload, payload_ok in *.
  rewrite le_dec_enc, zlen_le_enc. pose proof (atom_width_sizes _ _ Hw) as Hs.
  destruct (Z.eqb_spec t RAY_BOOL) as [->|].
  { injection Hw as <-. by destruct Hp as [->| ->]. }
  destruct (Z.eqb_spec t RAY_U8) as [->|].
  { injection Hw as <-. simpl. by apply wrap_id. }
  destruct (Z.eqb_spec t RAY_F32) as [->|].
  { injection Hw as <-. simpl. by apply wrap_id. }
  destruct (Z.eqb_spec t RAY_F64) as [->|].
  { injection Hw as <-. simpl. by apply wrap_id. }
  simpl. rewrite Hs in Hp. apply swrap_wrap; [|done].
  destruct w; [|lia]. exfalso.
  revert Hw. unfold atom_width.
  repeat (match goal with |- context [if ?b then _ else _] => destruct b end); congruence.
Qed.

Section roundtrip.
Context {R : Type} `{!Runtime R, !RuntimeLaws R}.
Implicit Types (r : R) (o : ray_t).

Definition sym_wf r (id : Z) : Prop := ∃ s, ray_sym_str r id = Some s ∧ 0%Z ∉ s.

(** Strings longer than 12 bytes share a pool with 32-bit offsets. *)
Definition pool_bytes (cells : list (list Z)) : Z :=
  zsum (map (λ c, if zlen c <=? 12 then 0 else zlen c) cells).

(** Objects the reader rebuilds exactly, with nesting at most [d]: attribute
    bytes carry only wire bits, null atoms carry the canonical sentinel,
    symbols are interned and NUL free, lengths are under the reader's cap. *)
Fixpoint wire_wf r (d : nat) (o : ray_t) : Prop :=
  match d with
  | O => False
  | S d =>
    match o with
    | RNull => True
    | RAtom t null v =>
        (∃ w, atom_width t = Some w) ∧
        if null then v = typed_null_payload t else payload_ok t v
    | RGuid null b => zlen b = 16 ∧ (null = true → b = replicate 16 0)
    | RSym _ id => sym_wf r id
    | RStr null b => zlen b ≤ MAX_WIRE_LEN ∧ (null = true → b = [])
    | RVec t attrs n data =>
        is_fixed_vec t = true ∧ 0 ≤ n ≤ MAX_WIRE_LEN ∧ zlen data = n * ray_type_sizes t ∧
        (attrs = 0 ∨ attrs = RAY_ATTR_HAS_NULLS)
    | RSymVec attrs dom ids =>
        dom = None ∧ Forall (sym_wf r) ids ∧ zlen ids ≤ MAX_WIRE_LEN ∧
        (attrs = 3 ∨ attrs = Z.lor 3 RAY_ATTR_HAS_NULLS)
    | RStrVec attrs cells =>
        zlen cells ≤ MAX_WIRE_LEN ∧ Forall (λ c, zlen c ≤ MAX_WIRE_LEN) cells ∧
        pool_bytes cells ≤ UINT32_MAX ∧ (attrs = 0 ∨ attrs = RAY_ATTR_HAS_NULLS)
    | RList attrs es =>
        Forall (wire_wf r d) es ∧ zlen es ≤ MAX_WIRE_LEN ∧
        Z.land attrs RAY_SERDE_ATTR_WIRE_MASK = attrs
    | RTable attrs schema cols =>
        attrs = 0 ∧
        match d, schema, cols with
        | S d, Some ids, RList lattrs es =>
            lattrs = 0 ∧ Forall (sym_wf r) ids ∧ Forall (wire_wf r d) es ∧
            zlen ids = zlen es ∧ zlen es ≤ MAX_WIRE_LEN
        | _, _, _ => False
        end
    | RDict attrs k v =>
        wire_wf r d k ∧ wire_wf r d v ∧ Z.land attrs RAY_SERDE_ATTR_WIRE_MASK = attrs
    | RLambda attrs p b => wire_wf r d p ∧ wire_wf r d b ∧ attrs = 0
    | RFn t name =>
        (t = RAY_UNARY ∨ t = RAY_BINARY ∨ t = RAY_VARY) ∧ zlen name ≤ 15 ∧ (0%Z ∉ name) ∧
        (∃ id, ray_sym_str r id = Some name ∧ ray_env_get r id = Some (RFn t name))
    | _ => False
    end
  end.

(** Every request is served. *)
Context (mem_ok : ∀ n, ray_alloc_ok n = true).

(** The bytes [s] are read as [o], whatever follows them. *)
Definition reads r d (s : list Z) o : Prop := ∀ rest k, 0 ≤ k →
  ray_de_raw d r (s ++ rest) (zlen s + k) = Some (r, o, k).

Definition rt_spec r d o : Prop := reads r d (ray_ser_raw r o) o.

Lemma de_raw_cons d r tag buf len :
  1 ≤ len →
  ray_de_raw (S d) r (tag :: buf) len =
  de_dispatch (ray_de_raw d) r (swrap 8 tag) buf (len - 1).
Proof.
  intros Hl. simpl ray_de_raw. unfold de_raw_inner.
  rewrite (proj2 (Z.ltb_ge _ _)) by lia.
  rewrite rd_cons. cbn [mbind option_bind drop le_dec].
  by replace (tag + 256 * 0) with tag by lia.
Qed.

Lemma safe_strlen_app s rest max :
  0%Z ∉ s → zlen s < max → safe_strlen (s ++ 0 :: rest) max = Some (zlen s).
Proof.
  revert max. induction s as [|b s IH]; intros max Hs Hm.
  - simpl. rewrite (proj2 (Z.leb_gt _ _)); [done|]. rewrite zlen_nil in Hm. lia.
  - apply not_elem_of_cons in Hs as [Hb Hs]. rewrite zlen_cons in Hm |- *. pose proof (zlen_nonneg s).
    simpl. rewrite (proj2 (Z.leb_gt _ _)) by lia.
    destruct (Z.eqb_spec b 0); [lia|]. rewrite IH by (done || lia). done.
Qed.

Lemma de_header_app a n data len :
  9 ≤ len → in_s 64 n →
  de_header (a :: le_enc 8 n ++ data) len = Some (Some (a, n, data, len - 9)).
Proof.
  intros Hl Hn. unfold de_header. rewrite (proj2 (Z.ltb_ge _ _)) by lia.
  change (a :: le_enc 8 n ++ data) with ((a :: le_enc 8 n) ++ data).
  rewrite rd_app by (simpl; by rewrite ?length_le_enc). cbn [mbind option_bind].
  rewrite drop_app_length' by (simpl; by rewrite ?length_le_enc).
  change (take 1 (a :: le_enc 8 n)) with [a]. change (drop 1 (a :: le_enc 8 n)) with (le_enc 8 n).
  rewrite le_dec_enc. rewrite swrap_wrap by (done || lia).
  cbn [le_dec]. do 6 f_equal. lia.
Qed.

Lemma de_raw_atom d r t buf len :
  0 < t < 128 → 1 ≤ len →
  ray_de_raw (S d) r (atom_tag t :: buf) len = de_atom r t buf (len - 1).
Proof.
  intros Ht Hl. rewrite de_raw_cons by done. unfold atom_tag.
  rewrite swrap_wrap by (unfold in_s; simpl; lia). unfold de_dispatch.
  destruct (Z.eqb_spec (- t) RAY_SERDE_NULL); [unfold RAY_SERDE_NULL in *; lia|].
  rewrite (proj2 (Z.ltb_lt _ _)) by lia. by rewrite Z.opp_involutive.
Qed.

Lemma atom_width_range t w : atom_width t = Some w → 0 < t < 128.
Proof.
  unfold atom_width. intros H.
  repeat (match type of H with context [t =? ?b] => destruct (Z.eqb_spec t b) as [e|] end;
    [subst t; done|]; simpl in H).
  done.
Qed.

Lemma alloc_atom_ok o : alloc_atom o = Some o.
Proof. unfold alloc_atom. by rewrite mem_ok. Qed.
Lemma ray_guid_ok n b : ray_guid n b = Some (RGuid n b).
Proof. unfold ray_guid. by rewrite mem_ok, alloc_atom_ok. Qed.
Lemma ray_str_ok b : ray_str b = Some (RStr false b).
Proof. unfold ray_str. rewrite mem_ok, alloc_atom_ok. by destruct (_ <? _). Qed.

Lemma typed_null_guid : ray_typed_null RAY_GUID = Some (RGuid true (replicate 16 0)).
Proof. unfold ray_typed_null. closed_tags. by rewrite ray_guid_ok. Qed.

Lemma typed_null_atom t w :
  atom_width t = Some w → ray_typed_null t = Some (RAtom t true (typed_null_payload t)).
Proof.
  intros Hw. unfold ray_typed_null.
  destruct (Z.eqb_spec t RAY_GUID) as [->|]; [done|].
  destruct (Z.eqb_spec t RAY_SYM) as [->|]; [done|].
  destruct (Z.eqb_spec t RAY_STR) as [->|]; [done|]. apply alloc_atom_ok.
Qed.

(** Unfolds one step of an atom's reader after its flags byte. *)
Ltac atom_start :=
  unfold de_atom; rewrite (proj2 (Z.ltb_ge _ _)) by (autorewrite with zlen; lia);
  rewrite rd_cons; cbn [mbind option_bind drop le_dec]; rewrite ?drop_0.

Lemma rt_atom r d t null v :
  wire_wf r (S d) (RAtom t null v) → rt_spec r (S d) (RAtom t null v).
Proof.
  intros [[w Hw] Hv] rest k Hk. cbn [ray_ser_raw]. unfold ser_atom. rewrite Hw.
  autorewrite with zlen. cbn [app].
  rewrite de_raw_atom by (eauto using atom_width_range || lia).
  atom_start. rewrite Hw. replace (flag null + 256 * 0) with (flag null) by lia.
  rewrite (proj2 (Z.ltb_ge _ _)) by lia.
  rewrite rd_app by (by rewrite length_le_enc). cbn [mbind option_bind].
  destruct null; cbn [flag Z.odd].
  - rewrite (typed_null_atom _ _ Hw), Hv. simpl. do 2 f_equal. lia.
  - rewrite alloc_atom_ok, decode_enc by done. simpl. do 2 f_equal. lia.
Qed.

Lemma rt_guid r d null b : wire_wf r (S d) (RGuid null b) → rt_spec r (S d) (RGuid null b).
Proof.
  intros [Hl Hn] rest k Hk. cbn [ray_ser_raw]. autorewrite with zlen. cbn [app].
  rewrite de_raw_atom by (done || lia). atom_start.
  replace (flag null + 256 * 0) with (flag null) by lia. cbn [atom_width].
  change (atom_width RAY_GUID) with (@None nat). cbn iota. closed_tags.
  rewrite (proj2 (Z.ltb_ge _ _)) by lia.
  rewrite rd_app by (unfold zlen in Hl; lia). cbn [mbind option_bind].
  destruct null; cbn [flag Z.odd].
  - unfold ray_typed_null. closed_tags. rewrite ray_guid_ok, Hn by done.
    rewrite zlen_replicate. simpl. do 2 f_equal. lia.
  - rewrite ray_guid_ok. simpl. do 2 f_equal. lia.
Qed.

Lemma rt_sym r d q id : rt_ok r → wire_wf r (S d) (RSym q id) → rt_spec r (S d) (RSym q id).
Proof.
  intros Hr (s & Hs & Hz) rest k Hk. cbn [ray_ser_raw]. rewrite Hs. unfold sym_bytes.
  pose proof (zlen_nonneg s). autorewrite with zlen. cbn [app].
  rewrite de_raw_atom by (done || lia). atom_start.
  change (atom_width RAY_SYM) with (@None nat). cbn iota. closed_tags.
  rewrite <- app_assoc. cbn [app].
  rewrite safe_strlen_app by (done || lia). cbn [mbind option_bind].
  rewrite (proj2 (Z.leb_gt _ _)) by lia.
  rewrite to_nat_zlen, take_app_length.
  rewrite (intern_known _ id) by done.
  rewrite alloc_atom_ok. destruct q; simpl; do 2 f_equal; lia.
Qed.

Lemma rt_str r d null b : wire_wf r (S d) (RStr null b) → rt_spec r (S d) (RStr null b).
Proof.
  intros [Hl Hn] rest k Hk. cbn [ray_ser_raw]. pose proof (zlen_nonneg b).
  autorewrite with zlen. cbn [app].
  rewrite de_raw_atom by (done || lia). atom_start.
  replace (flag null + 256 * 0) with (flag null) by lia.
  change (atom_width RAY_STR) with (@None nat). cbn iota. closed_tags.
  rewrite (proj2 (Z.ltb_ge _ _)) by lia. rewrite <- app_assoc.
  rewrite rd_app by (by rewrite length_le_enc). cbn [mbind option_bind].
  rewrite drop_app_length' by (by rewrite length_le_enc).
  rewrite le_dec_enc, swrap_wrap by (unfold in_s, MAX_WIRE_LEN in *; simpl; lia).
  rewrite (proj2 (Z.ltb_ge _ _)) by lia. rewrite (proj2 (Z.ltb_ge _ _)) by lia.
  cbn [orb]. rewrite rd_app by (unfold zlen; lia). cbn [mbind option_bind].
  destruct null; cbn [flag Z.odd].
  - unfold ray_typed_null. closed_tags. rewrite alloc_atom_ok, Hn by done.
    rewrite zlen_nil. simpl. do 2 f_equal. lia.
  - rewrite ray_str_ok. simpl. do 2 f_equal. lia.
Qed.

Lemma de_fixed d r t buf len :
  is_fixed_vec t = true → 1 ≤ len →
  ray_de_raw (S d) r (t :: buf) len = de_fixed_vec r t buf (len - 1).
Proof.
  intros Ht Hl. rewrite de_raw_cons by done. unfold de_dispatch.
  apply type_cases in Ht.
  repeat (apply elem_of_cons in Ht as [->|Ht]; [done|]). by apply elem_of_nil in Ht.
Qed.

Lemma type_sizes_nonneg t : 0 ≤ ray_type_sizes t.
Proof.
  unfold ray_type_sizes.
  repeat (match goal with |- context [if ?b then _ else _] => destruct b end; [lia|]). lia.
Qed.

(** The reader's length test on a count the writer produced. *)
Lemma count_ok n : 0 ≤ n ≤ MAX_WIRE_LEN →
  (n <? 0) || (MAX_WIRE_LEN <? n) = false.
Proof. intros. rewrite (proj2 (Z.ltb_ge _ _)), (proj2 (Z.ltb_ge _ _)) by lia. done. Qed.

Lemma count_s64 n : 0 ≤ n ≤ MAX_WIRE_LEN → in_s 64 n.
Proof. unfold in_s, MAX_WIRE_LEN. simpl. lia. Qed.

Lemma rt_vec r d t attrs n data :
  wire_wf r (S d) (RVec t attrs n data) → rt_spec r (S d) (RVec t attrs n data).
Proof.
  intros (Ht & Hn & Hd & Ha) rest k Hk. cbn [ray_ser_raw]. rewrite Ht.
  pose proof (zlen_nonneg data). autorewrite with zlen. cbn [app].
  rewrite de_fixed by (done || lia). unfold de_fixed_vec. rewrite <- app_assoc.
  rewrite de_header_app by (auto using count_s64 || lia). cbn [mbind option_bind].
  rewrite count_ok by done. rewrite (proj2 (Z.ltb_ge _ _)) by lia.
  rewrite mem_ok. cbn [negb]. rewrite rd_app by (rewrite <- Hd; apply to_nat_zlen).
  cbn [mbind option_bind]. do 2 f_equal; [|lia].
  by destruct Ha as [->| ->].
Qed.

Lemma de_sym_cells_app r (ids rest : list Z) k :
  rt_ok r → Forall (sym_wf r) ids → 0 ≤ k →
  let bytes : list Z := mjoin (map (λ id, sym_bytes (ray_sym_str r id)) ids) in
  de_sym_cells (length ids) r (bytes ++ rest) (zlen bytes + k) = Some (r, inr ids, k).
Proof.
  intros Hr Hids Hk. induction Hids as [|id ids (s & Hs & Hz) _ IH]; [done|].
  cbv zeta in IH |- *. cbn [length de_sym_cells map].
  match goal with |- context [mjoin (?x :: ?l)] => change (mjoin (x :: l)) with (x ++ mjoin l) end.
  rewrite Hs. set (bytes := mjoin _) in *. unfold sym_bytes.
  pose proof (zlen_nonneg s). pose proof (zlen_nonneg bytes).
  autorewrite with zlen. rewrite <- !app_assoc. cbn [app].
  rewrite safe_strlen_app by (done || lia). cbn [mbind option_bind].
  rewrite (proj2 (Z.leb_gt _ _)) by lia.
  rewrite to_nat_zlen, take_app_length. rewrite (intern_known _ id) by done.
  replace (drop (Z.to_nat (zlen s + 1)) (s ++ 0 :: bytes ++ rest)) with (bytes ++ rest).
  - replace (zlen s + (1 + 0) + zlen bytes + k - (zlen s + 1)) with (zlen bytes + k) by lia.
    by rewrite IH.
  - replace (Z.to_nat (zlen s + 1)) with (length s + 1)%nat by (unfold zlen; lia).
    rewrite <- drop_drop, drop_app_length. done.
Qed.

Lemma sym_bytes_len r ids :
  zlen ids ≤ zlen (mjoin (map (λ id, sym_bytes (ray_sym_str r id)) ids)).
Proof.
  induction ids as [|id ids IH]; [done|]. cbn [map].
  match goal with |- context [mjoin (?x :: ?l)] => change (mjoin (x :: l)) with (x ++ mjoin l) end.
  rewrite zlen_cons, zlen_app. unfold sym_bytes at 1. rewrite zlen_app, zlen_cons, zlen_nil.
  match goal with |- context [zlen (match ?o with _ => _ end)] =>
    pose proof (zlen_nonneg (match o with Some b => b | None => [] end)) end.
  lia.
Qed.

Lemma rt_symvec_gen r d attrs wattrs ids rest k :
  rt_ok r → Forall (sym_wf r) ids → zlen ids ≤ MAX_WIRE_LEN → 0 ≤ k →
  Z.lor 3 (Z.land wattrs RAY_ATTR_HAS_NULLS) = attrs →
  let s := RAY_SYM :: wattrs :: le_enc 8 (zlen ids) ++
           mjoin (map (λ id, sym_bytes (ray_sym_str r id)) ids) in
  ray_de_raw (S d) r (s ++ rest) (zlen s + k) = Some (r, RSymVec attrs None ids, k).
Proof.
  intros Hr Hids Hl Hk Ha. cbv zeta. pose proof (sym_bytes_len r ids). pose proof (zlen_nonneg ids).
  set (bytes := mjoin _) in *.
  rewrite !zlen_cons, zlen_app, zlen_le_enc. cbn [app]. rewrite de_raw_cons by lia.
  unfold de_dispatch. change (swrap 8 RAY_SYM) with RAY_SYM. closed_tags.
  change (RAY_SYM <? 0) with false. change (is_fixed_vec RAY_SYM) with false. cbn iota.
  unfold de_sym_vec. rewrite <- app_assoc.
  rewrite de_header_app by (auto using count_s64 || lia). cbn [mbind option_bind].
  rewrite count_ok by lia. rewrite (proj2 (Z.ltb_ge _ _)) by lia.
  rewrite mem_ok. cbn [negb]. rewrite to_nat_zlen.
  replace (_ - 1 - 9) with (zlen bytes + k) by lia.
  unfold bytes. rewrite de_sym_cells_app by done. cbn [mbind option_bind]. by rewrite Ha.
Qed.

Lemma rt_symvec r d attrs dom ids :
  rt_ok r → wire_wf r (S d) (RSymVec attrs dom ids) → rt_spec r (S d) (RSymVec attrs dom ids).
Proof.
  intros Hr (-> & Hids & Hl & Ha) rest k Hk. cbn [ray_ser_raw].
  apply (rt_symvec_gen r d attrs); try done. by destruct Ha as [->| ->].
Qed.

Lemma pool_bytes_nonneg cells : 0 ≤ pool_bytes cells.
Proof.
  unfold pool_bytes. induction cells as [|c cs IH]; [done|]. cbn. unfold zsum in IH.
  pose proof (zlen_nonneg c). destruct (_ <=? 12); lia.
Qed.

Definition pool_used (pool : option (Z * Z)) : Z :=
  match pool with Some (_, used) => used | None => 0 end.
Definition pool_ok (pool : option (Z * Z)) : Prop :=
  match pool with Some (cap, used) => 0 ≤ cap ∧ 0 ≤ used | None => True end.
Definition pool_cost (c : list Z) : Z := if zlen c <=? 12 then 0 else zlen c.

Lemma pool_grow_ok fuel cap need :
  0 < cap → need ≤ cap * 2 ^ Z.of_nat fuel → need ≤ 2 ^ 33 →
  ∃ cap', pool_grow fuel cap need = Some cap' ∧ 0 ≤ cap'.
Proof.
  revert cap. induction fuel as [|fuel IH]; intros cap Hc Hn Hm; cbn [pool_grow].
  - rewrite (proj2 (Z.ltb_ge _ _)) by lia. eexists. split; [done|lia].
  - destruct (Z.ltb_spec cap need); [|eexists; split; [done|lia]].
    rewrite (proj2 (Z.ltb_ge _ _)) by (change (SIZE_MAX / 2) with (2 ^ 63 - 1); lia).
    apply IH; [lia| |done]. rewrite Nat2Z.inj_succ, Z.pow_succ_r in Hn by lia. lia.
Qed.

Lemma str_vec_append_ok pool (c : list Z) :
  pool_ok pool → zlen c ≤ MAX_WIRE_LEN → pool_used pool + pool_cost c ≤ UINT32_MAX →
  ∃ pool', str_vec_append pool c = inr pool' ∧ pool_ok pool' ∧
    pool_used pool' = pool_used pool + pool_cost c.
Proof.
  intros Hp Hc Hb. pose proof (zlen_nonneg c). unfold str_vec_append, pool_cost, RAY_STR_INLINE_MAX in *.
  rewrite (proj2 (Z.ltb_ge _ _)) by (unfold MAX_WIRE_LEN, UINT32_MAX in *; lia).
  destruct (Z.leb_spec (zlen c) 12); [exists pool; split; [done|]; split; [done|lia]|].
  assert (∃ cap, str_pool_init pool (zlen c) = Some (cap, pool_used pool) ∧ 0 ≤ cap)
    as (cap & -> & Hcap).
  { destruct pool as [[cap used]|]; [exists cap; by destruct Hp|]. cbn. rewrite mem_ok.
    eexists. split; [done|]. etrans; [|apply block_holds]; destruct (_ <? _); lia. }
  assert (0 ≤ pool_used pool) by (destruct pool as [[]|]; [apply Hp|done]).
  do 3 rewrite (proj2 (Z.ltb_ge _ _)) by (unfold UINT32_MAX in *; lia). cbn [orb].
  destruct (Z.ltb_spec cap (pool_used pool + zlen c));
    [|by exists (Some (cap, pool_used pool + zlen c)); split; [done|]; split; [cbn; lia|]].
  destruct (pool_grow_ok 64 (if cap =? 0 then 256 else cap) (pool_used pool + zlen c))
    as (nc & -> & Hnc).
  { destruct (Z.eqb_spec cap 0); lia. }
  { unfold UINT32_MAX in *. destruct (Z.eqb_spec cap 0); simpl; lia. }
  { unfold UINT32_MAX in *. lia. }
  rewrite mem_ok. eexists. split; [done|]. split; [|done].
  pose proof (block_holds nc Hnc). cbn. lia.
Qed.

Lemma de_str_cells_app (cells : list (list Z)) pool rest k :
  pool_ok pool → 0 ≤ k → Forall (λ c, zlen c ≤ MAX_WIRE_LEN) cells →
  pool_used pool + pool_bytes cells ≤ UINT32_MAX →
  let bytes : list Z := mjoin (map (λ c, le_enc 8 (zlen c) ++ c) cells) in
  de_str_cells (length cells) pool (bytes ++ rest) (zlen bytes + k) = Some (inr cells, k).
Proof.
  intros Hp Hk Hc. revert pool Hp. induction Hc as [|c cells Hc _ IH]; intros pool Hp Hb; [done|].
  cbv zeta in IH |- *. cbn [length de_str_cells map].
  match goal with |- context [mjoin (?x :: ?l)] => change (mjoin (x :: l)) with (x ++ mjoin l) end.
  set (bytes := mjoin _) in *. pose proof (zlen_nonneg c). pose proof (zlen_nonneg bytes).
  pose proof (pool_bytes_nonneg cells).
  change (pool_bytes (c :: cells)) with (pool_cost c + pool_bytes cells) in Hb.
  rewrite !zlen_app, zlen_le_enc.
  rewrite (proj2 (Z.ltb_ge _ _)) by lia. rewrite <- !app_assoc.
  rewrite rd_app by (by rewrite length_le_enc). cbn [mbind option_bind].
  rewrite drop_app_length' by (by rewrite length_le_enc).
  rewrite le_dec_enc, swrap_wrap by (unfold in_s, MAX_WIRE_LEN in *; simpl; lia).
  rewrite (proj2 (Z.ltb_ge _ _)) by lia. rewrite (proj2 (Z.ltb_ge _ _)) by lia. cbn [orb].
  rewrite rd_app by apply to_nat_zlen. cbn [mbind option_bind].
  destruct (str_vec_append_ok pool c) as (pool' & -> & Hp' & Hu); [done|done|lia|].
  rewrite drop_app_length' by apply to_nat_zlen.
  replace (_ - 8 - zlen c) with (zlen bytes + k) by lia.
  rewrite IH; [done|done|lia].
Qed.

Lemma str_bytes_len (cells : list (list Z)) :
  zlen cells ≤ zlen (mjoin (map (λ c, le_enc 8 (zlen c) ++ c) cells)).
Proof.
  induction cells as [|c cells IH]; [done|]. cbn [map].
  match goal with |- context [mjoin (?x :: ?l)] => change (mjoin (x :: l)) with (x ++ mjoin l) end.
  rewrite zlen_cons, !zlen_app, zlen_le_enc. pose proof (zlen_nonneg c). lia.
Qed.

Lemma rt_strvec r d attrs cells :
  wire_wf r (S d) (RStrVec attrs cells) → rt_spec r (S d) (RStrVec attrs cells).
Proof.
  intros (Hl & Hc & Hp & Ha) rest k Hk. cbn [ray_ser_raw].
  pose proof (str_bytes_len cells). pose proof (zlen_nonneg cells).
  set (bytes := mjoin _) in *. rewrite !zlen_cons, zlen_app, zlen_le_enc. cbn [app].
  rewrite de_raw_cons by lia.
  unfold de_dispatch. change (swrap 8 RAY_STR) with RAY_STR. closed_tags.
  change (RAY_STR <? 0) with false. change (is_fixed_vec RAY_STR) with false. cbn iota.
  unfold de_str_vec. rewrite <- app_assoc.
  rewrite de_header_app by (auto using count_s64 || lia). cbn [mbind option_bind].
  rewrite count_ok by lia. rewrite (proj2 (Z.ltb_ge _ _)) by lia.
  rewrite mem_ok. cbn [negb]. rewrite to_nat_zlen.
  replace (_ - 1 - 9) with (zlen bytes + k) by lia.
  unfold bytes. rewrite de_str_cells_app by (done || lia). cbn [mbind option_bind].
  by destruct Ha as [->| ->].
Qed.

(** *** Containers, given the round trip of what they hold *)

Lemma wire_wf_not_bad r d o : wire_wf r d o → is_bad o = false.
Proof. destruct d; [done|]. by destruct o. Qed.

Lemma ser_nonempty r d o : wire_wf r d o → 1 ≤ zlen (ray_ser_raw r o).
Proof.
  destruct d; [done|]. destruct o; cbn [wire_wf ray_ser_raw]; try done;
    try (intros _; rewrite zlen_cons; match goal with |- 1 ≤ 1 + zlen ?l => pose proof (zlen_nonneg l) end; lia).
  - intros [[w Hw] _]. unfold ser_atom. rewrite Hw, zlen_cons.
    match goal with |- 1 ≤ 1 + zlen ?l => pose proof (zlen_nonneg l) end. lia.
  - intros (-> & _). rewrite zlen_cons.
    match goal with |- 1 ≤ 1 + zlen ?l => pose proof (zlen_nonneg l) end. lia.
Qed.

Lemma pos_app (a b : list Z) saved len :
  saved - len = zlen a → pos (a ++ b) saved len = b.
Proof. intros H. unfold pos. rewrite H, to_nat_zlen. apply drop_app_length. Qed.

Lemma de_elems_app r d es : Forall (rt_spec r d) es → Forall (wire_wf r d) es →
  ∀ pre rest k saved, 0 ≤ k →
  let bytes := mjoin (map (ray_ser_raw r) es) in
  saved = zlen pre + zlen bytes + k →
  de_elems (ray_de_raw d) (length es) r (pre ++ bytes ++ rest) saved (zlen bytes + k)
  = Some (r, inr es, k).
Proof.
  intros Hrt Hwf. induction Hrt as [|e es He _ IH]; intros pre rest k saved Hk; [done|].
  inversion_clear Hwf as [|? ? Hwe Hwes]. cbv zeta in IH |- *. intros Hs.
  cbn [length de_elems map] in *. revert Hs.
  match goal with |- context [mjoin (?x :: ?l)] => change (mjoin (x :: l)) with (x ++ mjoin l) end.
  set (bytes := mjoin _) in *. rewrite zlen_app. intros Hs.
  rewrite pos_app by lia. rewrite <- !app_assoc, <- Z.add_assoc.
  rewrite He by (pose proof (zlen_nonneg bytes); lia). cbn [mbind option_bind].
  pose proof (wire_wf_not_bad _ _ _ Hwe) as Hb.
  replace (is_err e) with false by (by destruct e).
  replace (match e with RNone => RNull | _ => e end) with e by (by destruct e).
  rewrite (app_assoc pre). rewrite IH; try done. rewrite zlen_app. lia.
Qed.

Lemma elems_bytes_len r d es : Forall (wire_wf r d) es →
  zlen es ≤ zlen (mjoin (map (ray_ser_raw r) es)).
Proof.
  induction 1 as [|e es He _ IH]; [done|]. cbn [map].
  match goal with |- context [mjoin (?x :: ?l)] => change (mjoin (x :: l)) with (x ++ mjoin l) end.
  rewrite zlen_cons, zlen_app. pose proof (ser_nonempty _ _ _ He). lia.
Qed.

Lemma rt_list r d attrs es :
  wire_wf r (S d) (RList attrs es) → Forall (rt_spec r d) es → rt_spec r (S d) (RList attrs es).
Proof.
  intros (Hwf & Hl & Ha) Hrt rest k Hk. cbn [ray_ser_raw].
  pose proof (elems_bytes_len _ _ _ Hwf). pose proof (zlen_nonneg es).
  set (bytes := mjoin _) in *. rewrite !zlen_cons, zlen_app, zlen_le_enc. cbn [app].
  rewrite de_raw_cons by lia.
  unfold de_dispatch. change (swrap 8 RAY_LIST) with RAY_LIST. closed_tags.
  change (RAY_LIST <? 0) with false. change (is_fixed_vec RAY_LIST) with false. cbn iota.
  unfold de_list. rewrite <- app_assoc.
  rewrite de_header_app by (auto using count_s64 || lia). cbn [mbind option_bind].
  rewrite count_ok by lia. rewrite (proj2 (Z.ltb_ge _ _)) by lia.
  rewrite mem_ok. cbn [negb]. rewrite to_nat_zlen.
  replace (_ - 1 - 9) with (zlen bytes + k) by lia. unfold bytes.
  pose proof (de_elems_app r d es Hrt Hwf [] rest k) as Hde. cbn [app] in Hde.
  rewrite Hde; [|done|by rewrite zlen_nil]. cbn [mbind option_bind].
  by rewrite <- Z.land_assoc, Z.land_diag, Ha.
Qed.

Lemma de_pair_app r d sa sb a b rest k :
  is_bad a = false → is_bad b = false → reads r d sa a → reads r d sb b → 0 ≤ k →
  de_pair (ray_de_raw d) r (sa ++ sb ++ rest) (zlen sa + (zlen sb + k)) =
  Some (r, inr (a, b), k).
Proof.
  intros Ha Hb Hra Hrb Hk. unfold de_pair. pose proof (zlen_nonneg sb).
  rewrite Hra by lia. cbn [mbind option_bind]. rewrite Ha.
  rewrite pos_app by lia. rewrite Hrb by done. cbn [mbind option_bind]. by rewrite Hb.
Qed.

(** Enters the body of a table, dict or lambda: tag and attribute byte. *)
Ltac pair_start tag :=
  rewrite !zlen_cons, zlen_app; cbn [app];
  repeat match goal with |- context [zlen ?l] =>
    lazymatch goal with H : 0 ≤ zlen l |- _ => fail | _ => pose proof (zlen_nonneg l) end end;
  rewrite de_raw_cons by lia;
  unfold de_dispatch; change (swrap 8 tag) with tag; closed_tags;
  change (tag <? 0) with false; change (is_fixed_vec tag) with false; cbn iota;
  unfold de_table, de_dict, de_lambda; rewrite (proj2 (Z.ltb_ge _ _)) by lia;
  rewrite rd_cons; cbn [mbind option_bind drop]; rewrite ?drop_0, <- app_assoc.

Lemma rt_dict r d attrs a b :
  wire_wf r (S d) (RDict attrs a b) → rt_spec r d a → rt_spec r d b →
  rt_spec r (S d) (RDict attrs a b).
Proof.
  intros (Ha & Hb & Hat) Hra Hrb rest k Hk. cbn [ray_ser_raw]. pair_start RAY_DICT.
  replace (_ - 1 - 1) with (zlen (ray_ser_raw r a) + (zlen (ray_ser_raw r b) + k)) by lia.
  rewrite (de_pair_app r d _ _ a b) by (done || eauto using wire_wf_not_bad). cbn [mbind option_bind le_dec].
  rewrite mem_ok. cbn [negb]. by rewrite Z.mul_0_r, Z.add_0_r, !Hat.
Qed.

Lemma rt_lambda r d attrs a b :
  wire_wf r (S d) (RLambda attrs a b) → rt_spec r d a → rt_spec r d b →
  rt_spec r (S d) (RLambda attrs a b).
Proof.
  intros (Ha & Hb & ->) Hra Hrb rest k Hk. cbn [ray_ser_raw]. pair_start RAY_LAMBDA.
  replace (_ - 1 - 1) with (zlen (ray_ser_raw r a) + (zlen (ray_ser_raw r b) + k)) by lia.
  rewrite (de_pair_app r d _ _ a b) by (done || eauto using wire_wf_not_bad). cbn [mbind option_bind le_dec].
  by rewrite mem_ok.
Qed.

Lemma add_cols_app attrs lattrs ids0 cols0 ids es :
  length ids = length es → Forall (λ e, is_bad e = false) es →
  add_cols (RTable attrs (Some ids0) (RList lattrs cols0)) ids es =
  RTable attrs (Some (ids0 ++ ids)) (RList lattrs (cols0 ++ es)).
Proof.
  revert ids0 cols0 es. induction ids as [|i ids IH]; intros ids0 cols0 [|e es] Hl Hes; try done.
  - by rewrite !app_nil_r.
  - inversion_clear Hes as [|? ? He Hes']. cbn [add_cols ray_table_add_col]. rewrite He.
    cbn [is_bad]. rewrite IH by (done || (simpl in Hl; lia)). by rewrite <- !app_assoc.
Qed.

Lemma rt_table r d attrs schema cols :
  rt_ok r → wire_wf r (S d) (RTable attrs schema cols) → rt_spec r d cols →
  rt_spec r (S d) (RTable attrs schema cols).
Proof.
  intros Hr (-> & Hw) Hrc rest k Hk. destruct d as [|d]; [done|].
  destruct schema as [ids|]; [|done]. destruct cols as [| | | | | | | | | |la es| | | | |]; try done.
  destruct Hw as (-> & Hids & Hes & Hlen & Hmax).
  change (ray_ser_raw r (RTable 0 (Some ids) (RList 0 es))) with
    (RAY_TABLE :: 0 :: ser_schema_names r (Some ids) ++ ray_ser_raw r (RList 0 es)).
  pair_start RAY_TABLE.
  set (ss := ser_schema_names r (Some ids)) in *. set (sc := ray_ser_raw r (RList 0 es)) in *.
  replace (_ - 1 - 1) with (zlen ss + (zlen sc + k)) by lia.
  rewrite (de_pair_app r (S d) ss sc (RSymVec 3 None ids) (RList 0 es)); try done.
  - cbn [mbind option_bind schema_ids]. unfold ray_table_new. rewrite !mem_ok. cbn [negb].
    rewrite (proj2 (Z.ltb_ge _ _)) by apply zlen_nonneg. cbn [is_bad].
    rewrite add_cols_app; [done|unfold zlen in Hlen; lia|].
    eapply Forall_impl; [done|]. eauto using wire_wf_not_bad.
  - intros rest' k' Hk'. apply rt_symvec_gen; try done. lia.
Qed.

Lemma rt_fn r d t name :
  rt_ok r → wire_wf r (S d) (RFn t name) → rt_spec r (S d) (RFn t name).
Proof.
  intros Hr (Ht & Hl & Hz & id & Hs & He) rest k Hk. cbn [ray_ser_raw].
  pose proof (zlen_nonneg name). rewrite take_ge by (unfold zlen in Hl; lia).
  autorewrite with zlen. cbn [app]. rewrite <- app_assoc. cbn [app].
  rewrite de_raw_cons by lia.
  assert (∀ buf len, de_dispatch (ray_de_raw d) r (swrap 8 t) buf len = de_fn r buf len) as ->
    by (by destruct Ht as [->|[->| ->]]).
  unfold de_fn. rewrite safe_strlen_app by (done || lia). cbn [mbind option_bind].
  rewrite (proj2 (Z.leb_gt _ _)) by lia. rewrite to_nat_zlen, take_app_length.
  rewrite (intern_known _ id) by done. rewrite He. do 2 f_equal. lia.
Qed.

Lemma rt_null r d : rt_spec r (S d) RNull.
Proof.
  intros rest k Hk. cbn [ray_ser_raw]. autorewrite with zlen. cbn [app].
  rewrite de_raw_cons by lia. unfold de_dispatch.
  change (swrap 8 RAY_SERDE_NULL) with RAY_SERDE_NULL. closed_tags. do 2 f_equal. lia.
Qed.

Lemma roundtrip_raw r d o : rt_ok r → wire_wf r d o → rt_spec r d o.
Proof.
  intros Hr. revert o. induction d as [|d IH]; intros o Hw; [done|].
  destruct o; try done; auto using rt_null, rt_atom, rt_guid, rt_sym, rt_str, rt_vec,
    rt_symvec, rt_strvec, rt_fn.
  - apply rt_list; [done|]. destruct Hw as [Hes _]. eapply Forall_impl; eauto.
  - destruct d as [|d]; [by destruct Hw|]. apply rt_table; try done.
    apply IH. destruct Hw as (_ & Hw).
    destruct schema; [|done]. destruct o; try done. destruct Hw as (-> & ? & ? & ? & ?).
    done.
  - destruct Hw as (Hk & Hv & ?). apply rt_dict; [done|auto|auto].
  - destruct Hw as (Hp & Hb & ?). apply rt_lambda; [done|auto|auto].
Qed.
End roundtrip.

(** ** The framed entry points *)
Lemma rt_shape {R} `{!Runtime R, !RuntimeLaws R} r d o : wire_wf r d o → shape_ok o = true.
Proof.
  assert (MAX_WIRE_LEN < LEN_GUARD) as Hg by done.
  revert o. induction d as [|d IH]; intros o Hw; [done|].
  assert (∀ n, n ≤ MAX_WIRE_LEN → (n <=? LEN_GUARD) = true) as Hn by (intros; lia).
  assert (∀ es, Forall (wire_wf r d) es → forallb shape_ok es = true) as Hes.
  { induction 1; [done|]. cbn. by rewrite IH. }
  destruct o; cbn [shape_ok obj_len]; try done.
  - cbn in Hw. destruct Hw as [-> _]. done.
  - destruct Hw as (Ht & Hl & Hd & _). rewrite Hn, Ht, Hd by lia. by rewrite Z.eqb_refl.
  - destruct Hw as (_ & _ & Hl & _). by rewrite Hn.
  - destruct Hw as (Hl & _). by rewrite Hn.
  - destruct Hw as (He & Hl & _). by rewrite Hn, Hes.
  - destruct Hw as (_ & Hw). destruct d as [|d]; [done|]. destruct schema; [|done].
    apply IH. destruct o; try done. destruct Hw as (-> & _ & ? & ? & ?).
    done.
  - destruct Hw as (Hk & Hv & _). by rewrite !IH.
  - destruct Hw as (Hk & Hv & _). by rewrite !IH.
Qed.

Section framed.
Context {R : Type} `{!Runtime R, !RuntimeLaws R}.
Context (mem_ok : ∀ n, ray_alloc_ok n = true).

Lemma framed_roundtrip r o :
  rt_ok r → wire_wf r RAY_DE_MAX_DEPTH o → ray_serde_size r o ≤ MAX_WIRE_LEN →
  ∃ bytes, ray_ser r o = Some bytes ∧ ray_de r bytes = Some (r, o).
Proof.
  intros Hr Hw Hs. pose proof (ser_size r o (rt_shape _ _ _ Hw)) as Hlen.
  pose proof (ser_nonempty _ _ _ Hw) as Hne. set (n := ray_serde_size r o) in *.
  exists (RVec RAY_U8 0 (IPC_HEADER_SIZE + n) (ipc_header n ++ ray_ser_raw r o)). split.
  - unfold ray_ser. fold n. rewrite (proj2 (Z.leb_gt _ _)) by lia. rewrite mem_ok.
    cbn [negb]. rewrite (proj2 (Z.eqb_neq _ _)) by lia.
    by rewrite Hlen, Z.eqb_refl.
  - unfold ray_de. closed_tags. cbn [negb].
    rewrite (proj2 (Z.ltb_ge _ _)) by (unfold IPC_HEADER_SIZE; lia).
    rewrite rd_app by done. cbn [mbind option_bind].
    change (drop 8 (ipc_header n)) with (le_enc 8 n).
    change (take 4 (ipc_header n)) with (le_enc 4 RAY_SERDE_PREFIX).
    change (take 1 (drop 4 (ipc_header n))) with [RAY_SERDE_WIRE_VERSION].
    change (take 1 (drop 6 (ipc_header n))) with [RAY_SERDE_ENDIAN].
    rewrite (le_dec_enc 8), swrap_wrap by (done || (unfold in_s, MAX_WIRE_LEN in *; simpl; lia)).
    change (le_dec (le_enc 4 RAY_SERDE_PREFIX) =? RAY_SERDE_PREFIX) with true. cbn [negb].
    closed_tags. cbn [negb].
    rewrite (proj2 (Z.ltb_ge _ _)), (proj2 (Z.ltb_ge _ _)) by lia. cbn [orb].
    rewrite (proj2 (Z.eqb_eq _ _)) by lia. cbn [negb].
    rewrite drop_app_length' by done. cbn [mbind option_bind].
    pose proof (roundtrip_raw mem_ok r _ o Hr Hw [] 0 ltac:(lia)) as Hrt.
    rewrite app_nil_r, Hlen, Z.add_0_r in Hrt. by rewrite Hrt.
Qed.
End framed.

(** ** Hostile input *)

(** What the memory safety of later code needs of an object built from the
    wire: aggregates carry only marker attribute bits (never the slice, index,
    link or arena bits, which imply pointers), vectors hold the data their
    length claims, symbol vectors resolve in the runtime domain, and a table
    has as many names as columns. *)
Fixpoint wire_safe (o : ray_t) : bool :=
  match o with
  | RGuid _ b => zlen b =? 16
  | RVec t a n data =>
      (Z.land a RAY_ATTR_HAS_NULLS =? a) && (0 <=? n) && (n <=? MAX_WIRE_LEN) &&
      (zlen data =? n * ray_type_sizes t)
  | RSymVec a dom _ =>
      (Z.land a (Z.lor 3 RAY_ATTR_HAS_NULLS) =? a) &&
      match dom with None => true | Some _ => false end
  | RStrVec a _ => Z.land a RAY_ATTR_HAS_NULLS =? a
  | RList a es => (Z.land a RAY_SERDE_ATTR_WIRE_MASK =? a) && forallb wire_safe es
  | RTable a schema cols =>
      (a =? 0) && match schema, cols with
                  | Some ids, RList _ es => zlen ids =? zlen es
                  | _, _ => false
                  end && wire_safe cols
  | RDict a k v => (Z.land a RAY_SERDE_ATTR_WIRE_MASK =? a) && wire_safe k && wire_safe v
  | RLambda a p b => (a =? 0) && wire_safe p && wire_safe b
  | ROther _ _ => false
  | _ => true
  end.

Section hostile.
Context {R : Type} `{!Runtime R}.
Context (atom_ok : ray_alloc_ok 0 = true) (guid_ok : ray_alloc_ok 16 = true).
Context (env_safe : ∀ r id fn, ray_env_get r id = Some fn → wire_safe fn = true).
Implicit Types (r : R).

(** A reader result: defined, inside the input, and safe. *)
Definition ok_out (len : Z) (out : option (R * ray_t * Z)) : Prop :=
  ∃ r o len', out = Some (r, o, len') ∧ 0 ≤ len' ≤ len ∧ wire_safe o = true.

Lemma ok_out_intro len r o len' :
  0 ≤ len' ≤ len → wire_safe o = true → ok_out len (Some (r, o, len')).
Proof. intros. by exists r, o, len'. Qed.

Lemma ok_fail len r code len' : 0 ≤ len' ≤ len → ok_out len (fail r code len').
Proof. intros. by apply ok_out_intro. Qed.

Lemma ok_mono len1 len2 out : ok_out len1 out → len1 ≤ len2 → ok_out len2 out.
Proof. intros (r & o & l & -> & ? & ?) ?. apply ok_out_intro; [lia|done]. Qed.

Lemma ok_atom len r oo len' :
  0 ≤ len' ≤ len → (∃ o, oo = Some o ∧ wire_safe o = true) →
  ok_out len (o ← oo; Some (r, o, len')).
Proof. intros ? (o & -> & ?). by apply ok_out_intro. Qed.

Lemma alloc_atom_safe o : wire_safe o = true → ∃ o', alloc_atom o = Some o' ∧ wire_safe o' = true.
Proof. unfold alloc_atom. rewrite atom_ok. eauto. Qed.
Lemma ray_guid_safe n b : zlen b = 16 → ∃ o', ray_guid n b = Some o' ∧ wire_safe o' = true.
Proof.
  intros Hb. unfold ray_guid. case (ray_alloc_ok 16); [|eauto].
  apply alloc_atom_safe. simpl. by rewrite Hb.
Qed.
Lemma ray_str_safe b : ∃ o', ray_str b = Some o' ∧ wire_safe o' = true.
Proof.
  unfold ray_str. case (_ <? _); [by apply alloc_atom_safe|].
  case (ray_alloc_ok (zlen b + 1)); [by apply alloc_atom_safe|eauto].
Qed.
Lemma typed_null_safe t : ∃ o', ray_typed_null t = Some o' ∧ wire_safe o' = true.
Proof.
  unfold ray_typed_null.
  destruct (_ =? _); [unfold ray_guid, alloc_atom; rewrite atom_ok, guid_ok; cbn; eauto|].
  repeat case_match; by apply alloc_atom_safe.
Qed.

Lemma rd_total k (buf : list Z) len :
  Z.of_nat k ≤ len → len ≤ zlen buf → rd k buf = Some (take k buf).
Proof. intros. apply rd_Some. unfold zlen in *. lia. Qed.

Lemma safe_strlen_total buf max :
  0 ≤ max ≤ zlen buf → ∃ n, safe_strlen buf max = Some n ∧ 0 ≤ n ≤ max.
Proof.
  revert max. induction buf as [|b buf IH]; intros max Hm.
  - assert (max = 0) as -> by (unfold zlen in Hm; simpl in Hm; lia). by exists 0.
  - rewrite zlen_cons in Hm. simpl. destruct (Z.leb_spec max 0); [exists 0; split; [done|lia]|].
    destruct (b =? 0); [exists 0; split; [done|lia]|].
    destruct (IH (max - 1)) as (n & -> & Hn); [lia|]. exists (1 + n). split; [done|lia].
Qed.

Lemma atom_width_le t w : atom_width t = Some w → 1 ≤ Z.of_nat w.
Proof.
  unfold atom_width.
  repeat (match goal with |- context [if ?b then _ else _] => destruct b end;
    [injection 1 as <-; lia|]). done.
Qed.

(** Discharges a bounds test of the reader in each of its two outcomes. *)
Ltac btest := match goal with
  | |- ok_out _ (if ?a <? ?b then _ else _) =>
      destruct (Z.ltb_spec a b); [apply ok_fail; lia|]
  | |- ok_out _ (if ?a <=? ?b then _ else _) =>
      destruct (Z.leb_spec a b); [apply ok_fail; lia|]
  end.
Ltac read len := match goal with
  | |- context [mbind _ (rd ?k ?b)] =>
      rewrite (rd_total k b len) by (autorewrite with zlen; lia); cbn [mbind option_bind]
  end.

Lemma de_atom_ok r t buf len : 0 ≤ len ≤ zlen buf → ok_out len (de_atom r t buf len).
Proof.
  intros Hl. unfold de_atom. btest. read len.
  set (fl := Z.odd _). set (len1 := len - 1). set (buf1 := drop 1 buf).
  assert (0 ≤ len1 ≤ zlen buf1) by (unfold len1, buf1; autorewrite with zlen; lia).
  clearbody fl. destruct (atom_width t) as [w|] eqn:Hw.
  { pose proof (atom_width_le _ _ Hw). btest. read len1. apply ok_atom; [unfold len1 in *; lia|].
    destruct fl; [apply typed_null_safe|by apply alloc_atom_safe]. }
  destruct (t =? RAY_GUID).
  { btest. read len1. apply ok_atom; [unfold len1 in *; lia|].
    destruct fl; [apply typed_null_safe|]. apply ray_guid_safe. autorewrite with zlen. lia. }
  destruct (t =? RAY_SYM).
  { destruct (safe_strlen_total buf1 len1) as (n & -> & Hn); [done|]. cbn [mbind option_bind].
    btest. destruct fl; [apply ok_atom; [unfold len1 in *; lia|apply typed_null_safe]|].
    destruct (ray_sym_intern _ _). apply ok_atom; [unfold len1 in *; lia|by apply alloc_atom_safe]. }
  destruct (t =? RAY_STR); [|apply ok_fail; unfold len1; lia].
  btest. read len1. set (slen := s64 _). clearbody slen.
  destruct (Z.ltb_spec (len1 - 8) slen), (Z.ltb_spec slen 0); cbn [orb];
    try (apply ok_fail; unfold len1 in *; lia).
  read (len1 - 8). apply ok_atom; [unfold len1 in *; lia|].
  destruct fl; [apply typed_null_safe|apply ray_str_safe].
Qed.

Lemma de_header_total buf len : 0 ≤ len ≤ zlen buf →
  (len < 9 ∧ de_header buf len = Some None) ∨
  (∃ a n, de_header buf len = Some (Some (a, n, drop 9 buf, len - 9)) ∧ 9 ≤ len).
Proof.
  intros Hl. unfold de_header. destruct (Z.ltb_spec len 9); [by left|right].
  rewrite (rd_total _ _ len) by lia. eexists _, _. split; [done|lia].
Qed.

(** Enters a vector or list reader past its header and count test. *)
Ltac header buf len a n :=
  let H := fresh "Hhd" in
  destruct (de_header_total buf len) as [[? H]|(a & n & H & ?)]; [lia| |];
    rewrite H; cbn [mbind option_bind]; [apply ok_fail; lia|]; clear H;
  assert (0 ≤ len - 9 ≤ zlen (drop 9 buf)) by (autorewrite with zlen; lia);
  destruct (Z.ltb_spec n 0), (Z.ltb_spec MAX_WIRE_LEN n); cbn [orb];
    try (apply ok_fail; lia).

Lemma mask_idem a m : Z.land (Z.land a m) m = Z.land a m.
Proof. by rewrite <- Z.land_assoc, Z.land_diag. Qed.

Lemma de_fixed_vec_ok r t buf len :
  0 ≤ len ≤ zlen buf → ok_out len (de_fixed_vec r t buf len).
Proof.
  intros Hl. unfold de_fixed_vec. header buf len a n. btest.
  assert (0 ≤ n * ray_type_sizes t) by (pose proof (type_sizes_nonneg t); nia).
  case (ray_alloc_ok _); cbn [negb]; [|apply ok_out_intro; [lia|done]].
  read (len - 9). apply ok_out_intro; [lia|]. cbn [wire_safe].
  rewrite mask_idem, Z.eqb_refl, !(proj2 (Z.leb_le _ _)) by lia.
  rewrite zlen_take, (proj2 (Z.eqb_eq _ _)) by lia. done.
Qed.

Lemma de_sym_cells_ok n r buf len : 0 ≤ len ≤ zlen buf →
  ∃ r' e len', de_sym_cells n r buf len = Some (r', e, len') ∧ 0 ≤ len' ≤ len ∧
    match e with inl err => wire_safe err = true | inr _ => True end.
Proof.
  revert r buf len. induction n as [|n IH]; intros r buf len Hl.
  { eexists _, _, _. split; [done|]. split; [lia|done]. }
  cbn [de_sym_cells]. destruct (safe_strlen_total buf len) as (s & -> & Hs); [done|].
  cbn [mbind option_bind]. destruct (Z.leb_spec len s).
  { eexists _, _, _. split; [done|]. split; [lia|done]. }
  destruct (ray_sym_intern _ _) as [r1 id].
  destruct (IH r1 (drop (Z.to_nat (s + 1)) buf) (len - (s + 1))) as (r2 & e & l2 & -> & ? & ?);
    [autorewrite with zlen; lia|].
  cbn [mbind option_bind]. eexists _, _, _. split; [done|]. split; [lia|by destruct e].
Qed.

Lemma de_sym_vec_ok r buf len : 0 ≤ len ≤ zlen buf → ok_out len (de_sym_vec r buf len).
Proof.
  intros Hl. unfold de_sym_vec. header buf len a n. btest.
  case (ray_alloc_ok _); cbn [negb]; [|apply ok_fail; lia].
  destruct (de_sym_cells_ok (Z.to_nat n) r (drop 9 buf) (len - 9)) as (r' & e & l & -> & ? & ?);
    [done|]. cbn [mbind option_bind].
  destruct e; apply ok_out_intro; try lia; [done|]. cbn [wire_safe].
  rewrite Z.land_lor_distr_l. change (Z.land 3 (Z.lor 3 RAY_ATTR_HAS_NULLS)) with 3.
  rewrite <- Z.land_assoc. change (Z.land RAY_ATTR_HAS_NULLS (Z.lor 3 RAY_ATTR_HAS_NULLS)) with RAY_ATTR_HAS_NULLS.
  by rewrite Z.eqb_refl.
Qed.

Lemma str_vec_append_safe p s : match str_vec_append p s with inl e => wire_safe e = true | _ => True end.
Proof.
  unfold str_vec_append.
  by repeat match goal with
  | |- context [if ?b then _ else _] => case b
  | |- context [match ?p with Some _ => _ | None => _ end] => case p as [[]|]
  end.
Qed.

Lemma de_str_cells_ok n p buf len : 0 ≤ len ≤ zlen buf →
  ∃ e len', de_str_cells n p buf len = Some (e, len') ∧ 0 ≤ len' ≤ len ∧
    match e with inl err => wire_safe err = true | inr _ => True end.
Proof.
  revert p buf len. induction n as [|n IH]; intros p buf len Hl.
  { eexists _, _. split; [done|]. split; [lia|done]. }
  cbn [de_str_cells]. destruct (Z.ltb_spec len 8).
  { eexists _, _. split; [done|]. split; [lia|done]. }
  read len. set (slen := s64 _). clearbody slen.
  destruct (Z.ltb_spec (len - 8) slen), (Z.ltb_spec slen 0); cbn [orb];
    try (eexists _, _; split; [done|]; split; [lia|done]).
  read (len - 8). pose proof (str_vec_append_safe p (take (Z.to_nat slen) (drop 8 buf))) as Hs.
  destruct (str_vec_append _ _) as [err|p'].
  { eexists _, _. split; [done|]. split; [lia|done]. }
  destruct (IH p' (drop (Z.to_nat slen) (drop 8 buf)) (len - 8 - slen)) as (e & l & -> & ? & ?);
    [autorewrite with zlen; lia|].
  cbn [mbind option_bind]. eexists _, _. split; [done|]. split; [lia|by destruct e].
Qed.

Lemma de_str_vec_ok r buf len : 0 ≤ len ≤ zlen buf → ok_out len (de_str_vec r buf len).
Proof.
  intros Hl. unfold de_str_vec. header buf len a n. btest.
  case (ray_alloc_ok _); cbn [negb]; [|apply ok_fail; lia].
  destruct (de_str_cells_ok (Z.to_nat n) None (drop 9 buf) (len - 9)) as (e & l & -> & ? & ?);
    [done|]. cbn [mbind option_bind].
  destruct e; apply ok_out_intro; try lia; [done|]. cbn [wire_safe].
  by rewrite mask_idem, Z.eqb_refl.
Qed.

(** [lim] bounds the input; list blocks for that many elements stay mapped
    when they are freed. *)
Context (lim : Z) (freed_ok : ∀ n, 0 ≤ n ≤ lim → ray_freed_readable (n * 8) = true).

Section rec.
Context (rec : R → list Z → Z → option (R * ray_t * Z)).
Context (rec_ok : ∀ r buf len, 0 ≤ len ≤ Z.min lim (zlen buf) → ok_out len (rec r buf len)).

Lemma pos_bound buf saved len :
  0 ≤ len ≤ saved → saved ≤ Z.min lim (zlen buf) → 0 ≤ len ≤ Z.min lim (zlen (pos buf saved len)).
Proof. intros. unfold pos. rewrite zlen_drop. lia. Qed.

Lemma de_elems_ok n r buf saved len : 0 ≤ len ≤ saved → saved ≤ Z.min lim (zlen buf) →
  ∃ r' e len', de_elems rec n r buf saved len = Some (r', e, len') ∧ 0 ≤ len' ≤ len ∧
    match e with inl err => wire_safe err = true | inr es => forallb wire_safe es = true end.
Proof.
  revert r len. induction n as [|n IH]; intros r len Hl Hs.
  { eexists _, _, _. split; [done|]. split; [lia|done]. }
  cbn [de_elems].
  destruct (rec_ok r (pos buf saved len) len) as (r1 & o & l1 & -> & ? & Ho);
    [by apply pos_bound|]. cbn [mbind option_bind].
  destruct (is_err o) eqn:He.
  { eexists _, _, _. split; [done|]. split; [lia|done]. }
  destruct (IH r1 l1) as (r2 & e & l2 & -> & ? & He2); [lia..|]. cbn [mbind option_bind].
  eexists _, _, _. split; [done|]. split; [lia|].
  destruct e as [err|es]; [done|]. cbn [forallb]. rewrite He2, andb_true_r. by destruct o.
Qed.

Lemma de_list_ok r buf len : 0 ≤ len ≤ Z.min lim (zlen buf) → ok_out len (de_list rec r buf len).
Proof.
  intros Hl. unfold de_list. header buf len a n. btest.
  case (ray_alloc_ok _); cbn [negb]; [|apply ok_out_intro; [lia|done]].
  destruct (de_elems_ok (Z.to_nat n) r (drop 9 buf) (len - 9) (len - 9))
    as (r' & e & l & -> & ? & He); [lia..|]. cbn [mbind option_bind].
  destruct e; [rewrite freed_ok by lia|]; (apply ok_out_intro; [lia|]); [done|].
  cbn [wire_safe]. by rewrite mask_idem, Z.eqb_refl, He.
Qed.

Lemma de_pair_ok r buf len : 0 ≤ len ≤ Z.min lim (zlen buf) →
  ∃ r' p len', de_pair rec r buf len = Some (r', p, len') ∧ 0 ≤ len' ≤ len ∧
    match p with inl bad => wire_safe bad = true
    | inr (a, b) => wire_safe a = true ∧ wire_safe b = true end.
Proof.
  intros Hl. unfold de_pair.
  destruct (rec_ok r buf len) as (r1 & a & l1 & -> & ? & Ha); [lia|]. cbn [mbind option_bind].
  destruct (is_bad a).
  { eexists _, _, _. split; [done|]. split; [lia|done]. }
  destruct (rec_ok r1 (pos buf len l1) l1) as (r2 & b & l2 & -> & ? & Hb);
    [apply pos_bound; lia|]. cbn [mbind option_bind].
  destruct (is_bad b); eexists _, _, _; (split; [done|]); (split; [lia|done]).
Qed.

Lemma add_cols_safe ids es names cols :
  zlen ids = zlen es → forallb wire_safe es = true → forallb wire_safe cols = true →
  wire_safe (add_cols (RTable 0 (Some ids) (RList 0 es)) names cols) = true.
Proof.
  revert ids es cols. induction names as [|nm names IH]; intros ids es cols Hl He Hc.
  { cbn. by rewrite Hl, Z.eqb_refl, He. }
  destruct cols as [|c cols]; [cbn; by rewrite Hl, Z.eqb_refl, He|].
  apply andb_true_iff in Hc as [Hc Hcs]. cbn [add_cols ray_table_add_col].
  destruct (is_bad c); [done|]. cbn [is_bad].
  apply IH; [by rewrite !zlen_app, Hl| |done]. rewrite forallb_app. cbn. by rewrite He, Hc.
Qed.

Lemma ray_table_new_cases n :
  (∃ e, ray_table_new n = RErr e) ∨ ray_table_new n = RTable 0 (Some []) (RList 0 []).
Proof.
  unfold ray_table_new, ray_error.
  repeat match goal with |- context [if ?b then _ else _] => case b end; eauto.
Qed.

(** Enters a reader that starts with an attribute byte and two objects. *)
Ltac pair r buf len r' p l a b Hp :=
  btest; read len;
  destruct (de_pair_ok r (drop 1 buf) (len - 1)) as (r' & p & l & -> & ? & Hp);
    [autorewrite with zlen; lia|]; cbn [mbind option_bind];
  destruct p as [bad|[a b]]; [apply ok_out_intro; [lia|done]|].

Lemma de_table_ok r buf len : 0 ≤ len ≤ Z.min lim (zlen buf) → ok_out len (de_table rec r buf len).
Proof.
  intros Hl. unfold de_table. pair r buf len r' p l a b Hp.
  destruct Hp as [_ Hb]. destruct b as [| | | | | | | | | |a' es| | | | |]; try (apply ok_fail; lia).
  destruct (schema_ids a) as [names|]; [|apply ok_fail; lia].
  apply andb_true_iff in Hb as [_ Hb]. destruct (ray_table_new_cases (zlen es)) as [[e ->]| ->]; cbn [is_bad ray_error];
    (apply ok_out_intro; [lia|]); [done|by apply add_cols_safe].
Qed.
Lemma de_dict_ok r buf len : 0 ≤ len ≤ Z.min lim (zlen buf) → ok_out len (de_dict rec r buf len).
Proof.
  intros Hl. unfold de_dict. pair r buf len r' p l a b Hp.
  case (ray_alloc_ok _); apply ok_out_intro; try lia; [|done]. cbn [wire_safe].
  destruct Hp as [-> ->].
  by rewrite mask_idem, Z.eqb_refl.
Qed.
Lemma de_lambda_ok r buf len : 0 ≤ len ≤ Z.min lim (zlen buf) → ok_out len (de_lambda rec r buf len).
Proof.
  intros Hl. unfold de_lambda. pair r buf len r' p l a b Hp.
  case (ray_alloc_ok _); apply ok_out_intro; try lia; [|done]. cbn [wire_safe].
  unfold RAY_SERDE_LAMBDA_ATTR_WIRE_MASK. rewrite Z.land_0_r. by destruct Hp as [-> ->].
Qed.
Lemma de_fn_ok r buf len : 0 ≤ len ≤ Z.min lim (zlen buf) → ok_out len (de_fn r buf len).
Proof.
  intros Hl. unfold de_fn. destruct (safe_strlen_total buf len) as (n & -> & Hn); [lia|].
  cbn [mbind option_bind]. btest. destruct (ray_sym_intern _ _) as [r' id].
  destruct (ray_env_get r' id) eqn:He; [|apply ok_fail; lia].
  apply ok_out_intro; [lia|eauto].
Qed.
Lemma de_error_ok r buf len : 0 ≤ len ≤ Z.min lim (zlen buf) → ok_out len (de_error r buf len).
Proof. intros Hl. unfold de_error. btest. read len. by apply ok_out_intro; [lia|]. Qed.

Lemma de_raw_inner_ok r buf len : 0 ≤ len ≤ Z.min lim (zlen buf) → ok_out len (de_raw_inner rec r buf len).
Proof.
  intros Hl. unfold de_raw_inner.
  destruct (Z.ltb_spec len 1); [apply ok_out_intro; [lia|done]|]. read len.
  apply ok_mono with (len - 1); [|lia].
  assert (0 ≤ len - 1 ≤ Z.min lim (zlen (drop 1 buf))) by (autorewrite with zlen; lia).
  assert (0 ≤ len - 1 ≤ zlen (drop 1 buf)) by lia.
  unfold de_dispatch. generalize (swrap 8 (le_dec (take 1 buf))). intros tag.
  repeat (match goal with |- ok_out _ (if ?c then _ else _) => case c end; 
    [first [apply ok_out_intro; [lia|done] | auto using de_atom_ok, de_fixed_vec_ok,
       de_sym_vec_ok, de_str_vec_ok, de_list_ok, de_table_ok, de_dict_ok, de_lambda_ok,
       de_fn_ok, de_error_ok]|]).
  apply ok_fail. lia.
Qed.
End rec.

Lemma ray_de_raw_ok d r buf len : 0 ≤ len ≤ Z.min lim (zlen buf) → ok_out len (ray_de_raw d r buf len).
Proof.
  revert r buf len. induction d as [|d IH]; intros r buf len Hl.
  - apply ok_fail. lia.
  - by apply de_raw_inner_ok.
Qed.
End hostile.
