(* ===== verification/SerdeProps.v ===== *)
(** * What the wire format guarantees

    The claims about [src/src/store/serde.c], each a few lines over the lemmas
    of [SerdeProofs], and a concrete runtime (a list-backed symbol table with
    one builtin) on which they are evaluated. *)

From S2P Require Import Prelude Serde SerdeProofs.
From Stdlib Require Import (notations) String.
Local Open Scope Z_scope.

(** ** A concrete runtime *)
Module Toy.
Definition symtab : Type := list (list Z).

Definition intern (r : symtab) (s : list Z) : symtab * Z :=
  match list_find (λ x, x = s) r with
  | Some (i, _) => (r, Z.of_nat i)
  | None => (r ++ [s], zlen r)
  end.

Definition add_name : list Z := [43].
Definition env (r : symtab) (id : Z) : option ray_t :=
  if decide (r.[id] = Some add_name) then Some (RFn RAY_BINARY add_name) else None.

#[global] Instance runtime : Runtime symtab := {
  ray_sym_str r id := r.[id];
  ray_sym_intern := intern;
  ray_sym_domain_str _ _ _ := None;
  ray_env_get := env;
  ray_alloc_ok _ := true;
  ray_block_bytes n := n;
  ray_freed_readable n := n <? 32 * 1024 * 1024;
}.

#[global] Program Instance laws : RuntimeLaws symtab := { rt_ok := NoDup }.
Next Obligation. done. Qed.
Next Obligation.
  intros r id s Hnd Hs. cbn in *. unfold zget in Hs.
  destruct (Z.leb_spec 0 id) as [Hid|]; [|done]. unfold intern.
  destruct (list_find _ r) as [[i y]|] eqn:Hf.
  - apply list_find_Some in Hf as (Hi & -> & _).
    rewrite (NoDup_lookup _ _ _ _ Hnd Hi Hs). f_equal. lia.
  - exfalso. apply list_find_None in Hf. rewrite Forall_lookup in Hf. by apply (Hf _ _ Hs).
Qed.

(** Symbols "a", "bc" and "+". *)
Definition r0 : symtab := [[97]; [98; 99]; add_name].
Lemma r0_ok : rt_ok r0.
Proof. cbn. apply (bool_decide_unpack _). by vm_compute. Qed.

(** A dictionary of a table (an I64 and a STR column) and a list of atoms. *)
Definition col1 : ray_t := RVec RAY_I64 0x40 2 (le_enc 8 7 ++ le_enc 8 INT64_MIN).
Definition col2 : ray_t := RStrVec 0 [[104; 105]; replicate 20 120].
Definition table : ray_t := RTable 0 (Some [0; 1]) (RList 0 [col1; col2]).
Definition atoms : ray_t :=
  RList 0x20 [RAtom RAY_I32 false (-5); RAtom RAY_I64 true INT64_MIN; RSym true 1;
              RStr false [0; 255]; RFn RAY_BINARY add_name; RNull; RSymVec 3 None [1; 0; 1]].
Definition obj : ray_t := RDict 0 atoms table.

Lemma sym_wf0 : sym_wf r0 0.
Proof. exists [97]. split; [done|]. by apply (bool_decide_unpack _). Qed.
Lemma sym_wf1 : sym_wf r0 1.
Proof. exists [98; 99]. split; [done|]. by apply (bool_decide_unpack _). Qed.

Lemma atoms_wf d : wire_wf r0 (S (S d)) atoms.
Proof.
  split; [|by split]. repeat apply Forall_cons_2; [..|constructor].
  - split; [by eexists|]. by cbv.
  - split; [by eexists|done].
  - apply sym_wf1.
  - done.
  - split; [by right; left|]. split; [done|].
    split; [by apply (bool_decide_unpack _)|by exists 2].
  - done.
  - split; [done|]. split; [repeat constructor; auto using sym_wf0, sym_wf1|].
    split; [done|by left].
Qed.

Lemma table_wf d : wire_wf r0 (S (S (S d))) table.
Proof.
  split; [done|]. split; [done|].
  split; [repeat constructor; auto using sym_wf0, sym_wf1|]. split; [|done].
  repeat apply Forall_cons_2; [..|constructor].
  - split; [done|]. split; [done|]. split; [done|by right].
  - split; [done|]. split; [by repeat constructor|]. split; [done|by left].
Qed.

Lemma obj_wf d : wire_wf r0 (S (S (S (S d)))) obj.
Proof. split; [apply atoms_wf|]. split; [apply table_wf|done]. Qed.
End Toy.

(** ** Claims *)

(** C6. Framed round trip. Whatever well-formed object [ray_ser] is given,
    [ray_de] reads the framed bytes back as the same object and leaves the
    symbol table as it was. *)
Theorem ray_ser_de_roundtrip (R : Type) (RT : Runtime R) (RL : RuntimeLaws R) (r : R) (o : ray_t) :
  (∀ n, ray_alloc_ok n = true) → rt_ok r → wire_wf r RAY_DE_MAX_DEPTH o →
  ray_serde_size r o ≤ MAX_WIRE_LEN →
  ∃ bytes, ray_ser r o = Some bytes ∧ ray_de r bytes = Some (r, o).
Proof. intros Hm. exact (framed_roundtrip Hm r o). Qed.

Lemma ray_ser_de_roundtrip_witness :
  ∃ bytes, ray_ser Toy.r0 Toy.obj = Some bytes ∧ ray_de Toy.r0 bytes = Some (Toy.r0, Toy.obj).
Proof.
  apply (ray_ser_de_roundtrip Toy.symtab Toy.runtime Toy.laws);
    [done|apply Toy.r0_ok|apply Toy.obj_wf|by vm_compute].
Defined.



(** C34. The size pass is exact: for every object whose lengths agree with its
    data, the writer fills exactly the bytes [ray_serde_size] announced, so
    [ray_ser] never writes past the vector it allocated. *)
Theorem ray_serde_size_exact (R : Type) (RT : Runtime R) (r : R) (o : ray_t) :
  shape_ok o = true → zlen (ray_ser_raw r o) = ray_serde_size r o.
Proof. apply ser_size. Qed.

Lemma ray_serde_size_exact_witness :
  zlen (ray_ser_raw Toy.r0 Toy.obj) = ray_serde_size Toy.r0 Toy.obj.
Proof. apply (ray_serde_size_exact Toy.symtab Toy.runtime). by vm_compute. Defined.

(** The payload is self-delimiting: after a well-formed object's bytes the
    reader has consumed exactly them, whatever bytes follow. *)
Theorem ray_ser_raw_self_delimiting (R : Type) (RT : Runtime R) (RL : RuntimeLaws R) (r : R) (d : nat)
    (o : ray_t) (rest : list Z) :
  (∀ n, ray_alloc_ok n = true) → rt_ok r → wire_wf r d o →
  ray_de_raw d r (ray_ser_raw r o ++ rest) (zlen (ray_ser_raw r o ++ rest)) = Some (r, o, zlen rest).
Proof.
  intros Hm Hr Hw. rewrite zlen_app. apply (roundtrip_raw Hm r d o Hr Hw), zlen_nonneg.
Qed.

Lemma ray_ser_raw_self_delimiting_witness :
  ray_de_raw 4 Toy.r0 (ray_ser_raw Toy.r0 Toy.obj ++ [1; 2; 3])
    (zlen (ray_ser_raw Toy.r0 Toy.obj ++ [1; 2; 3])) = Some (Toy.r0, Toy.obj, 3).
Proof.
  apply (ray_ser_raw_self_delimiting Toy.symtab Toy.runtime Toy.laws);
    [done|apply Toy.r0_ok|apply Toy.obj_wf].
Defined.

(** A list nested [n] deep. *)
Fixpoint nest (n : nat) : ray_t :=
  match n with O => RNull | S n => RList 0 [nest n] end.

Section nest.
Context {R : Type} `{!Runtime R}.
Context (mem_ok : ∀ n, ray_alloc_ok n = true) (freed_ok : ray_freed_readable 8 = true).

Lemma nest_size (r : R) n : ray_serde_size r (nest n) = 10 * Z.of_nat n + 1.
Proof.
  induction n as [|n IH]; [done|]. cbn [nest ray_serde_size map foldl]. rewrite IH.
  cbn [obj_len]. change (LEN_GUARD <? zlen [nest n]) with false. cbn iota. lia.
Qed.
Lemma nest_shape n : shape_ok (nest n) = true.
Proof. induction n as [|n IH]; [done|]. cbn [nest shape_ok forallb]. by rewrite IH. Qed.
Lemma nest_bytes (r : R) n : zlen (ray_ser_raw r (nest n)) = 10 * Z.of_nat n + 1.
Proof. by rewrite ser_size, nest_size by apply nest_shape. Qed.

Lemma nest_too_deep (r : R) d :
  ∃ len', ray_de_raw d r (ray_ser_raw r (nest d)) (10 * Z.of_nat d + 1)
          = Some (r, ray_error "domain"%string, len').
Proof.
  induction d as [|d IH]; [by eexists|].
  cbn [nest ray_ser_raw map]. change (mjoin [ray_ser_raw r (nest d)])
    with (ray_ser_raw r (nest d) ++ []). rewrite app_nil_r.
  destruct IH as [len' IH]. exists len'.
  rewrite de_raw_cons by lia.
  unfold de_dispatch. change (swrap 8 RAY_LIST) with RAY_LIST. closed_tags.
  change (RAY_LIST <? 0) with false. change (is_fixed_vec RAY_LIST) with false. cbn iota.
  unfold de_list. rewrite de_header_app by (done || lia). cbn [mbind option_bind].
  change (zlen [nest d]) with 1. change ((1 <? 0) || (MAX_WIRE_LEN <? 1)) with false. cbn iota.
  rewrite (proj2 (Z.ltb_ge _ _)) by lia. rewrite mem_ok. cbn [negb]. change (Z.to_nat 1) with 1%nat.
  cbn [de_elems]. unfold pos. rewrite Z.sub_diag. change (drop (Z.to_nat 0) ?l) with l.
  replace (10 * Z.of_nat (S d) + 1 - 1 - 9) with (10 * Z.of_nat d + 1) by lia.
  rewrite IH. cbn [mbind option_bind is_err]. change (ray_error _) with (RErr (sdata_of [100; 111; 109; 97; 105; 110])).
  cbn [is_err mbind option_bind]. change (1 * 8) with 8. by rewrite freed_ok.
Qed.
End nest.

(** The depth bounds disagree: the writer has none, so a list nested
    [RAY_DE_MAX_DEPTH] deep serialises without error, and the reader refuses
    the bytes with a domain error instead of the object. *)
Theorem ray_de_depth_limit (R : Type) (RT : Runtime R) (r : R) :
  (∀ n, ray_alloc_ok n = true) → ray_freed_readable 8 = true →
  ∃ n data, ray_ser r (nest RAY_DE_MAX_DEPTH) = Some (RVec RAY_U8 0 n data) ∧
    ray_de r (RVec RAY_U8 0 n data) = Some (r, ray_error "domain"%string).
Proof.
  intros Hm Hf. set (o := nest RAY_DE_MAX_DEPTH).
  assert (ray_serde_size r o = 5121) as Hs by apply nest_size.
  assert (zlen (ray_ser_raw r o) = 5121) as Hl by apply nest_bytes.
  exists (IPC_HEADER_SIZE + 5121), (ipc_header 5121 ++ ray_ser_raw r o). split.
  - unfold ray_ser. rewrite Hs, Hl, Hm. done.
  - unfold ray_de. rewrite rd_app by done. cbn [mbind option_bind].
    rewrite drop_app_length' by done. destruct (nest_too_deep Hm Hf r RAY_DE_MAX_DEPTH) as [l Hd].
    change (10 * Z.of_nat RAY_DE_MAX_DEPTH + 1) with 5121 in Hd. fold o in Hd.
    change (s64 (le_dec (drop 8 (ipc_header 5121)))) with 5121. by rewrite Hd.
Qed.

Lemma ray_de_depth_limit_witness :
  ∃ n data, ray_ser Toy.r0 (nest RAY_DE_MAX_DEPTH) = Some (RVec RAY_U8 0 n data) ∧
    ray_de Toy.r0 (RVec RAY_U8 0 n data) = Some (Toy.r0, ray_error "domain"%string).
Proof. by apply (ray_de_depth_limit Toy.symtab Toy.runtime). Defined.

(** C36. A defect of the list reader: on an element error it releases the list
    and then returns [elems[i]], read from the block just freed. When a block
    of [n] pointers is unmapped on release, a frame that announces [n] elements
    and carries [n] bytes of an unknown type makes the read undefined. *)
Theorem de_list_reads_freed_block (R : Type) (RT : Runtime R) (r : R) (d : nat) (n : Z) :
  (∀ k, ray_alloc_ok k = true) → 1 ≤ n ≤ MAX_WIRE_LEN → ray_freed_readable (n * 8) = false →
  ray_de_raw (S (S d)) r (RAY_LIST :: 0 :: le_enc 8 n ++ replicate (Z.to_nat n) 60) (10 + n) = None.
Proof.
  intros Hm Hn Hf. rewrite de_raw_cons by lia. unfold de_dispatch.
  change (swrap 8 RAY_LIST) with RAY_LIST. closed_tags.
  change (RAY_LIST <? 0) with false. change (is_fixed_vec RAY_LIST) with false. cbn iota.
  unfold de_list. rewrite de_header_app by (unfold in_s, MAX_WIRE_LEN in *; simpl; lia).
  cbn [mbind option_bind]. do 3 rewrite (proj2 (Z.ltb_ge _ _)) by lia. cbn [orb].
  rewrite Hm. cbn [negb]. replace (Z.to_nat n) with (S (Z.to_nat (n - 1))) by lia.
  cbn [de_elems replicate]. unfold pos. rewrite Z.sub_diag. change (drop (Z.to_nat 0) ?l) with l.
  rewrite de_raw_cons by lia. change (swrap 8 60) with 60.
  change (de_dispatch _ r 60 ?b ?l) with (fail r "type"%string l).
  cbn [fail mbind option_bind]. change (is_err (ray_error _)) with true. cbn iota.
  cbn [mbind option_bind]. by rewrite Hf.
Qed.

Lemma de_list_reads_freed_block_witness :
  ray_de_raw 2 Toy.r0 (RAY_LIST :: 0 :: le_enc 8 5000000 ++ replicate (Z.to_nat 5000000) 60)
    (10 + 5000000) = None.
Proof. apply (de_list_reads_freed_block Toy.symtab Toy.runtime Toy.r0 0 5000000); done. Defined.
