(* ===== verification/Rowsel.v ===== *)
(** * Row selections ([src/src/ops/rowsel.c], [src/src/ops/rowsel.h])

    The morsel-local selection produced by a filter: construction from a
    boolean vector (two passes, parallel when large), the streaming builder,
    flattening, refinement and intersection. *)

From S2P Require Import Prelude Pool Serde.
Local Open Scope Z_scope.

Definition RAY_SEL_NONE : Z := 0.
Definition RAY_SEL_ALL : Z := 1.
Definition RAY_SEL_MIX : Z := 2.
Definition RAY_PARALLEL_THRESHOLD : Z := 64 * RAY_MORSEL_ELEMS.

(** The block behind [ray_rowsel_meta], [_flags], [_offsets] and [_idx]. *)
Record rowsel := Rowsel {
  total_pass : Z;
  nrows : Z;
  n_segs : Z;
  seg_flags : list Z;
  seg_offsets : list Z;
  idx : list Z;
}.

(** ** The pool, as a client sees it

    Whether there is one, and in which order the tasks of a dispatch ran. *)
Class Dispatcher := {
  ray_pool_get : bool;
  ring_cap : Z;
  ring_realloc_ok : bool;
  run_order : list task → list task;
}.

Section rowsel.
Context `{Heap} `{Dispatcher}.

(** [ray_pool_dispatch]: [fn start end] on every task, in the order run. *)
Definition ray_pool_dispatch {S} (fn : Z → Z → S → option S) (total : Z) (s : S) : option S :=
  foldM (λ t, fn (t_start t) (t_end t))
    (run_order (snd (dispatch_tasks ring_realloc_ok ring_cap 0 total))) s.

Definition run_segments {S} (fn : Z → Z → S → option S) (nrows n_segs : Z) (s : S) : option S :=
  if ray_pool_get && (RAY_PARALLEL_THRESHOLD <=? nrows)
  then ray_pool_dispatch fn n_segs s
  else fn 0 n_segs s.

(** ** Allocation *)
Definition pad8 (n : Z) : Z := Z.land (u64 (n + 7)) (Z.lnot 7).
Definition segs_of (nrows : Z) : Z :=
  if nrows <=? 0 then 0 else u32 ((nrows + RAY_MORSEL_ELEMS - 1) / RAY_MORSEL_ELEMS).
Definition ray_rowsel_payload_bytes (nrows idx_count : Z) : Z :=
  let n_segs := segs_of nrows in
  24 + pad8 n_segs + (n_segs + 1) * 4 + idx_count * 2.

(** [None] is [NULL]; the arrays of a new block hold junk. *)
Definition ray_rowsel_new (nrows total_pass idx_count : Z) : option rowsel :=
  if (nrows <? 0) || (total_pass <? 0) || (nrows <? total_pass) ||
     (idx_count <? 0) || (total_pass <? idx_count) then None
  else if alloc_ok (ray_rowsel_payload_bytes nrows idx_count) then
    let n_segs := segs_of nrows in
    Some (Rowsel total_pass nrows n_segs (fresh n_segs) (fresh (n_segs + 1)) (fresh idx_count))
  else None.

(** ** Building from a predicate *)
Definition seg_base (seg : Z) : Z := seg * RAY_MORSEL_ELEMS.
Definition seg_end (nrows seg : Z) : Z :=
  let end_ := seg_base seg + RAY_MORSEL_ELEMS in if nrows <? end_ then nrows else end_.
Definition seg_len (nrows seg : Z) : Z := seg_end nrows seg - seg_base seg.

(** [n += pred[r] != 0] over the rows [lo, hi). *)
Definition count_true (pred : list Z) (lo hi : Z) : option Z :=
  foldM (λ r n, b ← pred.[r]; Some (u32 (n + if b =? 0 then 0 else 1))) (range lo hi) 0.

Definition pass1_seg (pred : list Z) (nrows seg : Z) (popcount : list Z) : option (list Z) :=
  n ← count_true pred (seg_base seg) (seg_end nrows seg);
  zset popcount seg n.

Definition rowsel_pass1_fn (pred : list Z) (nrows start_seg end_seg : Z) (popcount : list Z) :
    option (list Z) :=
  foldM (pass1_seg pred nrows) (range start_seg end_seg) popcount.

(** [if (pred[r]) out[out_n++] = (uint16_t)(r - base)] over the rows [lo, hi). *)
Definition write_true (pred : list Z) (base lo hi : Z) (out : list Z * Z) : option (list Z * Z) :=
  foldM (λ r out, b ← pred.[r]; if b =? 0 then Some out else push (u16 (r - base)) out)
    (range lo hi) out.

Definition pass2_seg (pred : list Z) (nrows : Z) (flags offsets : list Z) (seg : Z) (idx : list Z) :
    option (list Z) :=
  f ← flags.[seg];
  if negb (f =? RAY_SEL_MIX) then Some idx else
  off ← offsets.[seg];
  out ← write_true pred (seg_base seg) (seg_base seg) (seg_end nrows seg) (idx, off);
  Some (fst out).

Definition rowsel_pass2_fn (pred : list Z) (nrows : Z) (flags offsets : list Z)
    (start_seg end_seg : Z) (idx : list Z) : option (list Z) :=
  foldM (pass2_seg pred nrows flags offsets) (range start_seg end_seg) idx.

(** The first sweep over [popcount]: [total_pass] and [idx_count]. *)
Definition sweep_counts (nrows n_segs : Z) (popcount : list Z) : option (Z * Z) :=
  foldM (λ s '(total_pass, idx_count),
    pc ← popcount.[s];
    Some (total_pass + pc,
          if negb (pc =? 0) && negb (pc =? seg_len nrows s) then idx_count + pc else idx_count))
    (range 0 n_segs) (0, 0).

(** The second sweep: flags and the prefix sum into [idx]. *)
Definition sweep_layout (nrows n_segs : Z) (popcount flags offsets : list Z) :
    option (list Z * list Z * Z) :=
  foldM (λ s '(flags, offsets, cum),
    offsets ← zset offsets s cum;
    pc ← popcount.[s];
    if pc =? 0 then flags ← zset flags s RAY_SEL_NONE; Some (flags, offsets, cum)
    else if pc =? seg_len nrows s then flags ← zset flags s RAY_SEL_ALL; Some (flags, offsets, cum)
    else flags ← zset flags s RAY_SEL_MIX; Some (flags, offsets, u32 (cum + pc)))
    (range 0 n_segs) (flags, offsets, 0).

(** [ray_rowsel_from_pred]: the inner [None] is [NULL]. *)
Definition ray_rowsel_from_pred (pred : ray_t) : option (option rowsel) :=
  match pred with
  | RVec t _ nrows pred_data =>
      if negb (t =? RAY_BOOL) then Some None else
      if nrows =? 0 then Some (ray_rowsel_new 0 0 0) else
      let n_segs := u32 ((nrows + RAY_MORSEL_ELEMS - 1) / RAY_MORSEL_ELEMS) in
      match new_array 4 n_segs with
      | None => Some None
      | Some popcount =>
          popcount ← run_segments (rowsel_pass1_fn pred_data nrows) nrows n_segs popcount;
          counts ← sweep_counts nrows n_segs popcount;
          let '(total_pass, idx_count) := counts in
          if total_pass =? nrows then Some None else
          match ray_rowsel_new nrows total_pass idx_count with
          | None => Some None
          | Some block =>
              res ← sweep_layout nrows n_segs popcount (seg_flags block) (seg_offsets block);
              let '(flags, offsets, cum) := res in
              offsets ← zset offsets n_segs cum;
              idx ← (if 0 <? cum
                     then run_segments (rowsel_pass2_fn pred_data nrows flags offsets) nrows n_segs
                            (idx block)
                     else Some (idx block));
              Some (Some (Rowsel total_pass nrows n_segs flags offsets idx))
          end
      end
  | _ => Some None
  end.

(** ** Streaming builder *)
Record builder := Builder {
  b_flags : list Z;
  b_off : list Z;
  b_idx : list Z;      (* its length is [idx_cap] *)
  b_segs : Z;
  b_len : Z;           (* [idx_len] *)
  b_total : Z;         (* [total_pass] *)
}.

(** The scratch arrays of flags and offsets are cleared; [None]: the assert
    on a failed allocation. *)
Definition rowsel_builder_init (n_segs : Z) : option builder :=
  let idx_cap := if n_segs =? 0 then 8 else u32 (n_segs * 8) in
  if alloc_ok (if n_segs =? 0 then 1 else n_segs) && alloc_ok ((n_segs + 1) * 4) then
    idx ← new_array 2 idx_cap;
    Some (Builder (replicate (Z.to_nat (if n_segs =? 0 then 1 else n_segs)) 0)
            (replicate (Z.to_nat (n_segs + 1)) 0) idx n_segs 0 0)
  else None.

(** [while (newcap < need) newcap *= 2u]; 32 doublings pass any 32-bit need. *)
Fixpoint grow_idx (fuel : nat) (newcap need : Z) : option Z :=
  if newcap <? need then
    match fuel with
    | O => None
    | S fuel => grow_idx fuel (u32 (newcap * 2)) need
    end
  else Some newcap.

(** [ray_realloc_raw]: the old bytes are kept, the rest is junk. *)
Definition realloc (size : Z) (a : list Z) (n : Z) : option (list Z) :=
  if alloc_ok (size * n) then Some (a ++ fresh (n - zlen a)) else None.

Definition reserve_idx (idx : list Z) (idx_len pc : Z) : option (list Z) :=
  if zlen idx <? u32 (idx_len + pc) then
    newcap ← grow_idx 32 (if zlen idx =? 0 then 8 else zlen idx) (u32 (idx_len + pc));
    realloc 2 idx newcap
  else Some idx.

Definition rowsel_emit_segment (b : builder) (seg : Z) (morsel_bool : list Z) (n : Z) : option builder :=
  if negb (seg <? b_segs b) then None else
  off ← zset (b_off b) seg (b_len b);
  pc ← count_true morsel_bool 0 n;
  let total := b_total b + pc in
  if pc =? 0 then
    flags ← zset (b_flags b) seg RAY_SEL_NONE;
    off ← zset off (seg + 1) (b_len b);
    Some (Builder flags off (b_idx b) (b_segs b) (b_len b) total)
  else if pc =? n then
    flags ← zset (b_flags b) seg RAY_SEL_ALL;
    off ← zset off (seg + 1) (b_len b);
    Some (Builder flags off (b_idx b) (b_segs b) (b_len b) total)
  else
    flags ← zset (b_flags b) seg RAY_SEL_MIX;
    idx ← reserve_idx (b_idx b) (b_len b) pc;
    out ← write_true morsel_bool 0 0 n (idx, b_len b);
    off ← zset off (seg + 1) (snd out);
    Some (Builder flags off (fst out) (b_segs b) (snd out) total).

(** [memcpy] of [cnt] indices from [src + from] to [dst + k]. *)
Definition copy_idx (src : list Z) (from cnt : Z) (out : list Z * Z) : option (list Z * Z) :=
  foldM (λ i out, x ← src.[from + i]; push x out) (range 0 cnt) out.

(** The state of the stitching loop: [gseg], [cum] and the block's arrays. *)
Definition finish_seg (n_segs : Z) (b : builder) (s : Z) (st : Z * list Z * list Z * list Z * Z) :
    option (Z * list Z * list Z * list Z * Z) :=
  let '(gseg, flags, offsets, idx, cum) := st in
  if negb (gseg <? n_segs) then None else
  f ← (b_flags b).[s];
  flags ← zset flags gseg f;
  offsets ← zset offsets gseg cum;
  if f =? RAY_SEL_MIX then
    o0 ← (b_off b).[s];
    o1 ← (b_off b).[s + 1];
    out ← copy_idx (b_idx b) o0 (u32 (o1 - o0)) (idx, cum);
    Some (gseg + 1, flags, offsets, fst out, u32 (cum + u32 (o1 - o0)))
  else Some (gseg + 1, flags, offsets, idx, cum).

Definition rowsel_builder_finish (builders : list builder) (nrows : Z) : option (option rowsel) :=
  let total_pass := zsum (map b_total builders) in
  let idx_count := zsum (map b_len builders) in
  match ray_rowsel_new nrows total_pass idx_count with
  | None => Some None
  | Some block =>
      res ← foldM (λ b st, foldM (finish_seg (n_segs block) b) (range 0 (b_segs b)) st)
              builders (0, seg_flags block, seg_offsets block, idx block, 0);
      let '(gseg, flags, offsets, idx, cum) := res in
      if negb (gseg =? n_segs block) then None else
      offsets ← zset offsets (n_segs block) cum;
      Some (Some (Rowsel total_pass nrows (n_segs block) flags offsets idx))
  end.

(** ** Flattening *)
Definition flat_offsets_of (sel : rowsel) (flat : list Z) : option (list Z) :=
  res ← foldM (λ s '(flat, cum),
    flat ← zset flat s cum;
    f ← (seg_flags sel).[s];
    if f =? RAY_SEL_NONE then Some (flat, cum)
    else if f =? RAY_SEL_ALL then Some (flat, u32 (cum + u32 (seg_len (nrows sel) s)))
    else
      o0 ← (seg_offsets sel).[s];
      o1 ← (seg_offsets sel).[s + 1];
      Some (flat, u32 (cum + u32 (o1 - o0)))) (range 0 (n_segs sel)) (flat, 0);
  Some (fst res).

Definition to_idx_seg (sel : rowsel) (flat : list Z) (seg : Z) (out : list Z) : option (list Z) :=
  f ← (seg_flags sel).[seg];
  if f =? RAY_SEL_NONE then Some out else
  j ← flat.[seg];
  if f =? RAY_SEL_ALL then
    res ← foldM push (range (seg_base seg) (seg_end (nrows sel) seg)) (out, j);
    Some (fst res)
  else
    o0 ← (seg_offsets sel).[seg];
    o1 ← (seg_offsets sel).[seg + 1];
    res ← foldM (λ i out, x ← (idx sel).[o0 + i]; push (seg_base seg + x) out)
            (range 0 (u32 (o1 - o0))) (out, j);
    Some (fst res).

Definition rowsel_to_idx_fn (sel : rowsel) (flat : list Z) (start_seg end_seg : Z) (out : list Z) :
    option (list Z) :=
  foldM (to_idx_seg sel flat) (range start_seg end_seg) out.

Definition ray_rowsel_to_indices (sel : option rowsel) : option (option (list Z)) :=
  match sel with
  | None => Some None
  | Some sel =>
      match new_array 8 (total_pass sel) with
      | None => Some None
      | Some out =>
          if (total_pass sel =? 0) || (n_segs sel =? 0) then Some (Some out) else
          match new_array 4 (n_segs sel) with
          | None => Some None
          | Some flat =>
              flat ← flat_offsets_of sel flat;
              out ← run_segments (rowsel_to_idx_fn sel flat) (nrows sel) (n_segs sel) out;
              Some (Some out)
          end
      end
  end.

(** ** Refinement *)

(** Survivors of segment [s]: [n] of the count pass. *)
Definition refine_count (e : rowsel) (pred : list Z) (f s : Z) : option Z :=
  if f =? RAY_SEL_ALL then count_true pred (seg_base s) (seg_end (nrows e) s)
  else
    o0 ← (seg_offsets e).[s];
    o1 ← (seg_offsets e).[s + 1];
    foldM (λ i n,
      x ← (idx e).[o0 + i];
      b ← pred.[seg_base s + x];
      Some (u32 (n + if b =? 0 then 0 else 1))) (range 0 (u32 (o1 - o0))) 0.

Definition refine_counts (e : rowsel) (pred popcount : list Z) : option (list Z * Z * Z) :=
  foldM (λ s '(popcount, total_pass, idx_count),
    f ← (seg_flags e).[s];
    if f =? RAY_SEL_NONE then Some (popcount, total_pass, idx_count) else
    n ← refine_count e pred f s;
    popcount ← zset popcount s n;
    Some (popcount, total_pass + n,
          if negb (n =? 0) && negb (n =? seg_len (nrows e) s) then idx_count + n else idx_count))
    (range 0 (n_segs e)) (popcount, 0, 0).

(** The surviving morsel-local indices of a MIX segment. *)
Definition refine_write (e : rowsel) (pred : list Z) (s : Z) (out : list Z * Z) : option (list Z * Z) :=
  f ← (seg_flags e).[s];
  if f =? RAY_SEL_ALL then write_true pred (seg_base s) (seg_base s) (seg_end (nrows e) s) out
  else
    o0 ← (seg_offsets e).[s];
    o1 ← (seg_offsets e).[s + 1];
    foldM (λ i out,
      x ← (idx e).[o0 + i];
      b ← pred.[seg_base s + x];
      if b =? 0 then Some out else push (u16 (seg_base s + x - seg_base s)) out)
      (range 0 (u32 (o1 - o0))) out.

Definition refine_layout (e : rowsel) (pred popcount flags offsets idx : list Z) :
    option (list Z * list Z * list Z * Z) :=
  foldM (λ s '(flags, offsets, idx, cum),
    offsets ← zset offsets s cum;
    pc ← popcount.[s];
    if pc =? 0 then flags ← zset flags s RAY_SEL_NONE; Some (flags, offsets, idx, cum)
    else if pc =? seg_len (nrows e) s then
      flags ← zset flags s RAY_SEL_ALL; Some (flags, offsets, idx, cum)
    else
      flags ← zset flags s RAY_SEL_MIX;
      out ← refine_write e pred s (idx, cum);
      Some (flags, offsets, fst out, u32 (cum + pc)))
    (range 0 (n_segs e)) (flags, offsets, idx, 0).

Definition ray_rowsel_refine (existing : option rowsel) (pred : ray_t) : option (option rowsel) :=
  match existing, pred with
  | None, _ => ray_rowsel_from_pred pred
  | Some e, RVec t _ len pred_data =>
      if negb (t =? RAY_BOOL) then Some None else
      if negb (len =? nrows e) then Some None else
      if negb (alloc_ok (4 * n_segs e)) then Some None else
      res ← refine_counts e pred_data (replicate (Z.to_nat (n_segs e)) 0);
      let '(popcount, total_pass, idx_count) := res in
      if total_pass =? nrows e then Some None else
      match ray_rowsel_new (nrows e) total_pass idx_count with
      | None => Some None
      | Some block =>
          res ← refine_layout e pred_data popcount (seg_flags block) (seg_offsets block) (idx block);
          let '(flags, offsets, idx, cum) := res in
          offsets ← zset offsets (n_segs e) cum;
          Some (Some (Rowsel total_pass (nrows e) (n_segs block) flags offsets idx))
      end
  | Some _, _ => Some None
  end.

(** ** Intersection *)

(** The two-cursor walk over two sorted index slices; [act] is what a common
    index does. *)
Fixpoint merge_walk {S} (fuel : nat) (ai bi : list Z) (ap ae bp be : Z)
    (act : Z → S → option S) (s : S) : option S :=
  if (ap <? ae) && (bp <? be) then
    match fuel with
    | O => None
    | Datatypes.S fuel =>
        av ← ai.[ap];
        bv ← bi.[bp];
        if av <? bv then merge_walk fuel ai bi (ap + 1) ae bp be act s
        else if bv <? av then merge_walk fuel ai bi ap ae (bp + 1) be act s
        else s ← act av s; merge_walk fuel ai bi (ap + 1) ae (bp + 1) be act s
    end
  else Some s.

Definition merge_fuel (ap ae bp be : Z) : nat := Z.to_nat ((ae - ap) + (be - bp)).

Definition merge_count (a b : rowsel) (s : Z) : option Z :=
  ap ← (seg_offsets a).[s]; ae ← (seg_offsets a).[s + 1];
  bp ← (seg_offsets b).[s]; be ← (seg_offsets b).[s + 1];
  merge_walk (merge_fuel ap ae bp be) (idx a) (idx b) ap ae bp be (λ _ n, Some (n + 1)) 0.

Definition slice_count (a : rowsel) (s : Z) : option Z :=
  o0 ← (seg_offsets a).[s]; o1 ← (seg_offsets a).[s + 1]; Some (u32 (o1 - o0)).

Definition intersect_count (a b : rowsel) (s : Z) : option Z :=
  fa ← (seg_flags a).[s];
  fb ← (seg_flags b).[s];
  if (fa =? RAY_SEL_NONE) || (fb =? RAY_SEL_NONE) then Some 0
  else if (fa =? RAY_SEL_ALL) && (fb =? RAY_SEL_ALL) then Some (seg_len (nrows a) s)
  else if fa =? RAY_SEL_ALL then slice_count b s
  else if fb =? RAY_SEL_ALL then slice_count a s
  else merge_count a b s.

Definition intersect_counts (a b : rowsel) : option (Z * Z) :=
  foldM (λ s '(total, idx_count),
    pc ← intersect_count a b s;
    Some (total + pc,
          if (0 <? pc) && negb (pc =? seg_len (nrows a) s) then idx_count + pc else idx_count))
    (range 0 (n_segs a)) (0, 0).

(** One side ALL: the other side's slice is copied. *)
Definition intersect_copy (src : rowsel) (len s : Z) (out : list Z * Z) : option (Z * (list Z * Z)) :=
  begin_ ← (seg_offsets src).[s];
  end_ ← (seg_offsets src).[s + 1];
  let pc := u32 (end_ - begin_) in
  if pc =? len then Some (RAY_SEL_ALL, out)
  else
    out ← foldM (λ p out, x ← (idx src).[p]; push x out) (range begin_ end_) out;
    Some (if pc =? 0 then RAY_SEL_NONE else RAY_SEL_MIX, out).

Definition intersect_seg (a b : rowsel) (s : Z) (out : list Z * Z) : option (Z * (list Z * Z)) :=
  fa ← (seg_flags a).[s];
  fb ← (seg_flags b).[s];
  let len := seg_len (nrows a) s in
  if (fa =? RAY_SEL_NONE) || (fb =? RAY_SEL_NONE) then Some (RAY_SEL_NONE, out)
  else if (fa =? RAY_SEL_ALL) && (fb =? RAY_SEL_ALL) then Some (RAY_SEL_ALL, out)
  else if fa =? RAY_SEL_ALL then intersect_copy b len s out
  else if fb =? RAY_SEL_ALL then intersect_copy a len s out
  else
    count ← merge_count a b s;
    if count =? len then Some (RAY_SEL_ALL, out) else
    ap ← (seg_offsets a).[s]; ae ← (seg_offsets a).[s + 1];
    bp ← (seg_offsets b).[s]; be ← (seg_offsets b).[s + 1];
    out ← merge_walk (merge_fuel ap ae bp be) (idx a) (idx b) ap ae bp be push out;
    Some (if count =? 0 then RAY_SEL_NONE else RAY_SEL_MIX, out).

Definition ray_rowsel_intersect (a b : option rowsel) : option (option rowsel) :=
  match a, b with
  | Some a, Some b =>
      if negb (nrows a =? nrows b) || negb (n_segs a =? n_segs b) then Some None else
      counts ← intersect_counts a b;
      let '(total, idx_count) := counts in
      match ray_rowsel_new (nrows a) total idx_count with
      | None => Some None
      | Some block =>
          res ← foldM (λ s '(flags, offsets, idx, cum),
            offsets ← zset offsets s cum;
            res ← intersect_seg a b s (idx, cum);
            let '(f, (idx, cum)) := res in
            flags ← zset flags s f;
            Some (flags, offsets, idx, u32 cum)) (range 0 (n_segs a))
            (seg_flags block, seg_offsets block, idx block, 0);
          let '(flags, offsets, idx, cum) := res in
          offsets ← zset offsets (n_segs a) cum;
          Some (Some (Rowsel total (nrows a) (n_segs block) flags offsets idx))
      end
  | _, _ => Some None
  end.
End rowsel.
