(* ===== verification/RowselProofs.v ===== *)
(** * Theorems about row selections *)

From S2P Require Import Prelude Pool PoolProofs Serde Rowsel.
Local Open Scope Z_scope.

(** The order a dispatch ran in is some order of its tasks. *)
Class DispatcherLaws `{Dispatcher} := {
  run_order_perm : ∀ ts, run_order ts ≡ₚ ts;
  ring_cap_ok : cap_ok ring_cap;
}.

(** ** Filters over ranges *)
Lemma filter_map_comm {A B} (f : B → bool) (g : A → B) l :
  List.filter f (map g l) = map g (List.filter (λ x, f (g x)) l).
Proof. induction l as [|x l IH]; [done|]. cbn. destruct (f (g x)); cbn; by rewrite IH. Qed.

Lemma filter_zlen_le {A} (f : A → bool) l : zlen (List.filter f l) ≤ zlen l.
Proof.
  induction l as [|x l IH]; [done|]. cbn. destruct (f x); autorewrite with zlen; lia.
Qed.

Lemma filter_full {A} (f : A → bool) l :
  zlen (List.filter f l) = zlen l → ∀ x, x ∈ l → f x = true.
Proof.
  induction l as [|y l IH]; intros Hl x Hx; [by apply not_elem_of_nil in Hx|].
  cbn in Hl. pose proof (filter_zlen_le f l).
  destruct (f y) eqn:Hy; autorewrite with zlen in Hl; [|lia].
  apply elem_of_cons in Hx as [->|Hx]; [done|]. apply IH; [lia|done].
Qed.

Lemma filter_true {A} (f : A → bool) l : (∀ x, x ∈ l → f x = true) → List.filter f l = l.
Proof.
  induction l as [|x l IH]; intros H; [done|]. cbn. rewrite H by set_solver.
  f_equal. apply IH. set_solver.
Qed.
Lemma filter_ext_in' {A} (f g : A → bool) l :
  (∀ x, x ∈ l → f x = g x) → List.filter f l = List.filter g l.
Proof. intros H. apply List.filter_ext_in. intros x Hx. apply H. by apply list_elem_of_In. Qed.

Lemma filter_nil {A} (f : A → bool) l : List.filter f l = [] → ∀ x, x ∈ l → f x = false.
Proof.
  induction l as [|y l IH]; intros Hl x Hx; [by apply not_elem_of_nil in Hx|].
  cbn in Hl. destruct (f y) eqn:Hy; [done|].
  apply elem_of_cons in Hx as [->|Hx]; [done|]. by apply IH.
Qed.

Lemma forallb_false {A} (f : A → bool) l : List.forallb f l = false → ∃ x, x ∈ l ∧ f x = false.
Proof.
  induction l as [|y l IH]; [done|]. cbn. destruct (f y) eqn:Hy; cbn.
  - intros (x & Hx & Hf)%IH. exists x. split; [set_solver|done].
  - intros _. exists y. split; [set_solver|done].
Qed.

Lemma filter_and {A} (f g : A → bool) l :
  List.filter g (List.filter f l) = List.filter (λ x, f x && g x) l.
Proof.
  induction l as [|x l IH]; [done|]. cbn. destruct (f x); cbn; [|done].
  destruct (g x); cbn; by rewrite IH.
Qed.

(** ** Segments of a selection *)
Definition nseg (n : Z) : Z := (n + 1023) / 1024.

(** The selection of the rows [r < n] with [T r]: local indices of a segment,
    their number, the flag, and the prefix sums. *)
Section spec.
Context (n : Z) (T : Z → bool).
Definition loc (s : Z) : list Z := List.filter (λ i, T (seg_base s + i)) (range 0 (seg_len n s)).
Definition cnt (s : Z) : Z := zlen (loc s).
Definition flag_of (s : Z) : Z :=
  if cnt s =? 0 then RAY_SEL_NONE else if cnt s =? seg_len n s then RAY_SEL_ALL else RAY_SEL_MIX.
Definition contrib (s : Z) : Z :=
  if (cnt s =? 0) || (cnt s =? seg_len n s) then 0 else cnt s.
Definition off (s : Z) : Z := zsum (map contrib (range 0 s)).
Definition tot (s : Z) : Z := zsum (map cnt (range 0 s)).
Definition rows : list Z := List.filter T (range 0 n).
End spec.

Definition truth (pred : list Z) (r : Z) : bool :=
  match pred.[r] with Some b => negb (b =? 0) | None => false end.

(** [sel] is the selection of [T] over [n] rows, in the one layout every
    producer must give it (the single offset of an empty source is never
    written nor read). *)
Record rep (sel : rowsel) (n : Z) (T : Z → bool) : Prop := {
  rep_range : 0 ≤ n < 2 ^ 32;
  rep_nrows : nrows sel = n;
  rep_nsegs : n_segs sel = nseg n;
  rep_total : total_pass sel = tot n T (nseg n);
  rep_flen : zlen (seg_flags sel) = nseg n;
  rep_olen : zlen (seg_offsets sel) = nseg n + 1;
  rep_ilen : zlen (idx sel) = off n T (nseg n);
  rep_flags : ∀ s, 0 ≤ s < nseg n → (seg_flags sel).[s] = Some (flag_of n T s);
  rep_offs : 0 < n → ∀ s, 0 ≤ s ≤ nseg n → (seg_offsets sel).[s] = Some (off n T s);
  rep_idx : ∀ s, 0 ≤ s < nseg n → flag_of n T s = RAY_SEL_MIX → holds (idx sel) (off n T s) (loc n T s);
}.

Section geometry.
Context (n : Z) (Hn : 0 ≤ n < 2 ^ 32).

Lemma nseg_bounds : n ≤ nseg n * 1024 < n + 1024.
Proof. unfold nseg. pose proof (Z.div_mod (n + 1023) 1024). pose proof (Z.mod_pos_bound (n + 1023) 1024). lia. Qed.
Lemma nseg_range : 0 ≤ nseg n < 2 ^ 32.
Proof. pose proof nseg_bounds. lia. Qed.
Lemma segs_of_nseg : segs_of n = nseg n.
Proof.
  unfold segs_of. change RAY_MORSEL_ELEMS with 1024. destruct (Z.leb_spec n 0).
  - replace n with 0 by lia. done.
  - replace (n + 1024 - 1) with (n + 1023) by lia. apply wrap_id, nseg_range.
Qed.

Lemma seg_geom s : 0 ≤ s < nseg n →
  0 ≤ seg_base s < n ∧ 0 < seg_len n s ≤ 1024 ∧ seg_end n s = seg_base s + seg_len n s ∧
  seg_end n s ≤ n ∧ seg_base s + seg_len n s = Z.min n (seg_base (s + 1)).
Proof.
  intros Hs. pose proof nseg_bounds. unfold seg_len, seg_end, seg_base.
  change RAY_MORSEL_ELEMS with 1024. destruct (Z.ltb_spec n (s * 1024 + 1024)); lia.
Qed.

Context (T : Z → bool).

Lemma cnt_bounds s : 0 ≤ s < nseg n → 0 ≤ cnt n T s ≤ seg_len n s.
Proof.
  intros Hs. pose proof (seg_geom s Hs). unfold cnt, loc.
  pose proof (filter_zlen_le (λ i, T (seg_base s + i)) (range 0 (seg_len n s))) as Hf.
  rewrite zlen_range in Hf. pose proof (zlen_nonneg (loc n T s)). unfold loc in *. lia.
Qed.
Lemma contrib_bounds s : 0 ≤ s < nseg n → 0 ≤ contrib n T s ≤ cnt n T s.
Proof.
  intros Hs. pose proof (cnt_bounds s Hs). unfold contrib.
  destruct (_ || _); lia.
Qed.
Lemma contrib_mix s : flag_of n T s = RAY_SEL_MIX → contrib n T s = cnt n T s.
Proof.
  unfold flag_of, contrib. destruct (_ =? 0); [done|]. by destruct (_ =? _).
Qed.
Lemma contrib_not_mix s : flag_of n T s ≠ RAY_SEL_MIX → contrib n T s = 0.
Proof.
  unfold flag_of, contrib. destruct (_ =? 0); [done|]. by destruct (_ =? _).
Qed.

Lemma off_succ s : 0 ≤ s → off n T (s + 1) = off n T s + contrib n T s.
Proof.
  intros Hs. unfold off. rewrite range_snoc, map_app, zsum_app by lia. unfold zsum at 2. cbn. lia.
Qed.
Lemma tot_succ s : 0 ≤ s → tot n T (s + 1) = tot n T s + cnt n T s.
Proof.
  intros Hs. unfold tot. rewrite range_snoc, map_app, zsum_app by lia. unfold zsum at 2. cbn. lia.
Qed.
Lemma off_0 : off n T 0 = 0.
Proof. done. Qed.
Lemma tot_0 : tot n T 0 = 0.
Proof. done. Qed.

(** Induction over the segments before [s]. *)
Lemma seg_ind (P : Z → Prop) :
  P 0 → (∀ s, 0 ≤ s < nseg n → P s → P (s + 1)) → ∀ s, 0 ≤ s ≤ nseg n → P s.
Proof.
  intros H0 HS s [Hs Hle]. revert Hle. pattern s. apply natlike_ind; [done| |done].
  intros x Hx IH Hle. apply HS; [lia|]. apply IH. lia.
Qed.

Lemma prefix_bounds s : 0 ≤ s ≤ nseg n →
  0 ≤ off n T s ≤ tot n T s ∧ tot n T s ≤ Z.min n (seg_base s).
Proof.
  revert s. apply seg_ind; [rewrite off_0, tot_0; unfold seg_base; lia|].
  intros s Hs IH. rewrite off_succ, tot_succ by lia.
  pose proof (cnt_bounds s Hs). pose proof (contrib_bounds s Hs).
  pose proof (seg_geom s Hs). lia.
Qed.

Lemma off_mono s t : 0 ≤ s ≤ t → t ≤ nseg n → off n T s ≤ off n T t.
Proof.
  intros [Hs Hst] Ht. replace t with (s + Z.of_nat (Z.to_nat (t - s))) in * by lia.
  clear Hst. revert Ht. generalize (Z.to_nat (t - s)). intros k.
  induction k as [|k IH]; intros Hk; [by rewrite Z.add_0_r|].
  replace (s + Z.of_nat (S k)) with ((s + Z.of_nat k) + 1) in * by lia.
  rewrite off_succ by lia. pose proof (contrib_bounds (s + Z.of_nat k)). lia.
Qed.

Lemma tot_mono s t : 0 ≤ s ≤ t → t ≤ nseg n → tot n T s ≤ tot n T t.
Proof.
  intros [Hs Hst] Ht. replace t with (s + Z.of_nat (Z.to_nat (t - s))) in * by lia.
  clear Hst. revert Ht. generalize (Z.to_nat (t - s)). intros k.
  induction k as [|k IH]; intros Hk; [by rewrite Z.add_0_r|].
  replace (s + Z.of_nat (S k)) with ((s + Z.of_nat k) + 1) in * by lia.
  rewrite tot_succ by lia. pose proof (cnt_bounds (s + Z.of_nat k)). lia.
Qed.

(** Slices of different segments do not meet. *)
Lemma slices_disjoint s t :
  0 ≤ s < nseg n → 0 ≤ t < nseg n → s ≠ t →
  off n T s + contrib n T s ≤ off n T t ∨ off n T t + contrib n T t ≤ off n T s.
Proof.
  intros Hs Ht Hne. rewrite <- !off_succ by lia. destruct (Z.lt_total s t) as [|[|]]; [left| |right];
    [apply off_mono; lia|lia|apply off_mono; lia].
Qed.

Lemma loc_elem s i : i ∈ loc n T s ↔ 0 ≤ i < seg_len n s ∧ T (seg_base s + i) = true.
Proof.
  unfold loc. rewrite list_elem_of_In, List.filter_In, <- list_elem_of_In, elem_of_range. done.
Qed.
End geometry.

(** ** The rows of a selection, segment by segment *)
Section rows.
Context (n : Z) (Hn : 0 ≤ n < 2 ^ 32) (T : Z → bool).

Definition seg_sel (s : Z) : list Z := map (λ i, seg_base s + i) (loc n T s).

Lemma rows_prefix s : 0 ≤ s ≤ nseg n →
  List.filter T (range 0 (Z.min n (seg_base s))) = mjoin (map seg_sel (range 0 s)).
Proof.
  revert s. apply seg_ind; [by rewrite !range_empty by (unfold seg_base; lia)|].
  intros s Hs IH. pose proof (seg_geom n s Hs).
  rewrite (range_snoc 0 s), map_app, join_app, <- IH by lia. cbn [map].
  rewrite mjoin_cons, app_nil_r.
  rewrite <- (range_app 0 (Z.min n (seg_base s))) by lia. rewrite List.filter_app. f_equal.
  rewrite range_shift, filter_map_comm. unfold seg_sel, loc. rewrite (Z.min_r n (seg_base s)) by lia.
  by replace (Z.min n (seg_base (s + 1)) - seg_base s) with (seg_len n s) by lia.
Qed.

Lemma rows_segs : rows n T = mjoin (map seg_sel (range 0 (nseg n))).
Proof.
  pose proof (nseg_range n Hn). pose proof (nseg_bounds n). rewrite <- rows_prefix by lia.
  unfold rows. do 2 f_equal. unfold seg_base. change RAY_MORSEL_ELEMS with 1024. lia.
Qed.

Lemma tot_prefix s : 0 ≤ s ≤ nseg n → tot n T s = zlen (mjoin (map seg_sel (range 0 s))).
Proof.
  intros _. unfold tot. rewrite zlen_mjoin, map_map. f_equal. apply map_ext. intros t.
  unfold seg_sel. by rewrite zlen_map.
Qed.

Lemma tot_rows : tot n T (nseg n) = zlen (rows n T).
Proof. pose proof (nseg_range n Hn). rewrite rows_segs, tot_prefix by lia. done. Qed.

Lemma tot_full : tot n T (nseg n) = n ↔ ∀ r, 0 ≤ r < n → T r = true.
Proof.
  rewrite tot_rows. unfold rows. split.
  - intros Hl r Hr. apply (filter_full T (range 0 n)); [rewrite zlen_range; lia|].
    by apply elem_of_range.
  - intros Hr. rewrite filter_true; [rewrite zlen_range; lia|].
    intros x Hx%elem_of_range. by apply Hr.
Qed.
End rows.

(** ** The loops over rows *)
Section loops.
Context (pred : list Z).

Lemma truth_get r : 0 ≤ r < zlen pred → ∃ b, pred.[r] = Some b ∧ truth pred r = negb (b =? 0).
Proof. intros Hr. destruct (zget_is_Some pred r Hr) as [b Hb]. exists b. unfold truth. by rewrite Hb. Qed.

Lemma count_true_spec lo hi :
  0 ≤ lo ≤ hi → hi ≤ zlen pred → hi - lo < 2 ^ 32 →
  count_true pred lo hi = Some (zlen (List.filter (truth pred) (range lo hi))).
Proof.
  intros Hl Hh Hw. unfold count_true.
  destruct (foldM_range (λ r n, b ← pred.[r]; Some (u32 (n + if b =? 0 then 0 else 1)))
    (λ i c, c = zlen (List.filter (truth pred) (range lo i))) lo hi 0) as (c & Hc & ->);
    [lia|by rewrite range_empty by lia| |exact Hc].
  intros i c Hi ->. destruct (truth_get i) as (b & Hb & Ht); [lia|]. rewrite Hb. cbn.
  eexists. split; [done|]. rewrite range_snoc, List.filter_app, zlen_app by lia. cbn. rewrite Ht.
  pose proof (filter_zlen_le (truth pred) (range lo i)) as Hle. rewrite zlen_range in Hle.
  pose proof (zlen_nonneg (List.filter (truth pred) (range lo i))).
  rewrite wrap_id by (unfold in_u; destruct (b =? 0); lia). destruct (b =? 0); cbn; by autorewrite with zlen.
Qed.

Lemma write_true_spec base lo hi a k :
  0 ≤ lo → hi ≤ zlen pred → 0 ≤ k →
  let l := map (λ r, u16 (r - base)) (List.filter (truth pred) (range lo hi)) in
  k + zlen l ≤ zlen a →
  ∃ a', write_true pred base lo hi (a, k) = Some (a', k + zlen l) ∧ holds a' k l ∧
    agree_off a a' k (zlen l).
Proof.
  intros Hlo Hhi Hk l Hl. unfold write_true.
  rewrite (foldM_ext _ (λ r out, if truth pred r then push (u16 (r - base)) out else Some out)).
  - rewrite foldM_filter. by apply push_all.
  - intros r out Hr%elem_of_range. destruct (truth_get r) as (b & -> & ->); [lia|]. cbn.
    by destruct (b =? 0).
Qed.
End loops.

Section segloops.
Context (n : Z) (Hn : 0 ≤ n < 2 ^ 32) (pred : list Z) (Hp : zlen pred = n).
Let T := truth pred.

(** A segment's rows, seen from the segment. *)
Lemma seg_rows s : 0 ≤ s < nseg n →
  List.filter T (range (seg_base s) (seg_end n s)) = map (λ i, seg_base s + i) (loc n T s).
Proof. intros Hs. rewrite range_shift, filter_map_comm. done. Qed.

Lemma count_seg s : 0 ≤ s < nseg n →
  count_true pred (seg_base s) (seg_end n s) = Some (cnt n T s).
Proof.
  intros Hs. pose proof (seg_geom n s Hs). rewrite count_true_spec by lia.
  fold T. rewrite seg_rows, zlen_map by done. done.
Qed.

Lemma u16_loc s : 0 ≤ s < nseg n →
  map (λ r, u16 (r - seg_base s)) (List.filter T (range (seg_base s) (seg_end n s))) = loc n T s.
Proof.
  intros Hs. rewrite seg_rows, map_map by done. rewrite <- (map_id (loc n T s)) at 2.
  apply map_ext_in. intros i Hi%list_elem_of_In. apply loc_elem in Hi as [Hi _].
  pose proof (seg_geom n s Hs). rewrite wrap_id; [lia|unfold in_u; lia].
Qed.

Lemma write_seg s a k : 0 ≤ s < nseg n → 0 ≤ k → k + cnt n T s ≤ zlen a →
  ∃ a', write_true pred (seg_base s) (seg_base s) (seg_end n s) (a, k) = Some (a', k + cnt n T s) ∧
    holds a' k (loc n T s) ∧ agree_off a a' k (cnt n T s).
Proof.
  intros Hs Hk Ha. pose proof (seg_geom n s Hs).
  pose proof (write_true_spec pred (seg_base s) (seg_base s) (seg_end n s) a k) as Hw.
  cbv zeta in Hw. fold T in Hw. rewrite (u16_loc s Hs) in Hw. apply Hw; [lia..|exact Ha].
Qed.
End segloops.

(** ** Layout sweeps, shared by every producer *)
Section sweeps.
Context (n : Z) (Hn : 0 ≤ n < 2 ^ 32) (T : Z → bool).
Implicit Types (popcount flags offsets : list Z).

Lemma sweep_counts_spec popcount :
  (∀ s, 0 ≤ s < nseg n → popcount.[s] = Some (cnt n T s)) →
  sweep_counts n (nseg n) popcount = Some (tot n T (nseg n), off n T (nseg n)).
Proof.
  intros Hpc. unfold sweep_counts. pose proof (nseg_range n Hn).
  match goal with |- foldM ?f _ _ = _ =>
    destruct (foldM_range f (λ i st, st = (tot n T i, off n T i)) 0 (nseg n) (0, 0))
      as (st & -> & ->) end; [lia|done| |done].
  intros s st Hs ->. rewrite Hpc by done. cbn. eexists. split; [done|].
  rewrite tot_succ, off_succ by lia. unfold contrib.
  destruct (cnt n T s =? 0), (cnt n T s =? seg_len n s); cbn; f_equal; lia.
Qed.

(** Flags and offsets of the segments before [i]. *)
Definition laid flags offsets (i : Z) : Prop :=
  zlen flags = nseg n ∧ zlen offsets = nseg n + 1 ∧
  (∀ s, 0 ≤ s < i → flags.[s] = Some (flag_of n T s)) ∧
  (∀ s, 0 ≤ s < i → offsets.[s] = Some (off n T s)).

Lemma laid_start flags offsets :
  zlen flags = nseg n → zlen offsets = nseg n + 1 → laid flags offsets 0.
Proof. intros. split; [done|]. split; [done|]. split; intros; lia. Qed.

(** One segment's two writes. *)
Lemma laid_step flags offsets i :
  0 ≤ i < nseg n → laid flags offsets i →
  ∃ flags' offsets', zset offsets i (off n T i) = Some offsets' ∧
    zset flags i (flag_of n T i) = Some flags' ∧ laid flags' offsets' (i + 1).
Proof.
  intros Hi (Hf & Ho & Hfl & Hof).
  destruct (zset_total flags i (flag_of n T i)) as [flags' Hf']; [lia|].
  destruct (zset_total offsets i (off n T i)) as [offsets' Ho']; [lia|].
  exists flags', offsets'. split; [done|]. split; [done|].
  split; [by rewrite (zlen_zset _ _ _ _ Hf')|]. split; [by rewrite (zlen_zset _ _ _ _ Ho')|].
  split; intros s Hs; (destruct (decide (s = i)) as [->|]; [by eapply zget_zset_eq|]).
  - rewrite (zget_zset_ne _ _ _ _ _ Hf') by lia. apply Hfl. lia.
  - rewrite (zget_zset_ne _ _ _ _ _ Ho') by lia. apply Hof. lia.
Qed.

(** The last offset closes the layout. *)
Lemma laid_end flags offsets :
  laid flags offsets (nseg n) →
  ∃ offsets', zset offsets (nseg n) (off n T (nseg n)) = Some offsets' ∧ zlen offsets' = nseg n + 1 ∧
    ∀ s, 0 ≤ s ≤ nseg n → offsets'.[s] = Some (off n T s).
Proof.
  intros (Hf & Ho & Hfl & Hof). pose proof (nseg_range n Hn).
  destruct (zset_total offsets (nseg n) (off n T (nseg n))) as [offsets' Ho']; [lia|].
  exists offsets'. split; [done|]. split; [by rewrite (zlen_zset _ _ _ _ Ho')|].
  intros s Hs. destruct (decide (s = nseg n)) as [->|]; [by eapply zget_zset_eq|].
  rewrite (zget_zset_ne _ _ _ _ _ Ho') by lia. apply Hof. lia.
Qed.

Lemma off_u32 s : 0 ≤ s < nseg n → u32 (off n T s + contrib n T s) = off n T (s + 1).
Proof.
  intros Hs. rewrite <- off_succ by lia. apply wrap_id.
  pose proof (prefix_bounds n Hn T (s + 1)). unfold in_u. lia.
Qed.

Lemma sweep_layout_spec popcount flags offsets :
  (∀ s, 0 ≤ s < nseg n → popcount.[s] = Some (cnt n T s)) →
  zlen flags = nseg n → zlen offsets = nseg n + 1 →
  ∃ flags' offsets', sweep_layout n (nseg n) popcount flags offsets
      = Some (flags', offsets', off n T (nseg n)) ∧ laid flags' offsets' (nseg n).
Proof.
  intros Hpc Hf Ho. unfold sweep_layout. pose proof (nseg_range n Hn).
  match goal with |- context [foldM ?f _ ?s0] =>
    destruct (foldM_range f (λ i st, ∃ flags offsets, st = (flags, offsets, off n T i) ∧
      laid flags offsets i) 0 (nseg n) s0) as (st & -> & (fl & os & -> & Hl)) end;
    [lia| | |by eauto].
  { exists flags, offsets. split; [done|by apply laid_start]. }
  intros s st Hs (fl & os & -> & Hl).
  destruct (laid_step fl os s Hs Hl) as (fl' & os' & -> & Hfl & Hl'). cbn. rewrite Hpc by done. cbn.
  pose proof (off_u32 s Hs) as Hoff. unfold contrib, flag_of in *.
  destruct (cnt n T s =? 0); [|destruct (cnt n T s =? seg_len n s)]; cbn in *; rewrite Hfl; cbn;
    rewrite ?Z.add_0_r in Hoff; (eexists; split; [done|]); exists fl', os'; (split; [|done]);
    rewrite <- Hoff; try done;
    rewrite wrap_id by (pose proof (prefix_bounds n Hn T s); unfold in_u; lia); done.
Qed.
End sweeps.

(** ** Parallel passes *)
Section dispatch.
Context `{Dispatcher} `{!DispatcherLaws}.

Lemma foldM_tasks {S} (body : Z → S → option S) ts s :
  foldM (λ t, foldM body (range (t_start t) (t_end t))) ts s = foldM body (mjoin (map task_elems ts)) s.
Proof.
  revert s. induction ts as [|t ts IH]; intros s; [done|]. cbn [map]. rewrite mjoin_cons, foldM_app.
  cbn. unfold task_elems at 1. destruct (foldM body _ s); cbn; [apply IH|done].
Qed.

(** However the pool runs it, a per-segment body is run on every segment. *)
Lemma run_segments_order {S} (body : Z → S → option S) (fn : Z → Z → S → option S) n N s :
  (∀ a b s, fn a b s = foldM body (range a b) s) → 0 ≤ N ≤ 2 ^ 44 →
  ∃ l, l ≡ₚ range 0 N ∧ run_segments fn n N s = foldM body l s.
Proof.
  intros Hfn HN. unfold run_segments. destruct (_ && _); [|by exists (range 0 N)].
  unfold ray_pool_dispatch. destruct ring_cap_ok as (k & Hk & ->).
  destruct (dispatch_tasks ring_realloc_ok (2 ^ k) 0 N) as [cap ts] eqn:Hd. cbn [snd].
  exists (mjoin (map task_elems (run_order ts))). split.
  - rewrite <- (dispatch_tasks_cover _ _ _ _ _ _ Hk HN Hd).
    apply mjoin_map_Permutation, run_order_perm.
  - rewrite <- foldM_tasks. apply foldM_ext. intros. apply Hfn.
Qed.
End dispatch.

Section from_pred.
Context `{Heap} `{Dispatcher} `{!DispatcherLaws}.
Context (mem_ok : ∀ k, alloc_ok k = true).

Lemma rowsel_new_ok n total idxc :
  0 ≤ n < 2 ^ 32 → 0 ≤ idxc ≤ total → total ≤ n →
  ∃ flags offsets idx, ray_rowsel_new n total idxc = Some (Rowsel total n (nseg n) flags offsets idx) ∧
    zlen flags = nseg n ∧ zlen offsets = nseg n + 1 ∧ zlen idx = idxc.
Proof.
  intros Hn Hi Ht. unfold ray_rowsel_new. rewrite !(proj2 (Z.ltb_ge _ _)) by lia. cbn [orb].
  rewrite mem_ok, segs_of_nseg by done. pose proof (nseg_range n Hn).
  eexists _, _, _. split; [done|]. rewrite !zlen_fresh. lia.
Qed.

Section one.
Context (n : Z) (Hn : 0 ≤ n < 2 ^ 32) (pred : list Z) (Hp : zlen pred = n).
Let T := truth pred.

Lemma pass1_spec popcount : zlen popcount = nseg n →
  ∃ pc, run_segments (rowsel_pass1_fn pred n) n (nseg n) popcount = Some pc ∧
    ∀ s, 0 ≤ s < nseg n → pc.[s] = Some (cnt n T s).
Proof.
  intros Hl. pose proof (nseg_range n Hn).
  destruct (run_segments_order (pass1_seg pred n) (rowsel_pass1_fn pred n) n (nseg n) popcount)
    as (l & Hperm & ->); [done|lia|].
  assert (∀ s, s ∈ l ↔ 0 ≤ s < nseg n) as Hin by (intros s; by rewrite Hperm, elem_of_range).
  destruct (foldM_done (pass1_seg pred n) (λ pre pc, zlen pc = nseg n ∧
    ∀ s, s ∈ pre → pc.[s] = Some (cnt n T s)) l popcount) as (pc & -> & _ & Hpc).
  - split; [done|]. intros s Hs. by apply not_elem_of_nil in Hs.
  - intros pre s post pc Hll [Hlen Hpc]. assert (0 ≤ s < nseg n) as Hs by (apply Hin; set_solver).
    unfold pass1_seg. rewrite (count_seg n pred Hp s Hs). cbn.
    destruct (zset_total pc s (cnt n T s)) as [pc' Hz]; [lia|]. exists pc'. split; [done|].
    split; [by rewrite (zlen_zset _ _ _ _ Hz)|]. intros t Ht.
    destruct (decide (t = s)) as [->|Hne]; [by eapply zget_zset_eq|].
    rewrite (zget_zset_ne _ _ _ _ _ Hz) by done. apply Hpc. set_solver.
  - exists pc. split; [done|]. intros s Hs. apply Hpc, Hin, Hs.
Qed.

Lemma pass2_spec flags offsets idx :
  (∀ s, 0 ≤ s < nseg n → flags.[s] = Some (flag_of n T s)) →
  (∀ s, 0 ≤ s ≤ nseg n → offsets.[s] = Some (off n T s)) →
  zlen idx = off n T (nseg n) →
  ∃ idx', run_segments (rowsel_pass2_fn pred n flags offsets) n (nseg n) idx = Some idx' ∧
    zlen idx' = off n T (nseg n) ∧
    ∀ s, 0 ≤ s < nseg n → flag_of n T s = RAY_SEL_MIX → holds idx' (off n T s) (loc n T s).
Proof.
  intros Hfl Hof Hl. pose proof (nseg_range n Hn).
  destruct (run_segments_order (pass2_seg pred n flags offsets)
    (rowsel_pass2_fn pred n flags offsets) n (nseg n) idx) as (l & Hperm & ->); [done|lia|].
  assert (∀ s, s ∈ l ↔ 0 ≤ s < nseg n) as Hin by (intros s; by rewrite Hperm, elem_of_range).
  assert (NoDup l) as Hnd by (rewrite Hperm; apply NoDup_range).
  destruct (foldM_done (pass2_seg pred n flags offsets) (λ pre idx, zlen idx = off n T (nseg n) ∧
    ∀ s, s ∈ pre → flag_of n T s = RAY_SEL_MIX → holds idx (off n T s) (loc n T s)) l idx)
    as (idx' & -> & Hlen & Hh).
  - split; [done|]. intros s Hs. by apply not_elem_of_nil in Hs.
  - intros pre s post ix Hll [Hlen Hh]. assert (0 ≤ s < nseg n) as Hs by (apply Hin; set_solver).
    unfold pass2_seg. rewrite Hfl by done. cbn.
    destruct (Z.eqb_spec (flag_of n T s) RAY_SEL_MIX) as [Hmix|Hmix]; cbn.
    2: { exists ix. split; [done|]. split; [done|]. intros t Ht Hm.
         apply elem_of_app in Ht as [Ht|Ht]; [by apply Hh|].
         apply list_elem_of_singleton in Ht as ->. done. }
    rewrite Hof by lia. cbn.
    pose proof (contrib_mix n T s Hmix) as Hcm. pose proof (off_succ n T s) as Hos.
    pose proof (off_mono n T (s + 1) (nseg n)). pose proof (prefix_bounds n Hn T s).
    destruct (write_seg n pred Hp s ix (off n T s)) as (ix' & -> & Hw & Hag); [done|lia|fold T; lia|].
    cbn. exists ix'. split; [done|]. split; [destruct Hag; lia|].
    intros t Ht Hm. apply elem_of_app in Ht as [Ht|Ht];
      [|by apply list_elem_of_singleton in Ht as ->].
    assert (0 ≤ t < nseg n) by (apply Hin; set_solver).
    assert (t ≠ s) by (intros ->; subst l; apply NoDup_app in Hnd; set_solver).
    eapply holds_agree; [by apply Hh|exact Hag|]. fold (cnt n T t). fold T.
    rewrite <- (contrib_mix n T t Hm), <- Hcm. by apply slices_disjoint.
  - exists idx'. split; [done|]. split; [done|]. intros s Hs. apply Hh, Hin, Hs.
Qed.

Lemma from_pred_spec a :
  (n ≠ 0 ∧ (∀ r, 0 ≤ r < n → T r = true) ∧ ray_rowsel_from_pred (RVec RAY_BOOL a n pred) = Some None) ∨
  ((n = 0 ∨ ∃ r, 0 ≤ r < n ∧ T r = false) ∧
   ∃ sel, ray_rowsel_from_pred (RVec RAY_BOOL a n pred) = Some (Some sel) ∧ rep sel n T).
Proof.
  unfold ray_rowsel_from_pred. closed_tags. cbn [negb].
  pose proof (nseg_range n Hn) as Hns. pose proof (prefix_bounds n Hn T (nseg n) ltac:(lia)) as Hpb.
  destruct (Z.eqb_spec n 0) as [Hz|Hz].
  { right. split; [by left|].
    destruct (rowsel_new_ok 0 0 0) as (fl & os & ix & -> & Hf & Ho & Hi); [lia..|].
    eexists. split; [done|]. rewrite Hz. change (nseg 0) with 0 in *.
    split; cbn; done || lia || (intros; change (nseg 0) with 0 in *; lia). }
  change RAY_MORSEL_ELEMS with 1024. replace (n + 1024 - 1) with (n + 1023) by lia.
  fold (nseg n). rewrite (wrap_id 32 (nseg n)) by (unfold in_u; lia).
  unfold new_array. rewrite mem_ok.
  destruct (pass1_spec (fresh (nseg n))) as (pc & -> & Hpc); [rewrite zlen_fresh; lia|]. cbn.
  rewrite (sweep_counts_spec n Hn T pc Hpc). cbn.
  destruct (Z.eqb_spec (tot n T (nseg n)) n) as [Hall|Hall].
  { left. split; [done|]. split; [|done]. by apply tot_full. }
  right. split.
  { right. destruct (List.forallb T (range 0 n)) eqn:Hfa.
    - exfalso. apply Hall, tot_full; [done|]. intros r Hr. rewrite List.forallb_forall in Hfa.
      apply Hfa, list_elem_of_In, elem_of_range, Hr.
    - apply forallb_false in Hfa as (r & Hr%elem_of_range & Hf). by exists r. }
  destruct (rowsel_new_ok n (tot n T (nseg n)) (off n T (nseg n))) as (fl & os & ix & -> & Hf & Ho & Hi);
    [lia..|]. cbn.
  destruct (sweep_layout_spec n Hn T pc fl os Hpc Hf Ho) as (fl' & os' & -> & Hlaid). cbn.
  destruct (laid_end n Hn T fl' os' Hlaid) as (os2 & -> & Hol & Hof). cbn.
  destruct Hlaid as (Hfl & _ & Hfv & _).
  destruct (Z.ltb_spec 0 (off n T (nseg n))) as [Hpos|Hpos].
  - destruct (pass2_spec fl' os2 ix Hfv Hof Hi) as (ix' & -> & Hil & Hix). cbn.
    eexists. split; [done|]. by split.
  - cbn. eexists. split; [done|]. split; cbn; try done.
    intros s Hs Hm. pose proof (contrib_mix n T s Hm). pose proof (off_succ n T s).
    pose proof (off_mono n T (s + 1) (nseg n)). pose proof (prefix_bounds n Hn T s).
    intros j Hj. fold (cnt n T s) in Hj. lia.
Qed.
End one.
End from_pred.

(** ** Reading a selection *)
Section read.
Context (sel : rowsel) (n : Z) (T : Z → bool) (Hrep : rep sel n T).
Let Hn : 0 ≤ n < 2 ^ 32 := rep_range _ _ _ Hrep.

Lemma seg_pos s : 0 ≤ s < nseg n → 0 < n.
Proof. intros Hs. pose proof (seg_geom n s Hs). lia. Qed.

(** The three shapes of a segment. *)
Inductive seg_view (s : Z) : Prop :=
| view_none : flag_of n T s = RAY_SEL_NONE → loc n T s = [] → seg_view s
| view_all : flag_of n T s = RAY_SEL_ALL → loc n T s = range 0 (seg_len n s) → seg_view s
| view_mix : flag_of n T s = RAY_SEL_MIX → cnt n T s ≠ 0 → cnt n T s ≠ seg_len n s →
    contrib n T s = cnt n T s → seg_view s.

Lemma seg_cases s : 0 ≤ s < nseg n → seg_view s.
Proof.
  intros Hs. pose proof (seg_geom n s Hs). destruct (Z.eqb_spec (cnt n T s) 0) as [H0|H0].
  { apply view_none; [unfold flag_of; by rewrite H0|]. unfold cnt in H0.
    destruct (loc n T s) as [|x l]; [done|]. rewrite zlen_cons in H0. pose proof (zlen_nonneg l). lia. }
  destruct (Z.eqb_spec (cnt n T s) (seg_len n s)) as [H1|H1].
  { apply view_all.
    - unfold flag_of. rewrite (proj2 (Z.eqb_neq _ _) H0), (proj2 (Z.eqb_eq _ _) H1). done.
    - apply filter_true, filter_full. rewrite zlen_range. fold (loc n T s). fold (cnt n T s). lia. }
  assert (flag_of n T s = RAY_SEL_MIX) as Hm.
  { unfold flag_of. by rewrite (proj2 (Z.eqb_neq _ _) H0), (proj2 (Z.eqb_neq _ _) H1). }
  apply view_mix; auto using contrib_mix.
Qed.

(** A MIX segment's slice bounds, and its entries. *)
Lemma read_offs s : 0 ≤ s < nseg n →
  (seg_offsets sel).[s] = Some (off n T s) ∧ (seg_offsets sel).[s + 1] = Some (off n T (s + 1)) ∧
  u32 (off n T (s + 1) - off n T s) = contrib n T s.
Proof.
  intros Hs. pose proof (seg_pos s Hs). rewrite !(rep_offs _ _ _ Hrep) by lia.
  split; [done|]. split; [done|]. rewrite off_succ by lia.
  replace (_ - _) with (contrib n T s) by lia. apply wrap_id.
  pose proof (contrib_bounds n T s Hs). pose proof (cnt_bounds n T s Hs).
  pose proof (seg_geom n s Hs). unfold in_u. lia.
Qed.

Lemma read_mix s i : 0 ≤ s < nseg n → flag_of n T s = RAY_SEL_MIX → 0 ≤ i < cnt n T s →
  (idx sel).[off n T s + i] = (loc n T s).[i].
Proof. intros Hs Hm Hi. by apply (rep_idx _ _ _ Hrep). Qed.

(** Looping over a MIX slice is looping over its local indices. *)
Lemma mix_loop {S} (f : Z → S → option S) s (st : S) :
  0 ≤ s < nseg n → flag_of n T s = RAY_SEL_MIX →
  foldM (λ i st, x ← (idx sel).[off n T s + i]; f x st) (range 0 (cnt n T s)) st
  = foldM f (loc n T s) st.
Proof.
  intros Hs Hm. unfold cnt. by apply holds_loop, (rep_idx _ _ _ Hrep).
Qed.
End read.

(** ** One layout: selections of the same rows are equal *)
Lemma rep_unique sel1 sel2 n T1 T2 :
  0 < n → rep sel1 n T1 → rep sel2 n T2 → (∀ r, 0 ≤ r < n → T1 r = T2 r) → sel1 = sel2.
Proof.
  intros Hpos H1 H2 HT. pose proof (rep_range _ _ _ H1) as Hn. pose proof (nseg_range n Hn) as Hns.
  assert (∀ s, 0 ≤ s < nseg n → loc n T1 s = loc n T2 s) as Hloc.
  { intros s Hs. pose proof (seg_geom n s Hs). apply filter_ext_in'. intros i Hi%elem_of_range.
    apply HT. lia. }
  assert (∀ s, 0 ≤ s < nseg n → flag_of n T1 s = flag_of n T2 s ∧ contrib n T1 s = contrib n T2 s ∧
    cnt n T1 s = cnt n T2 s) as Hseg.
  { intros s Hs. unfold flag_of, contrib, cnt. by rewrite (Hloc s Hs). }
  assert (∀ s, 0 ≤ s ≤ nseg n → off n T1 s = off n T2 s ∧ tot n T1 s = tot n T2 s) as Hoff.
  { apply seg_ind; [done|]. intros s Hs [IH1 IH2]. rewrite !off_succ, !tot_succ by lia.
    destruct (Hseg s Hs) as (_ & -> & ->). by rewrite IH1, IH2. }
  assert (∀ sel T, rep sel n T → idx sel = mjoin (map (λ s, if flag_of n T s =? RAY_SEL_MIX
    then loc n T s else []) (range 0 (nseg n)))) as Hidx.
  { intros sel T Hr. apply (chunks_whole _ _ (off n T)); [lia|done| | |apply Hr].
    - intros s Hs. rewrite off_succ by lia. f_equal. destruct (Z.eqb_spec (flag_of n T s) RAY_SEL_MIX).
      + by apply contrib_mix.
      + by apply contrib_not_mix.
    - intros s Hs. destruct (Z.eqb_spec (flag_of n T s) RAY_SEL_MIX); [|apply holds_nil].
      by apply (rep_idx _ _ _ Hr). }
  pose proof (Hidx _ _ H1) as Hi1. pose proof (Hidx _ _ H2) as Hi2.
  destruct H1 as [_ E1 E2 E3 E4 E5 _ E7 E8 _], H2 as [_ F1 F2 F3 F4 F5 _ F7 F8 _].
  destruct sel1, sel2. cbn in *. subst. f_equal.
  - apply Hoff. lia.
  - apply zlist_ext; [lia|]. intros s Hs. rewrite E7, F7 by lia. f_equal. apply Hseg. lia.
  - apply zlist_ext; [lia|]. intros s Hs. rewrite E8, F8 by lia. f_equal. apply Hoff. lia.
  - f_equal. apply map_ext_in. intros s Hs%list_elem_of_In%elem_of_range.
    destruct (Hseg s Hs) as (-> & _). by rewrite Hloc.
Qed.

(** ** Flattening *)
Section flatten.
Context `{Heap} `{Dispatcher} `{!DispatcherLaws}.
Context (mem_ok : ∀ k, alloc_ok k = true).
Context (sel : rowsel) (n : Z) (T : Z → bool) (Hrep : rep sel n T).
Let Hn : 0 ≤ n < 2 ^ 32 := rep_range _ _ _ Hrep.
Let Hsegs := rep_nsegs _ _ _ Hrep.
Let Hrows := rep_nrows _ _ _ Hrep.

Lemma tot_u32 s : 0 ≤ s < nseg n → u32 (tot n T s + cnt n T s) = tot n T (s + 1).
Proof.
  intros Hs. rewrite <- tot_succ by lia. apply wrap_id.
  pose proof (prefix_bounds n Hn T (s + 1)). unfold in_u. lia.
Qed.

Lemma flat_offsets_spec flat : zlen flat = nseg n →
  ∃ flat', flat_offsets_of sel flat = Some flat' ∧ ∀ s, 0 ≤ s < nseg n → flat'.[s] = Some (tot n T s).
Proof.
  intros Hl. unfold flat_offsets_of. rewrite Hsegs, Hrows. pose proof (nseg_range n Hn).
  match goal with |- context [foldM ?f _ ?s0] =>
    destruct (foldM_range f (λ i st, ∃ fl, st = (fl, tot n T i) ∧ zlen fl = nseg n ∧
      ∀ s, 0 ≤ s < i → fl.[s] = Some (tot n T s)) 0 (nseg n) s0) as (st & -> & (fl & -> & _ & Hfl)) end;
    [lia|by exists flat; split; [done|]; split; [done|]; intros; lia| |by exists fl].
  intros s st Hs (fl & -> & Hlen & Hfl).
  destruct (zset_total fl s (tot n T s)) as [fl' Hz]; [lia|]. rewrite Hz. cbn.
  rewrite (rep_flags _ _ _ Hrep) by done. cbn.
  assert (zlen fl' = nseg n ∧ ∀ t, 0 ≤ t < s + 1 → fl'.[t] = Some (tot n T t)) as Hfl'.
  { split; [by rewrite (zlen_zset _ _ _ _ Hz)|]. intros t Ht.
    destruct (decide (t = s)) as [->|]; [by eapply zget_zset_eq|].
    rewrite (zget_zset_ne _ _ _ _ _ Hz) by lia. apply Hfl. lia. }
  pose proof (tot_u32 s Hs) as Hu. pose proof (seg_geom n s Hs).
  destruct (seg_cases n T s Hs) as [Hf Hloc|Hf Hloc|Hf _ _ Hc]; rewrite Hf; cbn.
  - eexists. split; [done|]. exists fl'. split; [|done]. unfold cnt in Hu. rewrite Hloc, zlen_nil in Hu.
    rewrite tot_succ by lia. unfold cnt. rewrite Hloc, zlen_nil. f_equal. lia.
  - eexists. split; [done|]. exists fl'. split; [|done]. unfold cnt in Hu. rewrite Hloc, zlen_range in Hu.
    rewrite (wrap_id 32 (seg_len n s)) by (unfold in_u; lia).
    replace (Z.max 0 (seg_len n s - 0)) with (seg_len n s) in Hu by lia. by rewrite Hu.
  - destruct (read_offs sel n T Hrep s Hs) as (-> & -> & Hd). cbn. rewrite Hd, Hc, Hu.
    eexists. split; [done|]. by exists fl'.
Qed.

Lemma to_idx_seg_spec flat s out :
  0 ≤ s < nseg n → flat.[s] = Some (tot n T s) → zlen out = tot n T (nseg n) →
  ∃ out', to_idx_seg sel flat s out = Some out' ∧ holds out' (tot n T s) (seg_sel n T s) ∧
    agree_off out out' (tot n T s) (cnt n T s).
Proof.
  intros Hs Hfl Hout. pose proof (seg_geom n s Hs). pose proof (prefix_bounds n Hn T s).
  assert (tot n T s + cnt n T s ≤ zlen out) as Hfit.
  { rewrite <- tot_succ by lia. rewrite Hout. apply tot_mono; lia. }
  assert (zlen (seg_sel n T s) = cnt n T s) as Hlen by (unfold seg_sel; by rewrite zlen_map).
  pose proof (push_all (seg_sel n T s) out (tot n T s)) as Hpush. rewrite Hlen in Hpush.
  destruct Hpush as (out' & Hp & Hh & Hag); [lia|done|].
  unfold to_idx_seg. rewrite (rep_flags _ _ _ Hrep) by done. cbn. rewrite Hrows.
  destruct (seg_cases n T s Hs) as [Hf Hloc|Hf Hloc|Hf _ _ Hc]; rewrite Hf; cbn.
  - exists out. unfold seg_sel. rewrite Hloc. split; [done|]. split; [apply holds_nil|done].
  - rewrite Hfl. cbn. rewrite range_shift.
    replace (seg_end n s - seg_base s) with (seg_len n s) by done. rewrite <- Hloc.
    fold (seg_sel n T s). rewrite Hp. cbn. by exists out'.
  - rewrite Hfl. cbn. destruct (read_offs sel n T Hrep s Hs) as (-> & -> & Hd). cbn. rewrite Hd, Hc.
    rewrite (mix_loop sel n T Hrep (λ x, push (seg_base s + x))) by done.
    rewrite <- (foldM_map push (λ x, seg_base s + x)). fold (seg_sel n T s). rewrite Hp. cbn.
    by exists out'.
Qed.

Lemma to_indices_spec : ray_rowsel_to_indices (Some sel) = Some (Some (rows n T)).
Proof.
  pose proof (nseg_range n Hn). pose proof (prefix_bounds n Hn T (nseg n)).
  pose proof (tot_rows n Hn T) as Htr. unfold ray_rowsel_to_indices, new_array. rewrite !mem_ok.
  rewrite (rep_total _ _ _ Hrep), Hsegs, Hrows.
  assert (zlen (fresh (tot n T (nseg n))) = tot n T (nseg n)) as Hfr by (rewrite zlen_fresh; lia).
  destruct (Z.eqb_spec (tot n T (nseg n)) 0) as [Hz|Hz]; cbn [orb].
  { do 2 f_equal. rewrite Hz in *. destruct (rows n T); [|rewrite zlen_cons in Htr; pose proof (zlen_nonneg l); lia].
    done. }
  destruct (Z.eqb_spec (nseg n) 0) as [Hz'|_]; [rewrite Hz' in Hz; done|].
  destruct (flat_offsets_spec (fresh (nseg n))) as (flat & -> & Hflat); [rewrite zlen_fresh; lia|]. cbn.
  destruct (run_segments_order (to_idx_seg sel flat) (rowsel_to_idx_fn sel flat) n (nseg n)
    (fresh (tot n T (nseg n)))) as (l & Hperm & ->); [done|lia|].
  assert (∀ s, s ∈ l ↔ 0 ≤ s < nseg n) as Hin by (intros s; by rewrite Hperm, elem_of_range).
  assert (NoDup l) as Hnd by (rewrite Hperm; apply NoDup_range).
  destruct (foldM_done (to_idx_seg sel flat) (λ pre out, zlen out = tot n T (nseg n) ∧
    ∀ s, s ∈ pre → holds out (tot n T s) (seg_sel n T s)) l (fresh (tot n T (nseg n))))
    as (out & -> & Hlen & Hh).
  - split; [done|]. intros s Hs. by apply not_elem_of_nil in Hs.
  - intros pre s post out Hll [Hlen Hh]. assert (0 ≤ s < nseg n) as Hs by (apply Hin; set_solver).
    destruct (to_idx_seg_spec flat s out Hs (Hflat s Hs) Hlen) as (out' & Ho & Hh' & Hag).
    exists out'. split; [done|]. split; [destruct Hag; lia|]. intros t Ht.
    apply elem_of_app in Ht as [Ht|Ht]; [|by apply list_elem_of_singleton in Ht as ->].
    assert (0 ≤ t < nseg n) by (apply Hin; set_solver).
    assert (t ≠ s) by (intros ->; subst l; apply NoDup_app in Hnd; set_solver).
    eapply holds_agree; [by apply Hh|exact Hag|]. unfold seg_sel. rewrite zlen_map. fold (cnt n T t).
    rewrite <- !tot_succ by lia. destruct (Z.lt_total s t) as [|[|]]; [right|lia|left]; apply tot_mono; lia.
  - cbn. do 2 f_equal. rewrite rows_segs by done.
    apply (chunks_whole _ _ (tot n T)); [lia|done| | |done].
    + intros s Hs. rewrite tot_succ by lia. unfold seg_sel. by rewrite zlen_map.
    + intros s Hs. apply Hh, Hin, Hs.
Qed.
End flatten.

(** ** Filling the index array in segment order *)
Section fill.
Context (n : Z) (Hn : 0 ≤ n < 2 ^ 32).

(** Indices written so far. *)
Definition filled (T : Z → bool) (ix : list Z) (i : Z) : Prop :=
  zlen ix = off n T (nseg n) ∧
  ∀ s, 0 ≤ s < i → flag_of n T s = RAY_SEL_MIX → holds ix (off n T s) (loc n T s).

Lemma filled_skip T' ix i : flag_of n T' i ≠ RAY_SEL_MIX → filled T' ix i → filled T' ix (i + 1).
Proof.
  intros Hf [Hl Hh]. split; [done|]. intros s Hs Hm. destruct (decide (s = i)) as [->|]; [done|].
  apply Hh; [lia|done].
Qed.

Lemma filled_write T' ix ix' i :
  0 ≤ i < nseg n → flag_of n T' i = RAY_SEL_MIX → filled T' ix i →
  holds ix' (off n T' i) (loc n T' i) → agree_off ix ix' (off n T' i) (cnt n T' i) →
  filled T' ix' (i + 1).
Proof.
  intros Hi Hm [Hl Hh] Hw Hag. split; [destruct Hag; lia|]. intros s Hs Hf.
  destruct (decide (s = i)) as [->|]; [done|].
  eapply holds_agree; [apply Hh; [lia|done]|exact Hag|]. left. fold (cnt n T' s).
  rewrite <- (contrib_mix n T' s Hf), <- off_succ by lia. apply off_mono; lia.
Qed.

Lemma off_fits T' i (ix : list Z) : 0 ≤ i < nseg n → flag_of n T' i = RAY_SEL_MIX → zlen ix = off n T' (nseg n) →
  0 ≤ off n T' i ∧ off n T' i + cnt n T' i ≤ zlen ix.
Proof.
  intros Hi Hm Hl. rewrite <- (contrib_mix n T' i Hm), <- off_succ, Hl by lia.
  split; [pose proof (prefix_bounds n Hn T' i); lia|apply off_mono; lia].
Qed.
End fill.

(** ** Refinement *)
Section refine.
Context `{Heap} `{Dispatcher} `{!DispatcherLaws}.
Context (mem_ok : ∀ k, alloc_ok k = true).
Context (e : rowsel) (n : Z) (T : Z → bool) (Hrep : rep e n T).
Context (pred : list Z) (Hp : zlen pred = n).
Let Hn : 0 ≤ n < 2 ^ 32 := rep_range _ _ _ Hrep.
Let Hsegs := rep_nsegs _ _ _ Hrep.
Let Hrows := rep_nrows _ _ _ Hrep.
Definition both (r : Z) : bool := T r && truth pred r.

Lemma loc_both s : loc n both s = List.filter (λ i, truth pred (seg_base s + i)) (loc n T s).
Proof. unfold loc. by rewrite filter_and. Qed.
Lemma loc_both_all s : loc n T s = range 0 (seg_len n s) → loc n both s = loc n (truth pred) s.
Proof. intros Hl. rewrite loc_both, Hl. done. Qed.

(** The count loop over local indices. *)
Lemma count_loc s l : 0 ≤ s < nseg n → (∀ i, i ∈ l → 0 ≤ i < seg_len n s) → zlen l < 2 ^ 32 →
  foldM (λ x c, b ← pred.[seg_base s + x]; Some (u32 (c + if b =? 0 then 0 else 1))) l 0
  = Some (zlen (List.filter (λ i, truth pred (seg_base s + i)) l)).
Proof.
  intros Hs Hl Hlt. pose proof (seg_geom n s Hs).
  destruct (foldM_done (λ x c, b ← pred.[seg_base s + x]; Some (u32 (c + if b =? 0 then 0 else 1)))
    (λ pre c, c = zlen (List.filter (λ i, truth pred (seg_base s + i)) pre)) l 0) as (c & -> & ->);
    [done| |done].
  intros pre i post c Hll ->. assert (0 ≤ i < seg_len n s) by (apply Hl; set_solver).
  destruct (truth_get pred (seg_base s + i)) as (b & -> & Ht); [lia|]. cbn. eexists. split; [done|].
  rewrite List.filter_app, zlen_app. cbn. rewrite Ht.
  pose proof (filter_zlen_le (λ i, truth pred (seg_base s + i)) pre).
  pose proof (zlen_nonneg (List.filter (λ i, truth pred (seg_base s + i)) pre)).
  subst l. rewrite zlen_app, zlen_cons in Hlt. pose proof (zlen_nonneg post).
  rewrite wrap_id by (unfold in_u; destruct (b =? 0); lia). by destruct (b =? 0).
Qed.

Lemma loc_small s : 0 ≤ s < nseg n → zlen (loc n T s) < 2 ^ 32.
Proof. intros Hs. pose proof (cnt_bounds n T s Hs). pose proof (seg_geom n s Hs). unfold cnt in *. lia. Qed.
Lemma loc_in s i : i ∈ loc n T s → 0 ≤ i < seg_len n s.
Proof. intros Hi%loc_elem. tauto. Qed.

Lemma refine_count_spec s : 0 ≤ s < nseg n → flag_of n T s ≠ RAY_SEL_NONE →
  refine_count e pred (flag_of n T s) s = Some (cnt n both s).
Proof.
  intros Hs Hne. unfold refine_count. rewrite Hrows.
  destruct (seg_cases n T s Hs) as [Hf Hloc|Hf Hloc|Hf _ _ Hc]; [done|rewrite Hf; cbn..].
  - rewrite (count_seg n pred Hp s Hs). unfold cnt. by rewrite (loc_both_all s Hloc).
  - destruct (read_offs e n T Hrep s Hs) as (-> & -> & Hd). cbn. rewrite Hd, Hc.
    rewrite (mix_loop e n T Hrep
      (λ x c, b ← pred.[seg_base s + x]; Some (u32 (c + if b =? 0 then 0 else 1)))) by done.
    rewrite count_loc; auto using loc_small, loc_in. unfold cnt. by rewrite loc_both.
Qed.

Lemma refine_write_spec s a k :
  0 ≤ s < nseg n → flag_of n T s ≠ RAY_SEL_NONE → 0 ≤ k → k + cnt n both s ≤ zlen a →
  ∃ a', refine_write e pred s (a, k) = Some (a', k + cnt n both s) ∧
    holds a' k (loc n both s) ∧ agree_off a a' k (cnt n both s).
Proof.
  intros Hs Hne Hk Ha. unfold refine_write. rewrite (rep_flags _ _ _ Hrep), Hrows by done. cbn.
  destruct (seg_cases n T s Hs) as [Hf Hloc|Hf Hloc|Hf _ _ Hc]; [done|rewrite Hf; cbn..].
  - unfold cnt in *. rewrite (loc_both_all s Hloc) in *. by apply write_seg.
  - destruct (read_offs e n T Hrep s Hs) as (-> & -> & Hd). cbn. rewrite Hd, Hc.
    rewrite (mix_loop e n T Hrep (λ x out, b ← pred.[seg_base s + x];
      if b =? 0 then Some out else push (u16 (seg_base s + x - seg_base s)) out)) by done.
    pose proof (seg_geom n s Hs).
    rewrite (foldM_ext _ (λ x out, if truth pred (seg_base s + x) then push x out else Some out)).
    + rewrite (foldM_filter _ (λ x, x)), map_id, <- loc_both. by apply push_all.
    + intros x out Hx%loc_in. destruct (truth_get pred (seg_base s + x)) as (b & -> & ->); [lia|].
      cbn. rewrite wrap_id by (unfold in_u; lia).
      replace (seg_base s + x - seg_base s) with x by lia. by destruct (b =? 0).
Qed.

Lemma none_both s : 0 ≤ s < nseg n → flag_of n T s = RAY_SEL_NONE → cnt n both s = 0.
Proof.
  intros Hs Hf. destruct (seg_cases n T s Hs) as [_ Hloc|Hf' _|Hf' _ _ _]; [|by rewrite Hf in Hf'..].
  unfold cnt. by rewrite loc_both, Hloc.
Qed.

Lemma refine_counts_spec :
  ∃ pc, refine_counts e pred (replicate (Z.to_nat (nseg n)) 0)
      = Some (pc, tot n both (nseg n), off n both (nseg n)) ∧
    ∀ s, 0 ≤ s < nseg n → pc.[s] = Some (cnt n both s).
Proof.
  unfold refine_counts. rewrite Hsegs, Hrows. pose proof (nseg_range n Hn).
  match goal with |- context [foldM ?f _ ?s0] =>
    destruct (foldM_range f (λ i st, ∃ pc, st = (pc, tot n both i, off n both i) ∧ zlen pc = nseg n ∧
      (∀ s, 0 ≤ s < i → pc.[s] = Some (cnt n both s)) ∧ (∀ s, i ≤ s < nseg n → pc.[s] = Some 0))
      0 (nseg n) s0) as (st & -> & (pc & -> & _ & Hpc & _)) end; [lia| | |by exists pc].
  { eexists. split; [done|]. rewrite zlen_replicate. split; [lia|]. split; [intros; lia|].
    intros s Hs. unfold zget. rewrite (proj2 (Z.leb_le _ _)) by lia. apply lookup_replicate_2. lia. }
  intros s st Hs (pc & -> & Hlen & Hpc & Hz). rewrite (rep_flags _ _ _ Hrep) by done. cbn.
  pose proof (off_succ n both s). pose proof (tot_succ n both s).
  destruct (Z.eqb_spec (flag_of n T s) RAY_SEL_NONE) as [Hf|Hf].
  { pose proof (none_both s Hs Hf) as Hn0. eexists. split; [done|]. exists pc.
    assert (contrib n both s = 0) by (unfold contrib; by rewrite Hn0).
    split; [f_equal; [f_equal|]; lia|]. split; [done|]. split; [|intros; apply Hz; lia].
    intros t Ht. destruct (decide (t = s)) as [->|]; [rewrite Hn0; apply Hz; lia|apply Hpc; lia]. }
  rewrite refine_count_spec by done. cbn.
  destruct (zset_total pc s (cnt n both s)) as [pc' Hz']; [lia|]. rewrite Hz'. cbn.
  eexists. split; [done|]. exists pc'. split.
  { unfold contrib in *. f_equal; [f_equal; lia|].
    destruct (cnt n both s =? 0), (cnt n both s =? seg_len n s); cbn in *; lia. }
  split; [by rewrite (zlen_zset _ _ _ _ Hz')|]. split.
  - intros t Ht. destruct (decide (t = s)) as [->|]; [by eapply zget_zset_eq|].
    rewrite (zget_zset_ne _ _ _ _ _ Hz') by done. apply Hpc. lia.
  - intros t Ht. rewrite (zget_zset_ne _ _ _ _ _ Hz') by lia. apply Hz. lia.
Qed.

Lemma refine_layout_spec pc fl os ix :
  (∀ s, 0 ≤ s < nseg n → pc.[s] = Some (cnt n both s)) →
  zlen fl = nseg n → zlen os = nseg n + 1 → zlen ix = off n both (nseg n) →
  ∃ fl' os' ix', refine_layout e pred pc fl os ix = Some (fl', os', ix', off n both (nseg n)) ∧
    laid n both fl' os' (nseg n) ∧ filled n both ix' (nseg n).
Proof.
  intros Hpc Hf Ho Hi. unfold refine_layout. rewrite Hsegs, Hrows. pose proof (nseg_range n Hn).
  match goal with |- context [foldM ?f _ ?s0] =>
    destruct (foldM_range f (λ i st, ∃ fl os ix, st = (fl, os, ix, off n both i) ∧
      laid n both fl os i ∧ filled n both ix i) 0 (nseg n) s0)
      as (st & -> & (fl' & os' & ix' & -> & Hl & Hx)) end; [lia| | |by eauto 6].
  { exists fl, os, ix. split; [done|]. split; [by apply laid_start|]. split; [done|]. intros; lia. }
  clear fl os ix Hf Ho Hi. intros s st Hs (fl & os & ix & -> & Hl & Hx).
  destruct (laid_step n both fl os s Hs Hl) as (fl' & os' & -> & Hfl & Hl'). cbn. rewrite Hpc by done. cbn.
  pose proof (off_u32 n Hn both s Hs) as Hoff. pose proof (prefix_bounds n Hn both s ltac:(lia)).
  destruct (seg_cases n both s Hs) as [Hf Hloc|Hf Hloc|Hf Hc0 Hc1 Hc].
  - unfold cnt at 1. rewrite Hloc. cbn. rewrite Hf in Hfl. rewrite Hfl. cbn. eexists. split; [done|].
    exists fl', os', ix. split; [|split; [done|apply filled_skip; [by rewrite Hf|done]]].
    rewrite off_succ, contrib_not_mix by (done || lia || by rewrite Hf). by rewrite Z.add_0_r.
  - assert (cnt n both s = seg_len n s) as Hcs.
    { unfold cnt. rewrite Hloc, zlen_range. pose proof (seg_geom n s Hs). lia. }
    rewrite Hcs. pose proof (seg_geom n s Hs). rewrite (proj2 (Z.eqb_neq _ _)), Z.eqb_refl by lia.
    rewrite Hf in Hfl. rewrite Hfl. cbn. eexists. split; [done|].
    exists fl', os', ix. split; [|split; [done|apply filled_skip; [by rewrite Hf|done]]].
    rewrite off_succ, contrib_not_mix by (done || lia || by rewrite Hf). by rewrite Z.add_0_r.
  - rewrite (proj2 (Z.eqb_neq _ _) Hc0), (proj2 (Z.eqb_neq _ _) Hc1).
    rewrite Hf in Hfl. rewrite Hfl. cbn.
    destruct (off_fits n Hn both s ix Hs Hf) as [Ho1 Ho2]; [apply Hx|].
    destruct (refine_write_spec s ix (off n both s)) as (ix' & -> & Hw & Hag); [done| |done|done|].
    { intros Hfn. by apply Hc0, none_both. }
    cbn. rewrite Hc in Hoff. rewrite Hoff. eexists. split; [done|]. exists fl', os', ix'.
    split; [done|]. split; [done|]. by eapply filled_write.
Qed.

Lemma refine_spec a :
  ((∀ r, 0 ≤ r < n → both r = true) ∧ ray_rowsel_refine (Some e) (RVec RAY_BOOL a n pred) = Some None) ∨
  ((∃ r, 0 ≤ r < n ∧ both r = false) ∧
   ∃ sel, ray_rowsel_refine (Some e) (RVec RAY_BOOL a n pred) = Some (Some sel) ∧ rep sel n both).
Proof.
  cbn [ray_rowsel_refine]. closed_tags. cbn [negb]. rewrite Hrows, Hsegs, Z.eqb_refl, mem_ok. cbn [negb].
  pose proof (nseg_range n Hn) as Hns. pose proof (prefix_bounds n Hn both (nseg n) ltac:(lia)) as Hpb.
  destruct refine_counts_spec as (pc & -> & Hpc). cbn.
  destruct (Z.eqb_spec (tot n both (nseg n)) n) as [Hall|Hall].
  { left. split; [|done]. by apply tot_full. }
  right. split.
  { destruct (List.forallb both (range 0 n)) eqn:Hfa.
    - exfalso. apply Hall, tot_full; [done|]. intros r Hr. rewrite List.forallb_forall in Hfa.
      apply Hfa, list_elem_of_In, elem_of_range, Hr.
    - apply forallb_false in Hfa as (r & Hr%elem_of_range & Hf). by exists r. }
  destruct (rowsel_new_ok mem_ok n (tot n both (nseg n)) (off n both (nseg n)))
    as (fl & os & ix & -> & Hf & Ho & Hi); [lia..|]. cbn.
  destruct (refine_layout_spec pc fl os ix Hpc Hf Ho Hi) as (fl' & os' & ix' & -> & Hlaid & Hfill). cbn.
  destruct (laid_end n Hn both fl' os' Hlaid) as (os2 & -> & Hol & Hof). cbn.
  destruct Hlaid as (Hfl & _ & Hfv & _), Hfill as [Hil Hix].
  eexists. split; [done|]. by split.
Qed.
End refine.

(** ** The two-cursor walk *)
Abbreviation sorted := (StronglySorted Z.lt).

Lemma range_sorted lo hi : sorted (range lo hi).
Proof.
  unfold range. generalize (hi - lo). intros m. remember (Z.to_nat m) as k eqn:Hk. revert lo m Hk.
  induction k as [|k IH]; intros lo m Hk; [rewrite seqZ_nil by lia; constructor|].
  rewrite seqZ_cons by lia. constructor; [apply IH; lia|].
  rewrite Forall_forall. intros x Hx%elem_of_seqZ. lia.
Qed.

Lemma filter_sorted (f : Z → bool) l : sorted l → sorted (List.filter f l).
Proof.
  induction 1 as [|x l Hl IH Hx]; [constructor|]. cbn. destruct (f x); [|done].
  constructor; [done|]. rewrite Forall_forall in *. intros y Hy%list_elem_of_In.
  apply List.filter_In in Hy as [Hy _]. apply Hx. by apply list_elem_of_In.
Qed.

Definition inter (la lb : list Z) : list Z := List.filter (λ x, bool_decide (x ∈ lb)) la.

Lemma inter_nil_r la : inter la [] = [].
Proof. induction la as [|x la IH]; [done|]. cbn. done. Qed.

Lemma inter_cons_r la y lb : y ∉ la → inter la (y :: lb) = inter la lb.
Proof.
  intros Hy. apply filter_ext_in'. intros x Hx. apply bool_decide_ext.
  rewrite elem_of_cons. split; [intros [->|]; done|by right].
Qed.

Lemma sorted_notin x l : Forall (Z.lt x) l → x ∉ l.
Proof. rewrite Forall_forall. intros H Hx. specialize (H x Hx). lia. Qed.

(** The walk visits the common elements in order. *)
Lemma merge_walk_spec {S} (act : Z → S → option S) fuel : ∀ ai bi ap bp la lb s,
  holds ai ap la → holds bi bp lb → sorted la → sorted lb → (length la + length lb ≤ fuel)%nat →
  merge_walk fuel ai bi ap (ap + zlen la) bp (bp + zlen lb) act s = foldM act (inter la lb) s.
Proof.
  induction fuel as [|fuel IH]; intros ai bi ap bp la lb s Ha Hb Hsa Hsb Hf.
  { destruct la, lb; simpl in Hf; try lia. cbn. rewrite !Z.add_0_r, Z.ltb_irrefl. done. }
  destruct la as [|x la].
  { cbn [merge_walk]. rewrite zlen_nil, Z.add_0_r, Z.ltb_irrefl. done. }
  destruct lb as [|y lb].
  { cbn [merge_walk]. rewrite zlen_nil, Z.add_0_r, Z.ltb_irrefl, andb_false_r, inter_nil_r. done. }
  pose proof (holds_inv _ _ _ _ Ha) as [Hax Ha']. pose proof (holds_inv _ _ _ _ Hb) as [Hby Hb'].
  pose proof (zlen_nonneg la). pose proof (zlen_nonneg lb). cbn [merge_walk].
  rewrite !(proj2 (Z.ltb_lt _ _)) by (rewrite zlen_cons; lia). cbn [andb]. rewrite Hax, Hby. cbn.
  pose proof Hsa as Hsa0. pose proof Hsb as Hsb0.
  apply StronglySorted_inv in Hsa as [Hsa Hxa]. apply StronglySorted_inv in Hsb as [Hsb Hyb].
  simpl in Hf. destruct (Z.ltb_spec x y) as [Hxy|Hxy]; [|destruct (Z.ltb_spec y x) as [Hyx|Hyx]].
  - replace (ap + zlen (x :: la)) with (ap + 1 + zlen la) by (rewrite zlen_cons; lia).
    rewrite IH by (done || simpl; lia). rewrite bool_decide_eq_false_2; [done|].
    apply sorted_notin. constructor; [done|]. eapply Forall_impl; [exact Hyb|]. lia.
  - replace (bp + zlen (y :: lb)) with (bp + 1 + zlen lb) by (rewrite zlen_cons; lia).
    rewrite IH by (done || simpl; lia).
    change (if bool_decide (x ∈ y :: lb) then x :: _ else _) with (inter (x :: la) (y :: lb)).
    rewrite inter_cons_r; [done|]. apply sorted_notin. constructor; [done|].
    eapply Forall_impl; [exact Hxa|]. lia.
  - assert (x = y) as -> by lia. rewrite bool_decide_eq_true_2 by set_solver. cbn.
    destruct (act y s) as [s'|]; cbn; [|done].
    replace (ap + zlen (y :: la)) with (ap + 1 + zlen la) by (rewrite zlen_cons; lia).
    replace (bp + zlen (y :: lb)) with (bp + 1 + zlen lb) by (rewrite zlen_cons; lia).
    rewrite IH by (done || lia). fold (inter la (y :: lb)). rewrite inter_cons_r; [done|].
    by apply sorted_notin.
Qed.

(** ** Intersection *)
Section intersect.
Context `{Heap}.
Context (mem_ok : ∀ k, alloc_ok k = true).
Context (a b : rowsel) (n : Z) (Ta Tb : Z → bool) (Ha : rep a n Ta) (Hb : rep b n Tb).
Let Hn : 0 ≤ n < 2 ^ 32 := rep_range _ _ _ Ha.
Let Hsegs := rep_nsegs _ _ _ Ha.
Let Hrows := rep_nrows _ _ _ Ha.
Definition andT (r : Z) : bool := Ta r && Tb r.
Let U := andT.

Lemma loc_and s : loc n U s = List.filter (λ i, Tb (seg_base s + i)) (loc n Ta s).
Proof. unfold loc. by rewrite filter_and. Qed.

Lemma loc_and_inter s : inter (loc n Ta s) (loc n Tb s) = loc n U s.
Proof.
  rewrite loc_and. apply filter_ext_in'. intros i Hi%loc_elem.
  destruct (Tb (seg_base s + i)) eqn:Ht.
  - apply bool_decide_eq_true_2, loc_elem. tauto.
  - apply bool_decide_eq_false_2. rewrite loc_elem. intros [_ Hc]. congruence.
Qed.

Lemma loc_and_l s : loc n Ta s = range 0 (seg_len n s) → loc n U s = loc n Tb s.
Proof. intros Hl. by rewrite loc_and, Hl. Qed.
Lemma loc_and_r s : loc n Tb s = range 0 (seg_len n s) → loc n U s = loc n Ta s.
Proof.
  intros Hl. rewrite loc_and. apply filter_true. intros i Hi%loc_elem.
  assert (i ∈ loc n Tb s) as Hi2 by (rewrite Hl; apply elem_of_range; tauto).
  apply loc_elem in Hi2. tauto.
Qed.
Lemma loc_and_nil s : loc n Ta s = [] ∨ loc n Tb s = [] → loc n U s = [].
Proof.
  intros [Hl|Hl]; [by rewrite loc_and, Hl|]. rewrite <- loc_and_inter, Hl. apply inter_nil_r.
Qed.

Lemma merge_seg {S} (act : Z → S → option S) s (st : S) :
  0 ≤ s < nseg n → flag_of n Ta s = RAY_SEL_MIX → flag_of n Tb s = RAY_SEL_MIX →
  let ap := off n Ta s in let ae := off n Ta (s + 1) in
  let bp := off n Tb s in let be := off n Tb (s + 1) in
  merge_walk (merge_fuel ap ae bp be) (idx a) (idx b) ap ae bp be act st = foldM act (loc n U s) st.
Proof.
  intros Hs Hma Hmb. cbv zeta. rewrite !off_succ, !contrib_mix by (done || lia).
  unfold cnt. rewrite merge_walk_spec.
  - by rewrite loc_and_inter.
  - by apply (rep_idx _ _ _ Ha).
  - by apply (rep_idx _ _ _ Hb).
  - apply filter_sorted, range_sorted.
  - apply filter_sorted, range_sorted.
  - unfold merge_fuel, zlen. lia.
Qed.

Lemma foldM_count (l : list Z) c : foldM (λ _ n, Some (n + 1)) l c = Some (c + zlen l).
Proof.
  revert c. induction l as [|x l IH]; intros c; [cbn; f_equal; unfold zlen; simpl; lia|].
  cbn. rewrite IH, zlen_cons. f_equal. lia.
Qed.

Lemma merge_count_spec s :
  0 ≤ s < nseg n → flag_of n Ta s = RAY_SEL_MIX → flag_of n Tb s = RAY_SEL_MIX →
  merge_count a b s = Some (cnt n U s).
Proof.
  intros Hs Hma Hmb. unfold merge_count.
  destruct (read_offs a n Ta Ha s Hs) as (-> & -> & _), (read_offs b n Tb Hb s Hs) as (-> & -> & _).
  cbn. rewrite merge_seg by done. by rewrite foldM_count.
Qed.

Lemma slice_count_spec c Tc s : rep c n Tc → 0 ≤ s < nseg n → flag_of n Tc s = RAY_SEL_MIX →
  slice_count c s = Some (cnt n Tc s).
Proof.
  intros Hc Hs Hm. unfold slice_count. destruct (read_offs c n Tc Hc s Hs) as (-> & -> & Hd).
  cbn. by rewrite Hd, contrib_mix.
Qed.

Lemma intersect_count_spec s : 0 ≤ s < nseg n → intersect_count a b s = Some (cnt n U s).
Proof.
  intros Hs. unfold intersect_count. rewrite (rep_flags _ _ _ Ha), (rep_flags _ _ _ Hb) by done. cbn.
  pose proof (seg_geom n s Hs). rewrite Hrows.
  destruct (seg_cases n Ta s Hs) as [Hfa Hla|Hfa Hla|Hfa _ _ _];
    destruct (seg_cases n Tb s Hs) as [Hfb Hlb|Hfb Hlb|Hfb _ _ _]; rewrite Hfa, Hfb; cbn;
    unfold cnt; try (rewrite loc_and_nil by tauto; done).
  - rewrite (loc_and_l s Hla), Hlb, zlen_range. f_equal. lia.
  - rewrite (loc_and_l s Hla). by apply slice_count_spec.
  - rewrite (loc_and_r s Hlb). by apply slice_count_spec.
  - by apply merge_count_spec.
Qed.

Lemma intersect_counts_spec : intersect_counts a b = Some (tot n U (nseg n), off n U (nseg n)).
Proof.
  unfold intersect_counts. rewrite Hsegs, Hrows. pose proof (nseg_range n Hn).
  match goal with |- foldM ?f _ _ = _ =>
    destruct (foldM_range f (λ i st, st = (tot n U i, off n U i)) 0 (nseg n) (0, 0))
      as (st & -> & ->) end; [lia|done| |done].
  intros s st Hs ->. rewrite intersect_count_spec by done. cbn. eexists. split; [done|].
  rewrite tot_succ, off_succ by lia. unfold contrib. pose proof (cnt_bounds n U s Hs).
  destruct (Z.ltb_spec 0 (cnt n U s)), (Z.eqb_spec (cnt n U s) 0), (Z.eqb_spec (cnt n U s) (seg_len n s));
    cbn; f_equal; lia.
Qed.

(** What one segment of the output must be. *)
Definition seg_out (s : Z) (ix : list Z) (k : Z) (res : option (Z * (list Z * Z))) : Prop :=
  ∃ ix', res = Some (flag_of n U s, (ix', k + contrib n U s)) ∧
    (flag_of n U s = RAY_SEL_MIX → holds ix' k (loc n U s)) ∧ agree_off ix ix' k (contrib n U s).

(** The output flag as the code computes it from the count. *)
Lemma flag_from_count s : 0 ≤ s < nseg n → cnt n U s ≠ seg_len n s →
  flag_of n U s = if cnt n U s =? 0 then RAY_SEL_NONE else RAY_SEL_MIX.
Proof. intros Hs Hc. unfold flag_of. by rewrite (proj2 (Z.eqb_neq _ _) Hc). Qed.

Lemma seg_out_written s ix k ix' :
  0 ≤ s < nseg n → cnt n U s ≠ seg_len n s → holds ix' k (loc n U s) →
  agree_off ix ix' k (cnt n U s) →
  seg_out s ix k (Some (if cnt n U s =? 0 then RAY_SEL_NONE else RAY_SEL_MIX, (ix', k + cnt n U s))).
Proof.
  intros Hs Hc Hh Hag. assert (contrib n U s = cnt n U s) as Hct.
  { unfold contrib. rewrite (proj2 (Z.eqb_neq _ _) Hc), orb_false_r.
    destruct (Z.eqb_spec (cnt n U s) 0); lia. }
  exists ix'. rewrite flag_from_count, Hct by done. done.
Qed.

Lemma seg_out_all s ix k : 0 ≤ s < nseg n → cnt n U s = seg_len n s →
  seg_out s ix k (Some (RAY_SEL_ALL, (ix, k))).
Proof.
  intros Hs Hc. pose proof (seg_geom n s Hs).
  assert (flag_of n U s = RAY_SEL_ALL) as Hf.
  { unfold flag_of. rewrite Hc, Z.eqb_refl. by rewrite (proj2 (Z.eqb_neq _ _)) by lia. }
  exists ix. rewrite Hf, contrib_not_mix by (by rewrite Hf). by rewrite Z.add_0_r.
Qed.

Lemma intersect_copy_spec c Tc s ix k :
  rep c n Tc → 0 ≤ s < nseg n → flag_of n Tc s = RAY_SEL_MIX → loc n U s = loc n Tc s →
  0 ≤ k → k + contrib n U s ≤ zlen ix → seg_out s ix k (intersect_copy c (seg_len n s) s (ix, k)).
Proof.
  intros Hc Hs Hm Hl Hk Hfit. unfold intersect_copy.
  destruct (read_offs c n Tc Hc s Hs) as (-> & -> & Hd). cbn. rewrite Hd, contrib_mix by done.
  assert (cnt n U s = cnt n Tc s) as Hcnt by (unfold cnt; by rewrite Hl).
  rewrite <- Hcnt. destruct (Z.eqb_spec (cnt n U s) (seg_len n s)) as [He|He]; [by apply seg_out_all|].
  rewrite range_shift, foldM_map. replace (off n Tc (s + 1) - off n Tc s) with (cnt n Tc s)
    by (rewrite off_succ, contrib_mix by (done || lia); lia).
  rewrite (mix_loop c n Tc Hc push) by done. rewrite <- Hl.
  destruct (push_all (loc n U s) ix k) as (ix' & Hp & Hh & Hag); [done| |].
  { fold (cnt n U s). unfold contrib in Hfit. rewrite (proj2 (Z.eqb_neq _ _) He), orb_false_r in Hfit.
    destruct (Z.eqb_spec (cnt n U s) 0); lia. }
  rewrite Hp. cbn. by apply seg_out_written.
Qed.

Lemma intersect_seg_spec s ix k :
  0 ≤ s < nseg n → 0 ≤ k → k + contrib n U s ≤ zlen ix → seg_out s ix k (intersect_seg a b s (ix, k)).
Proof.
  intros Hs Hk Hfit. unfold intersect_seg.
  rewrite (rep_flags _ _ _ Ha), (rep_flags _ _ _ Hb), Hrows by done. cbn.
  pose proof (seg_geom n s Hs).
  assert (loc n U s = [] → seg_out s ix k (Some (RAY_SEL_NONE, (ix, k)))) as Hnone.
  { intros Hl. assert (cnt n U s = 0) as Hc by (unfold cnt; by rewrite Hl).
    pose proof (seg_out_written s ix k ix Hs) as Hw. rewrite Hc, Z.add_0_r in Hw. apply Hw; [lia| |done].
    rewrite Hl. apply holds_nil. }
  destruct (seg_cases n Ta s Hs) as [Hfa Hla|Hfa Hla|Hfa _ _ _];
    destruct (seg_cases n Tb s Hs) as [Hfb Hlb|Hfb Hlb|Hfb _ _ _]; rewrite Hfa, Hfb; cbn;
    try (apply Hnone, loc_and_nil; tauto).
  - apply seg_out_all; [done|]. unfold cnt. rewrite (loc_and_l s Hla), Hlb, zlen_range. lia.
  - apply (intersect_copy_spec b Tb); auto using loc_and_l.
  - apply (intersect_copy_spec a Ta); auto using loc_and_r.
  - rewrite merge_count_spec by done. cbn.
    destruct (Z.eqb_spec (cnt n U s) (seg_len n s)) as [He|He]; [by apply seg_out_all|].
    destruct (read_offs a n Ta Ha s Hs) as (-> & -> & _), (read_offs b n Tb Hb s Hs) as (-> & -> & _).
    cbn. rewrite merge_seg by done.
    destruct (push_all (loc n U s) ix k) as (ix' & Hp & Hh & Hag); [done| |].
    { fold (cnt n U s). unfold contrib in Hfit. rewrite (proj2 (Z.eqb_neq _ _) He), orb_false_r in Hfit.
      destruct (Z.eqb_spec (cnt n U s) 0); lia. }
    rewrite Hp. cbn. by apply seg_out_written.
Qed.

Lemma intersect_spec : 
  ∃ sel, ray_rowsel_intersect (Some a) (Some b) = Some (Some sel) ∧ rep sel n U.
Proof.
  unfold ray_rowsel_intersect.
  rewrite Hrows, Hsegs, (rep_nrows _ _ _ Hb), (rep_nsegs _ _ _ Hb), !Z.eqb_refl. cbn [negb orb].
  rewrite intersect_counts_spec. cbn.
  pose proof (nseg_range n Hn) as Hns. pose proof (prefix_bounds n Hn U (nseg n) ltac:(lia)) as Hpb.
  destruct (rowsel_new_ok mem_ok n (tot n U (nseg n)) (off n U (nseg n)))
    as (fl & os & ix & -> & Hf & Ho & Hi); [lia..|]. cbn.
  match goal with |- context [foldM ?f _ ?s0] =>
    destruct (foldM_range f (λ i st, ∃ fl os ix, st = (fl, os, ix, off n U i) ∧
      laid n U fl os i ∧ filled n U ix i) 0 (nseg n) s0)
      as (st & -> & (fl' & os' & ix' & -> & Hl & Hx)) end; [lia| | |].
  { exists fl, os, ix. split; [done|]. split; [by apply laid_start|]. split; [done|]. intros; lia. }
  - clear fl os ix Hf Ho Hi. intros s st Hs (fl & os & ix & -> & Hl & Hx).
    destruct (laid_step n U fl os s Hs Hl) as (fl' & os' & -> & Hfl & Hl'). cbn.
    pose proof (prefix_bounds n Hn U s ltac:(lia)).
    assert (off n U s + contrib n U s ≤ zlen ix) as Hfit.
    { rewrite <- off_succ by lia. destruct Hx as [-> _]. apply off_mono; lia. }
    destruct (intersect_seg_spec s ix (off n U s) Hs) as (ix' & -> & Hmix & Hag); [lia|done|]. cbn.
    rewrite Hfl. cbn. rewrite off_u32 by done. eexists. split; [done|]. exists fl', os', ix'.
    split; [done|]. split; [done|].
    destruct (Z.eq_dec (flag_of n U s) RAY_SEL_MIX) as [Hm|Hm].
    + apply (filled_write n U ix); auto. by rewrite <- (contrib_mix n U s Hm).
    + apply filled_skip; [done|]. rewrite (contrib_not_mix n U s Hm) in Hag.
      destruct Hx as [Hxl Hxh], Hag as [Hal Hag]. split; [lia|].
      intros t Ht Hmt j Hj. rewrite Hag by lia. by apply Hxh.
  - cbn. destruct (laid_end n Hn U fl' os' Hl) as (os2 & -> & Hol & Hof). cbn.
    destruct Hl as (Hfl & _ & Hfv & _), Hx as [Hil Hix].
    eexists. split; [done|]. by split.
Qed.
End intersect.

(** ** The streaming builder *)
Section builder.
Context `{Heap}.
Context (mem_ok : ∀ k, alloc_ok k = true).
Context (n : Z) (T : Z → bool) (Hn : 0 ≤ n < 2 ^ 31).
Let Hn' : 0 ≤ n < 2 ^ 32 := ltac:(lia).

(** [b] covers the segments [g0, g0 + m) and has been given the first [k]. *)
Record builder_ok (b : builder) (g0 m k : Z) : Prop := {
  bo_range : 0 ≤ g0 ∧ 0 ≤ k ≤ m ∧ g0 + m ≤ nseg n;
  bo_segs : b_segs b = m;
  bo_flen : m ≤ zlen (b_flags b);
  bo_olen : zlen (b_off b) = m + 1;
  bo_len : b_len b = off n T (g0 + k) - off n T g0;
  bo_total : b_total b = tot n T (g0 + k) - tot n T g0;
  bo_cap : 8 ≤ zlen (b_idx b) ∧ b_len b ≤ zlen (b_idx b);
  bo_flags : ∀ s, 0 ≤ s < k → (b_flags b).[s] = Some (flag_of n T (g0 + s));
  bo_off : ∀ s, 0 ≤ s ≤ k → (b_off b).[s] = Some (off n T (g0 + s) - off n T g0);
  bo_idx : ∀ s, 0 ≤ s < k → flag_of n T (g0 + s) = RAY_SEL_MIX →
    holds (b_idx b) (off n T (g0 + s) - off n T g0) (loc n T (g0 + s));
}.

Lemma builder_init_spec g0 m :
  0 ≤ g0 → 0 ≤ m → g0 + m ≤ nseg n → ∃ b, rowsel_builder_init m = Some b ∧ builder_ok b g0 m 0.
Proof.
  intros Hg Hm Hgm. unfold rowsel_builder_init, new_array. rewrite !mem_ok. cbn [andb mbind option_bind].
  pose proof (nseg_bounds n). rewrite (wrap_id 32 (m * 8)) by (unfold in_u; lia).
  eexists. split; [done|]. split; cbn; rewrite ?Z.add_0_r, ?Z.sub_diag; try done; try lia.
  - rewrite zlen_replicate. destruct (Z.eqb_spec m 0); lia.
  - rewrite zlen_replicate. lia.
  - rewrite zlen_fresh. destruct (Z.eqb_spec m 0); lia.
  - intros s Hs. assert (s = 0) as -> by lia. rewrite Z.add_0_r, Z.sub_diag. unfold zget. cbn.
    apply lookup_replicate_2. lia.
Qed.

Lemma grow_idx_ok fuel cap need :
  1 ≤ cap → need ≤ cap * 2 ^ Z.of_nat fuel → need ≤ 2 ^ 31 →
  ∃ cap', grow_idx fuel cap need = Some cap' ∧ need ≤ cap' ∧ cap ≤ cap'.
Proof.
  revert cap. induction fuel as [|fuel IH]; intros cap Hc Hne Hm; cbn [grow_idx].
  - rewrite (proj2 (Z.ltb_ge _ _)) by lia. exists cap. split; [done|lia].
  - destruct (Z.ltb_spec cap need); [|exists cap; split; [done|lia]].
    rewrite wrap_id by (unfold in_u; lia).
    destruct (IH (cap * 2)) as (cap' & -> & ? & ?); [lia| |done|exists cap'; split; [done|lia]].
    rewrite Nat2Z.inj_succ, Z.pow_succ_r in Hne by lia. lia.
Qed.

Lemma reserve_idx_ok ix len pc :
  8 ≤ zlen ix → 0 ≤ len ≤ zlen ix → 0 ≤ pc → len + pc ≤ 2 ^ 31 →
  ∃ junk, reserve_idx ix len pc = Some (ix ++ junk) ∧ len + pc ≤ zlen (ix ++ junk).
Proof.
  intros Hi Hl Hp Hlp. unfold reserve_idx. rewrite wrap_id by (unfold in_u; lia).
  destruct (Z.ltb_spec (zlen ix) (len + pc)).
  - rewrite (proj2 (Z.eqb_neq _ _)) by lia.
    destruct (grow_idx_ok 32 (zlen ix) (len + pc)) as (cap & -> & ? & ?); [lia|simpl; lia|done|].
    cbn. unfold realloc. rewrite mem_ok. eexists. split; [done|].
    rewrite zlen_app, zlen_fresh. lia.
  - exists []. rewrite app_nil_r. split; [done|lia].
Qed.

(** The rows of segment [g], as handed to the builder. *)
Definition morsel_of (morsel : list Z) (g : Z) : Prop :=
  zlen morsel = seg_len n g ∧ ∀ i, 0 ≤ i < seg_len n g → truth morsel i = T (seg_base g + i).

Lemma morsel_filter morsel g : morsel_of morsel g →
  List.filter (truth morsel) (range 0 (seg_len n g)) = loc n T g.
Proof. intros [_ Ht]. apply filter_ext_in'. intros i Hi%elem_of_range. by apply Ht. Qed.

Lemma morsel_count morsel g : 0 ≤ g < nseg n → morsel_of morsel g →
  count_true morsel 0 (seg_len n g) = Some (cnt n T g).
Proof.
  intros Hg Hm. pose proof (seg_geom n g Hg). destruct (Hm) as [Hl _].
  rewrite count_true_spec by lia. by rewrite (morsel_filter _ _ Hm).
Qed.

Lemma morsel_write morsel g a k :
  0 ≤ g < nseg n → morsel_of morsel g → 0 ≤ k → k + cnt n T g ≤ zlen a →
  ∃ a', write_true morsel 0 0 (seg_len n g) (a, k) = Some (a', k + cnt n T g) ∧
    holds a' k (loc n T g) ∧ agree_off a a' k (cnt n T g).
Proof.
  intros Hg Hm Hk Ha. pose proof (seg_geom n g Hg). destruct (Hm) as [Hl _].
  pose proof (write_true_spec morsel 0 0 (seg_len n g) a k) as Hw. cbv zeta in Hw.
  rewrite (morsel_filter _ _ Hm) in Hw.
  assert (map (λ r, u16 (r - 0)) (loc n T g) = loc n T g) as Hid.
  { rewrite <- (map_id (loc n T g)) at 2. apply map_ext_in. intros i Hi%list_elem_of_In%loc_elem.
    rewrite wrap_id; [lia|unfold in_u; lia]. }
  rewrite Hid in Hw. apply Hw; [lia..|exact Ha].
Qed.

(** The builder after segment [k] is written. *)
Lemma emit_step b g0 m k flags off1 off2 ix :
  builder_ok b g0 m k → k < m →
  zset (b_off b) k (b_len b) = Some off1 →
  zset (b_flags b) k (flag_of n T (g0 + k)) = Some flags →
  zset off1 (k + 1) (b_len b + contrib n T (g0 + k)) = Some off2 →
  (8 ≤ zlen ix ∧ b_len b + contrib n T (g0 + k) ≤ zlen ix) →
  (∀ j, 0 ≤ j < b_len b → ix.[j] = (b_idx b).[j]) →
  (flag_of n T (g0 + k) = RAY_SEL_MIX → holds ix (b_len b) (loc n T (g0 + k))) →
  builder_ok (Builder flags off2 ix (b_segs b) (b_len b + contrib n T (g0 + k))
                (b_total b + cnt n T (g0 + k))) g0 m (k + 1).
Proof.
  intros [Hr Hs Hfl Hol Hlen Htot Hcap Hflags Hoff Hidx] Hk H1 H2 H3 Hix Hold Hnew.
  pose proof (off_succ n T (g0 + k) ltac:(lia)) as Ho. pose proof (tot_succ n T (g0 + k) ltac:(lia)) as Ht.
  split; cbn; try done; try lia.
  - by rewrite (zlen_zset _ _ _ _ H2).
  - by rewrite (zlen_zset _ _ _ _ H3), (zlen_zset _ _ _ _ H1).
  - rewrite Z.add_assoc, Ho. lia.
  - rewrite Z.add_assoc, Ht. lia.
  - intros s Hs'. destruct (decide (s = k)) as [->|]; [by eapply zget_zset_eq|].
    rewrite (zget_zset_ne _ _ _ _ _ H2) by done. apply Hflags. lia.
  - intros s Hs'. destruct (decide (s = k + 1)) as [->|].
    { rewrite (zget_zset_eq _ _ _ _ H3), Z.add_assoc, Ho. f_equal. lia. }
    rewrite (zget_zset_ne _ _ _ _ _ H3) by done. destruct (decide (s = k)) as [->|].
    { rewrite (zget_zset_eq _ _ _ _ H1). by rewrite Hlen. }
    rewrite (zget_zset_ne _ _ _ _ _ H1) by done. apply Hoff. lia.
  - intros s Hs' Hm. destruct (decide (s = k)) as [->|]; [rewrite <- Hlen; by apply Hnew|].
    intros j Hj. fold (cnt n T (g0 + s)) in Hj.
    pose proof (off_mono n T (g0 + s + 1) (g0 + k) ltac:(lia) ltac:(lia)) as Hmono.
    rewrite off_succ, (contrib_mix n T (g0 + s) Hm) in Hmono by lia.
    pose proof (off_mono n T g0 (g0 + s) ltac:(lia) ltac:(lia)).
    rewrite Hold by lia. apply Hidx; [lia|done|done].
Qed.

Lemma emit_spec b g0 m k morsel :
  builder_ok b g0 m k → k < m → morsel_of morsel (g0 + k) →
  ∃ b', rowsel_emit_segment b k morsel (seg_len n (g0 + k)) = Some b' ∧ builder_ok b' g0 m (k + 1).
Proof.
  intros Hb Hk Hm. pose proof Hb as [Hr Hs Hfl Hol Hlen Htot Hcap _ _ _].
  assert (0 ≤ g0 + k < nseg n) as Hg by lia. unfold rowsel_emit_segment.
  rewrite Hs, (proj2 (Z.ltb_lt _ _) Hk). cbn [negb].
  destruct (zset_total (b_off b) k (b_len b)) as [off1 H1]; [lia|]. rewrite H1. cbn.
  rewrite (morsel_count morsel _ Hg Hm). cbn.
  destruct (zset_total (b_flags b) k (flag_of n T (g0 + k))) as [flags H2]; [lia|].
  pose proof (zlen_zset _ _ _ _ H1) as Hl1.
  destruct (zset_total off1 (k + 1) (b_len b + contrib n T (g0 + k))) as [off2 H3]; [lia|].
  pose proof (off_mono n T g0 (g0 + k) ltac:(lia) ltac:(lia)).
  pose proof (emit_step b g0 m k flags off1 off2) as Hstep. rewrite Hs in Hstep.
  destruct (seg_cases n T (g0 + k) Hg) as [Hf Hloc|Hf Hloc|Hf Hc0 Hc1 Hc].
  - assert (cnt n T (g0 + k) = 0) as Hc by (unfold cnt; by rewrite Hloc).
    rewrite Hc, Hf, (contrib_not_mix n T (g0 + k)), ?Z.add_0_r in * by (by rewrite Hf). cbn.
    rewrite ?Z.add_0_r in *.
    rewrite H2. cbn. rewrite H3. cbn. eexists. split; [done|]. apply Hstep; done || lia.
  - assert (cnt n T (g0 + k) = seg_len n (g0 + k)) as Hc.
    { unfold cnt. rewrite Hloc, zlen_range. pose proof (seg_geom n _ Hg). lia. }
    pose proof (seg_geom n _ Hg). rewrite (proj2 (Z.eqb_neq _ _)) by lia. rewrite (proj2 (Z.eqb_eq _ _) Hc).
    rewrite Hf, (contrib_not_mix n T (g0 + k)), Z.add_0_r in * by (by rewrite Hf).
    rewrite H2. cbn. rewrite H3. cbn. eexists. split; [done|]. apply Hstep; done || lia.
  - rewrite (proj2 (Z.eqb_neq _ _) Hc0), (proj2 (Z.eqb_neq _ _) Hc1).
    pose proof (prefix_bounds n Hn' T (g0 + k + 1) ltac:(lia)) as Hpb.
    rewrite off_succ in Hpb by lia. pose proof (prefix_bounds n Hn' T g0 ltac:(lia)).
    pose proof (cnt_bounds n T _ Hg).
    rewrite Hf in H2. rewrite H2. cbn.
    destruct (reserve_idx_ok (b_idx b) (b_len b) (cnt n T (g0 + k))) as (junk & -> & Hfit); [lia..|]. cbn.
    destruct (morsel_write morsel (g0 + k) (b_idx b ++ junk) (b_len b)) as (ix & -> & Hh & Hag);
      [done|done|lia|lia|]. cbn. rewrite Hc in H3. rewrite H3. cbn. eexists. split; [done|].
    destruct Hag as [Hal Hag]. rewrite Hc in Hstep. apply Hstep; try done.
    + by rewrite Hf.
    + rewrite Hal, zlen_app in *. pose proof (zlen_nonneg junk). lia.
    + intros j Hj. rewrite Hag by lia. apply zget_app_l. lia.
Qed.

(** Complete builders over consecutive segment ranges, from [g] to the end. *)
Inductive cover : Z → list builder → Prop :=
| cover_nil : cover (nseg n) []
| cover_cons g b m bs : builder_ok b g m m → cover (g + m) bs → cover g (b :: bs).

(** The block's arrays when the segments before [g] are stitched. *)
Definition stitched (g : Z) (st : Z * list Z * list Z * list Z * Z) : Prop :=
  ∃ fl os ix, st = (g, fl, os, ix, off n T g) ∧ laid n T fl os g ∧ filled n T ix g.

Lemma finish_seg_spec b g0 m s st :
  builder_ok b g0 m m → 0 ≤ s < m → stitched (g0 + s) st →
  ∃ st', finish_seg (nseg n) b s st = Some st' ∧ stitched (g0 + s + 1) st'.
Proof.
  intros [Hr _ _ _ _ _ _ Hflags Hoff Hidx] Hs (fl & os & ix & -> & Hl & Hx).
  assert (0 ≤ g0 + s < nseg n) as Hg by lia. unfold finish_seg.
  rewrite (proj2 (Z.ltb_lt _ _)) by lia. cbn [negb]. rewrite Hflags by done. cbn.
  destruct (laid_step n T fl os (g0 + s) Hg Hl) as (fl' & os' & Ho & Hf & Hl').
  rewrite Hf. cbn. rewrite Ho. cbn.
  destruct (Z.eqb_spec (flag_of n T (g0 + s)) RAY_SEL_MIX) as [Hm|Hm].
  - rewrite (Hoff s), (Hoff (s + 1)) by lia. cbn. rewrite Z.add_assoc, off_succ by lia.
    pose proof (contrib_mix n T _ Hm) as Hc. pose proof (cnt_bounds n T _ Hg).
    pose proof (seg_geom n _ Hg).
    replace (off n T (g0 + s) + contrib n T (g0 + s) - off n T g0 - (off n T (g0 + s) - off n T g0))
      with (cnt n T (g0 + s)) by lia.
    rewrite !(wrap_id 32 (cnt n T (g0 + s))) by (unfold in_u; lia). unfold copy_idx.
    pose proof (holds_loop push (b_idx b) _ _ (ix, off n T (g0 + s)) (Hidx s Hs Hm)) as Hcp.
    fold (cnt n T (g0 + s)) in Hcp. rewrite Hcp.
    destruct (off_fits n Hn' T (g0 + s) ix Hg Hm) as [Ho1 Ho2]; [apply Hx|].
    destruct (push_all (loc n T (g0 + s)) ix (off n T (g0 + s))) as (ix' & -> & Hh & Hag); [done|done|].
    cbn. rewrite <- Hc, off_u32 by done. eexists. split; [done|]. exists fl', os', ix'.
    split; [done|]. split; [done|]. by eapply filled_write.
  - eexists. split; [done|]. exists fl', os', ix. split; [|split; [done|by apply filled_skip]].
    rewrite off_succ, contrib_not_mix by (done || lia). by rewrite Z.add_0_r.
Qed.

Lemma finish_loop g bs st : 0 ≤ g → cover g bs → stitched g st →
  ∃ st', foldM (λ b st, foldM (finish_seg (nseg n) b) (range 0 (b_segs b)) st) bs st = Some st' ∧
    stitched (nseg n) st'.
Proof.
  intros Hg Hc. revert st Hg. induction Hc as [|g b m bs Hb _ IH]; intros st Hg Hst; [by exists st|].
  cbn [foldM]. rewrite (bo_segs _ _ _ _ Hb). pose proof (bo_range _ _ _ _ Hb).
  destruct (foldM_range (finish_seg (nseg n) b) (λ s, stitched (g + s)) 0 m st) as (st1 & -> & Hst1);
    [lia|by rewrite Z.add_0_r| |].
  - intros s st0 Hs Hst0. rewrite Z.add_assoc. by apply (finish_seg_spec b g m).
  - cbn. apply IH; [lia|done].
Qed.

Lemma cover_sums g bs : 0 ≤ g → cover g bs →
  zsum (map b_total bs) = tot n T (nseg n) - tot n T g ∧
  zsum (map b_len bs) = off n T (nseg n) - off n T g.
Proof.
  intros Hg Hc. revert Hg. induction Hc as [|g b m bs Hb _ IH]; intros Hg; [unfold zsum; cbn; lia|].
  pose proof (bo_range _ _ _ _ Hb). destruct IH as [IH1 IH2]; [lia|].
  cbn [map]. change (zsum (?x :: ?l)) with (x + zsum l). rewrite IH1, IH2.
  rewrite (bo_total _ _ _ _ Hb), (bo_len _ _ _ _ Hb). lia.
Qed.

Lemma finish_spec bs : cover 0 bs →
  ∃ sel, rowsel_builder_finish bs n = Some (Some sel) ∧ rep sel n T.
Proof.
  intros Hc. unfold rowsel_builder_finish. destruct (cover_sums 0 bs) as [-> ->]; [done|done|].
  rewrite tot_0, off_0, !Z.sub_0_r. pose proof (nseg_range n Hn').
  pose proof (prefix_bounds n Hn' T (nseg n) ltac:(lia)).
  destruct (rowsel_new_ok mem_ok n (tot n T (nseg n)) (off n T (nseg n)))
    as (fl & os & ix & -> & Hf & Ho & Hi); [lia..|]. cbn.
  destruct (finish_loop 0 bs (0, fl, os, ix, 0)) as (st & -> & (fl' & os' & ix' & -> & Hl & Hx)); [done|done| |].
  { exists fl, os, ix. split; [done|]. split; [by apply laid_start|]. split; [done|]. intros; lia. }
  cbn. rewrite Z.eqb_refl. cbn [negb].
  destruct (laid_end n Hn' T fl' os' Hl) as (os2 & -> & Hol & Hof). cbn.
  destruct Hl as (Hfl & _ & Hfv & _), Hx as [Hil Hix]. eexists. split; [done|]. by split.
Qed.
End builder.

(** ** A worker that streams its segments of a predicate *)
Section stream.
Context `{Heap}.

Definition morsel_at (pred : list Z) (nrows g : Z) : list Z :=
  take (Z.to_nat (seg_len nrows g)) (drop (Z.to_nat (seg_base g)) pred).

Definition stream_worker (pred : list Z) (nrows g0 m : Z) : option builder :=
  b ← rowsel_builder_init m;
  foldM (λ s b, rowsel_emit_segment b s (morsel_at pred nrows (g0 + s)) (seg_len nrows (g0 + s)))
    (range 0 m) b.

(** Workers take the given numbers of segments, in order. *)
Fixpoint stream_all (pred : list Z) (nrows g0 : Z) (sizes : list Z) : option (list builder) :=
  match sizes with
  | [] => Some []
  | m :: sizes =>
      b ← stream_worker pred nrows g0 m;
      bs ← stream_all pred nrows (g0 + m) sizes;
      Some (b :: bs)
  end.

Context (mem_ok : ∀ k, alloc_ok k = true).
Context (n : Z) (Hn : 0 ≤ n < 2 ^ 31) (pred : list Z) (Hp : zlen pred = n).
Let T := truth pred.

Lemma morsel_at_of g : 0 ≤ g < nseg n → morsel_of n T (morsel_at pred n g) g.
Proof.
  intros Hg. pose proof (seg_geom n g Hg). unfold morsel_at. split.
  - rewrite zlen_take, zlen_drop. lia.
  - intros i Hi. unfold T, truth, zget. rewrite !(proj2 (Z.leb_le _ _)) by lia.
    rewrite lookup_take_lt by lia. rewrite lookup_drop.
    by replace (Z.to_nat (seg_base g) + Z.to_nat i)%nat with (Z.to_nat (seg_base g + i)) by lia.
Qed.

Lemma stream_worker_spec g0 m : 0 ≤ g0 → 0 ≤ m → g0 + m ≤ nseg n →
  ∃ b, stream_worker pred n g0 m = Some b ∧ builder_ok n T b g0 m m.
Proof.
  intros Hg Hm Hgm. unfold stream_worker.
  destruct (builder_init_spec mem_ok n T Hn g0 m) as (b0 & -> & Hb0); [done..|]. cbn.
  match goal with |- context [foldM ?f _ b0] =>
    destruct (foldM_range f (λ k b, builder_ok n T b g0 m k) 0 m b0) as (b & -> & Hb) end;
    [lia|done| |by exists b].
  intros k b Hk Hb. apply (emit_spec mem_ok n T Hn b g0 m k); [done|lia|].
  apply morsel_at_of. lia.
Qed.

Lemma stream_all_spec g0 sizes :
  0 ≤ g0 → Forall (Z.le 0) sizes → g0 + zsum sizes = nseg n →
  ∃ bs, stream_all pred n g0 sizes = Some bs ∧ cover n T g0 bs.
Proof.
  revert g0. induction sizes as [|m sizes IH]; intros g0 Hg Hs Hsum.
  { exists []. split; [done|]. unfold zsum in Hsum. cbn in Hsum. replace g0 with (nseg n) by lia. constructor. }
  inversion_clear Hs as [|? ? Hm Hs']. change (zsum (m :: sizes)) with (m + zsum sizes) in Hsum.
  assert (0 ≤ zsum sizes) as Hz.
  { clear -Hs'. induction Hs' as [|x l Hx _ IHl]; [done|]. change (zsum (x :: l)) with (x + zsum l). lia. }
  destruct (stream_worker_spec g0 m) as (b & Hb & Hok); [lia..|].
  destruct (IH (g0 + m)) as (bs & Hbs & Hc); [lia|done|lia|].
  exists (b :: bs). cbn. rewrite Hb. cbn. rewrite Hbs. split; [done|]. by econstructor.
Qed.
End stream.
