(* ===== verification/RowselProps.v ===== *)
(** * What row selections guarantee *)

From S2P Require Import Prelude Pool PoolProofs Serde Rowsel RowselProofs.
Local Open Scope Z_scope.

(** A heap that serves everything with junk, and a pool that runs its tasks in
    reverse. *)
Module Sandbox.
Definition heap : Heap := {| alloc_ok _ := true; alloc_junk i := 1000 - i |}.
Definition pool : Dispatcher :=
  {| ray_pool_get := true; ring_cap := 1024; ring_realloc_ok := true; run_order := @reverse task |}.
Lemma pool_laws : @DispatcherLaws pool.
Proof. split; [intros ts; apply reverse_Permutation|by exists 10]. Qed.

(** 1100 rows in two segments: every third row, and the tail entirely. *)
Definition p1 : list Z := map (λ r, if (r <? 1024) && negb (r mod 3 =? 0) then 0 else 9) (range 0 1100).
Definition p2 : list Z := map (λ r, if r <? 1030 then 1 else 0) (range 0 1100).
End Sandbox.

(** C16. [ray_rowsel_from_pred] keeps exactly the rows whose byte is set: it
    returns [NULL] when every row passes, and otherwise a block that flattens
    to those rows in ascending order, whatever the fresh memory held and in
    whatever order the pool ran the two passes. *)
Theorem rowsel_from_pred_rows (HP : Heap) (DP : Dispatcher) (pred : list Z) (a n : Z) :
  DispatcherLaws → (∀ k, alloc_ok k = true) → 0 < n < 2 ^ 32 → zlen pred = n →
  ∃ sel, ray_rowsel_from_pred (RVec RAY_BOOL a n pred) = Some sel ∧
    match sel with
    | None => ∀ r, 0 ≤ r < n → truth pred r = true
    | Some _ =>
        (∃ r, 0 ≤ r < n ∧ truth pred r = false) ∧
        ray_rowsel_to_indices sel = Some (Some (List.filter (truth pred) (range 0 n)))
    end.
Proof.
  intros DL Hm Hn Hp. assert (0 ≤ n < 2 ^ 32) as Hn' by lia.
  destruct (from_pred_spec Hm n Hn' pred Hp a) as [(_ & Hall & ->)|([?|Hr] & sel & -> & Hrep)]; [|lia|].
  - by exists None.
  - exists (Some sel). split; [done|]. split; [done|]. by apply (to_indices_spec Hm sel n).
Qed.

Lemma rowsel_from_pred_rows_witness :
  ∃ sel, @ray_rowsel_from_pred Sandbox.heap Sandbox.pool (RVec RAY_BOOL 0 1100 Sandbox.p1) = Some sel ∧
    match sel with
    | None => ∀ r, 0 ≤ r < 1100 → truth Sandbox.p1 r = true
    | Some _ =>
        (∃ r, 0 ≤ r < 1100 ∧ truth Sandbox.p1 r = false) ∧
        @ray_rowsel_to_indices Sandbox.heap Sandbox.pool sel
        = Some (Some (List.filter (truth Sandbox.p1) (range 0 1100)))
    end.
Proof.
  apply (rowsel_from_pred_rows Sandbox.heap Sandbox.pool Sandbox.p1 0 1100);
    [apply Sandbox.pool_laws|done|lia|by vm_compute].
Defined.

(** C38. Streaming equals building: however the segments are shared out among
    workers, stitching the workers' builders gives, byte for byte, the block
    [ray_rowsel_from_pred] builds from the whole vector. *)
Theorem rowsel_stream_equiv (HP : Heap) (DP : Dispatcher) (pred sizes : list Z) (a n : Z) (sel : rowsel) :
  DispatcherLaws → (∀ k, alloc_ok k = true) → 0 < n < 2 ^ 31 → zlen pred = n →
  Forall (Z.le 0) sizes → zsum sizes = nseg n →
  ray_rowsel_from_pred (RVec RAY_BOOL a n pred) = Some (Some sel) →
  ∃ bs, stream_all pred n 0 sizes = Some bs ∧ rowsel_builder_finish bs n = Some (Some sel).
Proof.
  intros DL Hm Hn Hp Hs Hsum Hfp.
  assert (0 ≤ n < 2 ^ 31) as Hn1 by lia. assert (0 ≤ n < 2 ^ 32) as Hn2 by lia.
  destruct (stream_all_spec Hm n Hn1 pred Hp 0 sizes) as (bs & Hbs & Hc); [done|done|lia|].
  destruct (finish_spec Hm n (truth pred) Hn1 bs Hc) as (sel' & Hfin & Hrep').
  destruct (from_pred_spec Hm n Hn2 pred Hp a) as [(_ & _ & H0)|(_ & sel0 & H0 & Hrep)];
    rewrite H0 in Hfp; [done|]. injection Hfp as ->.
  exists bs. split; [done|]. rewrite Hfin. do 2 f_equal.
  by apply (rep_unique _ _ n (truth pred) (truth pred)); [lia|..].
Qed.

Lemma rowsel_stream_equiv_witness :
  ∃ sel bs, @ray_rowsel_from_pred Sandbox.heap Sandbox.pool (RVec RAY_BOOL 0 1100 Sandbox.p1)
      = Some (Some sel) ∧
    @stream_all Sandbox.heap Sandbox.p1 1100 0 [1; 0; 1] = Some bs ∧
    @rowsel_builder_finish Sandbox.heap bs 1100 = Some (Some sel).
Proof.
  destruct (@ray_rowsel_from_pred Sandbox.heap Sandbox.pool (RVec RAY_BOOL 0 1100 Sandbox.p1))
    as [[sel|]|] eqn:Hs; [|vm_compute in Hs; discriminate Hs..].
  exists sel.
  destruct (rowsel_stream_equiv Sandbox.heap Sandbox.pool Sandbox.p1 [1; 0; 1] 0 1100 sel) as (bs & H1 & H2);
    [apply Sandbox.pool_laws|done|lia|by vm_compute|repeat constructor; lia|by vm_compute|exact Hs|].
  exists bs. exact (conj eq_refl (conj H1 H2)).
Defined.

(** Chained filters: refining a selection by a predicate selects exactly
    the rows that pass both, and gives [NULL] only when every source row does. *)
Theorem rowsel_refine_rows (HP : Heap) (DP : Dispatcher) (e : rowsel) (T : Z → bool) (pred : list Z) (a n : Z) :
  DispatcherLaws → (∀ k, alloc_ok k = true) → rep e n T → zlen pred = n →
  ∃ sel, ray_rowsel_refine (Some e) (RVec RAY_BOOL a n pred) = Some sel ∧
    match sel with
    | None => ∀ r, 0 ≤ r < n → T r && truth pred r = true
    | Some _ =>
        ray_rowsel_to_indices sel = Some (Some (List.filter (λ r, T r && truth pred r) (range 0 n)))
    end.
Proof.
  intros DL Hm He Hp.
  destruct (refine_spec Hm e n T He pred Hp a) as [(Hall & ->)|(_ & sel & -> & Hrep)].
  - by exists None.
  - exists (Some sel). split; [done|]. by apply (to_indices_spec Hm sel n).
Qed.

Lemma rowsel_refine_rows_witness :
  ∃ e sel, @ray_rowsel_from_pred Sandbox.heap Sandbox.pool (RVec RAY_BOOL 0 1100 Sandbox.p1)
      = Some (Some e) ∧
    @ray_rowsel_refine Sandbox.heap Sandbox.pool (Some e) (RVec RAY_BOOL 0 1100 Sandbox.p2) = Some sel ∧
    match sel with
    | None => ∀ r, 0 ≤ r < 1100 → truth Sandbox.p1 r && truth Sandbox.p2 r = true
    | Some _ =>
        @ray_rowsel_to_indices Sandbox.heap Sandbox.pool sel
        = Some (Some (List.filter (λ r, truth Sandbox.p1 r && truth Sandbox.p2 r) (range 0 1100)))
    end.
Proof.
  pose proof Sandbox.pool_laws as DL.
  destruct (@from_pred_spec Sandbox.heap Sandbox.pool DL (λ _, eq_refl) 1100 ltac:(lia) Sandbox.p1
    ltac:(by vm_compute) 0) as [(_ & Hall & _)|(_ & e & He & Hrep)].
  { exfalso. specialize (Hall 1 ltac:(lia)). by vm_compute in Hall. }
  destruct (rowsel_refine_rows Sandbox.heap Sandbox.pool e (truth Sandbox.p1) Sandbox.p2 0 1100 DL
    (λ _, eq_refl) Hrep ltac:(by vm_compute)) as (sel & H1 & H2).
  exists e, sel. exact (conj He (conj H1 H2)).
Defined.

(** C33. Intersection of two selections over the same rows selects exactly the
    rows both select, in the same layout whichever comes first. *)
Theorem rowsel_intersect_rows (HP : Heap) (DP : Dispatcher) (a b : rowsel) (n : Z) (Ta Tb : Z → bool) :
  DispatcherLaws → (∀ k, alloc_ok k = true) → 0 < n → rep a n Ta → rep b n Tb →
  ∃ sel, ray_rowsel_intersect (Some a) (Some b) = Some (Some sel) ∧
    ray_rowsel_intersect (Some b) (Some a) = Some (Some sel) ∧
    ray_rowsel_to_indices (Some sel) = Some (Some (List.filter (λ r, Ta r && Tb r) (range 0 n))).
Proof.
  intros DL Hm Hn Ha Hb.
  destruct (intersect_spec Hm a b n Ta Tb Ha Hb) as (sel & -> & Hrep).
  destruct (intersect_spec Hm b a n Tb Ta Hb Ha) as (sel' & -> & Hrep').
  exists sel. split; [done|]. split.
  - do 2 f_equal. apply (rep_unique _ _ n _ _ Hn Hrep' Hrep). intros r _. apply andb_comm.
  - by apply (to_indices_spec Hm sel n).
Qed.

Lemma rowsel_intersect_rows_witness :
  ∃ a b sel, @ray_rowsel_from_pred Sandbox.heap Sandbox.pool (RVec RAY_BOOL 0 1100 Sandbox.p1)
      = Some (Some a) ∧
    @ray_rowsel_from_pred Sandbox.heap Sandbox.pool (RVec RAY_BOOL 0 1100 Sandbox.p2) = Some (Some b) ∧
    @ray_rowsel_intersect Sandbox.heap (Some a) (Some b) = Some (Some sel) ∧
    @ray_rowsel_intersect Sandbox.heap (Some b) (Some a) = Some (Some sel) ∧
    @ray_rowsel_to_indices Sandbox.heap Sandbox.pool (Some sel)
    = Some (Some (List.filter (λ r, truth Sandbox.p1 r && truth Sandbox.p2 r) (range 0 1100))).
Proof.
  pose proof Sandbox.pool_laws as DL.
  destruct (@from_pred_spec Sandbox.heap Sandbox.pool DL (λ _, eq_refl) 1100 ltac:(lia) Sandbox.p1
    ltac:(by vm_compute) 0) as [(_ & Hall & _)|(_ & a & Ha & Hra)].
  { exfalso. specialize (Hall 1 ltac:(lia)). by vm_compute in Hall. }
  destruct (@from_pred_spec Sandbox.heap Sandbox.pool DL (λ _, eq_refl) 1100 ltac:(lia) Sandbox.p2
    ltac:(by vm_compute) 0) as [(_ & Hall & _)|(_ & b & Hb & Hrb)].
  { exfalso. specialize (Hall 1050 ltac:(lia)). by vm_compute in Hall. }
  destruct (rowsel_intersect_rows Sandbox.heap Sandbox.pool a b 1100 (truth Sandbox.p1) (truth Sandbox.p2) DL
    (λ _, eq_refl) ltac:(lia) Hra Hrb) as (sel & H1 & H2 & H3).
  exists a, b, sel. exact (conj Ha (conj Hb (conj H1 (conj H2 H3)))).
Defined.

(** A defect of the [NULL] convention: when the popcount buffer cannot be
    allocated the result is [NULL], the value that means "every row passes", so
    the callers go on with the unfiltered table. *)
Theorem rowsel_oom_drops_filter (HP : Heap) (DP : Dispatcher) (pred : list Z) (a n : Z) :
  0 < n < 2 ^ 32 → alloc_ok (4 * nseg n) = false →
  ray_rowsel_from_pred (RVec RAY_BOOL a n pred) = Some None.
Proof.
  intros Hn Hm. unfold ray_rowsel_from_pred. closed_tags. cbn [negb].
  rewrite (proj2 (Z.eqb_neq _ _)) by lia. change RAY_MORSEL_ELEMS with 1024.
  replace (n + 1024 - 1) with (n + 1023) by lia. fold (nseg n).
  rewrite (wrap_id 32 (nseg n)) by (apply nseg_range; lia). unfold new_array. by rewrite Hm.
Qed.

Lemma rowsel_oom_drops_filter_witness :
  @ray_rowsel_from_pred {| alloc_ok n := n <? 8; alloc_junk _ := 0 |} Sandbox.pool
    (RVec RAY_BOOL 0 1100 Sandbox.p1) = Some None.
Proof.
  apply (rowsel_oom_drops_filter {| alloc_ok n := n <? 8; alloc_junk _ := 0 |} Sandbox.pool); [lia|done].
Defined.
