(* ===== verification/Timer.v ===== *)
(** * The timer heap ([src/src/core/timer.c])

    A binary min-heap of timers on (deadline, id): scheduling, cancelling, and
    the loop that fires what has expired. The clock, the callbacks (which may
    schedule and cancel timers themselves) and the allocator are parameters. *)

From S2P Require Import Prelude.
Local Open Scope Z_scope.

(** [ray_timer_t]; [fn] names the retained lambda. *)
Record timer := Timer { id : Z; tic_ms : Z; exp_ms : Z; num : Z; fn : Z }.

(** [ray_timers_t]: the array's length is [cap], its first [n] entries live. *)
Record timers := Timers { heap : list timer; n : Z; next_id : Z }.
Definition cap (t : timers) : Z := zlen (heap t).

(** [int64_t] addition: signed overflow is undefined. *)
Definition add_i64 (a b : Z) : option Z :=
  let c := a + b in if (INT64_MIN <=? c) && (c <=? INT64_MAX) then Some c else None.

(** ** The heap *)
Definition heap_less (a b : timer) : bool :=
  if negb (exp_ms a =? exp_ms b) then exp_ms a <? exp_ms b else id a <? id b.

Definition heap_swap (h : list timer) (i j : Z) : option (list timer) :=
  x ← h.[i];
  y ← h.[j];
  h ← zset h i y;
  zset h j x.

(** [i] strictly decreases, so [i] iterations suffice. *)
Fixpoint heap_up_loop (fuel : nat) (h : list timer) (i : Z) : option (list timer) :=
  if 0 <? i then
    match fuel with
    | O => None
    | S fuel =>
        let parent := (i - 1) `quot` 2 in
        x ← h.[i];
        p ← h.[parent];
        if heap_less x p then h ← heap_swap h i parent; heap_up_loop fuel h parent
        else Some h
    end
  else Some h.
Definition heap_up (h : list timer) (i : Z) : option (list timer) := heap_up_loop (Z.to_nat i) h i.

(** The child the loop descends to, or [i] itself. *)
Definition best_child (h : list timer) (n i : Z) : option Z :=
  let l := 2 * i + 1 in
  let r := 2 * i + 2 in
  best ← (if l <? n then x ← h.[l]; y ← h.[i]; Some (if heap_less x y then l else i) else Some i);
  if r <? n then x ← h.[r]; y ← h.[best]; Some (if heap_less x y then r else best) else Some best.

(** [i] at least doubles, so [n] iterations suffice. *)
Fixpoint heap_down_loop (fuel : nat) (h : list timer) (n i : Z) : option (list timer) :=
  best ← best_child h n i;
  if best =? i then Some h else
  match fuel with
  | O => None
  | S fuel => h ← heap_swap h i best; heap_down_loop fuel h n best
  end.
Definition heap_down (h : list timer) (n i : Z) : option (list timer) :=
  heap_down_loop (Z.to_nat n) h n i.

Section ops.
Context `{Heap}.
(** What a fresh heap array holds. *)
Context (junk : timer).

Definition ray_timers_create (initial_cap : Z) : option timers :=
  let initial_cap := if initial_cap <? 1 then 1 else initial_cap in
  if alloc_ok 32 && alloc_ok (initial_cap * 8)
  then Some (Timers (replicate (Z.to_nat initial_cap) junk) 0 0) else None.

(** [heap_grow]: the live entries move to an array of twice the size. *)
Definition heap_grow (t : timers) : option timers :=
  let new_cap := cap t * 2 in
  if alloc_ok (new_cap * 8)
  then Some (Timers (take (Z.to_nat (n t)) (heap t) ++
                     replicate (Z.to_nat (new_cap - n t)) junk) (n t) (next_id t))
  else None.

(** Pushing at the tail: [t->heap[t->n] = timer; heap_up; t->n++]. *)
Definition push_timer (t : timers) (x : timer) : option timers :=
  h ← zset (heap t) (n t) x;
  h ← heap_up h (n t);
  Some (Timers h (n t + 1) (next_id t)).

(** [ray_timers_add] at clock reading [now]: the new id, or [-1]; [fn = None]
    is a null function. The outer [None] is undefined behaviour. *)
Definition ray_timers_add (now : Z) (t : timers) (tic num : Z) (fn : option Z) :
    option (timers * Z) :=
  match fn with None => Some (t, -1) | Some fn =>
  match (if cap t <=? n t then heap_grow t else Some t) with
  | None => Some (t, -1)
  | Some t =>
      if negb (alloc_ok 40) then Some (t, -1) else
      exp ← add_i64 now tic;
      let x := Timer (next_id t) tic exp num fn in
      t ← push_timer (Timers (heap t) (n t) (next_id t + 1)) x;
      Some (t, id x)
  end end.

(** The index of the timer with [id], scanning the live entries. *)
Fixpoint find_id (fuel : nat) (h : list timer) (n i tid : Z) : option (option Z) :=
  match fuel with
  | O => Some None
  | S fuel =>
      if i <? n then
        x ← h.[i];
        if id x =? tid then Some (Some i) else find_id fuel h n (i + 1) tid
      else Some None
  end.

(** Filling the hole left at [i] with the last entry. *)
Definition ray_timers_del (t : timers) (tid : Z) : option (timers * bool) :=
  found ← find_id (Z.to_nat (n t)) (heap t) (n t) 0 tid;
  match found with
  | None => Some (t, false)
  | Some i =>
      let n' := n t - 1 in
      h ← (if i <? n' then
             last ← (heap t).[n'];
             h ← zset (heap t) i last;
             h ← heap_down h n' i;
             heap_up h i
           else Some (heap t));
      Some (Timers h n' (next_id t), true)
  end.

Definition ray_timers_next_deadline_ms (t : timers) : option Z :=
  if n t =? 0 then Some INT64_MAX else x ← (heap t).[0]; Some (exp_ms x).

(** Popping the head: the tail takes its place and sinks. *)
Definition pop_timer (t : timers) : option (timer * timers) :=
  x ← (heap t).[0];
  let n' := n t - 1 in
  h ← (if 0 <? n' then
         last ← (heap t).[n'];
         h ← zset (heap t) 0 last;
         heap_down h n' 0
       else Some (heap t));
  Some (x, Timers h n' (next_id t)).

(** What happens to a fired timer: pushed back, or freed after its last fire.
    There is no capacity test here. *)
Definition resched (t : timers) (x : timer) : option timers :=
  if num x =? 0 then
    exp ← add_i64 (exp_ms x) (tic_ms x);
    push_timer t (Timer (id x) (tic_ms x) exp (num x) (fn x))
  else if 1 <? num x then
    exp ← add_i64 (exp_ms x) (tic_ms x);
    push_timer t (Timer (id x) (tic_ms x) exp (num x - 1) (fn x))
  else Some t.

(** The world around the heap: the clock, and what calling a timer's function
    with the time does to the heap. *)
Context {W : Type} (clock : W → Z * W) (call_fn1 : Z → Z → timers → W → option (timers * W)).

(** One turn of the loop at time [now]. *)
Definition fire_one (now : Z) (t : timers) (w : W) : option (timers * W) :=
  res ← pop_timer t;
  let '(x, t) := res in
  res ← call_fn1 (fn x) now t w;
  let '(t, w) := res in
  t ← resched t x;
  Some (t, w).

(** The loop, for at most [fuel] fires: with a zero interval it need not end. *)
Fixpoint fire_loop (fuel : nat) (now : Z) (t : timers) (w : W) : option (timers * W * bool) :=
  if 0 <? n t then
    x ← (heap t).[0];
    if exp_ms x <=? now then
      match fuel with
      | O => Some (t, w, false)
      | S fuel =>
          res ← fire_one now t w;
          let '(t, w) := res in
          let '(now, w) := clock w in
          fire_loop fuel now t w
      end
    else Some (t, w, true)
  else Some (t, w, true).

Definition ray_timers_fire_expired (fuel : nat) (t : timers) (w : W) : option (timers * W * bool) :=
  if n t =? 0 then Some (t, w, true) else
  let '(now, w) := clock w in fire_loop fuel now t w.
End ops.
