(* ===== verification/TimerProofs.v ===== *)
(** * Lemmas on the timer heap

    The order on timers, the heap property and how sifting restores it, and
    the invariant of the timer structure. *)

From S2P Require Import Prelude Timer.
Local Open Scope Z_scope.

(** ** The order *)
Definition tle (x y : timer) : Prop := heap_less y x = false.

Lemma heap_less_spec x y :
  heap_less x y = true ↔ exp_ms x < exp_ms y ∨ exp_ms x = exp_ms y ∧ id x < id y.
Proof. unfold heap_less. zbool; naive_solver lia. Qed.
Lemma tle_spec x y :
  tle x y ↔ exp_ms x < exp_ms y ∨ exp_ms x = exp_ms y ∧ id x ≤ id y.
Proof.
  unfold tle. rewrite <- not_true_iff_false, heap_less_spec. lia.
Qed.
Lemma tle_refl x : tle x x.
Proof. apply tle_spec. lia. Qed.
Lemma tle_trans x y z : tle x y → tle y z → tle x z.
Proof. rewrite !tle_spec. lia. Qed.
Lemma heap_less_tle x y : heap_less x y = true → tle x y.
Proof. rewrite heap_less_spec, tle_spec. lia. Qed.

(** ** The heap property *)
Definition par (j : Z) : Z := (j - 1) / 2.

Definition hle (h : list timer) (i j : Z) : Prop :=
  ∀ x y, h.[i] = Some x → h.[j] = Some y → tle x y.

Definition heap_ok (n : Z) (h : list timer) : Prop := ∀ j, 0 < j < n → hle h (par j) j.

(** Everything is ordered except, possibly, the edge above [i]. *)
Definition up_ok (n : Z) (h : list timer) (i : Z) : Prop :=
  (∀ j, 0 < j < n → j ≠ i → hle h (par j) j) ∧
  (0 < i → ∀ c, 0 < c < n → par c = i → hle h (par i) c).

(** Everything is ordered except, possibly, the edges at [i]. *)
Definition down_ok (n : Z) (h : list timer) (i : Z) : Prop :=
  (∀ j, 0 < j < n → j ≠ i → par j ≠ i → hle h (par j) j) ∧
  (0 < i → ∀ c, 0 < c < n → par c = i → hle h (par i) c).

Lemma par_quot j : 0 < j → (j - 1) `quot` 2 = par j.
Proof. intros. unfold par. by rewrite Z.quot_div_nonneg by lia. Qed.
Lemma par_child c i : 0 < c → par c = i ↔ c = 2 * i + 1 ∨ c = 2 * i + 2.
Proof. intros. unfold par. pose proof (Z.div_mod (c - 1) 2). pose proof (Z.mod_pos_bound (c - 1) 2). lia. Qed.
Lemma par_lt j : 0 < j → 0 ≤ par j < j.
Proof. intros. unfold par. pose proof (Z.div_mod (j - 1) 2). pose proof (Z.mod_pos_bound (j - 1) 2). lia. Qed.

Lemma hle_trans h i j k : 0 ≤ j < zlen h → hle h i j → hle h j k → hle h i k.
Proof.
  intros [y Hy]%zget_is_Some H1 H2 x z Hx Hz. eapply tle_trans; [by apply H1|by apply H2].
Qed.
Lemma hle_refl h i : hle h i i.
Proof. intros x y Hx Hy. simplify_eq. apply tle_refl. Qed.

(** ** What a rearrangement of the first [n] entries keeps *)
Definition rearr (n : Z) (h h' : list timer) : Prop :=
  zlen h' = zlen h ∧ take (Z.to_nat n) h' ≡ₚ take (Z.to_nat n) h ∧
  ∀ j, n ≤ j → h'.[j] = h.[j].

Lemma rearr_refl n h : rearr n h h.
Proof. done. Qed.
Lemma rearr_trans n h1 h2 h3 : rearr n h1 h2 → rearr n h2 h3 → rearr n h1 h3.
Proof.
  intros (? & ? & H1) (? & ? & H2). split_and!; [congruence|by etrans|].
  intros j Hj. by rewrite H2, H1.
Qed.

Lemma heap_swap_spec n h i j :
  0 ≤ i < n → 0 ≤ j < n → i ≠ j → n ≤ zlen h →
  ∃ h', heap_swap h i j = Some h' ∧ rearr n h h' ∧ h'.[i] = h.[j] ∧ h'.[j] = h.[i] ∧
        ∀ k, k ≠ i → k ≠ j → h'.[k] = h.[k].
Proof.
  intros Hi Hj Hij Hn. unfold heap_swap.
  destruct (zget_is_Some h i) as [x Hx]; [lia|]. destruct (zget_is_Some h j) as [y Hy]; [lia|].
  rewrite Hx, Hy. cbn. destruct (zset_total h i y) as [h1 H1]; [lia|]. rewrite H1. cbn.
  pose proof (zlen_zset _ _ _ _ H1).
  destruct (zset_total h1 j x) as [h2 H2]; [lia|]. rewrite H2.
  pose proof (zlen_zset _ _ _ _ H2). exists h2. split; [done|]. split_and!.
  - split_and!; [lia| |].
    + apply zset_inv in H1 as [_ ->]. apply zset_inv in H2 as [_ ->].
      rewrite !take_insert_lt by lia. apply Permutation_insert_swap; rewrite lookup_take_lt by lia.
      * rewrite <- Hx. unfold zget. by rewrite (proj2 (Z.leb_le _ _)) by lia.
      * rewrite <- Hy. unfold zget. by rewrite (proj2 (Z.leb_le _ _)) by lia.
    + intros k Hk. rewrite (zget_zset_ne _ _ _ _ _ H2), (zget_zset_ne _ _ _ _ _ H1) by lia. done.
  - rewrite (zget_zset_ne _ _ _ _ _ H2) by lia. by eapply zget_zset_eq.
  - by eapply zget_zset_eq.
  - intros k Hki Hkj. rewrite (zget_zset_ne _ _ _ _ _ H2), (zget_zset_ne _ _ _ _ _ H1) by lia. done.
Qed.

(** [hle] after a swap, by the position of its two ends. *)
Definition swp (i j k : Z) : Z := if k =? i then j else if k =? j then i else k.
Lemma hle_swap h h' i j a b :
  h'.[i] = h.[j] → h'.[j] = h.[i] → (∀ k, k ≠ i → k ≠ j → h'.[k] = h.[k]) →
  hle h (swp i j a) (swp i j b) → hle h' a b.
Proof.
  intros Hi Hj Hk H x y Hx Hy.
  assert (∀ k, h'.[k] = h.[swp i j k]) as E
    by (intros k; unfold swp; zbool; subst; auto).
  apply H; [by rewrite <- E|by rewrite <- E].
Qed.

(** ** Sifting up *)
Lemma heap_up_ok n h i :
  0 ≤ i < n → n ≤ zlen h → up_ok n h i →
  ∃ h', heap_up h i = Some h' ∧ rearr n h h' ∧ heap_ok n h'.
Proof.
  unfold heap_up. intros Hi Hn. assert (Hf : i ≤ Z.of_nat (Z.to_nat i)) by lia.
  revert Hf. generalize (Z.to_nat i) as fuel. intros fuel. revert h i Hi Hn.
  induction fuel as [|fuel IH]; intros h i Hi Hn Hf [U1 U2]; cbn [heap_up_loop].
  all: destruct (Z.ltb_spec 0 i) as [Hpos|Hpos];
    [|exists h; split; [done|]; split; [apply rearr_refl|]; intros j Hj; apply U1; lia].
  - lia.
  - rewrite par_quot by done. pose proof (par_lt i Hpos) as Hpi.
    destruct (zget_is_Some h i) as [x Hx]; [lia|].
    destruct (zget_is_Some h (par i)) as [p Hp]; [lia|]. rewrite Hx, Hp. cbn.
    destruct (heap_less x p) eqn:Hless.
    + destruct (heap_swap_spec n h i (par i)) as (h1 & Hs & Hr & E1 & E2 & E3); [lia..|].
      rewrite Hs. cbn.
      destruct (IH h1 (par i)) as (h2 & Hh2 & Hr2 & Hok); [lia|destruct Hr; lia|lia| |].
      2: { exists h2. split; [done|]. split; [by eapply rearr_trans|done]. }
      assert (Hxp : hle h i (par i)).
      { intros a b Ha Hb. simplify_eq. by apply heap_less_tle. }
      split.
      * intros j Hj Hji. apply (hle_swap _ _ _ _ _ _ E1 E2 E3). unfold swp.
        pose proof (par_lt j). zbool; subst; try lia.
        -- apply U2; lia.
        -- done.
        -- eapply hle_trans; [|exact Hxp|]; [lia|]. rewrite <- e. apply U1; lia.
        -- by apply U1; lia.
      * intros Hp0 c Hc Hpc. apply (hle_swap _ _ _ _ _ _ E1 E2 E3). unfold swp.
        pose proof (par_lt c). pose proof (par_lt (par i)). zbool; subst; try lia.
        -- apply U1; lia.
        -- apply hle_trans with (par i); [lia|apply U1; lia|]. rewrite <- Hpc. apply U1; lia.
    + exists h. split; [done|]. split; [apply rearr_refl|]. intros j Hj.
      destruct (decide (j = i)) as [->|]; [|by apply U1].
      intros a b Ha Hb. simplify_eq. done.
Qed.

(** ** Sifting down *)
Lemma best_child_spec h n i :
  0 ≤ i < n → n ≤ zlen h →
  ∃ b, best_child h n i = Some b ∧ i ≤ b < n ∧ (b = i ∨ par b = i ∧ 0 < b) ∧ hle h b i ∧
       ∀ c, 0 < c < n → par c = i → hle h b c.
Proof.
  intros Hi Hn. unfold best_child.
  destruct (zget_is_Some h i) as [y Hy]; [lia|].
  assert (∃ b, (if 2 * i + 1 <? n then x ← h.[2 * i + 1]; y ← h.[i];
                  Some (if heap_less x y then 2 * i + 1 else i) else Some i) = Some b ∧
    (b = i ∨ b = 2 * i + 1 ∧ b < n) ∧ hle h b i ∧ (2 * i + 1 < n → hle h b (2 * i + 1)))
    as (b & -> & Hb & Hbi & Hbl).
  { zbool; [|exists i; split_and!; [done|lia|apply hle_refl|lia]].
    destruct (zget_is_Some h (2 * i + 1)) as [x Hx]; [lia|]. rewrite Hx, Hy. cbn.
    destruct (heap_less x y) eqn:Hless; eexists; (split_and!; [done|lia|..]);
      try intros _; try apply hle_refl; intros a b Ha Hb'; simplify_eq; first [exact Hless|by apply heap_less_tle]. }
  cbn. destruct (zget_is_Some h b) as [z Hz]; [lia|].
  assert (∃ b', (if 2 * i + 2 <? n then x ← h.[2 * i + 2]; y ← h.[b];
                  Some (if heap_less x y then 2 * i + 2 else b) else Some b) = Some b' ∧
    (b' = b ∨ b' = 2 * i + 2 ∧ b' < n) ∧ hle h b' b ∧ (2 * i + 2 < n → hle h b' (2 * i + 2)))
    as (b' & -> & Hb' & Hbb & Hbr).
  { zbool; [|exists b; split_and!; [done|lia|apply hle_refl|lia]].
    destruct (zget_is_Some h (2 * i + 2)) as [x Hx]; [lia|]. rewrite Hx, Hz. cbn.
    destruct (heap_less x z) eqn:Hless; eexists; (split_and!; [done|lia|..]);
      try intros _; try apply hle_refl; intros a b0 Ha Hb'; simplify_eq; first [exact Hless|by apply heap_less_tle]. }
  exists b'. split_and!; [done|lia..| | |].
  - destruct (decide (b' = i)); [by left|right]. rewrite par_child by lia. lia.
  - by apply hle_trans with b; [lia|..].
  - intros c Hc Hpc. apply par_child in Hpc as [->| ->]; [|apply Hbr; lia|lia].
    apply hle_trans with b; [lia|done|apply Hbl; lia].
Qed.

(** The loop at [cur], below the position [top] it started from. *)
Lemma heap_down_loop_ok n top fuel : ∀ h cur,
  0 ≤ top < n → 0 ≤ cur < n → n ≤ zlen h → n - cur ≤ Z.of_nat fuel → down_ok n h cur →
  (cur = top ∨ hle h (par cur) cur) →
  ∃ h', heap_down_loop fuel h n cur = Some h' ∧ rearr n h h' ∧ up_ok n h' top.
Proof.
  induction fuel as [|fuel IH]; intros h cur Htop Ht Hn Hf [D1 D2] HE; [lia|].
  destruct (best_child_spec h n cur) as (b & Hb & Hbr & Hbc & Hbi & Hall); [lia..|].
  cbn [heap_down_loop]. rewrite Hb. cbn. destruct (Z.eqb_spec b cur) as [->|Hne].
  - exists h. split; [done|]. split; [apply rearr_refl|].
    assert (Hj : ∀ j, 0 < j < n → j ≠ cur → hle h (par j) j).
    { intros j Hj Hjc. destruct (decide (par j = cur)) as [E|]; [rewrite E; by apply Hall|by apply D1]. }
    destruct HE as [->|HE]; [by split|].
    assert (Hj' : heap_ok n h).
    { intros j Hj'. destruct (decide (j = cur)) as [->|]; [done|by apply Hj]. }
    split; [by intros; apply Hj'|]. intros Htop' c Hc Hpc. pose proof (par_lt c).
    apply hle_trans with top; [lia| |rewrite <- Hpc]; apply Hj'; lia.
  - destruct Hbc as [?|[Hpb Hb0]]; [done|].
    destruct (heap_swap_spec n h cur b) as (h1 & Hs & Hr & E1 & E2 & E3); [lia..|].
    rewrite Hs. cbn.
    destruct (IH h1 b) as (h2 & Hh2 & Hr2 & Hok);
      [lia|lia|destruct Hr; lia|lia| | |exists h2; split; [done|]; split; [by eapply rearr_trans|done]].
    + split.
      * intros j Hj Hjb Hpj. apply (hle_swap _ _ _ _ _ _ E1 E2 E3). unfold swp.
        pose proof (par_lt j). zbool; subst; try lia.
        -- by apply Hall.
        -- apply D2; lia.
        -- by apply D1.
      * intros _ c Hc Hpc. apply (hle_swap _ _ _ _ _ _ E1 E2 E3). unfold swp.
        pose proof (par_lt c). rewrite Hpb. zbool; subst; try lia. apply D1; lia.
    + right. rewrite Hpb. apply (hle_swap _ _ _ _ _ _ E1 E2 E3). unfold swp. zbool; done || lia.
Qed.

Lemma heap_down_ok n h top :
  0 ≤ top < n → n ≤ zlen h → down_ok n h top →
  ∃ h', heap_down h n top = Some h' ∧ rearr n h h' ∧ up_ok n h' top.
Proof. intros. apply heap_down_loop_ok; [done..|lia|done|by left]. Qed.

(** ** The timer structure *)
Definition live (t : timers) : list timer := take (Z.to_nat (n t)) (heap t).

Record timers_wf (t : timers) : Prop := {
  wf_n : 0 ≤ n t ≤ cap t;
  wf_cap : 1 ≤ cap t;
  wf_heap : heap_ok (n t) (heap t);
  wf_nodup : NoDup (map id (live t));
  wf_ids : Forall (λ x, 0 ≤ id x < next_id t) (live t);
  wf_next : 0 ≤ next_id t;
}.


(** The head of a heap is least. *)
Lemma heap_ok_head m h x i y :
  heap_ok m h → m ≤ zlen h → h.[0] = Some x → 0 ≤ i < m → h.[i] = Some y → tle x y.
Proof.
  intros Hok Hm Hx. revert y. induction i as [i IH] using (well_founded_induction (Z.lt_wf 0)).
  intros y Hi Hy. destruct (decide (i = 0)) as [->|]; [simplify_eq; apply tle_refl|].
  pose proof (par_lt i). destruct (zget_is_Some h (par i)) as [p Hp]; [lia|].
  eapply tle_trans; [eapply (IH (par i)); [lia..|done]|]. eapply Hok; [|done..]. lia.
Qed.

Lemma heap_ok_head_live t x y :
  timers_wf t → (heap t).[0] = Some x → y ∈ live t → tle x y.
Proof.
  intros Hwf Hx (i & Hi & Hy)%elem_zget. pose proof (wf_n _ Hwf). unfold cap in *. unfold live in *.
  rewrite zlen_take in Hi. rewrite zget_take in Hy by lia.
  eapply heap_ok_head; [apply Hwf|lia|done| |done]. lia.
Qed.

(** Pushing at the tail, where there is room. *)
Lemma push_timer_ok t x :
  timers_wf t → n t < cap t → 0 ≤ id x < next_id t → id x ∉ map id (live t) →
  ∃ t', push_timer t x = Some t' ∧ timers_wf t' ∧ live t' ≡ₚ x :: live t ∧
        cap t' = cap t ∧ next_id t' = next_id t ∧ n t' = n t + 1.
Proof.
  intros Hwf Hroom Hid Hfresh. unfold push_timer, cap in *. pose proof (wf_n _ Hwf) as Hn.
  destruct (zset_total (heap t) (n t) x) as [h1 H1]; [lia|]. rewrite H1. cbn.
  pose proof (zlen_zset _ _ _ _ H1) as Hl.
  assert (Hup : up_ok (n t + 1) h1 (n t)).
  { assert (∀ j, j < n t → h1.[j] = (heap t).[j]) as E.
    { intros j Hj. eapply zget_zset_ne; [done|lia]. }
    split.
    - intros j Hj Hjn. pose proof (par_lt j). intros a b. rewrite !E by lia. apply (wf_heap _ Hwf). lia.
    - intros Hpos c Hc Hpc. pose proof (par_lt c). lia. }
  destruct (heap_up_ok (n t + 1) h1 (n t)) as (h2 & Hh2 & Hr & Hok); [lia| |done|];
    [unfold cap in *; lia|].
  rewrite Hh2. cbn. eexists. split; [done|].
  assert (Hp : live (Timers h2 (n t + 1) (next_id t)) ≡ₚ x :: live t).
  { unfold live. simpl n. simpl heap. destruct Hr as (_ & -> & _).
    replace (Z.to_nat (n t + 1)) with (S (Z.to_nat (n t))) by lia.
    rewrite (take_S_r _ _ x).
    - apply zset_inv in H1 as [_ ->]. rewrite take_insert_ge by lia. by rewrite Permutation_app_comm.
    - rewrite <- (zget_zset_eq _ _ _ _ H1). unfold zget. by rewrite (proj2 (Z.leb_le _ _)) by lia. }
  destruct Hr as (Hr1 & _ & _). split_and!; [|done|simpl; unfold cap; simpl; lia|done..].
  constructor; simpl; unfold cap in *; simpl; [lia|lia|done| | |lia].
  - rewrite (Permutation_map id Hp). simpl. constructor; [done|apply Hwf].
  - rewrite Hp. constructor; [done|apply Hwf].
Qed.

(** ** Growing the array and taking an id *)

Lemma timers_wf_extend t (k : list timer) :
  timers_wf t → 0 < zlen k →
  let t' := Timers (take (Z.to_nat (n t)) (heap t) ++ k) (n t) (next_id t) in
  timers_wf t' ∧ live t' = live t ∧ next_id t' = next_id t ∧ n t' < cap t'.
Proof.
  intros [Hn Hc Hh Hnd Hids Hnx] Hk t'. unfold cap in Hn, Hc.
  assert (Hn' : n t' = n t) by done.
  assert (Hl : live t' = live t) by (apply take_take_app; unfold zlen in *; lia).
  assert (Hcap : cap t' = n t + zlen k).
  { unfold cap. simpl. rewrite zlen_app, zlen_take, Z2Nat.id by lia. lia. }
  split_and!; [|done..|lia].
  constructor; [lia|lia| |by rewrite Hl|by rewrite Hl|done].
  intros j Hj x y. simpl in Hj |- *. pose proof (par_lt j).
  rewrite !zget_app_l by (rewrite zlen_take; lia). rewrite !zget_take by lia. apply Hh. lia.
Qed.

Lemma timers_wf_next_id t k :
  timers_wf t → next_id t ≤ k → timers_wf (Timers (heap t) (n t) k).
Proof.
  intros [Hn Hc Hh Hnd Hids Hnx] Hk. constructor; try done; [|simpl; lia].
  eapply Forall_impl; [exact Hids|]. simpl. lia.
Qed.

Lemma timers_wf_fresh t : timers_wf t → next_id t ∉ map id (live t).
Proof.
  intros Hwf (x & E & Hx)%list_elem_of_fmap. pose proof (wf_ids _ Hwf) as Hids.
  eapply Forall_forall in Hids; [|exact Hx]. simpl in Hids. lia.
Qed.

(** ** Taking an entry out *)

Lemma take_last_perm {A} (l : list A) (m : Z) x :
  0 < m → l.[m - 1] = Some x → take (Z.to_nat m) l = take (Z.to_nat (m - 1)) l ++ [x].
Proof.
  intros Hm Hx. replace (Z.to_nat m) with (S (Z.to_nat (m - 1))) by lia.
  apply take_S_r. by rewrite <- zget_nat by lia.
Qed.

Lemma insert_perm {A} (l : list A) i (x y : A) : l !! i = Some y → y :: <[i := x]> l ≡ₚ x :: l.
Proof.
  intros Hy. pose proof (lookup_lt_Some _ _ _ Hy). rewrite insert_take_drop by done.
  rewrite <- (take_drop_middle l i y) at 3 by done.
  rewrite <- !Permutation_middle. apply perm_swap.
Qed.

Lemma hole_perm (h : list timer) m i y last h1 :
  0 ≤ i < m - 1 → h.[i] = Some y → h.[m - 1] = Some last → zset h i last = Some h1 →
  y :: take (Z.to_nat (m - 1)) h1 ≡ₚ take (Z.to_nat m) h.
Proof.
  intros Hi Hy Hlast [_ ->]%zset_inv. rewrite take_insert_lt by lia.
  rewrite insert_perm; [|rewrite lookup_take_lt, <- zget_nat by lia; exact Hy].
  rewrite (take_last_perm h m last) by (done || lia). by rewrite Permutation_app_comm.
Qed.

Lemma hole_down_ok (h : list timer) m i last h1 :
  heap_ok m h → 0 ≤ i < m - 1 → m ≤ zlen h → h.[m - 1] = Some last → zset h i last = Some h1 →
  down_ok (m - 1) h1 i.
Proof.
  intros Hok Hi Hm Hlast H1.
  assert (E : ∀ j, j ≠ i → h1.[j] = h.[j]) by (intros j Hj; by eapply zget_zset_ne).
  split.
  - intros j Hj Hji Hpj x y. rewrite !E by lia. apply Hok. lia.
  - intros Hpos c Hc Hpc x y. pose proof (par_lt i). pose proof (par_lt c). rewrite !E by lia.
    apply (hle_trans h (par i) i c); [lia|apply Hok; lia|rewrite <- Hpc; apply Hok; lia].
Qed.

Lemma timers_wf_remove t (h : list timer) y :
  timers_wf t → 0 < n t → y :: take (Z.to_nat (n t - 1)) h ≡ₚ live t → zlen h = cap t →
  heap_ok (n t - 1) h → timers_wf (Timers h (n t - 1) (next_id t)).
Proof.
  intros [Hn Hc _ Hnd Hids Hnx] Hpos Hp Hl Hok. rewrite <- Hp in Hnd, Hids.
  simpl in Hnd. inversion_clear Hnd. inversion_clear Hids.
  constructor; unfold cap, live; simpl; rewrite ?Hl; first [done|lia].
Qed.

(** Closing the hole at [i] with the tail, sifting both ways. *)
Lemma fill_hole_ok t i y :
  timers_wf t → 0 ≤ i < n t → (heap t).[i] = Some y →
  ∃ h, (if i <? n t - 1 then
          last ← (heap t).[n t - 1]; h ← zset (heap t) i last;
          h ← heap_down h (n t - 1) i; heap_up h i
        else Some (heap t)) = Some h ∧
       zlen h = cap t ∧ heap_ok (n t - 1) h ∧ y :: take (Z.to_nat (n t - 1)) h ≡ₚ live t.
Proof.
  intros Hwf Hi Hy. pose proof (wf_n _ Hwf) as Hn. unfold cap in *.
  destruct (Z.ltb_spec i (n t - 1)).
  - destruct (zget_is_Some (heap t) (n t - 1)) as [last Hlast]; [lia|]. rewrite Hlast. cbn.
    destruct (zset_total (heap t) i last) as [h1 H1]; [lia|]. rewrite H1. cbn.
    pose proof (zlen_zset _ _ _ _ H1).
    destruct (heap_down_ok (n t - 1) h1 i) as (h2 & Hh2 & (Hl2 & Hp2 & _) & Hup); [lia..| |].
    { eapply hole_down_ok; [apply Hwf|lia|lia|done..]. }
    rewrite Hh2. cbn.
    destruct (heap_up_ok (n t - 1) h2 i) as (h3 & Hh3 & (Hl3 & Hp3 & _) & Hok); [lia..|done|].
    exists h3. split_and!; [done|lia|done|]. rewrite Hp3, Hp2. apply (hole_perm _ _ i _ last); [lia|done..].
  - exists (heap t). split_and!; [done..| |].
    + intros j Hj. apply (wf_heap _ Hwf). lia.
    + unfold live. assert (i = n t - 1) as -> by lia. rewrite (take_last_perm _ (n t) y) by (done || lia).
      by rewrite Permutation_app_comm.
Qed.

(** At the root nothing is above, so the upward pass is idle. *)
Lemma fill_root t :
  (if 0 <? n t - 1 then
     last ← (heap t).[n t - 1]; h ← zset (heap t) 0 last; heap_down h (n t - 1) 0
   else Some (heap t)) =
  (if 0 <? n t - 1 then
     last ← (heap t).[n t - 1]; h ← zset (heap t) 0 last;
     h ← heap_down h (n t - 1) 0; heap_up h 0
   else Some (heap t)).
Proof.
  destruct (0 <? n t - 1); [|done]. destruct ((heap t).[n t - 1]) as [last|]; cbn; [|done].
  destruct (zset (heap t) 0 last) as [h|]; cbn; [|done]. by destruct (heap_down h (n t - 1) 0).
Qed.

Lemma pop_timer_ok t :
  timers_wf t → 0 < n t →
  ∃ x t', pop_timer t = Some (x, t') ∧ (heap t).[0] = Some x ∧ timers_wf t' ∧ x :: live t' ≡ₚ live t ∧
          cap t' = cap t ∧ next_id t' = next_id t ∧ n t' = n t - 1 ∧ Forall (tle x) (live t).
Proof.
  intros Hwf Hn. pose proof (wf_n _ Hwf). unfold pop_timer, cap in *.
  destruct (zget_is_Some (heap t) 0) as [x Hx]; [lia|]. rewrite Hx. cbn. rewrite fill_root.
  destruct (fill_hole_ok t 0 x) as (h & -> & Hl & Hok & Hp); [done|lia|done|]. cbn.
  eexists x, _. split; [done|]. split_and!; [done|eapply timers_wf_remove; done|done|done|done|done|].
  apply Forall_forall. intros y Hy. by eapply heap_ok_head_live.
Qed.

(** ** Looking an id up *)
Lemma find_id_ok fuel h m tid : ∀ i, 0 ≤ i → m ≤ zlen h → m - i ≤ Z.of_nat fuel →
  ∃ r, find_id fuel h m i tid = Some r ∧
    match r with
    | Some k => i ≤ k < m ∧ ∃ x, h.[k] = Some x ∧ id x = tid
    | None => ∀ k x, i ≤ k < m → h.[k] = Some x → id x ≠ tid
    end.
Proof.
  induction fuel as [|fuel IH]; intros i Hi Hm Hf; cbn [find_id].
  { exists None. split; [done|]. lia. }
  destruct (Z.ltb_spec i m); [|exists None; split; [done|lia]].
  destruct (zget_is_Some h i) as [x Hx]; [lia|]. rewrite Hx. cbn.
  destruct (Z.eqb_spec (id x) tid); [exists (Some i); eauto with lia|].
  destruct (IH (i + 1)) as (r & -> & Hr); [lia..|]. exists r. split; [done|]. destruct r as [k|].
  - destruct Hr as [? Hr]. split; [lia|done].
  - intros k y Hk Hy. destruct (decide (k = i)) as [->|]; [congruence|]. eapply Hr; [|done]. lia.
Qed.


(** ** Firing *)
Lemma filter_id_perm tid x (l l' : list timer) :
  x :: l' ≡ₚ l → NoDup (map id l) → id x = tid → l' ≡ₚ filter (λ y, id y ≠ tid) l.
Proof.
  intros Hp Hnd <-. rewrite <- Hp in Hnd |- *. simpl in Hnd. inversion_clear Hnd as [|? ? Hx _].
  rewrite filter_cons_False by naive_solver. rewrite (filter_all _ l'); [done|].
  apply Forall_forall. intros y Hy E. apply Hx. rewrite <- E. by apply list_elem_of_fmap_2.
Qed.

(** A run of one-shot timers whose functions only log the call. *)
Section oneshots.
Context `{Heap} (junk : timer).
(** The [k]-th reading of the clock. *)
Context (c : nat → Z).

Definition log_call (f now : Z) (t : timers) (w : list (Z * Z)) : option (timers * list (Z * Z)) :=
  Some (t, w ++ [(f, now)]).
Definition log_clock (w : list (Z * Z)) : Z * list (Z * Z) := (c (length w), w).

Lemma fire_oneshots fuel : ∀ t w,
  timers_wf t → Forall (λ x, num x = 1) (live t) → n t ≤ Z.of_nat fuel →
  ∃ t' fired,
    fire_loop log_clock log_call fuel (c (length w)) t w =
      Some (t', w ++ imap (λ k x, (fn x, c (length w + k)%nat)) fired, true) ∧
    timers_wf t' ∧ live t ≡ₚ fired ++ live t' ∧ StronglySorted tle fired ∧
    (∀ x, x ∈ live t' → c (length w + length fired)%nat < exp_ms x) ∧
    ∀ k x, fired !! k = Some x → exp_ms x ≤ c (length w + k)%nat.
Proof.
  assert (Hstop : ∀ t w, timers_wf t → Forall (λ x, c (length w) < exp_ms x) (live t) →
    ∃ t' fired,
    Some (t, w, true) =
      Some (t', w ++ imap (λ k x, (fn x, c (length w + k)%nat)) fired, true) ∧
    timers_wf t' ∧ live t ≡ₚ fired ++ live t' ∧ StronglySorted tle fired ∧
    (∀ x, x ∈ live t' → c (length w + length fired)%nat < exp_ms x) ∧
    ∀ k x, fired !! k = Some x → exp_ms x ≤ c (length w + k)%nat).
  { intros t w Hwf Hlate. exists t, []. rewrite app_nil_r. split_and!; [done..|constructor| |done].
    intros x Hx. simpl. rewrite Nat.add_0_r. by eapply Forall_forall in Hlate. }
  induction fuel as [|fuel IH]; intros t w Hwf Hone Hf; cbn [fire_loop].
  all: pose proof (wf_n _ Hwf); destruct (Z.ltb_spec 0 (n t));
    [|apply Hstop; [done|]; unfold live; replace (n t) with 0 by lia; constructor].
  - lia.
  - destruct (pop_timer_ok t) as (x & t1 & Hpop & Hx & Hwf1 & Hp & _ & _ & Hn1 & Hmin); [done..|].
    rewrite Hx. cbn [mbind option_bind]. destruct (Z.leb_spec (exp_ms x) (c (length w))).
    2: { apply Hstop; [done|]. eapply Forall_impl; [exact Hmin|]. intros y Hy%tle_spec. simpl. lia. }
    unfold fire_one. rewrite Hpop. cbn.
    assert (Hx1 : num x = 1 ∧ Forall (λ x, num x = 1) (live t1)).
    { rewrite <- Hp in Hone. by inversion_clear Hone. }
    destruct Hx1 as [Hx1 Hone1]. unfold resched. rewrite Hx1. cbn.
    destruct (IH t1 (w ++ [(fn x, c (length w))])) as (t2 & fired & Hrun & Hwf2 & Hp2 & Hs & Hlate & Hexp);
      [done..|lia|].
    rewrite length_app in *. simpl length in *. rewrite Hrun. exists t2, (x :: fired).
    assert (E : ∀ k, (length w + 1 + k = length w + S k)%nat) by lia. split_and!; [|done|..].
    + rewrite <- app_assoc. cbn. rewrite Nat.add_0_r. do 5 f_equal. apply imap_ext.
      intros k y _. simpl. by rewrite E.
    + by rewrite <- Hp, Hp2.
    + constructor; [done|]. apply Forall_forall. intros y Hy. eapply Forall_forall; [exact Hmin|].
      rewrite <- Hp, Hp2. set_solver.
    + intros y Hy. simpl. rewrite <- E. by apply Hlate.
    + intros [|k] y Hk; simpl in Hk; simplify_eq; [by rewrite Nat.add_0_r|]. rewrite <- E. by apply Hexp.
Qed.
End oneshots.
