(* ===== verification/TimerProps.v ===== *)
(** * Correctness of the timer heap

    Scheduling and cancelling keep the heap well-formed and change the set of
    live timers as announced; the next deadline is the least; expired timers
    fire in order. Two theorems record what re-pushing a fired timer does when
    its callback has changed the heap. *)

From S2P Require Import Prelude Timer TimerProofs.
Local Open Scope Z_scope.

(** A small world for the witnesses: the allocator never refuses. *)
Module Desk.
Definition plenty : Heap := {| alloc_ok := λ _, true; alloc_junk := λ _, 0 |}.
Definition junk : timer := Timer 0 0 0 0 0.
Definition t0 : timers :=
  Timers [Timer 0 5 105 1 70; Timer 1 7 107 1 71; Timer 2 6 106 1 72; junk] 3 3.

Lemma t0_wf : timers_wf t0.
Proof.
  constructor; [unfold cap, zlen; simpl; lia|unfold cap, zlen; simpl; lia| | | |].
  - intros j Hj. simpl n in Hj. assert (j = 1 ∨ j = 2) as [->| ->] by lia;
      intros x y Hx Hy; cbv in Hx, Hy; simplify_eq; done.
  - apply (bool_decide_unpack (NoDup (map id (live t0)))). vm_compute. exact I.
  - repeat constructor; simpl; lia.
  - simpl; lia.
Defined.
End Desk.

(** [ray_timers_add] never leaves the array. It returns [-1] with the live
    timers untouched, and only if the allocator refused the timer or the
    doubled array; otherwise the new timer, under a fresh id, with deadline
    [now + tic], is added to the live ones. The heap stays well-formed: heap
    order, distinct ids below [next_id], [n <= cap]. *)
Theorem timers_add_schedules `{Heap} junk now t tic num f :
  timers_wf t → INT64_MIN ≤ now + tic ≤ INT64_MAX →
  ∃ t' r, ray_timers_add junk now t tic num (Some f) = Some (t', r) ∧ timers_wf t' ∧
    (r = -1 ∧ live t' = live t ∧ next_id t' = next_id t ∧
       (alloc_ok (2 * cap t * 8) = false ∨ alloc_ok 40 = false) ∨
     r = next_id t ∧ next_id t' = next_id t + 1 ∧
       live t' ≡ₚ Timer r tic (now + tic) num f :: live t).
Proof.
  intros Hwf Hexp. pose proof (wf_n _ Hwf) as Hn. unfold ray_timers_add.
  (* an array with room, holding the same timers *)
  assert (Hgrow : (∃ t1, (if cap t <=? n t then heap_grow junk t else Some t) = Some t1 ∧
      timers_wf t1 ∧ live t1 = live t ∧ next_id t1 = next_id t ∧ n t1 < cap t1) ∨
    (if cap t <=? n t then heap_grow junk t else Some t) = None ∧ alloc_ok (2 * cap t * 8) = false).
  { destruct (Z.leb_spec (cap t) (n t)); [|left; exists t; auto with lia].
    unfold heap_grow. replace (2 * cap t * 8) with (cap t * 2 * 8) by lia.
    destruct (alloc_ok (cap t * 2 * 8)); [|by right]. left. eexists. split; [done|].
    pose proof (wf_cap _ Hwf) as Hc.
    apply timers_wf_extend; [done|]. rewrite zlen_replicate. unfold cap in *. lia. }
  destruct Hgrow as [(t1 & -> & Hwf1 & Hl1 & Hid1 & Hroom)|[-> Hoom]].
  2: { exists t, (-1). split; [done|]. split; [done|]. left. by auto. }
  destruct (alloc_ok 40) eqn:H40; simpl negb; cbv iota.
  2: { exists t1, (-1). split; [done|]. split; [done|]. left. by auto. }
  unfold add_i64. rewrite !(proj2 (Z.leb_le _ _)) by lia. cbn.
  destruct (push_timer_ok (Timers (heap t1) (n t1) (next_id t1 + 1))
    (Timer (next_id t1) tic (now + tic) num f)) as (t2 & Hp & Hwf2 & Hl2 & _ & Hid2 & _).
  - by apply timers_wf_next_id; [|lia].
  - done.
  - pose proof (wf_next _ Hwf1). simpl. lia.
  - exact (timers_wf_fresh _ Hwf1).
  - rewrite Hp. cbn. eexists t2, _. split; [done|]. split; [done|]. right. rewrite Hid2, Hl2.
    change (live (Timers (heap t1) (n t1) (next_id t1 + 1))) with (live t1).
    simpl. by rewrite Hl1, Hid1.
Qed.

Lemma timers_add_schedules_witness :
  ∃ t' r, @ray_timers_add Desk.plenty Desk.junk 100 Desk.t0 50 0 (Some 9) = Some (t', r) ∧ timers_wf t' ∧
    (r = -1 ∧ live t' = live Desk.t0 ∧ next_id t' = next_id Desk.t0 ∧
       (@alloc_ok Desk.plenty (2 * cap Desk.t0 * 8) = false ∨ @alloc_ok Desk.plenty 40 = false) ∨
     r = next_id Desk.t0 ∧ next_id t' = next_id Desk.t0 + 1 ∧
       live t' ≡ₚ Timer r 50 (100 + 50) 0 9 :: live Desk.t0).
Proof.
  apply (@timers_add_schedules Desk.plenty Desk.junk 100 Desk.t0 50 0 9);
    [exact Desk.t0_wf|split; vm_compute; discriminate].
Defined.

(** [ray_timers_del] never leaves the array, answers whether a live timer
    has the id, and then the live timers are the others; the heap stays
    well-formed. *)
Theorem timers_del_cancels t tid :
  timers_wf t →
  ∃ t', ray_timers_del t tid = Some (t', bool_decide (tid ∈ map id (live t))) ∧ timers_wf t' ∧
        live t' ≡ₚ filter (λ x, id x ≠ tid) (live t) ∧ next_id t' = next_id t.
Proof.
  intros Hwf. pose proof (wf_n _ Hwf) as Hn. unfold cap in Hn. unfold ray_timers_del.
  destruct (find_id_ok (Z.to_nat (n t)) (heap t) (n t) tid 0) as ([i|] & -> & Hr); [lia..| |]; cbn.
  - destruct Hr as (Hi & x & Hx & Hid).
    destruct (fill_hole_ok t i x) as (h & -> & Hl & Hok & Hp); [done..|]. cbn.
    assert (Hin : tid ∈ map id (live t)).
    { rewrite <- Hid. apply list_elem_of_fmap_2. rewrite <- Hp. set_solver. }
    rewrite bool_decide_true by done. eexists. split; [done|].
    split; [eapply timers_wf_remove; [done|lia|done..]|]. split; [|done].
    eapply filter_id_perm; [exact Hp|apply Hwf|done].
  - assert (Hno : Forall (λ x, id x ≠ tid) (live t)).
    { apply Forall_forall. intros x (k & Hk & Hx)%elem_zget. unfold live in Hk, Hx.
      rewrite zlen_take in Hk. rewrite zget_take in Hx by lia. eapply Hr; [|done]. lia. }
    rewrite bool_decide_false.
    + eexists. split; [done|]. split; [done|]. split; [|done]. by rewrite filter_all.
    + intros (x & E & Hx)%list_elem_of_fmap. eapply Forall_forall in Hno; [|exact Hx]. by apply Hno.
Qed.

Lemma timers_del_cancels_witness :
  ∃ t', ray_timers_del Desk.t0 1 = Some (t', bool_decide (1 ∈ map id (live Desk.t0))) ∧ timers_wf t' ∧
        live t' ≡ₚ filter (λ x, id x ≠ 1) (live Desk.t0) ∧ next_id t' = next_id Desk.t0.
Proof. apply (timers_del_cancels Desk.t0 1). exact Desk.t0_wf. Defined.

(** [ray_timers_next_deadline_ms] is the least deadline of the live timers,
    and [INT64_MAX] when there is none. *)
Theorem timers_next_deadline_least t :
  timers_wf t →
  ∃ d, ray_timers_next_deadline_ms t = Some d ∧
    (live t = [] → d = INT64_MAX) ∧
    (live t ≠ [] → (∃ x, x ∈ live t ∧ exp_ms x = d) ∧ ∀ y, y ∈ live t → d ≤ exp_ms y).
Proof.
  intros Hwf. pose proof (wf_n _ Hwf) as Hn. unfold ray_timers_next_deadline_ms, cap in *.
  destruct (Z.eqb_spec (n t) 0) as [E|E].
  - eexists. split; [done|]. split; [done|]. intros []. unfold live. by rewrite E.
  - destruct (zget_is_Some (heap t) 0) as [x Hx]; [lia|]. rewrite Hx. cbn.
    assert (Hin : x ∈ live t).
    { apply (zget_elem _ 0). unfold live. by rewrite zget_take by lia. }
    eexists. split; [done|]. split; [intros E0; rewrite E0 in Hin; set_solver|]. intros _.
    split; [by exists x|]. intros y Hy. pose proof (heap_ok_head_live _ _ _ Hwf Hx Hy) as H%tle_spec. lia.
Qed.

Lemma timers_next_deadline_least_witness :
  ∃ d, ray_timers_next_deadline_ms Desk.t0 = Some d ∧
    (live Desk.t0 = [] → d = INT64_MAX) ∧
    (live Desk.t0 ≠ [] → (∃ x, x ∈ live Desk.t0 ∧ exp_ms x = d) ∧ ∀ y, y ∈ live Desk.t0 → d ≤ exp_ms y).
Proof. apply (timers_next_deadline_least Desk.t0). exact Desk.t0_wf. Defined.

(** C39. With one-shot timers whose functions leave the heap alone,
    [ray_timers_fire_expired] ends after at most [n] fires, whatever the clock
    reads: the fired timers come in order of (deadline, id), each is called
    with a clock reading at or after its deadline, they and the ones left are
    the timers that were live, and every one left is due after the last
    reading. *)
Theorem timers_fire_in_order (c : nat → Z) t :
  timers_wf t → Forall (λ x, num x = 1) (live t) →
  ∃ t' fired,
    ray_timers_fire_expired (log_clock c) log_call (Z.to_nat (n t)) t [] =
      Some (t', imap (λ k x, (fn x, c k)) fired, true) ∧
    timers_wf t' ∧ live t ≡ₚ fired ++ live t' ∧ StronglySorted tle fired ∧
    (∀ x, x ∈ live t' → c (length fired) < exp_ms x) ∧
    ∀ k x, fired !! k = Some x → exp_ms x ≤ c k.
Proof.
  intros Hwf Hone. pose proof (wf_n _ Hwf). unfold ray_timers_fire_expired.
  destruct (Z.eqb_spec (n t) 0) as [E|E].
  - assert (El : live t = []) by (unfold live; by rewrite E).
    exists t, []. split_and!; [done..|constructor| |done]. rewrite El. set_solver.
  - destruct (fire_oneshots c (Z.to_nat (n t)) t []) as (t' & fired & Hrun & Hrest); [done..|lia|].
    exists t', fired. split; [exact Hrun|exact Hrest].
Qed.

Lemma timers_fire_in_order_witness :
  ∃ t' fired,
    ray_timers_fire_expired (log_clock (λ k, 106)) log_call 3 Desk.t0 [] =
      Some (t', imap (λ k x, (fn x, 106)) fired, true) ∧
    timers_wf t' ∧ live Desk.t0 ≡ₚ fired ++ live t' ∧ StronglySorted tle fired ∧
    (∀ x, x ∈ live t' → 106 < exp_ms x) ∧
    ∀ k x, fired !! k = Some x → exp_ms x ≤ 106.
Proof.
  apply (timers_fire_in_order (λ _, 106) Desk.t0); [exact Desk.t0_wf|repeat constructor].
Defined.

(** Re-pushing a fired repeating timer does not test the capacity: if the
    heap was full and its callback adds one timer, the write is out of bounds,
    whatever the timers are. *)
Theorem timers_repush_out_of_bounds `{Heap} junk now t x tic num' f :
  timers_wf t → n t = cap t → (heap t).[0] = Some x → num x = 0 →
  alloc_ok 40 = true → INT64_MIN ≤ now + tic ≤ INT64_MAX →
  fire_one (λ _ now t w, res ← ray_timers_add junk now t tic num' (Some f); Some (res.1, w)) now t tt = None.
Proof.
  intros Hwf Hfull Hx Hnum H40 Hexp. pose proof (wf_cap _ Hwf).
  destruct (pop_timer_ok t) as (x' & t1 & Hpop & Hx' & Hwf1 & _ & Hc1 & _ & Hn1 & _); [done|lia|].
  simplify_eq. unfold fire_one. rewrite Hpop. cbn. unfold ray_timers_add.
  rewrite (proj2 (Z.leb_gt _ _)) by lia. rewrite H40. simpl negb. cbv iota.
  unfold add_i64 at 1. rewrite !(proj2 (Z.leb_le _ _)) by lia. cbn.
  destruct (push_timer_ok (Timers (heap t1) (n t1) (next_id t1 + 1))
    (Timer (next_id t1) tic (now + tic) num' f)) as (t2 & Hp & _ & _ & Hc2 & _ & Hn2).
  - by apply timers_wf_next_id; [|lia].
  - change (n t1 < cap t1). lia.
  - pose proof (wf_next _ Hwf1). simpl. lia.
  - exact (timers_wf_fresh _ Hwf1).
  - rewrite Hp. cbn. unfold resched. rewrite Hnum. cbn. destruct (add_i64 (exp_ms x) (tic_ms x)); [|done].
    cbn. unfold push_timer, zset.
    assert (n t2 = zlen (heap t2)) as ->.
    { change (zlen (heap t2)) with (cap t2). rewrite Hc2, Hn2.
      change (n t1 + 1 = cap t1). lia. }
    rewrite Z.ltb_irrefl, andb_false_r. done.
Qed.

Lemma timers_repush_out_of_bounds_witness :
  fire_one (λ _ now t w, res ← @ray_timers_add Desk.plenty Desk.junk now t 5 1 (Some 9); Some (res.1, w))
    100 (Timers [Timer 0 10 100 0 7] 1 1) tt = None.
Proof.
  apply (@timers_repush_out_of_bounds Desk.plenty Desk.junk 100 (Timers [Timer 0 10 100 0 7] 1 1)
    (Timer 0 10 100 0 7)); try done.
  constructor; unfold cap, zlen; simpl; try lia.
  - intros j Hj. lia.
  - constructor; [set_solver|constructor].
  - repeat constructor; simpl; lia.
Defined.

(** A repeating timer cannot be cancelled from its own callback: while the
    callback runs the timer is out of the heap, so [ray_timers_del] does not
    find it, and afterwards it is pushed back with the next deadline. *)
Theorem timers_self_cancel_lost now t x :
  timers_wf t → 0 < n t → (heap t).[0] = Some x → num x = 0 →
  INT64_MIN ≤ exp_ms x + tic_ms x ≤ INT64_MAX →
  ∃ t', fire_one (λ _ _ t w, res ← ray_timers_del t (id x); Some (res.1, w ++ [res.2])) now t [] =
          Some (t', [false]) ∧
        timers_wf t' ∧
        ∃ rest, live t ≡ₚ x :: rest ∧
          live t' ≡ₚ Timer (id x) (tic_ms x) (exp_ms x + tic_ms x) 0 (fn x) :: rest.
Proof.
  intros Hwf Hn Hx Hnum Hexp.
  destruct (pop_timer_ok t) as (x' & t1 & Hpop & Hx' & Hwf1 & Hp & Hc1 & Hid1 & Hn1 & _); [done..|].
  simplify_eq. unfold fire_one. rewrite Hpop. cbn.
  assert (Hout : id x ∉ map id (live t1)).
  { pose proof (wf_nodup _ Hwf) as Hnd. rewrite <- Hp in Hnd. simpl in Hnd. by inversion_clear Hnd. }
  pose proof (wf_n _ Hwf) as Hnc. pose proof (wf_n _ Hwf1) as Hnc1. unfold ray_timers_del.
  destruct (find_id_ok (Z.to_nat (n t1)) (heap t1) (n t1) (id x) 0) as ([i|] & -> & Hr);
    [unfold cap in *; lia..| |].
  - destruct Hr as (Hi & y & Hy & E). exfalso. apply Hout. rewrite <- E. apply list_elem_of_fmap_2.
    apply (zget_elem _ i). unfold live. by rewrite zget_take by lia.
  - cbn. unfold resched. rewrite Hnum. unfold add_i64. rewrite !(proj2 (Z.leb_le _ _)) by lia. cbn.
    assert (Hidx : 0 ≤ id x < next_id t1).
    { rewrite Hid1. pose proof (wf_ids _ Hwf) as Hids. rewrite <- Hp in Hids. by inversion_clear Hids. }
    destruct (push_timer_ok t1 (Timer (id x) (tic_ms x) (exp_ms x + tic_ms x) 0 (fn x)))
      as (t2 & -> & Hwf2 & Hl2 & _); [done|lia|done|done|]. cbn.
    exists t2. split; [done|]. split; [done|]. exists (live t1). by rewrite Hp.
Qed.

Lemma timers_self_cancel_lost_witness :
  let t := Timers [Timer 0 10 100 0 7] 1 1 in
  ∃ t', fire_one (λ _ _ t w, res ← ray_timers_del t 0; Some (res.1, w ++ [res.2])) 100 t [] =
          Some (t', [false]) ∧
        timers_wf t' ∧
        ∃ rest, live t ≡ₚ Timer 0 10 100 0 7 :: rest ∧ live t' ≡ₚ Timer 0 10 (100 + 10) 0 7 :: rest.
Proof.
  apply (timers_self_cancel_lost 100 (Timers [Timer 0 10 100 0 7] 1 1) (Timer 0 10 100 0 7));
    try done.
  constructor; unfold cap, zlen; simpl; try lia.
  - intros j Hj. lia.
  - constructor; [set_solver|constructor].
  - repeat constructor; simpl; lia.
Defined.
