(* ===== verification/Csr.v ===== *)
(** * Edge indexes ([src/src/store/csr.c], [csr.h])

    A relation is kept as two compressed-sparse-row indexes, by source and by
    target. They are built from an edge list by a counting pass, a prefix sum
    and a scatter, optionally sorted per adjacency list, saved as three column
    files each and validated when loaded back. Columns on disk and the C
    library's [qsort] are interfaces. *)

From stdpp Require Import strings.
From S2P Require Import Prelude.
Local Open Scope Z_scope.

Definition RAY_I64 : Z := 5.

(** An [int64_t] vector: [ray->len] and the data area seen as 64-bit words. For
    a vector of a narrower type the words are fewer than [vlen]. *)
Record ivec := Ivec { vlen : Z; words : list Z }.

(** [ray_csr_t]; a null pointer is [None]. *)
Record ray_csr := Csr {
  offsets : option ivec; targets : option ivec; rowmap : option ivec; props : option Z;
  n_nodes : Z; n_edges : Z; sorted : bool
}.

(** [ray_rel_t] *)
Record ray_rel := Rel {
  from_table : Z; to_table : Z; name_sym : Z; fwd : ray_csr; rev : ray_csr
}.

(** ** Neighbour lookup *)

(** The degree, 0 for a node outside the index. *)
Definition ray_csr_degree (csr : ray_csr) (node : Z) : option Z :=
  match offsets csr with
  | Some o =>
      if (node <? 0) || (n_nodes csr <=? node) then Some 0 else
      b ← (words o).[node + 1];
      a ← (words o).[node];
      Some (b - a)
  | None => Some 0
  end.

(** [ray_csr_neighbors]: the position in [targets] the returned pointer has,
    and the count; [None] inside is a null pointer. *)
Definition ray_csr_neighbors (csr : ray_csr) (node : Z) : option (option Z * Z) :=
  match offsets csr, targets csr with
  | Some o, Some t =>
      if (node <? 0) || (n_nodes csr <=? node) then Some (None, 0) else
      b ← (words o).[node + 1];
      a ← (words o).[node];
      Some (Some a, b - a)
  | _, _ => Some (None, 0)
  end.

Definition rel_csr (rel : ray_rel) (direction : Z) : ray_csr :=
  if direction =? 1 then rev rel else fwd rel.
Definition ray_rel_neighbors (rel : ray_rel) (node direction : Z) : option (option Z * Z) :=
  ray_csr_neighbors (rel_csr rel direction) node.
Definition ray_rel_n_nodes (rel : ray_rel) (direction : Z) : Z := n_nodes (rel_csr rel direction).

(** ** Construction *)
Record edge_pair := Edge { src : Z; dst : Z; row : Z }.

Definition cmp_edge_by_src (ea eb : edge_pair) : Z :=
  if src ea <? src eb then -1 else
  if src eb <? src ea then 1 else
  if dst ea <? dst eb then -1 else
  if dst eb <? dst ea then 1 else
  if row ea <? row eb then -1 else
  if row eb <? row ea then 1 else 0.

Definition cmp_edge_by_dst (ea eb : edge_pair) : Z :=
  if dst ea <? dst eb then -1 else
  if dst eb <? dst ea then 1 else
  if src ea <? src eb then -1 else
  if src eb <? src ea then 1 else
  if row ea <? row eb then -1 else
  if row eb <? row ea then 1 else 0.

(** The inner loop of the insertion sort: shifts the entries above [key] one
    place to the right and gives the final [j]. [j + 1 - start] turns suffice. *)
Fixpoint shift_loop (fuel : nat) (start key : Z) (t : list Z) (rm : option (list Z)) (j : Z) :
    option (list Z * option (list Z) * Z) :=
  if start <=? j then
    x ← t.[j];
    if key <? x then
      match fuel with
      | O => None
      | S fuel =>
          t ← zset t (j + 1) x;
          rm ← match rm with
               | Some r => y ← r.[j]; r ← zset r (j + 1) y; Some (Some r)
               | None => Some None
               end;
          shift_loop fuel start key t rm (j - 1)
      end
    else Some (t, rm, j)
  else Some (t, rm, j).

(** One turn of the loop over [i]: takes [targets[i]] to its place. *)
Definition insert_at (start i : Z) (st : list Z * option (list Z)) : option (list Z * option (list Z)) :=
  let '(t, rm) := st in
  key ← t.[i];
  row_key ← match rm with Some r => r.[i] | None => Some 0 end;
  res ← shift_loop (Z.to_nat (i - start)) start key t rm (i - 1);
  let '(t, rm, j) := res in
  t ← zset t (j + 1) key;
  rm ← match rm with Some r => r ← zset r (j + 1) row_key; Some (Some r) | None => Some None end;
  Some (t, rm).

Definition sort_node (off : list Z) (node : Z) (st : list Z * option (list Z)) :
    option (list Z * option (list Z)) :=
  start ← off.[node];
  end_ ← off.[node + 1];
  let deg := end_ - start in
  if deg <=? 1 then Some st else foldM (insert_at start) (range (start + 1) end_) st.

(** [csr_sort_adjacency_lists], on the arrays it rearranges. *)
Definition csr_sort_adjacency_lists (n_nodes : Z) (off t : list Z) (rm : option (list Z)) :
    option (list Z * option (list Z)) :=
  foldM (sort_node off) (range 0 n_nodes) (t, rm).

Definition key_of (is_reverse : bool) (e : edge_pair) : Z := if is_reverse then dst e else src e.
Definition val_of (is_reverse : bool) (e : edge_pair) : Z := if is_reverse then src e else dst e.
Definition valid_key (n_nodes k : Z) : bool := (0 <=? k) && (k <? n_nodes).

(** [off[key + 1]++] for the valid keys. *)
Definition count_degree (is_reverse : bool) (n_nodes : Z) (e : edge_pair) (off : list Z) : option (list Z) :=
  let key := key_of is_reverse e in
  if valid_key n_nodes key then x ← off.[key + 1]; zset off (key + 1) (x + 1) else Some off.

(** [off[i] += off[i - 1]] *)
Definition prefix_step (i : Z) (off : list Z) : option (list Z) :=
  x ← off.[i];
  y ← off.[i - 1];
  zset off i (x + y).

(** [p = pos[key]++; tgt[p] = val; rmap[p] = row] *)
Definition scatter (is_reverse : bool) (n_nodes : Z) (e : edge_pair) (st : list Z * list Z * list Z) :
    option (list Z * list Z * list Z) :=
  let '(pos, tgt, rmap) := st in
  let key := key_of is_reverse e in
  if valid_key n_nodes key then
    p ← pos.[key];
    pos ← zset pos key (p + 1);
    tgt ← zset tgt p (val_of is_reverse e);
    rmap ← zset rmap p (row e);
    Some (pos, tgt, rmap)
  else Some st.

Section build.
Context `{Heap}.

(** [csr_build_from_pairs]: [None] inside is [RAY_ERR_OOM]. *)
Definition csr_build_from_pairs (pairs : list edge_pair) (n_nodes : Z) (is_reverse sort_targets : bool) :
    option (option ray_csr) :=
  let valid_edges :=
    foldl (λ v e, if valid_key n_nodes (key_of is_reverse e) then v + 1 else v) 0 pairs in
  let room := if 0 <? valid_edges then valid_edges else 1 in
  match new_array 8 (n_nodes + 1), new_array 8 room, new_array 8 room with
  | Some _, Some tgt, Some rmap =>
      let off := replicate (Z.to_nat (n_nodes + 1)) 0 in
      off ← foldM (count_degree is_reverse n_nodes) pairs off;
      off ← foldM prefix_step (range 1 (n_nodes + 1)) off;
      match new_array 8 (if 0 <? n_nodes then n_nodes else 1) with
      | None => Some None
      | Some junk =>
          let pos := take (Z.to_nat n_nodes) off ++ drop (Z.to_nat n_nodes) junk in
          res ← foldM (scatter is_reverse n_nodes) pairs (pos, tgt, rmap);
          let '(_, tgt, rmap) := res in
          res ← (if sort_targets then csr_sort_adjacency_lists n_nodes off tgt (Some rmap)
                 else Some (tgt, Some rmap));
          let '(tgt, rm) := res in
          Some (Some (Csr (Some (Ivec (n_nodes + 1) off)) (Some (Ivec valid_edges tgt))
                          (match rm with Some r => Some (Ivec valid_edges r) | None => None end)
                          None n_nodes valid_edges sort_targets))
      end
  | _, _, _ => Some None
  end.
End build.

(** [qsort] on edge pairs. *)
Class Qsort := qsort : (edge_pair → edge_pair → Z) → list edge_pair → list edge_pair.

(** What the C standard promises of it: for a comparator that is a total
    preorder, a sorted rearrangement. *)
Class QsortSpec `{Qsort} : Prop := {
  qsort_perm cmp l : qsort cmp l ≡ₚ l;
  qsort_sorted cmp l :
    (∀ a b, cmp a b ≤ 0 ∨ cmp b a ≤ 0) → (∀ a b c, cmp a b ≤ 0 → cmp b c ≤ 0 → cmp a c ≤ 0) →
    StronglySorted (λ a b, cmp a b ≤ 0) (qsort cmp l)
}.

Section rels.
Context `{Heap} `{Qsort}.

(** The edge list the builders sort: [pairs[i] = {src[i], dst[i], i}]. *)
Definition edge_pairs (srcs dsts : list Z) : list edge_pair :=
  imap (λ i p, Edge p.1 p.2 (Z.of_nat i)) (zip srcs dsts).

(** The part the two builders share, from [ray_alloc] of the pairs on; the
    result [None] inside is [NULL]. *)
Definition build_rel (pairs : list edge_pair) (n_src_nodes n_dst_nodes : Z) (sort_targets : bool) :
    option (option ray_rel) :=
  if negb (alloc_ok (24 * zlen pairs)) then Some None else
  if negb (alloc_ok 128) then Some None else
  let pairs := qsort cmp_edge_by_src pairs in
  f ← csr_build_from_pairs pairs n_src_nodes false sort_targets;
  match f with
  | None => Some None
  | Some f =>
      let pairs := qsort cmp_edge_by_dst pairs in
      r ← csr_build_from_pairs pairs n_dst_nodes true sort_targets;
      match r with
      | None => Some None
      | Some r => Some (Some (Rel 0 0 (-1) f r))
      end
  end.

(** [ray_rel_from_edges], from the columns [ray_table_get_col] finds: type tag
    and data, [None] when there is none. *)
Definition ray_rel_from_edges (src_vec dst_vec : option (Z * list Z)) (n_src_nodes n_dst_nodes : Z)
    (sort_targets : bool) : option (option ray_rel) :=
  match src_vec, dst_vec with
  | Some (ts, srcs), Some (td, dsts) =>
      if negb (ts =? RAY_I64) || negb (td =? RAY_I64) then Some None else
      if negb (zlen srcs =? zlen dsts) then Some None else
      if (n_src_nodes <? 0) || (n_dst_nodes <? 0) then Some None else
      build_rel (edge_pairs srcs dsts) n_src_nodes n_dst_nodes sort_targets
  | _, _ => Some None
  end.

(** [ray_rel_build] from the foreign-key column of a table of [nrows] rows: row
    [i] points to [fk[i]]. *)
Definition ray_rel_build (fk_vec : option (Z * list Z)) (nrows n_target_nodes : Z)
    (sort_targets : bool) : option (option ray_rel) :=
  match fk_vec with
  | Some (tf, fk) =>
      if negb (tf =? RAY_I64) then Some None else
      if n_target_nodes <? 0 then Some None else
      build_rel (edge_pairs (range 0 (zlen fk)) fk) nrows n_target_nodes sort_targets
  | None => Some None
  end.
End rels.

(** ** Attaching properties *)
Definition ray_rel_set_props (rel : ray_rel) (p : option Z) : ray_rel :=
  match p with
  | None => rel
  | Some _ =>
      let set c := Csr (offsets c) (targets c) (rowmap c) p (n_nodes c) (n_edges c) (sorted c) in
      Rel (from_table rel) (to_table rel) (name_sym rel) (set (fwd rel)) (set (rev rel))
  end.

(** ** Persistence *)

(** The column files, as [ray_col_save] and [ray_col_load]/[ray_col_mmap] show
    them: saving may fail, a loaded vector is what was saved last. *)
Class ColFiles := {
  files : Type;
  col_save : ivec → string → files → option files;
  col_load : string → files → option ivec
}.
Class ColFilesSpec `{ColFiles} : Prop := {
  col_load_save v p f f' : col_save v p f = Some f' → col_load p f' = Some v;
  col_load_other v p q f f' : col_save v p f = Some f' → p ≠ q → col_load q f' = col_load q f
}.

(** [snprintf] into [char path[1024]]: refused when it does not fit. *)
Definition path_fits (p : string) : bool := Z.of_nat (String.length p) <? 1024.
Definition csr_path (dir prefix leaf : string) : string := dir +:+ "/" +:+ prefix +:+ leaf.

Section persist.
Context `{ColFiles} `{Heap}.

(** One column of [csr_save]; a null vector is [NULL] to [ray_col_save], which
    refuses it. *)
Definition save_col (v : option ivec) (p : string) (f : files) : option files :=
  if path_fits p then v ← v; col_save v p f else None.

(** [csr_save]; [None] is any error code. *)
Definition csr_save (csr : ray_csr) (dir prefix : string) (f : files) : option files :=
  f ← save_col (offsets csr) (csr_path dir prefix "_offsets") f;
  f ← save_col (targets csr) (csr_path dir prefix "_targets") f;
  match rowmap csr with
  | Some r => save_col (Some r) (csr_path dir prefix "_rowmap") f
  | None => Some f
  end.

(** The validation loop: [None] is undefined behaviour, [Some false] corrupt. *)
Fixpoint offsets_monotone (fuel : nat) (off : list Z) (n_nodes i : Z) : option bool :=
  if i <? n_nodes then
    match fuel with
    | O => None
    | S fuel =>
        a ← off.[i];
        if a <? 0 then Some false else
        b ← off.[i + 1];
        if b <? a then Some false else offsets_monotone fuel off n_nodes (i + 1)
    end
  else Some true.

(** [csr_load_impl]: outer [None] undefined behaviour, inner [None] [RAY_ERR_IO]. *)
Definition csr_load_impl (dir prefix : string) (f : files) : option (option ray_csr) :=
  let po := csr_path dir prefix "_offsets" in
  let pt := csr_path dir prefix "_targets" in
  let pr := csr_path dir prefix "_rowmap" in
  if negb (path_fits po) then Some None else
  match col_load po f with
  | None => Some None
  | Some o =>
  if negb (path_fits pt) then Some None else
  match col_load pt f with
  | None => Some None
  | Some t =>
  if negb (path_fits pr) then Some None else
  let rm := col_load pr f in
  if vlen o <? 1 then Some None else
  let n := vlen o - 1 in
  let m := vlen t in
  last ← (words o).[n];
  if negb (last =? m) then Some None else
  ok ← offsets_monotone (Z.to_nat n) (words o) n 0;
  if negb ok then Some None else
  Some (Some (Csr (Some o) (Some t) rm None n m false))
  end end.

(** The metadata vector. *)
Definition meta_data (rel : ray_rel) : ivec :=
  Ivec 5 [from_table rel; to_table rel; name_sym rel;
          (if sorted (fwd rel) then 1 else 0); (if sorted (rev rel) then 1 else 0)].

(** [ray_rel_save]; [mkdir_ok]: the directory exists or was made. *)
Definition ray_rel_save (mkdir_ok : bool) (rel : ray_rel) (dir : string) (f : files) : option files :=
  if negb mkdir_ok then None else
  f ← csr_save (fwd rel) dir "fwd" f;
  f ← csr_save (rev rel) dir "rev" f;
  let p := dir +:+ "/meta" in
  if negb (path_fits p) then None else
  if negb (alloc_ok 40) then None else
  col_save (meta_data rel) p f.

Definition set_sorted (c : ray_csr) (b : bool) : ray_csr :=
  Csr (offsets c) (targets c) (rowmap c) (props c) (n_nodes c) (n_edges c) b.

(** [rel_load_impl], shared by [ray_rel_load] and [ray_rel_mmap]. *)
Definition rel_load_impl (dir : string) (f : files) : option (option ray_rel) :=
  if negb (alloc_ok 128) then Some None else
  fw ← csr_load_impl dir "fwd" f;
  match fw with
  | None => Some None
  | Some fw =>
  rv ← csr_load_impl dir "rev" f;
  match rv with
  | None => Some None
  | Some rv =>
  let p := dir +:+ "/meta" in
  match (if path_fits p then col_load p f else None) with
  | Some md =>
      if 5 <=? vlen md then
        m0 ← (words md).[0];
        m1 ← (words md).[1];
        m2 ← (words md).[2];
        m3 ← (words md).[3];
        m4 ← (words md).[4];
        Some (Some (Rel (u16 m0) (u16 m1) m2 (set_sorted fw (negb (m3 =? 0)))
                        (set_sorted rv (negb (m4 =? 0)))))
      else Some (Some (Rel 0 0 0 fw rv))
  | None => Some (Some (Rel 0 0 0 fw rv))
  end end end.
End persist.
