(* ===== verification/CsrProofs.v ===== *)
(** * Lemmas on edge indexes

    The insertion sort of an adjacency list, the counting pass and the scatter
    of the builder, and what [csr_build_from_pairs] establishes. *)

From stdpp Require Import strings sorting.
From S2P Require Import Prelude Csr.
Local Open Scope Z_scope.
#[local] Arguments zget : simpl never.


(** ** The insertion sort *)

(** Two parallel arrays hold the components of [l] from [k] on. *)
Definition holds2 (t r : list Z) (k : Z) (l : list (Z * Z)) : Prop :=
  holds t k (map fst l) ∧ holds r k (map snd l).
Definition agree2 (t r t' r' : list Z) (k n : Z) : Prop := agree_off t t' k n ∧ agree_off r r' k n.

Lemma holds2_zset t r k l i v w t' r' :
  holds2 t r k l → zset t i v = Some t' → zset r i w = Some r' → i < k ∨ k + zlen l ≤ i →
  holds2 t' r' k l.
Proof.
  intros [H1 H2] Ht Hr Hd.
  split; (eapply holds_zset; [done..|]); by rewrite zlen_map.
Qed.
Lemma holds2_app_inv t r k l1 l2 :
  holds2 t r k (l1 ++ l2) → holds2 t r k l1 ∧ holds2 t r (k + zlen l1) l2.
Proof.
  intros [H1 H2]. rewrite map_app in H1, H2. apply holds_app_inv in H1 as [? ?], H2 as [? ?].
  rewrite zlen_map in *. done.
Qed.
Lemma holds2_app t r k l1 l2 :
  holds2 t r k l1 → holds2 t r (k + zlen l1) l2 → holds2 t r k (l1 ++ l2).
Proof.
  intros [H1 H2] [H3 H4]. unfold holds2. rewrite !map_app.
  split; apply holds_app; rewrite ?zlen_map; done.
Qed.
Lemma holds2_single t r k x : holds2 t r k [x] ↔ t.[k] = Some x.1 ∧ r.[k] = Some x.2.
Proof. unfold holds2. simpl. by rewrite <- !holds_single. Qed.
Lemma agree2_trans t r t1 r1 t2 r2 k n :
  agree2 t r t1 r1 k n → agree2 t1 r1 t2 r2 k n → agree2 t r t2 r2 k n.
Proof. intros [? ?] [? ?]. split; by eapply agree_off_trans. Qed.
Lemma agree2_zset t r i v w t' r' k n :
  zset t i v = Some t' → zset r i w = Some r' → k ≤ i < k + n → agree2 t r t' r' k n.
Proof.
  intros Ht Hr Hi. split; (eapply agree_off_mono; [by eapply agree_off_zset|lia..]).
Qed.

Definition le1 (x y : Z * Z) : Prop := x.1 ≤ y.1.

Lemma shift_loop_ok start key l1 : ∀ fuel t r j l2,
  zlen l1 = j + 1 - start → zlen l1 ≤ Z.of_nat fuel → 0 ≤ start →
  holds2 t r start l1 → holds2 t r (j + 2) l2 → j + 2 ≤ zlen t → j + 2 ≤ zlen r →
  ∃ t' r' j' m1 m2,
    shift_loop fuel start key t (Some r) j = Some (t', Some r', j') ∧
    l1 = m1 ++ m2 ∧ zlen m1 = j' + 1 - start ∧ Forall (λ x, key < x.1) m2 ∧
    (∀ x, list.last m1 = Some x → x.1 ≤ key) ∧
    holds2 t' r' start m1 ∧ holds2 t' r' (j' + 2) (m2 ++ l2) ∧
    agree2 t r t' r' start (j + 2 - start).
Proof.
  induction l1 as [|x l1 IH] using rev_ind; intros fuel t r j l2 Hl Hf Hs H1 H2 Ht Hr.
  { exists t, r, j, [], []. unfold zlen in Hl. simpl in Hl.
    assert (shift_loop fuel start key t (Some r) j = Some (t, Some r, j)) as E
      by (destruct fuel; cbn; zbool; done || lia).
    split_and!; done || lia. }
  rewrite zlen_app in Hl, Hf. change (zlen [x]) with 1 in Hl, Hf. pose proof (zlen_nonneg l1).
  destruct fuel as [|fuel]; [lia|]. cbn [shift_loop]. rewrite (proj2 (Z.leb_le _ _)) by lia.
  apply holds2_app_inv in H1 as [H1 Hx].
  replace (start + zlen l1) with j in Hx by lia. pose proof (proj1 (holds2_single _ _ _ _) Hx) as [Hx1 Hx2].
  rewrite Hx1. cbn. destruct (Z.ltb_spec key x.1) as [Hlt|Hge].
  - destruct (zset_total t (j + 1) x.1) as [t1 Ht1]; [lia|].
    destruct (zset_total r (j + 1) x.2) as [r1 Hr1]; [lia|].
    rewrite Ht1. cbn. rewrite Hx2. cbn. rewrite Hr1. cbn.
    pose proof (zlen_zset _ _ _ _ Ht1). pose proof (zlen_zset _ _ _ _ Hr1).
    destruct (IH fuel t1 r1 (j - 1) (x :: l2)) as (t' & r' & j' & m1 & m2 & Hrun & Hm & Hml & Hgt & Hle & G1 & G2 & G3);
      [lia|lia|done|eapply holds2_zset; [done..|lia]| |lia|lia|].
    + replace (j - 1 + 2) with (j + 1) by lia. apply (holds2_app _ _ _ [x]).
      * apply holds2_single. split; by eapply zget_zset_eq.
      * change (zlen [x]) with 1. replace (j + 1 + 1) with (j + 2) by lia.
        eapply holds2_zset; [done..|lia].
    + exists t', r', j', m1, (m2 ++ [x]).
      split_and!; [done|by rewrite app_assoc, <- Hm|done|by apply Forall_app_2; [|constructor]|done|done| |].
      * by rewrite <- app_assoc.
      * eapply agree2_trans; [apply (agree2_zset _ _ _ _ _ _ _ _ _ Ht1 Hr1); lia|].
        destruct G3. split; (eapply agree_off_mono; [done|lia..]).
  - exists t, r, j, (l1 ++ [x]), [].
    split_and!; [done|by rewrite app_nil_r|rewrite zlen_app; change (zlen [x]) with 1; lia|done| | |done|done].
    + intros y. rewrite last_snoc. naive_solver.
    + apply holds2_app; [done|]. by replace (start + zlen l1) with j by lia.
Qed.

(** Inserting keeps a sorted list sorted. *)
Lemma insert_sorted m1 m2 (x : Z * Z) :
  StronglySorted le1 (m1 ++ m2) → Forall (λ y, x.1 < y.1) m2 →
  (∀ y, list.last m1 = Some y → y.1 ≤ x.1) → StronglySorted le1 (m1 ++ x :: m2).
Proof.
  induction m1 as [|y m1 IH]; simpl; intros Hs Hgt Hle.
  - constructor; [done|]. eapply Forall_impl; [done|]. unfold le1. intros z. simpl. lia.
  - inversion_clear Hs as [|? ? Hs' Hy]. apply Forall_app in Hy as [Hy1 Hy2].
    assert (Hyx : y.1 ≤ x.1).
    { destruct m1 as [|z m1] using rev_ind; [by apply Hle|].
      rewrite app_comm_cons, last_snoc in Hle. specialize (Hle z eq_refl).
      apply Forall_app in Hy1 as [_ Hz]. inversion_clear Hz. unfold le1 in *. lia. }
    constructor.
    + apply IH; [done..|]. intros z Hz. apply Hle. destruct m1; [done|exact Hz].
    + apply Forall_app_2; [done|]. by constructor.
Qed.

(** An adjacency list already in order stays as it is. *)
Lemma insert_last_noop (l m1 m2 : list (Z * Z)) (x : Z * Z) :
  l = m1 ++ m2 → Forall (λ y, y.1 ≤ x.1) l → Forall (λ y, x.1 < y.1) m2 → m2 = [].
Proof.
  intros -> [_ H]%Forall_app Hgt. destruct m2 as [|y m2]; [done|].
  inversion_clear H. inversion_clear Hgt. lia.
Qed.

Lemma insert_at_ok start l x t r :
  0 ≤ start → holds2 t r start (l ++ [x]) → StronglySorted le1 l →
  ∃ t' r' l', insert_at start (start + zlen l) (t, Some r) = Some (t', Some r') ∧
    holds2 t' r' start l' ∧ StronglySorted le1 l' ∧ l' ≡ₚ l ++ [x] ∧
    (StronglySorted le1 (l ++ [x]) → l' = l ++ [x]) ∧
    agree2 t r t' r' start (zlen l + 1).
Proof.
  intros Hs Hh Hl. pose proof (zlen_nonneg l).
  assert (Hb : start + zlen l + 1 ≤ zlen t ∧ start + zlen l + 1 ≤ zlen r).
  { destruct Hh as [Ht Hr].
    apply holds_bound in Ht, Hr; [|by destruct l..]. autorewrite with zlen in Ht, Hr.
    change (zlen (@nil (Z * Z))) with 0 in *. lia. }
  apply holds2_app_inv in Hh as [H1 Hx]. pose proof (proj1 (holds2_single _ _ _ _) Hx) as [Hx1 Hx2].
  unfold insert_at. rewrite Hx1. cbn. rewrite Hx2. cbn.
  destruct (shift_loop_ok start x.1 l (Z.to_nat (start + zlen l - start)) t r (start + zlen l - 1) [])
    as (t1 & r1 & j' & m1 & m2 & Hrun & Hm & Hml & Hgt & Hle & G1 & G2 & G3);
    [lia|lia|done|done|split; apply holds_nil|lia|lia|].
  rewrite Hrun. cbn. rewrite app_nil_r in G2.
  pose proof (zlen_nonneg m1). pose proof (zlen_nonneg m2).
  assert (zlen l = zlen m1 + zlen m2) by (by rewrite Hm, zlen_app).
  assert (El : zlen t1 = zlen t ∧ zlen r1 = zlen r) by (destruct G3 as [[? _] [? _]]; done).
  destruct (zset_total t1 (j' + 1) x.1) as [t2 Ht2]; [lia|].
  destruct (zset_total r1 (j' + 1) x.2) as [r2 Hr2]; [lia|].
  rewrite Ht2. cbn. rewrite Hr2. cbn. exists t2, r2, (m1 ++ x :: m2). split; [done|]. split_and!.
  - apply holds2_app; [eapply holds2_zset; [done..|lia]|]. replace (start + zlen m1) with (j' + 1) by lia.
    apply (holds2_app _ _ _ [x]); [apply holds2_single; split; by eapply zget_zset_eq|].
    change (zlen [x]) with 1. replace (j' + 1 + 1) with (j' + 2) by lia. eapply holds2_zset; [done..|lia].
  - apply insert_sorted; [by rewrite <- Hm|done..].
  - rewrite Hm, <- app_assoc. by rewrite Permutation_app_comm with (l := m2).
  - intros (Hall & _ & _)%StronglySorted_app.
    assert (m2 = []) as ->; [|by rewrite Hm, app_nil_r].
    apply (insert_last_noop l m1 m2 x Hm); [|done].
    apply Forall_forall. intros y Hy. apply Hall; [done|set_solver].
  - eapply agree2_trans; [|apply (agree2_zset _ _ _ _ _ _ _ _ _ Ht2 Hr2); lia].
    by replace (zlen l + 1) with (start + zlen l - 1 + 2 - start) by lia.
Qed.

Lemma sort_seg_ok start l t r :
  0 ≤ start → holds2 t r start l → l ≠ [] →
  ∃ t' r' l', foldM (insert_at start) (range (start + 1) (start + zlen l)) (t, Some r) = Some (t', Some r') ∧
    holds2 t' r' start l' ∧ StronglySorted le1 l' ∧ l' ≡ₚ l ∧ (StronglySorted le1 l → l' = l) ∧
    agree2 t r t' r' start (zlen l).
Proof.
  intros Hs Hh Hne.
  set (P := λ i (st : list Z * option (list Z)), ∃ t' r' l1 l2 l1',
    st = (t', Some r') ∧ l = l1 ++ l2 ∧ zlen l1 = i - start ∧ l1' ≡ₚ l1 ∧ StronglySorted le1 l1' ∧
    (StronglySorted le1 l → l1' = l1) ∧
    holds2 t' r' start (l1' ++ l2) ∧ agree2 t r t' r' start (zlen l)).
  assert (H1 : 1 ≤ zlen l) by (destruct l; [done|rewrite zlen_cons; pose proof (zlen_nonneg l); lia]).
  destruct (foldM_range (insert_at start) P (start + 1) (start + zlen l) (t, Some r)) as (st & Hrun & HP).
  - lia.
  - destruct l as [|x l]; [done|]. exists t, r, [x], l, [x]. change (zlen [x]) with 1.
    split_and!; [done|done|lia|done|repeat constructor|done|done|by split].
  - intros i st Hi (t' & r' & l1 & l2 & l1' & -> & Hl & Hl1 & Hp & Hs1 & Hsame & Hh1 & Hag).
    destruct l2 as [|x l2].
    { rewrite app_nil_r in Hl. subst. lia. }
    assert (El : zlen l1' = zlen l1) by (unfold zlen; by rewrite Hp).
    replace (l1' ++ x :: l2) with ((l1' ++ [x]) ++ l2) in Hh1 by (by rewrite <- app_assoc).
    apply holds2_app_inv in Hh1 as [Hh1 Hh2].
    destruct (insert_at_ok start l1' x t' r') as (t2 & r2 & l' & Hins & G1 & G2 & G3 & G4 & G5); [done..|].
    replace (start + zlen l1') with i in Hins by lia.
    assert (Ell : zlen l' = zlen l1 + 1).
    { unfold zlen in *. rewrite G3, length_app. simpl. lia. }
    exists (t2, Some r2). split; [done|]. exists t2, r2, (l1 ++ [x]), l2, l'.
    assert (Hlx : zlen l = zlen l1 + 1 + zlen l2) by (rewrite Hl, zlen_app, zlen_cons; lia).
    pose proof (zlen_nonneg l2).
    split_and!; [done|by rewrite <- app_assoc|rewrite zlen_app; change (zlen [x]) with 1; lia| |done| | |].
    + by rewrite G3, Hp.
    + intros Hsl. rewrite (Hsame Hsl) in *. apply G4. rewrite Hl in Hsl.
      apply (StronglySorted_app_1_l _ (l1 ++ [x]) l2). by rewrite <- app_assoc.
    + apply holds2_app; [done|]. rewrite Ell. destruct Hh2 as [K1 K2]. destruct G5 as [K3 K4].
      rewrite zlen_app, El in K1, K2. change (zlen [x]) with 1 in K1, K2.
      split; (eapply holds_agree; [done..|]); lia.
    + eapply agree2_trans; [done|]. destruct G5 as [K3 K4].
      split; (eapply agree_off_mono; [done|lia..]).
  - destruct HP as (t' & r' & l1 & l2 & l1' & -> & Hl & Hl1 & Hp & Hs1 & Hsame & Hh1 & Hag).
    assert (Hlx : zlen l = zlen l1 + zlen l2) by (rewrite Hl, zlen_app; lia).
    assert (l2 = []) as ->.
    { destruct l2; [done|]. rewrite zlen_cons in Hlx. pose proof (zlen_nonneg l2). lia. }
    rewrite app_nil_r in Hl, Hh1. subst l1. exists t', r', l1'. by split_and!.
Qed.

(** ** The layout of an index *)

(** Where the list of node [k] starts. *)
Definition psum (adj : Z → list (Z * Z)) (k : Z) : Z := zsum (map (λ i, zlen (adj i)) (range 0 k)).

Lemma psum_0 adj : psum adj 0 = 0.
Proof. done. Qed.
Lemma psum_S adj k : 0 ≤ k → psum adj (k + 1) = psum adj k + zlen (adj k).
Proof.
  intros Hk. unfold psum. rewrite range_snoc, map_app, zsum_app by lia. cbn. lia.
Qed.
Lemma psum_mono adj i j : 0 ≤ i ≤ j → psum adj i ≤ psum adj j.
Proof.
  intros Hij. replace j with (i + Z.of_nat (Z.to_nat (j - i))) by lia.
  induction (Z.to_nat (j - i)) as [|m IH]; [rewrite Z.add_0_r; lia|].
  replace (i + Z.of_nat (S m)) with (i + Z.of_nat m + 1) by lia.
  rewrite psum_S by lia. pose proof (zlen_nonneg (adj (i + Z.of_nat m))). lia.
Qed.
Lemma psum_nonneg adj k : 0 ≤ k → 0 ≤ psum adj k.
Proof. intros. rewrite <- (psum_0 adj). apply psum_mono. lia. Qed.
Lemma psum_ext adj adj' k : (∀ i, 0 ≤ i < k → zlen (adj i) = zlen (adj' i)) → psum adj k = psum adj' k.
Proof.
  intros H. unfold psum. f_equal. apply map_ext_in. intros i Hi. apply H.
  apply elem_of_range. by apply list_elem_of_In.
Qed.
(** The lists of two nodes do not overlap. *)
Lemma psum_disjoint adj i j : 0 ≤ i → 0 ≤ j → i ≠ j →
  psum adj i + zlen (adj i) ≤ psum adj j ∨ psum adj j + zlen (adj j) ≤ psum adj i.
Proof.
  intros Hi Hj Hne. rewrite <- !psum_S by done.
  destruct (Z.lt_ge_cases i j); [left|right]; apply psum_mono; lia.
Qed.

Definition chunks (N : Z) (adj : Z → list (Z * Z)) (t r : list Z) : Prop :=
  ∀ k, 0 ≤ k < N → holds2 t r (psum adj k) (adj k).
Definition offs (N : Z) (adj : Z → list (Z * Z)) (off : list Z) : Prop :=
  zlen off = N + 1 ∧ ∀ k, 0 ≤ k ≤ N → off.[k] = Some (psum adj k).

Lemma holds2_agree t r t' r' k l i n :
  holds2 t r k l → agree2 t r t' r' i n → (k + zlen l ≤ i ∨ i + n ≤ k) → holds2 t' r' k l.
Proof.
  intros [? ?] [? ?] ?. split; (eapply holds_agree; [done..|]); by rewrite zlen_map.
Qed.

Lemma csr_sort_ok N adj off t r :
  0 ≤ N → offs N adj off → chunks N adj t r →
  ∃ t' r' adj', csr_sort_adjacency_lists N off t (Some r) = Some (t', Some r') ∧
    chunks N adj' t' r' ∧ zlen t' = zlen t ∧ zlen r' = zlen r ∧
    (∀ k, adj' k ≡ₚ adj k) ∧
    ∀ k, 0 ≤ k < N → StronglySorted le1 (adj' k) ∧ (StronglySorted le1 (adj k) → adj' k = adj k).
Proof.
  intros HN [Hol Hoff] Hch. unfold csr_sort_adjacency_lists.
  set (P := λ i (st : list Z * option (list Z)), ∃ t' r' adj',
    st = (t', Some r') ∧ chunks N adj' t' r' ∧ zlen t' = zlen t ∧ zlen r' = zlen r ∧
    (∀ k, adj' k ≡ₚ adj k) ∧ (∀ k, i ≤ k → adj' k = adj k) ∧
    ∀ k, 0 ≤ k < i → StronglySorted le1 (adj' k) ∧ (StronglySorted le1 (adj k) → adj' k = adj k)).
  destruct (foldM_range (sort_node off) P 0 N (t, Some r)) as (st & Hrun & HP); [done| | |].
  - exists t, r, adj. split_and!; try done. lia.
  - intros i st Hi (t' & r' & adj' & -> & Hc & Ht & Hr & Hp & Hrest & Hdone).
    assert (Hps : ∀ k, psum adj' k = psum adj k).
    { intros k. apply psum_ext. intros j _. unfold zlen. by rewrite Hp. }
    unfold sort_node. rewrite !Hoff by lia. cbn. rewrite psum_S by lia.
    replace (psum adj i + zlen (adj i) - psum adj i) with (zlen (adj i)) by lia.
    destruct (Z.leb_spec (zlen (adj i)) 1) as [Hsmall|Hbig].
    + eexists. split; [done|]. exists t', r', adj'. split_and!; try done.
      { intros k Hk. apply Hrest. lia. }
      intros k Hk. destruct (decide (k = i)) as [->|]; [|apply Hdone; lia].
      rewrite Hrest by lia. split; [|done]. destruct (adj i) as [|x [|y l]]; [repeat constructor..|].
      rewrite !zlen_cons in Hsmall. pose proof (zlen_nonneg l). lia.
    + destruct (sort_seg_ok (psum adj i) (adj i) t' r') as (t2 & r2 & l' & Hs & G1 & G2 & G3 & G4 & G5).
      { apply psum_nonneg. lia. }
      { rewrite <- Hps, <- (Hrest i) by lia. by apply Hc. }
      { intros E. rewrite E in Hbig. unfold zlen in Hbig. simpl in Hbig. lia. }
      exists (t2, Some r2). split; [done|]. exists t2, r2, (λ k, if k =? i then l' else adj' k).
      assert (Ell : zlen l' = zlen (adj i)) by (unfold zlen; by rewrite G3).
      assert (Hpp : ∀ k, psum (λ k, if k =? i then l' else adj' k) k = psum adj k).
      { intros k. apply psum_ext. intros j _. destruct (Z.eqb_spec j i) as [->|]; [done|].
        unfold zlen. by rewrite Hp. }
      assert (Hl2 : zlen t2 = zlen t' ∧ zlen r2 = zlen r') by (destruct G5 as [[? _] [? _]]; done).
      split_and!; [done| |lia|lia| | |].
      * intros k Hk. rewrite Hpp. destruct (Z.eqb_spec k i) as [->|Hne]; [done|].
        eapply holds2_agree; [rewrite <- Hps; by apply Hc|done|].
        destruct (psum_disjoint adj k i) as [?|?]; [lia|lia|done| |lia].
        left. replace (zlen (adj' k)) with (zlen (adj k)) by (unfold zlen; by rewrite Hp). done.
      * intros k. destruct (Z.eqb_spec k i) as [->|]; done.
      * intros k Hk. destruct (Z.eqb_spec k i) as [->|]; [lia|]. apply Hrest. lia.
      * intros k Hk. destruct (Z.eqb_spec k i) as [->|]; [done|]. apply Hdone. lia.
  - destruct HP as (t' & r' & adj' & -> & Hc & Ht & Hr & Hp & Hrest & Hdone).
    by exists t', r', adj'.
Qed.

(** ** The builder *)

(** The list of node [k]: (neighbour, row) of the edges keyed on it. *)
Definition adj_of (rv : bool) (l : list edge_pair) (k : Z) : list (Z * Z) :=
  map (λ e, (val_of rv e, row e)) (List.filter (λ e, key_of rv e =? k) l).

Lemma adj_of_app rv l1 l2 k : adj_of rv (l1 ++ l2) k = adj_of rv l1 k ++ adj_of rv l2 k.
Proof. unfold adj_of. by rewrite List.filter_app, map_app. Qed.
Lemma adj_of_one rv e k :
  adj_of rv [e] k = if key_of rv e =? k then [(val_of rv e, row e)] else [].
Proof. unfold adj_of. simpl. by destruct (key_of rv e =? k). Qed.
Lemma zlen_adj_snoc rv l e k :
  zlen (adj_of rv (l ++ [e]) k) = zlen (adj_of rv l k) + (if key_of rv e =? k then 1 else 0).
Proof. rewrite adj_of_app, zlen_app, adj_of_one. by destruct (key_of rv e =? k). Qed.

Section builder.
Context (rv : bool) (N : Z) (HN : 0 ≤ N).
Implicit Types (l pre post : list edge_pair) (e : edge_pair).

Lemma valid_key_spec k : valid_key N k = true ↔ 0 ≤ k < N.
Proof. unfold valid_key. zbool; naive_solver lia. Qed.

Lemma psum_adj_snoc l e :
  psum (adj_of rv (l ++ [e])) N = psum (adj_of rv l) N + (if valid_key N (key_of rv e) then 1 else 0).
Proof.
  enough (∀ m : nat, psum (adj_of rv (l ++ [e])) (Z.of_nat m) =
    psum (adj_of rv l) (Z.of_nat m) + (if valid_key (Z.of_nat m) (key_of rv e) then 1 else 0)) as H
    by (specialize (H (Z.to_nat N)); by rewrite Z2Nat.id in H by lia).
  induction m as [|m IH].
  - rewrite !psum_0. unfold valid_key. zbool; lia.
  - rewrite Nat2Z.inj_succ. unfold Z.succ. rewrite !psum_S, IH, zlen_adj_snoc by lia.
    unfold valid_key. zbool; lia.
Qed.

Lemma valid_edges_spec l :
  foldl (λ v e, if valid_key N (key_of rv e) then v + 1 else v) 0 l = psum (adj_of rv l) N.
Proof.
  induction l as [|e l IH] using rev_ind.
  - unfold psum. change (λ i, zlen (adj_of rv [] i)) with (λ _ : Z, 0).
    induction (range 0 N) as [|i r IHr]; [done|]. unfold zsum in *. cbn [map foldr foldl] in *. lia.
  - rewrite foldl_app, psum_adj_snoc, <- IH. cbn. destruct (valid_key N (key_of rv e)); lia.
Qed.

Lemma count_degrees_ok l :
  ∃ off, foldM (count_degree rv N) l (replicate (Z.to_nat (N + 1)) 0) = Some off ∧
    zlen off = N + 1 ∧ off.[0] = Some 0 ∧ ∀ k, 0 ≤ k < N → off.[k + 1] = Some (zlen (adj_of rv l k)).
Proof.
  assert (Hrep : ∀ i, 0 ≤ i ≤ N → (replicate (Z.to_nat (N + 1)) 0).[i] = Some 0).
  { intros i Hi. unfold zget. rewrite (proj2 (Z.leb_le _ _)) by lia. apply lookup_replicate_2. lia. }
  apply (foldM_done (count_degree rv N) (λ pre off, zlen off = N + 1 ∧ off.[0] = Some 0 ∧
    ∀ k, 0 ≤ k < N → off.[k + 1] = Some (zlen (adj_of rv pre k)))).
  - split_and!; [rewrite zlen_replicate; lia|apply Hrep; lia|]. intros k Hk. apply Hrep. lia.
  - intros pre e post off _ (Hl & H0 & Hk). unfold count_degree.
    destruct (valid_key N (key_of rv e)) eqn:Hv.
    + apply valid_key_spec in Hv. rewrite Hk by done. cbn.
      destruct (zset_total off (key_of rv e + 1) (zlen (adj_of rv pre (key_of rv e)) + 1)) as [off' Ho]; [lia|].
      exists off'. split; [done|]. split_and!.
      * by rewrite (zlen_zset _ _ _ _ Ho).
      * rewrite (zget_zset_ne _ _ _ _ _ Ho) by lia. done.
      * intros k Hk'. rewrite zlen_adj_snoc. destruct (Z.eqb_spec (key_of rv e) k) as [<-|Hne].
        -- by eapply zget_zset_eq.
        -- rewrite (zget_zset_ne _ _ _ _ _ Ho) by lia. rewrite Hk by done. f_equal. lia.
    + exists off. split; [done|]. split_and!; [done..|]. intros k Hk'. rewrite zlen_adj_snoc.
      destruct (Z.eqb_spec (key_of rv e) k) as [<-|Hne].
      * apply valid_key_spec in Hk'. congruence.
      * rewrite Hk by done. f_equal. lia.
Qed.

Lemma prefix_ok adj off :
  zlen off = N + 1 → off.[0] = Some 0 → (∀ k, 0 ≤ k < N → off.[k + 1] = Some (zlen (adj k))) →
  ∃ off', foldM prefix_step (range 1 (N + 1)) off = Some off' ∧ offs N adj off'.
Proof.
  intros Hl H0 Hk.
  destruct (foldM_range prefix_step (λ i off, zlen off = N + 1 ∧
    (∀ j, 0 ≤ j < i → off.[j] = Some (psum adj j)) ∧
    ∀ j, i ≤ j ≤ N → off.[j] = Some (zlen (adj (j - 1)))) 1 (N + 1) off) as (off' & Hrun & Hl' & Hj & _).
  - lia.
  - split_and!; [done| |].
    + intros j Hj. by assert (j = 0) as -> by lia.
    + intros j Hj. rewrite <- Hk by lia. f_equal. lia.
  - intros i o Hi (Hol & Hlt & Hge). unfold prefix_step. rewrite (Hge i), (Hlt (i - 1)) by lia. cbn.
    destruct (zset_total o i (zlen (adj (i - 1)) + psum adj (i - 1))) as [o' Ho]; [lia|].
    exists o'. split; [done|]. split_and!.
    + by rewrite (zlen_zset _ _ _ _ Ho).
    + intros j Hj. destruct (decide (j = i)) as [->|].
      * rewrite (zget_zset_eq _ _ _ _ Ho). f_equal.
        pose proof (psum_S adj (i - 1) ltac:(lia)) as HS. replace (i - 1 + 1) with i in HS by lia. lia.
      * rewrite (zget_zset_ne _ _ _ _ _ Ho) by lia. apply Hlt. lia.
    + intros j Hj. rewrite (zget_zset_ne _ _ _ _ _ Ho) by lia. apply Hge. lia.
  - exists off'. split; [done|]. split; [done|]. intros k Hk'. apply Hj. lia.
Qed.

Lemma scatter_ok l pos t r :
  (∀ k, 0 ≤ k < N → pos.[k] = Some (psum (adj_of rv l) k)) →
  psum (adj_of rv l) N ≤ zlen t → psum (adj_of rv l) N ≤ zlen r →
  ∃ pos' t' r', foldM (scatter rv N) l (pos, t, r) = Some (pos', t', r') ∧
    chunks N (adj_of rv l) t' r' ∧ zlen t' = zlen t ∧ zlen r' = zlen r.
Proof.
  intros Hpos Ht Hr. set (full := adj_of rv l) in *.
  destruct (foldM_done (scatter rv N) (λ pre st, ∃ pos' t' r', st = (pos', t', r') ∧
    (∀ k, 0 ≤ k < N → pos'.[k] = Some (psum full k + zlen (adj_of rv pre k)) ∧
                      holds2 t' r' (psum full k) (adj_of rv pre k)) ∧
    zlen t' = zlen t ∧ zlen r' = zlen r) l (pos, t, r)) as (st & Hrun & pos' & t' & r' & -> & Hk & Ht' & Hr').
  - exists pos, t, r. split_and!; [done| |done..]. intros k Hk. split; [|split; apply holds_nil].
    rewrite Hpos by done. f_equal. unfold adj_of, zlen. simpl. lia.
  - intros pre e post st Hl (pos' & t' & r' & -> & Hk & Ht' & Hr'). unfold scatter.
    destruct (valid_key N (key_of rv e)) eqn:Hv.
    2: { eexists. split; [done|]. exists pos', t', r'. split_and!; [done| |done..]. intros k Hk'.
      rewrite adj_of_app, adj_of_one. destruct (Z.eqb_spec (key_of rv e) k) as [<-|].
      - apply valid_key_spec in Hk'. congruence.
      - rewrite app_nil_r. by apply Hk. }
    apply valid_key_spec in Hv. set (key := key_of rv e) in *.
    destruct (Hk key Hv) as [Hp Hh]. rewrite Hp. cbn.
    set (p := psum full key + zlen (adj_of rv pre key)) in *.
    (* the slot lies in the list of [key] *)
    assert (Hslot : ∀ k, zlen (adj_of rv pre k) + (if key =? k then 1 else 0) ≤ zlen (full k)).
    { intros k. unfold full. rewrite Hl, adj_of_app, zlen_app. change (e :: post) with ([e] ++ post).
      rewrite adj_of_app, zlen_app, adj_of_one. pose proof (zlen_nonneg (adj_of rv post k)).
      fold key. destruct (key =? k); unfold zlen in *; simpl; lia. }
    pose proof (Hslot key) as Hs. rewrite Z.eqb_refl in Hs.
    pose proof (psum_nonneg full key). pose proof (zlen_nonneg (adj_of rv pre key)).
    assert (psum full (key + 1) ≤ psum full N) as Hend by (apply psum_mono; lia).
    rewrite psum_S in Hend by lia.
    destruct (zset_total pos' key (p + 1)) as [pos2 Hp2]; [apply zget_Some in Hp; lia|].
    destruct (zset_total t' p (val_of rv e)) as [t2 Ht2]; [lia|].
    destruct (zset_total r' p (row e)) as [r2 Hr2]; [lia|].
    rewrite Hp2. cbn. rewrite Ht2. cbn. rewrite Hr2. cbn. eexists. split; [done|].
    exists pos2, t2, r2. split; [done|].
    split; [|by rewrite (zlen_zset _ _ _ _ Ht2), (zlen_zset _ _ _ _ Hr2)].
    intros k Hk'. rewrite adj_of_app, adj_of_one. fold key. destruct (Z.eqb_spec key k) as [<-|Hne].
    + rewrite zlen_app. split.
      * rewrite (zget_zset_eq _ _ _ _ Hp2). f_equal. unfold p. unfold zlen. simpl. lia.
      * apply holds2_app; [eapply holds2_zset; [done..|lia]|]. apply holds2_single.
        split; by eapply zget_zset_eq.
    + rewrite app_nil_r. destruct (Hk k Hk') as [Hpk Hhk]. split.
      * by rewrite (zget_zset_ne _ _ _ _ _ Hp2).
      * eapply holds2_zset; [done..|]. pose proof (Hslot k) as Hsk.
        rewrite (proj2 (Z.eqb_neq _ _)) in Hsk by done.
        destruct (psum_disjoint full key k); [lia..|done| |]; lia.
  - exists pos', t', r'. split_and!; [done| |done..]. intros k Hk'. by apply Hk.
Qed.
End builder.

(** ** What a built index represents *)

(** [c] indexes [N] nodes, node [k] having the neighbours and rows [adj k]. *)
Definition csr_repr (c : ray_csr) (N : Z) (adj : Z → list (Z * Z)) : Prop :=
  ∃ o t r s,
    c = Csr (Some (Ivec (N + 1) o)) (Some (Ivec (psum adj N) t)) (Some (Ivec (psum adj N) r)) None
            N (psum adj N) s ∧
    offs N adj o ∧ chunks N adj t r ∧ psum adj N ≤ zlen t ∧ psum adj N ≤ zlen r.

Lemma csr_build_ok `{Heap} rv N l s :
  0 ≤ N →
  ∃ res, csr_build_from_pairs l N rv s = Some res ∧
    match res with
    | None => ∃ b, alloc_ok b = false
    | Some c => sorted c = s ∧ ∃ adj, csr_repr c N adj ∧ (∀ k, adj k ≡ₚ adj_of rv l k) ∧
        (s = true → ∀ k, 0 ≤ k < N → StronglySorted le1 (adj k)) ∧
        ((∀ k, StronglySorted le1 (adj_of rv l k)) → ∀ k, 0 ≤ k < N → adj k = adj_of rv l k)
    end.
Proof.
  intros HN. unfold csr_build_from_pairs. rewrite valid_edges_spec by done.
  set (adj := adj_of rv l). set (room := if 0 <? psum adj N then psum adj N else 1).
  pose proof (psum_nonneg adj N HN) as Hps.
  assert (Hroom : psum adj N ≤ room) by (unfold room; zbool; lia).
  unfold new_array at 1 2 3.
  destruct (alloc_ok (8 * (N + 1))) eqn:A1; [|exists None; split; [done|by eexists]].
  destruct (alloc_ok (8 * room)) eqn:A2; [|exists None; split; [done|by eexists]].
  destruct (count_degrees_ok rv N HN l) as (off0 & -> & Hl0 & H00 & Hcnt). cbn [mbind option_bind].
  destruct (prefix_ok N HN adj off0) as (off & -> & Hoff); [done..|]. cbn [mbind option_bind].
  unfold new_array. destruct (alloc_ok (8 * (if 0 <? N then N else 1))) eqn:A3; [|exists None; split; [done|by eexists]].
  destruct (scatter_ok rv N l
    (take (Z.to_nat N) off ++ drop (Z.to_nat N) (fresh (if 0 <? N then N else 1))) (fresh room) (fresh room))
    as (pos & t & r & -> & Hch & Ht & Hr).
  { intros k Hk. fold adj. rewrite zget_app_l by (destruct Hoff as [E _]; rewrite zlen_take; lia).
    unfold zget. rewrite (proj2 (Z.leb_le _ _)) by lia. rewrite lookup_take_lt by lia.
    rewrite <- (proj2 Hoff k) by lia. unfold zget. by rewrite (proj2 (Z.leb_le _ _)) by lia. }
  1,2: rewrite zlen_fresh; fold adj; lia.
  rewrite zlen_fresh in Ht, Hr. cbn [mbind option_bind]. fold adj in Hch.
  assert (Hps' : ∀ adj' : Z → list (Z * Z), (∀ k, adj' k ≡ₚ adj k) → ∀ k, psum adj' k = psum adj k).
  { intros adj' Hp k. apply psum_ext. intros i _. unfold zlen. by rewrite Hp. }
  destruct s; cbn [mbind option_bind].
  - destruct (csr_sort_ok N adj off t r) as (t' & r' & adj' & -> & Hch' & Ht' & Hr' & Hp & Hsorted); [done..|].
    cbn [mbind option_bind]. eexists. split; [done|]. split; [done|]. exists adj'. split_and!.
    + exists off, t', r', true. rewrite (Hps' adj' Hp). split; [done|]. split_and!; [|done|lia|lia].
      destruct Hoff as [E Ho]. split; [done|]. intros k Hk. rewrite (Hps' adj' Hp). by apply Ho.
    + done.
    + intros _ k Hk. by apply Hsorted.
    + intros Hall k Hk. by apply Hsorted.
  - eexists. split; [done|]. split; [done|]. exists adj. split_and!; [|done..].
    exists off, t, r, false. split; [done|]. split_and!; [done|done|lia|lia].
Qed.

(** ** Sorted edge lists *)

Definition lex (x y : Z * Z) : Prop := x.1 < y.1 ∨ x.1 = y.1 ∧ x.2 ≤ y.2.

Lemma StronglySorted_filter_map {A B} (R : A → A → Prop) (S : B → B → Prop) (p : A → bool) (g : A → B) l :
  (∀ a b, p a = true → p b = true → R a b → S (g a) (g b)) →
  StronglySorted R l → StronglySorted S (map g (List.filter p l)).
Proof.
  intros HRS. induction 1 as [|a l _ IH Ha]; [constructor|]. cbn. destruct (p a) eqn:Hp; [|done].
  cbn. constructor; [done|]. apply Forall_forall. intros y (b & -> & Hb)%list_elem_of_fmap.
  apply list_elem_of_In, filter_In in Hb as [Hb Hpb]. apply HRS; [done..|].
  eapply Forall_forall; [exact Ha|by apply list_elem_of_In].
Qed.

Definition cmp_of (rv : bool) : edge_pair → edge_pair → Z :=
  if rv then cmp_edge_by_dst else cmp_edge_by_src.

Lemma cmp_of_spec rv a b : cmp_of rv a b ≤ 0 ↔
  key_of rv a < key_of rv b ∨
  key_of rv a = key_of rv b ∧ (val_of rv a < val_of rv b ∨ val_of rv a = val_of rv b ∧ row a ≤ row b).
Proof.
  destruct rv; unfold cmp_of, cmp_edge_by_dst, cmp_edge_by_src, key_of, val_of; zbool; lia.
Qed.

Lemma adj_of_qsort `{QsortSpec} rv l k :
  StronglySorted lex (adj_of rv (qsort (cmp_of rv) l) k) ∧ adj_of rv (qsort (cmp_of rv) l) k ≡ₚ adj_of rv l k.
Proof.
  split.
  - eapply StronglySorted_filter_map; [|apply qsort_sorted].
    + intros a b Ha%Z.eqb_eq Hb%Z.eqb_eq Hab%cmp_of_spec. unfold lex. simpl. lia.
    + intros a b. rewrite !cmp_of_spec. lia.
    + intros a b c. rewrite !cmp_of_spec. lia.
  - unfold adj_of. apply Permutation_map, filter_perm, qsort_perm.
Qed.

(** ** Reading neighbours back *)
Lemma neighbors_repr c N adj u :
  csr_repr c N adj → 0 ≤ u < N →
  ray_csr_neighbors c u = Some (Some (psum adj u), zlen (adj u)) ∧
  ray_csr_degree c u = Some (zlen (adj u)) ∧
  ∃ t r, targets c = Some t ∧ rowmap c = Some r ∧ holds2 (words t) (words r) (psum adj u) (adj u) ∧
    0 ≤ psum adj u ∧ psum adj u + zlen (adj u) ≤ zlen (words t).
Proof.
  intros (o & t & r & s & -> & [Hl Ho] & Hch & Hlt & _) Hu.
  unfold ray_csr_neighbors, ray_csr_degree. cbn.
  rewrite (proj2 (Z.ltb_ge _ _)) by lia. rewrite (proj2 (Z.leb_gt _ _)) by lia. cbn.
  rewrite !Ho by lia. cbn. rewrite psum_S by lia.
  replace (psum adj u + zlen (adj u) - psum adj u) with (zlen (adj u)) by lia.
  split_and!; [done..|]. eexists _, _. split_and!; [done..|by apply Hch|apply psum_nonneg; lia|].
  cbn. assert (psum adj (u + 1) ≤ psum adj N) by (apply psum_mono; lia). rewrite psum_S in * by lia. lia.
Qed.

Lemma neighbors_out c u : u < 0 ∨ n_nodes c ≤ u → ray_csr_neighbors c u = Some (None, 0).
Proof.
  intros Hu. unfold ray_csr_neighbors. destruct (offsets c), (targets c); try done.
  destruct (Z.ltb_spec u 0), (Z.leb_spec (n_nodes c) u); try done. lia.
Qed.

(** An index by [key_of rv] of the edge list [pairs]. *)
Definition indexes (rv : bool) (c : ray_csr) (N : Z) (pairs : list edge_pair) : Prop :=
  (∃ o t, offsets c = Some o ∧ targets c = Some t ∧ n_nodes c = N) ∧
  ∀ u, 0 ≤ u < N → ∃ a p t r,
    ray_csr_neighbors c u = Some (Some p, zlen a) ∧ ray_csr_degree c u = Some (zlen a) ∧
    targets c = Some t ∧ rowmap c = Some r ∧ 0 ≤ p ∧ p + zlen a ≤ zlen (words t) ∧
    holds (words t) p (map fst a) ∧ holds (words r) p (map snd a) ∧
    StronglySorted lex a ∧ a ≡ₚ adj_of rv pairs u.

Lemma build_indexes `{Heap} `{QsortSpec} rv N l pairs s :
  0 ≤ N → l ≡ₚ pairs →
  ∃ res, csr_build_from_pairs (qsort (cmp_of rv) l) N rv s = Some res ∧
    match res with None => ∃ b, alloc_ok b = false | Some c => sorted c = s ∧ indexes rv c N pairs end.
Proof.
  intros HN Hlp. destruct (csr_build_ok rv N (qsort (cmp_of rv) l) s HN) as (res & -> & Hres).
  exists res. split; [done|]. destruct res as [c|]; [|done].
  destruct Hres as (Hs & adj & Hrep & Hp & _ & Hsame). split; [done|].
  assert (Hadj : ∀ k, 0 ≤ k < N → adj k = adj_of rv (qsort (cmp_of rv) l) k).
  { apply Hsame. intros k. destruct (adj_of_qsort rv l k) as [Hsort _].
    clear -Hsort. induction Hsort as [|x m _ IH Hx]; constructor; [done|].
    eapply Forall_impl; [exact Hx|]. unfold lex, le1. lia. }
  split; [by destruct Hrep as (o & t & r & s' & -> & _); eexists _, _|]. intros u Hu.
  destruct (neighbors_repr c N adj u Hrep Hu) as (Hn & Hd & t & r & Ht & Hr & [Hh1 Hh2] & Hp0 & Hpe).
  exists (adj u), (psum adj u), t, r. split_and!; try done.
  - rewrite Hadj by done. apply adj_of_qsort.
  - rewrite Hadj by done. destruct (adj_of_qsort rv l u) as [_ ->].
    unfold adj_of. by apply Permutation_map, filter_perm.
Qed.

(** ** Loading *)
Lemma offsets_monotone_ok off n i fuel :
  0 ≤ i ≤ n → n + 1 ≤ zlen off → n - i ≤ Z.of_nat fuel →
  ∃ b, offsets_monotone fuel off n i = Some b ∧
    (b = true ↔ ∀ k x y, i ≤ k < n → off.[k] = Some x → off.[k + 1] = Some y → 0 ≤ x ≤ y).
Proof.
  revert i. induction fuel as [|fuel IH]; intros i Hi Hn Hf; cbn [offsets_monotone].
  all: destruct (Z.ltb_spec i n) as [Hlt|Hge];
    [|exists true; split; [done|]; split; [intros _ k; lia|done]].
  - lia.
  - destruct (zget_is_Some off i) as [a Ha]; [lia|]. destruct (zget_is_Some off (i + 1)) as [b Hb]; [lia|].
    rewrite Ha. cbn. destruct (Z.ltb_spec a 0).
    { exists false. split; [done|]. split; [done|]. intros H1. pose proof (H1 i a b ltac:(lia) Ha Hb). lia. }
    rewrite Hb. cbn. destruct (Z.ltb_spec b a).
    { exists false. split; [done|]. split; [done|]. intros H1. pose proof (H1 i a b ltac:(lia) Ha Hb). lia. }
    destruct (IH (i + 1)) as (c & -> & Hc); [lia..|]. exists c. split; [done|]. rewrite Hc. split.
    + intros H1 k x y Hk Hx Hy. destruct (decide (k = i)) as [->|]; [simplify_eq; lia|].
      apply (H1 k); [lia|done..].
    + intros H1 k x y Hk. apply H1. lia.
Qed.

(** Offsets that pass the validation lie between 0 and the last one. *)
Lemma monotone_bounded off n last :
  (∀ k x y, 0 ≤ k < n → off.[k] = Some x → off.[k + 1] = Some y → 0 ≤ x ≤ y) →
  n + 1 ≤ zlen off → off.[n] = Some last →
  ∀ d i x, i = n - Z.of_nat d → 0 ≤ i → off.[i] = Some x → x ≤ last.
Proof.
  intros Hm Hl Hlast. induction d as [|d IH]; intros i x -> Hi Hx.
  - rewrite Z.sub_0_r in Hx. simplify_eq. lia.
  - destruct (zget_is_Some off (n - Z.of_nat d)) as [y Hy]; [lia|].
    specialize (IH _ y eq_refl ltac:(lia) Hy).
    assert (x ≤ y); [|lia]. apply (Hm (n - Z.of_nat (S d)) x y); [lia|done|].
    rewrite <- Hy. f_equal. lia.
Qed.

(** ** Whole relations *)
Lemma elem_adj_of rv l k x i :
  (x, i) ∈ adj_of rv l k ↔ ∃ e, e ∈ l ∧ key_of rv e = k ∧ val_of rv e = x ∧ row e = i.
Proof.
  unfold adj_of. rewrite list_elem_of_fmap. split.
  - intros (e & E & He). simplify_eq. apply list_elem_of_In, filter_In in He as [He Hk].
    exists e. rewrite list_elem_of_In. split_and!; [done|by apply Z.eqb_eq|done..].
  - intros (e & He & <- & <- & <-). exists e. split; [done|]. apply list_elem_of_In, filter_In.
    split; [by apply list_elem_of_In|apply Z.eqb_refl].
Qed.

Lemma slice_elem (t r : list Z) p (a : list (Z * Z)) x i :
  holds t p (map fst a) → holds r p (map snd a) →
  (x, i) ∈ a ↔ ∃ j, 0 ≤ j < zlen a ∧ t.[p + j] = Some x ∧ r.[p + j] = Some i.
Proof.
  intros Ht Hr.
  assert (Hg : ∀ {B} (g : Z * Z → B) j, 0 ≤ j → (map g a).[j] = g <$> a.[j]).
  { intros B g j Hj. unfold zget. rewrite (proj2 (Z.leb_le _ _)) by done. apply list_lookup_fmap. }
  split.
  - intros [k Hk]%list_elem_of_lookup. exists (Z.of_nat k). pose proof (lookup_lt_Some _ _ _ Hk).
    rewrite Ht, Hr by (rewrite zlen_map; unfold zlen; lia). rewrite !Hg by lia.
    rewrite !zget_lookup, Hk. unfold zlen. split_and!; [lia..|done|done].
  - intros (j & Hj & Hx & Hi). rewrite Ht in Hx by (by rewrite zlen_map).
    rewrite Hr in Hi by (by rewrite zlen_map). rewrite Hg in Hx, Hi by lia.
    destruct (a.[j]) as [[x' i']|] eqn:E; [|done]. simpl in *. simplify_eq.
    unfold zget in E. destruct (Z.leb_spec 0 j); [|lia]. by eapply list_elem_of_lookup_2.
Qed.

Lemma build_rel_ok `{Heap} `{QsortSpec} pairs n_src n_dst s :
  0 ≤ n_src → 0 ≤ n_dst →
  ∃ res, build_rel pairs n_src n_dst s = Some res ∧
    match res with
    | None => ∃ b, alloc_ok b = false
    | Some rel => indexes false (fwd rel) n_src pairs ∧ indexes true (rev rel) n_dst pairs ∧
        sorted (fwd rel) = s ∧ sorted (rev rel) = s
    end.
Proof.
  intros Hs Hd. unfold build_rel.
  destruct (alloc_ok (24 * zlen pairs)) eqn:A1; cbn [negb]; [|exists None; split; [done|by eexists]].
  destruct (alloc_ok 128) eqn:A2; cbn [negb]; [|exists None; split; [done|by eexists]].
  destruct (build_indexes false n_src pairs pairs s) as (f & Hf & Hfs); [done..|].
  unfold cmp_of in Hf. rewrite Hf. cbn [mbind option_bind].
  destruct f as [f|]; [|by exists None].
  destruct (build_indexes true n_dst (qsort cmp_edge_by_src pairs) pairs s) as (r & Hr & Hrs);
    [done|apply qsort_perm|].
  unfold cmp_of in Hr. rewrite Hr. cbn [mbind option_bind]. destruct r as [r|]; [|by exists None].
  eexists. split; [done|]. cbn. naive_solver.
Qed.

(** Past its guards [ray_rel_from_edges] is [build_rel]. *)
Lemma rel_from_edges_guards `{Heap} `{Qsort} srcs dsts n_src n_dst s :
  zlen srcs = zlen dsts → 0 ≤ n_src → 0 ≤ n_dst →
  ray_rel_from_edges (Some (RAY_I64, srcs)) (Some (RAY_I64, dsts)) n_src n_dst s =
  build_rel (edge_pairs srcs dsts) n_src n_dst s.
Proof.
  intros Hl Hs Hd. unfold ray_rel_from_edges. rewrite Hl, !Z.eqb_refl. cbn [negb orb].
  by rewrite !(proj2 (Z.ltb_ge _ _)) by done.
Qed.

(** ** Saving and loading back *)

(** What [csr_load_impl] checks, and that the three vectors are there. *)
Definition csr_valid (c : ray_csr) : Prop :=
  ∃ o t r, offsets c = Some o ∧ targets c = Some t ∧ rowmap c = Some r ∧
    1 ≤ vlen o ≤ zlen (words o) ∧ n_nodes c = vlen o - 1 ∧ n_edges c = vlen t ∧
    (words o).[vlen o - 1] = Some (vlen t) ∧
    ∀ k x y, 0 ≤ k < vlen o - 1 → (words o).[k] = Some x → (words o).[k + 1] = Some y → 0 ≤ x ≤ y.

(** An index without its property table. *)
Definition bare (c : ray_csr) (s : bool) : ray_csr :=
  Csr (offsets c) (targets c) (rowmap c) None (n_nodes c) (n_edges c) s.

Lemma csr_repr_valid c N adj : csr_repr c N adj → 0 ≤ N → csr_valid c.
Proof.
  intros (o & t & r & s & -> & [Hl Ho] & _) HN.
  exists (Ivec (N + 1) o), (Ivec (psum adj N) t), (Ivec (psum adj N) r). cbn.
  replace (N + 1 - 1) with N by lia. split_and!; [done..|lia|lia|done|done|apply Ho; lia|].
  intros k x y Hk. rewrite !Ho by lia. intros E1 E2. simplify_eq.
  split; [apply psum_nonneg; lia|apply psum_mono; lia].
Qed.

Section files.
Context `{ColFilesSpec}.

(** The three columns of [c] are on disk under [dir/prefix]. *)
Definition on_disk (c : ray_csr) (dir prefix : string) (f : files) : Prop :=
  ∀ leaf v, (leaf, v) ∈ [("_offsets", offsets c); ("_targets", targets c); ("_rowmap", rowmap c)]%string →
    path_fits (csr_path dir prefix leaf) = true ∧ col_load (csr_path dir prefix leaf) f = v.

Lemma csr_path_ne dir p l p' l' : p +:+ l ≠ p' +:+ l' → csr_path dir p l ≠ csr_path dir p' l'.
Proof. unfold csr_path. intros Hne E. simplify_eq. Qed.

Lemma save_col_ok v p f f' :
  save_col (Some v) p f = Some f' → path_fits p = true ∧ col_load p f' = Some v ∧
  ∀ q, p ≠ q → col_load q f' = col_load q f.
Proof.
  unfold save_col. destruct (path_fits p); [|done]. cbn. intros Hs.
  split_and!; [done|by eapply col_load_save|]. intros q Hq. by eapply col_load_other.
Qed.

Lemma csr_save_ok c dir prefix f f' :
  csr_valid c → csr_save c dir prefix f = Some f' →
  on_disk c dir prefix f' ∧
  ∀ q, (∀ leaf, leaf ∈ ["_offsets"; "_targets"; "_rowmap"]%string → csr_path dir prefix leaf ≠ q) →
    col_load q f' = col_load q f.
Proof.
  intros (o & t & r & Ho & Ht & Hr & _). unfold csr_save, on_disk. rewrite Ho, Ht, Hr.
  destruct (save_col (Some o) _ f) as [f1|] eqn:S1; [|done]. cbn [mbind option_bind].
  destruct (save_col (Some t) (csr_path dir prefix "_targets") f1) as [f2|] eqn:S2; [|done].
  cbn [mbind option_bind]. intros S3.
  apply save_col_ok in S1 as (P1 & L1 & O1), S2 as (P2 & L2 & O2), S3 as (P3 & L3 & O3).
  assert (Hne : ∀ l l', l ≠ l' → csr_path dir prefix l ≠ csr_path dir prefix l').
  { intros l l' Hl. apply csr_path_ne. intros E. simplify_eq. }
  split.
  - intros leaf v Hin. rewrite !elem_of_cons in Hin. destruct Hin as [E|[E|[E|E]]]; [..|set_solver]; simplify_eq.
    + split; [done|]. rewrite O3, O2 by (by apply Hne). done.
    + split; [done|]. rewrite O3 by (by apply Hne). done.
    + done.
  - intros q Hq. rewrite O3, O2, O1 by (apply Hq; set_solver). done.
Qed.

Lemma csr_load_on_disk c dir prefix f :
  csr_valid c → on_disk c dir prefix f → csr_load_impl dir prefix f = Some (Some (bare c false)).
Proof.
  intros (o & t & r & Ho & Ht & Hr & Hlen & Hn & He & Hlast & Hm) Hd. unfold csr_load_impl, bare.
  destruct (Hd "_offsets"%string (offsets c)) as [-> ->]; [set_solver|].
  destruct (Hd "_targets"%string (targets c)) as [-> ->]; [set_solver|].
  destruct (Hd "_rowmap"%string (rowmap c)) as [-> ->]; [set_solver|].
  cbn [negb]. rewrite Ho, Ht, Hr, Hn, He, (proj2 (Z.ltb_ge _ _)) by lia. rewrite Hlast. cbn [mbind option_bind].
  rewrite Z.eqb_refl. cbn [negb].
  destruct (offsets_monotone_ok (words o) (vlen o - 1) 0 (Z.to_nat (vlen o - 1))) as (b & -> & Hb); [lia..|].
  cbn [mbind option_bind]. by rewrite (proj2 Hb Hm).
Qed.
End files.
