(* ===== verification/CsrProps.v ===== *)
(** * Correctness of edge indexes

    The two indexes of a relation list exactly the edges of the edge table and
    mirror each other; what is loaded from disk is safe to read, and a saved
    relation loads back. *)

From stdpp Require Import strings sorting.
From S2P Require Import Prelude Csr CsrProofs.
Local Open Scope Z_scope.

(** Instances for the witnesses: an allocator that always serves, [qsort] as
    merge sort, and column files as a map from paths. *)
Module Bench.
Definition plenty : Heap := {| alloc_ok := λ _, true; alloc_junk := λ _, 7 |}.
Definition msort : Qsort :=
  λ cmp l, @merge_sort _ (λ a b, cmp a b ≤ 0) (λ a b, Z.le_dec (cmp a b) 0) l.
Definition msort_spec : @QsortSpec msort.
Proof.
  constructor.
  - intros cmp l. apply merge_sort_Permutation.
  - intros cmp l Ht Htr. unfold qsort, msort.
    apply (@StronglySorted_merge_sort _ (λ a b, cmp a b ≤ 0)); [|exact Ht]. exact Htr.
Qed.
Definition disk : ColFiles :=
  {| files := gmap string ivec; col_save v p f := Some (<[p := v]> f); col_load p f := f !! p |}.
Definition disk_spec : @ColFilesSpec disk.
Proof.
  constructor.
  - intros v p f f' E. injection E as <-. cbn. apply lookup_insert_eq.
  - intros v p q f f' E Hpq. injection E as <-. cbn. by apply lookup_insert_ne.
Qed.
Lemma lookup_two (p q r : string) (v w x : ivec) :
  ({[p := v; q := w]} : gmap string ivec) !! r = Some x → x = v ∨ x = w.
Proof.
  intros [[_ <-]|[_ E]]%lookup_insert_Some; [by left|]. apply lookup_singleton_Some in E as [_ <-]. by right.
Qed.
End Bench.

(** C17. From two edge columns, [ray_rel_from_edges] either runs out of memory
    or builds both indexes: for every source node the forward index gives a
    slice of [targets] and [rowmap] that lists exactly the (target, row) pairs
    of its edges, in increasing order, and the reverse index does so for every
    target node. No array access leaves its bounds, whatever values the
    columns hold. *)
Theorem rel_from_edges_indexes `{Heap} `{QsortSpec} srcs dsts n_src n_dst s :
  zlen srcs = zlen dsts → 0 ≤ n_src → 0 ≤ n_dst →
  ∃ res, ray_rel_from_edges (Some (RAY_I64, srcs)) (Some (RAY_I64, dsts)) n_src n_dst s = Some res ∧
    match res with
    | None => ∃ b, alloc_ok b = false
    | Some rel =>
        indexes false (fwd rel) n_src (edge_pairs srcs dsts) ∧
        indexes true (rev rel) n_dst (edge_pairs srcs dsts) ∧
        sorted (fwd rel) = s ∧ sorted (rev rel) = s
    end.
Proof.
  intros Hl Hs Hd. rewrite rel_from_edges_guards by done. by apply build_rel_ok.
Qed.

Lemma rel_from_edges_indexes_witness :
  ∃ res, @ray_rel_from_edges Bench.plenty Bench.msort (Some (RAY_I64, [0; 2; 0]))
      (Some (RAY_I64, [1; 0; -1])) 3 3 true = Some res ∧
    match res with
    | None => ∃ b, @alloc_ok Bench.plenty b = false
    | Some rel =>
        indexes false (fwd rel) 3 (edge_pairs [0; 2; 0] [1; 0; -1]) ∧
        indexes true (rev rel) 3 (edge_pairs [0; 2; 0] [1; 0; -1]) ∧
        sorted (fwd rel) = true ∧ sorted (rev rel) = true
    end.
Proof.
  apply (@rel_from_edges_indexes Bench.plenty Bench.msort Bench.msort_spec); [reflexivity|lia|lia].
Defined.

(** The two indexes mirror each other: for nodes [u] and [v] of the two
    sides, row [i] connects them in the forward index iff it does in the
    reverse index. *)
Theorem rel_fwd_rev_mirror `{Heap} `{QsortSpec} srcs dsts n_src n_dst s rel u v i :
  zlen srcs = zlen dsts → 0 ≤ n_src → 0 ≤ n_dst →
  ray_rel_from_edges (Some (RAY_I64, srcs)) (Some (RAY_I64, dsts)) n_src n_dst s = Some (Some rel) →
  0 ≤ u < n_src → 0 ≤ v < n_dst →
  ∃ pf cf pr cr tf rf tr rr,
    ray_rel_neighbors rel u 0 = Some (Some pf, cf) ∧ ray_rel_neighbors rel v 1 = Some (Some pr, cr) ∧
    targets (fwd rel) = Some tf ∧ rowmap (fwd rel) = Some rf ∧
    targets (rev rel) = Some tr ∧ rowmap (rev rel) = Some rr ∧
    ((∃ j, 0 ≤ j < cf ∧ (words tf).[pf + j] = Some v ∧ (words rf).[pf + j] = Some i) ↔
     (∃ j, 0 ≤ j < cr ∧ (words tr).[pr + j] = Some u ∧ (words rr).[pr + j] = Some i)).
Proof.
  intros Hl Hs Hd Hrel Hu Hv.
  rewrite rel_from_edges_guards in Hrel by done.
  destruct (build_rel_ok (edge_pairs srcs dsts) n_src n_dst s) as (res & E & Hres); [done..|].
  rewrite Hrel in E. simplify_eq. destruct Hres as ([_ Hf] & [_ Hr] & _).
  destruct (Hf u Hu) as (a & p & t & r & Hn & _ & Ht & Hrm & _ & _ & Hh1 & Hh2 & _ & Ha).
  destruct (Hr v Hv) as (a' & p' & t' & r' & Hn' & _ & Ht' & Hrm' & _ & _ & Hh1' & Hh2' & _ & Ha').
  exists p, (zlen a), p', (zlen a'), t, r, t', r'. split_and!; [done..|].
  rewrite <- (slice_elem _ _ _ _ v i Hh1 Hh2), <- (slice_elem _ _ _ _ u i Hh1' Hh2').
  rewrite Ha, Ha'. rewrite !elem_adj_of. unfold key_of, val_of. naive_solver.
Qed.

Lemma rel_fwd_rev_mirror_witness :
  ∃ rel, @ray_rel_from_edges Bench.plenty Bench.msort (Some (RAY_I64, [0; 2; 0]))
      (Some (RAY_I64, [1; 0; 1])) 3 2 false = Some (Some rel) ∧
  ∃ pf cf pr cr tf rf tr rr,
    ray_rel_neighbors rel 0 0 = Some (Some pf, cf) ∧ ray_rel_neighbors rel 1 1 = Some (Some pr, cr) ∧
    targets (fwd rel) = Some tf ∧ rowmap (fwd rel) = Some rf ∧
    targets (rev rel) = Some tr ∧ rowmap (rev rel) = Some rr ∧
    ((∃ j, 0 ≤ j < cf ∧ (words tf).[pf + j] = Some 1 ∧ (words rf).[pf + j] = Some 2) ↔
     (∃ j, 0 ≤ j < cr ∧ (words tr).[pr + j] = Some 0 ∧ (words rr).[pr + j] = Some 2)).
Proof.
  eexists. split; [vm_compute; reflexivity|].
  apply (@rel_fwd_rev_mirror Bench.plenty Bench.msort Bench.msort_spec [0; 2; 0] [1; 0; 1] 3 2 false);
    [reflexivity|lia|lia|vm_compute; reflexivity|lia|lia].
Defined.

(** [csr_sort_adjacency_lists] on any laid-out index: it stays inside the
    arrays, terminates, sorts every adjacency list by target, moves each row
    number with its target, leaves every other node's slice alone, and leaves
    an adjacency list already in order exactly as it is. *)
Theorem csr_sort_sorts N adj off t r :
  0 ≤ N → offs N adj off → chunks N adj t r →
  ∃ t' r' adj', csr_sort_adjacency_lists N off t (Some r) = Some (t', Some r') ∧
    chunks N adj' t' r' ∧ zlen t' = zlen t ∧ zlen r' = zlen r ∧
    (∀ k, adj' k ≡ₚ adj k) ∧
    ∀ k, 0 ≤ k < N → StronglySorted le1 (adj' k) ∧ (StronglySorted le1 (adj k) → adj' k = adj k).
Proof. apply csr_sort_ok. Qed.

Lemma csr_sort_sorts_witness :
  let adj k := if k =? 0 then [(9, 0); (4, 1); (6, 2)] else [(2, 3)] in
  ∃ t' r' adj', csr_sort_adjacency_lists 2 [0; 3; 4] [9; 4; 6; 2] (Some [0; 1; 2; 3]) = Some (t', Some r') ∧
    chunks 2 adj' t' r' ∧ zlen t' = 4 ∧ zlen r' = 4 ∧
    (∀ k, adj' k ≡ₚ adj k) ∧
    ∀ k, 0 ≤ k < 2 → StronglySorted le1 (adj' k) ∧ (StronglySorted le1 (adj k) → adj' k = adj k).
Proof.
  intros adj. apply (csr_sort_sorts 2 adj [0; 3; 4] [9; 4; 6; 2] [0; 1; 2; 3]); [lia| |].
  - split; [reflexivity|]. intros k Hk. assert (k = 0 ∨ k = 1 ∨ k = 2) as [->|[->| ->]] by lia; reflexivity.
  - intros k Hk. assert (k = 0 ∨ k = 1) as [->| ->] by lia.
    + split; intros j Hj; change (0 ≤ j < 3) in Hj;
        assert (j = 0 ∨ j = 1 ∨ j = 2) as [->|[->| ->]] by lia; reflexivity.
    + split; intros j Hj; change (0 ≤ j < 1) in Hj; assert (j = 0) as -> by lia; reflexivity.
Defined.

(** C40. Loading an index from untrusted files: as long as each column file
    holds a vector of 64-bit words of its announced length, [csr_load_impl]
    never reads out of bounds, and an index it accepts gives, for every node,
    a slice that lies inside [targets]. *)
Theorem csr_load_safe `{ColFiles} dir prefix f :
  (∀ p v, col_load p f = Some v → vlen v = zlen (words v)) →
  ∃ res, csr_load_impl dir prefix f = Some res ∧
    ∀ c, res = Some c → ∃ t, targets c = Some t ∧
      ∀ u, ∃ pos cnt, ray_csr_neighbors c u = Some (pos, cnt) ∧ 0 ≤ cnt ∧
        (∀ p, pos = Some p → 0 ≤ p ∧ p + cnt ≤ zlen (words t)) ∧
        (pos = None → cnt = 0).
Proof.
  intros Hty. unfold csr_load_impl.
  destruct (path_fits _); cbn [negb]; [|by exists None].
  destruct (col_load (csr_path dir prefix "_offsets") f) as [o|] eqn:Ho; [|by exists None].
  destruct (path_fits _); cbn [negb]; [|by exists None].
  destruct (col_load (csr_path dir prefix "_targets") f) as [t|] eqn:Ht; [|by exists None].
  destruct (path_fits _); cbn [negb]; [|by exists None].
  apply Hty in Ho, Ht. destruct (Z.ltb_spec (vlen o) 1); [by exists None|].
  destruct (zget_is_Some (words o) (vlen o - 1)) as [last Hlast]; [lia|]. rewrite Hlast. cbn [mbind option_bind].
  destruct (Z.eqb_spec last (vlen t)) as [->|]; cbn [negb]; [|by exists None].
  destruct (offsets_monotone_ok (words o) (vlen o - 1) 0 (Z.to_nat (vlen o - 1))) as (b & -> & Hb); [lia..|].
  cbn [mbind option_bind]. destruct b; cbn [negb]; [|by exists None]. pose proof (proj1 Hb eq_refl) as Hm.
  eexists. split; [done|]. intros c E. injection E as <-. exists t. split; [done|]. intros u.
  unfold ray_csr_neighbors. cbn [offsets targets n_nodes].
  destruct (Z.ltb_spec u 0), (Z.leb_spec (vlen o - 1) u); cbn [orb]; [by exists None, 0..|].
  destruct (zget_is_Some (words o) (u + 1)) as [y Hy]; [lia|].
  destruct (zget_is_Some (words o) u) as [x Hx]; [lia|]. rewrite Hy, Hx. cbn [mbind option_bind].
  pose proof (Hm u x y ltac:(lia) Hx Hy).
  pose proof (monotone_bounded (words o) (vlen o - 1) (vlen t) Hm ltac:(lia) Hlast
    (Z.to_nat (vlen o - 1 - (u + 1))) (u + 1) y ltac:(lia) ltac:(lia) Hy).
  exists (Some x), (y - x). split_and!; [done|lia| |done]. intros p E. injection E as <-. lia.
Qed.

Lemma csr_load_safe_witness :
  let f : @files Bench.disk :=
    {["d/fwd_offsets" := Ivec 3 [0; 1; 2]; "d/fwd_targets" := Ivec 2 [1; 0]]} in
  ∃ res, @csr_load_impl Bench.disk "d" "fwd" f = Some res ∧
    ∀ c, res = Some c → ∃ t, targets c = Some t ∧
      ∀ u, ∃ pos cnt, ray_csr_neighbors c u = Some (pos, cnt) ∧ 0 ≤ cnt ∧
        (∀ p, pos = Some p → 0 ≤ p ∧ p + cnt ≤ zlen (words t)) ∧
        (pos = None → cnt = 0).
Proof.
  intros f. apply (@csr_load_safe Bench.disk "d" "fwd" f). intros p v E.
  by destruct (Bench.lookup_two _ _ _ _ _ _ E) as [->| ->].
Defined.

(** The element types of the loaded columns are not checked: an offsets
    file of a narrower type, announcing more elements than the block has
    64-bit words, makes [csr_load_impl] read past the block. *)
Theorem csr_load_untyped_overread `{ColFiles} dir prefix f o t :
  path_fits (csr_path dir prefix "_offsets") = true → path_fits (csr_path dir prefix "_targets") = true →
  path_fits (csr_path dir prefix "_rowmap") = true →
  col_load (csr_path dir prefix "_offsets") f = Some o →
  col_load (csr_path dir prefix "_targets") f = Some t →
  1 ≤ vlen o → zlen (words o) < vlen o →
  csr_load_impl dir prefix f = None.
Proof.
  intros P1 P2 P3 Ho Ht Hl Hw. unfold csr_load_impl. rewrite P1, P2, P3. cbn [negb]. rewrite Ho, Ht.
  rewrite (proj2 (Z.ltb_ge _ _)) by lia. by rewrite zget_out by lia.
Qed.

Lemma csr_load_untyped_overread_witness :
  let f : @files Bench.disk :=
    {["d/fwd_offsets" := Ivec 64 [0; 0; 0; 0; 0; 0; 0; 0]; "d/fwd_targets" := Ivec 0 []]} in
  @csr_load_impl Bench.disk "d" "fwd" f = None.
Proof.
  intros f. apply (@csr_load_untyped_overread Bench.disk "d" "fwd" f
    (Ivec 64 [0; 0; 0; 0; 0; 0; 0; 0]) (Ivec 0 [])); try reflexivity; cbn; lia.
Defined.

(** A relation with valid indexes that [ray_rel_save] wrote loads back
    unchanged, whatever was on disk before: both indexes with their sorted
    flags, the table ids and the name; only the attached property table is not
    saved. *)
Theorem rel_save_load_roundtrip `{ColFilesSpec} `{Heap} rel dir f f' :
  csr_valid (fwd rel) → csr_valid (rev rel) → in_u 16 (from_table rel) → in_u 16 (to_table rel) →
  alloc_ok 128 = true → ray_rel_save true rel dir f = Some f' →
  rel_load_impl dir f' =
    Some (Some (Rel (from_table rel) (to_table rel) (name_sym rel)
                    (bare (fwd rel) (sorted (fwd rel))) (bare (rev rel) (sorted (rev rel))))).
Proof.
  intros Hf Hr Hft Htt Ha. unfold ray_rel_save, rel_load_impl. rewrite Ha. cbn [negb].
  destruct (csr_save (fwd rel) dir "fwd" f) as [f1|] eqn:S1; [|done]. cbn [mbind option_bind].
  destruct (csr_save (rev rel) dir "rev" f1) as [f2|] eqn:S2; [|done]. cbn [mbind option_bind].
  destruct (path_fits (dir +:+ "/meta")) eqn:P; [|done]. cbn [negb].
  destruct (alloc_ok 40); [|done]. cbn [negb]. intros S3.
  apply csr_save_ok in S1 as [D1 _]; [|done]. apply csr_save_ok in S2 as [D2 O2]; [|done].
  assert (Hmeta : ∀ p l, "/meta"%string ≠ "/" +:+ p +:+ l → col_load (csr_path dir p l) f' = col_load (csr_path dir p l) f2).
  { intros p l Hne. eapply col_load_other; [exact S3|]. unfold csr_path. intros E. simplify_eq. }
  rewrite (csr_load_on_disk (fwd rel) dir "fwd"); [|done|].
  2: { intros leaf v Hin. destruct (D1 leaf v Hin) as [P1 L1]. split; [done|].
    rewrite Hmeta by discriminate. rewrite O2; [done|]. intros l' _. apply csr_path_ne. discriminate. }
  cbn [mbind option_bind]. rewrite (csr_load_on_disk (rev rel) dir "rev"); [|done|].
  2: { intros leaf v Hin. destruct (D2 leaf v Hin) as [P1 L1]. split; [done|]. by rewrite Hmeta by discriminate. }
  cbn [mbind option_bind]. rewrite (col_load_save _ _ _ _ S3).
  transitivity (Some (Some (Rel (u16 (from_table rel)) (u16 (to_table rel)) (name_sym rel)
    (set_sorted (bare (fwd rel) false) (negb ((if sorted (fwd rel) then 1 else 0) =? 0)))
    (set_sorted (bare (rev rel) false) (negb ((if sorted (rev rel) then 1 else 0) =? 0)))))); [reflexivity|].
  rewrite !wrap_id by done. by destruct (sorted (fwd rel)), (sorted (rev rel)).
Qed.

Lemma rel_save_load_roundtrip_witness :
  let c := Csr (Some (Ivec 3 [0; 1; 2])) (Some (Ivec 2 [1; 0])) (Some (Ivec 2 [0; 1])) (Some 5) 2 2 true in
  let rel := Rel 3 4 (-1) c c in
  ∃ f', @ray_rel_save Bench.disk Bench.plenty true rel "db" ∅ = Some f' ∧
  @rel_load_impl Bench.disk Bench.plenty "db" f' =
    Some (Some (Rel 3 4 (-1) (bare c true) (bare c true))).
Proof.
  intros c rel. eexists. split; [reflexivity|].
  assert (Hv : csr_valid c).
  { exists (Ivec 3 [0; 1; 2]), (Ivec 2 [1; 0]), (Ivec 2 [0; 1]).
    split_and!; try (reflexivity || (vm_compute; congruence)).
    intros k x y Hk E1 E2. cbn in Hk. assert (k = 0 ∨ k = 1) as [->| ->] by lia;
      vm_compute in E1, E2; simplify_eq; lia. }
  apply (@rel_save_load_roundtrip Bench.disk Bench.disk_spec Bench.plenty rel "db" ∅); try done.
Defined.
