(* ===== verification/Lftj.v ===== *)
(** * Leapfrog triejoin ([src/src/ops/lftj.c], [lftj.h])

    The worst-case optimal join enumerates the bindings of the pattern's
    variables depth by depth: the candidates of a variable are the values that
    all adjacency lists opened for it share, found by leapfrogging iterators.
    The cancellation flag and the allocator are parameters. *)

From S2P Require Import Prelude Csr.
Local Open Scope Z_scope.

Definition LFTJ_MAX_VARS : Z := 16.
Definition LFTJ_MAX_ITERS_PER_VAR : Z := 8.

(** ** Iterators *)

(** [ray_lftj_iter_t]; [None] is a null [targets]. *)
Record lftj_iter := Iter { it_targets : option (list Z); it_start : Z; it_end : Z; it_pos : Z }.

Definition lftj_key (it : lftj_iter) : option Z :=
  match it_targets it with
  | None => Some INT64_MAX
  | Some t => if it_end it <=? it_pos it then Some INT64_MAX else t.[it_pos it]
  end.

Definition lftj_at_end (it : lftj_iter) : bool :=
  match it_targets it with None => true | Some _ => it_end it <=? it_pos it end.

Definition set_pos (it : lftj_iter) (p : Z) : lftj_iter := Iter (it_targets it) (it_start it) (it_end it) p.

Definition lftj_next (it : lftj_iter) : lftj_iter :=
  if it_pos it <? it_end it then set_pos it (it_pos it + 1) else it.

(** The binary search of [lftj_seek]; the range halves, so its length suffices
    as fuel. *)
Fixpoint seek_loop (fuel : nat) (t : list Z) (v lo hi : Z) : option Z :=
  if lo <? hi then
    match fuel with
    | O => None
    | S fuel =>
        let mid := lo + (hi - lo) `quot` 2 in
        x ← t.[mid];
        if x <? v then seek_loop fuel t v (mid + 1) hi else seek_loop fuel t v lo mid
    end
  else Some lo.

Definition lftj_seek (it : lftj_iter) (v : Z) : option lftj_iter :=
  match it_targets it with
  | None => Some (set_pos it (it_end it))
  | Some t =>
      lo ← seek_loop (Z.to_nat (it_end it - it_pos it)) t v (it_pos it) (it_end it);
      Some (set_pos it lo)
  end.

Definition lftj_open (csr : ray_csr) (parent : Z) : option lftj_iter :=
  match offsets csr, targets csr with
  | Some o, Some t =>
      if (parent <? 0) || (n_nodes csr <=? parent) then Some (Iter None 0 0 0) else
      a ← (words o).[parent];
      b ← (words o).[parent + 1];
      Some (Iter (Some (words t)) a b a)
  | _, _ => Some (Iter None 0 0 0)
  end.

(** ** Leapfrog search *)

(** The index of the largest key. *)
Definition find_max (iters : list lftj_iter) : option Z :=
  foldM (λ i max_idx,
    a ← iters.[i]; ka ← lftj_key a;
    b ← iters.[max_idx]; kb ← lftj_key b;
    Some (if kb <? ka then i else max_idx)) (range 1 (zlen iters)) 0.

(** Whether all keys are [v]. *)
Fixpoint all_keys (v : Z) (iters : list lftj_iter) : option bool :=
  match iters with
  | [] => Some true
  | it :: iters => k ← lftj_key it; if negb (k =? v) then Some false else all_keys v iters
  end.

(** How a turn of the loop ends. *)
Inductive turn := Exhausted | Found (v : Z) | Leap (next : Z).

Definition leap_step (iters : list lftj_iter) (max_idx : Z) : option (list lftj_iter * turn) :=
  m ← iters.[max_idx];
  max_val ← lftj_key m;
  let next := (max_idx + 1) `rem` (zlen iters) in
  it ← iters.[next];
  it ← lftj_seek it max_val;
  iters ← zset iters next it;
  if lftj_at_end it then Some (iters, Exhausted) else
  k ← lftj_key it;
  all_equal ← (if k =? max_val then all_keys max_val iters else Some false);
  Some (iters, if all_equal : bool then Found max_val else Leap next).

Fixpoint leap_loop (fuel : nat) (iters : list lftj_iter) (max_idx : Z) :
    option (list lftj_iter * option Z) :=
  res ← leap_step iters max_idx;
  match res with
  | (iters, Exhausted) => Some (iters, None)
  | (iters, Found v) => Some (iters, Some v)
  | (iters, Leap next) =>
      match fuel with
      | O => None
      | S fuel => leap_loop fuel iters next
      end
  end.

(** What the iterators have left. *)
Definition remaining (iters : list lftj_iter) : Z := zsum (map (λ it, it_end it - it_pos it) iters).

(** [leapfrog_search]: the iterators, moved, and the value found. Between two
    advances of an iterator there are fewer than [k] turns. *)
Definition leapfrog_search (iters : list lftj_iter) : option (list lftj_iter * option Z) :=
  if zlen iters <=? 0 then Some (iters, None) else
  if existsb lftj_at_end iters then Some (iters, None) else
  max_idx ← find_max iters;
  leap_loop (Z.to_nat (zlen iters * (remaining iters + 1))) iters max_idx.

(** ** Plans *)
Record lftj_binding := Binding { b_csr : option ray_csr; bound_var : Z }.
Definition var_plan := list lftj_binding.

(** One relation of [lftj_build_plan]: [None] is [return false]. *)
Definition plan_rel (n_vars : Z) (r : ray_rel * (Z * Z)) (plans : list var_plan) : option (list var_plan) :=
  let '(rel, (sv, dv)) := r in
  if sv =? dv then Some plans else
  if (n_vars <=? sv) || (n_vars <=? dv) then None else
  let '(v, b) := if sv <? dv then (dv, Binding (Some (fwd rel)) sv)
                 else (sv, Binding (Some (rev rel)) dv) in
  vp ← plans.[v];
  if LFTJ_MAX_ITERS_PER_VAR <=? zlen vp then None else zset plans v (vp ++ [b]).

(** [lftj_build_plan] on relations paired with their two variables. *)
Definition lftj_build_plan (rels : list (ray_rel * (Z * Z))) (n_vars : Z) : option (list var_plan) :=
  if LFTJ_MAX_VARS <? n_vars then None else
  foldM (plan_rel n_vars) rels (replicate (Z.to_nat n_vars) []).

Definition lftj_build_default_plan (rels : list ray_rel) (n_vars : Z) : option (list var_plan) :=
  let n_rels := zlen rels in
  if (n_vars =? 3) && (n_rels =? 3) then
    lftj_build_plan (zip rels [(0, 1); (1, 2); (0, 2)]) n_vars
  else if n_vars =? 2 then
    if 16 <? n_rels then None else lftj_build_plan (map (λ r, (r, (0, 1))) rels) n_vars
  else if (n_vars =? 4) && (n_rels =? 6) then
    lftj_build_plan (zip rels [(0, 1); (0, 2); (0, 3); (1, 2); (1, 3); (2, 3)]) n_vars
  else if n_rels =? n_vars - 1 then
    if 16 <? n_rels then None
    else lftj_build_plan (imap (λ r rel, (rel, (Z.of_nat r, Z.of_nat r + 1))) rels) n_vars
  else None.

(** ** Enumeration *)

(** The part of [lftj_enum_ctx_t] that changes; [polls] counts the calls of
    [ray_interrupted]. *)
Record ctx := Ctx {
  bound : list Z; col_data : list (list Z); out_count : Z; out_cap : Z;
  oom : bool; cancelled : bool; polls : nat
}.

Section enumerate.
Context `{Heap} (intr : nat → bool) (plans : list var_plan).

Definition n_vars : Z := zlen plans.

(** [lftj_grow_output]: all columns move to larger blocks, or none. *)
Definition lftj_grow_output (c : ctx) : option ctx :=
  if INT64_MAX `quot` 2 <? out_cap c then None else
  let new_cap := if out_cap c <? 64 then 64 else out_cap c * 2 in
  if forallb (λ _, alloc_ok (new_cap * 8)) plans then
    Some (Ctx (bound c)
      (map (λ col, take (Z.to_nat (out_count c)) col ++ drop (Z.to_nat (out_count c)) (fresh new_cap))
           (col_data c))
      (out_count c) new_cap (oom c) (cancelled c) (polls c))
  else None.

Definition set_oom (c : ctx) : ctx :=
  Ctx (bound c) (col_data c) (out_count c) (out_cap c) true (cancelled c) (polls c).

(** Writing the bound tuple at [out_count], after growing if need be. *)
Definition emit (c : ctx) : option ctx :=
  match (if out_cap c <=? out_count c then lftj_grow_output c else Some c) with
  | None => Some (set_oom c)
  | Some c =>
      cols ← foldM (λ v cols,
        col ← cols.[v]; x ← (bound c).[v];
        col ← zset col (out_count c) x; zset cols v col) (range 0 n_vars) (col_data c);
      Some (Ctx (bound c) cols (out_count c + 1) (out_cap c) (oom c) (cancelled c) (polls c))
  end.

(** A cancellation checkpoint. *)
Definition poll (c : ctx) : ctx :=
  Ctx (bound c) (col_data c) (out_count c) (out_cap c) (oom c) (cancelled c || intr (polls c)) (S (polls c)).

Definition bind_var (c : ctx) (depth v : Z) : option ctx :=
  b ← zset (bound c) depth v;
  Some (Ctx b (col_data c) (out_count c) (out_cap c) (oom c) (cancelled c) (polls c)).

Definition stopped (c : ctx) : bool := oom c || cancelled c.

(** The body shared by the two loops: poll, bind, recurse. *)
Definition try_value (rec : ctx → option ctx) (depth v : Z) (c : ctx) : option ctx :=
  let c := poll c in
  if intr (pred (polls c)) then Some c else
  c ← bind_var c depth v;
  rec c.

(** The root loop: [for (a = 0; a < n_nodes; a++)]. *)
Fixpoint root_loop (rec : ctx → option ctx) (vals : list Z) (c : ctx) : option ctx :=
  match vals with
  | [] => Some c
  | a :: vals =>
      c ← try_value rec 0 a c;
      if stopped c then Some c else root_loop rec vals c
  end.

(** [while (leapfrog_search(...))]: every match advances every iterator. *)
Fixpoint match_loop (fuel : nat) (rec : ctx → option ctx) (depth : Z) (iters : list lftj_iter) (c : ctx) :
    option ctx :=
  res ← leapfrog_search iters;
  match res with
  | (_, None) => Some c
  | (iters, Some val) =>
      match fuel with
      | O => None
      | S fuel =>
          c ← try_value rec depth val c;
          if stopped c then Some c
          else match_loop fuel rec depth (map lftj_next iters) c
      end
  end.

(** The largest node count of the CSRs in the plan. *)
Definition max_nodes : Z :=
  foldl (λ m (b : lftj_binding), match b_csr b with Some c => if m <? n_nodes c then n_nodes c else m | None => m end)
        0 (mjoin plans).

(** Opening the iterators of a variable: [Some None] when a parent is out of
    range, which ends the enumeration at this depth. *)
Fixpoint open_all (bnd : list Z) (vp : var_plan) : option (option (list lftj_iter)) :=
  match vp with
  | [] => Some (Some [])
  | b :: vp =>
      match b_csr b with
      | None => Some None
      | Some csr =>
          parent ← bnd.[bound_var b];
          if (parent <? 0) || (n_nodes csr <=? parent) then Some None else
          it ← lftj_open csr parent;
          rest ← open_all bnd vp;
          Some (match rest with Some its => Some (it :: its) | None => None end)
      end
  end.

(** [lftj_enumerate]; [fuel] bounds the depth of the recursion. *)
Fixpoint lftj_enumerate (fuel : nat) (depth : Z) (c : ctx) : option ctx :=
  if oom c then Some c else
  if depth =? n_vars then emit c else
  match fuel with
  | O => None
  | S fuel =>
      let rec := lftj_enumerate fuel (depth + 1) in
      vp ← plans.[depth];
      if zlen vp =? 0 then
        if negb (depth =? 0) then Some c else
        if max_nodes =? 0 then Some c else root_loop rec (range 0 max_nodes) c
      else
        its ← open_all (bound c) vp;
        match its with
        | None => Some c
        | Some iters => match_loop (Z.to_nat (remaining iters)) rec depth iters c
        end
  end.
End enumerate.
