(* ===== verification/LftjProofs.v ===== *)
(** * Lemmas on leapfrog triejoin

    Iterators over sorted slices, what a leapfrog search finds, and the
    candidates a variable goes through. *)

From stdpp Require Import sorting.
From S2P Require Import Prelude Csr CsrProofs Lftj.
Local Open Scope Z_scope.
#[local] Arguments zget : simpl never.

(** ** Iterators over slices *)

(** The iterator has exactly [l] left. *)
Definition at_ (it : lftj_iter) (l : list Z) : Prop :=
  ∃ t, it_targets it = Some t ∧ holds t (it_pos it) l ∧ it_end it = it_pos it + zlen l ∧ 0 ≤ it_pos it.

Abbreviation asc := (StronglySorted Z.le).

Fixpoint drop_lt (v : Z) (l : list Z) : list Z :=
  match l with [] => [] | x :: l' => if x <? v then drop_lt v l' else l end.

Lemma drop_lt_split v l1 l2 :
  Forall (λ x, x < v) l1 → Forall (λ x, v ≤ x) l2 → drop_lt v (l1 ++ l2) = l2.
Proof.
  intros H1 H2. induction H1 as [|x l1 Hx _ IH]; cbn.
  - destruct H2 as [|x l2 Hx _]; [done|]. cbn. by rewrite (proj2 (Z.ltb_ge _ _)).
  - by rewrite (proj2 (Z.ltb_lt _ _)).
Qed.

Lemma at_at_end it l : at_ it l → lftj_at_end it = true ↔ l = [].
Proof.
  intros (t & Ht & _ & He & _). unfold lftj_at_end. rewrite Ht, He. destruct l as [|x l].
  - unfold zlen. simpl. rewrite Z.add_0_r, Z.leb_refl. done.
  - rewrite zlen_cons. pose proof (zlen_nonneg l). rewrite (proj2 (Z.leb_gt _ _)) by lia. done.
Qed.
Lemma at_key it x l : at_ it (x :: l) → lftj_key it = Some x.
Proof.
  intros (t & Ht & Hh & He & _). unfold lftj_key. rewrite Ht, He.
  rewrite zlen_cons. pose proof (zlen_nonneg l). rewrite (proj2 (Z.leb_gt _ _)) by lia.
  specialize (Hh 0). rewrite Z.add_0_r in Hh. apply Hh. rewrite zlen_cons. lia.
Qed.
Lemma at_next it x l : at_ it (x :: l) → at_ (lftj_next it) l.
Proof.
  intros (t & Ht & Hh & He & Hp). unfold lftj_next. rewrite zlen_cons in He. pose proof (zlen_nonneg l).
  rewrite (proj2 (Z.ltb_lt _ _)) by lia. exists t. cbn. split_and!; [done| |lia|lia].
  change (x :: l) with ([x] ++ l) in Hh. by apply holds_app_inv in Hh as [_ Hh].
Qed.

(** The binary search, on the part of the slice still in question. *)
Lemma seek_loop_ok t v fuel : ∀ lo l,
  0 ≤ lo → zlen l ≤ Z.of_nat fuel → holds t lo l → asc l →
  ∃ l1 l2, l = l1 ++ l2 ∧ Forall (λ x, x < v) l1 ∧ Forall (λ x, v ≤ x) l2 ∧
    seek_loop fuel t v lo (lo + zlen l) = Some (lo + zlen l1).
Proof.
  induction fuel as [|fuel IH]; intros lo l Hlo Hf Hh Hs; cbn [seek_loop].
  all: destruct (Z.ltb_spec lo (lo + zlen l)) as [Hlt|Hge];
    [|assert (l = []) as -> by (destruct l; [done|rewrite zlen_cons in Hge; pose proof (zlen_nonneg l); lia]);
      exists [], []; split_and!; [done..|unfold zlen; simpl; f_equal; lia]].
  - lia.
  - rewrite Z.quot_div_nonneg by lia. replace (lo + zlen l - lo) with (zlen l) by lia.
    set (m := zlen l / 2). assert (Hm : 0 ≤ m < zlen l).
    { unfold m. pose proof (Z.div_mod (zlen l) 2). pose proof (Z.mod_pos_bound (zlen l) 2). lia. }
    destruct (zget_is_Some l m) as [x Hx]; [done|].
    pose proof (take_drop_middle l (Z.to_nat m) x) as Hsplit.
    unfold zget in Hx. rewrite (proj2 (Z.leb_le _ _)) in Hx by lia. specialize (Hsplit Hx).
    set (a := take (Z.to_nat m) l) in *. set (b := drop (S (Z.to_nat m)) l) in *.
    assert (Hla : zlen a = m) by (unfold a; rewrite zlen_take; lia).
    rewrite <- Hsplit in Hh, Hs. rewrite Hh by (rewrite Hsplit; lia).
    rewrite zget_app_r by lia. rewrite Hla, Z.sub_diag, zget_cons_0. cbn.
    assert (Hll : zlen l = m + 1 + zlen b).
    { rewrite <- Hsplit at 1. rewrite zlen_app, zlen_cons, Hla. lia. }
    apply holds_app_inv in Hh as [Hha Hhb]. change (x :: b) with ([x] ++ b) in Hhb.
    apply holds_app_inv in Hhb as [_ Hhb]. change (zlen [x]) with 1 in Hhb. rewrite Hla in Hhb.
    apply StronglySorted_app in Hs as (Hab & Hsa & Hsb). inversion_clear Hsb as [|? ? Hsb' Hxb].
    destruct (Z.ltb_spec x v) as [Hxv|Hxv].
    + destruct (IH (lo + m + 1) b) as (l1 & l2 & E & H1 & H2 & Hrun); [lia|lia|done|done|].
      replace (lo + m + 1 + zlen b) with (lo + zlen l) in Hrun by lia. rewrite Hrun.
      exists (a ++ x :: l1), l2. split_and!; [|apply Forall_app_2; [|by constructor]|done|].
      * rewrite <- Hsplit, E, <- app_assoc. done.
      * apply Forall_forall. intros y Hy. specialize (Hab y x Hy ltac:(set_solver)). lia.
      * f_equal. rewrite zlen_app, zlen_cons. lia.
    + destruct (IH lo a) as (l1 & l2 & E & H1 & H2 & Hrun); [lia|lia|done|done|].
      rewrite Hla in Hrun. rewrite Hrun. exists l1, (l2 ++ x :: b).
      split_and!; [by rewrite app_assoc, <- E|done| |done].
      apply Forall_app_2; [done|]. constructor; [done|]. eapply Forall_impl; [done|]. simpl. lia.
Qed.

Lemma at_seek it l v : at_ it l → asc l → ∃ it', lftj_seek it v = Some it' ∧ at_ it' (drop_lt v l).
Proof.
  intros (t & Ht & Hh & He & Hp) Hs. unfold lftj_seek. rewrite Ht, He.
  replace (it_pos it + zlen l - it_pos it) with (zlen l) by lia.
  destruct (seek_loop_ok t v (Z.to_nat (zlen l)) (it_pos it) l) as (l1 & l2 & -> & H1 & H2 & ->);
    [done|pose proof (zlen_nonneg l); lia|done..|]. cbn.
  eexists. split; [done|]. rewrite drop_lt_split by done. exists t. cbn. rewrite Ht, He.
  apply holds_app_inv in Hh as [_ Hh]. rewrite zlen_app. pose proof (zlen_nonneg l1).
  split_and!; [done|done|lia|lia].
Qed.

(** ** Multiplicities *)
Fixpoint count (v : Z) (l : list Z) : nat :=
  match l with [] => 0 | x :: l => (if x =? v then 1 else 0) + count v l end.

(** How often [v] occurs in every one of the lists. *)
Definition mincnt (v : Z) (Ls : list (list Z)) : nat :=
  match Ls with [] => 0 | L :: Ls => foldr (λ l m, Nat.min (count v l) m) (count v L) Ls end.

Definition same_common (Ls Ls' : list (list Z)) : Prop := ∀ v, mincnt v Ls = mincnt v Ls'.

Lemma mincnt_spec v Ls n : Ls ≠ [] →
  (n ≤ mincnt v Ls)%nat ↔ Forall (λ l, (n ≤ count v l)%nat) Ls.
Proof.
  destruct Ls as [|L Ls]; [done|]. intros _. cbn. induction Ls as [|l Ls IH]; cbn.
  - rewrite Forall_singleton. done.
  - rewrite Nat.min_glb_iff. rewrite !Forall_cons in *. naive_solver.
Qed.
Lemma mincnt_eq v Ls Ls' : Ls ≠ [] → Ls' ≠ [] →
  (∀ n, Forall (λ l, (n ≤ count v l)%nat) Ls ↔ Forall (λ l, (n ≤ count v l)%nat) Ls') →
  mincnt v Ls = mincnt v Ls'.
Proof.
  intros H1 H2 H. apply Nat.le_antisymm.
  - apply mincnt_spec; [done|]. apply H. by apply mincnt_spec.
  - apply mincnt_spec; [done|]. apply H. by apply mincnt_spec.
Qed.
Lemma mincnt_zero v Ls l : l ∈ Ls → count v l = 0%nat → mincnt v Ls = 0%nat.
Proof.
  intros Hl H0. assert (Hne : Ls ≠ []) by (intros ->; set_solver).
  pose proof (proj1 (mincnt_spec v Ls (mincnt v Ls) Hne) ltac:(lia)) as H.
  eapply Forall_forall in H; [|exact Hl]. simpl in H. lia.
Qed.

Lemma count_app v l1 l2 : count v (l1 ++ l2) = (count v l1 + count v l2)%nat.
Proof. induction l1 as [|x l1 IH]; cbn; [done|]. rewrite IH. lia. Qed.
Lemma count_zero v l : Forall (λ x, x ≠ v) l → count v l = 0%nat.
Proof. induction 1 as [|x l Hx _ IH]; cbn; [done|]. rewrite (proj2 (Z.eqb_neq _ _)) by done. done. Qed.
Lemma count_drop_lt v w l : w ≤ v → count v (drop_lt w l) = count v l.
Proof.
  intros Hw. induction l as [|x l IH]; cbn; [done|]. destruct (Z.ltb_spec x w); [|done].
  rewrite IH, (proj2 (Z.eqb_neq _ _)) by lia. done.
Qed.
Lemma drop_lt_suffix v l : ∃ l1, l = l1 ++ drop_lt v l.
Proof.
  induction l as [|x l [l1 IH]]; cbn; [by exists []|]. destruct (x <? v); [|by exists []].
  exists (x :: l1). cbn. by rewrite <- IH.
Qed.
Lemma drop_lt_asc v l : asc l → asc (drop_lt v l).
Proof. intros H. destruct (drop_lt_suffix v l) as [l1 E]. rewrite E in H. by apply StronglySorted_app_1_r in H. Qed.
Lemma drop_lt_zlen v l : zlen (drop_lt v l) ≤ zlen l.
Proof.
  destruct (drop_lt_suffix v l) as [l1 E]. rewrite E at 2. rewrite zlen_app. pose proof (zlen_nonneg l1). lia.
Qed.
Lemma drop_lt_head v l x l' : drop_lt v l = x :: l' → v ≤ x.
Proof.
  induction l as [|y l IH]; cbn; [done|]. destruct (Z.ltb_spec y v); [done|]. intros E. by simplify_eq.
Qed.
Lemma asc_head x l : asc (x :: l) → Forall (λ y, x ≤ y) (x :: l).
Proof. inversion_clear 1. by constructor. Qed.

(** Skipping values below the head of another list loses nothing common. *)
Lemma same_common_skip (Ls : list (list Z)) (i : nat) l M l0 :
  Ls !! i = Some l → l0 ∈ Ls → Forall (λ y, M ≤ y) l0 → Forall (λ y, M ≤ y) (drop_lt M l) →
  same_common Ls (<[i := drop_lt M l]> Ls).
Proof.
  intros Hi Hl0 HM Hdrop v. pose proof (lookup_lt_Some _ _ _ Hi) as Hlt.
  destruct (Z.lt_ge_cases v M) as [Hv|Hv].
  - rewrite (mincnt_zero v Ls l0), (mincnt_zero v _ (drop_lt M l)); [done|..].
    + apply list_elem_of_lookup_2 with i. by apply list_lookup_insert_eq.
    + apply count_zero. eapply Forall_impl; [done|]. simpl. lia.
    + done.
    + apply count_zero. eapply Forall_impl; [done|]. simpl. lia.
  - apply mincnt_eq; [by intros ->|by destruct Ls, i|]. intros n.
    rewrite insert_take_drop by done. rewrite <- (take_drop_middle Ls i l Hi) at 1.
    rewrite !Forall_app, !Forall_cons, count_drop_lt by lia. done.
Qed.

(** ** Leapfrog search *)
Abbreviation headed v := (λ l : list Z, ∃ l', l = v :: l').

Lemma at_remaining iters Ls : Forall2 at_ iters Ls → remaining iters = zsum (map zlen Ls).
Proof.
  unfold remaining. induction 1 as [|it l its ls (t & _ & _ & He & _) _ IH]; [done|].
  cbn [map]. unfold zsum in *. cbn. rewrite IH. lia.
Qed.
Lemma all_keys_ok iters Ls v :
  Forall2 at_ iters Ls → Forall (λ l, l ≠ []) Ls → ∃ b, all_keys v iters = Some b ∧ (b = true ↔ Forall (headed v) Ls).
Proof.
  induction 1 as [|it l its ls Hit _ IH]; intros Hne; cbn.
  - exists true. split; [done|]. by split; [intros _; constructor|].
  - inversion_clear Hne as [|? ? Hl Hne']. destruct l as [|x l]; [done|].
    rewrite (at_key _ _ _ Hit). cbn. destruct (Z.eqb_spec x v) as [->|Hx]; cbn.
    + destruct (IH Hne') as (b & -> & Hb). exists b. split; [done|]. rewrite Forall_cons. naive_solver.
    + exists false. split; [done|]. split; [done|]. inversion_clear 1 as [|? ? [l' E] _]. by simplify_eq.
Qed.

Lemma exists_at_end iters Ls : Forall2 at_ iters Ls → existsb lftj_at_end iters = true ↔ [] ∈ Ls.
Proof.
  induction 1 as [|it l its ls Hit _ IH]; cbn.
  - split; [done|set_solver].
  - rewrite orb_true_iff, IH, (at_at_end _ _ Hit), elem_of_cons. naive_solver.
Qed.

Section search.
Context (iters : list lftj_iter) (Ls : list (list Z)).
Hypothesis Hat : Forall2 at_ iters Ls.

Lemma at_lookup i l : Ls.[i] = Some l → ∃ it, iters.[i] = Some it ∧ at_ it l.
Proof.
  unfold zget. destruct (0 <=? i); [|done]. intros Hi.
  destruct (Forall2_lookup_r _ _ _ _ _ Hat Hi) as (it & ? & ?). eauto.
Qed.
Lemma at_zlen : zlen Ls = zlen iters.
Proof. unfold zlen. by rewrite (Forall2_length _ _ _ Hat). Qed.
Lemma at_update i it l iters' :
  zset iters i it = Some iters' → at_ it l → Forall2 at_ iters' (<[Z.to_nat i := l]> Ls).
Proof. intros [_ ->]%zset_inv Hl. by apply Forall2_insert. Qed.



(** [m] is an index with the largest head. *)
Definition is_max (m : Z) (M : Z) : Prop :=
  (∃ l, Ls.[m] = Some (M :: l)) ∧ ∀ i x l, Ls.[i] = Some (x :: l) → x ≤ M.

Lemma zget_nonempty i : Forall (λ l, l ≠ []) Ls → 0 ≤ i < zlen Ls → ∃ x l, Ls.[i] = Some (x :: l).
Proof.
  intros Hne Hi. destruct (zget_is_Some Ls i Hi) as [l Hl]. pose proof Hl as Hl'.
  unfold zget in Hl'. rewrite (proj2 (Z.leb_le _ _)) in Hl' by lia.
  eapply Forall_lookup in Hne; [|exact Hl']. destruct l as [|x l]; [done|]. eauto.
Qed.

Lemma find_max_ok : Forall (λ l, l ≠ []) Ls → 0 < zlen Ls → ∃ m M, find_max iters = Some m ∧ is_max m M.
Proof.
  intros Hne Hlen. unfold find_max. rewrite <- at_zlen.
  destruct (foldM_range (λ i max_idx,
    a ← iters.[i]; ka ← lftj_key a; b ← iters.[max_idx]; kb ← lftj_key b;
    Some (if kb <? ka then i else max_idx))
    (λ j m, ∃ M, (∃ l, Ls.[m] = Some (M :: l)) ∧ ∀ i x l, i < j → Ls.[i] = Some (x :: l) → x ≤ M)
    1 (zlen Ls) 0) as (m & Hrun & M & HM & Hall).
  - lia.
  - destruct (zget_nonempty 0 Hne) as (x & l & Hx); [lia|]. exists x. split; [by eauto|].
    intros i y l' Hi Hy. pose proof (zget_Some _ _ _ Hy). assert (i = 0) as -> by lia. simplify_eq. lia.
  - intros i m Hi (M & [l Hm] & Hall). destruct (zget_nonempty i Hne) as (x & l' & Hx); [lia|].
    destruct (at_lookup _ _ Hx) as (a & -> & Ha). destruct (at_lookup _ _ Hm) as (b & -> & Hb).
    cbn. rewrite (at_key _ _ _ Ha). cbn. rewrite (at_key _ _ _ Hb). cbn. eexists. split; [done|].
    destruct (Z.ltb_spec M x).
    + exists x. split; [by eauto|]. intros j y l'' Hj Hy.
      destruct (decide (j = i)) as [->|]; [simplify_eq; lia|]. specialize (Hall j y l'' ltac:(lia) Hy). lia.
    + exists M. split; [by eauto|]. intros j y l'' Hj Hy.
      destruct (decide (j = i)) as [->|]; [simplify_eq; lia|]. apply (Hall j y l''); [lia|done].
  - exists m, M. split; [done|]. split; [done|]. intros i x l Hi. apply (Hall i x l); [|done].
    apply zget_Some in Hi. lia.
Qed.
End search.

(** How a search moves the iterators. *)
Definition moved (Ls Ls' : list (list Z)) : Prop :=
  zlen Ls' = zlen Ls ∧ same_common Ls Ls' ∧ Forall asc Ls' ∧ zsum (map zlen Ls') ≤ zsum (map zlen Ls).

(** What it leaves behind. *)
Definition search_post (Ls : list (list Z)) (r : option Z) : Prop :=
  match r with None => [] ∈ Ls | Some v => Forall (headed v) Ls end.

(** The last [s] iterators visited, going back from [m], are all at [M]. *)
Definition streak (Ls : list (list Z)) (m M s : Z) : Prop :=
  1 ≤ s ≤ zlen Ls ∧ ∀ i, 0 ≤ i < s → ∃ l, Ls.[(m - i) mod zlen Ls] = Some (M :: l).

Lemma streak_all Ls m M : streak Ls m M (zlen Ls) → Forall (headed M) Ls.
Proof.
  intros [Hk Hs]. apply Forall_lookup. intros i l Hl. pose proof (lookup_lt_Some _ _ _ Hl).
  destruct (Hs ((m - Z.of_nat i) mod zlen Ls)) as [l' Hl']; [apply Z.mod_pos_bound; lia|].
  replace ((m - (m - Z.of_nat i) mod zlen Ls) mod zlen Ls) with (Z.of_nat i) in Hl'.
  - rewrite zget_lookup in Hl'. simplify_eq. eauto.
  - rewrite Zminus_mod_idemp_r. replace (m - (m - Z.of_nat i)) with (Z.of_nat i) by lia.
    rewrite Z.mod_small; [done|]. unfold zlen in *. lia.
Qed.



Lemma zsum_insert (Ls : list (list Z)) i l l' :
  Ls !! i = Some l → zsum (map zlen (<[i := l']> Ls)) = zsum (map zlen Ls) - zlen l + zlen l'.
Proof.
  intros Hi. pose proof (lookup_lt_Some _ _ _ Hi). rewrite insert_take_drop by done.
  rewrite <- (take_drop_middle Ls i l Hi) at 3. rewrite !map_app, !zsum_app. cbn [map].
  unfold zsum. cbn. lia.
Qed.

Lemma zsum_zlen_nonneg {A} (Ls : list (list A)) : 0 ≤ zsum (map zlen Ls).
Proof.
  induction Ls as [|l Ls IH]; [done|]. unfold zsum in *. cbn. pose proof (zlen_nonneg l). lia.
Qed.

Lemma moved_skip Ls i l M l0 :
  Forall asc Ls → Ls !! i = Some l → l0 ∈ Ls → Forall (λ y, M ≤ y) l0 →
  moved Ls (<[i := drop_lt M l]> Ls).
Proof.
  intros Hs Hi Hl0 HM. assert (Hl : asc l) by (by eapply Forall_lookup in Hs).
  split_and!.
  - apply zlen_insert.
  - eapply same_common_skip; [done..|].
    destruct (drop_lt M l) as [|x d] eqn:E; [constructor|].
    pose proof (drop_lt_head _ _ _ _ E). pose proof (drop_lt_asc M l Hl) as Hd. rewrite E in Hd.
    eapply Forall_impl; [by apply asc_head|]. simpl. lia.
  - apply Forall_insert; [done|]. by apply drop_lt_asc.
  - rewrite (zsum_insert _ _ _ _ Hi). pose proof (drop_lt_zlen M l). lia.
Qed.
Lemma moved_trans Ls Ls1 Ls2 : moved Ls Ls1 → moved Ls1 Ls2 → moved Ls Ls2.
Proof. intros (? & Hc1 & ? & ?) (? & Hc2 & ? & ?). split_and!; [lia|by intros v; rewrite Hc1|done|lia]. Qed.

(** One turn of the loop: it ends, or goes on closer to an end. *)
Lemma leap_step_ok iters Ls m M s :
  Forall2 at_ iters Ls → Forall asc Ls → Forall (λ l, l ≠ []) Ls → is_max Ls m M → streak Ls m M s →
  ∃ iters' Ls' r, leap_step iters m = Some (iters', r) ∧ Forall2 at_ iters' Ls' ∧ moved Ls Ls' ∧
    match r with
    | Exhausted => search_post Ls' None
    | Found v => search_post Ls' (Some v)
    | Leap next => Forall (λ l, l ≠ []) Ls' ∧ ∃ M' s', is_max Ls' next M' ∧ streak Ls' next M' s' ∧
        zlen Ls * zsum (map zlen Ls') - s' < zlen Ls * zsum (map zlen Ls) - s
    end.
Proof.
  intros Hat Hs Hne [[lm Hm] Hmax] [Hsr Hstr]. set (k := zlen Ls) in *.
  set (next := (m + 1) mod k).
  pose proof (zget_Some _ _ _ Hm) as Hmr. pose proof (at_zlen _ _ Hat) as Hzl.
  assert (Hnr : 0 ≤ next < k) by (apply Z.mod_pos_bound; lia).
  destruct (zget_nonempty Ls next Hne Hnr) as (x & ln & Hn).
  destruct (at_lookup _ _ Hat _ _ Hm) as (itm & Him & Hatm).
  destruct (at_lookup _ _ Hat _ _ Hn) as (itn & Hin & Hatn).
  pose proof (Hmax next x ln Hn) as HxM. rewrite zget_nat in Hn by lia.
  assert (Hasc : ∀ i l, Ls !! i = Some l → asc l) by (intros i l; by apply Forall_lookup).
  destruct (at_seek itn (x :: ln) M Hatn) as (itn' & Hseek & Hatn'); [by eapply Hasc|].
  destruct (zset_total iters next itn') as [iters' Hset]; [lia|].
  set (d := drop_lt M (x :: ln)) in *. set (Ls' := <[Z.to_nat next := d]> Ls).
  pose proof (at_update _ _ Hat _ _ _ _ Hset Hatn') as Hat'. fold Ls' in Hat'.
  assert (Hmoved : moved Ls Ls').
  { eapply moved_skip; [done..|by eapply zget_elem|]. rewrite zget_nat in Hm by lia.
    apply asc_head. by eapply Hasc. }
  unfold leap_step. rewrite Him. cbn [mbind option_bind]. rewrite (at_key _ _ _ Hatm).
  cbn [mbind option_bind]. rewrite <- Hzl. fold k. rewrite Z.rem_mod_nonneg by lia. fold next.
  rewrite Hin. cbn [mbind option_bind]. rewrite Hseek. cbn [mbind option_bind]. rewrite Hset.
  cbn [mbind option_bind].
  assert (Hin' : d ∈ Ls').
  { apply list_elem_of_lookup_2 with (Z.to_nat next). apply list_lookup_insert_eq. unfold zlen in *. lia. }
  destruct (lftj_at_end itn') eqn:Hend.
  { apply (at_at_end _ _ Hatn') in Hend. eexists iters', Ls', Exhausted. split_and!; [done..|].
    rewrite Hend in Hin'. exact Hin'. }
  assert (∃ y dl, d = y :: dl) as (y & dl & Hd).
  { destruct d as [|y dl] eqn:Ed; [|eauto]. rewrite (proj2 (at_at_end _ _ Hatn') eq_refl) in Hend. done. }
  rewrite Hd in Hatn', Hin'. rewrite (at_key _ _ _ Hatn'). cbn [mbind option_bind].
  assert (Hne' : Forall (λ l, l ≠ []) Ls') by (apply Forall_insert; [done|by rewrite Hd]).
  pose proof (drop_lt_head _ _ _ _ Hd) as HMy.
  (* how the heads changed *)
  assert (Hget : ∀ i, Ls'.[i] = if next =? i then Some d else Ls.[i]) by (intros i; by apply zget_insert).
  assert (Hmax' : is_max Ls' next y).
  { split; [exists dl; by rewrite Hget, Z.eqb_refl, Hd|]. intros i z l. rewrite Hget.
    destruct (next =? i); [rewrite Hd; intros E; simplify_eq; lia|]. intros Hi%Hmax. lia. }
  assert (Hk' : zlen Ls' = k) by apply zlen_insert.
  pose proof (zsum_insert Ls (Z.to_nat next) (x :: ln) d Hn) as Hsum. fold Ls' in Hsum.
  pose proof (drop_lt_zlen M (x :: ln)) as Hdl. fold d in Hdl.
  destruct (Z.eqb_spec y M) as [->|HyM]; cbn [mbind option_bind].
  - destruct (all_keys_ok iters' Ls' M Hat' Hne') as (b & -> & Hb). cbn [mbind option_bind].
    destruct b; [eexists iters', Ls', _; split_and!; [done..|]; by apply Hb|].
    eexists iters', Ls', _. split_and!; [done..|]. split; [done|]. exists M, (s + 1). split; [done|].
    assert (Hstr' : ∀ i, 0 ≤ i < s + 1 → ∃ l, Ls'.[(next - i) mod k] = Some (M :: l)).
    { intros i Hi. rewrite Hget. destruct (Z.eqb_spec next ((next - i) mod k)); [rewrite Hd; by eauto|].
      destruct (decide (i = 0)) as [->|].
      { rewrite Z.sub_0_r, Z.mod_small in n by lia. done. }
      destruct (Hstr (i - 1)) as [l Hl]; [lia|]. exists l. rewrite <- Hl. f_equal.
      unfold next. rewrite Zminus_mod_idemp_l. f_equal. lia. }
    assert (s + 1 ≤ k).
    { destruct (decide (s = k)) as [->|]; [|lia]. exfalso. enough (false = true) by done. apply Hb.
      apply (streak_all Ls' next). unfold streak. rewrite Hk'. split; [lia|]. intros i Hi. apply Hstr'. lia. }
    split; [unfold streak; rewrite Hk'; split; [lia|done]|]. nia.
  - eexists iters', Ls', _. split_and!; [done..|]. split; [done|]. exists y, 1. split; [done|]. split.
    + unfold streak. rewrite Hk'. split; [lia|]. intros i Hi. assert (i = 0) as -> by lia. rewrite Z.sub_0_r, Z.mod_small by lia.
      exists dl. by rewrite Hget, Z.eqb_refl, Hd.
    + assert (zlen d ≤ zlen (x :: ln) - 1); [|nia].
      unfold d. cbn [drop_lt]. destruct (Z.ltb_spec x M).
      * rewrite zlen_cons. pose proof (drop_lt_zlen M ln). lia.
      * exfalso. unfold d in Hd. cbn [drop_lt] in Hd. rewrite (proj2 (Z.ltb_ge _ _)) in Hd by done.
        simplify_eq. lia.
Qed.

Lemma leap_loop_ok fuel : ∀ iters Ls m M s,
  Forall2 at_ iters Ls → Forall asc Ls → Forall (λ l, l ≠ []) Ls → is_max Ls m M → streak Ls m M s →
  zlen Ls * zsum (map zlen Ls) + zlen Ls - s ≤ Z.of_nat fuel →
  ∃ iters' r Ls', leap_loop fuel iters m = Some (iters', r) ∧ Forall2 at_ iters' Ls' ∧
    moved Ls Ls' ∧ search_post Ls' r.
Proof.
  induction fuel as [|fuel IH]; intros iters Ls m M s Hat Hs Hne Hmax Hstr Hf; cbn [leap_loop].
  all: destruct (leap_step_ok iters Ls m M s Hat Hs Hne Hmax Hstr)
    as (iters' & Ls' & r & -> & Hat' & Hmv & Hr); cbn [mbind option_bind];
    destruct r as [|v|next]; [by eexists _, None, _|by eexists _, (Some v), _|].
  all: destruct Hr as (Hne' & M' & s' & Hmax' & Hstr' & Hdec); destruct Hmv as (Hk & Hmv).
  - destruct Hstr as [Hs1 _]. destruct Hstr' as [Hs2 _].
    assert (0 ≤ zsum (map zlen Ls')) by apply zsum_zlen_nonneg. nia.
  - destruct (IH iters' Ls' next M' s') as (i2 & r2 & L2 & Hrun & Hat2 & Hmv2 & Hr2);
      [done| |done..|rewrite Hk; lia|].
    + by destruct Hmv as (_ & ? & _).
    + exists i2, r2, L2. split_and!; [done..| |done]. eapply moved_trans; [|exact Hmv2]. done.
Qed.

Lemma leapfrog_search_ok iters Ls :
  Forall2 at_ iters Ls → Forall asc Ls → Ls ≠ [] →
  ∃ iters' r Ls', leapfrog_search iters = Some (iters', r) ∧ Forall2 at_ iters' Ls' ∧
    moved Ls Ls' ∧ search_post Ls' r.
Proof.
  intros Hat Hs Hnil. pose proof (at_zlen _ _ Hat) as Hzl. unfold leapfrog_search.
  assert (Hpos : 0 < zlen Ls) by (destruct Ls; [done|rewrite zlen_cons; pose proof (zlen_nonneg Ls); lia]).
  rewrite (proj2 (Z.leb_gt _ _)) by lia.
  assert (Hrefl : moved Ls Ls) by done.
  destruct (existsb lftj_at_end iters) eqn:He.
  { apply (exists_at_end _ _ Hat) in He. by exists iters, None, Ls. }
  assert (Hne : Forall (λ l, l ≠ []) Ls).
  { apply Forall_forall. intros l Hl ->. apply (exists_at_end _ _ Hat) in Hl. congruence. }
  destruct (find_max_ok _ _ Hat Hne Hpos) as (m & M & -> & Hmax). cbn [mbind option_bind].
  apply (leap_loop_ok _ iters Ls m M 1); [done..| |].
  - destruct Hmax as [[l Hl] _]. pose proof (zget_Some _ _ _ Hl). split; [lia|].
    intros i Hi. assert (i = 0) as -> by lia. rewrite Z.sub_0_r, Z.mod_small by lia. eauto.
  - rewrite (at_remaining _ _ Hat), <- Hzl. pose proof (zsum_zlen_nonneg Ls). nia.
Qed.

(** ** Bag intersection *)
Fixpoint remove1 (x : Z) (l : list Z) : list Z :=
  match l with [] => [] | y :: l => if y =? x then l else y :: remove1 x l end.

Fixpoint bag_inter (a b : list Z) : list Z :=
  match b with
  | [] => []
  | x :: b => if existsb (Z.eqb x) a then x :: bag_inter (remove1 x a) b else bag_inter a b
  end.

(** The values the lists share, as often as all of them have them. *)
Definition cands (Ls : list (list Z)) : list Z :=
  match Ls with [] => [] | L :: Ls => foldr bag_inter L Ls end.

Lemma count_pos v l : (0 < count v l)%nat ↔ v ∈ l.
Proof.
  induction l as [|x l IH]; cbn; [split; [lia|set_solver]|]. rewrite elem_of_cons, <- IH.
  destruct (Z.eqb_spec x v); naive_solver lia.
Qed.
Lemma existsb_count x a : existsb (Z.eqb x) a = true ↔ (0 < count x a)%nat.
Proof.
  induction a as [|y a IH]; cbn; [split; [done|lia]|]. rewrite orb_true_iff, IH, Z.eqb_eq.
  destruct (Z.eqb_spec y x); naive_solver lia.
Qed.
Lemma count_remove1 v x a :
  (0 < count x a)%nat → (count v (remove1 x a) + (if (x =? v)%Z then 1 else 0))%nat = count v a.
Proof.
  induction a as [|y a IH]; cbn; [lia|]. destruct (Z.eqb_spec y x) as [->|Hne]; cbn; [lia|].
  intros H. rewrite <- IH by lia. lia.
Qed.
Lemma count_bag_inter v b : ∀ a, count v (bag_inter a b) = Nat.min (count v a) (count v b).
Proof.
  induction b as [|x b IH]; intros a; cbn; [lia|].
  destruct (existsb (Z.eqb x) a) eqn:E; cbn; rewrite IH.
  - apply existsb_count in E. rewrite <- (count_remove1 v x a E). destruct (x =? v); lia.
  - destruct (Z.eqb_spec x v) as [->|]; [|lia].
    assert (count v a = 0%nat) as ->; [|lia].
    destruct (count v a) eqn:Ec; [done|]. rewrite (proj2 (existsb_count v a)) in E; [done|lia].
Qed.
Lemma bag_inter_sub b : ∀ a x, x ∈ bag_inter a b → x ∈ b.
Proof. induction b as [|y b IH]; intros a x; cbn; [done|]. destruct (existsb _ _); set_solver. Qed.
Lemma bag_inter_asc b : ∀ a, asc b → asc (bag_inter a b).
Proof.
  induction b as [|x b IH]; intros a Hb; cbn; [constructor|]. inversion_clear Hb as [|? ? Hb' Hx].
  destruct (existsb _ _); [|by apply IH]. constructor; [by apply IH|].
  apply Forall_forall. intros y Hy%bag_inter_sub. by eapply Forall_forall in Hx.
Qed.

Lemma count_cands v Ls : count v (cands Ls) = mincnt v Ls.
Proof.
  destruct Ls as [|L Ls]; [done|]. cbn. induction Ls as [|l Ls IH]; cbn; [done|].
  by rewrite count_bag_inter, IH.
Qed.
Lemma asc_cands Ls : Forall asc Ls → asc (cands Ls).
Proof.
  destruct Ls as [|L Ls]; [constructor|]. inversion_clear 1 as [|? ? HL _]. cbn.
  induction Ls as [|l Ls IH]; cbn; [done|]. by apply bag_inter_asc.
Qed.
Lemma elem_cands v Ls : Ls ≠ [] → v ∈ cands Ls ↔ Forall (λ l, v ∈ l) Ls.
Proof.
  intros Hne. rewrite <- count_pos, count_cands. change (0 < ?n)%nat with (1 <= n)%nat.
  rewrite mincnt_spec by done. split; intros H; (eapply Forall_impl; [exact H|]); intros l Hl;
    [apply count_pos; simpl in Hl; lia|]. apply count_pos in Hl. simpl. lia.
Qed.

(** A sorted list is determined by its multiplicities. *)
Lemma asc_count_unique l : ∀ l', asc l → asc l' → (∀ v, count v l = count v l') → l = l'.
Proof.
  induction l as [|x l IH]; intros [|y l'] Hl Hl' Hc; [done|..].
  - specialize (Hc y). cbn in Hc. rewrite Z.eqb_refl in Hc. lia.
  - specialize (Hc x). cbn in Hc. rewrite Z.eqb_refl in Hc. lia.
  - assert (x = y) as <-.
    { assert (x ∈ y :: l') as Hx.
      { apply count_pos. rewrite <- Hc. cbn. rewrite Z.eqb_refl. lia. }
      assert (y ∈ x :: l) as Hy.
      { apply count_pos. rewrite Hc. cbn. rewrite Z.eqb_refl. lia. }
      apply asc_head in Hl, Hl'. eapply Forall_forall in Hl; [|exact Hy].
      eapply Forall_forall in Hl'; [|exact Hx]. simpl in *. lia. }
    f_equal. inversion_clear Hl. inversion_clear Hl'. apply IH; [done..|]. intros v.
    specialize (Hc v). cbn in Hc. lia.
Qed.

Lemma cands_none Ls : [] ∈ Ls → cands Ls = [].
Proof.
  intros Hin. destruct (cands Ls) as [|v l] eqn:E; [done|]. exfalso.
  assert (v ∈ cands Ls) as Hv by (rewrite E; set_solver).
  apply elem_cands in Hv; [|by intros ->; set_solver]. eapply Forall_forall in Hv; [|exact Hin]. set_solver.
Qed.

Lemma cands_found Ls v :
  Ls ≠ [] → Forall asc Ls → Forall (headed v) Ls → cands Ls = v :: cands (map tail Ls).
Proof.
  intros Hne Hs Hh.
  assert (Hs' : Forall asc (map tail Ls)).
  { apply Forall_map. eapply Forall_impl; [exact Hs|]. intros l Hl. cbn. destruct l; [constructor|].
    by inversion_clear Hl. }
  assert (Hcount : ∀ w, count w (cands Ls) = ((if (v =? w)%Z then 1 else 0) + count w (cands (map tail Ls)))%nat).
  { intros w. rewrite !count_cands. clear -Hne Hh. destruct Ls as [|L Ls]; [done|].
    inversion_clear Hh as [|? ? [L' ->] Hh']. cbn. induction Hh' as [|l Ls [l' ->] _ IH]; cbn; [done|].
    rewrite IH by done. destruct (v =? w); lia. }
  apply asc_count_unique; [by apply asc_cands| |intros w; cbn; apply Hcount].
  constructor; [by apply asc_cands|]. apply Forall_forall. intros w Hw.
  assert (w ∈ cands Ls) as Hw'.
  { apply count_pos. rewrite Hcount. apply count_pos in Hw. lia. }
  apply elem_cands in Hw'; [|done]. destruct Ls as [|L Ls]; [done|].
  apply Forall_cons_1 in Hw' as [HwL _], Hh as [[L' ->] _], Hs as [HL _]. apply asc_head in HL. eapply Forall_forall in HL; [|exact HwL].
  simpl in HL. done.
Qed.

(** ** The enumeration as a nested loop *)

(** The targets of node [u], none outside the index. *)
Definition nbrs (c : ray_csr) (u : Z) : list Z :=
  match offsets c, targets c with
  | Some o, Some t =>
      if (u <? 0) || (n_nodes c <=? u) then [] else
      match (words o).[u], (words o).[u + 1] with
      | Some a, Some b => take (Z.to_nat (b - a)) (drop (Z.to_nat a) (words t))
      | _, _ => []
      end
  | _, _ => []
  end.

(** Every slice lies in [targets] and is sorted. *)
Definition csr_sorted (c : ray_csr) : Prop :=
  ∃ o t, offsets c = Some o ∧ targets c = Some t ∧
    ∀ u, 0 ≤ u < n_nodes c → ∃ a b, (words o).[u] = Some a ∧ (words o).[u + 1] = Some b ∧
      0 ≤ a ≤ b ∧ b ≤ zlen (words t) ∧ asc (nbrs c u).

Lemma holds_slice {A} (t : list A) a b :
  0 ≤ a ≤ b → b ≤ zlen t → holds t a (take (Z.to_nat (b - a)) (drop (Z.to_nat a) t)) ∧
  zlen (take (Z.to_nat (b - a)) (drop (Z.to_nat a) t)) = b - a.
Proof.
  intros Ha Hb. assert (Hl : zlen (take (Z.to_nat (b - a)) (drop (Z.to_nat a) t)) = b - a).
  { rewrite zlen_take, zlen_drop. lia. }
  split; [|done]. intros j Hj. rewrite Hl in Hj. rewrite zget_take by lia.
  rewrite !zget_nat by lia. rewrite lookup_drop. f_equal. lia.
Qed.

Lemma open_ok c u : csr_sorted c → 0 ≤ u < n_nodes c →
  ∃ it, lftj_open c u = Some it ∧ at_ it (nbrs c u) ∧ asc (nbrs c u).
Proof.
  intros (o & t & Ho & Ht & Hc) Hu. destruct (Hc u Hu) as (a & b & Ha & Hb & Hab & Hbt & Hs).
  unfold lftj_open. rewrite Ho, Ht.
  rewrite (proj2 (Z.ltb_ge _ _)), (proj2 (Z.leb_gt _ _)) by lia. cbn [orb]. rewrite Ha. cbn [mbind option_bind].
  rewrite Hb. cbn [mbind option_bind]. eexists. split; [done|]. split; [|done].
  unfold nbrs in *. rewrite Ho, Ht, Ha, Hb in *.
  rewrite (proj2 (Z.ltb_ge _ _)), (proj2 (Z.leb_gt _ _)) in * by lia. cbn [orb] in *.
  destruct (holds_slice (words t) a b) as [H1 H2]; [done..|].
  exists (words t). split_and!; [done|exact H1|cbn; rewrite H2; lia|cbn; lia].
Qed.

Lemma nbrs_out c u : u < 0 ∨ n_nodes c ≤ u → nbrs c u = [].
Proof.
  intros Hu. unfold nbrs. destruct (offsets c), (targets c); try done.
  destruct (Z.ltb_spec u 0), (Z.leb_spec (n_nodes c) u); try done. lia.
Qed.

Lemma csr_repr_sorted c N adj :
  0 ≤ N → csr_repr c N adj → (∀ u, 0 ≤ u < N → StronglySorted le1 (adj u)) →
  csr_sorted c ∧ ∀ u, 0 ≤ u < N → nbrs c u = map fst (adj u).
Proof.
  intros HN (o & t & r & s & -> & [Hl Ho] & Hch & Ht & _) Hs.
  assert (Hn : ∀ u, 0 ≤ u < N → nbrs (Csr (Some (Ivec (N + 1) o)) (Some (Ivec (psum adj N) t))
    (Some (Ivec (psum adj N) r)) None N (psum adj N) s) u = map fst (adj u)).
  { intros u Hu. unfold nbrs. cbn. rewrite (proj2 (Z.ltb_ge _ _)), (proj2 (Z.leb_gt _ _)) by lia. cbn [orb].
    rewrite !Ho by lia. rewrite psum_S by lia.
    replace (psum adj u + zlen (adj u) - psum adj u) with (zlen (adj u)) by lia.
    destruct (Hch u Hu) as [Hh _]. pose proof (psum_nonneg adj u ltac:(lia)).
    assert (psum adj u + zlen (adj u) ≤ psum adj N) by (rewrite <- psum_S by lia; apply psum_mono; lia).
    destruct (holds_slice t (psum adj u) (psum adj u + zlen (adj u))) as [H1 H2];
      [pose proof (zlen_nonneg (adj u)); lia|lia|].
    replace (psum adj u + zlen (adj u) - psum adj u) with (zlen (adj u)) in H1, H2 by lia.
    apply zlist_ext; [by rewrite H2, zlen_map|]. intros i Hi. rewrite <- H1 by done. apply Hh.
    by rewrite zlen_map, <- H2. }
  split; [|exact Hn]. eexists _, _. split_and!; [done..|]. cbn [n_nodes words]. intros u Hu.
  pose proof (psum_nonneg adj u ltac:(lia)). pose proof (zlen_nonneg (adj u)).
  assert (psum adj (u + 1) ≤ psum adj N) by (apply psum_mono; lia). rewrite psum_S in * by lia.
  exists (psum adj u), (psum adj u + zlen (adj u)). rewrite !Ho by lia. rewrite psum_S by lia.
  split_and!; [done|done|lia|lia|lia|]. rewrite Hn by done. clear -Hs Hu. specialize (Hs u Hu).
  induction Hs as [|x l _ IH Hx]; constructor; [done|]. apply Forall_map. eapply Forall_impl; [exact Hx|done].
Qed.

(** The values the loop body runs on, with the early exit. *)
Fixpoint each (intr : nat → bool) (rec : ctx → option ctx) (depth : Z) (vals : list Z) (c : ctx) : option ctx :=
  match vals with
  | [] => Some c
  | v :: vals =>
      c ← try_value intr rec depth v c;
      if stopped c then Some c else each intr rec depth vals c
  end.

Lemma root_loop_each intr rec vals : ∀ c, root_loop intr rec vals c = each intr rec 0 vals c.
Proof.
  induction vals as [|v vals IH]; intros c; cbn; [done|].
  destruct (try_value intr rec 0 v c) as [c'|]; cbn; [|done]. by rewrite IH.
Qed.

Lemma at_next_all iters Ls v :
  Forall2 at_ iters Ls → Forall (headed v) Ls → Forall2 at_ (map lftj_next iters) (map tail Ls).
Proof.
  induction 1 as [|it l its ls Hit _ IH]; intros Hh; cbn; constructor.
  - apply Forall_cons_1 in Hh as [[l' ->] _]. by eapply at_next.
  - apply Forall_cons_1 in Hh as [_ Hh]. by apply IH.
Qed.
Lemma zsum_tail_lt Ls v : Ls ≠ [] → Forall (headed v) Ls →
  zsum (map zlen (map tail Ls)) < zsum (map zlen Ls).
Proof.
  intros Hne Hh. assert (zsum (map zlen (map tail Ls)) = zsum (map zlen Ls) - zlen Ls) as ->.
  { clear Hne. induction Hh as [|l Ls [l' ->] _ IH]; cbn [map]; [done|]. unfold zsum in *. cbn.
    rewrite IH, !zlen_cons. lia. }
  destruct Ls; [done|]. rewrite zlen_cons. pose proof (zlen_nonneg Ls). lia.
Qed.
Lemma asc_tails Ls : Forall asc Ls → Forall asc (map tail Ls).
Proof.
  intros H. apply Forall_map. eapply Forall_impl; [exact H|]. intros l Hl. destruct l; [constructor|].
  by inversion_clear Hl.
Qed.

(** The leapfrog loop runs its body on the common values, in order. *)
Lemma match_loop_each intr rec depth fuel : ∀ iters Ls c,
  Forall2 at_ iters Ls → Forall asc Ls → Ls ≠ [] → zsum (map zlen Ls) ≤ Z.of_nat fuel →
  match_loop intr fuel rec depth iters c = each intr rec depth (cands Ls) c.
Proof.
  induction fuel as [|fuel IH]; intros iters Ls c Hat Hs Hne Hf; cbn [match_loop].
  all: destruct (leapfrog_search_ok iters Ls) as (i1 & r & L1 & -> & Hat1 & (Hk & Hc & Hs1 & Hz) & Hr); [done..|];
    cbn [mbind option_bind];
    assert (cands Ls = cands L1) as -> by
      (apply asc_count_unique; [by apply asc_cands..|]; intros v; by rewrite !count_cands);
    assert (Hne1 : L1 ≠ []) by (intros ->; destruct Ls; [done|rewrite zlen_cons in Hk;
      change (zlen []) with 0 in Hk; pose proof (zlen_nonneg Ls); lia]);
    destruct r as [v|]; [|by rewrite cands_none].
  - pose proof (zsum_tail_lt L1 v Hne1 Hr). pose proof (zsum_zlen_nonneg (map tail L1)). lia.
  - rewrite (cands_found L1 v) by done. cbn [each].
    destruct (try_value intr rec depth v c) as [c'|]; cbn [mbind option_bind]; [|done].
    destruct (stopped c'); [done|]. pose proof (zsum_tail_lt L1 v Hne1 Hr). apply IH.
    + by eapply at_next_all.
    + by apply asc_tails.
    + by destruct L1.
    + lia.
Qed.

(** ** The join as a specification *)
Section spec.
Context (plans : list var_plan).

(** The lists that constrain the next variable once [b] is bound. *)
Definition plan_lists (vp : var_plan) (b : list Z) : list (list Z) :=
  map (λ bd, match b_csr bd with Some c => nbrs c (default (-1) (b.[bound_var bd])) | None => [] end) vp.

Definition ref_cands (b : list Z) : list Z :=
  match plans.[zlen b] with
  | None => []
  | Some [] => if zlen b =? 0 then range 0 (max_nodes plans) else []
  | Some vp => cands (plan_lists vp b)
  end.

(** The tuples that extend [b] by [d] more variables. *)
Fixpoint ref_enum (d : nat) (b : list Z) : list (list Z) :=
  match d with
  | O => [b]
  | S d => mjoin (map (λ v, ref_enum d (b ++ [v])) (ref_cands b))
  end.

(** Plans whose bindings point to earlier variables and sorted indexes. *)
Definition plans_ok : Prop :=
  zlen plans ≤ LFTJ_MAX_VARS ∧
  ∀ d vp bd, plans.[d] = Some vp → bd ∈ vp →
    0 ≤ bound_var bd < d ∧ ∃ c, b_csr bd = Some c ∧ csr_sorted c.

Lemma elem_ref_enum d : ∀ b t,
  t ∈ ref_enum d b ↔
  ∃ s, t = b ++ s ∧ length s = d ∧
    ∀ i x, s !! i = Some x → x ∈ ref_cands (b ++ take i s).
Proof.
  induction d as [|d IH]; intros b t; cbn [ref_enum].
  - rewrite list_elem_of_singleton. split.
    + intros ->. exists []. rewrite app_nil_r. done.
    + intros (s & -> & Hs & _). destruct s; [|done]. by rewrite app_nil_r.
  - rewrite list_elem_of_join. setoid_rewrite list_elem_of_fmap. split.
    + intros (ts & Ht & v & -> & Hv). apply IH in Ht as (s & -> & Hs & Hc).
      exists (v :: s). rewrite <- app_assoc. split_and!; [done|by simpl; f_equal|].
      intros [|i] x Hx; simpl in Hx.
      * simplify_eq. by rewrite app_nil_r.
      * specialize (Hc i x Hx). rewrite <- app_assoc in Hc. exact Hc.
    + intros (s & -> & Hs & Hc). destruct s as [|v s]; [done|]. simpl in Hs.
      exists (ref_enum d (b ++ [v])). split.
      * apply IH. exists s. rewrite <- app_assoc. split_and!; [done|lia|].
        intros i x Hx. rewrite <- app_assoc. exact (Hc (S i) x Hx).
      * exists v. split; [done|]. specialize (Hc 0%nat v eq_refl). by rewrite app_nil_r in Hc.
Qed.
End spec.

(** ** The enumeration refines it *)
Section refine.
Context `{Heap} (intr : nat → bool) (plans : list var_plan).
Hypothesis Hplans : plans_ok plans.
Abbreviation nv := (n_vars plans).

(** The output columns hold the tuples [ts]. *)
Definition outs (c : ctx) (ts : list (list Z)) : Prop :=
  out_count c = zlen ts ∧ out_count c ≤ out_cap c ∧ zlen (col_data c) = nv ∧
  ∀ v col, (col_data c).[v] = Some col →
    zlen col = out_cap c ∧ holds col 0 (map (λ t, default 0 (t.[v])) ts).

(** The variables before [depth] are bound to [b]. *)
Definition bound_to (c : ctx) (b : list Z) : Prop :=
  zlen (bound c) = LFTJ_MAX_VARS ∧ holds (bound c) 0 b.

(** Why an enumeration may stop early. *)
Definition stop_cause (c : ctx) : Prop :=
  oom c = true ∧ ((∃ n, alloc_ok n = false) ∨ INT64_MAX `quot` 2 < out_cap c) ∨
  cancelled c = true ∧ ∃ k, intr k = true.

(** What running a part of the enumeration that adds [news] does. *)
Definition ran (c : ctx) (b : list Z) (ts news : list (list Z)) (c' : ctx) : Prop :=
  if stopped c' then stop_cause c' else outs c' (ts ++ news) ∧ bound_to c' b.

Lemma holds_default (a : list Z) b i : holds a 0 b → 0 ≤ i < zlen b → a.[i] = b.[i].
Proof. intros Hh Hi. by rewrite <- (Hh i Hi), Z.add_0_l. Qed.

Lemma grow_ok c ts :
  outs c ts →
  match lftj_grow_output plans c with
  | None => (∃ n, alloc_ok n = false) ∨ INT64_MAX `quot` 2 < out_cap c
  | Some c' => outs c' ts ∧ out_count c' < out_cap c' ∧ bound c' = bound c ∧
      oom c' = oom c ∧ cancelled c' = cancelled c
  end.
Proof.
  intros (Hc & Hcap & Hl & Hcols). unfold lftj_grow_output.
  destruct (Z.ltb_spec (INT64_MAX `quot` 2) (out_cap c)); [by right|].
  destruct (forallb _ plans) eqn:Ha.
  2: { left. destruct (alloc_ok ((if out_cap c <? 64 then 64 else out_cap c * 2) * 8)) eqn:E; [|by eexists].
    exfalso. clear -Ha. induction plans as [|p l IH]; cbn in Ha; [done|auto]. }
  set (cap := if out_cap c <? 64 then 64 else out_cap c * 2). pose proof (zlen_nonneg ts).
  assert (Hcap' : out_count c < cap) by (unfold cap; zbool; lia).
  split; [|split; [exact Hcap'|done]]. unfold outs. cbn. split_and!; [done|lia|by rewrite zlen_map|].
  intros v col Hv. unfold zget in Hv. destruct (Z.leb_spec 0 v); [|done].
  rewrite list_lookup_fmap in Hv. destruct (col_data c !! Z.to_nat v) as [old|] eqn:Hold; [|done].
  injection Hv as <-. destruct (Hcols v old) as [Hlo Hho]; [by rewrite zget_nat|].
  split; [rewrite zlen_app, zlen_take, zlen_drop, zlen_fresh; lia|].
  intros j Hj. rewrite zlen_map in Hj. rewrite zget_app_l by (rewrite zlen_take; lia).
  rewrite zget_take by lia. apply Hho. by rewrite zlen_map.
Qed.

Lemma emit_ok c b ts :
  stopped c = false → outs c ts → bound_to c b → zlen b = nv →
  ∃ c', emit plans c = Some c' ∧ ran c b ts [b] c'.
Proof.
  intros Hst Ho Hb Hlb. unfold emit.
  assert (Hg : match (if out_cap c <=? out_count c then lftj_grow_output plans c else Some c) with
    | None => (∃ n, alloc_ok n = false) ∨ INT64_MAX `quot` 2 < out_cap c
    | Some c' => outs c' ts ∧ out_count c' < out_cap c' ∧ bound c' = bound c ∧
        oom c' = oom c ∧ cancelled c' = cancelled c
    end).
  { destruct (Z.leb_spec (out_cap c) (out_count c)); [by apply grow_ok|done]. }
  destruct (if out_cap c <=? out_count c then _ else _) as [c1|].
  2: { eexists. split; [done|]. unfold ran, stopped, set_oom. cbn. left. done. }
  destruct Hg as ((Hc & Hcap & Hl & Hcols) & Hroom & Ebnd & Eo & Ec).
  destruct Hb as [Hb16 Hbh]. pose proof (zlen_nonneg ts).
  destruct (foldM_range (λ v cols, col ← cols.[v]; x ← (bound c1).[v];
      col ← zset col (out_count c1) x; zset cols v col)
    (λ v cols, zlen cols = nv ∧ ∀ w col, cols.[w] = Some col → zlen col = out_cap c1 ∧
      holds col 0 (map (λ t, default 0 (t.[w])) (if w <? v then ts ++ [b] else ts)))
    0 nv (col_data c1)) as (cols & -> & Hlc & Hcs).
  - rewrite <- Hlb. apply zlen_nonneg.
  - split; [done|]. intros w col Hw. pose proof (zget_Some _ _ _ Hw).
    rewrite (proj2 (Z.ltb_ge _ _)) by lia. by apply Hcols.
  - intros v cols Hv (Hlc & Hcs). destruct (zget_is_Some cols v) as [col Hcol]; [lia|].
    destruct (Hcs v col Hcol) as [Hlcol Hhcol]. rewrite Z.ltb_irrefl in Hhcol.
    destruct (zget_is_Some b v) as [x Hx]; [lia|].
    rewrite Hcol. cbn [mbind option_bind]. rewrite Ebnd, (holds_default _ b) by (done || lia). rewrite Hx.
    cbn [mbind option_bind]. destruct (zset_total col (out_count c1) x) as [col' Hcol']; [lia|].
    rewrite Hcol'. cbn [mbind option_bind]. destruct (zset_total cols v col') as [cols' Hcols']; [lia|].
    exists cols'. split; [done|]. split; [by rewrite (zlen_zset _ _ _ _ Hcols')|].
    intros w cl Hw. destruct (decide (w = v)) as [->|Hne].
    + rewrite (zget_zset_eq _ _ _ _ Hcols') in Hw. injection Hw as <-.
      split; [by rewrite (zlen_zset _ _ _ _ Hcol')|]. rewrite (proj2 (Z.ltb_lt _ _)) by lia.
      rewrite map_app. cbn [map]. rewrite Hx. cbn [default from_option]. change (id x) with x.
      eapply holds_snoc_write; [done|]. rewrite zlen_map, Z.add_0_l, <- Hc. exact Hcol'.
    + rewrite (zget_zset_ne _ _ _ _ _ Hcols') in Hw by done. destruct (Hcs w cl Hw) as [? Hh].
      split; [done|]. destruct (Z.ltb_spec w v), (Z.ltb_spec w (v + 1)); (exact Hh || lia).
  - cbn [mbind option_bind]. eexists. split; [done|]. unfold ran, stopped. cbn. rewrite Eo, Ec.
    unfold stopped in Hst. rewrite Hst. split; [|by split; rewrite ?Ebnd].
    split_and!; cbn; [rewrite zlen_app, Hc; done|lia|done|].
    intros w col Hw. pose proof (zget_Some _ _ _ Hw). destruct (Hcs w col Hw) as [? Hh].
    rewrite (proj2 (Z.ltb_lt _ _)) in Hh by lia. done.
Qed.

(** A recursive call that enumerates the extensions of every longer prefix. *)
Definition rec_ok (d : nat) (depth : Z) (rec : ctx → option ctx) : Prop :=
  ∀ b c ts, zlen b = depth + 1 → stopped c = false → outs c ts → bound_to c b →
    ∃ c', rec c = Some c' ∧ ran c b ts (ref_enum plans d b) c'.

Lemma try_value_ok d depth rec b v c ts :
  rec_ok d depth rec → zlen b = depth → depth < LFTJ_MAX_VARS → stopped c = false → outs c ts → bound_to c b →
  ∃ c', try_value intr rec depth v c = Some c' ∧ ran c b ts (ref_enum plans d (b ++ [v])) c'.
Proof.
  intros Hrec Hd Hmax Hst Ho [Hb16 Hbh]. pose proof (zlen_nonneg b). unfold try_value.
  cbn [poll polls pred]. destruct (intr (polls c)) eqn:Hi.
  { eexists. split; [done|]. unfold ran, stopped, stop_cause. cbn. rewrite ?Hi, !orb_true_r. right. eauto. }
  unfold bind_var. cbn [poll bound]. destruct (zset_total (bound c) depth v) as [bd Hbd]; [lia|].
  rewrite Hbd. cbn [mbind option_bind].
  set (c1 := Ctx bd _ _ _ _ _ _).
  destruct (Hrec (b ++ [v]) c1 ts) as (c' & -> & Hran).
  - rewrite zlen_app. change (zlen [v]) with 1. lia.
  - unfold stopped, c1. cbn. rewrite Hi, orb_false_r. exact Hst.
  - exact Ho.
  - split; [cbn; by rewrite (zlen_zset _ _ _ _ Hbd)|]. cbn.
    apply (holds_snoc_write (bound c) 0 b v); [done|]. by rewrite Z.add_0_l, Hd.
  - exists c'. split; [done|]. unfold ran in *. destruct (stopped c'); [done|].
    destruct Hran as [? [? Hh]]. split; [done|]. split; [done|]. by apply holds_app_inv in Hh as [? _].
Qed.

Lemma each_ok d depth rec vals : ∀ b c ts,
  rec_ok d depth rec → zlen b = depth → depth < LFTJ_MAX_VARS → stopped c = false → outs c ts → bound_to c b →
  ∃ c', each intr rec depth vals c = Some c' ∧
    ran c b ts (mjoin (map (λ v, ref_enum plans d (b ++ [v])) vals)) c'.
Proof.
  induction vals as [|v vals IH]; intros b c ts Hrec Hd Hmax Hst Ho Hb; cbn [each].
  - exists c. split; [done|]. unfold ran. rewrite Hst. cbn. by rewrite app_nil_r.
  - destruct (try_value_ok d depth rec b v c ts) as (c1 & -> & Hran); [done..|]. cbn [mbind option_bind].
    destruct (stopped c1) eqn:Hst1.
    + exists c1. split; [done|]. unfold ran in *. by rewrite Hst1 in *.
    + unfold ran in Hran. rewrite Hst1 in Hran. destruct Hran as [Ho1 Hb1].
      destruct (IH b c1 (ts ++ ref_enum plans d (b ++ [v]))) as (c2 & -> & Hran2); [done..|].
      exists c2. split; [done|]. unfold ran in *. cbn [map]. by rewrite mjoin_cons, app_assoc.
Qed.

(** Opening the iterators of a variable. *)
Lemma open_all_ok vp b (bnd : list Z) depth :
  holds bnd 0 b → zlen b = depth →
  (∀ bd, bd ∈ vp → 0 ≤ bound_var bd < depth ∧ ∃ c, b_csr bd = Some c ∧ csr_sorted c) →
  ∃ r, open_all bnd vp = Some r ∧
    match r with
    | None => [] ∈ plan_lists vp b
    | Some its => Forall2 at_ its (plan_lists vp b) ∧ Forall asc (plan_lists vp b)
    end.
Proof.
  intros Hh Hd. induction vp as [|bd vp IH]; intros Hvp; cbn [open_all plan_lists map].
  { exists (Some []). split; [done|]. by split; constructor. }
  destruct (Hvp bd) as [Hbv (c & Hc & Hsorted)]; [set_solver|]. rewrite Hc.
  rewrite (holds_default _ b) by (done || lia).
  destruct (zget_is_Some b (bound_var bd)) as [u Hu]; [lia|]. rewrite Hu. cbn [mbind option_bind default from_option].
  change (id u) with u.
  destruct (decide (u < 0 ∨ n_nodes c ≤ u)) as [Hout|Hin].
  { exists None. split; [|rewrite nbrs_out by done; set_solver].
    destruct (Z.ltb_spec u 0), (Z.leb_spec (n_nodes c) u); try done. lia. }
  rewrite (proj2 (Z.ltb_ge _ _)), (proj2 (Z.leb_gt _ _)) by lia. cbn [orb].
  destruct (open_ok c u Hsorted) as (it & -> & Hat & Hasc); [lia|]. cbn [mbind option_bind].
  destruct IH as (r & -> & Hr); [intros bd' Hin'; apply Hvp; set_solver|]. cbn [mbind option_bind].
  destruct r as [its|]; eexists; (split; [done|]); cbn.
  - destruct Hr. by split; constructor.
  - set_solver.
Qed.

Lemma lftj_enumerate_ok d : ∀ depth b c ts,
  zlen b = depth → depth + Z.of_nat d = nv → stopped c = false → outs c ts → bound_to c b →
  ∃ c', lftj_enumerate intr plans d depth c = Some c' ∧ ran c b ts (ref_enum plans d b) c'.
Proof.
  destruct Hplans as [H16 Hpl].
  induction d as [|d IH]; intros depth b c ts Hd Hdn Hst Ho Hb; cbn [lftj_enumerate].
  all: assert (Hoom : oom c = false) by (by apply orb_false_elim in Hst as [? _]); rewrite Hoom.
  { rewrite (proj2 (Z.eqb_eq _ _)) by lia. apply emit_ok; [done..|lia]. }
  pose proof (zlen_nonneg b). unfold nv in *. rewrite (proj2 (Z.eqb_neq _ _)) by lia.
  assert (Hrec : rec_ok d depth (lftj_enumerate intr plans d (depth + 1))).
  { intros b' c' ts' Hb' ? ? ?. apply IH; [done|lia|done..]. }
  assert (Hnone : ran c b ts [] c) by (unfold ran; rewrite Hst, app_nil_r; done).
  destruct (zget_is_Some plans depth) as [vp Hvp]; [lia|]. rewrite Hvp. cbn [mbind option_bind ref_enum].
  unfold ref_cands. rewrite Hd, Hvp.
  destruct vp as [|bd vp].
  - change (zlen [] =? 0) with true. cbv iota.
    destruct (Z.eqb_spec depth 0) as [->|Hne]; cbn [negb]; [|by exists c].
    destruct (Z.eqb_spec (max_nodes plans) 0) as [->|Hm]; [by exists c|].
    rewrite root_loop_each. apply each_ok; done || lia.
  - rewrite (proj2 (Z.eqb_neq _ _)) by (rewrite zlen_cons; pose proof (zlen_nonneg vp); lia).
    destruct (open_all_ok (bd :: vp) b (bound c) depth) as (r & -> & Hr);
      [by destruct Hb|done|by intros; eapply Hpl|]. cbn [mbind option_bind].
    destruct r as [its|]; [|rewrite cands_none by done; by exists c].
    destruct Hr as [Hat Hasc]. rewrite (match_loop_each intr _ depth _ its (plan_lists (bd :: vp) b));
      [apply each_ok; done || lia|done..|].
    rewrite (at_remaining _ _ Hat). pose proof (zsum_zlen_nonneg (plan_lists (bd :: vp) b)). lia.
Qed.
End refine.

(** ** Plans *)
Lemma plan_rel_ok n_vars r sv dv plans plans' :
  plans_ok plans → zlen plans = n_vars → 0 ≤ sv → 0 ≤ dv → csr_sorted (fwd r) → csr_sorted (rev r) →
  plan_rel n_vars (r, (sv, dv)) plans = Some plans' → plans_ok plans' ∧ zlen plans' = n_vars.
Proof.
  intros [H16 Hpl] Hn Hsv Hdv Hf Hr. unfold plan_rel. destruct (Z.eqb_spec sv dv); [by intros [= <-]|].
  destruct (Z.leb_spec n_vars sv), (Z.leb_spec n_vars dv); cbn [orb]; [done..|].
  set (vb := if sv <? dv then (dv, Binding (Some (fwd r)) sv) else (sv, Binding (Some (rev r)) dv)).
  assert (Hvb : 0 ≤ bound_var vb.2 < vb.1 ∧ vb.1 < n_vars ∧ ∃ c, b_csr vb.2 = Some c ∧ csr_sorted c)
    by (unfold vb; zbool; eauto with lia).
  destruct vb as [v bd]. cbn in Hvb. destruct Hvb as (Hbv & Hv & Hc).
  destruct (zget_is_Some plans v) as [vp Hvp]; [lia|]. rewrite Hvp. cbn [mbind option_bind].
  destruct (_ <=? zlen vp); [done|]. intros Hset. pose proof (zlen_zset _ _ _ _ Hset).
  split; [|lia]. split; [lia|]. intros d vp' bd' Hd Hin. destruct (decide (v = d)) as [<-|Hne].
  - rewrite (zget_zset_eq _ _ _ _ Hset) in Hd. injection Hd as <-. apply elem_of_app in Hin as [Hin|Hin].
    + by eapply Hpl.
    + by apply list_elem_of_singleton in Hin as ->.
  - rewrite (zget_zset_ne _ _ _ _ _ Hset) in Hd by done. by eapply Hpl.
Qed.

Lemma build_plan_ok rels n_vars plans :
  (∀ r sv dv, (r, (sv, dv)) ∈ rels → 0 ≤ sv ∧ 0 ≤ dv ∧ csr_sorted (fwd r) ∧ csr_sorted (rev r)) →
  0 ≤ n_vars → lftj_build_plan rels n_vars = Some plans → plans_ok plans ∧ zlen plans = n_vars.
Proof.
  intros Hrels Hn. unfold lftj_build_plan, var_plan. destruct (Z.ltb_spec LFTJ_MAX_VARS n_vars); [done|].
  assert (H0 : plans_ok (replicate (Z.to_nat n_vars) []) ∧ zlen (replicate (Z.to_nat n_vars) (@nil lftj_binding)) = n_vars).
  { assert (E : zlen (replicate (Z.to_nat n_vars) (@nil lftj_binding)) = n_vars) by (rewrite zlen_replicate; lia).
    split; [|done]. split; [unfold var_plan in *; lia|]. intros d vp bd Hd Hin. unfold zget in Hd. destruct (0 <=? d); [|done].
    apply lookup_replicate in Hd as [-> _]. set_solver. }
  revert H0. generalize (replicate (Z.to_nat n_vars) (@nil lftj_binding)). revert Hrels.
  induction rels as [|[r [sv dv]] rels IH]; intros Hrels p0 H0; cbn [foldM]; [by intros [= <-]|].
  destruct (plan_rel n_vars (r, (sv, dv)) p0) as [p1|] eqn:E; [|done]. cbn [mbind option_bind].
  apply IH; [intros; apply Hrels; set_solver|].
  destruct (Hrels r sv dv) as (? & ? & ? & ?); [set_solver|]. destruct H0. by apply (plan_rel_ok n_vars r sv dv p0 p1).
Qed.

(** ** Indexes built from edges, as the join sees them *)
Lemma indexes_sorted rv c N pairs :
  indexes rv c N pairs →
  csr_sorted c ∧ ∀ u v, v ∈ nbrs c u ↔ 0 ≤ u < N ∧ ∃ e, e ∈ pairs ∧ key_of rv e = u ∧ val_of rv e = v.
Proof.
  intros [(o & t & Ho & Ht & HN) Hidx].
  assert (Hu : ∀ u, 0 ≤ u < N → ∃ a x, (words o).[u] = Some x ∧ (words o).[u + 1] = Some (x + zlen a) ∧
    0 ≤ x ∧ x + zlen a ≤ zlen (words t) ∧ nbrs c u = map fst a ∧ StronglySorted lex a ∧ a ≡ₚ adj_of rv pairs u).
  { intros u Hu. destruct (Hidx u Hu) as (a & p & t' & r & Hn & _ & Ht' & _ & Hp0 & Hpe & Hh & _ & Hs & Ha).
    rewrite Ht in Ht'. injection Ht' as <-. unfold ray_csr_neighbors in Hn. unfold nbrs. rewrite Ho, Ht in *.
    rewrite (proj2 (Z.ltb_ge _ _)), (proj2 (Z.leb_gt _ _)) in * by lia. cbn [orb] in *.
    destruct ((words o).[u + 1]) as [y|] eqn:Hy; [|done]. cbn [mbind option_bind] in Hn.
    destruct ((words o).[u]) as [x|] eqn:Hx; [|done]. cbn [mbind option_bind] in Hn.
    injection Hn as -> Hcnt. exists a, p. replace (p + zlen a) with y by lia.
    split_and!; try done; [lia|]. pose proof (zlen_nonneg a).
    destruct (holds_slice (words t) p y) as [H1 H2]; [lia|lia|].
    apply zlist_ext; [rewrite H2, zlen_map; lia|]. intros i Hi. rewrite <- H1 by done. apply Hh.
    rewrite zlen_map. lia. }
  split.
  - exists o, t. split_and!; [done..|]. rewrite HN. intros u Hr.
    destruct (Hu u Hr) as (a & x & Hx & Hy & H0 & Hb & -> & Hs & _).
    exists x, (x + zlen a). pose proof (zlen_nonneg a). split_and!; [done|done|lia|lia|lia|].
    clear -Hs. induction Hs as [|p l _ IH Hp]; constructor; [done|]. apply Forall_map.
    eapply Forall_impl; [exact Hp|]. unfold lex. simpl. lia.
  - intros u v. destruct (decide (0 ≤ u < N)) as [Hr|Hr].
    + destruct (Hu u Hr) as (a & x & _ & _ & _ & _ & -> & _ & Ha). rewrite list_elem_of_fmap. split.
      * intros ([v' i] & -> & Hin). split; [done|]. rewrite Ha in Hin.
        apply elem_adj_of in Hin as (e & He & Hk & Hv & _). by exists e.
      * intros (_ & e & He & Hk & Hv). exists (v, row e). split; [done|]. rewrite Ha. apply elem_adj_of.
        by exists e.
    + rewrite nbrs_out by lia. split; [set_solver|]. naive_solver.
Qed.

Lemma elem_edge_pairs srcs dsts e : zlen srcs = zlen dsts →
  e ∈ edge_pairs srcs dsts → (src e, dst e) ∈ zip srcs dsts.
Proof.
  intros _ (i & Hi)%list_elem_of_lookup. unfold edge_pairs in Hi. rewrite list_lookup_imap in Hi.
  destruct (zip srcs dsts !! i) as [[x y]|] eqn:E; [|done]. simpl in Hi. simplify_eq. simpl.
  by eapply list_elem_of_lookup_2.
Qed.
Lemma edge_pairs_elem srcs dsts x y :
  (x, y) ∈ zip srcs dsts → ∃ e, e ∈ edge_pairs srcs dsts ∧ src e = x ∧ dst e = y.
Proof.
  intros (i & Hi)%list_elem_of_lookup. exists (Edge x y (Z.of_nat i)). split; [|done].
  apply list_elem_of_lookup_2 with i. unfold edge_pairs. by rewrite list_lookup_imap, Hi.
Qed.

(** A relation built sorted from edge columns is fit for the join. *)
Lemma rel_for_join `{Heap} `{QsortSpec} srcs dsts n_src n_dst rel :
  zlen srcs = zlen dsts → 0 ≤ n_src → 0 ≤ n_dst →
  ray_rel_from_edges (Some (RAY_I64, srcs)) (Some (RAY_I64, dsts)) n_src n_dst true = Some (Some rel) →
  csr_sorted (fwd rel) ∧ csr_sorted (rev rel) ∧ n_nodes (fwd rel) = n_src ∧
  ∀ u v, v ∈ nbrs (fwd rel) u ↔ 0 ≤ u < n_src ∧ (u, v) ∈ zip srcs dsts.
Proof.
  intros Hl Hs Hd Hrel. rewrite rel_from_edges_guards in Hrel by done.
  destruct (build_rel_ok (edge_pairs srcs dsts) n_src n_dst true) as (res & E & Hres); [done..|].
  rewrite Hrel in E. simplify_eq. destruct Hres as (Hf & Hr & _ & _).
  destruct (indexes_sorted _ _ _ _ Hf) as [Hsf Hn]. destruct (indexes_sorted _ _ _ _ Hr) as [Hsr _].
  destruct Hf as [(o & t & _ & _ & HN) _]. split_and!; [done..|]. intros u v. rewrite Hn. split.
  - intros (Hu & e & He & <- & <-). split; [done|]. by apply elem_edge_pairs.
  - intros (Hu & Huv). split; [done|]. apply edge_pairs_elem in Huv as (e & He & <- & <-). by exists e.
Qed.

(** ** The triangle pattern *)
Lemma nbrs_max_nodes plans vp bd c u v :
  vp ∈ plans → bd ∈ vp → b_csr bd = Some c → v ∈ nbrs c u → 0 ≤ u < max_nodes plans.
Proof.
  intros Hvp Hbd Hc Hv.
  assert (Hu : 0 ≤ u < n_nodes c).
  { destruct (decide (0 ≤ u < n_nodes c)); [done|]. rewrite nbrs_out in Hv by lia. set_solver. }
  enough (n_nodes c ≤ max_nodes plans) by lia. unfold max_nodes.
  assert (Hin : bd ∈ mjoin plans) by (apply list_elem_of_join; by exists vp).
  revert Hin. generalize (mjoin plans). clear -Hc. generalize 0.
  set (f := λ m (b : lftj_binding), match b_csr b with Some c => if m <? n_nodes c then n_nodes c else m | None => m end).
  assert (Hmono : ∀ l m, m ≤ foldl f m l).
  { induction l as [|b l IH]; intros m; cbn; [lia|]. etrans; [|apply IH].
    unfold f. destruct (b_csr b); zbool; lia. }
  intros m l. revert m. induction l as [|b l IH]; intros m Hin; [set_solver|]. cbn.
  apply elem_of_cons in Hin as [<-|Hin]; [|by apply IH].
  etrans; [|apply Hmono]. unfold f. rewrite Hc. zbool; lia.
Qed.

Lemma triangle_plan ab bc ac :
  lftj_build_default_plan [ab; bc; ac] 3 =
    Some [[]; [Binding (Some (fwd ab)) 0]; [Binding (Some (fwd bc)) 1; Binding (Some (fwd ac)) 0]].
Proof. reflexivity. Qed.

(** The tuples of the triangle plan. *)
Lemma triangle_tuples ab bc ac t :
  t ∈ ref_enum [[]; [Binding (Some (fwd ab)) 0]; [Binding (Some (fwd bc)) 1; Binding (Some (fwd ac)) 0]] 3 [] ↔
  ∃ x y z, t = [x; y; z] ∧ y ∈ nbrs (fwd ab) x ∧ z ∈ nbrs (fwd bc) y ∧ z ∈ nbrs (fwd ac) x.
Proof.
  set (plans := [[]; [Binding (Some (fwd ab)) 0]; [Binding (Some (fwd bc)) 1; Binding (Some (fwd ac)) 0]]).
  rewrite elem_ref_enum. split.
  - intros (s & -> & Hs & Hc). destruct s as [|x [|y [|z [|? ?]]]]; try done. exists x, y, z. split; [done|].
    pose proof (Hc 1%nat y eq_refl) as Hy. pose proof (Hc 2%nat z eq_refl) as Hz.
    change (y ∈ cands [nbrs (fwd ab) x]) in Hy. change (z ∈ cands [nbrs (fwd bc) y; nbrs (fwd ac) x]) in Hz.
    apply elem_cands in Hy; [|done]. apply elem_cands in Hz; [|done]. apply Forall_cons_1 in Hy as [Hy _]. by apply Forall_cons_1 in Hz as [Hz1 [Hz2 _]%Forall_cons_1].
  - intros (x & y & z & -> & Hy & Hz1 & Hz2). exists [x; y; z]. split_and!; [done..|].
    intros [|[|[|i]]] v Hv; simpl in Hv; simplify_eq.
    + change (v ∈ range 0 (max_nodes plans)). apply elem_of_range.
      apply (nbrs_max_nodes plans [Binding (Some (fwd ab)) 0] (Binding (Some (fwd ab)) 0) (fwd ab) v y);
        [unfold plans; right; left|left|done|done].
    + change (v ∈ cands [nbrs (fwd ab) x]). apply elem_cands; [done|]. by constructor.
    + change (v ∈ cands [nbrs (fwd bc) y; nbrs (fwd ac) x]). apply elem_cands; [done|]. by repeat constructor.
Qed.
