(* ===== verification/LftjProps.v ===== *)
(** * Correctness of the worst-case optimal join

    A leapfrog search finds the least common value of sorted lists and always
    ends; the enumeration writes exactly the tuples of the join; for the
    triangle pattern these are the triangles of the three edge lists. *)

From stdpp Require Import sorting.
From S2P Require Import Prelude Csr CsrProofs Lftj LftjProofs.
Local Open Scope Z_scope.

Module Plenty.
Definition heap : Heap := {| alloc_ok := λ _, true; alloc_junk := λ _, 7 |}.
Definition msort : Qsort :=
  λ cmp l, @merge_sort _ (λ a b, cmp a b ≤ 0) (λ a b, Z.le_dec (cmp a b) 0) l.
Definition msort_spec : @QsortSpec msort.
Proof.
  constructor.
  - intros cmp l. apply merge_sort_Permutation.
  - intros cmp l Ht Htr. unfold qsort, msort.
    apply (@StronglySorted_merge_sort _ (λ a b, cmp a b ≤ 0)); [|exact Ht]. exact Htr.
Qed.
(** An empty output of [n] columns of capacity [cap]. *)
Definition start (n : nat) (cap : Z) : ctx :=
  Ctx (replicate 16 0) (replicate n (replicate (Z.to_nat cap) 0)) 0 cap false false 0.
End Plenty.

(** On iterators over sorted slices [leapfrog_search] always terminates,
    inside the arrays. It answers false exactly when no value is in all the
    slices; otherwise it finds the least common value, leaves every iterator
    on it, and has skipped no common value, counted with multiplicity. *)
Theorem leapfrog_search_least iters Ls :
  Forall2 at_ iters Ls → Forall asc Ls → Ls ≠ [] →
  ∃ iters' r Ls', leapfrog_search iters = Some (iters', r) ∧ Forall2 at_ iters' Ls' ∧
    match r with
    | None => ∀ v, ¬ Forall (λ l, v ∈ l) Ls
    | Some v => Forall (λ l, v ∈ l) Ls ∧ (∀ w, Forall (λ l, w ∈ l) Ls → v ≤ w) ∧
        Forall (headed v) Ls' ∧ cands Ls' = cands Ls
    end.
Proof.
  intros Hat Hs Hne.
  destruct (leapfrog_search_ok iters Ls) as (i1 & r & L1 & -> & Hat1 & (Hk & Hc & Hs1 & _) & Hr); [done..|].
  assert (Hcands : cands L1 = cands Ls).
  { apply asc_count_unique; [by apply asc_cands..|]. intros v. by rewrite !count_cands. }
  exists i1, r, L1. split; [done|]. split; [done|]. destruct r as [v|].
  - assert (Hne1 : L1 ≠ []) by (intros ->; destruct Ls; [done|rewrite zlen_cons in Hk;
      change (zlen []) with 0 in Hk; pose proof (zlen_nonneg Ls); lia]).
    assert (Hv : cands Ls = v :: cands (map tail L1)) by (rewrite <- Hcands; by apply cands_found).
    split_and!; [|intros w Hw|done|done].
    + apply elem_cands; [done|]. rewrite Hv. set_solver.
    + apply elem_cands in Hw; [|done]. pose proof (asc_cands Ls Hs) as Ha. rewrite Hv in Hw, Ha.
      apply asc_head in Ha. by eapply Forall_forall in Ha.
  - intros v Hv. apply elem_cands in Hv; [|done]. rewrite <- Hcands, cands_none in Hv by done. set_solver.
Qed.

Lemma leapfrog_search_least_witness :
  let its := [Iter (Some [1; 3; 4; 7]) 0 4 0; Iter (Some [2; 4; 4; 9]) 0 4 0] in
  let Ls := [[1; 3; 4; 7]; [2; 4; 4; 9]] in
  ∃ iters' r Ls', leapfrog_search its = Some (iters', r) ∧ Forall2 at_ iters' Ls' ∧
    match r with
    | None => ∀ v, ¬ Forall (λ l, v ∈ l) Ls
    | Some v => Forall (λ l, v ∈ l) Ls ∧ (∀ w, Forall (λ l, w ∈ l) Ls → v ≤ w) ∧
        Forall (headed v) Ls' ∧ cands Ls' = cands Ls
    end.
Proof.
  apply leapfrog_search_least; [|repeat constructor; lia|done].
  repeat constructor; eexists; (split_and!; [reflexivity| |reflexivity|cbn; lia]); intros j Hj; reflexivity.
Defined.

(** C29. The enumeration refines the join: from an empty output, with bindings
    to earlier variables over sorted indexes, [lftj_enumerate] terminates
    without leaving its arrays, and unless it stops early, which only a refused
    allocation, an exhausted size or an interrupt causes, the output columns
    hold exactly the tuples of [ref_enum], in its order and multiplicity. *)
Theorem lftj_enumerate_refines `{Heap} intr plans c :
  plans_ok plans → stopped c = false → outs plans c [] → zlen (bound c) = LFTJ_MAX_VARS →
  ∃ c', lftj_enumerate intr plans (length plans) 0 c = Some c' ∧
    if stopped c' then stop_cause intr c' else outs plans c' (ref_enum plans (length plans) []).
Proof.
  intros Hp Hst Ho Hb.
  destruct (lftj_enumerate_ok intr plans Hp (length plans) 0 [] c []) as (c' & Hrun & Hran).
  - done.
  - unfold n_vars, zlen. lia.
  - done.
  - done.
  - split; [done|]. apply holds_nil.
  - exists c'. split; [done|]. unfold ran in Hran. destruct (stopped c'); [done|]. by destruct Hran.
Qed.

Lemma lftj_enumerate_refines_witness :
  let c := Csr (Some (Ivec 3 [0; 1; 2])) (Some (Ivec 2 [1; 0])) None None 2 2 true in
  let plans := [[]; [Binding (Some c) 0]] in
  ∃ c', @lftj_enumerate Plenty.heap (λ _, false) plans 2 0 (Plenty.start 2 1) = Some c' ∧
    if stopped c' then @stop_cause Plenty.heap (λ _, false) c' else outs plans c' (ref_enum plans 2 []).
Proof.
  intros c plans. apply (@lftj_enumerate_refines Plenty.heap (λ _, false) plans (Plenty.start 2 1)).
  - split; [vm_compute; intuition discriminate|]. intros d vp bd Hd Hin. pose proof (zget_Some _ _ _ Hd) as Hr. change (zlen plans) with 2 in Hr.
    assert (d = 0 ∨ d = 1) as [->| ->] by lia; vm_compute in Hd; injection Hd as <-; [set_solver|].
    apply list_elem_of_singleton in Hin as ->. split; [vm_compute; intuition discriminate|]. exists c. split; [done|].
    exists (Ivec 3 [0; 1; 2]), (Ivec 2 [1; 0]). split_and!; [done..|]. intros u Hu. cbn in Hu.
    assert (u = 0 ∨ u = 1) as [->| ->] by lia; eexists _, _; (split_and!; [reflexivity|reflexivity|lia|lia|vm_compute; intuition discriminate|]);
      vm_compute; repeat constructor.
  - done.
  - split_and!; [done|vm_compute; intuition discriminate|done|]. intros v col Hv. split; [|apply holds_nil].
    pose proof (zget_Some _ _ _ Hv) as Hr. change (0 ≤ v < 2) in Hr.
    assert (v = 0 ∨ v = 1) as [->| ->] by lia; vm_compute in Hv; by injection Hv as <-.
  - done.
Defined.

(** C14. End to end, for the triangle pattern over three relations built sorted
    from edge columns with the same number of nodes: the default plan is
    accepted, the enumeration terminates, and if it is not stopped early the
    rows of its output are exactly the triangles: x y z with an edge from x to
    y in the first list, y to z in the second and x to z in the third. *)
Theorem triangle_join `{Heap} `{QsortSpec} intr sa da sb db sc dc n ab bc ac c :
  zlen sa = zlen da → zlen sb = zlen db → zlen sc = zlen dc → 0 ≤ n →
  ray_rel_from_edges (Some (RAY_I64, sa)) (Some (RAY_I64, da)) n n true = Some (Some ab) →
  ray_rel_from_edges (Some (RAY_I64, sb)) (Some (RAY_I64, db)) n n true = Some (Some bc) →
  ray_rel_from_edges (Some (RAY_I64, sc)) (Some (RAY_I64, dc)) n n true = Some (Some ac) →
  stopped c = false → zlen (bound c) = LFTJ_MAX_VARS →
  ∃ plans, lftj_build_default_plan [ab; bc; ac] 3 = Some plans ∧
    (outs plans c [] →
     ∃ c', lftj_enumerate intr plans 3 0 c = Some c' ∧
       if stopped c' then stop_cause intr c'
       else ∃ ts, outs plans c' ts ∧
         ∀ t, t ∈ ts ↔ ∃ x y z, t = [x; y; z] ∧ 0 ≤ x < n ∧ 0 ≤ y < n ∧
           (x, y) ∈ zip sa da ∧ (y, z) ∈ zip sb db ∧ (x, z) ∈ zip sc dc).
Proof.
  intros Ha Hb Hc Hn Rab Rbc Rac Hst Hbnd.
  destruct (rel_for_join _ _ _ _ _ Ha Hn Hn Rab) as (F1 & R1 & _ & N1).
  destruct (rel_for_join _ _ _ _ _ Hb Hn Hn Rbc) as (F2 & R2 & _ & N2).
  destruct (rel_for_join _ _ _ _ _ Hc Hn Hn Rac) as (F3 & R3 & _ & N3).
  eexists. split; [apply triangle_plan|]. intros Ho.
  set (plans := [[]; [Binding (Some (fwd ab)) 0]; [Binding (Some (fwd bc)) 1; Binding (Some (fwd ac)) 0]]) in *.
  assert (Hp : plans_ok plans).
  { apply (build_plan_ok [(ab, (0, 1)); (bc, (1, 2)); (ac, (0, 2))] 3); [|lia|reflexivity].
    intros r sv dv. rewrite !elem_of_cons. intros [E|[E|[E|E]]]; simplify_eq; [auto with lia..|set_solver]. }
  destruct (lftj_enumerate_ok intr plans Hp 3 0 [] c []) as (c' & Hrun & Hran);
    [done|done|done|done|by split; [|apply holds_nil]|].
  exists c'. split; [exact Hrun|]. unfold ran in Hran. destruct (stopped c'); [done|]. destruct Hran as [Ho' _].
  eexists. split; [exact Ho'|]. intros t. cbn [app]. unfold plans. rewrite triangle_tuples. split.
  - intros (x & y & z & -> & Hy & Hz1 & Hz2). apply N1 in Hy. apply N2 in Hz1. apply N3 in Hz2.
    exists x, y, z. naive_solver.
  - intros (x & y & z & -> & Hx & Hy & E1 & E2 & E3). exists x, y, z. rewrite N1, N2, N3. naive_solver.
Qed.

Lemma triangle_join_witness :
  ∃ ab, @ray_rel_from_edges Plenty.heap Plenty.msort (Some (RAY_I64, [0; 1; 0])) (Some (RAY_I64, [1; 2; 2])) 3 3 true =
    Some (Some ab) ∧
  ∃ plans, lftj_build_default_plan [ab; ab; ab] 3 = Some plans ∧
    (outs plans (Plenty.start 3 1) [] →
     ∃ c', @lftj_enumerate Plenty.heap (λ _, false) plans 3 0 (Plenty.start 3 1) = Some c' ∧
       if stopped c' then @stop_cause Plenty.heap (λ _, false) c'
       else ∃ ts, outs plans c' ts ∧
         ∀ t, t ∈ ts ↔ ∃ x y z, t = [x; y; z] ∧ 0 ≤ x < 3 ∧ 0 ≤ y < 3 ∧
           (x, y) ∈ zip [0; 1; 0] [1; 2; 2] ∧ (y, z) ∈ zip [0; 1; 0] [1; 2; 2] ∧
           (x, z) ∈ zip [0; 1; 0] [1; 2; 2]).
Proof.
  eexists. split; [vm_compute; reflexivity|].
  apply (@triangle_join Plenty.heap Plenty.msort Plenty.msort_spec (λ _, false)
    [0; 1; 0] [1; 2; 2] [0; 1; 0] [1; 2; 2] [0; 1; 0] [1; 2; 2] 3); first [reflexivity|vm_compute; reflexivity|lia].
Defined.
