(* ===== verification/Glob.v ===== *)
(** * Glob patterns ([src/src/ops/glob.c], [glob.h])

    The matcher behind [like], its fast path for simple shapes, and the
    substring search for patterns without stars. Strings are arrays of [char]
    values, a pointer into a string is an index; [memcmp], [memchr] and
    [memmem] are the C library's. *)

From S2P Require Import Prelude.
Local Open Scope Z_scope.

(** The characters with a meaning. *)
Abbreviation STAR := 42.
Abbreviation QUEST := 63.
Abbreviation LBRACK := 91.
Abbreviation RBRACK := 93.
Abbreviation BANG := 33.
Abbreviation DASH := 45.

Definition to_lower (c : Z) : Z := if (65 <=? c) && (c <=? 90) then c + 32 else c.

(** [ci ? to_lower(c) : c] *)
Definition fold_case (ci : bool) (c : Z) : Z := if ci then to_lower c else c.

(** [i < pn && p[i] == c] *)
Definition is_at (p : list Z) (i c : Z) : option bool :=
  if i <? zlen p then x ← p.[i]; Some (x =? c) else Some false.

(** [i + 2 < pn && p[i + 1] == '-' && p[i + 2] != ']'] *)
Definition range_at (p : list Z) (i : Z) : option bool :=
  if i + 2 <? zlen p then
    d ← p.[i + 1];
    if d =? DASH then h ← p.[i + 2]; Some (negb (h =? RBRACK)) else Some false
  else Some false.

(** The loop of [match_class]; [i] increases, so [zlen p] turns suffice. *)
Fixpoint class_loop (fuel : nat) (p : list Z) (ci : bool) (ch i : Z) (first matched : bool) :
    option (Z * bool) :=
  if i <? zlen p then
    x ← p.[i];
    if first || negb (x =? RBRACK) then
      match fuel with
      | O => None
      | S fuel =>
          let lo := fold_case ci x in
          r ← range_at p i;
          if (r : bool) then
            h ← p.[i + 2];
            let hi := fold_case ci h in
            class_loop fuel p ci ch (i + 3) false (matched || ((lo <=? ch) && (ch <=? hi)))
          else class_loop fuel p ci ch (i + 1) false (matched || (ch =? lo))
      end
    else Some (i, matched)
  else Some (i, matched).

(** [match_class]: the verdict and the index past the class. *)
Definition match_class (p : list Z) (pi c : Z) (ci : bool) : option (bool * Z) :=
  neg ← is_at p pi BANG;
  let i := if (neg : bool) then pi + 1 else pi in
  res ← class_loop (length p) p ci (fold_case ci c) i true false;
  let '(i, matched) := res in
  close ← is_at p i RBRACK;
  Some (xorb neg matched, if (close : bool) then i + 1 else i).

(** The state of [glob_impl]: the two cursors and the last star. *)
Record gstate := G { si : Z; pi : Z; star : option (Z * Z) }.

(** Retrying one character further from the last star; [None] is [return false]. *)
Definition backtrack (st : gstate) : option gstate :=
  match star st with
  | Some (star_pi, star_si) => Some (G (star_si + 1) (star_pi + 1) (Some (star_pi, star_si + 1)))
  | None => None
  end.

(** One turn of the loop, [si < sn]: the next state or [return false]. *)
Definition glob_step (s p : list Z) (ci : bool) (st : gstate) : option (option gstate) :=
  c ← s.[si st];
  if pi st <? zlen p then
    x ← p.[pi st];
    if x =? STAR then Some (Some (G (si st) (pi st + 1) (Some (pi st, si st)))) else
    if x =? QUEST then Some (Some (G (si st + 1) (pi st + 1) (star st))) else
    if x =? LBRACK then
      res ← match_class p (pi st + 1) c ci;
      let '(m, cls_pi) := res in
      Some (if (m : bool) then Some (G (si st + 1) cls_pi (star st)) else backtrack st)
    else
      Some (if fold_case ci c =? fold_case ci x then Some (G (si st + 1) (pi st + 1) (star st))
            else backtrack st)
  else Some (backtrack st).

(** [while (pi < pn && p[pi] == '*') pi++] *)
Fixpoint skip_stars (fuel : nat) (p : list Z) (i : Z) : option Z :=
  b ← is_at p i STAR;
  if (b : bool) then match fuel with O => None | S fuel => skip_stars fuel p (i + 1) end else Some i.

Fixpoint glob_loop (fuel : nat) (s p : list Z) (ci : bool) (st : gstate) : option bool :=
  if si st <? zlen s then
    match fuel with
    | O => None
    | S fuel =>
        r ← glob_step s p ci st;
        match r with
        | Some st => glob_loop fuel s p ci st
        | None => Some false
        end
    end
  else
    i ← skip_stars (length p) p (pi st);
    Some (i =? zlen p).

Definition glob_fuel (s p : list Z) : nat := Z.to_nat ((zlen s + 1) * (zlen p + 1)).

Definition glob_impl (s p : list Z) (ci : bool) : option bool :=
  glob_loop (glob_fuel s p) s p ci (G 0 0 None).

Definition ray_glob_match (s p : list Z) : option bool := glob_impl s p false.
Definition ray_glob_match_ci (s p : list Z) : option bool := glob_impl s p true.

(** ** The compiled fast path *)
Inductive glob_shape := SHAPE_NONE | SHAPE_EXACT | SHAPE_PREFIX | SHAPE_SUFFIX | SHAPE_CONTAINS | SHAPE_ANY.

(** [ray_glob_compiled_t]; [lit] is the bytes the pointer and length name. *)
Record glob_compiled := GlobCompiled { shape : glob_shape; lit : list Z }.

(** [len] bytes from [p + lo]. *)
Definition sub_bytes (p : list Z) (lo len : Z) : list Z := take (Z.to_nat len) (drop (Z.to_nat lo) p).

Definition is_meta (ch : Z) : bool := (ch =? STAR) || (ch =? QUEST) || (ch =? LBRACK).

(** [for (i = lo; i < hi; i++)] over the residual pattern. *)
Fixpoint has_meta (p : list Z) (idx : list Z) : option bool :=
  match idx with
  | [] => Some false
  | i :: idx => ch ← p.[i]; if is_meta ch then Some true else has_meta p idx
  end.

Definition ray_glob_compile (p : list Z) : option glob_compiled :=
  let pn := zlen p in
  if pn =? 0 then Some (GlobCompiled SHAPE_EXACT []) else
  a ← p.[0];
  let leading_star := a =? STAR in
  b ← p.[pn - 1];
  let trailing_star := (b =? STAR) && ((1 <? pn) || negb leading_star) in
  let lo := if leading_star then 1 else 0 in
  let hi := if trailing_star then pn - 1 else pn in
  m ← has_meta p (range lo hi);
  Some (if (m : bool) then GlobCompiled SHAPE_NONE [] else
  let lit_len := hi - lo in
  let l := sub_bytes p lo lit_len in
  if leading_star && trailing_star then
    GlobCompiled (if lit_len =? 0 then SHAPE_ANY else SHAPE_CONTAINS) l
  else if leading_star then GlobCompiled SHAPE_SUFFIX l
  else if trailing_star then GlobCompiled SHAPE_PREFIX l
  else GlobCompiled SHAPE_EXACT l).

(** [memcmp(a, b, n) == 0] for the bytes at [i] in [s]: undefined when they are
    not all there. *)
Definition memeq_at (s : list Z) (i : Z) (l : list Z) : option bool :=
  if (0 <=? i) && (i + zlen l <=? zlen s) then Some (bool_decide (sub_bytes s i (zlen l) = l)) else None.

(** [memmem(s, sn, needle, n)]: the first index where the needle is. *)
Fixpoint memmem_from (s needle : list Z) : option Z :=
  if bool_decide (needle `prefix_of` s) then Some 0 else
  match s with
  | [] => None
  | _ :: s => i ← memmem_from s needle; Some (i + 1)
  end.
Definition memmem (s needle : list Z) : option Z := memmem_from s needle.

Definition ray_glob_match_compiled (c : glob_compiled) (s : list Z) : option bool :=
  let sn := zlen s in
  let n := zlen (lit c) in
  match shape c with
  | SHAPE_ANY => Some true
  | SHAPE_EXACT =>
      if negb (sn =? n) then Some false else if n =? 0 then Some true else memeq_at s 0 (lit c)
  | SHAPE_PREFIX =>
      if sn <? n then Some false else if n =? 0 then Some true else memeq_at s 0 (lit c)
  | SHAPE_SUFFIX =>
      if sn <? n then Some false else if n =? 0 then Some true else memeq_at s (sn - n) (lit c)
  | SHAPE_CONTAINS =>
      if n =? 0 then Some true else
      if sn <? n then Some false else
      Some (match memmem s (lit c) with Some _ => true | None => false end)
  | SHAPE_NONE => Some false
  end.

(** ** Substring search *)

(** [strpat_memmem] on the bytes [s]: the index of the hit. *)
Definition strpat_memmem (s needle : list Z) : option Z :=
  if zlen needle =? 0 then Some 0 else
  if zlen s <? zlen needle then None else memmem s needle.

(** [ray_strpat_t]; the anchor is the longest run of literal bytes. *)
Record strpat := StrPat {
  pat : list Z; tokens : Z; anchor : list Z; anchor_token : Z; literal : bool
}.

(** The scan over a class: the index past it. *)
Fixpoint skip_class_loop (fuel : nat) (p : list Z) (j : Z) (first : bool) : option Z :=
  if j <? zlen p then
    x ← p.[j];
    if first || negb (x =? RBRACK) then
      match fuel with
      | O => None
      | S fuel =>
          r ← range_at p j;
          skip_class_loop fuel p (if (r : bool) then j + 3 else j + 1) false
      end
    else Some j
  else Some j.

Definition skip_class (p : list Z) (j : Z) : option Z :=
  neg ← is_at p j BANG;
  j ← skip_class_loop (length p) p (if (neg : bool) then j + 1 else j) true;
  close ← is_at p j RBRACK;
  Some (if (close : bool) then j + 1 else j).

(** The locals of [ray_strpat_compile]. *)
Record scan := Scan {
  s_literal : bool; s_tokens : Z; run_start : Z; run_len : Z; run_token : Z;
  best_len : Z; best_start : Z; best_token : Z
}.

(** [SEARCH_FLUSH_RUN] *)
Definition flush_run (c : scan) : scan :=
  if best_len c <? run_len c
  then Scan (s_literal c) (s_tokens c) (run_start c) 0 (run_token c) (run_len c) (run_start c) (run_token c)
  else Scan (s_literal c) (s_tokens c) (run_start c) 0 (run_token c) (best_len c) (best_start c) (best_token c).

(** One turn of the scan at byte [i]: the next index, [None] inside is
    [return false]. *)
Definition scan_step (p : list Z) (i : Z) (c : scan) : option (option (Z * scan)) :=
  x ← p.[i];
  if x =? STAR then Some None else
  if (x =? QUEST) || (x =? LBRACK) then
    let f := flush_run c in
    j ← (if x =? LBRACK then skip_class p (i + 1) else Some (i + 1));
    Some (Some (j, Scan false (s_tokens f + 1) (run_start f) (run_len f) (run_token f)
                        (best_len f) (best_start f) (best_token f)))
  else
    let c := if run_len c =? 0
             then Scan (s_literal c) (s_tokens c) i 0 (s_tokens c) (best_len c) (best_start c) (best_token c)
             else c in
    Some (Some (i + 1, Scan (s_literal c) (s_tokens c + 1) (run_start c) (run_len c + 1) (run_token c)
                            (best_len c) (best_start c) (best_token c))).

Fixpoint scan_loop (fuel : nat) (p : list Z) (i : Z) (c : scan) : option (option scan) :=
  if i <? zlen p then
    match fuel with
    | O => None
    | S fuel =>
        r ← scan_step p i c;
        match r with
        | Some (i, c) => scan_loop fuel p i c
        | None => Some None
        end
    end
  else Some (Some c).

(** [ray_strpat_compile]; [None] inside is [return false]. *)
Definition ray_strpat_compile (p : list Z) : option (option strpat) :=
  r ← scan_loop (length p) p 0 (Scan true 0 0 0 0 0 0 0);
  match r with
  | None => Some None
  | Some c =>
      let c := flush_run c in
      Some (Some (StrPat p (s_tokens c) (sub_bytes p (best_start c) (best_len c)) (best_token c) (s_literal c)))
  end.

Fixpoint match_at_loop (fuel : nat) (p s : list Z) (pi si : Z) : option bool :=
  if pi <? zlen p then
    match fuel with
    | O => None
    | S fuel =>
        if zlen s <=? si then Some false else
        x ← p.[pi];
        c ← s.[si];
        if x =? QUEST then match_at_loop fuel p s (pi + 1) (si + 1) else
        if x =? LBRACK then
          res ← match_class p (pi + 1) c false;
          let '(m, cls_pi) := res in
          if (m : bool) then match_at_loop fuel p s cls_pi (si + 1) else Some false
        else if negb (c =? x) then Some false else match_at_loop fuel p s (pi + 1) (si + 1)
    end
  else Some true.

Definition strpat_match_at (c : strpat) (s : list Z) (pos : Z) : option bool :=
  match_at_loop (length (pat c)) (pat c) s 0 pos.

(** The search from anchor to anchor. *)
Fixpoint anchor_loop (fuel : nat) (c : strpat) (s : list Z) (scan_from : Z) : option (option Z) :=
  let sn := zlen s in
  let tail := tokens c - anchor_token c - zlen (anchor c) in
  if scan_from + zlen (anchor c) + tail <=? sn then
    match fuel with
    | O => None
    | S fuel =>
        let hay_len := sn - tail - scan_from in
        match strpat_memmem (sub_bytes s scan_from hay_len) (anchor c) with
        | None => Some None
        | Some hit =>
            let anchor_pos := scan_from + hit in
            let start := anchor_pos - anchor_token c in
            ok ← (if start + tokens c <=? sn then strpat_match_at c s start else Some false);
            if (ok : bool) then Some (Some start) else anchor_loop fuel c s (anchor_pos + 1)
        end
    end
  else Some None.

(** [for (pos = 0; pos <= last; pos++)] *)
Fixpoint pos_loop (c : strpat) (s : list Z) (idx : list Z) : option (option Z) :=
  match idx with
  | [] => Some None
  | pos :: idx =>
      ok ← strpat_match_at c s pos;
      if (ok : bool) then Some (Some pos) else pos_loop c s idx
  end.

(** [ray_strpat_find]: [Some pos] inside is [true] with that [*out_pos]. *)
Definition ray_strpat_find (c : strpat) (s : list Z) : option (option Z) :=
  let sn := zlen s in
  if tokens c =? 0 then Some (Some 0) else
  if sn <? tokens c then Some None else
  if literal c then Some (strpat_memmem s (pat c)) else
  if 0 <? zlen (anchor c) then anchor_loop (S (length s)) c s (anchor_token c) else
  pos_loop c s (range 0 (sn - tokens c + 1)).

Definition ray_strpat_find_raw (s p : list Z) : option (option Z) :=
  r ← ray_strpat_compile p;
  match r with
  | None => Some None
  | Some c => ray_strpat_find c s
  end.
