(* ===== verification/GlobProofs.v ===== *)
(** * Lemmas on glob patterns

    Patterns as token lists, the declarative meaning of a token list, and how
    the index-based scanners follow the tokens. *)

From S2P Require Import Prelude Glob.
Local Open Scope Z_scope.
#[local] Arguments zget : simpl never.

(** ** Suffixes of an array *)
Definition suf (p : list Z) (i : Z) (l : list Z) : Prop := ∃ pre, p = pre ++ l ∧ i = zlen pre.

Lemma suf_0 p : suf p 0 p.
Proof. by exists []. Qed.
Lemma suf_zlen p i l : suf p i l → 0 ≤ i ∧ zlen p = i + zlen l.
Proof. intros (pre & -> & ->). rewrite zlen_app. pose proof (zlen_nonneg pre). lia. Qed.
Lemma suf_get p i l k : suf p i l → 0 ≤ k → p.[i + k] = l.[k].
Proof. intros (pre & -> & ->) Hk. rewrite zget_app_r by lia. f_equal. lia. Qed.
Lemma suf_head p i x l : suf p i (x :: l) → p.[i] = Some x.
Proof. intros H. rewrite <- (Z.add_0_r i), (suf_get _ _ _ _ H) by lia. done. Qed.
Lemma suf_app p i a l : suf p i (a ++ l) → suf p (i + zlen a) l.
Proof. intros (pre & -> & ->). exists (pre ++ a). by rewrite <- app_assoc, zlen_app. Qed.
Lemma suf_tail p i x l : suf p i (x :: l) → suf p (i + 1) l.
Proof. exact (suf_app p i [x] l). Qed.
Lemma suf_lt p i x l : suf p i (x :: l) → (i <? zlen p) = true.
Proof. intros [? E]%suf_zlen. rewrite zlen_cons in E. pose proof (zlen_nonneg l). apply Z.ltb_lt. lia. Qed.
Lemma suf_end p i : suf p i [] → (i <? zlen p) = false ∧ i = zlen p.
Proof. intros [? E]%suf_zlen. change (zlen []) with 0 in E. split; [apply Z.ltb_ge|]; lia. Qed.
Lemma suf_drop p i : 0 ≤ i ≤ zlen p → suf p i (drop (Z.to_nat i) p).
Proof.
  intros Hi. exists (take (Z.to_nat i) p). rewrite take_drop. split; [done|]. rewrite zlen_take. lia.
Qed.
Lemma suf_eq p i l : suf p i l → l = drop (Z.to_nat i) p.
Proof. intros (pre & -> & ->). by rewrite to_nat_zlen, drop_app_length. Qed.

Lemma is_at_ok p i l c :
  suf p i l → is_at p i c = Some (match l with x :: _ => x =? c | [] => false end).
Proof.
  intros H. unfold is_at. destruct l as [|x l].
  - by rewrite (proj1 (suf_end _ _ H)).
  - by rewrite (suf_lt _ _ _ _ H), (suf_head _ _ _ _ H).
Qed.
Lemma range_at_ok p i l :
  suf p i l →
  range_at p i = Some (match l with _ :: d :: h :: _ => (d =? DASH) && negb (h =? RBRACK) | _ => false end).
Proof.
  intros H. pose proof (suf_zlen _ _ _ H) as [Hi Hl]. unfold range_at.
  destruct l as [|x [|d [|h l]]]; rewrite ?zlen_cons in Hl; try change (zlen []) with 0 in Hl.
  1-3: by rewrite (proj2 (Z.ltb_ge _ _)) by lia.
  pose proof (zlen_nonneg l). rewrite (proj2 (Z.ltb_lt _ _)) by lia.
  rewrite !(suf_get _ _ _ _ H) by lia.
  change ((x :: d :: h :: l).[1]) with (Some d). change ((x :: d :: h :: l).[2]) with (Some h).
  cbn. by destruct (d =? DASH).
Qed.

(** ** Tokens *)
Inductive gtok := Star | Any | Class (neg : bool) (items : list (Z * Z)) | Lit (c : Z).

(** The items of a class, and what follows them. *)
Fixpoint class_items (first : bool) (l : list Z) : list (Z * Z) * list Z :=
  match l with
  | [] => ([], [])
  | x :: l1 =>
      if first || negb (x =? RBRACK) then
        match l1 with
        | d :: h :: l2 =>
            if (d =? DASH) && negb (h =? RBRACK)
            then let '(it, r) := class_items false l2 in ((x, h) :: it, r)
            else let '(it, r) := class_items false l1 in ((x, x) :: it, r)
        | _ => let '(it, r) := class_items false l1 in ((x, x) :: it, r)
        end
      else ([], l)
  end.

(** The class after its opening bracket, with the closing one taken. *)
Definition class_tok (l : list Z) : gtok * list Z :=
  let '(neg, l) := match l with x :: l' => if x =? BANG then (true, l') else (false, l) | [] => (false, l) end in
  let '(items, r) := class_items true l in
  (Class neg items, match r with x :: r' => if x =? RBRACK then r' else r | [] => r end).

Definition next_tok (x : Z) (l : list Z) : gtok * list Z :=
  if x =? STAR then (Star, l) else if x =? QUEST then (Any, l)
  else if x =? LBRACK then class_tok l else (Lit x, l).

Fixpoint parse_fuel (fuel : nat) (l : list Z) : list gtok :=
  match fuel, l with
  | S fuel, x :: l => let '(t, r) := next_tok x l in t :: parse_fuel fuel r
  | _, _ => []
  end.
Definition parse (l : list Z) : list gtok := parse_fuel (length l) l.

Definition item_ok (ci : bool) (ch : Z) (it : Z * Z) : bool :=
  (fold_case ci it.1 <=? ch) && (ch <=? fold_case ci it.2).

(** Whether a one-character token takes [c]. *)
Definition tok_ok (ci : bool) (t : gtok) (c : Z) : bool :=
  match t with
  | Star => false
  | Any => true
  | Class neg items => xorb neg (existsb (item_ok ci (fold_case ci c)) items)
  | Lit x => fold_case ci c =? fold_case ci x
  end.

(** What a pattern means: a star takes any run of characters. *)
Fixpoint gmatch (ci : bool) (ts : list gtok) (s : list Z) : bool :=
  match ts with
  | [] => match s with [] => true | _ => false end
  | Star :: ts =>
      (fix star (s : list Z) : bool :=
         gmatch ci ts s || match s with [] => false | _ :: s => star s end) s
  | t :: ts => match s with [] => false | c :: s => tok_ok ci t c && gmatch ci ts s end
  end.

Lemma gmatch_star ci ts s :
  gmatch ci (Star :: ts) s = true ↔ ∃ k, (k ≤ length s)%nat ∧ gmatch ci ts (drop k s) = true.
Proof.
  induction s as [|c s IH].
  - cbn. rewrite orb_false_r. split.
    + intros H. by exists 0%nat.
    + intros (k & Hk & H). by rewrite drop_nil in H.
  - change (gmatch ci (Star :: ts) (c :: s)) with (gmatch ci ts (c :: s) || gmatch ci (Star :: ts) s).
    rewrite orb_true_iff, IH. split.
    + intros [H|(k & Hk & H)]; [exists 0%nat; simpl; auto with lia|exists (S k); simpl; auto with lia].
    + intros ([|k] & Hk & H); [by left|]. right. exists k. simpl in *. auto with lia.
Qed.

Definition starfree (ts : list gtok) : Prop := Forall (λ t, t ≠ Star) ts.

Lemma gmatch_one ci t ts s : t ≠ Star →
  gmatch ci (t :: ts) s = match s with [] => false | c :: s => tok_ok ci t c && gmatch ci ts s end.
Proof. by destruct t. Qed.

(** A starless prefix takes exactly as many characters as it has tokens. *)
Lemma gmatch_mid ci mid ts s :
  starfree mid → gmatch ci (mid ++ ts) s = true →
  (length mid ≤ length s)%nat ∧ gmatch ci ts (drop (length mid) s) = true.
Proof.
  intros Hm. revert s. induction Hm as [|t mid Ht _ IH]; intros s; cbn [app length]; [rewrite drop_0; auto with lia|].
  rewrite gmatch_one by done. destruct s as [|c s]; [done|]. intros [_ H]%andb_prop.
  apply IH in H as [? ?]. simpl. auto with lia.
Qed.

Lemma class_items_len first l : (length (class_items first l).2 ≤ length l)%nat.
Proof.
  remember (length l) as n eqn:Hn. revert first l Hn.
  induction n as [n IH] using lt_wf_ind. intros first l ->. destruct l as [|x l1]; [done|]. cbn [class_items].
  destruct (first || negb (x =? RBRACK)); [|done].
  assert (H1 : (length (class_items false l1).2 ≤ length l1)%nat) by (eapply IH; [|done]; simpl; lia).
  destruct l1 as [|d [|h l2]].
  1,2: destruct (class_items false _) as [it r]; simpl in *; lia.
  destruct ((d =? DASH) && negb (h =? RBRACK)).
  - assert (H2 : (length (class_items false l2).2 ≤ length l2)%nat) by (eapply IH; [|done]; simpl; lia).
    destruct (class_items false l2) as [it r]. simpl in *. lia.
  - destruct (class_items false (d :: h :: l2)) as [it r]. simpl in *. lia.
Qed.

Lemma class_tok_len l : (length (class_tok l).2 ≤ length l)%nat.
Proof.
  unfold class_tok.
  assert (H : ∀ n l', (length l' ≤ length l)%nat →
    (length (let '(items, r) := class_items true l' in
      (Class n items, match r with x :: r' => if (x =? RBRACK)%Z then r' else r | [] => r end)).2 ≤ length l)%nat).
  { intros n l' Hl. pose proof (class_items_len true l') as H. destruct (class_items true l') as [it r].
    simpl in *. destruct r as [|x r]; [simpl; lia|]. destruct (x =? RBRACK); simpl in *; lia. }
  destruct l as [|x l']; [by apply H|]. destruct (x =? BANG); apply H; simpl; lia.
Qed.

Lemma next_tok_len x l : (length (next_tok x l).2 ≤ length l)%nat.
Proof.
  unfold next_tok. destruct (x =? STAR); [done|]. destruct (x =? QUEST); [done|].
  destruct (x =? LBRACK); [apply class_tok_len|done].
Qed.

Lemma parse_fuel_enough n : ∀ m l, (length l ≤ n)%nat → (length l ≤ m)%nat → parse_fuel n l = parse_fuel m l.
Proof.
  induction n as [|n IH]; intros [|m] [|x l] Hn Hm; simpl in Hn, Hm; try done; [lia..|].
  cbn [parse_fuel]. pose proof (next_tok_len x l). destruct (next_tok x l) as [t r]. simpl in *.
  f_equal. apply IH; lia.
Qed.

Lemma parse_cons x l : parse (x :: l) = (next_tok x l).1 :: parse (next_tok x l).2.
Proof.
  unfold parse at 1. cbn [length parse_fuel]. pose proof (next_tok_len x l).
  destruct (next_tok x l) as [t r]. simpl in *. f_equal. by apply parse_fuel_enough.
Qed.

(** ** The class scanner follows the class token *)
Lemma class_items_stop l : (class_items false l).2 = [] ∨ ∃ r, (class_items false l).2 = RBRACK :: r.
Proof.
  remember (length l) as n eqn:Hn. revert l Hn.
  induction n as [n IH] using lt_wf_ind. intros l ->. destruct l as [|x l1]; [by left|]. cbn [class_items].
  destruct (Z.eqb_spec x RBRACK) as [->|Hx]; cbn [negb orb]; [right; by eexists|].
  assert (H1 := IH (length l1) ltac:(simpl; lia) l1 eq_refl).
  destruct l1 as [|d [|h l2]].
  1,2: destruct (class_items false _) as [it r]; exact H1.
  destruct ((d =? DASH) && negb (h =? RBRACK)).
  - assert (H2 := IH (length l2) ltac:(simpl; lia) l2 eq_refl). destruct (class_items false l2). exact H2.
  - destruct (class_items false (d :: h :: l2)). exact H1.
Qed.

Lemma class_loop_ok p ci ch fuel : ∀ i first matched l,
  suf p i l → (length l ≤ fuel)%nat →
  ∃ j, class_loop fuel p ci ch i first matched =
    Some (j, matched || existsb (item_ok ci ch) (class_items first l).1) ∧
    suf p j (class_items first l).2 ∧ i ≤ j.
Proof.
  induction fuel as [|fuel IH]; intros i first matched l Hs Hf.
  all: destruct l as [|x l1]; [exists i; cbn [class_loop class_items];
    rewrite (proj1 (suf_end _ _ Hs)); cbn; rewrite orb_false_r; auto with lia|].
  { simpl in Hf. lia. }
  cbn [class_loop class_items]. rewrite (suf_lt _ _ _ _ Hs), (suf_head _ _ _ _ Hs). cbn [mbind option_bind].
  destruct (first || negb (x =? RBRACK)).
  2: { exists i. cbn. rewrite orb_false_r. auto with lia. }
  rewrite (range_at_ok _ _ _ Hs). cbn [mbind option_bind].
  (* a single character *)
  assert (Hone : ∃ j, class_loop fuel p ci ch (i + 1) false (matched || (ch =? fold_case ci x)) =
    Some (j, matched || existsb (item_ok ci ch) ((x, x) :: (class_items false l1).1)) ∧
    suf p j (class_items false l1).2 ∧ i ≤ j).
  { destruct (IH (i + 1) false (matched || (ch =? fold_case ci x)) l1) as (j & -> & Hj & Hij);
      [by eapply suf_tail|simpl in Hf; lia|].
    assert (E : (ch =? fold_case ci x) = item_ok ci ch (x, x))
      by (unfold item_ok; cbn [fst snd]; zbool; done || lia).
    exists j. cbn [existsb]. rewrite E, orb_assoc. split_and!; [done|done|lia]. }
  destruct l1 as [|d [|h l2]].
  1,2: destruct (class_items false _) as [it r]; exact Hone.
  destruct ((d =? DASH) && negb (h =? RBRACK)).
  - rewrite (suf_get _ _ _ 2 Hs) by lia. change ((x :: d :: h :: l2).[2]) with (Some h). cbn [mbind option_bind].
    destruct (IH (i + 3) false (matched || ((fold_case ci x <=? ch) && (ch <=? fold_case ci h))) l2)
      as (j & -> & Hj & Hij); [exact (suf_app p i [x; d; h] l2 Hs)|simpl in Hf; lia|].
    exists j. destruct (class_items false l2) as [it r]. cbn [fst snd existsb] in *.
    rewrite orb_assoc. split_and!; [done|done|lia].
  - destruct (class_items false (d :: h :: l2)) as [it r]. exact Hone.
Qed.

Lemma suf_length p i l : suf p i l → (length l ≤ length p)%nat.
Proof. intros (pre & -> & _). rewrite length_app. lia. Qed.

Lemma match_class_ok p i l c ci :
  suf p i l →
  ∃ j, match_class p i c ci = Some (tok_ok ci (class_tok l).1 c, j) ∧ suf p j (class_tok l).2 ∧ i ≤ j.
Proof.
  intros Hs. unfold match_class. rewrite (is_at_ok _ _ _ _ Hs). cbn [mbind option_bind].
  assert (H : ∀ neg i' l', suf p i' l' → ∃ j,
    (res ← class_loop (length p) p ci (fold_case ci c) i' true false;
     let '(i, matched) := res in
     close ← is_at p i RBRACK; Some (xorb neg matched, if (close : bool) then i + 1 else i)) =
    Some (xorb neg (existsb (item_ok ci (fold_case ci c)) (class_items true l').1), j) ∧
    suf p j (match (class_items true l').2 with x :: r' => if x =? RBRACK then r' else (class_items true l').2 | [] => [] end) ∧ i' ≤ j).
  { intros neg i' l' Hs'.
    destruct (class_loop_ok p ci (fold_case ci c) (length p) i' true false l') as (j & -> & Hj & Hij);
      [done|by eapply suf_length|]. cbn [mbind option_bind]. rewrite (is_at_ok _ _ _ _ Hj). cbn [mbind option_bind].
    destruct (class_items true l').2 as [|x r] eqn:E; [by exists j|].
    destruct (x =? RBRACK); [exists (j + 1)|by exists j]. split_and!; [done|by eapply suf_tail|lia]. }
  unfold class_tok. destruct l as [|x l'].
  - destruct (H false i [] Hs) as (j & -> & Hj & Hij). exists j. split_and!; [done|exact Hj|lia].
  - destruct (x =? BANG).
    + destruct (H true (i + 1) l') as (j & -> & Hj & Hij); [by eapply suf_tail|]. exists j.
      destruct (class_items true l') as [it r]. cbn [fst snd tok_ok] in *. split_and!; [done| |lia].
      by destruct r as [|y r].
    + destruct (H false i (x :: l') Hs) as (j & -> & Hj & Hij). exists j.
      destruct (class_items true (x :: l')) as [it r]. cbn [fst snd tok_ok] in *. split_and!; [done| |lia].
      by destruct r as [|y r].
Qed.

(** ** The matcher *)
Definition from (s : list Z) (i : Z) : list Z := drop (Z.to_nat i) s.

Lemma from_get s i c : s.[i] = Some c → from s i = c :: from s (i + 1).
Proof.
  intros Hc. pose proof (zget_Some _ _ _ Hc) as Hi. unfold from. rewrite zget_nat in Hc by lia.
  rewrite (drop_S s c) by done. by replace (Z.to_nat (i + 1)) with (S (Z.to_nat i)) by lia.
Qed.
Lemma from_len s i : 0 ≤ i ≤ zlen s → Z.of_nat (length (from s i)) = zlen s - i.
Proof. intros. unfold from, zlen in *. rewrite length_drop. lia. Qed.
Lemma from_drop s i k : 0 ≤ i → drop k (from s i) = from s (i + Z.of_nat k).
Proof. intros. unfold from. rewrite drop_drop. f_equal. lia. Qed.

(** What is left to try by moving the last star. *)
Definition alt (ci : bool) (s p : list Z) (st : gstate) : Prop :=
  match star st with
  | None => False
  | Some (sp, ss) => ∃ l k, suf p (sp + 1) l ∧ ss < k ≤ zlen s ∧ gmatch ci (parse l) (from s k) = true
  end.

(** The tokens since the last star took the characters since then. *)
Definition star_inv (p : list Z) (st : gstate) (l : list Z) : Prop :=
  match star st with
  | None => True
  | Some (sp, ss) => ∃ ls mid, suf p (sp + 1) ls ∧ parse ls = mid ++ parse l ∧ starfree mid ∧
      0 ≤ ss ∧ 0 ≤ sp ∧ ss + zlen mid = si st
  end.

Definition star_si (st : gstate) : Z := match star st with Some (_, ss) => ss | None => 0 end.

Definition glob_measure (s p : list Z) (st : gstate) : Z :=
  (zlen s - star_si st) * (zlen p + 1) + (zlen p - pi st).

Lemma suf_unique p i l l' : suf p i l → suf p i l' → l = l'.
Proof. intros H1%suf_eq H2%suf_eq. congruence. Qed.

Lemma skip_stars_ok p fuel : ∀ i l, suf p i l → (length l ≤ fuel)%nat →
  ∃ j, skip_stars fuel p i = Some j ∧ (j =? zlen p) = gmatch false (parse l) [] ∧ ∀ ci, gmatch ci (parse l) [] = gmatch false (parse l) [].
Proof.
  induction fuel as [|fuel IH]; intros i l Hs Hf; cbn [skip_stars]; rewrite (is_at_ok _ _ _ _ Hs).
  all: destruct l as [|x l]; cbn [mbind option_bind];
    [exists i; split_and!; [done|by rewrite (proj2 (suf_end _ _ Hs)), Z.eqb_refl|done]|].
  { simpl in Hf. lia. }
  destruct (Z.eqb_spec x STAR) as [->|Hx].
  - rewrite parse_cons. cbn. destruct (IH (i + 1) l) as (j & -> & Hj & Hci); [by eapply suf_tail|simpl in Hf; lia|].
    exists j. split_and!; [done|by rewrite Hj, orb_false_r|]. intros ci. by rewrite !orb_false_r.
  - exists i. rewrite parse_cons.
    assert (Hne : (next_tok x l).1 ≠ Star).
    { unfold next_tok. rewrite (proj2 (Z.eqb_neq _ _)) by done. destruct (x =? QUEST); [done|].
      destruct (x =? LBRACK); [|done]. unfold class_tok. destruct l as [|y l']; [done|].
      destruct (y =? BANG); by destruct (class_items true _). }
    split_and!; [done| |intros ci; by rewrite !gmatch_one].
    rewrite gmatch_one by done. apply Z.eqb_neq. pose proof (suf_zlen _ _ _ Hs). rewrite zlen_cons in *.
    pose proof (zlen_nonneg l). lia.
Qed.

Section matcher.
Context (ci : bool) (s p : list Z).

(** Whether the match can still succeed. *)
Definition hope (st : gstate) (l : list Z) : Prop :=
  gmatch ci (parse l) (from s (si st)) = true ∨ alt ci s p st.

(** What every state keeps: [l] is the rest of the pattern. *)
Definition gst_ok (st : gstate) (l : list Z) : Prop :=
  suf p (pi st) l ∧ star_inv p st l ∧ 0 ≤ si st ≤ zlen s.

(** What a turn establishes. *)
Definition turn_ok (st : gstate) (l : list Z) (r : option gstate) : Prop :=
  match r with
  | None => ¬ hope st l
  | Some st' => ∃ l', gst_ok st' l' ∧ glob_measure s p st' < glob_measure s p st ∧ (hope st l ↔ hope st' l')
  end.

Lemma backtrack_ok st l :
  gst_ok st l → si st < zlen s → gmatch ci (parse l) (from s (si st)) = false →
  turn_ok st l (backtrack st).
Proof.
  intros (Hs & Hinv & Hsi) Hlt Hno. unfold backtrack, turn_ok, hope, alt, star_inv in *.
  destruct (star st) as [[sp ss]|] eqn:Hstar; [|rewrite Hno; naive_solver].
  destruct Hinv as (ls & mid & Hls & Hp & Hm & Hss & Hsp & Hmid). pose proof (zlen_nonneg mid).
  pose proof (suf_zlen _ _ _ Hs). pose proof (zlen_nonneg l).
  exists ls. split_and!.
  - split_and!; cbn; [done| |lia|lia]. exists ls, []. split_and!; [done|done|constructor|lia|lia|].
    change (zlen []) with 0. lia.
  - unfold glob_measure, star_si. rewrite Hstar. cbn. nia.
  - cbn. rewrite Hno. split.
    + intros [?|(l0 & k & Hl0 & Hk & HM)]; [done|]. rewrite (suf_unique _ _ _ _ Hl0 Hls) in HM.
      destruct (decide (k = ss + 1)) as [->|]; [by left|]. right. exists ls, k. auto with lia.
    + intros [HM|(l0 & k & Hl0 & Hk & HM)]; right; [exists ls, (ss + 1)|exists l0, k]; auto with lia.
Qed.

Lemma advance_ok st l t l' c pi' :
  gst_ok st l → s.[si st] = Some c → parse l = t :: parse l' → t ≠ Star → suf p pi' l' → pi st < pi' →
  tok_ok ci t c = true → turn_ok st l (Some (G (si st + 1) pi' (star st))).
Proof.
  intros (Hs & Hinv & Hsi) Hc Hp Ht Hs' Hpi Hok. pose proof (zget_Some _ _ _ Hc).
  exists l'. split_and!.
  - split_and!; cbn; [done| |lia|lia]. unfold star_inv in *. cbn. destruct (star st) as [[sp ss]|]; [|done].
    destruct Hinv as (ls & mid & Hls & Hpl & Hm & Hss & Hsp & Hmid). exists ls, (mid ++ [t]).
    rewrite <- app_assoc. cbn [app]. rewrite <- Hp. split_and!; [done|done| |lia|lia|].
    + apply Forall_app_2; [done|]. by constructor.
    + rewrite zlen_app. change (zlen [t]) with 1. lia.
  - unfold glob_measure, star_si. cbn. lia.
  - unfold hope, alt. cbn. rewrite Hp, gmatch_one by done. rewrite (from_get _ _ _ Hc), Hok. done.
Qed.

Lemma refuse st l t l' c :
  s.[si st] = Some c → parse l = t :: parse l' → t ≠ Star → tok_ok ci t c = false →
  gmatch ci (parse l) (from s (si st)) = false.
Proof. intros Hc Hp Ht Hok. by rewrite Hp, gmatch_one, (from_get _ _ _ Hc), Hok by done. Qed.

Lemma star_ok st l :
  gst_ok st (STAR :: l) → turn_ok st (STAR :: l) (Some (G (si st) (pi st + 1) (Some (pi st, si st)))).
Proof.
  intros (Hs & Hinv & Hsi). pose proof (suf_zlen _ _ _ Hs) as [Hpi Hl]. rewrite zlen_cons in Hl.
  pose proof (zlen_nonneg l). pose proof (suf_tail _ _ _ _ Hs) as Hs'.
  exists l. split_and!.
  - split_and!; cbn; [done| |lia|lia]. exists l, []. split_and!; [done|done|constructor|lia|lia|].
    change (zlen []) with 0. lia.
  - unfold glob_measure. cbn. assert (star_si st ≤ si st); [|nia].
    unfold star_si, star_inv in *. destruct (star st) as [[sp ss]|]; [|lia].
    destruct Hinv as (? & mid & _ & _ & _ & _ & _ & ?). pose proof (zlen_nonneg mid). lia.
  - (* the old alternatives are among the new ones *)
    assert (Hnew : ∀ i, si st ≤ i ≤ zlen s → gmatch ci (parse (STAR :: l)) (from s i) = true →
      hope (G (si st) (pi st + 1) (Some (pi st, si st))) l).
    { intros i Hi HM. rewrite parse_cons in HM. cbn [next_tok fst snd] in HM.
      change (next_tok STAR l) with (Star, l) in HM. cbn [fst snd] in HM.
      apply gmatch_star in HM as (k & Hk & HM). rewrite from_drop in HM by lia.
      pose proof (from_len s i ltac:(lia)).
      destruct (decide (i + Z.of_nat k = si st)) as [E|Hne]; [left; cbn; by rewrite <- E|].
      right. exists l, (i + Z.of_nat k). cbn. split_and!; [done|lia|lia|done]. }
    split.
    + intros [HM|HM]; [by apply (Hnew (si st)); [lia|]|]. unfold alt, star_inv in *.
      destruct (star st) as [[sp ss]|]; [|done]. destruct HM as (l0 & k & Hl0 & Hk & HM).
      destruct Hinv as (ls & mid & Hls & Hp & Hm & Hss & Hsp & Hmid).
      rewrite (suf_unique _ _ _ _ Hl0 Hls), Hp in HM. apply gmatch_mid in HM as [Hlen HM]; [|done].
      rewrite from_drop in HM by lia. pose proof (from_len s k ltac:(lia)).
      apply (Hnew (k + Z.of_nat (length mid))); [unfold zlen in *; lia|done].
    + intros HM. left. rewrite parse_cons. change (next_tok STAR l) with (Star, l). cbn [fst snd].
      apply gmatch_star. destruct HM as [HM|(l0 & k & Hl0 & Hk & HM)].
      * exists 0%nat. rewrite drop_0. cbn in HM. auto with lia.
      * cbn in Hl0, Hk. rewrite (suf_unique _ _ _ _ Hl0 Hs') in HM. exists (Z.to_nat (k - si st)).
        rewrite from_drop by lia. pose proof (from_len s (si st) ltac:(lia)). split; [lia|].
        rewrite <- HM. f_equal. f_equal. lia.
Qed.

Lemma glob_step_ok st l :
  gst_ok st l → si st < zlen s → ∃ r, glob_step s p ci st = Some r ∧ turn_ok st l r.
Proof.
  intros Hst Hlt. pose proof Hst as (Hs & _ & Hsi). unfold glob_step.
  destruct (zget_is_Some s (si st)) as [c Hc]; [lia|]. rewrite Hc. cbn [mbind option_bind].
  destruct l as [|x l].
  { rewrite (proj1 (suf_end _ _ Hs)). eexists. split; [done|]. apply backtrack_ok; [done..|].
    rewrite (from_get _ _ _ Hc). done. }
  rewrite (suf_lt _ _ _ _ Hs), (suf_head _ _ _ _ Hs). cbn [mbind option_bind].
  pose proof (parse_cons x l) as Hp. pose proof (suf_tail _ _ _ _ Hs) as Hs'.
  destruct (Z.eqb_spec x STAR) as [->|Hx1]; [eexists; split; [done|by apply star_ok]|].
  unfold next_tok in Hp. rewrite (proj2 (Z.eqb_neq _ _)) in Hp by done.
  destruct (Z.eqb_spec x QUEST) as [->|Hx2].
  { eexists. split; [done|]. by eapply (advance_ok _ _ Any l c); [..|lia|]. }
  destruct (Z.eqb_spec x LBRACK) as [->|Hx3].
  - destruct (match_class_ok p (pi st + 1) l c ci Hs') as (j & -> & Hj & Hij). cbn [mbind option_bind].
    eexists. split; [done|].
    assert (Hns : (class_tok l).1 ≠ Star).
    { unfold class_tok. destruct l as [|y l']; [done|]. destruct (y =? BANG); by destruct (class_items true _). }
    destruct (tok_ok ci (class_tok l).1 c) eqn:Hok.
    + eapply (advance_ok _ _ _ _ c); [done|done|exact Hp|done|done|lia|done].
    + apply backtrack_ok; [done..|]. by eapply refuse.
  - eexists. split; [done|]. destruct (fold_case ci c =? fold_case ci x) eqn:Hok.
    + by eapply (advance_ok _ _ (Lit x) l c); [..|lia|].
    + apply backtrack_ok; [done..|]. by eapply (refuse _ _ (Lit x) l c).
Qed.

Lemma glob_loop_ok fuel : ∀ st l,
  gst_ok st l → glob_measure s p st ≤ Z.of_nat fuel →
  ∃ b, glob_loop fuel s p ci st = Some b ∧ (b = true ↔ hope st l).
Proof.
  assert (Hend : ∀ st l, gst_ok st l → si st = zlen s →
    ∃ b, (i ← skip_stars (length p) p (pi st); Some (i =? zlen p)) = Some b ∧ (b = true ↔ hope st l)).
  { intros st l (Hs & Hinv & _) He.
    destruct (skip_stars_ok p (length p) (pi st) l Hs) as (j & -> & Hj & Hci); [by eapply suf_length|].
    cbn [mbind option_bind]. eexists. split; [done|]. rewrite Hj, <- (Hci ci). unfold hope. rewrite He.
    assert (from s (zlen s) = []) as ->.
    { unfold from. rewrite to_nat_zlen. apply drop_all. }
    split; [by left|]. intros [?|Halt]; [done|]. exfalso. unfold alt, star_inv in *.
    destruct (star st) as [[sp ss]|]; [|done]. destruct Halt as (l0 & k & Hl0 & Hk & HM).
    destruct Hinv as (ls & mid & Hls & Hp & Hm & Hss & Hsp & Hmid).
    rewrite (suf_unique _ _ _ _ Hl0 Hls), Hp in HM. apply gmatch_mid in HM as [Hlen _]; [|done].
    pose proof (from_len s k ltac:(lia)). unfold zlen in *. lia. }
  induction fuel as [|fuel IH]; intros st l Hst Hf; cbn [glob_loop]; pose proof Hst as (Hs & Hinv & Hsi).
  all: destruct (Z.ltb_spec (si st) (zlen s)); [|apply Hend; [done|lia]].
  - pose proof (suf_zlen _ _ _ Hs). pose proof (zlen_nonneg l). unfold glob_measure, star_si, star_inv in *.
    destruct (star st) as [[sp ss]|]; [|nia].
    destruct Hinv as (? & mid & _ & _ & _ & _ & _ & ?). pose proof (zlen_nonneg mid). nia.
  - destruct (glob_step_ok st l Hst) as (r & -> & Hr); [done|]. cbn [mbind option_bind].
    destruct r as [st'|]; [|exists false; split; [done|]; split; [done|]; intros Hh; by destruct (Hr Hh)].
    destruct Hr as (l' & Hst' & Hlt & Hh). destruct (IH st' l' Hst') as (b & -> & Hb); [lia|].
    exists b. split; [done|]. by rewrite Hb, Hh.
Qed.

Lemma glob_impl_ok : glob_impl s p ci = Some (gmatch ci (parse p) s).
Proof.
  unfold glob_impl, glob_fuel. pose proof (zlen_nonneg s). pose proof (zlen_nonneg p).
  destruct (glob_loop_ok (Z.to_nat ((zlen s + 1) * (zlen p + 1))) (G 0 0 None) p) as (b & -> & Hb).
  - split_and!; cbn; [apply suf_0|done|lia|lia].
  - unfold glob_measure, star_si. cbn. nia.
  - f_equal. unfold hope, alt in Hb. cbn in Hb.
    change (from s 0) with s in Hb. destruct b, (gmatch ci (parse p) s); try done; exfalso.
    + by destruct (proj1 Hb eq_refl).
    + by discriminate (proj2 Hb (or_introl eq_refl)).
Qed.
End matcher.

(** ** Literal stretches *)
Definition plain (l : list Z) : Prop := Forall (λ x, is_meta x = false) l.

Lemma next_tok_plain x l : is_meta x = false → next_tok x l = (Lit x, l).
Proof. unfold is_meta, next_tok. destruct (x =? STAR), (x =? QUEST), (x =? LBRACK); done. Qed.

Lemma parse_plain l r : plain l → parse (l ++ r) = map Lit l ++ parse r.
Proof.
  induction 1 as [|x l Hx _ IH]; [done|]. cbn [app map]. rewrite parse_cons, next_tok_plain by done.
  cbn [fst snd]. by rewrite IH.
Qed.
Lemma parse_star r : parse (STAR :: r) = Star :: parse r.
Proof. by rewrite parse_cons. Qed.

Lemma gmatch_lits l ts s :
  gmatch false (map Lit l ++ ts) s = true ↔ ∃ r, s = l ++ r ∧ gmatch false ts r = true.
Proof.
  revert s. induction l as [|x l IH]; intros s; cbn [map app].
  - split; [by exists s|]. by intros (r & -> & ?).
  - rewrite gmatch_one by done. destruct s as [|c s]; [naive_solver|]. cbn [tok_ok fold_case].
    rewrite andb_true_iff, Z.eqb_eq, IH. naive_solver.
Qed.
Lemma gmatch_star_split ts s :
  gmatch false (Star :: ts) s = true ↔ ∃ a b, s = a ++ b ∧ gmatch false ts b = true.
Proof.
  rewrite gmatch_star. split.
  - intros (k & _ & Hk). exists (take k s), (drop k s). by rewrite take_drop.
  - intros (a & b & -> & Hb). exists (length a). rewrite length_app, drop_app_length. auto with lia.
Qed.
Lemma gmatch_star_end s : gmatch false [Star] s = true.
Proof. apply gmatch_star_split. exists s, []. by rewrite app_nil_r. Qed.

Lemma sub_bytes_len p lo len : 0 ≤ lo → 0 ≤ len → lo + len ≤ zlen p → zlen (sub_bytes p lo len) = len.
Proof. intros. unfold sub_bytes. rewrite zlen_take, zlen_drop. lia. Qed.

Lemma has_meta_ok p l : ∀ lo, holds p lo l → has_meta p (range lo (lo + zlen l)) = Some (existsb is_meta l).
Proof.
  induction l as [|x l IH]; intros lo Hh.
  - by rewrite range_empty by (unfold zlen; simpl; lia).
  - pose proof (zlen_nonneg l). rewrite zlen_cons, range_cons by lia. cbn [has_meta existsb].
    pose proof (holds_app_inv p lo [x] l Hh) as [Hx Hl]. apply holds_single in Hx. rewrite Hx. cbn [mbind option_bind].
    destruct (is_meta x); [done|]. change (zlen [x]) with 1 in Hl.
    cbn [orb]. rewrite <- (IH (lo + 1) Hl). by replace (lo + (1 + zlen l)) with (lo + 1 + zlen l) by lia.
Qed.
Lemma existsb_plain l : existsb is_meta l = false → plain l.
Proof.
  induction l as [|x l IH]; cbn; [by constructor|]. intros [? ?]%orb_false_elim. constructor; [done|by apply IH].
Qed.

(** ** [memcmp] and [memmem] *)
Lemma memeq_at_ok s i l : 0 ≤ i → i + zlen l ≤ zlen s →
  ∃ b, memeq_at s i l = Some b ∧ (b = true ↔ l `prefix_of` from s i).
Proof.
  intros Hi Hl. unfold memeq_at. rewrite !(proj2 (Z.leb_le _ _)) by lia. cbn.
  eexists. split; [done|]. rewrite bool_decide_eq_true. unfold sub_bytes, from. rewrite to_nat_zlen. split.
  - intros <-. apply prefix_take.
  - intros [r Hr]. rewrite Hr. by rewrite take_app_length.
Qed.

Lemma memmem_ok s n :
  match memmem s n with
  | Some i => 0 ≤ i ≤ zlen s ∧ n `prefix_of` from s i ∧ ∀ j, 0 ≤ j < i → ¬ n `prefix_of` from s j
  | None => ∀ j, 0 ≤ j ≤ zlen s → ¬ n `prefix_of` from s j
  end.
Proof.
  unfold memmem. induction s as [|c s IH]; cbn [memmem_from].
  - case_bool_decide as Hp; [split_and!; [done|done|done|lia]|]. intros j Hj.
    assert (j = 0) as -> by (change (zlen []) with 0 in Hj; lia). done.
  - pose proof (zlen_nonneg s). case_bool_decide as Hp.
    { split_and!; [lia|rewrite zlen_cons; lia|done|lia]. }
    assert (Hs : ∀ j, 0 < j → from (c :: s) j = from s (j - 1)).
    { intros j Hj. unfold from. by replace (Z.to_nat j) with (S (Z.to_nat (j - 1))) by lia. }
    destruct (memmem_from s n) as [i|]; cbn [mbind option_bind].
    + destruct IH as (Hi & Hpi & Hlt). rewrite zlen_cons. split_and!; [lia|lia| |].
      * rewrite Hs by lia. by replace (i + 1 - 1) with i by lia.
      * intros j Hj. destruct (decide (j = 0)) as [->|]; [done|]. rewrite Hs by lia. apply Hlt. lia.
    + rewrite zlen_cons. intros j Hj. destruct (decide (j = 0)) as [->|]; [done|].
      rewrite Hs by lia. apply IH. lia.
Qed.

(** ** The compiled shapes *)
Definition star_if (b : bool) : list Z := if b then [STAR] else [].

Lemma parse_plain_nil l : plain l → parse l = map Lit l ++ [].
Proof. intros Hl. rewrite <- (app_nil_r l) at 1. by rewrite parse_plain. Qed.

(** What the patterns with the stars only outside mean. *)
Lemma shape_spec (lead trail : bool) l s :
  plain l →
  gmatch false (parse (star_if lead ++ l ++ star_if trail)) s = true ↔
  ∃ a b, s = a ++ l ++ b ∧ (lead = false → a = []) ∧ (trail = false → b = []).
Proof.
  intros Hl.
  assert (Ht : ∀ s, gmatch false (parse (l ++ star_if trail)) s = true ↔
    ∃ b, s = l ++ b ∧ (trail = false → b = [])).
  { intros s'. rewrite parse_plain by done. rewrite gmatch_lits. destruct trail; cbn [star_if].
    - rewrite parse_star. split; intros (r & -> & Hr); exists r; [done|]. split; [done|]. apply gmatch_star_end.
    - split; intros (r & -> & Hr); exists r; (split; [done|]); [by destruct r|by rewrite Hr]. }
  destruct lead; cbn [star_if app].
  - rewrite parse_star, gmatch_star_split. setoid_rewrite Ht. split.
    + intros (a & ? & -> & b & -> & Hb). by exists a, b.
    + intros (a & b & -> & _ & Hb). exists a, (l ++ b). split; [done|]. by exists b.
  - rewrite Ht. split.
    + intros (b & -> & Hb). by exists [], b.
    + intros (a & b & -> & Ha & Hb). rewrite Ha by done. by exists b.
Qed.

Lemma bool_eq_iff (a b : bool) : (a = true ↔ b = true) → a = b.
Proof. destruct a, b; intuition congruence. Qed.


Lemma from_0 s : from s 0 = s.
Proof. done. Qed.

(** [memcmp] at [i], guarded by the length tests of the callers. *)
Lemma prefix_at_ok (s l : list Z) i (P : Prop) :
  0 ≤ i → i + zlen l ≤ zlen s → (l `prefix_of` from s i ↔ P) →
  ∃ b, (if zlen l =? 0 then Some true else memeq_at s i l) = Some b ∧ (b = true ↔ P).
Proof.
  intros Hi Hl HP. destruct (Z.eqb_spec (zlen l) 0) as [E|_].
  - exists true. split; [done|]. rewrite <- HP. apply zlen_zero_nil in E as ->.
    split; [intros _; apply prefix_nil|done].
  - destruct (memeq_at_ok s i l) as (b & -> & Hb); [done..|]. exists b. by rewrite Hb.
Qed.

Lemma compiled_ok (lead trail : bool) l s :
  plain l →
  ray_glob_match_compiled (GlobCompiled
    (if lead && trail then if zlen l =? 0 then SHAPE_ANY else SHAPE_CONTAINS
     else if lead then SHAPE_SUFFIX else if trail then SHAPE_PREFIX else SHAPE_EXACT) l) s =
  Some (gmatch false (parse (star_if lead ++ l ++ star_if trail)) s).
Proof.
  intros Hl.
  enough (∃ b, ray_glob_match_compiled (GlobCompiled
    (if lead && trail then if zlen l =? 0 then SHAPE_ANY else SHAPE_CONTAINS
     else if lead then SHAPE_SUFFIX else if trail then SHAPE_PREFIX else SHAPE_EXACT) l) s = Some b ∧
    (b = true ↔ ∃ a c, s = a ++ l ++ c ∧ (lead = false → a = []) ∧ (trail = false → c = []))) as (b & -> & Hb).
  { f_equal. apply bool_eq_iff. by rewrite Hb, shape_spec. }
  unfold ray_glob_match_compiled. cbn [shape lit]. pose proof (zlen_nonneg l). pose proof (zlen_nonneg s).
  destruct lead, trail; cbn [andb].
  - destruct (Z.eqb_spec (zlen l) 0) as [E|E]; cbn.
    { exists true. split; [done|]. split; [|done]. intros _. exists s, []. apply zlen_zero_nil in E as ->.
      cbn. by rewrite app_nil_r. }
    destruct (Z.ltb_spec (zlen s) (zlen l)).
    { exists false. split; [done|]. split; [done|]. intros (a & c & -> & _). rewrite !zlen_app in *.
      pose proof (zlen_nonneg a). pose proof (zlen_nonneg c). lia. }
    eexists. split; [done|]. pose proof (memmem_ok s l) as Hm. destruct (memmem s l) as [i|].
    + destruct Hm as (Hi & [r Hr] & _). split; [|done]. intros _. exists (take (Z.to_nat i) s), r.
      split; [|done]. rewrite <- Hr. unfold from. by rewrite take_drop.
    + split; [done|]. intros (a & c & -> & _). exfalso. apply (Hm (zlen a)).
      * rewrite !zlen_app. pose proof (zlen_nonneg a). pose proof (zlen_nonneg c). lia.
      * unfold from. rewrite to_nat_zlen, drop_app_length. by exists c.
  - destruct (Z.ltb_spec (zlen s) (zlen l)).
    { exists false. split; [done|]. split; [done|]. intros (a & c & -> & _). rewrite !zlen_app in *.
      pose proof (zlen_nonneg a). pose proof (zlen_nonneg c). lia. }
    apply prefix_at_ok; [lia|lia|]. split.
    + intros [r Hr]. exists (take (Z.to_nat (zlen s - zlen l)) s), [].
      assert (r = []) as ->.
      { apply zlen_zero_nil. pose proof (from_len s (zlen s - zlen l) ltac:(lia)) as Hf.
        rewrite Hr in Hf. fold (zlen (l ++ r)) in Hf. rewrite zlen_app in Hf. lia. }
      split; [|done]. rewrite <- Hr. unfold from. by rewrite take_drop.
    + intros (a & c & -> & _ & Hc). rewrite Hc, app_nil_r by done. rewrite zlen_app.
      replace (zlen a + zlen l - zlen l) with (zlen a) by lia. unfold from.
      rewrite to_nat_zlen, drop_app_length. done.
  - destruct (Z.ltb_spec (zlen s) (zlen l)).
    { exists false. split; [done|]. split; [done|]. intros (a & c & -> & _). rewrite !zlen_app in *.
      pose proof (zlen_nonneg a). pose proof (zlen_nonneg c). lia. }
    apply prefix_at_ok; [lia|lia|]. rewrite from_0. split.
    + intros [r ->]. by exists [], r.
    + intros (a & c & -> & Ha & _). rewrite Ha by done. by exists c.
  - destruct (Z.eqb_spec (zlen s) (zlen l)) as [E|E]; cbn [negb].
    2: { exists false. split; [done|]. split; [done|]. intros (a & c & -> & Ha & Hc).
      rewrite Ha, Hc in E by done. by rewrite app_nil_r in E. }
    apply prefix_at_ok; [lia|lia|]. rewrite from_0. split.
    + intros [r ->]. exists [], r. split; [done|]. split; [done|]. intros _.
      apply zlen_zero_nil. rewrite zlen_app in E. lia.
    + intros (a & c & -> & Ha & _). rewrite Ha by done. by exists c.
Qed.

Lemma split3 (p : list Z) lo hi : 0 ≤ lo ≤ hi → hi ≤ zlen p →
  p = take (Z.to_nat lo) p ++ sub_bytes p lo (hi - lo) ++ drop (Z.to_nat hi) p.
Proof.
  intros Hlo Hhi. rewrite <- (take_drop (Z.to_nat lo) p) at 1. f_equal. unfold sub_bytes.
  rewrite <- (take_drop (Z.to_nat (hi - lo)) (drop (Z.to_nat lo) p)) at 1. f_equal.
  rewrite drop_drop. f_equal. lia.
Qed.

Lemma compile_ok p :
  ∃ c, ray_glob_compile p = Some c ∧
    (shape c = SHAPE_NONE ∨
     ∃ (lead trail : bool) l, plain l ∧ p = star_if lead ++ l ++ star_if trail ∧
       c = GlobCompiled
         (if lead && trail then if zlen l =? 0 then SHAPE_ANY else SHAPE_CONTAINS
          else if lead then SHAPE_SUFFIX else if trail then SHAPE_PREFIX else SHAPE_EXACT) l).
Proof.
  unfold ray_glob_compile. destruct (Z.eqb_spec (zlen p) 0) as [E|E].
  { eexists. split; [done|]. right. exists false, false, []. apply zlen_zero_nil in E as ->. by split; [constructor|]. }
  pose proof (zlen_nonneg p).
  destruct (zget_is_Some p 0) as [a Ha]; [lia|]. destruct (zget_is_Some p (zlen p - 1)) as [b Hb]; [lia|].
  rewrite Ha. cbn [mbind option_bind]. rewrite Hb. cbn [mbind option_bind].
  set (lead := a =? STAR). set (trail := (b =? STAR) && ((1 <? zlen p) || negb lead)).
  set (lo := if lead then 1 else 0). set (hi := if trail then zlen p - 1 else zlen p).
  assert (Hlh : 0 ≤ lo ≤ hi ∧ hi ≤ zlen p).
  { unfold lo, hi, trail. destruct lead; [|destruct (_ && _); lia].
    destruct (b =? STAR), (Z.ltb_spec 1 (zlen p)); cbn; lia. }
  destruct Hlh as [Hlh Hhi]. set (l := sub_bytes p lo (hi - lo)).
  assert (Hll : zlen l = hi - lo) by (apply sub_bytes_len; lia).
  assert (Hp : p = star_if lead ++ l ++ star_if trail).
  { rewrite (split3 p lo hi) at 1 by done. fold l. f_equal; [|f_equal].
    - unfold lo, lead, star_if. destruct (Z.eqb_spec a STAR) as [->|]; [|done].
      destruct p as [|x p']; [done|]. cbn in Ha. by injection Ha as ->.
    - unfold hi, trail, star_if. destruct (Z.eqb_spec b STAR) as [->|]; cbn [andb].
      2: { rewrite to_nat_zlen. apply drop_all. }
      destruct ((1 <? zlen p) || negb lead); [|rewrite to_nat_zlen; apply drop_all].
      fold (from p (zlen p - 1)). rewrite (from_get _ _ _ Hb).
      replace (zlen p - 1 + 1) with (zlen p) by lia. unfold from. by rewrite to_nat_zlen, drop_all. }
  assert (Hhm : has_meta p (range lo hi) = Some (existsb is_meta l)).
  { replace (range lo hi) with (range lo (lo + zlen l)) by (f_equal; lia). apply has_meta_ok.
    rewrite Hp. unfold lo. intros j Hj.
    assert (Hs : zlen (star_if lead) = if lead then 1 else 0) by (by destruct lead).
    rewrite zget_app_r by (rewrite Hs; lia). rewrite Hs, zget_app_l by (destruct lead; lia).
    f_equal. destruct lead; lia. }
  rewrite Hhm.
  cbn [mbind option_bind]. destruct (existsb is_meta l) eqn:Hm.
  { eexists. split; [done|]. by left. }
  eexists. split; [done|]. right. exists lead, trail, l. split; [by apply existsb_plain|]. split; [exact Hp|].
  rewrite <- Hll. destruct lead, trail; cbn; done.
Qed.

(** ** Substring search *)

(** Whether the tokens take the first characters of [s]. *)
Fixpoint pmatch (ts : list gtok) (s : list Z) : bool :=
  match ts with
  | [] => true
  | t :: ts => match s with [] => false | c :: s => tok_ok false t c && pmatch ts s end
  end.

(** The substring of [s] at [pos] that the pattern matches as a glob. *)
Definition occurs (p s : list Z) (pos : Z) : Prop :=
  ∃ len, 0 ≤ len ∧ 0 ≤ pos ∧ pos + len ≤ zlen s ∧ gmatch false (parse p) (sub_bytes s pos len) = true.

Lemma pmatch_spec ts s : starfree ts →
  pmatch ts s = true ↔ (length ts ≤ length s)%nat ∧ gmatch false ts (take (length ts) s) = true.
Proof.
  intros Ht. revert s. induction Ht as [|t ts Hne _ IH]; intros s; cbn [pmatch length].
  - rewrite take_0. split; [split; [lia|done]|done].
  - destruct s as [|c s]; [split; [done|simpl; lia]|]. cbn [take length].
    rewrite gmatch_one by done. rewrite !andb_true_iff, IH. simpl. intuition lia.
Qed.
Lemma gmatch_starfree_len ts s : starfree ts → gmatch false ts s = true → length s = length ts.
Proof.
  intros Ht. revert s. induction Ht as [|t ts Hne _ IH]; intros s.
  - by destruct s.
  - rewrite gmatch_one by done. destruct s as [|c s]; [done|]. intros [_ Hm]%andb_prop. simpl. f_equal. auto.
Qed.

Lemma occurs_pmatch p s pos : starfree (parse p) → 0 ≤ pos ≤ zlen s →
  occurs p s pos ↔ pmatch (parse p) (from s pos) = true.
Proof.
  intros Hsf Hpos. rewrite pmatch_spec by done. pose proof (from_len s pos Hpos) as Hl. split.
  - intros (len & Hlen & _ & Hend & Hm). unfold sub_bytes in Hm. fold (from s pos) in Hm.
    pose proof (gmatch_starfree_len _ _ Hsf Hm) as Hlt. rewrite length_take in Hlt.
    assert (Z.to_nat len = length (parse p)) as E by lia. rewrite E in Hm. split; [lia|done].
  - intros [Hle Hm]. exists (Z.of_nat (length (parse p))). unfold sub_bytes. rewrite Nat2Z.id.
    split_and!; [lia|lia|lia|done].
Qed.
Lemma occurs_range p s pos : starfree (parse p) → occurs p s pos → 0 ≤ pos ∧ pos + zlen (parse p) ≤ zlen s.
Proof.
  intros Hsf (len & Hlen & Hpos & Hend & Hm). apply gmatch_starfree_len in Hm; [|done].
  unfold zlen at 1. rewrite <- Hm. fold (zlen (sub_bytes s pos len)). rewrite sub_bytes_len by lia. lia.
Qed.

Lemma pmatch_app a b s :
  pmatch (a ++ b) s = pmatch a s && pmatch b (drop (length a) s).
Proof.
  revert s. induction a as [|t a IH]; intros s; cbn [app pmatch length]; [by rewrite drop_0|].
  destruct s as [|c s]; [done|]. cbn [drop]. by rewrite IH, andb_assoc.
Qed.
Lemma pmatch_lits l s : pmatch (map Lit l) s = true ↔ l `prefix_of` s.
Proof.
  revert s. induction l as [|x l IH]; intros s; cbn [map pmatch].
  - split; [intros _; apply prefix_nil|done].
  - destruct s as [|c s]; [split; [done|by intros ?%prefix_nil_not]|]. cbn [tok_ok fold_case].
    rewrite andb_true_iff, Z.eqb_eq, IH. split.
    + intros [-> H1]. by apply prefix_cons.
    + intros H1. split; [by apply prefix_cons_inv_1 in H1|by apply prefix_cons_inv_2 in H1].
Qed.

Lemma match_at_loop_ok p s fuel : ∀ pi si l,
  suf p pi l → starfree (parse l) → (length l ≤ fuel)%nat → 0 ≤ si →
  match_at_loop fuel p s pi si = Some (pmatch (parse l) (from s si)).
Proof.
  induction fuel as [|fuel IH]; intros pi0 si0 l Hs Hsf Hf Hsi; cbn [match_at_loop].
  all: destruct l as [|x l]; [by rewrite (proj1 (suf_end _ _ Hs))|]; rewrite (suf_lt _ _ _ _ Hs).
  { simpl in Hf. lia. }
  rewrite parse_cons in *. apply Forall_cons_1 in Hsf as [Hx Hsf]. cbn [pmatch].
  destruct (Z.leb_spec (zlen s) si0) as [Hge|Hlt].
  { unfold from. rewrite drop_ge by (unfold zlen in *; lia). done. }
  rewrite (suf_head _ _ _ _ Hs). cbn [mbind option_bind].
  destruct (zget_is_Some s si0) as [c Hc]; [lia|]. rewrite Hc. cbn [mbind option_bind].
  rewrite (from_get _ _ _ Hc). pose proof (suf_tail _ _ _ _ Hs) as Hs'. pose proof (next_tok_len x l) as Hl.
  unfold next_tok in *. destruct (Z.eqb_spec x STAR) as [->|_]; [done|].
  destruct (Z.eqb_spec x QUEST) as [->|_].
  { cbn [fst snd tok_ok andb] in *. apply IH; [done|done|simpl in *; lia|lia]. }
  destruct (Z.eqb_spec x LBRACK) as [->|_].
  - destruct (match_class_ok p (pi0 + 1) l c false Hs') as (j & -> & Hj & _). cbn [mbind option_bind].
    destruct (tok_ok false (class_tok l).1 c); cbn [andb]; [|done]. apply IH; [done|done|simpl in *; lia|lia].
  - cbn [fst snd tok_ok fold_case] in *. destruct (c =? x); cbn [negb andb]; [|done].
    apply IH; [done|done|simpl in *; lia|lia].
Qed.

(** What a compiled search pattern promises. *)
Definition strpat_ok (c : strpat) : Prop :=
  starfree (parse (pat c)) ∧ tokens c = zlen (parse (pat c)) ∧
  (literal c = true → parse (pat c) = map Lit (pat c)) ∧
  (anchor c = [] ∨ ∃ T1 T2, parse (pat c) = T1 ++ map Lit (anchor c) ++ T2 ∧ zlen T1 = anchor_token c).

Lemma strpat_match_at_ok c s pos :
  strpat_ok c → 0 ≤ pos ≤ zlen s →
  ∃ b, strpat_match_at c s pos = Some b ∧ (b = true ↔ occurs (pat c) s pos).
Proof.
  intros (Hsf & _) Hpos. unfold strpat_match_at.
  rewrite (match_at_loop_ok (pat c) s (length (pat c)) 0 pos (pat c)) by (apply suf_0 || done || lia).
  eexists. split; [done|]. by rewrite occurs_pmatch.
Qed.

(** ** The searches give the first occurrence *)
Definition first_at (p s : list Z) (r : option Z) : Prop :=
  match r with
  | Some pos => occurs p s pos ∧ ∀ q, occurs p s q → pos ≤ q
  | None => ∀ q, ¬ occurs p s q
  end.

Lemma strpat_memmem_ok s n :
  match strpat_memmem s n with
  | Some i => 0 ≤ i ≤ zlen s ∧ n `prefix_of` from s i ∧ ∀ j, 0 ≤ j < i → ¬ n `prefix_of` from s j
  | None => ∀ j, 0 ≤ j ≤ zlen s → ¬ n `prefix_of` from s j
  end.
Proof.
  unfold strpat_memmem. pose proof (zlen_nonneg s). destruct (Z.eqb_spec (zlen n) 0) as [E|E].
  { apply zlen_zero_nil in E as ->. split_and!; [lia|lia|apply prefix_nil|lia]. }
  destruct (Z.ltb_spec (zlen s) (zlen n)); [|apply memmem_ok].
  intros j Hj [r Hr]. pose proof (from_len s j Hj) as Hf. rewrite Hr in Hf. fold (zlen (n ++ r)) in Hf.
  rewrite zlen_app in Hf. pose proof (zlen_nonneg r). lia.
Qed.

Lemma pos_loop_ok c s n : strpat_ok c → ∀ lo, 0 ≤ lo → lo + Z.of_nat n - 1 ≤ zlen s →
  ∃ r, pos_loop c s (range lo (lo + Z.of_nat n)) = Some r ∧
    match r with
    | Some pos => occurs (pat c) s pos ∧ ∀ q, lo ≤ q < pos → ¬ occurs (pat c) s q
    | None => ∀ q, lo ≤ q < lo + Z.of_nat n → ¬ occurs (pat c) s q
    end.
Proof.
  intros Hc. induction n as [|n IH]; intros lo Hlo Hend.
  { rewrite range_empty by lia. exists None. split; [done|]. lia. }
  rewrite range_cons by lia. cbn [pos_loop].
  destruct (strpat_match_at_ok c s lo Hc) as (b & -> & Hb); [lia|]. cbn [mbind option_bind].
  destruct b; [exists (Some lo); split; [done|]; split; [by apply Hb|lia]|].
  destruct (IH (lo + 1)) as (r & Hr & Hspec); [lia|lia|].
  replace (lo + Z.of_nat (S n)) with (lo + 1 + Z.of_nat n) by lia. rewrite Hr. exists r. split; [done|].
  assert (Hno : ¬ occurs (pat c) s lo) by (intros Ho%Hb; done).
  destruct r as [pos|].
  - destruct Hspec as [Ho Hq]. split; [done|]. intros q Hqr. destruct (decide (q = lo)) as [->|]; [done|].
    apply Hq. lia.
  - intros q Hqr. destruct (decide (q = lo)) as [->|]; [done|]. apply Hspec. lia.
Qed.

(** Occurrences and anchors. *)
Lemma prefix_sub (s n : list Z) i len h :
  0 ≤ i → 0 ≤ len → i + len ≤ zlen s → 0 ≤ h → h + zlen n ≤ len →
  n `prefix_of` from (sub_bytes s i len) h ↔ n `prefix_of` from s (i + h).
Proof.
  intros Hi Hlen Hend Hh Hn. unfold from, sub_bytes.
  rewrite skipn_firstn_comm, drop_drop. replace (Z.to_nat i + Z.to_nat h)%nat with (Z.to_nat (i + h)) by lia.
  split.
  - intros Hp. etrans; [exact Hp|]. apply prefix_take.
  - intros [r Hr]. rewrite Hr. exists (take (Z.to_nat len - Z.to_nat h - length n) r).
    rewrite take_app. unfold zlen in *. rewrite (take_ge n) by lia. done.
Qed.

Lemma occurs_anchor c s pos T1 T2 :
  strpat_ok c → parse (pat c) = T1 ++ map Lit (anchor c) ++ T2 → zlen T1 = anchor_token c →
  occurs (pat c) s pos → anchor c `prefix_of` from s (pos + anchor_token c).
Proof.
  intros (Hsf & Htok & _) Hp HT1 Ho. pose proof (occurs_range _ _ _ Hsf Ho).
  pose proof (zlen_nonneg (parse (pat c))). pose proof (zlen_nonneg T1).
  apply occurs_pmatch in Ho; [|done|lia]. rewrite Hp, !pmatch_app in Ho.
  apply andb_prop in Ho as [_ [Ho _]%andb_prop]. apply pmatch_lits in Ho.
  rewrite from_drop in Ho by lia. by rewrite <- HT1.
Qed.

Lemma anchor_loop_ok c s T1 T2 fuel : ∀ scan_from,
  strpat_ok c → parse (pat c) = T1 ++ map Lit (anchor c) ++ T2 → zlen T1 = anchor_token c →
  anchor c ≠ [] → anchor_token c ≤ scan_from → zlen s - scan_from < Z.of_nat fuel ∨ zlen s < scan_from →
  (∀ q, q < scan_from - anchor_token c → ¬ occurs (pat c) s q) →
  ∃ r, anchor_loop fuel c s scan_from = Some r ∧ first_at (pat c) s r.
Proof.
  induction fuel as [|fuel IH]; intros sf Hc Hp HT1 Hne Hsf Hf Hbefore; cbn [anchor_loop].
  all: pose proof Hc as (Hstar & Htok & _);
    assert (Hlen : tokens c = anchor_token c + zlen (anchor c) + zlen T2)
      by (rewrite Htok, Hp, !zlen_app, zlen_map; lia);
    replace (tokens c - anchor_token c - zlen (anchor c)) with (zlen T2) by lia;
    pose proof (zlen_nonneg T1); pose proof (zlen_nonneg T2); pose proof (zlen_nonneg (anchor c));
    assert (Ha : zlen (anchor c) ≠ 0) by (intros E; by apply zlen_zero_nil in E);
    destruct (Z.leb_spec (sf + zlen (anchor c) + zlen T2) (zlen s)) as [Hle|Hgt];
    [|exists None; split; [done|]; intros q Ho; pose proof (occurs_range _ _ _ Hstar Ho);
      apply (Hbefore q); [lia|done]].
  - lia.
  - set (len := zlen s - zlen T2 - sf). pose proof (strpat_memmem_ok (sub_bytes s sf len) (anchor c)) as Hm.
    assert (Hslen : zlen (sub_bytes s sf len) = len) by (apply sub_bytes_len; lia).
    assert (Hin : ∀ q, sf - anchor_token c ≤ q → occurs (pat c) s q →
      anchor c `prefix_of` from (sub_bytes s sf len) (q + anchor_token c - sf) ∧
      0 ≤ q + anchor_token c - sf ≤ len).
    { intros q Hq Ho. pose proof (occurs_range _ _ _ Hstar Ho) as Hr. rewrite <- Htok in Hr. split; [|lia].
      apply prefix_sub; [lia|lia|lia|lia|lia|].
      replace (sf + (q + anchor_token c - sf)) with (q + anchor_token c) by lia. by eapply occurs_anchor. }
    destruct (strpat_memmem (sub_bytes s sf len) (anchor c)) as [hit|].
    2: { exists None. split; [done|]. intros q Ho.
      destruct (decide (q < sf - anchor_token c)) as [Hlt|Hge]; [by eapply Hbefore|].
      destruct (Hin q) as [HB1 HB2]; [lia|done|]. eapply Hm; [|exact HB1]. lia. }
    rewrite Hslen in Hm. destruct Hm as (Hhit & Hpre & Hfirst).
    assert (Hfit : hit + zlen (anchor c) ≤ len).
    { destruct Hpre as [r Hr]. pose proof (from_len (sub_bytes s sf len) hit ltac:(lia)) as Hl.
      rewrite Hr in Hl. fold (zlen (anchor c ++ r)) in Hl. rewrite zlen_app in Hl. pose proof (zlen_nonneg r). lia. }
    set (start := sf + hit - anchor_token c).
    rewrite (proj2 (Z.leb_le (start + tokens c) (zlen s))) by lia.
    destruct (strpat_match_at_ok c s start Hc) as (b & -> & Hb); [lia|]. cbn [mbind option_bind].
    assert (Hnone : ∀ q, q < start → ¬ occurs (pat c) s q).
    { intros q Hq Ho. destruct (decide (q < sf - anchor_token c)) as [Hlt|Hge]; [by eapply Hbefore|].
      destruct (Hin q) as [HB1 HB2]; [lia|done|]. apply (Hfirst (q + anchor_token c - sf)); [lia|done]. }
    destruct b.
    + exists (Some start). split; [done|]. split; [by apply Hb|]. intros q Ho.
      destruct (decide (q < start)) as [Hlt|]; [by apply Hnone in Hlt|lia].
    + apply IH; [done|done|done|done|lia|lia|]. intros q Hq Ho.
      destruct (decide (q = start)) as [->|]; [by apply Hb in Ho|]. apply (Hnone q); [lia|done].
Qed.

Lemma strpat_find_ok c s :
  strpat_ok c → ∃ r, ray_strpat_find c s = Some r ∧ first_at (pat c) s r.
Proof.
  intros Hc. pose proof Hc as (Hsf & Htok & Hlit & Hanc). unfold ray_strpat_find.
  pose proof (zlen_nonneg s). destruct (Z.eqb_spec (tokens c) 0) as [E|E].
  { exists (Some 0). split; [done|]. rewrite Htok in E. split.
    - apply occurs_pmatch; [done|lia|]. by apply zlen_zero_nil in E as ->.
    - intros q Ho. pose proof (occurs_range _ _ _ Hsf Ho). lia. }
  destruct (Z.ltb_spec (zlen s) (tokens c)).
  { exists None. split; [done|]. intros q Ho. pose proof (occurs_range _ _ _ Hsf Ho). lia. }
  destruct (literal c).
  { eexists. split; [done|]. specialize (Hlit eq_refl).
    assert (Ho : ∀ q, 0 ≤ q ≤ zlen s → occurs (pat c) s q ↔ pat c `prefix_of` from s q).
    { intros q Hq. rewrite occurs_pmatch by done. by rewrite Hlit, pmatch_lits. }
    pose proof (strpat_memmem_ok s (pat c)) as Hm. destruct (strpat_memmem s (pat c)) as [i|].
    - destruct Hm as (Hi & Hp & Hq). split; [by apply Ho|]. intros q Hoq.
      pose proof (occurs_range _ _ _ Hsf Hoq). pose proof (zlen_nonneg (parse (pat c))).
      apply Ho in Hoq; [|lia]. destruct (decide (q < i)); [|lia]. exfalso. apply (Hq q); [lia|done].
    - intros q Hoq. pose proof (occurs_range _ _ _ Hsf Hoq). pose proof (zlen_nonneg (parse (pat c))).
      apply Ho in Hoq; [|lia]. apply (Hm q); [lia|done]. }
  destruct (Z.ltb_spec 0 (zlen (anchor c))).
  - destruct Hanc as [E0|(T1 & T2 & Hp & HT1)]; [by rewrite E0 in *|].
    apply (anchor_loop_ok c s T1 T2); [done|done|done| |lia| |].
    + intros E0. by rewrite E0 in *.
    + pose proof (zlen_nonneg T1). unfold zlen at 1. lia.
    + intros q Hq Ho. pose proof (occurs_range _ _ _ Hsf Ho). lia.
  - replace (zlen s - tokens c + 1) with (0 + Z.of_nat (Z.to_nat (zlen s - tokens c + 1))) by lia.
    pose proof (zlen_nonneg (parse (pat c))).
    destruct (pos_loop_ok c s (Z.to_nat (zlen s - tokens c + 1)) Hc 0) as (r & Hr & Hspec); [lia|lia|].
    exists r. split; [exact Hr|]. destruct r as [pos|].
    + destruct Hspec as [Ho Hq]. split; [done|]. intros q Hoq. pose proof (occurs_range _ _ _ Hsf Hoq).
      destruct (decide (q < pos)); [|lia]. exfalso. apply (Hq q); [lia|done].
    + intros q Hoq. pose proof (occurs_range _ _ _ Hsf Hoq). apply (Hspec q); [lia|done].
Qed.

(** ** Compiling a search pattern *)
Lemma skip_class_loop_ok p fuel : ∀ i first l,
  suf p i l → (length l ≤ fuel)%nat →
  ∃ j, skip_class_loop fuel p i first = Some j ∧ suf p j (class_items first l).2.
Proof.
  induction fuel as [|fuel IH]; intros i first l Hs Hf.
  all: destruct l as [|x l1]; [exists i; cbn [skip_class_loop class_items];
    rewrite (proj1 (suf_end _ _ Hs)); done|].
  { simpl in Hf. lia. }
  cbn [skip_class_loop class_items]. rewrite (suf_lt _ _ _ _ Hs), (suf_head _ _ _ _ Hs). cbn [mbind option_bind].
  destruct (first || negb (x =? RBRACK)); [|by exists i].
  rewrite (range_at_ok _ _ _ Hs). cbn [mbind option_bind].
  assert (Hone : ∃ j, skip_class_loop fuel p (i + 1) false = Some j ∧ suf p j (class_items false l1).2).
  { apply IH; [by eapply suf_tail|simpl in Hf; lia]. }
  destruct l1 as [|d [|h l2]].
  1,2: destruct (class_items false _) as [it r]; exact Hone.
  destruct ((d =? DASH) && negb (h =? RBRACK)).
  - destruct (IH (i + 3) false l2) as (j & -> & Hj); [exact (suf_app p i [x; d; h] l2 Hs)|simpl in Hf; lia|].
    exists j. by destruct (class_items false l2).
  - destruct (class_items false (d :: h :: l2)) as [it r]. exact Hone.
Qed.

Lemma skip_class_ok p i l : suf p i l → ∃ j, skip_class p i = Some j ∧ suf p j (class_tok l).2.
Proof.
  intros Hs. unfold skip_class. rewrite (is_at_ok _ _ _ _ Hs). cbn [mbind option_bind].
  assert (H : ∀ i' l', suf p i' l' → ∃ j,
    (j ← skip_class_loop (length p) p i' true; close ← is_at p j RBRACK; Some (if (close : bool) then j + 1 else j)) = Some j ∧
    suf p j (match (class_items true l').2 with x :: r' => if x =? RBRACK then r' else (class_items true l').2 | [] => [] end)).
  { intros i' l' Hs'. destruct (skip_class_loop_ok p (length p) i' true l') as (j & -> & Hj);
      [done|by eapply suf_length|]. cbn [mbind option_bind]. rewrite (is_at_ok _ _ _ _ Hj). cbn [mbind option_bind].
    destruct (class_items true l').2 as [|x r]; [by exists j|].
    destruct (x =? RBRACK); [exists (j + 1)|by exists j]. split; [done|by eapply suf_tail]. }
  unfold class_tok. destruct l as [|x l']; [exact (H i [] Hs)|].
  destruct (x =? BANG).
  - destruct (H (i + 1) l') as (j & -> & Hj); [by eapply suf_tail|]. exists j. split; [done|].
    destruct (class_items true l') as [it [|y r]]; exact Hj.
  - destruct (H i (x :: l') Hs) as (j & -> & Hj). exists j. split; [done|].
    destruct (class_items true (x :: l')) as [it [|y r]]; exact Hj.
Qed.

(** A stretch of [len] literal bytes from [start], after [tok] tokens of [D]. *)
Definition stretch (p : list Z) (D : list gtok) (start len tok : Z) (D2 : list gtok) : Prop :=
  0 ≤ start ∧ 0 < len ∧ start + len ≤ zlen p ∧
  ∃ D1, D = D1 ++ map Lit (sub_bytes p start len) ++ D2 ∧ zlen D1 = tok.

(** The scan at [i], with [D] the tokens before and [l] the bytes after. *)
Record scan_inv (p : list Z) (i : Z) (c : scan) (D : list gtok) (l : list Z) : Prop := {
  sc_suf : suf p i l;
  sc_parse : parse p = D ++ parse l;
  sc_free : starfree D;
  sc_tokens : s_tokens c = zlen D;
  sc_literal : s_literal c = true → D = map Lit (take (Z.to_nat i) p);
  sc_run : run_len c = 0 ∨ run_start c + run_len c = i ∧ stretch p D (run_start c) (run_len c) (run_token c) [];
  sc_best : best_len c = 0 ∨ ∃ D2, stretch p D (best_start c) (best_len c) (best_token c) D2
}.

Lemma stretch_app p D s n t D2 D' : stretch p D s n t D2 → stretch p (D ++ D') s n t (D2 ++ D').
Proof.
  intros (? & ? & ? & D1 & -> & ?). split_and!; [done..|]. exists D1. by rewrite <- !app_assoc.
Qed.

Lemma flush_run_inv p i c D l : scan_inv p i c D l → scan_inv p i (flush_run c) D l ∧ run_len (flush_run c) = 0.
Proof.
  intros [Hs Hp Hf Ht Hl Hr Hb]. unfold flush_run. destruct (Z.ltb_spec (best_len c) (run_len c)).
  - split; [|done]. constructor; cbn; [done..|by left|]. right.
    destruct Hr as [E|[_ Hr]]; [|by eexists]. destruct Hb as [E'|[D2 (_ & Hpos & _)]]; [|lia].
    rewrite E, E' in *. lia.
  - split; [|done]. constructor; cbn; [done..|by left|done].
Qed.

Lemma sub_bytes_snoc p start len x :
  0 ≤ start → 0 ≤ len → p.[start + len] = Some x →
  sub_bytes p start (len + 1) = sub_bytes p start len ++ [x].
Proof.
  intros Hs Hl Hx. unfold sub_bytes. rewrite zget_nat in Hx by lia.
  replace (Z.to_nat (len + 1)) with (S (Z.to_nat len)) by lia. apply take_S_r.
  rewrite lookup_drop. by replace (Z.to_nat start + Z.to_nat len)%nat with (Z.to_nat (start + len)) by lia.
Qed.

Lemma scan_lit_inv p i c D l x :
  scan_inv p i c D (x :: l) → is_meta x = false →
  let c := if run_len c =? 0
           then Scan (s_literal c) (s_tokens c) i 0 (s_tokens c) (best_len c) (best_start c) (best_token c)
           else c in
  scan_inv p (i + 1) (Scan (s_literal c) (s_tokens c + 1) (run_start c) (run_len c + 1) (run_token c)
                           (best_len c) (best_start c) (best_token c)) (D ++ [Lit x]) l.
Proof.
  intros [Hs Hp Hf Ht Hl Hr Hb] Hx c'.
  assert (Hc' : s_literal c' = s_literal c ∧ s_tokens c' = s_tokens c ∧ best_len c' = best_len c ∧
    best_start c' = best_start c ∧ best_token c' = best_token c)
    by (unfold c'; by destruct (run_len c =? 0)).
  destruct Hc' as (-> & -> & -> & -> & ->). pose proof (suf_zlen _ _ _ Hs) as [Hi Hlen].
  rewrite zlen_cons in Hlen. pose proof (zlen_nonneg l). pose proof (suf_head _ _ _ _ Hs) as Hpi.
  constructor; cbn.
  - by eapply suf_tail.
  - rewrite Hp, parse_cons, next_tok_plain by done. by rewrite <- app_assoc.
  - apply Forall_app_2; [done|]. by constructor.
  - rewrite zlen_app, Ht. done.
  - intros El. rewrite Hl by done. replace (Z.to_nat (i + 1)) with (S (Z.to_nat i)) by lia.
    rewrite (take_S_r _ _ x) by (by rewrite <- zget_nat by lia). by rewrite map_app.
  - right. unfold c'. destruct (Z.eqb_spec (run_len c) 0) as [E|E]; cbn.
    + split; [done|]. split_and!; [lia|lia|lia|]. exists D. rewrite app_nil_r.
      change (0 + 1) with 1. split; [|done]. f_equal.
      pose proof (sub_bytes_snoc p i 0 x ltac:(lia) ltac:(lia)) as Hsn. change (0 + 1) with 1 in Hsn.
      rewrite Hsn by (by rewrite Z.add_0_r). unfold sub_bytes. by rewrite take_0.
    + destruct Hr as [?|[Hrl (Hr0 & Hr1 & Hr2 & D1 & HD & HD1)]]; [done|]. split; [lia|].
      split_and!; [lia|lia|lia|]. exists D1. rewrite HD, !app_nil_r. split; [|done].
      rewrite (sub_bytes_snoc p _ _ x) by (lia || by rewrite Hrl). by rewrite map_app, app_assoc.
  - destruct Hb as [?|[D2 Hb]]; [by left|]. right. eexists. by apply stretch_app.
Qed.

Lemma scan_step_ok p i c D x l :
  scan_inv p i c D (x :: l) →
  ∃ r, scan_step p i c = Some r ∧
    match r with
    | None => ¬ starfree (parse p)
    | Some (j, c') => ∃ D' l', scan_inv p j c' D' l' ∧ (length l' < length (x :: l))%nat
    end.
Proof.
  intros Hinv. pose proof Hinv as [Hs Hp Hf Ht Hl Hr Hb]. unfold scan_step.
  rewrite (suf_head _ _ _ _ Hs). cbn [mbind option_bind].
  destruct (Z.eqb_spec x STAR) as [->|Hx1].
  { eexists. split; [done|]. rewrite Hp, parse_star. unfold starfree. rewrite Forall_app, Forall_cons. naive_solver. }
  destruct ((x =? QUEST) || (x =? LBRACK)) eqn:Hq.
  2: { eexists. split; [done|]. exists (D ++ [Lit x]), l. split; [|simpl; lia].
    apply (scan_lit_inv p i c D l x Hinv). unfold is_meta. rewrite (proj2 (Z.eqb_neq _ _)) by done. exact Hq. }
  destruct (flush_run_inv _ _ _ _ _ Hinv) as [[_ _ _ Ht' _ _ Hb'] Hr'].
  pose proof (suf_tail _ _ _ _ Hs) as Hs'. pose proof (next_tok_len x l) as Hnl.
  assert (Hj : ∃ j, (if x =? LBRACK then skip_class p (i + 1) else Some (i + 1)) = Some j ∧
    suf p j (next_tok x l).2 ∧ (next_tok x l).1 ≠ Star).
  { unfold next_tok. rewrite (proj2 (Z.eqb_neq x STAR)) by done. destruct (Z.eqb_spec x LBRACK) as [->|Hx3].
    - change (LBRACK =? QUEST) with false. cbv iota. destruct (skip_class_ok p (i + 1) l Hs') as (j & -> & Hj).
      exists j. split_and!; [done|done|]. unfold class_tok. destruct l as [|y l']; [done|].
      destruct (y =? BANG); by destruct (class_items true _).
    - rewrite orb_false_r in Hq. rewrite Hq. by exists (i + 1). }
  destruct Hj as (j & -> & Hj & Hns). cbn [mbind option_bind]. eexists. split; [done|].
  exists (D ++ [(next_tok x l).1]), (next_tok x l).2. split; [|simpl; lia].
  constructor; cbn.
  - done.
  - by rewrite Hp, parse_cons, <- app_assoc.
  - apply Forall_app_2; [done|]. by constructor.
  - rewrite zlen_app, Ht'. done.
  - done.
  - by left.
  - destruct Hb' as [?|[D2 Hb']]; [by left|]. right. eexists. by apply stretch_app.
Qed.

Lemma scan_loop_ok p fuel : ∀ i c D l,
  scan_inv p i c D l → (length l ≤ fuel)%nat →
  ∃ r, scan_loop fuel p i c = Some r ∧
    match r with None => ¬ starfree (parse p) | Some c' => ∃ D', scan_inv p (zlen p) c' D' [] end.
Proof.
  induction fuel as [|fuel IH]; intros i c D l Hinv Hf; cbn [scan_loop]; pose proof (sc_suf _ _ _ _ _ Hinv) as Hs.
  all: destruct l as [|x l]; [rewrite (proj1 (suf_end _ _ Hs)); eexists; split; [done|];
    exists D; by rewrite <- (proj2 (suf_end _ _ Hs))|].
  { simpl in Hf. lia. }
  rewrite (suf_lt _ _ _ _ Hs). destruct (scan_step_ok _ _ _ _ _ _ Hinv) as (r & -> & Hr). cbn [mbind option_bind].
  destruct r as [[j c']|]; [|by exists None].
  destruct Hr as (D' & l' & Hinv' & Hl). eapply IH; [done|simpl in *; lia].
Qed.

Lemma strpat_compile_ok p :
  ∃ r, ray_strpat_compile p = Some r ∧
    match r with None => ¬ starfree (parse p) | Some c => pat c = p ∧ strpat_ok c end.
Proof.
  unfold ray_strpat_compile.
  destruct (scan_loop_ok p (length p) 0 (Scan true 0 0 0 0 0 0 0) [] p) as (r & -> & Hr).
  { constructor; cbn; try done; [apply suf_0|constructor|by left|by left]. }
  { done. }
  cbn [mbind option_bind]. destruct r as [c|]; [|by exists None].
  destruct Hr as [D Hinv]. eexists. split; [done|]. split; [done|].
  destruct (flush_run_inv _ _ _ _ _ Hinv) as [[Hs Hp Hf Ht Hl _ Hb] _].
  change (parse []) with (@nil gtok) in Hp. rewrite app_nil_r in Hp.
  unfold strpat_ok. cbn [pat tokens literal anchor anchor_token]. rewrite Hp. split_and!; [done|done| |].
  - intros El. rewrite Hl by done. by rewrite to_nat_zlen, firstn_all.
  - destruct Hb as [E|(D2 & Hb0 & Hb1 & Hb2 & D1 & HD & HD1)]; [left|right].
    + rewrite E. unfold sub_bytes. by rewrite take_0.
    + by exists D1, D2.
Qed.

Lemma parse_quoted c : c ≠ BANG → parse [LBRACK; c; RBRACK] = [Class false [(c, c)]].
Proof.
  intros Hc. rewrite parse_cons. change (next_tok LBRACK [c; RBRACK]) with (class_tok [c; RBRACK]).
  unfold class_tok. by rewrite (proj2 (Z.eqb_neq _ _)) by done.
Qed.
