(* ===== verification/GlobProps.v ===== *)
(** * Correctness of glob matching and pattern search

    The matcher computes the declarative meaning of the pattern within the
    documented number of turns, the compiled fast path agrees with it, and the
    substring search finds the first occurrence. *)

From S2P Require Import Prelude Glob GlobProofs.
Local Open Scope Z_scope.

(** C30. For every string and pattern, malformed classes included,
    [ray_glob_match] and [ray_glob_match_ci] stay inside both buffers, end
    within [(sn + 1) * (pn + 1)] turns of the loop (the fuel of [glob_impl]),
    and answer whether the tokens of the pattern match the whole string: a star
    takes any run of characters, every other token exactly one. Keeping only
    the last star to backtrack to loses no match. *)
Theorem glob_match_meaning (s p : list Z) :
  ray_glob_match s p = Some (gmatch false (parse p) s) ∧
  ray_glob_match_ci s p = Some (gmatch true (parse p) s).
Proof. split; apply glob_impl_ok. Qed.

(** Compiling a pattern never fails; when it finds a simple shape, the
    [memcmp]/[memmem] test stays in bounds and accepts exactly the strings the
    general matcher accepts. *)
Theorem glob_compiled_equiv p :
  ∃ c, ray_glob_compile p = Some c ∧
    (shape c ≠ SHAPE_NONE → ∀ s, ray_glob_match_compiled c s = ray_glob_match s p).
Proof.
  destruct (compile_ok p) as (c & Hc & Hspec). exists c. split; [done|]. intros Hne s.
  destruct Hspec as [?|(lead & trail & l & Hl & -> & ->)]; [done|].
  rewrite compiled_ok by done. unfold ray_glob_match. by rewrite glob_impl_ok.
Qed.

(** [ray_strpat_find_raw] rejects exactly the patterns with a star outside
    classes; for the others it stays in bounds, terminates, and finds the first
    position where a substring matches the pattern as a glob, or says there is
    none, whichever of its three strategies it takes. *)
Theorem strpat_find_first s p :
  ∃ r, ray_strpat_find_raw s p = Some r ∧
    (starfree (parse p) → first_at p s r) ∧ (¬ starfree (parse p) → r = None).
Proof.
  unfold ray_strpat_find_raw. destruct (strpat_compile_ok p) as (c & -> & Hc). cbn [mbind option_bind].
  destruct c as [c|]; [|by exists None]. destruct Hc as [<- Hc].
  destruct (strpat_find_ok c s Hc) as (r & -> & Hr). exists r. split; [done|]. split; [done|].
  by destruct Hc as [? _].
Qed.

(** The documented way to quote a metacharacter: for every character but
    [!], the class holding just it matches that character and nothing else. *)
Theorem glob_quote_char c s :
  c ≠ BANG → ray_glob_match s [LBRACK; c; RBRACK] = Some (bool_decide (s = [c])).
Proof.
  intros Hc. unfold ray_glob_match. rewrite glob_impl_ok. f_equal. apply bool_eq_iff.
  rewrite bool_decide_eq_true, parse_quoted by done. cbn. destruct s as [|x [|y s]]; cbn.
  - done.
  - unfold item_ok. cbn. rewrite orb_false_r, andb_true_r, andb_true_iff, !Z.leb_le.
    split; [intros ?; f_equal; lia|intros [= ->]; lia].
  - rewrite andb_false_r. done.
Qed.

Lemma glob_quote_char_witness : ray_glob_match [STAR] [LBRACK; STAR; RBRACK] = Some (bool_decide ([STAR] = [STAR])).
Proof. apply (glob_quote_char STAR [STAR]). discriminate. Defined.
