(* ===== verification/NumParse.v ===== *)
(** * Integer parsing ([src/src/core/numparse.c])

    The digit primitives that work on eight or four bytes at once, and the
    decimal and hexadecimal integer parsers shared by the tokenizer and the CSV
    reader. A source is an array of bytes with its length; words are loaded in
    little-endian order, which the code normalises to on other machines. *)

From S2P Require Import Prelude.
Local Open Scope Z_scope.

(** [memcpy(&chunk, src + i, n)] *)
Definition load (n : nat) (src : list Z) (i : Z) : option Z :=
  if (0 <=? i) && (i + Z.of_nat n <=? zlen src) then Some (le_dec (take n (drop (Z.to_nat i) src)))
  else None.

(** ** Digit primitives *)
Definition LANE8_BIT : Z := 0x8080808080808080.
Definition LANE4_BIT : Z := 0x80808080.

Definition ray_is_8_digits (src : list Z) (i : Z) : option bool :=
  chunk ← load 8 src i;
  let under := u64 (chunk - 0x3030303030303030) in
  let over := u64 (chunk + 0x4646464646464646) in
  Some (Z.land (Z.lor under over) LANE8_BIT =? 0).

Definition ray_is_4_digits (src : list Z) (i : Z) : option bool :=
  chunk ← load 4 src i;
  let under := u32 (chunk - 0x30303030) in
  let over := u32 (chunk + 0x46464646) in
  Some (Z.land (Z.lor under over) LANE4_BIT =? 0).

Definition ray_parse_8_digits (src : list Z) (i : Z) : option Z :=
  chunk ← load 8 src i;
  let chunk := u64 (chunk - 0x3030303030303030) in
  let tens := Z.land chunk 0x000F000F000F000F in
  let ones := Z.land (Z.shiftr chunk 8) 0x000F000F000F000F in
  let pairs := u64 (tens * 10 + ones) in
  let p_hi := Z.land pairs 0x000000FF000000FF in
  let p_lo := Z.land (Z.shiftr pairs 16) 0x000000FF000000FF in
  let quads := u64 (p_hi * 100 + p_lo) in
  Some (u64 (Z.land quads 0xFFFFFFFF * 10000 + Z.shiftr quads 32)).

Definition ray_parse_4_digits (src : list Z) (i : Z) : option Z :=
  chunk ← load 4 src i;
  let chunk := u32 (chunk - 0x30303030) in
  let tens := Z.land chunk 0x000F000F in
  let ones := Z.land (Z.shiftr chunk 8) 0x000F000F in
  let pairs := u32 (tens * 10 + ones) in
  Some (u32 (Z.land pairs 0xFFFF * 100 + Z.shiftr pairs 16)).

(** ** Decimal integers *)
Definition IS_DIGIT (c : Z) : bool := u32 (c - 48) <? 10.

(** [while (i < len && src[i] == '0') i++] *)
Fixpoint skip_zeros (fuel : nat) (src : list Z) (i : Z) : option Z :=
  if i <? zlen src then
    c ← src.[i];
    if c =? 48 then match fuel with O => None | S fuel => skip_zeros fuel src (i + 1) end else Some i
  else Some i.

(** The scalar tail: [None] inside is [return 0]. *)
Fixpoint tail_loop (fuel : nat) (src : list Z) (sig_start i result : Z) : option (option (Z * Z)) :=
  if i <? zlen src then
    c ← src.[i];
    if IS_DIGIT c then
      if 19 <=? i - sig_start then Some None else
      let result' := u64 (u64 (result * 10) + u64 (c - 48)) in
      if result' <? result then Some None else
      match fuel with O => None | S fuel => tail_loop fuel src sig_start (i + 1) result' end
    else Some (Some (i, result))
  else Some (Some (i, result)).

(** The first one or two chunks of eight digits. *)
Definition swar_chunks (src : list Z) (i : Z) : option (Z * Z) :=
  let len := zlen src in
  b ← (if i + 8 <=? len then ray_is_8_digits src i else Some false);
  if (b : bool) then
    result ← ray_parse_8_digits src i;
    let i := i + 8 in
    b ← (if (i + 8 <=? len) && (result <=? 922337203) then ray_is_8_digits src i else Some false);
    if (b : bool) then
      lo ← ray_parse_8_digits src i;
      Some (i + 8, u64 (u64 (result * 100000000) + lo))
    else Some (i, result)
  else Some (i, 0).

(** [ray_parse_i64]: the bytes consumed and what is stored in [*dst]. *)
Definition ray_parse_i64 (src : list Z) : option (Z * option Z) :=
  let len := zlen src in
  if len =? 0 then Some (0, None) else
  c ← src.[0];
  let neg := c =? 45 in
  let i := if neg || (c =? 43) then 1 else 0 in
  if i =? len then Some (0, None) else
  let digit_start := i in
  i ← skip_zeros (length src) src i;
  let sig_start := i in
  res ← swar_chunks src i;
  let '(i, result) := res in
  res ← tail_loop (length src) src sig_start i result;
  match res with
  | None => Some (0, None)
  | Some (i, result) =>
      if i =? digit_start then Some (0, None) else
      if neg then
        if INT64_MAX + 1 <? result then Some (0, None) else Some (i, Some (s64 (u64 (0 - result))))
      else
        if INT64_MAX <? result then Some (0, None) else Some (i, Some result)
  end.

(** ** Hexadecimal *)
Definition hex_digit (c : Z) : option Z :=
  if (48 <=? c) && (c <=? 57) then Some (c - 48)
  else if (97 <=? c) && (c <=? 102) then Some (c - 97 + 10)
  else if (65 <=? c) && (c <=? 70) then Some (c - 65 + 10)
  else None.

(** The loop: at most 16 digits. *)
Fixpoint hex_loop (fuel : nat) (src : list Z) (i v : Z) : option (Z * Z) :=
  if (i <? zlen src) && (i <? 16) then
    c ← src.[i];
    match hex_digit c with
    | None => Some (i, v)
    | Some d =>
        match fuel with
        | O => None
        | S fuel => hex_loop fuel src (i + 1) (Z.lor (u64 (Z.shiftl v 4)) d)
        end
    end
  else Some (i, v).

Definition ray_parse_u64_hex (src : list Z) : option (Z * option Z) :=
  res ← hex_loop 16 src 0 0;
  let '(i, v) := res in
  if i =? 0 then Some (0, None) else Some (i, Some v).
