(* ===== verification/NumParseProofs.v ===== *)
(** * Integer parsing: lane arithmetic, reference parsers and loop invariants

    Byte-wise facts about the words the SWAR primitives work on, the reference
    parsers [ref_i64] and [ref_hex], and the lemmas on each loop of
    [NumParse]. *)

From S2P Require Import Prelude NumParse.
Local Open Scope Z_scope.
#[local] Arguments zget : simpl never.

(** ** Lanes: a word is its low lane and the rest *)

Lemma lane_testbit k x y i :
  0 ≤ k → 0 ≤ x < 2 ^ k → 0 ≤ i →
  Z.testbit (x + 2 ^ k * y) i = if i <? k then Z.testbit x i else Z.testbit y (i - k).
Proof.
  intros Hk Hx Hi. rewrite Z.mul_comm. destruct (Z.ltb_spec i k).
  - rewrite <- (Z.mod_pow2_bits_low _ k i) by lia.
    rewrite Z_mod_plus_full. by rewrite Z.mod_small by lia.
  - replace i with ((i - k) + k) at 1 by lia.
    rewrite <- Z.div_pow2_bits by lia. f_equal.
    rewrite Z.div_add by lia. rewrite Z.div_small by lia. lia.
Qed.

Lemma lane_high k x i : 0 ≤ k ≤ i → 0 ≤ x < 2 ^ k → Z.testbit x i = false.
Proof. intros Hk Hx. apply (Z.bounded_iff_bits_nonneg k x); lia. Qed.

Lemma land_lane k a m : 0 ≤ k → 0 ≤ a < 2 ^ k → 0 ≤ m → 0 ≤ Z.land a m < 2 ^ k.
Proof.
  intros Hk Ha Hm. assert (0 ≤ Z.land a m) by (apply Z.land_nonneg; lia). split; [done|].
  apply Z.bounded_iff_bits_nonneg; [done..|]. intros l Hl.
  by rewrite Z.land_spec, (lane_high k a l).
Qed.

Lemma lor_lane k a m : 0 ≤ k → 0 ≤ a < 2 ^ k → 0 ≤ m < 2 ^ k → 0 ≤ Z.lor a m < 2 ^ k.
Proof.
  intros Hk Ha Hm. assert (0 ≤ Z.lor a m) by (apply Z.lor_nonneg; lia). split; [done|].
  apply Z.bounded_iff_bits_nonneg; [done..|]. intros l Hl.
  by rewrite Z.lor_spec, (lane_high k a l), (lane_high k m l).
Qed.

Lemma land_lanes k a b m n :
  0 ≤ k → 0 ≤ a < 2 ^ k → 0 ≤ m < 2 ^ k →
  Z.land (a + 2 ^ k * b) (m + 2 ^ k * n) = Z.land a m + 2 ^ k * Z.land b n.
Proof.
  intros Hk Ha Hm. apply Z.bits_inj'. intros i Hi.
  rewrite Z.land_spec, !lane_testbit by (try apply land_lane; lia).
  destruct (Z.ltb_spec i k); by rewrite Z.land_spec.
Qed.

Lemma lor_lanes k a b m n :
  0 ≤ k → 0 ≤ a < 2 ^ k → 0 ≤ m < 2 ^ k →
  Z.lor (a + 2 ^ k * b) (m + 2 ^ k * n) = Z.lor a m + 2 ^ k * Z.lor b n.
Proof.
  intros Hk Ha Hm. apply Z.bits_inj'. intros i Hi.
  rewrite Z.lor_spec, !lane_testbit by (try apply lor_lane; lia).
  destruct (Z.ltb_spec i k); by rewrite Z.lor_spec.
Qed.

Lemma shiftr_lanes k a b : 0 ≤ k → 0 ≤ a < 2 ^ k → Z.shiftr (a + 2 ^ k * b) k = b.
Proof.
  intros Hk Ha. rewrite Z.shiftr_div_pow2 by done.
  rewrite Z.mul_comm, Z.div_add by lia. by rewrite Z.div_small.
Qed.

(** Reducing a sum of lanes: the low lane is reduced modulo 256 and its carry
    or borrow moves into the rest. *)
Lemma wrap_lanes n x y :
  wrap (8 * Z.of_nat (S n)) (x + 2 ^ 8 * y) = x `mod` 256 + 2 ^ 8 * wrap (8 * Z.of_nat n) (y + x / 256).
Proof.
  unfold wrap. replace (8 * Z.of_nat (S n)) with (8 + 8 * Z.of_nat n) by lia.
  rewrite Z.pow_add_r by lia. change (2 ^ 8) with 256.
  rewrite Z.rem_mul_r by lia.
  rewrite (Z.mul_comm 256 y), Z.mod_add, Z.div_add by lia.
  f_equal. f_equal. f_equal. lia.
Qed.

(** ** Eight digits at once *)

(** The byte [c] in each of [n] lanes. *)
Fixpoint rep (n : nat) (c : Z) : Z :=
  match n with O => 0 | S n => c + 2 ^ 8 * rep n c end.

Lemma rep_nonneg n c : 0 ≤ c → 0 ≤ rep n c.
Proof. intros Hc. induction n as [|n IH]; simpl; lia. Qed.

Definition digit (c : Z) : Prop := 48 ≤ c ≤ 57.
#[global] Instance digit_dec c : Decision (digit c) := _.

(** The lane test on one byte. *)
Definition lane_flag (b : Z) : Z := Z.land (Z.lor ((b - 48) `mod` 256) ((b + 70) `mod` 256)) 128.

Lemma byte_cases (P : Z → bool) : forallb P (seqZ 0 256) = true → ∀ b, in_u 8 b → P b = true.
Proof.
  intros Hall b Hb. rewrite forallb_forall in Hall. apply Hall, list_elem_of_In, elem_of_seqZ.
  unfold in_u in Hb. change (2 ^ 8) with 256 in Hb. lia.
Qed.

Lemma lane_flag_digit b : in_u 8 b → lane_flag b = 0 ↔ digit b.
Proof.
  intros Hb. pose proof (byte_cases (λ b, eqb (lane_flag b =? 0) ((48 <=? b) && (b <=? 57)))
    ltac:(by vm_compute) b Hb) as Hc.
  apply eqb_prop in Hc. unfold digit. rewrite <- Z.eqb_eq, Hc, andb_true_iff, !Z.leb_le. done.
Qed.

Lemma swar_digits l :
  byte_list l →
  Z.land (Z.lor (wrap (8 * Z.of_nat (length l)) (le_dec l - rep (length l) 48))
                (wrap (8 * Z.of_nat (length l)) (le_dec l + rep (length l) 70)))
         (rep (length l) 128) = 0 ↔ Forall digit l.
Proof.
  induction 1 as [|b l Hb Hl IH]; [by rewrite Forall_nil|].
  cbn [length le_dec rep].
  replace (b + 256 * le_dec l - (48 + 2 ^ 8 * rep (length l) 48))
    with ((b - 48) + 2 ^ 8 * (le_dec l - rep (length l) 48)) by lia.
  replace (b + 256 * le_dec l + (70 + 2 ^ 8 * rep (length l) 70))
    with ((b + 70) + 2 ^ 8 * (le_dec l + rep (length l) 70)) by lia.
  assert (Hm : ∀ x, 0 ≤ x `mod` 256 < 2 ^ 8) by (intros x; apply Z.mod_pos_bound; lia).
  rewrite !wrap_lanes, lor_lanes, land_lanes by (try apply lor_lane; auto; lia).
  fold (lane_flag b).
  set (K := Z.land _ (rep (length l) 128)).
  assert (0 ≤ K).
  { apply Z.land_nonneg. right. apply rep_nonneg. lia. }
  assert (0 ≤ lane_flag b) by (apply Z.land_nonneg; lia).
  rewrite Forall_cons, <- lane_flag_digit by done.
  destruct (Z.eq_dec (lane_flag b) 0) as [Hz|Hz]; [|lia].
  assert (K = 0 ↔ Forall digit l) as <-; [|lia].
  rewrite <- IH. unfold K. apply lane_flag_digit in Hz; [|done]. unfold digit in Hz.
  rewrite (Z.div_small (b - 48)), (Z.div_small (b + 70)) by lia. by rewrite !Z.add_0_r.
Qed.

(** The bytes a load reads. *)
Definition slice (n : nat) (src : list Z) (i : Z) : list Z := take n (drop (Z.to_nat i) src).

Lemma length_slice n src i : 0 ≤ i → i + Z.of_nat n ≤ zlen src → length (slice n src i) = n.
Proof. unfold slice, zlen. intros Hi Hn. rewrite length_take, length_drop. lia. Qed.

Lemma slice_bytes n src i : byte_list src → byte_list (slice n src i).
Proof. intros Hb. by apply Forall_take, Forall_drop. Qed.

Lemma load_Some n src i :
  0 ≤ i → i + Z.of_nat n ≤ zlen src → load n src i = Some (le_dec (slice n src i)).
Proof.
  intros Hi Hn. unfold load, slice.
  destruct (Z.leb_spec 0 i), (Z.leb_spec (i + Z.of_nat n) (zlen src)); simpl; [done|lia..].
Qed.

Lemma is_8_digits_spec src i :
  byte_list src → 0 ≤ i → i + 8 ≤ zlen src →
  ray_is_8_digits src i = Some (bool_decide (Forall digit (slice 8 src i))).
Proof.
  intros Hb Hi Hn. unfold ray_is_8_digits. rewrite load_Some by (simpl; lia). cbn [mbind option_bind].
  pose proof (swar_digits _ (slice_bytes 8 src i Hb)) as Hs.
  rewrite (length_slice 8) in Hs by (simpl; lia). f_equal.
  apply eq_bool_prop_intro. rewrite bool_decide_spec, <- Hs.
  change LANE8_BIT with (rep 8 128). by rewrite Is_true_true, Z.eqb_eq.
Qed.

Lemma is_4_digits_spec src i :
  byte_list src → 0 ≤ i → i + 4 ≤ zlen src →
  ray_is_4_digits src i = Some (bool_decide (Forall digit (slice 4 src i))).
Proof.
  intros Hb Hi Hn. unfold ray_is_4_digits. rewrite load_Some by (simpl; lia). cbn [mbind option_bind].
  pose proof (swar_digits _ (slice_bytes 4 src i Hb)) as Hs.
  rewrite (length_slice 4) in Hs by (simpl; lia). f_equal.
  apply eq_bool_prop_intro. rewrite bool_decide_spec, <- Hs.
  change LANE4_BIT with (rep 4 128). by rewrite Is_true_true, Z.eqb_eq.
Qed.

(** ** Decimal values *)
Definition dval_from (a : Z) (l : list Z) : Z := foldl (λ a c, a * 10 + (c - 48)) a l.
Definition dval (l : list Z) : Z := dval_from 0 l.

(** A word of digit lanes under an alternating mask keeps the even lanes. *)
Lemma mask_pair k m a b r n :
  0 ≤ m ≤ k → 0 ≤ a < 2 ^ m → 0 ≤ b < 2 ^ k →
  Z.land (a + 2 ^ k * (b + 2 ^ k * r)) (Z.ones m + 2 ^ k * (0 + 2 ^ k * n))
  = a + 2 ^ k * (0 + 2 ^ k * Z.land r n).
Proof.
  intros Hm Ha Hb.
  assert (2 ^ m ≤ 2 ^ k) by (apply Z.pow_le_mono_r; lia).
  rewrite !land_lanes, Z.land_ones, Z.mod_small, Z.land_0_r; rewrite ?Z.ones_equiv; lia.
Qed.

(** The 8-bit lanes of eight digits, folded in pairs. *)
Lemma fold_pairs d0 d1 d2 d3 d4 d5 d6 d7 :
  Forall (λ d, 0 ≤ d ≤ 9) [d0; d1; d2; d3; d4; d5; d6; d7] →
  let w := d0 + 2 ^ 8 * (d1 + 2 ^ 8 * (d2 + 2 ^ 8 * (d3 + 2 ^ 8 *
             (d4 + 2 ^ 8 * (d5 + 2 ^ 8 * (d6 + 2 ^ 8 * (d7 + 2 ^ 8 * (0 + 2 ^ 8 * 0)))))))) in
  Z.land w 0x000F000F000F000F * 10 + Z.land (Z.shiftr w 8) 0x000F000F000F000F
  = (d0 * 10 + d1) + 2 ^ 16 * ((d2 * 10 + d3) + 2 ^ 16 * ((d4 * 10 + d5) + 2 ^ 16 * ((d6 * 10 + d7) + 2 ^ 16 * (0 + 2 ^ 16 * 0)))).
Proof.
  rewrite !Forall_cons. intros Hd w. unfold w.
  change 0x000F000F000F000F with (Z.ones 4 + 2 ^ 8 * (0 + 2 ^ 8 * (Z.ones 4 + 2 ^ 8 * (0 + 2 ^ 8 *
    (Z.ones 4 + 2 ^ 8 * (0 + 2 ^ 8 * (Z.ones 4 + 2 ^ 8 * (0 + 2 ^ 8 * 0)))))))).
  rewrite shiftr_lanes, !mask_pair, !Z.land_0_r by lia. lia.
Qed.

(** The 16-bit lanes of four pairs, folded in quads. *)
Lemma fold_quads p0 p1 p2 p3 :
  Forall (λ p, 0 ≤ p ≤ 99) [p0; p1; p2; p3] →
  let w := p0 + 2 ^ 16 * (p1 + 2 ^ 16 * (p2 + 2 ^ 16 * (p3 + 2 ^ 16 * (0 + 2 ^ 16 * 0)))) in
  Z.land w 0x000000FF000000FF * 100 + Z.land (Z.shiftr w 16) 0x000000FF000000FF
  = (p0 * 100 + p1) + 2 ^ 32 * (p2 * 100 + p3).
Proof.
  rewrite !Forall_cons. intros Hd w. unfold w.
  change 0x000000FF000000FF with (Z.ones 8 + 2 ^ 16 * (0 + 2 ^ 16 * (Z.ones 8 + 2 ^ 16 * (0 + 2 ^ 16 * 0)))).
  rewrite shiftr_lanes, !mask_pair, !Z.land_0_r by lia. lia.
Qed.

Lemma ray_parse_8_spec src i :
  0 ≤ i → i + 8 ≤ zlen src → Forall digit (slice 8 src i) →
  ray_parse_8_digits src i = Some (dval (slice 8 src i)).
Proof.
  intros Hi Hn Hd. unfold ray_parse_8_digits. rewrite load_Some by (simpl; lia).
  pose proof (length_slice 8 src i Hi ltac:(simpl; lia)) as Hl.
  destruct (slice 8 src i) as [|c0 [|c1 [|c2 [|c3 [|c4 [|c5 [|c6 [|c7 [|]]]]]]]]]; try discriminate Hl.
  rewrite !Forall_cons in Hd. unfold digit in Hd.
  cbn [mbind option_bind]. f_equal.
  replace (u64 (le_dec [c0; c1; c2; c3; c4; c5; c6; c7] - 3472328296227680304)) with
    ((c0 - 48) + 2 ^ 8 * ((c1 - 48) + 2 ^ 8 * ((c2 - 48) + 2 ^ 8 * ((c3 - 48) + 2 ^ 8 * ((c4 - 48)
      + 2 ^ 8 * ((c5 - 48) + 2 ^ 8 * ((c6 - 48) + 2 ^ 8 * ((c7 - 48) + 2 ^ 8 * (0 + 2 ^ 8 * 0)))))))))
    by (rewrite wrap_id; [|unfold in_u]; simpl; lia).
  rewrite fold_pairs by (rewrite !Forall_cons, Forall_nil; lia).
  rewrite (wrap_id 64 (_ + 2 ^ 16 * _)) by (unfold in_u; lia).
  rewrite fold_quads by (rewrite !Forall_cons, Forall_nil; lia).
  rewrite (wrap_id 64 (_ + 2 ^ 32 * _)), shiftr_lanes by (unfold in_u; lia).
  change 4294967295 with (Z.ones 32). rewrite Z.land_ones by lia.
  rewrite (Z.mul_comm (2 ^ 32)), Z_mod_plus_full, Z.mod_small by lia.
  rewrite wrap_id by (unfold in_u; lia). unfold dval, dval_from. simpl. lia.
Qed.

Lemma ray_parse_4_spec src i :
  0 ≤ i → i + 4 ≤ zlen src → Forall digit (slice 4 src i) →
  ray_parse_4_digits src i = Some (dval (slice 4 src i)).
Proof.
  intros Hi Hn Hd. unfold ray_parse_4_digits. rewrite load_Some by (simpl; lia).
  pose proof (length_slice 4 src i Hi ltac:(simpl; lia)) as Hl.
  destruct (slice 4 src i) as [|c0 [|c1 [|c2 [|c3 [|]]]]]; try discriminate Hl.
  rewrite !Forall_cons in Hd. unfold digit in Hd.
  cbn [mbind option_bind]. f_equal.
  replace (u32 (le_dec [c0; c1; c2; c3] - 808464432)) with
    ((c0 - 48) + 2 ^ 8 * ((c1 - 48) + 2 ^ 8 * ((c2 - 48) + 2 ^ 8 * ((c3 - 48) + 2 ^ 8 * (0 + 2 ^ 8 * 0)))))
    by (rewrite wrap_id; [|unfold in_u]; simpl; lia).
  change 983055 with (Z.ones 4 + 2 ^ 8 * (0 + 2 ^ 8 * (Z.ones 4 + 2 ^ 8 * (0 + 2 ^ 8 * 0)))).
  rewrite shiftr_lanes, !mask_pair, !Z.land_0_r by lia.
  match goal with |- context [u32 (?x * 10 + ?y)] => replace (u32 (x * 10 + y)) with
    (((c0 - 48) * 10 + (c1 - 48)) + 2 ^ 16 * ((c2 - 48) * 10 + (c3 - 48)))
    by (rewrite wrap_id; [|unfold in_u]; lia) end.
  rewrite shiftr_lanes by lia.
  change 65535 with (Z.ones 16). rewrite Z.land_ones by lia.
  rewrite (Z.mul_comm (2 ^ 16)), Z_mod_plus_full, Z.mod_small by lia.
  rewrite wrap_id by (unfold in_u; lia). unfold dval, dval_from. simpl. lia.
Qed.

Lemma dval_from_app a l k : dval_from a (l ++ k) = dval_from (dval_from a l) k.
Proof. apply foldl_app. Qed.

Lemma dval_from_bounds l : ∀ a,
  Forall digit l → a * 10 ^ zlen l ≤ dval_from a l < (a + 1) * 10 ^ zlen l.
Proof.
  induction l as [|c l IH]; intros a Hd; [change (a * 1 ≤ a < (a + 1) * 1); lia|].
  apply Forall_cons in Hd as [Hc Hl]. unfold digit in Hc.
  pose proof (zlen_nonneg l).
  rewrite zlen_cons, Z.pow_add_r by lia. specialize (IH (a * 10 + (c - 48)) Hl).
  change (dval_from a (c :: l)) with (dval_from (a * 10 + (c - 48)) l). nia.
Qed.

Lemma dval_from_split l : ∀ a, dval_from a l = a * 10 ^ zlen l + dval l.
Proof.
  induction l as [|c l IH]; intros a; [change (a = a * 1 + 0); lia|].
  pose proof (zlen_nonneg l).
  unfold dval. change (dval_from ?x (c :: l)) with (dval_from (x * 10 + (c - 48)) l).
  rewrite IH, (IH (0 * 10 + (c - 48))), zlen_cons, Z.pow_add_r by lia. lia.
Qed.

Lemma dval_zeros (z : nat) : dval (replicate z 48) = 0.
Proof. unfold dval. induction z as [|z IH]; [done|]. exact IH. Qed.

(** The longest prefix of digits. *)
Fixpoint digits (l : list Z) : list Z :=
  match l with
  | [] => []
  | c :: r => if decide (digit c) then c :: digits r else []
  end.

Lemma digits_app l k : Forall digit l → digits (l ++ k) = l ++ digits k.
Proof. induction 1 as [|c l Hc Hl IH]; simpl; [done|]. by rewrite decide_True, IH by done. Qed.

Lemma digits_all l : Forall digit (digits l).
Proof. induction l as [|c l IH]; simpl; [done|]. case_decide; by constructor. Qed.

Lemma head_digits l c : head (digits l) = Some c → head l = Some c.
Proof. destruct l; simpl; [done|]. by case_decide. Qed.

(** ** The reference parsers *)

(** Sign, longest run of digits, and the value when it is a 64-bit integer. *)
Definition ref_i64 (src : list Z) : Z * option Z :=
  let neg := bool_decide (head src = Some 45) in
  let signed := neg || bool_decide (head src = Some 43) in
  let ds := digits (if signed then tail src else src) in
  let v := if neg then - dval ds else dval ds in
  if bool_decide (ds ≠ []) && (INT64_MIN <=? v) && (v <=? INT64_MAX)
  then ((if signed then 1 else 0) + zlen ds, Some v)
  else (0, None).

(** The longest run of at most [n] hexadecimal digits. *)
Fixpoint hex_run (n : nat) (l : list Z) : list Z :=
  match n, l with
  | S n, c :: r => match hex_digit c with Some d => d :: hex_run n r | None => [] end
  | _, _ => []
  end.
Definition hval_from (a : Z) (ds : list Z) : Z := foldl (λ a d, a * 16 + d) a ds.
Definition ref_hex (src : list Z) : Z * option Z :=
  let ds := hex_run 16 src in
  if bool_decide (ds = []) then (0, None) else (zlen ds, Some (hval_from 0 ds)).

(** ** Loops *)
Lemma zget_mid {A} (pre : list A) c r : (pre ++ c :: r).[zlen pre] = Some c.
Proof. rewrite zget_app_r by lia. by rewrite Z.sub_diag. Qed.

Lemma slice_mid n (pre l : list Z) : slice n (pre ++ l) (zlen pre) = take n l.
Proof. unfold slice. by rewrite to_nat_zlen, drop_app_length. Qed.

Lemma mid_end {A} (pre : list A) c r : (zlen pre <? zlen (pre ++ c :: r)) = true.
Proof. apply Z.ltb_lt. rewrite zlen_app, zlen_cons. pose proof (zlen_nonneg r). lia. Qed.

Lemma mid_stop {A} (pre : list A) : (zlen pre <? zlen (pre ++ [])) = false.
Proof. rewrite app_nil_r. apply Z.ltb_irrefl. Qed.

Lemma mid_shift {A} (pre : list A) c r : pre ++ c :: r = (pre ++ [c]) ++ r.
Proof. by rewrite <- app_assoc. Qed.

Lemma mid_len {A} (pre : list A) c : zlen (pre ++ [c]) = zlen pre + 1.
Proof. rewrite zlen_app, zlen_cons, zlen_nil. lia. Qed.

Lemma IS_DIGIT_spec c : in_u 8 c → IS_DIGIT c = bool_decide (digit c).
Proof.
  intros Hc. unfold IS_DIGIT, digit, u32, wrap, in_u in *.
  apply eq_bool_prop_intro. rewrite bool_decide_spec, Is_true_true, Z.ltb_lt.
  destruct (Z.leb_spec 48 c).
  - rewrite Z.mod_small by lia. lia.
  - replace (c - 48) with (2 ^ 32 + (c - 48) + (-1) * 2 ^ 32) by lia.
    rewrite Z_mod_plus_full, Z.mod_small by lia. lia.
Qed.

Lemma skip_zeros_spec l : ∀ pre fuel, (length l ≤ fuel)%nat →
  ∃ (z : nat) r, l = replicate z 48 ++ r ∧ head r ≠ Some 48 ∧
    skip_zeros fuel (pre ++ l) (zlen pre) = Some (zlen pre + Z.of_nat z).
Proof.
  induction l as [|c l IH]; intros pre fuel Hf; destruct fuel as [|fuel]; cbn [skip_zeros length] in *;
    [rewrite mid_stop; by exists O, []; rewrite Z.add_0_r..|lia|].
  rewrite mid_end, zget_mid. cbn [mbind option_bind].
  destruct (Z.eqb_spec c 48) as [->|Hc].
  - destruct (IH (pre ++ [48]) fuel) as (z & r & -> & Hr & Hs); [lia|].
    exists (S z), r. split; [done|]. split; [done|].
    rewrite <- mid_shift, mid_len in Hs. rewrite Hs. f_equal. lia.
  - exists O, (c :: l). split; [done|]. split; [simpl; congruence|]. f_equal. lia.
Qed.

Lemma tail_loop_spec l : ∀ pre fuel sig result, (length l ≤ fuel)%nat → byte_list l →
  0 ≤ zlen pre - sig → 0 ≤ result < 10 ^ (zlen pre - sig) →
  tail_loop fuel (pre ++ l) sig (zlen pre) result
  = Some (if (zlen pre - sig + zlen (digits l) <=? 19) || bool_decide (digits l = [])
          then Some (zlen pre + zlen (digits l), dval_from result (digits l)) else None).
Proof.
  induction l as [|c l IH]; intros pre fuel sig result Hf Hb Hi Hr;
    destruct fuel as [|fuel]; cbn [tail_loop length] in *.
  1, 2: rewrite mid_stop; simpl; rewrite orb_true_r, zlen_nil, Z.add_0_r; done.
  - lia.
  - apply Forall_cons in Hb as [Hc Hb].
    rewrite mid_end, zget_mid. cbn [mbind option_bind digits].
    rewrite IS_DIGIT_spec by done.
    rewrite decide_bool_decide. destruct (bool_decide_reflect (digit c)) as [Hd|Hd];
      [|simpl; rewrite orb_true_r, zlen_nil, Z.add_0_r; done].
    rewrite zlen_cons. pose proof (zlen_nonneg (digits l)).
    rewrite (bool_decide_eq_false_2 (c :: digits l = [])), orb_false_r by done.
    destruct (Z.leb_spec 19 (zlen pre - sig)) as [H19|H19].
    { destruct (Z.leb_spec (zlen pre - sig + (1 + zlen (digits l))) 19); [lia|done]. }
    unfold digit in Hd.
    assert (Hp : 10 ^ (zlen pre - sig + 1) = 10 * 10 ^ (zlen pre - sig)) by (rewrite Z.pow_add_r; lia).
    assert (Hq : 10 ^ (zlen pre - sig + 1) ≤ 10 ^ 19) by (apply Z.pow_le_mono_r; lia).
    assert (10 ^ 19 < 2 ^ 64) by done.
    rewrite (wrap_id 64 (c - 48)), (wrap_id 64 (result * 10)) by (unfold in_u; lia).
    rewrite (wrap_id 64) by (unfold in_u; lia).
    destruct (Z.ltb_spec (result * 10 + (c - 48)) result); [lia|].
    specialize (IH (pre ++ [c]) fuel sig (result * 10 + (c - 48)) ltac:(lia) Hb).
    rewrite mid_len, <- mid_shift in IH.
    replace (zlen pre + 1 - sig) with (zlen pre - sig + 1) in IH by lia.
    rewrite IH by lia. clear IH. f_equal.
    destruct (bool_decide_reflect (digits l = [])) as [Hn|Hn].
    + rewrite Hn, zlen_nil in *. rewrite orb_true_r.
      destruct (Z.leb_spec (zlen pre - sig + (1 + 0)) 19); [|lia].
      f_equal. f_equal; lia.
    + rewrite orb_false_r.
      replace (zlen pre - sig + 1 + zlen (digits l)) with (zlen pre - sig + (1 + zlen (digits l))) by lia.
      destruct (Z.leb_spec (zlen pre - sig + (1 + zlen (digits l))) 19); [|done].
      f_equal. f_equal. lia.
Qed.

(** One chunk: tested, and parsed when the test succeeds. *)
Lemma chunk_spec pre l :
  byte_list (pre ++ l) → zlen pre + 8 ≤ zlen (pre ++ l) →
  ray_is_8_digits (pre ++ l) (zlen pre) = Some false ∨
  ∃ d r, l = d ++ r ∧ zlen d = 8 ∧ Forall digit d ∧ 0 ≤ dval d < 10 ^ 8 ∧
    ray_is_8_digits (pre ++ l) (zlen pre) = Some true ∧
    ray_parse_8_digits (pre ++ l) (zlen pre) = Some (dval d).
Proof.
  intros Hb Hn. pose proof (zlen_nonneg pre).
  rewrite (is_8_digits_spec _ _ Hb) by done. rewrite slice_mid.
  destruct (bool_decide_reflect (Forall digit (take 8 l))) as [Hd|]; [right|by left].
  rewrite ray_parse_8_spec by (by rewrite ?slice_mid). rewrite slice_mid.
  rewrite zlen_app in Hn. assert (Hl : zlen (take 8 l) = 8) by (rewrite zlen_take; lia).
  exists (take 8 l), (drop 8 l). split; [by rewrite take_drop|].
  pose proof (dval_from_bounds _ 0 Hd) as Hv. rewrite Hl in Hv.
  change (0 ≤ dval (take 8 l) < 10 ^ 8) in Hv. done.
Qed.

Lemma swar_chunks_spec pre l : byte_list (pre ++ l) →
  ∃ d r, l = d ++ r ∧ Forall digit d ∧ zlen d ≤ 16 ∧
    swar_chunks (pre ++ l) (zlen pre) = Some (zlen pre + zlen d, dval d).
Proof.
  intros Hb. unfold swar_chunks.
  destruct (Z.leb_spec (zlen pre + 8) (zlen (pre ++ l))) as [Hn|];
    [destruct (chunk_spec pre l Hb Hn) as [->|(d & r & -> & Hl & Hd & Hv & -> & ->)]|];
    cbn [mbind option_bind].
  1, 3: exists [], l; rewrite zlen_nil, Z.add_0_r; done.
  replace (zlen pre + 8) with (zlen (pre ++ d)) by (rewrite zlen_app; lia).
  rewrite app_assoc in *.
  destruct (Z.leb_spec (dval d) 922337203); [|lia]. rewrite andb_true_r.
  destruct (Z.leb_spec (zlen (pre ++ d) + 8) (zlen ((pre ++ d) ++ r))) as [Hn2|];
    [destruct (chunk_spec (pre ++ d) r Hb Hn2) as [->|(d2 & r2 & -> & Hl2 & Hd2 & Hv2 & -> & ->)]|];
    cbn [mbind option_bind].
  1, 3: exists d, r; rewrite zlen_app; split; [done|split; [done|split; [lia|done]]].
  exists (d ++ d2), r2. rewrite !zlen_app, Hl, Hl2.
  split; [by rewrite <- app_assoc|]. split; [by apply Forall_app|]. split; [lia|].
  unfold dval at 3. rewrite dval_from_app, dval_from_split, Hl2. change (dval_from 0 d) with (dval d).
  rewrite (wrap_id 64 (dval d * 100000000)), wrap_id by (unfold in_u; lia).
  f_equal. f_equal. lia.
Qed.

(** Twenty significant digits do not fit, whatever the sign. *)
Lemma dval_many l : Forall digit l → head l ≠ Some 48 → 20 ≤ zlen l → INT64_MAX + 1 < dval l.
Proof.
  intros Hd Hh Hl. destruct l as [|c l]; [rewrite zlen_nil in Hl; lia|].
  apply Forall_cons in Hd as [Hc Hd]. unfold digit in Hc. simpl in Hh.
  pose proof (dval_from_bounds l (c - 48) Hd) as Hb. rewrite zlen_cons in Hl.
  change (dval (c :: l)) with (dval_from (c - 48) l).
  assert (c ≠ 48) by congruence.
  assert (10 ^ 19 ≤ 10 ^ zlen l) by (apply Z.pow_le_mono_r; lia).
  change INT64_MAX with (2 ^ 63 - 1). nia.
Qed.

(** What the parser answers for the digits [ds] after a sign of [k] bytes. *)
Definition ref_value (k : Z) (neg : bool) (ds : list Z) : Z * option Z :=
  let v := if neg then - dval ds else dval ds in
  if bool_decide (ds ≠ []) && (INT64_MIN <=? v) && (v <=? INT64_MAX) then (k + zlen ds, Some v)
  else (0, None).

(** The body of [ray_parse_i64] after the sign. *)
Definition after_sign (src : list Z) (neg : bool) (i : Z) : option (Z * option Z) :=
  if i =? zlen src then Some (0, None) else
  i' ← skip_zeros (length src) src i;
  res ← swar_chunks src i';
  let '(j, result) := res in
  res ← tail_loop (length src) src i' j result;
  match res with
  | None => Some (0, None)
  | Some (j, result) =>
      if j =? i then Some (0, None) else
      if neg then
        if INT64_MAX + 1 <? result then Some (0, None) else Some (j, Some (s64 (u64 (0 - result))))
      else
        if INT64_MAX <? result then Some (0, None) else Some (j, Some result)
  end.

Lemma ref_value_nil k neg : ref_value k neg [] = (0, None).
Proof. done. Qed.

Lemma after_digits pre (z : nat) neg sds :
  Forall digit sds →
  (if zlen pre + Z.of_nat z + zlen sds =? zlen pre then Some (0, None) else
   if (neg : bool) then
     if INT64_MAX + 1 <? dval sds then Some (0, None)
     else Some (zlen pre + Z.of_nat z + zlen sds, Some (s64 (u64 (0 - dval sds))))
   else
     if INT64_MAX <? dval sds then Some (0, None)
     else Some (zlen pre + Z.of_nat z + zlen sds, Some (dval sds)))
  = Some (ref_value (zlen (A := Z) pre) neg (replicate z 48 ++ sds)).
Proof.
  intros Hd. pose proof (dval_from_bounds sds 0 Hd) as Hv. change (dval_from 0 sds) with (dval sds) in Hv.
  unfold ref_value. rewrite zlen_app, zlen_replicate.
  assert (Hval : dval (replicate z 48 ++ sds) = dval sds).
  { unfold dval. rewrite dval_from_app. change (dval_from 0 (replicate z 48)) with (dval (replicate z 48)). by rewrite dval_zeros. }
  rewrite Hval. pose proof (zlen_nonneg sds).
  destruct (Z.eqb_spec (zlen pre + Z.of_nat z + zlen sds) (zlen pre)) as [He|He].
  { destruct z as [|z]; [|lia]. by rewrite (zlen_zero_nil sds) by lia. }
  rewrite bool_decide_eq_true_2; [cbn [andb]|].
  2: { intros Hn. apply He. apply (f_equal zlen) in Hn. rewrite zlen_app, zlen_replicate, zlen_nil in Hn. lia. }
  change INT64_MIN with (- 2 ^ 63). change INT64_MAX with (2 ^ 63 - 1). destruct neg.
  - destruct (Z.ltb_spec (2 ^ 63 - 1 + 1) (dval sds)), (Z.leb_spec (- 2 ^ 63) (- dval sds)); try lia; [done|].
    destruct (Z.leb_spec (- dval sds) (2 ^ 63 - 1)); [|lia].
    cbn [andb]. rewrite swrap_wrap by (unfold in_s; lia). by rewrite <- Z.add_assoc, Z.sub_0_l.
  - destruct (Z.leb_spec (- 2 ^ 63) (dval sds)); [|lia].
    destruct (Z.ltb_spec (2 ^ 63 - 1) (dval sds)), (Z.leb_spec (dval sds) (2 ^ 63 - 1)); try lia; [done|].
    cbn [andb]. by rewrite <- Z.add_assoc.
Qed.

Lemma after_sign_spec pre l neg :
  byte_list (pre ++ l) → after_sign (pre ++ l) neg (zlen pre) = Some (ref_value (zlen pre) neg (digits l)).
Proof.
  intros Hb. unfold after_sign.
  destruct (Z.eqb_spec (zlen pre) (zlen (pre ++ l))) as [He|_].
  { rewrite zlen_app in He. by rewrite (zlen_zero_nil l) by lia. }
  destruct (skip_zeros_spec l pre (length (pre ++ l))) as (z & r & -> & Hr & ->); [rewrite length_app; lia|].
  assert (Hz : Forall digit (replicate z 48)) by (apply Forall_replicate; done).
  rewrite (digits_app _ _ Hz). cbn [mbind option_bind]. rewrite app_assoc in *.
  replace (zlen pre + Z.of_nat z) with (zlen (pre ++ replicate z 48)) by (by rewrite zlen_app, zlen_replicate).
  destruct (swar_chunks_spec (pre ++ replicate z 48) r Hb) as (d & r' & -> & Hd & Hd16 & ->).
  cbn [mbind option_bind]. rewrite app_assoc in *.
  replace (zlen (pre ++ replicate z 48) + zlen d) with (zlen ((pre ++ replicate z 48) ++ d)) by by rewrite zlen_app.
  pose proof (zlen_nonneg d). pose proof (dval_from_bounds d 0 Hd).
  rewrite tail_loop_spec; [|rewrite length_app; lia|by apply Forall_app in Hb as [_ ?]|rewrite zlen_app; lia|].
  2: { replace (zlen _ - zlen _) with (zlen d) by (rewrite (zlen_app _ d); lia). unfold dval. lia. }
  cbn [mbind option_bind].
  replace (zlen ((pre ++ replicate z 48) ++ d) - zlen (pre ++ replicate z 48)) with (zlen d)
    by (rewrite (zlen_app _ d); lia).
  rewrite (digits_app _ _ Hd).
  unfold dval at 1. rewrite <- dval_from_app. fold (dval (d ++ digits r')).
  replace (zlen ((pre ++ replicate z 48) ++ d) + zlen (digits r')) with (zlen pre + Z.of_nat z + zlen (d ++ digits r'))
    by (rewrite !zlen_app, zlen_replicate; lia).
  assert (Hall : Forall digit (d ++ digits r')) by (apply Forall_app; split; [done|apply digits_all]).
  destruct (orb _ _) eqn:Hfit; [by apply after_digits|].
  apply orb_false_iff in Hfit as [Hlen%Z.leb_gt Hne%bool_decide_eq_false].
  rewrite <- (after_digits pre z neg) by done. rewrite <- (zlen_app d) in Hlen.
  assert (Hbig : INT64_MAX + 1 < dval (d ++ digits r')).
  { apply dval_many; [done| |lia]. rewrite <- (digits_app _ _ Hd).
    by intros Hh%head_digits. }
  change INT64_MAX with (2 ^ 63 - 1) in *.
  destruct (Z.eqb_spec (zlen pre + Z.of_nat z + zlen (d ++ digits r')) (zlen pre)); [done|].
  destruct neg.
  - by destruct (Z.ltb_spec (2 ^ 63 - 1 + 1) (dval (d ++ digits r'))); [|lia].
  - by destruct (Z.ltb_spec (2 ^ 63 - 1) (dval (d ++ digits r'))); [|lia].
Qed.

(** The sign of the input, split off. *)
Lemma ref_i64_sign src :
  ref_i64 src = match src with
                | [] => (0, None)
                | c :: r => if c =? 45 then ref_value 1 true (digits r)
                            else if c =? 43 then ref_value 1 false (digits r)
                            else ref_value 0 false (digits src)
                end.
Proof.
  unfold ref_i64. destruct src as [|c r]; [done|]. cbn [head tail].
  destruct (Z.eqb_spec c 45) as [->|H45]; [done|].
  rewrite (bool_decide_eq_false_2 (Some c = Some 45)) by congruence.
  destruct (Z.eqb_spec c 43) as [->|H43]; [done|].
  by rewrite (bool_decide_eq_false_2 (Some c = Some 43)) by congruence.
Qed.

(** ** Hexadecimal *)
Lemma hex_digit_range c d : hex_digit c = Some d → 0 ≤ d < 16.
Proof. unfold hex_digit. repeat (case_match; [naive_solver lia|]). done. Qed.

Lemma hex_run_range n l : Forall (λ d, 0 ≤ d < 16) (hex_run n l).
Proof.
  revert l. induction n as [|n IH]; intros l; [constructor|]. destruct l as [|c l]; [constructor|].
  simpl. destruct (hex_digit c) as [d|] eqn:Hd; constructor; [by eapply hex_digit_range|done].
Qed.

Lemma zlen_hex_run n l : zlen (hex_run n l) ≤ Z.of_nat n.
Proof.
  revert l. induction n as [|n IH]; intros l; [done|]. destruct l as [|c l]; cbn [hex_run]; [rewrite zlen_nil; lia|]. destruct (hex_digit c); [rewrite zlen_cons; specialize (IH l); lia|rewrite zlen_nil; lia].
Qed.

Lemma hval_from_bounds ds : ∀ a,
  Forall (λ d, 0 ≤ d < 16) ds → 0 ≤ a → a * 16 ^ zlen ds ≤ hval_from a ds < (a + 1) * 16 ^ zlen ds.
Proof.
  induction ds as [|d ds IH]; intros a Hd Ha; [change (a * 1 ≤ a < (a + 1) * 1); lia|].
  apply Forall_cons in Hd as [Hc Hl]. pose proof (zlen_nonneg ds).
  rewrite zlen_cons, Z.pow_add_r by lia. specialize (IH (a * 16 + d) Hl ltac:(lia)).
  change (hval_from a (d :: ds)) with (hval_from (a * 16 + d) ds). nia.
Qed.

(** One more nibble: shifting and [or]ing is multiplying and adding. *)
Lemma nibble_step i v d :
  0 ≤ i < 16 → 0 ≤ v < 16 ^ i → 0 ≤ d < 16 → Z.lor (u64 (Z.shiftl v 4)) d = v * 16 + d.
Proof.
  intros Hi Hv Hd.
  assert (16 ^ i ≤ 16 ^ 15) by (apply Z.pow_le_mono_r; lia).
  rewrite Z.shiftl_mul_pow2, wrap_id by (unfold in_u; lia).
  replace (v * 2 ^ 4) with (0 + 2 ^ 4 * v) by lia. replace d with (d + 2 ^ 4 * 0) at 1 by lia.
  rewrite lor_lanes by lia. rewrite Z.lor_0_l, Z.lor_0_r. lia.
Qed.

Lemma hex_loop_spec l : ∀ pre (n : nat) v,
  Z.of_nat n + zlen pre = 16 → 0 ≤ v < 16 ^ zlen pre →
  hex_loop n (pre ++ l) (zlen pre) v
  = Some (zlen pre + zlen (hex_run n l), hval_from v (hex_run n l)).
Proof.
  induction l as [|c l IH]; intros pre n v Hn Hv.
  - rewrite app_nil_r. destruct n; cbn [hex_loop hex_run]; rewrite zlen_nil, Z.add_0_r, Z.ltb_irrefl; done.
  - destruct n as [|n]; cbn [hex_loop hex_run].
    + destruct (Z.ltb_spec (zlen pre) 16); [lia|]. by rewrite andb_false_r, zlen_nil, Z.add_0_r.
    + rewrite mid_end, zget_mid. destruct (Z.ltb_spec (zlen pre) 16); [|lia]. cbn [andb mbind option_bind].
      destruct (hex_digit c) as [d|] eqn:Hd; [|by rewrite zlen_nil, Z.add_0_r].
      pose proof (hex_digit_range _ _ Hd). pose proof (zlen_nonneg pre).
      rewrite (nibble_step (zlen pre)) by lia.
      specialize (IH (pre ++ [c]) n (v * 16 + d)). rewrite mid_len, <- mid_shift in IH.
      rewrite IH; [|lia|rewrite Z.pow_add_r by lia; lia].
      rewrite zlen_cons. f_equal. f_equal. lia.
Qed.

(** ** Forms the properties use *)
Lemma slice_digits src i :
  0 ≤ i → i + 8 ≤ zlen src →
  Forall digit (slice 8 src i) ↔ ∀ k, 0 ≤ k < 8 → ∃ c, src.[i + k] = Some c ∧ 48 ≤ c ≤ 57.
Proof.
  intros Hi Hn. rewrite Forall_lookup. unfold slice. split.
  - intros Hd k Hk. destruct (zget_is_Some src (i + k)) as [c Hc]; [lia|].
    exists c. split; [done|]. apply (Hd (Z.to_nat k)).
    rewrite lookup_take_lt, lookup_drop by lia.
    rewrite zget_nat in Hc by lia. rewrite <- Hc. f_equal. lia.
  - intros Hd k c [Hc Hk]%lookup_take_Some. rewrite lookup_drop in Hc.
    destruct (Hd (Z.of_nat k)) as (c' & Hc' & ?); [lia|].
    rewrite zget_nat in Hc' by lia. replace (Z.to_nat (i + Z.of_nat k)) with (Z.to_nat i + k)%nat in Hc' by lia.
    unfold digit. by simplify_eq.
Qed.

Lemma parse_i64_after_sign c r :
  ray_parse_i64 (c :: r)
  = if c =? 45 then after_sign (c :: r) true 1
    else if c =? 43 then after_sign (c :: r) false 1
    else after_sign (c :: r) false 0.
Proof.
  unfold ray_parse_i64, after_sign.
  destruct (Z.eqb_spec (zlen (c :: r)) 0) as [Hz|]; [by apply zlen_zero_nil in Hz|].
  rewrite (zget_mid [] c r : (c :: r).[0] = Some c). cbn [mbind option_bind].
  by destruct (c =? 45), (c =? 43).
Qed.
