(* ===== verification/NumParseProps.v ===== *)
(** * Integer parsing: the properties of [NumParse] *)

From S2P Require Import Prelude NumParse NumParseProofs.
Local Open Scope Z_scope.

(** The branch-free test for eight digits — one subtraction and one addition
    on a 64-bit word, whose lanes borrow from and carry into each other — answers
    exactly whether each of the eight bytes is between '0' and '9'. *)
Theorem is_8_digits_exact src i :
  byte_list src → 0 ≤ i → i + 8 ≤ zlen src →
  ∃ b, ray_is_8_digits src i = Some b ∧
    (b = true ↔ ∀ k, 0 ≤ k < 8 → ∃ c, src.[i + k] = Some c ∧ 48 ≤ c ≤ 57).
Proof.
  intros Hb Hi Hn. rewrite is_8_digits_spec by done. eexists. split; [done|].
  rewrite bool_decide_eq_true. apply slice_digits; lia.
Qed.

Lemma is_8_digits_exact_witness :
  ∃ b, ray_is_8_digits [48; 49; 50; 51; 52; 53; 54; 57; 200] 1 = Some b ∧
    (b = true ↔ ∀ k, 0 ≤ k < 8 → ∃ c, [48; 49; 50; 51; 52; 53; 54; 57; 200].[1 + k] = Some c ∧ 48 ≤ c ≤ 57).
Proof.
  apply (is_8_digits_exact [48; 49; 50; 51; 52; 53; 54; 57; 200] 1).
  - repeat constructor; done.
  - done.
  - done.
Defined.

(** On eight digits the three-stage word fold gives their decimal value
    (the most significant digit first), with no stage overflowing its lanes. *)
Theorem parse_8_digits_value src i :
  0 ≤ i → i + 8 ≤ zlen src → Forall digit (slice 8 src i) →
  ray_parse_8_digits src i
  = Some (foldl (λ a c, a * 10 + (c - 48)) 0 (slice 8 src i)).
Proof. apply ray_parse_8_spec. Qed.

Lemma parse_8_digits_value_witness :
  ray_parse_8_digits [43; 49; 50; 51; 52; 53; 54; 55; 56] 1
  = Some (foldl (λ a c, a * 10 + (c - 48)) 0 (slice 8 [43; 49; 50; 51; 52; 53; 54; 55; 56] 1)).
Proof.
  apply (parse_8_digits_value [43; 49; 50; 51; 52; 53; 54; 55; 56] 1).
  - done.
  - done.
  - by repeat (constructor; [split; by vm_compute|]).
Defined.

(** C32. The integer parser equals the reference parser on every input: an
    optional sign, then the longest run of digits, accepted exactly when there
    is a digit and the signed value fits in 64 bits; otherwise nothing is
    consumed and nothing stored. The eight-digit chunks, the cap on significant
    digits and the unsigned accumulator never change that answer, and no read is
    outside the input. *)
Theorem parse_i64_equals_reference src :
  byte_list src → ray_parse_i64 src = Some (ref_i64 src).
Proof.
  intros Hb. rewrite ref_i64_sign. destruct src as [|c r]; [done|].
  rewrite parse_i64_after_sign.
  destruct (Z.eqb_spec c 45); [exact (after_sign_spec [c] r true Hb)|].
  destruct (Z.eqb_spec c 43); [exact (after_sign_spec [c] r false Hb)|].
  exact (after_sign_spec [] (c :: r) false Hb).
Qed.

Lemma parse_i64_equals_reference_witness :
  ray_parse_i64 [45; 48; 57; 50; 50; 51; 51; 55; 50; 48; 51; 54; 56; 53; 52; 55; 55; 53; 56; 48; 56; 32]
  = Some (21, Some INT64_MIN).
Proof.
  rewrite (parse_i64_equals_reference
    [45; 48; 57; 50; 50; 51; 51; 55; 50; 48; 51; 54; 56; 53; 52; 55; 55; 53; 56; 48; 56; 32]).
  - by vm_compute.
  - by repeat (constructor; [split; by vm_compute|]).
Defined.

(** The hexadecimal parser reads the longest run of at most sixteen
    hexadecimal digits of either case and stores its value; with no digit it
    consumes and stores nothing. The 64-bit shifts never lose a digit. *)
Theorem parse_hex_equals_reference src : ray_parse_u64_hex src = Some (ref_hex src).
Proof.
  unfold ray_parse_u64_hex, ref_hex.
  rewrite (hex_loop_spec src [] 16 0 ltac:(done) ltac:(done) : hex_loop 16 src 0 0 = _). cbn [mbind option_bind].
  rewrite zlen_nil, Z.add_0_l.
  destruct (bool_decide_reflect (hex_run 16 src = [])) as [->|Hne]; [done|].
  destruct (Z.eqb_spec (zlen (hex_run 16 src)) 0) as [Hz%zlen_zero_nil|]; [done|done].
Qed.
