(* ===== verification/Heap.v ===== *)
(** * The buddy heap ([src/src/mem/heap.c], [src/src/mem/heap.h])

    One thread's heap: self-aligned pools cut into power-of-two blocks, a
    circular doubly linked free list per order, a slab cache for small orders,
    and exact mappings for large requests. Addresses are [Z]. The model keeps
    the two halves of a block header apart: bytes 0-15, which hold the free-list
    links of a free block ([links]), and bytes 16-31 ([hdrs]). Reading a header
    that no code has written is undefined ([None]).

    The operating system is the class [Os]: it answers a request for a mapping,
    given the mappings in use. Block contents, reference counting of children
    and the heaps of other threads are outside this model. *)

From S2P Require Import Prelude.
Local Open Scope Z_scope.

Definition RAY_ORDER_MIN : Z := 6.
Definition RAY_HEAP_POOL_ORDER : Z := 25.
Definition RAY_HEAP_MAX_ORDER : Z := 38.
Definition RAY_ORDER_DIRECT : Z := RAY_HEAP_MAX_ORDER + 1.
Definition RAY_MAX_POOLS : Z := 512.
Definition RAY_DIRECT_HDR : Z := 32.
Definition RAY_SLAB_CACHE_SIZE : Z := 64.
Definition RAY_SLAB_ORDERS : Z := 11.
Definition BSIZEOF (o : Z) : Z := Z.shiftl 1 o.

(** ** Sizes *)
Definition clzll (n : Z) : Z := 63 - Z.log2 n.
Definition ceil_log2 (n : Z) : Z := if n <=? 1 then 0 else 64 - clzll (n - 1).
Definition ray_order_for_size (data_size : Z) : Z :=
  if SIZE_MAX - 32 <? data_size then RAY_HEAP_MAX_ORDER + 1 else
  let total := data_size + 32 in
  let k := ceil_log2 total in
  if k <? RAY_ORDER_MIN then RAY_ORDER_MIN else k.

(** [__builtin_ctzll] of a non-zero word: the least bit set. *)
Fixpoint ctz_from (n : nat) (x i : Z) : Z :=
  match n with
  | O => i
  | S n => if Z.testbit x i then i else ctz_from n x (i + 1)
  end.
Definition ctzll (x : Z) : Z := ctz_from 64 x 0.

(** ** State *)

(** A pointer stored in a link: null, the sentinel of a free list, a block. *)
Inductive ptr := Null | Sent (o : Z) | Blk (a : Z).
#[global] Instance ptr_eq_dec : EqDecision ptr.
Proof. solve_decision. Defined.
#[global] Instance ptr_countable : Countable ptr.
Proof.
  refine (inj_countable'
    (λ p, match p with Null => inl () | Sent o => inr (inl o) | Blk a => inr (inr a) end)
    (λ s, match s with inl _ => Null | inr (inl o) => Sent o | inr (inr a) => Blk a end) _).
  by intros [].
Defined.

(** Bytes 0-15 of a header (or a sentinel), bytes 16-31 of a header. *)
Record node := Node { fl_prev : ptr; fl_next : ptr }.
Record hdr := Hdr { mmod : Z; order : Z; attrs : Z; rc : Z }.
Record pool_entry := PoolEntry { pool_base : Z; pool_order : Z }.
Record mem_stats := MemStats {
  alloc_count : Z; free_count : Z; bytes_allocated : Z; peak_bytes : Z; slab_hits : Z
}.
(** [slabs]: the stack of each slab order, its top first. [directs]: the
    [map_size] in the prefix of every block mapped on its own. *)
Record heap := Heap {
  avail : Z;
  slabs : list (list Z);
  slab_cap : list Z;
  links : gmap ptr node;
  hdrs : gmap Z hdr;
  pools : list pool_entry;
  last_pool_idx : Z;
  directs : gmap Z Z;
  foreign : ptr;
  stats : mem_stats
}.

Definition with_avail (h : heap) (x : Z) : heap :=
  Heap x (slabs h) (slab_cap h) (links h) (hdrs h) (pools h) (last_pool_idx h) (directs h) (foreign h) (stats h).
Definition with_slabs (h : heap) (x : list (list Z)) : heap :=
  Heap (avail h) x (slab_cap h) (links h) (hdrs h) (pools h) (last_pool_idx h) (directs h) (foreign h) (stats h).
Definition with_links (h : heap) (x : gmap ptr node) : heap :=
  Heap (avail h) (slabs h) (slab_cap h) x (hdrs h) (pools h) (last_pool_idx h) (directs h) (foreign h) (stats h).
Definition with_hdrs (h : heap) (x : gmap Z hdr) : heap :=
  Heap (avail h) (slabs h) (slab_cap h) (links h) x (pools h) (last_pool_idx h) (directs h) (foreign h) (stats h).
Definition with_pools (h : heap) (x : list pool_entry) : heap :=
  Heap (avail h) (slabs h) (slab_cap h) (links h) (hdrs h) x (last_pool_idx h) (directs h) (foreign h) (stats h).
Definition with_last_pool (h : heap) (x : Z) : heap :=
  Heap (avail h) (slabs h) (slab_cap h) (links h) (hdrs h) (pools h) x (directs h) (foreign h) (stats h).
Definition with_directs (h : heap) (x : gmap Z Z) : heap :=
  Heap (avail h) (slabs h) (slab_cap h) (links h) (hdrs h) (pools h) (last_pool_idx h) x (foreign h) (stats h).
Definition with_foreign (h : heap) (x : ptr) : heap :=
  Heap (avail h) (slabs h) (slab_cap h) (links h) (hdrs h) (pools h) (last_pool_idx h) (directs h) x (stats h).
Definition with_stats (h : heap) (x : mem_stats) : heap :=
  Heap (avail h) (slabs h) (slab_cap h) (links h) (hdrs h) (pools h) (last_pool_idx h) (directs h) (foreign h) x.

(** The operating system's answer to a request for [2^order] bytes aligned to
    their size (a pool, anonymous or spilled to a file) and for [size] bytes
    aligned to a page (a block mapped on its own). [None]: refused. *)
Class Os := {
  vm_alloc_aligned : list pool_entry → gmap Z Z → Z → option Z;
  vm_alloc : list pool_entry → gmap Z Z → Z → option Z
}.

(** ** Free lists *)
Definition fl_init (L : gmap ptr node) (o : Z) : gmap ptr node := <[Sent o := Node (Sent o) (Sent o)]> L.
Definition fl_empty (h : heap) (o : Z) : option bool :=
  n ← links h !! Sent o; Some (bool_decide (fl_next n = Sent o)).
Definition set_next (L : gmap ptr node) (p q : ptr) : option (gmap ptr node) :=
  n ← L !! p; Some (<[p := Node (fl_prev n) q]> L).
Definition set_prev (L : gmap ptr node) (p q : ptr) : option (gmap ptr node) :=
  n ← L !! p; Some (<[p := Node q (fl_next n)]> L).

Definition fl_remove (h : heap) (blk : Z) : option heap :=
  n ← links h !! Blk blk;
  L ← set_next (links h) (fl_prev n) (fl_next n);
  n ← L !! Blk blk;
  L ← set_prev L (fl_next n) (fl_prev n);
  Some (with_links h L).

Definition set_avail (h : heap) (o : Z) : heap := with_avail h (Z.lor (avail h) (Z.shiftl 1 o)).
Definition clear_avail (h : heap) (o : Z) : heap := with_avail h (Z.ldiff (avail h) (Z.shiftl 1 o)).

(** [mmod] and [order] of a header, as [heap_split_block] and [heap_add_pool]
    set them on memory that held no header. *)
Definition set_hdr (h : heap) (a : Z) (x : hdr) : heap := with_hdrs h (<[a := x]> (hdrs h)).

Definition heap_insert_block (h : heap) (blk o : Z) : option heap :=
  head ← links h !! Sent o;
  let first := fl_next head in
  let L := <[Blk blk := Node (Sent o) first]> (links h) in
  L ← set_prev L first (Blk blk);
  L ← set_next L (Sent o) (Blk blk);
  x ← hdrs h !! blk;
  Some (set_avail (set_hdr (with_links h L) blk (Hdr (mmod x) o 0 0)) o).

(** Enough for every loop over orders: each turn moves the order by one and it
    stays between 6 and 38. *)
Definition order_fuel : nat := Z.to_nat (RAY_HEAP_MAX_ORDER + 1).

Fixpoint heap_split_block (n : nat) (h : heap) (blk target_order block_order : Z) : option heap :=
  if target_order <? block_order then
    match n with
    | O => None
    | S n =>
        let block_order := block_order - 1 in
        let buddy := blk + BSIZEOF block_order in
        h ← heap_insert_block (set_hdr h buddy (Hdr 0 block_order 0 0)) buddy block_order;
        heap_split_block n h blk target_order block_order
    end
  else Some h.

(** ** Coalescing *)
Definition ray_buddy_of (v o base : Z) : Z := base + Z.lxor (v - base) (BSIZEOF o).

(** [if (fl_empty(&h->freelist[order])) h->avail &= ~(1ULL << order)] *)
Definition drop_avail (h : heap) (o : Z) : option heap :=
  e ← fl_empty h o;
  Some (if (e : bool) then clear_avail h o else h).

(** The serial loop ([ray_parallel_flag] is zero): the merged block and its
    order. *)
Fixpoint coalesce_loop (n : nat) (h : heap) (blk o base po : Z) : option (heap * Z * Z) :=
  if po <=? o then Some (h, blk, o) else
  let buddy := ray_buddy_of blk o base in
  b ← hdrs h !! buddy;
  if negb (rc b =? 0) || negb (order b =? o) then Some (h, blk, o) else
  h ← fl_remove h buddy;
  h ← drop_avail h o;
  match n with
  | O => None
  | S n => coalesce_loop n h (if buddy <? blk then buddy else blk) (o + 1) base po
  end.

Definition heap_coalesce (h : heap) (blk base po : Z) : option heap :=
  x ← hdrs h !! blk;
  res ← coalesce_loop order_fuel h blk (order x) base po;
  let '(h, blk, o) := res in
  heap_insert_block h blk o.

(** ** Pools *)
Fixpoint find_pool_from (ps : list pool_entry) (ptr i : Z) : Z :=
  match ps with
  | [] => -1
  | p :: ps =>
      if (pool_base p <=? ptr) && (ptr <? pool_base p + BSIZEOF (pool_order p)) then i
      else find_pool_from ps ptr (i + 1)
  end.
Definition heap_find_pool (h : heap) (ptr : Z) : Z := find_pool_from (pools h) ptr 0.

(** The cascading split of a new pool: the right half of each split is free. *)
Fixpoint cascade (n : nat) (h : heap) (mem o : Z) : option heap :=
  if RAY_ORDER_MIN <? o then
    match n with
    | O => None
    | S n =>
        let right := mem + BSIZEOF (o - 1) in
        h ← heap_insert_block (set_hdr h right (Hdr 0 (o - 1) 0 0)) right (o - 1);
        cascade n h mem (o - 1)
    end
  else Some h.

Section ops.
Context `{Os}.

Definition heap_add_pool (h : heap) (o : Z) : option (heap * bool) :=
  if RAY_MAX_POOLS <=? zlen (pools h) then Some (h, false) else
  let po := if RAY_HEAP_POOL_ORDER <=? o then o + 1 else RAY_HEAP_POOL_ORDER in
  if RAY_HEAP_MAX_ORDER <? po then Some (h, false) else
  match vm_alloc_aligned (pools h) (directs h) po with
  | None => Some (h, false)
  | Some mem =>
      let h := set_hdr h mem (Hdr 0 RAY_ORDER_MIN 0 1) in
      h ← cascade order_fuel h mem po;
      Some (with_pools h (pools h ++ [PoolEntry mem po]), true)
  end.

(** ** Allocation *)
Definition count_alloc (s : mem_stats) (o hit : Z) : mem_stats :=
  let b := u64 (bytes_allocated s + BSIZEOF o) in
  MemStats (alloc_count s + 1) (free_count s) b (if peak_bytes s <? b then b else peak_bytes s) (slab_hits s + hit).

(** Zero the 32-byte header; [order]; [rc = 1]. *)
Definition new_header (h : heap) (v o : Z) : heap :=
  set_hdr (with_links h (<[Blk v := Node Null Null]> (links h))) v (Hdr 0 o 0 1).

(** [h->avail & (UINT64_MAX << order)] *)
Definition candidates_of (h : heap) (o : Z) : Z := Z.land (avail h) (u64 (Z.shiftl (2 ^ 64 - 1) o)).

(** [if (candidates == 0)]: one more pool; inner [None] is [return NULL]. *)
Definition refill (h : heap) (o candidates : Z) : option (heap * option Z) :=
  if candidates =? 0 then
    r ← heap_add_pool h o;
    let '(h, ok) := r in
    if (ok : bool) then
      let candidates := candidates_of h o in
      if candidates =? 0 then Some (h, None) else Some (h, Some candidates)
    else Some (h, None)
  else Some (h, Some candidates).

(** The scan past stale [avail] bits. *)
Fixpoint scan_avail (n : nat) (h : heap) (o candidates : Z) : option (heap * option Z) :=
  match n with
  | O => None
  | S n =>
      res ← refill h o candidates;
      let '(h, c) := res in
      match c with
      | None => Some (h, None)
      | Some candidates =>
          let found := ctzll candidates in
          e ← fl_empty h found;
          if (e : bool) then
            scan_avail n (clear_avail h found) o (Z.ldiff candidates (Z.shiftl 1 found))
          else Some (h, Some found)
      end
  end.

(** Each turn adds a pool or clears one of the 39 bits. *)
Definition scan_fuel : nat := (41 * 514)%nat.

(** Pop the first block of a list and split it down to the order asked for. *)
Definition pop_split (h : heap) (o found : Z) : option (heap * option Z) :=
  head ← links h !! Sent found;
  match fl_next head with
  | Blk blk =>
      h ← fl_remove h blk;
      h ← drop_avail h found;
      h ← heap_split_block order_fuel h blk o found;
      let h := new_header h blk o in
      Some (with_stats h (count_alloc (stats h) o 0), Some blk)
  | _ => None
  end.

(** Flushing foreign blocks when no bit is set does nothing here
    ([return_to_owner] is false). *)
Definition alloc_block (h : heap) (o : Z) : option (heap * option Z) :=
  res ← refill h o (candidates_of h o);
  let '(h, c) := res in
  match c with
  | None => Some (h, None)
  | Some candidates =>
      res ← scan_avail scan_fuel h o candidates;
      let '(h, found) := res in
      match found with
      | None => Some (h, None)
      | Some found => pop_split h o found
      end
  end.

Definition IS_SLAB_ORDER (o : Z) : bool :=
  (RAY_ORDER_MIN <=? o) && (o <=? RAY_ORDER_MIN + RAY_SLAB_ORDERS - 1).

(** The buddy part of [ray_alloc], the slab cache first. *)
Definition alloc_small (h : heap) (o : Z) : option (heap * option Z) :=
  if IS_SLAB_ORDER o then
    stack ← (slabs h).[o - RAY_ORDER_MIN];
    match stack with
    | v :: stack =>
        slabs' ← zset (slabs h) (o - RAY_ORDER_MIN) stack;
        let h := new_header (with_slabs h slabs') v o in
        Some (with_stats h (count_alloc (stats h) o 1), Some v)
    | [] => alloc_block h o
    end
  else alloc_block h o.

Definition heap_alloc_direct (h : heap) (data_size : Z) : heap * option Z :=
  if SIZE_MAX - RAY_DIRECT_HDR - 32 - 4095 <? data_size then (h, None) else
  let map_size := Z.ldiff (RAY_DIRECT_HDR + 32 + data_size + 4095) 4095 in
  match vm_alloc (pools h) (directs h) map_size with
  | None => (h, None)
  | Some base =>
      let v := base + RAY_DIRECT_HDR in
      let h := with_directs h (<[v := map_size]> (directs h)) in
      let h := set_hdr (with_links h (<[Blk v := Node Null Null]> (links h))) v (Hdr 0 RAY_ORDER_DIRECT 0 1) in
      let s := stats h in
      (with_stats h (MemStats (alloc_count s + 1) (free_count s) (bytes_allocated s) (peak_bytes s) (slab_hits s)),
       Some v)
  end.

Definition ray_alloc (h : heap) (data_size : Z) : option (heap * option Z) :=
  let o := ray_order_for_size data_size in
  if RAY_HEAP_POOL_ORDER <=? o then
    let '(h, v) := heap_alloc_direct h data_size in
    match v with
    | Some v => Some (h, Some v)
    | None => if RAY_HEAP_MAX_ORDER <? o then Some (h, None) else alloc_small h o
    end
  else alloc_small h o.

(** ** Release *)
Definition count_free (s : mem_stats) (bytes : Z) : mem_stats :=
  MemStats (alloc_count s) (free_count s + 1) (u64 (bytes_allocated s - bytes)) (peak_bytes s) (slab_hits s).

(** The warm probe of the pool hit last, then the scan. *)
Definition owner_pool (h : heap) (v : Z) : option Z :=
  let scan := heap_find_pool h v in
  if last_pool_idx h <? zlen (pools h) then
    p ← (pools h).[last_pool_idx h];
    Some (if (pool_base p <=? v) && (v <? pool_base p + BSIZEOF (pool_order p)) then last_pool_idx h else scan)
  else Some scan.

Definition free_local (h : heap) (v o pidx : Z) : option heap :=
  let h := with_last_pool h pidx in
  p ← (pools h).[pidx];
  let coalesce :=
    h ← heap_coalesce h v (pool_base p) (pool_order p);
    Some (with_stats h (count_free (stats h) (BSIZEOF o))) in
  if IS_SLAB_ORDER o then
    stack ← (slabs h).[o - RAY_ORDER_MIN];
    cap ← (slab_cap h).[o - RAY_ORDER_MIN];
    if zlen stack <? cap then
      x ← hdrs h !! v;
      slabs' ← zset (slabs h) (o - RAY_ORDER_MIN) (v :: stack);
      let h := set_hdr (with_slabs h slabs') v (Hdr (mmod x) (order x) (attrs x) 1) in
      Some (with_stats h (count_free (stats h) (BSIZEOF o)))
    else coalesce
  else coalesce.

(** [ray_free] of a block that owns no other (no children to release). Blocks
    that map a file ([mmod] 1) are unmapped by the store layer and are not in
    this model. *)
Definition RAY_ATTR_ARENA : Z := 0x80.
Definition free_block (h : heap) (v : Z) : option heap :=
  x ← hdrs h !! v;
  if negb (Z.land (attrs x) RAY_ATTR_ARENA =? 0) then Some h else
  let x := Hdr (mmod x) (order x) (attrs x) 1 in
  let h := set_hdr h v x in
  if mmod x =? 1 then None else
  if mmod x =? 2 then Some h else
  let o := order x in
  if RAY_HEAP_MAX_ORDER <? o then
    _ ← directs h !! v;
    let h := with_directs h (delete v (directs h)) in
    let s := stats h in
    Some (with_stats h (MemStats (alloc_count s) (free_count s + 1) (bytes_allocated s) (peak_bytes s) (slab_hits s)))
  else if (o <? RAY_ORDER_MIN) || (RAY_HEAP_MAX_ORDER <? o) then Some h else
  pidx ← owner_pool h v;
  if 0 <=? pidx then free_local h v o pidx else
  n ← links h !! Blk v;
  let s := stats h in
  Some (with_stats (with_foreign (with_links h (<[Blk v := Node (fl_prev n) (foreign h)]> (links h))) (Blk v))
    (MemStats (alloc_count s) (free_count s + 1) (bytes_allocated s) (peak_bytes s) (slab_hits s))).

(** ** Flushing the slab caches *)
Fixpoint flush_stack (h : heap) (stack : list Z) : option heap :=
  match stack with
  | [] => Some h
  | blk :: stack =>
      let pidx := heap_find_pool h blk in
      if 0 <=? pidx then
        p ← (pools h).[pidx];
        h ← heap_coalesce h blk (pool_base p) (pool_order p);
        flush_stack h stack
      else None
  end.
Definition flush_slab (i : Z) (h : heap) : option heap :=
  stack ← (slabs h).[i];
  slabs' ← zset (slabs h) i [];
  flush_stack (with_slabs h slabs') stack.
Definition heap_flush_slabs (h : heap) : option heap :=
  foldM flush_slab (range 0 RAY_SLAB_ORDERS) h.

(** ** Creation *)
Definition slab_cap_of (budget i : Z) : Z :=
  let cap := budget / BSIZEOF (RAY_ORDER_MIN + i) in
  if cap <? 1 then 1 else if RAY_SLAB_CACHE_SIZE <? cap then RAY_SLAB_CACHE_SIZE else cap.
Definition ray_heap_init (budget : Z) : heap :=
  Heap 0 (map (λ _, []) (range 0 RAY_SLAB_ORDERS)) (map (slab_cap_of budget) (range 0 RAY_SLAB_ORDERS))
    (foldl fl_init ∅ (range 0 (RAY_HEAP_MAX_ORDER + 1))) ∅ [] 0 ∅ Null (MemStats 0 0 0 0 0).
End ops.

(** ** Capacity of a block *)
Definition ray_block_data_bytes (h : heap) (v : Z) : option Z :=
  x ← hdrs h !! v;
  if RAY_HEAP_MAX_ORDER <? order x then
    m ← directs h !! v; Some (u64 (m - RAY_DIRECT_HDR - 32))
  else Some (u64 (BSIZEOF (order x) - 32)).
