(* ===== verification/HeapTiling.v ===== *)
(** * Power-of-two tilings

    The ghost view of a heap's pools: every block start with its order and what
    the block is used for. The blocks tile the pools; splitting a block and
    merging two buddies keep the tiling, and the buddy of a block is always the
    start of a block that is not larger. *)

From S2P Require Import Prelude Heap.
Local Open Scope Z_scope.

(** On a free list; in the slab cache; the header of a pool; handed out;
    between two lists. *)
Inductive kind := Free | Cached | Header | Live | Loose.
#[global] Instance kind_eq_dec : EqDecision kind.
Proof. solve_decision. Defined.
Abbreviation ghost := (gmap Z (Z * kind)).

(** ** Aligned power-of-two intervals *)
Lemma pow2_pos k : 0 ≤ k → 0 < 2 ^ k.
Proof. intros. by apply Z.pow_pos_nonneg. Qed.

Lemma pow2_S k : 0 ≤ k → 2 ^ (k + 1) = 2 * 2 ^ k.
Proof. intros. rewrite Z.pow_add_r by lia. lia. Qed.

Lemma pow2_divide j k : 0 ≤ j ≤ k → (2 ^ j | 2 ^ k).
Proof. intros Hj. exists (2 ^ (k - j)). rewrite <- Z.pow_add_r by lia. f_equal. lia. Qed.

Lemma BSIZEOF_pow o : 0 ≤ o → BSIZEOF o = 2 ^ o.
Proof. intros. unfold BSIZEOF. rewrite Z.shiftl_mul_pow2 by done. lia. Qed.

Lemma aligned_eq s b c : 0 < s → (s | b) → (s | c) → c ≤ b < c + s → b = c.
Proof. intros Hs [x ->] [y ->] Hb. assert (x = y) by nia. by subst. Qed.

Lemma aligned_le s b c : 0 < s → (s | b) → (s | c) → c < b + s → c ≤ b.
Proof. intros Hs [x ->] [y ->] Hb. assert (y < x + 1) by nia. nia. Qed.

(** An aligned start inside a larger aligned interval brings its interval in. *)
Lemma aligned_nested s t b c :
  0 < s → (s | t) → (s | b) → (s | c) → c ≤ b < c + t → b + s ≤ c + t.
Proof.
  intros Hs [u ->] [x ->] [y ->] Hb. assert (x + 1 ≤ y + u) by nia.
  pose proof (Z.mul_le_mono_nonneg_r (x + 1) (y + u) s ltac:(lia) ltac:(lia)). lia.
Qed.

(** The other half of the parent interval. *)
Definition bud (a k : Z) : Z := if Z.even (a / 2 ^ k) then a + 2 ^ k else a - 2 ^ k.

Lemma bud_spec a k :
  0 ≤ k → (2 ^ k | a) →
  (2 ^ k | bud a k) ∧
  ((2 ^ (k + 1) | a) ∧ bud a k = a + 2 ^ k ∨ (2 ^ (k + 1) | bud a k) ∧ bud a k = a - 2 ^ k).
Proof.
  intros Hk [q ->]. pose proof (pow2_pos k Hk). unfold bud. rewrite Z.div_mul by lia.
  rewrite pow2_S by done. destruct (Z.even q) eqn:He.
  - split; [exists (q + 1); lia|]. left. split; [|done].
    apply Z.even_spec in He as [r ->]. exists r. lia.
  - split; [exists (q - 1); lia|]. right. split; [|done].
    assert (Ho : Z.odd q = true) by (by rewrite <- Z.negb_even, He).
    apply Z.odd_spec in Ho as [r ->]. exists r. lia.
Qed.

Lemma lxor_1 q : Z.lxor q 1 = if Z.even q then q + 1 else q - 1.
Proof.
  pose proof (Z.lxor_nilpotent 1) as H1.
  destruct (Z.even q) eqn:He.
  - apply Z.even_spec in He as [r ->].
    rewrite <- Z.add_nocarry_lxor; [done|].
    apply Z.bits_inj'. intros i Hi. rewrite Z.land_spec, Z.bits_0.
    destruct (Z.eq_dec i 0) as [->|]; [by rewrite Z.testbit_even_0|].
    rewrite (Z.bits_above_log2 1) by (simpl; lia). by rewrite andb_false_r.
  - assert (Ho : Z.odd q = true) by (by rewrite <- Z.negb_even, He).
    apply Z.odd_spec in Ho as [r ->].
    assert (Hq : 2 * r + 1 = Z.lxor (2 * r) 1).
    { rewrite <- Z.add_nocarry_lxor; [done|].
      apply Z.bits_inj'. intros i Hi. rewrite Z.land_spec, Z.bits_0.
      destruct (Z.eq_dec i 0) as [->|]; [by rewrite Z.testbit_even_0|].
      rewrite (Z.bits_above_log2 1) by (simpl; lia). by rewrite andb_false_r. }
    rewrite Hq at 1. rewrite Z.lxor_assoc, H1, Z.lxor_0_r. lia.
Qed.

Lemma ray_buddy_of_bud v o base po :
  0 ≤ o < po → (2 ^ po | base) → (2 ^ o | v) → ray_buddy_of v o base = bud v o.
Proof.
  intros Ho Hb [q ->]. unfold ray_buddy_of, bud. rewrite BSIZEOF_pow by lia.
  destruct Hb as [r ->]. pose proof (pow2_pos o ltac:(lia)).
  replace (r * 2 ^ po) with (2 * (r * 2 ^ (po - o - 1)) * 2 ^ o).
  2: { replace po with ((po - o - 1) + 1 + o) at 2 by lia. rewrite !Z.pow_add_r by lia. lia. }
  set (t := r * 2 ^ (po - o - 1)).
  rewrite <- Z.mul_sub_distr_r, Z.div_mul by lia.
  assert (Hx : Z.lxor ((q - 2 * t) * 2 ^ o) (2 ^ o) = Z.lxor (q - 2 * t) 1 * 2 ^ o).
  { rewrite <- Z.shiftl_mul_pow2, <- Z.shiftl_mul_pow2 by lia.
    rewrite Z.shiftl_lxor. by rewrite (Z.shiftl_mul_pow2 1), Z.mul_1_l by lia. }
  rewrite Hx, lxor_1, Z.even_sub, Z.even_mul. simpl.
  destruct (Z.even q); simpl; lia.
Qed.

(** ** Tilings *)
Record tiling (P : list pool_entry) (B : ghost) : Prop := {
  t_block a k κ : B !! a = Some (k, κ) →
    6 ≤ k ∧ (2 ^ k | a) ∧
    ∃ p, p ∈ P ∧ k ≤ pool_order p ∧ pool_base p ≤ a ∧ a + 2 ^ k ≤ pool_base p + 2 ^ pool_order p;
  t_disj a b k j κ κ' : B !! a = Some (k, κ) → B !! b = Some (j, κ') → a < b → a + 2 ^ k ≤ b;
  t_cover p x : p ∈ P → pool_base p ≤ x < pool_base p + 2 ^ pool_order p →
    ∃ a k κ, B !! a = Some (k, κ) ∧ a ≤ x < a + 2 ^ k
}.

Record pools_ok (P : list pool_entry) : Prop := {
  p_shape p : p ∈ P → 25 ≤ pool_order p ≤ 38 ∧ 0 < pool_base p ∧ (2 ^ pool_order p | pool_base p);
  p_disj i j p q : P !! i = Some p → P !! j = Some q → i ≠ j →
    pool_base p + 2 ^ pool_order p ≤ pool_base q ∨ pool_base q + 2 ^ pool_order q ≤ pool_base p
}.

(** The first block of a pool is its header. *)
Definition headed (P : list pool_entry) (B : ghost) : Prop :=
  ∀ p, p ∈ P → B !! pool_base p = Some (6, Header).

Section tilings.
Context (P : list pool_entry) (B : ghost).
Hypothesis HP : pools_ok P.
Hypothesis HT : tiling P B.

(** A point belongs to one block. *)
Lemma block_unique a b k j κ κ' x :
  B !! a = Some (k, κ) → B !! b = Some (j, κ') →
  a ≤ x < a + 2 ^ k → b ≤ x < b + 2 ^ j → a = b.
Proof.
  intros Ha Hb Hx Hy. destruct (Z.lt_trichotomy a b) as [Hlt|[->|Hlt]]; [|done|].
  - pose proof (t_disj _ _ HT _ _ _ _ _ _ Ha Hb Hlt). lia.
  - pose proof (t_disj _ _ HT _ _ _ _ _ _ Hb Ha Hlt). lia.
Qed.

Lemma pool_unique p q x :
  p ∈ P → q ∈ P → pool_base p ≤ x < pool_base p + 2 ^ pool_order p →
  pool_base q ≤ x < pool_base q + 2 ^ pool_order q → p = q.
Proof.
  intros [i Hi]%list_elem_of_lookup [j Hj]%list_elem_of_lookup Hx Hy.
  destruct (decide (i = j)) as [->|Hne]; [congruence|].
  destruct (p_disj _ HP _ _ _ _ Hi Hj Hne); lia.
Qed.

Lemma block_pool a k κ p :
  B !! a = Some (k, κ) → p ∈ P → pool_base p ≤ a < pool_base p + 2 ^ pool_order p →
  k ≤ pool_order p ∧ a + 2 ^ k ≤ pool_base p + 2 ^ pool_order p.
Proof.
  intros Ha Hp Hin. destruct (t_block _ _ HT _ _ _ Ha) as (Hk & _ & q & Hq & Hkq & Hb & He).
  pose proof (pow2_pos k ltac:(lia)).
  by rewrite (pool_unique p q a) by (done || lia).
Qed.

(** Only the whole pool has its order, and the header is smaller. *)
Lemma block_below a k κ p :
  headed P B → B !! a = Some (k, κ) → p ∈ P →
  pool_base p ≤ a < pool_base p + 2 ^ pool_order p → k < pool_order p.
Proof.
  intros Hh Ha Hp Hin. destruct (block_pool _ _ _ _ Ha Hp Hin) as [Hk He].
  destruct (p_shape _ HP _ Hp) as (Ho & _ & _).
  destruct (Z.eq_dec k (pool_order p)) as [->|]; [|lia].
  specialize (Hh p Hp).
  assert (a = pool_base p) by lia.
  subst a. rewrite Ha in Hh. injection Hh as Hh _. lia.
Qed.

(** The buddy of a block smaller than its pool starts a block, not larger. *)
Lemma buddy_block a k κ p :
  B !! a = Some (k, κ) → p ∈ P → pool_base p ≤ a < pool_base p + 2 ^ pool_order p →
  k < pool_order p →
  ∃ j κ', B !! bud a k = Some (j, κ') ∧ j ≤ k ∧ bud a k ≠ a ∧
    pool_base p ≤ bud a k < pool_base p + 2 ^ pool_order p.
Proof.
  intros Ha Hp Hin Hk.
  destruct (t_block _ _ HT _ _ _ Ha) as (Hk6 & Hal & _).
  destruct (p_shape _ HP _ Hp) as (_ & _ & Hbal).
  pose proof (pow2_pos k ltac:(lia)) as Hpos. pose proof (pow2_S k ltac:(lia)) as HS.
  destruct (bud_spec a k ltac:(lia) Hal) as [Hbud Hcase].
  assert (H2p : (2 ^ (k + 1) | 2 ^ pool_order p)) by (apply pow2_divide; lia).
  assert (H2b : (2 ^ (k + 1) | pool_base p)) by (etrans; eauto).
  assert (Hparent : ∃ m, (2 ^ (k + 1) | m) ∧ pool_base p ≤ m ∧ m + 2 ^ (k + 1) ≤ pool_base p + 2 ^ pool_order p ∧
    (a = m ∧ bud a k = m + 2 ^ k ∨ a = m + 2 ^ k ∧ bud a k = m)).
  { destruct Hcase as [[Hm He]|[Hm He]].
    - exists a. split; [done|]. split; [lia|]. split; [|left; split; [done|lia]].
      apply (aligned_nested (2 ^ (k + 1)) (2 ^ pool_order p) a (pool_base p)); try done; lia.
    - exists (bud a k). split; [done|].
      assert (pool_base p ≤ bud a k).
      { apply (aligned_le (2 ^ (k + 1))); try done; lia. }
      split; [done|]. split; [|right; split; [lia|done]].
      apply (aligned_nested (2 ^ (k + 1)) (2 ^ pool_order p) (bud a k) (pool_base p)); try done; lia. }
  destruct Hparent as (m & Hm & Hlo & Hhi & Hab).
  assert (Hrange : pool_base p ≤ bud a k < pool_base p + 2 ^ pool_order p) by lia.
  destruct (t_cover _ _ HT p (bud a k) Hp Hrange) as (c & j & κ' & Hc & Hcb).
  destruct (t_block _ _ HT _ _ _ Hc) as (Hj6 & Hcal & _).
  destruct (Z.le_gt_cases j k) as [Hjk|Hjk].
  - assert (bud a k = c) as Hbc.
    { apply (aligned_eq (2 ^ j)); [apply pow2_pos; lia| |done|lia].
      etrans; [|exact Hbud]. apply pow2_divide. lia. }
    exists j, κ'. rewrite Hbc at 1. split; [done|]. split; [done|]. split; [lia|done].
  - exfalso.
    assert (Hdiv : (2 ^ (k + 1) | 2 ^ j)) by (apply pow2_divide; lia).
    assert (c ≤ m ∧ m + 2 ^ (k + 1) ≤ c + 2 ^ j) as [Hcm Hme].
    { assert (Hc1 : (2 ^ (k + 1) | c)) by (etrans; eauto).
      assert (c ≤ m) by (apply (aligned_le (2 ^ (k + 1))); try done; lia). split; [done|].
      apply (aligned_nested (2 ^ (k + 1))); try done; lia. }
    assert (a = c) as -> by (apply (block_unique _ _ _ _ _ _ a Ha Hc); lia).
    rewrite Ha in Hc. injection Hc as -> _. lia.
Qed.
End tilings.

(** ** Changes of a tiling *)
Lemma tiling_kind P B a k κ κ' :
  tiling P B → B !! a = Some (k, κ) → tiling P (<[a := (k, κ')]> B).
Proof.
  intros HT Ha.
  assert (Hl : ∀ x j κ'', <[a := (k, κ')]> B !! x = Some (j, κ'') → ∃ κ''', B !! x = Some (j, κ''')).
  { intros x j κ''. rewrite lookup_insert_Some. naive_solver. }
  split.
  - intros x j κ'' [κ''' Hx]%Hl. by eapply t_block.
  - intros x y j i κ1 κ2 [? Hx]%Hl [? Hy]%Hl. by eapply t_disj.
  - intros p x Hp Hx. destruct (t_cover _ _ HT p x Hp Hx) as (c & j & κ'' & Hc & Hin).
    destruct (decide (c = a)) as [->|Hne].
    + rewrite Ha in Hc. injection Hc as -> ->. exists a, j, κ'. by rewrite lookup_insert_eq.
    + exists c, j, κ''. by rewrite lookup_insert_ne.
Qed.

Definition gsplit (a k : Z) (B : ghost) : ghost :=
  <[a + 2 ^ k := (k, Loose)]> (<[a := (k, Loose)]> B).

Lemma lookup_gsplit a k B x v :
  0 ≤ k → gsplit a k B !! x = Some v ↔
  (x = a + 2 ^ k ∨ x = a) ∧ v = (k, Loose) ∨ x ≠ a + 2 ^ k ∧ x ≠ a ∧ B !! x = Some v.
Proof.
  intros Hk. pose proof (pow2_pos k Hk). unfold gsplit.
  rewrite lookup_insert_Some, lookup_insert_Some. naive_solver lia.
Qed.

Lemma tiling_split P B a k :
  6 ≤ k → tiling P B → B !! a = Some (k + 1, Loose) → tiling P (gsplit a k B).
Proof.
  intros Hk HT Ha. pose proof (pow2_pos k ltac:(lia)). pose proof (pow2_S k ltac:(lia)) as HS.
  destruct (t_block _ _ HT _ _ _ Ha) as (_ & Hal & p & Hp & Hkp & Hlo & Hhi).
  assert (Hdiv : (2 ^ k | 2 ^ (k + 1))) by (apply pow2_divide; lia).
  assert (Hak : (2 ^ k | a)) by (etrans; eauto).
  assert (Hfree : ∀ x j κ, B !! x = Some (j, κ) → x ≠ a → x + 2 ^ j ≤ a ∨ a + 2 ^ (k + 1) ≤ x).
  { intros x j κ Hx Hne. destruct (Z.lt_total x a) as [Hlt|[|Hlt]]; [left|done|right];
      by eapply (t_disj _ _ HT). }
  split.
  - intros x j κ [[Hx [= -> ->]]|(_ & _ & Hx)]%lookup_gsplit; [|by eapply t_block|lia].
    split; [lia|]. split; [destruct Hx as [->| ->]; [apply Z.divide_add_r; [done|exists 1; lia]|done]|].
    exists p. split; [done|]. destruct Hx as [->| ->]; lia.
  - intros x y j i κ1 κ2 Hx%lookup_gsplit Hy%lookup_gsplit Hlt; [|lia..].
    destruct Hx as [[Hx [= -> ->]]|(Hx1 & Hx2 & Hx)], Hy as [[Hy [= -> ->]]|(Hy1 & Hy2 & Hy)].
    + lia.
    + destruct (Hfree _ _ _ Hy Hy2) as [Hf|Hf]; [|lia].
      destruct (t_block _ _ HT _ _ _ Hy) as (? & _). pose proof (pow2_pos i ltac:(lia)). lia.
    + destruct (Hfree _ _ _ Hx Hx2); lia.
    + by eapply (t_disj _ _ HT).
  - intros q x Hq Hx. destruct (t_cover _ _ HT q x Hq Hx) as (c & j & κ & Hc & Hin).
    destruct (decide (c = a)) as [->|Hne].
    + rewrite Ha in Hc. injection Hc as <- <-. destruct (Z.lt_ge_cases x (a + 2 ^ k)).
      * exists a, k, Loose. rewrite lookup_gsplit by lia. split; [left; auto|lia].
      * exists (a + 2 ^ k), k, Loose. rewrite lookup_gsplit by lia. split; [left; auto|lia].
    + exists c, j, κ. split; [|done]. apply lookup_gsplit; [lia|].
      right. split; [|done]. intros ->. destruct (Hfree _ _ _ Hc Hne); lia.
Qed.

Definition gmerge (a b k : Z) (B : ghost) : ghost :=
  <[Z.min a b := (k + 1, Loose)]> (delete (Z.max a b) B).

Lemma lookup_gmerge a b k B x v :
  a ≠ b → gmerge a b k B !! x = Some v ↔
  x = Z.min a b ∧ v = (k + 1, Loose) ∨ x ≠ a ∧ x ≠ b ∧ B !! x = Some v.
Proof.
  intros Hab. unfold gmerge. rewrite lookup_insert_Some, lookup_delete_Some.
  destruct (Z.min_spec a b) as [[? ->]|[? ->]], (Z.max_spec a b) as [[? ->]|[? ->]]; naive_solver lia.
Qed.

Lemma tiling_merge P B a k κ κ' :
  pools_ok P → headed P B → tiling P B → κ ≠ Header → κ' ≠ Header →
  B !! a = Some (k, κ) → B !! bud a k = Some (k, κ') →
  tiling P (gmerge a (bud a k) k B).
Proof.
  intros HP Hh HT Hκ Hκ' Ha Hb.
  destruct (t_block _ _ HT _ _ _ Ha) as (Hk & Hal & p & Hp & Hkp & Hlo & Hhi).
  pose proof (pow2_pos k ltac:(lia)). pose proof (pow2_S k ltac:(lia)) as HS.
  assert (Hkp' : k < pool_order p) by (apply (block_below P B HP HT a k κ p Hh Ha Hp); lia).
  destruct (buddy_block P B HP HT a k κ p Ha Hp ltac:(lia) Hkp') as (j & κ2 & Hb2 & _ & Hne & Hin).
  destruct (block_pool P B HP HT _ _ _ p Hb Hp Hin) as [_ Hend].
  destruct (bud_spec a k ltac:(lia) Hal) as [_ Hcase].
  set (b := bud a k) in *. set (m := Z.min a b).
  assert (Hm : (2 ^ (k + 1) | m) ∧ (m = a ∧ b = m + 2 ^ k ∨ m = b ∧ a = m + 2 ^ k)).
  { unfold m. destruct Hcase as [[Hd He]|[Hd He]]; rewrite He.
    - rewrite Z.min_l by lia. split; [done|left; lia].
    - rewrite Z.min_r, <- He by lia. split; [done|right; lia]. }
  destruct Hm as [Hmal Hm].
  assert (Hfree : ∀ x j κ, B !! x = Some (j, κ) → x ≠ a → x ≠ b → x + 2 ^ j ≤ m ∨ m + 2 ^ (k + 1) ≤ x).
  { intros x i κ3 Hx Hxa Hxb.
    assert (x + 2 ^ i ≤ a ∨ a + 2 ^ k ≤ x).
    { destruct (Z.lt_total x a) as [Hlt|[|Hlt]]; [left|done|right]; by eapply (t_disj _ _ HT). }
    assert (x + 2 ^ i ≤ b ∨ b + 2 ^ k ≤ x).
    { destruct (Z.lt_total x b) as [Hlt|[|Hlt]]; [left|done|right]; by eapply (t_disj _ _ HT). }
    destruct (t_block _ _ HT _ _ _ Hx) as (? & _). pose proof (pow2_pos i ltac:(lia)). lia. }
  split.
  - intros x i κ3 [[-> [= -> ->]]|(_ & _ & Hx)]%lookup_gmerge; [|by eapply t_block|done].
    fold m. split; [lia|]. split; [done|]. exists p. split; [done|]. lia.
  - intros x y i i' κ3 κ4 Hx%lookup_gmerge Hy%lookup_gmerge Hlt; [|done..]. fold m in Hx, Hy.
    destruct Hx as [[-> [= -> ->]]|(? & ? & Hx)], Hy as [[-> [= -> ->]]|(? & ? & Hy)].
    + lia.
    + destruct (Hfree _ _ _ Hy) as [Hf|]; [done|done| |lia].
      destruct (t_block _ _ HT _ _ _ Hy) as (? & _). pose proof (pow2_pos i' ltac:(lia)). lia.
    + destruct (Hfree _ _ _ Hx); [done|done|lia|lia].
    + by eapply (t_disj _ _ HT).
  - intros q x Hq Hx. destruct (t_cover _ _ HT q x Hq Hx) as (c & i & κ3 & Hc & Hcin).
    destruct (decide (c = a)) as [->|Hca]; [|destruct (decide (c = b)) as [->|Hcb]].
    1, 2: exists m, (k + 1), Loose; rewrite lookup_gmerge by done; split; [by left|].
    + rewrite Ha in Hc. injection Hc as <- <-. lia.
    + rewrite Hb in Hc. injection Hc as <- <-. lia.
    + exists c, i, κ3. rewrite lookup_gmerge by done. split; [right; done|done].
Qed.

(** ** Fully coalesced tilings: no two free buddies *)
Definition coalesced (B : ghost) : Prop :=
  ∀ a k, B !! a = Some (k, Free) → B !! bud a k ≠ Some (k, Free).

Lemma bud_invol a k : 0 ≤ k → (2 ^ k | a) → bud (bud a k) k = a.
Proof.
  intros Hk [q ->]. pose proof (pow2_pos k Hk). unfold bud at 2. rewrite Z.div_mul by lia.
  destruct (Z.even q) eqn:He; unfold bud.
  - replace (q * 2 ^ k + 2 ^ k) with ((q + 1) * 2 ^ k) by lia.
    rewrite Z.div_mul, Z.even_add, He by lia. simpl. lia.
  - replace (q * 2 ^ k - 2 ^ k) with ((q - 1) * 2 ^ k) by lia.
    rewrite Z.div_mul, Z.even_sub, He by lia. simpl. lia.
Qed.

Lemma bud_up a k : 0 ≤ k → (2 ^ (k + 1) | a) → bud a k = a + 2 ^ k ∧ bud (a + 2 ^ k) k = a.
Proof.
  intros Hk Ha. assert (Hak : (2 ^ k | a)) by (etrans; [apply (pow2_divide k (k + 1)); lia|done]).
  pose proof (pow2_pos k Hk). pose proof (pow2_S k Hk) as HS.
  assert (bud a k = a + 2 ^ k) as He.
  { destruct (bud_spec a k Hk Hak) as [_ [[_ ?]|[Hd He]]]; [done|].
    destruct Hd as [x Hx], Ha as [y ->]. rewrite Hx in He. rewrite HS in *.
    assert (H0 : 2 ^ k * (2 * x - 2 * y + 1) = 0) by lia. apply Z.mul_eq_0 in H0. lia. }
  split; [done|]. rewrite <- He. by apply bud_invol.
Qed.

Lemma coalesced_sub B B' :
  coalesced B → (∀ x k, B' !! x = Some (k, Free) → B !! x = Some (k, Free)) → coalesced B'.
Proof. intros HB Hs a k Ha%Hs Hb%Hs. by apply (HB a k). Qed.

Lemma coalesced_insert P B a k :
  tiling P B → coalesced B → 0 ≤ k → (2 ^ k | a) → B !! bud a k ≠ Some (k, Free) →
  coalesced (<[a := (k, Free)]> B).
Proof.
  intros HT HB Hk Ha Hn x j Hx Hy. apply lookup_insert_Some in Hx as [[<- [= <-]]|[Hne Hx]].
  - apply lookup_insert_Some in Hy as [[Heq _]|[_ Hy]]; [|done].
    destruct (bud_spec a k Hk Ha) as [_ [[_ He]|[_ He]]]; pose proof (pow2_pos k Hk); lia.
  - apply lookup_insert_Some in Hy as [[Heq [= <-]]|[_ Hy]]; [|by apply (HB x j)].
    destruct (t_block _ _ HT _ _ _ Hx) as (? & Hal & _).
    apply Hn. rewrite Heq, bud_invol by (done || lia). done.
Qed.

(** ** A new pool *)
Lemma tiling_pool P B p :
  pools_ok (P ++ [p]) → tiling P B → (∀ q, q ∈ P → pool_base p + 2 ^ pool_order p ≤ pool_base q ∨
    pool_base q + 2 ^ pool_order q ≤ pool_base p) →
  (∀ v, B !! pool_base p ≠ Some v) ∧ tiling (P ++ [p]) (<[pool_base p := (pool_order p, Loose)]> B).
Proof.
  intros HP HT Hd.
  destruct (p_shape _ HP p) as (Hpo & Hpb & Hpal); [apply elem_of_app; right; by left|].
  pose proof (pow2_pos (pool_order p) ltac:(lia)).
  assert (Hout : ∀ x k κ, B !! x = Some (k, κ) →
    x + 2 ^ k ≤ pool_base p ∨ pool_base p + 2 ^ pool_order p ≤ x).
  { intros x k κ Hx. destruct (t_block _ _ HT _ _ _ Hx) as (_ & _ & q & Hq & _ & Hlo & Hhi).
    destruct (Hd q Hq); lia. }
  assert (Hpos : ∀ x k κ, B !! x = Some (k, κ) → 0 < 2 ^ k).
  { intros x k κ Hx. destruct (t_block _ _ HT _ _ _ Hx) as (? & _). apply pow2_pos. lia. }
  assert (Hn : ∀ v, B !! pool_base p ≠ Some v).
  { intros [k κ] Hv. pose proof (Hpos _ _ _ Hv). destruct (Hout _ _ _ Hv); lia. }
  split; [done|]. split.
  - intros a k κ [[<- [= <- <-]]|[_ Ha]]%lookup_insert_Some.
    + split; [lia|]. split; [done|]. exists p. split; [apply elem_of_app; right; by left|]. lia.
    + destruct (t_block _ _ HT _ _ _ Ha) as (? & ? & q & Hq & ?). split; [done|]. split; [done|].
      exists q. split; [apply elem_of_app; by left|done].
  - intros a b k j κ κ' Ha Hb Hlt.
    apply lookup_insert_Some in Ha as [[<- [= <- <-]]|[? Ha]], Hb as [[<- [= <- <-]]|[? Hb]].
    + lia.
    + pose proof (Hpos _ _ _ Hb). destruct (Hout _ _ _ Hb); lia.
    + destruct (Hout _ _ _ Ha); lia.
    + by eapply (t_disj _ _ HT).
  - intros q x [Hq| ->%list_elem_of_singleton]%elem_of_app Hx.
    + destruct (t_cover _ _ HT q x Hq Hx) as (a & k & κ & Ha & Hin). exists a, k, κ.
      rewrite lookup_insert_ne; [done|]. intros <-. by apply Hn in Ha.
    + exists (pool_base p), (pool_order p), Loose. by rewrite lookup_insert_eq.
Qed.
