(* ===== verification/HeapLists.v ===== *)
(** * Circular doubly linked free lists

    [chain] says that following the links from one node gives a list and leads
    back; inserting at the head and unlinking a block in place change the list
    and nothing else. *)

From S2P Require Import Prelude Heap.
Local Open Scope Z_scope.

Section chains.
Implicit Types (L : gmap ptr node) (p q r : ptr) (l : list Z).

Definition nxt L p : option ptr := fl_next <$> L !! p.
Definition prv L p : option ptr := fl_prev <$> L !! p.

Fixpoint chain L p l q : Prop :=
  match l with
  | [] => nxt L p = Some q ∧ prv L q = Some p
  | x :: l => nxt L p = Some (Blk x) ∧ prv L (Blk x) = Some p ∧ chain L (Blk x) l q
  end.

Lemma nxt_Some L p q : nxt L p = Some q ↔ ∃ n, L !! p = Some n ∧ fl_next n = q.
Proof. unfold nxt. rewrite fmap_Some. naive_solver. Qed.
Lemma prv_Some L p q : prv L p = Some q ↔ ∃ n, L !! p = Some n ∧ fl_prev n = q.
Proof. unfold prv. rewrite fmap_Some. naive_solver. Qed.

Lemma blk_in x l : Blk x ∈ map Blk l ↔ x ∈ l.
Proof.
  rewrite list_elem_of_fmap. split; [intros (y & [= ->] & ?); done|eauto].
Qed.
Lemma sent_in o l : Sent o ∉ map Blk l.
Proof. rewrite list_elem_of_fmap. by intros (y & ? & ?). Qed.

Lemma chain_frame L L' p l q :
  chain L p l q →
  (∀ r, r ∈ p :: map Blk l → nxt L' r = nxt L r) →
  (∀ r, r ∈ map Blk l ++ [q] → prv L' r = prv L r) → chain L' p l q.
Proof.
  revert p. induction l as [|x l IH]; intros p; simpl.
  - intros [Hn Hp] Hfn Hfp. rewrite Hfn, Hfp by set_solver. done.
  - intros (Hn & Hp & Hc) Hfn Hfp. rewrite Hfn, Hfp by set_solver.
    split; [done|]. split; [done|]. apply IH; [done|set_solver..].
Qed.

Lemma chain_app L p l1 x l2 q :
  chain L p (l1 ++ x :: l2) q ↔ chain L p l1 (Blk x) ∧ chain L (Blk x) l2 q.
Proof.
  revert p. induction l1 as [|y l1 IH]; intros p; simpl; [tauto|]. rewrite IH. tauto.
Qed.

(** The node before the end and the node after the start. *)
Lemma chain_prv L p l q r : chain L p l q → prv L q = Some r → r ∈ p :: map Blk l.
Proof.
  revert p. induction l as [|x l IH]; intros p; simpl.
  - intros [_ ->] [= ->]. set_solver.
  - intros (_ & _ & Hc) Hr. specialize (IH _ Hc Hr). set_solver.
Qed.

Lemma chain_nxt L p l q r : chain L p l q → nxt L p = Some r → r ∈ map Blk l ++ [q].
Proof. destruct l; simpl; [intros [-> _]|intros (-> & _)]; intros [= ->]; set_solver. Qed.

Lemma chain_empty L o l : chain L (Sent o) l (Sent o) → nxt L (Sent o) = Some (Sent o) ↔ l = [].
Proof.
  destruct l as [|x l]; simpl; [intros [? _]; done|]. intros (-> & _). split; [congruence|done].
Qed.

Lemma chain_head L o l : chain L (Sent o) l (Sent o) →
  nxt L (Sent o) = Some (match l with [] => Sent o | x :: _ => Blk x end).
Proof. destruct l; simpl; tauto. Qed.

(** ** Unlinking *)
Lemma chain_cut L L' p l1 x l2 q p0 n0 :
  chain L p (l1 ++ x :: l2) q → NoDup (l1 ++ x :: l2) →
  p ∉ map Blk (l1 ++ x :: l2) → q ∉ map Blk (l1 ++ x :: l2) →
  prv L (Blk x) = Some p0 → nxt L (Blk x) = Some n0 →
  (∀ r, nxt L' r = if decide (r = p0) then Some n0 else nxt L r) →
  (∀ r, prv L' r = if decide (r = n0) then Some p0 else prv L r) →
  chain L' p (l1 ++ l2) q.
Proof.
  intros Hc Hnd Hp Hq Hp0 Hn0 Hn' Hp'. revert p Hc Hp.
  induction l1 as [|z l1 IH]; intros p Hc Hp; cbn [app map] in *.
  - destruct Hc as (Hpx & Hxp & Hc). rewrite Hp0 in Hxp. injection Hxp as ->.
    apply NoDup_cons in Hnd as [Hx Hnd].
    destruct l2 as [|y l2]; cbn [chain] in Hc |- *.
    + destruct Hc as [Hxq Hqx]. rewrite Hn0 in Hxq. injection Hxq as ->.
      rewrite Hn', Hp', !decide_True by done. done.
    + destruct Hc as (Hxy & Hyx & Hc). rewrite Hn0 in Hxy. injection Hxy as ->.
      rewrite Hn', Hp', !decide_True by done. split; [done|]. split; [done|].
      apply NoDup_cons in Hnd as [Hy Hnd].
      apply (chain_frame _ _ _ _ _ Hc); intros r Hr.
      * rewrite Hn', decide_False; [done|]. intros ->. apply Hp. cbn [map]. set_solver.
      * rewrite Hp', decide_False; [done|]. intros ->.
        apply elem_of_app in Hr as [(w & Hw1 & Hw)%list_elem_of_fmap|Hw%list_elem_of_singleton]; [by simplify_eq|].
        apply Hq. rewrite <- Hw. cbn [map]. set_solver.
  - destruct Hc as (Hpz & Hzp & Hc). pose proof Hc as [Hc1 Hc2]%chain_app.
    pose proof (chain_prv _ _ _ _ _ Hc1 Hp0) as Hin0. pose proof (chain_nxt _ _ _ _ _ Hc2 Hn0) as Hin1.
    apply NoDup_cons in Hnd as [Hz Hnd].
    rewrite map_app in Hp, Hq. cbn [map] in Hp, Hq.
    split; [|split].
    + rewrite Hn', decide_False; [done|]. intros ->. set_solver.
    + rewrite Hp', decide_False; [done|]. intros <-.
      apply elem_of_app in Hin1 as [(w & [= <-] & Hw)%list_elem_of_fmap|Hw]; [|set_solver].
      apply Hz. set_solver.
    + apply IH; [done|rewrite map_app; set_solver|done|].
      rewrite map_app. cbn [map]. intros Hzz.
      apply elem_of_app in Hzz as [(w & [= <-] & Hw)%list_elem_of_fmap|[[= ->]|(w & [= <-] & Hw)%list_elem_of_fmap]%elem_of_cons];
        apply Hz; set_solver.
Qed.

Lemma lookup_set_next L p q L' :
  set_next L p q = Some L' ↔ ∃ n, L !! p = Some n ∧ L' = <[p := Node (fl_prev n) q]> L.
Proof. unfold set_next. destruct (L !! p); simpl; naive_solver. Qed.
Lemma lookup_set_prev L p q L' :
  set_prev L p q = Some L' ↔ ∃ n, L !! p = Some n ∧ L' = <[p := Node q (fl_next n)]> L.
Proof. unfold set_prev. destruct (L !! p); simpl; naive_solver. Qed.

Lemma set_next_views L p q :
  is_Some (L !! p) → ∃ L', set_next L p q = Some L' ∧
    (∀ r, nxt L' r = if decide (r = p) then Some q else nxt L r) ∧
    (∀ r, prv L' r = prv L r) ∧ (∀ r, r ≠ p → L' !! r = L !! r).
Proof.
  intros [n Hn]. exists (<[p := Node (fl_prev n) q]> L).
  split; [apply lookup_set_next; eauto|]. unfold nxt, prv.
  split; [|split]; intros r; [destruct (decide (r = p)) as [->|]..|];
    try (intros ?); rewrite ?lookup_insert_eq, ?lookup_insert_ne, ?Hn by done; done.
Qed.
Lemma set_prev_views L p q :
  is_Some (L !! p) → ∃ L', set_prev L p q = Some L' ∧
    (∀ r, prv L' r = if decide (r = p) then Some q else prv L r) ∧
    (∀ r, nxt L' r = nxt L r) ∧ (∀ r, r ≠ p → L' !! r = L !! r).
Proof.
  intros [n Hn]. exists (<[p := Node q (fl_next n)]> L).
  split; [apply lookup_set_prev; eauto|]. unfold nxt, prv.
  split; [|split]; intros r; [destruct (decide (r = p)) as [->|]..|];
    try (intros ?); rewrite ?lookup_insert_eq, ?lookup_insert_ne, ?Hn by done; done.
Qed.

Lemma nxt_is_Some L p q : nxt L p = Some q → is_Some (L !! p).
Proof. intros (n & Hn & _)%nxt_Some. eauto. Qed.
Lemma prv_is_Some L p q : prv L p = Some q → is_Some (L !! p).
Proof. intros (n & Hn & _)%prv_Some. eauto. Qed.

(** The two ends of the links of a member exist. *)
Lemma chain_ends L p l1 x l2 q :
  chain L p (l1 ++ x :: l2) q → ∃ p0 n0,
    prv L (Blk x) = Some p0 ∧ nxt L (Blk x) = Some n0 ∧
    p0 ∈ p :: map Blk l1 ∧ n0 ∈ map Blk l2 ++ [q] ∧
    is_Some (L !! p0) ∧ is_Some (L !! n0).
Proof.
  intros [H1 H2]%chain_app.
  assert (Hp0 : ∃ p0, prv L (Blk x) = Some p0 ∧ is_Some (L !! p0)).
  { clear H2. revert p H1. induction l1 as [|y l1 IH]; intros p; simpl.
    - intros [?%nxt_is_Some ?]. eauto.
    - intros (_ & _ & Hc). by apply IH in Hc. }
  assert (Hn0 : ∃ n0, nxt L (Blk x) = Some n0 ∧ is_Some (L !! n0)).
  { destruct l2; simpl in H2; [destruct H2 as [? ?%prv_is_Some]|destruct H2 as (? & ?%prv_is_Some & _)]; eauto. }
  destruct Hp0 as (p0 & Hp0 & ?), Hn0 as (n0 & Hn0 & ?). exists p0, n0.
  pose proof (chain_prv _ _ _ _ _ H1 Hp0). pose proof (chain_nxt _ _ _ _ _ H2 Hn0). done.
Qed.

Lemma fl_remove_ok h o l1 x l2 :
  chain (links h) (Sent o) (l1 ++ x :: l2) (Sent o) → NoDup (l1 ++ x :: l2) →
  ∃ L, fl_remove h x = Some (with_links h L) ∧ chain L (Sent o) (l1 ++ l2) (Sent o) ∧
    ∀ r, r ∉ Sent o :: map Blk (l1 ++ x :: l2) → L !! r = links h !! r.
Proof.
  intros Hc Hnd. destruct (chain_ends _ _ _ _ _ _ Hc) as (p0 & n0 & Hp0 & Hn0 & Hpin & Hnin & Hp0s & Hn0s).
  assert (Hxp : Blk x ≠ p0).
  { intros <-. apply elem_of_cons in Hpin as [|(w & [= <-] & Hw)%list_elem_of_fmap]; [done|].
    apply NoDup_app in Hnd as (_ & Hd & _). apply (Hd x Hw). set_solver. }
  destruct (set_next_views (links h) p0 n0 Hp0s) as (L1 & HL1 & Hn1 & Hp1 & Hf1).
  destruct (set_prev_views L1 n0 p0) as (L2 & HL2 & Hp2 & Hn2 & Hf2).
  { destruct (decide (n0 = p0)) as [Heq|]; [|by rewrite Hf1].
    apply (nxt_is_Some _ _ n0). by rewrite Hn1, decide_True. }
  exists L2. split; [|split].
  - unfold fl_remove. apply prv_Some in Hp0 as (nx & Hnx & Hpx). rewrite Hnx. cbn [mbind option_bind].
    assert (Hnn : fl_next nx = n0) by (apply nxt_Some in Hn0 as (? & ? & ?); congruence).
    rewrite Hpx, Hnn, HL1. cbn [mbind option_bind].
    rewrite Hf1, Hnx by done. cbn [mbind option_bind]. by rewrite Hpx, Hnn, HL2.
  - assert (∀ y l, Sent y ∉ map Blk l) by (intros y l (w & ? & ?)%list_elem_of_fmap; done).
    eapply (chain_cut (links h)); try done; intros r; [by rewrite Hn2, Hn1|by rewrite Hp2, Hp1].
  - intros r Hr. rewrite map_app in Hr. cbn [map] in Hr.
    rewrite Hf2, Hf1; [done|intros ->; set_solver..].
Qed.

(** ** Inserting at the head *)
Lemma insert_links_ok L o l x :
  chain L (Sent o) l (Sent o) → x ∉ l → NoDup l →
  ∃ L1 L2, set_prev (<[Blk x := Node (Sent o) (match l with [] => Sent o | y :: _ => Blk y end)]> L)
      (match l with [] => Sent o | y :: _ => Blk y end) (Blk x) = Some L1 ∧
    set_next L1 (Sent o) (Blk x) = Some L2 ∧
    chain L2 (Sent o) (x :: l) (Sent o) ∧ (∀ r, r ∉ Sent o :: map Blk (x :: l) → L2 !! r = L !! r).
Proof.
  intros Hc Hx Hnd. set (f := match l with [] => Sent o | y :: _ => Blk y end).
  set (L0 := <[Blk x := Node (Sent o) f]> L).
  assert (Hf : f ≠ Blk x) by (unfold f; destruct l; [done|set_solver]).
  assert (HfS : is_Some (L !! f)).
  { unfold f. destruct l as [|y l]; simpl in Hc; [destruct Hc as [? _]|destruct Hc as (_ & ? & _)].
    - by eapply nxt_is_Some.
    - by eapply prv_is_Some. }
  assert (HSS : is_Some (L !! Sent o)) by (pose proof (chain_head _ _ _ Hc); by eapply nxt_is_Some).
  destruct (set_prev_views L0 f (Blk x)) as (L1 & HL1 & Hp1 & Hn1 & Hf1).
  { unfold L0. by rewrite lookup_insert_ne. }
  destruct (set_next_views L1 (Sent o) (Blk x)) as (L2 & HL2 & Hn2 & Hp2 & Hf2).
  { apply chain_head in Hc. apply (nxt_is_Some _ _ f).
    rewrite Hn1. unfold nxt, L0. by rewrite lookup_insert_ne. }
  assert (HnL0 : ∀ r, nxt L0 r = if decide (r = Blk x) then Some f else nxt L r).
  { intros r. unfold nxt, L0. destruct (decide (r = Blk x)) as [->|]; [by rewrite lookup_insert_eq|by rewrite lookup_insert_ne]. }
  assert (HpL0 : ∀ r, prv L0 r = if decide (r = Blk x) then Some (Sent o) else prv L r).
  { intros r. unfold prv, L0. destruct (decide (r = Blk x)) as [->|]; [by rewrite lookup_insert_eq|by rewrite lookup_insert_ne]. }
  exists L1, L2. split; [done|]. split; [done|]. split.
  - cbn [chain]. rewrite Hn2, decide_True by done. split; [done|].
    rewrite Hp2, Hp1, decide_False, HpL0, decide_True by done. split; [done|].
    destruct l as [|y l]; cbn [chain] in *; unfold f in *.
    + rewrite Hn2, decide_False, Hn1, HnL0, decide_True by done. split; [done|].
      by rewrite Hp2, Hp1, decide_True.
    + rewrite Hn2, decide_False, Hn1, HnL0, decide_True by done. split; [done|].
      rewrite Hp2, Hp1, decide_True by done. split; [done|].
      destruct Hc as (Hsy & Hys & Hc).
      apply NoDup_cons in Hnd as [Hy _]. apply not_elem_of_cons in Hx as [Hxy Hx].
      apply (chain_frame _ _ _ _ _ Hc); intros r Hr.
      * assert (r ≠ Sent o ∧ r ≠ Blk x) as [Hr1 Hr2].
        { split; intros ->; apply elem_of_cons in Hr as [Hr|Hr]; simplify_eq;
            [by apply sent_in in Hr|by apply blk_in in Hr]. }
        by rewrite Hn2, decide_False, Hn1, HnL0, decide_False.
      * assert (r ≠ Blk x ∧ r ≠ Blk y) as [Hr1 Hr2].
        { split; intros ->; apply elem_of_app in Hr as [Hr%blk_in|Hr%list_elem_of_singleton]; simplify_eq; done. }
        by rewrite Hp2, Hp1, decide_False, HpL0, decide_False.
  - intros r Hr. apply not_elem_of_cons in Hr as [Hr1 Hr]. cbn [map] in Hr.
    apply not_elem_of_cons in Hr as [Hr2 Hr].
    rewrite Hf2, Hf1; [unfold L0; by rewrite lookup_insert_ne|unfold f|done].
    intros ->. destruct l as [|y l]; [done|]. apply Hr. cbn [map]. left.
Qed.
End chains.
