(* ===== verification/HeapProofs.v ===== *)
(** * Heap operations: invariant and functional lemmas

    [core] relates a heap to the ghost tiling of its pools; each list operation
    changes one block of the ghost, and the loops compose those changes. *)

From S2P Require Import Prelude Heap HeapTiling HeapLists.
Local Open Scope Z_scope.
#[local] Arguments zget : simpl never.
#[local] Arguments Z.pow : simpl never.
#[local] Arguments Z.shiftl : simpl never.

Lemma order_fuel_Z : Z.of_nat order_fuel = 39.
Proof. done. Qed.
#[local] Opaque order_fuel.

(** ** The [avail] word *)
Lemma testbit_shift1 o i : 0 ≤ o → 0 ≤ i → Z.testbit (Z.shiftl 1 o) i = bool_decide (i = o).
Proof.
  intros Ho Hi. rewrite Z.shiftl_mul_pow2, Z.mul_1_l by done.
  destruct (bool_decide_reflect (i = o)) as [->|Hne]; [by rewrite Z.pow2_bits_true|].
  by rewrite Z.pow2_bits_false by done.
Qed.
Lemma avail_set h o i : 0 ≤ o → 0 ≤ i →
  Z.testbit (avail (set_avail h o)) i = Z.testbit (avail h) i || bool_decide (i = o).
Proof. intros. simpl. by rewrite Z.lor_spec, testbit_shift1. Qed.
Lemma avail_clear h o i : 0 ≤ o → 0 ≤ i →
  Z.testbit (avail (clear_avail h o)) i = Z.testbit (avail h) i && negb (bool_decide (i = o)).
Proof. intros. simpl. by rewrite Z.ldiff_spec, testbit_shift1. Qed.

(** ** Invariant of the pools *)
Record core (h : heap) (P : list pool_entry) (B : ghost) : Prop := {
  c_tiling : tiling P B;
  c_small a k κ : B !! a = Some (k, κ) → κ = Free → k ≤ 38;
  c_hdr a k κ : B !! a = Some (k, κ) → κ ≠ Loose →
    ∃ x, hdrs h !! a = Some x ∧ order x = k ∧ (rc x = 0 ↔ κ = Free);
  c_list o : 0 ≤ o ≤ 38 →
    ∃ l, chain (links h) (Sent o) l (Sent o) ∧ NoDup l ∧ ∀ a, a ∈ l ↔ B !! a = Some (o, Free);
  c_avail o : 0 ≤ o → Z.testbit (avail h) o = true ↔ ∃ a, B !! a = Some (o, Free)
}.

(** What the list operations never touch: the other fields of the heap, and the
    header of every block in use or outside the pools. *)
Definition outside (P : list pool_entry) (v : Z) : Prop :=
  ∀ p, p ∈ P → ¬ (pool_base p ≤ v < pool_base p + 2 ^ pool_order p).
Definition in_use (κ : kind) : Prop := κ ≠ Free ∧ κ ≠ Loose.
Definition untouched (P : list pool_entry) (B : ghost) (v : Z) : Prop :=
  outside P v ∨ ∃ k κ, B !! v = Some (k, κ) ∧ in_use κ.

Record frame (P : list pool_entry) (B : ghost) (h h' : heap) : Prop := {
  f_slabs : slabs h' = slabs h;
  f_cap : slab_cap h' = slab_cap h;
  f_pools : pools h' = pools h;
  f_last : last_pool_idx h' = last_pool_idx h;
  f_directs : directs h' = directs h;
  f_foreign : foreign h' = foreign h;
  f_stats : stats h' = stats h;
  f_hdrs v : untouched P B v → hdrs h' !! v = hdrs h !! v;
  f_links v : untouched P B v → links h' !! Blk v = links h !! Blk v
}.

Definition same_used (B B' : ghost) : Prop :=
  ∀ v k κ, in_use κ → B !! v = Some (k, κ) ↔ B' !! v = Some (k, κ).

Lemma same_used_refl B : same_used B B.
Proof. by intros v k κ. Qed.
Lemma same_used_trans B1 B2 B3 : same_used B1 B2 → same_used B2 B3 → same_used B1 B3.
Proof. intros H1 H2 v k κ Hκ. by rewrite (H1 v k κ Hκ), (H2 v k κ Hκ). Qed.
Lemma same_used_untouched P B B' v : same_used B B' → untouched P B v → untouched P B' v.
Proof.
  intros Hs [?|(k & κ & Hv & Hκ)]; [by left|right]. exists k, κ. split; [by apply (Hs v k κ Hκ)|done].
Qed.

Lemma frame_refl P B h : frame P B h h.
Proof. by split. Qed.
Lemma frame_trans P B B' h1 h2 h3 :
  same_used B B' → frame P B h1 h2 → frame P B' h2 h3 → frame P B h1 h3.
Proof.
  intros Hs H1 H2. split; [etrans; [apply H2|apply H1]..| |].
  - intros v Hv. rewrite (f_hdrs _ _ _ _ H2); [by apply H1|by eapply same_used_untouched].
  - intros v Hv. rewrite (f_links _ _ _ _ H2); [by apply H1|by eapply same_used_untouched].
Qed.

(** *** Ghost steps *)
Lemma core_loose h P P' B B' :
  core h P B → tiling P' B' →
  (∀ x k κ, κ ≠ Loose → B !! x = Some (k, κ) ↔ B' !! x = Some (k, κ)) → core h P' B'.
Proof.
  intros HC HT Hs. split.
  - done.
  - intros a k κ Ha ->. apply (c_small _ _ _ HC a k Free); [by apply Hs|done].
  - intros a k κ Ha Hκ. apply (c_hdr _ _ _ HC); [by apply Hs|done].
  - intros o Ho. destruct (c_list _ _ _ HC o Ho) as (l & Hl & Hnd & Hin). exists l. split; [done|].
    split; [done|]. intros a. rewrite Hin. by apply Hs.
  - intros o Ho. rewrite (c_avail _ _ _ HC o Ho). split; intros [a Ha]; exists a; by apply (Hs a o Free).
Qed.

(** Writing a header where no block in use starts. *)
Lemma core_set_hdr h P B a x :
  core h P B → (∀ k κ, B !! a = Some (k, κ) → κ = Loose) → core (set_hdr h a x) P B.
Proof.
  intros HC Ha. split; [apply HC..| |apply HC|apply HC].
  intros b k κ Hb Hκ. destruct (decide (b = a)) as [->|Hne]; [by apply Ha in Hb|].
  destruct (c_hdr _ _ _ HC b k κ Hb Hκ) as (y & Hy & ?). exists y.
  cbn [set_hdr with_hdrs hdrs]. by rewrite lookup_insert_ne.
Qed.

Lemma frame_set_hdr P B h a x : ¬ untouched P B a → frame P B h (set_hdr h a x).
Proof.
  intros Ha. split; try done. intros v Hv. cbn. rewrite lookup_insert_ne; [done|]. by intros ->.
Qed.

Lemma loose_touched P B a k κ :
  tiling P B → B !! a = Some (k, κ) → ¬ in_use κ → ¬ untouched P B a.
Proof.
  intros HT Ha Hκ [Hout|(k' & κ' & Ha' & Hu)]; [|by simplify_eq].
  destruct (t_block _ _ HT _ _ _ Ha) as (Hk & _ & p & Hp & _ & Hlo & Hhi).
  pose proof (pow2_pos k ltac:(lia)). apply (Hout p Hp). lia.
Qed.

Lemma in_use_Free : ¬ in_use Free. Proof. by intros [? _]. Qed.
Lemma in_use_Loose : ¬ in_use Loose. Proof. by intros [_ ?]. Qed.
#[export] Hint Resolve in_use_Free in_use_Loose same_used_refl frame_refl : core.

Lemma same_used_insert B a k κ k' κ' :
  B !! a = Some (k, κ) → ¬ in_use κ → ¬ in_use κ' → same_used B (<[a := (k', κ')]> B).
Proof.
  intros Ha Hκ Hκ' v j κ2 Hu. rewrite lookup_insert_Some. split; [|naive_solver].
  intros Hv. right. split; [|done]. intros <-. by simplify_eq.
Qed.

(** *** Inserting and unlinking a block *)
Lemma insert_ok h P B a k x :
  core h P B → B !! a = Some (k, Loose) → k ≤ 38 → hdrs h !! a = Some x →
  ∃ h', heap_insert_block h a k = Some h' ∧
    core h' P (<[a := (k, Free)]> B) ∧ frame P B h h'.
Proof.
  intros HC Ha Hk38 Hx.
  destruct (t_block _ _ (c_tiling _ _ _ HC) _ _ _ Ha) as (Hk & _).
  destruct (c_list _ _ _ HC k ltac:(lia)) as (l & Hl & Hnd & Hin).
  assert (Hal : a ∉ l) by (rewrite Hin; congruence).
  destruct (insert_links_ok _ _ _ a Hl Hal Hnd) as (L1 & L2 & HL1 & HL2 & Hc2 & Hfr).
  exists (set_avail (set_hdr (with_links h L2) a (Hdr (mmod x) k 0 0)) k). split; [|split].
  - unfold heap_insert_block. pose proof (chain_head _ _ _ Hl) as (n & Hn & Hnn)%nxt_Some.
    rewrite Hn. cbn [mbind option_bind]. rewrite Hnn, HL1. cbn [mbind option_bind].
    rewrite HL2. cbn [mbind option_bind]. by rewrite Hx.
  - split.
    + apply (tiling_kind _ _ _ _ _ _ (c_tiling _ _ _ HC) Ha).
    + intros b j κ Hb ->. apply lookup_insert_Some in Hb as [[<- [= <-]]|[_ Hb]]; [done|].
      by eapply (c_small _ _ _ HC).
    + intros b j κ Hb Hκ. cbn. apply lookup_insert_Some in Hb as [[<- [= <- <-]]|[Hne Hb]].
      * exists (Hdr (mmod x) k 0 0). by rewrite lookup_insert_eq.
      * rewrite lookup_insert_ne by done. by apply (c_hdr _ _ _ HC).
    + intros o Ho. cbn. destruct (decide (o = k)) as [->|Hne].
      * exists (a :: l). split; [done|]. split; [by constructor|]. intros b.
        rewrite elem_of_cons, Hin, lookup_insert_Some. destruct (decide (b = a)) as [->|]; naive_solver.
      * destruct (c_list _ _ _ HC o Ho) as (l' & Hl' & Hnd' & Hin'). exists l'. split; [|split; [done|]].
        { assert (Hout : ∀ r, r ∈ Sent o :: map Blk l' → L2 !! r = links h !! r).
          { intros r Hr. apply Hfr. rewrite elem_of_cons. intros Hr'.
            apply elem_of_cons in Hr as [->|(b & -> & Hb)%list_elem_of_fmap].
            - destruct Hr' as [|Hr']; [congruence|by apply sent_in in Hr'].
            - destruct Hr' as [|Hr']; [done|]. apply blk_in in Hr'. apply Hin' in Hb.
              apply elem_of_cons in Hr' as [->|Hr']; [congruence|]. apply Hin in Hr'. congruence. }
          apply (chain_frame _ _ _ _ _ Hl'); intros r Hr; unfold nxt, prv; rewrite Hout; try done.
          apply elem_of_app in Hr as [Hr| ->%list_elem_of_singleton]; [by right|left]. }
        intros b. rewrite Hin', lookup_insert_Some. naive_solver.
    + intros o Ho. rewrite avail_set, orb_true_iff, bool_decide_eq_true by lia.
      cbn. rewrite (c_avail _ _ _ HC o Ho). split.
      * intros [[b Hb]| ->]; [exists b|exists a; by rewrite lookup_insert_eq].
        rewrite lookup_insert_ne; [done|]. intros ->. congruence.
      * intros [b [[_ [= ->]]|[_ Hb]]%lookup_insert_Some]; [by right|left; eauto].
  - assert (Hat : ¬ untouched P B a) by (eapply loose_touched; [apply HC|done|auto]).
    split; try done; intros v Hv; cbn.
    + rewrite lookup_insert_ne; [done|]. by intros ->.
    + apply Hfr. intros [|Hb%blk_in]%elem_of_cons; [done|].
      apply elem_of_cons in Hb as [->|Hb]; [done|].
      apply Hin in Hb. revert Hv. eapply loose_touched; [apply HC|done|auto].
Qed.

(** Unlinking a free block, with the update of [avail]. *)
Lemma unlink_ok h P B a k :
  core h P B → B !! a = Some (k, Free) →
  ∃ h1 h', fl_remove h a = Some h1 ∧ drop_avail h1 k = Some h' ∧
    core h' P (<[a := (k, Loose)]> B) ∧ frame P B h h' ∧ hdrs h' = hdrs h.
Proof.
  intros HC Ha. pose proof (c_small _ _ _ HC _ _ _ Ha eq_refl) as Hk38.
  destruct (t_block _ _ (c_tiling _ _ _ HC) _ _ _ Ha) as (Hk & _).
  destruct (c_list _ _ _ HC k ltac:(lia)) as (l & Hl & Hnd & Hin).
  assert (Hal : a ∈ l) by by apply Hin.
  apply list_elem_of_split in Hal as (l1 & l2 & ->).
  destruct (fl_remove_ok _ _ _ _ _ Hl Hnd) as (L & HL & Hc2 & Hfr).
  pose proof (chain_head _ _ _ Hc2) as Hnx. pose proof (chain_empty _ _ _ Hc2) as Hemp.
  assert (Hal12 : ∀ b, b ∈ l1 ++ l2 ↔ b ≠ a ∧ B !! b = Some (k, Free)).
  { intros b. rewrite <- Hin, !elem_of_app, elem_of_cons.
    apply NoDup_app in Hnd as (_ & Hd & Hnd%NoDup_cons). destruct Hnd as [Ha2 _].
    split; [|naive_solver]. intros Hb. split; [|naive_solver]. intros ->.
    destruct Hb as [Hb|]; [|done]. apply (Hd a Hb). left. }
  set (b := bool_decide (l1 ++ l2 = [])).
  exists (with_links h L), (if b then clear_avail (with_links h L) k else with_links h L).
  split; [done|]. split; [|split; [|split]].
  - unfold drop_avail, fl_empty. cbn [with_links links]. apply nxt_Some in Hnx as (n & Hn & Hnn).
    rewrite Hn. cbn [mbind option_bind]. do 2 f_equal. unfold b.
    assert (Hb : bool_decide (fl_next n = Sent k) = bool_decide (l1 ++ l2 = [])).
    { apply bool_decide_ext. rewrite Hnn. destruct (l1 ++ l2); split; congruence. }
    by rewrite Hb.
  - assert (Hlk : links (if b then clear_avail (with_links h L) k else with_links h L) = L) by by destruct b.
    assert (Hhd : hdrs (if b then clear_avail (with_links h L) k else with_links h L) = hdrs h) by by destruct b.
    split.
    + apply (tiling_kind _ _ _ _ _ _ (c_tiling _ _ _ HC) Ha).
    + intros c j κ Hc ->. apply lookup_insert_Some in Hc as [[_ [=]]|[_ Hc]]. by eapply (c_small _ _ _ HC).
    + intros c j κ Hc Hκ. rewrite Hhd. apply lookup_insert_Some in Hc as [[_ [= <- <-]]|[Hne Hc]]; [done|].
      by apply (c_hdr _ _ _ HC).
    + intros o Ho. rewrite Hlk. destruct (decide (o = k)) as [->|Hne].
      * exists (l1 ++ l2). split; [done|]. split.
        { apply NoDup_app in Hnd as (? & Hd & [_ ?]%NoDup_cons). apply NoDup_app. split; [done|]. split; [|done].
          intros c Hc1 Hc2'. apply (Hd c Hc1). by right. }
        intros c. rewrite Hal12, lookup_insert_Some. naive_solver.
      * destruct (c_list _ _ _ HC o Ho) as (l' & Hl' & Hnd' & Hin'). exists l'. split; [|split; [done|]].
        { assert (Hout : ∀ r, r ∈ Sent o :: map Blk l' → L !! r = links h !! r).
          { intros r Hr. apply Hfr. rewrite elem_of_cons. intros Hr'.
            apply elem_of_cons in Hr as [->|(c & -> & Hc)%list_elem_of_fmap].
            - destruct Hr' as [|Hr']; [congruence|by apply sent_in in Hr'].
            - destruct Hr' as [|Hr']; [done|]. apply blk_in in Hr'. apply Hin' in Hc. apply Hin in Hr'. congruence. }
          apply (chain_frame _ _ _ _ _ Hl'); intros r Hr; unfold nxt, prv; rewrite Hout; try done.
          apply elem_of_app in Hr as [Hr| ->%list_elem_of_singleton]; [by right|left]. }
        intros c. rewrite Hin', lookup_insert_Some. naive_solver.
    + intros o Ho.
      assert (Hav : Z.testbit (avail (if b then clear_avail (with_links h L) k else with_links h L)) o
        = Z.testbit (avail h) o && negb (b && bool_decide (o = k))).
      { destruct b; cbn [andb negb]; [rewrite avail_clear by lia; done|by rewrite andb_true_r]. }
      rewrite Hav, andb_true_iff, (c_avail _ _ _ HC o Ho), negb_true_iff, andb_false_iff.
      unfold b. rewrite !bool_decide_eq_false. split.
      * intros [[c Hc] Hcase]. destruct (decide (o = k)) as [->|Hne].
        { destruct Hcase as [Hcase|]; [|done]. destruct (l1 ++ l2) as [|y l'] eqn:El; [done|].
          exists y. assert (Hy : y ∈ y :: l') by left. apply Hal12 in Hy as [? ?].
          by rewrite lookup_insert_ne. }
        exists c. rewrite lookup_insert_ne; [done|]. intros ->. congruence.
      * intros [c Hc]. apply lookup_insert_Some in Hc as [[_ [=]]|[Hne Hc]].
        split; [eauto|]. destruct (decide (o = k)) as [->|]; [left|by right].
        intros He. assert (Hc' : c ∈ l1 ++ l2) by (apply Hal12; done). rewrite He in Hc'. set_solver.
  - assert (Hat : ∀ c, B !! c = Some (k, Free) → ¬ untouched P B c)
      by (intros c Hc; eapply loose_touched; [apply HC|done|auto]).
    split; try (by destruct b); intros v Hv; destruct b; cbn; try done;
      apply Hfr; (intros [|Hb%blk_in]%elem_of_cons; [done|apply Hin in Hb; by apply Hat in Hb]).
  - by destruct b.
Qed.

(** ** Splitting *)
Definition only_loose (B : ghost) (a : Z) : Prop := ∀ x k, B !! x = Some (k, Loose) → x = a.

Lemma used_split B a k :
  0 ≤ k → B !! a = Some (k + 1, Loose) → (∀ v, B !! (a + 2 ^ k) ≠ Some v) → same_used B (gsplit a k B).
Proof.
  intros Hk Ha Hn v j κ Hκ. rewrite lookup_gsplit by done. split.
  - intros Hv. right. split; [intros ->; by apply Hn in Hv|]. split; [|done].
    intros ->. simplify_eq. by apply in_use_Loose in Hκ.
  - intros [[_ [= -> ->]]|(_ & _ & ?)]; [by apply in_use_Loose in Hκ|done].
Qed.

(** The upper half of a block starts no block. *)
Lemma upper_half_free P B a k κ x :
  tiling P B → B !! a = Some (k, κ) → a < x < a + 2 ^ k → ∀ v, B !! x ≠ Some v.
Proof.
  intros HT Ha Hx [j κ'] Hv. pose proof (t_disj _ _ HT _ _ _ _ _ _ Ha Hv). lia.
Qed.

(** One split: the upper half goes to its free list. *)
Lemma split_step h P B a o :
  core h P B → B !! a = Some (o + 1, Loose) → only_loose B a → 6 ≤ o ≤ 38 → coalesced B →
  ∃ h' B', heap_insert_block (set_hdr h (a + BSIZEOF o) (Hdr 0 o 0 0)) (a + BSIZEOF o) o = Some h' ∧
    core h' P B' ∧ frame P B h h' ∧ same_used B B' ∧
    B' !! a = Some (o, Loose) ∧ only_loose B' a ∧ coalesced B' ∧
    (∀ x k, B !! x = Some (k, Free) → B' !! x = Some (k, Free)) ∧ B' !! (a + 2 ^ o) = Some (o, Free) ∧
    hdrs h' !! a = hdrs h !! a.
Proof.
  intros HC Ha Hol Ho Hco. rewrite BSIZEOF_pow by lia. set (b := a + 2 ^ o).
  pose proof (pow2_pos o ltac:(lia)) as Hpos. pose proof (pow2_S o ltac:(lia)) as HS.
  pose proof (c_tiling _ _ _ HC) as HT.
  assert (Hb : ∀ v, B !! b ≠ Some v) by (eapply upper_half_free; [done|done|unfold b; lia]).
  pose proof (tiling_split P B a o ltac:(lia) HT Ha) as HT1.
  set (B1 := gsplit a o B) in *.
  assert (Hb1 : B1 !! b = Some (o, Loose)) by (apply lookup_gsplit; [lia|]; left; by split; [left|]).
  assert (HC1 : core (set_hdr h b (Hdr 0 o 0 0)) P B1).
  { apply core_set_hdr; [|intros k κ Hk; rewrite Hb1 in Hk; by injection Hk].
    apply (core_loose _ P _ B); [done|done|]. intros x k κ Hκ. unfold B1. rewrite lookup_gsplit by lia. split.
    - intros Hx. right. split; [|split; [|done]]; intros ->; [by apply Hb in Hx|congruence].
    - intros [[_ [= -> ->]]|(_ & _ & ?)]; done. }
  destruct (insert_ok _ P B1 b o (Hdr 0 o 0 0) HC1 Hb1) as (h' & Hh' & HC' & Hf); [lia|apply lookup_insert_eq|].
  assert (Hu1 : same_used B B1) by (by apply used_split; [lia| |]).
  assert (Hu2 : same_used B1 (<[b := (o, Free)]> B1)) by (eapply same_used_insert; [done|auto..]).
  assert (Hbt : ¬ untouched P B1 b) by (eapply loose_touched; [done|done|auto]).
  assert (Hfr : frame P B h h').
  { eapply frame_trans; [exact Hu1| |exact Hf]. apply frame_set_hdr.
    intros Hu. by apply Hbt, (same_used_untouched _ B). }
  exists h', (<[b := (o, Free)]> B1). split; [done|]. split; [done|]. split; [done|].
  split; [by eapply same_used_trans|].
  split. { rewrite lookup_insert_ne by (unfold b; lia). apply lookup_gsplit; [lia|]. left. by split; [right|]. }
  split. { intros x k [[_ [=]]|[Hne Hx]]%lookup_insert_Some.
    apply lookup_gsplit in Hx as [[[->| ->] _]|(_ & _ & Hx)]; [done|done|by eapply Hol|lia]. }
  split; [|split].
  - apply (coalesced_insert P); [done| |lia| |].
    + apply (coalesced_sub B); [done|]. intros x k Hx.
      apply lookup_gsplit in Hx as [[_ [=]]|(_ & _ & Hx)]; [done|lia].
    + by destruct (t_block _ _ HT1 _ _ _ Hb1) as (_ & ? & _).
    + destruct (t_block _ _ HT _ _ _ Ha) as (_ & Hal & _).
      destruct (bud_up a o ltac:(lia) Hal) as [_ Hbu]. fold b in Hbu. rewrite Hbu.
      intros Hx. apply lookup_gsplit in Hx as [[_ [=]]|(_ & ? & _)]; [done|lia].
  - intros x k Hx. rewrite lookup_insert_ne by (intros <-; by apply Hb in Hx).
    apply lookup_gsplit; [lia|]. right. split; [intros ->; by apply Hb in Hx|]. split; [congruence|done].
  - fold b. split; [apply lookup_insert_eq|].
    assert (heap_insert_block (set_hdr h b (Hdr 0 o 0 0)) b o = Some h' → hdrs h' !! a = hdrs h !! a) as Hins; [|by apply Hins].
    unfold heap_insert_block. intros Hi.
    repeat (apply bind_Some in Hi as (? & _ & Hi)). injection Hi as <-. cbn.
    rewrite !lookup_insert_ne by (unfold b; lia). done.
Qed.

Lemma split_ok P a to n : ∀ h B bo,
  core h P B → B !! a = Some (bo, Loose) → only_loose B a → 6 ≤ to ≤ bo → bo ≤ 39 → bo - to ≤ Z.of_nat n →
  coalesced B →
  ∃ h' B', heap_split_block n h a to bo = Some h' ∧ core h' P B' ∧ frame P B h h' ∧ same_used B B' ∧
    B' !! a = Some (to, Loose) ∧ only_loose B' a ∧ coalesced B'.
Proof.
  induction n as [|n IH]; intros h B bo HC Ha Hol Ht Hb Hn Hco; cbn [heap_split_block].
  - destruct (Z.ltb_spec to bo); [lia|]. assert (bo = to) as -> by lia. exists h, B. by split_and!.
  - destruct (Z.ltb_spec to bo) as [Hlt|].
    2: { assert (bo = to) as -> by lia. exists h, B. by split_and!. }
    destruct (split_step h P B a (bo - 1) HC) as (h1 & B1 & Hh1 & HC1 & Hf1 & Hu1 & Ha1 & Hol1 & Hco1 & _);
      [by rewrite Z.sub_add|done|lia|done|].
    rewrite Hh1. cbn [mbind option_bind].
    destruct (IH h1 B1 (bo - 1) HC1 Ha1 Hol1) as (h2 & B2 & Hh2 & HC2 & Hf2 & Hu2 & Ha2 & Hol2 & Hco2);
      [lia|lia|lia|done|].
    exists h2, B2. split; [done|]. split; [done|]. split; [by eapply frame_trans|].
    split; [by eapply same_used_trans|]. done.
Qed.

(** ** Coalescing *)
Lemma headed_used P B B' : same_used B B' → headed P B → headed P B'.
Proof. intros Hs Hh p Hp. apply (Hs _ _ Header); [by split|by apply Hh]. Qed.

Lemma same_used_merge B a b k :
  a ≠ b → B !! a = Some (k, Loose) → B !! b = Some (k, Loose) → same_used B (gmerge a b k B).
Proof.
  intros Hab Ha Hb v j κ Hκ. rewrite lookup_gmerge by done. split.
  - intros Hv. right. split; [|split; [|done]]; intros ->; simplify_eq; by apply in_use_Loose in Hκ.
  - intros [[_ [= -> ->]]|(_ & _ & ?)]; [by apply in_use_Loose in Hκ|done].
Qed.

Lemma coalesce_step h P B a k p :
  core h P B → pools_ok P → headed P B → p ∈ P → B !! a = Some (k, Loose) → only_loose B a →
  pool_base p ≤ a < pool_base p + 2 ^ pool_order p → is_Some (hdrs h !! a) → coalesced B →
  let b := bud a k in
  k < pool_order p ∧ ∃ x, hdrs h !! b = Some x ∧
  ((negb (rc x =? 0) || negb (order x =? k) = true ∧ B !! b ≠ Some (k, Free)) ∨
   (negb (rc x =? 0) || negb (order x =? k) = false ∧
    ∃ h1 h2 B', fl_remove h b = Some h1 ∧ drop_avail h1 k = Some h2 ∧ core h2 P B' ∧
      frame P B h h2 ∧ same_used B B' ∧ B' !! Z.min a b = Some (k + 1, Loose) ∧ only_loose B' (Z.min a b) ∧
      pool_base p ≤ Z.min a b < pool_base p + 2 ^ pool_order p ∧ is_Some (hdrs h2 !! Z.min a b) ∧ coalesced B')).
Proof.
  intros HC HP Hh Hp Ha Hol Hin Hha Hco b. pose proof (c_tiling _ _ _ HC) as HT.
  pose proof (block_below P B HP HT a k Loose p Hh Ha Hp Hin) as Hkp. split; [done|].
  destruct (buddy_block P B HP HT a k Loose p Ha Hp Hin Hkp) as (j & κ & Hb & Hjk & Hne & Hbin). fold b in Hb, Hne, Hbin.
  assert (Hκ : κ ≠ Loose) by (intros ->; by apply Hol in Hb).
  destruct (c_hdr _ _ _ HC b j κ Hb Hκ) as (x & Hx & Hxo & Hxr). exists x. split; [done|].
  destruct (decide (κ = Free ∧ j = k)) as [[-> ->]|Hno].
  - right. rewrite Hxo, (proj2 Hxr eq_refl), !Z.eqb_refl. split; [done|].
    destruct (unlink_ok h P B b k HC Hb) as (h1 & h2 & Hh1 & Hh2 & HC1 & Hf & Hhd).
    set (B1 := <[b := (k, Loose)]> B) in *.
    assert (Ha1 : B1 !! a = Some (k, Loose)) by (unfold B1; by rewrite lookup_insert_ne).
    assert (Hb1 : B1 !! b = Some (k, Loose)) by apply lookup_insert_eq.
    assert (Hu1 : same_used B B1) by (eapply same_used_insert; [done|auto..]).
    exists h1, h2, (gmerge a b k B1). split; [done|]. split; [done|].
    assert (Hab : a ≠ b) by done.
    split. { apply (core_loose _ P _ B1); [done| |].
      - eapply tiling_merge; [done|by eapply headed_used|apply HC1| | |done..]; done.
      - intros y i κ' Hκ'. rewrite lookup_gmerge by done. split.
        + intros Hy. right. split; [|split; [|done]]; intros ->; congruence.
        + intros [[_ [= -> ->]]|(_ & _ & ?)]; done. }
    split; [done|]. split; [by eapply same_used_trans; [|apply same_used_merge]|].
    split; [apply lookup_gmerge; [done|by left]|].
    split. { intros y i Hy. apply lookup_gmerge in Hy as [[? _]|(Hya & Hyb & Hy)]; [done| |done].
      apply lookup_insert_Some in Hy as [[? _]|[_ Hy]]; [congruence|]. by apply Hol in Hy. }
    split; [lia|]. split. { rewrite Hhd. destruct (Z.min_spec a b) as [[_ ->]|[_ ->]]; [done|]. by rewrite Hx. }
    apply (coalesced_sub B); [done|]. intros y i Hy.
    apply lookup_gmerge in Hy as [[_ [=]]|(Hya & Hyb & Hy)]; [|done].
    apply lookup_insert_Some in Hy as [[? _]|[_ Hy]]; [congruence|done].
  - left. split.
    + destruct (Z.eqb_spec (rc x) 0) as [Hr|]; [|done]. destruct (Z.eqb_spec (order x) k) as [Hk|]; [|done].
      exfalso. apply Hno. split; [by apply Hxr|congruence].
    + rewrite Hb. intros [= -> ->]. by apply Hno.
Qed.

Lemma coalesce_loop_ok P p n : ∀ h B a k,
  core h P B → pools_ok P → headed P B → p ∈ P → B !! a = Some (k, Loose) → only_loose B a →
  pool_base p ≤ a < pool_base p + 2 ^ pool_order p → is_Some (hdrs h !! a) → coalesced B →
  pool_order p - k ≤ Z.of_nat n →
  ∃ h' B' a' k', coalesce_loop n h a k (pool_base p) (pool_order p) = Some (h', a', k') ∧
    core h' P B' ∧ frame P B h h' ∧ same_used B B' ∧ B' !! a' = Some (k', Loose) ∧ only_loose B' a' ∧
    k' < pool_order p ∧ is_Some (hdrs h' !! a') ∧ B' !! bud a' k' ≠ Some (k', Free) ∧ coalesced B'.
Proof.
  induction n as [|n IH]; intros h B a k HC HP Hh Hp Ha Hol Hin Hha Hco Hn;
    destruct (coalesce_step h P B a k p HC HP Hh Hp Ha Hol Hin Hha Hco) as (Hkp & x & Hx & Hcase); [lia|].
  destruct (t_block _ _ (c_tiling _ _ _ HC) _ _ _ Ha) as (Hk6 & Hal & _).
  cbn [coalesce_loop]. destruct (Z.leb_spec (pool_order p) k); [lia|].
  destruct (p_shape _ HP _ Hp) as (_ & _ & Hpb).
  rewrite (ray_buddy_of_bud a k (pool_base p) (pool_order p)) by (done || lia).
  rewrite Hx. cbn [mbind option_bind].
  destruct Hcase as [[-> Hnb]|(-> & h1 & h2 & B' & Hh1 & Hh2 & HC' & Hf & Hu & Ha' & Hol' & Hin' & Hha' & Hco')].
  - exists h, B, a, k. by split_and!.
  - rewrite Hh1. cbn [mbind option_bind]. rewrite Hh2. cbn [mbind option_bind].
    assert (Hmin : (if bud a k <? a then bud a k else a) = Z.min a (bud a k)).
    { destruct (Z.ltb_spec (bud a k) a); lia. }
    rewrite Hmin.
    destruct (IH h2 B' (Z.min a (bud a k)) (k + 1) HC' HP) as (h3 & B3 & a3 & k3 & Hl & HC3 & Hf3 & Hu3 & Hrest);
      [by eapply headed_used|done..|lia|].
    exists h3, B3, a3, k3. split; [done|]. split; [done|].
    split; [by eapply frame_trans|]. split; [by eapply same_used_trans|done].
Qed.

(** A block that is on no list goes back to the free lists, merged with its free
    buddies. *)
Lemma heap_coalesce_ok h P B a k p x :
  core h P B → pools_ok P → headed P B → p ∈ P → B !! a = Some (k, Loose) → only_loose B a →
  pool_base p ≤ a < pool_base p + 2 ^ pool_order p → hdrs h !! a = Some x → order x = k → coalesced B →
  ∃ h' B', heap_coalesce h a (pool_base p) (pool_order p) = Some h' ∧
    core h' P B' ∧ frame P B h h' ∧ same_used B B' ∧ coalesced B' ∧ ∀ y i, B' !! y ≠ Some (i, Loose).
Proof.
  intros HC HP Hh Hp Ha Hol Hin Hx Hxo Hco. unfold heap_coalesce. rewrite Hx. cbn [mbind option_bind]. rewrite Hxo.
  destruct (p_shape _ HP _ Hp) as (Hpo & _ & _).
  destruct (t_block _ _ (c_tiling _ _ _ HC) _ _ _ Ha) as (Hk6 & _).
  destruct (coalesce_loop_ok P p order_fuel h B a k HC HP Hh Hp Ha Hol Hin) as
    (h1 & B1 & a1 & k1 & Hl & HC1 & Hf1 & Hu1 & Ha1 & Hol1 & Hk1 & [x1 Hx1] & Hnb & Hco1);
    [by rewrite Hx|done|rewrite order_fuel_Z; lia|].
  rewrite Hl. cbn [mbind option_bind].
  destruct (insert_ok h1 P B1 a1 k1 x1 HC1 Ha1) as (h2 & Hh2 & HC2 & Hf2); [lia|done|].
  assert (Hu2 : same_used B1 (<[a1 := (k1, Free)]> B1)) by (eapply same_used_insert; [done|auto..]).
  destruct (t_block _ _ (c_tiling _ _ _ HC1) _ _ _ Ha1) as (Hk16 & Hal1 & _).
  exists h2, (<[a1 := (k1, Free)]> B1). split; [done|]. split; [done|].
  split; [by eapply frame_trans|]. split; [by eapply same_used_trans|].
  split; [apply (coalesced_insert P); [apply HC1|done|lia|done|done]|].
  intros y i [[_ [=]]|[Hne Hy]]%lookup_insert_Some. by apply Hol1 in Hy.
Qed.
