(* ===== verification/HeapInv.v ===== *)
(** * The heap invariant and the allocator's entry points

    [inv] describes a heap between two calls; [refill], [alloc_block],
    [alloc_small], [heap_alloc_direct], [free_block] and [heap_flush_slabs] keep
    it and change the blocks handed out as they should. *)

From S2P Require Import Prelude Heap HeapTiling HeapLists HeapProofs.
Local Open Scope Z_scope.
#[local] Arguments zget : simpl never.
#[local] Arguments Z.pow : simpl never.
#[local] Arguments Z.shiftl : simpl never.

Lemma scan_fuel_S : scan_fuel = S (Nat.pred scan_fuel).
Proof. symmetry. apply Nat.succ_pred. unfold scan_fuel. apply Nat.neq_mul_0. by split. Qed.
#[local] Opaque order_fuel scan_fuel.

(** ** What the operating system promises

    A mapping is aligned and overlaps nothing that is mapped. *)
Definition clear_of (ps : list pool_entry) (ds : gmap Z Z) (a n : Z) : Prop :=
  (∀ p, p ∈ ps → a + n ≤ pool_base p ∨ pool_base p + 2 ^ pool_order p ≤ a) ∧
  (∀ v m, ds !! v = Some m → a + n ≤ v - RAY_DIRECT_HDR ∨ v - RAY_DIRECT_HDR + m ≤ a).

Class OsLaws `{Os} : Prop := {
  os_pool ps ds po mem : vm_alloc_aligned ps ds po = Some mem →
    0 < mem ∧ (2 ^ po | mem) ∧ clear_of ps ds mem (2 ^ po);
  os_map ps ds size mem : vm_alloc ps ds size = Some mem →
    0 < mem ∧ (4096 | mem) ∧ clear_of ps ds mem size
}.

(** ** The invariant *)
Record directs_ok (h : heap) : Prop := {
  d_shape v m : directs h !! v = Some m → 64 ≤ m ∧ 0 < v - RAY_DIRECT_HDR ∧ (4096 | v - RAY_DIRECT_HDR);
  d_pools v m p : directs h !! v = Some m → p ∈ pools h →
    v - RAY_DIRECT_HDR + m ≤ pool_base p ∨ pool_base p + 2 ^ pool_order p ≤ v - RAY_DIRECT_HDR;
  d_disj v w m n : directs h !! v = Some m → directs h !! w = Some n → v ≠ w →
    v + m ≤ w ∨ w + n ≤ v;
  d_hdr v m : directs h !! v = Some m → ∃ x, hdrs h !! v = Some x ∧ order x = RAY_ORDER_DIRECT
}.

(** Blocks handed out or cached. *)
Definition held (κ : kind) : Prop := κ = Live ∨ κ = Cached.
Definition same_held (B B' : ghost) : Prop :=
  ∀ v k κ, held κ → B !! v = Some (k, κ) ↔ B' !! v = Some (k, κ).

(** A header [ray_free] takes for a heap block's. *)
Definition client_hdr (x : hdr) : Prop := mmod x = 0 ∧ Z.land (attrs x) RAY_ATTR_ARENA = 0.
Definition taken (h : heap) (B : ghost) (v : Z) : Prop :=
  (∃ k κ, held κ ∧ B !! v = Some (k, κ)) ∨ is_Some (directs h !! v).

Record inv (h : heap) (B : ghost) : Prop := {
  i_pools : pools_ok (pools h);
  i_core : core h (pools h) B;
  i_headed : headed (pools h) B;
  i_headers a k : B !! a = Some (k, Header) → ∃ p, p ∈ pools h ∧ pool_base p = a;
  i_coal : coalesced B;
  i_none a k : B !! a ≠ Some (k, Loose);
  i_slab_len : zlen (slabs h) = RAY_SLAB_ORDERS ∧ zlen (slab_cap h) = RAY_SLAB_ORDERS;
  i_slab i st : 0 ≤ i → (slabs h).[i] = Some st →
    NoDup st ∧ ∀ a, a ∈ st ↔ B !! a = Some (RAY_ORDER_MIN + i, Cached);
  i_cached a k : B !! a = Some (k, Cached) → 6 ≤ k ≤ 16;
  i_last : 0 ≤ last_pool_idx h;
  i_directs : directs_ok h;
  i_client v x : taken h B v → hdrs h !! v = Some x → client_hdr x
}.

Lemma held_in_use κ : held κ → in_use κ.
Proof. by intros [->| ->]. Qed.
Lemma same_used_held B B' : same_used B B' → same_held B B'.
Proof. intros Hs v k κ Hκ. by apply Hs, held_in_use. Qed.
Lemma same_held_trans B1 B2 B3 : same_held B1 B2 → same_held B2 B3 → same_held B1 B3.
Proof. intros H1 H2 v k κ Hκ. by rewrite (H1 v k κ Hκ), (H2 v k κ Hκ). Qed.

(** ** Carrying the invariant *)
Lemma directs_untouched h B v m :
  directs_ok h → directs h !! v = Some m → untouched (pools h) B v.
Proof.
  intros HD Hv. left. intros p Hp. destruct (d_shape _ HD _ _ Hv) as (? & _).
  destruct (d_pools _ HD _ _ _ Hv Hp); unfold RAY_DIRECT_HDR in *; lia.
Qed.

Lemma taken_untouched h B v : directs_ok h → taken h B v → untouched (pools h) B v.
Proof.
  intros HD [(k & κ & Hκ & Hv)|[m Hm]]; [|by eapply directs_untouched].
  right. exists k, κ. split; [done|by apply held_in_use].
Qed.

Lemma directs_frame h h' B :
  directs_ok h → frame (pools h) B h h' → directs_ok h'.
Proof.
  intros HD Hf. split; rewrite ?(f_directs _ _ _ _ Hf), ?(f_pools _ _ _ _ Hf); [apply HD..|].
  intros v m Hv. destruct (d_hdr _ HD _ _ Hv) as (x & Hx & Ho). exists x. split; [|done].
  rewrite (f_hdrs _ _ _ _ Hf); [done|]. by eapply directs_untouched.
Qed.

(** A step that keeps the pools and the blocks in use. *)
Lemma inv_frame h h' B B' :
  inv h B → core h' (pools h) B' → frame (pools h) B h h' → same_used B B' → coalesced B' →
  (∀ a k, B' !! a ≠ Some (k, Loose)) → inv h' B'.
Proof.
  intros HI HC Hf Hu Hco Hno.
  assert (Hcached : ∀ a k, B' !! a = Some (k, Cached) ↔ B !! a = Some (k, Cached)).
  { intros a k. symmetry. apply Hu. by split. }
  split; rewrite ?(f_slabs _ _ _ _ Hf), ?(f_cap _ _ _ _ Hf), ?(f_pools _ _ _ _ Hf), ?(f_last _ _ _ _ Hf).
  - apply HI.
  - done.
  - eapply headed_used; [done|apply HI].
  - intros a k Ha. apply (i_headers _ _ HI a k). by apply (Hu a k Header); [split|].
  - done.
  - done.
  - apply HI.
  - intros i st Hi Hst. destruct (i_slab _ _ HI i st Hi Hst) as [Hnd Hin]. split; [done|].
    intros a. by rewrite Hin, Hcached.
  - intros a k Ha%Hcached. by eapply (i_cached _ _ HI).
  - apply HI.
  - by eapply directs_frame; [apply HI|].
  - intros v x Ht Hx.
    assert (Ht0 : taken h B v).
    { destruct Ht as [(k & κ & Hκ & Hv)|Hd]; [left; exists k, κ; split; [done|by apply (Hu v k κ); [apply held_in_use|]]|].
      right. by rewrite <- (f_directs _ _ _ _ Hf). }
    apply (i_client _ _ HI v x Ht0). rewrite <- (f_hdrs _ _ _ _ Hf); [done|]. by apply taken_untouched; [apply HI|].
Qed.

(** The pools depend on headers, links and [avail] only. *)
Lemma core_ext h h' P B :
  hdrs h' = hdrs h → links h' = links h → avail h' = avail h → core h P B → core h' P B.
Proof. intros H1 H2 H3 HC. split; rewrite ?H1, ?H2, ?H3; apply HC. Qed.

(** Giving a loose block an owner. *)
Lemma core_claim h P B a k κ x :
  core h P B → B !! a = Some (k, Loose) → in_use κ → hdrs h !! a = Some x → order x = k → rc x ≠ 0 →
  core h P (<[a := (k, κ)]> B).
Proof.
  intros HC Ha Hκ Hx Hxo Hxr.
  assert (Hfree : ∀ b j, <[a := (k, κ)]> B !! b = Some (j, Free) ↔ B !! b = Some (j, Free)).
  { intros b j. rewrite lookup_insert_Some. split.
    - intros [[_ [= _ ->]]|[_ ?]]; [by apply in_use_Free in Hκ|done].
    - intros Hb. right. split; [intros <-; congruence|done]. }
  split.
  - eapply tiling_kind; [apply HC|done].
  - intros b j κ' Hb ->. apply Hfree in Hb. by eapply (c_small _ _ _ HC).
  - intros b j κ' Hb Hκ'. apply lookup_insert_Some in Hb as [[<- [= <- <-]]|[_ Hb]]; [|by apply (c_hdr _ _ _ HC)].
    exists x. split; [done|]. split; [done|]. split; [done|]. intros ->. by apply in_use_Free in Hκ.
  - intros o Ho. destruct (c_list _ _ _ HC o Ho) as (l & Hl & Hnd & Hin). exists l. split; [done|].
    split; [done|]. intros b. by rewrite Hin, Hfree.
  - intros o Ho. rewrite (c_avail _ _ _ HC o Ho). split; intros [b Hb]; exists b; by apply Hfree.
Qed.

(** Links of a block that is on no free list may change. *)
Lemma core_set_link h P B a nd :
  core h P B → (∀ k, B !! a ≠ Some (k, Free)) → core (with_links h (<[Blk a := nd]> (links h))) P B.
Proof.
  intros HC Ha. split; try apply HC. intros o Ho.
  destruct (c_list _ _ _ HC o Ho) as (l & Hl & Hnd & Hin). exists l. split; [|done].
  assert (Hne : ∀ r, r ∈ Sent o :: map Blk l → r ≠ Blk a).
  { intros r [->|(b & -> & Hb)%list_elem_of_fmap]%elem_of_cons [= ->]. by apply Hin, Ha in Hb. }
  apply (chain_frame _ _ _ _ _ Hl); intros r Hr; unfold nxt, prv; cbn; rewrite lookup_insert_ne; try done;
    (intros Hr2; eapply Hne; [|symmetry; exact Hr2]); [done|].
  apply elem_of_app in Hr as [Hr| ->%list_elem_of_singleton]; [by right|left].
Qed.

(** Taking a block out of the hands of its owner. *)
Lemma core_unclaim h P B a k κ :
  core h P B → B !! a = Some (k, κ) → κ ≠ Free → core h P (<[a := (k, Loose)]> B).
Proof.
  intros HC Ha Hκ.
  assert (Hfree : ∀ b j, <[a := (k, Loose)]> B !! b = Some (j, Free) ↔ B !! b = Some (j, Free)).
  { intros b j. rewrite lookup_insert_Some. split; [naive_solver|].
    intros Hb. right. split; [intros <-; congruence|done]. }
  split.
  - eapply tiling_kind; [apply HC|done].
  - intros b j κ' Hb ->. apply Hfree in Hb. by eapply (c_small _ _ _ HC).
  - intros b j κ' Hb Hκ'. apply lookup_insert_Some in Hb as [[<- [= <- <-]]|[_ Hb]]; [done|by apply (c_hdr _ _ _ HC)].
  - intros o Ho. destruct (c_list _ _ _ HC o Ho) as (l & Hl & Hnd & Hin). exists l. split; [done|].
    split; [done|]. intros b. by rewrite Hin, Hfree.
  - intros o Ho. rewrite (c_avail _ _ _ HC o Ho). split; intros [b Hb]; exists b; by apply Hfree.
Qed.

(** ** Adding a pool *)
Lemma cascade_ok P mem n : ∀ h B o,
  core h P B → B !! mem = Some (o, Loose) → only_loose B mem → 6 ≤ o ≤ 39 → o - 6 ≤ Z.of_nat n → coalesced B →
  ∃ h' B', cascade n h mem o = Some h' ∧ core h' P B' ∧ frame P B h h' ∧ same_used B B' ∧
    B' !! mem = Some (6, Loose) ∧ only_loose B' mem ∧ coalesced B' ∧
    (∀ x k, B !! x = Some (k, Free) → B' !! x = Some (k, Free)) ∧
    (6 < o → B' !! (mem + 2 ^ (o - 1)) = Some (o - 1, Free)) ∧ hdrs h' !! mem = hdrs h !! mem.
Proof.
  induction n as [|n IH]; intros h B o HC Hm Hol Ho Hn Hco; cbn [cascade]; unfold RAY_ORDER_MIN.
  - destruct (Z.ltb_spec 6 o); [lia|]. assert (o = 6) as -> by lia.
    exists h, B. by split_and!.
  - destruct (Z.ltb_spec 6 o) as [Hlt|].
    2: { assert (o = 6) as -> by lia. exists h, B. by split_and!. }
    destruct (split_step h P B mem (o - 1) HC) as (h1 & B1 & Hh1 & HC1 & Hf1 & Hu1 & Ha1 & Hol1 & Hco1 & Hfr1 & Hup & Hhd1);
      [by rewrite Z.sub_add|done|lia|done|].
    rewrite Hh1. cbn [mbind option_bind].
    destruct (IH h1 B1 (o - 1) HC1 Ha1 Hol1) as (h2 & B2 & Hh2 & HC2 & Hf2 & Hu2 & Ha2 & Hol2 & Hco2 & Hfr2 & _ & Hhd2);
      [lia|lia|done|].
    exists h2, B2. split; [done|]. split; [done|]. split; [by eapply frame_trans|].
    split; [by eapply same_used_trans|]. split; [done|]. split; [done|]. split; [done|].
    split; [by auto|]. split; [intros _; by apply Hfr2|]. by rewrite Hhd2.
Qed.

Section laws.
Context `{OsLaws}.

Lemma pools_ok_snoc P p :
  pools_ok P → 25 ≤ pool_order p ≤ 38 → 0 < pool_base p → (2 ^ pool_order p | pool_base p) →
  (∀ q, q ∈ P → pool_base p + 2 ^ pool_order p ≤ pool_base q ∨ pool_base q + 2 ^ pool_order q ≤ pool_base p) →
  pools_ok (P ++ [p]).
Proof.
  intros HP Ho Hb Hal Hd. split.
  - intros q [Hq| ->%list_elem_of_singleton]%elem_of_app; [by apply HP|done].
  - intros i j q r Hi Hj Hne.
    apply lookup_app_Some in Hi as [Hi|[Hi0 Hi]], Hj as [Hj|[Hj0 Hj]];
      try (apply list_lookup_singleton_Some in Hi as [Hi <-]); try (apply list_lookup_singleton_Some in Hj as [Hj <-]).
    + by eapply (p_disj _ HP).
    + apply list_elem_of_lookup_2 in Hi. destruct (Hd q Hi); lia.
    + apply list_elem_of_lookup_2 in Hj. destruct (Hd r Hj); lia.
    + lia.
Qed.

(** No pool can be added: the table is full, the order too large, or the system
    refuses. *)
Definition pool_order_for (o : Z) : Z := if RAY_HEAP_POOL_ORDER <=? o then o + 1 else RAY_HEAP_POOL_ORDER.
Definition refused (h : heap) (o : Z) : Prop :=
  RAY_MAX_POOLS ≤ zlen (pools h) ∨ RAY_HEAP_MAX_ORDER < pool_order_for o ∨
  vm_alloc_aligned (pools h) (directs h) (pool_order_for o) = None.

(** Nothing changes for the blocks handed out or cached. *)
Definition kept (h : heap) (B : ghost) (h' : heap) (B' : ghost) : Prop :=
  same_held B B' ∧ directs h' = directs h ∧
  (∀ v, taken h B v → hdrs h' !! v = hdrs h !! v) ∧
  stats h' = stats h.

Lemma kept_refl h B : kept h B h B.
Proof. by split. Qed.

Lemma add_pool_ok h B o :
  inv h B → 6 ≤ o →
  ∃ h' ok B', heap_add_pool h o = Some (h', ok) ∧ inv h' B' ∧ kept h B h' B' ∧
    if ok then ∃ a k, o ≤ k ∧ B' !! a = Some (k, Free) else refused h o.
Proof.
  intros HI Ho. unfold heap_add_pool.
  assert (Hno : refused h o → ∃ h' ok B', Some (h, false) = Some (h', ok) ∧ inv h' B' ∧ kept h B h' B' ∧
    if ok then ∃ a k, o ≤ k ∧ B' !! a = Some (k, Free) else refused h o).
  { intros Hr. exists h, false, B. split; [done|]. split; [done|]. split; [apply kept_refl|done]. }
  destruct (Z.leb_spec RAY_MAX_POOLS (zlen (pools h))); [apply Hno; by left|].
  fold (pool_order_for o). set (po := pool_order_for o) in *.
  assert (Hpo : 25 ≤ po ∧ o + 1 ≤ po) by (unfold po, pool_order_for, RAY_HEAP_POOL_ORDER; destruct (Z.leb_spec 25 o); lia).
  destruct (Z.ltb_spec RAY_HEAP_MAX_ORDER po) as [|Hmax]; [apply Hno; right; by left|]. unfold RAY_HEAP_MAX_ORDER in Hmax.
  destruct (vm_alloc_aligned (pools h) (directs h) po) as [mem|] eqn:Hvm; [|apply Hno; right; by right]. clear Hno.
  destruct (os_pool _ _ _ _ Hvm) as (Hm0 & Hmal & Hcp & Hcd).
  set (p := PoolEntry mem po). set (P := pools h). set (P' := P ++ [p]).
  assert (HP' : pools_ok P') by (apply pools_ok_snoc; [apply HI|cbn; lia|done..]).
  pose proof (c_tiling _ _ _ (i_core _ _ HI)) as HT.
  destruct (tiling_pool P B p HP' HT Hcp) as [Hn HT0]. cbn in Hn, HT0.
  set (B0 := <[mem := (po, Loose)]> B) in *.
  assert (Hnm : ∀ x v, B !! x = Some v → x ≠ mem) by (intros x v Hx ->; by apply Hn in Hx).
  assert (HC0 : core (set_hdr h mem (Hdr 0 RAY_ORDER_MIN 0 1)) P' B0).
  { apply core_set_hdr; [|intros k κ Hk; unfold B0 in Hk; rewrite lookup_insert_eq in Hk; congruence].
    apply (core_loose _ P _ B); [apply HI|done|]. intros x k κ Hκ. unfold B0.
    rewrite lookup_insert_Some. split; [|naive_solver]. intros Hx. right. split; [|done].
    intros <-. by apply Hnm in Hx. }
  destruct (cascade_ok P' mem order_fuel _ B0 po HC0) as
    (h1 & B1 & Hh1 & HC1 & Hf1 & Hu1 & Hm1 & Hol1 & Hco1 & Hfr1 & Hup1 & Hhd1).
  { apply lookup_insert_eq. }
  { intros x k [[<- _]|[_ Hx]]%lookup_insert_Some; [done|]. by apply (i_none _ _ HI) in Hx. }
  { lia. }
  { rewrite order_fuel_Z. lia. }
  { apply (coalesced_sub B); [apply HI|]. intros x k [[_ [=]]|[_ Hx]]%lookup_insert_Some. done. }
  rewrite Hh1. cbn [mbind option_bind].
  set (B2 := <[mem := (6, Header)]> B1). set (h2 := with_pools h1 (pools h1 ++ [PoolEntry mem po])).
  assert (HC2 : core h1 P' B2).
  { apply (core_claim _ _ _ _ _ _ (Hdr 0 RAY_ORDER_MIN 0 1)); try done. rewrite Hhd1. apply lookup_insert_eq. }
  assert (Hp2 : pools h2 = P') by (unfold h2; cbn; by rewrite (f_pools _ _ _ _ Hf1)).
  assert (Hused : ∀ v k κ, in_use κ → B2 !! v = Some (k, κ) ↔ B !! v = Some (k, κ) ∨ v = mem ∧ k = 6 ∧ κ = Header).
  { intros v k κ Hκ. unfold B2. rewrite lookup_insert_Some, <- (Hu1 v k κ Hκ). unfold B0.
    rewrite lookup_insert_Some. split.
    - intros [[<- [= <- <-]]|[_ [[_ [= <- <-]]|[_ ?]]]]; [auto|by apply in_use_Loose in Hκ|auto].
    - intros [Hv|(-> & -> & ->)]; [|by left]. pose proof (Hnm _ _ Hv). right. split; [done|]. by right. }
  assert (Hheld : same_held B B2).
  { intros v k κ Hκ. rewrite Hused by (by apply held_in_use). split; [by left|].
    intros [?|(_ & _ & ->)]; [done|]. by destruct Hκ. }
  assert (Hf0 : ∀ v, v ≠ mem → untouched P' B0 v → hdrs h1 !! v = hdrs h !! v).
  { intros v Hv Hun. rewrite (f_hdrs _ _ _ _ Hf1) by done. cbn. by rewrite lookup_insert_ne. }
  assert (Hdir : ∀ v, is_Some (directs h !! v) → hdrs h1 !! v = hdrs h !! v).
  { intros v [m Hv]. pose proof (d_shape _ (i_directs _ _ HI) _ _ Hv) as (? & ? & ?).
    pose proof (Hcd _ _ Hv) as Hcl. unfold RAY_DIRECT_HDR in *.
    pose proof (pow2_pos po ltac:(lia)). apply Hf0; [lia|]. left.
    intros q [Hq| ->%list_elem_of_singleton]%elem_of_app; [|cbn; lia].
    destruct (d_pools _ (i_directs _ _ HI) _ _ _ Hv Hq); unfold RAY_DIRECT_HDR in *; lia. }
  assert (Hcaps : slabs h1 = slabs h ∧ slab_cap h1 = slab_cap h ∧ last_pool_idx h1 = last_pool_idx h ∧ directs h1 = directs h
    ∧ stats h1 = stats h).
  { split_and!; [apply (f_slabs _ _ _ _ Hf1)|apply (f_cap _ _ _ _ Hf1)|apply (f_last _ _ _ _ Hf1)
      |apply (f_directs _ _ _ _ Hf1)|apply (f_stats _ _ _ _ Hf1)]. }
  destruct Hcaps as (Hs & Hc & Hlast & Hd & Hst).
  assert (Htaken : ∀ v, taken h B v → hdrs h1 !! v = hdrs h !! v).
  { intros v [(k & κ & Hκ & Hv)|Hv]; [|by apply Hdir].
    apply Hf0; [by eapply Hnm|]. right. exists k, κ. split; [|by apply held_in_use].
    unfold B0. rewrite lookup_insert_ne; [done|]. intros <-. by apply Hnm in Hv. }
  assert (HI2 : inv h2 B2).
  { split; rewrite ?Hp2; unfold h2; cbn; rewrite ?Hs, ?Hc, ?Hlast.
    - done.
    - by apply (core_ext h1).
    - intros q [Hq| ->%list_elem_of_singleton]%elem_of_app.
      + apply Hused; [by split|]. left. by apply HI.
      + apply Hused; [by split|]. right. done.
    - intros a k [Ha|(-> & _ & _)]%Hused; [..|by split].
      + destruct (i_headers _ _ HI a k Ha) as (q & Hq & ?). exists q. split; [apply elem_of_app; by left|done].
      + exists p. split; [apply elem_of_app; right; by left|done].
    - apply (coalesced_sub B1); [done|]. by intros x k [[_ [=]]|[_ Hx]]%lookup_insert_Some.
    - intros a k [[_ [=]]|[Hne Ha]]%lookup_insert_Some. by apply Hol1 in Ha.
    - apply HI.
    - intros i st Hi Hst'. destruct (i_slab _ _ HI i st Hi Hst') as [Hnd Hin]. split; [done|].
      intros a. rewrite Hin. by apply Hheld; right.
    - intros a k Ha. apply (i_cached _ _ HI a). by apply Hheld; [right|].
    - apply HI.
    - destruct (i_directs _ _ HI) as [Hsh Hpl Hdj Hhd]. split; cbn; rewrite Hd; [done| |done|].
      + intros v m q Hv. rewrite (f_pools _ _ _ _ Hf1). intros [Hq| ->%list_elem_of_singleton]%elem_of_app; [by apply Hpl|].
        destruct (Hcd _ _ Hv); cbn; lia.
      + intros v m Hv. rewrite Hdir by done. by eapply Hhd.
    - intros v x Ht Hx. apply (i_client _ _ HI v x).
      + destruct Ht as [(k & κ & Hκ & Hv)|Ht]; [left; exists k, κ; split; [done|by apply Hheld]|right; by rewrite <- Hd].
      + rewrite <- Htaken; [done|]. destruct Ht as [(k & κ & Hκ & Hv)|Ht]; [left; exists k, κ; split; [done|by apply Hheld]|right; by rewrite <- Hd]. }
  exists h2, true, B2. split; [done|]. split; [done|]. split; [split; [done|split; [done|split; [|done]]]|].
  - exact Htaken.
  - exists (mem + 2 ^ (po - 1)), (po - 1). split; [lia|]. unfold B2.
    pose proof (pow2_pos (po - 1) ltac:(lia)). rewrite lookup_insert_ne by lia. apply Hup1. lia.
Qed.

(** ** Choosing a list *)
Lemma ctz_from_spec n x : ∀ i,
  (∃ j, i ≤ j < i + Z.of_nat n ∧ Z.testbit x j = true) →
  i ≤ ctz_from n x i < i + Z.of_nat n ∧ Z.testbit x (ctz_from n x i) = true ∧
  ∀ j, i ≤ j < ctz_from n x i → Z.testbit x j = false.
Proof.
  induction n as [|n IH]; intros i (j & Hj & Hb); [lia|]. cbn [ctz_from].
  destruct (Z.testbit x i) eqn:Hi; [split; [lia|split; [done|lia]]|].
  assert (i ≠ j) by congruence.
  destruct (IH (i + 1)) as (Hr & Ht & Hlow); [exists j; split; [lia|done]|].
  split; [lia|]. split; [done|]. intros k Hk. destruct (decide (k = i)) as [->|]; [done|]. apply Hlow. lia.
Qed.

Lemma candidates_bit h o i : 0 ≤ o → 0 ≤ i →
  Z.testbit (candidates_of h o) i = Z.testbit (avail h) i && (o <=? i) && (i <? 64).
Proof.
  intros Ho Hi. unfold candidates_of, u64, wrap. rewrite Z.land_spec, <- andb_assoc. f_equal.
  destruct (Z.ltb_spec i 64).
  - rewrite Z.mod_pow2_bits_low, Z.shiftl_spec by lia.
    destruct (Z.leb_spec o i); [|by rewrite Z.testbit_neg_r by lia].
    change (2 ^ 64 - 1) with (Z.ones 64). by rewrite Z.ones_spec_low by lia.
  - rewrite Z.mod_pow2_bits_high by lia. by rewrite andb_false_r.
Qed.

Lemma candidates_zero h o : 0 ≤ o → candidates_of h o = 0 → ∀ i, o ≤ i < 64 → Z.testbit (avail h) i = false.
Proof.
  intros Ho Hz i Hi. pose proof (candidates_bit h o i Ho ltac:(lia)) as Hb.
  rewrite Hz, Z.bits_0 in Hb. destruct (Z.leb_spec o i), (Z.ltb_spec i 64); try lia.
  by rewrite !andb_true_r in Hb.
Qed.

Lemma candidates_nonzero h o : 0 ≤ o → candidates_of h o ≠ 0 →
  let f := ctzll (candidates_of h o) in
  o ≤ f < 64 ∧ Z.testbit (avail h) f = true ∧ ∀ i, o ≤ i < f → Z.testbit (avail h) i = false.
Proof.
  intros Ho Hnz f.
  assert (Hpos : 0 ≤ candidates_of h o).
  { apply Z.land_nonneg. right. apply Z.mod_pos_bound. lia. }
  assert (Hlog : Z.testbit (candidates_of h o) (Z.log2 (candidates_of h o)) = true) by (apply Z.bit_log2; lia).
  pose proof (Z.log2_nonneg (candidates_of h o)) as Hl.
  pose proof Hlog as Hlog'. rewrite candidates_bit, !andb_true_iff in Hlog' by lia.
  destruct Hlog' as [[_ Ho1%Z.leb_le] H64%Z.ltb_lt].
  destruct (ctz_from_spec 64 (candidates_of h o) 0) as (Hr & Ht & Hlow); [eexists; split; [|exact Hlog]; lia|].
  fold (ctzll (candidates_of h o)) in *. fold f in Hr, Ht, Hlow.
  rewrite candidates_bit, !andb_true_iff in Ht by lia. destruct Ht as [[Ht Hof%Z.leb_le] Hf%Z.ltb_lt].
  split; [lia|]. split; [done|]. intros i Hi. specialize (Hlow i ltac:(lia)).
  rewrite candidates_bit in Hlow by lia.
  destruct (Z.leb_spec o i), (Z.ltb_spec i 64); try lia. by rewrite !andb_true_r in Hlow.
Qed.

Lemma refill_ok h B o :
  inv h B → 6 ≤ o →
  ∃ h' c B', refill h o (candidates_of h o) = Some (h', c) ∧ inv h' B' ∧ kept h B h' B' ∧
    match c with None => refused h o | Some c => c = candidates_of h' o ∧ c ≠ 0 end.
Proof.
  intros HI Ho. unfold refill. destruct (Z.eqb_spec (candidates_of h o) 0) as [Hz|Hnz].
  2: { exists h, (Some (candidates_of h o)), B. split; [done|]. split; [done|]. split; [apply kept_refl|done]. }
  destruct (add_pool_ok h B o HI Ho) as (h' & ok & B' & -> & HI' & Hk & Hok). cbn [mbind option_bind].
  destruct ok; [|exists h', None, B'; done].
  destruct (Z.eqb_spec (candidates_of h' o) 0) as [Hz'|].
  { destruct Hok as (a & k & Hk' & Ha).
    pose proof (c_small _ _ _ (i_core _ _ HI') _ _ _ Ha eq_refl).
    assert (Hb : Z.testbit (avail h') k = true) by (apply (c_avail _ _ _ (i_core _ _ HI')); [lia|eauto]).
    by rewrite (candidates_zero h' o) in Hb by lia. }
  exists h', (Some (candidates_of h' o)), B'. done.
Qed.

Lemma free_list_nonempty h B o :
  inv h B → 0 ≤ o → Z.testbit (avail h) o = true → o ≤ 38 ∧ fl_empty h o = Some false ∧
    ∃ a, nxt (links h) (Sent o) = Some (Blk a) ∧ B !! a = Some (o, Free).
Proof.
  intros HI Ho Hb. pose proof (i_core _ _ HI) as HC.
  apply (c_avail _ _ _ HC o Ho) in Hb as [b Hb].
  pose proof (c_small _ _ _ HC _ _ _ Hb eq_refl) as H38. split; [done|].
  destruct (c_list _ _ _ HC o ltac:(lia)) as (l & Hl & Hnd & Hin).
  pose proof (chain_head _ _ _ Hl) as Hn. destruct l as [|a l]; [apply Hin in Hb; set_solver|].
  split; [|exists a; split; [done|]; apply Hin; by left].
  apply nxt_Some in Hn as (n & Hn & Hnn). unfold fl_empty. rewrite Hn. cbn [mbind option_bind].
  f_equal. rewrite Hnn. by apply bool_decide_eq_false.
Qed.

Lemma scan_avail_ok h B o :
  inv h B → 6 ≤ o → candidates_of h o ≠ 0 →
  ∃ f a, scan_avail scan_fuel h o (candidates_of h o) = Some (h, Some f) ∧ o ≤ f ≤ 38 ∧
    nxt (links h) (Sent f) = Some (Blk a) ∧ B !! a = Some (f, Free).
Proof.
  intros HI Ho Hnz. rewrite scan_fuel_S. cbn [scan_avail]. unfold refill.
  rewrite (proj2 (Z.eqb_neq _ _) Hnz). cbn [mbind option_bind].
  destruct (candidates_nonzero h o ltac:(lia) Hnz) as (Hf & Hb & _).
  destruct (free_list_nonempty h B (ctzll (candidates_of h o)) HI ltac:(lia) Hb) as (H38 & -> & a & Ha & HB).
  cbn [mbind option_bind]. exists (ctzll (candidates_of h o)), a. split; [done|]. split; [lia|done].
Qed.

(** ** Handing out a block *)
Definition granted (h : heap) (B : ghost) (h' : heap) (B' : ghost) (v o : Z) : Prop :=
  (∀ x k, B' !! x = Some (k, Live) ↔ B !! x = Some (k, Live) ∨ x = v ∧ k = o) ∧
  (∀ k, B !! v ≠ Some (k, Live)) ∧ directs h !! v = None ∧ directs h' = directs h ∧
  (∀ x, (∃ k, B !! x = Some (k, Live)) ∨ is_Some (directs h !! x) → hdrs h' !! x = hdrs h !! x) ∧
  hdrs h' !! v = Some (Hdr 0 o 0 1).

Lemma kept_granted h B h1 B1 h2 B2 v o :
  kept h B h1 B1 → granted h1 B1 h2 B2 v o → granted h B h2 B2 v o.
Proof.
  intros (Hh & Hd & Hhd & _) (Hl & Hnv & Hdv & Hd2 & Hhd2 & Hv).
  assert (HlB : ∀ x k, B !! x = Some (k, Live) ↔ B1 !! x = Some (k, Live)) by (intros x k; apply Hh; by left).
  split; [intros x k; by rewrite HlB, Hl|]. split; [intros k; by rewrite HlB|].
  split; [by rewrite <- Hd|]. split; [by rewrite Hd2|]. split; [|done].
  intros x Hx. rewrite Hhd2.
  - apply Hhd. destruct Hx as [[k Hx]|Hx]; [left; exists k, Live; split; [by left|done]|by right].
  - rewrite Hd. destruct Hx as [[k Hx]|Hx]; [left; exists k; by apply HlB|by right].
Qed.

(** A loose block of the right order becomes the block handed out. *)
Lemma grant_ok h B h1 B1 v o s :
  inv h B → core h1 (pools h) B1 → frame (pools h) B h h1 → same_used B B1 → coalesced B1 →
  B1 !! v = Some (o, Loose) → only_loose B1 v →
  ∃ B', inv (with_stats (new_header h1 v o) s) B' ∧ granted h B (with_stats (new_header h1 v o) s) B' v o.
Proof.
  intros HI HC1 Hf Hu Hco Hv Hol. set (P := pools h) in *.
  set (B' := <[v := (o, Live)]> B1). set (h2 := with_stats (new_header h1 v o) s).
  assert (HC2 : core (new_header h1 v o) P B1).
  { apply core_set_hdr; [|intros k κ Hk; congruence]. apply core_set_link; [done|congruence]. }
  assert (HC' : core h2 P B').
  { apply (core_ext (new_header h1 v o)); [done..|].
    eapply (core_claim _ _ _ _ _ _ (Hdr 0 o 0 1)); try done. apply lookup_insert_eq. }
  assert (Hvt : ¬ untouched P B v).
  { intros Hun. apply (same_used_untouched _ _ _ _ Hu) in Hun. revert Hun.
    eapply loose_touched; [apply HC1|done|auto]. }
  assert (HB' : ∀ x k κ, in_use κ → B' !! x = Some (k, κ) ↔ B !! x = Some (k, κ) ∨ x = v ∧ k = o ∧ κ = Live).
  { intros x k κ Hκ. unfold B'. rewrite lookup_insert_Some, (Hu x k κ Hκ). split; [naive_solver|].
    intros [Hx|(-> & -> & ->)]; [right|by left]. split; [|done]. intros <-.
    rewrite Hv in Hx. injection Hx as _ <-. by apply in_use_Loose in Hκ. }
  assert (Hhdr : ∀ x, untouched P B x → hdrs h2 !! x = hdrs h !! x).
  { intros x Hx. cbn. rewrite lookup_insert_ne by (intros ->; done). by apply Hf. }
  assert (Hcached : ∀ x k, B' !! x = Some (k, Cached) ↔ B !! x = Some (k, Cached)).
  { intros x k. rewrite HB' by by split. naive_solver. }
  exists B'. split.
  - split; cbn; rewrite ?(f_slabs _ _ _ _ Hf), ?(f_cap _ _ _ _ Hf), ?(f_pools _ _ _ _ Hf), ?(f_last _ _ _ _ Hf).
    + apply HI.
    + done.
    + intros p Hp. apply HB'; [by split|]. left. by apply HI.
    + intros a k [Ha|(_ & _ & [=])]%HB'; [|by split]. by apply (i_headers _ _ HI a k).
    + apply (coalesced_sub B1); [done|]. by intros x k [[_ [=]]|[_ ?]]%lookup_insert_Some.
    + intros a k [[_ [=]]|[Hne Ha]]%lookup_insert_Some. by apply Hol in Ha.
    + apply HI.
    + intros i st Hi Hst. destruct (i_slab _ _ HI i st Hi Hst) as [Hnd Hin]. split; [done|].
      intros a. by rewrite Hin, Hcached.
    + intros a k Ha%Hcached. by apply (i_cached _ _ HI a).
    + apply HI.
    + destruct (i_directs _ _ HI) as [Hsh Hpl Hdj Hhd].
      split; cbn; rewrite ?(f_directs _ _ _ _ Hf), ?(f_pools _ _ _ _ Hf); try done.
      intros w m Hw. destruct (Hhd _ _ Hw) as (x & Hx & Hxo). exists x. split; [|done].
      change (hdrs h2 !! w = Some x). rewrite Hhdr; [done|]. by eapply directs_untouched; [apply HI|].
    + intros w x Ht Hx. destruct (decide (w = v)) as [->|Hne].
      { change (hdrs h2 !! v = Some x) in Hx. cbn in Hx. rewrite lookup_insert_eq in Hx. by injection Hx as <-. }
      assert (Ht0 : taken h B w).
      { destruct Ht as [(k & κ & Hκ & Hw)|Hw]; [|right; cbn in Hw; by rewrite <- (f_directs _ _ _ _ Hf)].
        apply HB' in Hw; [|by apply held_in_use]. left. exists k, κ. split; [done|]. by destruct Hw as [?|(? & _)]. }
      apply (i_client _ _ HI w x Ht0). rewrite <- Hhdr; [done|]. by apply taken_untouched; [apply HI|].
  - split; [|split; [|split; [|split; [|split]]]].
    + intros x k. rewrite HB' by by split. naive_solver.
    + intros k Hk. apply Hvt. right. exists k, Live. split; [done|by split].
    + destruct (directs h !! v) eqn:Hd; [|done]. exfalso. apply Hvt. by eapply directs_untouched; [apply HI|].
    + apply (f_directs _ _ _ _ Hf).
    + intros x [[k Hx]|[m Hx]]; apply Hhdr; [right; exists k, Live; split; [done|by split]|].
      by eapply directs_untouched; [apply HI|].
    + apply lookup_insert_eq.
Qed.

Lemma pop_split_ok h B o f a :
  inv h B → 6 ≤ o ≤ f → f ≤ 38 → nxt (links h) (Sent f) = Some (Blk a) → B !! a = Some (f, Free) →
  ∃ h' B', pop_split h o f = Some (h', Some a) ∧ inv h' B' ∧ granted h B h' B' a o ∧
    stats h' = count_alloc (stats h) o 0.
Proof.
  intros HI Ho Hf38 Hn Ha. apply nxt_Some in Hn as (n & Hn & Hnn).
  unfold pop_split. rewrite Hn. cbn [mbind option_bind]. rewrite Hnn.
  destruct (unlink_ok h (pools h) B a f (i_core _ _ HI) Ha) as (h1 & h2 & -> & Hh2 & HC & Hf & _).
  cbn [mbind option_bind]. rewrite Hh2. cbn [mbind option_bind].
  set (B1 := <[a := (f, Loose)]> B) in *.
  assert (Hu1 : same_used B B1) by (eapply same_used_insert; [done|auto..]).
  destruct (split_ok (pools h) a o order_fuel h2 B1 f HC) as (h3 & B3 & Hh3 & HC3 & Hf3 & Hu3 & Ha3 & Hol3 & Hco3).
  { apply lookup_insert_eq. }
  { intros x k [[<- _]|[_ Hx]]%lookup_insert_Some; [done|]. by apply (i_none _ _ HI) in Hx. }
  { lia. } { lia. } { rewrite order_fuel_Z. lia. }
  { apply (coalesced_sub B); [apply HI|]. by intros x k [[_ [=]]|[_ ?]]%lookup_insert_Some. }
  rewrite Hh3. cbn [mbind option_bind].
  assert (Hf' : frame (pools h) B h h3) by by eapply frame_trans.
  destruct (grant_ok h B h3 B3 a o (count_alloc (stats (new_header h3 a o)) o 0) HI HC3 Hf') as (B' & HI' & Hg);
    [by eapply same_used_trans|done..|].
  exists (with_stats (new_header h3 a o) (count_alloc (stats (new_header h3 a o)) o 0)), B'. split; [done|].
  split; [done|]. split; [done|]. cbn. by rewrite (f_stats _ _ _ _ Hf').
Qed.

Lemma alloc_block_ok h B o :
  inv h B → 6 ≤ o →
  ∃ h' r B', alloc_block h o = Some (h', r) ∧ inv h' B' ∧
    match r with None => kept h B h' B' ∧ refused h o | Some v => granted h B h' B' v o end.
Proof.
  intros HI Ho. unfold alloc_block.
  destruct (refill_ok h B o HI Ho) as (h1 & c & B1 & -> & HI1 & Hk & Hc). cbn [mbind option_bind].
  destruct c as [c|]; [|by exists h1, None, B1]. destruct Hc as [-> Hnz].
  destruct (scan_avail_ok h1 B1 o HI1 Ho Hnz) as (f & a & -> & Hof & Hn & Ha). cbn [mbind option_bind].
  destruct (pop_split_ok h1 B1 o f a HI1) as (h2 & B2 & -> & HI2 & Hg & _); [lia|lia|done|done|].
  exists h2, (Some a), B2. split; [done|]. split; [done|]. by eapply kept_granted.
Qed.
End laws.
