(* ===== verification/HeapOps.v ===== *)
(** * The heap's public operations

    Allocation through the slab cache, the free lists or a mapping of its own;
    release through the slab cache or coalescing; flushing the caches. *)

From S2P Require Import Prelude Heap HeapTiling HeapLists HeapProofs HeapInv.
Local Open Scope Z_scope.
#[local] Arguments zget : simpl never.
#[local] Arguments Z.pow : simpl never.
#[local] Arguments Z.shiftl : simpl never.
#[local] Opaque order_fuel scan_fuel.

(** ** Changes the invariant does not see *)
Lemma inv_ext h h' B :
  avail h' = avail h → slabs h' = slabs h → slab_cap h' = slab_cap h → links h' = links h →
  hdrs h' = hdrs h → pools h' = pools h → directs h' = directs h → 0 ≤ last_pool_idx h' →
  inv h B → inv h' B.
Proof.
  intros Ha Hs Hc Hl Hh Hp Hd Hlast HI. split; rewrite ?Hs, ?Hc, ?Hp; try apply HI; [|done| |].
  - apply (core_ext h); [done..|apply HI].
  - destruct (i_directs _ _ HI) as [H1 H2 H3 H4]. by split; rewrite ?Hd, ?Hp, ?Hh.
  - intros v x. unfold taken. rewrite Hd, Hh. apply (i_client _ _ HI).
Qed.

(** The owner of a block may rewrite its header, but for [order] and a zero
    [rc]. *)
Lemma inv_client h B v k κ x nd :
  inv h B → B !! v = Some (k, κ) → in_use κ → order x = k → rc x ≠ 0 → client_hdr x →
  inv (set_hdr (with_links h (<[Blk v := nd]> (links h))) v x) B.
Proof.
  intros HI Hv Hκ Hxo Hxr Hxc. set (h' := set_hdr _ v x).
  assert (Hn : ∀ j, B !! v ≠ Some (j, Free)) by (intros j Hj; simplify_eq; by apply in_use_Free in Hκ).
  assert (HC : core h' (pools h) B).
  { pose proof (core_set_link _ _ _ v nd (i_core _ _ HI) Hn) as HC. split; try apply HC.
    intros b j κ' Hb Hκ'. cbn. destruct (decide (b = v)) as [->|Hne].
    - simplify_eq. exists x. rewrite lookup_insert_eq. split; [done|]. split; [done|].
      split; [done|]. intros ->. by apply in_use_Free in Hκ.
    - rewrite lookup_insert_ne by done. by apply (c_hdr _ _ _ HC). }
  split; try apply HI; [done| |intros w y Ht Hy; cbn in Hy; apply lookup_insert_Some in Hy as [[<- <-]|[_ Hy]]; [done|by apply (i_client _ _ HI w)]].
  destruct (i_directs _ _ HI) as [H1 H2 H3 H4]. split; [done..|].
  intros w m Hw. destruct (H4 w m Hw) as (y & Hy & Ho). exists y. split; [|done].
  cbn. rewrite lookup_insert_ne; [done|]. intros <-.
  pose proof (directs_untouched h B v m (i_directs _ _ HI) Hw) as Hun.
  destruct (t_block _ _ (c_tiling _ _ _ (i_core _ _ HI)) _ _ _ Hv) as (Hk & _ & p & Hp & _ & Hlo & Hhi).
  destruct (d_pools h (i_directs _ _ HI) v m p Hw Hp); pose proof (d_shape h (i_directs _ _ HI) v m Hw);
    pose proof (pow2_pos k ltac:(lia)); unfold RAY_DIRECT_HDR in *; lia.
Qed.

Lemma inv_client_hdr h B v k κ x :
  inv h B → B !! v = Some (k, κ) → in_use κ → order x = k → rc x ≠ 0 → client_hdr x →
  inv (set_hdr h v x) B.
Proof.
  intros HI Hv Hκ Hxo Hxr Hxc.
  destruct (decide (is_Some (links h !! Blk v))) as [[nd Hnd]|Hno].
  - apply (inv_ext (set_hdr (with_links h (<[Blk v := nd]> (links h))) v x)); try done; [|apply HI|by eapply inv_client].
    cbn. by rewrite insert_id.
  - (* the links of [v] do not exist: the same argument without them *)
    assert (Hlk : with_links h (links h) = h) by by destruct h.
    assert (HC : core (set_hdr h v x) (pools h) B).
    { pose proof (i_core _ _ HI) as HC. split; try apply HC.
      intros b j κ' Hb Hκ'. cbn. destruct (decide (b = v)) as [->|Hne].
      - simplify_eq. exists x. rewrite lookup_insert_eq. split; [done|]. split; [done|].
        split; [done|]. intros ->. by apply in_use_Free in Hκ.
      - rewrite lookup_insert_ne by done. by apply (c_hdr _ _ _ HC). }
    pose proof (inv_client h B v k κ x (Node Null Null) HI Hv Hκ Hxo Hxr Hxc) as HI'.
    split; try apply HI; [done|by destruct (i_directs _ _ HI')|apply (i_client _ _ HI')].
Qed.

(** ** Changing the owner of one block *)
Lemma in_use_kinds κ : in_use κ ↔ held κ ∨ κ = Header.
Proof.
  unfold in_use, held. destruct κ; split; intros Hc; naive_solver.
Qed.

(** From the slab cache to the client and back: [κ] to [κ'], [slabs] following. *)
Lemma inv_rekind h B v k κ κ' sl :
  inv h B → B !! v = Some (k, κ) → held κ → held κ' → (κ' = Cached → 6 ≤ k ≤ 16) →
  zlen sl = RAY_SLAB_ORDERS →
  (∀ i st, 0 ≤ i → sl.[i] = Some st →
    NoDup st ∧ ∀ a, a ∈ st ↔ <[v := (k, κ')]> B !! a = Some (RAY_ORDER_MIN + i, Cached)) →
  inv (with_slabs h sl) (<[v := (k, κ')]> B).
Proof.
  intros HI Hv Hκ Hκ' Hc Hl Hsl.
  assert (Hh : κ ≠ Header ∧ κ' ≠ Header ∧ κ ≠ Free ∧ κ' ≠ Free ∧ κ ≠ Loose ∧ κ' ≠ Loose)
    by (destruct Hκ as [->| ->], Hκ' as [->| ->]; done).
  destruct Hh as (? & ? & ? & ? & ? & ?).
  assert (Hoth : ∀ b j κ2, κ2 ≠ κ → κ2 ≠ κ' → <[v := (k, κ')]> B !! b = Some (j, κ2) ↔ B !! b = Some (j, κ2)).
  { intros b j κ2 Hn1 Hn2. rewrite lookup_insert_Some. split; [naive_solver|].
    intros Hb. right. split; [intros <-; congruence|done]. }
  pose proof (i_core _ _ HI) as HC.
  split; try apply HI; cbn.
  - split.
    + eapply tiling_kind; [apply HC|done].
    + intros b j κ2 Hb ->. apply Hoth in Hb; [|congruence..]. by eapply (c_small _ _ _ HC).
    + intros b j κ2 Hb Hκ2. apply lookup_insert_Some in Hb as [[<- [= <- <-]]|[_ Hb]]; [|by apply (c_hdr _ _ _ HC)].
      destruct (c_hdr _ _ _ HC v k κ Hv) as (x & Hx & Hxo & Hxr); [done|]. exists x. split; [done|].
      split; [done|]. tauto.
    + intros o Ho. destruct (c_list _ _ _ HC o Ho) as (l & Hl' & Hnd & Hin). exists l. split; [done|].
      split; [done|]. intros b. rewrite Hin, Hoth by congruence. done.
    + intros o Ho. rewrite (c_avail _ _ _ HC o Ho). split; intros [b Hb]; exists b; by apply Hoth.
  - intros p Hp. apply Hoth; [congruence..|]. by apply HI.
  - intros a j Ha. apply Hoth in Ha; [|congruence..]. by apply (i_headers _ _ HI a j).
  - apply (coalesced_sub B); [apply HI|]. intros x j Hx. by apply Hoth in Hx; [|congruence..].
  - intros a j Ha. apply Hoth in Ha; [|congruence..]. by apply (i_none _ _ HI) in Ha.
  - split; [done|apply HI].
  - done.
  - intros a j [[<- [= <- Hj]]|[_ Ha]]%lookup_insert_Some; [by apply Hc|by apply (i_cached _ _ HI a)].
  - by destruct (i_directs _ _ HI).
  - intros w x Ht. apply (i_client _ _ HI). destruct Ht as [(j & κ2 & Hκ2 & Hw)|Hw]; [|by right].
    left. apply lookup_insert_Some in Hw as [[<- _]|[_ Hw]]; [by exists k, κ|by exists j, κ2].
Qed.

Section laws.
Context `{OsLaws}.

Lemma direct_not_block h B v k κ : inv h B → B !! v = Some (k, κ) → directs h !! v = None.
Proof.
  intros HI Hv. destruct (directs h !! v) as [m|] eqn:Hd; [|done]. exfalso.
  destruct (t_block _ _ (c_tiling _ _ _ (i_core _ _ HI)) _ _ _ Hv) as (Hk & _ & p & Hp & _ & Hlo & Hhi).
  destruct (d_pools h (i_directs _ _ HI) v m p Hd Hp); pose proof (d_shape h (i_directs _ _ HI) v m Hd);
    pose proof (pow2_pos k ltac:(lia)); unfold RAY_DIRECT_HDR in *; lia.
Qed.

(** ** Allocation from the heap *)
Lemma slab_pop_ok h B i v stack :
  inv h B → 0 ≤ i → (slabs h).[i] = Some (v :: stack) →
  ∃ sl, zset (slabs h) i stack = Some sl ∧ B !! v = Some (RAY_ORDER_MIN + i, Cached) ∧
    inv (with_slabs h sl) (<[v := (RAY_ORDER_MIN + i, Live)]> B).
Proof.
  intros HI Hi Hst. destruct (zset_total (slabs h) i stack) as [sl Hsl]; [by eapply zget_Some|].
  destruct (i_slab _ _ HI i _ Hi Hst) as [Hnd Hin].
  assert (Hv : B !! v = Some (RAY_ORDER_MIN + i, Cached)) by (apply Hin; by left).
  apply NoDup_cons in Hnd as [Hvs Hnd].
  exists sl. split; [done|]. split; [done|].
  apply (inv_rekind h B v _ Cached Live); [done|done|by right|by left|done| |].
  { rewrite (zlen_zset _ _ _ _ Hsl). apply HI. }
  intros j st Hj Hstj. destruct (decide (i = j)) as [<-|Hne].
  - rewrite (zget_zset_eq _ _ _ _ Hsl) in Hstj. injection Hstj as <-. split; [done|].
    intros a. rewrite lookup_insert_Some, <- Hin, elem_of_cons. split; [|naive_solver].
    intros Ha. right. split; [by intros ->|by right].
  - rewrite (zget_zset_ne _ _ _ _ _ Hsl Hne) in Hstj. destruct (i_slab _ _ HI j st Hj Hstj) as [Hnd' Hin'].
    split; [done|]. intros a. rewrite lookup_insert_Some, <- Hin'. split; [|naive_solver].
    intros Ha. right. split; [|done]. intros <-. apply Hin' in Ha. simplify_eq. lia.
Qed.

Lemma alloc_small_ok h B o :
  inv h B → 6 ≤ o →
  ∃ h' r B', alloc_small h o = Some (h', r) ∧ inv h' B' ∧
    match r with None => kept h B h' B' ∧ refused h o | Some v => granted h B h' B' v o end.
Proof.
  intros HI Ho. unfold alloc_small.
  destruct (IS_SLAB_ORDER o) eqn:Hs; [|by apply alloc_block_ok].
  apply andb_true_iff in Hs as [H6%Z.leb_le H16%Z.leb_le].
  pose proof (proj1 (i_slab_len _ _ HI)) as Hlen.
  destruct (zget_is_Some (slabs h) (o - RAY_ORDER_MIN)) as [st Hst]; [unfold RAY_ORDER_MIN, RAY_SLAB_ORDERS in *; lia|].
  rewrite Hst. cbn [mbind option_bind].
  destruct st as [|v stack]; [by apply alloc_block_ok|].
  destruct (slab_pop_ok h B (o - RAY_ORDER_MIN) v stack HI ltac:(lia) Hst) as (sl & -> & Hv & HI').
  replace (RAY_ORDER_MIN + (o - RAY_ORDER_MIN)) with o in * by lia.
  cbn [mbind option_bind]. set (B' := <[v := (o, Live)]> B) in *. set (h1 := with_slabs h sl) in *.
  set (h2 := new_header h1 v o).
  exists (with_stats h2 (count_alloc (stats h2) o 1)), (Some v), B'. split; [done|].
  assert (HvB : B' !! v = Some (o, Live)) by apply lookup_insert_eq.
  split.
  - apply (inv_ext h2); try done; [apply HI'|].
    apply (inv_client h1 B' v o Live (Hdr 0 o 0 1) (Node Null Null)); [done|done|by split|done|done|done].
  - split; [|split; [|split; [|split; [|split]]]].
    + intros x k. unfold B'. rewrite lookup_insert_Some. split.
      * intros [[<- [= <-]]|[_ ?]]; auto.
      * intros [Hx|[-> ->]]; [right; split; [intros <-; congruence|done]|by left].
    + intros k Hk. congruence.
    + by eapply direct_not_block.
    + done.
    + intros x [[k Hx]|[m Hx]]; cbn; rewrite lookup_insert_ne; try done; intros <-; [congruence|].
      pose proof (direct_not_block h B v o Cached HI Hv). congruence.
    + apply lookup_insert_eq.
Qed.

(** ** A mapping of its own *)
Lemma ldiff_page n : 0 ≤ n → (4096 | Z.ldiff n 4095) ∧ n - 4095 ≤ Z.ldiff n 4095 ≤ n.
Proof.
  intros Hn. change 4095 with (Z.ones 12). rewrite Z.ldiff_ones_r, Z.shiftl_mul_pow2, Z.shiftr_div_pow2 by lia.
  change (2 ^ 12) with 4096. pose proof (Z.div_mod n 4096 ltac:(lia)). pose proof (Z.mod_pos_bound n 4096 ltac:(lia)).
  change (Z.ones 12) with 4095. split; [eexists; reflexivity|lia].
Qed.

Lemma alloc_direct_ok h B n :
  inv h B → 0 ≤ n →
  ∃ h' r, heap_alloc_direct h n = (h', r) ∧ inv h' B ∧
    match r with
    | None => h' = h
    | Some v => ∃ m, n + 64 ≤ m ∧ directs h !! v = None ∧ (∀ k κ, B !! v ≠ Some (k, κ)) ∧
        directs h' = <[v := m]> (directs h) ∧ m < 2 ^ 64 ∧
        (∀ x, x ≠ v → hdrs h' !! x = hdrs h !! x) ∧ hdrs h' !! v = Some (Hdr 0 RAY_ORDER_DIRECT 0 1)
    end.
Proof.
  intros HI Hn. unfold heap_alloc_direct.
  destruct (Z.ltb_spec (SIZE_MAX - RAY_DIRECT_HDR - 32 - 4095) n) as [|Hmax]; [by exists h, None|].
  set (size := Z.ldiff (RAY_DIRECT_HDR + 32 + n + 4095) 4095).
  assert (Hs : (4096 | size) ∧ n + 64 ≤ size ≤ n + 64 + 4095).
  { destruct (ldiff_page (RAY_DIRECT_HDR + 32 + n + 4095)) as [Hd Hr]; [unfold RAY_DIRECT_HDR; lia|].
    split; [done|]. unfold size, RAY_DIRECT_HDR in *. lia. }
  destruct (vm_alloc (pools h) (directs h) size) as [base|] eqn:Hvm; [|by exists h, None].
  destruct (os_map _ _ _ _ Hvm) as (Hb0 & Hbal & Hcp & Hcd).
  set (v := base + RAY_DIRECT_HDR).
  assert (Hvb : v - RAY_DIRECT_HDR = base) by (unfold v; lia).
  assert (Hvn : directs h !! v = None).
  { destruct (directs h !! v) as [m|] eqn:Hd; [|done]. pose proof (d_shape _ (i_directs _ _ HI) _ _ Hd).
    specialize (Hcd _ _ Hd). lia. }
  assert (HvB : ∀ k κ, B !! v ≠ Some (k, κ)).
  { intros k κ Hk. destruct (t_block _ _ (c_tiling _ _ _ (i_core _ _ HI)) _ _ _ Hk) as (H6 & _ & p & Hp & _ & Hlo & Hhi).
    pose proof (pow2_pos k ltac:(lia)). destruct (Hcp p Hp); unfold v, RAY_DIRECT_HDR in *; lia. }
  eexists _, (Some v). split; [reflexivity|]. split.
  2: { exists size. split; [lia|]. split; [done|]. split; [done|]. split; [done|].
    split; [unfold SIZE_MAX, RAY_DIRECT_HDR in Hmax; lia|]. split; [|apply lookup_insert_eq].
    intros x Hx. cbn. by rewrite lookup_insert_ne. }
  assert (HC : core (set_hdr (with_links h (<[Blk v := Node Null Null]> (links h))) v (Hdr 0 RAY_ORDER_DIRECT 0 1)) (pools h) B).
  { apply core_set_hdr; [|intros k κ Hk; by apply HvB in Hk]. apply core_set_link; [apply HI|]. intros k Hk. by apply HvB in Hk. }
  split; try apply HI; [eapply core_ext; [..|exact HC]; done| |].
  2: { intros w x Ht Hx. cbn in Hx. apply lookup_insert_Some in Hx as [[<- <-]|[Hne Hx]]; [done|]. apply (i_client _ _ HI w x); [|done].
    destruct Ht as [?|Ht]; [by left|]. right. cbn in Ht. by rewrite lookup_insert_ne in Ht. }
  destruct (i_directs _ _ HI) as [H1 H2 H3 H4]. split; cbn.
  - intros w m [[<- <-]|[_ Hw]]%lookup_insert_Some; [|by eapply H1]. rewrite Hvb. split; [lia|split; [lia|done]].
  - intros w m p [[<- <-]|[_ Hw]]%lookup_insert_Some Hp; [|by eapply H2]. rewrite Hvb. by apply Hcp.
  - intros w1 w2 m1 m2 [[<- <-]|[Hn1 Hw1]]%lookup_insert_Some [[<- <-]|[Hn2 Hw2]]%lookup_insert_Some Hne; [done| | |by eapply H3].
    + destruct (Hcd _ _ Hw2); unfold v, RAY_DIRECT_HDR in *; lia.
    + destruct (Hcd _ _ Hw1); unfold v, RAY_DIRECT_HDR in *; lia.
  - intros w m [[<- <-]|[Hne Hw]]%lookup_insert_Some.
    + exists (Hdr 0 RAY_ORDER_DIRECT 0 1). by rewrite lookup_insert_eq.
    + rewrite lookup_insert_ne by done. by eapply H4.
Qed.
End laws.

(** ** Sizes *)
Lemma ceil_log2_spec n : 1 < n < 2 ^ 64 → 2 ^ (ceil_log2 n - 1) < n ≤ 2 ^ ceil_log2 n ∧ 1 ≤ ceil_log2 n ≤ 64.
Proof.
  intros Hn. unfold ceil_log2, clzll. destruct (Z.leb_spec n 1); [lia|].
  destruct (Z.log2_spec (n - 1)) as [Hlo Hhi]; [lia|].
  pose proof (Z.log2_nonneg (n - 1)).
  assert (Z.log2 (n - 1) < 64) by (apply Z.log2_lt_pow2; lia).
  replace (64 - (63 - Z.log2 (n - 1)) - 1) with (Z.log2 (n - 1)) by lia.
  replace (64 - (63 - Z.log2 (n - 1))) with (Z.succ (Z.log2 (n - 1))) by lia. lia.
Qed.

Lemma order_for_size_spec n : 0 ≤ n < 2 ^ 64 →
  let o := ray_order_for_size n in
  6 ≤ o ∧ (o ≤ RAY_HEAP_MAX_ORDER → n + 32 ≤ 2 ^ o) ∧
  (6 < o ≤ RAY_HEAP_MAX_ORDER → 2 ^ (o - 1) < n + 32).
Proof.
  intros Hn o. unfold o, ray_order_for_size, RAY_HEAP_MAX_ORDER, RAY_ORDER_MIN.
  destruct (Z.ltb_spec (SIZE_MAX - 32) n) as [|Hs]; [lia|].
  unfold SIZE_MAX in Hs. destruct (ceil_log2_spec (n + 32)) as [[Hlo Hhi] Hr]; [lia|].
  destruct (Z.ltb_spec (ceil_log2 (n + 32)) 6).
  - split; [lia|]. split; [|lia]. intros _. etrans; [exact Hhi|]. apply Z.pow_le_mono_r; lia.
  - split; [lia|]. split; [done|]. intros _. done.
Qed.

(** ** Release *)
Definition inside (p : pool_entry) (v : Z) : Prop :=
  pool_base p ≤ v < pool_base p + BSIZEOF (pool_order p).

Lemma find_pool_from_spec ps v : ∀ i,
  (∃ p, p ∈ ps ∧ inside p v) →
  ∃ (j : nat) p, find_pool_from ps v i = i + Z.of_nat j ∧ ps !! j = Some p ∧ inside p v.
Proof.
  induction ps as [|p ps IH]; intros i (q & Hq & Hin); [by apply elem_of_nil in Hq|].
  cbn [find_pool_from].
  destruct (Z.leb_spec (pool_base p) v), (Z.ltb_spec v (pool_base p + BSIZEOF (pool_order p))); cbn [andb].
  1: { exists O, p. split; [lia|done]. }
  all: assert (Hqp : q ∈ ps) by (apply elem_of_cons in Hq as [->|]; [unfold inside in Hin; lia|done]);
    destruct (IH (i + 1)) as (j & r & -> & Hr & Hri); [by exists q|]; exists (S j), r; split; [lia|done].
Qed.

Section release.

Lemma block_pool_inside h B v k κ :
  inv h B → B !! v = Some (k, κ) → ∃ p, p ∈ pools h ∧ inside p v.
Proof.
  intros HI Hv. destruct (t_block _ _ (c_tiling _ _ _ (i_core _ _ HI)) _ _ _ Hv) as (Hk & _ & p & Hp & _ & Hlo & Hhi).
  exists p. split; [done|]. unfold inside. destruct (p_shape _ (i_pools _ _ HI) _ Hp) as (Ho & _).
  rewrite BSIZEOF_pow by lia. pose proof (pow2_pos k ltac:(lia)). lia.
Qed.

Lemma owner_pool_ok h B v k κ :
  inv h B → B !! v = Some (k, κ) →
  ∃ i p, owner_pool h v = Some i ∧ 0 ≤ i ∧ (pools h).[i] = Some p ∧ inside p v.
Proof.
  intros HI Hv. pose proof (block_pool_inside _ _ _ _ _ HI Hv) as Hex.
  destruct (find_pool_from_spec (pools h) v 0 Hex) as (j & q & Hj & Hq & Hqi).
  unfold owner_pool, heap_find_pool. rewrite Hj, Z.add_0_l.
  assert (Hscan : ∃ i p, Some (Z.of_nat j) = Some i ∧ 0 ≤ i ∧ (pools h).[i] = Some p ∧ inside p v).
  { exists (Z.of_nat j), q. split; [done|]. split; [lia|]. by rewrite zget_lookup. }
  pose proof (i_last _ _ HI) as Hlast.
  destruct (Z.ltb_spec (last_pool_idx h) (zlen (pools h))) as [Hlt|]; [|exact Hscan].
  destruct (zget_is_Some (pools h) (last_pool_idx h)) as [p Hp]; [lia|].
  rewrite Hp. cbn [mbind option_bind].
  destruct (Z.leb_spec (pool_base p) v), (Z.ltb_spec v (pool_base p + BSIZEOF (pool_order p))); cbn [andb]; try exact Hscan.
  exists (last_pool_idx h), p. done.
Qed.

(** What a release changes: one block is no longer handed out. *)
Definition released (h : heap) (B : ghost) (h' : heap) (B' : ghost) (v : Z) : Prop :=
  (∀ x k, B' !! x = Some (k, Live) ↔ B !! x = Some (k, Live) ∧ x ≠ v) ∧
  directs h' = directs h ∧ pools h' = pools h ∧
  (∀ x, (∃ k, B !! x = Some (k, Live)) ∨ is_Some (directs h !! x) → x ≠ v → hdrs h' !! x = hdrs h !! x).

(** Coalescing a block handed out. *)
Lemma coalesce_live_ok h B v k i p :
  inv h B → B !! v = Some (k, Live) → (pools h).[i] = Some p → inside p v →
  ∃ h' B', heap_coalesce h v (pool_base p) (pool_order p) = Some h' ∧ inv h' B' ∧ released h B h' B' v ∧
    slabs h' = slabs h ∧ stats h' = stats h.
Proof.
  intros HI Hv Hp Hin. apply zget_elem in Hp. pose proof (i_core _ _ HI) as HC.
  destruct (p_shape _ (i_pools _ _ HI) _ Hp) as (Hpo & _). unfold inside in Hin. rewrite BSIZEOF_pow in Hin by lia.
  set (P := pools h) in *. set (B1 := <[v := (k, Loose)]> B).
  destruct (c_hdr _ _ _ HC v k Live Hv) as (x & Hx & Hxo & _); [done|].
  assert (HC1 : core h P B1) by by eapply core_unclaim.
  assert (Hoth : ∀ b j κ, κ ≠ Loose → B1 !! b = Some (j, κ) ↔ B !! b = Some (j, κ) ∧ b ≠ v).
  { intros b j κ Hκ. unfold B1. rewrite lookup_insert_Some. naive_solver. }
  destruct (heap_coalesce_ok h P B1 v k p x HC1) as (h' & B' & Hh' & HC' & Hf & Hu & Hco & Hno); try done.
  - apply HI.
  - intros q Hq. apply Hoth; [done|]. split; [by apply HI|]. intros Heq.
    pose proof (i_headed _ _ HI q Hq) as Hh. rewrite Heq, Hv in Hh. done.
  - apply lookup_insert_eq.
  - intros y j [[<- _]|[_ Hy]]%lookup_insert_Some; [done|]. by apply (i_none _ _ HI) in Hy.
  - apply (coalesced_sub B); [apply HI|]. intros y j Hy. by apply Hoth in Hy as [? _].
  - assert (HB' : ∀ b j κ, in_use κ → B' !! b = Some (j, κ) ↔ B !! b = Some (j, κ) ∧ b ≠ v).
    { intros b j κ Hκ. rewrite <- (Hu b j κ Hκ). apply Hoth. by destruct Hκ. }
    assert (Hun : ∀ b, b ≠ v → untouched P B b → untouched P B1 b).
    { intros b Hb [?|(j & κ & Hb2 & Hκ)]; [by left|right]. exists j, κ. split; [|done].
      apply Hoth; [by destruct Hκ|done]. }
    exists h', B'. split; [done|]. split; [|split; [|split; [apply (f_slabs _ _ _ _ Hf)|apply (f_stats _ _ _ _ Hf)]]].
    + split; rewrite ?(f_slabs _ _ _ _ Hf), ?(f_cap _ _ _ _ Hf), ?(f_pools _ _ _ _ Hf), ?(f_last _ _ _ _ Hf); try done; try apply HI.
      * intros q Hq. apply HB'; [by split|]. split; [by apply HI|]. intros Heq.
        pose proof (i_headed _ _ HI q Hq) as Hh. rewrite Heq, Hv in Hh. done.
      * intros a j [Ha _]%HB'; [|by split]. by apply (i_headers _ _ HI a j).
      * intros j st Hj Hst. destruct (i_slab _ _ HI j st Hj Hst) as [Hnd Hin']. split; [done|].
        intros a. rewrite HB' by by split. rewrite Hin'. split; [|by intros [? _]]. intros Ha. split; [done|].
        intros ->. congruence.
      * intros a j [Ha _]%HB'; [|by split]. by apply (i_cached _ _ HI a).
      * destruct (i_directs _ _ HI) as [H1 H2 H3 H4].
        split; rewrite ?(f_directs _ _ _ _ Hf), ?(f_pools _ _ _ _ Hf); [done..|].
        intros w m Hw. destruct (H4 w m Hw) as (y & Hy & ?). exists y. split; [|done].
        rewrite (f_hdrs _ _ _ _ Hf); [done|]. apply Hun.
        { intros ->. pose proof (direct_not_block h B v k Live HI Hv). congruence. }
        by eapply directs_untouched; [apply HI|].
      * intros w y Ht Hy.
        assert (taken h B w ∧ w ≠ v) as [Ht0 Hwv].
        { destruct Ht as [(j & κ & Hκ & Hw)|Hw].
          - apply HB' in Hw as [Hw ?]; [|by apply held_in_use]. split; [left; by exists j, κ|done].
          - rewrite (f_directs _ _ _ _ Hf) in Hw. split; [by right|]. intros ->.
            rewrite (direct_not_block h B v k Live HI Hv) in Hw. by destruct Hw. }
        apply (i_client _ _ HI w y Ht0). rewrite <- (f_hdrs _ _ _ _ Hf); [done|].
        apply Hun; [done|]. by apply taken_untouched; [apply HI|].
    + split; [|split; [|split]].
      * intros b j. by apply HB'.
      * apply (f_directs _ _ _ _ Hf).
      * apply (f_pools _ _ _ _ Hf).
      * intros b Hb Hne. apply (f_hdrs _ _ _ _ Hf), Hun; [done|].
        destruct Hb as [[j Hb]|[m Hb]]; [right; exists j, Live; split; [done|by split]|].
        by eapply directs_untouched; [apply HI|].
Qed.

Lemma slab_push_ok h B v k i st :
  inv h B → B !! v = Some (k, Live) → k = RAY_ORDER_MIN + i → 0 ≤ i < RAY_SLAB_ORDERS → (slabs h).[i] = Some st →
  ∃ sl, zset (slabs h) i (v :: st) = Some sl ∧ inv (with_slabs h sl) (<[v := (k, Cached)]> B).
Proof.
  intros HI Hv Hk Hi Hst. destruct (zset_total (slabs h) i (v :: st)) as [sl Hsl]; [by eapply zget_Some|].
  exists sl. split; [done|]. destruct (i_slab _ _ HI i st ltac:(lia) Hst) as [Hnd Hin].
  apply (inv_rekind h B v _ Live Cached); [done|done|by left|by right| | |].
  - unfold RAY_ORDER_MIN, RAY_SLAB_ORDERS in *. lia.
  - rewrite (zlen_zset _ _ _ _ Hsl). apply HI.
  - intros j st' Hj Hstj. destruct (decide (i = j)) as [<-|Hne].
    + rewrite (zget_zset_eq _ _ _ _ Hsl) in Hstj. injection Hstj as <-. split.
      { constructor; [|done]. rewrite Hin. congruence. }
      intros a. rewrite elem_of_cons, Hin, lookup_insert_Some. split.
      * intros [->|Ha]; [left; split; [done|by rewrite Hk]|]. right. split; [intros <-; congruence|done].
      * intros [[<- _]|[_ ?]]; auto.
    + rewrite (zget_zset_ne _ _ _ _ _ Hsl Hne) in Hstj. destruct (i_slab _ _ HI j st' Hj Hstj) as [Hnd' Hin'].
      split; [done|]. intros a. rewrite lookup_insert_Some, <- Hin'. split.
      * intros Ha. right. split; [|done]. intros <-. apply Hin' in Ha. congruence.
      * intros [[<- [= Hkj]]|[_ ?]]; [lia|done].
Qed.

Lemma released_trans h0 h B h' B' v :
  released h B h' B' v → directs h = directs h0 → pools h = pools h0 →
  (∀ x, x ≠ v → hdrs h !! x = hdrs h0 !! x) → released h0 B h' B' v.
Proof.
  intros (Hl & Hd & Hp & Hh) Hd0 Hp0 Hh0. split; [done|]. split; [by rewrite Hd|]. split; [by rewrite Hp|].
  intros x Hx Hne. rewrite Hh, Hh0; try done. by rewrite Hd0.
Qed.

Lemma free_live_ok h B v k :
  inv h B → B !! v = Some (k, Live) →
  ∃ h' B', free_block h v = Some h' ∧ inv h' B' ∧ released h B h' B' v.
Proof.
  intros HI Hv. pose proof (i_core _ _ HI) as HC.
  destruct (c_hdr _ _ _ HC v k Live Hv) as (x & Hx & Hxo & _); [done|].
  destruct (t_block _ _ (c_tiling _ _ _ HC) _ _ _ Hv) as (Hk6 & _ & q & Hq & Hkq & _).
  destruct (p_shape _ (i_pools _ _ HI) _ Hq) as (Hqo & _).
  assert (Hxc : client_hdr x).
  { apply (i_client _ _ HI v x); [left; exists k, Live; split; [by left|done]|done]. }
  destruct Hxc as [Hx0 Hxa].
  unfold free_block. rewrite Hx. cbn [mbind option_bind order mmod]. rewrite Hxa, Hx0, Hxo. cbn [Z.eqb negb].
  unfold RAY_HEAP_MAX_ORDER, RAY_ORDER_MIN.
  destruct (Z.ltb_spec 38 k); [lia|]. destruct (Z.ltb_spec k 6); [lia|]. cbn [orb].
  set (x1 := Hdr 0 k (attrs x) 1). set (h1 := set_hdr h v x1).
  assert (HI1 : inv h1 B) by (eapply inv_client_hdr; [done|done|by split|done|done|done]).
  assert (Hh1 : ∀ y, y ≠ v → hdrs h1 !! y = hdrs h !! y) by (intros y Hy; cbn; by rewrite lookup_insert_ne).
  destruct (owner_pool_ok h1 B v k Live HI1 Hv) as (i & p & -> & Hi & Hp & Hin). cbn [mbind option_bind].
  destruct (Z.leb_spec 0 i); [|lia]. unfold free_local.
  set (h2 := with_last_pool h1 i).
  assert (HI2 : inv h2 B) by (by apply (inv_ext h1)).
  change (pools h2) with (pools h1). rewrite Hp. cbn [mbind option_bind].
  destruct (coalesce_live_ok h2 B v k i p HI2 Hv Hp Hin) as (h3 & B3 & Hh3 & HI3 & Hr3 & _).
  rewrite Hh3. cbn [mbind option_bind].
  assert (Hcoal : ∃ h' B', Some (with_stats h3 (count_free (stats h3) (BSIZEOF k))) = Some h' ∧ inv h' B' ∧ released h B h' B' v).
  { eexists _, B3. split; [reflexivity|]. split; [apply (inv_ext h3); try done; apply HI3|].
    by apply (released_trans h h2). }
  destruct (IS_SLAB_ORDER k) eqn:Hs; [|exact Hcoal].
  apply andb_true_iff in Hs as [_ H16%Z.leb_le]. unfold RAY_ORDER_MIN, RAY_SLAB_ORDERS in H16.
  destruct (i_slab_len _ _ HI2) as [Hl1 Hl2]. unfold RAY_SLAB_ORDERS in Hl1, Hl2.
  destruct (zget_is_Some (slabs h2) (k - 6)) as [st Hst]; [lia|].
  destruct (zget_is_Some (slab_cap h2) (k - 6)) as [cap Hcap]; [lia|].
  change (k - RAY_ORDER_MIN) with (k - 6). rewrite Hst. cbn [mbind option_bind]. rewrite Hcap. cbn [mbind option_bind].
  destruct (Z.ltb_spec (zlen st) cap); [|exact Hcoal]. clear Hcoal Hh3 HI3 Hr3.
  assert (Hx2 : hdrs h2 !! v = Some x1) by (cbn; apply lookup_insert_eq).
  rewrite Hx2. cbn [mbind option_bind].
  destruct (slab_push_ok h2 B v k (k - 6) st HI2 Hv) as (sl & -> & HI4); [unfold RAY_ORDER_MIN; lia|unfold RAY_SLAB_ORDERS; lia|done|].
  cbn [mbind option_bind]. set (B4 := <[v := (k, Cached)]> B) in *.
  eexists _, B4. split; [reflexivity|]. split.
  - eapply (inv_ext (set_hdr (with_slabs h2 sl) v x1)); try done.
    eapply inv_client_hdr; [done|apply lookup_insert_eq|by split|done|done|done].
  - split; [|split; [done|split; [done|]]].
    + intros y j. unfold B4. rewrite lookup_insert_Some. split; [naive_solver|]. intros [Hy Hne]. by right.
    + intros y _ Hne. cbn. by rewrite !lookup_insert_ne.
Qed.

Lemma free_direct_ok h B v m :
  inv h B → directs h !! v = Some m →
  ∃ h', free_block h v = Some h' ∧ inv h' B ∧ directs h' = delete v (directs h) ∧ pools h' = pools h ∧
    (∀ x, x ≠ v → hdrs h' !! x = hdrs h !! x).
Proof.
  intros HI Hv. destruct (d_hdr _ (i_directs _ _ HI) v m Hv) as (x & Hx & Hxo).
  assert (HvB : ∀ k κ, B !! v ≠ Some (k, κ)).
  { intros k κ Hk. pose proof (direct_not_block h B v k κ HI Hk). congruence. }
  destruct (i_client _ _ HI v x) as [Hx0 Hxa]; [by right|done|].
  unfold free_block. rewrite Hx. cbn [mbind option_bind order mmod]. rewrite Hxa, Hx0, Hxo. cbn [Z.eqb negb].
  change (RAY_HEAP_MAX_ORDER <? RAY_ORDER_DIRECT) with true. cbn [directs set_hdr with_hdrs]. rewrite Hv. cbn [mbind option_bind].
  eexists. split; [reflexivity|]. split; [|split; [done|split; [done|intros y Hy; cbn; by rewrite lookup_insert_ne]]].
  set (x1 := Hdr _ _ _ _).
  assert (HC : core (set_hdr h v x1) (pools h) B).
  { apply core_set_hdr; [apply HI|]. intros k κ Hk. by apply HvB in Hk. }
  split; try apply HI; [eapply core_ext; [..|exact HC]; done| |].
  2: { intros w y Ht Hy. cbn in Hy. apply lookup_insert_Some in Hy as [[<- <-]|[Hne Hy]]; [done|].
    apply (i_client _ _ HI w y); [|done]. destruct Ht as [?|Ht]; [by left|]. right. cbn in Ht. by rewrite lookup_delete_ne in Ht. }
  destruct (i_directs _ _ HI) as [H1 H2 H3 H4]. split; cbn.
  - intros w n [_ Hw]%lookup_delete_Some. by eapply H1.
  - intros w n p [_ Hw]%lookup_delete_Some. by eapply H2.
  - intros w1 w2 m1 m2 [_ Hw1]%lookup_delete_Some [_ Hw2]%lookup_delete_Some. by eapply H3.
  - intros w n [Hne Hw]%lookup_delete_Some. rewrite lookup_insert_ne by done. by eapply H4.
Qed.

(** ** Flushing the caches *)
Lemma flush_stack_ok st : ∀ h B,
  inv h B → NoDup st → (∀ a, a ∈ st → ∃ k, B !! a = Some (k, Live)) →
  ∃ h' B', flush_stack h st = Some h' ∧ inv h' B' ∧
    (∀ x k, B' !! x = Some (k, Live) ↔ B !! x = Some (k, Live) ∧ x ∉ st) ∧
    directs h' = directs h ∧ pools h' = pools h ∧ slabs h' = slabs h.
Proof.
  induction st as [|a st IH]; intros h B HI Hnd Hl; cbn [flush_stack].
  - exists h, B. split; [done|]. split; [done|]. split; [|done]. intros x k. set_solver.
  - apply NoDup_cons in Hnd as [Ha Hnd]. destruct (Hl a) as [k Hk]; [by left|].
    destruct (find_pool_from_spec (pools h) a 0 (block_pool_inside _ _ _ _ _ HI Hk)) as (j & p & Hj & Hp & Hin).
    unfold heap_find_pool. rewrite Hj. destruct (Z.leb_spec 0 (0 + Z.of_nat j)); [|lia].
    rewrite <- zget_lookup in Hp. rewrite Z.add_0_l, Hp. cbn [mbind option_bind].
    destruct (coalesce_live_ok h B a k (Z.of_nat j) p HI Hk Hp Hin) as (h1 & B1 & -> & HI1 & (Hl1 & Hd1 & Hp1 & _) & Hs1 & _).
    cbn [mbind option_bind].
    destruct (IH h1 B1 HI1 Hnd) as (h2 & B2 & -> & HI2 & Hl2 & Hd2 & Hp2 & Hs2).
    { intros b Hb. destruct (Hl b) as [i Hi]; [by right|]. exists i. apply Hl1. split; [done|]. by intros ->. }
    exists h2, B2. split; [done|]. split; [done|]. split; [|split; [by rewrite Hd2|split; [by rewrite Hp2|by rewrite Hs2]]].
    intros x i. rewrite Hl2, Hl1, not_elem_of_cons. tauto.
Qed.

(** Turning the cached blocks of one order over to the flush. *)
Lemma uncache_ok h B i : ∀ st2 st1,
  inv h B → 0 ≤ i → (slabs h).[i] = Some (st1 ++ st2) →
  ∃ sl B', zset (slabs h) i st2 = Some sl ∧ inv (with_slabs h sl) B' ∧
    (∀ x k, B' !! x = Some (k, Live) ↔ B !! x = Some (k, Live) ∨ x ∈ st1 ∧ k = RAY_ORDER_MIN + i) ∧
    (∀ x, x ∈ st1 → ∀ k, B !! x ≠ Some (k, Live)).
Proof.
  intros st2 st1. revert h B. induction st1 as [|v st1 IH]; intros h B HI Hi Hst.
  - destruct (zset_total (slabs h) i st2) as [sl Hsl]; [by eapply zget_Some|].
    exists sl, B. split; [done|]. assert (sl = slabs h) as ->.
    { apply zset_inv in Hsl as [Hr ->]. apply list_insert_id. by rewrite zget_nat in Hst by lia. }
    split; [apply (inv_ext h); try done; apply HI|]. split; [|by intros x Hx%elem_of_nil].
    intros x k. split; [by left|]. intros [?|[Hx _]]; [done|by apply elem_of_nil in Hx].
  - destruct (slab_pop_ok h B i v (st1 ++ st2) HI Hi Hst) as (sl1 & Hsl1 & Hv & HI1).
    destruct (IH (with_slabs h sl1) _ HI1 Hi) as (sl2 & B2 & Hsl2 & HI2 & Hl2 & Hn2); [by eapply zget_zset_eq|].
    exists sl2, B2. cbn in Hsl2. split.
    { apply zset_inv in Hsl1 as [Hr ->], Hsl2 as [Hr2 ->]. rewrite list_insert_insert_eq. by apply zset_Some. }
    split; [done|]. split.
    + intros x k. rewrite Hl2, lookup_insert_Some, elem_of_cons. split.
      * intros [[[<- [= <-]]|[_ ?]]|[? ?]]; auto.
      * intros [Hx|[[->|?] ->]]; [left; right; split; [intros <-; congruence|done]|left; by left|right; done].
    + intros x [->|Hx]%elem_of_cons k Hk; [congruence|]. apply (Hn2 x Hx k).
      rewrite lookup_insert_ne; [done|]. intros <-. congruence.
Qed.

Lemma flush_slab_ok h B i :
  inv h B → 0 ≤ i < RAY_SLAB_ORDERS →
  ∃ h' B', flush_slab i h = Some h' ∧ inv h' B' ∧
    (∀ x k, B' !! x = Some (k, Live) ↔ B !! x = Some (k, Live)) ∧
    directs h' = directs h ∧ pools h' = pools h ∧
    (∀ j, (slabs h').[j] = if decide (j = i) then Some [] else (slabs h).[j]).
Proof.
  intros HI Hi. pose proof (proj1 (i_slab_len _ _ HI)) as Hlen.
  destruct (zget_is_Some (slabs h) i) as [st Hst]; [lia|].
  unfold flush_slab. rewrite Hst. cbn [mbind option_bind].
  destruct (uncache_ok h B i [] st HI) as (sl & B1 & Hsl & HI1 & Hl1 & Hn1); [lia|by rewrite app_nil_r|].
  rewrite Hsl. cbn [mbind option_bind].
  destruct (i_slab _ _ HI i st) as [Hnd _]; [lia|done|].
  destruct (flush_stack_ok st _ B1 HI1 Hnd) as (h2 & B2 & -> & HI2 & Hl2 & Hd2 & Hp2 & Hs2).
  { intros a Ha. exists (RAY_ORDER_MIN + i). apply Hl1. by right. }
  exists h2, B2. split; [done|]. split; [done|]. split; [|split; [done|split; [done|]]].
  - intros x k. rewrite Hl2, Hl1. split; [naive_solver|]. intros Hx. split; [by left|].
    intros Hin. by apply (Hn1 x Hin k).
  - intros j. rewrite Hs2. cbn. destruct (decide (j = i)) as [->|Hne]; [by eapply zget_zset_eq|].
    by apply (zget_zset_ne _ _ _ _ _ Hsl).
Qed.

Lemma flush_slabs_ok h B :
  inv h B →
  ∃ h' B', heap_flush_slabs h = Some h' ∧ inv h' B' ∧
    (∀ x k, B' !! x = Some (k, Live) ↔ B !! x = Some (k, Live)) ∧
    directs h' = directs h ∧ pools h' = pools h ∧ (∀ x k, B' !! x ≠ Some (k, Cached)).
Proof.
  intros HI. unfold heap_flush_slabs.
  destruct (foldM_range flush_slab (λ i h', ∃ B', inv h' B' ∧
    (∀ x k, B' !! x = Some (k, Live) ↔ B !! x = Some (k, Live)) ∧
    directs h' = directs h ∧ pools h' = pools h ∧ (∀ j, 0 ≤ j < i → (slabs h').[j] = Some [])) 0 RAY_SLAB_ORDERS h)
    as (h' & Hh' & B' & HI' & Hl & Hd & Hp & Hs).
  - done.
  - exists B. split; [done|]. split; [done|]. split; [done|]. split; [done|]. lia.
  - intros i h1 Hi (B1 & HI1 & Hl1 & Hd1 & Hp1 & Hs1).
    destruct (flush_slab_ok h1 B1 i HI1) as (h2 & B2 & Hh2 & HI2 & Hl2 & Hd2 & Hp2 & Hs2); [lia|].
    exists h2. split; [done|]. exists B2. split; [done|]. split; [intros x k; by rewrite Hl2|].
    split; [by rewrite Hd2|]. split; [by rewrite Hp2|]. intros j Hj. rewrite Hs2.
    case_decide; [done|]. apply Hs1. lia.
  - exists h', B'. split; [done|]. split; [done|]. split; [done|]. split; [done|]. split; [done|].
    intros x k Hx. pose proof (i_cached _ _ HI' x k Hx) as Hk.
    destruct (i_slab _ _ HI' (k - 6) []) as [_ Hin]; [lia|apply Hs; unfold RAY_SLAB_ORDERS; lia|].
    apply (elem_of_nil (A := Z) x), Hin. rewrite Hx. unfold RAY_ORDER_MIN. do 2 f_equal. lia.
Qed.
End release.
