(* ===== verification/HeapSpec.v ===== *)
(** * The allocator as its clients see it

    The abstract state is the map of the blocks handed out, from address to size
    in bytes (header included). [heap_ok] relates it to a heap, [reach] is every
    state a run of the operations can produce, and [alloc_spec] is what an
    allocation may answer. [BumpOs] is an operating system that satisfies
    [OsLaws]. *)

From S2P Require Import Prelude Heap HeapTiling HeapLists HeapProofs HeapInv HeapOps.
Local Open Scope Z_scope.
#[local] Arguments zget : simpl never.
#[local] Arguments Z.pow : simpl never.
#[local] Arguments Z.shiftl : simpl never.
#[local] Opaque order_fuel scan_fuel.

Abbreviation extents := (gmap Z Z).

Definition owns (h : heap) (B : ghost) (L : extents) : Prop :=
  ∀ a n, L !! a = Some n ↔
    (∃ k, B !! a = Some (k, Live) ∧ n = 2 ^ k) ∨ (∃ m, directs h !! a = Some m ∧ n = m - RAY_DIRECT_HDR).
Definition heap_ok (h : heap) (L : extents) : Prop := ∃ B, inv h B ∧ owns h B L.

(** What [ray_alloc] of [n] bytes may do to the blocks handed out: refuse, or
    hand out a block that overlaps none of them and holds a header and [n]
    bytes. *)
Inductive alloc_spec (L : extents) (n : Z) : option Z → extents → Prop :=
| alloc_null : alloc_spec L n None L
| alloc_block_at v m :
    0 < v → n + 32 ≤ m → L !! v = None →
    (∀ a k, L !! a = Some k → a + k ≤ v ∨ v + m ≤ a) → alloc_spec L n (Some v) (<[v := m]> L).

Definition disjoint_extents (L : extents) : Prop :=
  ∀ a b m n, L !! a = Some m → L !! b = Some n → a ≠ b → a + m ≤ b ∨ b + n ≤ a.

Section spec.
Context `{Os}.

Inductive reach (budget : Z) : heap → extents → Prop :=
| reach_init : reach budget (ray_heap_init budget) ∅
| reach_alloc h L n h' v c : reach budget h L → 0 ≤ n < 2 ^ 64 → ray_alloc h n = Some (h', Some v) →
    ray_block_data_bytes h' v = Some c → reach budget h' (<[v := c + 32]> L)
| reach_alloc_null h L n h' : reach budget h L → 0 ≤ n < 2 ^ 64 → ray_alloc h n = Some (h', None) → reach budget h' L
| reach_free h L v m h' : reach budget h L → L !! v = Some m → free_block h v = Some h' → reach budget h' (delete v L)
| reach_write h L v m x y nd : reach budget h L → L !! v = Some m → hdrs h !! v = Some y → order x = order y →
    rc x ≠ 0 → client_hdr x → reach budget (set_hdr (with_links h (<[Blk v := nd]> (links h))) v x) L
| reach_flush h L h' : reach budget h L → heap_flush_slabs h = Some h' → reach budget h' L.
End spec.

(** ** From the invariant to the clients' view *)
Lemma live_extent_disjoint h L : heap_ok h L → disjoint_extents L.
Proof.
  intros (B & HI & HL) a b m n Ha Hb Hne. pose proof (c_tiling _ _ _ (i_core _ _ HI)) as HT.
  pose proof (i_directs _ _ HI) as HD.
  assert (Hmix : ∀ a b k m, B !! a = Some (k, Live) → directs h !! b = Some m →
    a + 2 ^ k ≤ b - RAY_DIRECT_HDR ∨ b - RAY_DIRECT_HDR + m ≤ a).
  { intros x y k j Hx Hy. destruct (t_block _ _ HT _ _ _ Hx) as (Hk & _ & p & Hp & _ & Hlo & Hhi).
    destruct (d_pools h HD y j p Hy Hp); lia. }
  apply HL in Ha as [(k & Ha & ->)|(m' & Ha & ->)], Hb as [(j & Hb & ->)|(n' & Hb & ->)].
  - destruct (Z.lt_total a b) as [Hlt|[|Hlt]]; [left|done|right]; by eapply (t_disj _ _ HT).
  - destruct (Hmix _ _ _ _ Ha Hb); unfold RAY_DIRECT_HDR in *; lia.
  - destruct (Hmix _ _ _ _ Hb Ha); unfold RAY_DIRECT_HDR in *; lia.
  - destruct (d_disj h HD _ _ _ _ Ha Hb Hne); unfold RAY_DIRECT_HDR in *; lia.
Qed.

Lemma owned_header h B L v n : inv h B → owns h B L → L !! v = Some n → 64 ≤ n ∨ 32 ≤ n ∧ is_Some (directs h !! v).
Proof.
  intros HI HL Hv. apply HL in Hv as [(k & Hv & ->)|(m & Hv & ->)].
  - left. destruct (t_block _ _ (c_tiling _ _ _ (i_core _ _ HI)) _ _ _ Hv) as (Hk & _).
    change 64 with (2 ^ 6). apply Z.pow_le_mono_r; lia.
  - right. pose proof (d_shape h (i_directs _ _ HI) v m Hv). unfold RAY_DIRECT_HDR. split; [lia|eauto].
Qed.

(** Alignment and position of a live block. *)
Lemma block_positive h B v k κ : inv h B → B !! v = Some (k, κ) → 0 < v.
Proof.
  intros HI Hv. destruct (t_block _ _ (c_tiling _ _ _ (i_core _ _ HI)) _ _ _ Hv) as (_ & _ & p & Hp & _ & Hlo & _).
  destruct (p_shape _ (i_pools _ _ HI) _ Hp) as (_ & ? & _). lia.
Qed.

Lemma owns_same h B h' B' L :
  (∀ x k, B' !! x = Some (k, Live) ↔ B !! x = Some (k, Live)) → directs h' = directs h → owns h B L → owns h' B' L.
Proof.
  intros Hl Hd HL a n. rewrite (HL a n), Hd. split; (intros [(k & Hk & ->)|?]; [left; exists k; split; [by apply Hl|done]|by right]).
Qed.

(** ** Initial heap *)
Lemma fl_init_all n :
  ∀ o, 0 ≤ o < n → foldl fl_init ∅ (range 0 n) !! Sent o = Some (Node (Sent o) (Sent o)).
Proof.
  intros o Ho.
  assert (Hgen : ∀ l (L : gmap ptr node), (∀ x, x ∈ l ∨ L !! Sent x = Some (Node (Sent x) (Sent x)) →
    foldl fl_init L l !! Sent x = Some (Node (Sent x) (Sent x)))).
  { induction l as [|y l IH]; intros L x Hx; cbn.
    - destruct Hx as [Hx|?]; [by apply elem_of_nil in Hx|done].
    - apply IH. unfold fl_init. destruct (decide (x = y)) as [->|Hne]; [right; apply lookup_insert_eq|].
      rewrite lookup_insert_ne by congruence. destruct Hx as [[?|?]%elem_of_cons|?]; [done|by left|by right]. }
  apply Hgen. left. apply elem_of_range. lia.
Qed.

Lemma init_inv budget : inv (ray_heap_init budget) ∅.
Proof.
  assert (Hnil : ∀ (a k : Z) (κ : kind), (∅ : ghost) !! a ≠ Some (k, κ)) by (intros a k κ; by rewrite lookup_empty).
  split; cbn.
  - split; [intros p Hp; by apply elem_of_nil in Hp|intros i j p q Hi; by rewrite lookup_nil in Hi].
  - split.
    + split; [intros a k κ Ha; by apply Hnil in Ha|intros a b k j κ κ' Ha; by apply Hnil in Ha|].
      intros p x Hp. by apply elem_of_nil in Hp.
    + intros a k κ Ha. by apply Hnil in Ha.
    + intros a k κ Ha. by apply Hnil in Ha.
    + intros o Ho. exists []. split; [|split; [constructor|]].
      * cbn. unfold nxt, prv. rewrite fl_init_all by (unfold RAY_HEAP_MAX_ORDER; lia). done.
      * intros a. split; [intros Ha; by apply elem_of_nil in Ha|intros Ha; by apply Hnil in Ha].
    + intros o Ho. cbn. rewrite Z.bits_0. split; [done|]. intros [a Ha]. by apply Hnil in Ha.
  - intros p Hp. by apply elem_of_nil in Hp.
  - intros a k Ha. by apply Hnil in Ha.
  - intros a k Ha. by apply Hnil in Ha.
  - intros a k Ha. by apply Hnil in Ha.
  - rewrite !zlen_map, zlen_range. done.
  - intros i st Hi Hst. rewrite zget_nat in Hst by done. apply list_lookup_fmap_Some_1 in Hst as (j & -> & _).
    split; [constructor|]. intros a. split; [intros Ha; by apply elem_of_nil in Ha|intros Ha; by apply Hnil in Ha].
  - intros a k Ha. by apply Hnil in Ha.
  - lia.
  - split; cbn; intros *; by rewrite lookup_empty.
  - intros v x _. by rewrite lookup_empty.
Qed.

Section laws.
Context `{OsLaws}.

(** ** Allocation and release *)
Lemma data_bytes_block h v o :
  hdrs h !! v = Some (Hdr 0 o 0 1) → 6 ≤ o ≤ RAY_HEAP_MAX_ORDER → ray_block_data_bytes h v = Some (2 ^ o - 32).
Proof.
  intros Hv Ho. unfold RAY_HEAP_MAX_ORDER in Ho. unfold ray_block_data_bytes. rewrite Hv. cbn [mbind option_bind order].
  destruct (Z.ltb_spec RAY_HEAP_MAX_ORDER o) as [Hlt|]; [unfold RAY_HEAP_MAX_ORDER in Hlt; lia|].
  rewrite BSIZEOF_pow by lia. f_equal. apply wrap_id. unfold in_u.
  assert (2 ^ 6 ≤ 2 ^ o ≤ 2 ^ 38) by (split; apply Z.pow_le_mono_r; lia). lia.
Qed.

Lemma granted_ok h B h' B' v o L n :
  inv h B → owns h B L → inv h' B' → granted h B h' B' v o → 6 ≤ o → n + 32 ≤ 2 ^ o →
  heap_ok h' (<[v := 2 ^ o]> L) ∧ alloc_spec L n (Some v) (<[v := 2 ^ o]> L) ∧
  ray_block_data_bytes h' v = Some (2 ^ o - 32) ∧ n ≤ 2 ^ o - 32 ∧
  (∀ x, is_Some (L !! x) → hdrs h' !! x = hdrs h !! x).
Proof.
  intros HI HL HI' (Hl & Hnv & Hdv & Hd & Hhd & Hv) Ho Hn.
  assert (HvB : B' !! v = Some (o, Live)) by (apply Hl; by right).
  assert (Ho38 : o ≤ RAY_HEAP_MAX_ORDER).
  { destruct (t_block _ _ (c_tiling _ _ _ (i_core _ _ HI')) _ _ _ HvB) as (_ & _ & p & Hp & Hop & _).
    destruct (p_shape _ (i_pools _ _ HI') _ Hp) as (? & _). unfold RAY_HEAP_MAX_ORDER. lia. }
  assert (HLv : L !! v = None).
  { destruct (L !! v) as [m|] eqn:Hm; [|done]. exfalso.
    apply HL in Hm as [(k & Hk & _)|(m' & Hm & _)]; [by apply Hnv in Hk|congruence]. }
  assert (Hok : heap_ok h' (<[v := 2 ^ o]> L)).
  { exists B'. split; [done|]. intros a m. rewrite Hd, lookup_insert_Some, (HL a m). split.
    - intros [[<- <-]|[Hne [(k & Hk & ->)|?]]]; [left; by exists o|left; exists k; split; [apply Hl; by left|done]|by right].
    - intros [(k & Hk & ->)|(m' & Hm & ->)].
      + apply Hl in Hk as [Hk|[-> ->]]; [|by left]. right. split; [intros ->; by apply Hnv in Hk|]. left. by exists k.
      + right. split; [congruence|]. right. by exists m'. }
  split; [done|]. split.
  { constructor; [by eapply block_positive|done|done|]. intros a k Ha.
    apply (live_extent_disjoint _ _ Hok a v); [|by rewrite lookup_insert_eq|congruence].
    by rewrite lookup_insert_ne by congruence. }
  split; [apply data_bytes_block; [done|lia]|]. split; [lia|].
  intros x [m Hx]. apply Hhd. apply HL in Hx as [(k & Hk & _)|(m' & Hm & _)]; eauto.
Qed.

Lemma ray_alloc_ok h L n :
  heap_ok h L → 0 ≤ n < 2 ^ 64 →
  ∃ h' r L', ray_alloc h n = Some (h', r) ∧ heap_ok h' L' ∧ alloc_spec L n r L' ∧
    (∀ x, is_Some (L !! x) → hdrs h' !! x = hdrs h !! x) ∧
    match r with
    | Some v => ∃ c, ray_block_data_bytes h' v = Some c ∧ n ≤ c ∧ L' = <[v := c + 32]> L
    | None => refused h (ray_order_for_size n) ∨ RAY_HEAP_MAX_ORDER < ray_order_for_size n
    end.
Proof.
  intros (B & HI & HL) Hn. destruct (order_for_size_spec n Hn) as (H6 & Hfit & _).
  set (o := ray_order_for_size n) in *.
  assert (Hsmall : o ≤ RAY_HEAP_MAX_ORDER → ∃ h' r L', alloc_small h o = Some (h', r) ∧ heap_ok h' L' ∧ alloc_spec L n r L' ∧
    (∀ x, is_Some (L !! x) → hdrs h' !! x = hdrs h !! x) ∧
    match r with
    | Some v => ∃ c, ray_block_data_bytes h' v = Some c ∧ n ≤ c ∧ L' = <[v := c + 32]> L
    | None => refused h o ∨ RAY_HEAP_MAX_ORDER < o
    end).
  { intros Ho. destruct (alloc_small_ok h B o HI H6) as (h' & r & B' & -> & HI' & Hr). exists h', r.
    destruct r as [v|].
    - destruct (granted_ok h B h' B' v o L n HI HL HI' Hr H6 (Hfit Ho)) as (Hok & Hsp & Hc & Hnc & Hhd).
      exists (<[v := 2 ^ o]> L). split; [done|]. split; [done|]. split; [done|]. split; [done|].
      exists (2 ^ o - 32). split; [done|]. split; [done|]. by rewrite Z.sub_add.
    - destruct Hr as [(Hh & Hd & Hhd & _) Href]. exists L. split; [done|].
      split. { exists B'. split; [done|]. eapply owns_same; [|done|done]. intros x k. symmetry. apply Hh. by left. }
      split; [constructor|]. split; [|by left]. intros x [m Hx]. apply Hhd.
      apply HL in Hx as [(k & Hk & _)|(m' & Hm & _)]; [left; exists k, Live; split; [by left|done]|right; eauto]. }
  unfold ray_alloc. fold o. destruct (Z.leb_spec RAY_HEAP_POOL_ORDER o); [|apply Hsmall; unfold RAY_HEAP_POOL_ORDER, RAY_HEAP_MAX_ORDER in *; lia].
  destruct (alloc_direct_ok h B n HI ltac:(lia)) as (h1 & r & -> & HI1 & Hr).
  destruct r as [v|].
  2: { subst h1. destruct (Z.ltb_spec RAY_HEAP_MAX_ORDER o); [|by apply Hsmall].
    exists h, None, L. split; [done|]. split; [by exists B|]. split; [constructor|]. split; [done|by right]. }
  clear Hsmall. destruct Hr as (m & Hm & Hvn & HvB & Hd & Hmax & Hhd & Hv).
  exists h1, (Some v), (<[v := m - 32]> L). split; [done|].
  assert (HLv : L !! v = None).
  { destruct (L !! v) as [j|] eqn:Hj; [|done]. exfalso.
    apply HL in Hj as [(k & Hk & _)|(m' & Hm' & _)]; [by apply HvB in Hk|congruence]. }
  assert (Hok : heap_ok h1 (<[v := m - 32]> L)).
  { exists B. split; [done|]. intros a j. rewrite Hd, lookup_insert_Some, (HL a j). split.
    - intros [[<- <-]|[Hne [?|(m' & Hm' & ->)]]]; [right; exists m; by rewrite lookup_insert_eq|by left|].
      right. exists m'. by rewrite lookup_insert_ne.
    - intros [(k & Hk & ->)|(m' & [[<- <-]|[Hne Hm']]%lookup_insert_Some & ->)]; [|by left|].
      + right. split; [intros ->; by apply HvB in Hk|]. left. by exists k.
      + right. split; [done|]. right. by exists m'. }
  split; [done|]. split.
  { constructor; [|lia|done|].
    - pose proof (d_shape h1 (i_directs _ _ HI1) v m) as Hsh. rewrite Hd, lookup_insert_eq in Hsh.
      specialize (Hsh eq_refl). unfold RAY_DIRECT_HDR in Hsh. lia.
    - intros a k Ha. apply (live_extent_disjoint _ _ Hok a v); [|by rewrite lookup_insert_eq|congruence].
      by rewrite lookup_insert_ne by congruence. }
  split. { intros x [j Hx]. apply Hhd. congruence. }
  exists (m - 64). split; [|split; [lia|f_equal; lia]].
  unfold ray_block_data_bytes. rewrite Hv. cbn [mbind option_bind order].
  change (RAY_HEAP_MAX_ORDER <? RAY_ORDER_DIRECT) with true. cbv iota.
  rewrite Hd, lookup_insert_eq. cbn [mbind option_bind]. unfold RAY_DIRECT_HDR. f_equal.
  rewrite wrap_id; [lia|]. unfold in_u. lia.
Qed.

Lemma free_block_ok h L v m :
  heap_ok h L → L !! v = Some m →
  ∃ h', free_block h v = Some h' ∧ heap_ok h' (delete v L) ∧
    (∀ x, is_Some (L !! x) → x ≠ v → hdrs h' !! x = hdrs h !! x).
Proof.
  intros (B & HI & HL) Hv. pose proof Hv as Hv'. apply HL in Hv as [(k & Hv & ->)|(m' & Hv & ->)].
  - destruct (free_live_ok h B v k HI Hv) as (h' & B' & Hh' & HI' & Hl & Hd & Hp & Hhd).
    exists h'. split; [done|]. split.
    + exists B'. split; [done|]. intros a n. rewrite lookup_delete_Some, (HL a n), Hd. split.
      * intros [Hne [(j & Hj & ->)|?]]; [left; exists j; split; [by apply Hl|done]|by right].
      * intros [(j & [Hj Hne]%Hl & ->)|(j & Hj & ->)]; [split; [done|left; by exists j]|].
        split; [|right; by exists j]. intros ->. pose proof (direct_not_block h B a k Live HI Hv). congruence.
    + intros x [n Hx] Hne. apply Hhd; [|done]. apply HL in Hx as [(j & Hj & _)|(j & Hj & _)]; eauto.
  - destruct (free_direct_ok h B v m' HI Hv) as (h' & Hh' & HI' & Hd & Hp & Hhd).
    exists h'. split; [done|]. split; [|intros x _ Hne; by apply Hhd].
    exists B. split; [done|]. intros a n. rewrite lookup_delete_Some, (HL a n), Hd. split.
    + intros [Hne [?|(j & Hj & ->)]]; [by left|]. right. exists j. by rewrite lookup_delete_ne.
    + intros [(j & Hj & ->)|(j & [Hne Hj]%lookup_delete_Some & ->)]; [|split; [done|right; by exists j]].
      split; [|left; by exists j]. intros ->. pose proof (direct_not_block h B a j Live HI Hj). congruence.
Qed.

Lemma write_ok h L v m x y nd :
  heap_ok h L → L !! v = Some m → hdrs h !! v = Some y → order x = order y → rc x ≠ 0 → client_hdr x →
  heap_ok (set_hdr (with_links h (<[Blk v := nd]> (links h))) v x) L.
Proof.
  intros (B & HI & HL) Hv Hy Hxo Hxr Hxc. exists B. split; [|done].
  apply HL in Hv as [(k & Hv & ->)|(m' & Hv & ->)].
  - destruct (c_hdr _ _ _ (i_core _ _ HI) v k Live Hv) as (z & Hz & Hzo & _); [done|].
    apply (inv_client h B v k Live); [done|done|by split|congruence|done|done].
  - assert (HvB : ∀ k κ, B !! v ≠ Some (k, κ)).
    { intros k κ Hk. pose proof (direct_not_block h B v k κ HI Hk). congruence. }
    assert (HC : core (set_hdr (with_links h (<[Blk v := nd]> (links h))) v x) (pools h) B).
    { apply core_set_hdr; [|intros k κ Hk; by apply HvB in Hk]. apply core_set_link; [apply HI|]. intros k Hk. by apply HvB in Hk. }
    split; try apply HI; [done| |].
    2: { intros w z Ht Hz. cbn in Hz. apply lookup_insert_Some in Hz as [[<- <-]|[Hne Hz]]; [done|by apply (i_client _ _ HI w z)]. }
    destruct (i_directs _ _ HI) as [D1 D2 D3 D4]. split; [done..|].
    intros w j Hw. destruct (D4 w j Hw) as (z & Hz & Hzo). cbn. destruct (decide (w = v)) as [->|Hne].
    + exists x. rewrite lookup_insert_eq. split; [done|]. simplify_eq. congruence.
    + exists z. by rewrite lookup_insert_ne.
Qed.

Lemma flush_ok h L :
  heap_ok h L → ∃ h', heap_flush_slabs h = Some h' ∧ heap_ok h' L ∧ pools h' = pools h ∧
    ∃ B', inv h' B' ∧ owns h' B' L ∧ ∀ x k, B' !! x ≠ Some (k, Cached).
Proof.
  intros (B & HI & HL). destruct (flush_slabs_ok h B HI) as (h' & B' & Hh' & HI' & Hl & Hd & Hp & Hno).
  assert (HL' : owns h' B' L) by by eapply owns_same.
  exists h'. split; [done|]. split; [by exists B'|]. split; [done|]. by exists B'.
Qed.

Lemma reach_ok budget h L : reach budget h L → heap_ok h L.
Proof.
  induction 1 as [|h L n h' v c _ IH Hn Ha Hc|h L n h' _ IH Hn Ha|h L v m h' _ IH Hv Hf|h L v m x y nd _ IH Hv Hy Ho Hr Hc|h L h' _ IH Hf].
  - exists ∅. split; [apply init_inv|]. intros a n. rewrite lookup_empty. split; [done|].
    intros [(k & Hk & _)|(m & Hm & _)]; [by rewrite lookup_empty in Hk|]. cbn in Hm. by rewrite lookup_empty in Hm.
  - destruct (ray_alloc_ok h L n IH Hn) as (h2 & r & L' & Ha' & Hok & _ & _ & Hr). rewrite Ha in Ha'.
    injection Ha' as <- <-. destruct Hr as (c' & Hc' & _ & ->). by simplify_eq.
  - destruct (ray_alloc_ok h L n IH Hn) as (h2 & r & L' & Ha' & Hok & Hsp & _). rewrite Ha in Ha'.
    injection Ha' as <- <-. by inversion Hsp; subst.
  - destruct (free_block_ok h L v m IH Hv) as (h2 & Hf' & Hok & _). by simplify_eq.
  - by eapply write_ok.
  - destruct (flush_ok h L IH) as (h2 & Hf' & Hok & _). by simplify_eq.
Qed.
End laws.

(** ** A heap with nothing handed out is fully merged *)
Section empty.
Context (h : heap) (B : ghost).
Hypothesis HI : inv h B.
Hypothesis Hlive : ∀ a k, B !! a ≠ Some (k, Live).
Hypothesis Hcached : ∀ a k, B !! a ≠ Some (k, Cached).

Lemma free_or_header a k κ : B !! a = Some (k, κ) → κ = Free ∨ κ = Header ∧ ∃ p, p ∈ pools h ∧ pool_base p = a.
Proof.
  intros Ha. destruct κ; [by left|by apply Hcached in Ha|right|by apply Hlive in Ha|by apply (i_none _ _ HI) in Ha].
  split; [done|]. by apply (i_headers _ _ HI a k).
Qed.

Lemma pool_header_only p a k κ :
  p ∈ pools h → B !! a = Some (k, κ) → pool_base p < a < pool_base p + 2 ^ pool_order p → κ = Free.
Proof.
  intros Hp Ha Hr. destruct (free_or_header a k κ Ha) as [|(_ & q & Hq & Hqa)]; [done|].
  destruct (p_shape _ (i_pools _ _ HI) _ Hq) as (? & _). pose proof (pow2_pos (pool_order q) ltac:(lia)).
  assert (p = q) as -> by (apply (pool_unique (pools h) (i_pools _ _ HI) p q a); try done; lia). lia.
Qed.

(** An aligned region clear of the header holds no block smaller than itself. *)
Lemma no_small_block p x o : 
  p ∈ pools h → 0 ≤ o → (2 ^ o | x) → pool_base p < x → x + 2 ^ o ≤ pool_base p + 2 ^ pool_order p →
  ∀ (n : nat) y j κ, j ≤ Z.of_nat n → B !! y = Some (j, κ) → x ≤ y < x + 2 ^ o → j < o → False.
Proof.
  intros Hp Ho Hx Hb He. pose proof (c_tiling _ _ _ (i_core _ _ HI)) as HT.
  induction n as [|n IH]; intros y j κ Hn Hy Hr Hj.
  { destruct (t_block _ _ HT _ _ _ Hy) as (? & _). lia. }
  destruct (t_block _ _ HT _ _ _ Hy) as (H6 & Hal & _).
  destruct (p_shape _ (i_pools _ _ HI) _ Hp) as (Hpo & _).
  assert (Hin : pool_base p ≤ y < pool_base p + 2 ^ pool_order p) by lia.
  pose proof (block_below _ B (i_pools _ _ HI) HT y j κ p (i_headed _ _ HI) Hy Hp Hin) as Hjp.
  destruct (buddy_block _ B (i_pools _ _ HI) HT y j κ p Hy Hp Hin Hjp) as (i & κ' & Hby & Hij & Hne & Hbin).
  assert (Hreg : x ≤ bud y j < x + 2 ^ o).
  { pose proof (pow2_pos j ltac:(lia)). pose proof (pow2_S j ltac:(lia)) as HS.
    assert (Hd : (2 ^ (j + 1) | 2 ^ o)) by (apply pow2_divide; lia).
    assert (Hdx : (2 ^ (j + 1) | x)) by (etrans; eauto).
    destruct (bud_spec y j ltac:(lia) Hal) as [_ [[Hd2 ->]|[Hd2 He2]]].
    - pose proof (aligned_nested (2 ^ (j + 1)) (2 ^ o) y x ltac:(lia) Hd Hd2 Hdx ltac:(lia)). lia.
    - assert (x ≤ bud y j) by (apply (aligned_le (2 ^ (j + 1))); try done; lia). lia. }
  assert (κ = Free) as -> by (eapply pool_header_only; [done|done|lia]).
  assert (κ' = Free) as -> by (eapply pool_header_only; [done|done|lia]).
  destruct (decide (i = j)) as [->|Hij'].
  - by apply (i_coal _ _ HI y j Hy).
  - apply (IH (bud y j) i Free); [lia|done|done|lia].
Qed.

Lemma cascade_block p o :
  p ∈ pools h → 6 ≤ o < pool_order p → B !! (pool_base p + 2 ^ o) = Some (o, Free).
Proof.
  intros Hp Ho. pose proof (c_tiling _ _ _ (i_core _ _ HI)) as HT.
  destruct (p_shape _ (i_pools _ _ HI) _ Hp) as (Hpo & Hb0 & Hbal).
  set (x := pool_base p + 2 ^ o). pose proof (pow2_pos o ltac:(lia)). pose proof (pow2_S o ltac:(lia)) as HS.
  assert (Hle : 2 ^ (o + 1) ≤ 2 ^ pool_order p) by (apply Z.pow_le_mono_r; lia).
  assert (Hbo : (2 ^ (o + 1) | pool_base p)) by (etrans; [apply (pow2_divide (o + 1) (pool_order p)); lia|done]).
  assert (Hxo : (2 ^ o | x)).
  { apply Z.divide_add_r; [etrans; [apply (pow2_divide o (o + 1)); lia|done]|exists 1; lia]. }
  destruct (t_cover _ _ HT p x Hp) as (c & j & κ & Hc & Hcx); [unfold x; lia|].
  destruct (t_block _ _ HT _ _ _ Hc) as (H6 & Hcal & _).
  assert (Hjo : j ≤ o).
  { destruct (Z.le_gt_cases j o); [done|]. exfalso.
    assert (Hdj : (2 ^ (o + 1) | 2 ^ j)) by (apply pow2_divide; lia).
    assert (c ≤ pool_base p).
    { apply (aligned_le (2 ^ (o + 1))); [lia|done|by etrans|unfold x in Hcx; lia]. }
    pose proof (i_headed _ _ HI p Hp) as Hh. pose proof (pow2_pos 6 ltac:(lia)).
    assert (c = pool_base p) as -> by (apply (block_unique _ B HT c (pool_base p) j 6 κ Header (pool_base p) Hc Hh); unfold x in *; lia).
    rewrite Hh in Hc. injection Hc as <- _. lia. }
  assert (x = c) as Hxc.
  { apply (aligned_eq (2 ^ j)); [apply pow2_pos; lia| |done|done]. etrans; [apply (pow2_divide j o); lia|done]. }
  rewrite Hxc. destruct (decide (j = o)) as [->|Hne].
  - rewrite Hc. f_equal. f_equal. eapply pool_header_only; [done|done|unfold x in *; lia].
  - exfalso. apply (no_small_block p x o Hp ltac:(lia) Hxo ltac:(unfold x; lia) ltac:(unfold x; lia) (Z.to_nat j) c j κ); try done; lia.
Qed.

Lemma free_blocks_cascade a k :
  B !! a = Some (k, Free) ↔ ∃ p, p ∈ pools h ∧ 6 ≤ k < pool_order p ∧ a = pool_base p + 2 ^ k.
Proof.
  split; [|intros (p & Hp & Hk & ->); by apply cascade_block].
  intros Ha. pose proof (c_tiling _ _ _ (i_core _ _ HI)) as HT.
  destruct (t_block _ _ HT _ _ _ Ha) as (H6 & _ & p & Hp & _ & Hlo & Hhi).
  destruct (p_shape _ (i_pools _ _ HI) _ Hp) as (Hpo & Hb0 & _).
  pose proof (pow2_pos k ltac:(lia)). pose proof (i_headed _ _ HI p Hp) as Hh.
  assert (Hne : pool_base p ≠ a) by congruence.
  assert (H64 : pool_base p + 2 ^ 6 ≤ a) by (eapply (t_disj _ _ HT); [done|done|lia]).
  set (o := Z.log2 (a - pool_base p)).
  destruct (Z.log2_spec (a - pool_base p)) as [Hl1 Hl2]; [lia|]. fold o in Hl1, Hl2. unfold Z.succ in Hl2.
  assert (Ho6 : 6 ≤ o) by (apply Z.log2_le_pow2; lia).
  assert (Hop : o < pool_order p) by (apply Z.log2_lt_pow2; lia).
  pose proof (cascade_block p o Hp ltac:(lia)) as Hc. pose proof (pow2_S o ltac:(lia)).
  assert (pool_base p + 2 ^ o = a) as Hoa by (apply (block_unique _ B HT _ _ _ _ _ _ a Hc Ha); lia).
  rewrite Hoa in Hc. rewrite Ha in Hc. injection Hc as ->. exists p. split; [done|]. split; [lia|]. by rewrite Hoa.
Qed.
End empty.

(** ** An operating system that keeps its promises: every mapping above the last *)
Definition top (ps : list pool_entry) (ds : gmap Z Z) : Z :=
  foldr Z.max 0 (map (λ p, pool_base p + 2 ^ pool_order p) ps ++
                 map (λ vm, vm.1 - RAY_DIRECT_HDR + vm.2) (map_to_list ds)).

Lemma foldr_max_ge l x : x ∈ l → x ≤ foldr Z.max 0 l.
Proof. induction l as [|y l IH]; [by intros ?%elem_of_nil|]. intros [->|?%IH]%elem_of_cons; simpl; lia. Qed.
Lemma foldr_max_nonneg l : 0 ≤ foldr Z.max 0 l.
Proof. induction l; simpl; lia. Qed.

Lemma above_top ps ds a n : top ps ds ≤ a → 0 ≤ n → clear_of ps ds a n.
Proof.
  intros Ha Hn. split.
  - intros p Hp. right. etrans; [|exact Ha]. apply foldr_max_ge, elem_of_app. left. apply list_elem_of_fmap. eauto.
  - intros v m Hv. right. etrans; [|exact Ha]. apply foldr_max_ge, elem_of_app. right. apply list_elem_of_fmap.
    exists (v, m). split; [done|]. by apply elem_of_map_to_list.
Qed.

Definition round_up (s a : Z) : Z := (a / s + 1) * s.
Lemma round_up_spec s a : 0 < s → 0 ≤ a → a ≤ round_up s a ∧ (s | round_up s a) ∧ 0 < round_up s a.
Proof.
  intros Hs Ha. unfold round_up. pose proof (Z.div_mod a s ltac:(lia)). pose proof (Z.mod_pos_bound a s Hs).
  pose proof (Z.div_pos a s Ha Hs). split; [nia|]. split; [by exists (a / s + 1)|nia].
Qed.

#[export] Instance BumpOs : Os := {|
  vm_alloc_aligned ps ds po := if po <? 0 then None else Some (round_up (2 ^ po) (top ps ds));
  vm_alloc ps ds size := if size <? 0 then None else Some (round_up 4096 (top ps ds))
|}.

#[export] Instance BumpOs_laws : OsLaws.
Proof.
  split.
  - intros ps ds po mem. cbn. destruct (Z.ltb_spec po 0); [done|]. intros [= <-].
    destruct (round_up_spec (2 ^ po) (top ps ds)) as (H1 & H2 & H3); [by apply pow2_pos|apply foldr_max_nonneg|].
    split; [done|]. split; [done|]. apply above_top; [done|]. pose proof (pow2_pos po ltac:(lia)). lia.
  - intros ps ds size mem. cbn. destruct (Z.ltb_spec size 0); [done|]. intros [= <-].
    destruct (round_up_spec 4096 (top ps ds)) as (H1 & H2 & H3); [lia|apply foldr_max_nonneg|].
    split; [done|]. split; [done|]. apply above_top; [done|lia].
Qed.
