(* ===== verification/HeapProps.v ===== *)
(** * The properties of the buddy heap *)

From S2P Require Import Prelude Heap HeapTiling HeapLists HeapProofs HeapInv HeapOps HeapSpec.
Local Open Scope Z_scope.





(** Releasing a block in use gives a heap in which exactly that block is no
    longer in use, whether it went to the slab cache, to the free lists or back
    to the system; the headers of the others are untouched. *)
Theorem free_block_releases `{OsLaws} budget h L v m :
  reach budget h L → L !! v = Some m →
  ∃ h', free_block h v = Some h' ∧ reach budget h' (delete v L) ∧
    (∀ x, is_Some (L !! x) → x ≠ v → hdrs h' !! x = hdrs h !! x).
Proof.
  intros Hr Hv. destruct (free_block_ok h L v m (reach_ok _ _ _ Hr) Hv) as (h' & Hf & _ & Hhd).
  exists h'. split; [done|]. split; [by eapply reach_free|done].
Qed.

(** A run on [BumpOs]: one block of 100 bytes allocated, then released. *)
Module Demo.
Definition h0 : heap := ray_heap_init 1048576.
Definition h1 : heap := match ray_alloc h0 100 with Some (h, _) => h | None => h0 end.
Definition v : Z := 33554688.
Definition h2 : heap := match free_block h1 v with Some h => h | None => h1 end.
End Demo.

Lemma free_block_releases_witness :
  ∃ h', free_block Demo.h1 Demo.v = Some h' ∧ reach 1048576 h' (delete Demo.v (<[Demo.v := 224 + 32]> ∅)) ∧
    (∀ x, is_Some ((<[Demo.v := 224 + 32]> ∅ : extents) !! x) → x ≠ Demo.v → hdrs h' !! x = hdrs Demo.h1 !! x).
Proof.
  apply (free_block_releases 1048576 Demo.h1 (<[Demo.v := 224 + 32]> ∅) Demo.v 256).
  - apply (reach_alloc 1048576 Demo.h0 ∅ 100 Demo.h1 Demo.v 224).
    + constructor.
    + done.
    + vm_compute; reflexivity.
    + vm_compute; reflexivity.
  - vm_compute; reflexivity.
Defined.

(** C31. Coalescing is complete: once every block has been released and the caches
    flushed, whatever the order of the releases, the free lists hold exactly the
    blocks of pools that were never used — for each pool one block of every order
    below its own, at offset [2^order]. No memory stays fragmented. *)
Theorem heap_coalesces_completely `{OsLaws} budget h :
  reach budget h ∅ →
  ∃ h', heap_flush_slabs h = Some h' ∧ pools h' = pools h ∧
    ∀ o, 0 ≤ o ≤ RAY_HEAP_MAX_ORDER → ∃ l, chain (links h') (Sent o) l (Sent o) ∧ NoDup l ∧
      ∀ a, a ∈ l ↔ ∃ p, p ∈ pools h ∧ 6 ≤ o < pool_order p ∧ a = pool_base p + 2 ^ o.
Proof.
  intros Hr. destruct (flush_ok h ∅ (reach_ok _ _ _ Hr)) as (h' & Hf & _ & Hp & B & HI & HL & Hc).
  exists h'. split; [done|]. split; [done|]. intros o Ho.
  destruct (c_list _ _ _ (i_core _ _ HI) o Ho) as (l & Hl & Hnd & Hin). exists l. split; [done|]. split; [done|].
  intros a. rewrite Hin, (free_blocks_cascade h' B HI); [by rewrite Hp| |done].
  intros x k Hx. assert (Hn : (∅ : extents) !! x = Some (2 ^ k)) by (apply HL; left; by exists k).
  by rewrite lookup_empty in Hn.
Qed.

Lemma heap_coalesces_completely_witness :
  ∃ h', heap_flush_slabs Demo.h2 = Some h' ∧ pools h' = pools Demo.h2 ∧
    ∀ o, 0 ≤ o ≤ RAY_HEAP_MAX_ORDER → ∃ l, chain (links h') (Sent o) l (Sent o) ∧ NoDup l ∧
      ∀ a, a ∈ l ↔ ∃ p, p ∈ pools Demo.h2 ∧ 6 ≤ o < pool_order p ∧ a = pool_base p + 2 ^ o.
Proof.
  apply (heap_coalesces_completely 1048576 Demo.h2).
  change (reach 1048576 Demo.h2 (delete Demo.v (<[Demo.v := 224 + 32]> (∅ : extents)))).
  apply (reach_free 1048576 Demo.h1 (<[Demo.v := 224 + 32]> ∅) Demo.v 256 Demo.h2).
  - apply (reach_alloc 1048576 Demo.h0 ∅ 100 Demo.h1 Demo.v 224).
    + constructor.
    + done.
    + vm_compute; reflexivity.
    + vm_compute; reflexivity.
  - vm_compute; reflexivity.
  - vm_compute; reflexivity.
Defined.

(** The order of a request is the least one, from [RAY_ORDER_MIN] up, whose
    blocks hold the header and the data; sizes whose total would wrap get an
    order above every pool. *)
Theorem order_for_size_least n :
  0 ≤ n < 2 ^ 64 →
  let o := ray_order_for_size n in
  RAY_ORDER_MIN ≤ o ∧ (o ≤ RAY_HEAP_MAX_ORDER → n + 32 ≤ BSIZEOF o) ∧
  (RAY_ORDER_MIN < o ≤ RAY_HEAP_MAX_ORDER → BSIZEOF (o - 1) < n + 32).
Proof.
  intros Hn o. destruct (order_for_size_spec n Hn) as (H6 & Hfit & Hleast). fold o in H6, Hfit, Hleast.
  unfold RAY_ORDER_MIN. rewrite !BSIZEOF_pow by lia. done.
Qed.

Lemma order_for_size_least_witness :
  let o := ray_order_for_size 1000 in
  RAY_ORDER_MIN ≤ o ∧ (o ≤ RAY_HEAP_MAX_ORDER → 1000 + 32 ≤ BSIZEOF o) ∧
  (RAY_ORDER_MIN < o ≤ RAY_HEAP_MAX_ORDER → BSIZEOF (o - 1) < 1000 + 32).
Proof. apply (order_for_size_least 1000). done. Defined.
