(* ===== verification/Lang.v ===== *)
(** * Values and bindings of the language ([src/src/lang/env.c], [src/include/rayforce.h])

    The objects the compiler and the stack machine handle, the lambda objects,
    and the environment: the global table and the stack of scope frames.
    Reference counts are not modelled; lambdas are objects at an address because
    their compiled form is written in place on the first call. Symbols and the
    values of dotted names come from the interfaces below. *)

From stdpp Require Import strings.
From Stdlib Require Import (notations) Ascii.
From S2P Require Import Prelude.
Local Open Scope Z_scope.

Definition RAY_BOOL : Z := 1.
Definition RAY_I16 : Z := 3.
Definition RAY_I32 : Z := 4.
Definition RAY_I64 : Z := 5.
Definition RAY_F32 : Z := 6.
Definition RAY_F64 : Z := 7.
Definition RAY_DATE : Z := 8.
Definition RAY_TIME : Z := 9.
Definition RAY_TIMESTAMP : Z := 10.
Definition RAY_GUID : Z := 11.
Definition RAY_SYM : Z := 12.
Definition RAY_STR : Z := 13.
Definition RAY_LAMBDA : Z := 100.

(** Flags of functions and of symbol atoms. *)
Definition RAY_FN_ATOMIC : Z := 0x04.
Definition RAY_FN_SPECIAL_FORM : Z := 0x10.
Definition RAY_FN_RESTRICTED : Z := 0x20.
Definition ATTR_QUOTED : Z := 0x20.
Definition has (attrs flag : Z) : bool := negb (Z.land attrs flag =? 0).

(** ** Objects

    [VNull] is [RAY_NULL_OBJ]. An atom has its type [t] (stored negated), its
    typed-null bit and its payload (floats as bit patterns). [VVec] is any
    object the evaluator does not look into: a typed vector, a table. *)
Inductive fkind := FUnary | FBinary | FVary.
Inductive value :=
| VNull
| VAtom (t attrs : Z) (aux : bool) (payload : Z)
| VSym (attrs id : Z)
| VVec (t attrs : Z) (cells : list Z)
| VList (attrs : Z) (elems : list value)
| VDict (attrs : Z) (keys vals : value)
| VFn (k : fkind) (attrs opcode ptr : Z)
| VLambda (a : Z)
| VErr (code : string).

Definition type_of (v : value) : Z :=
  match v with
  | VNull => 126
  | VAtom t _ _ _ => - t
  | VSym _ _ => - RAY_SYM
  | VVec t _ _ => t
  | VList _ _ => 0
  | VDict _ _ _ => 99
  | VFn FUnary _ _ _ => 101
  | VFn FBinary _ _ _ => 102
  | VFn FVary _ _ _ => 103
  | VLambda _ => RAY_LAMBDA
  | VErr _ => 127
  end.
Definition attrs_of (v : value) : Z :=
  match v with
  | VAtom _ a _ _ | VSym a _ | VVec _ a _ | VList a _ | VDict a _ _ | VFn _ a _ _ => a
  | VNull => 0x80
  | VLambda _ | VErr _ => 0
  end.
Definition ray_is_atom (v : value) : bool := (type_of v <? 0) || (RAY_LAMBDA <=? type_of v).
Definition is_err (v : value) : bool := match v with VErr _ => true | _ => false end.
Definition is_collection (v : value) : bool := (0 <=? type_of v) && (type_of v <=? RAY_STR).
Definition make_i64 (n : Z) : value := VAtom RAY_I64 0 false n.
Definition is_name (v : value) : bool :=
  match v with VSym a _ => negb (has a ATTR_QUOTED) | _ => false end.

(** ** Floats, as bit patterns *)
Definition f64_nan (b : Z) : bool := 0x7ff0000000000000 <? Z.land b 0x7fffffffffffffff.
Definition f64_zero (b : Z) : bool := Z.land b 0x7fffffffffffffff =? 0.
Definition f64_eq (a b : Z) : bool :=
  negb (f64_nan a) && negb (f64_nan b) && ((a =? b) || (f64_zero a && f64_zero b)).

(** [RAY_ATOM_IS_NULL]; a GUID's payload is its sixteen bytes. *)
Definition ray_atom_is_null (v : value) : bool :=
  match v with
  | VNull => true
  | VAtom t _ aux p =>
      if (t =? RAY_F64) || (t =? RAY_F32) then f64_nan p
      else if (t =? RAY_I64) || (t =? RAY_TIMESTAMP) then p =? INT64_MIN
      else if (t =? RAY_I32) || (t =? RAY_DATE) || (t =? RAY_TIME) then p =? - 2 ^ 31
      else if t =? RAY_I16 then p =? - 2 ^ 15
      else if t =? RAY_STR then false
      else if t =? RAY_GUID then p =? 0
      else aux
  | _ => false
  end.

Definition is_truthy (v : value) : bool :=
  if ray_atom_is_null v then false else
  match v with
  | VAtom t _ _ p =>
      if (t =? RAY_BOOL) || (t =? RAY_I64) then negb (p =? 0)
      else if t =? RAY_F64 then negb (f64_zero p)
      else true
  | _ => true
  end.

(** ** Lambdas

    [benv] is ghost: the bindings the compiler saw. *)
Record env := Env { globals : list (Z * value * bool); scopes : list (list (Z * value)) }.
Record bytecode := Bytecode { bc : list Z; bconsts : list value; nlocals : Z; benv : env }.
Record lambda := Lambda { params : list Z; body : list value; compiled : option bytecode }.

(** The state of a thread: [X] is whatever else builtins act on. *)
Record world (X : Type) := World {
  genv : env;
  lambdas : Z → lambda;
  raise_val : option value;
  restricted : bool;
  interrupted : bool;
  other : X
}.
Arguments World {X} _ _ _ _ _ _.
Arguments genv {X} _.
Arguments lambdas {X} _.
Arguments raise_val {X} _.
Arguments restricted {X} _.
Arguments interrupted {X} _.
Arguments other {X} _.

Section world.
Context {X : Type}.
Implicit Types (w : world X).
Definition with_env w (e : env) : world X :=
  World e (lambdas w) (raise_val w) (restricted w) (interrupted w) (other w).
Definition with_lambda w (a : Z) (l : lambda) : world X :=
  World (genv w) (λ b, if b =? a then l else lambdas w b) (raise_val w) (restricted w) (interrupted w) (other w).
Definition with_raise w (v : option value) : world X :=
  World (genv w) (lambdas w) v (restricted w) (interrupted w) (other w).
End world.

(** ** The symbol table, as the language sees it *)
Class Symbols := {
  ray_sym_intern : string → Z;
  ray_sym_str : Z → option string;
  ray_sym_is_dotted : Z → bool
}.
(** Reading and writing a dotted name walks dictionaries and linked columns. *)
Class Dotted (X : Type) := {
  dotted_get : env → Z → option value;
  dotted_resolve : world X → Z → option value * world X;
  dotted_set : bool → env → Z → value → env + string
}.

Section env.
Context `{Symbols}.

Definition ENV_CAP : Z := 1024.
Definition RAY_SCOPE_CAP : Z := 64.

Definition ray_sym_is_reserved (id : Z) : bool :=
  match ray_sym_str id with
  | Some (String c _) => bool_decide (c = "."%char)
  | _ => false
  end.
Definition ray_sym_is_ipc_hook (id : Z) : bool :=
  existsb (λ n, ray_sym_intern n =? id)
    [".ipc.on.open"; ".ipc.on.close"; ".ipc.on.sync"; ".ipc.on.async"; ".ipc.on.auth"]%string.

(** ** Lookup *)
Fixpoint frame_get (f : list (Z * value)) (id : Z) : option value :=
  match f with
  | [] => None
  | (k, v) :: f => if k =? id then Some v else frame_get f id
  end.
Fixpoint scopes_get (fs : list (list (Z * value))) (id : Z) : option value :=
  match fs with
  | [] => None
  | f :: fs => match frame_get f id with Some v => Some v | None => scopes_get fs id end
  end.
Definition env_lookup_flat (e : env) (id : Z) : option value :=
  match scopes_get (scopes e) id with
  | Some v => Some v
  | None => frame_get (map fst (globals e)) id
  end.

(** ** Writing *)
Fixpoint bind_frame (f : list (Z * value)) (id : Z) (v : value) : list (Z * value) :=
  match f with
  | [] => [(id, v)]
  | (k, x) :: f => if k =? id then (k, v) :: f else (k, x) :: bind_frame f id v
  end.
Fixpoint rebind (g : list (Z * value * bool)) (id : Z) (v : value) : option (list (Z * value * bool)) :=
  match g with
  | [] => None
  | (k, x, u) :: g => if k =? id then Some ((k, v, true) :: g) else g' ← rebind g id v; Some ((k, x, u) :: g')
  end.
Definition bind_global (g : list (Z * value * bool)) (id : Z) (v : value) : option (list (Z * value * bool)) :=
  match rebind g id v with
  | Some g => Some g
  | None => if ENV_CAP <=? zlen g then None else Some (g ++ [(id, v, true)])
  end.

Context {X : Type} `{Dotted X}.
Implicit Types (w : world X).

Definition ray_env_get (e : env) (id : Z) : option value :=
  match env_lookup_flat e id with
  | Some v => Some v
  | None => if ray_sym_is_dotted id then dotted_get e id else None
  end.
Definition ray_env_resolve w (id : Z) : option value * world X :=
  match env_lookup_flat (genv w) id with
  | Some v => (Some v, w)
  | None => if ray_sym_is_dotted id then dotted_resolve w id else (None, w)
  end.

(** [inr code] is an error. *)
Definition ray_env_set (e : env) (id : Z) (v : value) : env + string :=
  if ray_sym_is_reserved id && negb (ray_sym_is_ipc_hook id) then inr "reserve"%string else
  if ray_sym_is_dotted id then dotted_set false e id v else
  match bind_global (globals e) id v with
  | Some g => inl (Env g (scopes e))
  | None => inr "oom"%string
  end.
Definition ray_env_set_local (e : env) (id : Z) (v : value) : env + string :=
  if ray_sym_is_reserved id && negb (ray_sym_is_ipc_hook id) then inr "reserve"%string else
  match scopes e with
  | [] => ray_env_set e id v
  | f :: fs =>
      if ray_sym_is_dotted id then dotted_set true e id v else inl (Env (globals e) (bind_frame f id v :: fs))
  end.

(** ** Scope frames *)
Definition ray_env_push_scope (e : env) : env + string :=
  if RAY_SCOPE_CAP <=? zlen (scopes e) then inr "oom"%string else inl (Env (globals e) ([] :: scopes e)).
Definition ray_env_pop_scope (e : env) : env := Env (globals e) (tail (scopes e)).
(** [while (ray_env_scope_depth() > depth) ray_env_pop_scope();] *)
Definition unwind_scopes (depth : Z) (e : env) : env :=
  Env (globals e) (drop (Z.to_nat (zlen (scopes e) - depth)) (scopes e)).

(** The locals of a compiled frame as a scope frame: [syms] names the slots. *)
Fixpoint bind_slots (e : env) (syms : list Z) (slots : list (option value)) : env + string :=
  match syms, slots with
  | id :: syms, Some v :: slots =>
      match ray_env_set_local e id v with
      | inl e => bind_slots e syms slots
      | inr err => if (err =? "reserve")%string then bind_slots e syms slots else inr err
      end
  | _ :: syms, None :: slots => bind_slots e syms slots
  | _, _ => inl e
  end.
Definition ray_env_scope_bind (e : env) (syms : list Z) (slots : list (option value)) (self_obj : value) :
    env + string :=
  match ray_env_push_scope e with
  | inr err => inr err
  | inl e =>
      let e := match ray_env_set_local e (ray_sym_intern "self") self_obj with inl e => e | inr _ => e end in
      bind_slots e syms slots
  end.
(** And back: the values the frame holds now. *)
Fixpoint sync_slots (f : list (Z * value)) (syms : list Z) (slots : list (option value)) : list (option value) :=
  match syms, slots with
  | id :: syms, s :: slots =>
      (match frame_get f id with Some v => Some v | None => s end) :: sync_slots f syms slots
  | _, slots => slots
  end.
Definition ray_env_scope_sync (e : env) (syms : list Z) (slots : list (option value)) :
    env * list (option value) :=
  (ray_env_pop_scope e, match scopes e with f :: _ => sync_slots f syms slots | [] => slots end).
End env.
