(* ===== verification/Compile.v ===== *)
(** * The bytecode compiler ([src/src/lang/compile.c])

    From the body of a lambda to bytes and a constant pool. The compiler is one
    growing record, written as the C code writes it: bytes are appended, jump
    offsets are patched in place. Growing a buffer always succeeds here, and
    source positions for error traces are left out. *)

From stdpp Require Import strings.
From S2P Require Import Prelude Lang.
Local Open Scope Z_scope.

Definition OP_RET : Z := 0.
Definition OP_JMP : Z := 1.
Definition OP_JMPF : Z := 2.
Definition OP_LOADCONST : Z := 3.
Definition OP_LOADENV : Z := 4.
Definition OP_STOREENV : Z := 5.
Definition OP_POP : Z := 6.
Definition OP_RESOLVE : Z := 7.
Definition OP_CALL1 : Z := 8.
Definition OP_CALL2 : Z := 9.
Definition OP_CALLN : Z := 10.
Definition OP_CALLF : Z := 11.
Definition OP_CALLS : Z := 12.
Definition OP_CALLD : Z := 13.
Definition OP_DUP : Z := 14.
Definition OP_LOADCONST_W : Z := 15.
Definition OP_RESOLVE_W : Z := 16.
Definition OP_TRAP : Z := 17.
Definition OP_TRAP_END : Z := 18.
Definition OP_STOREGLOBAL : Z := 19.
Definition OP_STOREGLOBAL_W : Z := 20.
Definition OP_SCOPE_BEGIN : Z := 21.
Definition OP_SCOPE_END : Z := 22.
Definition OP_TRYH : Z := 23.
Definition OP_FORCE : Z := 24.

(** [compiler_t]: [locals] holds the names, a local's slot is its index. *)
Record compiler := Compiler {
  code : list Z;
  consts : list value;
  locals : list Z;
  max_locals : Z;
  error : bool;
  trap_depth : Z
}.
Definition compiler_init : compiler := Compiler [] [] [] 0 false 0.

Definition with_code (c : compiler) (x : list Z) : compiler :=
  Compiler x (consts c) (locals c) (max_locals c) (error c) (trap_depth c).
Definition with_consts (c : compiler) (x : list value) : compiler :=
  Compiler (code c) x (locals c) (max_locals c) (error c) (trap_depth c).
Definition set_error (c : compiler) : compiler :=
  Compiler (code c) (consts c) (locals c) (max_locals c) true (trap_depth c).
Definition with_trap_depth (c : compiler) (x : Z) : compiler :=
  Compiler (code c) (consts c) (locals c) (max_locals c) (error c) x.

(** ** Emitting *)
Definition emit (c : compiler) (byte : Z) : compiler := with_code c (code c ++ [byte]).

(** An opcode with a constant's index, in its narrow or its wide form. *)
Definition emit_indexed (c : compiler) (op op_w idx : Z) : compiler :=
  if idx <? 256 then emit (emit c op) idx
  else emit (emit (emit c op_w) (u8 (Z.shiftr idx 8))) (Z.land idx 0xff).
Definition emit_const (c : compiler) (idx : Z) : compiler := emit_indexed c OP_LOADCONST OP_LOADCONST_W idx.

(** The position of the offset, to be patched. *)
Definition emit_jump (c : compiler) (opcode : Z) : compiler * Z :=
  let c := emit c opcode in (emit (emit c 0) 0, zlen (code c)).
(** [pos] comes from [emit_jump], so both bytes exist. *)
Definition patch_jump (c : compiler) (pos : Z) : compiler :=
  let raw := zlen (code c) - pos - 2 in
  if (32767 <? raw) || (raw <? -32768) then set_error c else
  with_code c (<[Z.to_nat (pos + 1) := Z.land raw 0xff]> (<[Z.to_nat pos := Z.shiftr (u16 raw) 8]> (code c))).

(** ** Constants *)

(** Whether two objects are one: the addresses of syntax trees are not in this
    model. *)
Class Identity := same_object : value → value → bool.
Class IdentityLaws `{Identity} : Prop := same_object_eq a b : same_object a b = true → a = b.

Section compile.
Context `{Identity} `{Symbols} {X : Type} `{Dotted X}.

Definition const_matches (value v : value) : bool :=
  same_object v value ||
  match v, value with
  | VAtom t _ _ p, VAtom t' _ _ p' =>
      (t =? t') && (((t =? RAY_I64) && (p =? p')) || ((t =? RAY_F64) && f64_eq p p') || ((t =? RAY_BOOL) && (p =? p')))
  | VSym a id, VSym a' id' => (id =? id') && (a =? a')
  | _, _ => false
  end.
Fixpoint find_const (cs : list value) (value : value) (i : Z) : option Z :=
  match cs with
  | [] => None
  | v :: cs => if const_matches value v then Some i else find_const cs value (i + 1)
  end.
Definition add_constant (c : compiler) (value : value) : compiler * Z :=
  match find_const (consts c) value 0 with
  | Some i => (c, i)
  | None => (with_consts c (consts c ++ [value]), zlen (consts c))
  end.
Definition emit_value (c : compiler) (v : value) : compiler :=
  let '(c, idx) := add_constant c v in emit_const c idx.

(** ** Locals *)
Fixpoint find_down (rev_locals : list Z) (id i : Z) : Z :=
  match rev_locals with
  | [] => -1
  | x :: l => if x =? id then i else find_down l id (i - 1)
  end.
Definition find_local (c : compiler) (id : Z) : Z := find_down (rev (locals c)) id (zlen (locals c) - 1).
Definition add_local (c : compiler) (id : Z) : compiler * Z :=
  let n := zlen (locals c) in
  if 256 <=? n then (c, -1) else
  (Compiler (code c) (consts c) (locals c ++ [id])
     (if max_locals c <? n + 1 then n + 1 else max_locals c) (error c) (trap_depth c), n).

(** ** Special forms *)
Definition sf_set : Z := ray_sym_intern "set".
Definition sf_let : Z := ray_sym_intern "let".
Definition sf_if : Z := ray_sym_intern "if".
Definition sf_do : Z := ray_sym_intern "do".
Definition sf_fn : Z := ray_sym_intern "fn".
Definition sf_self : Z := ray_sym_intern "self".
Definition sf_try : Z := ray_sym_intern "try".
Definition sf_return : Z := ray_sym_intern "return".
Definition sf_null : Z := ray_sym_intern "null".
Definition sf_eval : Z := ray_sym_intern "eval".
Definition sf_resolve : Z := ray_sym_intern "resolve".

Definition sym_is_local_ref (ls : list Z) (id : Z) : bool :=
  if (id =? sf_self) || (id =? sf_eval) || (id =? sf_resolve) then true else existsb (Z.eqb id) ls.
Fixpoint ast_refs_locals (ls : list Z) (ast : value) : bool :=
  match ast with
  | VSym _ id => sym_is_local_ref ls id
  | VVec t _ ids => if t =? RAY_SYM then existsb (sym_is_local_ref ls) ids else false
  | VList _ elems => existsb (ast_refs_locals ls) elems
  | VDict _ keys vals => ast_refs_locals ls keys || ast_refs_locals ls vals
  | _ => false
  end.

Section list.
(** [rec] is [compile_expr]. *)
Context (rec : value → compiler → compiler).

Definition compile_args (args : list value) (c : compiler) : compiler := foldl (λ c e, rec e c) c args.

Definition compile_set (name e : value) (c : compiler) : compiler :=
  match name with
  | VSym _ _ =>
      let c := rec e c in
      let '(c, idx) := add_constant c name in
      emit_indexed c OP_STOREGLOBAL OP_STOREGLOBAL_W idx
  | _ => set_error c
  end.

Definition compile_let (name e : value) (c : compiler) : compiler :=
  match name with
  | VSym _ id =>
      if ray_sym_is_reserved id && negb (ray_sym_is_ipc_hook id) then set_error c else
      let c := rec e c in
      let c := emit (emit c OP_FORCE) OP_DUP in
      let slot := find_local c id in
      let '(c, slot) := if slot <? 0 then add_local c id else (c, slot) in
      if slot <? 0 then set_error c else
      emit (emit c OP_STOREENV) slot
  | _ => set_error c
  end.

Definition compile_if (cond then_ : value) (else_ : list value) (c : compiler) : compiler :=
  let c := rec cond c in
  let '(c, jmpf_pos) := emit_jump c OP_JMPF in
  let c := rec then_ c in
  let '(c, jmp_pos) := emit_jump c OP_JMP in
  let c := patch_jump c jmpf_pos in
  let c := match else_ with
    | e :: _ => rec e c
    | [] => emit_value c (make_i64 0)
    end in
  patch_jump c jmp_pos.

Definition compile_do (e : value) (es : list value) (c : compiler) : compiler :=
  foldl (λ c e, rec e (emit c OP_POP)) (rec e c) es.

Definition compile_try (e handler : value) (c : compiler) : compiler :=
  let '(c, err_slot) := add_local c (-1) in
  if err_slot <? 0 then set_error c else
  let '(c, trap_pos) := emit_jump c OP_TRAP in
  let c := rec e (with_trap_depth c (trap_depth c + 1)) in
  let c := with_trap_depth c (trap_depth c - 1) in
  let c := emit c OP_TRAP_END in
  let '(c, jmp_pos) := emit_jump c OP_JMP in
  let c := patch_jump c trap_pos in
  let c := emit (emit c OP_STOREENV) err_slot in
  let c := rec handler c in
  let c := emit (emit c OP_LOADENV) err_slot in
  let c := emit c OP_TRYH in
  patch_jump c jmp_pos.

Definition compile_return (x : option value) (c : compiler) : compiler :=
  let c := match x with Some e => rec e c | None => emit_value c VNull end in
  emit (foldl (λ c _, emit c OP_TRAP_END) c (range 0 (trap_depth c))) OP_RET.

(** A form evaluated by the tree walker. *)
Definition compile_dynamic (ast : value) (c : compiler) : compiler :=
  emit (emit (emit_value c ast) OP_CALLD) 0.

(** The special forms known by name; [None]: not one of them. *)
Definition compile_special (ast : value) (id : Z) (args : list value) (c : compiler) : option compiler :=
  if id =? sf_set then match args with [name; e] => Some (compile_set name e c) | _ => None end
  else if id =? sf_let then match args with [name; e] => Some (compile_let name e c) | _ => None end
  else if id =? sf_if then match args with cond :: e :: es => Some (compile_if cond e es c) | _ => None end
  else if id =? sf_do then match args with e :: es => Some (compile_do e es c) | [] => None end
  else if id =? sf_fn then match args with _ :: _ :: _ => Some (compile_dynamic ast c) | _ => None end
  else if id =? sf_try then match args with [e; h] => Some (compile_try e h c) | _ => None end
  else if id =? sf_return then
    match args with
    | [] => Some (compile_return None c)
    | [e] => Some (compile_return (Some e) c)
    | _ => None
    end
  else None.

Definition compile_self (args : list value) (c : compiler) : compiler :=
  if 64 <? zlen args then set_error c else
  emit (emit (compile_args args c) OP_CALLS) (zlen args).

(** A special form of the runtime: the tree walker runs it, with the locals in
    a scope frame when it may mention them. *)
Definition compile_runtime_special (ast : value) (c : compiler) : compiler :=
  if negb (ast_refs_locals (locals c) ast) then compile_dynamic ast c else
  let '(c, syms_idx) := add_constant c (VVec RAY_I64 0 (locals c)) in
  let c := emit (emit_const c syms_idx) OP_SCOPE_BEGIN in
  let c := compile_dynamic ast c in
  emit (emit_const c syms_idx) OP_SCOPE_END.

(** The call instruction is chosen by what the head is bound to now. *)
Definition compile_call (fn : option value) (head : value) (args : list value) (c : compiler) : compiler :=
  let c := match fn with
    | Some (VFn _ _ _ _ as f) => emit_value c f
    | _ => rec head c
    end in
  let argc := zlen args in
  if 64 <? argc then set_error c else
  let c := compile_args args c in
  match fn with
  | Some (VFn FUnary _ _ _) => if argc =? 1 then emit c OP_CALL1 else emit (emit c OP_CALLF) argc
  | Some (VFn FBinary _ _ _) => if argc =? 2 then emit c OP_CALL2 else emit (emit c OP_CALLF) argc
  | Some (VFn FVary _ _ _) => emit (emit c OP_CALLN) argc
  | _ => emit (emit c OP_CALLF) argc
  end.

Definition compile_list (E : env) (ast head : value) (args : list value) (c : compiler) : compiler :=
  match (match head with VSym _ id => if is_name head then compile_special ast id args c else None | _ => None end) with
  | Some c => c
  | None =>
      if is_name head && match head with VSym _ id => id =? sf_self | _ => false end
      then compile_self args c
      else
        let fn := match head with VSym _ id => if is_name head then ray_env_get E id else None | _ => None end in
        if match fn with Some f => has (attrs_of f) RAY_FN_SPECIAL_FORM | None => false end
        then compile_runtime_special ast c
        else compile_call fn head args c
  end.
End list.

Fixpoint compile_expr (E : env) (ast : value) (c : compiler) {struct ast} : compiler :=
  if error c then c else
  match ast with
  | VErr _ => c
  | VSym _ id =>
      if is_name ast then
        if id =? sf_null then emit_value c VNull else
        let slot := find_local c id in
        if 0 <=? slot then emit (emit c OP_LOADENV) slot
        else let '(c, idx) := add_constant c ast in emit_indexed c OP_RESOLVE OP_RESOLVE_W idx
      else emit_value c ast
  | VList _ (head :: args) => compile_list (λ e c, compile_expr E e c) E ast head args c
  | _ => emit_value c ast
  end.

(** ** The public entry point: [None] when the lambda stays uncompiled *)
Definition add_param (id : Z) (c : compiler) : compiler :=
  if error c then c else
  let '(c, slot) := add_local c id in if slot <? 0 then set_error c else c.

Definition compile_body (E : env) (es : list value) (c : compiler) : compiler :=
  match es with
  | [] => c
  | e :: es => compile_do (compile_expr E) e es c
  end.

Definition ray_compile (E : env) (l : lambda) : option bytecode :=
  let c := foldl (λ c id, add_param id c) compiler_init (params l) in
  let c := emit (compile_body E (body l) c) OP_RET in
  if error c then None else Some (Bytecode (code c) (consts c) (max_locals c) E).
End compile.
