(* ===== verification/Vm.v ===== *)
(** * The stack machine ([vm_exec], [src/src/lang/eval.c])

    One instruction per step. Undefined behaviour — reading code, constants,
    slots or the stack out of bounds, popping a null cell where an object is
    dereferenced, calling something that is not a function — is [None].

    What a builtin's function pointer does, and the tree walker behind
    [ray_eval] and the calls it makes, are the interface [Dynamic]; [None] there
    means the call does not return, and the machine hangs with it. Values are
    never lazy here, so [OP_FORCE] and the forcing of arguments do nothing. *)

From stdpp Require Import strings.
From S2P Require Import Prelude Lang Compile.
Local Open Scope Z_scope.

Definition VM_STACK_SIZE : Z := 1024.
Definition VM_TRAP_SIZE : Z := 16.

Class Dynamic (X : Type) := {
  call_unary : Z → value → world X → option (value * world X);
  call_binary : Z → value → value → world X → option (value * world X);
  call_vary : Z → list value → world X → option (value * world X);
  atomic_map_unary : Z → value → world X → option (value * world X);
  atomic_map_binary_op : Z → Z → value → value → world X → option (value * world X);
  ray_eval : value → world X → option (value * world X);
  call_lambda : Z → list value → world X → option (value * world X);
  ray_nil_fn : Z;
  ray_type_fn : Z;
  ray_eq_fn : Z;
  ray_neq_fn : Z
}.

(** A frame to return to ([c_fn] is [None] for a self call), an armed trap. *)
Record vm_ctx := Ctx { c_fn : option Z; c_fp : Z; c_ip : Z }.
Record vm_trap := Trap {
  t_rp : Z; t_sp : Z; t_ip : Z; t_fn : Z; t_fp : Z; t_nlocals : Z; t_scope : Z
}.
(** [ray_exec_t] and the interpreter's registers. The stack is kept top first,
    [sp] is its length; a cell of a local not yet bound is null. *)
Record exec := Exec {
  ps : list (option value);
  rs : list vm_ctx;
  ts : list vm_trap;
  fn : Z;
  fp : Z;
  n_locals : Z;
  xcode : list Z;
  cpool : list value;
  ip : Z;
  scope_base : Z
}.
Definition sp (s : exec) : Z := zlen (ps s).

Definition with_ps (s : exec) (x : list (option value)) : exec :=
  Exec x (rs s) (ts s) (fn s) (fp s) (n_locals s) (xcode s) (cpool s) (ip s) (scope_base s).
Definition with_ip (s : exec) (x : Z) : exec :=
  Exec (ps s) (rs s) (ts s) (fn s) (fp s) (n_locals s) (xcode s) (cpool s) x (scope_base s).
Definition with_ts (s : exec) (x : list vm_trap) : exec :=
  Exec (ps s) (rs s) x (fn s) (fp s) (n_locals s) (xcode s) (cpool s) (ip s) (scope_base s).

(** What a step gives. *)
Inductive next (X : Type) := Run (s : exec) (w : world X) | Halt (v : value) (w : world X) | Hang.
Arguments Run {X} _ _.
Arguments Halt {X} _ _.
Arguments Hang {X}.

Section vm.
Context `{Identity} `{Symbols} {X : Type} `{Dotted X} `{Dynamic X}.
Implicit Types (w : world X) (s : exec).

(** ** Errors

    [vm_error_cleanup]: [obj] is [vm_err_obj] and [str] the default code.
    Pushing the error value may itself overflow, which is a new error. *)
Definition err_value (w : world X) (obj : option value) : value :=
  match raise_val w with Some v => v | None => match obj with Some v => v | None => make_i64 0 end end.

Fixpoint vm_unwind (traps : list vm_trap) s w (obj : option value) (str : string) : option (next X) :=
  match traps with
  | t :: traps =>
      let rs' := drop (Z.to_nat (zlen (rs s) - t_rp t)) (rs s) in
      let ps' := drop (Z.to_nat (sp s - t_sp t)) (ps s) in
      let w := with_env w (unwind_scopes (t_scope t) (genv w)) in
      let err_val := err_value w obj in
      let w := with_raise w None in
      b ← compiled (lambdas w (t_fn t));
      let s := Exec ps' rs' traps (t_fn t) (t_fp t) (t_nlocals t) (bc b) (bconsts b) (t_ip t) (scope_base s) in
      if VM_STACK_SIZE <=? zlen ps' then vm_unwind traps s w None "limit"
      else Some (Run (with_ps s (Some err_val :: ps')) w)
  | [] =>
      let w := with_env w (unwind_scopes (scope_base s) (genv w)) in
      Some (Halt (match obj with Some v => v | None => VErr str end) w)
  end.
Definition vm_error s w (obj : option value) (str : string) : option (next X) := vm_unwind (ts s) s w obj str.
Definition vm_raise s w (code : string) : option (next X) := vm_error s w (Some (VErr code)) "domain".
Definition vm_error_limit s w : option (next X) := vm_error s w None "limit".

(** ** Stack and operands *)
Definition PUSH s w (v : value) : option (next X) :=
  if VM_STACK_SIZE <=? sp s then vm_error_limit s w else Some (Run (with_ps s (Some v :: ps s)) w).
Definition POP s : option (option value * exec) :=
  match ps s with c :: ps' => Some (c, with_ps s ps') | [] => None end.
Definition POPV s : option (value * exec) :=
  '(c, s) ← POP s; v ← c; Some (v, s).
(** [LOCAL(slot)], as an index into the stack. *)
Definition local_at s (slot : Z) : Z := sp s - 1 - (fp s + slot).

Definition read_u8 s : option (Z * exec) :=
  b ← (xcode s).[ip s]; Some (b, with_ip s (ip s + 1)).
Definition read_u16 s : option (Z * exec) :=
  hi ← (xcode s).[ip s]; lo ← (xcode s).[ip s + 1];
  Some (Z.lor (Z.shiftl hi 8) lo, with_ip s (ip s + 2)).
Definition read_s16 s : option (Z * exec) :=
  '(x, s) ← read_u16 s; Some (swrap 16 x, s).
Definition read_index s (wide : bool) : option (Z * exec) := if wide then read_u16 s else read_u8 s.

Fixpoint pop_args (n : nat) s (acc : list value) : option (list value * exec) :=
  match n with
  | O => Some (acc, s)
  | S n => '(v, s) ← POPV s; pop_args n s (v :: acc)
  end.

(** The result of a call: an error object fails, anything else is pushed. *)
Definition finish s (r : option (value * world X)) : option (next X) :=
  match r with
  | None => Some Hang
  | Some (v, w) => if is_err v then vm_error s w (Some v) "domain" else PUSH s w v
  end.

(** ** Calling builtins *)
Definition fn_is_restricted w (attrs : Z) : bool := restricted w && has attrs RAY_FN_RESTRICTED.

Definition call1 w (attrs ptr : Z) (arg : value) : option (value * world X) :=
  if fn_is_restricted w attrs then Some (VErr "access", w) else
  match arg with
  | VNull => if (ptr =? ray_nil_fn) || (ptr =? ray_type_fn) then call_unary ptr arg w else Some (VErr "type", w)
  | _ => if has attrs RAY_FN_ATOMIC && (0 <=? type_of arg) then atomic_map_unary ptr arg w else call_unary ptr arg w
  end.
Definition is_null (v : value) : bool := match v with VNull => true | _ => false end.
Definition call2 w (attrs opcode ptr : Z) (left right : value) : option (value * world X) :=
  if fn_is_restricted w attrs then Some (VErr "access", w) else
  if is_null left || is_null right then
    if (ptr =? ray_eq_fn) || (ptr =? ray_neq_fn) then call_binary ptr left right w else Some (VErr "type", w)
  else if has attrs RAY_FN_ATOMIC && ((0 <=? type_of left) || (0 <=? type_of right))
  then atomic_map_binary_op ptr opcode left right w else call_binary ptr left right w.
Definition calln w (attrs ptr : Z) (args : list value) : option (value * world X) :=
  if fn_is_restricted w attrs then Some (VErr "access", w) else call_vary ptr args w.

(** The non-lambda heads of [OP_CALLF]. *)
Definition call_builtin w (f : value) (args : list value) : option (value * world X) :=
  match f with
  | VFn FUnary attrs _ ptr =>
      if fn_is_restricted w attrs then Some (VErr "access", w) else
      match args with [a] => call_unary ptr a w | _ => Some (VErr "arity", w) end
  | VFn FBinary attrs _ ptr =>
      if fn_is_restricted w attrs then Some (VErr "access", w) else
      match args with [a; b] => call_binary ptr a b w | _ => Some (VErr "arity", w) end
  | VFn FVary attrs _ ptr => calln w attrs ptr args
  | _ => Some (VErr "type", w)
  end.

(** [ray_try_handle] and the [call_fn1] it makes. *)
Definition ray_try_handle w (handler err_val : value) : option (value * world X) :=
  match handler with
  | VLambda a => call_lambda a [err_val] w
  | VFn FUnary attrs _ ptr =>
      if fn_is_restricted w attrs then Some (VErr "access", w) else
      if has attrs RAY_FN_ATOMIC && is_collection err_val then atomic_map_unary ptr err_val w
      else call_unary ptr err_val w
  | _ => Some (handler, w)
  end.

(** Lazy compilation. *)
Definition ensure_compiled w (a : Z) : world X :=
  let l := lambdas w a in
  match compiled l with
  | Some _ => w
  | None => match ray_compile (genv w) l with
            | Some b => with_lambda w a (Lambda (params l) (body l) (Some b))
            | None => w
            end
  end.

(** ** Instructions *)
Definition op_loadconst (wide : bool) s w : option (next X) :=
  '(idx, s) ← read_index s wide; v ← (cpool s).[idx]; PUSH s w v.

Definition op_loadenv s w : option (next X) :=
  '(slot, s) ← read_u8 s;
  c ← (ps s).[local_at s slot];
  PUSH s w (match c with Some v => v | None => make_i64 0 end).

Definition op_storeenv s w : option (next X) :=
  '(slot, s) ← read_u8 s;
  '(c, s) ← POP s;
  ps' ← zset (ps s) (local_at s slot) c;
  Some (Run (with_ps s ps') w).

Definition op_pop s w : option (next X) :=
  if fp s + n_locals s <? sp s then '(_, s) ← POP s; Some (Run s w) else Some (Run s w).

Definition op_dup s w : option (next X) :=
  '(v, _) ← POPV s; PUSH s w v.

Definition op_resolve (wide : bool) s w : option (next X) :=
  '(idx, s) ← read_index s wide;
  name_obj ← (cpool s).[idx];
  match name_obj with
  | VSym _ id =>
      match ray_env_resolve w id with
      | (None, w) => vm_error s w None "name"
      | (Some v, w) => if is_err v then vm_error s w (Some v) "domain" else PUSH s w v
      end
  | _ => None
  end.

Definition op_storeglobal (wide : bool) s w : option (next X) :=
  '(idx, s) ← read_index s wide;
  name_obj ← (cpool s).[idx];
  '(v, s') ← POPV s;
  if restricted w then vm_raise s' w "access" else
  match name_obj with
  | VSym _ id =>
      match ray_env_set (genv w) id v with
      | inl e => Some (Run s (with_env w e))
      | inr code => vm_raise s' w code
      end
  | _ => None
  end.

Definition op_jmp s w : option (next X) :=
  '(offset, s) ← read_s16 s;
  let s := with_ip s (ip s + offset) in
  if (offset <? 0) && interrupted w then vm_error s w None "cancel" else Some (Run s w).

Definition op_jmpf s w : option (next X) :=
  '(offset, s) ← read_s16 s;
  '(cond, s) ← POPV s;
  Some (Run (if is_truthy cond then s else with_ip s (ip s + offset)) w).

Definition op_call1 s w : option (next X) :=
  '(arg, s) ← POPV s;
  '(f, s) ← POPV s;
  match f with
  | VFn FUnary attrs _ ptr => finish s (call1 w attrs ptr arg)
  | _ => None
  end.

Definition op_call2 s w : option (next X) :=
  '(rhs, s) ← POPV s;
  '(lhs, s) ← POPV s;
  '(f, s) ← POPV s;
  match f with
  | VFn FBinary attrs opcode ptr => finish s (call2 w attrs opcode ptr lhs rhs)
  | _ => None
  end.

Definition op_calln s w : option (next X) :=
  '(n, s) ← read_u8 s;
  if 64 <? n then vm_error s w None "domain" else
  '(args, s) ← pop_args (Z.to_nat n) s [];
  '(f, s) ← POPV s;
  match f with
  | VFn FVary attrs _ ptr => finish s (calln w attrs ptr args)
  | _ => None
  end.

(** The slots of a new frame, bottom first. *)
Definition new_slots (args : list value) (n : Z) : list (option value) :=
  map Some args ++ replicate (Z.to_nat (n - zlen args)) None.

Definition op_callf s w : option (next X) :=
  '(n, s) ← read_u8 s;
  if 64 <? n then vm_error s w None "domain" else
  '(args, s) ← pop_args (Z.to_nat n) s [];
  '(f, s) ← POPV s;
  match f with
  | VLambda a =>
      let w := ensure_compiled w a in
      let l := lambdas w a in
      match compiled l with
      | Some b =>
          if (VM_STACK_SIZE <=? zlen (rs s)) || (VM_STACK_SIZE <=? sp s + nlocals b) then vm_error_limit s w else
          if negb (n =? zlen (params l)) then vm_raise s w "arity" else
          let s := Exec (rev (new_slots args (nlocals b)) ++ ps s) (Ctx (Some (fn s)) (fp s) (ip s) :: rs s) (ts s)
                     a (sp s) (nlocals b) (xcode s) (cpool s) (ip s) (scope_base s) in
          if interrupted w then vm_error s w None "cancel" else
          Some (Run (Exec (ps s) (rs s) (ts s) (fn s) (fp s) (n_locals s) (bc b) (bconsts b) 0 (scope_base s)) w)
      | None => finish s (call_lambda a args w)
      end
  | _ => finish s (call_builtin w f args)
  end.

Definition op_calls s w : option (next X) :=
  '(argc, s) ← read_u8 s;
  if VM_STACK_SIZE <=? zlen (rs s) then vm_error_limit s w else
  if VM_STACK_SIZE <=? sp s + n_locals s then vm_error_limit s w else
  Some (Run (Exec (replicate (Z.to_nat (n_locals s - argc)) None ++ ps s) (Ctx None (fp s) (ip s) :: rs s) (ts s)
    (fn s) (sp s - argc) (n_locals s) (xcode s) (cpool s) 0 (scope_base s)) w).

(** The compiler emits it with operand 0 only. *)
Definition op_calld s w : option (next X) :=
  '(n, s) ← read_u8 s;
  if n =? 0 then '(ast, s) ← POPV s; finish s (ray_eval ast w)
  else
    '(args, s) ← pop_args (Z.to_nat n) s [];
    '(f, s) ← POPV s;
    finish s (ray_eval (VList 0 (f :: args)) w).

Definition op_ret s w : option (next X) :=
  '(result, s) ← (if fp s + n_locals s <? sp s then POPV s else Some (VNull, s));
  let below := drop (Z.to_nat (sp s - fp s)) (ps s) in
  match rs s with
  | [] => Some (Halt result w)
  | c :: rs' =>
      match c_fn c with
      | Some a =>
          b ← compiled (lambdas w a);
          PUSH (Exec below rs' (ts s) a (c_fp c) (nlocals b) (bc b) (bconsts b) (c_ip c) (scope_base s)) w result
      | None =>
          PUSH (Exec below rs' (ts s) (fn s) (c_fp c) (n_locals s) (xcode s) (cpool s) (c_ip c) (scope_base s)) w result
      end
  end.

Definition op_trap s w : option (next X) :=
  '(offset, s) ← read_s16 s;
  if VM_TRAP_SIZE <=? zlen (ts s) then vm_error_limit s w else
  Some (Run (with_ts s (Trap (zlen (rs s)) (sp s) (ip s + offset) (fn s) (fp s) (n_locals s)
                          (zlen (scopes (genv w))) :: ts s)) w).
Definition op_trap_end s w : option (next X) := Some (Run (with_ts s (tail (ts s))) w).

Definition op_tryh s w : option (next X) :=
  '(err_val, s) ← POPV s;
  '(handler, s) ← POPV s;
  finish s (ray_try_handle w handler err_val).

(** The cells of the current frame's slots, slot 0 first. *)
Definition frame_slots s (n : nat) : list (option value) := take n (rev (take (Z.to_nat (sp s - fp s)) (ps s))).
Definition set_slots s (slots : list (option value)) : list (option value) :=
  rev (slots ++ drop (length slots) (rev (take (Z.to_nat (sp s - fp s)) (ps s)))) ++
  drop (Z.to_nat (sp s - fp s)) (ps s).

Definition op_scope_begin s w : option (next X) :=
  '(syms, s) ← POPV s;
  match syms with
  | VVec _ _ ids =>
      if sp s - fp s <? zlen ids then None else
      match ray_env_scope_bind (genv w) ids (frame_slots s (length ids)) (VLambda (fn s)) with
      | inl e => Some (Run s (with_env w e))
      | inr _ => vm_error_limit s w
      end
  | _ => None
  end.
Definition op_scope_end s w : option (next X) :=
  '(syms, s) ← POPV s;
  match syms with
  | VVec _ _ ids =>
      if sp s - fp s <? zlen ids then None else
      let '(e, slots) := ray_env_scope_sync (genv w) ids (frame_slots s (length ids)) in
      Some (Run (with_ps s (set_slots s slots)) (with_env w e))
  | _ => None
  end.

Definition vm_dispatch (op : Z) s w : option (next X) :=
  if op =? OP_RET then op_ret s w
  else if op =? OP_JMP then op_jmp s w
  else if op =? OP_JMPF then op_jmpf s w
  else if op =? OP_LOADCONST then op_loadconst false s w
  else if op =? OP_LOADENV then op_loadenv s w
  else if op =? OP_STOREENV then op_storeenv s w
  else if op =? OP_POP then op_pop s w
  else if op =? OP_RESOLVE then op_resolve false s w
  else if op =? OP_CALL1 then op_call1 s w
  else if op =? OP_CALL2 then op_call2 s w
  else if op =? OP_CALLN then op_calln s w
  else if op =? OP_CALLF then op_callf s w
  else if op =? OP_CALLS then op_calls s w
  else if op =? OP_CALLD then op_calld s w
  else if op =? OP_DUP then op_dup s w
  else if op =? OP_LOADCONST_W then op_loadconst true s w
  else if op =? OP_RESOLVE_W then op_resolve true s w
  else if op =? OP_TRAP then op_trap s w
  else if op =? OP_TRAP_END then op_trap_end s w
  else if op =? OP_STOREGLOBAL then op_storeglobal false s w
  else if op =? OP_STOREGLOBAL_W then op_storeglobal true s w
  else if op =? OP_SCOPE_BEGIN then op_scope_begin s w
  else if op =? OP_SCOPE_END then op_scope_end s w
  else if op =? OP_TRYH then op_tryh s w
  else if op =? OP_FORCE then '(v, s) ← POP s; match v with Some v => PUSH s w v | None => Some (Run (with_ps s (None :: ps s)) w) end
  else None.

Definition vm_step s w : option (next X) := '(op, s) ← read_u8 s; vm_dispatch op s w.

(** [n] steps, or fewer when the machine halts or hangs. *)
Fixpoint vm_run (n : nat) s w : option (next X) :=
  match n with
  | O => Some (Run s w)
  | S n => r ← vm_step s w; match r with Run s w => vm_run n s w | r => Some r end
  end.

(** ** Entry: [vm_exec] on a compiled lambda *)
Definition vm_init w (a : Z) (b : bytecode) (args : list value) : exec :=
  Exec (rev (new_slots args (nlocals b))) [] [] a 0 (nlocals b) (bc b) (bconsts b) 0 (zlen (scopes (genv w))).
Definition vm_exec (n : nat) w (a : Z) (args : list value) : option (next X) :=
  let l := lambdas w a in
  if negb (zlen args =? zlen (params l)) then Some (Halt (VErr "arity") w) else
  b ← compiled l;
  vm_run n (vm_init w a b args) w.
End vm.
