(* ===== verification/VmRef.v ===== *)
(** * Reference semantics of compiled lambdas

    What a lambda means, without bytes, jumps, a constant pool or a trap stack.
    [elab] resolves the names of a body: locals become slots, heads bound to
    builtins become calls of that builtin, the forms left to the tree walker
    become [EDyn] and [EScope]. [ref_exp] evaluates the result directly; errors
    and early returns are outcomes.

    The machine's three limits (operand stack, return stack, traps) are part of
    the meaning, because a handler can observe them: every evaluation knows the
    heights it runs at. *)

From stdpp Require Import strings.
From S2P Require Import Prelude Lang Compile Vm.
Local Open Scope Z_scope.

Inductive exp :=
| EConst (v : value)
| ELocal (slot : Z)
| EGlobal (id : Z)
| ESet (id : Z) (e : exp)
| ELet (slot : Z) (e : exp)
| EIf (cond then_ else_ : exp)
| EDo (e : exp) (es : list exp)
| EDyn (ast : value)
| EScope (ids : list Z) (ast : value)
| ETry (slot : Z) (e handler : exp)
| EReturn (e : exp)
| ESelf (args : list exp)
| ECall1 (attrs opcode ptr : Z) (arg : exp)
| ECall2 (attrs opcode ptr : Z) (lhs rhs : exp)
| ECallN (attrs opcode ptr : Z) (args : list exp)
| ECall (head : exp) (args : list exp).

Section elab.
Context `{Symbols} {X : Type} `{Dotted X}.

Definition slot_of (ls : list Z) (id : Z) : Z := find_down (rev ls) id (zlen ls - 1).
Definition declare (ls : list Z) (id : Z) : option (Z * list Z) :=
  if 256 <=? zlen ls then None else Some (zlen ls, ls ++ [id]).

Section list.
Context (rec : value → list Z → option (exp * list Z)).

Fixpoint elab_args (args : list value) (ls : list Z) : option (list exp * list Z) :=
  match args with
  | [] => Some ([], ls)
  | a :: args => '(e, ls) ← rec a ls; '(es, ls) ← elab_args args ls; Some (e :: es, ls)
  end.

Definition elab_set (name e : value) (ls : list Z) : option (exp * list Z) :=
  match name with VSym _ id => '(e, ls) ← rec e ls; Some (ESet id e, ls) | _ => None end.

Definition elab_let (name e : value) (ls : list Z) : option (exp * list Z) :=
  match name with
  | VSym _ id =>
      if ray_sym_is_reserved id && negb (ray_sym_is_ipc_hook id) then None else
      '(e, ls) ← rec e ls;
      if slot_of ls id <? 0 then '(slot, ls) ← declare ls id; Some (ELet slot e, ls)
      else Some (ELet (slot_of ls id) e, ls)
  | _ => None
  end.

Definition elab_if (cond then_ : value) (else_ : list value) (ls : list Z) : option (exp * list Z) :=
  '(c, ls) ← rec cond ls;
  '(t, ls) ← rec then_ ls;
  '(f, ls) ← (match else_ with e :: _ => rec e ls | [] => Some (EConst (make_i64 0), ls) end);
  Some (EIf c t f, ls).

Definition elab_do (e : value) (es : list value) (ls : list Z) : option (exp * list Z) :=
  '(e, ls) ← rec e ls; '(es, ls) ← elab_args es ls; Some (EDo e es, ls).

Definition elab_try (e handler : value) (ls : list Z) : option (exp * list Z) :=
  '(slot, ls) ← declare ls (-1);
  '(e, ls) ← rec e ls;
  '(h, ls) ← rec handler ls;
  Some (ETry slot e h, ls).

Definition elab_special (ast : value) (id : Z) (args : list value) (ls : list Z) :
    option (option (exp * list Z)) :=
  if id =? sf_set then match args with [name; e] => Some (elab_set name e ls) | _ => None end
  else if id =? sf_let then match args with [name; e] => Some (elab_let name e ls) | _ => None end
  else if id =? sf_if then match args with cond :: e :: es => Some (elab_if cond e es ls) | _ => None end
  else if id =? sf_do then match args with e :: es => Some (elab_do e es ls) | [] => None end
  else if id =? sf_fn then match args with _ :: _ :: _ => Some (Some (EDyn ast, ls)) | _ => None end
  else if id =? sf_try then match args with [e; h] => Some (elab_try e h ls) | _ => None end
  else if id =? sf_return then
    match args with
    | [] => Some (Some (EReturn (EConst VNull), ls))
    | [e] => Some ('(e, ls) ← rec e ls; Some (EReturn e, ls))
    | _ => None
    end
  else None.

Definition elab_self (args : list value) (ls : list Z) : option (exp * list Z) :=
  if 64 <? zlen args then None else '(es, ls) ← elab_args args ls; Some (ESelf es, ls).

Definition elab_call (fn : option value) (head : value) (args : list value) (ls : list Z) : option (exp * list Z) :=
  '(h, ls) ← (match fn with Some (VFn _ _ _ _ as f) => Some (EConst f, ls) | _ => rec head ls end);
  if 64 <? zlen args then None else
  '(es, ls) ← elab_args args ls;
  Some (match fn, es with
        | Some (VFn FUnary attrs opcode ptr), [a] => ECall1 attrs opcode ptr a
        | Some (VFn FBinary attrs opcode ptr), [a; b] => ECall2 attrs opcode ptr a b
        | Some (VFn FVary attrs opcode ptr), _ => ECallN attrs opcode ptr es
        | _, _ => ECall h es
        end, ls).

Definition elab_list (E : env) (ast head : value) (args : list value) (ls : list Z) : option (exp * list Z) :=
  match (match head with VSym _ id => if is_name head then elab_special ast id args ls else None | _ => None end) with
  | Some r => r
  | None =>
      if is_name head && match head with VSym _ id => id =? sf_self | _ => false end then elab_self args ls
      else
        let fn := match head with VSym _ id => if is_name head then ray_env_get E id else None | _ => None end in
        if match fn with Some f => has (attrs_of f) RAY_FN_SPECIAL_FORM | None => false end
        then Some (if ast_refs_locals ls ast then EScope ls ast else EDyn ast, ls)
        else elab_call fn head args ls
  end.
End list.

Fixpoint elab (E : env) (ast : value) (ls : list Z) {struct ast} : option (exp * list Z) :=
  match ast with
  | VErr _ => None
  | VSym _ id =>
      Some (if is_name ast then
              if id =? sf_null then EConst VNull
              else if 0 <=? slot_of ls id then ELocal (slot_of ls id) else EGlobal id
            else EConst ast, ls)
  | VList _ (head :: args) => elab_list (λ e ls, elab E e ls) E ast head args ls
  | _ => Some (EConst ast, ls)
  end.

(** The parameters, then the expressions of the body; [None] is the empty body. *)
Definition elab_lambda (E : env) (l : lambda) : option (option exp * list Z) :=
  match body l with
  | [] => Some (None, params l)
  | e :: es => '(e, ls) ← elab_do (elab E) e es (params l); Some (Some e, ls)
  end.
End elab.

(** ** Evaluation *)

(** How far up the three stacks are. *)
Record depth := Depth { d_sp : Z; d_rp : Z; d_tp : Z }.
Definition up (d : depth) (k : Z) : depth := Depth (d_sp d + k) (d_rp d) (d_tp d).

Inductive outcome := Val (v : value) | Ret (v : value) | Err (obj : option value) (str : string).
Inductive res (X : Type) := Done (o : outcome) (slots : list (option value)) (w : world X) | Hangs | OutOfFuel.
Arguments Done {X} _ _ _.
Arguments Hangs {X}.
Arguments OutOfFuel {X}.
(** Of a whole body. *)
Inductive bres (X : Type) := BVal (v : value) (w : world X) | BErr (obj : option value) (str : string) (w : world X) | BHangs | BFuel.
Arguments BVal {X} _ _.
Arguments BErr {X} _ _ _.
Arguments BHangs {X}.
Arguments BFuel {X}.

Section ref.
Context `{Symbols} {X : Type} `{Dotted X} `{Dynamic X}.
Implicit Types (w : world X) (sl : list (option value)) (d : depth).

Definition rbind (r : res X) (k : value → list (option value) → world X → res X) : res X :=
  match r with Done (Val v) sl w => k v sl w | _ => r end.
Definition limit sl w : res X := Done (Err None "limit") sl w.
(** A push at this height. *)
Definition room d sl w (r : res X) : res X := if VM_STACK_SIZE <=? d_sp d then limit sl w else r.
Definition of_call (r : option (value * world X)) sl : res X :=
  match r with
  | None => Hangs
  | Some (v, w) => Done (if is_err v then Err (Some v) "domain" else Val v) sl w
  end.
Definition of_body (r : bres X) sl : res X :=
  match r with
  | BVal v w => Done (Val v) sl w
  | BErr obj str w => Done (Err obj str) sl w
  | BHangs => Hangs
  | BFuel => OutOfFuel
  end.
Definition to_body (r : res X) : bres X :=
  match r with
  | Done (Val v) _ w | Done (Ret v) _ w => BVal v w
  | Done (Err obj str) _ w => BErr obj str w
  | Hangs => BHangs
  | OutOfFuel => BFuel
  end.

(** Evaluating the body of a compiled lambda in fresh slots. *)
Context `{Identity} (run_body : Z → list (option value) → world X → depth → bres X).

(** A lambda called with [args] at height [d]. *)
Definition ref_lambda (a : Z) (args : list value) d sl w : res X :=
  let w := ensure_compiled w a in
  let l := lambdas w a in
  match compiled l with
  | None => of_call (call_lambda a args w) sl
  | Some b =>
      if (VM_STACK_SIZE <=? d_rp d) || (VM_STACK_SIZE <=? d_sp d + nlocals b) then limit sl w else
      if negb (zlen args =? zlen (params l)) then Done (Err (Some (VErr "arity")) "domain") sl w else
      if interrupted w then Done (Err None "cancel") sl w else
      of_body (run_body a (new_slots args (nlocals b)) w (Depth (d_sp d + nlocals b) (d_rp d + 1) (d_tp d))) sl
  end.
Definition ref_call (f : value) (args : list value) d sl w : res X :=
  match f with
  | VLambda a => ref_lambda a args d sl w
  | _ => of_call (call_builtin w f args) sl
  end.

Section exp.
(** The lambda being run and the number of its slots. *)
Context (self nl : Z).

Definition ref_self (args : list value) d sl w : res X :=
  let argc := zlen args in
  if VM_STACK_SIZE <=? d_rp d then limit sl w else
  if VM_STACK_SIZE <=? d_sp d + argc + nl then limit sl w else
  of_body (run_body self (take (Z.to_nat nl) (new_slots args nl)) w
             (Depth (d_sp d + Z.max argc nl) (d_rp d + 1) (d_tp d))) sl.

Section args.
Context (rec : exp → depth → list (option value) → world X → res X).
(** Left to right, each value one cell higher than the last. *)
Fixpoint ref_args (es : list exp) d sl w (k : list value → list (option value) → world X → res X) : res X :=
  match es with
  | [] => k [] sl w
  | e :: es => rbind (rec e d sl w) (λ v sl w, ref_args es (up d 1) sl w (λ vs, k (v :: vs)))
  end.
(** In sequence, for the value of the last. *)
Fixpoint ref_seq (es : list exp) (v : value) d sl w : res X :=
  match es with
  | [] => Done (Val v) sl w
  | e :: es => rbind (rec e d sl w) (λ v sl w, ref_seq es v d sl w)
  end.
End args.

(** [(try e handler)]: what the handler starts from when [e] has failed. *)
Definition caught (scope : Z) (obj : option value) w : value * world X :=
  let w := with_env w (unwind_scopes scope (genv w)) in
  (err_value w obj, with_raise w None).

Fixpoint ref_exp (e : exp) d sl w {struct e} : res X :=
  match e with
  | EConst v => room d sl w (Done (Val v) sl w)
  | ELocal i => room d sl w (Done (Val (match sl.[i] with Some (Some v) => v | _ => make_i64 0 end)) sl w)
  | EGlobal id =>
      match ray_env_resolve w id with
      | (None, w) => Done (Err None "name") sl w
      | (Some v, w) => if is_err v then Done (Err (Some v) "domain") sl w else room d sl w (Done (Val v) sl w)
      end
  | ESet id e =>
      rbind (ref_exp e d sl w) (λ v sl w,
        if restricted w then Done (Err (Some (VErr "access")) "domain") sl w else
        match ray_env_set (genv w) id v with
        | inl E => Done (Val v) sl (with_env w E)
        | inr code => Done (Err (Some (VErr code)) "domain") sl w
        end)
  | ELet i e =>
      rbind (ref_exp e d sl w) (λ v sl w,
        room (up d 1) sl w (Done (Val v) (<[Z.to_nat i := Some v]> sl) w))
  | EIf cond t f =>
      rbind (ref_exp cond d sl w) (λ v sl w, if is_truthy v then ref_exp t d sl w else ref_exp f d sl w)
  | EDo e es => rbind (ref_exp e d sl w) (λ v sl w, ref_seq (λ e, ref_exp e) es v d sl w)
  | EDyn ast => room d sl w (of_call (ray_eval ast w) sl)
  | EScope ids ast =>
      room d sl w
        (match ray_env_scope_bind (genv w) ids (take (length ids) sl) (VLambda self) with
         | inr _ => limit sl w
         | inl E =>
             rbind (of_call (ray_eval ast (with_env w E)) sl) (λ v sl w,
               room (up d 1) sl w
                 (let '(E, slots) := ray_env_scope_sync (genv w) ids (take (length ids) sl) in
                  Done (Val v) (slots ++ drop (length ids) sl) (with_env w E)))
         end)
  | ETry i e h =>
      if VM_TRAP_SIZE <=? d_tp d then limit sl w else
      let scope := zlen (scopes (genv w)) in
      match ref_exp e (Depth (d_sp d) (d_rp d) (d_tp d + 1)) sl w with
      | Done (Err obj str) sl w =>
          let '(err_val, w) := caught scope obj w in
          room d sl w
            (rbind (ref_exp h d (<[Z.to_nat i := Some err_val]> sl) w) (λ hv sl w,
               room (up d 1) sl w
                 (of_call (ray_try_handle w hv (match sl.[i] with Some (Some v) => v | _ => make_i64 0 end)) sl)))
      | r => r
      end
  | EReturn e =>
      rbind (ref_exp e d sl w) (λ v sl w, Done (Ret v) sl w)
  | ESelf args => ref_args (λ e, ref_exp e) args d sl w (λ vs sl w, ref_self vs d sl w)
  | ECall1 attrs opcode ptr arg =>
      room d sl w (rbind (ref_exp arg (up d 1) sl w) (λ v sl w, of_call (call1 w attrs ptr v) sl))
  | ECall2 attrs opcode ptr lhs rhs =>
      room d sl w (ref_args (λ e, ref_exp e) [lhs; rhs] (up d 1) sl w (λ vs sl w,
        match vs with [a; b] => of_call (call2 w attrs opcode ptr a b) sl | _ => Hangs end))
  | ECallN attrs opcode ptr args =>
      room d sl w (ref_args (λ e, ref_exp e) args (up d 1) sl w (λ vs sl w, of_call (calln w attrs ptr vs) sl))
  | ECall head args =>
      rbind (ref_exp head d sl w) (λ f sl w,
        ref_args (λ e, ref_exp e) args (up d 1) sl w (λ vs sl w, ref_call f vs d sl w))
  end.
End exp.

(** The body, [None] being the empty one. *)
Definition ref_body (self nl : Z) (e : option exp) d sl w : bres X :=
  match e with None => BVal VNull w | Some e => to_body (ref_exp self nl e d sl w) end.
End ref.

Section run.
Context `{Identity} `{Symbols} {X : Type} `{Dotted X} `{Dynamic X}.

(** Fuel counts nested calls. *)
Fixpoint ref_run (fuel : nat) (a : Z) (sl : list (option value)) (w : world X) (d : depth) : bres X :=
  match fuel with
  | O => BFuel
  | S fuel =>
      match (b ← compiled (lambdas w a); elab_lambda (benv b) (lambdas w a)) with
      | Some (e, ls) => ref_body (ref_run fuel) a (zlen ls) e d sl w
      | None => BHangs
      end
  end.

(** The meaning of [vm_exec] on a compiled lambda. *)
Definition ref_exec (fuel : nat) (w : world X) (a : Z) (args : list value) : bres X :=
  let l := lambdas w a in
  if negb (zlen args =? zlen (params l)) then BErr (Some (VErr "arity")) "domain" w else
  match compiled l with
  | None => BHangs
  | Some b => ref_run fuel a (new_slots args (nlocals b)) w (Depth (nlocals b) 0 0)
  end.
End run.
