(* ===== verification/CompileProofs.v ===== *)
(** * The compiler emits the code of the resolved program

    [gen] says which bytes an expression of the reference semantics has, given
    the finished constant pool; the main lemma is that [compile_expr] appends
    such bytes, with every jump patched and every constant in place, for the
    expression [elab] resolves. *)

From stdpp Require Import strings.
From S2P Require Import Prelude Lang Compile Vm VmRef.
Local Open Scope Z_scope.
#[local] Arguments zget : simpl never.
#[local] Arguments Z.pow : simpl never.
#[local] Arguments Z.shiftr : simpl never.
#[local] Arguments Z.land : simpl never.

(** Right-nests concatenations. *)
Ltac app_norm := repeat first [rewrite <- app_assoc | progress cbn [app]]; try reflexivity.

(** ** Syntax trees the theorems are about

    The pool keeps one constant for numeric atoms that are equal as numbers, so
    [-0.0] and a typed-null boolean do not survive it; and an error object in
    a tree compiles to nothing. *)
Definition const_ok (v : value) : bool :=
  match v with
  | VAtom t a aux p =>
      if (t =? RAY_I64) || (t =? RAY_BOOL) then (a =? 0) && negb aux
      else if t =? RAY_F64 then (a =? 0) && negb aux && (0 <=? p) && (p <? 2 ^ 64) && negb (p =? 2 ^ 63)
      else true
  | _ => true
  end.
Fixpoint ast_ok (v : value) : bool :=
  match v with
  | VErr _ => false
  | VAtom _ _ _ _ => const_ok v
  | VList _ es => forallb ast_ok es
  | _ => true
  end.

(** How big a tree is; a lambda the theorems are about has at most as many nodes
    as a pool index can name. *)
Fixpoint nodes (v : value) : Z :=
  match v with
  | VList _ es => 1 + foldr (λ e n, nodes e + n) 0 es
  | _ => 1
  end.
Definition lambda_ok (l : lambda) : bool :=
  forallb ast_ok (body l) && (foldr (λ e n, nodes e + n) 0 (body l) <=? 65536).

(** ** The bytes of an expression *)
Definition fits (pool cs : list value) : Prop := (∃ ex, pool = cs ++ ex) ∧ zlen pool ≤ 65536.

Inductive idx_code (pool : list value) (op op_w : Z) (v : value) : list Z → Prop :=
| idx_narrow i : 0 ≤ i < 256 → pool.[i] = Some v → idx_code pool op op_w v [op; i]
| idx_wide i : 256 ≤ i < 65536 → pool.[i] = Some v → idx_code pool op op_w v [op_w; Z.shiftr i 8; Z.land i 0xff].

Definition offset (k : Z) : list Z := [Z.shiftr (u16 k) 8; Z.land k 0xff].
Definition in_jump (k : Z) : Prop := 0 ≤ k ≤ 32767.

Inductive gen (pool : list value) (nl : Z) : Z → exp → list Z → Prop :=
| gen_const td v s : idx_code pool OP_LOADCONST OP_LOADCONST_W v s → gen pool nl td (EConst v) s
| gen_local td i : 0 ≤ i < nl → gen pool nl td (ELocal i) [OP_LOADENV; i]
| gen_global td a id s : idx_code pool OP_RESOLVE OP_RESOLVE_W (VSym a id) s → gen pool nl td (EGlobal id) s
| gen_set td a id e s k :
    gen pool nl td e s → idx_code pool OP_STOREGLOBAL OP_STOREGLOBAL_W (VSym a id) k →
    gen pool nl td (ESet id e) (s ++ k)
| gen_let td i e s :
    gen pool nl td e s → 0 ≤ i < nl → gen pool nl td (ELet i e) (s ++ [OP_FORCE; OP_DUP; OP_STOREENV; i])
| gen_if td c t f s1 s2 s3 :
    gen pool nl td c s1 → gen pool nl td t s2 → gen pool nl td f s3 →
    in_jump (zlen s2 + 3) → in_jump (zlen s3) →
    gen pool nl td (EIf c t f)
      (s1 ++ OP_JMPF :: offset (zlen s2 + 3) ++ s2 ++ OP_JMP :: offset (zlen s3) ++ s3)
| gen_do td e es s ss :
    gen pool nl td e s → Forall2 (gen pool nl td) es ss →
    gen pool nl td (EDo e es) (s ++ mjoin (map (cons OP_POP) ss))
| gen_dyn td ast s :
    idx_code pool OP_LOADCONST OP_LOADCONST_W ast s → gen pool nl td (EDyn ast) (s ++ [OP_CALLD; 0])
| gen_scope td ids ast s1 s2 :
    idx_code pool OP_LOADCONST OP_LOADCONST_W (VVec RAY_I64 0 ids) s1 →
    idx_code pool OP_LOADCONST OP_LOADCONST_W ast s2 → zlen ids ≤ nl →
    gen pool nl td (EScope ids ast) (s1 ++ OP_SCOPE_BEGIN :: s2 ++ OP_CALLD :: 0 :: s1 ++ [OP_SCOPE_END])
| gen_try td i e h s sh :
    0 ≤ i < nl → gen pool nl (td + 1) e s → gen pool nl td h sh →
    in_jump (zlen s + 4) → in_jump (zlen sh + 5) →
    gen pool nl td (ETry i e h)
      (OP_TRAP :: offset (zlen s + 4) ++ s ++ OP_TRAP_END :: OP_JMP :: offset (zlen sh + 5) ++
       OP_STOREENV :: i :: sh ++ [OP_LOADENV; i; OP_TRYH])
| gen_return td e s :
    gen pool nl td e s → gen pool nl td (EReturn e) (s ++ replicate (Z.to_nat td) OP_TRAP_END ++ [OP_RET])
| gen_self td es ss :
    Forall2 (gen pool nl td) es ss → zlen es ≤ 64 → gen pool nl td (ESelf es) (mjoin ss ++ [OP_CALLS; zlen es])
| gen_call1 td a o p e s1 s2 :
    idx_code pool OP_LOADCONST OP_LOADCONST_W (VFn FUnary a o p) s1 → gen pool nl td e s2 →
    gen pool nl td (ECall1 a o p e) (s1 ++ s2 ++ [OP_CALL1])
| gen_call2 td a o p e1 e2 s1 s2 s3 :
    idx_code pool OP_LOADCONST OP_LOADCONST_W (VFn FBinary a o p) s1 → gen pool nl td e1 s2 → gen pool nl td e2 s3 →
    gen pool nl td (ECall2 a o p e1 e2) (s1 ++ s2 ++ s3 ++ [OP_CALL2])
| gen_calln td a o p es s1 ss :
    idx_code pool OP_LOADCONST OP_LOADCONST_W (VFn FVary a o p) s1 → Forall2 (gen pool nl td) es ss → zlen es ≤ 64 →
    gen pool nl td (ECallN a o p es) (s1 ++ mjoin ss ++ [OP_CALLN; zlen es])
| gen_call td h es sh ss :
    gen pool nl td h sh → Forall2 (gen pool nl td) es ss → zlen es ≤ 64 →
    gen pool nl td (ECall h es) (sh ++ mjoin ss ++ [OP_CALLF; zlen es]).

(** Induction over syntax trees with their element lists. *)
Lemma value_nested_ind (P : value → Prop) :
  P VNull → (∀ t a x p, P (VAtom t a x p)) → (∀ a id, P (VSym a id)) → (∀ t a l, P (VVec t a l)) →
  (∀ a es, Forall P es → P (VList a es)) → (∀ a k v, P (VDict a k v)) →
  (∀ k a o p, P (VFn k a o p)) → (∀ a, P (VLambda a)) → (∀ c, P (VErr c)) → ∀ v, P v.
Proof.
  intros H1 H2 H3 H4 H5 H6 H7 H8 H9. fix IH 1. intros v.
  destruct v as [| | | |a es| | | |]; [exact H1|apply H2|apply H3|apply H4| |apply H6|apply H7|apply H8|apply H9].
  apply H5. induction es as [|e es IHes]; constructor; [apply IH|apply IHes].
Qed.

Section compile.
Context `{IdentityLaws} `{Symbols} {X : Type} `{Dotted X}.

(** ** One step of the compiler *)
Record cinv (c : compiler) : Prop := {
  ci_consts : Forall const_ok (consts c);
  ci_max : max_locals c = zlen (locals c) ∧ zlen (locals c) ≤ 256;
  ci_td : 0 ≤ trap_depth c
}.
(** [c'] is [c] with [seg] appended; constants and locals only grow. *)
Record ext (c c' : compiler) (seg : list Z) : Prop := {
  x_code : code c' = code c ++ seg;
  x_consts : ∃ cs, consts c' = consts c ++ cs;
  x_locals : ∃ ls, locals c' = locals c ++ ls;
  x_td : trap_depth c' = trap_depth c;
  x_error : error c' = error c;
  x_inv : cinv c'
}.

Lemma ext_refl c : cinv c → ext c c [].
Proof. intros Hc. split; [by rewrite app_nil_r|exists []; by rewrite app_nil_r|exists []; by rewrite app_nil_r|done..]. Qed.
Lemma ext_trans c1 c2 c3 s t : ext c1 c2 s → ext c2 c3 t → ext c1 c3 (s ++ t).
Proof.
  intros [E1 [a E2] [b E3] E4 E5 E6] [F1 [a' F2] [b' F3] F4 F5 F6]. split.
  - by rewrite F1, E1, app_assoc.
  - exists (a ++ a'). by rewrite F2, E2, app_assoc.
  - exists (b ++ b'). by rewrite F3, E3, app_assoc.
  - congruence.
  - congruence.
  - done.
Qed.

Lemma fits_prefix c c' seg pool : ext c c' seg → fits pool (consts c') → fits pool (consts c).
Proof. intros HE [[ex ->] Hl]. destruct (x_consts _ _ _ HE) as [cs E]. rewrite E in *. split; [|done]. exists (cs ++ ex). by rewrite app_assoc. Qed.
Lemma locals_grow c c' seg : ext c c' seg → zlen (locals c) ≤ zlen (locals c').
Proof. intros HE. destruct (x_locals _ _ _ HE) as [ls ->]. rewrite zlen_app. pose proof (zlen_nonneg ls). lia. Qed.

Lemma ext_emit c b : cinv c → ext c (emit c b) [b].
Proof. intros [I1 I2 I3]. split; [done|exists []; by rewrite app_nil_r|exists []; by rewrite app_nil_r|done|done|by split]. Qed.

Lemma cinv_emit c b : cinv c → cinv (emit c b).
Proof. intros Hc. apply (x_inv _ _ _ (ext_emit c b Hc)). Qed.
#[local] Hint Resolve cinv_emit ext_emit : core.

Lemma emit_indexed_ext c op op_w idx v :
  cinv c → (consts c).[idx] = Some v →
  ∃ seg, ext c (emit_indexed c op op_w idx) seg ∧ consts (emit_indexed c op op_w idx) = consts c ∧
    ∀ pool, fits pool (consts c) → idx_code pool op op_w v seg.
Proof.
  intros Hc Hv. pose proof (zget_Some _ _ _ Hv) as Hi. unfold emit_indexed. destruct (Z.ltb_spec idx 256).
  - exists [op; idx]. split; [|split; [done|]].
    + eapply (ext_trans _ _ _ [op] [idx]); auto.
    + intros pool [[ex ->] _]. constructor; [lia|]. rewrite zget_app_l by lia. done.
  - exists [op_w; u8 (Z.shiftr idx 8); Z.land idx 0xff]. split; [|split; [done|]].
    + eapply (ext_trans _ _ _ [op_w] [_; _]); [by auto|].
      eapply (ext_trans _ _ _ [_] [_]); auto.
    + intros pool [[ex ->] Hl]. rewrite zlen_app in Hl. pose proof (zlen_nonneg ex).
      assert (Hs : u8 (Z.shiftr idx 8) = Z.shiftr idx 8).
      { apply wrap_id. unfold in_u. rewrite Z.shiftr_div_pow2 by lia.
        split; [apply Z.div_pos; lia|]. apply Z.div_lt_upper_bound; lia. }
      rewrite Hs. constructor; [lia|]. rewrite zget_app_l by lia. done.
Qed.

(** ** The constant pool *)
Lemma f64_eq_exact a b : 0 ≤ a < 2 ^ 64 → 0 ≤ b < 2 ^ 64 → a ≠ 2 ^ 63 → b ≠ 2 ^ 63 → f64_eq a b = true → a = b.
Proof.
  assert (Hz : ∀ x, 0 ≤ x < 2 ^ 64 → x ≠ 2 ^ 63 → f64_zero x = true → x = 0).
  { intros x Hx Hn Hf. apply Z.eqb_eq in Hf. change 0x7fffffffffffffff with (Z.ones 63) in Hf.
    rewrite Z.land_ones in Hf by lia. pose proof (Z.div_mod x (2 ^ 63) ltac:(lia)) as Hd. rewrite Hf in Hd.
    assert (0 ≤ x `div` 2 ^ 63 < 2).
    { split; [apply Z.div_pos; lia|]. apply Z.div_lt_upper_bound; [lia|]. change (2 ^ 63 * 2) with (2 ^ 64). lia. }
    assert (x `div` 2 ^ 63 = 0 ∨ x `div` 2 ^ 63 = 1) as [E|E] by lia; rewrite E in Hd; lia. }
  intros Ha Hb Ha' Hb' Hf. unfold f64_eq in Hf. apply andb_prop in Hf as [_ [Hf|Hf]%orb_prop].
  - by apply Z.eqb_eq.
  - apply andb_prop in Hf as [Hfa Hfb]. by rewrite (Hz a), (Hz b).
Qed.

Lemma const_matches_eq v x : const_ok v → const_ok x → const_matches x v = true → v = x.
Proof.
  intros Hv Hx Hm. unfold const_matches in Hm. apply orb_prop in Hm as [Hm|Hm]; [by apply same_object_eq|].
  destruct v as [|t a u p|a id| | | | | |], x as [|t' a' u' p'|a' id'| | | | | |]; try done.
  - apply andb_prop in Hm as [Ht%Z.eqb_eq Hm]. subst t'. unfold const_ok in Hv, Hx.
    apply Is_true_true in Hv, Hx.
    destruct (Z.eqb_spec t RAY_I64) as [->|Hi]; [|destruct (Z.eqb_spec t RAY_BOOL) as [->|Hb]; [|destruct (Z.eqb_spec t RAY_F64) as [->|Hf]; [|done]]];
      cbn in Hm, Hv, Hx; rewrite ?orb_false_r, ?andb_true_iff, ?negb_true_iff, ?Z.eqb_eq in *.
    + destruct Hv, Hx. by subst.
    + destruct Hv, Hx. by subst.
    + rewrite ?Z.leb_le, ?Z.ltb_lt, ?Z.eqb_neq in *. destruct Hv as [[[[? ?] ?] ?] ?], Hx as [[[[? ?] ?] ?] ?]. subst.
      by rewrite (f64_eq_exact p p').
  - apply andb_prop in Hm as [?%Z.eqb_eq ?%Z.eqb_eq]. by subst.
Qed.

Lemma find_const_spec cs v i :
  const_ok v → Forall const_ok cs →
  match find_const cs v i with
  | Some j => ∃ k, j = i + k ∧ cs.[k] = Some v
  | None => True
  end.
Proof.
  intros Hv. revert i. induction cs as [|x cs IH]; intros i Hcs; [done|]. cbn [find_const].
  inversion_clear Hcs as [|?? Hx Hcs']. destruct (const_matches v x) eqn:Hm.
  - apply const_matches_eq in Hm as ->; [|done..]. exists 0. split; [lia|done].
  - specialize (IH (i + 1) Hcs'). destruct (find_const cs v (i + 1)); [|done].
    destruct IH as (k & -> & Hk). exists (1 + k). split; [lia|].
    rewrite zget_cons_S by (apply zget_Some in Hk; lia). by replace (1 + k - 1) with k by lia.
Qed.

Lemma add_constant_ext c v :
  cinv c → const_ok v → ∃ c' idx, add_constant c v = (c', idx) ∧ ext c c' [] ∧ (consts c').[idx] = Some v ∧ locals c' = locals c.
Proof.
  intros Hc Hv. unfold add_constant. pose proof (find_const_spec (consts c) v 0 Hv (ci_consts _ Hc)) as Hf.
  destruct (find_const (consts c) v 0) as [j|].
  - destruct Hf as (k & -> & Hk). exists c, (0 + k). split; [done|]. split; [by apply ext_refl|done].
  - eexists _, _. split; [done|]. split; [|split; [|done]].
    + destruct Hc as [I1 I2 I3]. split; cbn; [by rewrite app_nil_r|by exists [v]|exists []; by rewrite app_nil_r|done..|].
      split; cbn; [|done..]. apply Forall_app. split; [done|]. by constructor.
    + cbn. rewrite zget_app_r by lia. by rewrite Z.sub_diag.
Qed.

Lemma emit_value_ext c v :
  cinv c → const_ok v →
  ∃ seg, ext c (emit_value c v) seg ∧ locals (emit_value c v) = locals c ∧
    ∀ pool, fits pool (consts (emit_value c v)) → idx_code pool OP_LOADCONST OP_LOADCONST_W v seg.
Proof.
  intros Hc Hv. unfold emit_value, emit_const. destruct (add_constant_ext c v Hc Hv) as (c' & idx & -> & HE & Hi & Hl).
  destruct (emit_indexed_ext c' OP_LOADCONST OP_LOADCONST_W idx v (x_inv _ _ _ HE) Hi) as (seg & HE' & Hcs & Hp).
  exists seg. split; [exact (ext_trans _ _ _ [] seg HE HE')|]. split.
  - rewrite <- Hl. unfold emit_indexed. by destruct (idx <? 256).
  - intros pool Hf. rewrite Hcs in Hf. by apply Hp.
Qed.

(** ** Jumps *)
Lemma patch_code c pre op seg :
  code c = pre ++ op :: 0 :: 0 :: seg → error (patch_jump c (zlen pre + 1)) = false →
  in_jump (zlen seg) ∧ error c = false ∧
  patch_jump c (zlen pre + 1) = with_code c (pre ++ op :: offset (zlen seg) ++ seg).
Proof.
  intros Hc. unfold patch_jump. rewrite Hc. autorewrite with zlen.
  replace (zlen pre + (1 + (1 + (1 + zlen seg))) - (zlen pre + 1) - 2) with (zlen seg) by lia.
  pose proof (zlen_nonneg seg). destruct (Z.ltb_spec 32767 (zlen seg)); [done|].
  destruct (Z.ltb_spec (zlen seg) (-32768)); [lia|]. cbn [orb]. intros He.
  split; [unfold in_jump; lia|]. split; [done|]. f_equal.
  replace (Z.to_nat (zlen pre + 1)) with (length pre + 1)%nat by (unfold zlen; lia).
  replace (Z.to_nat (zlen pre + 1 + 1)) with (length pre + 2)%nat by (unfold zlen; lia).
  rewrite insert_app_r, insert_app_r. done.
Qed.

Lemma ext_with_code c c' s s' : ext c c' s → ext c (with_code c' (code c ++ s')) s'.
Proof. intros [E1 E2 E3 E4 E5 [I1 I2 I3]]. by split. Qed.

Lemma ext_jump c op : cinv c → ext c (emit_jump c op).1 [op; 0; 0].
Proof.
  intros Hc. unfold emit_jump. cbn. eapply (ext_trans _ _ _ [op] [0; 0]); [auto|].
  eapply (ext_trans _ _ _ [0] [0]); auto.
Qed.
Lemma emit_jump_pos c op : (emit_jump c op).2 = zlen (code c) + 1.
Proof. unfold emit_jump. cbn. rewrite zlen_app. done. Qed.

(** ** Expressions *)

(** [f] appends the code of what [el] resolves. *)
Definition emits (f : compiler → compiler) (el : list Z → option (exp * list Z)) : Prop :=
  ∀ c, cinv c → error (f c) = false →
  ∃ e seg, ext c (f c) seg ∧ el (locals c) = Some (e, locals (f c)) ∧
    ∀ pool nl, fits pool (consts (f c)) → zlen (locals (f c)) ≤ nl → gen pool nl (trap_depth c) e seg.
(** The same for a list; [op] is put before each element. *)
Definition emits_all (op : list Z) (f : compiler → compiler) (el : list Z → option (list exp * list Z)) : Prop :=
  ∀ c, cinv c → error (f c) = false →
  ∃ es ss, ext c (f c) (mjoin (map (app op) ss)) ∧ el (locals c) = Some (es, locals (f c)) ∧
    ∀ pool nl, fits pool (consts (f c)) → zlen (locals (f c)) ≤ nl → Forall2 (gen pool nl (trap_depth c)) es ss.

Lemma emits_value v : const_ok v → emits (λ c, emit_value c v) (λ ls, Some (EConst v, ls)).
Proof.
  intros Hv c Hc He. destruct (emit_value_ext c v Hc Hv) as (seg & HE & Hl & Hg).
  exists (EConst v), seg. split; [done|]. split; [by rewrite Hl|]. intros pool nl Hf _. constructor. by apply Hg.
Qed.

Section forms.
Context (rec : value → compiler → compiler) (el : value → list Z → option (exp * list Z)).
Context (rec_error : ∀ e c, error (rec e c) = false → error c = false).
Notation good e := (emits (rec e) (el e)).

Lemma fold_error op es c :
  error (foldl (λ c e, rec e (foldl emit c op)) c es) = false → error c = false.
Proof.
  revert c. induction es as [|e es IH]; intros c; [done|]. cbn [foldl]. intros He%IH%rec_error.
  clear IH. revert c He. induction op as [|b op IH]; intros c; [done|]. intros He%IH. done.
Qed.
Lemma emit_list_ext c op : cinv c → ext c (foldl emit c op) op.
Proof.
  revert c. induction op as [|b op IH]; intros c Hc; [by apply ext_refl|]. cbn [foldl].
  apply (ext_trans _ (emit c b) _ [b]); auto.
Qed.

Lemma emits_fold op es :
  Forall (λ e, good e) es → emits_all op (λ c, foldl (λ c e, rec e (foldl emit c op)) c es) (elab_args el es).
Proof.
  induction 1 as [|e es He _ IH]; intros c Hc Herr; cbn [foldl elab_args] in *.
  - exists [], []. split; [by apply ext_refl|]. split; [done|]. constructor.
  - pose proof (emit_list_ext c op Hc) as HE0. set (c0 := foldl emit c op) in *.
    pose proof (fold_error _ _ _ Herr) as He1.
    destruct (He c0 (x_inv _ _ _ HE0) He1) as (x & s & HE & Hel & Hg).
    destruct (IH (rec e c0) (x_inv _ _ _ HE) Herr) as (xs & ss & HEs & Hels & Hgs).
    assert (Hl0 : locals c0 = locals c).
    { subst c0. clear. revert c. induction op as [|b op IH]; intros c; [done|]. exact (IH (emit c b)). }
    rewrite Hl0 in Hel. exists (x :: xs), (s :: ss). split; [|split].
    + cbn [map]. rewrite mjoin_cons. apply (ext_trans _ _ _ _ _ (ext_trans _ _ _ _ _ HE0 HE) HEs).
    + rewrite Hel. cbn [mbind option_bind]. by rewrite Hels.
    + intros pool nl Hf Hnl. rewrite <- (x_td _ _ _ HE0). constructor.
      * apply Hg; [by eapply fits_prefix|]. pose proof (locals_grow _ _ _ HEs). lia.
      * rewrite <- (x_td _ _ _ HE). by apply Hgs.
Qed.

Lemma emits_args es : Forall (λ e, good e) es → emits_all [] (compile_args rec es) (elab_args el es).
Proof. apply (emits_fold []). Qed.
Lemma mjoin_app_nil (ss : list (list Z)) : mjoin (map (app []) ss) = mjoin ss.
Proof. f_equal. induction ss as [|s ss IH]; [done|]. cbn [map]. by rewrite IH. Qed.

Lemma emits_do e es : good e → Forall (λ e, good e) es → emits (compile_do rec e es) (elab_do el e es).
Proof.
  intros He Hes c Hc Herr. unfold compile_do in *. pose proof (fold_error [OP_POP] _ _ Herr) as He1.
  destruct (He c Hc He1) as (x & s & HE & Hel & Hg).
  destruct (emits_fold [OP_POP] es Hes (rec e c) (x_inv _ _ _ HE) Herr) as (xs & ss & HEs & Hels & Hgs).
  exists (EDo x xs), (s ++ mjoin (map (app [OP_POP]) ss)). split; [by eapply ext_trans|]. split.
  - unfold elab_do. rewrite Hel. cbn [mbind option_bind]. by rewrite Hels.
  - intros pool nl Hf Hnl. constructor.
    + apply Hg; [by eapply fits_prefix|]. etransitivity; [exact (locals_grow _ _ _ HEs)|exact Hnl].
    + rewrite <- (x_td _ _ _ HE). by apply Hgs.
Qed.

Lemma emits_set name e : good e → emits (compile_set rec name e) (elab_set el name e).
Proof.
  intros He c Hc Herr. unfold compile_set, elab_set in *. destruct name as [| |a id| | | | | |]; try done.
  destruct (add_constant (rec e c) (VSym a id)) as [c1 idx] eqn:Ha.
  assert (Hx : error (rec e c) = false).
  { unfold add_constant in Ha. destruct (find_const _ _ _); simplify_eq; [|]; unfold emit_indexed in Herr; by destruct (_ <? 256). }
  destruct (He c Hc Hx) as (x & s & HE & Hel & Hg).
  destruct (add_constant_ext (rec e c) (VSym a id) (x_inv _ _ _ HE)) as (c1' & idx' & Ha' & HE1 & Hi & Hl); [done|].
  rewrite Ha in Ha'. simplify_eq.
  destruct (emit_indexed_ext c1' OP_STOREGLOBAL OP_STOREGLOBAL_W idx' _ (x_inv _ _ _ HE1) Hi) as (k & HE2 & Hcs & Hk).
  assert (Hl2 : locals (emit_indexed c1' OP_STOREGLOBAL OP_STOREGLOBAL_W idx') = locals (rec e c)).
  { rewrite <- Hl. unfold emit_indexed. by destruct (_ <? 256). }
  exists (ESet id x), (s ++ k). split; [|split].
  - apply (ext_trans _ _ _ _ _ HE). by apply (ext_trans _ _ _ [] k HE1).
  - rewrite Hel. cbn. by rewrite Hl2.
  - intros pool nl Hf Hnl. rewrite Hcs in Hf. econstructor; [|by apply Hk].
    apply Hg; [by eapply fits_prefix|by rewrite <- Hl2].
Qed.

Lemma locals_emit_indexed c op op_w idx : locals (emit_indexed c op op_w idx) = locals c.
Proof. unfold emit_indexed. by destruct (_ <? 256). Qed.
Lemma error_emit_indexed c op op_w idx : error (emit_indexed c op op_w idx) = error c.
Proof. unfold emit_indexed. by destruct (_ <? 256). Qed.
Lemma error_add_constant c v : error (add_constant c v).1 = error c.
Proof. unfold add_constant. by destruct (find_const _ _ _). Qed.

Lemma find_down_bound l id i : find_down l id i ≤ Z.max (-1) i.
Proof.
  revert i. induction l as [|x l IH]; intros i; cbn; [lia|]. destruct (x =? id); [lia|]. specialize (IH (i - 1)). lia.
Qed.
Lemma slot_of_bound ls id : slot_of ls id < zlen ls.
Proof. unfold slot_of. pose proof (find_down_bound (rev ls) id (zlen ls - 1)). pose proof (zlen_nonneg ls). lia. Qed.

Lemma add_local_ext c id :
  cinv c → 0 ≤ (add_local c id).2 →
  ext c (add_local c id).1 [] ∧ declare (locals c) id = Some ((add_local c id).2, locals (add_local c id).1) ∧
  (add_local c id).2 < zlen (locals (add_local c id).1).
Proof.
  intros Hc. unfold add_local, declare. pose proof (zlen_nonneg (locals c)).
  destruct (Z.leb_spec 256 (zlen (locals c))); cbn; [lia|]. intros _. split; [|split; [done|rewrite zlen_app; change (zlen [id]) with 1; lia]].
  destruct Hc as [I1 I2 I3]. split; cbn; [by rewrite app_nil_r|exists []; by rewrite app_nil_r|by exists [id]|done..|].
  split; cbn; [done| |done]. destruct I2 as [-> I2]. rewrite zlen_app. change (zlen [id]) with 1. destruct (Z.ltb_spec (zlen (locals c)) (zlen (locals c) + 1)); lia.
Qed.
Lemma error_add_local c id : error (add_local c id).1 = error c.
Proof. unfold add_local. by destruct (256 <=? _). Qed.

Lemma emits_let name e : good e → emits (compile_let rec name e) (elab_let el name e).
Proof.
  intros He c Hc Herr. unfold compile_let, elab_let in *. destruct name as [| |a id| | | | | |]; try done.
  destruct (ray_sym_is_reserved id && negb (ray_sym_is_ipc_hook id)); [done|].
  set (c2 := emit (emit (rec e c) OP_FORCE) OP_DUP) in *.
  assert (Hx : error (rec e c) = false).
  { transitivity (error c2); [done|]. pose proof (error_add_local c2 id) as Ha. clear He.
    destruct (find_local c2 id <? 0).
    - destruct (add_local c2 id) as [c3 slot]. cbn in Ha. transitivity (error c3); [symmetry; exact Ha|]. by destruct (slot <? 0).
    - by destruct (find_local c2 id <? 0). }
  destruct (He c Hc Hx) as (x & s & HE & Hel & Hg). rewrite Hel. cbn [mbind option_bind].
  assert (HE2 : ext c c2 (s ++ [OP_FORCE; OP_DUP])).
  { apply (ext_trans _ _ _ _ _ HE). apply (emit_list_ext (rec e c) [OP_FORCE; OP_DUP]), HE. }
  change (find_local c2 id) with (slot_of (locals (rec e c)) id) in *.
  assert (Hst : ∀ c3 slot, cinv c3 → ext c3 (emit (emit c3 OP_STOREENV) slot) [OP_STOREENV; slot])
    by (intros c3 slot; apply (emit_list_ext c3 [OP_STOREENV; slot])).
  destruct (Z.ltb_spec (slot_of (locals (rec e c)) id) 0) as [Hneg|Hpos].
  - pose proof (add_local_ext c2 id (x_inv _ _ _ HE2)) as Ha. destruct (add_local c2 id) as [c3 slot]. cbn in Ha.
    destruct (Z.ltb_spec slot 0); [done|]. destruct Ha as (HE3 & Hd & Hlt); [done|]. change (locals c2) with (locals (rec e c)) in Hd.
    rewrite Hd. exists (ELet slot x), (s ++ [OP_FORCE; OP_DUP; OP_STOREENV; slot]). split; [|split; [done|]].
    + replace (s ++ [OP_FORCE; OP_DUP; OP_STOREENV; slot]) with ((s ++ [OP_FORCE; OP_DUP]) ++ ([] ++ [OP_STOREENV; slot]))
        by (by rewrite <- app_assoc).
      eapply ext_trans; [done|]. eapply ext_trans; [done|]. apply Hst, HE3.
    + intros pool nl Hf Hnl. cbn in Hnl. constructor; [|lia]. apply Hg.
      * eapply (fits_prefix _ _ _ _ HE3). exact Hf.
      * pose proof (locals_grow _ _ _ HE3) as Hgr. change (locals c2) with (locals (rec e c)) in Hgr. lia.
  - destruct (Z.ltb_spec (slot_of (locals (rec e c)) id) 0); [lia|].
    set (slot := slot_of (locals (rec e c)) id) in *. exists (ELet slot x), (s ++ [OP_FORCE; OP_DUP; OP_STOREENV; slot]).
    split; [|split; [done|]].
    + replace (s ++ [OP_FORCE; OP_DUP; OP_STOREENV; slot]) with ((s ++ [OP_FORCE; OP_DUP]) ++ [OP_STOREENV; slot])
        by (by rewrite <- app_assoc).
      eapply ext_trans; [done|]. apply Hst, HE2.
    + intros pool nl Hf Hnl. cbn in Hnl. constructor; [by apply Hg|].
      pose proof (slot_of_bound (locals (rec e c)) id). subst slot. lia.
Qed.

Lemma error_patch c pos : error (patch_jump c pos) = false → error c = false.
Proof. unfold patch_jump. by destruct (_ || _). Qed.

Lemma emits_if cond t else_ :
  good cond → good t → Forall (λ e, good e) else_ → emits (compile_if rec cond t else_) (elab_if el cond t else_).
Proof.
  intros Hcond Ht Helse c Hc Herr. unfold compile_if, elab_if in *.
  set (f := λ c, match else_ with e :: _ => rec e c | [] => emit_value c (make_i64 0) end).
  set (elf := λ ls, match else_ with e :: _ => el e ls | [] => Some (EConst (make_i64 0), ls) end).
  assert (Hf : emits f elf).
  { unfold f, elf. destruct Helse as [|e es He _]; [by apply emits_value|done]. }
  set (c1 := rec cond c) in *. rewrite (surjective_pairing (emit_jump c1 OP_JMPF)) in *. rewrite emit_jump_pos in *.
  set (c2 := (emit_jump c1 OP_JMPF).1) in *. set (c3 := rec t c2) in *.
  rewrite (surjective_pairing (emit_jump c3 OP_JMP)) in *. rewrite emit_jump_pos in *.
  set (c4 := (emit_jump c3 OP_JMP).1) in *. set (c5 := patch_jump c4 (zlen (code c1) + 1)) in *.
  change (match else_ with e :: _ => rec e c5 | [] => emit_value c5 (make_i64 0) end) with (f c5) in *.
  pose proof (error_patch _ _ Herr) as He6.
  (* backwards through the errors *)
  assert (He5 : error c5 = false).
  { unfold f in He6. destruct else_; [|by apply rec_error in He6].
    unfold emit_value, emit_const in He6. pose proof (error_add_constant c5 (make_i64 0)) as Ha.
    destruct (add_constant c5 (make_i64 0)) as [c5a i5]. cbn in Ha. by rewrite error_emit_indexed, Ha in He6. }
  pose proof (error_patch _ _ He5) as He3. change (error c3 = false) in He3.
  pose proof (rec_error _ _ He3) as He1. change (error c1 = false) in He1.
  destruct (Hcond c Hc He1) as (x & s & HE1 & Hel1 & Hg1). fold c1 in HE1, Hel1, Hg1.
  pose proof (ext_jump c1 OP_JMPF (x_inv _ _ _ HE1)) as HE2. fold c2 in HE2.
  destruct (Ht c2 (x_inv _ _ _ HE2) He3) as (y & st & HE3 & Hel2 & Hg2). fold c3 in HE3, Hel2, Hg2.
  pose proof (ext_jump c3 OP_JMP (x_inv _ _ _ HE3)) as HE4. fold c4 in HE4.
  pose proof (ext_trans _ _ _ _ _ HE2 (ext_trans _ _ _ _ _ HE3 HE4)) as HE14.
  destruct (patch_code c4 (code c1) OP_JMPF (st ++ [OP_JMP; 0; 0])) as (Hj1 & _ & Hp1); [apply HE14|done|].
  fold c5 in Hp1.
  assert (Hz : zlen (st ++ [OP_JMP; 0; 0]) = zlen st + 3) by (by rewrite zlen_app). rewrite Hz in *.
  pose proof (ext_with_code _ _ _ (OP_JMPF :: offset (zlen st + 3) ++ st ++ [OP_JMP; 0; 0]) HE14) as HE5. rewrite <- Hp1 in HE5.
  destruct (Hf c5 (x_inv _ _ _ HE5) He6) as (z & sf & HE6 & Hel3 & Hg3).
  set (c6 := f c5) in *.
  set (pre := code c1 ++ OP_JMPF :: offset (zlen st + 3) ++ st).
  assert (Hpre : zlen (code c3) = zlen pre).
  { rewrite (x_code _ _ _ HE3), (x_code _ _ _ HE2). subst pre. unfold offset. autorewrite with zlen. lia. }
  rewrite Hpre in *.
  destruct (patch_code c6 pre OP_JMP sf) as (Hj2 & _ & Hp2); [|done|].
  { rewrite (x_code _ _ _ HE6), (x_code _ _ _ HE5). subst pre. app_norm. }
  rewrite Hp2.
  pose proof (ext_trans _ _ _ _ _ HE1 (ext_trans _ _ _ _ _ HE5 HE6)) as HE16.
  exists (EIf x y z), (s ++ OP_JMPF :: offset (zlen st + 3) ++ st ++ OP_JMP :: offset (zlen sf) ++ sf).
  split; [|split].
  - replace (pre ++ OP_JMP :: offset (zlen sf) ++ sf) with
      (code c ++ s ++ OP_JMPF :: offset (zlen st + 3) ++ st ++ OP_JMP :: offset (zlen sf) ++ sf).
    { by eapply ext_with_code. }
    subst pre. rewrite (x_code _ _ _ HE1). app_norm.
  - rewrite Hel1. cbn [mbind option_bind]. change (locals c1) with (locals c2). rewrite Hel2. cbn [mbind option_bind].
    change (match else_ with e :: _ => el e (locals c3) | [] => Some (EConst (make_i64 0), locals c3) end) with (elf (locals c3)).
    assert (Hl5 : locals c5 = locals c3) by by rewrite Hp1. rewrite <- Hl5, Hel3. done.
  - intros pool nl Hfit Hnl. cbn in Hfit, Hnl.
    pose proof (fits_prefix _ _ _ _ HE6 Hfit) as Hfit5. pose proof (locals_grow _ _ _ HE6) as Hgr6.
    assert (Hfit3 : fits pool (consts c3)) by (by rewrite Hp1 in Hfit5).
    assert (Hnl3 : zlen (locals c3) ≤ nl) by (rewrite Hp1 in Hgr6; cbn in Hgr6; change (locals c4) with (locals c3) in Hgr6; lia).
    constructor; [| | |done|done].
    + apply Hg1; [exact (fits_prefix _ _ _ _ HE3 Hfit3)|]. pose proof (locals_grow _ _ _ HE3) as Hgr3.
      change (locals c2) with (locals c1) in Hgr3. lia.
    + rewrite <- (x_td _ _ _ HE1). by apply Hg2.
    + rewrite <- (x_td _ _ _ HE1), <- (x_td _ _ _ HE5). by apply Hg3.
Qed.

Lemma emits_try e h : good e → good h → emits (compile_try rec e h) (elab_try el e h).
Proof.
  intros He Hh c Hc Herr. unfold compile_try, elab_try in *.
  pose proof (add_local_ext c (-1) Hc) as Ha. pose proof (error_add_local c (-1)) as Hae.
  destruct (add_local c (-1)) as [c0 slot]. cbn in Ha, Hae.
  destruct (Z.ltb_spec slot 0); [done|]. destruct Ha as (HE0 & Hd & Hlt); [done|].
  rewrite Hd. cbn [mbind option_bind].
  rewrite (surjective_pairing (emit_jump c0 OP_TRAP)) in *. rewrite emit_jump_pos in *.
  set (c1 := (emit_jump c0 OP_TRAP).1) in *. set (c1' := with_trap_depth c1 (trap_depth c1 + 1)) in *.
  set (c2 := rec e c1') in *. set (c3 := emit (with_trap_depth c2 (trap_depth c2 - 1)) OP_TRAP_END) in *.
  rewrite (surjective_pairing (emit_jump c3 OP_JMP)) in *. rewrite emit_jump_pos in *.
  set (c4 := (emit_jump c3 OP_JMP).1) in *. set (c5 := patch_jump c4 (zlen (code c0) + 1)) in *.
  set (c6 := emit (emit c5 OP_STOREENV) slot) in *. set (c7 := rec h c6) in *.
  set (c8 := emit (emit (emit c7 OP_LOADENV) slot) OP_TRYH) in *.
  pose proof (error_patch _ _ Herr) as He7. change (error c7 = false) in He7.
  pose proof (rec_error _ _ He7) as He5. change (error c5 = false) in He5.
  pose proof (error_patch _ _ He5) as He2. change (error c2 = false) in He2.
  pose proof (ext_jump c0 OP_TRAP (x_inv _ _ _ HE0)) as HE1. fold c1 in HE1.
  assert (Hi1 : cinv c1') by (destruct (x_inv _ _ _ HE1) as [I1 I2 I3]; split; cbn; [done|done|cbn in I3; lia]).
  destruct (He c1' Hi1 He2) as (x & s & HE2 & Hel1 & Hg1). fold c2 in HE2, Hel1, Hg1.
  (* the body, the trap depth back to what it was *)
  assert (HE3 : ext c1 c3 (s ++ [OP_TRAP_END])).
  { destruct HE2 as [X1 X2 X3 X4 X5 [I1 I2 I3]]. cbn in X4. split; cbn.
    - rewrite X1. cbn. by rewrite app_assoc.
    - exact X2.
    - exact X3.
    - lia.
    - exact X5.
    - split; cbn; [done|done|]. destruct HE1 as [_ _ _ _ _ [_ _ I3']]. cbn in I3'. lia. }
  pose proof (ext_jump c3 OP_JMP (x_inv _ _ _ HE3)) as HE4. fold c4 in HE4.
  pose proof (ext_trans _ _ _ _ _ HE1 (ext_trans _ _ _ _ _ HE3 HE4)) as HE14.
  destruct (patch_code c4 (code c0) OP_TRAP ((s ++ [OP_TRAP_END]) ++ [OP_JMP; 0; 0])) as (Hj1 & _ & Hp1); [apply HE14|done|].
  fold c5 in Hp1.
  assert (Hz : zlen ((s ++ [OP_TRAP_END]) ++ [OP_JMP; 0; 0]) = zlen s + 4)
    by (rewrite <- app_assoc, zlen_app; done). rewrite Hz in *.
  pose proof (ext_with_code _ _ _ (OP_TRAP :: offset (zlen s + 4) ++ (s ++ [OP_TRAP_END]) ++ [OP_JMP; 0; 0]) HE14) as HE5.
  rewrite <- Hp1 in HE5.
  pose proof (emit_list_ext c5 [OP_STOREENV; slot] (x_inv _ _ _ HE5)) as HE6.
  change (foldl emit c5 [OP_STOREENV; slot]) with c6 in HE6.
  destruct (Hh c6 (x_inv _ _ _ HE6) He7) as (y & sh & HE7 & Hel2 & Hg2). fold c7 in HE7, Hel2, Hg2.
  pose proof (emit_list_ext c7 [OP_LOADENV; slot; OP_TRYH] (x_inv _ _ _ HE7)) as HE8.
  change (foldl emit c7 [OP_LOADENV; slot; OP_TRYH]) with c8 in HE8.
  set (pre := code c0 ++ OP_TRAP :: offset (zlen s + 4) ++ s ++ [OP_TRAP_END]).
  assert (Hpre : zlen (code c3) = zlen pre).
  { rewrite (x_code _ _ _ HE3), (x_code _ _ _ HE1). subst pre. unfold offset. autorewrite with zlen. lia. }
  rewrite Hpre in *.
  set (sj := OP_STOREENV :: slot :: sh ++ [OP_LOADENV; slot; OP_TRYH]).
  destruct (patch_code c8 pre OP_JMP sj) as (Hj2 & _ & Hp2); [|done|].
  { rewrite (x_code _ _ _ HE8), (x_code _ _ _ HE7), (x_code _ _ _ HE6), (x_code _ _ _ HE5). subst pre sj. app_norm. }
  assert (Hzj : zlen sj = zlen sh + 5) by (subst sj; autorewrite with zlen; lia).
  rewrite Hzj in *. rewrite Hp2.
  pose proof (ext_trans _ _ _ _ _ HE0 (ext_trans _ _ _ _ _ HE5 (ext_trans _ _ _ _ _ HE6 (ext_trans _ _ _ _ _ HE7 HE8)))) as HE08.
  exists (ETry slot x y), (OP_TRAP :: offset (zlen s + 4) ++ s ++ OP_TRAP_END :: OP_JMP :: offset (zlen sh + 5) ++ sj).
  assert (Hc0 : code c0 = code c) by (rewrite (x_code _ _ _ HE0); apply app_nil_r).
  assert (Hl5 : locals c5 = locals c2) by by rewrite Hp1.
  split; [|split].
  - replace (pre ++ OP_JMP :: offset (zlen sh + 5) ++ sj) with
      (code c ++ OP_TRAP :: offset (zlen s + 4) ++ s ++ OP_TRAP_END :: OP_JMP :: offset (zlen sh + 5) ++ sj).
    { by eapply ext_with_code. }
    subst pre. rewrite Hc0. app_norm.
  - change (locals c0) with (locals c1'). rewrite Hel1. cbn [mbind option_bind]. rewrite <- Hl5.
    change (locals c5) with (locals c6). rewrite Hel2. done.
  - intros pool nl Hfit Hnl. cbn in Hfit, Hnl. change (consts c8) with (consts c7) in Hfit. change (locals c8) with (locals c7) in Hnl.
    pose proof (fits_prefix _ _ _ _ HE7 Hfit) as Hfit5. pose proof (locals_grow _ _ _ HE7) as Hgr7.
    change (locals c6) with (locals c5) in Hgr7. rewrite Hl5 in Hgr7.
    assert (Hfit2 : fits pool (consts c2)) by (change (consts c6) with (consts c5) in Hfit5; by rewrite Hp1 in Hfit5).
    pose proof (locals_grow _ _ _ HE2) as Hgr2. change (locals c1') with (locals c0) in Hgr2.
    assert (Htd : trap_depth c1' = trap_depth c + 1) by (cbn; rewrite (x_td _ _ _ HE0); done).
    assert (Htd6 : trap_depth c6 = trap_depth c) by (rewrite (x_td _ _ _ HE6), (x_td _ _ _ HE5); apply HE0).
    apply gen_try; [lia| | |done|done].
    + rewrite <- Htd. apply Hg1; [done|lia].
    + rewrite <- Htd6. by apply Hg2.
Qed.

Lemma error_emit_value c v : error (emit_value c v) = error c.
Proof.
  unfold emit_value, emit_const. pose proof (error_add_constant c v) as Ha. destruct (add_constant c v). cbn in Ha.
  by rewrite error_emit_indexed.
Qed.

Lemma fold_emits l c b : foldl (λ (c : compiler) (_ : Z), emit c b) c l = foldl emit c (replicate (length l) b).
Proof. revert c. induction l as [|x l IH]; intros c; [done|]. cbn. apply IH. Qed.

Lemma emits_return x :
  (∀ e, x = Some e → good e) →
  emits (compile_return rec x)
    (λ ls, match x with Some e => '(e, ls) ← el e ls; Some (EReturn e, ls) | None => Some (EReturn (EConst VNull), ls) end).
Proof.
  intros Hx c Hc Herr. unfold compile_return in *.
  set (f := λ c, match x with Some e => rec e c | None => emit_value c VNull end).
  set (elf := λ ls, match x with Some e => el e ls | None => Some (EConst VNull, ls) end).
  assert (Hf : emits f elf) by (unfold f, elf; destruct x as [e|]; [by apply Hx|by apply emits_value]).
  change (match x with Some e => rec e c | None => emit_value c VNull end) with (f c) in *.
  rewrite fold_emits in *. set (k := length (range 0 (trap_depth (f c)))) in *.
  assert (He1 : error (f c) = false).
  { clear - Herr. cbn in Herr. revert Herr. generalize (f c). induction k as [|k IH]; intros c0; [done|]. cbn. intros Hk. by apply IH in Hk. }
  destruct (Hf c Hc He1) as (y & s & HE & Hel & Hg).
  assert (Hk : k = Z.to_nat (trap_depth c)).
  { subst k. rewrite (x_td _ _ _ HE). pose proof (zlen_range 0 (trap_depth c)) as Hr. unfold zlen in Hr.
    pose proof (ci_td _ Hc). lia. }
  pose proof (emit_list_ext (f c) (replicate k OP_TRAP_END) (x_inv _ _ _ HE)) as HE1.
  pose proof (ext_emit _ OP_RET (x_inv _ _ _ HE1)) as HE2.
  assert (Hl : ∀ c0, locals (foldl emit c0 (replicate k OP_TRAP_END)) = locals c0 ∧ consts (foldl emit c0 (replicate k OP_TRAP_END)) = consts c0).
  { clear. induction k as [|k IH]; intros c0; [done|]. exact (IH (emit c0 OP_TRAP_END)). }
  destruct (Hl (f c)) as [Hl1 Hl2].
  exists (EReturn y), (s ++ replicate (Z.to_nat (trap_depth c)) OP_TRAP_END ++ [OP_RET]). split; [|split].
  - rewrite <- Hk. eapply ext_trans; [done|]. by eapply ext_trans.
  - cbn [locals emit with_code]. rewrite Hl1. unfold elf in Hel. destruct x as [e|]; [by rewrite Hel|]. injection Hel as <- E. by rewrite E.
  - intros pool nl Hfit Hnl. cbn in Hfit, Hnl. rewrite Hl1 in Hnl. rewrite Hl2 in Hfit. constructor. by apply Hg.
Qed.

Lemma elab_args_length args ls xs ls' : elab_args el args ls = Some (xs, ls') → zlen xs = zlen args.
Proof.
  revert xs ls ls'. induction args as [|a args IH]; intros xs ls ls' He; cbn in He; [by simplify_eq|].
  destruct (el a ls) as [[x ls1]|]; cbn in He; [|done]. destruct (elab_args el args ls1) as [[ys ls2]|] eqn:Hr; cbn in He; [|done].
  simplify_eq. rewrite !zlen_cons. by rewrite (IH _ _ _ Hr).
Qed.

Lemma emits_self args : Forall (λ e, good e) args → emits (compile_self rec args) (elab_self el args).
Proof.
  intros Hargs c Hc Herr. unfold compile_self, elab_self in *. destruct (Z.ltb_spec 64 (zlen args)); [done|].
  destruct (emits_args args Hargs c Hc Herr) as (xs & ss & HE & Hel & Hg). rewrite mjoin_app_nil in HE.
  pose proof (emit_list_ext _ [OP_CALLS; zlen args] (x_inv _ _ _ HE)) as HE1.
  rewrite Hel. cbn [mbind option_bind].
  pose proof (elab_args_length _ _ _ _ Hel) as Hlen.
  exists (ESelf xs), (mjoin ss ++ [OP_CALLS; zlen args]). split; [by eapply ext_trans|]. split; [done|].
  intros pool nl Hfit Hnl. rewrite <- Hlen. constructor; [by apply Hg|lia].
Qed.

Lemma emits_dynamic ast : const_ok ast → emits (compile_dynamic ast) (λ ls, Some (EDyn ast, ls)).
Proof.
  intros Hv c Hc Herr. unfold compile_dynamic in *.
  destruct (emit_value_ext c ast Hc Hv) as (s & HE & Hl & Hg).
  pose proof (emit_list_ext _ [OP_CALLD; 0] (x_inv _ _ _ HE)) as HE1.
  exists (EDyn ast), (s ++ [OP_CALLD; 0]). split; [by eapply ext_trans|]. split; [cbn; by rewrite Hl|].
  intros pool nl Hfit _. constructor. by apply Hg.
Qed.

Lemma emits_runtime_special ast :
  const_ok ast →
  emits (compile_runtime_special ast) (λ ls, Some (if ast_refs_locals ls ast then EScope ls ast else EDyn ast, ls)).
Proof.
  intros Hv c Hc Herr. unfold compile_runtime_special in *.
  destruct (ast_refs_locals (locals c) ast); cbn [negb] in *; [|by apply emits_dynamic].
  destruct (add_constant_ext c (VVec RAY_I64 0 (locals c)) Hc) as (c1 & idx & Ha & HE1 & Hi & Hl1); [done|]. rewrite Ha in *.
  destruct (emit_indexed_ext c1 OP_LOADCONST OP_LOADCONST_W idx _ (x_inv _ _ _ HE1) Hi) as (s1 & HE2 & Hcs1 & Hg1).
  change (emit_indexed c1 OP_LOADCONST OP_LOADCONST_W idx) with (emit_const c1 idx) in *.
  pose proof (emit_list_ext _ [OP_SCOPE_BEGIN] (x_inv _ _ _ HE2)) as HE3. cbn [foldl] in HE3.
  set (c2 := emit (emit_const c1 idx) OP_SCOPE_BEGIN) in *.
  destruct (emit_value_ext c2 ast (x_inv _ _ _ HE3) Hv) as (s2 & HE4 & Hl2 & Hg2).
  pose proof (emit_list_ext _ [OP_CALLD; 0] (x_inv _ _ _ HE4)) as HE5.
  change (foldl emit (emit_value c2 ast) [OP_CALLD; 0]) with (compile_dynamic ast c2) in HE5.
  set (c3 := compile_dynamic ast c2) in *.
  assert (Hi3 : (consts c3).[idx] = Some (VVec RAY_I64 0 (locals c))).
  { change (consts c3) with (consts (emit_value c2 ast)). destruct (x_consts _ _ _ HE4) as [ex ->].
    change (consts c2) with (consts (emit_const c1 idx)). rewrite Hcs1, zget_app_l; [done|]. apply zget_Some in Hi; lia. }
  destruct (emit_indexed_ext c3 OP_LOADCONST OP_LOADCONST_W idx _ (x_inv _ _ _ HE5) Hi3) as (s3 & HE6 & Hcs3 & Hg3).
  change (emit_indexed c3 OP_LOADCONST OP_LOADCONST_W idx) with (emit_const c3 idx) in *.
  assert (Hs3 : s3 = s1).
  { pose proof (x_code _ _ _ HE6) as E6. pose proof (x_code _ _ _ HE2) as E2. unfold emit_const, emit_indexed in E6, E2.
    destruct (idx <? 256); cbn in E6, E2; rewrite <- ?app_assoc in E6, E2; apply app_inv_head in E6, E2; congruence. }
  subst s3. pose proof (emit_list_ext _ [OP_SCOPE_END] (x_inv _ _ _ HE6)) as HE7. cbn [foldl] in HE7.
  exists (EScope (locals c) ast), (s1 ++ OP_SCOPE_BEGIN :: s2 ++ OP_CALLD :: 0 :: s1 ++ [OP_SCOPE_END]).
  assert (Hlf : locals (emit (emit_const c3 idx) OP_SCOPE_END) = locals c).
  { cbn [emit with_code locals]. unfold emit_const. rewrite locals_emit_indexed.
    change (locals c3) with (locals (emit_value c2 ast)). rewrite Hl2. cbn [c2 emit with_code locals].
    unfold c2, emit_const. cbn. by rewrite locals_emit_indexed. }
  split; [|split].
  - replace (s1 ++ OP_SCOPE_BEGIN :: s2 ++ OP_CALLD :: 0 :: s1 ++ [OP_SCOPE_END]) with
      ([] ++ s1 ++ [OP_SCOPE_BEGIN] ++ s2 ++ [OP_CALLD; 0] ++ s1 ++ [OP_SCOPE_END]) by app_norm.
    repeat (eapply ext_trans; [eassumption|]). done.
  - by rewrite Hlf.
  - intros pool nl Hfit Hnl. cbn in Hfit. rewrite Hcs3 in Hfit.
    assert (Hfit4 : fits pool (consts (emit_value c2 ast))) by exact Hfit.
    constructor; [apply Hg1|by apply Hg2|by rewrite Hlf in Hnl].
    pose proof (fits_prefix _ _ _ _ HE4 Hfit4) as Hf2. change (consts c2) with (consts (emit_const c1 idx)) in Hf2. by rewrite Hcs1 in Hf2.
Qed.
(** The instruction a call ends in. *)
Definition call_code (fn : option value) (argc : Z) : list Z :=
  match fn with
  | Some (VFn FUnary _ _ _) => if argc =? 1 then [OP_CALL1] else [OP_CALLF; argc]
  | Some (VFn FBinary _ _ _) => if argc =? 2 then [OP_CALL2] else [OP_CALLF; argc]
  | Some (VFn FVary _ _ _) => [OP_CALLN; argc]
  | _ => [OP_CALLF; argc]
  end.
Definition call_exp (fn : option value) (h : exp) (es : list exp) : exp :=
  match fn, es with
  | Some (VFn FUnary attrs opcode ptr), [a] => ECall1 attrs opcode ptr a
  | Some (VFn FBinary attrs opcode ptr), [a; b] => ECall2 attrs opcode ptr a b
  | Some (VFn FVary attrs opcode ptr), _ => ECallN attrs opcode ptr es
  | _, _ => ECall h es
  end.
Definition is_fn (fn : option value) : option value :=
  match fn with Some (VFn _ _ _ _ as f) => Some f | _ => None end.

Lemma gen_call_code pool nl td fn h sh es ss :
  gen pool nl td h sh → Forall2 (gen pool nl td) es ss → zlen es ≤ 64 →
  (∀ f, is_fn fn = Some f → h = EConst f) →
  gen pool nl td (call_exp fn h es) (sh ++ mjoin ss ++ call_code fn (zlen es)).
Proof.
  intros Hh Hes Hl Hf. pose proof (gen_call _ _ _ _ _ _ _ Hh Hes Hl) as Hgen.
  destruct fn as [[| | | | | |k a o p| |]|]; try exact Hgen. specialize (Hf _ eq_refl) as ->.
  assert (Hi : idx_code pool OP_LOADCONST OP_LOADCONST_W (VFn k a o p) sh) by (by inversion Hh).
  destruct k; cbn [call_exp call_code] in *; [| |by constructor].
  - destruct Hes as [|x s es' ss' Hx [|y t es ss Hy Hes]]; [done| |].
    + rewrite mjoin_cons. change (mjoin []) with (@nil Z). rewrite app_nil_r. by constructor.
    + rewrite !zlen_cons in *. pose proof (zlen_nonneg es). by destruct (Z.eqb_spec (1 + (1 + zlen es)) 1) as [?|_]; [lia|].
  - destruct Hes as [|x s es1 ss1 Hx [|y t es2 ss2 Hy [|z u es ss Hz Hes]]]; [done..| |].
    + rewrite !mjoin_cons. change (mjoin []) with (@nil Z). rewrite app_nil_r, <- app_assoc. by constructor.
    + rewrite !zlen_cons in *. pose proof (zlen_nonneg es). by destruct (Z.eqb_spec (1 + (1 + (1 + zlen es))) 2) as [?|_]; [lia|].
Qed.

Lemma compile_args_error args c : error (compile_args rec args c) = false → error c = false.
Proof. apply (fold_error []). Qed.

Lemma keep_foldl_emit l c :
  error (foldl emit c l) = error c ∧ locals (foldl emit c l) = locals c ∧ consts (foldl emit c l) = consts c.
Proof. revert c. induction l as [|b l IH]; intros c; [done|]. exact (IH (emit c b)). Qed.

Lemma emits_call fn head args :
  (is_fn fn = None → good head) → Forall (λ e, good e) args →
  emits (compile_call rec fn head args) (elab_call el fn head args).
Proof.
  intros Hh Hargs c Hc Herr.
  set (f := λ c, match is_fn fn with Some f => emit_value c f | None => rec head c end).
  set (elf := λ ls, match is_fn fn with Some f => Some (EConst f, ls) | None => el head ls end).
  assert (Hhead : emits f elf).
  { unfold f, elf. destruct (is_fn fn) as [v|] eqn:Hf; [|by apply Hh]. apply emits_value.
    by destruct fn as [[]|]; simplify_eq/=. }
  assert (Hcc : compile_call rec fn head args c =
    if 64 <? zlen args then set_error (f c) else foldl emit (compile_args rec args (f c)) (call_code fn (zlen args))).
  { unfold compile_call, f. destruct fn as [[| | | | | |[] ? ? ?| |]|]; cbn [is_fn call_code]; destruct (64 <? zlen args); try done.
    - by destruct (zlen args =? 1).
    - by destruct (zlen args =? 2). }
  assert (Hel : ∀ ls, elab_call el fn head args ls =
    ('(h, ls) ← elf ls; if 64 <? zlen args then None else '(es, ls) ← elab_args el args ls; Some (call_exp fn h es, ls))).
  { intros ls. unfold elab_call, elf. by destruct fn as [[| | | | | |[] ? ? ?| |]|]. }
  rewrite Hcc in *. rewrite Hel. destruct (Z.ltb_spec 64 (zlen args)); [done|].
  assert (Hce : error (compile_args rec args (f c)) = false).
  { by rewrite <- (proj1 (keep_foldl_emit (call_code fn (zlen args)) _)). }
  destruct (Hhead c Hc (compile_args_error _ _ Hce)) as (h & sh & HE1 & Hel1 & Hg1).
  destruct (emits_args args Hargs (f c) (x_inv _ _ _ HE1) Hce) as (es & ss & HE2 & Hel2 & Hg2).
  rewrite mjoin_app_nil in HE2.
  pose proof (emit_list_ext _ (call_code fn (zlen args)) (x_inv _ _ _ HE2)) as HE3.
  set (c3 := foldl emit (compile_args rec args (f c)) (call_code fn (zlen args))) in *.
  destruct (keep_foldl_emit (call_code fn (zlen args)) (compile_args rec args (f c))) as (_ & Hl3 & Hcs3). fold c3 in Hl3, Hcs3.
  exists (call_exp fn h es), (sh ++ mjoin ss ++ call_code fn (zlen args)). split; [|split].
  - by repeat (eapply ext_trans; [eassumption|]).
  - rewrite Hel1. cbn [mbind option_bind]. rewrite Hel2. cbn [mbind option_bind]. by rewrite Hl3.
  - intros pool nl Hfit Hnl. rewrite Hcs3 in Hfit. rewrite Hl3 in Hnl.
    rewrite <- (elab_args_length _ _ _ _ Hel2). apply gen_call_code.
    + apply Hg1; [by eapply fits_prefix|]. pose proof (locals_grow _ _ _ HE2). lia.
    + rewrite <- (x_td _ _ _ HE1). by apply Hg2.
    + rewrite (elab_args_length _ _ _ _ Hel2). lia.
    + intros v Hv. unfold elf in Hel1. rewrite Hv in Hel1. by simplify_eq.
Qed.

Lemma emits_special ast id args :
  const_ok ast → Forall (λ e, good e) args →
  (∃ f g, (∀ c, compile_special rec ast id args c = Some (f c)) ∧
          (∀ ls, elab_special el ast id args ls = Some (g ls)) ∧ emits f g) ∨
  ((∀ c, compile_special rec ast id args c = None) ∧ ∀ ls, elab_special el ast id args ls = None).
Proof.
  intros Hv Hargs. unfold compile_special, elab_special.
  destruct (id =? sf_set).
  { destruct Hargs as [|x ? _ [|y ? Hy []]]; try (by right). left. eexists _, _. split; [done|]. split; [done|]. by apply emits_set. }
  destruct (id =? sf_let).
  { destruct Hargs as [|x ? _ [|y ? Hy []]]; try (by right). left. eexists _, _. split; [done|]. split; [done|]. by apply emits_let. }
  destruct (id =? sf_if).
  { destruct Hargs as [|x ? Hx [|y ? Hy Hz]]; try (by right). left. eexists _, _. split; [done|]. split; [done|]. by apply emits_if. }
  destruct (id =? sf_do).
  { destruct Hargs as [|x ? Hx Hy]; [by right|]. left. eexists _, _. split; [done|]. split; [done|]. by apply emits_do. }
  destruct (id =? sf_fn).
  { destruct Hargs as [|x ? Hx [|y ? Hy Hz]]; try (by right). left. eexists _, _. split; [done|]. split; [done|]. by apply emits_dynamic. }
  destruct (id =? sf_try).
  { destruct Hargs as [|x ? Hx [|y ? Hy []]]; try (by right). left. eexists _, _. split; [done|]. split; [done|]. by apply emits_try. }
  destruct (id =? sf_return); [|by right].
  destruct Hargs as [|x ? Hx []]; [| |by right]; left; eexists _, _; (split; [done|]); (split; [done|]).
  - by apply (emits_return None).
  - apply (emits_return (Some x)). by intros e [= <-].
Qed.

Lemma emits_list E ast head args :
  const_ok ast → good head → Forall (λ e, good e) args →
  emits (compile_list rec E ast head args) (elab_list el E ast head args).
Proof.
  intros Hv Hh Hargs.
  set (id := match head with VSym _ id => id | _ => 0 end).
  assert (Hrest : ∀ fn, emits
    (λ c, if is_name head && match head with VSym _ id => id =? sf_self | _ => false end then compile_self rec args c
          else if match fn with Some f => has (attrs_of f) RAY_FN_SPECIAL_FORM | None => false end
          then compile_runtime_special ast c else compile_call rec fn head args c)
    (λ ls, if is_name head && match head with VSym _ id => id =? sf_self | _ => false end then elab_self el args ls
           else if match fn with Some f => has (attrs_of f) RAY_FN_SPECIAL_FORM | None => false end
           then Some (if ast_refs_locals ls ast then EScope ls ast else EDyn ast, ls) else elab_call el fn head args ls)).
  { intros fn. destruct (is_name head && _); [by apply emits_self|].
    destruct (match fn with Some f => _ | None => _ end); [by apply emits_runtime_special|]. by apply emits_call. }
  unfold compile_list, elab_list.
  destruct head as [| |a i| | | | | |]; try apply (Hrest None). destruct (is_name (VSym a i)) eqn:Hn; [|apply (Hrest None)].
  destruct (emits_special ast i args Hv Hargs) as [(f & g & Hf & Hg & Hfg)|[Hf Hg]].
  - intros c Hc. rewrite Hf, Hg. by apply Hfg.
  - intros c Hc. rewrite Hf, Hg. by apply Hrest.
Qed.

End forms.

Lemma compile_expr_error E e c : error (compile_expr E e c) = false → error c = false.
Proof. destruct e; cbn [compile_expr]; destruct (error c) eqn:?; congruence. Qed.

Lemma emits_name E a id :
  emits (compile_expr E (VSym a id)) (elab E (VSym a id)).
Proof.
  intros c Hc He. pose proof (compile_expr_error _ _ _ He) as Hc0. cbn [compile_expr elab] in *. rewrite Hc0 in *.
  destruct (is_name (VSym a id)); [|by apply (emits_value (VSym a id))].
  destruct (id =? sf_null); [by apply (emits_value VNull)|].
  change (find_local c id) with (slot_of (locals c) id) in *.
  destruct (Z.leb_spec 0 (slot_of (locals c) id)) as [Hs|Hs].
  - exists (ELocal (slot_of (locals c) id)), [OP_LOADENV; slot_of (locals c) id].
    split; [by apply (emit_list_ext c [OP_LOADENV; slot_of (locals c) id])|]. split; [done|].
    intros pool nl _ Hnl. cbn in Hnl. constructor. pose proof (slot_of_bound (locals c) id). lia.
  - destruct (add_constant_ext c (VSym a id) Hc) as (c' & idx & Ha & HE1 & Hi & Hl); [done|]. rewrite Ha in *.
    destruct (emit_indexed_ext c' OP_RESOLVE OP_RESOLVE_W idx _ (x_inv _ _ _ HE1) Hi) as (k & HE2 & Hcs & Hk).
    exists (EGlobal id), k. split; [by apply (ext_trans _ _ _ [] k HE1)|]. split; [by rewrite locals_emit_indexed, Hl|].
    intros pool nl Hfit _. rewrite Hcs in Hfit. econstructor. by apply Hk.
Qed.

(** ** The compiler *)
Lemma emits_expr E e : ast_ok e → emits (compile_expr E e) (elab E e).
Proof.
  induction e as [|t a x p|a id|t a l|a es IH|a k v|k a o p|a|msg] using value_nested_ind; intros Hok c Hc He;
    pose proof (compile_expr_error _ _ _ He) as Hc0;
    try (cbn [compile_expr elab] in *; rewrite Hc0 in *; by apply emits_value); [by apply emits_name| |done].
  cbn [compile_expr elab] in *. rewrite Hc0 in *. destruct es as [|head args]; [by apply emits_value|].
  assert (Hall : Forall (λ e, emits (compile_expr E e) (elab E e)) (head :: args)).
  { cbn [ast_ok] in Hok. apply forallb_True in Hok. apply (Forall_impl (λ e, (ast_ok e → emits (compile_expr E e) (elab E e)) ∧ ast_ok e)); [by apply Forall_and|].
    intros e [He1 He2]. by apply He1. }
  inversion_clear Hall. by apply (emits_list _ _ (compile_expr_error E)).
Qed.

Inductive code_of (pool : list value) (nl : Z) : option exp → list Z → Prop :=
| code_empty : code_of pool nl None [OP_RET]
| code_body e s : gen pool nl 0 e s → code_of pool nl (Some e) (s ++ [OP_RET]).

Lemma add_params_ext ps c :
  cinv c → error (foldl (λ c id, add_param id c) c ps) = false →
  ext c (foldl (λ c id, add_param id c) c ps) [] ∧ locals (foldl (λ c id, add_param id c) c ps) = locals c ++ ps.
Proof.
  revert c. induction ps as [|id ps IH]; intros c Hc He; cbn [foldl] in *.
  { rewrite app_nil_r. split; [by apply ext_refl|done]. }
  assert (Hp : error (add_param id c) = false).
  { clear IH. revert c Hc He. generalize (add_param id). intros f c _. revert f c.
    induction ps as [|id' ps IH]; intros f c He; [done|]. cbn [foldl] in He. specialize (IH (add_param id') (f c) He).
    revert IH. unfold add_param. destruct (error (f c)) eqn:?; congruence. }
  assert (Hadd : ext c (add_param id c) [] ∧ locals (add_param id c) = locals c ++ [id]).
  { clear IH He. unfold add_param in *. destruct (error c) eqn:Herr; [congruence|].
    pose proof (add_local_ext c id Hc) as Ha. revert Hp Ha. unfold add_local. pose proof (zlen_nonneg (locals c)).
    destruct (256 <=? zlen (locals c)); cbn; [done|]. destruct (Z.ltb_spec (zlen (locals c)) 0); [lia|]. intros _ Ha.
    split; [by apply Ha|done]. }
  destruct Hadd as [HE Hl]. destruct (IH _ (x_inv _ _ _ HE) He) as [HEs Hls].
  split; [by apply (ext_trans _ _ _ [] [] HE)|]. by rewrite Hls, Hl, <- app_assoc.
Qed.

Lemma ray_compile_code E l b :
  Forall (λ e, ast_ok e) (body l) → ray_compile E l = Some b → zlen (bconsts b) ≤ 65536 →
  ∃ e ls, elab_lambda E l = Some (e, ls) ∧ nlocals b = zlen ls ∧ zlen (params l) ≤ zlen ls ≤ 256 ∧ benv b = E ∧
    code_of (bconsts b) (zlen ls) e (bc b).
Proof.
  unfold ray_compile, elab_lambda. intros Hok Hc Hl.
  set (c0 := foldl (λ c id, add_param id c) compiler_init (params l)) in *.
  set (c1 := compile_body E (body l) c0) in *. cbn [error emit with_code] in Hc.
  destruct (error c1) eqn:He1; [done|]. injection Hc as <-. cbn [bc bconsts nlocals benv emit with_code consts max_locals code] in *.
  assert (He0 : error c0 = false).
  { clear - He1. subst c1. destruct (body l); [done|]. cbn [compile_body] in He1. unfold compile_do in He1.
    apply (fold_error _ (compile_expr_error E) [OP_POP]), compile_expr_error in He1. done. }
  destruct (add_params_ext (params l) compiler_init) as [HE0 Hl0]; [by split|done|]. fold c0 in HE0, Hl0.
  cbn in Hl0.
  assert (Hfit : ∀ c, consts c = consts c1 → fits (consts c1) (consts c))
    by (intros c ->; split; [exists []; by rewrite app_nil_r|done]).
  destruct Hok as [|e es He Hes].
  - exists None, (params l). change c1 with c0. destruct (ci_max _ (x_inv _ _ _ HE0)) as [-> H256]. rewrite Hl0 in *. rewrite (x_code _ _ _ HE0).
    repeat split; [lia|done|]. constructor.
  - set (c2 := compile_do (compile_expr E) e es c0). change c1 with c2 in *. clear c1.
    destruct (emits_do (compile_expr E) (elab E) (compile_expr_error E) e es) with (c := c0) as (x & seg & HE1 & Hel & Hg);
      [by apply emits_expr|eapply Forall_impl; [exact Hes|]; intros; by apply emits_expr|apply HE0|done|].
    fold c2 in HE1, Hel, Hg. rewrite Hl0 in Hel. rewrite Hel. cbn [mbind option_bind].
    exists (Some x), (locals c2). split; [done|]. split; [apply (ci_max _ (x_inv _ _ _ HE1))|].
    split; [split; [rewrite <- Hl0; by eapply locals_grow|apply (ci_max _ (x_inv _ _ _ HE1))]|]. split; [done|].
    rewrite (x_code _ _ _ HE1), (x_code _ _ _ HE0). cbn [code compiler_init app]. constructor.
    pose proof (x_td _ _ _ HE0) as Htd. cbn in Htd. rewrite <- Htd. apply Hg; [by apply Hfit|lia].
Qed.
End compile.

(** * The compiler adds at most one constant per node

    So a lambda with at most 65536 nodes has a pool whose indices fit the wide
    instructions. *)
#[local] Arguments Z.pow : simpl never.
#[local] Arguments Z.shiftr : simpl never.
#[local] Arguments Z.land : simpl never.

Section compile.
Context `{Identity} `{Symbols} {X : Type} `{Dotted X}.
Notation total es := (foldr (λ e n, nodes e + n) 0 es).
Lemma nodes_pos v : 1 ≤ nodes v.
Proof.
  induction v as [|t a x p|a id|t a l|a es IH|a k v|k a o p|a|msg] using value_nested_ind; cbn [nodes]; try lia.
  assert (0 ≤ total es); [|lia]. induction IH as [|e es He _ IHes]; cbn [foldr]; lia.
Qed.
Lemma total_nonneg es : 0 ≤ total es.
Proof. induction es as [|e es IH]; cbn [foldr]; [lia|]. pose proof (nodes_pos e). lia. Qed.

Lemma consts_emit_indexed c op op_w idx : consts (emit_indexed c op op_w idx) = consts c.
Proof. unfold emit_indexed. by destruct (_ <? _). Qed.
Lemma consts_patch c pos : consts (patch_jump c pos) = consts c.
Proof. unfold patch_jump. by destruct (_ || _). Qed.
Lemma consts_add_local c id : consts (add_local c id).1 = consts c.
Proof. unfold add_local. by destruct (_ <=? _). Qed.
Lemma pool_add_constant c v : zlen (consts (add_constant c v).1) ≤ zlen (consts c) + 1.
Proof. unfold add_constant. destruct (find_const _ _ _); cbn; [lia|]. rewrite zlen_app. change (zlen [v]) with 1. lia. Qed.
Lemma pool_emit_value c v : zlen (consts (emit_value c v)) ≤ zlen (consts c) + 1.
Proof.
  unfold emit_value. pose proof (pool_add_constant c v) as Ha. destruct (add_constant c v). cbn in Ha.
  unfold emit_const. by rewrite consts_emit_indexed.
Qed.

Section pool.
Context (rec : value → compiler → compiler).
Notation small e := (∀ c, zlen (consts (rec e c)) ≤ zlen (consts c) + nodes e).

Lemma pool_fold op es c :
  Forall (λ e, small e) es → zlen (consts (foldl (λ c e, rec e (foldl emit c op)) c es)) ≤ zlen (consts c) + total es.
Proof.
  intros Hes. revert c. induction Hes as [|e es He _ IH]; intros c; cbn [foldl foldr]; [lia|].
  specialize (IH (rec e (foldl emit c op))). specialize (He (foldl emit c op)).
  rewrite (proj2 (proj2 (keep_foldl_emit op c))) in He. lia.
Qed.
Lemma pool_args es c : Forall (λ e, small e) es → zlen (consts (compile_args rec es c)) ≤ zlen (consts c) + total es.
Proof. apply (pool_fold []). Qed.
Lemma pool_do e es c : small e → Forall (λ e, small e) es → zlen (consts (compile_do rec e es c)) ≤ zlen (consts c) + nodes e + total es.
Proof. intros He Hes. pose proof (pool_fold [OP_POP] es (rec e c) Hes). specialize (He c). unfold compile_do. cbn [foldl] in *. lia. Qed.

Lemma pool_set name e c : small e → zlen (consts (compile_set rec name e c)) ≤ zlen (consts c) + 1 + nodes e.
Proof.
  intros He. specialize (He c). pose proof (nodes_pos e). unfold compile_set. destruct name; cbn [consts set_error]; try lia.
  pose proof (pool_add_constant (rec e c) (VSym attrs id)) as Ha. destruct (add_constant _ _). cbn in Ha. rewrite consts_emit_indexed. lia.
Qed.
Lemma pool_let name e c : small e → zlen (consts (compile_let rec name e c)) ≤ zlen (consts c) + nodes e.
Proof.
  intros He. specialize (He c). pose proof (nodes_pos e). unfold compile_let. destruct name; cbn [consts set_error]; try lia.
  destruct (_ && _); [cbn; lia|]. set (c2 := emit (emit (rec e c) OP_FORCE) OP_DUP).
  pose proof (consts_add_local c2 id) as Ha. destruct (find_local c2 id <? 0).
  - destruct (add_local c2 id) as [c3 slot]. cbn in Ha. destruct (slot <? 0); cbn; rewrite Ha; exact He.
  - destruct (_ <? _); exact He.
Qed.
Lemma pool_if cond t es c :
  small cond → small t → Forall (λ e, small e) es → zlen (consts (compile_if rec cond t es c)) ≤ zlen (consts c) + nodes cond + nodes t + 1 + total es.
Proof.
  intros Hcond Ht Hes. unfold compile_if. specialize (Hcond c). set (c1 := rec cond c) in *.
  rewrite (surjective_pairing (emit_jump c1 OP_JMPF)). set (c2 := (emit_jump c1 OP_JMPF).1).
  specialize (Ht c2). change (consts c2) with (consts c1) in Ht. set (c3 := rec t c2) in *.
  rewrite (surjective_pairing (emit_jump c3 OP_JMP)). set (c4 := (emit_jump c3 OP_JMP).1).
  rewrite consts_patch. pose proof (total_nonneg es). destruct Hes as [|e es He Hes].
  - pose proof (pool_emit_value (patch_jump c4 (emit_jump c1 OP_JMPF).2) (make_i64 0)) as Hp. rewrite consts_patch in Hp.
    change (consts c4) with (consts c3) in Hp. cbn [foldr]. lia.
  - specialize (He (patch_jump c4 (emit_jump c1 OP_JMPF).2)). rewrite consts_patch in He. change (consts c4) with (consts c3) in He.
    cbn [foldr]. pose proof (total_nonneg es). lia.
Qed.
Lemma pool_try e h c : small e → small h → zlen (consts (compile_try rec e h c)) ≤ zlen (consts c) + nodes e + nodes h.
Proof.
  intros He Hh. unfold compile_try. pose proof (consts_add_local c (-1)) as Ha. pose proof (nodes_pos e). pose proof (nodes_pos h).
  destruct (add_local c (-1)) as [c0 slot]. cbn in Ha. destruct (slot <? 0); [cbn; rewrite Ha; lia|].
  rewrite (surjective_pairing (emit_jump c0 OP_TRAP)). set (c1 := (emit_jump c0 OP_TRAP).1).
  set (c1' := with_trap_depth c1 (trap_depth c1 + 1)). specialize (He c1'). change (consts c1') with (consts c0) in He. rewrite Ha in He.
  set (c2 := rec e c1') in *. set (c3 := emit (with_trap_depth c2 (trap_depth c2 - 1)) OP_TRAP_END).
  rewrite (surjective_pairing (emit_jump c3 OP_JMP)). set (c4 := (emit_jump c3 OP_JMP).1).
  rewrite consts_patch. set (c5 := emit (emit (patch_jump c4 _) OP_STOREENV) slot). specialize (Hh c5).
  change (consts (emit (emit (emit (rec h c5) OP_LOADENV) slot) OP_TRYH)) with (consts (rec h c5)).
  assert (consts c5 = consts c2) as Hc5 by (unfold c5; cbn [consts emit with_code]; by rewrite consts_patch).
  rewrite Hc5 in Hh. lia.
Qed.
Lemma pool_return x c k :
  (∀ e, x = Some e → small e) → (1 ≤ k) → (∀ e, x = Some e → nodes e ≤ k) → zlen (consts (compile_return rec x c)) ≤ zlen (consts c) + k.
Proof.
  intros Hx Hk Hn. unfold compile_return. rewrite fold_emits. cbn [consts emit with_code].
  rewrite (proj2 (proj2 (keep_foldl_emit _ _))). destruct x as [e|].
  - specialize (Hx e eq_refl c). specialize (Hn e eq_refl). lia.
  - pose proof (pool_emit_value c VNull). lia.
Qed.
Lemma pool_dynamic ast c : zlen (consts (compile_dynamic ast c)) ≤ zlen (consts c) + 1.
Proof. apply pool_emit_value. Qed.

Lemma pool_special ast id args c c' :
  Forall (λ e, small e) args → compile_special rec ast id args c = Some c' → zlen (consts c') ≤ zlen (consts c) + 1 + total args.
Proof.
  intros Hargs. unfold compile_special.
  destruct (id =? sf_set).
  { destruct Hargs as [|x ? _ [|y ? Hy []]]; try done. intros [= <-]. pose proof (pool_set x y c Hy). pose proof (nodes_pos x). cbn [foldr]. lia. }
  destruct (id =? sf_let).
  { destruct Hargs as [|x ? _ [|y ? Hy []]]; try done. intros [= <-]. pose proof (pool_let x y c Hy). pose proof (nodes_pos x). cbn [foldr]. lia. }
  destruct (id =? sf_if).
  { destruct Hargs as [|x ? Hx [|y ? Hy Hz]]; try done. intros [= <-]. pose proof (pool_if x y _ c Hx Hy Hz). cbn [foldr]. lia. }
  destruct (id =? sf_do).
  { destruct Hargs as [|x ? Hx Hy]; [done|]. intros [= <-]. pose proof (pool_do x _ c Hx Hy). cbn [foldr]. lia. }
  pose proof (total_nonneg args). destruct (id =? sf_fn).
  { destruct args as [|? [|? ?]]; try done. intros [= <-]. pose proof (pool_dynamic ast c). lia. }
  destruct (id =? sf_try).
  { destruct Hargs as [|x ? Hx [|y ? Hy []]]; try done. intros [= <-]. pose proof (pool_try x y c Hx Hy). cbn [foldr]. lia. }
  destruct (id =? sf_return); [|done].
  destruct Hargs as [|x ? Hx []]; [| |done]; intros [= <-].
  - pose proof (pool_return None c 1 ltac:(done) ltac:(lia) ltac:(done)). lia.
  - pose proof (nodes_pos x). pose proof (pool_return (Some x) c (nodes x)) as Hr. cbn [foldr]. specialize (Hr ltac:(by intros ? [= <-])).
    specialize (Hr ltac:(lia) ltac:(by intros ? [= <-])). lia.
Qed.

Lemma pool_runtime_special ast c : zlen (consts (compile_runtime_special ast c)) ≤ zlen (consts c) + 2.
Proof.
  unfold compile_runtime_special. destruct (negb _); [pose proof (pool_dynamic ast c); lia|].
  pose proof (pool_add_constant c (VVec RAY_I64 0 (locals c))) as Ha. destruct (add_constant _ _) as [c1 idx]. cbn in Ha.
  unfold emit_const. cbn [consts emit with_code]. rewrite consts_emit_indexed.
  pose proof (pool_dynamic ast (emit (emit_indexed c1 OP_LOADCONST OP_LOADCONST_W idx) OP_SCOPE_BEGIN)) as Hd.
  cbn [consts emit with_code] in Hd. rewrite consts_emit_indexed in Hd. lia.
Qed.

Lemma pool_call fn head args c :
  small head → Forall (λ e, small e) args → zlen (consts (compile_call rec fn head args c)) ≤ zlen (consts c) + nodes head + total args.
Proof.
  intros Hh Hargs. unfold compile_call. set (c1 := match fn with Some (VFn _ _ _ _ as f) => emit_value c f | _ => rec head c end).
  assert (Hc1 : zlen (consts c1) ≤ zlen (consts c) + nodes head).
  { pose proof (nodes_pos head). subst c1. destruct fn as [[]|]; try apply Hh. pose proof (pool_emit_value c (VFn k attrs opcode ptr)). lia. }
  pose proof (total_nonneg args). destruct (64 <? zlen args); [cbn; lia|]. pose proof (pool_args args c1 Hargs).
  transitivity (zlen (consts (compile_args rec args c1))); [|lia].
  by destruct fn as [[| | | | | |[] ? ? ?| |]|]; try done; destruct (_ =? _).
Qed.

Lemma pool_list E ast head args c :
  small head → Forall (λ e, small e) args →
  zlen (consts (compile_list rec E ast head args c)) ≤ zlen (consts c) + 1 + nodes head + total args.
Proof.
  intros Hh Hargs. unfold compile_list. pose proof (nodes_pos head). pose proof (total_nonneg args).
  destruct (match head with VSym _ id => _ | _ => None end) as [c'|] eqn:Hs.
  { destruct head; try done. destruct (is_name _); [|done]. pose proof (pool_special _ _ _ _ _ Hargs Hs). lia. }
  destruct (is_name head && _).
  { unfold compile_self. destruct (64 <? zlen args); [cbn; lia|]. pose proof (pool_args args c Hargs). cbn [consts emit with_code]. lia. }
  destruct (match (match head with VSym _ _ => _ | _ => None end) with Some _ => _ | None => _ end).
  { pose proof (pool_runtime_special ast c). lia. }
  pose proof (pool_call (match head with VSym _ id => if is_name head then ray_env_get E id else None | _ => None end) head args c Hh Hargs). lia.
Qed.
End pool.

Lemma pool_expr E e c : zlen (consts (compile_expr E e c)) ≤ zlen (consts c) + nodes e.
Proof.
  revert c. induction e as [|t a x p|a id|t a l|a es IH|a k v|k a o p|a|msg] using value_nested_ind; intros c;
    (destruct (error c) eqn:Hc; [cbn [compile_expr]; rewrite Hc; match goal with |- _ ≤ _ + nodes ?v => pose proof (nodes_pos v); lia end|]);
    cbn [compile_expr]; rewrite Hc; try (cbn [nodes]; apply pool_emit_value); [| |cbn [nodes]; lia].
  - destruct (is_name _); [|apply pool_emit_value]. destruct (_ =? _); [apply pool_emit_value|].
    destruct (_ <=? _); [cbn [consts emit with_code nodes]; lia|].
    pose proof (pool_add_constant c (VSym a id)) as Ha. destruct (add_constant _ _). cbn in Ha. rewrite consts_emit_indexed. cbn [nodes]. lia.
  - destruct IH as [|e es He Hes]; [apply pool_emit_value|].
    etransitivity; [exact (pool_list (compile_expr E) E (VList a (e :: es)) e es c He Hes)|]. cbn [nodes foldr]. lia.
Qed.

Lemma pool_params ps c : consts (foldl (λ c id, add_param id c) c ps) = consts c.
Proof.
  revert c. induction ps as [|id ps IH]; intros c; [done|]. cbn [foldl]. rewrite IH. unfold add_param.
  destruct (error c); [done|]. pose proof (consts_add_local c id) as Ha. destruct (add_local c id) as [c' slot]. cbn in Ha.
  by destruct (slot <? 0).
Qed.

Lemma compile_pool E l b : ray_compile E l = Some b → zlen (bconsts b) ≤ total (body l).
Proof.
  unfold ray_compile. set (c0 := foldl (λ c id, add_param id c) compiler_init (params l)).
  destruct (error _); [done|]. intros [= <-]. cbn [bconsts consts emit with_code].
  assert (Hz : zlen (consts c0) = 0) by (unfold c0; by rewrite pool_params).
  destruct (body l) as [|e es]; cbn [compile_body foldr]; [lia|].
  pose proof (pool_do (compile_expr E) e es c0 (pool_expr E e)) as Hd.
  specialize (Hd ltac:(apply Forall_forall; intros; apply pool_expr)). lia.
Qed.
End compile.
