(* ===== verification/VmProofs.v ===== *)
(** * One instruction at a time

    Machine states written as a frame and the temporaries above its slots, what
    each instruction does to such a state, and the relation between a state and
    the outcome the reference semantics gives from it. *)

From stdpp Require Import strings.
From S2P Require Import Prelude Lang Compile Vm VmRef CompileProofs.
Local Open Scope Z_scope.
#[local] Arguments zget : simpl never.
#[local] Arguments Z.pow : simpl never.
#[local] Arguments Z.shiftr : simpl never.
#[local] Arguments Z.shiftl : simpl never.
#[local] Arguments Z.land : simpl never.
#[local] Arguments Z.lor : simpl never.

(** ** Operands *)
Lemma u16_bytes i : 0 ≤ i → Z.lor (Z.shiftl (Z.shiftr i 8) 8) (Z.land i 0xff) = i.
Proof.
  intros Hi. change 0xff with (Z.ones 8). apply Z.bits_inj'. intros j Hj.
  rewrite Z.lor_spec, Z.land_spec, Z.shiftl_spec by done. destruct (Z.ltb_spec j 8).
  - rewrite (Z.testbit_neg_r _ (j - 8)) by lia. rewrite Z.ones_spec_low by lia. by rewrite andb_true_r.
  - rewrite Z.shiftr_spec by lia. rewrite Z.ones_spec_high by lia. rewrite andb_false_r, orb_false_r. f_equal. lia.
Qed.

Section frames.
Context {X : Type}.

(** A frame of the lambda [f_fn], compiled to [f_code], above the cells [f_below]. *)
Record frame := Frame {
  f_fn : Z;
  f_code : bytecode;
  f_rs : list vm_ctx;
  f_ts : list vm_trap;
  f_scope : Z;
  f_below : list (option value)
}.
Definition fr_ts (B : frame) (ts : list vm_trap) : frame :=
  Frame (f_fn B) (f_code B) (f_rs B) ts (f_scope B) (f_below B).

(** At [ip], with the slots [sl] and the temporaries [tp]. *)
Definition st (B : frame) (tp sl : list (option value)) (ip : Z) : exec :=
  Exec (tp ++ rev sl ++ f_below B) (f_rs B) (f_ts B) (f_fn B) (zlen (f_below B)) (nlocals (f_code B))
    (bc (f_code B)) (bconsts (f_code B)) ip (f_scope B).

Definition at_depth (B : frame) (tp sl : list (option value)) (d : depth) : Prop :=
  d_sp d = zlen tp + zlen sl + zlen (f_below B) ∧ d_rp d = zlen (f_rs B) ∧ d_tp d = zlen (f_ts B).

Lemma sp_st B tp sl ip : sp (st B tp sl ip) = zlen tp + zlen sl + zlen (f_below B).
Proof. unfold sp, st. cbn [ps]. autorewrite with zlen. unfold zlen at 2. rewrite length_rev. unfold zlen. lia. Qed.

Lemma zlen_rev {A} (l : list A) : zlen (rev l) = zlen l.
Proof. unfold zlen. by rewrite length_rev. Qed.

(** Slot [i] of the frame in the stack. *)
Lemma slot_split {A} (l : list A) i : 0 ≤ i < zlen l → ∃ l1 c l2, l = l1 ++ c :: l2 ∧ zlen l1 = i.
Proof.
  intros Hi. destruct (zget_is_Some l i Hi) as [c Hc]. exists (take (Z.to_nat i) l), c, (drop (S (Z.to_nat i)) l).
  rewrite zget_nat in Hc by lia. split; [by rewrite take_drop_middle|]. unfold zlen in *. rewrite length_take. lia.
Qed.

Lemma local_get B tp sl ip i : 0 ≤ i < zlen sl → (ps (st B tp sl ip)).[local_at (st B tp sl ip) i] = sl.[i].
Proof.
  intros Hi. unfold local_at. rewrite sp_st. cbn [fp st ps]. destruct (slot_split sl i Hi) as (l1 & c & l2 & -> & Hl).
  rewrite rev_app_distr. cbn [rev]. rewrite <- !app_assoc. cbn [app]. rewrite zlen_app, zlen_cons.
  replace (zlen tp + (zlen l1 + (1 + zlen l2)) + zlen (f_below B) - 1 - (zlen (f_below B) + i)) with (zlen (tp ++ rev l2) + 0)
    by (rewrite zlen_app, zlen_rev; lia).
  rewrite app_assoc, !zget_app_r by lia. rewrite <- Hl, !Z.sub_diag. replace (zlen (tp ++ rev l2) + 0 - zlen (tp ++ rev l2)) with 0 by lia.
  done.
Qed.

Lemma local_set B tp sl ip i c :
  0 ≤ i < zlen sl →
  zset (ps (st B tp sl ip)) (local_at (st B tp sl ip) i) c = Some (ps (st B tp (<[Z.to_nat i := c]> sl) ip)).
Proof.
  intros Hi. unfold local_at, zset. rewrite sp_st. change (zlen (ps (st B tp sl ip))) with (sp (st B tp sl ip)). rewrite sp_st.
  cbn [fp st ps]. pose proof (zlen_nonneg tp). pose proof (zlen_nonneg (f_below B)).
  destruct (Z.leb_spec 0 (zlen tp + zlen sl + zlen (f_below B) - 1 - (zlen (f_below B) + i))); [|lia].
  destruct (Z.ltb_spec (zlen tp + zlen sl + zlen (f_below B) - 1 - (zlen (f_below B) + i)) (zlen tp + zlen sl + zlen (f_below B))); [|lia].
  cbn [andb]. f_equal. destruct (slot_split sl i Hi) as (l1 & x & l2 & -> & Hl).
  replace (Z.to_nat i) with (length l1 + 0)%nat by (unfold zlen in Hl; lia). rewrite insert_app_r. cbn [insert list_insert].
  rewrite !rev_app_distr. cbn [rev]. rewrite <- !app_assoc. cbn [app]. rewrite zlen_app, zlen_cons.
  replace (Z.to_nat (zlen tp + (zlen l1 + (1 + zlen l2)) + zlen (f_below B) - 1 - (zlen (f_below B) + i))) with (length (tp ++ rev l2) + 0)%nat
    by (rewrite length_app, length_rev; unfold zlen in *; lia).
  rewrite app_assoc, insert_app_r. by rewrite <- app_assoc.
Qed.

(** The cells of the slots, and writing them back. *)
Lemma frame_part B tp sl ip : take (Z.to_nat (sp (st B tp sl ip) - fp (st B tp sl ip))) (ps (st B tp sl ip)) = tp ++ rev sl.
Proof.
  rewrite sp_st. cbn [fp st ps]. rewrite app_assoc. rewrite take_app_length'; [done|].
  rewrite length_app, length_rev. unfold zlen. lia.
Qed.
Lemma below_part B tp sl ip : drop (Z.to_nat (sp (st B tp sl ip) - fp (st B tp sl ip))) (ps (st B tp sl ip)) = f_below B.
Proof.
  rewrite sp_st. cbn [fp st ps]. rewrite app_assoc. rewrite drop_app_length'; [done|].
  rewrite length_app, length_rev. unfold zlen. lia.
Qed.
Lemma frame_slots_st B tp sl ip n : (n ≤ length sl)%nat → frame_slots (st B tp sl ip) n = take n sl.
Proof.
  intros Hn. unfold frame_slots. rewrite frame_part, rev_app_distr, rev_involutive. rewrite take_app_le; [done|lia].
Qed.
Lemma set_slots_st B tp sl ip k :
  (length k ≤ length sl)%nat → with_ps (st B tp sl ip) (set_slots (st B tp sl ip) k) = st B tp (k ++ drop (length k) sl) ip.
Proof.
  intros Hk. unfold set_slots. rewrite frame_part, below_part, (rev_app_distr tp), rev_involutive.
  rewrite drop_app_le by lia. unfold st, with_ps. cbn. f_equal.
  rewrite (app_assoc k), rev_app_distr, rev_involutive, <- app_assoc. done.
Qed.
End frames.

(** ** Worlds

    What builtins and the tree walker may do to lambdas: a compiled one stays
    as it is, and all keep to [lambda_ok]. *)

Section worlds.
Context `{Identity} `{Symbols} {X : Type} `{Dotted X}.
Implicit Types w : world X.

Definition world_ok w : Prop :=
  ∀ a, lambda_ok (lambdas w a) ∧
    ∀ b, compiled (lambdas w a) = Some b → ray_compile (benv b) (lambdas w a) = Some b.
Definition evolves w w' : Prop :=
  (∀ a b, compiled (lambdas w a) = Some b → lambdas w' a = lambdas w a) ∧ (world_ok w → world_ok w').

#[global] Instance evolves_preorder : PreOrder evolves.
Proof.
  split; [done|]. intros w1 w2 w3 [E1 O1] [E2 O2]. split; [|by auto].
  intros a b Hb. rewrite (E2 a b); [by apply (E1 a b)|]. by rewrite (E1 a b).
Qed.
Lemma evolves_same w w' : lambdas w' = lambdas w → evolves w w'.
Proof. intros E. unfold evolves, world_ok. by rewrite E. Qed.

Lemma ensure_compiled_evolves w a : evolves w (ensure_compiled w a).
Proof.
  unfold ensure_compiled. destruct (compiled (lambdas w a)) eqn:Hc; [done|].
  destruct (ray_compile (genv w) (lambdas w a)) as [b|] eqn:Hb; [|done]. split.
  - intros a' b' Ha'. cbn. destruct (Z.eqb_spec a' a) as [->|]; [congruence|done].
  - intros Hw a'. cbn. destruct (Z.eqb_spec a' a) as [->|]; [|apply Hw]. destruct (Hw a) as [Hl _]. split; [exact Hl|].
    cbn. intros b' [= <-]. assert (benv b = genv w) as ->; [|exact Hb].
    clear - Hb. unfold ray_compile in Hb. by destruct (error _); simplify_eq.
Qed.
End worlds.

Class DynamicLaws (X : Type) `{Identity} `{Symbols} `{Dotted X} `{Dynamic X} : Prop := {
  call_unary_evolves p x w v w' : call_unary p x w = Some (v, w') → evolves w w';
  call_binary_evolves p x y w v w' : call_binary p x y w = Some (v, w') → evolves w w';
  call_vary_evolves p xs w v w' : call_vary p xs w = Some (v, w') → evolves w w';
  atomic_map_unary_evolves p x w v w' : atomic_map_unary p x w = Some (v, w') → evolves w w';
  atomic_map_binary_evolves p o x y w v w' : atomic_map_binary_op p o x y w = Some (v, w') → evolves w w';
  ray_eval_evolves ast w v w' : ray_eval ast w = Some (v, w') → evolves w w';
  call_lambda_evolves a xs w v w' : call_lambda a xs w = Some (v, w') → evolves w w';
  dotted_resolve_evolves id w v w' : dotted_resolve w id = (v, w') → evolves w w'
}.

Section sim.
Context `{DynamicLaws X}.
Implicit Types (w : world X) (B : frame) (tp sl : list (option value)).

Ltac calls :=
  repeat case_match; intros; simplify_eq; try done;
  eauto using call_unary_evolves, call_binary_evolves, call_vary_evolves, atomic_map_unary_evolves,
    atomic_map_binary_evolves, ray_eval_evolves, call_lambda_evolves.
Lemma call1_evolves w a p x v w' : call1 w a p x = Some (v, w') → evolves w w'.
Proof. unfold call1. calls. Qed.
Lemma call2_evolves w a o p x y v w' : call2 w a o p x y = Some (v, w') → evolves w w'.
Proof. unfold call2. calls. Qed.
Lemma calln_evolves w a p xs v w' : calln w a p xs = Some (v, w') → evolves w w'.
Proof. unfold calln. calls. Qed.
Lemma call_builtin_evolves w f xs v w' : call_builtin w f xs = Some (v, w') → evolves w w'.
Proof. unfold call_builtin, calln. calls. Qed.
Lemma ray_try_handle_evolves w h e v w' : ray_try_handle w h e = Some (v, w') → evolves w w'.
Proof. unfold ray_try_handle. calls. Qed.
Lemma ray_env_resolve_evolves w id v w' : ray_env_resolve w id = (v, w') → evolves w w'.
Proof. unfold ray_env_resolve. repeat case_match; intros; simplify_eq; try done. by eapply dotted_resolve_evolves. Qed.

(** ** Runs *)
Definition reach (s : exec) w (s' : exec) w' : Prop := ∃ n, vm_run n s w = Some (Run s' w').

Lemma vm_run_app n m s w :
  vm_run (n + m) s w = (r ← vm_run n s w; match r with Run s w => vm_run m s w | r => Some r end).
Proof.
  revert s w. induction n as [|n IH]; intros s w; [done|]. cbn [vm_run Nat.add].
  destruct (vm_step s w) as [[s1 w1| |]|]; [|done..]. exact (IH s1 w1).
Qed.
Lemma reach_refl s w : reach s w s w.
Proof. by exists O. Qed.
Lemma reach_trans s1 w1 s2 w2 s3 w3 : reach s1 w1 s2 w2 → reach s2 w2 s3 w3 → reach s1 w1 s3 w3.
Proof. intros [n Hn] [m Hm]. exists (n + m)%nat. rewrite vm_run_app, Hn. exact Hm. Qed.
Lemma reach_step s w s1 w1 : vm_step s w = Some (Run s1 w1) → reach s w s1 w1.
Proof. intros Hs. exists 1%nat. cbn [vm_run]. by rewrite Hs. Qed.

(** ** Outcomes *)

(** The machine is about to fail with these slots, above these temporaries. *)
Definition fails B tp sl (s : exec) w w' (obj : option value) (str : string) : Prop :=
  ∃ s1 w1 s', reach s w s1 w1 ∧ vm_step s1 w1 = vm_error s' w' obj str ∧
    ts s' = f_ts B ∧ scope_base s' = f_scope B ∧
    (∃ r, rs s' = r ++ f_rs B) ∧ ∃ t, ps s' = t ++ tp ++ rev sl ++ f_below B.
Definition hangs (s : exec) w : Prop := ∃ s1 w1, reach s w s1 w1 ∧ vm_step s1 w1 = Some Hang.

(** From [s], the machine computes [r]: its value goes above [tp] and execution
    continues at [pe]; [td] traps of the frame are armed. *)
Definition sim B (td : Z) tp (pe : Z) (s : exec) w (r : res X) : Prop :=
  match r with
  | Done o sl w' =>
      zlen sl = nlocals (f_code B) ∧ evolves w w' ∧
      match o with
      | Val v => zlen tp + zlen sl + zlen (f_below B) < VM_STACK_SIZE ∧ reach s w (st B (Some v :: tp) sl pe) w'
      | Ret v => ∃ tp' ip, (bc (f_code B)).[ip] = Some OP_RET ∧
          reach s w (st (fr_ts B (drop (Z.to_nat td) (f_ts B))) (Some v :: tp') sl ip) w'
      | Err obj str => fails B tp sl s w w' obj str
      end
  | Hangs => hangs s w
  | OutOfFuel => False
  end.

Lemma sim_reach B td tp pe s w s1 w1 r :
  reach s w s1 w1 → evolves w w1 → sim B td tp pe s1 w1 r → sim B td tp pe s w r.
Proof.
  intros Hr He. destruct r as [o sl w'| |]; cbn [sim]; [|intros (s2 & w2 & Hr2 & Hh); exists s2, w2; eauto using reach_trans|done].
  intros (Hl & He' & Ho). split; [done|]. split; [by etransitivity|]. destruct o as [v|v|obj str].
  - destruct Ho as [? ?]. eauto using reach_trans.
  - destruct Ho as (tp' & ip & ? & ?). eauto using reach_trans.
  - destruct Ho as (s2 & w2 & s' & Hr2 & Ho). exists s2, w2, s'. eauto using reach_trans.
Qed.
Lemma sim_step B td tp pe s w s1 w1 r :
  vm_step s w = Some (Run s1 w1) → evolves w w1 → sim B td tp pe s1 w1 r → sim B td tp pe s w r.
Proof. intros Hs%reach_step. by apply sim_reach. Qed.

Lemma sim_bind B td x tp tp' pe pe' s w r k :
  tp = x ++ tp' → sim B td tp pe s w r →
  (∀ v sl w', evolves w w' → zlen sl = nlocals (f_code B) → zlen tp + zlen sl + zlen (f_below B) < VM_STACK_SIZE →
     sim B td tp' pe' (st B (Some v :: tp) sl pe) w' (k v sl w')) →
  sim B td tp' pe' s w (rbind r k).
Proof.
  intros -> Hr Hk. destruct r as [[v|v|obj str] sl w'| |]; cbn [rbind]; [|exact Hr| |exact Hr|exact Hr].
  - destruct Hr as (Hl & He & Hlt & Hr). eapply sim_reach; [done|done|]. by apply Hk.
  - destruct Hr as (Hl & He & s1 & w1 & s' & Hr & Hs & ? & ? & ? & t & Ht). split; [done|]. split; [done|].
    exists s1, w1, s'. do 5 (split; [done|]). exists (t ++ x). by rewrite Ht, <- !app_assoc.
Qed.

Lemma sim_err B td tp pe s w s' w' obj str sl :
  vm_step s w = vm_error s' w' obj str → evolves w w' → zlen sl = nlocals (f_code B) →
  ts s' = f_ts B → scope_base s' = f_scope B → (∃ r, rs s' = r ++ f_rs B) → (∃ t, ps s' = t ++ tp ++ rev sl ++ f_below B) →
  sim B td tp pe s w (Done (Err obj str) sl w').
Proof. intros Hs He Hl Ht Hsc Hr Hp. split; [done|]. split; [done|]. exists s, w, s'. eauto 10 using reach_refl. Qed.
Lemma sim_err_st B td x tp tp' pe ip s w w' obj str sl :
  tp = x ++ tp' → vm_step s w = vm_error (st B tp sl ip) w' obj str → evolves w w' → zlen sl = nlocals (f_code B) →
  sim B td tp' pe s w (Done (Err obj str) sl w').
Proof.
  intros -> Hs He Hl. eapply sim_err; [done|done|done|done|done|by exists []|]. exists x. cbn. by rewrite <- app_assoc.
Qed.

Lemma sim_push_from B td x tp tp' pe ip s w s1 w1 w' v sl d r :
  reach s w s1 w1 → vm_step s1 w1 = PUSH (st B tp sl ip) w' v → evolves w w' → at_depth B tp sl d →
  zlen sl = nlocals (f_code B) → tp = x ++ tp' →
  (d_sp d < VM_STACK_SIZE → sim B td tp' pe (st B (Some v :: tp) sl ip) w' r) →
  sim B td tp' pe s w (room d sl w' r).
Proof.
  intros Hr0 Hs He (Hd & _) Hl -> Hr. unfold PUSH in Hs. rewrite sp_st, <- Hd in Hs. unfold room.
  destruct (Z.leb_spec VM_STACK_SIZE (d_sp d)).
  - split; [done|]. split; [done|]. exists s1, w1, (st B (x ++ tp') sl ip). do 4 (split; [done|]).
    split; [by exists []|]. exists x. cbn. by rewrite <- app_assoc.
  - eapply sim_reach; [eapply reach_trans; [exact Hr0|by apply reach_step]|done|]. by apply Hr.
Qed.
Lemma sim_push B td x tp tp' pe ip s w w' v sl d r :
  vm_step s w = PUSH (st B tp sl ip) w' v → evolves w w' → at_depth B tp sl d → zlen sl = nlocals (f_code B) → tp = x ++ tp' →
  (d_sp d < VM_STACK_SIZE → sim B td tp' pe (st B (Some v :: tp) sl ip) w' r) →
  sim B td tp' pe s w (room d sl w' r).
Proof. intros. by eapply sim_push_from; [apply reach_refl|..]. Qed.
Lemma push_room B tp sl ip w v :
  zlen tp + zlen sl + zlen (f_below B) < VM_STACK_SIZE → PUSH (st B tp sl ip) w v = Some (Run (st B (Some v :: tp) sl ip) w).
Proof. intros Hl. unfold PUSH. rewrite sp_st. by destruct (Z.leb_spec VM_STACK_SIZE (zlen tp + zlen sl + zlen (f_below B))); [lia|]. Qed.

(** More code after the value, of whatever it is. *)
Lemma sim_goto B td tp pe pe' s w r :
  (∀ v sl w', vm_step (st B (Some v :: tp) sl pe) w' = Some (Run (st B (Some v :: tp) sl pe') w')) →
  sim B td tp pe s w r → sim B td tp pe' s w r.
Proof.
  intros Hs Hr. destruct r as [[v|v|obj str] sl w'| |]; try exact Hr. destruct Hr as (Hl & He & Hlt & Hr).
  split; [done|]. split; [done|]. split; [done|]. eapply reach_trans; [exact Hr|]. by apply reach_step.
Qed.

Lemma sim_val B td tp pe sl w v :
  zlen sl = nlocals (f_code B) → zlen tp + zlen sl + zlen (f_below B) < VM_STACK_SIZE →
  sim B td tp pe (st B (Some v :: tp) sl pe) w (Done (Val v) sl w).
Proof. intros Hl Hlt. split; [done|]. split; [done|]. split; [done|apply reach_refl]. Qed.

Lemma sim_call B td tp pe s w r sl :
  vm_step s w = finish (st B tp sl pe) r → zlen sl = nlocals (f_code B) →
  zlen tp + zlen sl + zlen (f_below B) < VM_STACK_SIZE → (∀ v w', r = Some (v, w') → evolves w w') →
  sim B td tp pe s w (of_call r sl).
Proof.
  intros Hs Hl Hlt He. destruct r as [[v w']|]; cbn [of_call finish] in *; [|by exists s, w; eauto using reach_refl].
  specialize (He _ _ eq_refl). destruct (is_err v).
  - eapply (sim_err_st _ _ []); eauto.
  - unfold PUSH in Hs. rewrite sp_st in Hs. destruct (Z.leb_spec VM_STACK_SIZE (zlen tp + zlen sl + zlen (f_below B))); [lia|].
    eapply sim_step; [exact Hs|done|]. by apply sim_val.
Qed.
End sim.
