(* ===== verification/VmSteps.v ===== *)
(** * What each instruction does to a frame

    Decoding an instruction at a known place of the code, and its effect on a
    state in frame form. *)

From stdpp Require Import strings.
From S2P Require Import Prelude Lang Compile Vm VmRef CompileProofs VmProofs.
Local Open Scope Z_scope.
#[local] Arguments zget : simpl never.
#[local] Arguments Z.pow : simpl never.
#[local] Arguments Z.shiftr : simpl never.
#[local] Arguments Z.shiftl : simpl never.
#[local] Arguments Z.land : simpl never.
#[local] Arguments Z.lor : simpl never.

Section steps.
Context `{DynamicLaws X}.
Implicit Types (w : world X) (B : frame) (tp sl : list (option value)).
Notation code_at B ip l := (holds (bc (f_code B)) ip l).

Lemma read_u8_at B tp sl ip b l :
  code_at B ip (b :: l) → read_u8 (st B tp sl ip) = Some (b, st B tp sl (ip + 1)).
Proof. intros [Hb _]%holds_inv. unfold read_u8. cbn [xcode st Vm.ip]. by rewrite Hb. Qed.

Lemma step_at B tp sl ip w b l :
  code_at B ip (b :: l) → vm_step (st B tp sl ip) w = vm_dispatch b (st B tp sl (ip + 1)) w.
Proof. intros Hb. unfold vm_step. by rewrite (read_u8_at _ _ _ _ _ _ Hb). Qed.

Lemma read_u16_at B tp sl ip i l :
  0 ≤ i → code_at B ip (Z.shiftr i 8 :: Z.land i 0xff :: l) → read_u16 (st B tp sl ip) = Some (i, st B tp sl (ip + 2)).
Proof.
  intros Hi [Hh Hl]%holds_inv. apply holds_inv in Hl as [Hl _]. unfold read_u16. cbn [xcode st Vm.ip].
  rewrite Hh. cbn [mbind option_bind]. rewrite Hl. cbn [mbind option_bind]. by rewrite u16_bytes.
Qed.

Lemma read_s16_at B tp sl ip k l :
  in_jump k → code_at B ip (offset k ++ l) → read_s16 (st B tp sl ip) = Some (k, st B tp sl (ip + 2)).
Proof.
  intros Hk Hc. assert (Hu : u16 k = k) by (apply wrap_id; unfold in_u, in_jump in *; lia).
  unfold offset in Hc. rewrite Hu in Hc. cbn [app] in Hc. unfold read_s16.
  rewrite (read_u16_at _ _ _ _ k l) by (unfold in_jump in Hk; done || lia). cbn [mbind option_bind].
  rewrite swrap_id; [done|lia|unfold in_s, in_jump in *; lia].
Qed.

Lemma step_idx B tp sl ip w op op_w v seg :
  idx_code (bconsts (f_code B)) op op_w v seg → code_at B ip seg →
  ∃ (wide : bool) i, vm_step (st B tp sl ip) w = vm_dispatch (if wide then op_w else op) (st B tp sl (ip + 1)) w ∧
    read_index (st B tp sl (ip + 1)) wide = Some (i, st B tp sl (ip + zlen seg)) ∧ (bconsts (f_code B)).[i] = Some v.
Proof.
  intros [i Hi Hv|i Hi Hv] Hc.
  - exists false, i. split; [by eapply step_at|]. split; [|done]. apply holds_inv in Hc as [_ Hc].
    cbn [read_index]. rewrite (read_u8_at _ _ _ _ _ _ Hc). do 3 f_equal. change (zlen [op; i]) with 2. lia.
  - exists true, i. split; [by eapply step_at|]. split; [|done]. apply holds_inv in Hc as [_ Hc].
    cbn [read_index]. rewrite (read_u16_at _ _ _ _ i []); [|lia|done]. do 3 f_equal.
    change (zlen [op_w; Z.shiftr i 8; Z.land i 255]) with 3. lia.
Qed.

Lemma POP_st B c tp sl ip : POP (st B (c :: tp) sl ip) = Some (c, st B tp sl ip).
Proof. done. Qed.
Lemma POPV_st B v tp sl ip : POPV (st B (Some v :: tp) sl ip) = Some (v, st B tp sl ip).
Proof. done. Qed.

Lemma step_const B tp sl ip w v seg :
  idx_code (bconsts (f_code B)) OP_LOADCONST OP_LOADCONST_W v seg → code_at B ip seg →
  vm_step (st B tp sl ip) w = PUSH (st B tp sl (ip + zlen seg)) w v.
Proof.
  intros Hi Hc. destruct (step_idx B tp sl ip w _ _ _ _ Hi Hc) as (wide & i & -> & Hr & Hv).
  assert (Hd : vm_dispatch (if wide then OP_LOADCONST_W else OP_LOADCONST) (st B tp sl (ip + 1)) w = op_loadconst wide (st B tp sl (ip + 1)) w)
    by by destruct wide.
  rewrite Hd. unfold op_loadconst. rewrite Hr. cbn [mbind option_bind]. change (cpool (st B tp sl (ip + zlen seg))) with (bconsts (f_code B)).
  by rewrite Hv.
Qed.

Lemma step_resolve B tp sl ip w a id seg :
  idx_code (bconsts (f_code B)) OP_RESOLVE OP_RESOLVE_W (VSym a id) seg → code_at B ip seg →
  vm_step (st B tp sl ip) w =
    match ray_env_resolve w id with
    | (None, w) => vm_error (st B tp sl (ip + zlen seg)) w None "name"
    | (Some v, w) => if is_err v then vm_error (st B tp sl (ip + zlen seg)) w (Some v) "domain" else PUSH (st B tp sl (ip + zlen seg)) w v
    end.
Proof.
  intros Hi Hc. destruct (step_idx B tp sl ip w _ _ _ _ Hi Hc) as (wide & i & -> & Hr & Hv).
  assert (Hd : vm_dispatch (if wide then OP_RESOLVE_W else OP_RESOLVE) (st B tp sl (ip + 1)) w = op_resolve wide (st B tp sl (ip + 1)) w)
    by by destruct wide.
  rewrite Hd. unfold op_resolve. rewrite Hr. cbn [mbind option_bind]. change (cpool (st B tp sl (ip + zlen seg))) with (bconsts (f_code B)).
  by rewrite Hv.
Qed.

Lemma step_storeglobal B tp sl ip w a id seg v :
  idx_code (bconsts (f_code B)) OP_STOREGLOBAL OP_STOREGLOBAL_W (VSym a id) seg → code_at B ip seg →
  vm_step (st B (Some v :: tp) sl ip) w =
    if restricted w then vm_raise (st B tp sl (ip + zlen seg)) w "access" else
    match ray_env_set (genv w) id v with
    | inl e => Some (Run (st B (Some v :: tp) sl (ip + zlen seg)) (with_env w e))
    | inr code => vm_raise (st B tp sl (ip + zlen seg)) w code
    end.
Proof.
  intros Hi Hc. destruct (step_idx B (Some v :: tp) sl ip w _ _ _ _ Hi Hc) as (wide & i & -> & Hr & Hv).
  assert (Hd : vm_dispatch (if wide then OP_STOREGLOBAL_W else OP_STOREGLOBAL) (st B (Some v :: tp) sl (ip + 1)) w =
    op_storeglobal wide (st B (Some v :: tp) sl (ip + 1)) w) by by destruct wide.
  rewrite Hd. unfold op_storeglobal. rewrite Hr. cbn [mbind option_bind].
  change (cpool (st B (Some v :: tp) sl (ip + zlen seg))) with (bconsts (f_code B)). rewrite Hv. cbn [mbind option_bind].
  by rewrite POPV_st.
Qed.

Lemma step_loadenv B tp sl ip w i l :
  code_at B ip (OP_LOADENV :: i :: l) → 0 ≤ i < zlen sl →
  vm_step (st B tp sl ip) w = PUSH (st B tp sl (ip + 2)) w (match sl.[i] with Some (Some v) => v | _ => make_i64 0 end).
Proof.
  intros Hc Hi. rewrite (step_at _ _ _ _ _ _ _ Hc). apply holds_inv in Hc as [_ Hc].
  change (op_loadenv (st B tp sl (ip + 1)) w = PUSH (st B tp sl (ip + 2)) w (match sl.[i] with Some (Some v) => v | _ => make_i64 0 end)).
  unfold op_loadenv. rewrite (read_u8_at _ _ _ _ _ _ Hc). cbn [mbind option_bind]. rewrite local_get by done.
  destruct (zget_is_Some sl i Hi) as [c ->]. cbn [mbind option_bind]. replace (ip + 1 + 1) with (ip + 2) by lia. by destruct c.
Qed.

Lemma step_storeenv B tp sl ip w i l c :
  code_at B ip (OP_STOREENV :: i :: l) → 0 ≤ i < zlen sl →
  vm_step (st B (c :: tp) sl ip) w = Some (Run (st B tp (<[Z.to_nat i := c]> sl) (ip + 2)) w).
Proof.
  intros Hc Hi. rewrite (step_at _ _ _ _ _ _ _ Hc). apply holds_inv in Hc as [_ Hc].
  change (op_storeenv (st B (c :: tp) sl (ip + 1)) w = Some (Run (st B tp (<[Z.to_nat i := c]> sl) (ip + 2)) w)).
  unfold op_storeenv. rewrite (read_u8_at _ _ _ _ _ _ Hc). cbn [mbind option_bind]. rewrite POP_st. cbn [mbind option_bind].
  rewrite local_set by done. cbn [mbind option_bind]. replace (ip + 1 + 1) with (ip + 2) by lia. done.
Qed.

Lemma step_pop B tp sl ip w l c :
  code_at B ip (OP_POP :: l) → zlen sl = nlocals (f_code B) →
  vm_step (st B (c :: tp) sl ip) w = Some (Run (st B tp sl (ip + 1)) w).
Proof.
  intros Hc Hl. rewrite (step_at _ _ _ _ _ _ _ Hc).
  change (op_pop (st B (c :: tp) sl (ip + 1)) w = Some (Run (st B tp sl (ip + 1)) w)). unfold op_pop.
  rewrite sp_st. cbn [fp n_locals st]. rewrite zlen_cons. pose proof (zlen_nonneg tp).
  by destruct (Z.ltb_spec (zlen (f_below B) + nlocals (f_code B)) (1 + zlen tp + zlen sl + zlen (f_below B))) as [_|?]; [|lia].
Qed.

Lemma step_force B tp sl ip w l v :
  code_at B ip (OP_FORCE :: l) → zlen tp + zlen sl + zlen (f_below B) < VM_STACK_SIZE →
  vm_step (st B (Some v :: tp) sl ip) w = Some (Run (st B (Some v :: tp) sl (ip + 1)) w).
Proof.
  intros Hc Hl. rewrite (step_at _ _ _ _ _ _ _ Hc). change (PUSH (st B tp sl (ip + 1)) w v = Some (Run (st B (Some v :: tp) sl (ip + 1)) w)).
  unfold PUSH. rewrite sp_st. by destruct (Z.leb_spec VM_STACK_SIZE (zlen tp + zlen sl + zlen (f_below B))); [lia|].
Qed.
Lemma step_dup B tp sl ip w l v :
  code_at B ip (OP_DUP :: l) → vm_step (st B (Some v :: tp) sl ip) w = PUSH (st B (Some v :: tp) sl (ip + 1)) w v.
Proof. intros Hc. by rewrite (step_at _ _ _ _ _ _ _ Hc). Qed.

(** Jumps are forward, so they do not look at the interrupt flag. *)
Lemma step_jmp B tp sl ip w k l :
  in_jump k → code_at B ip (OP_JMP :: offset k ++ l) →
  vm_step (st B tp sl ip) w = Some (Run (st B tp sl (ip + 3 + k)) w).
Proof.
  intros Hk Hc. rewrite (step_at _ _ _ _ _ _ _ Hc). apply holds_inv in Hc as [_ Hc].
  change (op_jmp (st B tp sl (ip + 1)) w = Some (Run (st B tp sl (ip + 3 + k)) w)). unfold op_jmp.
  rewrite (read_s16_at _ _ _ _ k l) by done. cbn [mbind option_bind]. destruct (Z.ltb_spec k 0); [unfold in_jump in Hk; lia|].
  cbn [andb]. unfold with_ip, st. cbn. do 3 f_equal. lia.
Qed.
Lemma step_jmpf B tp sl ip w k l v :
  in_jump k → code_at B ip (OP_JMPF :: offset k ++ l) →
  vm_step (st B (Some v :: tp) sl ip) w = Some (Run (st B tp sl (ip + 3 + if is_truthy v then 0 else k)) w).
Proof.
  intros Hk Hc. rewrite (step_at _ _ _ _ _ _ _ Hc). apply holds_inv in Hc as [_ Hc].
  change (op_jmpf (st B (Some v :: tp) sl (ip + 1)) w = Some (Run (st B tp sl (ip + 3 + if is_truthy v then 0 else k)) w)). unfold op_jmpf.
  rewrite (read_s16_at _ _ _ _ k l) by done. cbn [mbind option_bind]. rewrite POPV_st. cbn [mbind option_bind].
  destruct (is_truthy v); unfold with_ip, st; cbn; do 3 f_equal; lia.
Qed.

(** ** Calls *)
Notation args_on vs tp := (rev (map Some vs) ++ tp).
Ltac at_op Hc tac := rewrite (step_at _ _ _ _ _ _ _ Hc); apply holds_inv in Hc as [_ Hc]; tac.

Lemma pop_args_st B vs tp sl ip acc :
  pop_args (length vs) (st B (args_on vs tp) sl ip) acc = Some (vs ++ acc, st B tp sl ip).
Proof.
  revert acc. induction vs as [|v vs IH] using rev_ind; intros acc; [done|].
  rewrite length_app, Nat.add_comm, map_app, rev_app_distr. cbn [length Nat.add map rev app pop_args].
  rewrite POPV_st. cbn [mbind option_bind]. rewrite IH. by rewrite <- app_assoc.
Qed.
Lemma pop_args_n B vs tp sl ip n :
  n = zlen vs → pop_args (Z.to_nat n) (st B (args_on vs tp) sl ip) [] = Some (vs, st B tp sl ip).
Proof. intros ->. unfold zlen. rewrite Nat2Z.id, pop_args_st. by rewrite app_nil_r. Qed.

Lemma step_call1 B tp sl ip w l a o p v :
  code_at B ip (OP_CALL1 :: l) →
  vm_step (st B (Some v :: Some (VFn FUnary a o p) :: tp) sl ip) w = finish (st B tp sl (ip + 1)) (call1 w a p v).
Proof. intros Hc. by rewrite (step_at _ _ _ _ _ _ _ Hc). Qed.
Lemma step_call2 B tp sl ip w l a o p x y :
  code_at B ip (OP_CALL2 :: l) →
  vm_step (st B (Some y :: Some x :: Some (VFn FBinary a o p) :: tp) sl ip) w = finish (st B tp sl (ip + 1)) (call2 w a o p x y).
Proof. intros Hc. by rewrite (step_at _ _ _ _ _ _ _ Hc). Qed.
Lemma step_calln B tp sl ip w l a o p vs :
  code_at B ip (OP_CALLN :: zlen vs :: l) → zlen vs ≤ 64 →
  vm_step (st B (args_on vs (Some (VFn FVary a o p) :: tp)) sl ip) w = finish (st B tp sl (ip + 2)) (calln w a p vs).
Proof.
  intros Hc Hl. set (s0 := args_on vs (Some (VFn FVary a o p) :: tp)).
  at_op Hc ltac:(change (op_calln (st B s0 sl (ip + 1)) w = finish (st B tp sl (ip + 2)) (calln w a p vs))).
  unfold op_calln. rewrite (read_u8_at _ _ _ _ _ _ Hc). cbn [mbind option_bind].
  destruct (Z.ltb_spec 64 (zlen vs)); [lia|]. unfold s0. rewrite pop_args_n by done. cbn [mbind option_bind].
  rewrite POPV_st. cbn [mbind option_bind]. by replace (ip + 1 + 1) with (ip + 2) by lia.
Qed.
Lemma step_calld B tp sl ip w l ast :
  code_at B ip (OP_CALLD :: 0 :: l) →
  vm_step (st B (Some ast :: tp) sl ip) w = finish (st B tp sl (ip + 2)) (ray_eval ast w).
Proof.
  intros Hc. at_op Hc ltac:(change (op_calld (st B (Some ast :: tp) sl (ip + 1)) w = finish (st B tp sl (ip + 2)) (ray_eval ast w))).
  unfold op_calld. rewrite (read_u8_at _ _ _ _ _ _ Hc). cbn [mbind option_bind].
  rewrite POPV_st. cbn [mbind option_bind]. by replace (ip + 1 + 1) with (ip + 2) by lia.
Qed.

(** The frame a call of lambda [a] runs in, and the one of a self call: the
    arguments are its first slots, those past the last slot lie above them. *)
Definition callee B tp sl (ip a : Z) (b : bytecode) : frame :=
  Frame a b (Ctx (Some (f_fn B)) (zlen (f_below B)) ip :: f_rs B) (f_ts B) (f_scope B) (tp ++ rev sl ++ f_below B).
Definition self_callee B tp sl (ip : Z) : frame :=
  Frame (f_fn B) (f_code B) (Ctx None (zlen (f_below B)) ip :: f_rs B) (f_ts B) (f_scope B) (tp ++ rev sl ++ f_below B).

Definition enter B tp sl (ip a n : Z) (vs : list value) w : option (next X) :=
  let w := ensure_compiled w a in
  match compiled (lambdas w a) with
  | None => finish (st B tp sl ip) (call_lambda a vs w)
  | Some b =>
      if (VM_STACK_SIZE <=? zlen (f_rs B)) || (VM_STACK_SIZE <=? sp (st B tp sl ip) + nlocals b) then vm_error_limit (st B tp sl ip) w else
      if negb (n =? zlen (params (lambdas w a))) then vm_raise (st B tp sl ip) w "arity" else
      if interrupted w
      then vm_error (Exec (rev (new_slots vs (nlocals b)) ++ tp ++ rev sl ++ f_below B) (Ctx (Some (f_fn B)) (zlen (f_below B)) ip :: f_rs B)
             (f_ts B) a (sp (st B tp sl ip)) (nlocals b) (bc (f_code B)) (bconsts (f_code B)) ip (f_scope B)) w None "cancel"
      else Some (Run (st (callee B tp sl ip a b) [] (new_slots vs (nlocals b)) 0) w)
  end.

Lemma step_callf B tp sl ip w l f vs :
  code_at B ip (OP_CALLF :: zlen vs :: l) → zlen vs ≤ 64 →
  vm_step (st B (args_on vs (Some f :: tp)) sl ip) w =
    match f with
    | VLambda a => enter B tp sl (ip + 2) a (zlen vs) vs w
    | _ => finish (st B tp sl (ip + 2)) (call_builtin w f vs)
    end.
Proof.
  intros Hc Hl. set (s0 := args_on vs (Some f :: tp)). rewrite (step_at _ _ _ _ _ _ _ Hc). apply holds_inv in Hc as [_ Hc].
  change (vm_dispatch OP_CALLF (st B s0 sl (ip + 1)) w) with (op_callf (st B s0 sl (ip + 1)) w).
  unfold op_callf. rewrite (read_u8_at _ _ _ _ _ _ Hc). cbn [mbind option_bind].
  destruct (Z.ltb_spec 64 (zlen vs)); [lia|]. unfold s0. rewrite pop_args_n by done. cbn [mbind option_bind].
  rewrite POPV_st. cbn [mbind option_bind]. replace (ip + 1 + 1) with (ip + 2) by lia.
  by destruct f.
Qed.

Lemma rev_replicate {A} n (x : A) : rev (replicate n x) = replicate n x.
Proof. induction n as [|n IH]; [done|]. cbn [replicate rev]. rewrite IH. symmetry. apply replicate_cons_app. Qed.
Lemma self_cells (vs : list value) nl :
  0 ≤ nl →
  replicate (Z.to_nat (nl - zlen vs)) None ++ rev (map Some vs) =
  rev (map Some (drop (Z.to_nat nl) vs)) ++ rev (take (Z.to_nat nl) (new_slots vs nl)).
Proof.
  intros Hnl. unfold new_slots. rewrite <- rev_app_distr. unfold zlen. destruct (decide (Z.of_nat (length vs) ≤ nl)).
  - rewrite drop_ge by lia. cbn [map]. rewrite app_nil_r, take_ge, rev_app_distr, rev_replicate; [done|].
    rewrite length_app, length_map, length_replicate. lia.
  - replace (Z.to_nat (nl - Z.of_nat (length vs))) with O by lia. cbn [replicate app]. rewrite app_nil_r.
    change (map (@Some value)) with (fmap (M := list) (@Some value)). by rewrite <- fmap_take, <- fmap_app, take_drop.
Qed.

Lemma step_calls B tp sl ip w l vs :
  code_at B ip (OP_CALLS :: zlen vs :: l) →
  let nl := nlocals (f_code B) in 0 ≤ nl →
  vm_step (st B (args_on vs tp) sl ip) w =
    if VM_STACK_SIZE <=? zlen (f_rs B) then vm_error_limit (st B (args_on vs tp) sl (ip + 2)) w else
    if VM_STACK_SIZE <=? zlen vs + zlen tp + zlen sl + zlen (f_below B) + nl then vm_error_limit (st B (args_on vs tp) sl (ip + 2)) w else
    Some (Run (st (self_callee B tp sl (ip + 2)) (rev (map Some (drop (Z.to_nat nl) vs))) (take (Z.to_nat nl) (new_slots vs nl)) 0) w).
Proof.
  intros Hc nl Hnl. set (s0 := args_on vs tp). rewrite (step_at _ _ _ _ _ _ _ Hc). apply holds_inv in Hc as [_ Hc].
  change (vm_dispatch OP_CALLS (st B s0 sl (ip + 1)) w) with (op_calls (st B s0 sl (ip + 1)) w).
  unfold op_calls. rewrite (read_u8_at _ _ _ _ _ _ Hc). cbn [mbind option_bind]. replace (ip + 1 + 1) with (ip + 2) by lia.
  rewrite sp_st. cbn [rs n_locals st]. fold nl.
  assert (Hz : zlen s0 = zlen vs + zlen tp) by (unfold s0; rewrite zlen_app, zlen_rev, zlen_map; done). rewrite Hz.
  destruct (VM_STACK_SIZE <=? zlen (f_rs B)); [done|]. destruct (VM_STACK_SIZE <=? _); [done|]. do 2 f_equal.
  unfold st, self_callee. cbn [ps rs ts fn fp n_locals xcode cpool Vm.ip scope_base f_below f_fn f_code f_rs f_ts f_scope].
  f_equal; [|autorewrite with zlen; rewrite zlen_rev; lia].
  unfold s0. rewrite <- !app_assoc. rewrite !app_assoc. f_equal. f_equal. f_equal. by apply self_cells.
Qed.

(** Returning [v] to the caller of the frame. *)
Definition ret_to B w (v : value) : option (next X) :=
  match f_rs B with
  | [] => Some (Halt v w)
  | c :: rs' =>
      match c_fn c with
      | Some a =>
          b ← compiled (lambdas w a);
          PUSH (Exec (f_below B) rs' (f_ts B) a (c_fp c) (nlocals b) (bc b) (bconsts b) (c_ip c) (f_scope B)) w v
      | None =>
          PUSH (Exec (f_below B) rs' (f_ts B) (f_fn B) (c_fp c) (nlocals (f_code B)) (bc (f_code B)) (bconsts (f_code B))
                  (c_ip c) (f_scope B)) w v
      end
  end.

Lemma step_ret B tp sl ip w l v :
  code_at B ip (OP_RET :: l) → zlen sl = nlocals (f_code B) → vm_step (st B (Some v :: tp) sl ip) w = ret_to B w v.
Proof.
  intros Hc Hl. rewrite (step_at _ _ _ _ _ _ _ Hc).
  change (vm_dispatch OP_RET (st B (Some v :: tp) sl (ip + 1)) w) with (op_ret (st B (Some v :: tp) sl (ip + 1)) w).
  unfold op_ret. rewrite sp_st. cbn [fp n_locals st]. rewrite zlen_cons. pose proof (zlen_nonneg tp).
  destruct (Z.ltb_spec (zlen (f_below B) + nlocals (f_code B)) (1 + zlen tp + zlen sl + zlen (f_below B))); [|lia].
  fold (st B (Some v :: tp) sl (ip + 1)). rewrite POPV_st. cbn [mbind option_bind]. rewrite below_part. done.
Qed.
Lemma step_ret_empty B sl ip w l :
  code_at B ip (OP_RET :: l) → zlen sl = nlocals (f_code B) → vm_step (st B [] sl ip) w = ret_to B w VNull.
Proof.
  intros Hc Hl. rewrite (step_at _ _ _ _ _ _ _ Hc).
  change (vm_dispatch OP_RET (st B [] sl (ip + 1)) w) with (op_ret (st B [] sl (ip + 1)) w).
  unfold op_ret. rewrite sp_st. cbn [fp n_locals st]. change (zlen []) with 0.
  destruct (Z.ltb_spec (zlen (f_below B) + nlocals (f_code B)) (0 + zlen sl + zlen (f_below B))); [lia|].
  cbn [mbind option_bind]. rewrite (below_part B [] sl). done.
Qed.

(** ** Traps and scopes *)
Definition trap_of B tp sl (handler : Z) w : vm_trap :=
  Trap (zlen (f_rs B)) (sp (st B tp sl handler)) handler (f_fn B) (zlen (f_below B)) (nlocals (f_code B)) (zlen (scopes (genv w))).

Lemma step_trap B tp sl ip w k l :
  in_jump k → code_at B ip (OP_TRAP :: offset k ++ l) →
  vm_step (st B tp sl ip) w =
    if VM_TRAP_SIZE <=? zlen (f_ts B) then vm_error_limit (st B tp sl (ip + 3)) w
    else Some (Run (st (fr_ts B (trap_of B tp sl (ip + 3 + k) w :: f_ts B)) tp sl (ip + 3)) w).
Proof.
  intros Hk Hc. rewrite (step_at _ _ _ _ _ _ _ Hc). apply holds_inv in Hc as [_ Hc].
  change (vm_dispatch OP_TRAP (st B tp sl (ip + 1)) w) with (op_trap (st B tp sl (ip + 1)) w).
  unfold op_trap. rewrite (read_s16_at _ _ _ _ k l) by done. cbn [mbind option_bind]. by replace (ip + 1 + 2) with (ip + 3) by lia.
Qed.
Lemma step_trap_end B tp sl ip w l :
  code_at B ip (OP_TRAP_END :: l) →
  vm_step (st B tp sl ip) w = Some (Run (st (fr_ts B (tail (f_ts B))) tp sl (ip + 1)) w).
Proof. intros Hc. by rewrite (step_at _ _ _ _ _ _ _ Hc). Qed.
Lemma run_trap_ends B n tp sl ip w l :
  code_at B ip (replicate n OP_TRAP_END ++ l) →
  reach (st B tp sl ip) w (st (fr_ts B (drop n (f_ts B))) tp sl (ip + Z.of_nat n)) w.
Proof.
  revert B ip. induction n as [|n IH]; intros B ip Hc.
  - rewrite Z.add_0_r. cbn [drop]. replace (fr_ts B (f_ts B)) with B by by destruct B. apply reach_refl.
  - cbn [replicate app] in Hc. eapply reach_trans; [apply reach_step; by eapply step_trap_end|]. apply holds_inv in Hc as [_ Hc].
    specialize (IH (fr_ts B (tail (f_ts B))) (ip + 1) Hc). replace (ip + Z.of_nat (S n)) with (ip + 1 + Z.of_nat n) by lia.
    replace (drop (S n) (f_ts B)) with (drop n (tail (f_ts B))) by (destruct (f_ts B); [apply drop_nil|done]). exact IH.
Qed.
Lemma step_tryh B tp sl ip w l e h :
  code_at B ip (OP_TRYH :: l) →
  vm_step (st B (Some e :: Some h :: tp) sl ip) w = finish (st B tp sl (ip + 1)) (ray_try_handle w h e).
Proof. intros Hc. by rewrite (step_at _ _ _ _ _ _ _ Hc). Qed.

Lemma step_scope_begin B tp sl ip w l t a ids :
  code_at B ip (OP_SCOPE_BEGIN :: l) → zlen ids ≤ zlen sl →
  vm_step (st B (Some (VVec t a ids) :: tp) sl ip) w =
    match ray_env_scope_bind (genv w) ids (take (length ids) sl) (VLambda (f_fn B)) with
    | inl e => Some (Run (st B tp sl (ip + 1)) (with_env w e))
    | inr _ => vm_error_limit (st B tp sl (ip + 1)) w
    end.
Proof.
  intros Hc Hl. rewrite (step_at _ _ _ _ _ _ _ Hc). set (s0 := st B (Some (VVec t a ids) :: tp) sl (ip + 1)).
  change (vm_dispatch OP_SCOPE_BEGIN s0 w) with (op_scope_begin s0 w). unfold op_scope_begin, s0. rewrite POPV_st.
  cbn [mbind option_bind]. rewrite sp_st. cbn [fp st]. pose proof (zlen_nonneg tp).
  destruct (Z.ltb_spec (zlen tp + zlen sl + zlen (f_below B) - zlen (f_below B)) (zlen ids)); [lia|].
  fold (st B tp sl (ip + 1)). rewrite frame_slots_st; [done|]. unfold zlen in Hl. lia.
Qed.
Lemma length_scope_sync (e : env) ids sl :
  (length ids ≤ length sl)%nat → length (ray_env_scope_sync e ids (take (length ids) sl)).2 = length ids.
Proof.
  intros Hn. unfold ray_env_scope_sync. cbn [snd].
  assert (Hs : length (take (length ids) sl) = length ids) by (rewrite length_take; lia).
  destruct (scopes e) as [|f _]; [done|]. rewrite <- Hs at 2. generalize (take (length ids) sl). clear.
  induction ids as [|i ids IH]; intros [|c sl]; try done. cbn. by rewrite IH.
Qed.
Lemma zlen_scope_sync (e : env) ids sl :
  zlen ids ≤ zlen sl → zlen ((ray_env_scope_sync e ids (take (length ids) sl)).2 ++ drop (length ids) sl) = zlen sl.
Proof. unfold zlen. intros Hn. rewrite length_app, length_scope_sync, length_drop by lia. lia. Qed.
Lemma step_scope_end B tp sl ip w l t a ids :
  code_at B ip (OP_SCOPE_END :: l) → zlen ids ≤ zlen sl →
  vm_step (st B (Some (VVec t a ids) :: tp) sl ip) w =
    let '(e, slots) := ray_env_scope_sync (genv w) ids (take (length ids) sl) in
    Some (Run (st B tp (slots ++ drop (length ids) sl) (ip + 1)) (with_env w e)).
Proof.
  intros Hc Hl. rewrite (step_at _ _ _ _ _ _ _ Hc). set (s0 := st B (Some (VVec t a ids) :: tp) sl (ip + 1)).
  change (vm_dispatch OP_SCOPE_END s0 w) with (op_scope_end s0 w). unfold op_scope_end, s0. rewrite POPV_st.
  cbn [mbind option_bind]. rewrite sp_st. cbn [fp st]. pose proof (zlen_nonneg tp).
  destruct (Z.ltb_spec (zlen tp + zlen sl + zlen (f_below B) - zlen (f_below B)) (zlen ids)); [lia|].
  fold (st B tp sl (ip + 1)). assert (Hn : (length ids ≤ length sl)%nat) by (unfold zlen in Hl; lia).
  rewrite frame_slots_st by done. pose proof (length_scope_sync (genv w) ids sl Hn) as Hlen.
  destruct (ray_env_scope_sync _ _ _) as [e slots]. cbn [snd] in Hlen. rewrite set_slots_st by lia. by rewrite Hlen.
Qed.
End steps.
