(* ===== verification/VmSim.v ===== *)
(** * The machine simulates the reference semantics

    By induction on the resolved expression, and on the calls still possible:
    from a state at the first byte of the expression's code the machine reaches
    what [ref_exp] says. *)

From stdpp Require Import strings.
From S2P Require Import Prelude Lang Compile Vm VmRef CompileProofs VmProofs VmSteps.
Local Open Scope Z_scope.
#[local] Arguments zget : simpl never.
#[local] Arguments Z.pow : simpl never.
#[local] Arguments Z.shiftr : simpl never.
#[local] Arguments Z.shiftl : simpl never.
#[local] Arguments Z.land : simpl never.
#[local] Arguments Z.lor : simpl never.

(** Induction over expressions with their lists. *)
Lemma exp_nested_ind (P : exp → Prop) :
  (∀ v, P (EConst v)) → (∀ i, P (ELocal i)) → (∀ id, P (EGlobal id)) → (∀ id e, P e → P (ESet id e)) →
  (∀ i e, P e → P (ELet i e)) → (∀ c t f, P c → P t → P f → P (EIf c t f)) →
  (∀ e es, P e → Forall P es → P (EDo e es)) → (∀ ast, P (EDyn ast)) → (∀ ids ast, P (EScope ids ast)) →
  (∀ i e h, P e → P h → P (ETry i e h)) → (∀ e, P e → P (EReturn e)) → (∀ es, Forall P es → P (ESelf es)) →
  (∀ a o p e, P e → P (ECall1 a o p e)) → (∀ a o p e1 e2, P e1 → P e2 → P (ECall2 a o p e1 e2)) →
  (∀ a o p es, Forall P es → P (ECallN a o p es)) → (∀ h es, P h → Forall P es → P (ECall h es)) →
  ∀ e, P e.
Proof.
  intros H1 H2 H3 H4 H5 H6 H7 H8 H9 H10 H11 H12 H13 H14 H15 H16. fix IH 1. intros e.
  pose (all := fix all es : Forall P es :=
    match es with [] => @List.Forall_nil _ P | e :: es => @List.Forall_cons _ P e es (IH e) (all es) end).
  destruct e; [apply H1|apply H2|apply H3|apply H4, IH|apply H5, IH|apply H6; apply IH|apply H7; [apply IH|apply all]
    |apply H8|apply H9|apply H10; apply IH|apply H11, IH|apply H12, all|apply H13, IH|apply H14; apply IH|apply H15, all
    |apply H16; [apply IH|apply all]].
Qed.

Section code.
Context `{IdentityLaws} `{Symbols} {X : Type} `{Dotted X}.

(** The code of a compiled lambda of the world. *)
Lemma compiled_code (w : world X) a b :
  world_ok w → compiled (lambdas w a) = Some b →
  ∃ e ls, elab_lambda (benv b) (lambdas w a) = Some (e, ls) ∧ nlocals b = zlen ls ∧ zlen (params (lambdas w a)) ≤ zlen ls ≤ 256 ∧
    code_of (bconsts b) (zlen ls) e (bc b).
Proof.
  intros Hw Hb. destruct (Hw a) as [Hok Hc]. specialize (Hc b Hb). unfold lambda_ok in Hok.
  apply Is_true_true, andb_prop in Hok as [Hast Hsize%Z.leb_le].
  destruct (ray_compile_code _ _ _ ltac:(by apply forallb_True, Is_true_true) Hc) as (e & ls & ? & ? & ? & _ & ?).
  - pose proof (compile_pool _ _ _ Hc). lia.
  - by exists e, ls.
Qed.
End code.

Section sim.
Context `{DynamicLaws X} `{!IdentityLaws}.
Implicit Types (w : world X) (B : frame) (tp sl : list (option value)).
Notation code_at B ip l := (holds (bc (f_code B)) ip l).
Notation args_on vs tp := (rev (map Some vs) ++ tp).

(** ** Bodies *)
Definition bsim B (s : exec) w (r : bres X) : Prop :=
  match r with
  | BVal v w' => evolves w w' ∧ ∃ s1, reach s w s1 w' ∧ vm_step s1 w' = ret_to B w' v
  | BErr obj str w' =>
      evolves w w' ∧ ∃ s1 w1 s', reach s w s1 w1 ∧ vm_step s1 w1 = vm_error s' w' obj str ∧
        ts s' = f_ts B ∧ scope_base s' = f_scope B ∧
        (∃ r, rs s' = r ++ f_rs B) ∧ ∃ t, ps s' = t ++ f_below B
  | BHangs => hangs s w
  | BFuel => False
  end.

Lemma sim_to_body B tp pe s w r l : sim B 0 tp pe s w r → code_at B pe (OP_RET :: l) → bsim B s w (to_body r).
Proof.
  intros Hs Hret. destruct r as [o sl w'| |]; [|exact Hs..]. destruct Hs as (Hl & He & Ho).
  destruct o as [v|v|obj str]; cbn [to_body bsim]; (split; [done|]).
  - destruct Ho as [_ Hr]. eexists. split; [exact Hr|]. by eapply step_ret.
  - destruct Ho as (tp' & ip & Hop & Hr). eexists. split; [exact Hr|].
    change (drop (Z.to_nat 0) (f_ts B)) with (f_ts B). replace (fr_ts B (f_ts B)) with B by by destruct B.
    eapply (step_ret _ _ _ _ _ []); [|done]. by apply holds_single.
  - destruct Ho as (s1 & w1 & s' & ? & ? & ? & ? & ? & t & Ht). exists s1, w1, s'. do 5 (split; [done|]).
    exists (t ++ tp ++ rev sl). by rewrite Ht, <- !app_assoc.
Qed.

(** What running the body of a lambda has to satisfy, for frames with at least
    [n] frames below them. *)
Definition runs_ok (run : Z → list (option value) → world X → depth → bres X) (n : Z) : Prop :=
  ∀ B tp sl w d,
    n ≤ zlen (f_rs B) ≤ VM_STACK_SIZE → world_ok w → compiled (lambdas w (f_fn B)) = Some (f_code B) →
    tp = [] ∨ body (lambdas w (f_fn B)) ≠ [] → at_depth B tp sl d → zlen sl = nlocals (f_code B) →
    bsim B (st B tp sl 0) w (run (f_fn B) sl w d).

Definition runnable B w : Prop :=
  world_ok w ∧ compiled (lambdas w (f_fn B)) = Some (f_code B) ∧ body (lambdas w (f_fn B)) ≠ [].
Lemma runnable_evolves B w w' : evolves w w' → runnable B w → runnable B w'.
Proof. intros [E O] (Hw & Hc & Hb). pose proof (E _ _ Hc) as Hl. unfold runnable. rewrite Hl. split; [by apply O|done]. Qed.

Lemma at_depth_slots B tp sl sl' d : zlen sl' = zlen sl → at_depth B tp sl d → at_depth B tp sl' d.
Proof. unfold at_depth. by intros ->. Qed.
Lemma at_depth_up B c tp sl d : at_depth B tp sl d → at_depth B (c :: tp) sl (up d 1).
Proof. intros (Hs & Hr & Ht). split; [|done]. cbn. rewrite zlen_cons. lia. Qed.
Lemma at_depth_trap B t tp sl d :
  at_depth B tp sl d → at_depth (fr_ts B (t :: f_ts B)) tp sl (Depth (d_sp d) (d_rp d) (d_tp d + 1)).
Proof. intros (Hs & Hr & Ht). split; [done|]. split; [done|]. cbn. rewrite zlen_cons. lia. Qed.

Section frame.
Context (run : Z → list (option value) → world X → depth → bres X).
Context (self rp : Z).
Context (Hrun : runs_ok run (rp + 1)).
Notation nl B := (nlocals (f_code B)).
Notation pool B := (bconsts (f_code B)).
Notation ref B := (ref_exp run self (nl B)).

Definition mine B : Prop := f_fn B = self ∧ zlen (f_rs B) = rp ∧ rp ≤ VM_STACK_SIZE.

Definition simulated (e : exp) : Prop :=
  ∀ td B seg p pe tp sl w d,
    0 ≤ td → mine B → gen (pool B) (nl B) td e seg → code_at B p seg → pe = p + zlen seg →
    runnable B w → at_depth B tp sl d → zlen sl = nl B →
    sim B td tp pe (st B tp sl p) w (ref B e d sl w).

Ltac name_idx N := match goal with Hx : idx_code _ _ _ _ _ |- _ => rename Hx into N end.
Ltac name_gen e N := match goal with Hx : gen _ _ _ e _ |- _ => rename Hx into N end.

Lemma sim_const v : simulated (EConst v).
Proof.
  intros td B seg p pe tp sl w d Htd Hm Hg Hc -> Hw Hd Hl. inversion Hg; subst.
  cbn [ref_exp]. eapply (sim_push _ _ []); [by apply step_const|done..|]. intros Hlt.
  apply sim_val; [done|]. destruct Hd as [Hd _]. lia.
Qed.

Lemma sim_local i : simulated (ELocal i).
Proof.
  intros td B seg p pe tp sl w d Htd Hm Hg Hc -> Hw Hd Hl. inversion Hg; subst.
  cbn [ref_exp]. eapply (sim_push _ _ []); [eapply step_loadenv; [exact Hc|lia]|done..|]. intros Hlt.
  apply sim_val; [done|]. destruct Hd as [Hd _]. lia.
Qed.

Lemma sim_global id : simulated (EGlobal id).
Proof.
  intros td B seg p pe tp sl w d Htd Hm Hg Hc -> Hw Hd Hl. inversion Hg; subst. name_idx Hi.
  pose proof (step_resolve B tp sl p w _ _ _ Hi Hc) as Hs. cbn [ref_exp].
  destruct (ray_env_resolve w id) as [[v|] w'] eqn:Hr.
  - pose proof (ray_env_resolve_evolves _ _ _ _ Hr) as He. destruct (is_err v); [by eapply (sim_err_st _ _ [])|].
    eapply (sim_push _ _ []); [exact Hs|done..|]. intros Hlt. apply sim_val; [done|]. destruct Hd as [Hd _]. lia.
  - pose proof (ray_env_resolve_evolves _ _ _ _ Hr) as He. by eapply (sim_err_st _ _ []).
Qed.

(** [done] for the places of a segment in the code. *)
Ltac place := autorewrite with zlen; lia.
Ltac frame_goals := first [done | by eapply runnable_evolves | by eapply at_depth_slots; [|eassumption]; congruence | place].

Lemma sim_set id e : simulated e → simulated (ESet id e).
Proof.
  intros IH td B seg p pe tp sl w d Htd Hm Hg Hc -> Hw Hd Hl. inversion Hg; subst. name_idx Hi. name_gen e Hge. cbn [ref_exp].
  apply holds_app_inv in Hc as [Hc1 Hc2].
  eapply (sim_bind _ _ [] tp); [done|by eapply IH|]. intros v sl' w' He Hl' Hlt.
  rewrite zlen_app, Z.add_assoc. pose proof (step_storeglobal B tp sl' _ w' _ _ _ v Hi Hc2) as Hs.
  destruct (restricted w'); [by eapply (sim_err_st _ _ [])|].
  destruct (ray_env_set (genv w') id v) as [E|code]; [|by eapply (sim_err_st _ _ [])].
  eapply sim_step; [exact Hs|by apply evolves_same|]. by apply sim_val.
Qed.

Lemma sim_let i e : simulated e → simulated (ELet i e).
Proof.
  intros IH td B seg p pe tp sl w d Htd Hm Hg Hc -> Hw Hd Hl. inversion Hg; subst. name_gen e Hge. cbn [ref_exp].
  apply holds_app_inv in Hc as [Hc1 Hc2].
  eapply (sim_bind _ _ [] tp); [done|by eapply IH|]. intros v sl' w' He Hl' Hlt.
  eapply sim_step; [by eapply step_force|done|]. apply holds_inv in Hc2 as [_ Hc2].
  eapply (sim_push _ _ [Some v]); [by eapply step_dup|done|apply at_depth_up; by eapply at_depth_slots; [|exact Hd]; congruence|done|done|].
  intros _. apply holds_inv in Hc2 as [_ Hc2].
  eapply sim_step; [eapply step_storeenv; [exact Hc2|lia]|done|].
  replace (p + zlen (s ++ [OP_FORCE; OP_DUP; OP_STOREENV; i])) with (p + zlen s + 1 + 1 + 2) by place.
  assert (zlen (<[Z.to_nat i:=Some v]> sl') = zlen sl') as Hz by apply zlen_insert.
  apply sim_val; rewrite Hz; done.
Qed.

Lemma sim_if c t f : simulated c → simulated t → simulated f → simulated (EIf c t f).
Proof.
  intros IHc IHt IHf td B seg p pe tp sl w d Htd Hm Hg Hc -> Hw Hd Hl. inversion Hg; subst.
  name_gen c Hgc. name_gen t Hgt. name_gen f Hgf. cbn [ref_exp].
  apply holds_app_inv in Hc as [Hcc Hc]. pose proof Hc as Hj. apply (holds_app_inv _ _ (OP_JMPF :: offset _)) in Hc as [_ Hc].
  apply holds_app_inv in Hc as [Hct Hc]. pose proof Hc as Hj'. apply (holds_app_inv _ _ (OP_JMP :: offset _)) in Hc as [_ Hcf].
  change (zlen (OP_JMPF :: offset (zlen s2 + 3))) with 3 in *. change (zlen (OP_JMP :: offset (zlen s3))) with 3 in *.
  eapply (sim_bind _ _ [] tp); [done|by eapply IHc|]. intros v sl' w' He Hl' Hlt.
  assert (Hd' : at_depth B tp sl' d) by (by eapply at_depth_slots; [|exact Hd]; congruence).
  eapply sim_step; [eapply step_jmpf; [|exact Hj]; done|done|].
  replace (p + zlen (s1 ++ OP_JMPF :: offset (zlen s2 + 3) ++ s2 ++ OP_JMP :: offset (zlen s3) ++ s3))
    with (p + zlen s1 + 3 + zlen s2 + 3 + zlen s3) by (unfold offset; place).
  pose proof (runnable_evolves _ _ _ He Hw). destruct (is_truthy v).
  - rewrite Z.add_0_r. eapply sim_goto; [intros; eapply step_jmp; [|exact Hj']; done|]. by eapply IHt.
  - replace (p + zlen s1 + 3 + (zlen s2 + 3)) with (p + zlen s1 + 3 + zlen s2 + 3) by lia. by eapply IHf.
Qed.

(** Arguments pile up above the temporaries. *)
Lemma sim_args td B ss p pe x tp tp' es sl w d k :
  Forall simulated es → 0 ≤ td → mine B → Forall2 (gen (pool B) (nl B) td) es ss → code_at B p (mjoin ss) →
  runnable B w → at_depth B tp sl d → zlen sl = nl B → tp = x ++ tp' →
  (∀ vs sl w', evolves w w' → zlen sl = nl B → zlen vs = zlen es →
     sim B td tp' pe (st B (args_on vs tp) sl (p + zlen (mjoin ss))) w' (k vs sl w')) →
  sim B td tp' pe (st B tp sl p) w (ref_args (λ e, ref B e) es d sl w k).
Proof.
  intros Hall. revert ss p x tp sl w d k. induction Hall as [|e es He Hes IH]; intros ss p x tp sl w d k Htd Hm Hg Hc Hw Hd Hl Hx Hk.
  - inversion Hg; subst. specialize (Hk [] sl w). cbn [ref_args map rev app] in *. rewrite Z.add_0_r in Hk. by apply Hk.
  - inversion Hg as [|? s ? ss' Hge Hgs]; subst. rewrite mjoin_cons in Hc. apply holds_app_inv in Hc as [Hc1 Hc2].
    cbn [ref_args]. eapply (sim_bind _ _ x (x ++ tp')); [done|by eapply He|]. intros v sl' w' Hev Hl' Hlt.
    eapply (IH ss' (p + zlen s) (Some v :: x)); [done|done|done|done|by eapply runnable_evolves| |done|done|].
    + apply at_depth_up. by eapply at_depth_slots; [|exact Hd]; congruence.
    + intros vs sl2 w2 He2 Hl2 Hn. specialize (Hk (v :: vs) sl2 w2 ltac:(by etransitivity) Hl2 ltac:(by rewrite !zlen_cons, Hn)).
      rewrite mjoin_cons, zlen_app, Z.add_assoc in Hk. cbn [map rev] in Hk. by rewrite <- app_assoc in Hk.
Qed.

Lemma sim_seq td B ss p pe tp es v sl w d :
  Forall simulated es → 0 ≤ td → mine B → Forall2 (gen (pool B) (nl B) td) es ss → code_at B p (mjoin (map (cons OP_POP) ss)) →
  pe = p + zlen (mjoin (map (cons OP_POP) ss)) →
  runnable B w → at_depth B tp sl d → zlen sl = nl B → zlen tp + zlen sl + zlen (f_below B) < VM_STACK_SIZE →
  sim B td tp pe (st B (Some v :: tp) sl p) w (ref_seq (λ e, ref B e) es v d sl w).
Proof.
  intros Hall. revert ss p v sl w. induction Hall as [|e es He Hes IH]; intros ss p v sl w Htd Hm Hg Hc -> Hw Hd Hl Hlt.
  - inversion Hg; subst. cbn [ref_seq map]. change (mjoin []) with (@nil Z). rewrite Z.add_0_r. by apply sim_val.
  - inversion Hg as [|? s ? ss' Hge Hgs]; subst. cbn [map] in *. rewrite mjoin_cons in *. cbn [app] in *.
    eapply sim_step; [by eapply step_pop|done|]. apply holds_inv in Hc as [_ Hc]. apply holds_app_inv in Hc as [Hc1 Hc2].
    cbn [ref_seq]. eapply (sim_bind _ _ [] tp); [done|by eapply He|]. intros v' sl' w' Hev Hl' Hlt'.
    eapply (IH ss' (p + 1 + zlen s)); [done|done|done|done|place|by eapply runnable_evolves| |done|done].
    by eapply at_depth_slots; [|exact Hd]; congruence.
Qed.

Lemma sim_do e es : simulated e → Forall simulated es → simulated (EDo e es).
Proof.
  intros IH IHs td B seg p pe tp sl w d Htd Hm Hg Hc -> Hw Hd Hl. inversion Hg; subst. name_gen e Hge. cbn [ref_exp].
  apply holds_app_inv in Hc as [Hc1 Hc2].
  eapply (sim_bind _ _ [] tp); [done|by eapply IH|]. intros v sl' w' He Hl' Hlt.
  eapply sim_seq; [done|done|done|eassumption|done|place|by eapply runnable_evolves| |done|done].
  by eapply at_depth_slots; [|exact Hd]; congruence.
Qed.

Lemma sim_dyn ast : simulated (EDyn ast).
Proof.
  intros td B seg p pe tp sl w d Htd Hm Hg Hc -> Hw Hd Hl. inversion Hg; subst. name_idx Hi. cbn [ref_exp].
  apply holds_app_inv in Hc as [Hc1 Hc2].
  eapply (sim_push _ _ []); [by apply step_const|done..|]. intros Hlt. destruct Hd as [Hd _].
  replace (p + zlen (s ++ [OP_CALLD; 0])) with (p + zlen s + 2) by place.
  eapply sim_call; [by eapply step_calld|done|lia|]. apply ray_eval_evolves.
Qed.

Lemma sim_return e : simulated e → simulated (EReturn e).
Proof.
  intros IH td B seg p pe tp sl w d Htd Hm Hg Hc -> Hw Hd Hl. inversion Hg; subst. name_gen e Hge. cbn [ref_exp].
  apply holds_app_inv in Hc as [Hc1 Hc2].
  eapply (sim_bind _ _ [] tp); [done|by eapply IH|]. intros v sl' w' He Hl' Hlt.
  split; [done|]. split; [done|]. exists tp, (p + zlen s + Z.of_nat (Z.to_nat td)). split.
  - apply holds_app_inv in Hc2 as [_ Hr]. rewrite zlen_replicate in Hr. by apply holds_single.
  - by eapply run_trap_ends.
Qed.

Lemma sim_scope ids ast : simulated (EScope ids ast).
Proof.
  intros td B seg p pe tp sl w d Htd Hm Hg Hc -> Hw Hd Hl. inversion Hg; subst.
  match goal with Hx : idx_code _ _ _ ast _ |- _ => rename Hx into Hast end.
  match goal with Hx : idx_code _ _ _ (VVec _ _ _) _ |- _ => rename Hx into Hids end. cbn [ref_exp].
  match goal with Hx : zlen ids ≤ _ |- _ => rename Hx into Hle end. rewrite <- Hl in Hle.
  apply holds_app_inv in Hc as [Hc1 Hc]. pose proof Hc as Hb. apply holds_inv in Hc as [_ Hc].
  apply holds_app_inv in Hc as [Hc2 Hc]. pose proof Hc as Hcd. apply holds_inv in Hc as [_ Hc]. apply holds_inv in Hc as [_ Hc].
  apply holds_app_inv in Hc as [Hc3 Hc]. pose proof Hm as (Hf & _).
  replace (p + zlen (s1 ++ OP_SCOPE_BEGIN :: s2 ++ OP_CALLD :: 0 :: s1 ++ [OP_SCOPE_END]))
    with (p + zlen s1 + 1 + zlen s2 + 1 + 1 + zlen s1 + 1) by place.
  eapply (sim_push _ _ []); [exact (step_const _ _ _ _ _ _ _ Hids Hc1)|done..|]. intros Hlt. destruct Hd as (Hd & Hd').
  pose proof (step_scope_begin B tp sl _ w _ RAY_I64 0 ids Hb Hle) as Hs. rewrite Hf in Hs.
  destruct (ray_env_scope_bind _ _ _ _) as [E|]; [|by eapply (sim_err_st _ _ [])].
  eapply sim_step; [exact Hs|by apply evolves_same|].
  eapply sim_step; [rewrite (step_const B tp sl _ _ _ _ Hast Hc2); apply push_room; lia|done|].
  eapply (sim_bind _ _ [] tp); [done|eapply sim_call; [by eapply step_calld|done|lia|apply ray_eval_evolves]|].
  intros v sl' w' He Hl' _. replace (p + zlen s1 + 1 + zlen s2 + 2) with (p + zlen s1 + 1 + zlen s2 + 1 + 1) by lia.
  eapply (sim_push _ _ [Some v]); [exact (step_const _ _ _ _ _ _ _ Hids Hc3)|done| |done|done|].
  { apply at_depth_up. eapply at_depth_slots; [|by split]. congruence. }
  intros Hlt'.
  pose proof (step_scope_end B (Some v :: tp) sl' _ w' _ RAY_I64 0 ids Hc ltac:(lia)) as He'.
  assert (Hz : zlen ((ray_env_scope_sync (genv w') ids (take (length ids) sl')).2 ++ drop (length ids) sl') = zlen sl').
  { apply zlen_scope_sync. lia. }
  destruct (ray_env_scope_sync (genv w') ids (take (length ids) sl')) as [E' slots]. cbn [snd] in Hz.
  eapply sim_step; [exact He'|by apply evolves_same|]. apply sim_val; rewrite Hz; [done|lia].
Qed.

(** A failure in the body of a [try] goes to its handler. *)
Lemma unwind_trap B t r tp sl sl0 h w0 w' s' obj str :
  ts s' = trap_of B tp sl0 h w0 :: f_ts B → scope_base s' = f_scope B → rs s' = r ++ f_rs B →
  ps s' = t ++ tp ++ rev sl ++ f_below B → zlen sl = zlen sl0 → compiled (lambdas w' (f_fn B)) = Some (f_code B) →
  vm_error s' w' obj str =
    let '(err, w2) := caught (zlen (scopes (genv w0))) obj w' in PUSH (st B tp sl h) w2 err.
Proof.
  intros Ht Hsc Hr Hp Hl Hcomp. unfold vm_error, caught. rewrite Ht. cbn [vm_unwind trap_of t_rp t_sp t_scope t_fn t_fp t_nlocals t_ip].
  assert (Hrs : drop (Z.to_nat (zlen (rs s') - zlen (f_rs B))) (rs s') = f_rs B).
  { rewrite Hr, zlen_app. rewrite drop_app_length'; [done|]. unfold zlen. lia. }
  assert (Hps : drop (Z.to_nat (sp s' - sp (st B tp sl0 h))) (ps s') = ps (st B tp sl h)).
  { rewrite sp_st. unfold sp. rewrite Hp. cbn [ps st]. rewrite drop_app_length'; [done|].
    autorewrite with zlen. rewrite zlen_rev, Hl. unfold zlen. lia. }
  rewrite Hrs, Hps. change (lambdas (with_raise _ None)) with (lambdas w'). rewrite Hcomp. cbn [mbind option_bind].
  unfold PUSH, vm_error_limit, vm_error. rewrite Hsc. fold (sp (st B tp sl h)). done.
Qed.

(** The value of the body: its trap is disarmed. *)
Lemma sim_disarm B td t tp pe pe' s w r k :
  (∀ obj str sl w', r ≠ Done (Err obj str) sl w') → 0 ≤ td →
  (∀ v sl w', reach (st (fr_ts B (t :: f_ts B)) (Some v :: tp) sl pe) w' (st B (Some v :: tp) sl pe') w') →
  sim (fr_ts B (t :: f_ts B)) (td + 1) tp pe s w r →
  sim B td tp pe' s w (match r with Done (Err obj str) sl w => k obj str sl w | r => r end).
Proof.
  intros Hr Htd Hgo Hs. destruct r as [[v|v|obj str] sl w'| |]; [| | |exact Hs..].
  - destruct Hs as (Hl & He & Hlt & Hs). split; [done|]. split; [done|]. split; [done|]. by eapply reach_trans.
  - destruct Hs as (Hl & He & tp' & ip & Hop & Hs). split; [done|]. split; [done|]. exists tp', ip. split; [done|].
    replace (Z.to_nat (td + 1)) with (S (Z.to_nat td)) in Hs by lia. exact Hs.
  - by destruct (Hr obj str sl w').
Qed.

Lemma sim_try i e h : simulated e → simulated h → simulated (ETry i e h).
Proof.
  intros IHe IHh td B seg p pe tp sl w d Htd Hm Hg Hc -> Hw Hd Hl. inversion Hg; subst. name_gen e Hge. name_gen h Hgh. cbn [ref_exp].
  match goal with Hx : in_jump (_ + 4) |- _ => rename Hx into Hj4 end.
  pose proof Hc as Ht. apply (holds_app_inv _ _ (OP_TRAP :: offset _)) in Hc as [_ Hc].
  change (zlen (OP_TRAP :: offset (zlen s + 4))) with 3 in *.
  apply holds_app_inv in Hc as [Hce Hc]. pose proof Hc as Hte. apply holds_inv in Hc as [_ Hc].
  pose proof Hc as Hj. apply (holds_app_inv _ _ (OP_JMP :: offset _)) in Hc as [_ Hc].
  change (zlen (OP_JMP :: offset (zlen sh + 5))) with 3 in *.
  pose proof Hc as Hst. apply (holds_app_inv _ _ [OP_STOREENV; i]) in Hc as [_ Hc]. change (zlen [OP_STOREENV; i]) with 2 in *.
  apply holds_app_inv in Hc as [Hch Hle].
  replace (p + zlen _) with (p + 3 + zlen s + 1 + 3 + (zlen sh + 5)) by (unfold offset; place).
  pose proof (step_trap B tp sl p w _ _ Hj4 Ht) as Hs. destruct Hd as (Hd1 & Hd2 & Hd3). rewrite <- Hd3 in Hs.
  destruct (VM_TRAP_SIZE <=? d_tp d); [by eapply (sim_err_st _ _ [])|].
  set (t := trap_of B tp sl (p + 3 + (zlen s + 4)) w) in *.
  eapply sim_step; [exact Hs|done|].
  assert (Hbody : sim (fr_ts B (t :: f_ts B)) (td + 1) tp (p + 3 + zlen s) (st (fr_ts B (t :: f_ts B)) tp sl (p + 3)) w
    (ref B e (Depth (d_sp d) (d_rp d) (d_tp d + 1)) sl w)).
  { eapply (IHe (td + 1) (fr_ts B (t :: f_ts B))); [lia|done|done|done|done|done|by apply at_depth_trap|done]. }
  assert (Hgo : ∀ v sl w', reach (st (fr_ts B (t :: f_ts B)) (Some v :: tp) sl (p + 3 + zlen s)) w'
    (st B (Some v :: tp) sl (p + 3 + zlen s + 1 + 3 + (zlen sh + 5))) w').
  { intros v sl' w'. eapply reach_trans; [apply reach_step; by eapply (step_trap_end (fr_ts B (t :: f_ts B)))|].
    change (fr_ts (fr_ts B (t :: f_ts B)) (tail (f_ts (fr_ts B (t :: f_ts B))))) with (fr_ts B (f_ts B)).
    replace (fr_ts B (f_ts B)) with B by by destruct B. apply reach_step. eapply step_jmp; [|exact Hj]. done. }
  destruct (ref B e _ sl w) as [[v|v|obj str] sl' w'| |] eqn:Hr; try (by eapply (sim_disarm _ _ t _ _ _ _ _ _ (λ _ _ _ _, OutOfFuel)) in Hbody).
  (* the handler *)
  destruct Hbody as (Hl' & He & s1 & w1 & s' & Hreach & Hstep & Hts & Hsc & [r Hrs] & [t' Hps]).
  pose proof (runnable_evolves _ _ _ He Hw) as Hw'. change (zlen sl' = nl B) in Hl'. assert (Hll : zlen sl' = zlen sl) by congruence.
  rewrite (unwind_trap B t' r tp sl' sl (p + 3 + (zlen s + 4)) w w' s' obj str Hts Hsc Hrs Hps Hll (proj1 (proj2 Hw'))) in Hstep.
  destruct (caught (zlen (scopes (genv w))) obj w') as [err w2] eqn:Hcaught.
  assert (Hev : evolves w' w2) by (apply evolves_same; by injection Hcaught as _ <-).
  eapply (sim_push_from _ _ []); [exact Hreach|exact Hstep|by etransitivity| |done|done|].
  { by eapply at_depth_slots; [|by split_and!]. }
  intros Hlt.
  assert (Hz : zlen (<[Z.to_nat i:=Some err]> sl') = zlen sl') by apply zlen_insert.
  assert (Hi : 0 ≤ i < nl B) by done.
  eapply sim_step; [eapply (step_storeenv B tp sl' _ _ i); [|lia]|done|].
  { replace (p + 3 + (zlen s + 4)) with (p + 3 + zlen s + 1 + 3) by lia. exact Hst. }
  replace (p + 3 + (zlen s + 4) + 2) with (p + 3 + zlen s + 1 + 3 + 2) by lia.
  eapply (sim_bind _ _ [] tp); [done|eapply IHh; [done|done|done|done|done|by eapply runnable_evolves| |lia]|].
  { eapply at_depth_slots; [|by split_and!]. lia. }
  intros hv sl2 w3 He3 Hl2 _.
  eapply (sim_push _ _ [Some hv]); [eapply step_loadenv; [exact Hle|lia]|done| |done|done|].
  { apply at_depth_up. eapply at_depth_slots; [|by split_and!]. lia. }
  intros _. apply holds_inv in Hle as [_ Hle]. apply holds_inv in Hle as [_ Hle].
  replace (p + 3 + zlen s + 1 + 3 + (zlen sh + 5)) with (p + 3 + zlen s + 1 + 3 + 2 + zlen sh + 2 + 1) by lia.
  eapply sim_call; [eapply step_tryh|done|lia|apply ray_try_handle_evolves].
  by replace (p + 3 + zlen s + 1 + 3 + 2 + zlen sh + 2) with (p + 3 + zlen s + 1 + 3 + 2 + zlen sh + 1 + 1) by lia.
Qed.

(** ** Calls *)

(** A body run in a frame of its own, back in the calling frame. *)
Lemma sim_of_body B B' c td tp pe s w sl r :
  f_ts B' = f_ts B → f_scope B' = f_scope B → f_rs B' = c :: f_rs B → f_below B' = tp ++ rev sl ++ f_below B →
  zlen sl = nl B → zlen tp + zlen sl + zlen (f_below B) < VM_STACK_SIZE → runnable B w →
  (∀ w' v, runnable B w' → ret_to B' w' v = PUSH (st B tp sl pe) w' v) →
  bsim B' s w r → sim B td tp pe s w (of_body r sl).
Proof.
  intros Hts Hsc Hrs Hbelow Hl Hlt Hw Hret Hs. destruct r as [v w'|obj str w'| |]; [| |exact Hs..].
  - destruct Hs as (He & s1 & Hr & Hstep). rewrite Hret, push_room in Hstep; [|done|by eapply runnable_evolves].
    split; [done|]. split; [done|]. split; [done|]. eapply reach_trans; [exact Hr|]. by apply reach_step.
  - destruct Hs as (He & s1 & w1 & s' & Hr & Hstep & E1 & E2 & [r E3] & [t E4]).
    split; [done|]. split; [done|]. exists s1, w1, s'. split; [done|]. split; [done|].
    split; [congruence|]. split; [congruence|]. split.
    + exists (r ++ [c]). by rewrite E3, Hrs, <- app_assoc.
    + exists t. by rewrite E4, Hbelow.
Qed.

Lemma zlen_new_slots args n : zlen args ≤ n → zlen (new_slots args n) = n.
Proof. intros Hn. unfold new_slots. autorewrite with zlen. pose proof (zlen_nonneg args). lia. Qed.

Lemma sim_self es : Forall simulated es → simulated (ESelf es).
Proof.
  intros IHs td B seg p pe tp sl w d Htd Hm Hg Hc -> Hw Hd Hl. inversion Hg; subst. cbn [ref_exp].
  apply holds_app_inv in Hc as [Hc1 Hc2].
  eapply (sim_args _ _ ss _ _ [] tp); [done|done|done|done|done|done|done|done|done|].
  intros vs sl' w' He Hl' Hn. rewrite <- Hn in *. pose proof (zlen_nonneg sl).
  pose proof (step_calls B tp sl' _ w' _ vs Hc2 ltac:(lia)) as Hs. unfold ref_self.
  destruct Hd as (Hd1 & Hd2 & Hd3). rewrite Hd2, Hd1.
  destruct (Z.leb_spec VM_STACK_SIZE (zlen (f_rs B))) as [|Hrp]; [by eapply (sim_err_st _ _ (rev (map Some vs)))|].
  replace (zlen vs + zlen tp + zlen sl' + zlen (f_below B) + nl B)
    with (zlen tp + zlen sl + zlen (f_below B) + zlen vs + nl B) in Hs by lia.
  destruct (Z.leb_spec VM_STACK_SIZE (zlen tp + zlen sl + zlen (f_below B) + zlen vs + nl B)) as [|Hsp];
    [by eapply (sim_err_st _ _ (rev (map Some vs)))|].
  pose proof (runnable_evolves _ _ _ He Hw) as Hw'. pose proof (zlen_nonneg vs).
  set (B' := self_callee B tp sl' (p + zlen (mjoin ss) + 2)) in *.
  assert (Hz : zlen (take (Z.to_nat (nl B)) (new_slots vs (nl B))) = nl B).
  { unfold new_slots. rewrite zlen_take. autorewrite with zlen. lia. }
  eapply sim_step; [exact Hs|done|].
  replace (p + zlen (mjoin ss ++ [OP_CALLS; zlen vs])) with (p + zlen (mjoin ss) + 2) by place.
  eapply (sim_of_body B B'); [done|done|done|done|done|lia|done|intros w2 v _; done|].
  destruct Hm as (Hf & Hrs & Hle). destruct Hw' as (Hw1 & Hw2 & Hw3).
  replace self with (f_fn B') by done. apply Hrun; [|done|done|by right| |exact Hz].
  - unfold B'. cbn [f_rs self_callee]. rewrite zlen_cons. lia.
  - split; [|split].
    + cbn [d_sp]. rewrite Hz. unfold B'. cbn [f_below self_callee]. autorewrite with zlen. rewrite !zlen_rev, zlen_map, zlen_drop. lia.
    + unfold B'. cbn [d_rp f_rs self_callee]. rewrite zlen_cons. lia.
    + done.
Qed.

Lemma sim_call1 a o pt e : simulated e → simulated (ECall1 a o pt e).
Proof.
  intros IH td B seg p pe tp sl w d Htd Hm Hg Hc -> Hw Hd Hl. inversion Hg; subst. name_idx Hi. name_gen e Hge. cbn [ref_exp].
  apply holds_app_inv in Hc as [Hc1 Hc]. apply holds_app_inv in Hc as [Hc2 Hc3].
  eapply (sim_push _ _ []); [exact (step_const _ _ _ _ _ _ _ Hi Hc1)|done..|]. intros Hlt.
  eapply (sim_bind _ _ [Some (VFn FUnary a o pt)] (Some (VFn FUnary a o pt) :: tp)); [done|by eapply IH; [..|by apply at_depth_up|]|].
  intros v sl' w' He Hl' _. destruct Hd as (Hd & _).
  replace (p + zlen (s1 ++ s2 ++ [OP_CALL1])) with (p + zlen s1 + zlen s2 + 1) by place.
  eapply sim_call; [by eapply step_call1|done|lia|apply call1_evolves].
Qed.

Lemma sim_call2 a o pt e1 e2 : simulated e1 → simulated e2 → simulated (ECall2 a o pt e1 e2).
Proof.
  intros IH1 IH2 td B seg p pe tp sl w d Htd Hm Hg Hc -> Hw Hd Hl. inversion Hg; subst. name_idx Hi. name_gen e1 Hge1. name_gen e2 Hge2.
  cbn [ref_exp]. apply holds_app_inv in Hc as [Hc1 Hc]. rewrite app_assoc in Hc. apply holds_app_inv in Hc as [Hc2 Hc3].
  set (f := Some (VFn FBinary a o pt)).
  eapply (sim_push _ _ []); [exact (step_const _ _ _ _ _ _ _ Hi Hc1)|done..|]. intros Hlt.
  eapply (sim_args td B [s2; s3] _ _ [f] (f :: tp)); [by repeat constructor|done|done|by repeat constructor| |done|by apply at_depth_up|done|done|].
  { rewrite !mjoin_cons. change (mjoin []) with (@nil Z). by rewrite app_nil_r. }
  intros [|x [|y [|]]] sl' w' He Hl' Hn; try (by apply (f_equal Z.to_nat) in Hn; unfold zlen in Hn; rewrite !Nat2Z.id in Hn).
  destruct Hd as (Hd & _). rewrite !mjoin_cons. change (mjoin []) with (@nil Z). rewrite app_nil_r. cbn [map rev app].
  replace (p + zlen (s1 ++ s2 ++ s3 ++ [OP_CALL2])) with (p + zlen s1 + zlen (s2 ++ s3) + 1) by place.
  eapply sim_call; [by eapply step_call2|done|lia|apply call2_evolves].
Qed.

Lemma sim_calln a o pt es : Forall simulated es → simulated (ECallN a o pt es).
Proof.
  intros IHs td B seg p pe tp sl w d Htd Hm Hg Hc -> Hw Hd Hl. inversion Hg; subst. name_idx Hi.
  cbn [ref_exp]. apply holds_app_inv in Hc as [Hc1 Hc]. apply holds_app_inv in Hc as [Hc2 Hc3].
  set (f := Some (VFn FVary a o pt)).
  eapply (sim_push _ _ []); [exact (step_const _ _ _ _ _ _ _ Hi Hc1)|done..|]. intros Hlt.
  eapply (sim_args td B ss _ _ [f] (f :: tp)); [done|done|done|done|done|done|by apply at_depth_up|done|done|].
  intros vs sl' w' He Hl' Hn. rewrite <- Hn in *. destruct Hd as (Hd & _).
  replace (p + zlen (s1 ++ mjoin ss ++ [OP_CALLN; zlen vs])) with (p + zlen s1 + zlen (mjoin ss) + 2) by place.
  eapply sim_call; [by eapply step_calln|done|lia|apply calln_evolves].
Qed.

Lemma sim_lambda td B tp sl pe s w d a n vs :
  vm_step s w = enter B tp sl pe a n vs w → n = zlen vs → at_depth B tp sl d → zlen sl = nl B →
  zlen tp + zlen sl + zlen (f_below B) < VM_STACK_SIZE → mine B → runnable B w →
  sim B td tp pe s w (ref_lambda run a vs d sl w).
Proof.
  intros Hs -> (Hd1 & Hd2 & Hd3) Hl Hlt (Hf & Hrs & Hle) Hw. unfold enter in Hs. unfold ref_lambda.
  pose proof (ensure_compiled_evolves w a) as He. set (w1 := ensure_compiled w a) in *.
  pose proof (runnable_evolves _ _ _ He Hw) as Hw1.
  destruct (compiled (lambdas w1 a)) as [b|] eqn:Hb.
  2:{ eapply sim_call; [exact Hs|done|done|]. intros v w' Hv. etransitivity; [exact He|]. by eapply call_lambda_evolves. }
  rewrite sp_st in Hs. rewrite Hd1, Hd2. destruct (Z.leb_spec VM_STACK_SIZE (zlen (f_rs B))) as [|Hrp]; cbn [orb] in *;
    [by eapply (sim_err_st _ _ [])|].
  destruct (Z.leb_spec VM_STACK_SIZE (zlen tp + zlen sl + zlen (f_below B) + nlocals b)) as [|Hsp]; [by eapply (sim_err_st _ _ [])|].
  destruct (Z.eqb_spec (zlen vs) (zlen (params (lambdas w1 a)))) as [Hn|]; cbn [negb] in *; [|by eapply (sim_err_st _ _ [])].
  destruct (interrupted w1).
  { eapply sim_err; [exact Hs|done|done|done|done|by eexists [_]|by eexists]. }
  destruct (compiled_code w1 a b (proj1 Hw1) Hb) as (e & ls & _ & Hnl & Hpar & _).
  assert (Hz : zlen (new_slots vs (nlocals b)) = nlocals b) by (apply zlen_new_slots; lia).
  set (B' := callee B tp sl pe a b) in *.
  eapply sim_step; [exact Hs|exact He|].
  eapply (sim_of_body B B'); [done|done|done|done|done|done|done| |].
  { intros w2 v (_ & Hc & _). unfold ret_to, B', callee. cbn [f_rs c_fn f_below f_ts f_scope f_fn f_code c_fp c_ip]. by rewrite Hc. }
  destruct Hw1 as (Hok & _). replace a with (f_fn B') at 2 by done. apply Hrun; [|done|done|by left| |exact Hz].
  - unfold B'. cbn [f_rs callee]. rewrite zlen_cons. lia.
  - split; [|split].
    + cbn [d_sp]. rewrite Hz. unfold B'. cbn [f_below callee]. autorewrite with zlen. rewrite !zlen_rev. lia.
    + unfold B'. cbn [d_rp f_rs callee]. rewrite zlen_cons. lia.
    + done.
Qed.

Lemma sim_ecall h es : simulated h → Forall simulated es → simulated (ECall h es).
Proof.
  intros IHh IHs td B seg p pe tp sl w d Htd Hm Hg Hc -> Hw Hd Hl. inversion Hg; subst. name_gen h Hgh. cbn [ref_exp].
  apply holds_app_inv in Hc as [Hc1 Hc]. apply holds_app_inv in Hc as [Hc2 Hc3].
  eapply (sim_bind _ _ [] tp); [done|by eapply IHh|]. intros f sl1 w1 He1 Hl1 Hlt.
  assert (Hd1 : at_depth B tp sl1 d) by (by eapply at_depth_slots; [|exact Hd]; congruence).
  eapply (sim_args td B ss _ _ [Some f] (Some f :: tp)); [done|done|done|done|done|by eapply runnable_evolves|by apply at_depth_up|done|done|].
  intros vs sl' w' He Hl' Hn. rewrite <- Hn in *.
  replace (p + zlen (sh ++ mjoin ss ++ [OP_CALLF; zlen vs])) with (p + zlen sh + zlen (mjoin ss) + 2) by place.
  pose proof (step_callf B tp sl' _ w' _ f vs Hc3 ltac:(lia)) as Hs.
  destruct f; try (eapply sim_call; [exact Hs|done|lia|apply call_builtin_evolves]).
  eapply sim_lambda; [exact Hs|done| |done|lia|done|].
  - by eapply at_depth_slots; [|exact Hd1]; congruence.
  - eapply runnable_evolves; [exact He|]. by eapply runnable_evolves.
Qed.

Lemma sim_exp e : simulated e.
Proof.
  induction e using exp_nested_ind; [apply sim_const|apply sim_local|apply sim_global|by apply sim_set|by apply sim_let|by apply sim_if
    |by apply sim_do|apply sim_dyn|apply sim_scope|by apply sim_try|by apply sim_return|by apply sim_self|by apply sim_call1
    |by apply sim_call2|by apply sim_calln|by apply sim_ecall].
Qed.
End frame.

(** ** Whole bodies, by the number of frames still free *)
Lemma ref_run_ok fuel : runs_ok (ref_run fuel) (VM_STACK_SIZE + 1 - Z.of_nat fuel).
Proof.
  induction fuel as [|fuel IH]; intros B tp sl w d Hrp Hw Hb Htp Hd Hl; [lia|].
  cbn [ref_run]. rewrite Hb. cbn [mbind option_bind].
  destruct (compiled_code w (f_fn B) (f_code B) Hw Hb) as (e & ls & Hel & Hnl & _ & Hcode). rewrite Hel.
  rewrite <- Hnl in *. assert (Hall : holds (bc (f_code B)) 0 (bc (f_code B))) by (intros j Hj; by rewrite Z.add_0_l).
  inversion Hcode as [Hnone Hret|e' seg Hgen Hsome Hret]; cbn [ref_body].
  - assert (Htp' : tp = []).
    { destruct Htp as [|Hbody]; [done|]. unfold elab_lambda in Hel. destruct (body (lambdas w (f_fn B))); [done|].
      destruct (elab_do _ _ _ _) as [[? ?]|]; simplify_eq/=. }
    subst tp. split; [done|]. eexists. split; [apply reach_refl|]. eapply (step_ret_empty _ _ _ _ []); [|done]. by rewrite Hret.
  - rewrite <- Hret in Hall at 2. apply holds_app_inv in Hall as [Hc1 Hc2].
    eapply (sim_to_body B tp (0 + zlen seg)); [|exact Hc2].
    eapply (sim_exp (ref_run fuel) (f_fn B) (zlen (f_rs B))); try done; [|by split_and!; lia|].
    + intros B' tp' sl' w' d' Hrp'. apply IH. lia.
    + split; [done|]. split; [done|]. intros Hnil. unfold elab_lambda in Hel. rewrite Hnil in Hel. by simplify_eq.
Qed.
End sim.
