(* ===== verification/VmBounds.v ===== *)
(** * The machine stays inside its arrays

    Whatever the program does, the operand stack, the return stack and the trap
    stack keep to the sizes of [ray_exec_t]. *)

From stdpp Require Import strings.
From S2P Require Import Prelude Lang Compile Vm VmRef CompileProofs VmProofs VmSteps VmSim.
Local Open Scope Z_scope.
#[local] Arguments zget : simpl never.
#[local] Arguments Z.pow : simpl never.
#[local] Arguments Z.shiftr : simpl never.
#[local] Arguments Z.shiftl : simpl never.
#[local] Arguments Z.land : simpl never.
#[local] Arguments Z.lor : simpl never.

(** ** Bytes are not negative *)
Notation bytes_ok l := (Forall (λ b, 0 ≤ b) l).

Lemma idx_code_bytes pool op op_w v s : 0 ≤ op → 0 ≤ op_w → idx_code pool op op_w v s → bytes_ok s.
Proof.
  intros Ho Hw [i Hi _|i Hi _]; repeat constructor; try lia; [by apply Z.shiftr_nonneg; lia|].
  apply Z.land_nonneg. lia.
Qed.
Lemma offset_bytes k : bytes_ok (offset k).
Proof.
  unfold offset. repeat constructor.
  - apply Z.shiftr_nonneg. pose proof (wrap_range 16 k ltac:(done)). unfold in_u in *. lia.
  - apply Z.land_nonneg. lia.
Qed.
Lemma bytes_all (P : exp → list Z → Prop) (op : list Z) es ss :
  Forall (λ e, ∀ s, P e s → bytes_ok s) es → Forall2 P es ss → bytes_ok op → bytes_ok (mjoin (map (app op) ss)).
Proof.
  intros Hes Hss Hop. revert Hes. induction Hss as [|e s es ss He _ IH]; intros Hes; [constructor|].
  inversion_clear Hes. cbn [map]. rewrite mjoin_cons, !Forall_app. auto.
Qed.

Create HintDb bytes.
#[local] Hint Extern 1 (bytes_ok (_ :: _)) => (constructor; [first [done | lia | apply zlen_nonneg]|]) : bytes.
#[local] Hint Extern 1 (bytes_ok []) => constructor : bytes.
#[local] Hint Extern 1 (bytes_ok (_ ++ _)) => (apply Forall_app; split) : bytes.
#[local] Hint Extern 1 (bytes_ok (offset _)) => (apply offset_bytes) : bytes.
#[local] Hint Extern 1 (bytes_ok (replicate _ _)) => (apply Forall_replicate; done) : bytes.
#[local] Hint Extern 2 (bytes_ok _) => (eapply idx_code_bytes; [| |eassumption]; done) : bytes.

Lemma gen_bytes pool nl e : ∀ td s, gen pool nl td e s → bytes_ok s.
Proof.
  assert (Hall : ∀ es, Forall (λ e, ∀ td s, gen pool nl td e s → bytes_ok s) es →
    ∀ td op ss, bytes_ok op → Forall2 (gen pool nl td) es ss → bytes_ok (mjoin (map (app op) ss))).
  { intros es Hes td op ss Hop Hss. eapply bytes_all; [|exact Hss|done]. eapply Forall_impl; [exact Hes|]. intros e' He s. apply He. }
  assert (Hid : ∀ ss : list (list Z), mjoin (map (app []) ss) = mjoin ss) by apply mjoin_app_nil.
  induction e using exp_nested_ind; intros td sg Hg; inversion Hg; subst;
    repeat match goal with
    | Hs : Forall2 _ ?es ?ss, Hf : Forall _ ?es |- _ =>
        pose proof (Hall es Hf td [] ss (List.Forall_nil _) Hs); pose proof (Hall es Hf td [OP_POP] ss ltac:(by repeat constructor) Hs); clear Hs
    end; rewrite ?Hid in *; eauto 30 with bytes.
Qed.

Section bounds.
Context `{DynamicLaws X} `{!IdentityLaws}.
Implicit Types (w : world X) (s : exec).

Lemma code_bytes w a b : world_ok w → compiled (lambdas w a) = Some b → bytes_ok (bc b).
Proof.
  intros Hw Hb. destruct (compiled_code w a b Hw Hb) as (e & ls & _ & _ & _ & [|e' sg Hg]); [by repeat constructor|].
  apply Forall_app. split; [by eapply gen_bytes|by repeat constructor].
Qed.

(** ** The invariant *)
Definition bounded s : Prop :=
  sp s ≤ VM_STACK_SIZE ∧ zlen (rs s) ≤ VM_STACK_SIZE ∧ zlen (ts s) ≤ VM_TRAP_SIZE.
Definition vm_inv s w : Prop := world_ok w ∧ bounded s ∧ bytes_ok (xcode s).
Definition next_inv (r : option (next X)) : Prop :=
  match r with Some (Run s w) => vm_inv s w | _ => True end.

(** A state with no more on its stacks. *)
Definition shrinks s s' : Prop := sp s' ≤ sp s ∧ rs s' = rs s ∧ ts s' = ts s ∧ xcode s' = xcode s.
Lemma inv_shrinks s s' w : shrinks s s' → vm_inv s w → vm_inv s' w.
Proof. intros (Hs & Hr & Ht & Hc) (Hw & (? & ? & ?) & Hb). unfold vm_inv, bounded. rewrite Hr, Ht, Hc. split_and!; try done. lia. Qed.
Lemma inv_evolves s w w' : evolves w w' → vm_inv s w → vm_inv s w'.
Proof. intros [_ He] (Hw & Hb). split; [by apply He|done]. Qed.

Lemma inv_error tr s w obj str : vm_inv s w → zlen tr ≤ VM_TRAP_SIZE → next_inv (vm_unwind tr s w obj str).
Proof.
  revert s w obj str. induction tr as [|t tr IH]; intros s w obj str Hi Htr; [done|].
  rewrite zlen_cons in Htr. cbn [vm_unwind]. set (w1 := with_raise _ _).
  assert (Hw1 : world_ok w1) by by apply (inv_evolves s w w1); [apply evolves_same|].
  destruct (compiled (lambdas w1 (t_fn t))) as [b|] eqn:Hb; [|done]. cbn [mbind option_bind].
  destruct Hi as (Hw & (Hs & Hr & Ht) & Hc). set (s1 := Exec _ _ _ _ _ _ _ _ _ _).
  assert (Hi1 : vm_inv s1 w1).
  { split; [done|]. split; [|by eapply code_bytes]. unfold bounded, sp, s1 in *. cbn [ps rs ts]. autorewrite with zlen.
    assert (0 ≤ VM_STACK_SIZE) by done. lia. }
  change (zlen (drop (Z.to_nat (sp s - t_sp t)) (ps s))) with (zlen (ps s1)).
  destruct (Z.leb_spec VM_STACK_SIZE (zlen (ps s1))); [by apply IH; [|lia]|].
  destruct Hi1 as (_ & (Hs1 & Hr1 & Ht1) & Hc1). split; [done|]. split; [|done]. unfold bounded, sp in *. cbn [ps rs ts with_ps].
  rewrite zlen_cons. split_and!; [|exact Hr1|exact Ht1].
  change (1 + zlen (ps s1) ≤ VM_STACK_SIZE). lia.
Qed.
Lemma inv_vm_error s w obj str : vm_inv s w → next_inv (vm_error s w obj str).
Proof. intros Hi. apply inv_error; [done|apply Hi]. Qed.
Lemma inv_push s w v : vm_inv s w → next_inv (PUSH s w v).
Proof.
  intros Hi. unfold PUSH. destruct (Z.leb_spec VM_STACK_SIZE (sp s)); [by apply inv_vm_error|].
  destruct Hi as (Hw & (? & ? & ?) & Hc). split; [done|]. split; [|done]. unfold bounded, sp in *. cbn [ps rs ts with_ps]. rewrite zlen_cons. lia.
Qed.
Lemma inv_finish s w r : vm_inv s w → (∀ v w', r = Some (v, w') → evolves w w') → next_inv (finish s r).
Proof.
  intros Hi He. destruct r as [[v w']|]; [|done]. pose proof (inv_evolves _ _ _ (He v w' eq_refl) Hi). cbn [finish].
  destruct (is_err v); [by apply inv_vm_error|by apply inv_push].
Qed.

(** ** Operands *)
Lemma read_u8_shrinks s b s' : read_u8 s = Some (b, s') → shrinks s s' ∧ (bytes_ok (xcode s) → 0 ≤ b).
Proof.
  unfold read_u8. destruct (xcode s).[ip s] as [x|] eqn:Hx; [|done]. intros [= <- <-]. split; [done|].
  intros Hb. eapply Forall_forall; [exact Hb|]. by eapply zget_elem.
Qed.
Lemma read_u16_shrinks s b s' : read_u16 s = Some (b, s') → shrinks s s'.
Proof. unfold read_u16. destruct (xcode s).[ip s]; [|done]. cbn. destruct (xcode s).[ip s + 1]; [|done]. by intros [= _ <-]. Qed.
Lemma read_s16_shrinks s b s' : read_s16 s = Some (b, s') → shrinks s s'.
Proof.
  unfold read_s16. destruct (read_u16 s) as [[x s1]|] eqn:Hr; [|done]. intros [= _ <-]. by eapply read_u16_shrinks.
Qed.
Lemma read_index_shrinks s wide b s' : read_index s wide = Some (b, s') → shrinks s s'.
Proof. destruct wide; [apply read_u16_shrinks|]. by intros [? _]%read_u8_shrinks. Qed.
Lemma POP_shrinks s c s' : POP s = Some (c, s') → shrinks s s'.
Proof.
  unfold POP. destruct (ps s) as [|x l] eqn:Hp; [done|]. intros [= _ <-]. unfold shrinks, sp. cbn. rewrite Hp, zlen_cons. split; [lia|done].
Qed.
Lemma POPV_shrinks s c s' : POPV s = Some (c, s') → shrinks s s'.
Proof.
  unfold POPV. destruct (POP s) as [[x s1]|] eqn:Hp; [|done]. cbn. destruct x; [|done]. intros [= _ <-]. by eapply POP_shrinks.
Qed.
Lemma pop_args_shrinks n s acc vs s' :
  pop_args n s acc = Some (vs, s') → shrinks s s' ∧ zlen vs = Z.of_nat n + zlen acc.
Proof.
  revert s acc. induction n as [|n IH]; intros s acc; cbn [pop_args]; [by intros [= <- <-]|].
  destruct (POPV s) as [[v s1]|] eqn:Hp; [|done]. cbn [mbind option_bind]. intros [Hs Hl]%IH.
  apply POPV_shrinks in Hp. destruct Hp as (? & ? & ? & ?), Hs as (? & ? & ? & ?). rewrite zlen_cons in Hl. split; [|lia].
  split_and!; [lia|congruence..].
Qed.

(** ** Instructions *)
Ltac shrink :=
  repeat match goal with
  | Hp : POP _ = Some _ |- _ => apply POP_shrinks in Hp
  | Hp : POPV _ = Some _ |- _ => apply POPV_shrinks in Hp
  | Hp : read_u8 _ = Some _ |- _ => apply read_u8_shrinks in Hp as [Hp ?]
  | Hp : read_s16 _ = Some _ |- _ => apply read_s16_shrinks in Hp
  | Hp : read_index _ _ = Some _ |- _ => apply read_index_shrinks in Hp
  | Hp : pop_args _ _ _ = Some _ |- _ => apply pop_args_shrinks in Hp as [Hp ?]
  | Hp : shrinks ?s ?s', Hi : vm_inv ?s ?w |- _ =>
      lazymatch goal with _ : vm_inv s' w |- _ => fail | _ => pose proof (inv_shrinks _ _ _ Hp Hi) end
  end.
(** Through the reads and pops of an instruction. *)
Ltac bound :=
  repeat match goal with
  | |- next_inv (mbind ?f ?x) =>
      let E := fresh "E" in destruct x as [?|] eqn:E; cbn [mbind option_bind]; [|done]
  | |- context [let '(_, _) := ?p in _] => destruct p
  end; shrink.

Lemma op_loadconst_inv wide s w : vm_inv s w → next_inv (op_loadconst wide s w).
Proof. intros Hi. unfold op_loadconst. bound. by apply inv_push. Qed.
Lemma op_loadenv_inv s w : vm_inv s w → next_inv (op_loadenv s w).
Proof. intros Hi. unfold op_loadenv. bound. by apply inv_push. Qed.
Lemma op_storeenv_inv s w : vm_inv s w → next_inv (op_storeenv s w).
Proof.
  intros Hi. unfold op_storeenv. bound. eapply inv_shrinks; [|eassumption].
  match goal with Hz : zset _ _ _ = Some _ |- _ => apply zlen_zset in Hz end. unfold shrinks, sp. cbn. split; [lia|done].
Qed.
Lemma op_pop_inv s w : vm_inv s w → next_inv (op_pop s w).
Proof. intros Hi. unfold op_pop. destruct (_ <? _); [|done]. by bound. Qed.
Lemma op_resolve_inv wide s w : vm_inv s w → next_inv (op_resolve wide s w).
Proof.
  intros Hi. unfold op_resolve. bound. destruct v; try done.
  destruct (ray_env_resolve w id) as [[v|] w'] eqn:Hr; apply ray_env_resolve_evolves in Hr.
  - destruct (is_err v); [apply inv_vm_error|apply inv_push]; by eapply inv_evolves.
  - apply inv_vm_error. by eapply inv_evolves.
Qed.
Lemma op_storeglobal_inv wide s w : vm_inv s w → next_inv (op_storeglobal wide s w).
Proof.
  intros Hi. unfold op_storeglobal. bound. destruct (restricted w); [by apply inv_vm_error|]. destruct v; try done.
  destruct (ray_env_set _ _ _); [|by apply inv_vm_error]. cbn [next_inv]. eapply inv_evolves; [by apply evolves_same|done].
Qed.
Lemma op_jmp_inv s w : vm_inv s w → next_inv (op_jmp s w).
Proof. intros Hi. unfold op_jmp. bound. destruct (_ && _); [|done]. by apply inv_vm_error. Qed.
Lemma op_jmpf_inv s w : vm_inv s w → next_inv (op_jmpf s w).
Proof. intros Hi. unfold op_jmpf. bound. by destruct (is_truthy _). Qed.
Lemma op_call1_inv s w : vm_inv s w → next_inv (op_call1 s w).
Proof. intros Hi. unfold op_call1. bound. destruct v0 as [| | | | | |[] ? ? ?| |]; try done. eapply inv_finish; [eassumption|apply call1_evolves]. Qed.
Lemma op_call2_inv s w : vm_inv s w → next_inv (op_call2 s w).
Proof. intros Hi. unfold op_call2. bound. destruct v1 as [| | | | | |[] ? ? ?| |]; try done. eapply inv_finish; [eassumption|apply call2_evolves]. Qed.
Lemma op_calln_inv s w : vm_inv s w → next_inv (op_calln s w).
Proof.
  intros Hi. unfold op_calln. bound. destruct (64 <? z); [by apply inv_vm_error|]. bound.
  destruct v as [| | | | | |[] ? ? ?| |]; try done. eapply inv_finish; [eassumption|apply calln_evolves].
Qed.
Lemma op_calld_inv s w : vm_inv s w → next_inv (op_calld s w).
Proof. intros Hi. unfold op_calld. bound. destruct (z =? 0); bound; (eapply inv_finish; [eassumption|apply ray_eval_evolves]). Qed.
Lemma op_tryh_inv s w : vm_inv s w → next_inv (op_tryh s w).
Proof. intros Hi. unfold op_tryh. bound. eapply inv_finish; [eassumption|apply ray_try_handle_evolves]. Qed.
Lemma op_dup_inv s w : vm_inv s w → next_inv (op_dup s w).
Proof. intros Hi. unfold op_dup. bound. by apply inv_push. Qed.
Lemma op_force_inv s w :
  vm_inv s w → next_inv ('(v, s) ← POP s; match v with Some v => PUSH s w v | None => Some (Run (with_ps s (None :: ps s)) w) end).
Proof.
  intros Hi. destruct (ps s) as [|c l] eqn:Hp; unfold POP; rewrite Hp; [done|]. cbn [mbind option_bind].
  assert (Hl : vm_inv (with_ps s l) w).
  { eapply inv_shrinks; [|exact Hi]. unfold shrinks, sp. cbn. rewrite Hp, zlen_cons. split; [lia|done]. }
  destruct c; [by apply inv_push|]. cbn [next_inv]. eapply inv_shrinks; [|exact Hi]. unfold shrinks, sp. cbn. by rewrite Hp.
Qed.
Lemma op_trap_inv s w : vm_inv s w → next_inv (op_trap s w).
Proof.
  intros Hi. unfold op_trap. bound. destruct (Z.leb_spec VM_TRAP_SIZE (zlen (ts e))); [by apply inv_vm_error|].
  match goal with Hi : vm_inv e w |- _ => destruct Hi as (Hw & (? & ? & ?) & Hc) end.
  split; [done|]. split; [|done]. split; [done|]. split; [done|]. cbn. rewrite zlen_cons. lia.
Qed.
Lemma op_trap_end_inv s w : vm_inv s w → next_inv (op_trap_end s w).
Proof.
  intros (Hw & (? & ? & Ht) & Hc). split; [done|]. split; [|done]. split; [done|]. split; [done|]. cbn.
  destruct (ts s); [done|]. rewrite zlen_cons in Ht. cbn [tail]. unfold VM_TRAP_SIZE in *. lia.
Qed.
Lemma op_scope_begin_inv s w : vm_inv s w → next_inv (op_scope_begin s w).
Proof.
  intros Hi. unfold op_scope_begin. bound. destruct v; try done. destruct (_ <? _); [done|].
  destruct (ray_env_scope_bind _ _ _ _); [|by apply inv_vm_error]. cbn [next_inv]. eapply inv_evolves; [by apply evolves_same|done].
Qed.

Lemma length_sync f ids (k : list (option value)) : length (sync_slots f ids k) = length k.
Proof. revert k. induction ids as [|i ids IH]; intros [|c k]; try done. cbn. by rewrite IH. Qed.
Lemma sp_sync e ids s n :
  sp (with_ps s (set_slots s (ray_env_scope_sync e ids (frame_slots s n)).2)) = sp s.
Proof.
  unfold sp, set_slots. cbn [ps with_ps]. set (F := rev (take (Z.to_nat (sp s - fp s)) (ps s))).
  assert (Hn : (length (ray_env_scope_sync e ids (frame_slots s n)).2 ≤ length F)%nat).
  { unfold ray_env_scope_sync, frame_slots. fold F. cbn [snd]. destruct (scopes e); rewrite ?length_sync, length_take; lia. }
  unfold zlen. rewrite length_app, length_rev, length_app, length_drop.
  assert (HF : length F = length (take (Z.to_nat (sp s - fp s)) (ps s))) by apply length_rev.
  pose proof (f_equal length (take_drop (Z.to_nat (sp s - fp s)) (ps s))) as Hl. rewrite length_app, <- HF in Hl. lia.
Qed.
Lemma op_scope_end_inv s w : vm_inv s w → next_inv (op_scope_end s w).
Proof.
  intros Hi. unfold op_scope_end. bound. destruct v; try done. destruct (_ <? _); [done|].
  pose proof (sp_sync (genv w) cells e (length cells)) as Hsp.
  destruct (ray_env_scope_sync _ _ _) as [E1 slots]. cbn [snd] in Hsp. cbn [next_inv].
  eapply inv_evolves; [by apply evolves_same|]. eapply inv_shrinks; [|eassumption]. split; [by rewrite Hsp|done].
Qed.

Lemma inv_new_frame s w x y f c p n cp i sb :
  vm_inv s w → zlen x ≤ VM_STACK_SIZE → zlen y ≤ VM_STACK_SIZE → bytes_ok c →
  vm_inv (Exec x y (ts s) f p n c cp i sb) w.
Proof. intros (Hw & (? & ? & ?) & Hc) Hx Hy Hc'. split; [done|]. by split. Qed.

Lemma op_callf_inv s w : vm_inv s w → next_inv (op_callf s w).
Proof.
  intros Hi. unfold op_callf. bound. destruct (64 <? z); [by apply inv_vm_error|]. bound.
  match goal with Hx : vm_inv e1 w |- _ => rename Hx into He1 end.
  destruct v; try (eapply inv_finish; [exact He1|apply call_builtin_evolves]).
  pose proof (ensure_compiled_evolves w a) as He. set (w1 := ensure_compiled w a) in *.
  pose proof (inv_evolves _ _ _ He He1) as Hi1.
  destruct (compiled (lambdas w1 a)) as [b|] eqn:Hb; [|eapply inv_finish; [exact Hi1|apply call_lambda_evolves]].
  destruct (Z.leb_spec VM_STACK_SIZE (zlen (rs e1))); [by apply inv_vm_error|]. cbn [orb].
  destruct (Z.leb_spec VM_STACK_SIZE (sp e1 + nlocals b)); [by apply inv_vm_error|].
  destruct (Z.eqb_spec z (zlen (params (lambdas w1 a)))) as [Hn|]; [|by apply inv_vm_error]. cbn [negb].
  destruct (compiled_code w1 a b (proj1 Hi1) Hb) as (_ & ls & _ & Hnl & Hpar & _).
  assert (Hz : zlen (new_slots l (nlocals b)) = nlocals b).
  { apply zlen_new_slots. match goal with Hx : zlen l = _ |- _ => rewrite Hx end. change (zlen []) with 0.
    pose proof (zlen_nonneg (params (lambdas w1 a))). lia. }
  assert (Hsp : zlen (rev (new_slots l (nlocals b)) ++ ps e1) ≤ VM_STACK_SIZE)
    by (rewrite zlen_app, zlen_rev, Hz; unfold sp in *; lia).
  assert (Hrs : zlen (Ctx (Some (fn e1)) (fp e1) (ip e1) :: rs e1) ≤ VM_STACK_SIZE) by (rewrite zlen_cons; lia).
  destruct (interrupted w1).
  - apply inv_vm_error, inv_new_frame; [done..|]. apply Hi1.
  - cbn [next_inv ts]. apply inv_new_frame; [done..|]. eapply code_bytes; [apply Hi1|done].
Qed.

Lemma op_calls_inv s w : vm_inv s w → next_inv (op_calls s w).
Proof.
  intros Hi. unfold op_calls. bound. match goal with Hx : vm_inv e w |- _ => rename Hx into He end.
  destruct (Z.leb_spec VM_STACK_SIZE (zlen (rs e))); [by apply inv_vm_error|].
  destruct (Z.leb_spec VM_STACK_SIZE (sp e + n_locals e)); [by apply inv_vm_error|].
  assert (0 ≤ z) by (match goal with Hx : _ → 0 ≤ z |- _ => apply Hx end; apply Hi).
  apply inv_new_frame; [done| |rewrite zlen_cons; lia|apply He]. autorewrite with zlen. destruct He as (_ & (? & _) & _). unfold sp in *. lia.
Qed.

Lemma op_ret_inv s w : vm_inv s w → next_inv (op_ret s w).
Proof.
  intros Hi. unfold op_ret.
  set (r := if fp s + n_locals s <? sp s then POPV s else Some (VNull, s)).
  assert (Hr : ∀ v s', r = Some (v, s') → vm_inv s' w).
  { intros v s'. subst r. destruct (_ <? _); [|by intros [= <- <-]]. intros Hp. shrink. done. }
  destruct r as [[v s']|]; [|done]. specialize (Hr v s' eq_refl). cbn [mbind option_bind].
  destruct (rs s') as [|c rs'] eqn:Hrs; [done|].
  assert (Hps : zlen (drop (Z.to_nat (sp s' - fp s')) (ps s')) ≤ VM_STACK_SIZE).
  { rewrite zlen_drop. destruct Hr as (_ & (? & _) & _). assert (0 ≤ VM_STACK_SIZE) by done. unfold sp in *. lia. }
  assert (Hrl : zlen rs' ≤ VM_STACK_SIZE).
  { destruct Hr as (_ & (_ & Hr & _) & _). rewrite Hrs, zlen_cons in Hr. lia. }
  destruct (c_fn c) as [a|].
  - destruct (compiled (lambdas w a)) as [b|] eqn:Hb; [|done]. cbn [mbind option_bind]. apply inv_push, inv_new_frame; try done.
    eapply code_bytes; [apply Hr|done].
  - apply inv_push, inv_new_frame; try done. apply Hr.
Qed.

Lemma vm_step_inv s w : vm_inv s w → next_inv (vm_step s w).
Proof.
  intros Hi. unfold vm_step. destruct (read_u8 s) as [[op s']|] eqn:Hr; [|done]. cbn [mbind option_bind]. shrink.
  unfold vm_dispatch. repeat (destruct (op =? _); [eauto using op_ret_inv, op_jmp_inv, op_jmpf_inv, op_loadconst_inv, op_loadenv_inv,
    op_storeenv_inv, op_pop_inv, op_resolve_inv, op_call1_inv, op_call2_inv, op_calln_inv, op_callf_inv, op_calls_inv, op_calld_inv,
    op_dup_inv, op_trap_inv, op_trap_end_inv, op_storeglobal_inv, op_scope_begin_inv, op_scope_end_inv, op_tryh_inv, op_force_inv|]).
  done.
Qed.
Lemma vm_run_inv n s w : vm_inv s w → next_inv (vm_run n s w).
Proof.
  revert s w. induction n as [|n IH]; intros s w Hi; [done|]. cbn [vm_run]. pose proof (vm_step_inv s w Hi) as Hs.
  destruct (vm_step s w) as [[s1 w1| |]|]; try done. by apply IH.
Qed.
End bounds.
