(* ===== verification/VmProps.v ===== *)
(** * Properties of compiled code

    The results about the compiler and the machine together, each with a
    concrete world it holds in. *)

From stdpp Require Import strings.
From S2P Require Import Prelude Lang Compile Vm VmRef CompileProofs VmProofs VmSteps VmSim VmBounds.
Local Open Scope Z_scope.

Section exec.
Context `{DynamicLaws X} `{!IdentityLaws}.
Implicit Types w : world X.

Lemma vm_init_st w a b args :
  vm_init w a b args = st (Frame a b [] [] (zlen (scopes (genv w))) []) [] (new_slots args (nlocals b)) 0.
Proof. unfold vm_init, st. cbn. by rewrite app_nil_r. Qed.

Lemma unwind_here w : with_env w (unwind_scopes (zlen (scopes (genv w))) (genv w)) = w.
Proof. unfold unwind_scopes. rewrite Z.sub_diag. by destruct w as [[g sc] ? ? ? ? ?]. Qed.

(** What [vm_exec] returns for an outcome of the body. *)
Definition returned w (r : bres X) : option (next X) :=
  match r with
  | BVal v w' => Some (Halt v w')
  | BErr obj str w' =>
      Some (Halt (match obj with Some v => v | None => VErr str end)
              (with_env w' (unwind_scopes (zlen (scopes (genv w))) (genv w'))))
  | BHangs => Some Hang
  | BFuel => None
  end.

Lemma run_end n s w s1 w1 r :
  vm_run n s w = Some (Run s1 w1) → vm_step s1 w1 = r → (∀ s w, r ≠ Some (Run s w)) → vm_run (n + 1) s w = r.
Proof.
  intros Hn Hs Hr. rewrite vm_run_app, Hn. cbn [mbind option_bind vm_run]. rewrite Hs.
  destruct r as [[s2 w2| |]|]; [by destruct (Hr s2 w2)|done..].
Qed.

Lemma vm_exec_result w a b args fuel :
  world_ok w → compiled (lambdas w a) = Some b → VM_STACK_SIZE < Z.of_nat fuel →
  ref_exec fuel w a args ≠ BFuel ∧ ∃ n, vm_exec n w a args = returned w (ref_exec fuel w a args).
Proof.
  intros Hw Hb Hf. unfold ref_exec, vm_exec.
  destruct (Z.eqb_spec (zlen args) (zlen (params (lambdas w a)))) as [Hn|]; cbn [negb];
    [|split; [done|]; exists O; cbn [returned]; by rewrite unwind_here].
  rewrite Hb. cbn [mbind option_bind]. destruct (compiled_code w a b Hw Hb) as (_ & ls & _ & Hnl & Hpar & _).
  set (B := Frame a b [] [] (zlen (scopes (genv w))) []).
  assert (Hs : bsim B (vm_init w a b args) w (ref_run fuel a (new_slots args (nlocals b)) w (Depth (nlocals b) 0 0))).
  { rewrite vm_init_st. fold B.
    assert (Hz : zlen (new_slots args (nlocals b)) = nlocals b) by (apply zlen_new_slots; lia).
    apply (ref_run_ok fuel B); [change (zlen (f_rs B)) with 0; unfold VM_STACK_SIZE in *; lia|done|done|by left| |exact Hz]. split; [|done].
    change (zlen (f_below B)) with 0. cbn [d_sp]. rewrite Hz, zlen_nil. lia. }
  destruct (ref_run _ _ _ _ _) as [v w'|obj str w'| |]; (split; [done|]); cbn [returned].
  - destruct Hs as (_ & s1 & [n Hr] & Hstep). exists (n + 1)%nat. by eapply run_end.
  - destruct Hs as (_ & s1 & w1 & s' & [n Hr] & Hstep & Hts & Hsc & _). exists (n + 1)%nat. eapply run_end; [done| |done].
    rewrite Hstep. unfold vm_error. rewrite Hts. change (f_ts B) with (@nil vm_trap). cbn [vm_unwind]. by rewrite Hsc.
  - destruct Hs as (s1 & w1 & [n Hr] & Hstep). exists (n + 1)%nat. by eapply run_end.
  - done.
Qed.

(** A run that ends somewhere is not stuck anywhere. *)
Lemma run_not_stuck n m s w :
  vm_run n s w = None → vm_run m s w ≠ None → (∀ s' w', vm_run m s w ≠ Some (Run s' w')) → False.
Proof.
  intros Hn Hs Hr. destruct (decide (n ≤ m)%nat) as [Hle|].
  - apply Hs. replace m with (n + (m - n))%nat by lia. by rewrite vm_run_app, Hn.
  - assert (Hm : vm_run n s w = vm_run m s w); [|congruence].
    replace n with (m + (n - m))%nat by lia. rewrite vm_run_app.
    destruct (vm_run m s w) as [[s1 w1| |]|]; [by destruct (Hr s1 w1)|done..].
Qed.

Lemma vm_init_inv w a b args :
  world_ok w → compiled (lambdas w a) = Some b → zlen args = zlen (params (lambdas w a)) → vm_inv (vm_init w a b args) w.
Proof.
  intros Hw Hb Hn. destruct (compiled_code w a b Hw Hb) as (_ & ls & _ & Hnl & Hpar & _).
  split; [done|]. split; [|by eapply code_bytes]. unfold bounded, sp. cbn [ps rs ts vm_init].
  rewrite zlen_rev, zlen_new_slots by lia. split_and!; [|done|done]. rewrite Hnl. unfold VM_STACK_SIZE. lia.
Qed.
End exec.

(** ** A concrete world

    Four builtins over 64-bit atoms, a tree walker that returns what it is
    given, and a few lambdas. *)
Module Demo.
Definition names : list string :=
  ["set"; "let"; "if"; "do"; "fn"; "self"; "try"; "return"; "null"; "eval"; "resolve"; "+"; "<"; "raise"; "x"; "y"; "list"; "quote"]%string.
Fixpoint position (l : list string) (s : string) (i : Z) : Z :=
  match l with [] => -1 | x :: l => if (x =? s)%string then i else position l s (i + 1) end.

#[export] Instance symbols : Symbols := {
  ray_sym_intern s := position names s 0;
  ray_sym_str i := if 0 <=? i then names !! Z.to_nat i else None;
  ray_sym_is_dotted _ := false
}.
#[export] Instance dotted : Dotted unit := {
  dotted_get _ _ := None;
  dotted_resolve w _ := (None, w);
  dotted_set _ _ _ _ := inr "type"%string
}.
#[export] Instance identity : Identity := λ _ _, false.
#[export] Instance identity_laws : IdentityLaws.
Proof. done. Qed.
#[export] Instance builtins : Dynamic unit := {
  call_unary p v w := Some (if p =? 3 then (VErr "domain", with_raise w (Some v)) else (v, w));
  call_binary p x y w :=
    Some (match x, y with
          | VAtom _ _ _ m, VAtom _ _ _ n =>
              if p =? 1 then make_i64 (m + n) else VAtom RAY_BOOL 0 false (if m <? n then 1 else 0)
          | _, _ => VErr "type"
          end, w);
  call_vary _ vs w := Some (VList 0 vs, w);
  atomic_map_unary _ v w := Some (v, w);
  atomic_map_binary_op _ _ x _ w := Some (x, w);
  ray_eval v w := Some (v, w);
  call_lambda _ _ _ := None;
  ray_nil_fn := 100;
  ray_type_fn := 101;
  ray_eq_fn := 102;
  ray_neq_fn := 103
}.
#[export] Instance builtins_laws : DynamicLaws unit.
Proof.
  split; cbn; intros; simplify_eq; try done. destruct (p =? 3); simplify_eq; [by apply evolves_same|done].
Qed.

Definition name (s : string) : value := VSym 0 (ray_sym_intern s).
Definition call (es : list value) : value := VList 0 es.
Definition globals0 : env :=
  Env [(ray_sym_intern "+", VFn FBinary 0 0 1, false); (ray_sym_intern "<", VFn FBinary 0 0 2, false);
       (ray_sym_intern "raise", VFn FUnary 0 0 3, false); (ray_sym_intern "list", VFn FVary 0 0 4, false)]%string [].

(** [(fn [x] (if (< x 1) 0 (+ x (self (+ x -1)))))] *)
Definition sum_to : lambda :=
  Lambda [ray_sym_intern "x"]
    [call [name "if"; call [name "<"; name "x"; make_i64 1]; make_i64 0;
           call [name "+"; name "x"; call [name "self"; call [name "+"; name "x"; make_i64 (-1)]]]]] None.
(** [(fn [x] (try (do (let y 5) (raise (+ x y))) 77) (list x y))] *)
Definition guarded : lambda :=
  Lambda [ray_sym_intern "x"]
    [call [name "try"; call [name "do"; call [name "let"; name "y"; make_i64 5]; call [name "raise"; call [name "+"; name "x"; name "y"]]];
           make_i64 77];
     call [name "list"; name "x"; name "y"]] None.

Definition start : world unit :=
  World globals0 (λ a, if a =? 0 then sum_to else guarded) None false false tt.
Definition loaded : world unit := ensure_compiled (ensure_compiled start 0) 1.

Lemma loaded_ok : world_ok loaded.
Proof.
  unfold loaded. apply (ensure_compiled_evolves (ensure_compiled start 0) 1), (ensure_compiled_evolves start 0).
  intros a. split; [by cbn; destruct (a =? 0)|]. intros b Hb. cbn in Hb. by destruct (a =? 0).
Qed.
Definition code0 : bytecode := default (Bytecode [] [] 0 globals0) (compiled (lambdas loaded 0)).
Lemma loaded_code : compiled (lambdas loaded 0) = Some code0.
Proof. by vm_compute. Qed.
Definition code1 : bytecode := default (Bytecode [] [] 0 globals0) (compiled (lambdas loaded 1)).
Lemma loaded_code1 : compiled (lambdas loaded 1) = Some code1.
Proof. by vm_compute. Qed.
End Demo.

(** ** The theorems *)
Section theorems.
Context `{DynamicLaws X} `{!IdentityLaws}.
Implicit Types w : world X.

(** C1. Compiler correctness: running the bytecode of a compiled lambda on the
    stack machine gives exactly what the reference semantics gives for its
    source — value, error, or a builtin that never returns — with the same
    final world; and the reference semantics always has an answer once its fuel
    exceeds the depth of the return stack. *)
Theorem vm_exec_refines w a b args fuel :
  world_ok w → compiled (lambdas w a) = Some b → VM_STACK_SIZE < Z.of_nat fuel →
  ref_exec fuel w a args ≠ BFuel ∧ ∃ n, vm_exec n w a args = returned w (ref_exec fuel w a args).
Proof. intros. by eapply vm_exec_result. Qed.

(** C5. Memory safety of the machine on compiled code: however long it runs, it
    never reads outside its code, its constant pool, its slots or its stacks,
    never pops an empty stack, never calls what is not a function, and its
    three stacks stay within the arrays of the C structure. *)
Theorem vm_exec_memory_safe w a b args n :
  world_ok w → compiled (lambdas w a) = Some b →
  match vm_exec n w a args with
  | Some (Run s _) => sp s ≤ VM_STACK_SIZE ∧ zlen (rs s) ≤ VM_STACK_SIZE ∧ zlen (ts s) ≤ VM_TRAP_SIZE
  | Some _ => True
  | None => False
  end.
Proof.
  intros Hw Hb. destruct (vm_exec_result w a b args 1025 Hw Hb eq_refl) as (Hne & m & Hm).
  assert (Hend : ∀ s' w', vm_exec m w a args ≠ Some (Run s' w')) by (intros s' w'; rewrite Hm; by destruct (ref_exec _ _ _ _)).
  assert (Hsome : vm_exec m w a args ≠ None) by (rewrite Hm; by destruct (ref_exec _ _ _ _)).
  clear Hm Hne. unfold vm_exec in *. destruct (Z.eqb_spec (zlen args) (zlen (params (lambdas w a)))) as [Hn|]; cbn [negb] in *; [|done].
  rewrite Hb in *. cbn [mbind option_bind] in *. pose proof (vm_run_inv n _ _ (vm_init_inv w a b args Hw Hb Hn)) as Hi.
  destruct (vm_run n _ w) as [[s w'| |]|] eqn:Hr; [apply Hi|done..|].
  by apply (run_not_stuck n m (vm_init w a b args) w) in Hr.
Qed.

(** C35. Termination: a compiled lambda always stops, with a value or an error,
    unless some builtin it calls does not return; recursion is cut by the
    return stack. *)
Theorem vm_exec_terminates w a b args :
  world_ok w → compiled (lambdas w a) = Some b →
  ∃ n, (∃ v w', vm_exec n w a args = Some (Halt v w')) ∨ vm_exec n w a args = Some Hang.
Proof.
  intros Hw Hb. destruct (vm_exec_result w a b args 1025 Hw Hb eq_refl) as (Hne & n & Hn). exists n. rewrite Hn.
  destruct (ref_exec _ _ _ _); cbn [returned]; eauto. done.
Qed.

(** Constants are looked up by numeric equality, so a body [0.0 -0.0]
    compiles to two loads of one constant and returns [0.0]. *)
Theorem minus_zero_merged w a b E :
  let zero := VAtom RAY_F64 0 false 0 in
  let minus_zero := VAtom RAY_F64 0 false (2 ^ 63) in
  lambdas w a = Lambda [] [zero; minus_zero] (Some b) → ray_compile E (lambdas w a) = Some b →
  bconsts b = [zero] ∧ vm_exec 4 w a [] = Some (Halt zero w).
Proof.
  intros zero minus_zero Hl Hc.
  assert (Hb : b = Bytecode [OP_LOADCONST; 0; OP_POP; OP_LOADCONST; 0; OP_RET] [zero] 0 E).
  { assert (Hm : const_matches minus_zero zero = true).
    { unfold const_matches. apply orb_true_iff. by right. }
    pose (c1 := Compiler [OP_LOADCONST; 0; OP_POP] [zero] [] 0 false 0).
    assert (Hadd : emit_value c1 minus_zero = Compiler [OP_LOADCONST; 0; OP_POP; OP_LOADCONST; 0] [zero] [] 0 false 0).
    { unfold emit_value, add_constant. cbn [find_const consts c1]. by rewrite Hm. }
    rewrite Hl in Hc. change (ray_compile E _) with (let c := emit (emit_value c1 minus_zero) OP_RET in
      if error c then None else Some (Bytecode (code c) (consts c) (max_locals c) E)) in Hc.
    rewrite Hadd in Hc. by injection Hc as <-. }
  subst b. split; [done|]. unfold vm_exec. rewrite Hl. cbn [params compiled mbind option_bind]. by vm_compute.
Qed.

(** The head of a call is looked up in the environment before the locals: a
    parameter that has the name of a unary builtin is loaded as an argument but
    never called — the call is compiled to the builtin. *)
Theorem builtin_shadows_parameter E x attrs opcode ptr n :
  x ∉ [sf_set; sf_let; sf_if; sf_do; sf_fn; sf_try; sf_return; sf_self] →
  ray_env_get E x = Some (VFn FUnary attrs opcode ptr) → has attrs RAY_FN_SPECIAL_FORM = false →
  ray_compile E (Lambda [x] [VList 0 [VSym 0 x; make_i64 n]] None) =
    Some (Bytecode [OP_LOADCONST; 0; OP_LOADCONST; 1; OP_CALL1; OP_RET] [VFn FUnary attrs opcode ptr; make_i64 n] 1 E).
Proof.
  intros Hx Hf Hs. rewrite !not_elem_of_cons in Hx. destruct Hx as (H1' & H2' & H3' & H4' & H5' & H6' & H7' & H8' & _).
  apply Z.eqb_neq in H1', H2', H3', H4', H5', H6', H7', H8'.
  pose (f := VFn FUnary attrs opcode ptr). pose (c0 := Compiler [] [] [x] 1 false 0).
  pose (c1 := Compiler [OP_LOADCONST; 0] [f] [x] 1 false 0).
  assert (Hcall : compile_expr E (VList 0 [VSym 0 x; make_i64 n]) c0 = emit (emit_value c1 (make_i64 n)) OP_CALL1).
  { cbn [compile_expr c0 error]. unfold compile_list. change (is_name (VSym 0 x)) with true. cbn [andb].
    unfold compile_special. rewrite H1', H2', H3', H4', H5', H6', H7', H8', Hf. cbn [attrs_of]. by rewrite Hs. }
  assert (Hm : const_matches (make_i64 n) f = false).
  { unfold const_matches. destruct (same_object f (make_i64 n)) eqn:Heq; [|done]. by apply same_object_eq in Heq. }
  assert (Hadd : emit_value c1 (make_i64 n) = Compiler [OP_LOADCONST; 0; OP_LOADCONST; 1] [f; make_i64 n] [x] 1 false 0).
  { unfold emit_value, add_constant. cbn [find_const consts c1]. by rewrite Hm. }
  change (ray_compile E _) with (let c := emit (compile_expr E (VList 0 [VSym 0 x; make_i64 n]) c0) OP_RET in
    if error c then None else Some (Bytecode (code c) (consts c) (max_locals c) E)).
  by rewrite Hcall, Hadd.
Qed.
End theorems.

(** ** Witnesses *)
Import Demo.
Lemma vm_exec_refines_witness :
  (∃ n, vm_exec n Demo.loaded 0 [make_i64 10] = Some (Halt (make_i64 55) Demo.loaded)) ∧
  (∃ n, vm_exec n Demo.loaded 0 [make_i64 3000] = Some (Halt (VErr "limit") Demo.loaded)) ∧
  ∃ n, vm_exec n Demo.loaded 1 [make_i64 1] = Some (Halt (VList 0 [make_i64 1; make_i64 5]) Demo.loaded).
Proof.
  split; [|split].
  - destruct (vm_exec_refines Demo.loaded 0 Demo.code0 [make_i64 10] 1025 Demo.loaded_ok Demo.loaded_code eq_refl) as (_ & n & Hn).
    exists n. rewrite Hn. by vm_compute.
  - destruct (vm_exec_refines Demo.loaded 0 Demo.code0 [make_i64 3000] 1025 Demo.loaded_ok Demo.loaded_code eq_refl) as (_ & n & Hn).
    exists n. rewrite Hn. by vm_compute.
  - destruct (vm_exec_refines Demo.loaded 1 Demo.code1 [make_i64 1] 1025 Demo.loaded_ok Demo.loaded_code1 eq_refl) as (_ & n & Hn).
    exists n. rewrite Hn. by vm_compute.
Defined.

Lemma vm_exec_memory_safe_witness :
  match vm_exec 100 Demo.loaded 0 [make_i64 10] with
  | Some (Run s _) => sp s ≤ VM_STACK_SIZE ∧ zlen (rs s) ≤ VM_STACK_SIZE ∧ zlen (ts s) ≤ VM_TRAP_SIZE
  | Some _ => True
  | None => False
  end.
Proof.
  pose proof (vm_exec_memory_safe Demo.loaded 0 Demo.code0 [make_i64 10] 100 Demo.loaded_ok Demo.loaded_code) as Hs.
  exact Hs.
Defined.

Lemma vm_exec_terminates_witness :
  ∃ n, (∃ v w', vm_exec n Demo.loaded 1 [make_i64 1] = Some (Halt v w')) ∨ vm_exec n Demo.loaded 1 [make_i64 1] = Some Hang.
Proof.
  pose proof (vm_exec_terminates Demo.loaded 1 Demo.code1 [make_i64 1] Demo.loaded_ok Demo.loaded_code1) as Ht.
  exact Ht.
Defined.

Lemma minus_zero_merged_witness :
  let b := Bytecode [OP_LOADCONST; 0; OP_POP; OP_LOADCONST; 0; OP_RET] [VAtom RAY_F64 0 false 0] 0 Demo.globals0 in
  let w := World Demo.globals0 (λ _, Lambda [] [VAtom RAY_F64 0 false 0; VAtom RAY_F64 0 false (2 ^ 63)] (Some b)) None false false tt in
  vm_exec 4 w 0 [] = Some (Halt (VAtom RAY_F64 0 false 0) w).
Proof. intros b w. apply (minus_zero_merged w 0 b Demo.globals0); reflexivity. Defined.

Lemma builtin_shadows_parameter_witness :
  ray_compile Demo.globals0 (Lambda [13] [VList 0 [VSym 0 13; make_i64 7]] None) =
    Some (Bytecode [OP_LOADCONST; 0; OP_LOADCONST; 1; OP_CALL1; OP_RET] [VFn FUnary 0 0 3; make_i64 7] 1 Demo.globals0).
Proof. apply (builtin_shadows_parameter Demo.globals0 13 0 0 3 7); [by apply (bool_decide_unpack _)|reflexivity|reflexivity]. Defined.
