(* ===== verification/Hash.v ===== *)
(** * Hashing of byte strings ([src/src/ops/hash.h])

    The wyhash variant every hash table of the engine uses. Reads are
    [memcpy]s from the buffer: out of its bounds they are undefined ([None]).
    The 128-bit product is exact, so the portable and the [__uint128_t]
    versions of [ray__wymum] are one definition. *)

From S2P Require Import Prelude.
Local Open Scope Z_scope.

Definition wymum_lo (a b : Z) : Z := u64 (a * b).
Definition wymum_hi (a b : Z) : Z := Z.shiftr (a * b) 64.
Definition ray__wymix (a b : Z) : Z := Z.lxor (wymum_lo a b) (wymum_hi a b).

(** ** Reads at an offset *)
Definition rd_at (n : nat) (buf : list Z) (off : Z) : option Z :=
  if off <? 0 then None else bs ← rd n (drop (Z.to_nat off) buf); Some (le_dec bs).
Definition ray__wyr8 (buf : list Z) (p : Z) : option Z := rd_at 8 buf p.
Definition ray__wyr4 (buf : list Z) (p : Z) : option Z := rd_at 4 buf p.
Definition ray__wyr3 (buf : list Z) (p k : Z) : option Z :=
  x ← buf.[p]; y ← buf.[p + Z.shiftr k 1]; z ← buf.[p + k - 1];
  Some (Z.lor (Z.lor (Z.shiftl x 16) (Z.shiftl y 8)) z).

Definition ray__wyp0 : Z := 0x2d358dccaa6c78a5.
Definition ray__wyp1 : Z := 0x8bb84b93962eacc9.
Definition ray__wyp2 : Z := 0x4b33a62ed433d4a3.
Definition ray__wyp3 : Z := 0x4d5a2da51de1aa47.

(** One turn of a mixing chain: 16 bytes at [p]. *)
Definition wyround (buf : list Z) (p secret seed : Z) : option Z :=
  x ← ray__wyr8 buf p; y ← ray__wyr8 buf (p + 8);
  Some (ray__wymix (Z.lxor x secret) (Z.lxor y seed)).

(** [do { ... } while (i >= 48)], entered with [i >= 48]. *)
Fixpoint wyloop48 (fuel : nat) (buf : list Z) (p i seed see1 see2 : Z) : option (Z * Z * Z * Z * Z) :=
  match fuel with
  | O => None
  | S fuel =>
      seed ← wyround buf p ray__wyp1 seed;
      see1 ← wyround buf (p + 16) ray__wyp2 see1;
      see2 ← wyround buf (p + 32) ray__wyp3 see2;
      if 48 <=? i - 48 then wyloop48 fuel buf (p + 48) (i - 48) seed see1 see2
      else Some (p + 48, i - 48, seed, see1, see2)
  end.
(** [while (i > 16)] *)
Fixpoint wyloop16 (fuel : nat) (buf : list Z) (p i seed : Z) : option (Z * Z * Z) :=
  if 16 <? i then
    match fuel with
    | O => None
    | S fuel => seed ← wyround buf p ray__wyp1 seed; wyloop16 fuel buf (p + 16) (i - 16) seed
    end
  else Some (p, i, seed).

(** The last words [a] and [b] of an input of at most 16 bytes. *)
Definition wyshort (buf : list Z) (len : Z) : option (Z * Z) :=
  if 4 <=? len then
    let d := Z.shiftl (Z.shiftr len 3) 2 in
    a1 ← ray__wyr4 buf 0; a2 ← ray__wyr4 buf d;
    b1 ← ray__wyr4 buf (len - 4); b2 ← ray__wyr4 buf (len - 4 - d);
    Some (Z.lor (Z.shiftl a1 32) a2, Z.lor (Z.shiftl b1 32) b2)
  else if 0 <? len then a ← ray__wyr3 buf 0 len; Some (a, 0)
  else Some (0, 0).
(** And of a longer one, with the seed mixed on the way. *)
Definition wylong (buf : list Z) (len seed : Z) : option (Z * Z * Z) :=
  '(p, i, seed) ← (if 48 <=? len then
      '(p, i, seed, see1, see2) ← wyloop48 (length buf) buf 0 len seed seed seed;
      Some (p, i, Z.lxor seed (Z.lxor see1 see2))
    else Some (0, len, seed));
  '(p, i, seed) ← wyloop16 (length buf) buf p i seed;
  a ← ray__wyr8 buf (p + i - 16); b ← ray__wyr8 buf (p + i - 8);
  Some (a, b, seed).

Definition ray_hash_bytes (buf : list Z) : option Z :=
  let len := zlen buf in
  let seed := Z.lxor 0 (ray__wymix (Z.lxor 0 ray__wyp0) ray__wyp1) in
  '(a, b, seed) ← (if len <=? 16 then '(a, b) ← wyshort buf len; Some (a, b, seed)
                   else wylong buf len seed);
  let a := Z.lxor a ray__wyp1 in
  let b := Z.lxor b seed in
  Some (ray__wymix (Z.lxor (Z.lxor (wymum_lo a b) ray__wyp0) len) (Z.lxor (wymum_hi a b) ray__wyp1)).

(** ** One word *)
Definition ray_hash_i64 (v : Z) : Z :=
  let a := Z.lxor (u64 v) 0x2d358dccaa6c78a5 in
  let b := Z.lxor (u64 v) 0x8bb84b93962eacc9 in
  ray__wymix (Z.lxor (wymum_lo a b) 0x2d358dccaa6c78a5) (Z.lxor (wymum_hi a b) 0x8bb84b93962eacc9).
(** [bits] is the pattern of the double; minus zero hashes as zero. *)
Definition ray_hash_f64 (bits : Z) : Z :=
  let bits := if bits =? 0x8000000000000000 then 0 else bits in
  let a := Z.lxor bits 0x2d358dccaa6c78a5 in
  let b := Z.lxor bits 0x8bb84b93962eacc9 in
  ray__wymix (Z.lxor (wymum_lo a b) 0x2d358dccaa6c78a5) (Z.lxor (wymum_hi a b) 0x8bb84b93962eacc9).
Definition ray_hash_combine (h1 h2 : Z) : Z :=
  let a := Z.lxor h1 0x2d358dccaa6c78a5 in
  let b := Z.lxor h2 0x8bb84b93962eacc9 in
  ray__wymix (Z.lxor (wymum_lo a b) 0x2d358dccaa6c78a5) (Z.lxor (wymum_hi a b) 0x8bb84b93962eacc9).
