(* ===== verification/Arena.v ===== *)
(** * System memory and arenas ([src/src/mem/sys.c], [src/src/mem/arena.c])

    Requests to the operating system succeed or fail as the class [SysMem]
    says, numbered by a clock; fresh mappings are zero. An arena is a list of
    chunks, the current one first, each with a bump pointer. Addresses are not
    modelled: a chunk is its capacity and the bytes used. *)

From S2P Require Import Prelude.
Local Open Scope Z_scope.

(** Does the [clock]-th request, for so many bytes, succeed? *)
Class SysMem := map_ok : Z → Z → bool.

(** [(x + 31) & ~31] on [size_t]. *)
Definition ARENA_ALIGN_UP (x : Z) : Z := Z.land (u64 (x + 31)) (SIZE_MAX - 31).

Section sys.
Context `{SysMem}.

Definition SYS_HDR_SIZE : Z := 32.
Definition page_round (n : Z) : Z := Z.land (u64 (n + 4095)) (SIZE_MAX - 4095).

Definition ray_sys_alloc (clock size : Z) : bool * Z :=
  let size := if size =? 0 then 1 else size in
  if SIZE_MAX - SYS_HDR_SIZE <? size then (false, clock)
  else (map_ok clock (page_round (SYS_HDR_SIZE + size)), clock + 1).

(** From [old_usr] bytes to [new_size]; the block stays where it is when the
    number of pages does. *)
Definition ray_sys_realloc (clock old_usr new_size : Z) : bool * Z :=
  if new_size =? 0 then (false, clock) else
  if SIZE_MAX - SYS_HDR_SIZE <? new_size then (false, clock) else
  if page_round (SYS_HDR_SIZE + new_size) =? page_round (SYS_HDR_SIZE + old_usr) then (true, clock)
  else ray_sys_alloc clock new_size.

(** ** Arenas *)
Record chunk := Chunk { cap : Z; used : Z }.
Record arena_t := Arena { chunks : list chunk; chunk_size : Z }.

Definition arena_new_chunk (clock min_cap : Z) : option chunk * Z :=
  let hdr := ARENA_ALIGN_UP 24 in
  if SIZE_MAX - hdr <? min_cap then (None, clock) else
  let '(ok, clock) := ray_sys_alloc clock (hdr + min_cap) in
  (if ok then Some (Chunk min_cap 0) else None, clock).

Definition ray_arena_new (clock size : Z) : option arena_t * Z :=
  let size := if size <? 256 then 256 else size in
  let size := ARENA_ALIGN_UP size in
  let '(ok, clock) := ray_sys_alloc clock 16 in
  if negb ok then (None, clock) else
  let '(first, clock) := arena_new_chunk clock size in
  (match first with Some c => Some (Arena [c] size) | None => None end, clock).

(** The flag is [false] for a [NULL] result. An arena always has a chunk. *)
Definition ray_arena_alloc (clock : Z) (a : arena_t) (nbytes : Z) : option (bool * arena_t * Z) :=
  if SIZE_MAX - 32 - 31 <? nbytes then Some (false, a, clock) else
  let block_size := ARENA_ALIGN_UP (32 + nbytes) in
  match chunks a with
  | [] => None
  | c :: cs =>
      if cap c <? u64 (used c + block_size) then
        let new_cap := if chunk_size a <? block_size then ARENA_ALIGN_UP block_size else chunk_size a in
        let '(nc, clock) := arena_new_chunk clock new_cap in
        match nc with
        | None => Some (false, a, clock)
        | Some nc =>
            Some (true, Arena (Chunk (cap nc) (u64 (used nc + block_size)) :: chunks a) (chunk_size a), clock)
        end
      else Some (true, Arena (Chunk (cap c) (u64 (used c + block_size)) :: cs) (chunk_size a), clock)
  end.

(** The string atom is its bytes; what the arena sees is its length. *)
Definition ray_arena_str (clock : Z) (a : arena_t) (len : Z) : option (bool * arena_t * Z) :=
  if len <? 7 then ray_arena_alloc clock a 0
  else ray_arena_alloc clock a (Z.land (u64 (u64 (32 + (len + 1)) + 31)) (SIZE_MAX - 31)).

Definition ray_arena_reserve (clock : Z) (a : arena_t) (bytes : Z) : bool * arena_t * Z :=
  if bytes =? 0 then (true, a, clock) else
  let enough := match chunks a with c :: _ => bytes <=? cap c - used c | [] => false end in
  if enough then (true, a, clock) else
  let new_cap := if chunk_size a <? bytes then ARENA_ALIGN_UP bytes else chunk_size a in
  let '(nc, clock) := arena_new_chunk clock new_cap in
  match nc with
  | None => (false, a, clock)
  | Some nc => (true, Arena (nc :: chunks a) (chunk_size a), clock)
  end.

Definition ray_arena_total_used (a : arena_t) : Z := zsum (map used (chunks a)).
Definition ray_arena_reset (a : arena_t) : arena_t :=
  match chunks a with
  | [] => a
  | c :: _ => Arena [Chunk (cap c) 0] (chunk_size a)
  end.
End sys.

(** * Lemmas about arenas: what a reservation guarantees *)
Lemma land_align x : 0 ≤ x < 2 ^ 64 → Z.land x (SIZE_MAX - 31) = 32 * (x / 32).
Proof.
  intros Hx. replace (SIZE_MAX - 31) with (Z.shiftl (Z.ones 59) 5) by done.
  assert (Z.land x (Z.shiftl (Z.ones 59) 5) = Z.shiftl (Z.land (Z.shiftr x 5) (Z.ones 59)) 5) as ->.
  { apply Z.bits_inj'. intros i Hi. rewrite Z.land_spec.
    destruct (Z.lt_ge_cases i 5).
    - rewrite !Z.shiftl_spec_low by lia. by rewrite andb_false_r.
    - rewrite !Z.shiftl_spec, Z.land_spec, Z.shiftr_spec by lia. by rewrite Z.sub_add. }
  rewrite Z.land_ones, Z.shiftr_div_pow2, Z.shiftl_mul_pow2 by lia. change (2 ^ 5) with 32.
  rewrite Z.mod_small; [lia|]. split; [apply Z.div_pos; lia|].
  apply Z.div_lt_upper_bound; [lia|]. change (32 * 2 ^ 59) with (2 ^ 64). lia.
Qed.
Lemma align_up x : 0 ≤ x < 2 ^ 63 → ARENA_ALIGN_UP x = 32 * ((x + 31) / 32).
Proof. intros Hx. unfold ARENA_ALIGN_UP. rewrite wrap_id by (unfold in_u; lia). apply land_align. lia. Qed.
Lemma align_up_bounds x : 0 ≤ x < 2 ^ 63 → x ≤ ARENA_ALIGN_UP x < x + 32.
Proof. intros Hx. rewrite align_up by done. Z.to_euclidean_division_equations. lia. Qed.
Lemma align_up_mul k : 0 ≤ 32 * k < 2 ^ 63 → ARENA_ALIGN_UP (32 * k) = 32 * k.
Proof. intros Hk. rewrite align_up by done. Z.to_euclidean_division_equations. lia. Qed.

Section arena.
Context `{SysMem}.
Implicit Types (a : arena_t).

(** Lengths of strings and arrays in memory. *)
Definition MAX_OBJECT : Z := 2 ^ 60.
Definition chunk_ok (c : chunk) : Prop := 0 ≤ used c ≤ cap c ∧ cap c < 2 ^ 62.
Definition arena_ok a : Prop :=
  (∃ c cs, chunks a = c :: cs) ∧ Forall chunk_ok (chunks a) ∧ 0 ≤ chunk_size a < 2 ^ 61.
(** The bytes left in the current chunk. *)
Definition avail a : Z := match chunks a with c :: _ => cap c - used c | [] => 0 end.

Lemma new_chunk_spec clk n : 0 ≤ n < 2 ^ 62 →
  ∃ r clk', arena_new_chunk clk n = (r, clk') ∧ (∀ c, r = Some c → c = Chunk n 0).
Proof.
  intros Hn. unfold arena_new_chunk. destruct (_ <? _); [by eexists _, _|].
  destruct (ray_sys_alloc _ _) as [[] clk']; eexists _, _; (split; [done|congruence]).
Qed.

(** Carving an aligned block of [n] bytes out of the arena. *)
Definition block (nbytes : Z) : Z := ARENA_ALIGN_UP (32 + nbytes).
Lemma arena_alloc_spec clk a n : arena_ok a → 0 ≤ n < 2 ^ 61 - 64 →
  ∃ ok a' clk', ray_arena_alloc clk a n = Some (ok, a', clk') ∧ arena_ok a' ∧
    (block n ≤ avail a → ok = true ∧ avail a' = avail a - block n).
Proof.
  intros ((c & cs & Hc) & Hcs & Hsz) Hn. unfold ray_arena_alloc, avail, block. rewrite Hc.
  rewrite Hc in Hcs. inversion Hcs as [|? ? [Hu Hcap] Hcs']; subst.
  pose proof (align_up_bounds (32 + n) ltac:(lia)). set (b := ARENA_ALIGN_UP (32 + n)) in *.
  destruct (Z.ltb_spec (SIZE_MAX - 32 - 31) n); [unfold SIZE_MAX in *; lia|].
  rewrite (wrap_id 64 (used c + b)) by (unfold in_u; lia).
  destruct (Z.ltb_spec (cap c) (used c + b)).
  - set (nc := if _ <? b then _ else _). assert (Hnc : b ≤ nc < 2 ^ 62).
    { unfold nc. destruct (Z.ltb_spec (chunk_size a) b); [|lia].
      pose proof (align_up_bounds b ltac:(lia)). lia. }
    destruct (new_chunk_spec clk nc) as (r & clk' & -> & Hr); [lia|].
    destruct r as [c'|].
    + rewrite (Hr _ eq_refl). eexists _, _, _. split; [done|]. split; [|lia].
      split; [by eexists _, _|]. split; [|done]. cbn [cap used chunks]. rewrite wrap_id by (unfold in_u; lia).
      constructor; [|by constructor]. split; cbn [cap used]; lia.
    + eexists _, _, _. split; [done|]. split; [|lia]. split; [by eexists _, _|]. by rewrite Hc.
  - eexists _, _, _. split; [done|]. cbn [cap used chunks]. split; [|lia].
    split; [by eexists _, _|]. split; [|done]. constructor; [|done]. split; cbn [cap used]; lia.
Qed.

Definition str_block (len : Z) : Z := if len <? 7 then 32 else 32 + 32 * ((32 + len + 1 + 31) / 32).
Lemma str_block_bounds len : 0 ≤ len → 32 ≤ str_block len ≤ len + 128.
Proof. intros. unfold str_block. destruct (Z.ltb_spec len 7); [lia|]. Z.to_euclidean_division_equations. lia. Qed.

Lemma arena_str_spec clk a len : arena_ok a → 0 ≤ len < MAX_OBJECT →
  ∃ ok a' clk', ray_arena_str clk a len = Some (ok, a', clk') ∧ arena_ok a' ∧
    (str_block len ≤ avail a → ok = true ∧ avail a' = avail a - str_block len).
Proof.
  unfold MAX_OBJECT. intros Ha Hl. unfold ray_arena_str, str_block. destruct (Z.ltb_spec len 7).
  - change 32 with (block 0) at 1 2. apply arena_alloc_spec; [done|lia].
  - rewrite (wrap_id 64 (32 + (len + 1))), wrap_id, land_align by (unfold in_u; lia).
    replace (32 + (len + 1) + 31) with (32 + len + 1 + 31) by lia.
    set (k := (32 + len + 1 + 31) / 32).
    assert (0 ≤ 32 * k < len + 128) by (unfold k; Z.to_euclidean_division_equations; lia).
    replace (32 + 32 * k) with (block (32 * k)).
    { apply arena_alloc_spec; [done|lia]. }
    unfold block. replace (32 + 32 * k) with (32 * (1 + k)) by lia. apply align_up_mul. lia.
Qed.

Lemma arena_reserve_spec clk a n : arena_ok a → 0 ≤ n < 2 ^ 61 →
  ∃ ok a' clk', ray_arena_reserve clk a n = (ok, a', clk') ∧ arena_ok a' ∧ (ok = true → n ≤ avail a').
Proof.
  intros Ha Hn. pose proof Ha as ((c & cs & Hc) & Hcs & Hsz). unfold ray_arena_reserve, avail. rewrite Hc.
  rewrite Hc in Hcs. inversion Hcs as [|? ? [Hu Hcap] Hcs']; subst.
  destruct (Z.eqb_spec n 0); [eexists _, _, _; split; [done|]; split; [done|]; rewrite Hc; lia|].
  destruct (Z.leb_spec n (cap c - used c)); [eexists _, _, _; split; [done|]; split; [done|]; by rewrite Hc|].
  set (nc := if _ <? n then _ else _). assert (Hnc : n ≤ nc < 2 ^ 62).
  { unfold nc. destruct (Z.ltb_spec (chunk_size a) n); [|lia].
    pose proof (align_up_bounds n ltac:(lia)). lia. }
  destruct (new_chunk_spec clk nc) as (r & clk' & -> & Hr); [lia|].
  destruct r as [c'|]; [|by eexists _, _, _].
  rewrite (Hr _ eq_refl). eexists _, _, _. split; [done|]. cbn [chunks cap used]. split; [|lia].
  split; [by eexists _, _|]. split; [|done]. constructor; [|by constructor]. split; cbn [cap used]; lia.
Qed.

Lemma arena_new_spec clk n : 0 ≤ n < 2 ^ 60 →
  ∃ r clk', ray_arena_new clk n = (r, clk') ∧ (∀ a, r = Some a → arena_ok a).
Proof.
  intros Hn. unfold ray_arena_new. set (m := if n <? 256 then 256 else n).
  assert (256 ≤ m < 2 ^ 60) by (unfold m; destruct (Z.ltb_spec n 256); lia).
  pose proof (align_up_bounds m ltac:(lia)).
  destruct (ray_sys_alloc clk 16) as [[] clk1]; cbn [negb]; [|by eexists _, _].
  destruct (new_chunk_spec clk1 (ARENA_ALIGN_UP m)) as (r & clk' & -> & Hr); [lia|].
  eexists _, _. split; [done|]. intros a Ha. destruct r as [c|]; [|done]. injection Ha as <-.
  rewrite (Hr _ eq_refl). split; [by eexists _, _|]. split; [|cbn [chunk_size]; lia].
  repeat constructor; cbn [cap used]; lia.
Qed.
End arena.
