(* ===== verification/HashProofs.v ===== *)
(** * Lemmas about hashing: every read stays inside the buffer *)

From S2P Require Import Prelude Hash.
Local Open Scope Z_scope.

Section reads.
Context (buf : list Z).

Lemma rd_at_Some n off : 0 ≤ off → off + Z.of_nat n ≤ zlen buf → ∃ w, rd_at n buf off = Some w.
Proof.
  intros Ho Hn. unfold rd_at. destruct (Z.ltb_spec off 0); [lia|].
  rewrite rd_Some by (rewrite length_drop; unfold zlen in Hn; lia). by eexists.
Qed.

Lemma wyround_Some p secret seed : 0 ≤ p → p + 16 ≤ zlen buf → ∃ s, wyround buf p secret seed = Some s.
Proof.
  intros Hp Hl. unfold wyround, ray__wyr8.
  destruct (rd_at_Some 8 p) as [x Hx]; [lia..|]. destruct (rd_at_Some 8 (p + 8)) as [y Hy]; [lia..|].
  rewrite Hx, Hy. by eexists.
Qed.

Lemma wyloop48_Some fuel : ∀ p i seed see1 see2,
  0 ≤ p → p + i = zlen buf → 48 ≤ i ≤ Z.of_nat fuel →
  ∃ p' i' s s1 s2, wyloop48 fuel buf p i seed see1 see2 = Some (p', i', s, s1, s2) ∧
    0 ≤ p' ∧ p' + i' = zlen buf ∧ 0 ≤ i'.
Proof.
  induction fuel as [|fuel IH]; intros p i seed see1 see2 Hp Hi Hf; [lia|]. cbn [wyloop48].
  destruct (wyround_Some p ray__wyp1 seed) as [s Hs]; [lia..|].
  destruct (wyround_Some (p + 16) ray__wyp2 see1) as [s1 Hs1]; [lia..|].
  destruct (wyround_Some (p + 32) ray__wyp3 see2) as [s2 Hs2]; [lia..|].
  rewrite Hs, Hs1, Hs2. cbn [mbind option_bind]. destruct (Z.leb_spec 48 (i - 48)).
  - apply IH; lia.
  - eexists _, _, _, _, _. split; [done|lia].
Qed.

Lemma wyloop16_Some fuel : ∀ p i seed,
  0 ≤ p → p + i = zlen buf → 0 ≤ i ≤ Z.of_nat fuel →
  ∃ p' i' s, wyloop16 fuel buf p i seed = Some (p', i', s) ∧ p' + i' = zlen buf.
Proof.
  induction fuel as [|fuel IH]; intros p i seed Hp Hi Hf; cbn [wyloop16];
    (destruct (Z.ltb_spec 16 i); [|by eexists _, _, _]); [lia|].
  destruct (wyround_Some p ray__wyp1 seed) as [s Hs]; [lia..|].
  rewrite Hs. cbn [mbind option_bind]. apply IH; lia.
Qed.

Lemma wyshort_Some : zlen buf ≤ 16 → ∃ ab, wyshort buf (zlen buf) = Some ab.
Proof.
  intros Hl. unfold wyshort, ray__wyr4, ray__wyr3. destruct (Z.leb_spec 4 (zlen buf)).
  - pose proof (Z.shiftr_div_pow2 (zlen buf) 3 ltac:(lia)) as Hr. change (2 ^ 3) with 8 in Hr.
    rewrite Z.shiftl_mul_pow2 by lia. change (2 ^ 2) with 4.
    set (d := Z.shiftr (zlen buf) 3 * 4). assert (0 ≤ d ≤ zlen buf - 4).
    { unfold d. rewrite Hr. Z.to_euclidean_division_equations. lia. }
    destruct (rd_at_Some 4 0) as [a1 H1]; [lia..|]. destruct (rd_at_Some 4 d) as [a2 H2]; [lia..|].
    destruct (rd_at_Some 4 (zlen buf - 4)) as [b1 H3]; [lia..|].
    destruct (rd_at_Some 4 (zlen buf - 4 - d)) as [b2 H4]; [lia..|].
    rewrite H1, H2, H3, H4. by eexists.
  - destruct (Z.ltb_spec 0 (zlen buf)); [|by eexists].
    pose proof (Z.shiftr_div_pow2 (zlen buf) 1 ltac:(lia)) as Hr. change (2 ^ 1) with 2 in Hr.
    destruct (zget_is_Some buf 0) as [x Hx]; [lia|].
    destruct (zget_is_Some buf (0 + Z.shiftr (zlen buf) 1)) as [y Hy].
    { rewrite Hr. Z.to_euclidean_division_equations. lia. }
    destruct (zget_is_Some buf (0 + zlen buf - 1)) as [z Hz]; [lia|].
    rewrite Hx, Hy, Hz. by eexists.
Qed.

Lemma wylong_Some seed : 16 < zlen buf → ∃ r, wylong buf (zlen buf) seed = Some r.
Proof.
  intros Hl. unfold wylong, ray__wyr8.
  assert (∃ p i s, (if 48 <=? zlen buf then
      '(p, i, seed, see1, see2) ← wyloop48 (length buf) buf 0 (zlen buf) seed seed seed;
      Some (p, i, Z.lxor seed (Z.lxor see1 see2))
    else Some (0, zlen buf, seed)) = Some (p, i, s) ∧ 0 ≤ p ∧ p + i = zlen buf ∧ 0 ≤ i)
    as (p & i & s & -> & Hp & Hi & Hi0).
  { destruct (Z.leb_spec 48 (zlen buf)); [|eexists _, _, _; split; [done|lia]].
    destruct (wyloop48_Some (length buf) 0 (zlen buf) seed seed seed)
      as (p & i & s & s1 & s2 & -> & Hp); [lia|lia|unfold zlen in *; lia|].
    by eexists _, _, _. }
  cbn [mbind option_bind].
  destruct (wyloop16_Some (length buf) p i s) as (p' & i' & s' & -> & Hp'); [lia|done|unfold zlen in *; lia|].
  cbn [mbind option_bind].
  destruct (rd_at_Some 8 (p' + i' - 16)) as [a Ha]; [lia..|].
  destruct (rd_at_Some 8 (p' + i' - 8)) as [b Hb]; [lia..|].
  rewrite Ha, Hb. by eexists.
Qed.

Lemma hash_Some : ∃ h, ray_hash_bytes buf = Some h.
Proof.
  unfold ray_hash_bytes. destruct (Z.leb_spec (zlen buf) 16).
  - destruct wyshort_Some as [[a b] ->]; [done|]. by eexists.
  - edestruct wylong_Some as [[[a b] s] ->]; [done|]. by eexists.
Qed.
End reads.

(** The hash as the tables keep it. *)
Definition hash32 (s : list Z) : Z := u32 (default 0 (ray_hash_bytes s)).
Lemma hash32_eq s h : ray_hash_bytes s = Some h → u32 h = hash32 s.
Proof. unfold hash32. by intros ->. Qed.
Lemma hash32_range s : in_u 32 (hash32 s).
Proof. apply wrap_range. lia. Qed.
