(* ===== verification/Sym.v ===== *)
(** * The symbol table ([src/src/table/sym.c])

    Names are interned: a symbol is the position of its name in [strings], and
    an open-addressing table with linear probing maps names to positions. A
    bucket is [(hash32 << 32) | (id + 1)], 0 when empty. Dotted names carry the
    symbols of their segments. A name is the list of its bytes; a null pointer
    in [strings] is [None], and following it is undefined. The spinlock and the
    atomic flag that make the operations sequential are not modelled. *)

From Stdlib Require Import SpecFloat.
From S2P Require Import Prelude Hash Arena.
Local Open Scope Z_scope.

Definition SYM_INIT_CAP : Z := 256.
Definition SYM_STRL_MAGIC : Z := 0x4C525453.
Definition SYM_LAZY_LOAD_MIN_BYTES : Z := 64 * 1024 * 1024.
Definition UINT32_MAX : Z := 2 ^ 32 - 1.
Definition DOT : Z := 46.

Abbreviation name := (list Z).

Record sym_segs_t := Segs { nsegs : Z; segs : option (list Z) }.

(** A mapped dictionary file whose records become atoms on demand; [lazy_pos]
    is the offset of [lazy_ptr]. *)
Record lazy_file := Lazy {
  lazy_map : list Z; lazy_count : Z; lazy_next_id : Z; lazy_pos : Z; lazy_remaining : Z
}.

(** [clock] counts the requests made to the system. *)
Record sym_table := SymTable {
  buckets : list Z; bucket_cap : Z;
  strings : list (option name); str_count : Z; str_cap : Z;
  dotted : list Z; scanned : list Z; segments : list sym_segs_t;
  lazy : option lazy_file;
  arena : arena_t; clock : Z
}.
Implicit Type t : sym_table.

Definition with_ht t b c clk : sym_table :=
  SymTable b c (strings t) (str_count t) (str_cap t) (dotted t) (scanned t) (segments t) (lazy t) (arena t) clk.
Definition with_strings t s n clk : sym_table :=
  SymTable (buckets t) (bucket_cap t) s n (str_cap t) (dotted t) (scanned t) (segments t) (lazy t) (arena t) clk.
Definition with_cap t n : sym_table :=
  SymTable (buckets t) (bucket_cap t) (strings t) (str_count t) n (dotted t) (scanned t) (segments t) (lazy t) (arena t) (clock t).
Definition with_dotted t d clk : sym_table :=
  SymTable (buckets t) (bucket_cap t) (strings t) (str_count t) (str_cap t) d (scanned t) (segments t) (lazy t) (arena t) clk.
Definition with_scanned t d clk : sym_table :=
  SymTable (buckets t) (bucket_cap t) (strings t) (str_count t) (str_cap t) (dotted t) d (segments t) (lazy t) (arena t) clk.
Definition with_segments t g clk : sym_table :=
  SymTable (buckets t) (bucket_cap t) (strings t) (str_count t) (str_cap t) (dotted t) (scanned t) g (lazy t) (arena t) clk.
Definition with_lazy t l : sym_table :=
  SymTable (buckets t) (bucket_cap t) (strings t) (str_count t) (str_cap t) (dotted t) (scanned t) (segments t) l (arena t) (clock t).
Definition with_arena t a clk : sym_table :=
  SymTable (buckets t) (bucket_cap t) (strings t) (str_count t) (str_cap t) (dotted t) (scanned t) (segments t) (lazy t) a clk.

(** ** Hash table *)
Definition bucket_entry (hash id : Z) : Z := Z.lor (u64 (Z.shiftl hash 32)) (u32 (id + 1)).
Definition entry_hash (e : Z) : Z := u32 (Z.shiftr e 32).
Definition entry_id (e : Z) : Z := u32 (Z.land e 0xFFFFFFFF - 1).

Fixpoint ht_insert_from (fuel : nat) (b : list Z) (mask slot entry : Z) : option (list Z) :=
  match fuel with
  | O => None
  | S fuel =>
      x ← b.[slot];
      if x =? 0 then zset b slot entry else ht_insert_from fuel b mask (Z.land (slot + 1) mask) entry
  end.
Definition ht_insert (b : list Z) (cap hash id : Z) : option (list Z) :=
  let mask := cap - 1 in
  ht_insert_from (Z.to_nat cap) b mask (Z.land hash mask) (bucket_entry hash id).

Section sym.
Context `{SysMem}.

Definition ht_grow_to t (new_cap : Z) : option (bool * sym_table) :=
  let '(ok, clk) := ray_sys_alloc (clock t) (new_cap * 8) in
  if negb ok then Some (false, with_ht t (buckets t) (bucket_cap t) clk) else
  b ← foldM (λ i nb,
        e ← (buckets t).[i];
        if e =? 0 then Some nb else ht_insert nb new_cap (entry_hash e) (entry_id e))
      (range 0 (bucket_cap t)) (replicate (Z.to_nat new_cap) 0);
  Some (true, with_ht t b new_cap clk).

Definition ht_grow t : option (bool * sym_table) :=
  if UINT32_MAX / 2 + 1 <=? bucket_cap t then Some (false, t) else ht_grow_to t (u32 (bucket_cap t * 2)).

(** An array reallocated to [n] elements and cleared from [old] on. *)
Definition regrow {A} (l : list A) (old n : Z) (zero : A) : list A :=
  take (Z.to_nat old) l ++ replicate (Z.to_nat (n - old)) zero.

Definition sym_grow_str_cap t (new_cap : Z) : bool * sym_table :=
  let old_cap := str_cap t in
  if new_cap <=? old_cap then (true, t) else
  let '(ok, clk) := ray_sys_realloc (clock t) (8 * zlen (strings t)) (new_cap * 8) in
  let t := with_strings t (if ok then regrow (strings t) old_cap new_cap None else strings t) (str_count t) clk in
  if negb ok then (false, t) else
  let old_bm_words := (old_cap + 63) / 64 in
  let new_bm_words := (new_cap + 63) / 64 in
  let '(ok, t) :=
    if old_bm_words <? new_bm_words then
      let '(ok, clk) := ray_sys_realloc (clock t) (8 * zlen (dotted t)) (new_bm_words * 8) in
      let t := with_dotted t (if ok then regrow (dotted t) old_bm_words new_bm_words 0 else dotted t) clk in
      if negb ok then (false, t) else
      let '(ok, clk) := ray_sys_realloc (clock t) (8 * zlen (scanned t)) (new_bm_words * 8) in
      (ok, with_scanned t (if ok then regrow (scanned t) old_bm_words new_bm_words 0 else scanned t) clk)
    else (true, t) in
  if negb ok then (false, t) else
  let '(ok, clk) := ray_sys_realloc (clock t) (16 * zlen (segments t)) (new_cap * 16) in
  let t := with_segments t (if ok then regrow (segments t) old_cap new_cap (Segs 0 None) else segments t) clk in
  if negb ok then (false, t) else (true, with_cap t new_cap).

(** ** Lookup and insertion *)
Fixpoint probe_from (fuel : nat) t (mask hash slot : Z) (str : name) : option Z :=
  match fuel with
  | O => None
  | S fuel =>
      e ← (buckets t).[slot];
      if e =? 0 then Some (-1) else
      if entry_hash e =? hash then
        existing ← mjoin (strings t).[entry_id e];
        if (zlen existing =? zlen str) && bool_decide (existing = str) then Some (entry_id e)
        else probe_from fuel t mask hash (Z.land (slot + 1) mask) str
      else probe_from fuel t mask hash (Z.land (slot + 1) mask) str
  end.
Definition sym_probe t (hash : Z) (str : name) : option Z :=
  let mask := bucket_cap t - 1 in
  probe_from (Z.to_nat (bucket_cap t)) t mask hash (Z.land hash mask) str.

Definition sym_commit_new t (hash : Z) (str : name) : option (Z * sym_table) :=
  '(full, t) ← (if bucket_cap t * 70 <=? str_count t * 100 then
      '(ok, t) ← ht_grow t;
      Some (negb ok && (bucket_cap t * 95 <=? str_count t * 100), t)
    else Some (false, t));
  if full : bool then Some (-1, t) else
  let new_id := str_count t in
  let '(ok, t) :=
    if str_cap t <=? new_id then
      if UINT32_MAX / 2 <=? str_cap t then (false, t) else sym_grow_str_cap t (u32 (str_cap t * 2))
    else (true, t) in
  if negb ok then Some (-1, t) else
  '(ok, a, clk) ← ray_arena_str (clock t) (arena t) (zlen str);
  let t := with_arena t a clk in
  if negb ok then Some (-1, t) else
  s ← zset (strings t) new_id (Some str);
  let t := with_strings t s (u32 (str_count t + 1)) (clock t) in
  b ← ht_insert (buckets t) (bucket_cap t) hash new_id;
  Some (new_id, with_ht t b (bucket_cap t) (clock t)).

(** The doubling loops of [sym_reserve_capacity]: [inr] is its [return false]. *)
Fixpoint grow_buckets_target (fuel : nat) (new_count target : Z) : option (Z + unit) :=
  if target * 70 <=? new_count * 100 then
    match fuel with
    | O => None
    | S fuel =>
        if UINT32_MAX / 2 + 1 <=? target then Some (inr tt) else grow_buckets_target fuel new_count (u32 (target * 2))
    end
  else Some (inl target).
Fixpoint grow_strings_target (fuel : nat) (new_count target : Z) : option (Z + unit) :=
  if target <? new_count then
    match fuel with
    | O => None
    | S fuel =>
        if UINT32_MAX / 2 <=? target then Some (inr tt) else grow_strings_target fuel new_count (u32 (target * 2))
    end
  else Some (inl target).

Definition sym_reserve_capacity t (new_sym_count arena_bytes : Z) : option (bool * sym_table) :=
  let new_count := str_count t + new_sym_count in
  target ← grow_buckets_target 32 new_count (bucket_cap t);
  match target with
  | inr _ => Some (false, t)
  | inl target =>
      '(ok, t) ← (if bucket_cap t <? target then ht_grow_to t target else Some (true, t));
      if negb ok then Some (false, t) else
      '(ok, t) ← (if str_cap t <? new_count then
          str_target ← grow_strings_target 32 new_count (str_cap t);
          match str_target with
          | inr _ => Some (false, t)
          | inl str_target => Some (sym_grow_str_cap t str_target)
          end
        else Some (true, t));
      if negb ok then Some (false, t) else
      if arena_bytes =? 0 then Some (true, t) else
      let '(ok, a, clk) := ray_arena_reserve (clock t) (arena t) arena_bytes in
      Some (ok, with_arena t a clk)
  end.

(** ** Dotted names *)
Fixpoint memchr (s : name) (c : Z) : option Z :=
  match s with
  | [] => None
  | x :: s => if x =? c then Some 0 else i ← memchr s c; Some (1 + i)
  end.
Definition last_byte (s : name) : option Z := s.[zlen s - 1].

(** What the structure checks find: [None] for a plain name, else the number of
    segments and whether there is a leading dot. *)
Definition dotted_shape (str : name) : option (Z * bool) :=
  match memchr str DOT with
  | None => None
  | Some _ =>
      if bool_decide (last_byte str = Some DOT) then None else
      let leading := bool_decide (str.[0] = Some DOT) in
      if leading && bool_decide (memchr (drop 1 str) DOT = None) then None else
      let sep_dots := zlen (List.filter (λ c, c =? DOT) (if leading then drop 1 str else str)) in
      if 255 <? sep_dots + 1 then None else Some (sep_dots + 1, leading)
  end.

Record desc := Desc { d_name : name; d_hash : Z; d_id : Z }.

(** The segment loop; [p] is the rest of the name. [Some None]: an empty
    segment. *)
Fixpoint scan_segments (fuel : nat) t (p : name) (i nsegs : Z) (leading : bool) (ds : list desc) :
    option (option (list desc)) :=
  if (0 <? zlen p) && (i <? nsegs) then
    match fuel with
    | O => None
    | S fuel =>
        let skip := if (i =? 0) && leading then 1 else 0 in
        let dot := if skip <? zlen p then d ← memchr (drop (Z.to_nat skip) p) DOT; Some (skip + d) else None in
        let seg_len := default (zlen p) dot in
        if seg_len =? 0 then Some None else
        let s := take (Z.to_nat seg_len) p in
        h ← ray_hash_bytes s;
        id ← sym_probe t (u32 h) s;
        let ds := ds ++ [Desc s (u32 h) id] in
        match dot with
        | None => Some (Some ds)
        | Some _ => scan_segments fuel t (drop (Z.to_nat (seg_len + 1)) p) (i + 1) nsegs leading ds
        end
    end
  else Some (Some ds).

Definition get_bit (words : list Z) (id : Z) : option bool :=
  w ← words.[Z.shiftr id 6]; Some (negb (Z.land w (Z.shiftl 1 (Z.land id 63)) =? 0)).
Definition set_bit (words : list Z) (id : Z) : option (list Z) :=
  w ← words.[Z.shiftr id 6]; zset words (Z.shiftr id 6) (Z.lor w (Z.shiftl 1 (Z.land id 63))).
Definition set_scanned t (id : Z) : option sym_table :=
  w ← set_bit (scanned t) id; Some (with_scanned t w (clock t)).

(** Commits the segments that have no symbol yet; the inner [None] is a
    refused commit. *)
Fixpoint commit_segments t (ds : list desc) : option (option (list Z) * sym_table) :=
  match ds with
  | [] => Some (Some [], t)
  | d :: ds =>
      if d_id d <? 0 then
        '(sid, t) ← sym_commit_new t (d_hash d) (d_name d);
        if sid <? 0 then Some (None, t) else
        t ← set_scanned t sid;
        '(ids, t) ← commit_segments t ds;
        Some (ids ← ids; Some (sid :: ids), t)
      else
        '(ids, t) ← commit_segments t ds;
        Some (ids ← ids; Some (d_id d :: ids), t)
  end.

Definition ray_sym_bytes_upper (len : Z) : Z :=
  if len <? 7 then 32 else 32 + Z.land (u64 (32 + len + 1 + 31)) (SIZE_MAX - 31).
Definition new_descs (ds : list desc) : list desc := List.filter (λ d, d_id d <? 0) ds.
Definition new_seg_bytes (ds : list desc) : Z := zsum (map (λ d, ray_sym_bytes_upper (zlen (d_name d))) (new_descs ds)).
Definition segs_bytes (nsegs : Z) : Z := Z.land (u64 (32 + nsegs * 8 + 31)) (SIZE_MAX - 31).

Definition store_segs t (id nsegs : Z) (ids : list Z) : option sym_table :=
  g ← zset (segments t) id (Segs nsegs (Some ids));
  d ← set_bit (dotted t) id;
  Some (with_dotted (with_segments t g (clock t)) d (clock t)).

Definition sym_cache_segments t (new_id : Z) (str : name) : option (bool * sym_table) :=
  seen ← get_bit (scanned t) new_id;
  if seen : bool then Some (true, t) else
  match dotted_shape str with
  | None => t ← set_scanned t new_id; Some (true, t)
  | Some (nsegs, leading) =>
      ds ← scan_segments (Z.to_nat nsegs) t str 0 nsegs leading [];
      match ds with
      | None => t ← set_scanned t new_id; Some (true, t)
      | Some ds =>
          '(ok, t) ← sym_reserve_capacity t (zlen (new_descs ds)) (new_seg_bytes ds + segs_bytes nsegs);
          if negb ok then Some (false, t) else
          if negb (zlen ds =? nsegs) then None else
          '(ids, t) ← commit_segments t ds;
          match ids with
          | None => Some (false, t)
          | Some ids =>
              '(ok, a, clk) ← ray_arena_alloc (clock t) (arena t) (nsegs * 8);
              let t := with_arena t a clk in
              if negb ok then Some (false, t) else
              t ← store_segs t new_id nsegs ids;
              t ← set_scanned t new_id;
              Some (true, t)
          end
      end
  end.

(** ** The mapped dictionary *)
Definition advance (l : lazy_file) (n : Z) : lazy_file :=
  Lazy (lazy_map l) (lazy_count l) (lazy_next_id l) (lazy_pos l + n) (lazy_remaining l - n).
Definition next_record (l : lazy_file) : lazy_file :=
  Lazy (lazy_map l) (lazy_count l) (lazy_next_id l + 1) (lazy_pos l) (lazy_remaining l).
Definition peek (l : lazy_file) (n : Z) : option (list Z) :=
  rd (Z.to_nat n) (drop (Z.to_nat (lazy_pos l)) (lazy_map l)).

(** One record; the cursor stays past the length when the record is refused. *)
Definition materialize_next t (l : lazy_file) : option (bool * sym_table) :=
  if lazy_remaining l <? 4 then Some (false, t) else
  bs ← peek l 4;
  let slen := le_dec bs in
  let l := advance l 4 in
  let t := with_lazy t (Some l) in
  if lazy_remaining l <? slen then Some (false, t) else
  sp ← peek l slen;
  let id := lazy_next_id l in
  existing ← (strings t).[id];
  '(ok, t) ← (match existing with
    | Some e => Some ((zlen e =? slen) && bool_decide (e = sp), t)
    | None =>
        '(ok, a, clk) ← ray_arena_str (clock t) (arena t) slen;
        let t := with_arena t a clk in
        if negb ok then Some (false, t) else
        s ← zset (strings t) id (Some sp);
        h ← ray_hash_bytes sp;
        b ← ht_insert (buckets t) (bucket_cap t) (u32 h) id;
        Some (true, with_ht (with_strings t s (str_count t) (clock t)) b (bucket_cap t) (clock t))
    end);
  if negb ok then Some (false, t) else Some (true, with_lazy t (Some (next_record (advance l slen)))).

Fixpoint materialize_loop (fuel : nat) t (target_id : Z) : option (bool * sym_table) :=
  match lazy t with
  | None => None
  | Some l =>
      if lazy_next_id l <=? target_id then
        match fuel with
        | O => None
        | S fuel => '(ok, t) ← materialize_next t l; if negb ok then Some (false, t) else materialize_loop fuel t target_id
        end
      else Some (true, t)
  end.
Definition sym_lazy_materialize_to_locked t (target_id : Z) : option (bool * sym_table) :=
  match lazy t with
  | None => Some (false, t)
  | Some l =>
      if lazy_count l <=? target_id then Some (false, t) else
      if target_id <? lazy_next_id l then s ← (strings t).[target_id]; Some (bool_decide (s ≠ None), t)
      else materialize_loop (Z.to_nat (target_id - lazy_next_id l + 1)) t target_id
  end.
Definition lazy_pending t : option lazy_file :=
  match lazy t with
  | Some l => if lazy_next_id l <? lazy_count l then Some l else None
  | None => None
  end.
Definition sym_lazy_unmap_locked t : sym_table := with_lazy t None.

(** The search of the interning functions: the whole file becomes atoms when
    the name is not in the table. [inr] is [return -1]. *)
Definition probe_or_materialize t (hash : Z) (str : name) (search_lazy : bool) : option (Z * sym_table + sym_table) :=
  existing ← sym_probe t hash str;
  match lazy_pending t with
  | Some l =>
      if search_lazy && (existing <? 0) then
        '(ok, t) ← sym_lazy_materialize_to_locked t (lazy_count l - 1);
        if negb ok then Some (inr t) else
        existing ← sym_probe t hash str;
        Some (inl (existing, t))
      else Some (inl (existing, t))
  | None => Some (inl (existing, t))
  end.

(** ** Interning *)
Definition sym_intern_nolock_noseg t (hash : Z) (str : name) : option (Z * sym_table) :=
  r ← probe_or_materialize t hash str true;
  match r with
  | inr t => Some (-1, t)
  | inl (existing, t) => if 0 <=? existing then Some (existing, t) else sym_commit_new t hash str
  end.

(** Phases B and C. [shape]: the number of segments and the segments, of a
    dotted name. *)
Definition intern_new t (hash : Z) (str : name) (shape : option (Z * list desc)) : option (Z * sym_table) :=
  let arena_bytes := ray_sym_bytes_upper (zlen str) +
    match shape with Some (nsegs, ds) => new_seg_bytes ds + segs_bytes nsegs | None => 0 end in
  let new_seg_count := match shape with Some (_, ds) => zlen (new_descs ds) | None => 0 end in
  '(ok, t) ← sym_reserve_capacity t (1 + new_seg_count) arena_bytes;
  if negb ok then Some (-1, t) else
  '(ids, t) ← (match shape with
    | Some (nsegs, ds) => if negb (zlen ds =? nsegs) then None else commit_segments t ds
    | None => Some (Some [], t)
    end);
  match ids with
  | None => Some (-1, t)
  | Some ids =>
      '(main_id, t) ← sym_commit_new t hash str;
      if main_id <? 0 then Some (-1, t) else
      match shape with
      | Some (nsegs, _) =>
          '(ok, a, clk) ← ray_arena_alloc (clock t) (arena t) (nsegs * 8);
          let t := with_arena t a clk in
          if negb ok then Some (main_id, t) else
          t ← store_segs t main_id nsegs ids;
          t ← set_scanned t main_id;
          Some (main_id, t)
      | None => t ← set_scanned t main_id; Some (main_id, t)
      end
  end.

Definition sym_intern_nolock t (hash : Z) (str : name) (search_lazy : bool) : option (Z * sym_table) :=
  r ← probe_or_materialize t hash str search_lazy;
  match r with
  | inr t => Some (-1, t)
  | inl (existing, t) =>
      if 0 <=? existing then '(_, t) ← sym_cache_segments t existing str; Some (existing, t) else
      shape ← (match dotted_shape str with
        | None => Some None
        | Some (nsegs, leading) =>
            ds ← scan_segments (Z.to_nat nsegs) t str 0 nsegs leading [];
            Some (ds ← ds; Some (nsegs, ds))
        end);
      intern_new t hash str shape
  end.

(** ** The public operations; [None] is an uninitialised table

    Of the codes of [ray_err_t] these operations return only five. *)
Inductive sym_err := SYM_OK | SYM_OOM | SYM_CORRUPT | SYM_IO | SYM_RANGE.

Definition BM_WORDS : Z := (SYM_INIT_CAP + 63) / 64.
(** The table before symbol 0: every array is a fresh, cleared mapping. *)
Definition sym_initial (a : arena_t) (clk : Z) : sym_table :=
  SymTable (replicate (Z.to_nat SYM_INIT_CAP) 0) SYM_INIT_CAP
    (replicate (Z.to_nat SYM_INIT_CAP) None) 0 SYM_INIT_CAP
    (replicate (Z.to_nat BM_WORDS) 0) (replicate (Z.to_nat BM_WORDS) 0)
    (replicate (Z.to_nat SYM_INIT_CAP) (Segs 0 None)) None a clk.
Definition ray_sym_init (clk : Z) : option (sym_err * option sym_table) :=
  let '(ok1, clk) := ray_sys_alloc clk (SYM_INIT_CAP * 8) in
  if negb ok1 then Some (SYM_OOM, None) else
  let '(ok2, clk) := ray_sys_alloc clk (SYM_INIT_CAP * 8) in
  if negb ok2 then Some (SYM_OOM, None) else
  let '(a, clk) := ray_arena_new clk (1024 * 1024) in
  match a with
  | None => Some (SYM_OOM, None)
  | Some a =>
      let '(ok3, clk) := ray_sys_alloc clk (BM_WORDS * 8) in
      let '(ok4, clk) := ray_sys_alloc clk (BM_WORDS * 8) in
      let '(ok5, clk) := ray_sys_alloc clk (SYM_INIT_CAP * 16) in
      if negb (ok3 && ok4 && ok5) then Some (SYM_OOM, None) else
      h ← ray_hash_bytes [];
      '(empty_id, t) ← sym_intern_nolock (sym_initial a clk) (u32 h) [] true;
      Some (if empty_id =? 0 then (SYM_OK, Some t) else (SYM_OOM, None))
  end.

Implicit Type g : option sym_table.

(** [return -1] (or another default) when not initialised. *)
Definition locked {A} g (dflt : A) (f : sym_table → option (A * sym_table)) : option (A * option sym_table) :=
  match g with
  | None => Some (dflt, None)
  | Some t => '(r, t) ← f t; Some (r, Some t)
  end.

Definition ray_sym_intern g (str : name) : option (Z * option sym_table) :=
  locked g (-1) (λ t, h ← ray_hash_bytes str; sym_intern_nolock t (u32 h) str true).
Definition ray_sym_intern_runtime g (str : name) : option (Z * option sym_table) :=
  locked g (-1) (λ t, h ← ray_hash_bytes str; sym_intern_nolock t (u32 h) str false).
Definition ray_sym_intern_prehashed g (hash : Z) (str : name) : option (Z * option sym_table) :=
  locked g (-1) (λ t, sym_intern_nolock t hash str true).
Definition ray_sym_intern_no_split g (str : name) : option (Z * option sym_table) :=
  locked g (-1) (λ t, h ← ray_hash_bytes str; sym_intern_nolock_noseg t (u32 h) str).

(** The loop of [ray_sym_rebuild_segments]: [false] once a caching failed. *)
Definition rebuild_one (i : Z) (st : bool * sym_table) : option (bool * sym_table) :=
  let '(ok, t) := st in
  if negb ok then Some (false, t) else
  seen ← get_bit (scanned t) i;
  if seen : bool then Some (true, t) else
  s ← (strings t).[i];
  match s with
  | None => Some (true, t)
  | Some s => sym_cache_segments t i s
  end.
Definition ray_sym_rebuild_segments g : option (sym_err * option sym_table) :=
  locked g SYM_IO (λ t,
    '(ok, t) ← foldM rebuild_one (range 0 (str_count t)) (true, t);
    Some (if ok : bool then SYM_OK else SYM_OOM, t)).

(** An index check that looks at the low 32 bits only. *)
Definition id_out t (id : Z) : bool := (id <? 0) || (str_count t <=? u32 id).

Definition ray_sym_is_dotted g (id : Z) : option bool :=
  match g with
  | None => Some false
  | Some t => if id_out t id then Some false else get_bit (dotted t) (u32 id)
  end.
(** [None] inside: the function answers 0. *)
Definition ray_sym_segs g (id : Z) : option (option (list Z)) :=
  match g with
  | None => Some None
  | Some t =>
      if id_out t id then Some None else
      s ← (segments t).[id];
      Some (if nsegs s =? 0 then None else segs s)
  end.

Definition ray_sym_find g (str : name) : option (Z * option sym_table) :=
  locked g (-1) (λ t,
    h ← ray_hash_bytes str;
    r ← sym_probe t (u32 h) str;
    match lazy_pending t with
    | Some l =>
        if r <? 0 then
          '(ok, t) ← sym_lazy_materialize_to_locked t (lazy_count l - 1);
          if negb ok then Some (-1, t) else r ← sym_probe t (u32 h) str; Some (r, t)
        else Some (r, t)
    | None => Some (r, t)
    end).

(** [None] inside: a null pointer. *)
Definition ray_sym_str g (id : Z) : option (option name * option sym_table) :=
  locked g None (λ t,
    if id_out t id then Some (None, t) else
    s ← (strings t).[id];
    match s, lazy t with
    | None, Some l =>
        if u32 id <? lazy_count l then
          '(ok, t) ← sym_lazy_materialize_to_locked t (u32 id);
          if negb ok then Some (None, t) else s ← (strings t).[id]; Some (s, t)
        else Some (None, t)
    | s, _ => Some (s, t)
    end).
Definition ray_sym_count g : Z := match g with None => 0 | Some t => str_count t end.

Definition ray_sym_strings_borrow g : option (list (option name) * option sym_table) :=
  locked g [] (λ t,
    '(_, t) ← (match lazy t with
      | Some l => if 0 <? lazy_count l then sym_lazy_materialize_to_locked t (lazy_count l - 1) else Some (false, t)
      | None => Some (false, t)
      end);
    Some (take (Z.to_nat (str_count t)) (strings t), t)).

(** ** Reserving capacity *)
Definition smear (x k : Z) : Z := Z.lor x (Z.shiftr x k).
Definition round_up_pow2 (x : Z) : Z :=
  u32 (smear (smear (smear (smear (smear (u32 (x - 1)) 1) 2) 4) 8) 16 + 1).

(** [(double)needed / 0.7 + 1.0], and its truncation. *)
Definition f64_of (z : Z) : spec_float := binary_normalize 53 1024 z 0 false.
Definition SYM_LOAD_FACTOR : spec_float := S754_finite false 6305039478318694 (-53).
Definition raw_buckets (needed : Z) : spec_float :=
  SFadd 53 1024 (SFdiv 53 1024 (f64_of needed) SYM_LOAD_FACTOR) (f64_of 1).
Definition trunc (f : spec_float) : Z :=
  match f with
  | S754_finite s m e => let v := if 0 <=? e then Z.shiftl (Zpos m) e else Z.shiftr (Zpos m) (- e) in if s then - v else v
  | _ => 0
  end.

Definition ensure_strings t (needed : Z) : bool * sym_table :=
  if needed <=? str_cap t then (true, t) else
  if UINT32_MAX / 2 <=? str_cap t then (false, t) else
  let new_str_cap := u32 (str_cap t * 2) in
  let new_str_cap := if new_str_cap <? needed then round_up_pow2 needed else new_str_cap in
  if new_str_cap =? 0 then (false, t) else sym_grow_str_cap t new_str_cap.

Definition ray_sym_ensure_cap g (needed : Z) : option (bool * option sym_table) :=
  locked g false (λ t,
    let '(ok, t) := ensure_strings t needed in
    if negb ok then Some (false, t) else
    if SFltb (f64_of UINT32_MAX) (raw_buckets needed) then Some (false, t) else
    let needed_buckets := round_up_pow2 (trunc (raw_buckets needed)) in
    if bucket_cap t <? needed_buckets then ht_grow_to t needed_buckets else Some (true, t)).

(** ** Snapshots *)
Definition strl_record (s : name) : list Z := le_enc 4 (zlen s) ++ s.
Fixpoint strl_records (l : list (option name)) : list Z + sym_err :=
  match l with
  | [] => inl []
  | None :: _ => inr SYM_CORRUPT
  | Some s :: l =>
      if UINT32_MAX <? zlen s then inr SYM_RANGE else
      match strl_records l with inl r => inl (strl_record s ++ r) | inr e => inr e end
  end.
(** The bytes [ray_sym_save] writes, or its error; [snap_ok]: the block for the
    array of pointers was allocated. The file operations are not modelled. *)
Definition ray_sym_save (snap_ok : bool) g : option ((list Z + sym_err) * option sym_table) :=
  locked g (inr SYM_IO) (λ t,
    '(ok, t) ← (match lazy t with
      | Some l => if 0 <? lazy_count l then sym_lazy_materialize_to_locked t (lazy_count l - 1) else Some (true, t)
      | None => Some (true, t)
      end);
    if negb ok then Some (inr SYM_CORRUPT, t) else
    if negb snap_ok then Some (inr SYM_OOM, t) else
    let snap := take (Z.to_nat (str_count t)) (strings t) in
    Some (match strl_records snap with
      | inl r => inl (le_enc 4 SYM_STRL_MAGIC ++ le_enc 8 (str_count t) ++ r)
      | inr e => inr e
      end, t)).

(** The loop over the entries [i], [i + 1], ... of a file; the inner [inr] is an
    error, else what remains of the file. *)
Fixpoint load_entries (n : nat) t (i : Z) (ptr : list Z) : option ((list Z + sym_err) * sym_table) :=
  match n with
  | O => Some (inl ptr, t)
  | S n =>
      if zlen ptr <? 4 then Some (inr SYM_CORRUPT, t) else
      bs ← rd 4 ptr;
      let slen := le_dec bs in
      let ptr := drop 4 ptr in
      if zlen ptr <? slen then Some (inr SYM_CORRUPT, t) else
      sp ← rd (Z.to_nat slen) ptr;
      h ← ray_hash_bytes sp;
      '(id, t) ← sym_intern_nolock_noseg t (u32 h) sp;
      if id <? 0 then Some (inr SYM_OOM, t) else
      if negb (id =? i) then Some (inr SYM_CORRUPT, t) else
      load_entries n t (i + 1) (drop (Z.to_nat slen) ptr)
  end.

Definition load_lazy t (mapped : list Z) (disk_u : Z) : option (sym_err * sym_table) :=
  let current := str_count t in
  let target_count := Z.max current disk_u in
  '(ok, t) ← (if current <? target_count then sym_reserve_capacity t (target_count - current) 0 else Some (true, t));
  if negb ok then Some (SYM_OOM, t) else
  let cleared := if current <? disk_u
    then take (Z.to_nat current) (strings t) ++ replicate (Z.to_nat (disk_u - current)) None
           ++ drop (Z.to_nat disk_u) (strings t)
    else strings t in
  let t := with_lazy (with_strings t cleared target_count (clock t))
             (Some (Lazy mapped disk_u 0 12 (zlen mapped - 12))) in
  let validate_count := Z.min current disk_u in
  '(ok, t) ← (if validate_count =? 0 then Some (true, t) else sym_lazy_materialize_to_locked t (validate_count - 1));
  if negb ok then Some (SYM_CORRUPT, sym_lazy_unmap_locked t) else Some (SYM_OK, t).

Definition load_eager t (mapped : list Z) (disk_count : Z) : option (sym_err * sym_table) :=
  '(r, t) ← load_entries (Z.to_nat disk_count) t 0 (drop 12 mapped);
  match r with
  | inr e => Some (e, t)
  | inl rest =>
      if negb (zlen rest =? 0) then Some (SYM_CORRUPT, t) else
      '(e, g) ← ray_sym_rebuild_segments (Some t);
      match g with Some t => Some (e, t) | None => None end
  end.

(** [mapped]: the contents of the file. *)
Definition ray_sym_load g (mapped : list Z) : option (sym_err * option sym_table) :=
  locked g SYM_IO (λ t,
    if zlen mapped <? 12 then Some (SYM_CORRUPT, t) else
    magic ← rd 4 mapped;
    if negb (le_dec magic =? SYM_STRL_MAGIC) then Some (SYM_CORRUPT, t) else
    bs ← rd 8 (drop 4 mapped);
    let disk_count := s64 (le_dec bs) in
    if (disk_count <? 0) || (UINT32_MAX <? disk_count) then Some (SYM_CORRUPT, t) else
    if SYM_LAZY_LOAD_MIN_BYTES <=? zlen mapped then load_lazy t mapped disk_count
    else load_eager t mapped disk_count).
End sym.
