(* ===== verification/SymRing.v ===== *)
(** * The open-addressing table: linear probing on a ring of [2^k] buckets

    [ring_ok n b]: every occupied bucket is reached from the home slot of its
    hash through occupied buckets only. The contents of a table are its
    [entries], up to order. *)

From S2P Require Import Prelude Hash Arena Sym.
From S2P Require Import HashProofs.
Local Open Scope Z_scope.

(** ** Entries *)
Lemma lor_high a b n : 0 ≤ n → 0 ≤ b < 2 ^ n → Z.lor (Z.shiftl a n) b = a * 2 ^ n + b.
Proof.
  intros Hn Hb. rewrite <- Z.shiftl_mul_pow2 by done.
  assert (Hl : Z.land (Z.shiftl a n) b = 0).
  { apply Z.bits_inj'. intros i Hi. rewrite Z.land_spec, Z.bits_0.
    destruct (Z.lt_ge_cases i n).
    - by rewrite Z.shiftl_spec_low by lia.
    - destruct (decide (b = 0)) as [->|]; [by rewrite Z.bits_0, andb_false_r|].
      assert (Z.log2 b < n) by (apply Z.log2_lt_pow2; lia).
      by rewrite (Z.bits_above_log2 b), andb_false_r by lia. }
  pose proof (Z.add_lor_land (Z.shiftl a n) b). lia.
Qed.

Definition entry_ok (e : Z) : Prop := ∃ h id, in_u 32 h ∧ 0 ≤ id < 2 ^ 32 - 1 ∧ e = bucket_entry h id.
Lemma bucket_entry_eq h id : in_u 32 h → 0 ≤ id < 2 ^ 32 - 1 → bucket_entry h id = h * 2 ^ 32 + (id + 1).
Proof.
  intros Hh Hid. unfold bucket_entry, in_u in *.
  rewrite (wrap_id 32) by (unfold in_u; lia).
  rewrite wrap_id; [by apply lor_high; lia|].
  unfold in_u. rewrite Z.shiftl_mul_pow2 by lia. lia.
Qed.
Lemma entry_fields h id : in_u 32 h → 0 ≤ id < 2 ^ 32 - 1 →
  entry_hash (bucket_entry h id) = h ∧ entry_id (bucket_entry h id) = id ∧ bucket_entry h id ≠ 0.
Proof.
  intros Hh Hid. rewrite bucket_entry_eq by done. unfold entry_hash, entry_id, in_u in *.
  change 0xFFFFFFFF with (Z.ones 32). rewrite Z.shiftr_div_pow2, Z.land_ones by lia.
  assert ((h * 2 ^ 32 + (id + 1)) / 2 ^ 32 = h) as -> by (Z.to_euclidean_division_equations; lia).
  assert ((h * 2 ^ 32 + (id + 1)) mod 2 ^ 32 = id + 1) as -> by (Z.to_euclidean_division_equations; lia).
  rewrite !wrap_id by (unfold in_u; lia). lia.
Qed.
Lemma entry_ok_again e : entry_ok e → bucket_entry (entry_hash e) (entry_id e) = e.
Proof. intros (h & id & Hh & Hid & ->). destruct (entry_fields h id) as (-> & -> & _); done. Qed.

(** ** The ring *)
Definition occupied (b : list Z) (p : Z) : Prop := ∃ e, b.[p] = Some e ∧ e ≠ 0.
Definition entries (b : list Z) : list Z := List.filter (λ e, negb (e =? 0)) b.
Definition chain (n : Z) (b : list Z) (h p : Z) : Prop :=
  ∃ d, 0 ≤ d < n ∧ p = (h + d) mod n ∧ ∀ j, 0 ≤ j < d → occupied b ((h + j) mod n).
Definition ring_ok (n : Z) (b : list Z) : Prop :=
  zlen b = n ∧ ∀ p e, b.[p] = Some e → e ≠ 0 → chain n b (entry_hash e) p.
Definition pow2 (lo hi n : Z) : Prop := ∃ k, lo ≤ k ≤ hi ∧ n = 2 ^ k.

Lemma ring_pow2_pos lo hi n : 0 ≤ lo → pow2 lo hi n → 0 < n.
Proof. intros Hlo (k & Hk & ->). apply Z.pow_pos_nonneg; lia. Qed.
Lemma pow2_bounds lo hi n : 0 ≤ lo → pow2 lo hi n → 2 ^ lo ≤ n ≤ 2 ^ hi.
Proof. intros Hlo (k & Hk & ->). split; apply Z.pow_le_mono_r; lia. Qed.
Lemma land_mask lo hi n x : 0 ≤ lo → pow2 lo hi n → Z.land x (n - 1) = x mod n.
Proof.
  intros Hlo (k & Hk & ->). rewrite <- Z.land_ones by lia. by rewrite Z.ones_equiv, Z.sub_1_r.
Qed.

Lemma elem_entries e b : e ∈ entries b ↔ e ∈ b ∧ e ≠ 0.
Proof.
  unfold entries. rewrite !list_elem_of_In, filter_In. split; intros [H1 H2]; (split; [done|]).
  - intros ->. done.
  - by destruct (Z.eqb_spec e 0).
Qed.
Lemma entries_app b c : entries (b ++ c) = entries b ++ entries c.
Proof. apply List.filter_app. Qed.
Lemma entries_single e : entries [e] = if e =? 0 then [] else [e].
Proof. unfold entries. cbn. by destruct (e =? 0). Qed.
Lemma zlen_entries_replicate n : entries (replicate n 0) = [].
Proof. induction n; done. Qed.
Lemma entries_insert b p e : b.[p] = Some 0 → e ≠ 0 → entries (<[Z.to_nat p := e]> b) ≡ₚ e :: entries b.
Proof.
  intros Hp He. pose proof (zget_Some _ _ _ Hp). rewrite zget_nat in Hp by lia.
  revert Hp. generalize (Z.to_nat p). clear H. induction b as [|x b IH]; intros [|i] Hi; [done..| |].
  - injection Hi as ->. unfold entries. cbn. destruct (Z.eqb_spec e 0); [done|]. done.
  - cbn in Hi |- *. unfold entries in *. cbn. specialize (IH _ Hi). destruct (x =? 0); cbn; [done|].
    rewrite IH. apply Permutation_swap.
Qed.
Lemma entries_full b : zlen (entries b) < zlen b → ∃ p, b.[p] = Some 0.
Proof.
  induction b as [|x b IH]; [done|]. unfold entries in *. cbn. destruct (Z.eqb_spec x 0) as [->|]; cbn.
  - intros _. by exists 0.
  - rewrite !zlen_cons. intros Hl. destruct IH as [p Hp]; [lia|]. pose proof (zget_Some _ _ _ Hp).
    exists (p + 1). rewrite zget_cons_S by lia. by rewrite Z.add_simpl_r.
Qed.

(** A probe from [h] meets an empty bucket within [n] steps. *)
Lemma first_empty n b h : 0 < n → zlen b = n → zlen (entries b) < n →
  ∃ d, 0 ≤ d < n ∧ b.[(h + d) mod n] = Some 0 ∧ ∀ j, 0 ≤ j < d → occupied b ((h + j) mod n).
Proof.
  intros Hn Hb Hl. destruct (entries_full b) as [p Hp]; [lia|]. pose proof (zget_Some _ _ _ Hp) as Hpb.
  assert (H0 : ∃ d, 0 ≤ d < n ∧ b.[(h + d) mod n] = Some 0).
  { exists ((p - h) mod n). split; [apply Z.mod_pos_bound; lia|].
    rewrite Zplus_mod_idemp_r, Z.mod_small by lia. by replace (h + (p - h)) with p by lia. }
  clear p Hp Hpb. destruct H0 as (d & Hd & H0). remember (Z.to_nat d) as m eqn:Hm.
  revert d Hd H0 Hm. induction (lt_wf m) as [m _ IH]; intros d Hd H0 ->.
  destruct (decide (Exists (λ j, b.[(h + j) mod n] = Some 0) (range 0 d))) as [He|He].
  - apply Exists_exists in He as (j & Hj%elem_of_range & Hj0).
    eapply IH; [|idtac|exact Hj0|reflexivity]; lia.
  - exists d. split; [done|]. split; [done|]. intros j Hj.
    destruct (zget_is_Some b ((h + j) mod n)) as [e He']; [rewrite Hb; apply Z.mod_pos_bound; lia|].
    exists e. split; [done|]. intros ->. apply He, Exists_exists. exists j. by rewrite elem_of_range.
Qed.

Lemma occupied_insert b p e q : b.[p] = Some 0 → e ≠ 0 → occupied b q ∨ q = p → occupied (<[Z.to_nat p := e]> b) q.
Proof.
  intros Hp He Hq. pose proof (zget_Some _ _ _ Hp). unfold occupied. rewrite zget_insert by done.
  destruct (Z.eqb_spec p q) as [->|Hne]; [by exists e|]. destruct Hq as [Hq|]; [done|congruence].
Qed.

(** One step of a probe along the ring. *)
Lemma probe_slot lo hi n h j : 0 ≤ lo → pow2 lo hi n → Z.land ((h + j) mod n + 1) (n - 1) = (h + (j + 1)) mod n.
Proof.
  intros Hlo Hn. rewrite (land_mask lo hi) by done. rewrite Zplus_mod_idemp_l. f_equal. lia.
Qed.

Section insert.
Context (lo hi n : Z) (Hlo : 0 ≤ lo) (Hpow : pow2 lo hi n).

Lemma insert_from_spec fuel b h e d j :
  zlen b = n → 0 ≤ j ≤ d → d - j < Z.of_nat fuel → b.[(h + d) mod n] = Some 0 →
  (∀ i, j ≤ i < d → occupied b ((h + i) mod n)) →
  ht_insert_from fuel b (n - 1) ((h + j) mod n) e = Some (<[Z.to_nat ((h + d) mod n) := e]> b).
Proof.
  pose proof (ring_pow2_pos _ _ _ Hlo Hpow) as Hpos. intros Hb.
  revert j. induction fuel as [|fuel IH]; intros j Hj Hf H0 Hocc; [lia|]. cbn [ht_insert_from].
  destruct (decide (j = d)) as [->|Hne].
  - rewrite H0. cbn. apply zset_Some. rewrite Hb. by apply Z.mod_pos_bound.
  - destruct (Hocc j) as (x & Hx & Hx0); [lia|]. rewrite Hx. cbn [mbind option_bind].
    destruct (Z.eqb_spec x 0); [done|]. rewrite (probe_slot lo hi) by done.
    apply IH; [lia..|done|]. intros i Hi. apply Hocc. lia.
Qed.

Lemma ht_insert_spec b h id :
  ring_ok n b → zlen (entries b) < n → in_u 32 h → 0 ≤ id < 2 ^ 32 - 1 →
  ∃ b', ht_insert b n h id = Some b' ∧ ring_ok n b' ∧ entries b' ≡ₚ bucket_entry h id :: entries b.
Proof.
  intros [Hb Hch] Hl Hh Hid. pose proof (ring_pow2_pos _ _ _ Hlo Hpow) as Hpos.
  destruct (entry_fields h id Hh Hid) as (Heh & _ & He0).
  destruct (first_empty n b h Hpos Hb Hl) as (d & Hd & H0 & Hocc).
  unfold ht_insert. rewrite (land_mask lo hi) by done.
  replace (h mod n) with ((h + 0) mod n) by (f_equal; lia).
  rewrite (insert_from_spec _ b h _ d 0) by (auto with lia).
  eexists. split; [done|]. split; [|by apply entries_insert]. split; [by rewrite zlen_insert|].
  assert (Hpb : 0 ≤ (h + d) mod n < zlen b) by (rewrite Hb; by apply Z.mod_pos_bound).
  intros q e. rewrite zget_insert by done. destruct (Z.eqb_spec ((h + d) mod n) q) as [Hq|Hq].
  - intros [= <-] _. rewrite Heh. exists d. split; [done|]. split; [done|].
    intros j Hj. apply occupied_insert; [done..|]. left. by apply Hocc.
  - intros He Hne. destruct (Hch q e He Hne) as (d' & Hd' & -> & Hocc').
    exists d'. split; [done|]. split; [done|]. intros j Hj. apply occupied_insert; [done..|]. left. by apply Hocc'.
Qed.

(** Rehashing keeps the entries. *)
Lemma rehash_spec b :
  Forall entry_ok (entries b) → zlen (entries b) < n →
  ∃ b', foldM (λ i nb, e ← b.[i]; if e =? 0 then Some nb else ht_insert nb n (entry_hash e) (entry_id e))
          (range 0 (zlen b)) (replicate (Z.to_nat n) 0) = Some b' ∧
        ring_ok n b' ∧ entries b' ≡ₚ entries b.
Proof.
  intros Hok Hl. pose proof (ring_pow2_pos _ _ _ Hlo Hpow) as Hpos. pose proof (zlen_nonneg b).
  edestruct (foldM_range (λ i nb, e ← b.[i]; if e =? 0 then Some nb else ht_insert nb n (entry_hash e) (entry_id e))
    (λ i nb, ring_ok n nb ∧ entries nb ≡ₚ entries (take (Z.to_nat i) b)) 0 (zlen b))
    as (b' & -> & Hr & Hp); [done| | |].
  - split; [|by rewrite zlen_entries_replicate]. split; [rewrite zlen_replicate; lia|].
    intros p e He Hne. apply zget_elem, elem_of_replicate in He as [-> _]. done.
  - intros i nb Hi [Hr Hp]. destruct (zget_is_Some b i) as [e He]; [done|].
    rewrite He. cbn [mbind option_bind]. pose proof He as He'. rewrite zget_nat in He' by lia.
    assert (Ht : entries (take (Z.to_nat (i + 1)) b) = entries (take (Z.to_nat i) b) ++ entries [e]).
    { replace (Z.to_nat (i + 1)) with (S (Z.to_nat i)) by lia. rewrite (take_S_r _ _ _ He').
      apply entries_app. }
    assert (Hle : zlen (entries (take (Z.to_nat (i + 1)) b)) ≤ zlen (entries b)).
    { rewrite <- (take_drop (Z.to_nat (i + 1)) b) at 2. rewrite entries_app, zlen_app.
      pose proof (zlen_nonneg (entries (drop (Z.to_nat (i + 1)) b))). lia. }
    rewrite Ht in *. rewrite entries_single in *. clear Ht. destruct (Z.eqb_spec e 0).
    + exists nb. split; [done|]. split; [done|]. by rewrite app_nil_r.
    + assert (Hle' : zlen (entries nb) < n).
      { rewrite zlen_app, zlen_cons, zlen_nil in Hle. apply Permutation_length in Hp.
        unfold zlen in *. lia. }
      assert (Heok : entry_ok e).
      { rewrite Forall_forall in Hok. apply Hok, elem_entries. split; [by eapply zget_elem|done]. }
      pose proof (entry_ok_again e Heok) as Hag. destruct Heok as (h & id & Hh & Hid & ->).
      destruct (entry_fields h id Hh Hid) as (E1 & E2 & _). rewrite E1, E2.
      destruct (ht_insert_spec nb h id) as (b' & -> & Hr' & Hp'); [done..|].
      exists b'. split; [done|]. split; [done|]. rewrite Hp', Hp. by rewrite Permutation_app_comm.
  - exists b'. split; [done|]. split; [done|]. by rewrite Hp, take_ge by (unfold zlen; lia).
Qed.
End insert.

(** * The table of names: lookup, insertion and growth

    The abstraction of a table is the list of its [names]; [wf_ht] ties the
    buckets to it. *)
(** ** The buckets a list of names calls for *)
Fixpoint expected (k : Z) (l : list (option name)) : list Z :=
  match l with
  | [] => []
  | None :: l => expected (k + 1) l
  | Some s :: l => bucket_entry (hash32 s) k :: expected (k + 1) l
  end.

Lemma expected_app k a b : expected k (a ++ b) = expected k a ++ expected (k + zlen a) b.
Proof.
  revert k. induction a as [|[s|] a IH]; intros k; cbn.
  - by rewrite zlen_nil, Z.add_0_r.
  - f_equal. rewrite IH. do 2 f_equal. rewrite zlen_cons. lia.
  - rewrite IH. do 2 f_equal. rewrite zlen_cons. lia.
Qed.
Lemma elem_expected e k l :
  e ∈ expected k l ↔ ∃ i s, l.[i] = Some (Some s) ∧ e = bucket_entry (hash32 s) (k + i).
Proof.
  revert k. induction l as [|o l IH]; intros k.
  - split; [by intros ?%not_elem_of_nil|]. intros (i & s & Hi%zget_elem & _). by apply not_elem_of_nil in Hi.
  - assert (Ht : e ∈ expected (k + 1) l ↔ ∃ i s, 0 < i ∧ (o :: l).[i] = Some (Some s) ∧ e = bucket_entry (hash32 s) (k + i)).
    { rewrite IH. split; intros (i & s & Hi).
      - destruct Hi as [Hi ->]. pose proof (zget_Some _ _ _ Hi). exists (i + 1), s.
        rewrite zget_cons_S, Z.add_simpl_r by lia. split; [lia|]. split; [done|]. f_equal. lia.
      - destruct Hi as (Hp & Hi & ->). exists (i - 1), s. rewrite zget_cons_S in Hi by done.
        split; [done|]. f_equal. lia. }
    destruct o as [x|]; cbn [expected]; [rewrite elem_of_cons|]; rewrite Ht.
    + split.
      * intros [->|(i & s & _ & Hi)]; [|by exists i, s]. exists 0, x. by rewrite Z.add_0_r.
      * intros (i & s & Hi & ->). destruct (decide (i = 0)) as [->|Hne].
        -- injection Hi as ->. left. by rewrite Z.add_0_r.
        -- right. exists i, s. pose proof (zget_Some _ _ _ Hi). split; [lia|done].
    + split; intros (i & s & Hi); [exists i, s; tauto|]. destruct Hi as [Hi ->]. exists i, s.
      pose proof (zget_Some _ _ _ Hi). destruct (decide (i = 0)) as [->|]; [done|]. split; [lia|done].
Qed.
Lemma zlen_expected k l : zlen (expected k l) ≤ zlen l.
Proof. revert k. induction l as [|[s|] l IH]; intros k; cbn; [done| |]; rewrite ?zlen_cons; specialize (IH (k + 1)); lia. Qed.
Lemma expected_fill k l i s :
  l.[i] = Some None → expected k (<[Z.to_nat i := Some s]> l) ≡ₚ bucket_entry (hash32 s) (k + i) :: expected k l.
Proof.
  revert k i. induction l as [|o l IH]; intros k i Hi; pose proof (zget_Some _ _ _ Hi) as Hb; [unfold zlen in Hb; simpl in Hb; lia|].
  destruct (decide (i = 0)) as [->|Hne].
  - injection Hi as ->. cbn. by rewrite Z.add_0_r.
  - rewrite zget_cons_S in Hi by lia. replace (Z.to_nat i) with (S (Z.to_nat (i - 1))) by lia. cbn.
    assert (H1 : expected (k + 1) (<[Z.to_nat (i - 1):=Some s]> l) ≡ₚ
            bucket_entry (hash32 s) (k + i) :: expected (k + 1) l).
    { rewrite (IH (k + 1) (i - 1)) by done. by replace (k + 1 + (i - 1)) with (k + i) by lia. }
    destruct o as [x|]; cbn; rewrite H1; [apply Permutation_swap|done].
Qed.

(** ** Bucket arrays that index a list of names *)
Definition MAX_SYMS : Z := 2 ^ 31.
Definition wf_ht (n : Z) (b : list Z) (l : list (option name)) : Prop :=
  pow2 8 31 n ∧ ring_ok n b ∧ entries b ≡ₚ expected 0 l ∧ zlen l < n ∧ zlen l ≤ MAX_SYMS.

Section wf_ht.
Context (n : Z) (b : list Z) (l : list (option name)) (Hwf : wf_ht n b l).

Lemma wf_ht_entries : zlen (entries b) < n.
Proof.
  destruct Hwf as (_ & _ & Hp & Hl & _). apply Permutation_length in Hp.
  pose proof (zlen_expected 0 l). unfold zlen in *. lia.
Qed.
Lemma wf_ht_entry p e : b.[p] = Some e → e ≠ 0 →
  ∃ id s, l.[id] = Some (Some s) ∧ e = bucket_entry (hash32 s) id ∧ 0 ≤ id < MAX_SYMS.
Proof.
  intros He Hne. destruct Hwf as (_ & _ & Hp & _ & Hm).
  assert (Hin : e ∈ expected 0 l) by (rewrite <- Hp; apply elem_entries; split; [by eapply zget_elem|done]).
  apply elem_expected in Hin as (i & s & Hi & ->). exists i, s. pose proof (zget_Some _ _ _ Hi). split; [done|].
  split; [by rewrite Z.add_0_l|lia].
Qed.
Lemma wf_ht_fields s id : l.[id] = Some (Some s) →
  entry_hash (bucket_entry (hash32 s) id) = hash32 s ∧ entry_id (bucket_entry (hash32 s) id) = id ∧
  bucket_entry (hash32 s) id ≠ 0.
Proof.
  intros Hi%zget_Some. destruct Hwf as (_ & _ & _ & _ & Hm). unfold MAX_SYMS in Hm.
  apply entry_fields; [apply hash32_range|lia].
Qed.
Lemma wf_ht_present s id : l.[id] = Some (Some s) →
  ∃ p, b.[p] = Some (bucket_entry (hash32 s) id) ∧ chain n b (hash32 s) p.
Proof.
  intros Hi. destruct (wf_ht_fields s id Hi) as (E1 & E2 & E3). destruct Hwf as (_ & [_ Hch] & Hp & _).
  assert (Hin : bucket_entry (hash32 s) id ∈ entries b)
    by (rewrite Hp; apply elem_expected; by exists id, s).
  apply elem_entries in Hin as [Hin _]. apply elem_zget in Hin as (p & _ & Hpe). exists p. split; [done|].
  rewrite <- E1. by apply (Hch p).
Qed.
Lemma wf_ht_ok : Forall entry_ok (entries b).
Proof.
  apply Forall_forall. intros e [Hin Hne]%elem_entries. apply elem_zget in Hin as (p & _ & He).
  destruct (wf_ht_entry p e He Hne) as (id & s & Hi & -> & Hid). exists (hash32 s), id.
  split; [apply hash32_range|]. split; [unfold MAX_SYMS in *; lia|done].
Qed.

(** Growing the bucket array. *)
Lemma wf_ht_rehash n' : pow2 8 31 n' → zlen l < n' →
  ∃ b', foldM (λ i nb, e ← b.[i]; if e =? 0 then Some nb else ht_insert nb n' (entry_hash e) (entry_id e))
          (range 0 n) (replicate (Z.to_nat n') 0) = Some b' ∧ wf_ht n' b' l.
Proof.
  intros Hn' Hlt. pose proof Hwf as (_ & [Hb _] & Hp & _ & Hm). rewrite <- Hb.
  destruct (rehash_spec 8 31 n' ltac:(lia) Hn' b wf_ht_ok) as (b' & -> & Hr & Hp').
  { pose proof (zlen_expected 0 l). apply Permutation_length in Hp. unfold zlen in *. lia. }
  exists b'. split; [done|]. do 2 (split; [done|]). split; [by rewrite Hp'|done].
Qed.
(** Indexing a new name. *)
Lemma wf_ht_insert s id l' :
  0 ≤ id < MAX_SYMS → zlen l' < n → zlen l' ≤ MAX_SYMS →
  expected 0 l' ≡ₚ bucket_entry (hash32 s) id :: expected 0 l →
  ∃ b', ht_insert b n (hash32 s) id = Some b' ∧ wf_ht n b' l'.
Proof.
  intros Hid Hl' Hm' He. pose proof Hwf as (Hn & Hr & Hp & _ & _).
  destruct (ht_insert_spec 8 31 n ltac:(lia) Hn b (hash32 s) id) as (b' & -> & Hr' & Hp');
    [done|apply wf_ht_entries|apply hash32_range|unfold MAX_SYMS in *; lia|].
  exists b'. split; [done|]. do 2 (split; [done|]). split; [by rewrite Hp', He, Hp|done].
Qed.
End wf_ht.

(** ** Lookup *)
Definition names (t : sym_table) : list (option name) := take (Z.to_nat (str_count t)) (strings t).
(** What a search for [s] may answer. *)
Definition found (l : list (option name)) (s : name) (r : Z) : Prop :=
  (r = -1 ∧ Some s ∉ l) ∨ l.[r] = Some (Some s).

Section probe.
Context `{SysMem} (t : sym_table) (Hwf : wf_ht (bucket_cap t) (buckets t) (names t)).
Let n := bucket_cap t.
Let b := buckets t.

Lemma names_strings id o : (names t).[id] = Some o → (strings t).[id] = Some o.
Proof.
  intros Hi. unfold names in Hi. pose proof (zget_Some _ _ _ Hi) as Hb. rewrite zlen_take in Hb.
  by rewrite zget_take in Hi by lia.
Qed.

Lemma probe_from_spec (fuel : nat) (str : name) (d j : Z) :
  0 ≤ j ≤ d → d - j < Z.of_nat fuel → b.[(hash32 str + d) mod n] = Some 0 →
  (∀ i, 0 ≤ i < d → occupied b ((hash32 str + i) mod n)) →
  ∃ r, probe_from fuel t (n - 1) (hash32 str) ((hash32 str + j) mod n) str = Some r ∧
    ((r = -1 ∧ ∀ i id, j ≤ i < d → (names t).[id] = Some (Some str) →
        b.[(hash32 str + i) mod n] ≠ Some (bucket_entry (hash32 str) id)) ∨
     (names t).[r] = Some (Some str)).
Proof.
  assert (Hpow : pow2 8 31 n) by apply Hwf.
  revert j. induction fuel as [|fuel IH]; intros j Hj Hf H0 Hocc; [lia|]. cbn [probe_from]. fold b.
  destruct (decide (j = d)) as [->|Hne].
  { rewrite H0. cbn. exists (-1). split; [done|]. left. split; [done|]. lia. }
  destruct (Hocc j) as (e & He & He0); [lia|]. rewrite He. cbn [mbind option_bind].
  destruct (Z.eqb_spec e 0); [done|]. rewrite (probe_slot 8 31) by done.
  destruct (wf_ht_entry _ _ _ Hwf _ _ He He0) as (id & s & Hid & -> & Hidb).
  destruct (wf_ht_fields _ _ _ Hwf s id Hid) as (E1 & E2 & _). rewrite E1, E2.
  destruct (IH (j + 1)) as (r & Hr & Hres); [lia..|done|done|].
  assert (Hnext : s ≠ str → ∃ r, probe_from fuel t (n - 1) (hash32 str) ((hash32 str + (j + 1)) mod n) str = Some r ∧
    ((r = -1 ∧ ∀ i id, j ≤ i < d → (names t).[id] = Some (Some str) →
        b.[(hash32 str + i) mod n] ≠ Some (bucket_entry (hash32 str) id)) ∨
     (names t).[r] = Some (Some str))).
  { intros Hs. exists r. split; [done|]. destruct Hres as [[-> Hres]|Hres]; [left|by right].
    split; [done|]. intros i id' Hi Hid'. destruct (decide (i = j)) as [->|]; [|apply Hres; [lia|done]].
    rewrite He. intros [= Heq]. destruct (wf_ht_fields _ _ _ Hwf str id' Hid') as (_ & E3 & _).
    rewrite <- Heq, E2 in E3. subst id'. rewrite Hid in Hid'. congruence. }
  destruct (Z.eqb_spec (hash32 s) (hash32 str)) as [Hh|Hh]; [|apply Hnext; congruence].
  rewrite (names_strings _ _ Hid). cbn [mjoin option_join mbind option_bind].
  destruct (decide (s = str)) as [->|Hs].
  - rewrite Z.eqb_refl, bool_decide_eq_true_2 by done. cbn [andb]. exists id. split; [done|]. by right.
  - rewrite (bool_decide_eq_false_2 (s = str)) by done. rewrite andb_false_r. by apply Hnext.
Qed.

Lemma sym_probe_spec (str : name) : ∃ r, sym_probe t (hash32 str) str = Some r ∧ found (names t) str r.
Proof.
  assert (Hpow : pow2 8 31 n) by apply Hwf. pose proof (ring_pow2_pos 8 31 n ltac:(lia) Hpow) as Hpos.
  assert (Hb : zlen b = n) by apply Hwf.
  destruct (first_empty n b (hash32 str) Hpos Hb (wf_ht_entries _ _ _ Hwf)) as (d & Hd & H0 & Hocc).
  unfold sym_probe. fold n. rewrite (land_mask 8 31) by (lia || done).
  replace (hash32 str mod n) with ((hash32 str + 0) mod n) by (f_equal; lia).
  destruct (probe_from_spec (Z.to_nat n) str d 0) as (r & -> & Hr); [lia..|done|done|].
  exists r. split; [done|]. destruct Hr as [[-> Hr]|Hr]; [left|by right]. split; [done|].
  intros (id & _ & Hid)%elem_zget. destruct (wf_ht_present _ _ _ Hwf str id Hid) as (p & Hp & d' & Hd' & -> & Hocc').
  destruct (decide (d' < d)); [by eapply (Hr d'); [lia|done|]|].
  destruct (wf_ht_fields _ _ _ Hwf str id Hid) as (_ & _ & He0).
  destruct (decide (d' = d)) as [->|]; [unfold n, b in *; congruence|].
  destruct (Hocc' d) as (e & He & Hne); [lia|]. unfold n, b in *. congruence.
Qed.
End probe.
