(* ===== verification/SymInv.v ===== *)
(** * The invariant of the symbol table

    Reference definition of the segments of a dotted name, bitmaps as
    predicates, and what holds of a table between two operations. *)

From S2P Require Import Prelude Hash HashProofs Arena Sym SymRing.
Local Open Scope Z_scope.

(** ** Segments of a name, declaratively

    The pieces between dots; a leading dot belongs to the first piece. *)
Fixpoint split_dots (s : name) : list name :=
  match s with
  | [] => [[]]
  | c :: s =>
      if c =? DOT then [] :: split_dots s
      else match split_dots s with p :: ps => (c :: p) :: ps | [] => [[c]] end
  end.
Definition pieces (s : name) : list name :=
  match split_dots s with
  | [] :: p :: ps => (DOT :: p) :: ps
  | ps => ps
  end.
Definition ref_segments (s : name) : option (list name) :=
  let ps := pieces s in
  if (2 <=? zlen ps) && (zlen ps <=? 255) && forallb (λ p, negb (bool_decide (p = []))) ps then Some ps else None.

(** ** Bitmaps *)
Definition bit (words : list Z) (id : Z) : bool :=
  match words.[Z.shiftr id 6] with Some w => Z.testbit w (Z.land id 63) | None => false end.

Lemma land63 id : Z.land id 63 = id mod 64.
Proof. change 63 with (Z.ones 6). by rewrite Z.land_ones. Qed.
Lemma shiftr6 id : Z.shiftr id 6 = id / 64.
Proof. by rewrite Z.shiftr_div_pow2. Qed.
Lemma land_bit w k : 0 ≤ k → negb (Z.land w (Z.shiftl 1 k) =? 0) = Z.testbit w k.
Proof.
  intros Hk. rewrite Z.shiftl_1_l.
  assert (Z.land w (2 ^ k) = if Z.testbit w k then 2 ^ k else 0) as ->.
  { apply Z.bits_inj'. intros i Hi. rewrite Z.land_spec.
    destruct (decide (i = k)) as [->|Hne].
    - rewrite Z.pow2_bits_true, andb_true_r by done. destruct (Z.testbit w k); [|by rewrite Z.bits_0].
      by rewrite Z.pow2_bits_true.
    - rewrite Z.pow2_bits_false, andb_false_r by done. destruct (Z.testbit w k); [|by rewrite Z.bits_0].
      by rewrite Z.pow2_bits_false. }
  pose proof (Z.pow_pos_nonneg 2 k). destruct (Z.testbit w k); destruct (Z.eqb_spec (2 ^ k) 0); (done || lia).
Qed.

Section bits.
Context (words : list Z) (id : Z) (Hid : 0 ≤ id < 64 * zlen words).

Lemma bit_word : ∃ w, words.[Z.shiftr id 6] = Some w.
Proof. apply zget_is_Some. rewrite shiftr6. Z.to_euclidean_division_equations. lia. Qed.
Lemma get_bit_spec : get_bit words id = Some (bit words id).
Proof.
  unfold get_bit, bit. destruct bit_word as [w ->]. cbn. rewrite land_bit; [done|].
  rewrite land63. apply Z.mod_pos_bound. lia.
Qed.
Lemma set_bit_spec : ∃ words', set_bit words id = Some words' ∧ zlen words' = zlen words ∧
  ∀ j, 0 ≤ j → bit words' j = (j =? id) || bit words j.
Proof.
  unfold set_bit. destruct bit_word as [w Hw]. rewrite Hw. cbn [mbind option_bind].
  pose proof (zget_Some _ _ _ Hw) as Hb. rewrite zset_Some by done. eexists. split; [done|].
  split; [by rewrite zlen_insert|]. intros j Hj. unfold bit. rewrite zget_insert by done.
  pose proof (Z.mod_pos_bound id 64 ltac:(lia)). pose proof (Z.mod_pos_bound j 64 ltac:(lia)).
  destruct (Z.eqb_spec (Z.shiftr id 6) (Z.shiftr j 6)) as [Heq|Hne].
  - rewrite <- Heq, Hw, Z.lor_spec, Z.shiftl_1_l, !land63. rewrite !shiftr6 in Heq.
    destruct (Z.eqb_spec j id) as [->|Hji].
    + rewrite Z.pow2_bits_true by lia. by rewrite orb_true_r.
    + rewrite Z.pow2_bits_false, orb_false_r; [done|].
      intros Hm. apply Hji. rewrite (Z.div_mod j 64), (Z.div_mod id 64) by lia. congruence.
  - destruct (Z.eqb_spec j id) as [->|]; [congruence|done].
Qed.
End bits.

Lemma bit_regrow d old new id :
  old ≤ zlen d → (∀ j, 64 * old ≤ j → bit d j = false) → 0 ≤ id → bit (regrow d old new 0) id = bit d id.
Proof.
  intros Hold Hf Hid. unfold bit, regrow. destruct (Z.lt_ge_cases (Z.shiftr id 6) old) as [Hlt|Hge].
  - assert (0 ≤ Z.shiftr id 6) by (rewrite shiftr6; apply Z.div_pos; lia).
    rewrite zget_app_l by (rewrite zlen_take; lia). by rewrite zget_take by lia.
  - assert (Hz : bit d id = false).
    { apply Hf. rewrite shiftr6 in Hge. Z.to_euclidean_division_equations. lia. }
    unfold bit in Hz. rewrite Hz. clear Hz. destruct (zget _ _) as [w|] eqn:Hw; [|done].
    destruct (Z.lt_ge_cases old 0).
    + rewrite Z2Nat.nonpos in Hw by lia. apply zget_elem, elem_of_replicate in Hw as [-> _]. apply Z.bits_0.
    + rewrite zget_app_r in Hw by (rewrite zlen_take; lia).
      apply zget_elem, elem_of_replicate in Hw as [-> _]. apply Z.bits_0.
Qed.

(** ** Stability of symbols *)
Definition stable (l l' : list (option name)) : Prop := ∀ id s, l.[id] = Some (Some s) → l'.[id] = Some (Some s).
#[global] Instance stable_preorder : PreOrder stable.
Proof. split; [by intros l id s|]. intros l1 l2 l3 H1 H2 id s Hs. by apply H2, H1. Qed.
Lemma stable_app l k : stable l (l ++ k).
Proof. intros id s Hs. pose proof (zget_Some _ _ _ Hs). by rewrite zget_app_l by lia. Qed.
Lemma stable_fill l id s : l.[id] = Some None → stable l (<[Z.to_nat id := Some s]> l).
Proof.
  intros Hn j p Hj. pose proof (zget_Some _ _ _ Hn). rewrite zget_insert by done.
  destruct (Z.eqb_spec id j) as [->|]; [congruence|done].
Qed.

(** ** Cached segments *)
Definition seg_ok (l : list (option name)) (s : name) (x : option sym_segs_t) : Prop :=
  ∃ ps ids, ref_segments s = Some ps ∧ x = Some (Segs (zlen ps) (Some ids)) ∧
    Forall2 (λ i p, l.[i] = Some (Some p)) ids ps.
Definition id_ok (l : list (option name)) (d sc : list Z) (g : list sym_segs_t) (id : Z) : Prop :=
  match l.[id] with
  | Some (Some s) =>
      (bit sc id = true → bit d id = bool_decide (is_Some (ref_segments s))) ∧
      (bit d id = true → seg_ok l s g.[id])
  | _ => bit d id = false ∧ bit sc id = false
  end.
Definition segs_inv (l : list (option name)) (d sc : list Z) (g : list sym_segs_t) : Prop :=
  ∀ id, 0 ≤ id → id_ok l d sc g id.

Lemma seg_ok_stable l l' s x : stable l l' → seg_ok l s x → seg_ok l' s x.
Proof.
  intros Hst (ps & ids & H1 & H2 & H3). exists ps, ids. do 2 (split; [done|]).
  eapply Forall2_impl; [exact H3|]. intros i p Hp. by apply Hst.
Qed.

Lemma segs_inv_same l d sc g d' sc' g' :
  segs_inv l d sc g → (∀ id, 0 ≤ id → bit d' id = bit d id ∧ bit sc' id = bit sc id) →
  (∀ id, id < zlen l → g'.[id] = g.[id]) → segs_inv l d' sc' g'.
Proof.
  intros Hi Hb Hg id Hid. specialize (Hi id Hid). destruct (Hb id Hid) as [H1 H2]. unfold id_ok in *.
  rewrite H1, H2. destruct (l.[id]) as [[s|]|] eqn:Hl; [|done..].
  apply zget_Some in Hl. by rewrite Hg by lia.
Qed.
(** More names; the ids that had none keep clear bits. *)
Lemma segs_inv_stable l l' d sc g : segs_inv l d sc g → stable l l' → segs_inv l' d sc g.
Proof.
  intros Hi Hst id Hid. specialize (Hi id Hid). unfold id_ok in *.
  destruct (l.[id]) as [[s|]|] eqn:Hl.
  - rewrite (Hst _ _ Hl). destruct Hi as [H1 H2]. split; [done|]. intros Hd. by eapply seg_ok_stable, H2.
  - destruct Hi as [H1 H2]. destruct (l'.[id]) as [[s|]|]; [|done..]. rewrite H1, H2. done.
  - destruct Hi as [H1 H2]. destruct (l'.[id]) as [[s|]|]; [|done..]. rewrite H1, H2. done.
Qed.
Lemma segs_inv_scan l d sc sc' g i s :
  segs_inv l d sc g → l.[i] = Some (Some s) → bit d i = bool_decide (is_Some (ref_segments s)) →
  (∀ j, 0 ≤ j → bit sc' j = (j =? i) || bit sc j) → segs_inv l d sc' g.
Proof.
  intros Hi Hs Hd Hb id Hid. specialize (Hi id Hid). unfold id_ok in *. rewrite Hb by done.
  destruct (Z.eqb_spec id i) as [->|]; cbn [orb]; [|done]. rewrite Hs in *. split; [done|apply Hi].
Qed.
Lemma segs_inv_store l d d' sc g g' i s :
  segs_inv l d sc g → l.[i] = Some (Some s) → is_Some (ref_segments s) → seg_ok l s g'.[i] →
  (∀ j, j ≠ i → g'.[j] = g.[j]) →
  (∀ j, 0 ≤ j → bit d' j = (j =? i) || bit d j) → segs_inv l d' sc g'.
Proof.
  intros Hi Hs Hr Hok Hg Hb id Hid. specialize (Hi id Hid). unfold id_ok in *. rewrite Hb by done.
  destruct (Z.eqb_spec id i) as [->|]; cbn [orb]; [|by rewrite Hg by done]. rewrite Hs in *.
  split; [|done]. intros _. by rewrite bool_decide_eq_true_2.
Qed.

(** ** The invariant *)

(** Longer than any string in memory. *)
Definition MAX_NAME : Z := 2 ^ 48.
Definition short (o : option name) : Prop := from_option (λ s, zlen s < MAX_NAME) True o.
Definition lazy_ok (n : Z) (x : option lazy_file) : Prop :=
  match x with
  | None => True
  | Some l =>
      byte_list (lazy_map l) ∧ zlen (lazy_map l) < MAX_OBJECT ∧
      0 ≤ lazy_pos l ∧ 0 ≤ lazy_remaining l ∧ lazy_pos l + lazy_remaining l = zlen (lazy_map l) ∧
      0 ≤ lazy_next_id l ≤ lazy_count l ∧ lazy_count l ≤ n
  end.

Record wf (t : sym_table) : Prop := Wf {
  wf_index : wf_ht (bucket_cap t) (buckets t) (names t);
  wf_cap : pow2 8 31 (str_cap t);
  wf_count : 0 ≤ str_count t ≤ str_cap t;
  wf_strings : str_cap t ≤ zlen (strings t);
  wf_dotted : str_cap t ≤ 64 * zlen (dotted t);
  wf_scanned : str_cap t ≤ 64 * zlen (scanned t);
  wf_segments : str_cap t ≤ zlen (segments t);
  wf_arena : arena_ok (arena t);
  wf_lazy : lazy_ok (str_count t) (lazy t);
  wf_segs : segs_inv (names t) (dotted t) (scanned t) (segments t);
  wf_short : Forall short (names t)
}.

(** What every step keeps: symbols, the mapped file and settled names. *)
Record ext (t t' : sym_table) (l : list (option name)) : Prop := Ext {
  ext_names : names t' = names t ++ l;
  ext_lazy : lazy t' = lazy t;
  ext_scanned : ∀ id, 0 ≤ id → bit (scanned t) id = true → bit (scanned t') id = true
}.
Lemma sym_ext_refl t : ext t t [].
Proof. split; [by rewrite app_nil_r|done..]. Qed.
Lemma sym_ext_trans t1 t2 t3 l l' : ext t1 t2 l → ext t2 t3 l' → ext t1 t3 (l ++ l').
Proof.
  intros [N1 L1 S1] [N2 L2 S2]. split; [by rewrite N2, N1, app_assoc|by rewrite L2|auto].
Qed.
Lemma ext_trans_nil t1 t2 t3 l : ext t1 t2 [] → ext t2 t3 l → ext t1 t3 l.
Proof. intros H1 H2. by apply (sym_ext_trans _ _ _ _ _ H1 H2). Qed.
Lemma ext_trans_r t1 t2 t3 l : ext t1 t2 l → ext t2 t3 [] → ext t1 t3 l.
Proof. intros H1 H2. rewrite <- (app_nil_r l). by eapply sym_ext_trans. Qed.

Section wf.
Context (t : sym_table) (Hwf : wf t).

Lemma zlen_names : zlen (names t) = str_count t.
Proof. unfold names. rewrite zlen_take. pose proof (wf_count t Hwf). pose proof (wf_strings t Hwf). lia. Qed.
Lemma count_max : str_count t ≤ str_cap t ≤ MAX_SYMS.
Proof.
  pose proof (wf_count t Hwf). pose proof (pow2_bounds 8 31 _ ltac:(lia) (wf_cap t Hwf)).
  unfold MAX_SYMS. lia.
Qed.
Lemma names_get id : 0 ≤ id < str_count t → (strings t).[id] = (names t).[id].
Proof. intros Hid. unfold names. by rewrite zget_take by lia. Qed.
(** The arrays parallel to [strings] cover every symbol. *)
Lemma in_range id : 0 ≤ id < str_count t →
  id < zlen (strings t) ∧ id < 64 * zlen (dotted t) ∧ id < 64 * zlen (scanned t) ∧ id < zlen (segments t).
Proof.
  pose proof (wf_count t Hwf). pose proof (wf_strings t Hwf). pose proof (wf_dotted t Hwf).
  pose proof (wf_scanned t Hwf). pose proof (wf_segments t Hwf). lia.
Qed.
(** Bits of ids not handed out are clear. *)
Lemma fresh_bits id : str_count t ≤ id → bit (dotted t) id = false ∧ bit (scanned t) id = false.
Proof.
  intros Hid. pose proof (wf_count t Hwf). pose proof (wf_segs t Hwf id ltac:(lia)) as Hi. unfold id_ok in Hi.
  by rewrite zget_out in Hi by (rewrite zlen_names; lia).
Qed.

Lemma wf_with_ht b n clk : wf_ht n b (names t) → wf (with_ht t b n clk) ∧ ext t (with_ht t b n clk) [].
Proof. intros Hb. split; [by destruct Hwf|]. split; [by rewrite app_nil_r|done..]. Qed.
Lemma wf_with_arena a clk : arena_ok a → wf (with_arena t a clk) ∧ ext t (with_arena t a clk) [].
Proof. intros Ha. split; [by destruct Hwf|]. split; [by rewrite app_nil_r|done..]. Qed.

Lemma wf_mark id s : (names t).[id] = Some (Some s) → bit (dotted t) id = bool_decide (is_Some (ref_segments s)) →
  ∃ t', set_scanned t id = Some t' ∧ wf t' ∧ ext t t' [] ∧ bit (scanned t') id = true ∧
    arena t' = arena t ∧ bucket_cap t' = bucket_cap t ∧ str_cap t' = str_cap t.
Proof.
  intros Hs Hd. pose proof (zget_Some _ _ _ Hs) as Hr. rewrite zlen_names in Hr.
  destruct (in_range id Hr) as (_ & _ & Hsc & _).
  unfold set_scanned. destruct (set_bit_spec (scanned t) id) as (w & -> & Hl & Hb); [lia|]. cbn.
  eexists. split; [done|]. split; [|split; [|split; [by cbn; rewrite Hb, Z.eqb_refl by lia|done]]].
  - pose proof (segs_inv_scan _ _ _ w _ _ _ (wf_segs t Hwf) Hs Hd Hb).
    destruct Hwf. split; try done. cbn. lia.
  - split; [by rewrite app_nil_r|done|]. intros j Hj Hbit. cbn. by rewrite Hb, Hbit, orb_true_r by done.
Qed.
End wf.
