(* ===== verification/SymGrow.v ===== *)
(** * Growth, reservation and commit *)

From S2P Require Import Prelude Hash HashProofs Arena Sym SymRing SymInv.
Local Open Scope Z_scope.

Lemma pow2_double n : pow2 8 31 n → n < 2 ^ 31 → pow2 8 31 (2 * n).
Proof.
  intros (k & Hk & ->) Hlt. exists (k + 1). rewrite Z.pow_add_r by lia. split; [|lia].
  split; [lia|]. apply Z.pow_lt_mono_r_iff in Hlt; lia.
Qed.
Lemma pow2_64 n : pow2 8 31 n → (n + 63) / 64 = n / 64 ∧ n = 64 * (n / 64).
Proof.
  intros (k & Hk & ->). replace k with (6 + (k - 6)) by lia. rewrite Z.pow_add_r by lia. change (2 ^ 6) with 64.
  set (m := 2 ^ (k - 6)). Z.to_euclidean_division_equations. lia.
Qed.

Section grow.
Context `{SysMem}.
Implicit Types (t : sym_table).

Lemma ht_grow_to_spec t n : wf t → pow2 8 31 n → str_count t < n →
  ∃ ok t', ht_grow_to t n = Some (ok, t') ∧ wf t' ∧ ext t t' [] ∧ str_cap t' = str_cap t ∧ arena t' = arena t ∧
    bucket_cap t' = if ok : bool then n else bucket_cap t.
Proof.
  intros Hwf Hn Hlt. unfold ht_grow_to. destruct (ray_sys_alloc _ _) as [ok clk]. destruct ok; cbn [negb].
  - destruct (wf_ht_rehash _ _ _ (wf_index t Hwf) n Hn) as (b' & -> & Hb'); [by rewrite zlen_names by done|].
    destruct (wf_with_ht t Hwf b' n clk Hb'). cbn. by eexists true, _.
  - destruct (wf_with_ht t Hwf (buckets t) (bucket_cap t) clk); [apply wf_index, Hwf|]. by eexists false, _.
Qed.
Lemma ht_grow_spec t : wf t →
  ∃ ok t', ht_grow t = Some (ok, t') ∧ wf t' ∧ ext t t' [] ∧ str_cap t' = str_cap t ∧ arena t' = arena t ∧
    bucket_cap t' = if ok : bool then 2 * bucket_cap t else bucket_cap t.
Proof.
  intros Hwf. unfold ht_grow. pose proof (wf_index t Hwf) as (Hp & _ & _ & Hlt & _).
  rewrite zlen_names in Hlt by done. change (UINT32_MAX / 2 + 1) with (2 ^ 31).
  pose proof (pow2_bounds 8 31 _ ltac:(lia) Hp).
  destruct (Z.leb_spec (2 ^ 31) (bucket_cap t)).
  - exists false, t. split_and!; try done. apply sym_ext_refl.
  - rewrite wrap_id by (unfold in_u; lia). rewrite Z.mul_comm.
    apply ht_grow_to_spec; [done|by apply pow2_double|lia].
Qed.

(** ** The arrays parallel to [strings] *)
Lemma names_with_strings t s n clk : names (with_strings t s n clk) = take (Z.to_nat n) s.
Proof. done. Qed.

Section regrow.
Context (t : sym_table) (Hwf : wf t) (n clk : Z) (Hn : str_cap t ≤ n).

Lemma zlen_regrow {A} (l : list A) old m z : 0 ≤ old ≤ zlen l → old ≤ m → zlen (regrow l old m z) = m.
Proof. intros Ho Hm. unfold regrow. autorewrite with zlen. lia. Qed.

Lemma wf_strings_regrow :
  let t' := with_strings t (regrow (strings t) (str_cap t) n None) (str_count t) clk in
  wf t' ∧ ext t t' [] ∧ zlen (strings t') = n.
Proof.
  pose proof (wf_count t Hwf) as Hc. pose proof (wf_strings t Hwf).
  assert (Hnm : names (with_strings t (regrow (strings t) (str_cap t) n None) (str_count t) clk) = names t).
  { rewrite names_with_strings. unfold regrow, names.
    rewrite take_app_le by (rewrite length_take; unfold zlen in *; lia). rewrite take_take. f_equal. lia. }
  assert (Hl : zlen (regrow (strings t) (str_cap t) n None) = n) by (apply zlen_regrow; lia).
  split; [|by split; [split; [by rewrite Hnm, app_nil_r|done..]|]].
  destruct Hwf. split; try rewrite Hnm; try done. cbn. lia.
Qed.

Context (Hd : str_cap t = 64 * (str_cap t / 64)).
Lemma bits_regrow d id : (∀ j, str_count t ≤ j → bit d j = false) → str_cap t ≤ 64 * zlen d → 0 ≤ id →
  bit (regrow d (str_cap t / 64) (n / 64) 0) id = bit d id.
Proof.
  intros Hf Hl Hid. pose proof (wf_count t Hwf). apply bit_regrow; [lia| |done]. intros j Hj. apply Hf. lia.
Qed.
Lemma wf_dotted_regrow : n = 64 * (n / 64) →
  let t' := with_dotted t (regrow (dotted t) (str_cap t / 64) (n / 64) 0) clk in
  wf t' ∧ ext t t' [] ∧ 64 * zlen (dotted t') = n.
Proof.
  intros Hn64. pose proof (wf_dotted t Hwf). pose proof (wf_count t Hwf).
  assert (Hl : 64 * zlen (regrow (dotted t) (str_cap t / 64) (n / 64) 0) = n) by (rewrite zlen_regrow; lia).
  assert (Hsi : segs_inv (names t) (regrow (dotted t) (str_cap t / 64) (n / 64) 0) (scanned t) (segments t)).
  { eapply segs_inv_same; [apply wf_segs, Hwf| |done]. intros id Hid. split; [|done].
    apply bits_regrow; [|lia|done]. intros j Hj. by apply fresh_bits. }
  split; [|by split; [split; [by rewrite app_nil_r|done..]|]]. destruct Hwf. split; try done. cbn. lia.
Qed.
Lemma wf_scanned_regrow : n = 64 * (n / 64) →
  let t' := with_scanned t (regrow (scanned t) (str_cap t / 64) (n / 64) 0) clk in
  wf t' ∧ ext t t' [] ∧ 64 * zlen (scanned t') = n.
Proof.
  intros Hn64. pose proof (wf_scanned t Hwf). pose proof (wf_count t Hwf).
  assert (Hl : 64 * zlen (regrow (scanned t) (str_cap t / 64) (n / 64) 0) = n) by (rewrite zlen_regrow; lia).
  assert (Hb : ∀ id, 0 ≤ id → bit (regrow (scanned t) (str_cap t / 64) (n / 64) 0) id = bit (scanned t) id).
  { intros id Hid. apply bits_regrow; [|lia|done]. intros j Hj. by apply fresh_bits. }
  assert (Hsi : segs_inv (names t) (dotted t) (regrow (scanned t) (str_cap t / 64) (n / 64) 0) (segments t)).
  { eapply segs_inv_same; [apply wf_segs, Hwf| |done]. intros id Hid. split; [done|by apply Hb]. }
  split; [|split; [split; [by rewrite app_nil_r|done|]|done]].
  - destruct Hwf. split; try done. cbn. lia.
  - intros id Hid. cbn. by rewrite Hb by done.
Qed.
Lemma wf_segments_regrow :
  let t' := with_segments t (regrow (segments t) (str_cap t) n (Segs 0 None)) clk in
  wf t' ∧ ext t t' [] ∧ zlen (segments t') = n.
Proof.
  pose proof (wf_segments t Hwf). pose proof (wf_count t Hwf).
  assert (Hl : zlen (regrow (segments t) (str_cap t) n (Segs 0 None)) = n) by (apply zlen_regrow; lia).
  assert (Hsi : segs_inv (names t) (dotted t) (scanned t) (regrow (segments t) (str_cap t) n (Segs 0 None))).
  { eapply segs_inv_same; [apply wf_segs, Hwf|done|]. intros id Hid. rewrite zlen_names in Hid by done.
    unfold regrow. rewrite zget_app_l by (rewrite zlen_take; lia). apply zget_take. lia. }
  split; [|by split; [split; [by rewrite app_nil_r|done..]|]]. destruct Hwf. split; try done. cbn. lia.
Qed.
End regrow.

Lemma wf_with_cap t n : wf t → pow2 8 31 n → str_cap t ≤ n → n ≤ zlen (strings t) → n ≤ 64 * zlen (dotted t) →
  n ≤ 64 * zlen (scanned t) → n ≤ zlen (segments t) → wf (with_cap t n) ∧ ext t (with_cap t n) [].
Proof.
  intros Hwf Hn Hle H1 H2 H3 H4. split; [|split; [by rewrite app_nil_r|done..]].
  pose proof (wf_count t Hwf). destruct Hwf. split; try done. cbn. lia.
Qed.

(** A refused request changes the clock only. *)
Ltac refused Hwf := split_and!; try done; 
  [by destruct Hwf|repeat (eapply ext_trans_nil; [eassumption|]); split; [by rewrite app_nil_r|done..]].

Lemma sym_grow_str_cap_spec t n : wf t → pow2 8 31 n → str_cap t ≤ n →
  ∃ ok t', sym_grow_str_cap t n = (ok, t') ∧ wf t' ∧ ext t t' [] ∧ bucket_cap t' = bucket_cap t ∧
    arena t' = arena t ∧ str_cap t' = if ok : bool then n else str_cap t.
Proof.
  intros Hwf Hn Hle. unfold sym_grow_str_cap. destruct (Z.leb_spec n (str_cap t)).
  { exists true, t. split_and!; try done; [apply sym_ext_refl|lia]. }
  destruct (pow2_64 _ Hn) as [-> Hn64]. destruct (pow2_64 _ (wf_cap t Hwf)) as [-> Hc64].
  destruct (ray_sys_realloc _ _ _) as [ok1 clk1]. destruct ok1; cbn [negb].
  2: { exists false, (with_strings t (strings t) (str_count t) clk1). refused Hwf. }
  destruct (wf_strings_regrow t Hwf n clk1 Hle) as (Hwf1 & He1 & Hl1).
  set (t1 := with_strings t _ _ _) in *.
  destruct (Z.ltb_spec (str_cap t / 64) (n / 64)); [|lia].
  change (str_cap t) with (str_cap t1) in Hc64, Hle |- *.
  destruct (ray_sys_realloc _ _ _) as [ok2 clk2]. destruct ok2; cbn [negb].
  2: { exists false, (with_dotted t1 (dotted t1) clk2). refused Hwf1. }
  destruct (wf_dotted_regrow t1 Hwf1 n clk2 Hle Hc64 Hn64) as (Hwf2 & He2 & Hl2).
  set (t2 := with_dotted t1 _ _) in *. change (str_cap t1) with (str_cap t2) in Hc64, Hle |- *.
  destruct (ray_sys_realloc _ _ _) as [ok3 clk3]. destruct ok3; cbn [negb].
  2: { exists false, (with_scanned t2 (scanned t2) clk3). refused Hwf2. }
  destruct (wf_scanned_regrow t2 Hwf2 n clk3 Hle Hc64 Hn64) as (Hwf3 & He3 & Hl3).
  set (t3 := with_scanned t2 _ _) in *. change (str_cap t2) with (str_cap t3) in Hc64, Hle |- *.
  destruct (ray_sys_realloc _ _ _) as [ok4 clk4]. destruct ok4; cbn [negb].
  2: { exists false, (with_segments t3 (segments t3) clk4). refused Hwf3. }
  destruct (wf_segments_regrow t3 Hwf3 n clk4 Hle Hc64) as (Hwf4 & He4 & Hl4).
  set (t4 := with_segments t3 _ _) in *.
  change (strings t1) with (strings t4) in Hl1. change (dotted t2) with (dotted t4) in Hl2.
  change (scanned t3) with (scanned t4) in Hl3. change (str_cap t3) with (str_cap t4) in Hle.
  destruct (wf_with_cap t4 n) as [Hwf5 He5]; [done..|lia|lia|lia|lia|].
  exists true, (with_cap t4 n). split_and!; try done.
  do 4 (eapply ext_trans_nil; [done|]). done.
Qed.

(** ** Reservation *)

(** Room for [k] more symbols and [bytes] of the arena, without a request. *)
Definition reserved t (k bytes : Z) : Prop :=
  (str_count t + k) * 100 < bucket_cap t * 70 ∧ str_count t + k ≤ str_cap t ∧ bytes ≤ avail (arena t).
Lemma reserved_le t k bytes k' bytes' : reserved t k bytes → k' ≤ k → bytes' ≤ bytes → reserved t k' bytes'.
Proof. unfold reserved. lia. Qed.

Lemma grow_buckets_target_spec (fuel : nat) (e cnt target : Z) : 0 ≤ e ≤ 31 → pow2 8 31 target → target = 2 ^ (31 - e) →
  e < Z.of_nat fuel →
  (∃ n, grow_buckets_target fuel cnt target = Some (inl n) ∧ pow2 8 31 n ∧ target ≤ n ∧ cnt * 100 < n * 70) ∨
  grow_buckets_target fuel cnt target = Some (inr tt).
Proof.
  revert e target. induction fuel as [|fuel IH]; intros e target He Hp Ht Hf; [lia|]. cbn [grow_buckets_target].
  destruct (Z.leb_spec (target * 70) (cnt * 100)); [|left; exists target; split_and!; (done || lia)].
  change (UINT32_MAX / 2 + 1) with (2 ^ 31). destruct (Z.leb_spec (2 ^ 31) target); [by right|].
  assert (e ≠ 0) by (intros ->; rewrite Z.sub_0_r in Ht; lia).
  pose proof (pow2_bounds 8 31 _ ltac:(lia) Hp). rewrite wrap_id by (unfold in_u; lia).
  assert (Hp' : pow2 8 31 (target * 2)) by (rewrite Z.mul_comm; by apply pow2_double).
  destruct (IH (e - 1) (target * 2)) as [(n & Hn & Hp2 & Hle & Hc)|Hn]; [lia|done| |lia| |by right].
  - replace (31 - (e - 1)) with ((31 - e) + 1) by lia. rewrite Z.pow_add_r by lia. lia.
  - left. exists n. split_and!; (done || lia).
Qed.
Lemma grow_strings_target_spec (fuel : nat) (e cnt target : Z) : 0 ≤ e ≤ 31 → pow2 8 31 target → target = 2 ^ (31 - e) →
  e < Z.of_nat fuel →
  (∃ n, grow_strings_target fuel cnt target = Some (inl n) ∧ pow2 8 31 n ∧ target ≤ n ∧ cnt ≤ n) ∨
  grow_strings_target fuel cnt target = Some (inr tt).
Proof.
  revert e target. induction fuel as [|fuel IH]; intros e target He Hp Ht Hf; [lia|]. cbn [grow_strings_target].
  destruct (Z.ltb_spec target cnt); [|left; exists target; split_and!; (done || lia)].
  change (UINT32_MAX / 2) with (2 ^ 31 - 1). destruct (Z.leb_spec (2 ^ 31 - 1) target); [by right|].
  assert (e ≠ 0) by (intros ->; rewrite Z.sub_0_r in Ht; lia).
  pose proof (pow2_bounds 8 31 _ ltac:(lia) Hp). rewrite wrap_id by (unfold in_u; lia).
  assert (Hp' : pow2 8 31 (target * 2)) by (rewrite Z.mul_comm; apply pow2_double; [done|lia]).
  destruct (IH (e - 1) (target * 2)) as [(n & Hn & Hp2 & Hle & Hc)|Hn]; [lia|done| |lia| |by right].
  - replace (31 - (e - 1)) with ((31 - e) + 1) by lia. rewrite Z.pow_add_r by lia. lia.
  - left. exists n. split_and!; (done || lia).
Qed.
Lemma pow2_exponent n : pow2 8 31 n → ∃ e, 0 ≤ e < Z.of_nat 32 ∧ n = 2 ^ (31 - e).
Proof. intros (k & Hk & ->). exists (31 - k). split; [lia|]. f_equal. lia. Qed.

Lemma sym_reserve_capacity_spec t k bytes : wf t → 0 ≤ k → 0 ≤ bytes < 2 ^ 61 →
  ∃ ok t', sym_reserve_capacity t k bytes = Some (ok, t') ∧ wf t' ∧ ext t t' [] ∧ (ok = true → reserved t' k bytes).
Proof.
  intros Hwf Hk Hby. unfold sym_reserve_capacity. pose proof (wf_index t Hwf) as (Hp & _).
  pose proof (wf_count t Hwf).
  destruct (pow2_exponent _ Hp) as (e & He & Hpe).
  destruct (grow_buckets_target_spec 32 e (str_count t + k) (bucket_cap t)) as [(n & -> & Hpn & Hle & Hc)| ->];
    [lia|done|done|lia| |].
  2: { cbn. exists false, t. split_and!; [done..|apply sym_ext_refl|done]. }
  cbn [mbind option_bind].
  assert (∃ ok t1, (if bucket_cap t <? n then ht_grow_to t n else Some (true, t)) = Some (ok, t1) ∧ wf t1 ∧
    ext t t1 [] ∧ str_cap t1 = str_cap t ∧ arena t1 = arena t ∧ (ok = true → bucket_cap t1 = n))
    as (ok1 & t1 & -> & Hwf1 & He1 & Hsc1 & Ha1 & Hbc1).
  { destruct (Z.ltb_spec (bucket_cap t) n).
    - destruct (ht_grow_to_spec t n Hwf Hpn) as (ok & t1 & -> & ? & ? & ? & ? & Hb1); [lia|].
      exists ok, t1. split_and!; try done. by intros ->.
    - exists true, t. split_and!; try done; [apply sym_ext_refl|lia]. }
  cbn [mbind option_bind]. destruct ok1; cbn [negb]; [|by exists false, t1].
  specialize (Hbc1 eq_refl).
  assert (Hsc : str_count t1 = str_count t).
  { rewrite <- !zlen_names by done. by rewrite (ext_names _ _ _ He1), app_nil_r. }
  assert (∃ ok t2, (if str_cap t1 <? str_count t + k then
          str_target ← grow_strings_target 32 (str_count t + k) (str_cap t1);
          match str_target with
          | inr _ => Some (false, t1)
          | inl str_target => Some (sym_grow_str_cap t1 str_target)
          end
        else Some (true, t1)) = Some (ok, t2) ∧ wf t2 ∧ ext t t2 [] ∧ bucket_cap t2 = n ∧
        (ok = true → str_count t + k ≤ str_cap t2)) as (ok2 & t2 & -> & Hwf2 & He2 & Hbc2 & Hsc2).
  { destruct (Z.ltb_spec (str_cap t1) (str_count t + k)).
    2: { exists true, t1. split_and!; done. }
    destruct (pow2_exponent _ (wf_cap t1 Hwf1)) as (e' & He' & Hpe').
    destruct (grow_strings_target_spec 32 e' (str_count t + k) (str_cap t1)) as [(m & -> & Hpm & Hm & Hcm)| ->];
      [lia|apply wf_cap, Hwf1|done|lia| |].
    2: { by exists false, t1. }
    cbn [mbind option_bind].
    destruct (sym_grow_str_cap_spec t1 m Hwf1 Hpm Hm) as (ok & t2 & -> & Hwf2 & He2 & Hb2 & _ & Hs2).
    exists ok, t2. split_and!; try done; [by eapply ext_trans_nil|congruence|]. intros ->. lia. }
  cbn [mbind option_bind]. destruct ok2; cbn [negb]; [|by exists false, t2]. specialize (Hsc2 eq_refl).
  assert (Hsct2 : str_count t2 = str_count t).
  { rewrite <- !zlen_names by done. by rewrite (ext_names _ _ _ He2), app_nil_r. }
  destruct (Z.eqb_spec bytes 0) as [->|].
  - exists true, t2. split_and!; try done. intros _. split; [lia|]. split; [lia|].
    pose proof (wf_arena t2 Hwf2) as ((c & cs & Hcc) & Hf & _). unfold avail. rewrite Hcc in *.
    inversion Hf as [|? ? [??] ?]; subst. lia.
  - destruct (arena_reserve_spec (clock t2) (arena t2) bytes (wf_arena t2 Hwf2) Hby) as (ok & a & clk & -> & Ha & Hok).
    destruct (wf_with_arena t2 Hwf2 a clk Ha) as [Hwf3 He3]. exists ok, (with_arena t2 a clk).
    split_and!; [done|done|by eapply ext_trans_nil|]. intros Hok'. split; [cbn; lia|]. split; [cbn; lia|by apply Hok].
Qed.

(** ** Commit of a new name *)
Lemma ext_count t t' l : wf t → wf t' → ext t t' l → str_count t' = str_count t + zlen l.
Proof. intros Hwf Hwf' [Hn _ _]. rewrite <- !zlen_names by done. by rewrite Hn, zlen_app. Qed.

Lemma take_write {A} (l : list A) n x l' : 0 ≤ n → zset l n x = Some l' →
  take (Z.to_nat (n + 1)) l' = take (Z.to_nat n) l ++ [x].
Proof.
  intros Hn Hz. pose proof (zget_zset_eq _ _ _ _ Hz) as Hx. apply zset_inv in Hz as [Hb ->].
  replace (Z.to_nat (n + 1)) with (S (Z.to_nat n)) by lia. rewrite zget_nat in Hx by done.
  by rewrite (take_S_r _ _ _ Hx), take_insert_ge by lia.
Qed.

(** Room for one symbol: the string goes in, the bucket is found. *)
Lemma commit_write t s : wf t → zlen s < MAX_NAME → str_count t < str_cap t → str_count t + 1 < bucket_cap t →
  ∃ l b, zset (strings t) (str_count t) (Some s) = Some l ∧
    ht_insert (buckets t) (bucket_cap t) (hash32 s) (str_count t) = Some b ∧
    let t' := with_ht (with_strings t l (u32 (str_count t + 1)) (clock t)) b (bucket_cap t) (clock t) in
    wf t' ∧ ext t t' [Some s].
Proof.
  intros Hwf Hsh Hc Hb. pose proof (count_max t Hwf) as Hm. unfold MAX_SYMS in Hm. pose proof (wf_count t Hwf).
  pose proof (wf_strings t Hwf). pose proof (zlen_names t Hwf) as Hzn.
  destruct (zset_total (strings t) (str_count t) (Some s)) as [l Hl]; [lia|].
  assert (Hnm : take (Z.to_nat (str_count t + 1)) l = names t ++ [Some s]) by (by eapply take_write; [lia|]).
  destruct (wf_ht_insert _ _ _ (wf_index t Hwf) s (str_count t) (names t ++ [Some s])) as (b & Hins & Hwb).
  { unfold MAX_SYMS. lia. }
  { rewrite zlen_app, Hzn. unfold zlen. simpl. lia. }
  { rewrite zlen_app, Hzn. unfold zlen, MAX_SYMS. simpl. lia. }
  { rewrite expected_app, Hzn. cbn [expected]. by rewrite Permutation_app_comm. }
  exists l, b. split; [done|]. split; [done|]. rewrite wrap_id by (unfold in_u; lia). intros t'.
  assert (Hnm' : names t' = names t ++ [Some s]) by done.
  assert (Hsi : segs_inv (names t') (dotted t) (scanned t) (segments t)).
  { eapply segs_inv_stable; [apply wf_segs, Hwf|]. rewrite Hnm'. apply stable_app. }
  apply zlen_zset in Hl. split; [|by split].
  destruct Hwf as [? ? ? ? ? ? ? ? Hlz ? Hsn]. split; try done.
  - cbn. by rewrite Hnm'.
  - cbn. lia.
  - cbn. lia.
  - cbn. unfold lazy_ok in *. destruct (lazy t); [|done]. intuition lia.
  - rewrite Hnm'. apply Forall_app. by repeat constructor.
Qed.

(** The two growth steps of a commit do nothing in a table with room. *)
Lemma commit_grow_ht t : wf t →
  ∃ full t1, (if bucket_cap t * 70 <=? str_count t * 100 then
      '(ok, t) ← ht_grow t;
      Some (negb ok && (bucket_cap t * 95 <=? str_count t * 100), t)
    else Some (false, t)) = Some (full, t1) ∧ wf t1 ∧ ext t t1 [] ∧ str_cap t1 = str_cap t ∧ arena t1 = arena t ∧
      (full = false → str_count t + 1 < bucket_cap t1) ∧ (str_count t * 100 < bucket_cap t * 70 → full = false ∧ t1 = t).
Proof.
  intros Hwf. pose proof (wf_index t Hwf) as (Hp & _ & _ & Hlt & _). rewrite zlen_names in Hlt by done.
  pose proof (pow2_bounds 8 31 _ ltac:(lia) Hp). pose proof (wf_count t Hwf).
  destruct (Z.leb_spec (bucket_cap t * 70) (str_count t * 100)).
  - destruct (ht_grow_spec t Hwf) as (ok & t1 & -> & ? & He & ? & ? & Hbc). cbn [mbind option_bind].
    eexists _, t1. split; [done|]. split_and!; try done; [|lia].
    rewrite (ext_count t t1 []) by done. rewrite zlen_nil, Hbc.
    destruct ok; cbn [negb andb]; [lia|]. zbool; intros; (done || lia).
  - exists false, t. split_and!; try done; [apply sym_ext_refl|lia].
Qed.
Lemma commit_grow_str t1 : wf t1 →
  ∃ ok t2, (if str_cap t1 <=? str_count t1 then
      if UINT32_MAX / 2 <=? str_cap t1 then (false, t1) else sym_grow_str_cap t1 (u32 (str_cap t1 * 2))
    else (true, t1)) = (ok, t2) ∧ wf t2 ∧ ext t1 t2 [] ∧ bucket_cap t2 = bucket_cap t1 ∧ arena t2 = arena t1 ∧
      (ok = true → str_count t1 < str_cap t2) ∧ (str_count t1 < str_cap t1 → ok = true ∧ t2 = t1).
Proof.
  intros Hwf1.
  destruct (Z.leb_spec (str_cap t1) (str_count t1)).
  2: { exists true, t1. split_and!; try done. apply sym_ext_refl. }
  change (UINT32_MAX / 2) with (2 ^ 31 - 1). pose proof (pow2_bounds 8 31 _ ltac:(lia) (wf_cap t1 Hwf1)).
  destruct (Z.leb_spec (2 ^ 31 - 1) (str_cap t1)); [exists false, t1; split_and!; try done; [apply sym_ext_refl|lia]|].
  rewrite wrap_id by (unfold in_u; lia).
  destruct (sym_grow_str_cap_spec t1 (str_cap t1 * 2)) as (ok & t2 & -> & ? & He & ? & ? & Hs2);
    [done|rewrite Z.mul_comm; apply pow2_double; [apply wf_cap, Hwf1|lia]|lia|].
  exists ok, t2. split_and!; try done; [|lia].
  intros ->. rewrite Hs2. pose proof (wf_count t1 Hwf1). lia.
Qed.

Lemma sym_commit_new_spec t s : wf t → zlen s < MAX_NAME →
  ∃ id t', sym_commit_new t (hash32 s) s = Some (id, t') ∧ wf t' ∧
    ((id = -1 ∧ ext t t' []) ∨ (id = str_count t ∧ ext t t' [Some s])) ∧
    (∀ k bytes, reserved t k bytes → 1 ≤ k → str_block (zlen s) ≤ bytes →
       id = str_count t ∧ reserved t' (k - 1) (bytes - str_block (zlen s))).
Proof.
  intros Hwf Hs. unfold sym_commit_new. pose proof (wf_count t Hwf).
  destruct (commit_grow_ht t Hwf) as (full & t1 & -> & Hwf1 & He1 & Hsc1 & Ha1 & Hroom & Hres1).
  cbn [mbind option_bind]. pose proof (ext_count t t1 [] Hwf Hwf1 He1) as Hct1. rewrite zlen_nil, Z.add_0_r in Hct1.
  assert (Hno : ∀ k bytes, reserved t k bytes → 1 ≤ k → full = false ∧ t1 = t).
  { intros k bytes (Hr & _) Hk. apply Hres1. lia. }
  destruct full.
  { exists (-1), t1. split_and!; [done|done|by left|]. intros k bytes Hr Hk. by destruct (Hno k bytes Hr Hk). }
  specialize (Hroom eq_refl).
  destruct (commit_grow_str t1 Hwf1) as (ok2 & t2 & -> & Hwf2 & He12 & Hbc2 & Ha2 & Hsc2 & Hres2).
  assert (He2 : ext t t2 []) by (by eapply ext_trans_nil). rewrite Ha1 in Ha2.
  destruct ok2; cbn [negb].
  2: { exists (-1), t2. split_and!; [done|done|by left|]. intros k bytes Hr Hk.
       destruct (Hno k bytes Hr Hk) as [_ ->]. destruct Hr as (_ & Hr & _).
       destruct Hres2 as [Hf _]; [lia|]. done. }
  specialize (Hsc2 eq_refl).
  pose proof (ext_count t t2 [] Hwf Hwf2 He2) as Hct2. rewrite zlen_nil, Z.add_0_r in Hct2.
  destruct (arena_str_spec (clock t2) (arena t2) (zlen s)) as (ok3 & a & clk & -> & Ha & Hok3);
    [apply wf_arena, Hwf2|pose proof (zlen_nonneg s); unfold MAX_NAME, MAX_OBJECT in *; lia|]. cbn [mbind option_bind].
  destruct (wf_with_arena t2 Hwf2 a clk Ha) as [Hwf3 He3].
  destruct ok3; cbn [negb].
  2: { exists (-1), (with_arena t2 a clk). split_and!; [done|done|left; by split; [|eapply ext_trans_nil]|].
       intros k bytes Hr Hk Hb. destruct (Hno k bytes Hr Hk) as [_ ->]. destruct Hr as (_ & Hr & Hav).
       rewrite Ha2 in Hok3. by destruct Hok3 as [? _]; [lia|]. }
  set (t3 := with_arena t2 a clk) in *.
  destruct (commit_write t3 s) as (l & b & Hl & Hins & Hwf4 & He4); [done|done|cbn; lia|cbn; lia|].
  rewrite Hct1. change (str_count t) with (str_count t) in Hct2. rewrite <- Hct2.
  change (str_count t2) with (str_count t3). rewrite Hl. cbn [mbind option_bind].
  cbn [buckets bucket_cap with_strings]. rewrite Hins. cbn [mbind option_bind].
  eexists _, _. split; [done|]. split; [exact Hwf4|]. split.
  { right. split; [done|]. eapply ext_trans_nil; [exact He2|]. eapply ext_trans_nil; [exact He3|]. exact He4. }
  intros k bytes Hr Hk Hb. split; [done|]. destruct (Hno k bytes Hr Hk) as [_ ->].
  destruct Hr as (Hr1 & Hr2 & Hav). destruct Hres2 as [_ ->]; [lia|].
  destruct Hok3 as [_ Hav']; [lia|]. unfold reserved. rewrite (wrap_id 32) in * by
    (unfold in_u; pose proof (count_max t Hwf) as Hm; unfold MAX_SYMS in Hm; cbn; lia).
  cbn. lia.
Qed.
End grow.
