(* ===== verification/SymSegs.v ===== *)
(** * Dotted names: the scanner finds the segments of the reference *)

From S2P Require Import Prelude Hash HashProofs Arena Sym SymRing SymInv SymGrow.
Local Open Scope Z_scope.

(** ** Pieces *)
Lemma memchr_None s c : memchr s c = None ↔ c ∉ s.
Proof.
  induction s as [|x s IH]; cbn; [split; [set_solver|done]|].
  destruct (Z.eqb_spec x c) as [->|]; [split; [done|set_solver]|].
  destruct (memchr s c); cbn; [split; [done|]|]; rewrite not_elem_of_cons.
  - intros [_ H]. by apply IH in H.
  - split; [|done]. intros _. split; [done|by apply IH].
Qed.
Lemma split_dots_cons s : ∃ p ps, split_dots s = p :: ps.
Proof. destruct s as [|c s]; cbn; [by eexists _, _|]. destruct (c =? DOT), (split_dots s); by eexists _, _. Qed.
Lemma split_dots_none s : memchr s DOT = None → split_dots s = [s].
Proof.
  induction s as [|c s IH]; cbn; [done|]. destruct (c =? DOT); [done|].
  destruct (memchr s DOT); cbn; [done|]. intros _. by rewrite IH.
Qed.
Lemma split_dots_some s k : memchr s DOT = Some k →
  0 ≤ k < zlen s ∧ split_dots s = take (Z.to_nat k) s :: split_dots (drop (Z.to_nat (k + 1)) s).
Proof.
  revert k. induction s as [|c s IH]; intros k; cbn; [done|]. rewrite zlen_cons.
  pose proof (zlen_nonneg s). destruct (c =? DOT); [by intros [= <-]; split; [lia|]|].
  destruct (memchr s DOT) as [j|]; cbn; [|done]. intros [= <-]. destruct (IH j eq_refl) as [Hj ->].
  split; [lia|]. replace (Z.to_nat (1 + j)) with (S (Z.to_nat j)) by lia.
  by replace (Z.to_nat (1 + j + 1)) with (S (Z.to_nat (j + 1))) by lia.
Qed.
Lemma zlen_split_dots s : zlen (split_dots s) = 1 + zlen (List.filter (λ c, c =? DOT) s).
Proof.
  induction s as [|c s IH]; [done|]. cbn. destruct (c =? DOT).
  - rewrite !zlen_cons. lia.
  - destruct (split_dots_cons s) as (p & ps & Hp). rewrite Hp in *. rewrite zlen_cons in *. done.
Qed.
Lemma zlen_split_two s : memchr s DOT ≠ None → 2 ≤ zlen (split_dots s).
Proof.
  destruct (memchr s DOT) as [k|] eqn:Hk; [intros _|done]. destruct (split_dots_some s k Hk) as [_ ->].
  destruct (split_dots_cons (drop (Z.to_nat (k + 1)) s)) as (p & ps & ->).
  rewrite !zlen_cons. pose proof (zlen_nonneg ps). lia.
Qed.
Lemma split_dots_pieces s : Forall (λ p, (DOT ∉ p) ∧ zlen p ≤ zlen s) (split_dots s).
Proof.
  induction s as [|c s IH]; cbn; [repeat constructor; set_solver|].
  assert (IH' : Forall (λ p, (DOT ∉ p) ∧ zlen p ≤ 1 + zlen s) (split_dots s))
    by (eapply Forall_impl; [exact IH|]; intros p [? ?]; split; [done|lia]).
  pose proof (zlen_nonneg s). rewrite zlen_cons. destruct (Z.eqb_spec c DOT).
  - constructor; [|done]. split; [set_solver|]. rewrite zlen_nil. lia.
  - destruct (split_dots_cons s) as (p & ps & Hp). rewrite Hp in *. inversion IH' as [|? ? [Hd Hl] Hf]; subst.
    inversion IH as [|? ? [? Hl'] ?]; subst.
    constructor; [|done]. split; [set_solver|]. rewrite zlen_cons. lia.
Qed.

Lemma pieces_dot s : pieces (DOT :: s) = match split_dots s with p :: ps => (DOT :: p) :: ps | [] => [[]] end.
Proof. unfold pieces. cbn [split_dots]. rewrite Z.eqb_refl. by destruct (split_dots_cons s) as (p & ps & ->). Qed.
Lemma pieces_other s : s.[0] ≠ Some DOT → pieces s = split_dots s.
Proof.
  intros H0. unfold pieces. destruct s as [|c s]; [done|]. cbn [split_dots]. destruct (Z.eqb_spec c DOT) as [->|]; [done|].
  by destruct (split_dots s).
Qed.
Lemma first_byte s : s.[0] = Some DOT → ∃ r, s = DOT :: r.
Proof. destruct s as [|c s]; [done|]. intros [= ->]. by exists s. Qed.

(** A piece is a plain name, no longer than the whole. *)
Lemma pieces_plain s : Forall (λ p, ref_segments p = None ∧ zlen p ≤ zlen s) (pieces s).
Proof.
  assert (Hplain : ∀ p, DOT ∉ p → ref_segments p = None ∧ ref_segments (DOT :: p) = None).
  { intros p Hp. assert (Hsp : split_dots p = [p]) by (by apply split_dots_none, memchr_None).
    split; unfold ref_segments.
    - rewrite pieces_other; [by rewrite Hsp|]. intros H0%zget_elem. done.
    - rewrite pieces_dot. by rewrite Hsp. }
  destruct (decide (s.[0] = Some DOT)) as [Hd|Hd].
  - destruct (first_byte s Hd) as [r ->]. rewrite pieces_dot. pose proof (split_dots_pieces r) as Hf.
    destruct (split_dots_cons r) as (p & ps & Hp). rewrite Hp in *. inversion Hf as [|? ? [Hnd Hl] Hf']; subst.
    constructor.
    + split; [by apply Hplain|]. rewrite !zlen_cons. lia.
    + eapply Forall_impl; [exact Hf'|]. intros q [Hq Hlq]. split; [by apply Hplain|]. rewrite zlen_cons. lia.
  - rewrite pieces_other by done. eapply Forall_impl; [apply split_dots_pieces|].
    intros p [Hp Hl]. split; [by apply Hplain|done].
Qed.
Lemma ref_segments_pieces s ps : ref_segments s = Some ps → ps = pieces s ∧ 2 ≤ zlen ps ≤ 255.
Proof.
  unfold ref_segments. destruct (Z.leb_spec 2 (zlen (pieces s))), (Z.leb_spec (zlen (pieces s)) 255); cbn [andb]; try done.
  destruct (forallb _ _); [|done]. by intros [= <-].
Qed.
(** Joining the segments with dots gives the name back. *)
Fixpoint join_dots (ps : list name) : name :=
  match ps with
  | [] => []
  | [p] => p
  | p :: ps => p ++ DOT :: join_dots ps
  end.
Lemma join_split s : join_dots (split_dots s) = s.
Proof.
  induction s as [|c s IH]; [done|]. cbn [split_dots]. destruct (split_dots_cons s) as (p & ps & Hp).
  rewrite Hp in *. destruct (Z.eqb_spec c DOT) as [->|].
  - exact (f_equal (cons DOT) IH).
  - destruct ps; cbn [join_dots] in *; by rewrite <- IH.
Qed.
Lemma join_pieces s : join_dots (pieces s) = s.
Proof.
  destruct (decide (s.[0] = Some DOT)) as [Hd|Hd]; [|by rewrite pieces_other, join_split].
  destruct (first_byte s Hd) as [r ->]. rewrite pieces_dot. rewrite <- (join_split r) at 2.
  destruct (split_dots_cons r) as (p & [|q ps] & ->); done.
Qed.

(** ** The scanner *)
Lemma last_drop p k : p ≠ [] → last_byte p ≠ Some DOT → memchr p DOT = Some k →
  drop (Z.to_nat (k + 1)) p ≠ [] ∧ last_byte (drop (Z.to_nat (k + 1)) p) = last_byte p.
Proof.
  intros Hp Hl Hk. assert (Hpk : 0 ≤ k < zlen p ∧ p.[k] = Some DOT).
  { clear Hl Hp. revert k Hk. induction p as [|c p IH]; intros k; cbn; [done|]. rewrite zlen_cons. pose proof (zlen_nonneg p).
    destruct (Z.eqb_spec c DOT) as [->|]; [by intros [= <-]; split; [lia|]|].
    destruct (memchr p DOT) as [j|]; cbn; [|done]. intros [= <-]. destruct (IH j eq_refl) as [Hj Hpj].
    split; [lia|]. rewrite zget_cons_S by lia. by replace (1 + j - 1) with j by lia. }
  destruct Hpk as [Hk1 Hk2]. unfold last_byte in *.
  assert (k ≠ zlen p - 1) by (intros ->; done).
  split.
  - intros Hd. pose proof (zlen_drop (Z.to_nat (k + 1)) p) as Hz. rewrite Hd in Hz. unfold zlen at 1 in Hz. simpl in Hz. lia.
  - rewrite zlen_drop. unfold zget. destruct (Z.leb_spec 0 (zlen p - 1)), (Z.leb_spec 0 (Z.max 0 (zlen p - Z.of_nat (Z.to_nat (k + 1))) - 1)); try lia.
    rewrite lookup_drop. f_equal. lia.
Qed.

Definition nonempty (p : name) : bool := negb (bool_decide (p = [])).

Lemma last_cons c s : s ≠ [] → last_byte (c :: s) = last_byte s.
Proof.
  intros Hs. unfold last_byte. rewrite zlen_cons. assert (0 < zlen s).
  { destruct s; [done|]. rewrite zlen_cons. pose proof (zlen_nonneg s). lia. }
  rewrite zget_cons_S by lia. by replace (1 + zlen s - 1 - 1) with (zlen s - 1) by lia.
Qed.
(** A trailing dot leaves an empty last piece. *)
Lemma split_trailing s : last_byte s = Some DOT → ∃ ps, split_dots s = ps ++ [[]] ∧ ps ≠ [].
Proof.
  unfold last_byte. induction s as [|c s IH]; [done|]. intros Hs. destruct s as [|c' s].
  - injection Hs as ->. by exists [[]].
  - rewrite zlen_cons in Hs. pose proof (zlen_nonneg s). rewrite zlen_cons in Hs. rewrite zget_cons_S in Hs by lia.
    destruct IH as (ps & Hps & Hn); [rewrite zlen_cons, <- Hs; f_equal; lia|].
    change (split_dots (c :: c' :: s)) with (if c =? DOT then [] :: split_dots (c' :: s)
      else match split_dots (c' :: s) with p :: ps => (c :: p) :: ps | [] => [[c]] end).
    rewrite Hps. destruct (c =? DOT); [by exists ([] :: ps)|]. destruct ps as [|p ps]; [done|].
    by exists ((c :: p) :: ps).
Qed.
Lemma trailing_dot s : last_byte s = Some DOT → ref_segments s = None.
Proof.
  intros Hl. destruct (split_trailing s Hl) as (ps & Hps & Hn).
  assert (Hlast : ∀ l, forallb nonempty (l ++ [[]]) = false)
    by (intros l; rewrite forallb_app; cbn; by rewrite !andb_false_r).
  assert (pieces s = [[DOT]] ∨ ∃ l, pieces s = l ++ [[]]) as [Hp|[l Hp]].
  { unfold pieces. rewrite Hps. destruct ps as [|[|c p] [|q ps]]; [done|by left|right..].
    - by exists ((DOT :: q) :: ps).
    - by exists [c :: p].
    - by exists ((c :: p) :: q :: ps). }
  - unfold ref_segments. by rewrite Hp.
  - unfold ref_segments. rewrite Hp. change (λ p, negb (bool_decide (p = []))) with nonempty.
    by rewrite Hlast, andb_false_r.
Qed.

(** What the scanner notes of a segment. *)
Definition desc_ok (l : list (option name)) (d : desc) (p : name) : Prop :=
  d_name d = p ∧ d_hash d = hash32 p ∧ found l p (d_id d).

Section scan.
Context `{SysMem} (t : sym_table) (Hwf : wf t).

Lemma probe_desc p : ∃ h id, ray_hash_bytes p = Some h ∧ sym_probe t (u32 h) p = Some id ∧
  desc_ok (names t) (Desc p (u32 h) id) p.
Proof.
  destruct (hash_Some p) as [h Hh]. pose proof (hash32_eq p h Hh) as Hu.
  destruct (sym_probe_spec t (wf_index t Hwf) p) as (id & Hid & Hf). exists h, id. rewrite Hu. done.
Qed.

Lemma scan_spec (fuel : nat) : ∀ p i n leading ds,
  p ≠ [] → last_byte p ≠ Some DOT → i + zlen (split_dots p) = n → n - i ≤ Z.of_nat fuel →
  0 ≤ i → (i =? 0) && leading = false →
  if forallb nonempty (split_dots p)
  then ∃ ds', scan_segments fuel t p i n leading ds = Some (Some (ds ++ ds')) ∧ Forall2 (desc_ok (names t)) ds' (split_dots p)
  else scan_segments fuel t p i n leading ds = Some None.
Proof.
  induction fuel as [|fuel IH]; intros p i n leading ds Hp Hl Hn Hf Hi Hld;
    pose proof (zlen_split_dots p) as Hz; pose proof (zlen_nonneg (List.filter (λ c, c =? DOT) p)); [lia|].
  cbn [scan_segments]. assert (0 < zlen p) by (destruct p; [done|rewrite zlen_cons; pose proof (zlen_nonneg p); lia]).
  destruct (Z.ltb_spec 0 (zlen p)), (Z.ltb_spec i n); try lia. cbn [andb]. rewrite Hld.
  change (drop (Z.to_nat 0) p) with p. destruct (Z.ltb_spec 0 (zlen p)); [|lia].
  destruct (memchr p DOT) as [k|] eqn:Hk; cbn [mbind option_bind default from_option id].
  - destruct (split_dots_some p k Hk) as [Hkb Hsp]. destruct (last_drop p k Hp Hl Hk) as [Hr Hrl].
    rewrite Z.add_0_l. rewrite Hsp in *. rewrite zlen_cons in Hn. cbn [forallb]. unfold nonempty at 1.
    destruct (Z.eqb_spec k 0) as [->|Hk0]; [done|].
    rewrite bool_decide_eq_false_2.
    2: { intros He. pose proof (zlen_take (Z.to_nat k) p) as Ht. rewrite He in Ht. unfold zlen at 1 in Ht. simpl in Ht. lia. }
    cbn [negb andb]. destruct (probe_desc (take (Z.to_nat k) p)) as (h & sid & -> & Hpr & Hd).
    cbn [mbind option_bind]. rewrite Hpr. cbn [mbind option_bind].
    specialize (IH (drop (Z.to_nat (k + 1)) p) (i + 1) n leading (ds ++ [Desc (take (Z.to_nat k) p) (u32 h) sid])
      Hr ltac:(congruence) ltac:(lia) ltac:(lia) ltac:(lia)).
    destruct (Z.eqb_spec (i + 1) 0); [lia|]. specialize (IH eq_refl).
    destruct (forallb nonempty _); [|done]. destruct IH as (ds' & Hs & Hf2).
    exists (Desc (take (Z.to_nat k) p) (u32 h) sid :: ds'). split; [by rewrite Hs, <- app_assoc|]. by constructor.
  - pose proof (split_dots_none p Hk) as Hsp. rewrite Hsp. cbn [forallb]. unfold nonempty.
    rewrite bool_decide_eq_false_2 by done. cbn [negb andb].
    destruct (Z.eqb_spec (zlen p) 0); [lia|]. rewrite to_nat_zlen, firstn_all.
    destruct (probe_desc p) as (h & sid & -> & Hpr & Hd). cbn [mbind option_bind]. rewrite Hpr. cbn [mbind option_bind].
    eexists. split; [done|]. by constructor.
Qed.

(** The first segment of a name with a leading dot. *)
Lemma scan_leading (fuel : nat) r n :
  r ≠ [] → last_byte r ≠ Some DOT → memchr r DOT ≠ None → zlen (split_dots r) = n → n ≤ Z.of_nat fuel →
  if forallb nonempty (pieces (DOT :: r))
  then ∃ ds', scan_segments fuel t (DOT :: r) 0 n true [] = Some (Some ds') ∧ Forall2 (desc_ok (names t)) ds' (pieces (DOT :: r))
  else scan_segments fuel t (DOT :: r) 0 n true [] = Some None.
Proof.
  intros Hr Hl Hm Hn Hf. destruct (memchr r DOT) as [k|] eqn:Hk; [|done].
  destruct (split_dots_some r k Hk) as [Hkb Hsp]. destruct (last_drop r k Hr Hl Hk) as [Hd Hdl].
  rewrite pieces_dot, Hsp in *. rewrite zlen_cons in Hn.
  pose proof (zlen_nonneg (split_dots (drop (Z.to_nat (k + 1)) r))). destruct fuel as [|fuel]; [lia|].
  cbn [scan_segments]. rewrite zlen_cons. pose proof (zlen_nonneg r).
  destruct (Z.ltb_spec 0 (1 + zlen r)), (Z.ltb_spec 0 n); try lia. cbn [andb Z.eqb].
  destruct (Z.ltb_spec 1 (1 + zlen r)); [|lia]. change (drop (Z.to_nat 1) (DOT :: r)) with r. rewrite Hk.
  cbn [mbind option_bind default from_option id]. destruct (Z.eqb_spec (1 + k) 0); [lia|].
  assert (take (Z.to_nat (1 + k)) (DOT :: r) = DOT :: take (Z.to_nat k) r) as ->
    by (by replace (Z.to_nat (1 + k)) with (S (Z.to_nat k)) by lia).
  assert (drop (Z.to_nat (1 + k + 1)) (DOT :: r) = drop (Z.to_nat (k + 1)) r) as ->
    by (by replace (Z.to_nat (1 + k + 1)) with (S (Z.to_nat (k + 1))) by lia).
  destruct (probe_desc (DOT :: take (Z.to_nat k) r)) as (h & sid & -> & Hpr & Hde).
  cbn [mbind option_bind]. rewrite Hpr. cbn [mbind option_bind app forallb].
  change (nonempty (DOT :: take (Z.to_nat k) r)) with true. cbn [andb].
  pose proof (scan_spec fuel (drop (Z.to_nat (k + 1)) r) (0 + 1) n true [Desc (DOT :: take (Z.to_nat k) r) (u32 h) sid]
    Hd ltac:(congruence) ltac:(lia) ltac:(lia) ltac:(lia) eq_refl) as Hs.
  destruct (forallb nonempty _); [|done]. destruct Hs as (ds' & Hs & Hf2).
  eexists. split; [exact Hs|]. cbn [app]. by constructor.
Qed.

(** The checks and the scanner agree with the reference on every name. *)
Lemma dotted_shape_spec str :
  match dotted_shape str with
  | None => ref_segments str = None
  | Some (n, leading) =>
      ∃ r, scan_segments (Z.to_nat n) t str 0 n leading [] = Some r ∧
        match r with
        | None => ref_segments str = None
        | Some ds => ∃ ps, ref_segments str = Some ps ∧ zlen ps = n ∧ Forall2 (desc_ok (names t)) ds ps
        end
  end.
Proof.
  unfold dotted_shape. destruct (memchr str DOT) as [k|] eqn:Hk.
  2: { unfold ref_segments. rewrite pieces_other.
       - by rewrite (split_dots_none str Hk).
       - intros H0%zget_elem. by apply memchr_None in Hk. }
  assert (Hne : str ≠ []) by (by intros ->). case_bool_decide as Hl.
  { by apply trailing_dot. }
  case_bool_decide as Hlead.
  - destruct (first_byte str Hlead) as [r ->]. change (drop 1 (DOT :: r)) with r. cbn [andb].
    case_bool_decide as Hm; [unfold ref_segments; rewrite pieces_dot; by rewrite (split_dots_none r Hm)|].
    assert (Hr : r ≠ []) by (by intros ->).
    assert (Hlr : last_byte r ≠ Some DOT) by (by rewrite <- (last_cons DOT)).
    pose proof (zlen_split_dots r) as Hz. set (dots := zlen (List.filter _ r)) in *.
    assert (Hzp : zlen (pieces (DOT :: r)) = zlen (split_dots r)).
    { rewrite pieces_dot. destruct (split_dots_cons r) as (p & ps & ->). by rewrite !zlen_cons. }
    pose proof (zlen_split_two r Hm).
    destruct (Z.ltb_spec 255 (dots + 1)).
    { unfold ref_segments. rewrite Hzp. destruct (Z.leb_spec (zlen (split_dots r)) 255); [lia|]. by rewrite andb_false_r. }
    pose proof (scan_leading (Z.to_nat (dots + 1)) r (dots + 1) Hr Hlr Hm ltac:(lia) ltac:(lia)) as Hs.
    assert (Href : ref_segments (DOT :: r) = if forallb nonempty (pieces (DOT :: r)) then Some (pieces (DOT :: r)) else None).
    { unfold ref_segments. rewrite Hzp. destruct (Z.leb_spec 2 (zlen (split_dots r))), (Z.leb_spec (zlen (split_dots r)) 255); (done || lia). }
    destruct (forallb nonempty _).
    + destruct Hs as (ds & -> & Hf). eexists. split; [done|]. eexists. split; [exact Href|]. split; [lia|done].
    + rewrite Hs. eexists. split; [done|]. exact Href.
  - cbn [andb]. pose proof (zlen_split_dots str) as Hz. set (dots := zlen (List.filter _ str)) in *.
    pose proof (zlen_split_two str ltac:(congruence)).
    unfold ref_segments. rewrite (pieces_other str Hlead).
    destruct (Z.ltb_spec 255 (dots + 1)).
    { destruct (Z.leb_spec (zlen (split_dots str)) 255); [lia|]. by rewrite andb_false_r. }
    pose proof (scan_spec (Z.to_nat (dots + 1)) str 0 (dots + 1) false [] Hne Hl ltac:(lia) ltac:(lia) ltac:(lia) eq_refl) as Hs.
    destruct (Z.leb_spec 2 (zlen (split_dots str))), (Z.leb_spec (zlen (split_dots str)) 255); try lia. cbn [andb].
    change (λ p, negb (bool_decide (p = []))) with nonempty in *. destruct (forallb nonempty _).
    + destruct Hs as (ds & -> & Hf). eexists. split; [done|]. eexists. split; [done|]. split; [lia|done].
    + rewrite Hs. by eexists.
Qed.
End scan.
