(* ===== verification/SymIntern.v ===== *)
(** * Interning: what the table holds afterwards, on every path *)

From S2P Require Import Prelude Hash HashProofs Arena Sym SymRing SymInv SymGrow SymSegs.
Local Open Scope Z_scope.

Definition segments_of (s : name) : list name := default [] (ref_segments s).
(** The names of [ps] that have no symbol, repetitions included. *)
Definition missing (l : list (option name)) (ps : list name) : list name := filter (λ p, Some p ∉ l) ps.

Lemma found_neg l s r : found l s r → r < 0 ↔ Some s ∉ l.
Proof.
  intros [[-> Hn]|Hr].
  - split; [done|lia].
  - pose proof (zget_Some _ _ _ Hr). split; [lia|]. intros Hn. by apply zget_elem in Hr.
Qed.
Lemma missing_cons l p ps : missing l (p :: ps) = if bool_decide (Some p ∉ l) then p :: missing l ps else missing l ps.
Proof. unfold missing. rewrite filter_cons. by case_decide; case_bool_decide. Qed.
Lemma zlen_missing l ps : zlen (missing l ps) ≤ zlen ps.
Proof.
  induction ps as [|p ps IH]; [done|]. rewrite missing_cons. case_bool_decide; rewrite ?zlen_cons; lia.
Qed.
Lemma bytes_upper len : 0 ≤ len < MAX_OBJECT → ray_sym_bytes_upper len = str_block len.
Proof.
  unfold MAX_OBJECT. intros Hl. unfold ray_sym_bytes_upper, str_block. destruct (len <? 7); [done|].
  rewrite wrap_id, land_align by (unfold in_u; lia). done.
Qed.
Lemma segs_bytes_block n : 0 ≤ n ≤ 255 → segs_bytes n = block (n * 8) ∧ 0 ≤ segs_bytes n < 2 ^ 32.
Proof.
  intros Hn. unfold segs_bytes, block. split; [done|]. rewrite wrap_id, land_align by (unfold in_u; lia).
  Z.to_euclidean_division_equations. lia.
Qed.
Lemma piece_bound s ps : ref_segments s = Some ps → zlen s < MAX_NAME →
  Forall (λ p, ref_segments p = None ∧ zlen p < MAX_NAME) ps.
Proof.
  intros [-> _]%ref_segments_pieces Hs. eapply Forall_impl; [apply pieces_plain|]. intros p [Hp Hl]. split; [done|lia].
Qed.

Section intern.
Context `{SysMem}.
Implicit Types (t : sym_table).

Lemma new_descs_missing l ds ps : Forall2 (desc_ok l) ds ps → zlen (new_descs ds) = zlen (missing l ps).
Proof.
  induction 1 as [|d p ds ps (Hn & Hh & Hf) _ IH]; [done|]. rewrite missing_cons. unfold new_descs in *. cbn.
  apply found_neg in Hf. rewrite (bool_decide_ext (Some p ∉ l) (d_id d < 0)) by tauto.
  case_bool_decide; destruct (Z.ltb_spec (d_id d) 0); rewrite ?zlen_cons; lia.
Qed.
Lemma new_seg_bytes_bound ds ps l : Forall2 (desc_ok l) ds ps → Forall (λ p, zlen p < MAX_NAME) ps →
  0 ≤ new_seg_bytes ds ≤ zlen ps * (MAX_NAME + 128).
Proof.
  unfold new_seg_bytes, new_descs. induction 1 as [|d p ds ps (Hn & _ & _) _ IH]; intros Hf; [done|].
  inversion Hf as [|? ? Hp Hf']; subst. specialize (IH Hf'). rewrite zlen_cons. cbn [List.filter].
  unfold MAX_NAME in *. destruct (d_id d <? 0); [|lia]. cbn [map]. unfold zsum in *. cbn [foldr].
  pose proof (zlen_nonneg (d_name d)).
  rewrite bytes_upper by (unfold MAX_OBJECT; lia). pose proof (str_block_bounds (zlen (d_name d))). lia.
Qed.

(** ** The segments' own symbols *)
Lemma commit_one t p : wf t → zlen p < MAX_NAME → ref_segments p = None →
  ∃ sid t1, sym_commit_new t (hash32 p) p = Some (sid, t1) ∧ wf t1 ∧
    ((sid = -1 ∧ ext t t1 []) ∨
     ∃ t2, set_scanned t1 sid = Some t2 ∧ wf t2 ∧ ext t t2 [Some p] ∧ sid = str_count t ∧
       (∀ k bytes, reserved t1 k bytes → reserved t2 k bytes)) ∧
    (∀ k bytes, reserved t k bytes → 1 ≤ k → str_block (zlen p) ≤ bytes →
       sid = str_count t ∧ reserved t1 (k - 1) (bytes - str_block (zlen p))).
Proof.
  intros Hwf Hp Hplain.
  destruct (sym_commit_new_spec t p Hwf) as (sid & t1 & Hc & Hwf1 & Hcase & Hres);  [done|].
  exists sid, t1. split_and!; try done. destruct Hcase as [Hno|[-> He]]; [by left|right].
  assert (Hs : (names t1).[str_count t] = Some (Some p)).
  { rewrite (ext_names _ _ _ He). rewrite zget_app_r by (rewrite zlen_names by done; lia).
    by rewrite zlen_names, Z.sub_diag by done. }
  destruct (wf_mark t1 Hwf1 (str_count t) p Hs) as (t2 & Hm & Hwf2 & He2 & _ & Ha & Hb & Hsc).
  { rewrite Hplain. pose proof (wf_segs t1 Hwf1 (str_count t)) as Hi. unfold id_ok in Hi. rewrite Hs in Hi.
    destruct (bit (dotted t1) (str_count t)) eqn:Hd; [|done].
    destruct Hi as [_ Hseg]; [apply wf_count, Hwf|]. destruct (Hseg eq_refl) as (? & ? & ? & _). congruence. }
  exists t2. split_and!; try done; [by eapply ext_trans_r|].
  intros k bytes. unfold reserved. by rewrite (ext_count t1 t2 [] Hwf1 Hwf2 He2), zlen_nil, Z.add_0_r, Ha, Hb, Hsc.
Qed.

(** [l] is the list of names the scanner saw. *)
Lemma commit_segments_spec l ds ps : Forall2 (desc_ok l) ds ps →
  Forall (λ p, ref_segments p = None ∧ zlen p < MAX_NAME) ps →
  ∀ t, wf t → stable l (names t) →
  ∃ r t', commit_segments t ds = Some (r, t') ∧ wf t' ∧
    match r with
    | None => True
    | Some ids => ext t t' (map Some (missing l ps)) ∧ Forall2 (λ i p, (names t').[i] = Some (Some p)) ids ps
    end ∧
    (∀ k bytes, reserved t (zlen (missing l ps) + k) (new_seg_bytes ds + bytes) → 0 ≤ k → 0 ≤ bytes →
       is_Some r ∧ reserved t' k bytes).
Proof.
  induction 1 as [|d p ds ps (Hn & Hh & Hf) Hds IH]; intros Hpl t Hwf Hst.
  { exists (Some []), t. split_and!; [done|done|apply sym_ext_refl|by constructor|].
    intros k bytes Hr _ _. split; [by eexists|]. exact Hr. }
  inversion Hpl as [|? ? [Hp1 Hp2] Hpl']; subst. cbn [commit_segments]. rewrite missing_cons.
  pose proof (found_neg _ _ _ Hf) as Hneg. destruct (Z.ltb_spec (d_id d) 0) as [Hlt|Hge].
  - rewrite bool_decide_eq_true_2 by tauto. rewrite Hh.
    destruct (commit_one t (d_name d) Hwf Hp2 Hp1) as (sid & t1 & -> & Hwf1 & Hcase & Hres1). cbn [mbind option_bind].
    assert (Hbytes : new_seg_bytes (d :: ds) = str_block (zlen (d_name d)) + new_seg_bytes ds).
    { unfold new_seg_bytes, new_descs. cbn [List.filter]. rewrite (proj2 (Z.ltb_lt _ _) Hlt). cbn.
      rewrite bytes_upper; [done|]. pose proof (zlen_nonneg (d_name d)). unfold MAX_NAME, MAX_OBJECT in *. lia. }
    assert (Hsplit : ∀ k bytes, reserved t (zlen (d_name d :: missing l ps) + k) (new_seg_bytes (d :: ds) + bytes) →
      0 ≤ k → 0 ≤ bytes → sid = str_count t ∧ reserved t1 (zlen (missing l ps) + k) (new_seg_bytes ds + bytes)).
    { intros k bytes Hr Hk Hb. rewrite zlen_cons in Hr. pose proof (zlen_nonneg (missing l ps)).
      assert (0 ≤ new_seg_bytes ds) by (eapply new_seg_bytes_bound; [exact Hds|];
        eapply Forall_impl; [exact Hpl'|]; by intros ? [_ ?]).
      destruct (Hres1 _ _ Hr) as [-> Hr']; [lia|lia|]. split; [done|]. eapply reserved_le; [exact Hr'|lia|lia]. }
    destruct Hcase as [[-> He1]|(t2 & Hm & Hwf2 & He2 & -> & Hr12)].
    + cbn. exists None, t1. split_and!; [done|done|done|]. intros k bytes Hr Hk Hb.
      destruct (Hsplit k bytes Hr Hk Hb) as [Hs _]. pose proof (wf_count t Hwf). lia.
    + pose proof (wf_count t Hwf). destruct (Z.ltb_spec (str_count t) 0); [lia|]. rewrite Hm. cbn [mbind option_bind].
      destruct (IH Hpl' t2 Hwf2) as (r & t' & -> & Hwf' & Hr & Hres).
      { rewrite (ext_names _ _ _ He2). etrans; [exact Hst|apply stable_app]. }
      cbn [mbind option_bind]. eexists _, t'. split; [done|]. split; [done|]. split.
      * destruct r as [ids|]; cbn; [|done]. destruct Hr as [He' Hids].
        split; [exact (sym_ext_trans _ _ _ _ _ He2 He')|]. constructor; [|done].
        rewrite (ext_names _ _ _ He'), (ext_names _ _ _ He2), <- app_assoc.
        rewrite zget_app_r by (rewrite zlen_names by done; lia). by rewrite zlen_names, Z.sub_diag by done.
      * intros k bytes Hr' Hk Hb. destruct (Hsplit k bytes Hr' Hk Hb) as [_ Hr1].
        destruct (Hres k bytes (Hr12 _ _ Hr1) Hk Hb) as [[ids ->] Hr2]. split; [by eexists|done].
  - rewrite bool_decide_eq_false_2 by (rewrite <- Hneg; lia).
    destruct (IH Hpl' t Hwf Hst) as (r & t' & -> & Hwf' & Hr & Hres). cbn [mbind option_bind].
    assert (Hbytes : new_seg_bytes (d :: ds) = new_seg_bytes ds).
    { unfold new_seg_bytes, new_descs. cbn [List.filter]. by rewrite (proj2 (Z.ltb_ge _ _) Hge). }
    eexists _, t'. split; [done|]. split; [done|]. split.
    + destruct r as [ids|]; cbn; [|done]. destruct Hr as [He' Hids]. split; [done|]. constructor; [|done].
      destruct Hf as [[? _]|Hf]; [lia|]. rewrite (ext_names _ _ _ He'). by apply stable_app, Hst.
    + intros k bytes Hr' Hk Hb. rewrite Hbytes in Hr'. destruct (Hres k bytes Hr' Hk Hb) as [[ids ->] Hr2].
      split; [by eexists|done].
Qed.

(** ** Storing the segments of a name *)
Lemma store_segs_spec t id s ps ids : wf t → (names t).[id] = Some (Some s) → ref_segments s = Some ps →
  Forall2 (λ i p, (names t).[i] = Some (Some p)) ids ps →
  ∃ t1 t2, store_segs t id (zlen ps) ids = Some t1 ∧ set_scanned t1 id = Some t2 ∧ wf t2 ∧ ext t t2 [] ∧
    bit (scanned t2) id = true.
Proof.
  intros Hwf Hs Hps Hids. pose proof (zget_Some _ _ _ Hs) as Hr. rewrite zlen_names in Hr by done.
  destruct (in_range t Hwf id Hr) as (_ & Hd & _ & Hg). unfold store_segs.
  destruct (zset_total (segments t) id (Segs (zlen ps) (Some ids))) as [g Hgz]; [lia|]. rewrite Hgz. cbn [mbind option_bind].
  destruct (set_bit_spec (dotted t) id) as (w & -> & Hwl & Hwb); [lia|]. cbn [mbind option_bind].
  set (t1 := with_dotted (with_segments t g (clock t)) w (clock t)).
  assert (Hsi : segs_inv (names t) w (scanned t) g).
  { eapply segs_inv_store; [apply wf_segs, Hwf|exact Hs|by rewrite Hps| |intros j Hj|exact Hwb].
    - exists ps, ids. split; [done|]. split; [|done]. by eapply zget_zset_eq.
    - eapply zget_zset_ne; [exact Hgz|congruence]. }
  assert (Hwf1 : wf t1).
  { pose proof (zlen_zset _ _ _ _ Hgz). destruct Hwf. split; try done; cbn; lia. }
  destruct (wf_mark t1 Hwf1 id s) as (t2 & Hm & Hwf2 & He2 & Hb2 & _); [exact Hs|cbn|].
  { rewrite Hwb, Z.eqb_refl, Hps by lia. by rewrite bool_decide_eq_true_2. }
  exists t1, t2. split_and!; try done. eapply ext_trans_nil; [|exact He2]. split; [by rewrite app_nil_r|done..].
Qed.

(** What the reservation of a dotted name asks for. *)
Lemma request_bound t s ps ds : ref_segments s = Some ps → zlen s < MAX_NAME → Forall2 (desc_ok (names t)) ds ps →
  0 ≤ new_seg_bytes ds ≤ 255 * (MAX_NAME + 128) ∧ 0 ≤ segs_bytes (zlen ps) < 2 ^ 32.
Proof.
  intros Hps Hs Hds. pose proof (ref_segments_pieces _ _ Hps) as [_ Hl]. split.
  - pose proof (new_seg_bytes_bound ds ps _ Hds) as Hb. unfold MAX_NAME in *.
    assert (Forall (λ p : name, zlen p < 2 ^ 48) ps); [|specialize (Hb ltac:(done)); lia].
    eapply Forall_impl; [by eapply piece_bound|]. by intros ? [_ ?].
  - apply segs_bytes_block. lia.
Qed.

Lemma sym_cache_segments_spec t id s : wf t → (names t).[id] = Some (Some s) → zlen s < MAX_NAME →
  ∃ ok t', sym_cache_segments t id s = Some (ok, t') ∧ wf t' ∧
    if ok : bool
    then bit (scanned t') id = true ∧ (ext t t' [] ∨ ext t t' (map Some (missing (names t) (segments_of s))))
    else ext t t' [].
Proof.
  intros Hwf Hs Hl. pose proof (zget_Some _ _ _ Hs) as Hr. rewrite zlen_names in Hr by done.
  destruct (in_range t Hwf id Hr) as (_ & _ & Hsc & _). unfold sym_cache_segments.
  rewrite get_bit_spec by lia. cbn [mbind option_bind].
  destruct (bit (scanned t) id) eqn:Hseen; [exists true, t; split_and!; try done; left; apply sym_ext_refl|].
  assert (Hplain : ref_segments s = None →
    ∃ ok t', (t ← set_scanned t id; Some (true, t)) = Some (ok, t') ∧ wf t' ∧
    if ok : bool then bit (scanned t') id = true ∧ (ext t t' [] ∨ ext t t' (map Some (missing (names t) (segments_of s))))
    else ext t t' []).
  { intros Hp. destruct (wf_mark t Hwf id s Hs) as (t' & -> & Hwf' & He & Hb & _).
    - pose proof (wf_segs t Hwf id ltac:(lia)) as Hi. unfold id_ok in Hi. rewrite Hs in Hi.
      rewrite Hp. destruct (bit (dotted t) id); [|done]. destruct Hi as [_ Hi].
      destruct (Hi eq_refl) as (? & ? & ? & _). congruence.
    - exists true, t'. split_and!; try done. by left. }
  pose proof (dotted_shape_spec t Hwf s) as Hshape. destruct (dotted_shape s) as [[n leading]|]; [|by apply Hplain].
  destruct Hshape as (r & -> & Hr'). cbn [mbind option_bind]. destruct r as [ds|]; [|by apply Hplain].
  destruct Hr' as (ps & Hps & <- & Hds). clear Hplain.
  destruct (request_bound t s ps ds Hps Hl Hds) as [Hb1 Hb2]. unfold MAX_NAME in Hb1.
  destruct (sym_reserve_capacity_spec t (zlen (new_descs ds)) (new_seg_bytes ds + segs_bytes (zlen ps)) Hwf)
    as (ok & t1 & -> & Hwf1 & He1 & Hres); [apply zlen_nonneg|lia|]. cbn [mbind option_bind].
  destruct ok; cbn [negb]; [|by exists false, t1]. specialize (Hres eq_refl).
  rewrite (new_descs_missing _ _ _ Hds) in Hres.
  assert (zlen ds = zlen ps) as Hzl by (unfold zlen; f_equal; by eapply Forall2_length).
  rewrite Hzl, Z.eqb_refl. cbn [negb].
  pose proof (ext_names _ _ _ He1) as Hnm1. rewrite app_nil_r in Hnm1.
  destruct (commit_segments_spec (names t) ds ps Hds (piece_bound s ps Hps Hl) t1 Hwf1) as (r & t2 & -> & Hwf2 & Hr2 & Hres2).
  { by rewrite Hnm1. }
  destruct (Hres2 0 (segs_bytes (zlen ps))) as [[ids ->] (_ & _ & Hav)];
    [eapply reserved_le; [exact Hres|lia|lia]|lia|lia|].
  cbn [mbind option_bind]. destruct Hr2 as [He2 Hids].
  pose proof (ref_segments_pieces _ _ Hps) as [_ Hpl]. destruct (segs_bytes_block (zlen ps)) as [Hsb _]; [lia|].
  destruct (arena_alloc_spec (clock t2) (arena t2) (zlen ps * 8)) as (ok & a & clk & -> & Ha & Hok);
    [apply wf_arena, Hwf2|lia|]. cbn [mbind option_bind]. destruct Hok as [-> _]; [lia|]. cbn [negb].
  destruct (wf_with_arena t2 Hwf2 a clk Ha) as [Hwf3 He3].
  destruct (store_segs_spec (with_arena t2 a clk) id s ps ids) as (t3 & t4 & -> & Hm & Hwf4 & He4 & Hb4); [done| |done|done|].
  { change (names (with_arena t2 a clk)) with (names t2). rewrite (ext_names _ _ _ He2), Hnm1. by apply stable_app. }
  cbn [mbind option_bind]. rewrite Hm. cbn [mbind option_bind]. exists true, t4. split_and!; try done. right.
  unfold segments_of. rewrite Hps. cbn [default from_option].
  eapply ext_trans_nil; [exact He1|]. eapply ext_trans_r; [exact He2|]. by eapply ext_trans_nil.
Qed.

(** ** A name that has no symbol *)
Definition shape_ok t (str : name) (shape : option (Z * list desc)) : Prop :=
  match shape with
  | None => ref_segments str = None
  | Some (n, ds) => ∃ ps, ref_segments str = Some ps ∧ zlen ps = n ∧ Forall2 (desc_ok (names t)) ds ps
  end.

(** The last steps, once the segments have symbols. *)
Lemma intern_finish t str ps ids (shape : bool) :
  wf t → zlen str < MAX_NAME → ref_segments str = (if shape then Some ps else None) →
  (shape = true → Forall2 (λ i p, (names t).[i] = Some (Some p)) ids ps) →
  reserved t 1 (str_block (zlen str) + if shape then segs_bytes (zlen ps) else 0) →
  ∃ t', ('(main_id, t) ← sym_commit_new t (hash32 str) str;
    if main_id <? 0 then Some (-1, t) else
    if shape then
      '(ok, a, clk) ← ray_arena_alloc (clock t) (arena t) (zlen ps * 8);
      let t := with_arena t a clk in
      if negb ok then Some (main_id, t) else
      t ← store_segs t main_id (zlen ps) ids;
      t ← set_scanned t main_id;
      Some (main_id, t)
    else t ← set_scanned t main_id; Some (main_id, t)) = Some (str_count t, t') ∧
    wf t' ∧ ext t t' [Some str] ∧ bit (scanned t') (str_count t) = true.
Proof.
  intros Hwf Hl Hps Hids Hres. pose proof (wf_count t Hwf).
  destruct (sym_commit_new_spec t str Hwf) as (id & t1 & -> & Hwf1 & Hcase & Hr1); [done|].
  destruct (Hr1 _ _ Hres) as [-> (_ & _ & Hav)]; [lia|destruct shape; [|lia]|].
  { pose proof (ref_segments_pieces _ _ Hps) as [_ ?]. pose proof (segs_bytes_block (zlen ps)). lia. }
  cbn [mbind option_bind]. destruct (Z.ltb_spec (str_count t) 0); [lia|].
  assert (He1 : ext t t1 [Some str]) by (destruct Hcase as [[? _]|[_ ?]]; [lia|done]).
  assert (Hs : (names t1).[str_count t] = Some (Some str)).
  { rewrite (ext_names _ _ _ He1). rewrite zget_app_r by (rewrite zlen_names by done; lia).
    by rewrite zlen_names, Z.sub_diag by done. }
  destruct shape.
  - pose proof (ref_segments_pieces _ _ Hps) as [_ Hpl]. destruct (segs_bytes_block (zlen ps)) as [Hsb _]; [lia|].
    destruct (arena_alloc_spec (clock t1) (arena t1) (zlen ps * 8)) as (ok & a & clk & -> & Ha & Hok);
      [apply wf_arena, Hwf1|lia|]. cbn [mbind option_bind]. destruct Hok as [-> _]; [lia|]. cbn [negb].
    destruct (wf_with_arena t1 Hwf1 a clk Ha) as [Hwf2 He2].
    destruct (store_segs_spec (with_arena t1 a clk) (str_count t) str ps ids)
      as (t3 & t4 & -> & Hm & Hwf4 & He4 & Hb4); [done|done|done| |].
    { eapply Forall2_impl; [by apply Hids|]. intros i p Hp. cbn. change (names (with_arena t1 a clk)) with (names t1).
      rewrite (ext_names _ _ _ He1). by apply stable_app. }
    cbn [mbind option_bind]. rewrite Hm. cbn [mbind option_bind]. exists t4. split_and!; try done.
    eapply ext_trans_r; [exact He1|]. by eapply ext_trans_nil.
  - destruct (wf_mark t1 Hwf1 (str_count t) str Hs) as (t2 & -> & Hwf2 & He2 & Hb2 & _).
    + rewrite Hps. pose proof (wf_segs t1 Hwf1 (str_count t) ltac:(lia)) as Hi. unfold id_ok in Hi. rewrite Hs in Hi.
      destruct (bit (dotted t1) (str_count t)); [|done]. destruct Hi as [_ Hi].
      destruct (Hi eq_refl) as (? & ? & ? & _). congruence.
    + exists t2. split_and!; try done. by eapply ext_trans_r.
Qed.

Definition fresh_names (l : list (option name)) (s : name) : list (option name) :=
  map Some (missing l (segments_of s)) ++ [Some s].

Lemma intern_new_spec t str shape : wf t → zlen str < MAX_NAME → shape_ok t str shape →
  ∃ id t', intern_new t (hash32 str) str shape = Some (id, t') ∧ wf t' ∧
    ((id = -1 ∧ ext t t' []) ∨
     (id = zlen (names t') - 1 ∧ ext t t' (fresh_names (names t) str) ∧ bit (scanned t') id = true)).
Proof.
  intros Hwf Hl Hsh. unfold intern_new.
  pose proof (bytes_upper (zlen str)) as Hup. pose proof (str_block_bounds (zlen str) (zlen_nonneg str)) as Hsb.
  pose proof (zlen_nonneg str). unfold MAX_NAME, MAX_OBJECT in *. rewrite Hup by lia.
  destruct shape as [[n ds]|]; cbn [shape_ok] in Hsh.
  - destruct Hsh as (ps & Hps & <- & Hds).
    destruct (request_bound t str ps ds Hps Hl Hds) as [Hb1 Hb2]. unfold MAX_NAME in Hb1.
    edestruct (sym_reserve_capacity_spec t (1 + zlen (new_descs ds))) as (ok & t1 & -> & Hwf1 & He1 & Hres);
      [exact Hwf|pose proof (zlen_nonneg (new_descs ds)); lia|shelve|]. Unshelve. 2: { lia. }
    cbn [mbind option_bind]. destruct ok; cbn [negb]; [|exists (-1), t1; split_and!; try done; by left].
    specialize (Hres eq_refl). rewrite (new_descs_missing _ _ _ Hds) in Hres.
    assert (zlen ds = zlen ps) as -> by (unfold zlen; f_equal; by eapply Forall2_length).
    rewrite Z.eqb_refl. cbn [negb].
    pose proof (ext_names _ _ _ He1) as Hnm1. rewrite app_nil_r in Hnm1.
    destruct (commit_segments_spec (names t) ds ps Hds (piece_bound str ps Hps Hl) t1 Hwf1)
      as (r & t2 & -> & Hwf2 & Hr2 & Hres2); [by rewrite Hnm1|].
    destruct (Hres2 1 (str_block (zlen str) + segs_bytes (zlen ps))) as [[ids ->] Hr3];
      [eapply reserved_le; [exact Hres|lia|lia]|lia|lia|].
    cbn [mbind option_bind]. destruct Hr2 as [He2 Hids].
    destruct (intern_finish t2 str ps ids true) as (t3 & Hf & Hwf3 & He3 & Hb3); [done..|].
    exists (str_count t2), t3. split; [exact Hf|]. split; [done|]. right.
    assert (He : ext t t3 (fresh_names (names t) str)).
    { unfold fresh_names, segments_of. rewrite Hps. eapply ext_trans_nil; [exact He1|]. by eapply sym_ext_trans. }
    split_and!; try done. rewrite (ext_names _ _ _ He3), zlen_app, zlen_names by done.
    rewrite zlen_cons, zlen_nil. lia.
  - destruct (sym_reserve_capacity_spec t (1 + 0) (str_block (zlen str) + 0) Hwf) as (ok & t1 & -> & Hwf1 & He1 & Hres);
      [lia|lia|]. cbn [mbind option_bind]. destruct ok; cbn [negb]; [|exists (-1), t1; split_and!; try done; by left].
    specialize (Hres eq_refl). cbn [mbind option_bind].
    destruct (intern_finish t1 str [] [] false) as (t3 & Hf & Hwf3 & He3 & Hb3); [done..|].
    exists (str_count t1), t3. split; [exact Hf|]. split; [done|]. right.
    split_and!; try done.
    + rewrite (ext_names _ _ _ He3), zlen_app, zlen_names by done. rewrite zlen_cons, zlen_nil. lia.
    + unfold fresh_names, segments_of. rewrite Hsh. by eapply ext_trans_nil.
Qed.
End intern.
