(* ===== verification/SymOps.v ===== *)
(** * Every operation of the symbol table keeps the invariant *)

From Stdlib Require Import SpecFloat.
From S2P Require Import Prelude Hash HashProofs Arena Sym SymRing SymInv SymGrow SymSegs SymIntern.
Local Open Scope Z_scope.

(** What callers may rely on across any operation. *)
Record evolves (t t' : sym_table) : Prop := Evolves {
  ev_stable : stable (names t) (names t');
  ev_scanned : ∀ id, 0 ≤ id → bit (scanned t) id = true → bit (scanned t') id = true
}.
#[global] Instance evolves_preorder : PreOrder evolves.
Proof.
  split; [intros t; by split|]. intros t1 t2 t3 [S1 B1] [S2 B2]. split; [by etrans|auto].
Qed.
Lemma ext_evolves t t' l : ext t t' l → evolves t t'.
Proof. intros [Hn _ Hs]. split; [rewrite Hn; apply stable_app|done]. Qed.

Lemma evolves_count t t' : wf t → wf t' → zlen (names t) ≤ zlen (names t') → str_count t ≤ str_count t'.
Proof. intros. by rewrite <- !zlen_names by done. Qed.

Lemma le_dec_range l : byte_list l → 0 ≤ le_dec l < 2 ^ (8 * zlen l).
Proof.
  induction 1 as [|b l [H0 H1] _ IH]; [done|]. cbn [le_dec]. rewrite zlen_cons. change (2 ^ 8) with 256 in H1.
  replace (8 * (1 + zlen l)) with (8 + 8 * zlen l) by lia. pose proof (zlen_nonneg l).
  rewrite Z.pow_add_r by lia. change (2 ^ 8) with 256. lia.
Qed.

Section ops.
Context `{SysMem}.
Implicit Types (t : sym_table).

(** ** The mapped dictionary *)
Lemma take_fill {A} (l : list A) n i x : 0 ≤ i < n → n ≤ zlen l →
  take (Z.to_nat n) (<[Z.to_nat i := x]> l) = <[Z.to_nat i := x]> (take (Z.to_nat n) l).
Proof. intros Hi Hn. apply take_insert_lt. lia. Qed.

(** The atom of record [id] goes in. *)
Lemma fill_spec t id s : wf t → zlen s < MAX_NAME → (names t).[id] = Some None →
  ∃ l h b, zset (strings t) id (Some s) = Some l ∧ ray_hash_bytes s = Some h ∧
    ht_insert (buckets t) (bucket_cap t) (u32 h) id = Some b ∧
    let t' := with_ht (with_strings t l (str_count t) (clock t)) b (bucket_cap t) (clock t) in
    wf t' ∧ evolves t t' ∧ names t' = <[Z.to_nat id := Some s]> (names t).
Proof.
  intros Hwf Hsh Hn. pose proof (zget_Some _ _ _ Hn) as Hid. rewrite zlen_names in Hid by done.
  destruct (in_range t Hwf id Hid) as (Hl & _). pose proof (count_max t Hwf) as Hm.
  pose proof (wf_strings t Hwf). pose proof (wf_count t Hwf). pose proof (zlen_names t Hwf) as Hzn.
  destruct (hash_Some s) as [h Hh].
  pose proof (wf_index t Hwf) as (_ & _ & _ & Hlt & Hms).
  destruct (wf_ht_insert _ _ _ (wf_index t Hwf) s id (<[Z.to_nat id := Some s]> (names t))) as (b & Hins & Hwb);
    [lia|by rewrite zlen_insert|by rewrite zlen_insert|by rewrite expected_fill|].
  rewrite (zset_Some (strings t)) by lia. eexists _, h, b. split; [done|]. split; [done|].
  rewrite (hash32_eq s h Hh). split; [done|]. intros t'.
  assert (Hnm : names t' = <[Z.to_nat id := Some s]> (names t)) by (cbn; apply take_fill; lia).
  assert (Hst : stable (names t) (names t')) by (rewrite Hnm; by apply stable_fill).
  assert (Hsi : segs_inv (names t') (dotted t) (scanned t) (segments t)) by (by eapply segs_inv_stable, Hst; apply wf_segs).
  split; [|by split]. destruct Hwf. split; try done.
  - cbn. by rewrite Hnm.
  - cbn. by rewrite zlen_insert.
  - rewrite Hnm. by apply Forall_insert.
Qed.

Lemma peek_Some l n : 0 ≤ lazy_pos l → 0 ≤ n → lazy_pos l + n ≤ zlen (lazy_map l) → byte_list (lazy_map l) →
  ∃ bs, peek l n = Some bs ∧ zlen bs = n ∧ byte_list bs.
Proof.
  intros Hp Hn Hl Hb. unfold peek. rewrite rd_Some by (rewrite length_drop; unfold zlen in Hl; lia).
  eexists. split; [done|]. split; [autorewrite with zlen; lia|]. by apply Forall_take, Forall_drop.
Qed.

Lemma wf_with_lazy t x : wf t → lazy_ok (str_count t) x → wf (with_lazy t x) ∧ evolves t (with_lazy t x).
Proof. intros Hwf Hx. split; [by destruct Hwf|by split]. Qed.

Lemma materialize_next_spec t l : wf t → lazy t = Some l → lazy_next_id l < lazy_count l →
  ∃ ok t' l', materialize_next t l = Some (ok, t') ∧ wf t' ∧ evolves t t' ∧ str_count t' = str_count t ∧
    lazy t' = Some l' ∧ lazy_count l' = lazy_count l ∧ (ok = true → lazy_next_id l' = lazy_next_id l + 1).
Proof.
  intros Hwf Hlz Hnext. pose proof (wf_lazy t Hwf) as Hok. rewrite Hlz in Hok.
  destruct Hok as (Hby & Hmax & Hpos & Hrem & Hsum & Hnid & Hcnt). unfold materialize_next.
  destruct (Z.ltb_spec (lazy_remaining l) 4); [by exists false, t, l|].
  destruct (peek_Some l 4) as (bs & -> & Hbl & Hbb); [lia..|done|]. cbn [mbind option_bind].
  pose proof (le_dec_range bs Hbb) as Hsl. set (slen := le_dec bs) in *.
  set (l1 := advance l 4). assert (Hok1 : lazy_ok (str_count t) (Some l1)) by (cbn; split_and!; (done || lia)).
  destruct (wf_with_lazy t (Some l1) Hwf Hok1) as [Hwf1 He1]. set (t1 := with_lazy t (Some l1)) in *.
  change (lazy_remaining l1) with (lazy_remaining l - 4).
  destruct (Z.ltb_spec (lazy_remaining l - 4) slen); [by exists false, t1, l1|].
  destruct (peek_Some l1 slen) as (sp & -> & Hspl & Hspb); [cbn; lia..|done|]. cbn [mbind option_bind].
  change (lazy_next_id l1) with (lazy_next_id l). change (strings t1) with (strings t).
  rewrite (names_get t) by lia.
  destruct (zget_is_Some (names t) (lazy_next_id l)) as [o Ho]; [rewrite zlen_names by done; lia|].
  rewrite Ho. cbn [mbind option_bind].
  assert (Hdone : ∀ t2, wf t2 → evolves t t2 → str_count t2 = str_count t →
    ∃ ok t' l', Some (true, with_lazy t2 (Some (next_record (advance l1 slen)))) = Some (ok, t') ∧ wf t' ∧ evolves t t' ∧
      str_count t' = str_count t ∧ lazy t' = Some l' ∧ lazy_count l' = lazy_count l ∧
      (ok = true → lazy_next_id l' = lazy_next_id l + 1)).
  { intros t2 Hwf2 He2 Hc2. destruct (wf_with_lazy t2 (Some (next_record (advance l1 slen))) Hwf2) as [Hwf3 He3].
    - rewrite Hc2. cbn. split_and!; (done || lia).
    - eexists true, _, _. split; [done|]. split; [done|]. split; [by etrans|]. done. }
  destruct o as [e|].
  - cbn [mbind option_bind]. destruct (_ && _); cbn [negb]; [by apply Hdone|by exists false, t1, l1].
  - destruct (arena_str_spec (clock t1) (arena t1) slen) as (ok & a & clk & -> & Ha & _);
      [apply wf_arena, Hwf1|lia|]. cbn [mbind option_bind].
    destruct (wf_with_arena t1 Hwf1 a clk Ha) as [Hwf2 He2].
    destruct ok; cbn [negb].
    + assert (Hshort : zlen sp < MAX_NAME) by (rewrite Hbl in Hsl; unfold MAX_NAME; lia).
      destruct (fill_spec (with_arena t1 a clk) (lazy_next_id l) sp Hwf2 Hshort Ho) as (ls & h & b & Hz & -> & Hi & Hwf3 & He3 & _).
      cbn [strings with_arena] in Hz |- *. change (strings t) with (strings t1). rewrite Hz. cbn [mbind option_bind].
      cbn [buckets bucket_cap with_arena with_lazy] in Hi |- *. rewrite Hi. cbn [mbind option_bind negb].
      apply Hdone; [exact Hwf3| |done]. etrans; [exact He1|]. etrans; [by eapply ext_evolves|exact He3].
    + cbn [mbind option_bind negb]. exists false, (with_arena t1 a clk), l1. by split_and!.
Qed.

Lemma materialize_loop_spec (fuel : nat) : ∀ t l target, wf t → lazy t = Some l → target < lazy_count l →
  target - lazy_next_id l + 1 ≤ Z.of_nat fuel →
  ∃ ok t' l', materialize_loop fuel t target = Some (ok, t') ∧ wf t' ∧ evolves t t' ∧ str_count t' = str_count t ∧
    lazy t' = Some l' ∧ lazy_count l' = lazy_count l ∧ (ok = true → target < lazy_next_id l').
Proof.
  induction fuel as [|fuel IH]; intros t l target Hwf Hl Ht Hf; cbn [materialize_loop]; rewrite Hl;
    (destruct (Z.leb_spec (lazy_next_id l) target); [|by exists true, t, l]); [lia|].
  destruct (materialize_next_spec t l Hwf Hl) as (ok & t1 & l1 & -> & Hwf1 & He1 & Hc1 & Hl1 & Hcnt1 & Hok1); [lia|].
  cbn [mbind option_bind]. destruct ok; cbn [negb]; [|by exists false, t1, l1]. specialize (Hok1 eq_refl).
  destruct (IH t1 l1 target Hwf1 Hl1) as (ok & t2 & l2 & -> & Hwf2 & He2 & Hc2 & Hl2 & Hcnt2 & Hok2); [lia|lia|].
  exists ok, t2, l2. split_and!; try done; [by etrans|congruence|congruence].
Qed.

Lemma materialize_spec t target : wf t → 0 ≤ target →
  ∃ ok t', sym_lazy_materialize_to_locked t target = Some (ok, t') ∧ wf t' ∧ evolves t t' ∧ str_count t' = str_count t.
Proof.
  intros Hwf Ht. unfold sym_lazy_materialize_to_locked. destruct (lazy t) as [l|] eqn:Hl; [|by exists false, t].
  destruct (Z.leb_spec (lazy_count l) target); [by exists false, t|].
  pose proof (wf_lazy t Hwf) as Hok. rewrite Hl in Hok. destruct Hok as (_ & _ & _ & _ & _ & Hn & Hc).
  destruct (Z.ltb_spec target (lazy_next_id l)).
  - rewrite (names_get t) by lia.
    destruct (zget_is_Some (names t) target) as [o ->]; [rewrite zlen_names by done; lia|]. cbn. by eexists _, t.
  - destruct (materialize_loop_spec (Z.to_nat (target - lazy_next_id l + 1)) t l target Hwf Hl)
      as (ok & t' & l' & -> & ? & ? & ? & _); [lia|lia|]. by exists ok, t'.
Qed.

(** ** Searching and interning *)
Lemma probe_or_materialize_spec t str search_lazy : wf t →
  ∃ r, probe_or_materialize t (hash32 str) str search_lazy = Some r ∧
    match r with
    | inr t' => wf t' ∧ evolves t t'
    | inl (e, t') => wf t' ∧ evolves t t' ∧ found (names t') str e ∧ (lazy_pending t = None ∨ search_lazy = false → t' = t)
    end ∧ (lazy_pending t = None ∨ search_lazy = false → ∃ e, r = inl (e, t)).
Proof.
  intros Hwf. unfold probe_or_materialize. destruct (sym_probe_spec t (wf_index t Hwf) str) as (e & -> & Hf).
  cbn [mbind option_bind].
  assert (Hid : ∃ r : Z * sym_table + sym_table, Some (inl (e, t)) = Some r ∧
    match r with
    | inr t' => wf t' ∧ evolves t t'
    | inl (e, t') => wf t' ∧ evolves t t' ∧ found (names t') str e ∧ (lazy_pending t = None ∨ search_lazy = false → t' = t)
    end ∧ (lazy_pending t = None ∨ search_lazy = false → ∃ e, r = inl (e, t))).
  { eexists. split; [done|]. split; [by split_and!|]. by eexists. }
  destruct (lazy_pending t) as [l|] eqn:Hp; [|exact Hid]. destruct search_lazy; cbn [andb]; [|exact Hid].
  destruct (Z.ltb_spec e 0); [|eexists; split; [done|]; split; [by split_and!|]; by eexists].
  unfold lazy_pending in Hp. destruct (lazy t) as [l'|] eqn:Hl; [|done].
  destruct (Z.ltb_spec (lazy_next_id l') (lazy_count l')); [|done]. injection Hp as ->.
  pose proof (wf_lazy t Hwf) as Hok. rewrite Hl in Hok. destruct Hok as (_ & _ & _ & _ & _ & Hn & Hc).
  destruct (materialize_spec t (lazy_count l - 1) Hwf) as (ok & t' & -> & Hwf' & He' & _); [lia|].
  cbn [mbind option_bind]. destruct ok; cbn [negb].
  - destruct (sym_probe_spec t' (wf_index t' Hwf') str) as (e' & -> & Hf'). cbn [mbind option_bind].
    eexists. split; [done|]. split; [|by intros [?|?]]. split_and!; try done. by intros [?|?].
  - eexists. split; [done|]. split; [done|]. by intros [?|?].
Qed.

(** What interning does to the list of names, when no mapped file is searched. *)
Definition interned (l : list (option name)) (str : name) (l' : list (option name)) (id : Z) : Prop :=
  (Some str ∈ l ∧ l.[id] = Some (Some str) ∧ (l' = l ∨ l' = l ++ map Some (missing l (segments_of str)))) ∨
  ((Some str ∉ l) ∧ ((id = -1 ∧ l' = l) ∨ (id = zlen l' - 1 ∧ l' = l ++ fresh_names l str))).
Lemma ext_names_eq t t' l : ext t t' l → names t' = names t ++ l.
Proof. by intros [? _ _]. Qed.

Lemma sym_intern_nolock_spec t str search_lazy : wf t → zlen str < MAX_NAME →
  ∃ id t', sym_intern_nolock t (hash32 str) str search_lazy = Some (id, t') ∧ wf t' ∧ evolves t t' ∧
    (id = -1 ∨ (names t').[id] = Some (Some str)) ∧
    (lazy_pending t = None ∨ search_lazy = false →
       interned (names t) str (names t') id ∧ lazy t' = lazy t ∧
       (id ≠ -1 → Some str ∉ names t → bit (scanned t') id = true)).
Proof.
  intros Hwf Hl. unfold sym_intern_nolock.
  destruct (probe_or_materialize_spec t str search_lazy Hwf) as (r & -> & Hr & Hid). cbn [mbind option_bind].
  destruct r as [[e t1]|t1].
  2: { destruct Hr as [Hwf1 He1]. exists (-1), t1. split; [done|]. split; [done|]. split; [done|]. split; [by left|].
       intros Hno. by destruct (Hid Hno). }
  destruct Hr as (Hwf1 & He1 & Hf & Heq). pose proof (found_neg _ _ _ Hf) as Hneg. destruct (Z.leb_spec 0 e).
  - destruct Hf as [[? _]|Hf]; [lia|].
    destruct (sym_cache_segments_spec t1 e str Hwf1 Hf Hl) as (ok & t2 & -> & Hwf2 & Hc). cbn [mbind option_bind].
    assert (∃ l, ext t1 t2 l ∧ (l = [] ∨ l = map Some (missing (names t1) (segments_of str)))) as (l & He2 & Hl2).
    { destruct ok; [destruct Hc as [_ [Hc|Hc]]|]; eauto. }
    pose proof (ext_names_eq _ _ _ He2) as Hn2.
    exists e, t2. split; [done|]. split; [done|]. split; [etrans; [done|by eapply ext_evolves]|].
    split; [right; rewrite Hn2; by apply stable_app|]. intros Hno. specialize (Heq Hno). subst t1.
    assert (Hin : Some str ∈ names t) by (by eapply zget_elem). split; [|by split; [apply He2|]].
    left. split; [done|]. split; [done|]. rewrite Hn2. destruct Hl2 as [-> | ->]; [left; apply app_nil_r|by right].
  - pose proof (dotted_shape_spec t1 Hwf1 str) as Hshape.
    assert (∃ shape, (match dotted_shape str with
        | None => Some None
        | Some (nsegs, leading) =>
            ds ← scan_segments (Z.to_nat nsegs) t1 str 0 nsegs leading [];
            Some (ds ← ds; Some (nsegs, ds))
        end) = Some shape ∧ shape_ok t1 str shape) as (shape & -> & Hsh).
    { destruct (dotted_shape str) as [[n leading]|]; [|by eexists].
      destruct Hshape as (r & -> & Hr). cbn. destruct r as [ds|]; [|by eexists]. eexists. split; [done|].
      exact Hr. }
    cbn [mbind option_bind].
    destruct (intern_new_spec t1 str shape Hwf1 Hl Hsh) as (id & t2 & -> & Hwf2 & Hc).
    assert (Hnin : Some str ∉ names t1) by tauto.
    exists id, t2. split; [done|]. split; [done|]. destruct Hc as [[-> He2]|(-> & He2 & Hb)];
      pose proof (ext_names_eq _ _ _ He2) as Hn2; (split; [etrans; [done|by eapply ext_evolves]|]).
    + split; [by left|]. intros Hno. specialize (Heq Hno). subst t1. split; [|by split; [apply He2|]]. right. split; [done|]. left.
      by rewrite Hn2, app_nil_r.
    + split.
      { right. rewrite Hn2. unfold fresh_names. rewrite app_assoc, zget_app_r by (rewrite (zlen_app _ [_]), zlen_cons, zlen_nil; lia).
        rewrite (zlen_app _ [_]), zlen_cons, zlen_nil. by rewrite Z.add_0_r, Z.add_simpl_r, Z.sub_diag. }
      intros Hno. specialize (Heq Hno). subst t1. split; [|by split; [apply He2|]]. right. split; [done|]. right. by rewrite Hn2.
Qed.

Lemma sym_intern_nolock_noseg_spec t str : wf t → zlen str < MAX_NAME →
  ∃ id t', sym_intern_nolock_noseg t (hash32 str) str = Some (id, t') ∧ wf t' ∧ evolves t t' ∧
    (id = -1 ∨ (names t').[id] = Some (Some str)) ∧
    (lazy_pending t = None →
       (names t' = names t ∧ (names t).[id] = Some (Some str)) ∨
       ((Some str ∉ names t) ∧ ((id = -1 ∧ names t' = names t) ∨ (id = zlen (names t) ∧ names t' = names t ++ [Some str])))) ∧
    (lazy_pending t = None → lazy t' = lazy t).
Proof.
  intros Hwf Hl. unfold sym_intern_nolock_noseg.
  destruct (probe_or_materialize_spec t str true Hwf) as (r & -> & Hr & Hid). cbn [mbind option_bind].
  destruct r as [[e t1]|t1].
  2: { destruct Hr as [Hwf1 He1]. exists (-1), t1. split_and!; try done; [by left|intros Hno..];
       by destruct (Hid (or_introl Hno)). }
  destruct Hr as (Hwf1 & He1 & Hf & Heq). pose proof (found_neg _ _ _ Hf) as Hneg. destruct (Z.leb_spec 0 e).
  - destruct Hf as [[? _]|Hf]; [lia|]. exists e, t1. split_and!; try done; [by right| |].
    + intros Hno. rewrite (Heq (or_introl Hno)) in *. by left.
    + intros Hno. by rewrite (Heq (or_introl Hno)).
  - destruct (sym_commit_new_spec t1 str Hwf1) as (id & t2 & -> & Hwf2 & Hc & _); [done|].
    exists id, t2. split; [done|]. split; [done|].
    assert (Hnin : Some str ∉ names t1) by tauto.
    destruct Hc as [[-> He2]|[-> He2]]; pose proof (ext_names_eq _ _ _ He2) as Hn2;
      (split; [etrans; [done|by eapply ext_evolves]|]).
    + split_and!; [by left| |].
      * intros Hno. rewrite (Heq (or_introl Hno)) in *. right. split; [done|]. left. by rewrite Hn2, app_nil_r.
      * intros Hno. rewrite (Heq (or_introl Hno)) in *. apply He2.
    + rewrite <- (zlen_names t1 Hwf1). split_and!.
      * right. rewrite Hn2, zget_app_r by lia. by rewrite Z.sub_diag.
      * intros Hno. rewrite (Heq (or_introl Hno)) in *. right. split; [done|]. by right.
      * intros Hno. rewrite (Heq (or_introl Hno)) in *. apply He2.
Qed.

(** ** Rebuilding the segments *)
Lemma rebuild_one_spec i ok t : wf t → 0 ≤ i < str_count t →
  ∃ ok' t' l, rebuild_one i (ok, t) = Some (ok', t') ∧ wf t' ∧ ext t t' l ∧
    (ok' = true → ok = true ∧ ((names t).[i] ≠ Some None → bit (scanned t') i = true)).
Proof.
  intros Hwf Hi. unfold rebuild_one. pose proof (wf_short t Hwf) as Hnm. destruct ok; cbn [negb]; [|exists false, t, []; split_and!; try done; apply sym_ext_refl].
  destruct (in_range t Hwf i Hi) as (_ & _ & Hsc & _). rewrite get_bit_spec by lia. cbn [mbind option_bind].
  destruct (bit (scanned t) i) eqn:Hb; [exists true, t, []; split_and!; try done; apply sym_ext_refl|].
  rewrite (names_get t) by lia. destruct (zget_is_Some (names t) i) as [o Ho]; [rewrite zlen_names by done; lia|].
  rewrite Ho. cbn [mbind option_bind]. destruct o as [s|]; [|exists true, t, []; split_and!; try done; apply sym_ext_refl].
  assert (Hs : zlen s < MAX_NAME).
  { apply zget_elem in Ho. rewrite Forall_forall in Hnm. exact (Hnm _ Ho). }
  destruct (sym_cache_segments_spec t i s Hwf Ho Hs) as (ok & t' & -> & Hwf' & Hc). destruct ok.
  - destruct Hc as [Hb' [He|He]].
    + exists true, t', []. split_and!; done.
    + eexists true, t', _. split_and!; done.
  - exists false, t', []. split_and!; done.
Qed.

Lemma rebuild_spec t : wf t →
  ∃ ok t' l, foldM rebuild_one (range 0 (str_count t)) (true, t) = Some (ok, t') ∧ wf t' ∧ ext t t' l ∧
    (ok = true → ∀ id, 0 ≤ id < str_count t → (names t).[id] ≠ Some None → bit (scanned t') id = true).
Proof.
  intros Hwf. pose proof (wf_count t Hwf).
  destruct (foldM_range rebuild_one (λ i '(ok, t'), ∃ l, wf t' ∧ ext t t' l ∧
    (ok = true → ∀ id, 0 ≤ id < i → (names t).[id] ≠ Some None → bit (scanned t') id = true)) 0 (str_count t) (true, t))
    as ([ok t'] & -> & l & Hwf' & He & Hb); [lia| | |].
  - exists []. split_and!; [done|apply sym_ext_refl|lia].
  - intros i [ok t1] Hi (l & Hwf1 & He1 & Hb1).
    pose proof (ext_count _ _ _ Hwf Hwf1 He1) as Hc. pose proof (zlen_nonneg l).
    destruct (rebuild_one_spec i ok t1 Hwf1) as (ok' & t2 & l2 & -> & Hwf2 & He2 & Hb2); [lia|].
    exists (ok', t2). split; [done|]. exists (l ++ l2). split; [done|]. split; [by eapply sym_ext_trans|].
    intros Hok id Hid Hne. destruct (Hb2 Hok) as [Hok1 Hbi].
    destruct (decide (id = i)) as [->|]; [|apply He2; [lia|]; apply Hb1; [done|lia|done]].
    apply Hbi. rewrite (ext_names_eq _ _ _ He1). rewrite zget_app_l by (rewrite zlen_names by done; lia). done.
  - exists ok, t', l. split_and!; done.
Qed.

(** ** Reserving capacity *)
Definition smeared (k x y : Z) : Prop :=
  ∀ i, 0 ≤ i → Z.testbit y i = true ↔ ∃ j, 0 ≤ j < k ∧ Z.testbit x (i + j) = true.
Lemma smear_step k x y : 0 < k → smeared k x y → smeared (2 * k) x (smear y k).
Proof.
  intros Hk Hs i Hi. unfold smear. rewrite Z.lor_spec, Z.shiftr_spec, orb_true_iff by done. rewrite (Hs i Hi), (Hs (i + k)) by lia. split.
  - intros [(j & Hj & Hb)|(j & Hj & Hb)]; [exists j; split; [lia|done]|]. exists (k + j). split; [lia|].
    by rewrite Z.add_assoc.
  - intros (j & Hj & Hb). destruct (decide (j < k)); [left; exists j; split; [lia|done]|right]. exists (j - k). split; [lia|].
    by replace (i + k + (j - k)) with (i + j) by lia.
Qed.
Lemma smeared_ones x y : 0 < x < 2 ^ 32 → smeared 32 x y → 0 ≤ y → y = 2 ^ (Z.log2 x + 1) - 1.
Proof.
  intros Hx Hs Hy. pose proof (Z.log2_nonneg x). assert (Z.log2 x < 32) by (apply Z.log2_lt_pow2; lia).
  replace (2 ^ (Z.log2 x + 1) - 1) with (Z.ones (Z.log2 x + 1)) by (rewrite Z.ones_equiv; lia).
  apply Z.bits_inj'. intros i Hi. apply eq_true_iff_eq. rewrite (Hs i Hi). destruct (Z.lt_ge_cases i (Z.log2 x + 1)).
  - rewrite Z.ones_spec_low by lia. split; [done|]. intros _. exists (Z.log2 x - i). split; [lia|].
    replace (i + (Z.log2 x - i)) with (Z.log2 x) by lia. apply Z.bit_log2. lia.
  - rewrite Z.ones_spec_high by lia. split; [|done]. intros (j & Hj & Hb).
    rewrite Z.bits_above_log2 in Hb by lia. done.
Qed.
Lemma smear_nonneg x k : 0 ≤ x → 0 ≤ smear x k.
Proof. intros Hx. unfold smear. apply Z.lor_nonneg. split; [done|]. by apply Z.shiftr_nonneg. Qed.

(** The next power of two, or zero when it does not fit in 32 bits. *)
Lemma round_up_pow2_spec x :
  round_up_pow2 x = 0 ∧ 2 ^ 31 ≤ u32 (x - 1) ∨ pow2 0 31 (round_up_pow2 x) ∧ u32 (x - 1) < round_up_pow2 x.
Proof.
  unfold round_up_pow2. set (z := u32 (x - 1)). assert (Hz : in_u 32 z) by (apply wrap_range; lia). destruct Hz as [Hz0 Hz].
  set (y := smear (smear (smear (smear (smear z 1) 2) 4) 8) 16).
  assert (Hs : smeared 32 z y).
  { assert (H1 : smeared 1 z z).
    { intros i Hi. split.
      - intros Hb. exists 0. by rewrite Z.add_0_r.
      - intros (j & Hj & Hb). assert (j = 0) as -> by lia. by rewrite Z.add_0_r in Hb. }
    exact (smear_step 16 _ _ eq_refl (smear_step 8 _ _ eq_refl (smear_step 4 _ _ eq_refl
      (smear_step 2 _ _ eq_refl (smear_step 1 _ _ eq_refl H1))))). }
  assert (Hy : 0 ≤ y) by (unfold y; by repeat apply smear_nonneg).
  destruct (decide (z = 0)) as [Hz1|Hz1].
  - right. rewrite Hz1. assert (y = 0) as -> by (unfold y; by rewrite Hz1).
    split; [exists 0; split; [lia|done]|done].
  - rewrite (smeared_ones z y) by (done || lia). rewrite Z.sub_add. pose proof (Z.log2_nonneg z).
    assert (Z.log2 z < 32) by (apply Z.log2_lt_pow2; lia). pose proof (Z.log2_spec z ltac:(lia)) as [Hl1 Hl2].
    destruct (decide (Z.log2 z = 31)) as [Hl|Hl].
    + left. rewrite Hl in *. split; [done|lia].
    + right. assert (2 ^ (Z.log2 z + 1) ≤ 2 ^ 31) by (apply Z.pow_le_mono_r; lia).
      rewrite wrap_id by (unfold in_u; lia). rewrite <- Z.add_1_r in Hl2. split; [|done].
      exists (Z.log2 z + 1). split; [lia|done].
Qed.
Lemma pow2_at_least n : pow2 0 31 n → 2 ^ 8 ≤ n → pow2 8 31 n.
Proof. intros (k & Hk & ->) Hn. exists k. split; [|done]. apply Z.pow_le_mono_r_iff in Hn; lia. Qed.

Lemma ensure_strings_spec t needed : wf t → 0 ≤ needed < 2 ^ 32 →
  ∃ ok t', ensure_strings t needed = (ok, t') ∧ wf t' ∧ ext t t' [] ∧ (ok = true → needed ≤ str_cap t').
Proof.
  intros Hwf Hn. unfold ensure_strings. pose proof (pow2_bounds 8 31 _ ltac:(lia) (wf_cap t Hwf)).
  destruct (Z.leb_spec needed (str_cap t)); [exists true, t; split_and!; [done..|apply sym_ext_refl|done]|].
  change (UINT32_MAX / 2) with (2 ^ 31 - 1).
  destruct (Z.leb_spec (2 ^ 31 - 1) (str_cap t)); [exists false, t; split_and!; [done..|apply sym_ext_refl|done]|].
  rewrite wrap_id by (unfold in_u; lia).
  assert (Hdbl : pow2 8 31 (str_cap t * 2)) by (rewrite Z.mul_comm; apply pow2_double; [apply wf_cap, Hwf|lia]).
  set (n := if _ <? needed then _ else _).
  assert (n = 0 ∨ pow2 8 31 n ∧ str_cap t ≤ n ∧ needed ≤ n) as Hcase.
  { unfold n. destruct (Z.ltb_spec (str_cap t * 2) needed); [|right; split_and!; (done || lia)].
    destruct (round_up_pow2_spec needed) as [[? _]|[Hp Hlt]]; [by left|]. rewrite wrap_id in Hlt by (unfold in_u; lia).
    right. split_and!; [apply pow2_at_least; [done|lia]|lia|lia]. }
  destruct (Z.eqb_spec n 0); [exists false, t; split_and!; [done..|apply sym_ext_refl|done]|].
  destruct Hcase as [?|(Hp & Hle & Hge)]; [done|].
  destruct (sym_grow_str_cap_spec t n Hwf Hp Hle) as (ok & t' & -> & Hwf' & He & _ & _ & Hc).
  exists ok, t'. split_and!; try done. intros ->. by rewrite Hc.
Qed.

Lemma ensure_buckets_spec t x : wf t →
  ∃ ok t', (if bucket_cap t <? round_up_pow2 x then ht_grow_to t (round_up_pow2 x) else Some (true, t)) = Some (ok, t') ∧
    wf t' ∧ ext t t' [].
Proof.
  intros Hwf. destruct (Z.ltb_spec (bucket_cap t) (round_up_pow2 x)); [|exists true, t; split_and!; [done..|apply sym_ext_refl]].
  pose proof (wf_index t Hwf) as (Hp & _ & _ & Hlt & _). rewrite zlen_names in Hlt by done.
  pose proof (pow2_bounds 8 31 _ ltac:(lia) Hp).
  destruct (round_up_pow2_spec x) as [[? _]|[Hp' _]]; [lia|].
  destruct (ht_grow_to_spec t (round_up_pow2 x) Hwf) as (ok & t' & -> & ? & ? & _); [apply pow2_at_least; [done|lia]|lia|].
  by exists ok, t'.
Qed.
End ops.
