(* ===== verification/SymLoad.v ===== *)
(** * Snapshots, and runs of operations *)

From Stdlib Require Import SpecFloat.
From S2P Require Import Prelude Hash HashProofs Arena Sym SymRing SymInv SymGrow SymSegs SymIntern SymOps.
Local Open Scope Z_scope.

Section load.
Context `{SysMem}.
Implicit Types (t : sym_table).

(** ** Loading is safe on any bytes *)
Lemma load_entries_safe (n : nat) : ∀ t i ptr, wf t → byte_list ptr →
  ∃ r t', load_entries n t i ptr = Some (r, t') ∧ wf t' ∧ evolves t t'.
Proof.
  induction n as [|n IH]; intros t i ptr Hwf Hb; cbn [load_entries]; [by eexists _, t|].
  destruct (Z.ltb_spec (zlen ptr) 4); [by eexists _, t|].
  rewrite rd_Some by (unfold zlen in *; lia). cbn [mbind option_bind].
  assert (Hbs : byte_list (take 4 ptr)) by (by apply Forall_take).
  pose proof (le_dec_range _ Hbs) as Hsl. set (slen := le_dec (take 4 ptr)) in *.
  rewrite zlen_take in Hsl. replace (Z.min (Z.of_nat 4) (zlen ptr)) with 4 in Hsl by lia.
  destruct (Z.ltb_spec (zlen (drop 4 ptr)) slen); [by eexists _, t|].
  rewrite rd_Some by (unfold zlen in *; lia). cbn [mbind option_bind].
  set (sp := take (Z.to_nat slen) (drop 4 ptr)).
  destruct (hash_Some sp) as [h Hh]. rewrite Hh. cbn [mbind option_bind]. rewrite (hash32_eq _ _ Hh).
  destruct (sym_intern_nolock_noseg_spec t sp Hwf) as (id & t1 & -> & Hwf1 & He1 & _).
  { unfold sp. rewrite zlen_take. unfold MAX_NAME. lia. }
  cbn [mbind option_bind]. destruct (id <? 0); [by eexists _, t1|]. destruct (negb (id =? i)); [by eexists _, t1|].
  destruct (IH t1 (i + 1) (drop (Z.to_nat slen) (drop 4 ptr)) Hwf1) as (r & t' & -> & Hwf' & He').
  { by do 2 apply Forall_drop. }
  exists r, t'. split_and!; try done. by etrans.
Qed.

Lemma rebuild_safe t : wf t →
  ∃ e t' l, ray_sym_rebuild_segments (Some t) = Some (e, Some t') ∧ wf t' ∧ ext t t' l ∧ (e = SYM_OK ∨ e = SYM_OOM) ∧
    (e = SYM_OK → ∀ id, 0 ≤ id < str_count t → (names t).[id] ≠ Some None → bit (scanned t') id = true).
Proof.
  intros Hwf. unfold ray_sym_rebuild_segments, locked.
  destruct (rebuild_spec t Hwf) as (ok & t' & l & -> & Hwf' & He & Hb). cbn [mbind option_bind].
  exists (if ok then SYM_OK else SYM_OOM), t', l. split; [by destruct ok|]. split; [done|]. split; [done|].
  destruct ok; [|by split; [right|]]. split; [by left|]. intros _. by apply Hb.
Qed.

Lemma load_eager_safe t mapped n : wf t → byte_list mapped →
  ∃ e t', load_eager t mapped n = Some (e, t') ∧ wf t' ∧ evolves t t'.
Proof.
  intros Hwf Hb. unfold load_eager.
  destruct (load_entries_safe (Z.to_nat n) t 0 (drop 12 mapped) Hwf) as (r & t1 & -> & Hwf1 & He1); [by apply Forall_drop|].
  cbn [mbind option_bind]. destruct r as [rest|e]; [|by exists e, t1].
  destruct (negb _); [by exists SYM_CORRUPT, t1|].
  destruct (rebuild_safe t1 Hwf1) as (e & t' & l & -> & Hwf' & He' & _). cbn [mbind option_bind].
  exists e, t'. split_and!; try done. etrans; [done|by eapply ext_evolves].
Qed.

Lemma expected_none k n : expected k (replicate n None) = [].
Proof. revert k. induction n as [|n IH]; intros k; [done|]. apply IH. Qed.

(** The table with room for the records of a mapped file. *)
Lemma wf_lazy_table t n x : wf t → str_count t ≤ n → n ≤ str_cap t → n < bucket_cap t → lazy_ok n x →
  let cleared := if str_count t <? n
    then take (Z.to_nat (str_count t)) (strings t) ++ replicate (Z.to_nat (n - str_count t)) None ++ drop (Z.to_nat n) (strings t)
    else strings t in
  let t' := with_lazy (with_strings t cleared n (clock t)) x in
  wf t' ∧ names t' = names t ++ replicate (Z.to_nat (n - str_count t)) None.
Proof.
  intros Hwf Hn Hcap Hbc Hx cleared t'. pose proof (wf_count t Hwf). pose proof (wf_strings t Hwf).
  pose proof (zlen_names t Hwf) as Hzn.
  assert (Hnm : names t' = names t ++ replicate (Z.to_nat (n - str_count t)) None).
  { unfold t', names, cleared. cbn [strings str_count with_lazy with_strings].
    destruct (Z.ltb_spec (str_count t) n).
    - rewrite app_assoc, take_app_le by (autorewrite with zlen; rewrite length_app, length_take, length_replicate; unfold zlen in *; lia).
      apply take_ge. rewrite length_app, length_take, length_replicate. lia.
    - assert (n = str_count t) as -> by lia. by rewrite Z.sub_diag, app_nil_r. }
  assert (Hl : zlen cleared = zlen (strings t)).
  { unfold cleared. destruct (Z.ltb_spec (str_count t) n); [|done]. autorewrite with zlen. lia. }
  assert (Hzn' : zlen (names t') = n) by (rewrite Hnm, zlen_app, Hzn, zlen_replicate; lia).
  assert (Hsi : segs_inv (names t') (dotted t) (scanned t) (segments t)).
  { eapply segs_inv_stable; [apply wf_segs, Hwf|]. rewrite Hnm. apply stable_app. }
  pose proof (pow2_bounds 8 31 _ ltac:(lia) (wf_cap t Hwf)).
  split; [|done]. destruct Hwf as [(Hp & Hr & Hpe & _ & _) ? ? ? ? ? ? ? ? ? Hsn]. split; try done.
  - split; [done|]. split; [done|]. unfold MAX_SYMS. cbn [buckets bucket_cap with_lazy with_strings].
    split; [by rewrite Hnm, expected_app, expected_none, app_nil_r|]. rewrite Hzn'. cbn. lia.
  - cbn. lia.
  - cbn. lia.
  - rewrite Hnm. apply Forall_app. split; [done|]. by apply Forall_replicate.
Qed.

(** Up to the check of the symbols the table had before. *)
Lemma load_lazy_map t mapped n : wf t → byte_list mapped → 12 ≤ zlen mapped < MAX_OBJECT → 0 ≤ n →
  (∃ t', load_lazy t mapped n = Some (SYM_OOM, t') ∧ wf t' ∧ evolves t t') ∨
  ∃ t2, load_lazy t mapped n = ('(ok, t) ← (if Z.min (str_count t) n =? 0 then Some (true, t2)
      else sym_lazy_materialize_to_locked t2 (Z.min (str_count t) n - 1));
      if negb ok then Some (SYM_CORRUPT, sym_lazy_unmap_locked t) else Some (SYM_OK, t)) ∧
    wf t2 ∧ evolves t t2 ∧ names t2 = names t ++ replicate (Z.to_nat (Z.max (str_count t) n - str_count t)) None ∧
    lazy t2 = Some (Lazy mapped n 0 12 (zlen mapped - 12)) ∧ str_count t2 = Z.max (str_count t) n.
Proof.
  intros Hwf Hb Hm Hn. unfold load_lazy. set (k := Z.max (str_count t) n).
  assert (∃ ok t1, (if str_count t <? k then sym_reserve_capacity t (k - str_count t) 0 else Some (true, t)) = Some (ok, t1) ∧
    wf t1 ∧ ext t t1 [] ∧ (ok = true → k ≤ str_cap t1 ∧ k < bucket_cap t1)) as (ok & t1 & -> & Hwf1 & He1 & Hroom).
  { destruct (Z.ltb_spec (str_count t) k).
    - destruct (sym_reserve_capacity_spec t (k - str_count t) 0 Hwf) as (ok & t1 & -> & Hwf1 & He1 & Hr); [lia|lia|].
      exists ok, t1. split_and!; try done. intros Hok. destruct (Hr Hok) as (Hr1 & Hr2 & _).
      pose proof (ext_count _ _ _ Hwf Hwf1 He1) as Hc. rewrite zlen_nil in Hc. lia.
    - exists true, t. split_and!; try done; [apply sym_ext_refl|]. intros _. pose proof (wf_count t Hwf).
      pose proof (wf_index t Hwf) as (_ & _ & _ & Hlt & _). rewrite zlen_names in Hlt by done. lia. }
  cbn [mbind option_bind]. destruct ok; cbn [negb].
  2: { left. exists t1. split_and!; try done. by eapply ext_evolves. }
  right.
  destruct (Hroom eq_refl) as [Hr1 Hr2]. pose proof (ext_count _ _ _ Hwf Hwf1 He1) as Hc. rewrite zlen_nil, Z.add_0_r in Hc.
  assert (Hlz : lazy_ok k (Some (Lazy mapped n 0 12 (zlen mapped - 12)))) by (cbn; split_and!; (done || lia)).
  destruct (wf_lazy_table t1 k _ Hwf1 ltac:(lia) Hr1 Hr2 Hlz) as [Hwf2 Hn2]. rewrite Hc in Hwf2, Hn2. rewrite (ext_names_eq _ _ _ He1), app_nil_r in Hn2.
  assert (Hcl : (if str_count t <? n
      then take (Z.to_nat (str_count t)) (strings t1) ++ replicate (Z.to_nat (n - str_count t)) None ++ drop (Z.to_nat n) (strings t1)
      else strings t1) =
    (if str_count t <? k
      then take (Z.to_nat (str_count t)) (strings t1) ++ replicate (Z.to_nat (k - str_count t)) None ++ drop (Z.to_nat k) (strings t1)
      else strings t1)).
  { unfold k. destruct (Z.ltb_spec (str_count t) n), (Z.ltb_spec (str_count t) (Z.max (str_count t) n)); try lia; [|done].
    by rewrite Z.max_r by lia. }
  rewrite Hcl. set (t2 := with_lazy _ _) in *.
  assert (He2 : evolves t t2).
  { etrans; [by eapply ext_evolves|]. split; [rewrite Hn2, (ext_names_eq _ _ _ He1), app_nil_r; apply stable_app|done]. }
  by exists t2.
Qed.
Lemma load_lazy_spec t mapped n : wf t → byte_list mapped → 12 ≤ zlen mapped < MAX_OBJECT → 0 ≤ n →
  ∃ e t', load_lazy t mapped n = Some (e, t') ∧ wf t' ∧ evolves t t'.
Proof.
  intros Hwf Hb Hm Hn.
  destruct (load_lazy_map t mapped n Hwf Hb Hm Hn) as [(t' & ? & ? & ?)|(t2 & -> & Hwf2 & He2 & _)]; [by exists SYM_OOM, t'|].
  assert (∃ ok t3, (if Z.min (str_count t) n =? 0 then Some (true, t2)
    else sym_lazy_materialize_to_locked t2 (Z.min (str_count t) n - 1)) = Some (ok, t3) ∧ wf t3 ∧ evolves t t3)
    as (ok & t3 & -> & Hwf3 & He3).
  { pose proof (wf_count t Hwf). destruct (Z.eqb_spec (Z.min (str_count t) n) 0); [by exists true, t2|].
    destruct (materialize_spec t2 (Z.min (str_count t) n - 1) Hwf2) as (ok & t3 & -> & ? & ? & _); [lia|].
    exists ok, t3. split_and!; try done. by etrans. }
  cbn [mbind option_bind]. destruct ok; cbn [negb]; [by exists SYM_OK, t3|].
  destruct (wf_with_lazy t3 None Hwf3 I) as [Hwf4 He4]. exists SYM_CORRUPT, (sym_lazy_unmap_locked t3).
  split_and!; try done. by etrans.
Qed.

Lemma ray_sym_load_safe t mapped : wf t → byte_list mapped → zlen mapped < MAX_OBJECT →
  ∃ e t', ray_sym_load (Some t) mapped = Some (e, Some t') ∧ wf t' ∧ evolves t t'.
Proof.
  intros Hwf Hb Hm. unfold ray_sym_load, locked. destruct (Z.ltb_spec (zlen mapped) 12); [by exists SYM_CORRUPT, t|].
  assert (12 ≤ length mapped)%nat by (unfold zlen in *; lia). rewrite (rd_Some 4) by lia. cbn [mbind option_bind].
  destruct (negb _); [by exists SYM_CORRUPT, t|].
  rewrite (rd_Some 8) by (rewrite length_drop; lia). cbn [mbind option_bind].
  set (n := s64 _). destruct (Z.ltb_spec n 0); [by exists SYM_CORRUPT, t|].
  destruct (Z.ltb_spec UINT32_MAX n); [by exists SYM_CORRUPT, t|]. cbn [orb].
  destruct (_ <=? zlen mapped).
  - destruct (load_lazy_spec t mapped n Hwf Hb) as (e & t' & -> & ? & ?); [lia|lia|]. by exists e, t'.
  - destruct (load_eager_safe t mapped n Hwf Hb) as (e & t' & -> & ? & ?). by exists e, t'.
Qed.

(** ** The other public operations *)
Lemma locked_Some {A} t (d : A) f r t' : f t = Some (r, t') → locked (Some t) d f = Some (r, Some t').
Proof. intros Hf. unfold locked. by rewrite Hf. Qed.

Lemma ray_sym_intern_Some t str id t' : sym_intern_nolock t (hash32 str) str true = Some (id, t') →
  ray_sym_intern (Some t) str = Some (id, Some t').
Proof. intros Hi. apply locked_Some. destruct (hash_Some str) as [h Hh]. rewrite Hh. cbn. by rewrite (hash32_eq _ _ Hh). Qed.

Lemma ray_sym_find_spec t str : wf t →
  ∃ id t', ray_sym_find (Some t) str = Some (id, Some t') ∧ wf t' ∧ evolves t t' ∧
    (id = -1 ∨ (names t').[id] = Some (Some str)) ∧ (lazy_pending t = None → t' = t ∧ found (names t) str id).
Proof.
  intros Hwf. unfold ray_sym_find, locked. destruct (hash_Some str) as [h Hh]. rewrite Hh. cbn [mbind option_bind].
  rewrite (hash32_eq _ _ Hh). destruct (sym_probe_spec t (wf_index t Hwf) str) as (r & -> & Hf). cbn [mbind option_bind].
  assert (Hr : r = -1 ∨ (names t).[r] = Some (Some str)) by (destruct Hf as [[? _]|?]; auto).
  destruct (lazy_pending t) as [l|] eqn:Hp; [|by exists r, t; split_and!].
  destruct (Z.ltb_spec r 0); [|by exists r, t; split_and!].
  pose proof Hp as Hlp. unfold lazy_pending in Hlp. destruct (lazy t) as [l'|] eqn:Hl; [|done].
  destruct (Z.ltb_spec (lazy_next_id l') (lazy_count l')); [|done]. injection Hlp as ->.
  pose proof (wf_lazy t Hwf) as Hok. rewrite Hl in Hok. destruct Hok as (_ & _ & _ & _ & _ & Hn & Hc).
  destruct (materialize_spec t (lazy_count l - 1) Hwf) as (ok & t' & -> & Hwf' & He' & _); [lia|].
  cbn [mbind option_bind]. destruct ok; cbn [negb].
  - destruct (sym_probe_spec t' (wf_index t' Hwf') str) as (e' & -> & Hf'). cbn [mbind option_bind].
    exists e', t'. split_and!; try done. destruct Hf' as [[? _]|?]; auto.
  - exists (-1), t'. split_and!; try done. by left.
Qed.

Lemma id_out_spec t id : wf t → id < 2 ^ 32 → id_out t id = false → 0 ≤ id < str_count t.
Proof.
  intros Hwf Hid. unfold id_out. destruct (Z.ltb_spec id 0); [done|]. cbn [orb].
  rewrite wrap_id by (unfold in_u; lia). destruct (Z.leb_spec (str_count t) id); [done|]. lia.
Qed.

Lemma ray_sym_str_spec t id : wf t → id < 2 ^ 32 →
  ∃ r t', ray_sym_str (Some t) id = Some (r, Some t') ∧ wf t' ∧ evolves t t' ∧
    (∀ s, (names t).[id] = Some (Some s) → r = Some s ∧ t' = t) ∧ (r = None ∨ (names t').[id] = Some r).
Proof.
  intros Hwf Hid. unfold ray_sym_str, locked. destruct (id_out t id) eqn:Ho.
  { exists None, t. split_and!; try done; [|by left]. intros s Hs. exfalso. pose proof (zget_Some _ _ _ Hs) as Hr.
    rewrite zlen_names in Hr by done. unfold id_out in Ho. rewrite wrap_id in Ho by (unfold in_u; lia).
    destruct (Z.ltb_spec id 0), (Z.leb_spec (str_count t) id); (done || lia). }
  pose proof (id_out_spec t id Hwf Hid Ho) as Hr. rewrite (names_get t) by lia.
  destruct (zget_is_Some (names t) id) as [o Hs]; [by rewrite zlen_names|]. rewrite Hs. cbn [mbind option_bind].
  destruct o as [s|]; [exists (Some s), t; split_and!; try done; [by intros ? [= ->]|by right]|].
  destruct (lazy t) as [l|]; [|exists None, t; split_and!; try done; by left].
  rewrite wrap_id by (unfold in_u; lia).
  destruct (id <? lazy_count l); [|exists None, t; split_and!; try done; by left].
  destruct (materialize_spec t id Hwf) as (ok & t' & -> & Hwf' & He' & Hc'); [lia|]. cbn [mbind option_bind].
  destruct ok; cbn [negb]; [|exists None, t'; split_and!; try done; by left].
  rewrite (names_get t') by lia. destruct (zget_is_Some (names t') id) as [o Ho']; [rewrite zlen_names by done; lia|].
  rewrite Ho'. cbn. exists o, t'. split_and!; try done. by right.
Qed.

(** The mapped records all become atoms, or some do. *)
Lemma materialize_all_safe t (f : bool) : wf t →
  ∃ ok t', (match lazy t with
      | Some l => if 0 <? lazy_count l then sym_lazy_materialize_to_locked t (lazy_count l - 1) else Some (f, t)
      | None => Some (f, t)
      end) = Some (ok, t') ∧ wf t' ∧ evolves t t'.
Proof.
  intros Hwf. destruct (lazy t) as [l|] eqn:Hl; [|by exists f, t].
  destruct (Z.ltb_spec 0 (lazy_count l)); [|by exists f, t].
  destruct (materialize_spec t (lazy_count l - 1) Hwf) as (ok & t' & -> & ? & ? & _); [lia|]. by exists ok, t'.
Qed.

Lemma ray_sym_ensure_cap_spec t needed : wf t → 0 ≤ needed < 2 ^ 32 →
  ∃ ok t', ray_sym_ensure_cap (Some t) needed = Some (ok, Some t') ∧ wf t' ∧ ext t t' [].
Proof.
  intros Hwf Hn. unfold ray_sym_ensure_cap, locked.
  destruct (ensure_strings_spec t needed Hwf Hn) as (ok & t1 & -> & Hwf1 & He1 & _). destruct ok; cbn [negb]; [|by exists false, t1].
  destruct (SFltb _ _); [by exists false, t1|].
  destruct (ensure_buckets_spec t1 (trunc (raw_buckets needed)) Hwf1) as (ok & t2 & Hg & Hwf2 & He2).
  cbv zeta. rewrite Hg. exists ok, t2. split_and!; try done. by eapply ext_trans_nil.
Qed.

(** ** The initial table *)
Lemma bit_zeros n id : bit (replicate n 0) id = false.
Proof.
  unfold bit. destruct (zget _ _) as [w|] eqn:Hw; [|done]. apply zget_elem, elem_of_replicate in Hw as [-> _].
  apply Z.bits_0.
Qed.
Lemma wf_initial a clk : arena_ok a → wf (sym_initial a clk).
Proof.
  intros Ha.
  assert (Hp : pow2 8 31 SYM_INIT_CAP) by (exists 8; split; [lia|done]).
  split; try done.
  - split; [done|]. split; [|split; [|done]].
    + split; [done|]. intros p e He%zget_elem Hne. by apply elem_of_replicate in He as [-> _].
    + unfold sym_initial. cbn [buckets]. by rewrite zlen_entries_replicate.
  - intros id Hid. unfold id_ok, sym_initial. cbn [dotted scanned]. rewrite !bit_zeros. by destruct (zget _ _) as [[?|]|].
Qed.
(** Symbol 0 is the empty name. *)
Lemma reserve_empty t : wf t → names t = [] → lazy t = None →
  ∃ e g, (h ← ray_hash_bytes []; '(empty_id, t) ← sym_intern_nolock t (u32 h) [] true;
          Some (if empty_id =? 0 then (SYM_OK, Some t) else (SYM_OOM, None))) = Some (e, g) ∧
    match g with
    | Some t => e = SYM_OK ∧ wf t ∧ names t = [Some []] ∧ lazy t = None
    | None => e = SYM_OOM
    end.
Proof.
  intros Hwf Hn Hl. destruct (hash_Some []) as [h Hh]. rewrite Hh. pose proof (hash32_eq _ _ Hh) as Hu. clear Hh.
  cbn [mbind option_bind]. rewrite Hu. clear Hu.
  destruct (sym_intern_nolock_spec t [] true Hwf) as (id & t1 & -> & Hwf1 & _ & _ & Hi); [done|]. cbn [mbind option_bind].
  destruct Hi as ([(Hin & _)|(_ & Hc)] & Hlz & _).
  - left. unfold lazy_pending. by rewrite Hl.
  - rewrite Hn in Hin. by apply not_elem_of_nil in Hin.
  - rewrite Hn in Hc. destruct Hc as [[-> _]|[-> Hn1]]; [by eexists _, None|]. rewrite Hn1.
    exists SYM_OK, (Some t1). split; [done|]. split; [done|]. split; [done|]. split; [by rewrite Hn1|congruence].
Qed.
Lemma ray_sym_init_spec clk : ∃ e g, ray_sym_init clk = Some (e, g) ∧
  match g with
  | Some t => e = SYM_OK ∧ wf t ∧ names t = [Some []] ∧ lazy t = None
  | None => e = SYM_OOM
  end.
Proof.
  unfold ray_sym_init. destruct (ray_sys_alloc clk _) as [ok1 clk1]. destruct ok1; cbn [negb]; [|by eexists _, None].
  destruct (ray_sys_alloc clk1 _) as [ok2 clk2]. destruct ok2; cbn [negb]; [|by eexists _, None].
  destruct (arena_new_spec clk2 (1024 * 1024)) as (a & clk3 & -> & Ha); [lia|].
  destruct a as [a|]; [|by eexists _, None]. specialize (Ha a eq_refl).
  destruct (ray_sys_alloc clk3 _) as [ok3 clk4]. destruct (ray_sys_alloc clk4 _) as [ok4 clk5].
  destruct (ray_sys_alloc clk5 _) as [ok5 clk6].
  destruct (negb (ok3 && ok4 && ok5)); [by eexists _, None|].
  apply reserve_empty; [by apply wf_initial|reflexivity|reflexivity].
Qed.
End load.
