(* ===== verification/SymLazy.v ===== *)
(** * The mapped dictionary shows the records of its file

    When the system grants every request, the atoms of a lazily loaded file are
    its records, whatever the order in which they are asked for. *)

From S2P Require Import Prelude Hash HashProofs Arena Sym SymRing SymInv SymGrow SymSegs SymIntern SymOps SymLoad.
Local Open Scope Z_scope.

Definition strl_bytes (rs : list name) : list Z := mjoin (map strl_record rs).
Definition strl_file (rs : list name) : list Z := le_enc 4 SYM_STRL_MAGIC ++ le_enc 8 (zlen rs) ++ strl_bytes rs.
Definition record_ok (s : name) : Prop := byte_list s ∧ zlen s < 2 ^ 32.

Lemma strl_bytes_cons s rs : strl_bytes (s :: rs) = strl_record s ++ strl_bytes rs.
Proof. done. Qed.
Lemma zlen_strl_record s : zlen (strl_record s) = 4 + zlen s.
Proof. unfold strl_record. by rewrite zlen_app, zlen_le_enc. Qed.
Lemma zlen_strl_file rs : zlen (strl_file rs) = 12 + zlen (strl_bytes rs).
Proof. unfold strl_file. rewrite !zlen_app, !zlen_le_enc. lia. Qed.
Lemma strl_file_bytes rs : Forall record_ok rs → byte_list (strl_file rs).
Proof.
  intros Hrs. unfold strl_file. do 2 (apply Forall_app; split; [apply le_enc_bytes|]).
  induction Hrs as [|s rs [Hs _] _ IH]; [by constructor|]. rewrite strl_bytes_cons. unfold strl_record.
  apply Forall_app. split; [|done]. apply Forall_app. split; [apply le_enc_bytes|done].
Qed.
(** A record read back from the front of some bytes. *)
Lemma read_record s rest : record_ok s →
  rd 4 (strl_record s ++ rest) = Some (le_enc 4 (zlen s)) ∧ le_dec (le_enc 4 (zlen s)) = zlen s ∧
  drop 4 (strl_record s ++ rest) = s ++ rest.
Proof.
  intros [_ Hl]. unfold strl_record. rewrite <- app_assoc. split; [by apply rd_app|]. split.
  - rewrite le_dec_enc. apply wrap_id. split; [apply zlen_nonneg|done].
  - apply drop_app_length'. by rewrite length_le_enc.
Qed.

Section lazy.
Context `{SysMem} (Hgrant : ∀ c n, map_ok c n = true).
Implicit Types (t : sym_table).

Lemma new_chunk_granted clk n : 0 ≤ n < 2 ^ 62 → ∃ clk', arena_new_chunk clk n = (Some (Chunk n 0), clk').
Proof.
  intros Hn. unfold arena_new_chunk. change (ARENA_ALIGN_UP 24) with 32.
  destruct (Z.ltb_spec (SIZE_MAX - 32) n); [unfold SIZE_MAX in *; lia|]. unfold ray_sys_alloc.
  destruct (Z.eqb_spec (32 + n) 0); [lia|]. unfold SYS_HDR_SIZE.
  destruct (Z.ltb_spec (SIZE_MAX - 32) (32 + n)); [unfold SIZE_MAX in *; lia|]. rewrite Hgrant. by eexists.
Qed.
Lemma arena_alloc_granted clk a n : arena_ok a → 0 ≤ n < 2 ^ 61 - 64 →
  ∃ a' clk', ray_arena_alloc clk a n = Some (true, a', clk') ∧ arena_ok a'.
Proof.
  intros Ha Hn. destruct (arena_alloc_spec clk a n Ha Hn) as (ok & a' & clk' & He & Ha' & _).
  destruct ok; [by eexists _, _|]. exfalso. revert He. pose proof Ha as ((c & cs & Hc) & _ & Hsz).
  unfold ray_arena_alloc. rewrite Hc. destruct (Z.ltb_spec (SIZE_MAX - 32 - 31) n); [unfold SIZE_MAX in *; lia|].
  destruct (_ <? u64 _); [|congruence].
  set (nc := if _ <? _ then _ else _). assert (Hnc : 0 ≤ nc < 2 ^ 62).
  { unfold nc. pose proof (align_up_bounds (32 + n) ltac:(lia)).
    destruct (_ <? _); [|lia]. pose proof (align_up_bounds (ARENA_ALIGN_UP (32 + n)) ltac:(lia)). lia. }
  destruct (new_chunk_granted clk nc Hnc) as [clk2 ->]. congruence.
Qed.
Lemma arena_str_granted clk a len : arena_ok a → 0 ≤ len < MAX_OBJECT →
  ∃ a' clk', ray_arena_str clk a len = Some (true, a', clk') ∧ arena_ok a'.
Proof.
  unfold MAX_OBJECT. intros Ha Hl. unfold ray_arena_str. destruct (Z.ltb_spec len 7); [by apply arena_alloc_granted|].
  apply arena_alloc_granted; [done|]. rewrite (wrap_id 64 (32 + (len + 1))), wrap_id, land_align by (unfold in_u; lia).
  Z.to_euclidean_division_equations. lia.
Qed.

(** ** The cursor in a well-formed file *)
Definition at_record (rs : list name) (l : lazy_file) : Prop :=
  lazy_map l = strl_file rs ∧ lazy_count l = zlen rs ∧ 0 ≤ lazy_next_id l ≤ zlen rs ∧
  drop (Z.to_nat (lazy_pos l)) (strl_file rs) = strl_bytes (drop (Z.to_nat (lazy_next_id l)) rs) ∧
  lazy_remaining l = zlen (strl_bytes (drop (Z.to_nat (lazy_next_id l)) rs)) ∧
  0 ≤ lazy_pos l.
(** Each symbol of the file is its record, or not an atom yet. *)
Definition shows (rs : list name) t : Prop :=
  wf t ∧ (∃ l, lazy t = Some l ∧ at_record rs l ∧
    ∀ id s, id < lazy_next_id l → rs.[id] = Some s → (names t).[id] = Some (Some s)) ∧ zlen rs ≤ str_count t ∧
  ∀ id s, rs.[id] = Some s → (names t).[id] = Some None ∨ (names t).[id] = Some (Some s).

(** The cursor reads the next record and moves past it. *)
Lemma at_record_next rs l s : Forall record_ok rs → at_record rs l → rs.[lazy_next_id l] = Some s →
  4 + zlen s ≤ lazy_remaining l ∧ peek l 4 = Some (le_enc 4 (zlen s)) ∧ le_dec (le_enc 4 (zlen s)) = zlen s ∧
  peek (advance l 4) (zlen s) = Some s ∧ at_record rs (next_record (advance (advance l 4) (zlen s))).
Proof.
  intros Hrs (Hmap & Hcnt & Hnb & Hdrop & Hrem & Hpos) Hs. set (id := lazy_next_id l) in *.
  assert (Hok : record_ok s) by (rewrite Forall_forall in Hrs; by apply Hrs, (zget_elem _ id)).
  pose proof (zget_Some _ _ _ Hs) as Hb.
  assert (Hds : drop (Z.to_nat id) rs = s :: drop (Z.to_nat (id + 1)) rs).
  { rewrite zget_nat in Hs by lia. replace (Z.to_nat (id + 1)) with (S (Z.to_nat id)) by lia. by apply drop_S. }
  rewrite Hds, strl_bytes_cons in *. set (rest := strl_bytes (drop (Z.to_nat (id + 1)) rs)) in *.
  destruct (read_record s rest Hok) as (Hr1 & Hr2 & Hr3). pose proof (zlen_nonneg s).
  rewrite zlen_app, zlen_strl_record in Hrem. pose proof (zlen_nonneg rest).
  assert (Hd4 : drop (Z.to_nat (lazy_pos l + 4)) (strl_file rs) = s ++ rest).
  { rewrite <- Hr3, <- Hdrop, drop_drop. f_equal. lia. }
  split; [lia|]. split; [unfold peek; by rewrite Hmap, Hdrop|]. split; [done|]. split.
  - unfold peek. cbn [lazy_map lazy_pos advance]. rewrite Hmap, Hd4. apply rd_app. unfold zlen. lia.
  - unfold at_record. cbn [next_record advance lazy_map lazy_count lazy_next_id lazy_pos lazy_remaining].
    fold id. rewrite Hmap, Hcnt. fold rest. split_and!; try done; try lia.
    replace (Z.to_nat (lazy_pos l + 4 + zlen s)) with (Z.to_nat (lazy_pos l + 4) + Z.to_nat (zlen s))%nat by lia.
    rewrite <- drop_drop, Hd4. apply drop_app_length'. by rewrite to_nat_zlen.
Qed.

Lemma materialize_next_shows rs t l id s : Forall record_ok rs → shows rs t → lazy t = Some l →
  lazy_next_id l = id → rs.[id] = Some s →
  ∃ t' l', materialize_next t l = Some (true, t') ∧ shows rs t' ∧ lazy t' = Some l' ∧ lazy_next_id l' = id + 1 ∧
    (names t').[id] = Some (Some s) ∧ stable (names t) (names t').
Proof.
  intros Hrs (Hwf & (l0 & Hl0 & Hat & Hold) & Hc & Hsh) Hl Hid Hs. rewrite Hl in Hl0. injection Hl0 as <-.
  pose proof (zget_Some _ _ _ Hs) as Hb. rewrite <- Hid in Hs.
  assert (Hok : record_ok s) by (rewrite Forall_forall in Hrs; by apply Hrs, (zget_elem _ (lazy_next_id l))).
  destruct (at_record_next rs l s Hrs Hat Hs) as (Hrem & Hp1 & Hr2 & Hp2 & Hat2). rewrite Hid in Hs.
  destruct Hok as [Hsb Hsl]. pose proof (zlen_nonneg s).
  pose proof (wf_lazy t Hwf) as Hlz. rewrite Hl in Hlz. destruct Hlz as (Hby & Hmx & Hpos & _ & Hsum & Hnb & Hct).
  destruct Hat as (_ & Hcnt & _).
  unfold materialize_next. destruct (Z.ltb_spec (lazy_remaining l) 4); [lia|].
  rewrite Hp1. cbn [mbind option_bind]. rewrite Hr2. set (l1 := advance l 4) in *.
  assert (Hok1 : lazy_ok (str_count t) (Some l1)) by (cbn; split_and!; (done || lia)).
  destruct (wf_with_lazy t (Some l1) Hwf Hok1) as [Hwf1 He1]. set (t1 := with_lazy t (Some l1)) in *.
  change (lazy_remaining l1) with (lazy_remaining l - 4). destruct (Z.ltb_spec (lazy_remaining l - 4) (zlen s)); [lia|].
  rewrite Hp2. cbn [mbind option_bind].
  change (lazy_next_id l1) with (lazy_next_id l). rewrite Hid. change (strings t1) with (strings t).
  rewrite (names_get t) by lia. set (l2 := next_record (advance l1 (zlen s))) in *.
  assert (Hfin : ∀ t2, wf t2 → stable (names t) (names t2) → str_count t2 = str_count t →
    (∀ j r, rs.[j] = Some r → (names t2).[j] = Some None ∨ (names t2).[j] = Some (Some r)) →
    (names t2).[id] = Some (Some s) →
    ∃ t' l', Some (true, with_lazy t2 (Some l2)) = Some (true, t') ∧ shows rs t' ∧ lazy t' = Some l' ∧
      lazy_next_id l' = id + 1 ∧ (names t').[id] = Some (Some s) ∧ stable (names t) (names t')).
  { intros t2 Hwf2 Hst2 Hc2 Hsh2 Hn2. eexists _, l2. split; [done|]. split; [|split_and!; try done; cbn; lia].
    split; [|split; [|split; [cbn; lia|done]]].
    2: { exists l2. split_and!; [done..|]. intros j r Hj Hr. change (lazy_next_id l2) with (lazy_next_id l + 1) in Hj.
         change (names (with_lazy t2 (Some l2))) with (names t2).
         destruct (decide (j = id)) as [->|]; [congruence|]. apply Hst2, Hold; [lia|done]. }
    apply (wf_with_lazy t2); [done|]. rewrite Hc2. cbn. split_and!; (done || lia). }
  destruct (Hsh id s Hs) as [Hno|Hyes].
  - rewrite Hno. cbn [mbind option_bind].
    destruct (arena_str_granted (clock t1) (arena t1) (zlen s)) as (a & clk & -> & Ha);
      [apply wf_arena, Hwf1|unfold MAX_OBJECT; lia|]. cbn [mbind option_bind negb].
    destruct (wf_with_arena t1 Hwf1 a clk Ha) as [Hwf2 He2].
    destruct (fill_spec (with_arena t1 a clk) id s Hwf2) as (ls & h & b & Hz & -> & Hi & Hwf3 & He3 & Hn3);
      [unfold MAX_NAME; lia|done|].
    cbn [strings with_arena] in Hz |- *. change (strings t) with (strings t1). rewrite Hz. cbn [mbind option_bind].
    cbn [buckets bucket_cap with_arena with_lazy] in Hi |- *. rewrite Hi. cbn [mbind option_bind negb].
    assert (Hbn : 0 ≤ id < zlen (names t)) by (rewrite zlen_names by done; lia).
    match type of Hn3 with names ?x = _ => apply (Hfin x) end; [exact Hwf3|apply He3|done| |].
    + intros j r Hj. rewrite Hn3. change (names (with_arena t1 a clk)) with (names t). rewrite zget_insert by done.
      destruct (Z.eqb_spec id j) as [<-|]; [right; congruence|by apply Hsh].
    + rewrite Hn3. change (names (with_arena t1 a clk)) with (names t). by rewrite zget_insert, Z.eqb_refl by done.
  - rewrite Hyes. cbn [mbind option_bind]. rewrite Z.eqb_refl, bool_decide_eq_true_2 by done. cbn [andb negb].
    by apply Hfin.
Qed.

Lemma materialize_loop_shows rs (fuel : nat) : Forall record_ok rs → ∀ t l target, shows rs t → lazy t = Some l →
  target < zlen rs → target - lazy_next_id l + 1 ≤ Z.of_nat fuel →
  ∃ t', materialize_loop fuel t target = Some (true, t') ∧ shows rs t' ∧ stable (names t) (names t') ∧
    ∀ id s, lazy_next_id l ≤ id ≤ target → rs.[id] = Some s → (names t').[id] = Some (Some s).
Proof.
  intros Hrs. induction fuel as [|fuel IH]; intros t l target Hsh Hl Ht Hf; cbn [materialize_loop]; rewrite Hl;
    (destruct (Z.leb_spec (lazy_next_id l) target); [|exists t; split_and!; [done..|lia]]); [lia|].
  assert (0 ≤ lazy_next_id l) by (destruct Hsh as (_ & (l0 & Hl0 & (_ & _ & ? & _) & _) & _); rewrite Hl in Hl0; injection Hl0 as <-; lia).
  destruct (zget_is_Some rs (lazy_next_id l)) as [s Hs]; [lia|].
  destruct (materialize_next_shows rs t l _ s Hrs Hsh Hl eq_refl Hs) as (t1 & l1 & -> & Hsh1 & Hl1 & Hn1 & Hnm & Hst1).
  cbn [mbind option_bind negb]. destruct (IH t1 l1 target Hsh1 Hl1 Ht) as (t' & -> & Hsh' & Hst' & Hall); [lia|].
  exists t'. split_and!; try done; [by etrans|]. intros id r Hid Hr.
  destruct (decide (id = lazy_next_id l)) as [->|]; [|apply Hall; [lia|done]]. apply Hst'. congruence.
Qed.

(** ** Reading a symbol *)
Lemma ray_sym_str_shows rs t id s : Forall record_ok rs → zlen rs < 2 ^ 32 → shows rs t → rs.[id] = Some s →
  ∃ t', ray_sym_str (Some t) id = Some (Some s, Some t') ∧ shows rs t' ∧ stable (names t) (names t').
Proof.
  intros Hrs Hmax Hsh Hs. pose proof Hsh as (Hwf & (l & Hl & Hat & Hold) & Hc & Hview).
  pose proof (zget_Some _ _ _ Hs) as Hb. unfold ray_sym_str, locked, id_out.
  rewrite wrap_id by (unfold in_u; lia).
  destruct (Z.ltb_spec id 0), (Z.leb_spec (str_count t) id); try lia. cbn [orb]. rewrite (names_get t) by lia.
  destruct (Hview id s Hs) as [Hno|Hyes].
  2: { rewrite Hyes. cbn. by exists t. }
  rewrite Hno. cbn [mbind option_bind]. rewrite Hl. destruct Hat as (_ & Hcnt & _). rewrite Hcnt.
  destruct (Z.ltb_spec id (zlen rs)); [|lia]. unfold sym_lazy_materialize_to_locked. rewrite Hl, Hcnt.
  destruct (Z.leb_spec (zlen rs) id); [lia|]. 
  destruct (Z.ltb_spec id (lazy_next_id l)) as [Hlt|]; [rewrite (Hold id s Hlt Hs) in Hno; done|].
  destruct (materialize_loop_shows rs (Z.to_nat (id - lazy_next_id l + 1)) Hrs t l id Hsh Hl) as (t' & -> & Hsh' & Hst' & Hall);
    [lia|lia|]. cbn [mbind option_bind negb].
  pose proof Hsh' as (Hwf' & _ & Hc' & _). rewrite (names_get t') by lia. rewrite (Hall id s) by (done || lia). cbn.
  by exists t'.
Qed.

(** ** Loading a well-formed file *)

(** The table's own symbols are those of the file, as far as both go. *)
Definition agrees (rs : list name) (l : list (option name)) : Prop :=
  ∀ id s o, rs.[id] = Some s → l.[id] = Some o → o = None ∨ o = Some s.

Lemma zlen_strl_bytes rs : 0 ≤ zlen (strl_bytes rs).
Proof. apply zlen_nonneg. Qed.
Lemma load_lazy_shows rs t : Forall record_ok rs → zlen (strl_file rs) < MAX_OBJECT → wf t → agrees rs (names t) →
  ∃ e t', load_lazy t (strl_file rs) (zlen rs) = Some (e, t') ∧ (e = SYM_OOM ∨ e = SYM_OK ∧ shows rs t').
Proof.
  intros Hrs Hmax Hwf Hag. pose proof (zlen_strl_file rs) as Hz. pose proof (zlen_strl_bytes rs). pose proof (zlen_nonneg rs).
  destruct (load_lazy_map t (strl_file rs) (zlen rs) Hwf (strl_file_bytes rs Hrs)) as [(t' & -> & _)|(t2 & -> & Hwf2 & He2 & Hn2 & Hl2 & Hc2)];
    [lia|lia|by exists SYM_OOM, t'; split; [|left]|].
  assert (Hsh : shows rs t2).
  { split; [done|]. split; [|split; [lia|]].
    - eexists. split; [exact Hl2|]. split; [|cbn; intros id s Hid Hs%zget_Some; lia].
      unfold at_record. cbn [lazy_map lazy_count lazy_next_id lazy_pos lazy_remaining].
      split_and!; try done; try lia.
      change (drop (Z.to_nat 0) rs) with rs. lia.
    - intros id s Hs. pose proof (zget_Some _ _ _ Hs).
      destruct (zget_is_Some (names t2) id) as [o Ho]; [rewrite zlen_names by done; lia|]. rewrite Ho.
      rewrite Hn2 in Ho. destruct (Z.lt_ge_cases id (zlen (names t))).
      + rewrite zget_app_l in Ho by done. destruct (Hag id s o Hs Ho) as [-> | ->]; auto.
      + rewrite zget_app_r in Ho by done. apply zget_elem, elem_of_replicate in Ho as [-> _]. by left. }
  destruct (Z.eqb_spec (Z.min (str_count t) (zlen rs)) 0).
  { exists SYM_OK, t2. split; [done|]. by right. }
  pose proof (wf_count t Hwf). unfold sym_lazy_materialize_to_locked. rewrite Hl2.
  cbn [lazy_count lazy_next_id].
  destruct (Z.leb_spec (zlen rs) (Z.min (str_count t) (zlen rs) - 1)); [lia|].
  destruct (Z.ltb_spec (Z.min (str_count t) (zlen rs) - 1) 0); [lia|].
  destruct (materialize_loop_shows rs (Z.to_nat (Z.min (str_count t) (zlen rs) - 1 - 0 + 1)) Hrs t2 _
    (Z.min (str_count t) (zlen rs) - 1) Hsh Hl2) as (t' & -> & Hsh' & _); [lia|cbn; lia|].
  exists SYM_OK, t'. split; [done|]. by right.
Qed.

(** Reading symbols one after the other. *)
Fixpoint read_all (g : option sym_table) (ids : list Z) : option (list (option name) * option sym_table) :=
  match ids with
  | [] => Some ([], g)
  | id :: ids => '(s, g) ← ray_sym_str g id; '(ss, g) ← read_all g ids; Some (s :: ss, g)
  end.
Lemma read_all_shows rs ids : Forall record_ok rs → zlen rs < 2 ^ 32 → Forall (λ id, 0 ≤ id < zlen rs) ids →
  ∀ t, shows rs t → ∃ t', read_all (Some t) ids = Some (map (λ id, rs.[id]) ids, Some t').
Proof.
  intros Hrs Hmax. induction 1 as [|id ids Hid _ IH]; intros t Hsh; [by exists t|]. cbn [read_all map].
  destruct (zget_is_Some rs id Hid) as [s Hs].
  destruct (ray_sym_str_shows rs t id s Hrs Hmax Hsh Hs) as (t1 & -> & Hsh1 & _). cbn [mbind option_bind].
  destruct (IH t1 Hsh1) as (t' & ->). cbn. exists t'. by rewrite Hs.
Qed.
End lazy.

(** * Saving and loading a dictionary *)
Section snap.
Context `{SysMem}.
Implicit Types (t : sym_table).

Lemma strl_records_spec ss : Forall (λ s, zlen s ≤ UINT32_MAX) ss → strl_records (map Some ss) = inl (strl_bytes ss).
Proof.
  induction 1 as [|s ss Hs _ IH]; [done|]. cbn [map strl_records]. destruct (Z.ltb_spec UINT32_MAX (zlen s)); [lia|].
  rewrite IH. by rewrite strl_bytes_cons.
Qed.

Lemma save_spec t ss : wf t → lazy t = None → names t = map Some ss → Forall (λ s, zlen s ≤ UINT32_MAX) ss →
  ray_sym_save true (Some t) = Some (inl (strl_file ss), Some t).
Proof.
  intros Hwf Hl Hn Hss. unfold ray_sym_save, locked. rewrite Hl. cbn [mbind option_bind negb].
  pose proof (zlen_names t Hwf) as Hz. change (take (Z.to_nat (str_count t)) (strings t)) with (names t).
  rewrite Hn, strl_records_spec by done. rewrite <- Hz, Hn, zlen_map. done.
Qed.

(** The table during the load: the first [i] entries of the file, or the symbols
    it had if these are more. *)
Lemma NoDup_zget {A} (l : list A) i j x : NoDup l → l.[i] = Some x → l.[j] = Some x → i = j.
Proof.
  intros Hnd Hi Hj. pose proof (zget_Some _ _ _ Hi). pose proof (zget_Some _ _ _ Hj).
  rewrite zget_nat in Hi, Hj by lia. pose proof (NoDup_lookup _ _ _ _ Hnd Hi Hj). lia.
Qed.
Lemma zget_map {A B} (f : A → B) l i : (map f l).[i] = f <$> l.[i].
Proof. unfold zget. destruct (0 <=? i); [|done]. apply list_lookup_fmap. Qed.

Section load.
Context (ss : list name) (Hnd : NoDup ss) (Hok : Forall record_ok ss).

Lemma load_entries_step (n : nat) : ∀ t i m, 0 ≤ i → wf t → lazy t = None → names t = map Some (take m ss) →
  i ≤ Z.of_nat m → (m ≤ length ss)%nat → Z.of_nat n = zlen ss - i →
  ∃ r t', load_entries n t i (strl_bytes (drop (Z.to_nat i) ss)) = Some (r, t') ∧
    (r = inr SYM_OOM ∨ r = inl [] ∧ wf t' ∧ lazy t' = None ∧ names t' = map Some ss).
Proof.
  induction n as [|n IH]; intros t i m Hi Hwf Hl Hn Him Hm Hlen; cbn [load_entries].
  - eexists _, t. split; [done|]. right. rewrite drop_ge by (unfold zlen in *; lia). split; [done|]. split; [done|].
    split; [done|]. rewrite Hn. by rewrite take_ge by (unfold zlen in *; lia).
  - destruct (zget_is_Some ss i) as [s Hs]; [lia|].
    assert (Hds : drop (Z.to_nat i) ss = s :: drop (Z.to_nat (i + 1)) ss).
    { pose proof Hs as Hs'. rewrite zget_nat in Hs' by lia. replace (Z.to_nat (i + 1)) with (S (Z.to_nat i)) by lia. by apply drop_S. }
    rewrite Hds, strl_bytes_cons. set (rest := strl_bytes (drop (Z.to_nat (i + 1)) ss)).
    assert (Hrec : record_ok s) by (rewrite Forall_forall in Hok; by apply Hok, (zget_elem _ i)).
    destruct (read_record s rest Hrec) as (-> & Hr2 & Hr3). pose proof (zlen_nonneg s). pose proof (zlen_nonneg rest).
    destruct (Z.ltb_spec (zlen (strl_record s ++ rest)) 4); [rewrite zlen_app, zlen_strl_record in *; lia|].
    cbn [mbind option_bind]. rewrite Hr2, Hr3.
    destruct (Z.ltb_spec (zlen (s ++ rest)) (zlen s)); [rewrite zlen_app in *; lia|].
    rewrite (rd_app (Z.to_nat (zlen s))) by (unfold zlen; lia). cbn [mbind option_bind].
    destruct (hash_Some s) as [h Hh]. rewrite Hh. cbn [mbind option_bind]. rewrite (hash32_eq _ _ Hh). clear Hh.
    destruct Hrec as [Hsb Hsl].
    destruct (sym_intern_nolock_noseg_spec t s Hwf) as (id & t1 & -> & Hwf1 & _ & _ & Hcase & Hl1); [unfold MAX_NAME; lia|].
    assert (Hp : lazy_pending t = None) by (unfold lazy_pending; by rewrite Hl).
    specialize (Hcase Hp). specialize (Hl1 Hp). rewrite Hl in Hl1. cbn [mbind option_bind].
    rewrite drop_app_length' by (by rewrite to_nat_zlen).
    assert (Hbound : Z.of_nat (length ss) = zlen ss) by done.
    destruct Hcase as [[Hn1 Hid]|[Hnin Hc]].
    + rewrite Hn, zget_map in Hid. destruct (zget _ id) as [s'|] eqn:Hid'; [|done]. injection Hid as ->.
      pose proof (zget_Some _ _ _ Hid'). rewrite zlen_take in *.
      assert (Hss : ss.[id] = Some s). { rewrite <- (zget_take _ (Z.of_nat m)) by lia. by rewrite Nat2Z.id. }
      assert (id = i) as -> by (by eapply NoDup_zget).
      destruct (Z.ltb_spec i 0); [lia|]. rewrite Z.eqb_refl. cbn [negb].
      apply (IH t1 (i + 1) m); try done; [lia|congruence|lia..].
    + destruct Hc as [[-> _]|[-> Hn1]]; [eexists _, t1; split; [done|by left]|].
      assert (Hmi : Z.of_nat m = i).
      { destruct (decide (i < Z.of_nat m)); [|lia]. exfalso. apply Hnin. rewrite Hn.
        apply (zget_elem _ i). rewrite zget_map. rewrite <- (Nat2Z.id m), zget_take by lia. by rewrite Hs. }
      assert (zlen (names t) = i) as -> by (rewrite Hn, zlen_map, zlen_take; lia).
      destruct (Z.ltb_spec i 0); [lia|]. rewrite Z.eqb_refl. cbn [negb].
      apply (IH t1 (i + 1) (S m)); try done; [lia| |lia..].
      rewrite Hn1, Hn. rewrite zget_nat in Hs by lia. replace (Z.to_nat i) with m in Hs by lia.
      by rewrite (take_S_r _ _ _ Hs), map_app.
Qed.

Lemma load_eager_spec t m : wf t → lazy t = None → names t = map Some (take m ss) → (m ≤ length ss)%nat →
  ∃ e t', load_eager t (strl_file ss) (zlen ss) = Some (e, t') ∧
    (e = SYM_OOM ∨ e = SYM_OK ∧ wf t' ∧ (∃ l, names t' = map Some ss ++ l) ∧
       ∀ id, 0 ≤ id < zlen ss → bit (scanned t') id = true).
Proof.
  intros Hwf Hl Hn Hm. unfold load_eager.
  assert (drop 12 (strl_file ss) = strl_bytes (drop (Z.to_nat 0) ss)) as ->.
  { unfold strl_file. rewrite app_assoc. apply drop_app_length'. by rewrite length_app, !length_le_enc. }
  rewrite to_nat_zlen.
  destruct (load_entries_step (length ss) t 0 m) as (r & t1 & -> & Hr); try done; [lia|unfold zlen; lia|].
  cbn [mbind option_bind]. destruct Hr as [->|(-> & Hwf1 & Hl1 & Hn1)]; [by exists SYM_OOM, t1; split; [|left]|].
  cbn [zlen length Z.of_nat Z.eqb negb].
  destruct (rebuild_safe t1 Hwf1) as (e & t' & l & -> & Hwf' & He & Hcase & Hb). cbn [mbind option_bind].
  exists e, t'. split; [done|]. destruct Hcase as [->| ->]; [right|by left]. split; [done|]. split; [done|].
  split; [exists l; by rewrite (ext_names_eq _ _ _ He), Hn1|].
  intros id Hid. apply (Hb eq_refl); rewrite <- ?zlen_names, Hn1, ?zlen_map by done; [done|].
  rewrite zget_map. by destruct (zget ss id).
Qed.
End load.

(** Bytes of a file and its header. *)
Lemma ray_sym_load_file t ss : zlen ss ≤ UINT32_MAX →
  ray_sym_load (Some t) (strl_file ss) =
    ('(e, t') ← (if SYM_LAZY_LOAD_MIN_BYTES <=? zlen (strl_file ss) then load_lazy t (strl_file ss) (zlen ss)
                 else load_eager t (strl_file ss) (zlen ss)); Some (e, Some t')).
Proof.
  intros Hss. pose proof (zlen_nonneg ss). pose proof (zlen_strl_bytes ss). unfold ray_sym_load, locked.
  destruct (Z.ltb_spec (zlen (strl_file ss)) 12); [rewrite zlen_strl_file in *; lia|].
  assert (rd 4 (strl_file ss) = Some (le_enc 4 SYM_STRL_MAGIC)) as ->.
  { unfold strl_file. by apply rd_app. }
  cbn [mbind option_bind]. assert (drop 4 (strl_file ss) = le_enc 8 (zlen ss) ++ strl_bytes ss) as ->.
  { unfold strl_file. by apply drop_app_length'. }
  rewrite le_dec_enc. change (negb (wrap (8 * Z.of_nat 4) SYM_STRL_MAGIC =? SYM_STRL_MAGIC)) with false. cbn [negb].
  rewrite rd_app by (by rewrite length_le_enc). cbn [mbind option_bind]. rewrite le_dec_enc.
  unfold UINT32_MAX in *. change (8 * Z.of_nat 8) with 64.
  rewrite (swrap_wrap 64) by (unfold in_s; lia).
  destruct (Z.ltb_spec (zlen ss) 0); [lia|]. destruct (Z.ltb_spec (2 ^ 32 - 1) (zlen ss)); [lia|]. done.
Qed.
End snap.
