(* ===== verification/SymProps.v ===== *)
(** * Properties of the symbol table

    Statements about every table reachable by a run of the public operations,
    under every pattern of refused memory requests. *)

From S2P Require Import Prelude Hash HashProofs Arena Sym SymRing SymInv SymGrow SymSegs SymIntern.
From S2P Require Import SymOps SymLoad SymLazy.
Local Open Scope Z_scope.

(** ** Runs *)
Inductive sym_op :=
| OpIntern (s : name) | OpInternRuntime (s : name) | OpInternPrehashed (h : Z) (s : name) | OpInternNoSplit (s : name)
| OpFind (s : name) | OpStr (id : Z) | OpBorrow | OpRebuild | OpEnsureCap (n : Z) | OpSave (snap_ok : bool) | OpLoad (file : list Z).

(** Names are no longer than memory, hashes are the names' own, ids and counts
    are 32-bit, files hold bytes. *)
Definition op_ok (o : sym_op) : Prop :=
  match o with
  | OpIntern s | OpInternRuntime s | OpInternNoSplit s => zlen s < MAX_NAME
  | OpInternPrehashed h s => zlen s < MAX_NAME ∧ h = hash32 s
  | OpStr id => id < 2 ^ 32
  | OpEnsureCap n => in_u 32 n
  | OpLoad file => byte_list file ∧ zlen file < MAX_OBJECT
  | _ => True
  end.

Section runs.
Context `{SysMem}.
Implicit Types (g : option sym_table).

Definition run_op (o : sym_op) g : option (option sym_table) :=
  match o with
  | OpIntern s => snd <$> ray_sym_intern g s
  | OpInternRuntime s => snd <$> ray_sym_intern_runtime g s
  | OpInternPrehashed h s => snd <$> ray_sym_intern_prehashed g h s
  | OpInternNoSplit s => snd <$> ray_sym_intern_no_split g s
  | OpFind s => snd <$> ray_sym_find g s
  | OpStr id => snd <$> ray_sym_str g id
  | OpBorrow => snd <$> ray_sym_strings_borrow g
  | OpRebuild => snd <$> ray_sym_rebuild_segments g
  | OpEnsureCap n => snd <$> ray_sym_ensure_cap g n
  | OpSave b => snd <$> ray_sym_save b g
  | OpLoad file => snd <$> ray_sym_load g file
  end.
Definition run_ops (os : list sym_op) g : option (option sym_table) := foldM run_op os g.

Definition reachable (t : sym_table) : Prop :=
  ∃ clk e t0 os, ray_sym_init clk = Some (e, Some t0) ∧ Forall op_ok os ∧ run_ops os (Some t0) = Some (Some t).

Lemma run_op_spec o t : wf t → op_ok o → ∃ t', run_op o (Some t) = Some (Some t') ∧ wf t' ∧ evolves t t'.
Proof.
  intros Hwf Ho. destruct o as [s|s|h s|s|s|id| | |n|b|file]; cbn [op_ok] in Ho; unfold run_op.
  - destruct (sym_intern_nolock_spec t s true Hwf Ho) as (id & t' & Hi & ? & ? & _).
    rewrite (ray_sym_intern_Some _ _ _ _ Hi). by exists t'.
  - destruct (sym_intern_nolock_spec t s false Hwf Ho) as (id & t' & Hi & ? & ? & _).
    unfold ray_sym_intern_runtime, locked. destruct (hash_Some s) as [h Hh]. rewrite Hh. cbn [mbind option_bind].
    rewrite (hash32_eq _ _ Hh), Hi. by exists t'.
  - destruct Ho as [Ho ->]. destruct (sym_intern_nolock_spec t s true Hwf Ho) as (id & t' & Hi & ? & ? & _).
    unfold ray_sym_intern_prehashed, locked. rewrite Hi. by exists t'.
  - destruct (sym_intern_nolock_noseg_spec t s Hwf Ho) as (id & t' & Hi & ? & ? & _).
    unfold ray_sym_intern_no_split, locked. destruct (hash_Some s) as [h Hh]. rewrite Hh. cbn [mbind option_bind].
    rewrite (hash32_eq _ _ Hh), Hi. by exists t'.
  - destruct (ray_sym_find_spec t s Hwf) as (id & t' & -> & ? & ? & _). by exists t'.
  - destruct (ray_sym_str_spec t id Hwf Ho) as (r & t' & -> & ? & ? & _). by exists t'.
  - unfold ray_sym_strings_borrow, locked. destruct (materialize_all_safe t false Hwf) as (ok & t' & -> & ? & ?). by exists t'.
  - destruct (rebuild_safe t Hwf) as (e & t' & l & -> & ? & He & _). exists t'. split_and!; try done. by eapply ext_evolves.
  - destruct (ray_sym_ensure_cap_spec t n Hwf Ho) as (ok & t' & -> & ? & He). exists t'. split_and!; try done. by eapply ext_evolves.
  - unfold ray_sym_save, locked. destruct (materialize_all_safe t true Hwf) as (ok & t' & -> & ? & ?). cbn [mbind option_bind].
    destruct ok, b; by exists t'.
  - destruct (ray_sym_load_safe t file Hwf) as (e & t' & -> & ? & ?); [apply Ho..|]. by exists t'.
Qed.
Lemma run_ops_spec os t : wf t → Forall op_ok os → ∃ t', run_ops os (Some t) = Some (Some t') ∧ wf t' ∧ evolves t t'.
Proof.
  intros Hwf Hos. revert t Hwf. induction Hos as [|o os Ho _ IH]; intros t Hwf; [by exists t|].
  unfold run_ops. cbn [foldM]. destruct (run_op_spec o t Hwf Ho) as (t1 & -> & Hwf1 & He1). cbn [mbind option_bind].
  destruct (IH t1 Hwf1) as (t' & Hr & Hwf' & He'). exists t'. split_and!; [exact Hr|done|by etrans].
Qed.
Lemma reachable_wf t : reachable t → wf t.
Proof.
  intros (clk & e & t0 & os & Hi & Hos & Hr). destruct (ray_sym_init_spec clk) as (e' & g & Hi' & Hg).
  rewrite Hi' in Hi. injection Hi as -> ->. destruct Hg as (_ & Hwf0 & _).
  destruct (run_ops_spec os t0 Hwf0 Hos) as (t' & Hr' & Hwf' & _). congruence.
Qed.

(** ** The properties *)

(** C3. Every operation, on every table a run can reach, ends, stays inside its
    arrays (probing meets an empty bucket, no null atom is followed) and keeps
    the invariant: the open-addressing table indexes exactly the names, arrays
    and bitmaps cover every symbol, and cached segments are those of the name.
    No operation changes the name of a symbol. *)
Theorem sym_invariant_preserved t os : reachable t → Forall op_ok os →
  ∃ t', run_ops os (Some t) = Some (Some t') ∧ wf t' ∧
    ∀ id s, (names t).[id] = Some (Some s) → (names t').[id] = Some (Some s).
Proof.
  intros Hr Hos. destruct (run_ops_spec os t (reachable_wf t Hr) Hos) as (t' & -> & Hwf' & He').
  exists t'. split_and!; try done. apply He'.
Qed.

(** C4. Interning refines its specification on the list of names, for every
    pattern of refused requests: a name that has a symbol gets it (its segments
    may get theirs); another is appended after its segments without a symbol and
    gets the last position; or the answer is -1 and no name was added. *)
Theorem ray_sym_intern_refines t str : reachable t → lazy_pending t = None → zlen str < MAX_NAME →
  ∃ id t', ray_sym_intern (Some t) str = Some (id, Some t') ∧ wf t' ∧ interned (names t) str (names t') id.
Proof.
  intros Hr Hlz Hs. destruct (sym_intern_nolock_spec t str true (reachable_wf t Hr) Hs) as (id & t' & Hi & Hwf' & _ & _ & Hc).
  exists id, t'. split; [by apply ray_sym_intern_Some|]. split; [done|]. apply Hc. by left.
Qed.

(** A symbol is found, by name and by position, whatever happens after it
    was interned. *)
Theorem interned_symbol_stable t str id t1 os : reachable t → zlen str < MAX_NAME → Forall op_ok os →
  ray_sym_intern (Some t) str = Some (id, Some t1) → 0 ≤ id →
  ∃ t2, run_ops os (Some t1) = Some (Some t2) ∧ ray_sym_str (Some t2) id = Some (Some str, Some t2) ∧
    ∃ id' t3, ray_sym_find (Some t2) str = Some (id', Some t3) ∧ (names t3).[id'] = Some (Some str).
Proof.
  intros Hr Hs Hos Hi Hid.
  destruct (sym_intern_nolock_spec t str true (reachable_wf t Hr) Hs) as (id1 & t1' & Hi' & Hwf1 & _ & Hn & _).
  apply ray_sym_intern_Some in Hi'. rewrite Hi in Hi'. injection Hi' as <- <-.
  destruct Hn as [->|Hn]; [lia|]. destruct (run_ops_spec os t1 Hwf1 Hos) as (t2 & -> & Hwf2 & He2).
  exists t2. split; [done|]. apply He2 in Hn.
  pose proof (zget_Some _ _ _ Hn) as Hb. pose proof (count_max t2 Hwf2) as Hm. unfold MAX_SYMS in Hm.
  rewrite zlen_names in Hb by done.
  destruct (ray_sym_str_spec t2 id Hwf2) as (r & t' & Hstr & _ & _ & Hsome & _); [lia|].
  destruct (Hsome str Hn) as [-> ->]. split; [done|].
  destruct (ray_sym_find_spec t2 str Hwf2) as (id' & t3 & Hf & Hwf3 & He3 & Hcase & Hno). exists id', t3. split; [done|].
  destruct Hcase as [->|]; [|done]. exfalso.
  assert (Hin : Some str ∈ names t2) by (by eapply zget_elem).
  revert Hf. unfold ray_sym_find, locked. destruct (hash_Some str) as [h Hh]. rewrite Hh. cbn [mbind option_bind].
  rewrite (hash32_eq _ _ Hh). destruct (sym_probe_spec t2 (wf_index t2 Hwf2) str) as (r & -> & Hf). cbn [mbind option_bind].
  destruct Hf as [[_ ?]|Hf]; [done|]. pose proof (zget_Some _ _ _ Hf).
  destruct (lazy_pending t2); [destruct (Z.ltb_spec r 0); [lia|]|]; intros [= Hneg _]; lia.
Qed.

(** C19. A newly interned dotted name carries the symbols of its segments, as the
    reference splits it (a leading dot belongs to the first segment): joined
    with dots they give the name back. *)
Theorem interned_segments t str id t' : reachable t → lazy_pending t = None → zlen str < MAX_NAME →
  Some str ∉ names t → ray_sym_intern (Some t) str = Some (id, Some t') → 0 ≤ id →
  ray_sym_is_dotted (Some t') id = Some (bool_decide (is_Some (ref_segments str))) ∧
  ∀ ps, ref_segments str = Some ps →
    join_dots ps = str ∧
    ∃ ids, ray_sym_segs (Some t') id = Some (Some ids) ∧
      Forall2 (λ i p, ray_sym_str (Some t') i = Some (Some p, Some t')) ids ps.
Proof.
  intros Hr Hlz Hs Hnin Hi Hid.
  destruct (sym_intern_nolock_spec t str true (reachable_wf t Hr) Hs) as (id1 & t1' & Hi' & Hwf & _ & Hn & Hc).
  apply ray_sym_intern_Some in Hi'. rewrite Hi in Hi'. injection Hi' as <- <-.
  destruct (Hc (or_introl Hlz)) as (_ & _ & Hb). specialize (Hb ltac:(lia) Hnin). destruct Hn as [->|Hn]; [lia|].
  pose proof (zget_Some _ _ _ Hn) as Hbd. rewrite zlen_names in Hbd by done. pose proof (count_max t' Hwf) as Hm.
  unfold MAX_SYMS in Hm. destruct (in_range t' Hwf id Hbd) as (_ & Hd & _ & Hg).
  assert (Hout : ∀ i, 0 ≤ i < str_count t' → id_out t' i = false).
  { intros i Hi'. unfold id_out. rewrite wrap_id by (unfold in_u; lia).
    destruct (Z.ltb_spec i 0), (Z.leb_spec (str_count t') i); (done || lia). }
  pose proof (wf_segs t' Hwf id Hid) as Hok. unfold id_ok in Hok. rewrite Hn in Hok. destruct Hok as [Hdot Hseg].
  specialize (Hdot Hb). split.
  - unfold ray_sym_is_dotted. rewrite Hout by done. rewrite wrap_id by (unfold in_u; lia).
    rewrite get_bit_spec by lia. by rewrite Hdot.
  - intros ps Hps. rewrite Hps in Hdot. destruct (Hseg Hdot) as (ps' & ids & Hps' & Hg' & Hf2).
    assert (ps' = ps) as -> by congruence. destruct (ref_segments_pieces _ _ Hps) as [-> Hl].
    split; [apply join_pieces|]. exists ids. split.
    + unfold ray_sym_segs. rewrite Hout by done. rewrite Hg'. cbn [mbind option_bind nsegs segs].
      destruct (Z.eqb_spec (zlen (pieces str)) 0); [lia|done].
    + eapply Forall2_impl; [exact Hf2|]. intros i p Hp. pose proof (zget_Some _ _ _ Hp) as Hpb.
      rewrite zlen_names in Hpb by done.
      destruct (ray_sym_str_spec t' i Hwf) as (r & t2 & Hstr & _ & _ & Hsome & _); [lia|].
      by destruct (Hsome p Hp) as [-> ->].
Qed.

(** Interning a new name keeps the names of the table distinct exactly when
    no segment without a symbol occurs twice in it: of a repeated one every
    occurrence gets a symbol of its own. *)
Theorem interned_names_distinct t str id t' : reachable t → lazy_pending t = None → zlen str < MAX_NAME →
  NoDup (names t) → Some str ∉ names t → ray_sym_intern (Some t) str = Some (id, Some t') → 0 ≤ id →
  NoDup (names t') ↔ NoDup (missing (names t) (segments_of str)).
Proof.
  intros Hr Hlz Hs Hnd Hnin Hi Hid.
  destruct (sym_intern_nolock_spec t str true (reachable_wf t Hr) Hs) as (id1 & t1' & Hi' & Hwf & _ & _ & Hc).
  apply ray_sym_intern_Some in Hi'. rewrite Hi in Hi'. injection Hi' as <- <-.
  destruct (Hc (or_introl Hlz)) as [[(? & _)|(_ & [[-> _]|[_ ->]])] _]; [done|lia|].
  unfold fresh_names. rewrite app_assoc, NoDup_app, NoDup_app. split.
  - intros [(_ & _ & Hm) _]. by apply NoDup_fmap_1 in Hm.
  - intros Hm. split_and!; [done| | | |repeat constructor; set_solver].
    + intros o Ho (p & -> & Hp)%list_elem_of_fmap. apply list_elem_of_filter in Hp as [Hp _]. done.
    + apply NoDup_fmap_2; [by intros ? ? [= ->]|done].
    + intros o Ho ->%list_elem_of_singleton. apply elem_of_app in Ho as [Ho|(p & [= <-] & Hp)%list_elem_of_fmap]; [done|].
      apply list_elem_of_filter in Hp as [_ Hp]. unfold segments_of in Hp.
      destruct (ref_segments str) as [ps|] eqn:Hps; cbn in Hp; [|by apply not_elem_of_nil in Hp].
      pose proof (piece_bound str ps Hps Hs) as Hf. rewrite Forall_forall in Hf. destruct (Hf str Hp) as [Hf' _]. congruence.
Qed.


(** C20. A dictionary file that stays mapped shows its records: when requests are
    granted, symbols read in any order, any number of times, are the records at
    their positions. *)
Theorem mapped_dictionary_reads t rs : (∀ c n, map_ok c n = true) → reachable t → agrees rs (names t) →
  Forall record_ok rs → zlen rs < 2 ^ 32 → zlen (strl_file rs) < MAX_OBJECT →
  ∃ e t', load_lazy t (strl_file rs) (zlen rs) = Some (e, t') ∧
    (e = SYM_OOM ∨ e = SYM_OK ∧ ∀ ids, Forall (λ id, 0 ≤ id < zlen rs) ids →
       ∃ t'', read_all (Some t') ids = Some (map (λ id, rs.[id]) ids, Some t'')).
Proof.
  intros Hg Hr Hag Hrs Hn Hmax.
  destruct (load_lazy_shows Hg rs t Hrs Hmax (reachable_wf t Hr) Hag) as (e & t' & Hld & Hc).
  exists e, t'. split; [done|]. destruct Hc as [->|[-> Hsh]]; [by left|right]. split; [done|]. intros ids Hids.
  by apply (read_all_shows Hg rs ids).
Qed.

(** The bounds check of [ray_sym_str] and [ray_sym_segs] looks at the low 32
    bits of an id, the access at all 64: an id past them whose low bits are a
    symbol's is read outside the arrays. *)
Theorem wide_id_out_of_bounds t k : reachable t → 0 ≤ k < str_count t →
  zlen (strings t) ≤ 2 ^ 32 → zlen (segments t) ≤ 2 ^ 32 →
  ray_sym_str (Some t) k ≠ None ∧ ray_sym_str (Some t) (k + 2 ^ 32) = None ∧ ray_sym_segs (Some t) (k + 2 ^ 32) = None.
Proof.
  intros Hr Hk Hs Hg. pose proof (reachable_wf t Hr) as Hwf. pose proof (count_max t Hwf) as Hm. unfold MAX_SYMS in Hm.
  split.
  { destruct (ray_sym_str_spec t k Hwf) as (r & t' & -> & _); [lia|done]. }
  assert (Ho : id_out t (k + 2 ^ 32) = false).
  { unfold id_out, wrap. replace (k + 2 ^ 32) with (k + 1 * 2 ^ 32) by lia. rewrite Z.mod_add, Z.mod_small by lia.
    destruct (Z.ltb_spec (k + 1 * 2 ^ 32) 0), (Z.leb_spec (str_count t) k); (done || lia). }
  unfold ray_sym_str, ray_sym_segs, locked. rewrite Ho. by rewrite !zget_out by lia.
Qed.

(** A record refused after its length was read leaves the cursor behind the
    length: the next attempt reads the record's text as a length. *)
Lemma refused_record_cursor t l t' : wf t → lazy t = Some l → 4 ≤ lazy_remaining l →
  materialize_next t l = Some (false, t') → lazy t' = Some (advance l 4).
Proof.
  intros Hwf Hl Hrem. unfold materialize_next. destruct (Z.ltb_spec (lazy_remaining l) 4); [lia|].
  destruct (peek l 4) as [bs|]; [|done]. cbn [mbind option_bind]. destruct (_ <? le_dec bs); [by intros [= <-]|].
  destruct (peek (advance l 4) _) as [sp|]; [|done]. cbn [mbind option_bind].
  destruct (zget _ _) as [[e|]|]; [| |done]; cbn [mbind option_bind].
  - destruct (_ && _); cbn [negb]; [done|by intros [= <-]].
  - destruct (ray_arena_str _ _ _) as [[[ok a] clk]|]; [|done]. cbn [mbind option_bind]. destruct ok; cbn [negb mbind option_bind].
    + destruct (zset _ _ _); [|done]. destruct (ray_hash_bytes sp); [|done]. cbn [mbind option_bind].
      destruct (ht_insert _ _ _ _); [|done]. done.
    + by intros [= <-].
Qed.
End runs.

(** ** Witnesses *)
Module SymDemo.
#[local] Instance granted : SysMem := λ _ _, true.
Definition start : option sym_table := match ray_sym_init 0 with Some (_, g) => g | None => None end.
Definition t0 : sym_table := Eval vm_compute in match start with Some t => t | None => sym_initial (Arena [] 0) 0 end.
(** ["a.b"], ["a.a"], ["x"] *)
Definition ab : name := [97; 46; 98].
Definition aa : name := [97; 46; 97].
Definition x : name := [120].

Definition after (g : option (Z * option sym_table)) : sym_table := match g with Some (_, Some t) => t | _ => t0 end.
Definition t1 : sym_table := Eval vm_compute in after (ray_sym_intern (Some t0) ab).

Lemma init_t0 : ray_sym_init 0 = Some (SYM_OK, Some t0).
Proof. vm_compute. reflexivity. Qed.
Lemma reach0 : reachable t0.
Proof. exists 0, SYM_OK, t0, []. split; [exact init_t0|]. split; [constructor|reflexivity]. Qed.
Lemma ok_ops : Forall op_ok [OpIntern ab].
Proof. repeat constructor. Qed.
Lemma run_t1 : run_ops [OpIntern ab] (Some t0) = Some (Some t1).
Proof. vm_compute. reflexivity. Qed.
Lemma reach1 : reachable t1.
Proof. exists 0, SYM_OK, t0, [OpIntern ab]. split; [exact init_t0|]. split; [exact ok_ops|exact run_t1]. Qed.

Lemma sym_invariant_preserved_witness : ∃ t', run_ops [OpIntern aa; OpEnsureCap 300; OpFind x; OpSave true] (Some t1) = Some (Some t') ∧ wf t' ∧
  ∀ id s, (names t1).[id] = Some (Some s) → (names t').[id] = Some (Some s).
Proof. apply (sym_invariant_preserved t1 _ reach1). repeat constructor; done. Defined.

Lemma ray_sym_intern_refines_witness : ∃ id t', ray_sym_intern (Some t1) aa = Some (id, Some t') ∧ wf t' ∧ interned (names t1) aa (names t') id.
Proof. apply (ray_sym_intern_refines t1 aa reach1); reflexivity. Defined.

Definition t1aa : sym_table := Eval vm_compute in after (ray_sym_intern (Some t1) aa).
Lemma intern_aa : ray_sym_intern (Some t1) aa = Some (4, Some t1aa).
Proof. vm_compute. reflexivity. Qed.
Lemma interned_symbol_stable_witness :
  ∃ t2, run_ops [OpIntern x] (Some t1aa) = Some (Some t2) ∧ ray_sym_str (Some t2) 4 = Some (Some aa, Some t2) ∧
    ∃ id' t3, ray_sym_find (Some t2) aa = Some (id', Some t3) ∧ (names t3).[id'] = Some (Some aa).
Proof. apply (interned_symbol_stable t1 aa 4 t1aa _ reach1); [reflexivity|repeat constructor|exact intern_aa|lia]. Defined.

Definition t0ab : sym_table := t1.
Lemma intern_ab : ray_sym_intern (Some t0) ab = Some (3, Some t1).
Proof. vm_compute. reflexivity. Qed.
Lemma ab_new : Some ab ∉ names t0.
Proof. apply (bool_decide_eq_true_1 _). vm_compute. reflexivity. Qed.
Lemma interned_segments_witness : ref_segments ab = Some [[97]; [98]] ∧ ray_sym_is_dotted (Some t1) 3 = Some true.
Proof.
  split; [reflexivity|].
  destruct (interned_segments t0 ab 3 t1 reach0) as [H _]; [reflexivity|reflexivity|exact ab_new|exact intern_ab|lia|exact H].
Defined.

(** On a table without ["a"], ["a.a"] makes two symbols for it. *)
Definition t0aa : sym_table := Eval vm_compute in after (ray_sym_intern (Some t0) aa).
Lemma interned_names_distinct_witness : ¬ NoDup (names t0aa) ∧ NoDup (names t0).
Proof.
  assert (Hnd : NoDup (names t0)) by (apply (bool_decide_eq_true_1 _); vm_compute; reflexivity). split; [|exact Hnd].
  assert (Hi : ray_sym_intern (Some t0) aa = Some (3, Some t0aa)) by (vm_compute; reflexivity).
  assert (Hn : Some aa ∉ names t0) by (apply (bool_decide_eq_true_1 _); vm_compute; reflexivity).
  rewrite (interned_names_distinct t0 aa 3 t0aa reach0 eq_refl eq_refl Hnd Hn Hi ltac:(lia)).
  apply (bool_decide_eq_true_1 _). vm_compute. reflexivity.
Defined.


Lemma mapped_dictionary_reads_witness : ∃ e t', load_lazy t0 (strl_file [[]; ab]) 2 = Some (e, t') ∧
    (e = SYM_OOM ∨ e = SYM_OK ∧ ∀ ids, Forall (λ id, 0 ≤ id < 2) ids →
       ∃ t'', read_all (Some t') ids = Some (map (λ id, [[]; ab].[id]) ids, Some t'')).
Proof.
  apply (mapped_dictionary_reads t0 [[]; ab]); [done|exact reach0| |repeat constructor; done|reflexivity|reflexivity].
  intros id s o Hs Ho. pose proof (zget_Some _ _ _ Ho) as Hb. change (zlen (names t0)) with 1 in Hb.
  assert (id = 0) as -> by lia. injection Hs as <-. injection Ho as <-. by right.
Defined.

Lemma wide_id_out_of_bounds_witness :
  ray_sym_str (Some t1) 3 ≠ None ∧ ray_sym_str (Some t1) (3 + 2 ^ 32) = None ∧ ray_sym_segs (Some t1) (3 + 2 ^ 32) = None.
Proof. apply (wide_id_out_of_bounds t1 3 reach1); vm_compute; (done || split; done). Defined.
End SymDemo.
