(* ===== verification/Sort.v ===== *)
(** * Sorting ([src/src/ops/sort.c])

    Sorting one numeric column: the keys are encoded as unsigned integers whose
    order is the wanted one, and sorted with the row numbers they came from.
    Short inputs are sorted by comparison (insertion sort, introsort), longer
    ones by radix, in parallel; when memory is refused, or the keys are of a
    type the radix path declines, a merge sort compares rows.

    - The parallel arrays [keys[]] and [idx[]] are one array of pairs, since
      they are always accessed at the same positions; a sub-array passed by
      pointer and length is the segment itself, put back when the callee is
      done.
    - Whether each request for scratch memory is served, and what fresh memory
      holds, is the class [Scratch]; a stack buffer holds [None], so reading an
      element never written is undefined.
    - The tasks of a dispatch run in some order, each on some worker. *)

From S2P Require Import Prelude Pool Rowsel.
Local Open Scope Z_scope.

(** ** Sorting by comparison

    [lt x y] is the strict comparison the caller sorts by. *)
Definition swap {A} (a : list A) (i j : Z) : option (list A) :=
  x ← a.[i]; y ← a.[j]; a ← zset a i y; zset a j x.

Section comparison.
Context {A : Type} (lt : A → A → bool).

(** [if (c < n && lt(a[largest], a[c])) largest = c;] *)
Definition pick_larger (a : list A) (n largest c : Z) : option Z :=
  if c <? n then x ← a.[largest]; y ← a.[c]; Some (if lt x y then c else largest) else Some largest.

Fixpoint sift_down (fuel : nat) (a : list A) (n i : Z) : option (list A) :=
  match fuel with
  | O => None
  | S fuel =>
      largest ← pick_larger a n i (2 * i + 1);
      largest ← pick_larger a n largest (2 * i + 2);
      if largest =? i then Some a else
      a ← swap a i largest;
      sift_down fuel a n largest
  end.

Definition heapify (a : list A) (n : Z) : option (list A) :=
  foldM (λ i a, sift_down (Z.to_nat n + 1) a n i) (rev (range 0 (n / 2))) a.
Definition heapsort (a : list A) (n : Z) : option (list A) :=
  a ← heapify a n;
  foldM (λ i a, a ← swap a 0 i; sift_down (Z.to_nat i + 1) a i 0) (rev (range 1 n)) a.

(** The inner [while] of an insertion sort and the write after it. *)
Fixpoint insert_shift (fuel : nat) (a : list A) (x : A) (j : Z) : option (list A) :=
  if 0 <=? j then
    y ← a.[j];
    if lt x y then
      match fuel with
      | O => None
      | S fuel => a ← zset a (j + 1) y; insert_shift fuel a x (j - 1)
      end
    else zset a (j + 1) x
  else zset a (j + 1) x.
Definition insertion_sort (a : list A) (n : Z) : option (list A) :=
  foldM (λ i a, x ← a.[i]; insert_shift (Z.to_nat i) a x (i - 1)) (range 1 n) a.
End comparison.

(** *** Pairs of an encoded key and the row it came from *)
Abbreviation kv := (Z * Z)%type.

Definition key_lt (a b : kv) : bool := (fst a <? fst b) || ((fst a =? fst b) && (snd a <? snd b)).

Definition key_sift_down := sift_down key_lt.
Definition key_heapsort (a : list kv) : option (list kv) := heapsort key_lt a (zlen a).
Definition key_insertion_sort (a : list kv) : option (list kv) := insertion_sort key_lt a (zlen a).

(** Median of the keys at 0, [mid] and [n - 1]. *)
Definition median3 (a : list kv) (mid n : Z) : option Z :=
  x ← a.[0]; y ← a.[mid]; z ← a.[n - 1];
  let '(a, b, c) := (fst x, fst y, fst z) in
  Some (if a <? b then (if b <? c then mid else if a <? c then n - 1 else 0)
        else (if a <? c then 0 else if b <? c then n - 1 else mid)).

(** The partition loop around the pivot [p]; the counter is [lo]. *)
Definition partition (a : list kv) (p : kv) (n : Z) : option (list kv * Z) :=
  foldM (λ i '(a, lo), x ← a.[i];
           if key_lt x p then a ← swap a i lo; Some (a, lo + 1) else Some (a, lo))
    (range 0 (n - 1)) (a, 0).

Fixpoint key_introsort_impl (depth : nat) (a : list kv) : option (list kv) :=
  let n := zlen a in
  if 32 <? n then
    match depth with
    | O => key_heapsort a
    | S depth =>
        pi ← median3 a (n / 2) n;
        p ← a.[pi];
        last ← a.[n - 1]; a ← zset a pi last; a ← zset a (n - 1) p;
        '(a, lo) ← partition a p n;
        q ← a.[lo]; a ← zset a (n - 1) q; a ← zset a lo p;
        let left := take (Z.to_nat lo) a in
        let right := drop (Z.to_nat (lo + 1)) a in
        if lo <? n - 1 - lo then
          left ← key_introsort_impl depth left;
          right ← key_introsort_impl depth right;
          Some (left ++ p :: right)
        else
          right ← key_introsort_impl depth right;
          left ← key_introsort_impl depth left;
          Some (left ++ p :: right)
    end
  else key_insertion_sort a.

(** [for (nn = n; nn > 1; nn >>= 1) depth++;] on a 63-bit count *)
Fixpoint halvings (fuel : nat) (nn : Z) : nat :=
  match fuel with
  | O => 0%nat
  | S fuel => if 1 <? nn then S (halvings fuel (Z.shiftr nn 1)) else 0%nat
  end.
Definition key_introsort (a : list kv) : option (list kv) :=
  if zlen a <=? 1 then Some a else key_introsort_impl (2 * halvings 63 (zlen a)) a.

(** ** The pool, for the sorts

    How many workers there are, and on which of them each task runs. *)
Class Workers := {
  total_workers : Z;
  task_wid : task → Z;
}.

(** Where scratch memory is requested; each request is made at most once in a
    sort. *)
Inductive site :=
| S_indices | S_rank_hdrs | S_enum_ranks | S_keys | S_ptmp | S_ktmp | S_itmp
| S_hist | S_offsets | S_msd_hist (n_bytes : nat) | S_msd_offsets (n_bytes : nat)
| S_default_nf | S_tmp | S_result | S_gather | S_decoded | S_heap_keys | S_heap_idx.
Class Scratch := {
  scratch_ok : site → Z → bool;
  scratch_junk : Z → Z;
}.
Definition scratch `{Scratch} (n : Z) : list Z := map scratch_junk (range 0 n).
(** [scratch_alloc] of [n] elements of [size] bytes *)
Definition scratch_alloc `{Scratch} (s : site) (size n : Z) : option (list Z) :=
  if scratch_ok s (size * n) then Some (scratch n) else None.

Definition RADIX_SORT_THRESHOLD : Z := 4096.
Definition SMALL_POOL_THRESHOLD : Z := 8192.
Definition UINT64_MAX : Z := 2 ^ 64 - 1.

Section sort.
Context `{Dispatcher} `{Workers} `{Scratch}.

Definition ray_pool_dispatch_n {S} (fn : Z → Z → S → option S) (n_tasks : Z) (s : S) : option S :=
  foldM (λ t, fn (t_start t) (t_end t))
    (run_order (snd (dispatch_n_tasks ring_realloc_ok ring_cap 0 n_tasks))) s.
(** [ray_pool_dispatch] with a work function that uses its worker's number. *)
Definition ray_pool_dispatch_w {S} (fn : Z → Z → Z → S → option S) (total : Z) (s : S) : option S :=
  foldM (λ t, fn (task_wid t) (t_start t) (t_end t))
    (run_order (snd (dispatch_tasks ring_realloc_ok ring_cap 0 total))) s.

(** ** Range and order of the keys *)
Definition key_range_fn (keys : list Z) (wid start end_ : Z) (pw_or : list Z) : option (list Z) :=
  local_or ← pw_or.[wid];
  first ← keys.[start];
  local_or ← foldM (λ i acc, k ← keys.[i]; Some (Z.lor acc (Z.lxor k first))) (range start end_) local_or;
  zset pw_or wid local_or.

(** [while (diff) { nb++; diff >>= 8; }] *)
Fixpoint byte_count (fuel : nat) (diff : Z) : Z :=
  match fuel with
  | O => 0
  | S fuel => if diff =? 0 then 0 else 1 + byte_count fuel (Z.shiftr diff 8)
  end.

Definition compute_key_nbytes (pool : bool) (keys : list Z) (n type_max : Z) : option Z :=
  if n <=? 1 then Some 1 else
  diff ←
    (if pool && (SMALL_POOL_THRESHOLD <? n) then
       let nw := total_workers in
       pw_or ← ray_pool_dispatch_w (key_range_fn keys) n (replicate (Z.to_nat nw) 0);
       let diff := foldl Z.lor 0 pw_or in
       first ← keys.[0];
       let chunk := (n + nw - 1) / nw in
       foldM (λ w diff, let wstart := w * chunk in
                if wstart <? n then k ← keys.[wstart]; Some (Z.lor diff (Z.lxor k first)) else Some diff)
         (range 1 nw) diff
     else
       first ← keys.[0];
       foldM (λ i diff, k ← keys.[i]; Some (Z.lor diff (Z.lxor k first))) (range 1 n) 0);
  let nb := byte_count 8 diff in
  let nb := if nb <? 1 then 1 else nb in
  Some (if nb <? type_max then nb else type_max).

(** Multiples of the grain below [n]: [for (b = grain; b < n; b += grain)] *)
Definition task_bounds (n : Z) : list Z :=
  List.filter (λ b, b <? n) (map (λ k, k * TASK_GRAIN) (range 1 (n / TASK_GRAIN + 1))).

(** [a[k] += d] *)
Definition add_at (a : list Z) (k d : Z) : option (list Z) := x ← a.[k]; zset a k (x + d).

Definition count_unsorted (keys : list Z) (at_ : list Z) (n0 : Z) : option Z :=
  foldM (λ i c, x ← keys.[i - 1]; y ← keys.[i]; Some (if y <? x then c + 1 else c)) at_ n0.

Definition sortedness_fn (keys : list Z) (wid start end_ : Z) (pw : list Z) : option (list Z) :=
  unsorted ← count_unsorted keys (range (start + 1) end_) 0;
  add_at pw wid unsorted.

(** The number of pairs out of order; the code returns its quotient by
    [n - 1], which its callers compare with 0. *)
Definition detect_sortedness (pool : bool) (keys : list Z) (n : Z) : option Z :=
  if n <=? 1 then Some 0 else
  if pool && (SMALL_POOL_THRESHOLD <? n) then
    pw ← ray_pool_dispatch_w (sortedness_fn keys) n (replicate (Z.to_nat total_workers) 0);
    count_unsorted keys (task_bounds n) (zsum pw)
  else count_unsorted keys (range 1 n) 0.

(** ** Radix passes

    [radix_scatter_fn] moves pairs and [packed_scatter_fn] packed words; they
    are one loop, for elements with a [key]. *)
Definition RADIX : Z := 256.
Definition SWC_N : Z := 8.
Definition digit (shift key : Z) : Z := Z.land (Z.shiftr key shift) 255.

(** [\[lo, hi)] of a task *)
Definition task_chunk (n n_tasks task : Z) : Z * Z :=
  let chunk := (n + n_tasks - 1) / n_tasks in
  let lo := task * chunk in
  let hi := lo + chunk in
  (lo, if n <? hi then n else hi).

Section radix.
Context {A : Type} (key : A → Z).

Definition radix_hist_fn (keys : list A) (n shift n_tasks task _end : Z) (hist : list Z) : option (list Z) :=
  hist ← foldM (λ b h, zset h (task * 256 + b) 0) (range 0 256) hist;
  let '(lo, hi) := task_chunk n n_tasks task in
  if hi <=? lo then Some hist else
  foldM (λ i h, x ← keys.[i];
           let j := task * 256 + digit shift (key x) in
           c ← h.[j]; zset h j (u32 (c + 1)))
    (range lo hi) hist.

(** A scatter under way: the write-combining buffers, how many elements each
    holds, and the arrays they are flushed to. *)
Record swc := Swc { swc_buf : list (list (option A)); swc_cnt : list Z; swc_off : list Z; swc_out : list A }.

(** The first [k] elements of a buffer are copied to [out + pos]. *)
Definition flush (row : list (option A)) (k pos : Z) (out : list A) : option (list A) :=
  foldM (λ j out, x ← row.[j]; x ← x; zset out (pos + j) x) (range 0 k) out.

Definition scatter_elem (input : list A) (shift task i : Z) (s : swc) : option swc :=
  let '(Swc buf cnt off out) := s in
  x ← input.[i];
  let byte := digit shift (key x) in
  bp ← cnt.[byte];
  row ← buf.[byte]; row ← zset row bp (Some x); buf ← zset buf byte row;
  if bp + 1 =? SWC_N then
    pos ← off.[task * 256 + byte];
    out ← flush row SWC_N pos out;
    off ← zset off (task * 256 + byte) (pos + SWC_N);
    cnt ← zset cnt byte 0;
    Some (Swc buf cnt off out)
  else
    cnt ← zset cnt byte (bp + 1);
    Some (Swc buf cnt off out).

(** Flush remaining entries *)
Definition scatter_rest (task b : Z) (s : swc) : option swc :=
  let '(Swc buf cnt off out) := s in
  pos ← off.[task * 256 + b];
  k ← cnt.[b]; row ← buf.[b];
  out ← flush row k pos out;
  off ← zset off (task * 256 + b) (pos + k);
  Some (Swc buf cnt off out).

Definition scatter_fn (input : list A) (n shift n_tasks task _end : Z) (st : list Z * list A) :
    option (list Z * list A) :=
  let '(lo, hi) := task_chunk n n_tasks task in
  if hi <=? lo then Some st else
  s ← foldM (scatter_elem input shift task) (range lo hi)
        (Swc (replicate 256 (replicate 8 None)) (replicate 256 0) (fst st) (snd st));
  s ← foldM (scatter_rest task) (range 0 256) s;
  Some (swc_off s, swc_out s).

(** All tasks of a pass, on the pool or in this thread. *)
Definition run_pass {S} (pool : bool) (n_tasks : Z) (fn : Z → Z → S → option S) (s : S) : option S :=
  if pool && (1 <? n_tasks) then ray_pool_dispatch_n fn n_tasks s else fn 0 1 s.

(** Does one digit have all the elements? *)
Fixpoint uniform_from (bs : list Z) (hist : list Z) (n n_tasks : Z) : option bool :=
  match bs with
  | [] => Some false
  | b :: bs =>
      total ← foldM (λ t total, c ← hist.[t * 256 + b]; Some (u32 (total + c))) (range 0 n_tasks) 0;
      if total =? u32 n then Some true else uniform_from bs hist n n_tasks
  end.
Definition uniform (hist : list Z) (n n_tasks : Z) : option bool :=
  uniform_from (range 0 256) hist n n_tasks.

Definition prefix_sum (hist offsets : list Z) (n_tasks : Z) : option (list Z * Z) :=
  foldM (λ b st, foldM (λ t '(offsets, running),
                    offsets ← zset offsets (t * 256 + b) running;
                    c ← hist.[t * 256 + b];
                    Some (offsets, running + c)) (range 0 n_tasks) st)
    (range 0 256) (offsets, 0).

(** The double buffer: [src], [dst], the histograms and offsets, and whether
    [src] is the caller's temporary. *)
Record lsd := Lsd { lsd_src : list A; lsd_dst : list A; lsd_hist : list Z; lsd_off : list Z; lsd_swapped : bool }.

Definition lsd_pass (pool : bool) (n n_tasks bp : Z) (s : lsd) : option lsd :=
  let '(Lsd src dst hist offsets swapped) := s in
  let shift := u8 (bp * 8) in
  hist ← run_pass pool n_tasks (radix_hist_fn src n shift n_tasks) hist;
  u ← uniform hist n n_tasks;
  if (u : bool) then Some (Lsd src dst hist offsets swapped) else
  '(offsets, _) ← prefix_sum hist offsets n_tasks;
  '(offsets, dst) ← run_pass pool n_tasks (scatter_fn src n shift n_tasks) (offsets, dst);
  Some (Lsd dst src hist offsets (negb swapped)).

Definition radix_n_tasks (pool : bool) : Z :=
  let n_tasks := if pool then total_workers else 1 in
  if n_tasks <? 1 then 1 else n_tasks.

Definition new_hist (s_hist s_off : site) (n_tasks : Z) : option (list Z * list Z) :=
  hist ← scratch_alloc s_hist 4 (n_tasks * 256);
  offsets ← scratch_alloc s_off 8 (n_tasks * 256);
  Some (hist, offsets).

(** The result is the buffer holding the sorted elements, the other one, and
    whether the first is the caller's temporary; [None] is [NULL]. *)
Definition lsd_run (pool : bool) (data tmp : list A) (n n_bytes : Z) :
    option (option (list A * list A * bool)) :=
  let n_tasks := radix_n_tasks pool in
  match new_hist S_hist S_offsets n_tasks with
  | None => Some None
  | Some (hist, offsets) =>
      s ← foldM (lsd_pass pool n n_tasks) (range 0 n_bytes) (Lsd data tmp hist offsets false);
      Some (Some (lsd_src s, lsd_dst s, lsd_swapped s))
  end.
End radix.

Definition radix_scatter_fn := scatter_fn (@fst Z Z).
Definition packed_scatter_fn := scatter_fn (λ w : Z, w).
Definition radix_sort_run := lsd_run (@fst Z Z).
Definition packed_radix_sort_run := lsd_run (λ w : Z, w).

(** ** Buckets: the hybrid sort *)

(** The [cnt] elements at [a + off], and putting them back. *)
Definition sub_array {A} (a : list A) (off cnt : Z) : option (list A) :=
  if (0 <=? off) && (0 <=? cnt) && (off + cnt <=? zlen a)
  then Some (take (Z.to_nat cnt) (drop (Z.to_nat off) a)) else None.
Definition put_back {A} (a : list A) (off : Z) (s : list A) : list A :=
  take (Z.to_nat off) a ++ s ++ drop (Z.to_nat (off + zlen s)) a.

Definition bucket_pass (n bp : Z) (st : list kv * list kv * bool) : option (list kv * list kv * bool) :=
  let '(src, dst, swapped) := st in
  let shift := u8 (bp * 8) in
  hist ← foldM (λ i h, x ← src.[i]; let b := digit shift (fst x) in c ← h.[b]; zset h b (u32 (c + 1)))
           (range 0 n) (replicate 256 0);
  if existsb (λ c, c =? u32 n) hist then Some st else
  off ← foldM (λ b off, o ← off.[b - 1]; c ← hist.[b - 1]; zset off b (o + c))
          (range 1 256) (replicate 256 0);
  '(_, dst) ← foldM (λ i '(off, dst),
                 x ← src.[i];
                 let byte := digit shift (fst x) in
                 pos ← off.[byte];
                 off ← zset off byte (pos + 1);
                 dst ← zset dst pos x;
                 Some (off, dst)) (range 0 n) (off, dst);
  Some (dst, src, negb swapped).

(** The array with the result, the other one, and whether the result is in the
    temporary. *)
Definition bucket_lsb_sort (keys tmp : list kv) (n n_bytes : Z) : option (list kv * list kv * bool) :=
  if n <=? 64 then keys ← key_introsort keys; Some (keys, tmp, false)
  else foldM (bucket_pass n) (range 0 n_bytes) (keys, tmp, false).

Definition msd_bucket (bucket_offsets : list Z) (n_bytes b : Z) (st : list kv * list kv) :
    option (list kv * list kv) :=
  let '(data, tmp) := st in
  off ← bucket_offsets.[b];
  next ← bucket_offsets.[b + 1];
  let cnt := next - off in
  if cnt <=? 1 then Some st else
  d ← sub_array data off cnt; t ← sub_array tmp off cnt;
  '(sorted, other, in_tmp) ← bucket_lsb_sort d t cnt n_bytes;
  (* a result in the scratch buffer is copied to the canonical one *)
  let d := sorted in let t := if (in_tmp : bool) then sorted else other in
  Some (put_back data off d, put_back tmp off t).
Definition msd_bucket_sort_fn (bucket_offsets : list Z) (n_bytes start end_ : Z) (st : list kv * list kv) :
    option (list kv * list kv) :=
  foldM (msd_bucket bucket_offsets n_bytes) (range start end_) st.

(** The prefix sum that also notes where each bucket starts. *)
Definition msd_prefix_sum (hist offsets : list Z) (n_tasks : Z) : option (list Z * list Z) :=
  '(offsets, bo, running) ←
    foldM (λ b '(offsets, bo, running),
      bo ← zset bo b running;
      '(offsets, running) ← foldM (λ t '(offsets, running),
                              offsets ← zset offsets (t * 256 + b) running;
                              c ← hist.[t * 256 + b];
                              Some (offsets, running + c)) (range 0 n_tasks) (offsets, running);
      Some (offsets, bo, running))
    (range 0 256) (offsets, replicate 257 0, 0);
  bo ← zset bo 256 running;
  Some (offsets, bo).

(** [n_bytes] goes down while the top byte is the same everywhere. *)
Fixpoint msd_radix_sort_run (pool : bool) (data tmp : list kv) (n : Z) (n_bytes : nat) :
    option (option (list kv * list kv * bool)) :=
  if (n_bytes <=? 5)%nat || (n <=? 1000000) then radix_sort_run pool data tmp n (Z.of_nat n_bytes) else
  match n_bytes with
  | O => None
  | S msd_byte =>
      let n_tasks := radix_n_tasks pool in
      match new_hist (S_msd_hist n_bytes) (S_msd_offsets n_bytes) n_tasks with
      | None => radix_sort_run pool data tmp n (Z.of_nat n_bytes)
      | Some (hist, offsets) =>
          let shift := u8 (Z.of_nat msd_byte * 8) in
          hist ← run_pass pool n_tasks (radix_hist_fn fst data n shift n_tasks) hist;
          u ← uniform hist n n_tasks;
          if (u : bool) then msd_radix_sort_run pool data tmp n msd_byte else
          '(offsets, bo) ← msd_prefix_sum hist offsets n_tasks;
          '(_, tmp) ← run_pass pool n_tasks (radix_scatter_fn data n shift n_tasks) (offsets, tmp);
          '(tmp, data) ←
            (if pool then ray_pool_dispatch_n (msd_bucket_sort_fn bo (Z.of_nat msd_byte)) 256 (tmp, data)
             else msd_bucket_sort_fn bo (Z.of_nat msd_byte) 0 256 (tmp, data));
          Some (Some (tmp, data, true))
      end
  end.

(** ** Packed keys: the row number above the significant bits of the key *)
Definition packed_detect_fn (key_bits key_mask wid start end_ : Z) (st : list Z * list Z * list Z) :
    option (list Z * list Z * list Z) :=
  let '(k, pw_unsorted, pw_not_reverse) := st in
  prev ← (if 0 <? start then x ← k.[start - 1]; Some (Z.land x key_mask) else Some 0);
  '(k, _, unsorted, not_rev) ←
    foldM (λ i '(k, prev, unsorted, not_rev),
      x ← k.[i];
      let cur := Z.land x key_mask in
      let unsorted := if (start <? i) && (cur <? prev) then unsorted + 1 else unsorted in
      let not_rev := if (start <? i) && (prev <? cur) then not_rev + 1 else not_rev in
      k ← zset k i (Z.lor cur (u64 (Z.shiftl i key_bits)));
      Some (k, cur, unsorted, not_rev))
    (range start end_) (k, prev, 0, 0);
  pw_unsorted ← add_at pw_unsorted wid unsorted;
  pw_not_reverse ← add_at pw_not_reverse wid not_rev;
  Some (k, pw_unsorted, pw_not_reverse).

Definition packed_unpack_fn (sorted : list Z) (key_bits idx_mask start end_ : Z) (indices : list Z) : option (list Z) :=
  foldM (λ i indices, v ← sorted.[i]; zset indices i (Z.land (Z.shiftr v key_bits) idx_mask))
    (range start end_) indices.

(** A dispatch when there is a pool, the loop in this thread otherwise. *)
Definition par {S} (pool : bool) (fn : Z → Z → Z → S → option S) (n : Z) (s : S) : option S :=
  if pool then ray_pool_dispatch_w fn n s else fn 0 0 n s.

(** The aggregates of [packed_detect_fn] with the pairs across tasks. *)
Definition across_tasks (keys : list Z) (key_mask n : Z) (st : Z * Z) : option (Z * Z) :=
  foldM (λ b '(u, r),
           ka ← keys.[b - 1]; kb ← keys.[b];
           let ka := Z.land ka key_mask in let kb := Z.land kb key_mask in
           Some (if kb <? ka then u + 1 else u, if ka <? kb then r + 1 else r))
    (task_bounds n) st.

(** ** Columns *)
Inductive sort_type := I64 | TIMESTAMP | F64 | F32 | I32 | DATE | TIME | I16 | BOOL | U8.
(** A cell is a number of its type; a floating-point one is its bits. *)
Record column := Column { col_type : sort_type; has_nulls : bool; cells : list Z }.

Definition NULL_I64 : Z := - 2 ^ 63.
Definition NULL_I32 : Z := - 2 ^ 31.
Definition NULL_I16 : Z := - 2 ^ 15.

(** [x != x] *)
Definition f64_is_nan (bits : Z) : bool :=
  (Z.land bits 0x7FF0000000000000 =? 0x7FF0000000000000) && negb (Z.land bits 0x000FFFFFFFFFFFFF =? 0).
Definition f32_is_nan (bits : Z) : bool :=
  (Z.land bits 0x7F800000 =? 0x7F800000) && negb (Z.land bits 0x007FFFFF =? 0).

Definition sentinel_is_null (t : sort_type) (v : Z) : bool :=
  match t with
  | F64 => f64_is_nan v
  | F32 => f32_is_nan v
  | I64 | TIMESTAMP => v =? NULL_I64
  | I32 | DATE | TIME => v =? NULL_I32
  | I16 => v =? NULL_I16
  | BOOL | U8 => false
  end.
(** Is the cell [v] of [col] null? *)
Definition cell_is_null (col : column) (v : Z) : bool :=
  if negb (has_nulls col) then false else sentinel_is_null (col_type col) v.
(** Of a vector that is not a slice. *)
Definition ray_vec_is_null (col : column) (idx : Z) : bool :=
  if (idx <? 0) || (zlen (cells col) <=? idx) then false
  else match (cells col).[idx] with Some v => cell_is_null col v | None => false end.

Definition radix_key_bytes (t : sort_type) : Z :=
  match t with
  | BOOL | U8 => 1
  | I16 => 2
  | I32 | F32 | DATE | TIME => 4
  | I64 | F64 | TIMESTAMP => 8
  end.

Definition not64 (z : Z) : Z := u64 (Z.lnot z).
Definition not32 (z : Z) : Z := u32 (Z.lnot z).

(** The key of one cell: smaller keys come first. *)
Definition encode_cell (col : column) (desc nf : bool) (v : Z) : Z :=
  let first := xorb nf desc in
  match col_type col with
  | I64 | TIMESTAMP =>
      let null_e := if first then 0 else UINT64_MAX in
      let e := if cell_is_null col v then null_e else Z.lxor (u64 v) (2 ^ 63) in
      if desc then not64 e else e
  | F64 =>
      let nan_e := if first then 0 else UINT64_MAX in
      if f64_is_nan v then (if desc then not64 nan_e else nan_e) else
      let mask := Z.lor (u64 (- Z.shiftr v 63)) (2 ^ 63) in
      let e := Z.lxor v mask in
      if desc then not64 e else e
  | F32 =>
      let nan_e := if first then 0 else 2 ^ 32 - 1 in
      let e := if f32_is_nan v then nan_e
               else Z.lxor v (Z.lor (u32 (- Z.shiftr v 31)) (2 ^ 31)) in
      if desc then not32 e else e
  | I32 | DATE | TIME =>
      let null_e := if first then 0 else UINT64_MAX in
      let e := if cell_is_null col v then null_e else Z.lxor (u32 v) (2 ^ 31) in
      if desc then not64 e else e
  | I16 =>
      if has_nulls col then
        let null_e := if first then 0 else 0x10001 in
        let e := if cell_is_null col v then null_e else Z.lxor (u16 v) (2 ^ 15) + 1 in
        if desc then not64 e else e
      else let e := Z.lxor (u16 v) (2 ^ 15) in if desc then not64 e else e
  | BOOL | U8 =>
      if has_nulls col then
        let null_e := if first then 0 else 0x101 in
        let e := if cell_is_null col v then null_e else v + 1 in
        if desc then not64 e else e
      else if desc then not64 v else v
  end.

(** With [indices], row numbers are written beside the keys. *)
Definition radix_encode_fn (col : column) (desc nf : bool) (wid start end_ : Z) (a : list kv) : option (list kv) :=
  foldM (λ i a, v ← (cells col).[i]; zset a i (encode_cell col desc nf v, i)) (range start end_) a.

(** The cell of a key, for types whose key the encoding did not shift *)
Definition decode_key (t : sort_type) (desc : bool) (k : Z) : Z :=
  match t with
  | I64 | TIMESTAMP => s64 (Z.lxor (if desc then not64 k else k) (2 ^ 63))
  | F64 =>
      let k := if desc then not64 k else k in
      let mask := if Z.shiftr k 63 =? 0 then UINT64_MAX else 2 ^ 63 in
      Z.lxor k mask
  | F32 =>
      let k := u32 k in
      let k := if desc then not32 k else k in
      let mask := if Z.shiftr k 31 =? 0 then 2 ^ 32 - 1 else 2 ^ 31 in
      Z.lxor k mask
  | I32 | DATE | TIME => s32 (Z.lxor (u32 (if desc then not64 k else k)) (2 ^ 31))
  | I16 => swrap 16 (Z.lxor (u16 (if desc then not64 k else k)) (2 ^ 15))
  | BOOL | U8 => u8 (if desc then not64 k else k)
  end.
Definition radix_decode_into (t : sort_type) (desc : bool) (sorted_keys : list Z) (n : Z) (dst : list Z) :
    option (list Z) :=
  foldM (λ i dst, k ← sorted_keys.[i]; zset dst i (decode_key t desc k)) (range 0 n) dst.

(** ** Sorting rows by comparison *)

(** What a floating-point number is worth among the finite and infinite ones:
    zeros are equal, negative numbers are ordered by magnitude downwards. *)
Definition f64_ord (bits : Z) : Z := if bits <? 2 ^ 63 then bits else 2 ^ 63 - bits.
Definition f32_ord (bits : Z) : Z := if bits <? 2 ^ 31 then bits else 2 ^ 31 - bits.
Definition cmp3 (va vb : Z) : Z := if va <? vb then -1 else if vb <? va then 1 else 0.

Definition cell_cmp (t : sort_type) (va vb : Z) : Z :=
  match t with
  | F64 => if f64_is_nan va || f64_is_nan vb then 0 else cmp3 (f64_ord va) (f64_ord vb)
  | F32 => if f32_is_nan va || f32_is_nan vb then 0 else cmp3 (f32_ord va) (f32_ord vb)
  | _ => cmp3 va vb
  end.

Record sort_key := SortKey { sk_col : column; sk_desc : bool; sk_nf : bool }.

(** Rows come from the array of row numbers and are below the length of every
    column, so the read of a cell is total here. *)
Definition cell_at (col : column) (i : Z) : Z := default 0 (cells col).[i].

Fixpoint sort_cmp (keys : list sort_key) (a b : Z) : Z :=
  match keys with
  | [] => 0
  | k :: keys =>
      let col := sk_col k in
      let a_null := ray_vec_is_null col a in
      let b_null := ray_vec_is_null col b in
      let cmp :=
        if a_null || b_null then
          if a_null && b_null then 0
          else if a_null then (if sk_nf k then -1 else 1)
          else (if sk_nf k then 1 else -1)
        else
          let cmp := cell_cmp (col_type col) (cell_at col a) (cell_at col b) in
          if sk_desc k then - cmp else cmp in
      if negb (cmp =? 0) then cmp else sort_cmp keys a b
  end.

Section merge.
Context (cmp : Z → Z → Z).

Definition sort_insertion (arr : list Z) (n : Z) : option (list Z) :=
  insertion_sort (λ x y, 0 <? cmp y x) arr n.

(** The three loops that merge [\[i, mid)] and [\[j, hi)] of [src] into [dst]. *)
Fixpoint merge_loop (fuel : nat) (src dst : list Z) (i mid j hi k : Z) : option (list Z) :=
  if (i <? mid) && (j <? hi) then
    match fuel with
    | O => None
    | S fuel =>
        x ← src.[i]; y ← src.[j];
        if cmp x y <=? 0
        then dst ← zset dst k x; merge_loop fuel src dst (i + 1) mid j hi (k + 1)
        else dst ← zset dst k y; merge_loop fuel src dst i mid (j + 1) hi (k + 1)
    end
  else
    '(dst, k) ← foldM (λ i '(dst, k), x ← src.[i]; dst ← zset dst k x; Some (dst, k + 1)) (range i mid) (dst, k);
    '(dst, _) ← foldM (λ j '(dst, k), x ← src.[j]; dst ← zset dst k x; Some (dst, k + 1)) (range j hi) (dst, k);
    Some dst.
Definition merge_runs (src dst : list Z) (lo mid hi : Z) : option (list Z) :=
  merge_loop (Z.to_nat (hi - lo)) src dst lo mid mid hi lo.

(** The array and the temporary, both of [n] elements. *)
Fixpoint sort_merge_recursive (fuel : nat) (arr tmp : list Z) (n : Z) : option (list Z * list Z) :=
  if n <=? 64 then arr ← sort_insertion arr n; Some (arr, tmp) else
  match fuel with
  | O => None
  | S fuel =>
      let mid := n / 2 in
      let m := Z.to_nat mid in
      '(arr1, tmp1) ← sort_merge_recursive fuel (take m arr) (take m tmp) mid;
      '(arr2, tmp2) ← sort_merge_recursive fuel (drop m arr) (drop m tmp) (n - mid);
      tmp ← merge_runs (arr1 ++ arr2) (tmp1 ++ tmp2) 0 mid n;
      Some (tmp, tmp)
  end.

Definition sort_phase1_fn (nrows n_chunks start end_ : Z) (st : list Z * list Z) : option (list Z * list Z) :=
  foldM (λ chunk_idx '(indices, tmp),
      let chunk_size := (nrows + n_chunks - 1) / n_chunks in
      let lo := chunk_idx * chunk_size in
      let hi := lo + chunk_size in
      let hi := if nrows <? hi then nrows else hi in
      if hi <=? lo then Some (indices, tmp) else
      a ← sub_array indices lo (hi - lo); t ← sub_array tmp lo (hi - lo);
      '(a, t) ← sort_merge_recursive (Z.to_nat (hi - lo)) a t (hi - lo);
      Some (put_back indices lo a, put_back tmp lo t))
    (range start end_) st.

Definition sort_merge_fn (src : list Z) (nrows run_size start end_ : Z) (dst : list Z) : option (list Z) :=
  foldM (λ pair_idx dst,
      let lo := pair_idx * 2 * run_size in
      let mid := lo + run_size in
      let hi := mid + run_size in
      let mid := if nrows <? mid then nrows else mid in
      let hi := if nrows <? hi then nrows else hi in
      if nrows <=? lo then Some dst else
      if hi <=? mid then s ← sub_array src lo (hi - lo); _ ← sub_array dst lo (hi - lo); Some (put_back dst lo s)
      else merge_runs src dst lo mid hi)
    (range start end_) dst.

(** [while (run_size < nrows)]: the runs are merged in pairs between the two
    buffers; a 63-bit count is doubled at most 63 times. *)
Fixpoint merge_passes (fuel : nat) (pool : bool) (nrows run_size : Z) (src dst : list Z) : option (list Z) :=
  if run_size <? nrows then
    match fuel with
    | O => None
    | S fuel =>
        let n_pairs := (nrows + 2 * run_size - 1) / (2 * run_size) in
        dst ← (if pool && (1 <? n_pairs)
               then ray_pool_dispatch_n (sort_merge_fn src nrows run_size) (u32 n_pairs) dst
               else sort_merge_fn src nrows run_size 0 n_pairs dst);
        merge_passes fuel pool nrows (run_size * 2) dst src
    end
  else Some src.

(** The fallback on more than 64 rows; the inner [None] is a refused request. *)
Definition merge_sort (pool : bool) (indices : list Z) (nrows : Z) : option (option (list Z)) :=
  let n_workers := if pool then total_workers else 1 in
  match scratch_alloc S_tmp 8 nrows with
  | None => Some None
  | Some tmp =>
      let n_chunks := n_workers in
      if pool && (1 <? n_chunks) && (1024 <? nrows) then
        '(indices, tmp) ← ray_pool_dispatch_n (sort_phase1_fn nrows n_chunks) n_chunks (indices, tmp);
        let run_size := (nrows + n_chunks - 1) / n_chunks in
        indices ← merge_passes 63 pool nrows run_size indices tmp;
        Some (Some indices)
      else
        '(indices, _) ← sort_merge_recursive (Z.to_nat nrows) indices tmp nrows;
        Some (Some indices)
  end.
End merge.

(** ** Sorting a column *)
Inductive sort_err := SORT_OOM.

(** What the radix branch leaves: the sorted row numbers (with the sorted keys
    when they were asked for and survive), the rows still to be sorted by
    comparison, or those with [sorted_idx] left [NULL]. *)
Inductive radix_result :=
| RadixDone (sorted_idx : list Z) (sorted_keys : option (list Z))
| RadixDeclined (indices : list Z) (iota_done : bool)
| RadixNull (indices : list Z).

Fixpoint bit_count (fuel : nat) (nn : Z) : Z :=
  match fuel with
  | O => 0
  | S fuel => if 0 <? nn then 1 + bit_count fuel (Z.shiftr nn 1) else 0
  end.

Definition low_mask (bits : Z) : Z := if bits <? 64 then Z.shiftl 1 bits - 1 else UINT64_MAX.

Definition packed_path (pool : bool) (a : list kv) (nrows key_nbytes idx_bits : Z) : option radix_result :=
  let '(keys, indices) := (map fst a, map snd a) in
  let key_bits := key_nbytes * 8 in
  match scratch_alloc S_ptmp 8 nrows with
  | None => Some (RadixDeclined indices true)
  | Some ptmp =>
      let zeros := replicate (Z.to_nat (if pool then total_workers else 1)) 0 in
      '(keys, pw_unsorted, pw_not_reverse) ←
        par pool (packed_detect_fn key_bits (low_mask key_bits)) nrows (keys, zeros, zeros);
      '(total_unsorted, total_not_rev) ←
        across_tasks keys (low_mask key_bits) nrows (zsum pw_unsorted, zsum pw_not_reverse);
      if total_unsorted =? 0 then Some (RadixDone indices None)
      else if (total_not_rev =? 0) && (1 <? nrows) then
        indices ← foldM (λ i indices, zset indices i (nrows - 1 - i)) (range 0 nrows) indices;
        Some (RadixDone indices None)
      else
        sorted ← packed_radix_sort_run pool keys ptmp nrows key_nbytes;
        match sorted with
        | None => Some (RadixDeclined indices true)
        | Some (sorted, _, _) =>
            indices ← par pool (λ _, packed_unpack_fn sorted key_bits (low_mask idx_bits)) nrows indices;
            Some (RadixDone indices None)
        end
  end.

Definition wide_path (pool want_sk : bool) (a : list kv) (nrows key_nbytes : Z) : option radix_result :=
  unsorted ← detect_sortedness pool (map fst a) nrows;
  if unsorted =? 0 then Some (RadixDone (map snd a) None) else
  match scratch_alloc S_ktmp 8 nrows, scratch_alloc S_itmp 8 nrows with
  | Some ktmp, Some itmp =>
      sorted ← msd_radix_sort_run pool a (zip ktmp itmp) nrows (Z.to_nat key_nbytes);
      match sorted with
      | None => Some (RadixNull (map snd a))
      | Some (s, _, _) => Some (RadixDone (map snd s) (if want_sk then Some (map fst s) else None))
      end
  | _, _ => Some (RadixDeclined (map snd a) true)
  end.

Definition key_nbytes_max (col : column) : Z :=
  let nb := radix_key_bytes (col_type col) in
  if has_nulls col && match col_type col with BOOL | U8 | I16 => true | _ => false end && (nb <? 8)
  then nb + 1 else nb.

Definition radix_single (col : column) (desc nf want_sk : bool) (nrows : Z) (indices : list Z) : option radix_result :=
  if nrows <=? 64 then Some (RadixDeclined indices false) else
  if negb (scratch_ok S_enum_ranks 8) then Some (RadixDeclined indices false) else
  let sk_pool := (SMALL_POOL_THRESHOLD <=? nrows) && ray_pool_get in
  match scratch_alloc S_keys 8 nrows with
  | None => Some (RadixDeclined indices false)
  | Some keys =>
      a ← par sk_pool (radix_encode_fn col desc nf) nrows (zip keys indices);
      if nrows <=? RADIX_SORT_THRESHOLD then
        a ← key_introsort a; Some (RadixDone (map snd a) None)
      else
        key_nbytes ← compute_key_nbytes sk_pool (map fst a) nrows (key_nbytes_max col);
        let idx_bits := bit_count 63 nrows in
        if (key_nbytes <=? 3) && (key_nbytes * 8 + idx_bits <=? 64)
        then packed_path sk_pool a nrows key_nbytes idx_bits
        else wide_path sk_pool want_sk a nrows key_nbytes
  end.

(** The merge sort fallback. The inner [None] is a refused request. *)
Definition sort_fallback (col : column) (desc : bool) (nulls_first : option bool) (nrows : Z)
    (indices : list Z) (iota_done : bool) : option (option (list Z)) :=
  indices ← (if iota_done then Some indices
             else foldM (λ i indices, zset indices i i) (range 0 nrows) indices);
  if match nulls_first with None => negb (scratch_ok S_default_nf 1) | Some _ => false end then Some None else
  let nf := default (negb desc) nulls_first in
  let cmp := sort_cmp [SortKey col desc nf] in
  if nrows <=? 64 then indices ← sort_insertion cmp indices nrows; Some (Some indices)
  else merge_sort cmp ray_pool_get indices nrows.

(** [sort_indices_ex] of one column; [want_sk] asks for the sorted keys. *)
Definition sort_indices_ex (col : column) (desc : bool) (nulls_first : option bool) (nrows : Z) (want_sk : bool) :
    option (sort_err + list Z * option (list Z)) :=
  if nrows <=? 0 then Some (if scratch_ok S_result 0 then inr ([], None) else inl SORT_OOM) else
  let finish sorted_idx sorted_keys :=
    if scratch_ok S_result (8 * nrows) then inr (sorted_idx, sorted_keys) else inl SORT_OOM in
  match scratch_alloc S_indices 8 nrows with
  | None => Some (inl SORT_OOM)
  | Some indices =>
      if negb (scratch_ok S_rank_hdrs 8) then Some (inl SORT_OOM) else
      r ← radix_single col desc (default (negb desc) nulls_first) want_sk nrows indices;
      match r with
      | RadixDone idx sk => Some (finish idx sk)
      | RadixDeclined indices iota_done =>
          m ← sort_fallback col desc nulls_first nrows indices iota_done;
          match m with
          | None => Some (inl SORT_OOM)
          | Some indices => Some (finish indices None)
          end
      | RadixNull indices =>
          m ← sort_fallback col desc nulls_first nrows indices true;
          match m with
          | None => Some (inl SORT_OOM)
          | Some _ => if scratch_ok S_result (8 * nrows) then None (* memcpy from NULL *) else Some (inl SORT_OOM)
          end
      end
  end.

Definition ray_sort_indices (col : column) (desc : bool) (nulls_first : option bool) (nrows : Z) :
    option (sort_err + list Z) :=
  r ← sort_indices_ex col desc nulls_first nrows false;
  Some (match r with inl e => inl e | inr (idx, _) => inr idx end).

(** *** The sorted column *)
Definition null_of (t : sort_type) : option Z :=
  match t with
  | F64 => Some 0x7FF8000000000000
  | F32 => Some 0x7FC00000
  | I64 | TIMESTAMP => Some NULL_I64
  | I32 | DATE | TIME => Some NULL_I32
  | I16 => Some NULL_I16
  | BOOL | U8 => None
  end.
(** [ray_vec_set_null(vec, idx, true)]: no effect where the type has no null. *)
Definition ray_vec_set_null (t : sort_type) (data : list Z) (idx : Z) : option (list Z) :=
  if (idx <? 0) || (zlen data <=? idx) then Some data
  else match null_of t with Some v => zset data idx v | None => Some data end.
Definition copy_nulls (col : column) (idx : list Z) (n : Z) (data : list Z) : option (list Z) :=
  if has_nulls col then
    foldM (λ i data, r ← idx.[i];
             if ray_vec_is_null col r then ray_vec_set_null (col_type col) data i else Some data)
      (range 0 n) data
  else Some data.

Definition gbi_fill_fn (col : column) (idx : list Z) (wid start end_ : Z) (dst : list Z) : option (list Z) :=
  foldM (λ i dst, r ← idx.[i]; v ← (cells col).[r]; zset dst i v) (range start end_) dst.
Definition gather_by_idx (col : column) (idx : list Z) (n : Z) : option (sort_err + list Z) :=
  match scratch_alloc S_gather 8 n with
  | None => Some (inl SORT_OOM)
  | Some dst =>
      dst ← par (ray_pool_get && (1 <? total_workers) && (RAY_PARALLEL_THRESHOLD <=? n))
              (gbi_fill_fn col idx) n dst;
      dst ← copy_nulls col idx n dst;
      Some (inr dst)
  end.
(** [ray_sort] of one column: decode the sorted keys, or gather. *)
Definition ray_sort (col : column) (desc : bool) (nulls_first : option bool) (nrows : Z) :
    option (sort_err + list Z) :=
  r ← sort_indices_ex col desc nulls_first nrows true;
  match r with
  | inl e => Some (inl e)
  | inr (idx, sorted_keys) =>
      let shifted := has_nulls col && match col_type col with BOOL | U8 | I16 => true | _ => false end in
      match sorted_keys with
      | Some keys =>
          if shifted then gather_by_idx col idx nrows else
          match scratch_alloc S_decoded 8 nrows with
          | None => Some (inl SORT_OOM)
          | Some result =>
              result ← radix_decode_into (col_type col) desc keys nrows result;
              result ← copy_nulls col idx nrows result;
              Some (inr result)
          end
      | None => gather_by_idx col idx nrows
      end
  end.

(** ** The first [k] rows of the sorted order

    The heap's root is the worst of the rows kept. *)
Definition topk_indices_single (col : column) (desc nf : bool) (nrows k : Z) : option (option (sort_err + list Z)) :=
  if (k <=? 0) || (nrows <=? 0) || (nrows <=? k) then Some None else
  match scratch_alloc S_keys 8 nrows with
  | None => Some None
  | Some keys =>
      a ← radix_encode_fn col desc nf 0 0 nrows (zip keys (range 0 nrows));
      let keys := map fst a in
      match scratch_alloc S_heap_keys 8 k, scratch_alloc S_heap_idx 8 k with
      | Some hk, Some hi =>
          h ← foldM (λ i h, x ← keys.[i]; zset h i (x, i)) (range 0 k) (zip hk hi);
          h ← heapify key_lt h k;
          h ← foldM (λ i h,
                 x ← keys.[i]; root ← h.[0];
                 if fst root <=? x then Some h
                 else h ← zset h 0 (x, i); sift_down key_lt (Z.to_nat k + 1) h k 0)
               (range k nrows) h;
          h ← key_heapsort h;
          Some (Some (if scratch_ok S_result (8 * k) then inr (map snd h) else inl SORT_OOM))
      | _, _ => Some None
      end
  end.

Definition topk_cmp_pos (keys : list sort_key) (a b : Z) : Z :=
  let c := sort_cmp keys a b in
  if negb (c =? 0) then c else cmp3 a b.
Definition topk_cmp_sift_down (keys : list sort_key) : nat → list Z → Z → Z → option (list Z) :=
  sift_down (λ worst c, 0 <? topk_cmp_pos keys c worst).

(** Every key column is present. *)
Definition topk_indices_cmp (keys : list sort_key) (nrows k : Z) : option (option (sort_err + list Z)) :=
  if (zlen keys =? 0) || (k <=? 0) || (nrows <=? 0) || (nrows <=? k) then Some None else
  match scratch_alloc S_result 8 k with
  | None => Some (Some (inl SORT_OOM))
  | Some heap =>
      heap ← foldM (λ i heap, zset heap i i) (range 0 k) heap;
      heap ← foldM (λ i h, topk_cmp_sift_down keys (Z.to_nat k + 1) h k i) (rev (range 0 (k / 2))) heap;
      heap ← foldM (λ i heap,
                root ← heap.[0];
                if 0 <=? sort_cmp keys i root then Some heap
                else heap ← zset heap 0 i; topk_cmp_sift_down keys (Z.to_nat k + 1) heap k 0)
               (range k nrows) heap;
      heap ← insertion_sort (λ v x, topk_cmp_pos keys v x <? 0) heap k;
      Some (Some (inr heap))
  end.

(** [topk_take_vec] of [len] cells, up to the fallback: the rows that
    [ray_top_fn] ([desc]) and [ray_bot_fn] gather; [k >= len] sorts. *)
Definition topk_take_rows (col : column) (len k : Z) (desc : bool) : option (option (sort_err + list Z)) :=
  if k <=? 0 then Some (Some (inr []))
  else if len <=? k then r ← ray_sort_indices col desc None len; Some (Some r)
  else topk_indices_single col desc desc len k.
End sort.
