(* ===== verification/SortOrder.v ===== *)
(** * Sorting by comparison: insertion sort and heapsort

    [lt] is a strict weak order. Sortedness is stated pointwise while the array
    changes, and as [StronglySorted] of the result; [stable lt O] refines [lt]
    by the order [O] in which equal elements stood before. *)

From stdpp Require Import sorting.
From S2P Require Import Prelude Pool Rowsel Sort.
Local Open Scope Z_scope.

Class WeakOrder {A} (lt : A → A → bool) : Prop := {
  lt_asym : ∀ x y, lt x y = true → lt y x = false;
  le_trans : ∀ x y z, lt y x = false → lt z y = false → lt z x = false;
}.

Lemma half_bounds n : 2 * (n / 2) ≤ n < 2 * (n / 2) + 2.
Proof. pose proof (Z.div_mod n 2). pose proof (Z.mod_pos_bound n 2). lia. Qed.

Section loops.
Context {S : Type}.
(** A loop counting down from [hi - 1] to [lo]. *)
Lemma foldM_rev_range (f : Z → S → option S) (P : Z → S → Prop) lo hi s :
  lo ≤ hi → P hi s →
  (∀ i s, lo ≤ i < hi → P (i + 1) s → ∃ s', f i s = Some s' ∧ P i s') →
  ∃ s', foldM f (rev (range lo hi)) s = Some s' ∧ P lo s'.
Proof.
  intros Hle. remember (Z.to_nat (hi - lo)) as n eqn:Hn. revert hi s Hle Hn.
  induction n as [|n IH]; intros hi s Hle Hn H0 Hstep.
  - assert (hi = lo) as -> by lia. rewrite range_empty by lia. by exists s.
  - replace hi with (hi - 1 + 1) by lia. rewrite range_snoc by lia. rewrite rev_unit. cbn [foldM].
    destruct (Hstep (hi - 1) s) as (s1 & -> & H1); [lia|by replace (hi - 1 + 1) with hi by lia|].
    cbn [mbind option_bind]. apply IH; [lia|lia|done|]. intros i s2 Hi. apply Hstep. lia.
Qed.
End loops.

Section pointwise.
Context {A : Type}.
Implicit Types (a l : list A).

(** From positions to [StronglySorted]. *)
Lemma zget_cons_succ x l j : 0 ≤ j → (x :: l).[j + 1] = l.[j].
Proof. intros Hj. rewrite zget_cons_S by lia. f_equal. lia. Qed.

Lemma zget_middle l k x i : i = zlen l → (l ++ x :: k).[i] = Some x.
Proof. intros ->. unfold zlen. rewrite zget_lookup. by rewrite lookup_app_r, Nat.sub_diag by lia. Qed.

Lemma elem_of_zget x l : x ∈ l ↔ ∃ i, 0 ≤ i < zlen l ∧ l.[i] = Some x.
Proof.
  rewrite list_elem_of_lookup. split.
  - intros [n Hn]. exists (Z.of_nat n). rewrite zget_lookup. split; [|done].
    apply lookup_lt_Some in Hn. unfold zlen. lia.
  - intros (i & Hi & Hx). unfold zget in Hx. rewrite (proj2 (Z.leb_le _ _)) in Hx by lia. eauto.
Qed.

Lemma StronglySorted_zget (R : A → A → Prop) l :
  (∀ j k x y, 0 ≤ j < k → l.[j] = Some x → l.[k] = Some y → R x y) → StronglySorted R l.
Proof.
  induction l as [|x l IH]; intros Hl; [constructor|]. constructor.
  - apply IH. intros j k y z Hj Hy Hz. apply (Hl (j + 1) (k + 1)); [lia| |]; by rewrite zget_cons_succ by lia.
  - apply Forall_forall. intros y (k & Hk & Hy)%elem_of_zget.
    apply (Hl 0 (k + 1)); [lia|done|]. by rewrite zget_cons_succ by lia.
Qed.
Lemma StronglySorted_pointwise (R : A → A → Prop) l j k x y :
  StronglySorted R l → 0 ≤ j < k → l.[j] = Some x → l.[k] = Some y → R x y.
Proof.
  intros Hs. revert j k. induction Hs as [|z l Hs IH Hf]; intros j k Hj Hx Hy.
  { apply zget_Some in Hx. unfold zlen in Hx. simpl in Hx. lia. }
  rewrite zget_cons_S in Hy by lia. destruct (decide (j = 0)) as [->|Hn].
  - injection Hx as <-. rewrite Forall_forall in Hf. apply Hf, elem_of_zget.
    exists (k - 1). split; [|done]. by apply zget_Some in Hy.
  - rewrite zget_cons_S in Hx by lia. apply (IH (j - 1) (k - 1)); [lia|done|done].
Qed.

Lemma swap_spec a i j :
  0 ≤ i < zlen a → 0 ≤ j < zlen a →
  ∃ a', swap a i j = Some a' ∧ a' ≡ₚ a ∧ zlen a' = zlen a ∧ a'.[i] = a.[j] ∧ a'.[j] = a.[i] ∧
    ∀ k, k ≠ i → k ≠ j → a'.[k] = a.[k].
Proof.
  intros Hi Hj. destruct (zget_is_Some a i Hi) as [x Hx]. destruct (zget_is_Some a j Hj) as [y Hy].
  destruct (zset_total a i y Hi) as [a1 H1']. pose proof (zlen_zset _ _ _ _ H1') as Hl1.
  destruct (zset_total a1 j x) as [a2 H2']; [lia|]. pose proof (zlen_zset _ _ _ _ H2') as Hl2.
  exists a2. unfold swap. rewrite Hx. cbn [mbind option_bind]. rewrite Hy. cbn [mbind option_bind].
  rewrite H1'. cbn [mbind option_bind]. split; [done|]. split; [|split; [lia|split; [|split]]].
  - apply zset_inv in H1' as [_ ->]. apply zset_inv in H2' as [_ ->].
    unfold zget in Hx, Hy. rewrite (proj2 (Z.leb_le _ _)) in Hx by lia. rewrite (proj2 (Z.leb_le _ _)) in Hy by lia.
    by apply Permutation_insert_swap.
  - destruct (decide (i = j)) as [->|Hn].
    + rewrite (zget_zset_eq _ _ _ _ H2'). congruence.
    + rewrite (zget_zset_ne _ _ _ _ _ H2') by done. rewrite (zget_zset_eq _ _ _ _ H1'). congruence.
  - rewrite (zget_zset_eq _ _ _ _ H2'). congruence.
  - intros k Hk1 Hk2. rewrite (zget_zset_ne _ _ _ _ _ H2'), (zget_zset_ne _ _ _ _ _ H1') by done. done.
Qed.
End pointwise.

Section comparison.
Context {A : Type} (lt : A → A → bool) `{!WeakOrder lt}.
Implicit Types (a l : list A) (x y z : A) (i j k n : Z).

Lemma lt_irrefl x : lt x x = false.
Proof. destruct (lt x x) eqn:Hx; [|done]. rewrite <- Hx. by apply lt_asym. Qed.
Lemma lt_le_trans x y z : lt x y = true → lt z y = false → lt x z = true.
Proof.
  intros Hxy Hyz. destruct (lt x z) eqn:Hxz; [done|].
  pose proof (le_trans y z x Hyz Hxz). congruence.
Qed.
Lemma le_lt_trans x y z : lt y x = false → lt y z = true → lt x z = true.
Proof.
  intros Hxy Hyz. destruct (lt x z) eqn:Hxz; [done|].
  pose proof (le_trans z x y Hxz Hxy). congruence.
Qed.

(** ** Heaps *)
Definition child (p c : Z) : Prop := c = 2 * p + 1 ∨ c = 2 * p + 2.
(** No child of [p] is larger. *)
Definition dominates a n (p q : Z) : Prop :=
  ∀ c x y, child q c → c < n → a.[p] = Some x → a.[c] = Some y → lt x y = false.
Definition heap_from a n i0 : Prop := ∀ p, i0 ≤ p → dominates a n p p.

(** What a heap operation on the first [n] elements leaves: a permutation,
    of those elements only. *)
Definition permutes_prefix a a' n : Prop :=
  a' ≡ₚ a ∧ zlen a' = zlen a ∧ (∀ j, n ≤ j → a'.[j] = a.[j]) ∧
  ∀ j, 0 ≤ j < n → ∃ j', 0 ≤ j' < n ∧ a'.[j] = a.[j'].

Lemma permutes_prefix_refl a n : permutes_prefix a a n.
Proof. split; [done|]. split; [done|]. split; [done|]. intros j Hj. by exists j. Qed.
Lemma permutes_prefix_trans a b c n : permutes_prefix a b n → permutes_prefix b c n → permutes_prefix a c n.
Proof.
  intros (Hp1 & Hl1 & Ho1 & Hi1) (Hp2 & Hl2 & Ho2 & Hi2). split; [by rewrite Hp2|]. split; [lia|]. split.
  - intros j Hj. by rewrite Ho2, Ho1.
  - intros j Hj. destruct (Hi2 j Hj) as (j1 & Hj1 & ->). apply Hi1. lia.
Qed.
Lemma permutes_prefix_mono a b n m : n ≤ m → permutes_prefix a b n → permutes_prefix a b m.
Proof.
  intros Hnm (Hp & Hl & Ho & Hi). split; [done|]. split; [done|]. split.
  - intros j Hj. apply Ho. lia.
  - intros j Hj. destruct (decide (j < n)).
    + destruct (Hi j) as (j' & ? & ?); [lia|]. exists j'. split; [lia|done].
    + exists j. split; [lia|]. apply Ho. lia.
Qed.
Lemma swap_prefix a a' i j n :
  0 ≤ i < n → 0 ≤ j < n → n ≤ zlen a → swap a i j = Some a' → permutes_prefix a a' n.
Proof.
  intros Hi Hj Hn Hs. destruct (swap_spec a i j) as (a1 & Hs1 & Hp & Hl & Hgi & Hgj & Ho); [lia|lia|].
  rewrite Hs1 in Hs. injection Hs as ->. split; [done|]. split; [done|]. split.
  - intros k Hk. apply Ho; lia.
  - intros k Hk. destruct (decide (k = i)) as [->|]; [by exists j|].
    destruct (decide (k = j)) as [->|]; [by exists i|]. exists k. split; [lia|]. by apply Ho.
Qed.

Lemma pick_larger_spec a n i c :
  0 ≤ i < n → n ≤ zlen a → 0 ≤ c →
  ∃ m, pick_larger lt a n i c = Some m ∧ (m = i ∨ m = c ∧ c < n) ∧
    (∀ x y, a.[m] = Some x → a.[i] = Some y → lt x y = false) ∧
    (∀ x y, c < n → a.[m] = Some x → a.[c] = Some y → lt x y = false).
Proof.
  intros Hi Hn Hc. unfold pick_larger. destruct (Z.ltb_spec c n) as [Hcn|Hcn].
  - destruct (zget_is_Some a i) as [x Hx]; [lia|]. destruct (zget_is_Some a c) as [y Hy]; [lia|].
    rewrite Hx. cbn [mbind option_bind]. rewrite Hy. cbn [mbind option_bind].
    destruct (lt x y) eqn:Hlt; eexists; (split; [done|]).
    + split; [by right|]. split; intros; simplify_eq; [by apply lt_asym|apply lt_irrefl].
    + split; [by left|]. split; intros; simplify_eq; [apply lt_irrefl|done].
  - exists i. split; [done|]. split; [by left|]. split; intros; [simplify_eq; apply lt_irrefl|lia].
Qed.

(** The larger of a node and its two children. *)
Lemma largest_spec a n i :
  0 ≤ i < n → n ≤ zlen a →
  ∃ m, (largest ← pick_larger lt a n i (2 * i + 1); pick_larger lt a n largest (2 * i + 2)) = Some m ∧
    (m = i ∨ child i m ∧ m < n) ∧ dominates a n m i ∧
    ∀ x y, a.[m] = Some x → a.[i] = Some y → lt x y = false.
Proof.
  intros Hi Hn. destruct (pick_larger_spec a n i (2 * i + 1)) as (m1 & -> & Hm1 & Hi1 & Hc1); [lia|lia|lia|].
  cbn [mbind option_bind].
  destruct (pick_larger_spec a n m1 (2 * i + 2)) as (m & -> & Hm & Hi2 & Hc2); [lia|lia|lia|].
  destruct (zget_is_Some a m1) as [z Hz]; [lia|]. exists m. split; [done|]. split; [|split].
  - unfold child. lia.
  - intros c x y [->| ->] Hcn Hx Hy; [|by apply Hc2].
    apply (le_trans y z x); [by apply Hc1|by apply Hi2].
  - intros x y Hx Hy. apply (le_trans y z x); [by apply Hi1|by apply Hi2].
Qed.

(** The heap property holds from [i0] on, but perhaps between [i] and its
    children; those are no larger than the parent of [i]. *)
Definition heap_hole a n i0 i : Prop :=
  (∀ p, i0 ≤ p → p ≠ i → dominates a n p p) ∧ (∀ p, i0 ≤ p → child p i → dominates a n p i).

Lemma sift_hole a a' n i0 i m :
  0 ≤ i0 ≤ i → i < n → n ≤ zlen a → heap_hole a n i0 i → child i m → m < n → dominates a n m i →
  (∀ x y, a.[m] = Some x → a.[i] = Some y → lt x y = false) →
  swap a i m = Some a' → heap_hole a' n i0 m.
Proof.
  intros Hi Hin Hn [Hd Hg] Hm Hmn Hdm Hmi Hs. destruct (swap_spec a i m) as (a1 & Hs1 & _ & _ & Hai & Ham & Ho);
    [lia|unfold child in Hm; lia|]. rewrite Hs1 in Hs. injection Hs as ->. unfold child in *. split.
  - intros p Hp Hpm c x y Hc Hcn Hx Hy. unfold child in Hc. destruct (decide (p = i)) as [->|Hpi].
    + rewrite Hai in Hx. destruct (decide (c = m)) as [->|Hcm].
      * rewrite Ham in Hy. by apply Hmi.
      * rewrite Ho in Hy by lia. apply (Hdm c x y); [unfold child; lia|done|done|done].
    + rewrite Ho in Hx by lia. destruct (decide (c = i)) as [->|Hci].
      * rewrite Hai in Hy. apply (Hg p Hp Hc m x y); [done|done|done|done].
      * rewrite Ho in Hy by lia. by apply (Hd p Hp Hpi c x y).
  - intros p Hp Hpm c x y Hc Hcn Hx Hy. unfold child in Hpm, Hc. assert (p = i) as -> by lia.
    rewrite Hai in Hx. rewrite Ho in Hy by lia. apply (Hd m ltac:(lia) ltac:(lia) c x y); [done|done|done|done].
Qed.

Lemma sift_down_spec fuel a n i0 i :
  0 ≤ i0 ≤ i → i < n → n ≤ zlen a → n - i < Z.of_nat fuel → heap_hole a n i0 i →
  ∃ a', sift_down lt fuel a n i = Some a' ∧ permutes_prefix a a' n ∧ heap_from a' n i0.
Proof.
  revert a i. induction fuel as [|fuel IH]; intros a i Hi Hin Hn Hf Hh; [lia|]. cbn [sift_down].
  destruct (largest_spec a n i) as (m & Hm & Hmi & Hdm & Hle); [lia|lia|].
  destruct (pick_larger lt a n i (2 * i + 1)) as [m1|]; [|done]. cbn [mbind option_bind] in Hm |- *.
  rewrite Hm. cbn [mbind option_bind]. destruct (Z.eqb_spec m i) as [->|Hne].
  - exists a. split; [done|]. split; [apply permutes_prefix_refl|]. intros p Hp.
    destruct (decide (p = i)) as [->|]; [done|]. by apply Hh.
  - destruct Hmi as [|[Hc Hmn]]; [done|]. unfold child in Hc.
    destruct (swap_spec a i m) as (a1 & Hs & _ & Hl & _); [lia|lia|]. rewrite Hs. cbn [mbind option_bind].
    destruct (IH a1 m) as (a2 & Hrun & Hp & Hheap); [lia|lia|lia|lia| |].
    { by apply (sift_hole a a1 n i0 i m). }
    exists a2. split; [done|]. split; [|done]. eapply permutes_prefix_trans; [|done].
    apply (swap_prefix a a1 i m); [lia|lia|lia|done].
Qed.

Lemma heapify_spec a n :
  0 ≤ n ≤ zlen a → ∃ a', heapify lt a n = Some a' ∧ permutes_prefix a a' n ∧ heap_from a' n 0.
Proof.
  intros Hn. unfold heapify. pose proof (half_bounds n) as Hhalf.
  apply (foldM_rev_range _ (λ i a', permutes_prefix a a' n ∧ heap_from a' n i)); [lia| |].
  - split; [apply permutes_prefix_refl|]. intros p Hp c x y Hc Hcn. unfold child in Hc. lia.
  - intros i b Hi [Hp Hh]. pose proof Hp as (_ & Hl & _). destruct (sift_down_spec (Z.to_nat n + 1) b n i i) as (b' & Hs & Hp' & Hh'); [lia|lia|lia|lia| |].
    { split; [intros p ??; apply Hh; lia|]. unfold child. intros p ??. lia. }
    exists b'. split; [done|]. split; [by eapply permutes_prefix_trans|done].
Qed.

Lemma heap_root a n j x y :
  heap_from a n 0 → n ≤ zlen a → 0 ≤ j < n → a.[0] = Some x → a.[j] = Some y → lt x y = false.
Proof.
  intros Hh Hn [Hj0 Hjn] Hx. revert j Hj0 Hjn y.
  apply (Zlt_0_ind (λ j, j < n → ∀ y, a.[j] = Some y → lt x y = false)).
  intros j IH Hj Hjn y Hy. destruct (decide (j = 0)) as [->|Hj0].
  { simplify_eq. apply lt_irrefl. }
  set (p := (j - 1) / 2). assert (Hp : 0 ≤ p < j ∧ child p j) by (pose proof (half_bounds (j - 1)); unfold p, child; lia).
  destruct (zget_is_Some a p) as [z Hz]; [lia|].
  apply (le_trans y z x); [|by apply (IH p); [lia|lia|]]. apply (Hh p ltac:(lia) j z y); [apply Hp|done|done|done].
Qed.

(** Every element from [i] on is no smaller than those before it. *)
Definition le_from a i n : Prop :=
  ∀ j k x y, 0 ≤ j < k → i ≤ k < n → a.[j] = Some x → a.[k] = Some y → lt y x = false.

Lemma heap_pop a n i :
  1 ≤ i < n → n ≤ zlen a → heap_from a (i + 1) 0 → le_from a (i + 1) n →
  ∃ a', (a ← swap a 0 i; sift_down lt (Z.to_nat i + 1) a i 0) = Some a' ∧
    permutes_prefix a a' n ∧ heap_from a' i 0 ∧ le_from a' i n.
Proof.
  intros Hi Hn Hh Hle. destruct (swap_spec a 0 i) as (b & Hs & _ & Hl & Hb0 & Hbi & Hbo); [lia|lia|].
  rewrite Hs. cbn [mbind option_bind].
  destruct (sift_down_spec (Z.to_nat i + 1) b i 0 0) as (c & -> & Hp & Hhc); [lia|lia|lia|lia| |].
  { split; [|unfold child; lia]. intros p Hp Hp0 k x y Hk Hki Hx Hy. unfold child in Hk.
    rewrite Hbo in Hx, Hy by lia. apply (Hh p Hp k x y); [done|lia|done|done]. }
  exists c. split; [done|]. pose proof (swap_prefix a b 0 i n ltac:(lia) ltac:(lia) Hn Hs) as Hpab.
  split; [eapply permutes_prefix_trans; [done|by eapply permutes_prefix_mono; [|done]; lia]|].
  split; [done|]. destruct Hp as (_ & _ & Hco & Hci).
  assert (Hbefore : ∀ j, 0 ≤ j ≤ i → ∃ j', 0 ≤ j' ≤ i ∧ c.[j] = a.[j']).
  { intros j Hj. assert (∃ j1, 0 ≤ j1 ≤ i ∧ c.[j] = b.[j1]) as (j1 & Hj1 & ->).
    - destruct (decide (j = i)) as [->|]; [exists i; split; [lia|apply Hco; lia]|].
      destruct (Hci j) as (j1 & ? & ?); [lia|]. exists j1. split; [lia|done].
    - destruct (decide (j1 = 0)) as [->|]; [exists i; split; [lia|congruence]|].
      destruct (decide (j1 = i)) as [->|]; [exists 0; split; [lia|congruence]|].
      exists j1. split; [lia|]. apply Hbo; lia. }
  intros j k x y Hj Hk Hx Hy. rewrite Hco in Hy by lia. destruct (decide (k = i)) as [->|Hki].
  - rewrite Hbi in Hy. destruct (Hbefore j) as (j' & Hj' & Hcj); [lia|]. rewrite Hcj in Hx.
    by apply (heap_root a (i + 1) j'); [|lia|lia| |].
  - rewrite Hbo in Hy by lia. destruct (decide (j ≤ i)) as [Hji|Hji].
    + destruct (Hbefore j) as (j' & Hj' & Hcj); [lia|]. rewrite Hcj in Hx. apply (Hle j' k); [lia|lia|done|done].
    + rewrite Hco, Hbo in Hx by lia. apply (Hle j k); [lia|lia|done|done].
Qed.

Definition sorted_by (R : A → A → bool) : list A → Prop := StronglySorted (λ x y, R y x = false).

Theorem heapsort_spec a :
  ∃ a', heapsort lt a (zlen a) = Some a' ∧ a' ≡ₚ a ∧ sorted_by lt a'.
Proof.
  unfold heapsort. pose proof (zlen_nonneg a) as Hn0.
  destruct (heapify_spec a (zlen a)) as (b & -> & Hpb & Hhb); [lia|]. cbn [mbind option_bind].
  destruct (decide (zlen a = 0)) as [H0|H0].
  { rewrite range_empty by lia. exists b. split; [done|]. split; [apply Hpb|].
    destruct Hpb as (_ & Hl & _). rewrite (zlen_zero_nil b) by lia. constructor. }
  destruct (foldM_rev_range (λ i a, a ← swap a 0 i; sift_down lt (Z.to_nat i + 1) a i 0)
    (λ i c, permutes_prefix a c (zlen a) ∧ heap_from c i 0 ∧ le_from c i (zlen a)) 1 (zlen a) b)
    as (c & -> & Hp & _ & Hle); [lia| | |].
  - split; [done|]. split; [done|]. intros j k x y ??. lia.
  - intros i c Hi (Hp & Hh & Hle). pose proof Hp as (_ & Hl & _).
    destruct (heap_pop c (zlen a) i) as (d & -> & Hpd & Hhd & Hled); [lia|lia|done|done|].
    exists d. split; [done|]. split; [by eapply permutes_prefix_trans|done].
  - exists c. split; [done|]. split; [apply Hp|]. destruct Hp as (_ & Hl & _).
    apply StronglySorted_zget. intros j k x y Hjk Hx Hy. pose proof (zget_Some _ _ _ Hy).
    apply (Hle j k); [done|lia|done|done].
Qed.

(** ** Stability: [lt] refined by the order [O] the elements stood in *)
Definition stable_lt (O : A → A → Prop) x y : Prop := lt x y = true ∨ lt y x = false ∧ O x y.

Lemma stable_lt_le O x y : stable_lt O x y → lt y x = false.
Proof. intros [Hlt|[Hle _]]; [by apply lt_asym|done]. Qed.
Lemma stable_lt_step O x y z : lt x y = true → stable_lt O y z → lt x z = true.
Proof. intros Hxy Hyz%stable_lt_le. by eapply lt_le_trans. Qed.

(** ** Insertion sort *)
Lemma insert_shift_spec O pre x rest fuel :
  StronglySorted (stable_lt O) pre → Forall (λ y, O y x) pre → (length pre ≤ fuel)%nat →
  ∀ y0, ∃ pre', insert_shift lt fuel (pre ++ y0 :: rest) x (zlen pre - 1) = Some (pre' ++ rest) ∧
    pre' ≡ₚ x :: pre ∧ StronglySorted (stable_lt O) pre'.
Proof.
  revert rest fuel. induction pre as [|y pre IH] using rev_ind; intros rest fuel Hs HO Hf y0.
  - rewrite zlen_nil. destruct fuel; cbn; (exists [x]; split; [done|]; split; [done|]; repeat constructor).
  - rewrite <- app_assoc. cbn [app]. replace (zlen (pre ++ [y]) - 1) with (zlen pre) by (autorewrite with zlen; lia).
    pose proof (zlen_nonneg pre) as Hn. rewrite length_app in Hf. cbn in Hf.
    assert (Hy : (pre ++ y :: y0 :: rest).[zlen pre] = Some y).
    { by apply zget_middle. }
    apply StronglySorted_app in Hs as (Hcross & Hs & _). apply Forall_app in HO as [HO HOy].
    destruct fuel as [|fuel]; [lia|]. cbn [insert_shift]. rewrite (proj2 (Z.leb_le _ _)) by lia.
    rewrite Hy. cbn [mbind option_bind]. destruct (lt x y) eqn:Hxy.
    + rewrite zset_Some by (autorewrite with zlen; pose proof (zlen_nonneg rest); lia). cbn [mbind option_bind].
      replace (Z.to_nat (zlen pre + 1)) with (length (pre ++ [y]) + 0)%nat by (rewrite length_app; unfold zlen; cbn; lia).
      replace (pre ++ y :: y0 :: rest) with ((pre ++ [y]) ++ y0 :: rest) by by rewrite <- app_assoc.
      rewrite insert_app_r. cbn [insert list_insert]. rewrite <- app_assoc. cbn [app].
      destruct (IH (y :: rest) fuel Hs HO ltac:(lia) y) as (pre' & Hrun & Hp & Hs'). rewrite Hrun.
      exists (pre' ++ [y]). split; [by rewrite <- app_assoc|]. split; [by rewrite Hp|].
      apply StronglySorted_app. split; [|split; [done|repeat constructor]].
      intros z w Hz Hw. apply list_elem_of_singleton in Hw as ->. rewrite Hp in Hz.
      apply elem_of_cons in Hz as [->|Hz]; [by left|]. apply Hcross; [done|by left].
    + rewrite zset_Some by (autorewrite with zlen; pose proof (zlen_nonneg rest); lia).
      exists (pre ++ [y; x]). split; [|split].
      * f_equal. replace (Z.to_nat (zlen pre + 1)) with (length (pre ++ [y]) + 0)%nat by (rewrite length_app; unfold zlen; cbn; lia).
        replace (pre ++ y :: y0 :: rest) with ((pre ++ [y]) ++ y0 :: rest) by by rewrite <- app_assoc.
        rewrite insert_app_r. cbn. by rewrite <- !app_assoc.
      * change (y :: x :: []) with ([y] ++ [x]). rewrite app_assoc. by rewrite Permutation_app_comm.
      * apply StronglySorted_app. rewrite Forall_singleton in HOy. split; [|split; [done|]].
        -- intros z w Hz Hw. pose proof (Hcross z y Hz ltac:(by left)) as Hzy.
           rewrite elem_of_cons, list_elem_of_singleton in Hw. destruct Hw as [->| ->]; [done|]. right. split.
           ++ apply (le_trans z y x); [by apply stable_lt_le in Hzy|done].
           ++ rewrite Forall_forall in HO. by apply HO.
        -- constructor; [repeat constructor|]. apply Forall_singleton. by right.
Qed.

Theorem insertion_sort_spec O a n :
  n = zlen a → StronglySorted O a →
  ∃ a', insertion_sort lt a n = Some a' ∧ a' ≡ₚ a ∧ StronglySorted (stable_lt O) a'.
Proof.
  intros -> HO. unfold insertion_sort. destruct a as [|x0 a].
  { exists []. split; [done|]. split; [done|constructor]. }
  destruct (foldM_range (λ i a, x ← a.[i]; insert_shift lt (Z.to_nat i) a x (i - 1))
    (λ i b, ∃ pre, b = pre ++ drop (Z.to_nat i) (x0 :: a) ∧ pre ≡ₚ take (Z.to_nat i) (x0 :: a) ∧
       StronglySorted (stable_lt O) pre) 1 (zlen (x0 :: a)) (x0 :: a)) as (b & -> & pre & -> & Hp & Hs).
  - autorewrite with zlen. pose proof (zlen_nonneg a). lia.
  - exists [x0]. split; [done|]. split; [done|repeat constructor].
  - intros i b Hi (pre & -> & Hp & Hs). set (full := x0 :: a) in *.
    assert (Hlen : length pre = Z.to_nat i).
    { rewrite Hp, length_take. unfold zlen in Hi. lia. }
    destruct (lookup_lt_is_Some_2 full (Z.to_nat i)) as [x Hx]; [unfold zlen in Hi; lia|].
    rewrite (drop_S full x) by done. replace (Z.to_nat (i + 1)) with (S (Z.to_nat i)) by lia.
    assert ((pre ++ x :: drop (S (Z.to_nat i)) full).[i] = Some x) as ->.
    { apply zget_middle. unfold zlen. lia. }
    cbn [mbind option_bind].
    destruct (insert_shift_spec O pre x (drop (S (Z.to_nat i)) full) (Z.to_nat i) Hs) with (y0 := x) as (pre' & Hrun & Hp' & Hs'); [|lia|].
    + rewrite <- (take_drop_middle full (Z.to_nat i) x Hx) in HO.
      apply Forall_forall. intros y Hy. rewrite Hp in Hy.
      apply (StronglySorted_app_1_elem_of _ _ _ y x HO Hy). by left.
    + replace (zlen pre - 1) with (i - 1) in Hrun by (unfold zlen; lia). rewrite Hrun. eexists. split; [done|].
      exists pre'. split; [done|]. split; [|done]. rewrite Hp', Hp. rewrite (take_S_r _ _ x) by done.
      by rewrite Permutation_app_comm.
  - rewrite drop_ge by (unfold zlen; lia). rewrite app_nil_r. exists pre. split; [done|]. split; [|done].
    rewrite Hp, take_ge; [done|unfold zlen; lia].
Qed.

End comparison.

(** A sort by a strict total order has one result. *)
Lemma sorted_unique {A} (R : A → A → Prop) (l k : list A) :
  (∀ x y, R x y → ¬ R y x) → l ≡ₚ k → StronglySorted R l → StronglySorted R k → l = k.
Proof.
  intros Ha Hp Hl Hk. apply (StronglySorted_unique_strong R); [|done|done|done].
  intros x y _ _ Hxy Hyx. by destruct (Ha x y).
Qed.
Lemma StronglySorted_impl {A} (R S : A → A → Prop) l :
  (∀ x y, x ∈ l → y ∈ l → R x y → S x y) → StronglySorted R l → StronglySorted S l.
Proof.
  intros HRS Hl. induction Hl as [|x l Hl IH Hx]; [constructor|]. constructor.
  - apply IH. intros y z Hy Hz. apply HRS; by right.
  - rewrite Forall_forall in Hx |- *. intros y Hy. apply HRS; [by left|by right|by apply Hx].
Qed.
Lemma StronglySorted_const {A} (R : A → A → Prop) l : (∀ x y, R x y) → StronglySorted R l.
Proof. intros HR. induction l as [|x l IH]; constructor; [done|]. by apply Forall_forall. Qed.

(** * Introsort of keys with their row numbers *)
Lemma key_lt_spec (a b : kv) : key_lt a b = true ↔ fst a < fst b ∨ fst a = fst b ∧ snd a < snd b.
Proof. unfold key_lt. rewrite orb_true_iff, andb_true_iff, !Z.ltb_lt, Z.eqb_eq. done. Qed.
Lemma key_lt_false (a b : kv) : key_lt a b = false ↔ fst b < fst a ∨ fst a = fst b ∧ snd b ≤ snd a.
Proof.
  rewrite <- not_true_iff_false, key_lt_spec. split; [|lia].
  intros Hn. destruct (decide (fst a = fst b)); lia.
Qed.

#[export] Instance key_lt_order : WeakOrder key_lt.
Proof.
  split.
  - intros x y. rewrite key_lt_spec, key_lt_false. lia.
  - intros x y z. rewrite !key_lt_false. lia.
Qed.

(** Rows in the order of their keys, equal keys in the order of the rows. *)
Definition key_before (a b : kv) : Prop := key_lt a b = true.

Lemma key_before_asym a b : key_before a b → ¬ key_before b a.
Proof. intros Hab Hba. apply (lt_asym (lt := key_lt)) in Hab. unfold key_before in Hba. congruence. Qed.

(** With distinct row numbers, sorted means strictly sorted. *)
Lemma key_sorted_strict a : NoDup (map snd a) → sorted_by key_lt a → StronglySorted key_before a.
Proof.
  intros Hnd Hs. induction Hs as [|x l Hs IH Hx]; [constructor|]. cbn in Hnd. apply NoDup_cons in Hnd as [Hn Hnd].
  constructor; [by apply IH|]. rewrite Forall_forall in Hx |- *. intros y Hy.
  specialize (Hx y Hy). unfold key_before. rewrite key_lt_spec. rewrite key_lt_false in Hx.
  assert (snd y ≠ snd x). { intros He. apply Hn. rewrite <- He. by apply list_elem_of_fmap_2. }
  lia.
Qed.

Lemma key_insertion_sort_spec a :
  ∃ a', key_insertion_sort a = Some a' ∧ a' ≡ₚ a ∧ sorted_by key_lt a'.
Proof.
  destruct (insertion_sort_spec key_lt (λ _ _, True) a (zlen a)) as (a' & Hr & Hp & Hs); [done|by apply StronglySorted_const|].
  exists a'. split; [done|]. split; [done|]. eapply StronglySorted_impl; [|done].
  intros x y _ _ Hxy. exact (stable_lt_le key_lt _ x y Hxy).
Qed.

Lemma median3_spec a n : n = zlen a → 1 < n → ∃ pi, median3 a (n / 2) n = Some pi ∧ 0 ≤ pi < n.
Proof.
  intros Hn H1. unfold median3. pose proof (half_bounds n).
  destruct (zget_is_Some a 0) as [x ->]; [lia|]. destruct (zget_is_Some a (n / 2)) as [y ->]; [lia|].
  destruct (zget_is_Some a (n - 1)) as [z ->]; [lia|]. cbn [mbind option_bind].
  eexists. split; [done|].
  destruct (fst x <? fst y), (fst y <? fst z), (fst x <? fst z); lia.
Qed.

Lemma partition_spec a p n :
  n = zlen a → 1 ≤ n → a.[n - 1] = Some p →
  ∃ b lo, partition a p n = Some (b, lo) ∧ 0 ≤ lo < n ∧ b ≡ₚ a ∧ b.[n - 1] = Some p ∧
    (∀ j x, 0 ≤ j < lo → b.[j] = Some x → key_lt x p = true) ∧
    (∀ j x, lo ≤ j < n - 1 → b.[j] = Some x → key_lt x p = false).
Proof.
  intros Hn H1 Hp. unfold partition.
  destruct (foldM_range (λ i '(a, lo), x ← a.[i]; if key_lt x p then a ← swap a i lo; Some (a, lo + 1) else Some (a, lo))
    (λ i '(b, lo), 0 ≤ lo ≤ i ∧ zlen b = n ∧ b ≡ₚ a ∧ b.[n - 1] = Some p ∧
      (∀ j x, 0 ≤ j < lo → b.[j] = Some x → key_lt x p = true) ∧
      (∀ j x, lo ≤ j < i → b.[j] = Some x → key_lt x p = false)) 0 (n - 1) (a, 0))
    as ([b lo] & -> & Hlo & Hl & Hpb & Hpiv & Hlt & Hge).
  - lia.
  - split; [lia|]. split; [done|]. split; [done|]. split; [done|]. split; intros; lia.
  - intros i [b lo] Hi (Hlo & Hl & Hpb & Hpiv & Hlt & Hge). destruct (zget_is_Some b i) as [x Hx]; [lia|].
    rewrite Hx. cbn [mbind option_bind]. destruct (key_lt x p) eqn:Hk.
    + destruct (swap_spec b i lo) as (c & -> & Hpc & Hlc & Hci & Hclo & Hco); [lia|lia|]. cbn [mbind option_bind].
      eexists. split; [done|]. split; [lia|]. split; [lia|]. split; [by rewrite Hpc|]. split; [rewrite Hco by lia; done|]. split.
      * intros j y Hj Hy. destruct (decide (j = lo)) as [->|]; [congruence|]. rewrite Hco in Hy by lia. apply (Hlt j); [lia|done].
      * intros j y Hj Hy. destruct (decide (j = i)) as [->|].
        -- rewrite Hci in Hy. apply (Hge lo); [lia|done].
        -- rewrite Hco in Hy by lia. apply (Hge j); [lia|done].
    + eexists. split; [done|]. split; [lia|]. split; [done|]. split; [done|]. split; [done|]. split; [done|].
      intros j y Hj Hy. destruct (decide (j = i)) as [->|]; [congruence|]. apply (Hge j); [lia|done].
  - exists b, lo. split; [done|]. split; [lia|]. done.
Qed.

Lemma zget_take_Some {A} (l : list A) k j x : (take (Z.to_nat k) l).[j] = Some x → j < k ∧ l.[j] = Some x.
Proof.
  intros Hx. pose proof (zget_Some _ _ _ Hx) as Hj. rewrite zlen_take in Hj. split; [lia|].
  unfold zget in *. destruct (Z.leb_spec 0 j); [|done]. by rewrite lookup_take_lt in Hx by lia.
Qed.
Lemma zget_drop_Some {A} (l : list A) k j x : 0 ≤ k → (drop (Z.to_nat k) l).[j] = Some x → 0 ≤ j ∧ l.[k + j] = Some x.
Proof.
  intros Hk Hx. pose proof (zget_Some _ _ _ Hx) as Hj. split; [lia|].
  unfold zget in *. destruct (Z.leb_spec 0 j); [|done]. destruct (Z.leb_spec 0 (k + j)); [|lia].
  rewrite lookup_drop in Hx. rewrite <- Hx. f_equal. lia.
Qed.
Lemma split_at {A} (l : list A) k x :
  l.[k] = Some x → l = take (Z.to_nat k) l ++ x :: drop (Z.to_nat (k + 1)) l.
Proof.
  intros Hx. pose proof (zget_Some _ _ _ Hx) as Hk. unfold zget in Hx. rewrite (proj2 (Z.leb_le _ _)) in Hx by lia.
  replace (Z.to_nat (k + 1)) with (S (Z.to_nat k)) by lia. symmetry. by apply take_drop_middle.
Qed.

(** The pivot in its place, smaller pairs before it and the others after. *)
Lemma partition_step a p pi n :
  n = zlen a → 1 < n → 0 ≤ pi < n → a.[pi] = Some p →
  ∃ a1 a2 lo b, swap a pi (n - 1) = Some a1 ∧ partition a1 p n = Some (a2, lo) ∧ swap a2 (n - 1) lo = Some b ∧
    0 ≤ lo < n ∧ a2.[n - 1] = Some p ∧ b ≡ₚ a ∧ b.[lo] = Some p ∧
    Forall (λ x, key_lt x p = true) (take (Z.to_nat lo) b) ∧
    Forall (λ x, key_lt x p = false) (drop (Z.to_nat (lo + 1)) b).
Proof.
  intros Hn H1 Hpi Hp. destruct (swap_spec a pi (n - 1)) as (a1 & Hs1 & Hp1 & Hl1 & _ & Hlast & _); [lia|lia|].
  destruct (partition_spec a1 p n) as (a2 & lo & Hpart & Hlo & Hp2 & Hpiv & Hlt & Hge); [lia|lia|congruence|].
  assert (Hl2 : zlen a2 = n). { unfold zlen in *. rewrite (Permutation_length Hp2). lia. }
  destruct (swap_spec a2 (n - 1) lo) as (b & Hs2 & Hp3 & Hl3 & Hbn & Hblo & Hbo); [lia|lia|].
  exists a1, a2, lo, b. split; [done|]. split; [done|]. split; [done|]. split; [done|]. split; [done|]. split; [by rewrite Hp3, Hp2|].
  split; [congruence|]. split; apply Forall_forall; intros x (j & Hj & Hx)%elem_of_zget.
  - apply zget_take_Some in Hx as [Hjlo Hx]. rewrite Hbo in Hx by lia. by apply (Hlt j); [lia|].
  - apply zget_drop_Some in Hx as [Hj0 Hx]; [|lia]. pose proof (zget_Some _ _ _ Hx).
    destruct (decide (lo + 1 + j = n - 1)) as [He|He].
    + rewrite He, Hbn in Hx. by apply (Hge lo); [lia|].
    + rewrite Hbo in Hx by lia. by apply (Hge (lo + 1 + j)); [lia|].
Qed.

Lemma sorted_glue l p r :
  sorted_by key_lt l → sorted_by key_lt r →
  Forall (λ x, key_lt x p = true) l → Forall (λ x, key_lt x p = false) r → sorted_by key_lt (l ++ p :: r).
Proof.
  intros Hl Hr Hlt Hge. rewrite Forall_forall in Hlt, Hge. apply StronglySorted_app. split; [|split; [done|]].
  - intros x y Hx Hy. specialize (Hlt x Hx). apply elem_of_cons in Hy as [->|Hy]; [by apply lt_asym|].
    specialize (Hge y Hy). apply (lt_asym (lt := key_lt)). by apply (lt_le_trans key_lt x p y).
  - constructor; [done|]. by apply Forall_forall.
Qed.

Lemma key_introsort_impl_spec depth a :
  ∃ a', key_introsort_impl depth a = Some a' ∧ a' ≡ₚ a ∧ sorted_by key_lt a'.
Proof.
  revert a. induction depth as [|depth IH]; intros a; cbn [key_introsort_impl];
    (destruct (Z.ltb_spec 32 (zlen a)) as [Hn|]; [|apply key_insertion_sort_spec]); [exact (heapsort_spec key_lt a)|].
  destruct (median3_spec a (zlen a)) as (pi & -> & Hpi); [done|lia|]. cbn [mbind option_bind].
  destruct (zget_is_Some a pi) as [p Hp]; [lia|].
  destruct (partition_step a p pi (zlen a)) as (a1 & a2 & lo & b & Hs1 & Hpart & Hs2 & Hlo & Hpiv & Hpb & Hbp & Hlt & Hge); [done|lia|done|done|].
  rewrite Hp. cbn [mbind option_bind]. unfold swap in Hs1, Hs2. rewrite Hp in Hs1.
  destruct (a.[zlen a - 1]) as [last|]; [|done]. cbn [mbind option_bind] in Hs1 |- *.
  destruct (zset a pi last) as [a0|]; [|done]. cbn [mbind option_bind] in Hs1 |- *. rewrite Hs1. cbn [mbind option_bind].
  rewrite Hpart. cbn [mbind option_bind]. rewrite Hpiv in Hs2. cbn [mbind option_bind] in Hs2.
  destruct (a2.[lo]) as [q|]; [|done]. cbn [mbind option_bind] in Hs2 |- *.
  destruct (zset a2 (zlen a - 1) q) as [a3|]; [|done]. cbn [mbind option_bind] in Hs2 |- *. rewrite Hs2. cbn [mbind option_bind].
  destruct (IH (take (Z.to_nat lo) b)) as (l & Hl & Hpl & Hsl). destruct (IH (drop (Z.to_nat (lo + 1)) b)) as (r & Hr & Hpr & Hsr).
  exists (l ++ p :: r). split; [rewrite Hl, Hr; by case_match|]. split.
  - rewrite <- Hpb, (split_at b lo p Hbp) at 1. by rewrite Hpl, Hpr.
  - apply sorted_glue; [done|done|by rewrite Hpl|by rewrite Hpr].
Qed.

Theorem key_introsort_spec a : ∃ a', key_introsort a = Some a' ∧ a' ≡ₚ a ∧ sorted_by key_lt a'.
Proof.
  unfold key_introsort. destruct (Z.leb_spec (zlen a) 1) as [H1|]; [|apply key_introsort_impl_spec].
  exists a. split; [done|]. split; [done|]. destruct a as [|x [|y a]]; [constructor|repeat constructor|].
  exfalso. autorewrite with zlen in H1. pose proof (zlen_nonneg a). lia.
Qed.
