(* ===== verification/SortRadix.v ===== *)
(** * Radix passes: histogram, offsets and scatter

    A pass moves the elements so that the blocks of equal digits follow each
    other, each in the order it was in: [spread]. Every task has its own
    region of the output for each digit, so the order in which tasks run does
    not matter. *)

From S2P Require Import Prelude Pool PoolProofs Rowsel RowselProofs Sort SortOrder.
Local Open Scope Z_scope.

Class WorkersLaws `{Dispatcher} `{Workers} : Prop := {
  total_workers_ok : 1 ≤ total_workers ≤ ring_cap;
  task_wid_ok : ∀ t, 0 ≤ task_wid t < total_workers;
  ring_cap_buckets : 256 ≤ ring_cap;
}.

(** ** Blocks laid out one after the other *)
Section blocks.
Context {A : Type} (g : Z → list A).

(** Where block [k] starts. *)
Definition starts (k : Z) : Z := zsum (map (λ i, zlen (g i)) (range 0 k)).

Lemma starts_0 : starts 0 = 0.
Proof. done. Qed.
Lemma starts_S k : 0 ≤ k → starts (k + 1) = starts k + zlen (g k).
Proof.
  intros Hk. unfold starts. rewrite range_snoc by lia. rewrite map_app, zsum_app. f_equal. unfold zsum. cbn. lia.
Qed.
Lemma starts_mono i j : 0 ≤ i ≤ j → starts i ≤ starts j.
Proof.
  intros Hij. remember (Z.to_nat (j - i)) as n eqn:Hn. revert j Hij Hn.
  induction n as [|n IH]; intros j Hij Hn; [by assert (i = j) as -> by lia|].
  specialize (IH (j - 1)). pose proof (starts_S (j - 1) ltac:(lia)) as HS.
  replace (j - 1 + 1) with j in HS by lia. pose proof (zlen_nonneg (g (j - 1))). lia.
Qed.
Lemma starts_nonneg k : 0 ≤ k → 0 ≤ starts k.
Proof. intros Hk. rewrite <- starts_0. apply starts_mono. lia. Qed.
Lemma starts_total k : starts k = zlen (mjoin (map g (range 0 k))).
Proof. unfold starts. by rewrite zlen_mjoin, map_map. Qed.
Lemma starts_disjoint i j : 0 ≤ i → 0 ≤ j → i ≠ j →
  starts i + zlen (g i) ≤ starts j ∨ starts j + zlen (g j) ≤ starts i.
Proof.
  intros Hi Hj Hij. rewrite <- !starts_S by lia.
  destruct (Z.lt_ge_cases i j); [left|right]; apply starts_mono; lia.
Qed.
End blocks.

(** Blocks numbered [b * T + t] are the rows of a [B] by [T] table. *)
Lemma mjoin_table {A} (f : Z → Z → list A) (g : Z → list A) B T :
  0 ≤ B → 0 ≤ T → (∀ b t, 0 ≤ b < B → 0 ≤ t < T → g (b * T + t) = f b t) →
  mjoin (map g (range 0 (B * T))) = mjoin (map (λ b, mjoin (map (f b) (range 0 T))) (range 0 B)).
Proof.
  intros HB HT. pattern B. apply natlike_ind; [done| |done]. clear B HB. intros B HB IH Hg.
  unfold Z.succ. rewrite (range_snoc 0 B) by lia. rewrite map_app, join_app. cbn [map].
  rewrite mjoin_cons, app_nil_r. rewrite <- IH by (intros; apply Hg; lia).
  rewrite <- (range_app 0 (B * T) ((B + 1) * T)) by nia. rewrite map_app, join_app. f_equal.
  replace (range (B * T) ((B + 1) * T)) with (map (λ t, B * T + t) (range 0 T)).
  - rewrite map_map. f_equal. apply map_ext_in. intros t Ht%list_elem_of_In%elem_of_range. apply Hg; lia.
  - rewrite (range_shift (B * T)). do 2 f_equal. lia.
Qed.

Lemma table_inj T b t b' t' : 0 ≤ t < T → 0 ≤ t' < T → b * T + t = b' * T + t' → b = b' ∧ t = t'.
Proof. intros Ht Ht' He. assert (b = b') as -> by (destruct (Z.lt_trichotomy b b') as [|[|]]; nia). lia. Qed.

(** ** Chunks *)
Section chunks.
Context {A : Type}.
Implicit Types (input : list A).

Definition chunk input (n T t : Z) : list A :=
  let '(lo, hi) := task_chunk n T t in take (Z.to_nat (hi - lo)) (drop (Z.to_nat lo) input).

Lemma chunk_size n T : 0 ≤ n → 1 ≤ T → 0 ≤ (n + T - 1) / T ∧ n ≤ T * ((n + T - 1) / T).
Proof.
  intros Hn HT. pose proof (Z.div_mod (n + T - 1) T). pose proof (Z.mod_pos_bound (n + T - 1) T).
  split; [apply Z.div_pos; lia|lia].
Qed.

Lemma chunk_take input n T t :
  n = zlen input → 1 ≤ T → 0 ≤ t →
  chunk input n T t = take (Z.to_nat ((n + T - 1) / T)) (drop (Z.to_nat (t * ((n + T - 1) / T))) input).
Proof.
  intros Hn HT Ht. unfold chunk, task_chunk. pose proof (zlen_nonneg input).
  destruct (chunk_size n T) as [Hc _]; [lia|lia|]. set (c := (n + T - 1) / T) in *. cbv zeta.
  destruct (Z.ltb_spec n (t * c + c)) as [Hlt|]; [|do 2 f_equal; lia].
  rewrite !take_ge; [done|rewrite length_drop; unfold zlen in *; nia..].
Qed.

Lemma mjoin_chunks input n T :
  n = zlen input → 1 ≤ T → mjoin (map (chunk input n T) (range 0 T)) = input.
Proof.
  intros Hn HT. pose proof (zlen_nonneg input). destruct (chunk_size n T) as [Hc Hcov]; [lia|lia|].
  set (c := (n + T - 1) / T) in *.
  enough (∀ m, 0 ≤ m → mjoin (map (chunk input n T) (range 0 m)) = take (Z.to_nat (m * c)) input) as Hm.
  { rewrite Hm by lia. apply take_ge. unfold zlen in *. lia. }
  intros m Hm. pattern m. apply natlike_ind; [done| |done]. clear m Hm. intros m Hm IH. unfold Z.succ.
  rewrite range_snoc by lia. rewrite map_app, join_app, IH. cbn [map]. rewrite mjoin_cons, app_nil_r.
  rewrite chunk_take by lia. fold c. rewrite take_take_drop. f_equal. nia.
Qed.

(** What a task reads. *)
Lemma chunk_holds input n T t :
  n = zlen input → 1 ≤ T → 0 ≤ t → let '(lo, hi) := task_chunk n T t in
  (hi ≤ lo → chunk input n T t = []) ∧
  (lo < hi → 0 ≤ lo ∧ zlen (chunk input n T t) = hi - lo ∧ holds input lo (chunk input n T t)).
Proof.
  intros Hn HT Ht. pose proof (zlen_nonneg input). destruct (chunk_size n T) as [Hc _]; [lia|lia|].
  unfold chunk, task_chunk. set (c := (n + T - 1) / T) in *. cbv zeta.
  set (hi := if n <? t * c + c then n else t * c + c). assert (hi ≤ n) by (unfold hi; zbool; lia).
  split; [intros Hle; by replace (Z.to_nat (hi - t * c)) with 0%nat by lia|].
  intros Hlt. split; [nia|]. split; [autorewrite with zlen; nia|].
  intros j Hj. autorewrite with zlen in Hj. rewrite zget_take by lia.
  rewrite !zget_nat by nia. rewrite lookup_drop. f_equal. nia.
Qed.
End chunks.

(** ** Running the tasks of a pass *)
Section dispatch.
Context `{Dispatcher} `{!DispatcherLaws} `{Workers} `{!WorkersLaws} `{Scratch}.

Lemma ring_keeps n : 0 < n ≤ ring_cap → ring_reserve ring_realloc_ok ring_cap n = ring_cap.
Proof. intros Hn. unfold ring_reserve. by rewrite (proj2 (Z.ltb_ge _ _)) by lia. Qed.

Lemma dispatch_n_order {S} (fn : Z → Z → S → option S) n s :
  0 < n ≤ ring_cap → ∃ l, l ≡ₚ range 0 n ∧ ray_pool_dispatch_n fn n s = foldM (λ i, fn i (i + 1)) l s.
Proof.
  intros Hn. unfold ray_pool_dispatch_n, dispatch_n_tasks. rewrite (proj2 (Z.eqb_neq _ _)) by lia.
  cbv zeta. rewrite ring_keeps by done. rewrite (proj2 (Z.ltb_ge _ _)) by lia. cbn [snd].
  pose proof (run_order_perm (map (λ i, Task 0 i (i + 1)) (range 0 n))) as Hp.
  apply Permutation_map_inv in Hp as (l & -> & Hp). exists l. split; [done|]. by rewrite foldM_map.
Qed.

Lemma radix_n_tasks_ok pool : 1 ≤ radix_n_tasks pool ≤ ring_cap ∧ (pool = false → radix_n_tasks pool = 1).
Proof.
  pose proof total_workers_ok. pose proof ring_cap_buckets. unfold radix_n_tasks.
  destruct pool; cbn; zbool; (split; [lia|done]).
Qed.

(** Total correctness of a pass: the invariant is indexed by the tasks done. *)
Lemma run_pass_ok {S} pool (fn : Z → Z → S → option S) (P : list Z → S → Prop) s :
  let T := radix_n_tasks pool in
  P [] s →
  (∀ pre t s, 0 ≤ t < T → t ∉ pre → P pre s → ∃ s', fn t (t + 1) s = Some s' ∧ P (pre ++ [t]) s') →
  ∃ s' l, run_pass pool T fn s = Some s' ∧ l ≡ₚ range 0 T ∧ P l s'.
Proof.
  intros T Hinit Hstep. destruct (radix_n_tasks_ok pool) as [HT Hseq]. fold T in HT, Hseq. unfold run_pass.
  destruct (pool && (1 <? T)) eqn:Hc.
  - destruct (dispatch_n_order fn T s) as (l & Hl & ->); [lia|].
    destruct (foldM_done (λ i, fn i (i + 1)) P l s) as (s' & -> & HP); [done| |by exists s', l].
    intros pre t post s1 Hlt HP. apply Hstep; [|intros Hin|done].
    + assert (Hin : t ∈ range 0 T) by (rewrite <- Hl, Hlt; set_solver). by apply elem_of_range in Hin.
    + assert (Hnd : NoDup l) by (rewrite Hl; apply NoDup_range). rewrite Hlt in Hnd.
      apply NoDup_app in Hnd as (_ & Hd & _). apply (Hd t Hin). by left.
  - assert (HT1 : T = 1). { destruct pool; [cbn in Hc; zbool; [done|lia]|by apply Hseq]. }
    destruct (Hstep [] 0 s) as (s' & Hs & HP); [lia|by apply not_elem_of_nil|done|].
    exists s', [0]. rewrite HT1. by split.
Qed.
End dispatch.

(** ** Histogram and offsets *)
Section pass.
Context {A : Type} (key : A → Z) (shift : Z).
Implicit Types (input l : list A).

Lemma digit_range k : 0 ≤ digit shift k < 256.
Proof. unfold digit. change 255 with (Z.ones 8). rewrite Z.land_ones by lia. apply Z.mod_pos_bound. lia. Qed.

Definition bucket l (b : Z) : list A := List.filter (λ x, digit shift (key x) =? b) l.
(** The buckets in order: what a pass computes. *)
Definition spread l : list A := mjoin (map (bucket l) (range 0 256)).

Lemma bucket_app l k b : bucket (l ++ k) b = bucket l b ++ bucket k b.
Proof. unfold bucket. by rewrite List.filter_app. Qed.
Lemma bucket_snoc l x b :
  bucket (l ++ [x]) b = if digit shift (key x) =? b then bucket l b ++ [x] else bucket l b.
Proof. rewrite bucket_app. unfold bucket at 2. cbn. destruct (_ =? _); [done|apply app_nil_r]. Qed.
Lemma bucket_mjoin ls b : bucket (mjoin ls) b = mjoin (map (λ l, bucket l b) ls).
Proof. induction ls as [|l ls IH]; [done|]. cbn [map]. rewrite !mjoin_cons, bucket_app. by f_equal. Qed.
Lemma bucket_zlen l b : zlen (bucket l b) ≤ zlen l.
Proof. apply filter_zlen_le. Qed.

Lemma bucket_cons x l b : bucket (x :: l) b = if digit shift (key x) =? b then x :: bucket l b else bucket l b.
Proof. done. Qed.
Lemma spread_skip x l ds :
  digit shift (key x) ∉ ds → map (bucket (x :: l)) ds = map (bucket l) ds.
Proof.
  intros Hd. apply map_ext_in. intros d Hin%list_elem_of_In. rewrite bucket_cons.
  destruct (Z.eqb_spec (digit shift (key x)) d) as [<-|]; done.
Qed.
Lemma spread_cons x l ds :
  NoDup ds → digit shift (key x) ∈ ds → mjoin (map (bucket (x :: l)) ds) ≡ₚ x :: mjoin (map (bucket l) ds).
Proof.
  induction 1 as [|d ds Hnin Hnd IH]; intros Hd; [by apply not_elem_of_nil in Hd|].
  cbn [map]. rewrite !mjoin_cons, bucket_cons. destruct (Z.eqb_spec (digit shift (key x)) d) as [<-|Hne].
  - by rewrite spread_skip.
  - apply elem_of_cons in Hd as [|Hd]; [done|]. rewrite (IH Hd). by rewrite Permutation_middle.
Qed.
Lemma spread_perm l : spread l ≡ₚ l.
Proof.
  induction l as [|x l IH]; [done|]. unfold spread in *.
  rewrite spread_cons; [by rewrite IH|apply NoDup_range|apply elem_of_range, digit_range].
Qed.
Lemma spread_zlen l : zlen (spread l) = zlen l.
Proof. unfold zlen. by rewrite (Permutation_length (spread_perm l)). Qed.

Lemma elem_of_bucket l b x : x ∈ bucket l b → digit shift (key x) = b.
Proof. unfold bucket. rewrite list_elem_of_In, filter_In. intros [_ Hb]. by apply Z.eqb_eq. Qed.
(** A pass over one digit changes nothing. *)
Lemma bucket_full l b : 0 ≤ b < 256 → zlen (bucket l b) = zlen l → spread l = l.
Proof.
  intros Hb Hfull. assert (Hd : ∀ x, x ∈ l → digit shift (key x) = b).
  { intros x Hx. apply Z.eqb_eq. by apply (filter_full (λ x, digit shift (key x) =? b) l). }
  unfold spread. rewrite <- (range_app 0 b 256), (range_cons b 256) by lia. rewrite map_app, join_app. cbn [map]. rewrite mjoin_cons.
  assert (Hnone : ∀ ds, b ∉ ds → mjoin (map (bucket l) ds) = []).
  { intros ds. induction ds as [|d ds IH]; [done|]. intros Hni. cbn [map]. rewrite mjoin_cons, IH by set_solver.
    rewrite app_nil_r.
    unfold bucket. destruct (List.filter _ l) as [|x k] eqn:Hf; [done|].
    assert (Hin : In x (List.filter (λ x, digit shift (key x) =? d) l)) by (rewrite Hf; by left).
    apply filter_In in Hin as [Hin Hxd]. apply Z.eqb_eq in Hxd. apply list_elem_of_In in Hin.
    rewrite (Hd x Hin) in Hxd. set_solver. }
  rewrite !Hnone by (rewrite elem_of_range; lia). cbn [app]. rewrite app_nil_r. unfold bucket.
  apply forallb_filter_id, forallb_forall. intros x Hx%list_elem_of_In. by rewrite (Hd x Hx), Z.eqb_refl.
Qed.

Lemma starts_buckets l : starts (bucket l) 256 = zlen l.
Proof. rewrite starts_total. apply spread_zlen. Qed.

Section tasks.
Context (input : list A) (n T : Z) (Hn : n = zlen input) (HT : 1 ≤ T) (Hmax : n < 2 ^ 32).
Let C t := chunk input n T t.
(** The block of digit [b] and task [t]. *)
Definition block (k : Z) : list A := bucket (C (k mod T)) (k / T).

Lemma block_at b t : 0 ≤ t < T → block (b * T + t) = bucket (C t) b.
Proof.
  intros Ht. unfold block. rewrite Z.add_comm, Z.mod_add, Z.mod_small by lia.
  rewrite Z.div_add, Z.div_small by lia. done.
Qed.

Lemma blocks_spread : mjoin (map block (range 0 (256 * T))) = spread input.
Proof.
  rewrite (mjoin_table (λ b t, bucket (C t) b)) by (lia || (intros; by apply block_at)).
  unfold spread. f_equal. apply map_ext. intros b.
  transitivity (bucket (mjoin (map C (range 0 T))) b); [by rewrite bucket_mjoin, map_map|].
  f_equal. exact (mjoin_chunks input n T Hn HT).
Qed.
Lemma starts_end : starts block (256 * T) = n.
Proof. rewrite starts_total, blocks_spread, spread_zlen. done. Qed.

Definition hist_done (done : list Z) (hist : list Z) : Prop :=
  zlen hist = T * 256 ∧ ∀ t b, t ∈ done → 0 ≤ b < 256 → hist.[t * 256 + b] = Some (zlen (bucket (C t) b)).

Lemma count_loop (l : list A) t hist :
  0 ≤ t < T → zlen hist = T * 256 → zlen l ≤ n → (∀ b, 0 ≤ b < 256 → hist.[t * 256 + b] = Some 0) →
  ∃ hist', foldM (λ x h, let j := t * 256 + digit shift (key x) in c ← h.[j]; zset h j (u32 (c + 1))) l hist = Some hist' ∧
    agree_off hist hist' (t * 256) 256 ∧ ∀ b, 0 ≤ b < 256 → hist'.[t * 256 + b] = Some (zlen (bucket l b)).
Proof.
  intros Ht Hl Hln Hz.
  apply (foldM_done _ (λ pre h, agree_off hist h (t * 256) 256 ∧
    ∀ b, 0 ≤ b < 256 → h.[t * 256 + b] = Some (zlen (bucket pre b)))).
  - split; [done|]. exact Hz.
  - intros pre x post h Hlx [Hag Hb]. pose proof (digit_range (key x)) as Hd. cbv zeta.
    rewrite Hb by done. cbn [mbind option_bind].
    destruct (zset_total h (t * 256 + digit shift (key x)) (u32 (zlen (bucket pre (digit shift (key x))) + 1))) as [h' Hs].
    { destruct Hag as [-> _]. lia. }
    exists h'. split; [done|]. split.
    + eapply agree_off_trans; [done|]. eapply agree_off_mono; [by eapply agree_off_zset|lia|lia].
    + intros b Hbr. rewrite bucket_snoc. destruct (Z.eqb_spec (digit shift (key x)) b) as [<-|Hne].
      * rewrite (zget_zset_eq _ _ _ _ Hs). f_equal. autorewrite with zlen. rewrite wrap_id; [lia|].
        pose proof (bucket_zlen pre (digit shift (key x))). pose proof (zlen_nonneg (bucket pre (digit shift (key x)))).
        rewrite Hlx in Hln. autorewrite with zlen in Hln. pose proof (zlen_nonneg post). unfold in_u. lia.
      * rewrite (zget_zset_ne _ _ _ _ _ Hs) by lia. by apply Hb.
Qed.

Lemma clear_loop t hist :
  0 ≤ t < T → zlen hist = T * 256 →
  ∃ hist', foldM (λ b h, zset h (t * 256 + b) 0) (range 0 256) hist = Some hist' ∧
    agree_off hist hist' (t * 256) 256 ∧ ∀ b, 0 ≤ b < 256 → hist'.[t * 256 + b] = Some 0.
Proof.
  intros Ht Hl. apply (foldM_range _ (λ i h, agree_off hist h (t * 256) 256 ∧
    ∀ b, 0 ≤ b < i → h.[t * 256 + b] = Some 0)); [lia|split; [done|lia]|].
  intros i h Hi [Hag Hb]. destruct (zset_total h (t * 256 + i) 0) as [h' Hs]; [destruct Hag as [-> _]; lia|].
  exists h'. split; [done|]. split.
  - eapply agree_off_trans; [done|]. eapply agree_off_mono; [by eapply agree_off_zset|lia|lia].
  - intros b Hbr. destruct (decide (b = i)) as [->|]; [by eapply zget_zset_eq|].
    rewrite (zget_zset_ne _ _ _ _ _ Hs) by lia. apply Hb. lia.
Qed.

Lemma hist_step pre t hist :
  0 ≤ t < T → t ∉ pre → hist_done pre hist →
  ∃ hist', radix_hist_fn key input n shift T t (t + 1) hist = Some hist' ∧ hist_done (pre ++ [t]) hist'.
Proof.
  intros Ht Hnin [Hl Hd]. unfold radix_hist_fn.
  destruct (clear_loop t hist Ht Hl) as (h1 & -> & Hag1 & Hz). cbn [mbind option_bind].
  pose proof (chunk_holds input n T t Hn HT ltac:(lia)) as Hc.
  assert (Hfin : ∀ h, agree_off hist h (t * 256) 256 →
    (∀ b, 0 ≤ b < 256 → h.[t * 256 + b] = Some (zlen (bucket (C t) b))) → hist_done (pre ++ [t]) h).
  { intros h [Hlh Hag] Hb. split; [lia|]. intros t' b Ht'%elem_of_app Hbr.
    destruct (decide (t' = t)) as [->|Hne]; [by apply Hb|]. destruct Ht' as [Ht'|Ht'%list_elem_of_singleton]; [|done].
    rewrite Hag by lia. by apply Hd. }
  unfold C in *. destruct (task_chunk n T t) as [lo hi]. destruct Hc as [Hempty Hfull].
  destruct (Z.leb_spec hi lo) as [Hle|Hlt].
  - exists h1. split; [done|]. apply Hfin; [done|]. by rewrite Hempty by done.
  - destruct (Hfull Hlt) as (Hlo & Hlen & Hh). rewrite range_shift, foldM_map, <- Hlen.
    rewrite (holds_loop (λ x h, let j := t * 256 + digit shift (key x) in c ← h.[j]; zset h j (u32 (c + 1))) _ _ _ _ Hh).
    destruct (count_loop (chunk input n T t) t h1) as (h2 & -> & Hag2 & Hb); [done|destruct Hag1; lia| |done|].
    + apply Z.le_trans with (zlen input); [|lia]. unfold chunk. case_match. autorewrite with zlen. pose proof (zlen_nonneg input). lia.
    + exists h2. split; [done|]. apply Hfin; [by eapply agree_off_trans|done].
Qed.

(** Every histogram in place. *)
Definition hist_all (hist : list Z) : Prop :=
  ∀ t b, 0 ≤ t < T → 0 ≤ b < 256 → hist.[t * 256 + b] = Some (zlen (block (b * T + t))).

Lemma hist_done_all ts hist : ts ≡ₚ range 0 T → hist_done ts hist → hist_all hist.
Proof.
  intros Hl [_ Hd] t b Ht Hb. rewrite block_at by done. apply Hd; [|done].
  rewrite Hl. by apply elem_of_range.
Qed.

(** Positions in the table of offsets. *)
Definition offsets_upto (k : Z) (offsets : list Z) : Prop :=
  zlen offsets = T * 256 ∧
  ∀ t b, 0 ≤ t < T → 0 ≤ b → b * T + t < k → offsets.[t * 256 + b] = Some (starts block (b * T + t)).

Lemma prefix_inner hist b offsets :
  hist_all hist → 0 ≤ b < 256 → offsets_upto (b * T) offsets →
  ∃ offsets', foldM (λ t '(offsets, running),
      offsets ← zset offsets (t * 256 + b) running;
      c ← hist.[t * 256 + b];
      Some (offsets, running + c)) (range 0 T) (offsets, starts block (b * T)) =
    Some (offsets', starts block ((b + 1) * T)) ∧ offsets_upto ((b + 1) * T) offsets'.
Proof.
  intros Hh Hb Ho.
  destruct (foldM_range (λ t '(offsets, running), offsets ← zset offsets (t * 256 + b) running; c ← hist.[t * 256 + b]; Some (offsets, running + c))
    (λ t '(off, r), r = starts block (b * T + t) ∧ offsets_upto (b * T + t) off) 0 T
    (offsets, starts block (b * T))) as ([o r] & -> & -> & Ho').
  - lia.
  - rewrite Z.add_0_r. done.
  - intros t [off r] Ht [-> [Hl Hoff]].
    destruct (zset_total off (t * 256 + b) (starts block (b * T + t))) as [off' Hs]; [nia|].
    rewrite Hs. cbn [mbind option_bind]. rewrite Hh by lia. cbn [mbind option_bind]. eexists. split; [done|].
    split; [rewrite Z.add_assoc, starts_S by nia; done|]. split; [by rewrite (zlen_zset _ _ _ _ Hs)|].
    intros t' b' Ht' Hb' Hlt. destruct (decide (b' * T + t' = b * T + t)) as [He|Hne].
    + destruct (table_inj T b' t' b t) as [-> ->]; [done|done|done|]. by eapply zget_zset_eq.
    + rewrite (zget_zset_ne _ _ _ _ _ Hs). { apply Hoff; [lia|lia|lia]. }
      intros He. apply Hne. assert (b' < 256) by nia. assert (b' = b ∧ t' = t) as [-> ->] by lia. done.
  - exists o. replace ((b + 1) * T) with (b * T + T) by lia. done.
Qed.

Lemma prefix_sum_ok hist offsets :
  hist_all hist → zlen offsets = T * 256 →
  ∃ offsets' r, prefix_sum hist offsets T = Some (offsets', r) ∧ offsets_upto (256 * T) offsets'.
Proof.
  intros Hh Hl. unfold prefix_sum.
  destruct (foldM_range (λ b st, foldM (λ t '(offsets, running),
      offsets ← zset offsets (t * 256 + b) running; c ← hist.[t * 256 + b]; Some (offsets, running + c)) (range 0 T) st)
    (λ b '(off, r), r = starts block (b * T) ∧ offsets_upto (b * T) off) 0 256 (offsets, 0)) as ([o r] & -> & _ & Ho).
  - lia.
  - split; [done|]. split; [done|]. intros. nia.
  - intros b [off r] Hb [-> Ho]. destruct (prefix_inner hist b off Hh Hb Ho) as (off' & -> & Ho'). by eexists.
  - by exists o, r.
Qed.
End tasks.
End pass.
