(* ===== verification/SortScatter.v ===== *)
(** * Radix passes: the scatter and its write-combining buffers *)

From S2P Require Import Prelude Pool PoolProofs Rowsel RowselProofs Sort SortOrder SortRadix.
Local Open Scope Z_scope.

Section scatter.
Context {A : Type} (key : A → Z) (shift : Z).
Notation bucket := (bucket key shift).
Notation dig x := (digit shift (key x)).

(** ** One task

    Its elements [c], its offsets at [base], and where it writes each digit. *)
Section task.
Context (c : list A) (task : Z) (o : Z → Z) (off0 : list Z) (out0 : list A).
Let base := task * 256.
Context (Htask : 0 ≤ task) (Hoff0 : base + 256 ≤ zlen off0)
  (Ho : ∀ b, 0 ≤ b < 256 → 0 ≤ o b ∧ o b + zlen (bucket c b) ≤ zlen out0)
  (Hdisj : ∀ b b', 0 ≤ b < 256 → 0 ≤ b' < 256 → b ≠ b' →
     o b + zlen (bucket c b) ≤ o b' ∨ o b' + zlen (bucket c b') ≤ o b).

(** Position [i] belongs to some digit's region. *)
Definition owned (i : Z) : Prop := ∃ b, 0 ≤ b < 256 ∧ o b ≤ i < o b + zlen (bucket c b).
Definition frame (off : list Z) (out : list A) : Prop :=
  agree_off off0 off base 256 ∧ zlen out = zlen out0 ∧ ∀ i, ¬ owned i → out.[i] = out0.[i].

(** The digit [b] of the elements [pre] seen so far: some flushed, the others
    in the buffer. *)
Definition digit_inv (pre : list A) (b : Z) (s : swc (A := A)) : Prop :=
  ∃ F1 F2 row, bucket pre b = F1 ++ F2 ∧ zlen F2 < 8 ∧
    (swc_cnt s).[b] = Some (zlen F2) ∧ (swc_buf s).[b] = Some row ∧ zlen row = 8 ∧
    holds row 0 (map Some F2) ∧ (swc_off s).[base + b] = Some (o b + zlen F1) ∧ holds (swc_out s) (o b) F1.

Definition swc_inv (pre : list A) (s : swc) : Prop :=
  zlen (swc_buf s) = 256 ∧ zlen (swc_cnt s) = 256 ∧ frame (swc_off s) (swc_out s) ∧
  ∀ b, 0 ≤ b < 256 → digit_inv pre b s.

Lemma scatter_flush_ok (row : list (option A)) F pos (out : list A) :
  holds row 0 (map Some F) → 0 ≤ pos → pos + zlen F ≤ zlen out →
  ∃ out', flush row (zlen F) pos out = Some out' ∧ holds out' pos F ∧ agree_off out out' pos (zlen F).
Proof.
  intros Hrow Hpos Hlen. unfold flush. pose proof (zlen_nonneg F).
  destruct (foldM_range (λ j out, x ← row.[j]; x ← x; zset out (pos + j) x)
    (λ j out', holds out' pos (take (Z.to_nat j) F) ∧ agree_off out out' pos j) 0 (zlen F) out) as (out' & -> & Hh & Hag).
  - lia.
  - split; [apply holds_nil|done].
  - intros j out' Hj [Hh Hag]. destruct (zget_is_Some F j) as [x Hx]; [lia|].
    assert (row.[j] = Some (Some x)) as ->.
    { specialize (Hrow j). rewrite Z.add_0_l in Hrow. rewrite Hrow by (autorewrite with zlen; lia).
      rewrite zget_nat in Hx by lia. rewrite zget_nat by lia. rewrite list_lookup_fmap. by rewrite Hx. }
    cbn [mbind option_bind]. destruct (zset_total out' (pos + j) x) as [out2 Hs]; [destruct Hag as [-> _]; lia|].
    exists out2. split; [done|]. split.
    + replace (Z.to_nat (j + 1)) with (S (Z.to_nat j)) by lia. rewrite zget_nat in Hx by lia. rewrite (take_S_r _ _ x Hx).
      eapply holds_snoc_write; [done|]. rewrite zlen_take. replace (Z.min (Z.of_nat (Z.to_nat j)) (zlen F)) with j by lia. done.
    + eapply agree_off_trans; [by eapply agree_off_mono; [done|lia|lia]|].
      eapply agree_off_mono; [by eapply agree_off_zset|lia|lia].
  - exists out'. split; [done|]. rewrite take_ge in Hh by (unfold zlen; lia). done.
Qed.

Lemma frame_out off out out' off' b pos n :
  frame off out → 0 ≤ b < 256 → o b ≤ pos → pos + n ≤ o b + zlen (bucket c b) →
  agree_off out out' pos n → agree_off off off' (base + b) 1 → frame off' out'.
Proof.
  intros (Ha & Hl & Hf) Hb Hp Hn [Hl' Hout] Hoff. split; [|split; [lia|]].
  - eapply agree_off_trans; [done|]. eapply agree_off_mono; [done|lia|lia].
  - intros i Hi. rewrite Hout; [by apply Hf|]. destruct (decide (i < pos)); [by left|]. right.
    destruct (decide (pos + n ≤ i)); [done|]. exfalso. apply Hi. exists b. split; [done|]. lia.
Qed.

(** The other digits do not notice. *)
Lemma digit_inv_frame pre pre' b d pos n (s s' : swc) :
  0 ≤ b < 256 → 0 ≤ d < 256 → b ≠ d → bucket pre' b = bucket pre b → digit_inv pre b s →
  zlen (bucket pre b) ≤ zlen (bucket c b) →
  (swc_cnt s').[b] = (swc_cnt s).[b] → (swc_buf s').[b] = (swc_buf s).[b] →
  (swc_off s').[base + b] = (swc_off s).[base + b] →
  o d ≤ pos → pos + n ≤ o d + zlen (bucket c d) → agree_off (swc_out s) (swc_out s') pos n →
  digit_inv pre' b s'.
Proof.
  intros Hb Hd Hne Hpre (F1 & F2 & row & HF & HF2 & Hcnt & Hbuf & Hrow & Hh & Hoff & Hout) Hle Hc Hbf Ho' Hp1 Hp2 Hag.
  exists F1, F2, row. rewrite Hpre, Hc, Hbf, Ho'. repeat (split; [done|]).
  eapply holds_agree; [done|done|]. rewrite HF in Hle. autorewrite with zlen in Hle.
  pose proof (zlen_nonneg F2). pose proof (Hdisj b d Hb Hd Hne). lia.
Qed.

Definition scatter_x (x : A) (s : swc) : option swc :=
  let '(Swc buf cnt off out) := s in
  let byte := dig x in
  bp ← cnt.[byte];
  row ← buf.[byte]; row ← zset row bp (Some x); buf ← zset buf byte row;
  if bp + 1 =? SWC_N then
    pos ← off.[task * 256 + byte];
    out ← flush row SWC_N pos out;
    off ← zset off (task * 256 + byte) (pos + SWC_N);
    cnt ← zset cnt byte 0;
    Some (Swc buf cnt off out)
  else
    cnt ← zset cnt byte (bp + 1);
    Some (Swc buf cnt off out).

Lemma bucket_prefix_le pre post b : c = pre ++ post → zlen (bucket pre b) ≤ zlen (bucket c b).
Proof. intros ->. rewrite bucket_app. autorewrite with zlen. pose proof (zlen_nonneg (bucket post b)). lia. Qed.

(** Only the digit of [x] is touched, within its region of the output. *)
Lemma swc_inv_step pre x post (s s' : swc) pos n :
  let d := dig x in
  c = pre ++ x :: post → swc_inv pre s → digit_inv (pre ++ [x]) d s' →
  zlen (swc_buf s') = 256 → zlen (swc_cnt s') = 256 →
  (∀ b, b ≠ d → (swc_buf s').[b] = (swc_buf s).[b] ∧ (swc_cnt s').[b] = (swc_cnt s).[b]) →
  agree_off (swc_off s) (swc_off s') (base + d) 1 → agree_off (swc_out s) (swc_out s') pos n →
  o d ≤ pos → pos + n ≤ o d + zlen (bucket c d) → swc_inv (pre ++ [x]) s'.
Proof.
  intros d Hc (_ & _ & Hframe & Hinv) Hnew Hlb Hlc Hsame Hoff Hout Hp1 Hp2.
  pose proof (digit_range shift (key x)) as Hd. fold d in Hd. split; [done|]. split; [done|]. split.
  { by apply (frame_out (swc_off s) (swc_out s) (swc_out s') (swc_off s') d pos n). }
  intros b Hb. destruct (decide (b = d)) as [->|Hne]; [done|]. destruct (Hsame b Hne) as [Hbuf Hcnt].
  apply (digit_inv_frame pre (pre ++ [x]) b d pos n s); [done|done|done| |by apply Hinv| |done|done| |done|done|done].
  - rewrite bucket_snoc. by destruct (Z.eqb_spec (dig x) b) as [<-|].
  - by apply (bucket_prefix_le pre (x :: post)).
  - destruct Hoff as [_ Hoff]. apply Hoff. lia.
Qed.

Lemma scatter_x_ok pre x post s :
  c = pre ++ x :: post → swc_inv pre s → ∃ s', scatter_x x s = Some s' ∧ swc_inv (pre ++ [x]) s'.
Proof.
  intros Hc Hs. pose proof Hs as (Hlb & Hlc & (Hfo & Hlo & _) & Hinv). destruct s as [buf cnt off out].
  cbn [swc_buf swc_cnt swc_off swc_out] in *. pose proof (digit_range shift (key x)) as Hd.
  destruct (Hinv _ Hd) as (F1 & F2 & row & HF & HF2 & Hcnt & Hbuf & Hrow & Hh & Hoff & Hout).
  cbn [swc_buf swc_cnt swc_off swc_out] in *. set (d := dig x) in *. unfold scatter_x. cbv zeta. fold d. fold base.
  pose proof (zlen_nonneg F1). pose proof (zlen_nonneg F2). pose proof (Ho d Hd) as [Hod1 Hod2].
  rewrite Hcnt. cbn [mbind option_bind]. rewrite Hbuf. cbn [mbind option_bind].
  destruct (zset_total row (zlen F2) (Some x)) as [row' Hr]; [lia|]. rewrite Hr. cbn [mbind option_bind].
  destruct (zset_total buf d row') as [buf' Hb']; [lia|]. rewrite Hb'. cbn [mbind option_bind].
  pose proof (zlen_zset _ _ _ _ Hr) as Hlr. pose proof (zlen_zset _ _ _ _ Hb') as Hlb'.
  assert (Hh' : holds row' 0 (map Some (F2 ++ [x]))).
  { rewrite map_app. apply (holds_snoc_write row 0 _ _ _ Hh). by rewrite zlen_map, Z.add_0_l. }
  assert (HFx : bucket (pre ++ [x]) d = F1 ++ F2 ++ [x]).
  { rewrite bucket_snoc. fold d. rewrite Z.eqb_refl, HF. by rewrite <- app_assoc. }
  assert (Hroom : zlen F1 + zlen F2 + 1 ≤ zlen (bucket c d)).
  { pose proof (bucket_prefix_le (pre ++ [x]) post d ltac:(by rewrite <- app_assoc)) as Hle. rewrite HFx in Hle. autorewrite with zlen in Hle. lia. }
  destruct (Z.eqb_spec (zlen F2 + 1) SWC_N) as [He|He]; unfold SWC_N in *.
  - rewrite Hoff. cbn [mbind option_bind].
    destruct (scatter_flush_ok row' (F2 ++ [x]) (o d + zlen F1) out Hh') as (out' & Hfl & Hhf & Hag); [lia|autorewrite with zlen; lia|].
    replace (zlen (F2 ++ [x])) with 8 in Hfl, Hag by (autorewrite with zlen; lia).
    rewrite Hfl. cbn [mbind option_bind].
    destruct (zset_total off (base + d) (o d + zlen F1 + 8)) as [off' Hoff']; [destruct Hfo as [-> _]; lia|].
    rewrite Hoff'. cbn [mbind option_bind]. destruct (zset_total cnt d 0) as [cnt' Hc']; [lia|]. rewrite Hc'. cbn [mbind option_bind].
    eexists. split; [done|]. apply (swc_inv_step pre x post (Swc buf cnt off out) _ (o d + zlen F1) 8);
      cbn [swc_buf swc_cnt swc_off swc_out]; [done|done| |lia|by rewrite (zlen_zset _ _ _ _ Hc')| |by eapply agree_off_zset|done|fold d; lia|fold d; lia].
    + exists (F1 ++ F2 ++ [x]), [], row'. fold d. rewrite HFx, app_nil_r. cbn [swc_buf swc_cnt swc_off swc_out].
      rewrite (zget_zset_eq _ _ _ _ Hc'), (zget_zset_eq _ _ _ _ Hb'), (zget_zset_eq _ _ _ _ Hoff').
      repeat (split; [done || lia || apply holds_nil|]). split; [f_equal; autorewrite with zlen; lia|].
      apply holds_app; [|done]. eapply holds_agree; [done|done|lia].
    + intros b Hb. by rewrite (zget_zset_ne _ _ _ _ _ Hc'), (zget_zset_ne _ _ _ _ _ Hb') by done.
  - destruct (zset_total cnt d (zlen F2 + 1)) as [cnt' Hc']; [lia|]. rewrite Hc'. cbn [mbind option_bind].
    eexists. split; [done|]. apply (swc_inv_step pre x post (Swc buf cnt off out) _ (o d) 0);
      cbn [swc_buf swc_cnt swc_off swc_out]; [done|done| |lia|by rewrite (zlen_zset _ _ _ _ Hc')| |done|done|fold d; lia|fold d; lia].
    + exists F1, (F2 ++ [x]), row'. fold d. rewrite HFx. cbn [swc_buf swc_cnt swc_off swc_out].
      rewrite (zget_zset_eq _ _ _ _ Hc'), (zget_zset_eq _ _ _ _ Hb').
      repeat (split; [done || (autorewrite with zlen; lia) || (f_equal; autorewrite with zlen; lia)|]). done.
    + intros b Hb. by rewrite (zget_zset_ne _ _ _ _ _ Hc'), (zget_zset_ne _ _ _ _ _ Hb') by done.
Qed.

(** Flushing what is left completes one digit after the other. *)
Definition rest_inv (k : Z) (s : swc) : Prop :=
  zlen (swc_buf s) = 256 ∧ zlen (swc_cnt s) = 256 ∧ frame (swc_off s) (swc_out s) ∧
  (∀ b, 0 ≤ b < k → holds (swc_out s) (o b) (bucket c b)) ∧ (∀ b, k ≤ b < 256 → digit_inv c b s).

Lemma scatter_rest_ok k s :
  0 ≤ k < 256 → rest_inv k s → ∃ s', scatter_rest task k s = Some s' ∧ rest_inv (k + 1) s'.
Proof.
  intros Hk (Hlb & Hlc & Hframe & Hdone & Hinv). destruct s as [buf cnt off out].
  cbn [swc_buf swc_cnt swc_off swc_out] in *.
  destruct (Hinv k) as (F1 & F2 & row & HF & HF2 & Hcnt & Hbuf & Hrow & Hh & Hoff & Hout); [lia|].
  cbn [swc_buf swc_cnt swc_off swc_out] in *. unfold scatter_rest. fold base.
  rewrite Hoff. cbn [mbind option_bind]. rewrite Hcnt. cbn [mbind option_bind]. rewrite Hbuf. cbn [mbind option_bind].
  pose proof (zlen_nonneg F1). pose proof (zlen_nonneg F2). pose proof (Ho k Hk) as [Hod1 Hod2].
  assert (Hlen : zlen (bucket c k) = zlen F1 + zlen F2) by (rewrite HF; by autorewrite with zlen).
  destruct Hframe as (Hfo & Hlo & Hfi).
  destruct (scatter_flush_ok row F2 (o k + zlen F1) out Hh) as (out' & Hfl & Hhf & Hag); [lia|lia|].
  rewrite Hfl. cbn [mbind option_bind].
  destruct (zset_total off (base + k) (o k + zlen F1 + zlen F2)) as [off' Hoff']; [destruct Hfo as [-> _]; lia|].
  rewrite Hoff'. cbn [mbind option_bind]. eexists. split; [done|].
  unfold rest_inv. cbn [swc_buf swc_cnt swc_off swc_out]. split; [done|]. split; [done|]. split; [|split].
  - apply (frame_out off out out' off' k (o k + zlen F1) (zlen F2)); [done|done|lia|lia|done|by eapply agree_off_zset].
  - intros b Hb. destruct (decide (b = k)) as [->|Hne].
    + rewrite HF. apply holds_app; [|done]. eapply holds_agree; [done|done|lia].
    + eapply holds_agree; [apply Hdone; lia|done|]. pose proof (Hdisj b k ltac:(lia) Hk Hne). lia.
  - intros b Hb. apply (digit_inv_frame c c b k (o k + zlen F1) (zlen F2) (Swc buf cnt off out));
      cbn [swc_buf swc_cnt swc_off swc_out]; [lia|done|lia|done|apply Hinv; lia|done|done|done| |lia|lia|done].
    by rewrite (zget_zset_ne _ _ _ _ _ Hoff') by lia.
Qed.

(** The whole task: its regions are filled, nothing else is written. *)
Lemma scatter_task_ok :
  (∀ b, 0 ≤ b < 256 → off0.[base + b] = Some (o b)) →
  ∃ s, (s ← foldM scatter_x c (Swc (replicate 256 (replicate 8 None)) (replicate 256 0) off0 out0);
        foldM (scatter_rest task) (range 0 256) s) = Some s ∧
    frame (swc_off s) (swc_out s) ∧ ∀ b, 0 ≤ b < 256 → holds (swc_out s) (o b) (bucket c b).
Proof.
  intros Hoff.
  destruct (foldM_done scatter_x swc_inv c (Swc (replicate 256 (replicate 8 None)) (replicate 256 0) off0 out0))
    as (s1 & -> & Hs1).
  - split; [done|]. split; [done|]. split; [done|]. intros b Hb.
    exists [], [], (replicate 8 None). cbn [swc_buf swc_cnt swc_off swc_out]. rewrite !zget_nat by lia.
    rewrite !lookup_replicate_2 by lia. repeat (split; [done|]). split; [apply holds_nil|].
    rewrite <- zget_nat by lia. rewrite Hoff by done. split; [by rewrite Z.add_0_r|apply holds_nil].
  - intros pre x post s Hc Hs. by apply (scatter_x_ok pre x post).
  - cbn [mbind option_bind].
    destruct (foldM_range (scatter_rest task) rest_inv 0 256 s1) as (s2 & -> & _ & _ & Hf & Hall & _); [lia| | |by exists s2].
    + destruct Hs1 as (Hlb & Hlc & Hf & Hi). repeat (split; [done|]). split; [lia|done].
    + intros k s Hk Hs. by apply scatter_rest_ok.
Qed.
End task.
End scatter.
