(* ===== verification/SortLsd.v ===== *)
(** * Least significant digit first

    A pass computes [spread], whatever the tasks and their order; passes over
    the bytes from the lowest up sort by the low bytes of the key, and keep
    equal elements in their order. *)

From stdpp Require Import sorting.
From S2P Require Import Prelude Pool PoolProofs Rowsel RowselProofs Sort SortOrder SortRadix SortScatter.
Local Open Scope Z_scope.

Section pass.
Context `{Dispatcher} `{!DispatcherLaws} `{Workers} `{!WorkersLaws} `{Scratch}.
Context {A : Type} (key : A → Z).

Section tasks.
Context (shift : Z) (input : list A) (n T : Z) (Hn : n = zlen input) (HT : 1 ≤ T).
Notation C := (chunk input n T).
Notation start b t := (starts (block key shift input n T) (b * T + t)).

Definition tasks_inv (done : list Z) (st : list Z * list A) : Prop :=
  zlen (fst st) = T * 256 ∧ zlen (snd st) = n ∧
  (∀ t b, t ∈ done → 0 ≤ t < T → 0 ≤ b < 256 → holds (snd st) (start b t) (bucket key shift (C t) b)) ∧
  (∀ t b, t ∉ done → 0 ≤ t < T → 0 ≤ b < 256 → (fst st).[t * 256 + b] = Some (start b t)).

Lemma start_room b t : 0 ≤ b < 256 → 0 ≤ t < T → 0 ≤ start b t ∧ start b t + zlen (bucket key shift (C t) b) ≤ n.
Proof.
  intros Hb Ht. split; [apply starts_nonneg; nia|].
  rewrite <- (block_at key shift input n T HT b t) by done. rewrite <- starts_S by nia.
  pose proof (starts_mono (block key shift input n T) (b * T + t + 1) (256 * T) ltac:(nia)).
  pose proof (starts_end key shift input n T Hn HT). lia.
Qed.
Lemma start_disjoint b t b' t' :
  0 ≤ b < 256 → 0 ≤ t < T → 0 ≤ b' < 256 → 0 ≤ t' < T → (b, t) ≠ (b', t') →
  start b t + zlen (bucket key shift (C t) b) ≤ start b' t' ∨
  start b' t' + zlen (bucket key shift (C t') b') ≤ start b t.
Proof.
  intros Hb Ht Hb' Ht' Hne.
  rewrite <- (block_at key shift input n T HT b t), <- (block_at key shift input n T HT b' t') by done.
  apply starts_disjoint; [nia|nia|]. intros He. apply Hne. destruct (table_inj T b t b' t') as [-> ->]; done.
Qed.

Lemma scatter_step pre t st :
  0 ≤ t < T → t ∉ pre → tasks_inv pre st →
  ∃ st', scatter_fn key input n shift T t (t + 1) st = Some st' ∧ tasks_inv (pre ++ [t]) st'.
Proof.
  intros Ht Hnin (Hlo & Hlout & Hdone & Htodo). destruct st as [off out]. cbn [fst snd] in *. unfold scatter_fn.
  pose proof (chunk_holds input n T t Hn HT ltac:(lia)) as Hc.
  destruct (task_chunk n T t) as [lo hi] eqn:Htc. destruct Hc as [Hempty Hfull]. destruct (Z.leb_spec hi lo) as [Hle|Hlt].
  - exists (off, out). split; [done|]. split; [done|]. split; [done|]. split.
    + intros t' b [Hin|He%list_elem_of_singleton]%elem_of_app Ht' Hb; [by apply Hdone|].
      subst t'. rewrite (Hempty Hle). apply holds_nil.
    + intros t' b Hni. apply Htodo. set_solver.
  - destruct (Hfull Hlt) as (Hlo0 & Hlen & Hh). rewrite (range_shift lo hi), foldM_map, <- Hlen. cbn [fst snd].
    rewrite (foldM_ext _ (λ i s, x ← input.[lo + i]; scatter_x key shift t x s)) by (by intros i []).
    rewrite (holds_loop (scatter_x key shift t) _ _ _ _ Hh).
    destruct (scatter_task_ok key shift (C t) t (λ b, start b t) off out) as (s & Hrun & (Hoff & Hl & Hkeep) & Hall).
    + lia.
    + nia.
    + intros b Hb. rewrite Hlout. by apply start_room.
    + intros b b' Hb Hb' Hne. apply start_disjoint; [done|done|done|done|by intros [= ?]].
    + intros b Hb. by apply Htodo.
    + destruct (foldM (scatter_x key shift t) (C t) _) as [s1|]; [|done]. cbn [mbind option_bind] in Hrun |- *.
      rewrite Hrun. cbn [mbind option_bind]. clear Hrun. eexists. split; [done|]. destruct Hoff as [Hlo' Hoff].
      split; [cbn [fst]; lia|]. split; [cbn [snd]; lia|]. cbn [fst snd]. split.
      * intros t' b Hin Ht' Hb. destruct (decide (t' = t)) as [->|Hne]; [by apply Hall|].
        apply elem_of_app in Hin as [Hin|Hin%list_elem_of_singleton]; [|done].
        intros j Hj. rewrite Hkeep; [by apply Hdone|]. intros (b' & Hb' & Hi).
        destruct (start_disjoint b t' b' t); [done|done|done|done|by intros [= _ ?]|lia|lia].
      * intros t' b Hni Ht' Hb. rewrite Hoff; [apply Htodo; [set_solver|done|done]|].
        assert (t' ≠ t) by set_solver. lia.
Qed.

Lemma tasks_spread ts st : ts ≡ₚ range 0 T → tasks_inv ts st → snd st = spread key shift input.
Proof.
  intros Hts (_ & Hl & Hdone & _). rewrite <- (blocks_spread key shift input n T Hn HT).
  apply (chunks_whole _ _ (starts (block key shift input n T))).
  - nia.
  - done.
  - intros s Hs. apply starts_S. lia.
  - intros s Hs. set (b := s / T). set (t := s mod T).
    assert (Ht : 0 ≤ t < T) by (apply Z.mod_pos_bound; lia).
    assert (He : s = b * T + t) by (unfold b, t; pose proof (Z.div_mod s T); lia).
    assert (Hb : 0 ≤ b < 256) by nia. rewrite He, block_at by done.
    apply Hdone; [rewrite Hts; by apply elem_of_range|done|done].
  - by rewrite starts_end.
Qed.

Lemma chunks_prefix_le (f : Z → list A) t N :
  0 ≤ t < N → zlen (mjoin (map f (range 0 t))) + zlen (f t) ≤ zlen (mjoin (map f (range 0 N))).
Proof.
  intros Ht. rewrite <- (range_app 0 t N), (range_cons t N) by lia. rewrite map_app, join_app. cbn [map].
  rewrite mjoin_cons, !zlen_app. pose proof (zlen_nonneg (mjoin (map f (range (t + 1) N)))). lia.
Qed.
Lemma bucket_chunks b : mjoin (map (λ t, bucket key shift (C t) b) (range 0 T)) = bucket key shift input b.
Proof.
  rewrite <- (map_map C (λ l, bucket key shift l b)), <- bucket_mjoin. f_equal.
  exact (mjoin_chunks input n T Hn HT).
Qed.

Lemma uniform_ok hist :
  n < 2 ^ 32 → hist_all key shift input n T hist →
  ∃ u, uniform hist n T = Some u ∧
    (u = true → ∃ b, 0 ≤ b < 256 ∧ zlen (bucket key shift input b) = zlen input).
Proof.
  intros Hmax Hh. unfold uniform. assert (Hr : ∀ b, b ∈ range 0 256 → 0 ≤ b < 256) by (intros b; apply elem_of_range).
  revert Hr. generalize (range 0 256). intros bs. induction bs as [|b bs IH]; intros Hr; [by exists false|].
  cbn [uniform_from]. assert (Hb : 0 ≤ b < 256) by (apply Hr; by left).
  destruct (foldM_range (λ t total, c ← hist.[t * 256 + b]; Some (u32 (total + c)))
    (λ t total, total = zlen (mjoin (map (λ t, bucket key shift (C t) b) (range 0 t)))) 0 T 0) as (total & -> & ->); [lia|done| |].
  - intros t total Ht ->. rewrite Hh by lia. cbn [mbind option_bind]. eexists. split; [done|].
    rewrite (block_at key shift input n T HT b t) by done. rewrite range_snoc, map_app, join_app by lia. cbn [map].
    rewrite mjoin_cons, app_nil_r, zlen_app, wrap_id; [done|].
    pose proof (chunks_prefix_le (λ t, bucket key shift (C t) b) t T Ht) as Hle. rewrite bucket_chunks in Hle.
    pose proof (bucket_zlen key shift input b). split; [apply Z.add_nonneg_nonneg; apply zlen_nonneg|]. lia.
  - cbn [mbind option_bind]. rewrite bucket_chunks.
    destruct (Z.eqb_spec (zlen (bucket key shift input b)) (u32 n)) as [He|].
    + exists true. split; [done|]. intros _. exists b. split; [done|].
      rewrite wrap_id in He; [lia|]. split; [|done]. rewrite Hn. apply zlen_nonneg.
    + apply IH. intros b' Hb'. apply Hr. by right.
Qed.
End tasks.

(** ** All passes *)
Definition lsd_ref (n_bytes : Z) (l : list A) : list A :=
  foldl (λ l bp, spread key (bp * 8) l) l (range 0 n_bytes).

Lemma lsd_ref_S k l : 0 ≤ k → lsd_ref (k + 1) l = spread key (k * 8) (lsd_ref k l).
Proof. intros Hk. unfold lsd_ref. rewrite range_snoc by lia. by rewrite foldl_app. Qed.
Lemma lsd_ref_perm k l : 0 ≤ k → lsd_ref k l ≡ₚ l.
Proof.
  intros Hk. pattern k. apply natlike_ind; [done| |done]. clear k Hk. intros k Hk IH.
  unfold Z.succ. rewrite lsd_ref_S by done. by rewrite spread_perm.
Qed.

Definition lsd_inv (T n bp : Z) (l : list A) (s : lsd (A := A)) : Prop :=
  lsd_src s = lsd_ref bp l ∧ zlen (lsd_dst s) = n ∧ zlen (lsd_hist s) = T * 256 ∧ zlen (lsd_off s) = T * 256.

(** The two parallel phases of a pass. *)
Lemma hist_phase pool shift l n hist :
  let T := radix_n_tasks pool in
  n = zlen l → n < 2 ^ 32 → zlen hist = T * 256 →
  ∃ hist' u, run_pass pool T (radix_hist_fn key l n shift T) hist = Some hist' ∧ zlen hist' = T * 256 ∧
    hist_all key shift l n T hist' ∧ uniform hist' n T = Some u ∧
    (u = true → ∃ b, 0 ≤ b < 256 ∧ zlen (bucket key shift l b) = zlen l).
Proof.
  intros T Hn Hmax Hlh. destruct (radix_n_tasks_ok pool) as [HT _]. fold T in HT.
  destruct (run_pass_ok pool (radix_hist_fn key l n shift T) (hist_done key shift l n T) hist) as (hist' & ts & Hrun & Hts & Hd).
  { split; [done|]. intros t b Ht. by apply not_elem_of_nil in Ht. }
  { intros pre t h Ht Hnin Hpre. apply hist_step; [done|lia|done|done|done|done]. }
  pose proof (hist_done_all key shift l n T ltac:(lia) ts hist' Hts Hd) as Hall.
  destruct (uniform_ok shift l n T Hn ltac:(lia) hist' Hmax Hall) as (u & Hu & Hfull).
  exists hist', u. split; [exact Hrun|]. split; [apply Hd|]. done.
Qed.
Lemma scatter_phase pool shift l n off dst :
  let T := radix_n_tasks pool in
  n = zlen l → zlen dst = n → offsets_upto key shift l n T (256 * T) off →
  ∃ off', run_pass pool T (scatter_fn key l n shift T) (off, dst) = Some (off', spread key shift l) ∧ zlen off' = T * 256.
Proof.
  intros T Hn Hdst [Hlo Hoff]. destruct (radix_n_tasks_ok pool) as [HT _]. fold T in HT.
  destruct (run_pass_ok pool (scatter_fn key l n shift T) (tasks_inv shift l n T) (off, dst)) as ([off2 dst2] & ts & Hrun & Hts & Hinv).
  { split; [done|]. split; [done|]. split; [intros t b Ht; by apply not_elem_of_nil in Ht|].
    intros t b _ Ht Hb. apply Hoff; [done|lia|nia]. }
  { intros pre t st Ht Hnin Hpre. by apply scatter_step; [|lia|..]. }
  exists off2. pose proof (tasks_spread shift l n T Hn ltac:(lia) ts _ Hts Hinv) as Hs. cbn [snd] in Hs. subst dst2.
  split; [exact Hrun|apply Hinv].
Qed.

Lemma lsd_pass_ok pool l n bp s :
  n = zlen l → n < 2 ^ 32 → 0 ≤ bp < 8 → lsd_inv (radix_n_tasks pool) n bp l s →
  ∃ s', lsd_pass key pool n (radix_n_tasks pool) bp s = Some s' ∧ lsd_inv (radix_n_tasks pool) n (bp + 1) l s'.
Proof.
  intros Hn Hmax Hbp (Hsrc & Hdst & Hlh & Hlo). destruct (radix_n_tasks_ok pool) as [HT _].
  destruct s as [src dst hist off sw]. cbn [lsd_src lsd_dst lsd_hist lsd_off] in *.
  assert (Hns : n = zlen src). { unfold zlen in *. rewrite Hsrc, (Permutation_length (lsd_ref_perm bp l ltac:(lia))). done. }
  unfold lsd_pass. replace (u8 (bp * 8)) with (bp * 8) by (symmetry; apply wrap_id; unfold in_u; lia).
  destruct (hist_phase pool (bp * 8) src n hist) as (hist' & u & -> & Hlh' & Hall & Huu & Hu); [done|done|done|].
  cbn [mbind option_bind]. rewrite Huu. cbn [mbind option_bind]. destruct u.
  - eexists. split; [done|]. unfold lsd_inv. cbn [lsd_src lsd_dst lsd_hist lsd_off].
    destruct (Hu eq_refl) as (b & Hb & Hfull).
    by rewrite lsd_ref_S, <- Hsrc, (bucket_full key (bp * 8) src b Hb Hfull) by lia.
  - destruct (prefix_sum_ok key (bp * 8) src n (radix_n_tasks pool) (proj1 HT) hist' off Hall Hlo) as (off' & r & -> & Hoff).
    cbn [mbind option_bind].
    destruct (scatter_phase pool (bp * 8) src n off' dst) as (off2 & -> & Hlo2); [done|done|done|]. cbn [mbind option_bind].
    eexists. split; [done|]. unfold lsd_inv. cbn [lsd_src lsd_dst lsd_hist lsd_off]. by rewrite lsd_ref_S, <- Hsrc by lia.
Qed.

Lemma zlen_scratch n : zlen (scratch n) = Z.max 0 n.
Proof. unfold scratch. rewrite zlen_map, zlen_range. lia. Qed.
Lemma scratch_alloc_inv s size n l : scratch_alloc s size n = Some l → zlen l = Z.max 0 n.
Proof. unfold scratch_alloc. destruct (scratch_ok s _); [|done]. intros [= <-]. apply zlen_scratch. Qed.
Lemma new_hist_inv s1 s2 T hist off : 0 ≤ T → new_hist s1 s2 T = Some (hist, off) → zlen hist = T * 256 ∧ zlen off = T * 256.
Proof.
  intros HT. unfold new_hist. destruct (scratch_alloc s1 4 (T * 256)) as [h|] eqn:Hh; [|done].
  destruct (scratch_alloc s2 8 (T * 256)) as [o|] eqn:Ho; [|done]. cbn [mbind option_bind]. intros [= <- <-].
  apply scratch_alloc_inv in Hh, Ho. lia.
Qed.

(** The memory a radix run asks for. *)
Definition hist_granted (pool : bool) : Prop :=
  is_Some (new_hist S_hist S_offsets (radix_n_tasks pool)).

Theorem lsd_run_ok pool l tmp n n_bytes :
  n = zlen l → n < 2 ^ 32 → zlen tmp = n → 0 ≤ n_bytes ≤ 8 →
  ∃ r, lsd_run key pool l tmp n n_bytes = Some r ∧
    match r with
    | Some (src, dst, _) => src = lsd_ref n_bytes l ∧ zlen dst = n
    | None => ¬ hist_granted pool
    end.
Proof.
  intros Hn Hmax Htmp Hb. destruct (radix_n_tasks_ok pool) as [HT _]. unfold lsd_run, hist_granted.
  destruct (new_hist S_hist S_offsets (radix_n_tasks pool)) as [[hist off]|] eqn:Hh.
  - apply new_hist_inv in Hh as [Hlh Hlo]; [|lia].
    destruct (foldM_range (lsd_pass key pool n (radix_n_tasks pool)) (λ bp s, lsd_inv (radix_n_tasks pool) n bp l s)
      0 n_bytes (Lsd l tmp hist off false)) as (s & -> & Hs1 & Hs2 & _); [lia|done| |].
    + intros bp s Hbp Hs. apply lsd_pass_ok; [done|done|lia|done].
    + cbn [mbind option_bind]. by eexists.
  - exists None. split; [done|]. by intros [? ?].
Qed.

(** ** The order computed *)
Lemma digit_mod k z : 0 ≤ k → z mod 2 ^ (8 * (k + 1)) = digit (k * 8) z * 2 ^ (8 * k) + z mod 2 ^ (8 * k).
Proof.
  intros Hk. unfold digit. change 255 with (Z.ones 8). rewrite Z.land_ones, Z.shiftr_div_pow2 by lia.
  replace (8 * (k + 1)) with (8 * k + 8) by lia. rewrite Z.pow_add_r by lia.
  assert (0 < 2 ^ (8 * k)) by (apply Z.pow_pos_nonneg; lia).
  rewrite Z.rem_mul_r by lia. replace (k * 8) with (8 * k) by lia. lia.
Qed.

Lemma elem_of_mjoin_buckets shift l N x :
  x ∈ mjoin (map (bucket key shift l) (range 0 N)) → ∃ b, digit shift (key x) = b ∧ b < N.
Proof.
  rewrite list_elem_of_join. intros (k & Hx & Hk). apply list_elem_of_fmap in Hk as (b & -> & Hb).
  apply elem_of_range in Hb. exists b. split; [by apply (elem_of_bucket key shift l)|lia].
Qed.
Lemma StronglySorted_bucket R shift l b : StronglySorted R l → StronglySorted R (bucket key shift l b).
Proof.
  induction 1 as [|x l Hl IH Hx]; [constructor|]. rewrite bucket_cons. destruct (_ =? _); [|done].
  constructor; [done|]. rewrite Forall_forall in Hx |- *. intros y Hy. apply Hx. unfold bucket in Hy.
  rewrite list_elem_of_In, filter_In in Hy. apply list_elem_of_In, Hy.
Qed.

(** The low [k] bytes decide, then the order [O]. *)
Definition low_lt (k : Z) (O : A → A → Prop) (x y : A) : Prop :=
  key x mod 2 ^ (8 * k) < key y mod 2 ^ (8 * k) ∨ key x mod 2 ^ (8 * k) = key y mod 2 ^ (8 * k) ∧ O x y.

Lemma spread_sorted R shift l :
  StronglySorted R l →
  StronglySorted (λ x y, digit shift (key x) < digit shift (key y) ∨ digit shift (key x) = digit shift (key y) ∧ R x y) (spread key shift l).
Proof.
  intros Hl. unfold spread. remember (Z.to_nat 256) as m eqn:Hm. assert (H256 : 256 = Z.of_nat m) by lia. rewrite H256. clear Hm H256.
  induction m as [|m IH]; [constructor|]. rewrite Nat2Z.inj_succ. unfold Z.succ. rewrite range_snoc, map_app, join_app by lia. cbn [map].
  rewrite mjoin_cons, app_nil_r. apply StronglySorted_app. split; [|split; [done|]].
  - intros x y (b & Hx & Hb)%elem_of_mjoin_buckets Hy%elem_of_bucket. left. lia.
  - eapply StronglySorted_impl; [|by apply StronglySorted_bucket].
    intros x y Hx%elem_of_bucket Hy%elem_of_bucket HR. right. split; [lia|done].
Qed.

Theorem lsd_ref_sorted O k l : 0 ≤ k → StronglySorted O l → StronglySorted (low_lt k O) (lsd_ref k l).
Proof.
  intros Hk Hl. pattern k. apply natlike_ind; [| |done].
  - eapply StronglySorted_impl; [|exact Hl]. intros x y _ _ HO. right. by rewrite !Z.mod_1_r.
  - clear k Hk. intros k Hk IH. unfold Z.succ. rewrite lsd_ref_S by done.
    eapply StronglySorted_impl; [|by apply spread_sorted]. intros x y _ _ Hd. unfold low_lt.
    rewrite !digit_mod by done. pose proof (Z.mod_pos_bound (key x) (2 ^ (8 * k)) ltac:(apply Z.pow_pos_nonneg; lia)).
    pose proof (Z.mod_pos_bound (key y) (2 ^ (8 * k)) ltac:(apply Z.pow_pos_nonneg; lia)).
    pose proof (digit_range (k * 8) (key x)). pose proof (digit_range (k * 8) (key y)).
    destruct Hd as [Hd|[Hd [Hlt|[He HO]]]]; [left; nia|left; nia|right; split; [nia|done]].
Qed.
End pass.
