(* ===== verification/SortMsd.v ===== *)
(** * Most significant digit first, then buckets

    [ksort] is the sorted permutation of rows in their original order: every
    radix sort computes it when the keys agree above the bytes it looks at. *)

From stdpp Require Import sorting.
From S2P Require Import Prelude Pool PoolProofs Rowsel RowselProofs Sort SortOrder SortRadix SortScatter SortLsd.
Local Open Scope Z_scope.

Definition row_lt (x y : kv) : Prop := snd x < snd y.
Definition ksort (l : list kv) : list kv := default [] (key_introsort l).

Lemma ksort_spec l : key_introsort l = Some (ksort l) ∧ ksort l ≡ₚ l ∧ sorted_by key_lt (ksort l).
Proof. unfold ksort. by destruct (key_introsort_spec l) as (l' & -> & ? & ?). Qed.
Lemma ksort_zlen l : zlen (ksort l) = zlen l.
Proof. destruct (ksort_spec l) as (_ & Hp & _). unfold zlen. by rewrite (Permutation_length Hp). Qed.

Lemma row_lt_nodup l : StronglySorted row_lt l → NoDup (map snd l).
Proof.
  induction 1 as [|x l Hl IH Hx]; [constructor|]. cbn. apply NoDup_cons. split; [|done].
  intros Hin. apply list_elem_of_fmap in Hin as (y & He & Hy). rewrite Forall_forall in Hx. specialize (Hx y Hy). unfold row_lt in Hx. lia.
Qed.
Lemma ksort_strict l : NoDup (map snd l) → StronglySorted key_before (ksort l).
Proof.
  intros Hnd. destruct (ksort_spec l) as (_ & Hp & Hs). apply key_sorted_strict; [|done].
  by rewrite (Permutation_map snd Hp).
Qed.
(** What it takes to be [ksort l]. *)
Lemma ksort_unique l s : NoDup (map snd l) → s ≡ₚ l → StronglySorted key_before s → s = ksort l.
Proof.
  intros Hnd Hp Hs. apply (sorted_unique key_before); [apply key_before_asym| |done|by apply ksort_strict].
  destruct (ksort_spec l) as (_ & Hk & _). by rewrite Hp, Hk.
Qed.

(** The keys are the same above the low [k] bytes. *)
Definition agree_above (k : Z) (l : list kv) : Prop :=
  ∀ x y, x ∈ l → y ∈ l → fst x / 2 ^ (8 * k) = fst y / 2 ^ (8 * k).

Lemma agree_above_sub k l l' : (∀ x, x ∈ l' → x ∈ l) → agree_above k l → agree_above k l'.
Proof. intros Hin Ha x y Hx Hy. by apply Ha; apply Hin. Qed.

Lemma div_mod_lt k a b :
  0 ≤ k → a / 2 ^ k = b / 2 ^ k → (a mod 2 ^ k < b mod 2 ^ k ↔ a < b) ∧ (a mod 2 ^ k = b mod 2 ^ k ↔ a = b).
Proof.
  intros Hk He. assert (0 < 2 ^ k) by (apply Z.pow_pos_nonneg; lia).
  pose proof (Z.div_mod a (2 ^ k) ltac:(lia)). pose proof (Z.div_mod b (2 ^ k) ltac:(lia)). rewrite He in *. lia.
Qed.

Lemma low_sorted_ksort k l s :
  0 ≤ k → agree_above k l → StronglySorted row_lt l → s ≡ₚ l → StronglySorted (low_lt fst k row_lt) s → s = ksort l.
Proof.
  intros Hk Ha Hl Hp Hs. apply ksort_unique; [by apply row_lt_nodup|done|].
  eapply StronglySorted_impl; [|done]. intros x y Hx Hy Hlow. unfold key_before. rewrite key_lt_spec.
  rewrite Hp in Hx, Hy. destruct (div_mod_lt (8 * k) (fst x) (fst y)) as [Hlt Heq]; [lia|by apply Ha|].
  destruct Hlow as [Hlow|[Hlow Hrow]]; [left; by apply Hlt|right; split; [by apply Heq|exact Hrow]].
Qed.
Lemma lsd_ref_ksort k l : 0 ≤ k → agree_above k l → StronglySorted row_lt l → lsd_ref fst k l = ksort l.
Proof.
  intros Hk Ha Hl. apply (low_sorted_ksort k); [done|done|done|by apply lsd_ref_perm|by apply lsd_ref_sorted].
Qed.

(** ** Segments of arrays *)
Section segments.
Context {A : Type}.
Implicit Types (a l s : list A).

Lemma sub_array_holds a off l : holds a off l → 0 ≤ off → off + zlen l ≤ zlen a → sub_array a off (zlen l) = Some l.
Proof.
  intros Hh Hoff Hlen. pose proof (zlen_nonneg l). unfold sub_array.
  rewrite !(proj2 (Z.leb_le _ _)) by lia. cbn [andb]. f_equal. apply zlist_ext; [autorewrite with zlen; lia|].
  intros i Hi. autorewrite with zlen in Hi. rewrite zget_take by lia. rewrite <- Hh by lia.
  rewrite !zget_nat by lia. rewrite lookup_drop. f_equal. lia.
Qed.
Lemma sub_array_total a off cnt :
  0 ≤ off → 0 ≤ cnt → off + cnt ≤ zlen a → ∃ s, sub_array a off cnt = Some s ∧ zlen s = cnt ∧ holds a off s.
Proof.
  intros Hoff Hcnt Hlen. unfold sub_array. rewrite !(proj2 (Z.leb_le _ _)) by lia. cbn [andb].
  eexists. split; [done|]. split; [autorewrite with zlen; lia|]. intros i Hi. autorewrite with zlen in Hi.
  rewrite zget_take by lia. rewrite !zget_nat by lia. rewrite lookup_drop. f_equal. lia.
Qed.
Lemma put_back_spec a off s :
  0 ≤ off → off + zlen s ≤ zlen a → holds (put_back a off s) off s ∧ agree_off a (put_back a off s) off (zlen s).
Proof.
  intros Hoff Hlen. pose proof (zlen_nonneg s). unfold put_back.
  assert (Hl1 : zlen (take (Z.to_nat off) a) = off) by (autorewrite with zlen; lia). split; [|split].
  - intros j Hj. rewrite zget_app_r, Hl1 by lia. rewrite zget_app_l by lia. f_equal. lia.
  - autorewrite with zlen. lia.
  - intros i [Hi|Hi].
    + rewrite zget_app_l by lia. by rewrite zget_take by lia.
    + rewrite zget_app_r, Hl1 by lia. rewrite zget_app_r by lia. rewrite !zget_nat by lia. rewrite lookup_drop. f_equal. lia.
Qed.
End segments.

(** ** Counting sort of one bucket *)
Section bucket_pass.
Context (shift : Z) (l : list kv) (n : Z) (Hn : n = zlen l) (Hmax : n < 2 ^ 32).
Notation bkt := (bucket fst shift).
Notation start := (starts (bkt l)).

Lemma start_room_bkt b : 0 ≤ b < 256 → 0 ≤ start b ∧ start b + zlen (bkt l b) ≤ n.
Proof.
  intros Hb. split; [apply starts_nonneg; lia|]. rewrite <- starts_S by lia.
  rewrite Hn, <- (starts_buckets fst shift l). apply starts_mono. lia.
Qed.

Lemma loop_elems {S} (f : Z → S → option S) (g : kv → S → option S) s :
  (∀ i s, f i s = (x ← l.[i]; g x s)) → foldM f (range 0 n) s = foldM g l s.
Proof.
  intros Hf. rewrite (foldM_ext _ (λ i s, x ← l.[0 + i]; g x s)) by (intros i s' _; rewrite Z.add_0_l; apply Hf).
  rewrite Hn. by rewrite (holds_loop g l 0 l).
Qed.

Lemma bucket_hist :
  ∃ hist, foldM (λ i h, x ← l.[i]; let b := digit shift (fst x) in c ← h.[b]; zset h b (u32 (c + 1)))
            (range 0 n) (replicate 256 0) = Some hist ∧
    zlen hist = 256 ∧ ∀ b, 0 ≤ b < 256 → hist.[b] = Some (zlen (bkt l b)).
Proof.
  rewrite (loop_elems _ (λ x h, c ← h.[digit shift (fst x)]; zset h (digit shift (fst x)) (u32 (c + 1)))) by done.
  apply (foldM_done _ (λ pre h, zlen h = 256 ∧ ∀ b, 0 ≤ b < 256 → h.[b] = Some (zlen (bkt pre b)))).
  - split; [done|]. intros b Hb. rewrite zget_nat by lia. by rewrite lookup_replicate_2 by lia.
  - intros pre x post h Hl [Hlh Hh]. pose proof (digit_range shift (fst x)) as Hd. rewrite Hh by done. cbn [mbind option_bind].
    destruct (zset_total h (digit shift (fst x)) (u32 (zlen (bkt pre (digit shift (fst x))) + 1))) as [h' Hs]; [lia|].
    exists h'. split; [done|]. split; [by rewrite (zlen_zset _ _ _ _ Hs)|]. intros b Hb. rewrite bucket_snoc.
    destruct (Z.eqb_spec (digit shift (fst x)) b) as [<-|Hne]; [|by rewrite (zget_zset_ne _ _ _ _ _ Hs); [apply Hh|]].
    rewrite (zget_zset_eq _ _ _ _ Hs). f_equal. autorewrite with zlen. rewrite wrap_id; [lia|].
    pose proof (bucket_zlen fst shift pre (digit shift (fst x))). pose proof (zlen_nonneg (bkt pre (digit shift (fst x)))).
    rewrite Hl in Hn. autorewrite with zlen in Hn. pose proof (zlen_nonneg post). unfold in_u. lia.
Qed.

Lemma bucket_offsets hist :
  (∀ b, 0 ≤ b < 256 → hist.[b] = Some (zlen (bkt l b))) →
  ∃ off, foldM (λ b off, o ← off.[b - 1]; c ← hist.[b - 1]; zset off b (o + c)) (range 1 256) (replicate 256 0) = Some off ∧
    zlen off = 256 ∧ ∀ b, 0 ≤ b < 256 → off.[b] = Some (start b).
Proof.
  intros Hh. apply (foldM_range _ (λ i off, zlen off = 256 ∧ ∀ b, 0 ≤ b < i → off.[b] = Some (start b))); [lia| |].
  - split; [done|]. intros b Hb. by assert (b = 0) as -> by lia.
  - intros i off Hi [Hl Ho]. rewrite Ho by lia. cbn [mbind option_bind]. rewrite Hh by lia. cbn [mbind option_bind].
    destruct (zset_total off i (start (i - 1) + zlen (bkt l (i - 1)))) as [off' Hs]; [lia|]. exists off'.
    split; [done|]. split; [by rewrite (zlen_zset _ _ _ _ Hs)|]. intros b Hb. destruct (decide (b = i)) as [->|].
    + rewrite (zget_zset_eq _ _ _ _ Hs). rewrite <- starts_S by lia. do 2 f_equal. lia.
    + rewrite (zget_zset_ne _ _ _ _ _ Hs) by lia. apply Ho. lia.
Qed.

Lemma bucket_scatter off dst :
  zlen off = 256 → (∀ b, 0 ≤ b < 256 → off.[b] = Some (start b)) → zlen dst = n →
  ∃ off', foldM (λ i '(off, dst),
      x ← l.[i]; let byte := digit shift (fst x) in pos ← off.[byte];
      off ← zset off byte (pos + 1); dst ← zset dst pos x; Some (off, dst)) (range 0 n) (off, dst) =
    Some (off', spread fst shift l).
Proof.
  intros Hlo Ho Hld.
  rewrite (loop_elems _ (λ x '(off, dst), pos ← off.[digit shift (fst x)];
      off ← zset off (digit shift (fst x)) (pos + 1); dst ← zset dst pos x; Some (off, dst))) by (by intros i []).
  destruct (foldM_done (λ x '(off, dst), pos ← off.[digit shift (fst x)];
      off ← zset off (digit shift (fst x)) (pos + 1); dst ← zset dst pos x; Some (off, dst))
    (λ pre '(off, dst), zlen off = 256 ∧ zlen dst = n ∧
       ∀ b, 0 ≤ b < 256 → off.[b] = Some (start b + zlen (bkt pre b)) ∧ holds dst (start b) (bkt pre b)) l (off, dst))
    as ([off' dst'] & -> & _ & Hld' & Hall).
  - split; [done|]. split; [done|]. intros b Hb. split; [rewrite Ho by done; f_equal; change (zlen (bkt [] b)) with 0; lia|apply holds_nil].
  - intros pre x post [o d] Hl (Hlo' & Hld' & Hall). pose proof (digit_range shift (fst x)) as Hd. set (g := digit shift (fst x)) in *.
    destruct (Hall g Hd) as [Hog Hhg]. rewrite Hog. cbn [mbind option_bind].
    destruct (zset_total o g (start g + zlen (bkt pre g) + 1)) as [o' Hso]; [lia|]. rewrite Hso. cbn [mbind option_bind].
    assert (Hle : ∀ b, zlen (bkt pre b) + (if g =? b then 1 else 0) ≤ zlen (bkt l b)).
    { intros b. rewrite Hl. rewrite bucket_app, bucket_cons. fold g. autorewrite with zlen.
      pose proof (zlen_nonneg (bkt post b)). destruct (g =? b); autorewrite with zlen; lia. }
    pose proof (start_room_bkt g Hd). pose proof (zlen_nonneg (bkt pre g)). pose proof (Hle g) as Hleg. rewrite Z.eqb_refl in Hleg.
    destruct (zset_total d (start g + zlen (bkt pre g)) x) as [d' Hsd]; [lia|]. rewrite Hsd. cbn [mbind option_bind].
    eexists. split; [done|]. split; [by rewrite (zlen_zset _ _ _ _ Hso)|]. split; [by rewrite (zlen_zset _ _ _ _ Hsd)|].
    intros b Hb. destruct (Hall b Hb) as [Hob Hhb]. rewrite bucket_snoc. fold g. destruct (Z.eqb_spec g b) as [<-|Hne].
    + split; [rewrite (zget_zset_eq _ _ _ _ Hso); f_equal; autorewrite with zlen; lia|by eapply holds_snoc_write].
    + split; [by rewrite (zget_zset_ne _ _ _ _ _ Hso)|]. eapply holds_agree; [done|by eapply agree_off_zset|].
      pose proof (starts_disjoint (bkt l) g b ltac:(lia) ltac:(lia) Hne). specialize (Hle b). rewrite (proj2 (Z.eqb_neq _ _) Hne) in Hle. lia.
  - exists off'. do 2 f_equal. unfold spread. apply (chunks_whole _ _ start); [lia|done| | |].
    + intros s Hs. apply starts_S. lia.
    + intros s Hs. by apply Hall.
    + by rewrite Hld', starts_buckets.
Qed.
End bucket_pass.

(** [src] after the passes so far, and the other buffer. *)
Definition bucket_inv (n bp : Z) (l : list kv) (st : list kv * list kv * bool) : Prop :=
  st.1.1 = lsd_ref fst bp l ∧ zlen st.1.2 = n.

Lemma bucket_pass_ok l n bp st :
  n = zlen l → 0 < n < 2 ^ 32 → 0 ≤ bp < 8 → bucket_inv n bp l st →
  ∃ st', bucket_pass n bp st = Some st' ∧ bucket_inv n (bp + 1) l st'.
Proof.
  intros Hn Hmax Hbp [Hsrc Hdst]. destruct st as [[src dst] sw]. cbn [fst snd] in *.
  assert (Hns : n = zlen src). { unfold zlen in *. rewrite Hsrc, (Permutation_length (lsd_ref_perm fst bp l ltac:(lia))). done. }
  unfold bucket_pass. cbv zeta. replace (u8 (bp * 8)) with (bp * 8) by (symmetry; apply wrap_id; unfold in_u; lia).
  destruct (bucket_hist (bp * 8) src n Hns ltac:(lia)) as (hist & Hhist & Hlh & Hh). cbv zeta in Hhist. rewrite Hhist.
  cbn [mbind option_bind].
  destruct (existsb (λ c, c =? u32 n) hist) eqn:Hex.
  - eexists. split; [done|]. unfold bucket_inv. cbn [fst snd]. rewrite lsd_ref_S, <- Hsrc by lia. split; [|done].
    apply existsb_exists in Hex as (c & Hin & Hc). apply list_elem_of_In, elem_of_zget in Hin as (b & Hb & Hcb).
    rewrite Hh in Hcb by lia. injection Hcb as <-. apply Z.eqb_eq in Hc. rewrite wrap_id in Hc by (unfold in_u; lia).
    symmetry. apply (bucket_full fst (bp * 8) src b); [lia|lia].
  - destruct (bucket_offsets (bp * 8) src hist Hh) as (off & -> & Hlo & Ho). cbn [mbind option_bind].
    destruct (bucket_scatter (bp * 8) src n Hns off dst Hlo Ho Hdst) as (off' & Hsc). cbv zeta in Hsc. rewrite Hsc.
    cbn [mbind option_bind].
    eexists. split; [done|]. unfold bucket_inv. cbn [fst snd]. by rewrite lsd_ref_S, <- Hsrc by lia.
Qed.

(** Sorting by insertion or by passes: the same rows in the same order. *)
Lemma bucket_lsb_sort_ok l tmp n n_bytes :
  n = zlen l → n < 2 ^ 32 → zlen tmp = n → 0 ≤ n_bytes ≤ 8 → agree_above n_bytes l → StronglySorted row_lt l →
  ∃ other in_tmp, bucket_lsb_sort l tmp n n_bytes = Some (ksort l, other, in_tmp) ∧ zlen other = n.
Proof.
  intros Hn Hmax Htmp Hb Ha Hl. unfold bucket_lsb_sort. destruct (Z.leb_spec n 64).
  - destruct (ksort_spec l) as (-> & _). cbn [mbind option_bind]. by exists tmp, false.
  - destruct (foldM_range (bucket_pass n) (λ bp st, bucket_inv n bp l st) 0 n_bytes (l, tmp, false))
      as ([[s o] b] & -> & Hs & Ho); [lia|done| |].
    + intros bp st Hbp Hst. apply bucket_pass_ok; [done|lia|lia|done].
    + cbn [fst snd] in *. exists o, b. split; [|done]. rewrite Hs. rewrite lsd_ref_ksort; [done|lia|done|done].
Qed.

(** ** All the buckets, in any order *)
Section msd.
Context (shift : Z) (l : list kv) (n k : Z) (Hn : n = zlen l) (Hmax : n < 2 ^ 32) (Hk : 0 ≤ k ≤ 8)
  (bo : list Z).
Notation bkt := (bucket fst shift).
Notation start := (starts (bkt l)).
Context (Hbo : ∀ b, 0 ≤ b ≤ 256 → bo.[b] = Some (start b))
  (Hrows : StronglySorted row_lt l) (Hagree : ∀ b, 0 ≤ b < 256 → agree_above k (bkt l b)).

Definition msd_inv (done : list Z) (st : list kv * list kv) : Prop :=
  zlen st.1 = n ∧ zlen st.2 = n ∧
  (∀ b, b ∈ done → 0 ≤ b < 256 → holds st.1 (start b) (ksort (bkt l b))) ∧
  (∀ b, b ∉ done → 0 ≤ b < 256 → holds st.1 (start b) (bkt l b)).

Lemma ksort_short (l' : list kv) : zlen l' ≤ 1 → ksort l' = l'.
Proof. intros Hl. unfold ksort, key_introsort. by rewrite (proj2 (Z.leb_le _ _)) by lia. Qed.

Lemma msd_inv_step pre b data data' tmp' :
  0 ≤ b < 256 → b ∉ pre → msd_inv pre data → zlen tmp' = n →
  agree_off (fst data) data' (start b) (zlen (bkt l b)) → holds data' (start b) (ksort (bkt l b)) →
  msd_inv (pre ++ [b]) (data', tmp').
Proof.
  intros Hb Hnin (Hld & _ & Hdone & Htodo) Hlt Hag Hnew. split; [destruct Hag; cbn [fst]; lia|]. split; [done|]. cbn [fst].
  assert (Hother : ∀ b' f, 0 ≤ b' < 256 → b' ≠ b → zlen f = zlen (bkt l b') → holds (fst data) (start b') f → holds data' (start b') f).
  { intros b' f Hb' Hne Hf Hh. eapply holds_agree; [done|done|]. rewrite Hf.
    pose proof (starts_disjoint (bkt l) b' b ltac:(lia) ltac:(lia) Hne). lia. }
  split.
  - intros b' Hin Hb'. destruct (decide (b' = b)) as [->|Hne]; [done|].
    apply Hother; [done|done|by apply ksort_zlen|]. apply Hdone; [|done]. set_solver.
  - intros b' Hni Hb'. apply Hother; [done|set_solver|done|]. apply Htodo; [set_solver|done].
Qed.

Lemma msd_bucket_ok pre b st :
  0 ≤ b < 256 → b ∉ pre → msd_inv pre st →
  ∃ st', msd_bucket bo k b st = Some st' ∧ msd_inv (pre ++ [b]) st'.
Proof.
  intros Hb Hnin Hinv. pose proof Hinv as (Hld & Hlt & _ & Htodo). destruct st as [data tmp]. cbn [fst snd] in *.
  unfold msd_bucket. rewrite !Hbo by lia. cbn [mbind option_bind]. rewrite starts_S by lia.
  replace (start b + zlen (bkt l b) - start b) with (zlen (bkt l b)) by lia.
  pose proof (start_room_bkt shift l n Hn b Hb) as [Hs1 Hs2]. pose proof (zlen_nonneg (bkt l b)).
  specialize (Htodo b Hnin Hb). destruct (Z.leb_spec (zlen (bkt l b)) 1) as [Hshort|Hlong].
  - exists (data, tmp). split; [done|]. apply (msd_inv_step pre b (data, tmp)); [done|done|done|done|done|].
    by rewrite ksort_short.
  - rewrite (sub_array_holds data (start b) (bkt l b) Htodo) by lia. cbn [mbind option_bind].
    destruct (sub_array_total tmp (start b) (zlen (bkt l b))) as (t & -> & Ht & _); [lia|lia|lia|]. cbn [mbind option_bind].
    destruct (bucket_lsb_sort_ok (bkt l b) t (zlen (bkt l b)) k) as (o & it & -> & Hlo); [done|lia|done|done|by apply Hagree| |].
    { by apply StronglySorted_bucket. }
    cbn [mbind option_bind]. pose proof (ksort_zlen (bkt l b)) as Hlk. eexists. split; [done|].
    destruct (put_back_spec data (start b) (ksort (bkt l b))) as [Hh Hag]; [lia|lia|]. rewrite Hlk in Hag.
    apply (msd_inv_step pre b (data, tmp)); [done|done|done| |done|done].
    set (t' := if it then ksort (bkt l b) else o). assert (zlen t' = zlen (bkt l b)) by (unfold t'; destruct it; lia).
    destruct (put_back_spec tmp (start b) t') as [_ [-> _]]; [lia|lia|done].
Qed.

Lemma msd_inv_done ds st :
  ds ≡ₚ range 0 256 → msd_inv ds st → st.1 = mjoin (map (λ b, ksort (bkt l b)) (range 0 256)).
Proof.
  intros Hds (Hld & _ & Hdone & _). apply (chunks_whole _ _ start); [lia|done| | |].
  - intros b Hb. rewrite ksort_zlen. apply starts_S. lia.
  - intros b Hb. apply Hdone; [|done]. rewrite Hds. by apply elem_of_range.
  - by rewrite Hld, starts_buckets.
Qed.
End msd.

Lemma holds_mjoin {A} (g : Z → list A) N b : 0 ≤ b < N → holds (mjoin (map g (range 0 N))) (starts g b) (g b).
Proof.
  intros Hb j Hj. rewrite <- (range_app 0 b N), (range_cons b N) by lia. rewrite map_app, join_app. cbn [map].
  rewrite mjoin_cons, zget_app_r, <- starts_total by (rewrite <- starts_total; lia).
  rewrite zget_app_l by lia. f_equal. lia.
Qed.

Lemma agree_above_digit k l :
  0 ≤ k → agree_above (k + 1) l → (∀ x y, x ∈ l → y ∈ l → digit (k * 8) (fst x) = digit (k * 8) (fst y)) → agree_above k l.
Proof.
  intros Hk Ha Hd x y Hx Hy. assert (Hsplit : ∀ z, z / 2 ^ (8 * k) = z / 2 ^ (8 * (k + 1)) * 256 + digit (k * 8) z).
  { intros z. unfold digit. change 255 with (Z.ones 8). rewrite Z.land_ones, Z.shiftr_div_pow2 by lia.
    replace (8 * (k + 1)) with (8 * k + 8) by lia. rewrite Z.pow_add_r by lia.
    assert (0 < 2 ^ (8 * k)) by (apply Z.pow_pos_nonneg; lia). rewrite <- Z.div_div by lia.
    replace (k * 8) with (8 * k) by lia. change (2 ^ 8) with 256. pose proof (Z.div_mod (z / 2 ^ (8 * k)) 256). lia. }
  rewrite !Hsplit. by rewrite (Ha x y Hx Hy), (Hd x y Hx Hy).
Qed.

Lemma bucket_all_digit (l : list kv) shift b :
  zlen (bucket fst shift l b) = zlen l → ∀ x, x ∈ l → digit shift (fst x) = b.
Proof. intros Hf x Hx. apply Z.eqb_eq. by apply (filter_full (λ x, digit shift (fst x) =? b) l). Qed.

Lemma buckets_perm (l : list kv) shift ds :
  mjoin (map (λ b, ksort (bucket fst shift l b)) ds) ≡ₚ mjoin (map (bucket fst shift l) ds).
Proof.
  induction ds as [|d ds IH]; [done|]. cbn [map]. rewrite !mjoin_cons, IH.
  destruct (ksort_spec (bucket fst shift l d)) as (_ & Hp & _). by rewrite Hp.
Qed.

(** Sorted buckets in the order of the top byte are sorted as a whole. *)
Lemma buckets_ksort k (l : list kv) :
  0 ≤ k → agree_above (k + 1) l → StronglySorted row_lt l →
  mjoin (map (λ b, ksort (bucket fst (k * 8) l b)) (range 0 256)) = ksort l.
Proof.
  intros Hk Ha Hl. apply ksort_unique; [by apply row_lt_nodup| |].
  { rewrite buckets_perm. apply spread_perm. }
  remember (Z.to_nat 256) as m eqn:Hm. assert (H256 : 256 = Z.of_nat m) by lia. rewrite H256. clear Hm H256.
  induction m as [|m IH]; [constructor|]. rewrite Nat2Z.inj_succ. unfold Z.succ. rewrite range_snoc, map_app, join_app by lia. cbn [map].
  rewrite mjoin_cons, app_nil_r. apply StronglySorted_app. split; [|split; [done|]].
  - intros x y Hx Hy. rewrite buckets_perm in Hx. destruct (ksort_spec (bucket fst (k * 8) l (Z.of_nat m))) as (_ & Hp & _).
    rewrite Hp in Hy. pose proof Hx as (b & Hxd & Hb)%elem_of_mjoin_buckets. pose proof Hy as Hyd%elem_of_bucket.
    assert (Hin : ∀ (z : kv) b, z ∈ bucket fst (k * 8) l b → z ∈ l).
    { intros z b'. unfold bucket. rewrite !list_elem_of_In, filter_In. by intros [? _]. }
    rewrite list_elem_of_join in Hx. destruct Hx as (lb & Hx & (b' & -> & _)%list_elem_of_fmap).
    unfold key_before. rewrite key_lt_spec. left.
    destruct (div_mod_lt (8 * (k + 1)) (fst x) (fst y)) as [Hlt _]; [lia|apply Ha; by eapply Hin|]. apply Hlt.
    rewrite !digit_mod by lia. assert (0 < 2 ^ (8 * k)) by (apply Z.pow_pos_nonneg; lia).
    pose proof (Z.mod_pos_bound (fst x) (2 ^ (8 * k))). pose proof (Z.mod_pos_bound (fst y) (2 ^ (8 * k))). nia.
  - apply ksort_strict, row_lt_nodup. by apply StronglySorted_bucket.
Qed.

Section run.
Context `{Dispatcher} `{!DispatcherLaws} `{Workers} `{!WorkersLaws} `{Scratch}.

Lemma starts_block_row (l : list kv) shift n T b :
  n = zlen l → 1 ≤ T → 0 ≤ b ≤ 256 → starts (block fst shift l n T) (b * T) = starts (bucket fst shift l) b.
Proof.
  intros Hn HT Hb. rewrite !starts_total. f_equal.
  rewrite (mjoin_table (λ b t, bucket fst shift (chunk l n T t) b)) by (lia || (intros; by apply block_at)).
  f_equal. apply map_ext. intros b'. by apply bucket_chunks.
Qed.

Lemma msd_prefix_sum_ok (l : list kv) shift n T hist offsets :
  n = zlen l → 1 ≤ T → hist_all fst shift l n T hist → zlen offsets = T * 256 →
  ∃ offsets' bo, msd_prefix_sum hist offsets T = Some (offsets', bo) ∧ offsets_upto fst shift l n T (256 * T) offsets' ∧
    ∀ b, 0 ≤ b ≤ 256 → bo.[b] = Some (starts (bucket fst shift l) b).
Proof.
  intros Hn HT Hh Hlo. unfold msd_prefix_sum.
  destruct (foldM_range (λ b '(offsets, bo, running),
      bo ← zset bo b running;
      '(offsets, running) ← foldM (λ t '(offsets, running),
                              offsets ← zset offsets (t * 256 + b) running; c ← hist.[t * 256 + b];
                              Some (offsets, running + c)) (range 0 T) (offsets, running);
      Some (offsets, bo, running))
    (λ b '(off, bo, r), r = starts (block fst shift l n T) (b * T) ∧ offsets_upto fst shift l n T (b * T) off ∧
       zlen bo = 257 ∧ ∀ b', 0 ≤ b' < b → bo.[b'] = Some (starts (bucket fst shift l) b')) 0 256 (offsets, replicate 257 0, 0))
    as ([[off bo] r] & -> & -> & Ho & Hlb & Hbo).
  - lia.
  - split; [done|]. split; [split; [done|intros; nia]|]. split; [done|intros; lia].
  - intros b [[off bo] r] Hb (-> & Ho & Hlb & Hbo).
    destruct (zset_total bo b (starts (block fst shift l n T) (b * T))) as [bo' Hs]; [lia|]. rewrite Hs. cbn [mbind option_bind].
    destruct (prefix_inner fst shift l n T HT hist b off Hh Hb Ho) as (off' & -> & Ho'). cbn [mbind option_bind].
    eexists. split; [done|]. split; [done|]. split; [done|]. split; [by rewrite (zlen_zset _ _ _ _ Hs)|].
    intros b' Hb'. destruct (decide (b' = b)) as [->|].
    + rewrite (zget_zset_eq _ _ _ _ Hs). f_equal. apply starts_block_row; [done|done|lia].
    + rewrite (zget_zset_ne _ _ _ _ _ Hs) by lia. apply Hbo. lia.
  - cbn [mbind option_bind]. destruct (zset_total bo 256 (starts (block fst shift l n T) (256 * T))) as [bo' Hs]; [lia|].
    rewrite Hs. cbn [mbind option_bind]. exists off, bo'. split; [done|]. split; [done|].
    intros b Hb. destruct (decide (b = 256)) as [->|].
    + rewrite (zget_zset_eq _ _ _ _ Hs). f_equal. by apply starts_block_row.
    + rewrite (zget_zset_ne _ _ _ _ _ Hs) by lia. apply Hbo. lia.
Qed.

(** The buckets are sorted, on the pool or not. *)
Lemma msd_buckets_ok (pool : bool) (l : list kv) k bo tmp :
  zlen l < 2 ^ 32 → 0 ≤ k < 8 → (∀ b, 0 ≤ b ≤ 256 → bo.[b] = Some (starts (bucket fst (k * 8) l) b)) →
  StronglySorted row_lt l → agree_above (k + 1) l → zlen tmp = zlen l →
  ∃ tmp', (if pool then ray_pool_dispatch_n (msd_bucket_sort_fn bo k) 256 (spread fst (k * 8) l, tmp)
           else msd_bucket_sort_fn bo k 0 256 (spread fst (k * 8) l, tmp)) = Some (ksort l, tmp').
Proof.
  intros Hmax Hk Hbo Hl Ha Htmp.
  assert (Hab : ∀ b, 0 ≤ b < 256 → agree_above k (bucket fst (k * 8) l b)).
  { intros b Hb. apply agree_above_digit; [lia| |].
    - eapply agree_above_sub; [|exact Ha]. intros x. unfold bucket. rewrite !list_elem_of_In, filter_In. by intros [? _].
    - intros x y ->%elem_of_bucket ->%elem_of_bucket. done. }
  assert (∃ ds st, ds ≡ₚ range 0 256 ∧ foldM (msd_bucket bo k) ds (spread fst (k * 8) l, tmp) = Some st ∧
    (if pool then ray_pool_dispatch_n (msd_bucket_sort_fn bo k) 256 (spread fst (k * 8) l, tmp)
     else msd_bucket_sort_fn bo k 0 256 (spread fst (k * 8) l, tmp)) = Some st ∧ msd_inv (k * 8) l (zlen l) ds st)
    as (ds & st & Hds & _ & Hrun & Hinv).
  { pose proof ring_cap_buckets. assert (∃ ds, ds ≡ₚ range 0 256 ∧
      (if pool then ray_pool_dispatch_n (msd_bucket_sort_fn bo k) 256 (spread fst (k * 8) l, tmp)
       else msd_bucket_sort_fn bo k 0 256 (spread fst (k * 8) l, tmp)) = foldM (msd_bucket bo k) ds (spread fst (k * 8) l, tmp)) as (ds & Hds & Heq).
    { destruct pool; [|by exists (range 0 256)].
      destruct (dispatch_n_order (msd_bucket_sort_fn bo k) 256 (spread fst (k * 8) l, tmp)) as (ds & Hds & ->); [lia|].
      exists ds. split; [done|]. apply foldM_ext. intros b st _. unfold msd_bucket_sort_fn.
      rewrite range_cons, range_empty by lia. cbn. by destruct (msd_bucket bo k b st). }
    destruct (foldM_done (msd_bucket bo k) (msd_inv (k * 8) l (zlen l)) ds (spread fst (k * 8) l, tmp)) as (st & Hst & Hinv).
    - split; [apply spread_zlen|]. split; [done|]. split; [intros b Hb; by apply not_elem_of_nil in Hb|].
      intros b _ Hb. cbn [fst]. by apply holds_mjoin.
    - intros pre b post st Hdsb Hst.
      assert (Hb : b ∈ range 0 256) by (rewrite <- Hds, Hdsb; set_solver). apply elem_of_range in Hb.
      assert (Hnd : NoDup ds) by (rewrite Hds; apply NoDup_range). rewrite Hdsb in Hnd.
      apply NoDup_app in Hnd as (_ & Hd & _).
      apply msd_bucket_ok; [done|done|lia|done|done|done|done| |done]. intros Hin. apply (Hd b Hin). by left.
    - exists ds, st. by rewrite Heq. }
  destruct st as [s t]. exists t. rewrite Hrun. apply msd_inv_done in Hinv; [|done|done]. cbn [fst] in Hinv.
  rewrite Hinv, buckets_ksort; [done|lia|done|done].
Qed.

Definition sorts (pool : bool) (l : list kv) (r : option (list kv * list kv * bool)) : Prop :=
  match r with Some (s, _, _) => s = ksort l | None => ¬ hist_granted pool end.

Lemma radix_sort_run_ok pool l tmp n n_bytes :
  n = zlen l → n < 2 ^ 32 → zlen tmp = n → 0 ≤ n_bytes ≤ 8 → agree_above n_bytes l → StronglySorted row_lt l →
  ∃ r, radix_sort_run pool l tmp n n_bytes = Some r ∧ sorts pool l r.
Proof.
  intros Hn Hmax Htmp Hb Ha Hl. destruct (lsd_run_ok fst pool l tmp n n_bytes) as (r & Hr & Hres); [done..|].
  exists r. split; [exact Hr|]. destruct r as [[[s d] sw]|]; [|done]. destruct Hres as [-> _].
  apply lsd_ref_ksort; [lia|done|done].
Qed.

Lemma msd_radix_sort_run_ok pool l tmp n n_bytes :
  n = zlen l → n < 2 ^ 32 → zlen tmp = n → (n_bytes ≤ 8)%nat → agree_above (Z.of_nat n_bytes) l → StronglySorted row_lt l →
  ∃ r, msd_radix_sort_run pool l tmp n n_bytes = Some r ∧ sorts pool l r.
Proof.
  intros Hn Hmax Htmp Hb Ha Hl. induction n_bytes as [|m IH]; cbn [msd_radix_sort_run].
  { by apply radix_sort_run_ok. }
  destruct ((S m <=? 5)%nat || (n <=? 1000000)) eqn:Hsmall.
  { apply radix_sort_run_ok; [done|done|done|lia|done|done]. }
  destruct (new_hist (S_msd_hist (S m)) (S_msd_offsets (S m)) (radix_n_tasks pool)) as [[hist off]|] eqn:Hh.
  2:{ apply radix_sort_run_ok; [done|done|done|lia|done|done]. }
  destruct (radix_n_tasks_ok pool) as [HT _]. set (T := radix_n_tasks pool) in *.
  apply new_hist_inv in Hh as [Hlh Hlo]; [|lia]. rewrite Nat2Z.inj_succ in Ha. unfold Z.succ in Ha. set (k := Z.of_nat m) in *.
  replace (u8 (k * 8)) with (k * 8) by (symmetry; apply wrap_id; unfold in_u; lia).
  destruct (hist_phase fst pool (k * 8) l n hist) as (hist' & u & Hrun & _ & Hall & Huu & Hu); [done|done|done|].
  fold T in Hrun, Hall, Huu. rewrite Hrun. cbn [mbind option_bind]. rewrite Huu. cbn [mbind option_bind]. destruct u.
  - destruct (Hu eq_refl) as (b & _ & Hfull). apply IH; [lia|]. apply agree_above_digit; [lia|done|].
    intros x y Hx Hy. by rewrite !(bucket_all_digit l (k * 8) b Hfull).
  - destruct (msd_prefix_sum_ok l (k * 8) n T hist' off Hn ltac:(lia) Hall Hlo) as (off' & bo & -> & Hoff & Hbo).
    cbn [mbind option_bind]. unfold radix_scatter_fn.
    destruct (scatter_phase fst pool (k * 8) l n off' tmp) as (off2 & Hsc & _); [done|done|done|].
    fold T in Hsc. rewrite Hsc. cbn [mbind option_bind].
    destruct (msd_buckets_ok pool l k bo l) as (tmp' & ->); [lia|lia|done|done|done|done|].
    cbn [mbind option_bind]. by eexists.
Qed.
End run.
