(* ===== verification/SortMerge.v ===== *)
(** * The merge sort of row numbers

    Sorted runs, of the size of a chunk first, are merged in pairs until one is
    left. [csort] is the stable sort of rows that were in increasing order. *)

From stdpp Require Import sorting.
From S2P Require Import Prelude Pool PoolProofs Rowsel RowselProofs Sort SortOrder SortRadix SortScatter SortLsd SortMsd.
Local Open Scope Z_scope.

Section merge.
Context (cmp : Z → Z → Z).
Notation lt := (λ x y, 0 <? cmp y x).
Context `{!WeakOrder lt}.

(** Rows ordered by the comparator, then by number. *)
Definition before (x y : Z) : Prop := stable_lt lt Z.lt x y.

Lemma before_asym x y : before x y → ¬ before y x.
Proof.
  intros [Hxy|[Hyx Hlt]] Hc.
  - apply stable_lt_le in Hc; [|done]. congruence.
  - destruct Hc as [Hc|[_ Hc]]; [congruence|lia].
Qed.
Lemma before_trans x y z : before x y → before y z → before x z.
Proof.
  intros Hxy Hyz. pose proof (stable_lt_le lt _ _ _ Hxy) as Hle1. pose proof (stable_lt_le lt _ _ _ Hyz) as Hle2.
  destruct Hxy as [Hxy|[_ Hr1]]; [left; by apply (lt_le_trans lt x y z)|].
  destruct Hyz as [Hyz|[_ Hr2]]; [left; by apply (le_lt_trans lt x y z)|].
  right. split; [exact (le_trans (lt := lt) x y z Hle1 Hle2)|lia].
Qed.

Definition csort (l : list Z) : list Z := default [] (sort_insertion cmp l (zlen l)).

Lemma csort_spec l :
  StronglySorted Z.lt l → sort_insertion cmp l (zlen l) = Some (csort l) ∧ csort l ≡ₚ l ∧ StronglySorted before (csort l).
Proof.
  intros Hl. unfold csort, sort_insertion.
  by destruct (insertion_sort_spec lt Z.lt l (zlen l)) as (l' & -> & ? & ?).
Qed.
Lemma csort_unique l s : StronglySorted Z.lt l → s ≡ₚ l → StronglySorted before s → s = csort l.
Proof.
  intros Hl Hp Hs. destruct (csort_spec l Hl) as (_ & Hp' & Hs').
  apply (sorted_unique before); [apply before_asym|by rewrite Hp, Hp'|done|done].
Qed.
Lemma csort_zlen l : StronglySorted Z.lt l → zlen (csort l) = zlen l.
Proof. intros Hl. destruct (csort_spec l Hl) as (_ & Hp & _). unfold zlen. by rewrite (Permutation_length Hp). Qed.

(** ** Merging two runs *)
Fixpoint merge_ref (l1 : list Z) : list Z → list Z :=
  fix go l2 :=
    match l1, l2 with
    | [], _ => l2
    | _, [] => l1
    | x :: l1', y :: l2' => if cmp x y <=? 0 then x :: merge_ref l1' l2 else y :: go l2'
    end.

Lemma merge_ref_perm l1 l2 : merge_ref l1 l2 ≡ₚ l1 ++ l2.
Proof.
  revert l2. induction l1 as [|x l1 IH1]; intros l2; [by destruct l2|].
  induction l2 as [|y l2 IH2]; [by rewrite app_nil_r|]. cbn. destruct (cmp x y <=? 0).
  - by rewrite IH1.
  - rewrite IH2. by rewrite (Permutation_middle (x :: l1)).
Qed.
Lemma merge_ref_sorted l1 l2 :
  StronglySorted before l1 → StronglySorted before l2 → (∀ x y, x ∈ l1 → y ∈ l2 → x < y) →
  StronglySorted before (merge_ref l1 l2).
Proof.
  revert l2. induction l1 as [|x l1 IH1]; intros l2 Hs1 Hs2 Hlt; [by destruct l2|].
  induction l2 as [|y l2 IH2]; [done|]. cbn. apply StronglySorted_cons in Hs1 as [Hx Hs1]. apply StronglySorted_cons in Hs2 as [Hy Hs2].
  rewrite Forall_forall in Hx, Hy. destruct (Z.leb_spec (cmp x y) 0) as [Hle|Hgt].
  - apply StronglySorted_cons. split; [|apply IH1; [done|by apply StronglySorted_cons; rewrite Forall_forall|set_solver]].
    apply Forall_forall. intros z Hz. rewrite merge_ref_perm in Hz. apply elem_of_app in Hz as [Hz|Hz]; [by apply Hx|].
    assert (Hxy : before x y). { right. split; [by apply Z.ltb_ge|]. apply Hlt; by left. }
    apply elem_of_cons in Hz as [->|Hz]; [done|]. apply (before_trans x y z); [done|by apply Hy].
  - apply StronglySorted_cons. split; [|apply IH2; [done|set_solver]].
    apply Forall_forall. intros z Hz. change ((fix go l2 := match l2 with [] => x :: l1 | y :: l2' => if cmp x y <=? 0 then x :: merge_ref l1 l2 else y :: go l2' end) l2) with (merge_ref (x :: l1) l2) in Hz.
    rewrite merge_ref_perm in Hz. apply elem_of_app in Hz as [Hz|Hz]; [|by apply Hy].
    assert (Hyx : before y x) by (left; by apply Z.ltb_lt).
    apply elem_of_cons in Hz as [->|Hz]; [done|]. apply (before_trans y x z); [done|by apply Hx].
Qed.

Lemma copy_loop (src dst : list Z) i hi k :
  0 ≤ i → i ≤ hi → hi ≤ zlen src → 0 ≤ k → k + (hi - i) ≤ zlen dst →
  ∃ dst', foldM (λ i '(dst, k), x ← src.[i]; dst ← zset dst k x; Some (dst, k + 1)) (range i hi) (dst, k) =
      Some (dst', k + (hi - i)) ∧
    agree_off dst dst' k (hi - i) ∧ ∀ l, zlen l = hi - i → holds src i l → holds dst' k l.
Proof.
  intros Hi Hle Hsrc Hk Hdst.
  destruct (foldM_range (λ i '(dst, k), x ← src.[i]; dst ← zset dst k x; Some (dst, k + 1))
    (λ j '(d, k'), k' = k + (j - i) ∧ agree_off dst d k (j - i) ∧ ∀ m, i ≤ m < j → d.[k + (m - i)] = src.[m]) i hi (dst, k))
    as ([d k'] & -> & -> & Hag & Hd); [done| | |].
  - split; [lia|]. split; [done|]. intros. lia.
  - intros j [d k'] Hj (-> & Hag & Hd). destruct (zget_is_Some src j) as [x Hx]; [lia|]. rewrite Hx. cbn [mbind option_bind].
    destruct (zset_total d (k + (j - i)) x) as [d' Hs]; [destruct Hag as [-> _]; lia|]. rewrite Hs. cbn [mbind option_bind].
    eexists. split; [done|]. split; [lia|]. split.
    + eapply agree_off_trans; [eapply agree_off_mono; [done|lia|lia]|]. eapply agree_off_mono; [by eapply agree_off_zset|lia|lia].
    + intros m Hm. destruct (decide (m = j)) as [->|]; [rewrite (zget_zset_eq _ _ _ _ Hs); congruence|].
      rewrite (zget_zset_ne _ _ _ _ _ Hs) by lia. apply Hd. lia.
  - exists d. split; [done|]. split; [done|]. intros l Hl Hh j Hj. rewrite <- Hh by done. rewrite <- Hd by lia. f_equal. lia.
Qed.

(** One run is used up: the other is copied. *)
Lemma merge_loop_end fuel src dst i mid j hi k l1 l2 :
  (l1 = [] ∨ l2 = []) →
  0 ≤ i → mid = i + zlen l1 → mid ≤ zlen src → 0 ≤ j → hi = j + zlen l2 → hi ≤ zlen src →
  holds src i l1 → holds src j l2 → 0 ≤ k → k + zlen l1 + zlen l2 ≤ zlen dst →
  ∃ dst', merge_loop cmp fuel src dst i mid j hi k = Some dst' ∧ holds dst' k (merge_ref l1 l2) ∧
    agree_off dst dst' k (zlen l1 + zlen l2).
Proof.
  intros Hnil Hi Hmid Hms Hj Hhi Hhs Hh1 Hh2 Hk Hroom.
  pose proof (zlen_nonneg l1). pose proof (zlen_nonneg l2).
  assert (Hcond : (i <? mid) && (j <? hi) = false).
  { destruct Hnil as [-> | ->]; rewrite zlen_nil in *; zbool; (done || lia). }
  assert (Hunf : merge_loop cmp fuel src dst i mid j hi k =
    ('(dst, k) ← foldM (λ i '(dst, k), x ← src.[i]; dst ← zset dst k x; Some (dst, k + 1)) (range i mid) (dst, k);
     '(dst, _) ← foldM (λ j '(dst, k), x ← src.[j]; dst ← zset dst k x; Some (dst, k + 1)) (range j hi) (dst, k);
     Some dst)) by (destruct fuel; cbn [merge_loop]; by rewrite Hcond).
  rewrite Hunf. destruct (copy_loop src dst i mid k) as (d1 & -> & Hag1 & Hc1); [lia..|]. cbn [mbind option_bind].
  pose proof Hag1 as [Hl1 _].
  destruct (copy_loop src d1 j hi (k + (mid - i))) as (d2 & -> & Hag2 & Hc2); [lia..|]. cbn [mbind option_bind].
  exists d2. split; [done|]. specialize (Hc1 l1 ltac:(lia) Hh1). specialize (Hc2 l2 ltac:(lia) Hh2). split.
  - assert (Happ : holds d2 k (l1 ++ l2)).
    { apply holds_app; [by eapply holds_agree; [done|done|lia]|]. by replace (k + zlen l1) with (k + (mid - i)) by lia. }
    destruct Hnil as [-> | ->]; [by destruct l2|]. rewrite app_nil_r in Happ. by destruct l1.
  - eapply agree_off_trans; (eapply agree_off_mono; [done|lia|lia]).
Qed.

Lemma merge_loop_ok fuel src l1 l2 : ∀ dst i mid j hi k,
  0 ≤ i → mid = i + zlen l1 → mid ≤ zlen src → 0 ≤ j → hi = j + zlen l2 → hi ≤ zlen src →
  holds src i l1 → holds src j l2 → 0 ≤ k → k + zlen l1 + zlen l2 ≤ zlen dst → zlen l1 + zlen l2 ≤ Z.of_nat fuel →
  ∃ dst', merge_loop cmp fuel src dst i mid j hi k = Some dst' ∧ holds dst' k (merge_ref l1 l2) ∧
    agree_off dst dst' k (zlen l1 + zlen l2).
Proof.
  revert l1 l2. induction fuel as [|fuel IH]; intros l1 l2 dst i mid j hi k Hi Hmid Hms Hj Hhi Hhs Hh1 Hh2 Hk Hroom Hf.
  { apply merge_loop_end; try done. left. apply zlen_zero_nil. pose proof (zlen_nonneg l1). pose proof (zlen_nonneg l2). lia. }
  destruct l1 as [|x l1]; [apply merge_loop_end; try done; by left|]. destruct l2 as [|y l2]; [apply merge_loop_end; try done; by right|].
  rewrite !zlen_cons in *. pose proof (zlen_nonneg l1). pose proof (zlen_nonneg l2).
  apply holds_inv in Hh1 as Hh1'. apply holds_inv in Hh2 as Hh2'. destruct Hh1' as [Hx Hh1t], Hh2' as [Hy Hh2t].
  cbn [merge_loop]. rewrite !(proj2 (Z.ltb_lt _ _)) by lia. cbn [andb]. rewrite Hx. cbn [mbind option_bind]. rewrite Hy. cbn [mbind option_bind].
  change (merge_ref (x :: l1) (y :: l2)) with (if cmp x y <=? 0 then x :: merge_ref l1 (y :: l2) else y :: merge_ref (x :: l1) l2).
  destruct (cmp x y <=? 0).
  - destruct (zset_total dst k x) as [d1 Hs]; [lia|]. rewrite Hs. cbn [mbind option_bind]. pose proof (zlen_zset _ _ _ _ Hs) as Hl.
    destruct (IH l1 (y :: l2) d1 (i + 1) mid j hi (k + 1)) as (d2 & -> & Hh & Hag); try (done || rewrite ?zlen_cons; lia).
    rewrite zlen_cons in Hag. exists d2. split; [done|]. split.
    + apply holds_cons; [|done]. destruct Hag as [_ Hag]. rewrite Hag by lia. by eapply zget_zset_eq.
    + eapply agree_off_trans; [eapply agree_off_mono; [by eapply agree_off_zset|lia|lia]|by eapply agree_off_mono; [done|lia|lia]].
  - destruct (zset_total dst k y) as [d1 Hs]; [lia|]. rewrite Hs. cbn [mbind option_bind]. pose proof (zlen_zset _ _ _ _ Hs) as Hl.
    destruct (IH (x :: l1) l2 d1 i mid (j + 1) hi (k + 1)) as (d2 & -> & Hh & Hag); try (done || rewrite ?zlen_cons; lia).
    rewrite zlen_cons in Hag. exists d2. split; [done|]. split.
    + apply holds_cons; [|done]. destruct Hag as [_ Hag]. rewrite Hag by lia. by eapply zget_zset_eq.
    + eapply agree_off_trans; [eapply agree_off_mono; [by eapply agree_off_zset|lia|lia]|by eapply agree_off_mono; [done|lia|lia]].
Qed.

Lemma merge_runs_ok src dst lo mid hi l1 l2 :
  0 ≤ lo → mid = lo + zlen l1 → hi = mid + zlen l2 → hi ≤ zlen src → zlen dst = zlen src →
  holds src lo l1 → holds src mid l2 →
  ∃ dst', merge_runs cmp src dst lo mid hi = Some dst' ∧ holds dst' lo (merge_ref l1 l2) ∧
    agree_off dst dst' lo (hi - lo).
Proof.
  intros Hlo Hmid Hhi Hs Hd Hh1 Hh2. pose proof (zlen_nonneg l1). pose proof (zlen_nonneg l2). unfold merge_runs.
  destruct (merge_loop_ok (Z.to_nat (hi - lo)) src l1 l2 dst lo mid mid hi lo) as (d & -> & Hh & Hag); [lia..|done|done|lia|lia|lia|].
  exists d. split; [done|]. split; [done|]. eapply agree_off_mono; [done|lia|lia].
Qed.

(** Two sorted runs of rows, the first all smaller than the second. *)
Lemma merge_csort l1 l2 :
  StronglySorted Z.lt (l1 ++ l2) → merge_ref (csort l1) (csort l2) = csort (l1 ++ l2).
Proof.
  intros Hl. apply StronglySorted_app in Hl as Hl'. destruct Hl' as (Hlt & H1 & H2).
  destruct (csort_spec l1 H1) as (_ & Hp1 & Hs1). destruct (csort_spec l2 H2) as (_ & Hp2 & Hs2).
  apply csort_unique; [done|by rewrite merge_ref_perm, Hp1, Hp2|]. apply merge_ref_sorted; [done|done|].
  intros x y Hx Hy. rewrite Hp1 in Hx. rewrite Hp2 in Hy. by apply Hlt.
Qed.

Lemma sort_merge_recursive_ok fuel : ∀ arr tmp n,
  n = zlen arr → zlen tmp = n → n ≤ Z.of_nat fuel → StronglySorted Z.lt arr →
  ∃ tmp', sort_merge_recursive cmp fuel arr tmp n = Some (csort arr, tmp') ∧ zlen tmp' = n.
Proof.
  induction fuel as [|fuel IH]; intros arr tmp n Hn Htmp Hf Hs; cbn [sort_merge_recursive];
    destruct (csort_spec arr Hs) as (Hrun & _); rewrite <- Hn in Hrun.
  { rewrite (proj2 (Z.leb_le _ _)) by lia. rewrite Hrun. cbn [mbind option_bind]. by exists tmp. }
  destruct (Z.leb_spec n 64) as [|Hbig]. { rewrite Hrun. cbn [mbind option_bind]. by exists tmp. }
  cbv zeta. pose proof (half_bounds n). set (mid := n / 2) in *.
  pose proof (take_drop (Z.to_nat mid) arr) as Htd. rewrite <- Htd in Hs. apply StronglySorted_app in Hs as Hs'.
  destruct Hs' as (_ & Hs1 & Hs2).
  destruct (IH (take (Z.to_nat mid) arr) (take (Z.to_nat mid) tmp) mid) as (t1 & -> & Ht1);
    [autorewrite with zlen; lia|autorewrite with zlen; lia|lia|done|]. cbn [mbind option_bind].
  destruct (IH (drop (Z.to_nat mid) arr) (drop (Z.to_nat mid) tmp) (n - mid)) as (t2 & -> & Ht2);
    [autorewrite with zlen; lia|autorewrite with zlen; lia|lia|done|]. cbn [mbind option_bind].
  set (a1 := csort (take (Z.to_nat mid) arr)). set (a2 := csort (drop (Z.to_nat mid) arr)).
  assert (Hl1 : zlen a1 = mid) by (unfold a1; rewrite csort_zlen by done; autorewrite with zlen; lia).
  assert (Hl2 : zlen a2 = n - mid) by (unfold a2; rewrite csort_zlen by done; autorewrite with zlen; lia).
  destruct (merge_runs_ok (a1 ++ a2) (t1 ++ t2) 0 mid n a1 a2) as (d & -> & Hh & Hag);
    [lia|lia|lia|autorewrite with zlen; lia|autorewrite with zlen; lia| | |].
  - intros j Hj. rewrite Z.add_0_l. apply zget_app_l. lia.
  - intros j Hj. rewrite zget_app_r by lia. f_equal. lia.
  - cbn [mbind option_bind]. unfold a1, a2 in Hh. rewrite merge_csort, Htd in Hh by done.
    destruct Hag as [Hld _]. autorewrite with zlen in Hld. rewrite Htd in Hs.
    rewrite (holds_whole d (csort arr) Hh) by (rewrite csort_zlen by done; lia). exists (csort arr).
    split; [done|]. rewrite csort_zlen by done. lia.
Qed.

(** ** Runs of a size *)
Definition run (c : Z) (l : list Z) (r : Z) : list Z := take (Z.to_nat c) (drop (Z.to_nat (r * c)) l).

Lemma run_zlen c l r : 0 < c → 0 ≤ r → zlen (run c l r) = Z.max 0 (Z.min c (zlen l - r * c)).
Proof. intros Hc Hr. unfold run. autorewrite with zlen. nia. Qed.
Lemma run_sorted c l r : StronglySorted Z.lt l → StronglySorted Z.lt (run c l r).
Proof.
  intros Hl. unfold run. rewrite <- (take_drop (Z.to_nat (r * c)) l) in Hl. apply StronglySorted_app_1_r in Hl.
  rewrite <- (take_drop (Z.to_nat c) (drop _ _)) in Hl. by apply StronglySorted_app_1_l in Hl.
Qed.
Lemma run_double c l p : 0 < c → 0 ≤ p → run (c * 2) l p = run c l (2 * p) ++ run c l (2 * p + 1).
Proof.
  intros Hc Hp. unfold run. replace (Z.to_nat ((2 * p + 1) * c)) with (Z.to_nat (2 * p * c) + Z.to_nat c)%nat by nia.
  rewrite <- drop_drop, take_take_drop. f_equal; [nia|]. f_equal. nia.
Qed.
Lemma run_holds c l r : 0 < c → 0 ≤ r → holds l (r * c) (run c l r).
Proof.
  intros Hc Hr j Hj. rewrite run_zlen in Hj by done. unfold run. rewrite zget_take by lia. rewrite !zget_nat by nia.
  rewrite lookup_drop. f_equal. nia.
Qed.
(** A single run is the whole list. *)
Lemma run_all c l : zlen l ≤ c → run c l 0 = l.
Proof. intros Hc. unfold run. cbn. rewrite drop_0. apply take_ge. unfold zlen in Hc. lia. Qed.

(** Every run of [c] rows is sorted. *)
Definition runs_sorted (c : Z) (l a : list Z) : Prop :=
  zlen a = zlen l ∧ ∀ r, 0 ≤ r → r * c < zlen l → holds a (r * c) (csort (run c l r)).

Section pass.
Context (l : list Z) (n : Z) (Hn : n = zlen l) (Hl : StronglySorted Z.lt l).

Lemma csort_run_zlen c r : 0 < c → 0 ≤ r → zlen (csort (run c l r)) = Z.max 0 (Z.min c (n - r * c)).
Proof. intros Hc Hr. rewrite csort_zlen by (by apply run_sorted). rewrite run_zlen by done. lia. Qed.

Definition pairs_done (c : Z) (done : list Z) (dst : list Z) : Prop :=
  zlen dst = n ∧ ∀ p, p ∈ done → 0 ≤ p → p * (c * 2) < n → holds dst (p * (c * 2)) (csort (run (c * 2) l p)).

Lemma pairs_step c done p dst dst' :
  0 < c → 0 ≤ p → p ∉ done → pairs_done c done dst → p * (c * 2) < n →
  agree_off dst dst' (p * (c * 2)) (Z.min (c * 2) (n - p * (c * 2))) →
  holds dst' (p * (c * 2)) (csort (run (c * 2) l p)) → pairs_done c (done ++ [p]) dst'.
Proof.
  intros Hc Hp Hnin [Hld Hd] Hlt Hag Hh. split; [destruct Hag; lia|]. intros q Hq Hq0 Hqn.
  destruct (decide (q = p)) as [->|Hne]; [done|]. assert (Hqd : q ∈ done) by set_solver.
  eapply holds_agree; [by apply Hd|done|]. rewrite csort_run_zlen by lia. nia.
Qed.

(** One pair of runs. *)
Lemma merge_pair_ok src c done p dst :
  0 < c → 0 ≤ p → p ∉ done → runs_sorted c l src → pairs_done c done dst →
  ∃ dst', sort_merge_fn cmp src n c p (p + 1) dst = Some dst' ∧ pairs_done c (done ++ [p]) dst'.
Proof.
  intros Hc Hp Hnin [Hls Hs] Hd. unfold sort_merge_fn. rewrite range_cons, range_empty by lia. cbn [foldM]. cbv zeta.
  replace (p * 2 * c) with (p * (c * 2)) by lia. set (lo := p * (c * 2)). assert (Hlo0 : 0 ≤ lo) by (unfold lo; nia).
  destruct (Z.leb_spec n lo) as [Hge|Hlt].
  { exists dst. split; [done|]. destruct Hd as [Hld Hd]. split; [done|]. intros q Hq Hq0 Hqn. apply Hd; [|done|done].
    apply elem_of_app in Hq as [?|Hq%list_elem_of_singleton]; [done|]. subst q. unfold lo in Hge. lia. }
  set (mid := if n <? lo + c then n else lo + c). set (hi := if n <? lo + c + c then n else lo + c + c).
  assert (Hmid : mid = Z.min n (lo + c)) by (unfold mid; zbool; lia).
  assert (Hhi : hi = Z.min n (lo + c + c)) by (unfold hi; zbool; lia). clearbody mid hi.
  pose proof (Hs (2 * p) ltac:(lia) ltac:(lia)) as Hrun1. replace (2 * p * c) with lo in Hrun1 by lia.
  pose proof (csort_run_zlen c (2 * p) Hc ltac:(lia)) as Hlen1. pose proof (csort_run_zlen c (2 * p + 1) Hc ltac:(lia)) as Hlen2.
  pose proof Hd as [Hld _]. pose proof (run_double c l p Hc Hp) as Hdbl.
  assert (Hsorted : StronglySorted Z.lt (run c l (2 * p) ++ run c l (2 * p + 1))) by (rewrite <- Hdbl; by apply run_sorted).
  destruct (Z.leb_spec hi mid) as [Hsingle|Hpair].
  - assert (Hnil : run c l (2 * p + 1) = []) by (apply zlen_zero_nil; rewrite run_zlen by lia; lia).
    rewrite Hnil, app_nil_r in Hdbl.
    replace (hi - lo) with (zlen (csort (run c l (2 * p)))) by lia.
    rewrite (sub_array_holds src lo _ Hrun1) by lia. cbn [mbind option_bind].
    destruct (sub_array_total dst lo (zlen (csort (run c l (2 * p))))) as (? & -> & _); [lia|lia|lia|]. cbn [mbind option_bind].
    destruct (put_back_spec dst lo (csort (run c l (2 * p)))) as [Hh Hag]; [lia|lia|].
    eexists. split; [done|]. apply (pairs_step c done p dst); [done|done|done|done|done| |by rewrite Hdbl].
    eapply agree_off_mono; [done|lia|fold lo; lia].
  - pose proof (Hs (2 * p + 1) ltac:(lia) ltac:(lia)) as Hrun2. replace ((2 * p + 1) * c) with mid in Hrun2 by lia.
    destruct (merge_runs_ok src dst lo mid hi (csort (run c l (2 * p))) (csort (run c l (2 * p + 1)))) as (d & -> & Hh & Hag);
      [lia|lia|lia|lia|lia|done|done|]. cbn [mbind option_bind].
    eexists. split; [done|]. rewrite merge_csort in Hh by done. rewrite <- Hdbl in Hh.
    apply (pairs_step c done p dst); [done|done|done|done|done| |done].
    eapply agree_off_mono; [done|lia|fold lo; lia].
Qed.

Definition chunks_inv (c : Z) (done : list Z) (st : list Z * list Z) : Prop :=
  zlen st.1 = n ∧ zlen st.2 = n ∧
  (∀ t, t ∈ done → 0 ≤ t → t * c < n → holds st.1 (t * c) (csort (run c l t))) ∧
  (∀ t, t ∉ done → 0 ≤ t → t * c < n → holds st.1 (t * c) (run c l t)).

Lemma phase1_chunk_ok T done t st :
  let c := (n + T - 1) / T in
  1 ≤ T → 0 < c → 0 ≤ t → t ∉ done → chunks_inv c done st →
  ∃ st', sort_phase1_fn cmp n T t (t + 1) st = Some st' ∧ chunks_inv c (done ++ [t]) st'.
Proof.
  intros c HT Hc Ht Hnin (Hli & Hlt & Hdone & Htodo). destruct st as [ix tmp]. cbn [fst snd] in *.
  unfold sort_phase1_fn. rewrite range_cons, range_empty by lia. cbn [foldM]. cbv zeta. fold c. set (lo := t * c).
  set (hi := if n <? lo + c then n else lo + c). assert (Hhi : hi = Z.min n (lo + c)) by (unfold hi; zbool; lia). clearbody hi.
  destruct (Z.leb_spec hi lo) as [Hge|Hlo].
  { eexists. split; [done|]. split; [done|]. split; [done|]. cbn [fst]. split.
    - intros q Hq Hq0 Hqn. apply Hdone; [|done|done].
      apply elem_of_app in Hq as [?|Hq%list_elem_of_singleton]; [done|]. subst q. unfold lo in *. lia.
    - intros q Hq. apply Htodo. set_solver. }
  specialize (Htodo t Hnin Ht ltac:(unfold lo in *; lia)) as Hrun. fold lo in Hrun.
  assert (Hlen : zlen (run c l t) = hi - lo) by (rewrite run_zlen by done; unfold lo in *; lia).
  rewrite <- Hlen. rewrite (sub_array_holds ix lo _ Hrun) by (unfold lo in *; nia). cbn [mbind option_bind].
  destruct (sub_array_total tmp lo (zlen (run c l t))) as (t' & -> & Hlt' & _); [unfold lo; nia|apply zlen_nonneg|lia|]. cbn [mbind option_bind].
  destruct (sort_merge_recursive_ok (Z.to_nat (zlen (run c l t))) (run c l t) t' (zlen (run c l t))) as (t2 & -> & Hlt2);
    [done|done|lia|by apply run_sorted|]. cbn [mbind option_bind].
  pose proof (csort_zlen (run c l t) (run_sorted c l t Hl)) as Hlk.
  destruct (put_back_spec ix lo (csort (run c l t))) as [Hh Hag]; [unfold lo; nia|lia|].
  destruct (put_back_spec tmp lo t2) as [_ [Hl2 _]]; [unfold lo; nia|lia|].
  eexists. split; [done|]. split; [cbn [fst]; destruct Hag; lia|]. split; [cbn [snd]; lia|]. cbn [fst].
  assert (Hother : ∀ q f, 0 ≤ q → q * c < n → q ≠ t → zlen f = zlen (run c l q) → holds ix (q * c) f →
    holds (put_back ix lo (csort (run c l t))) (q * c) f).
  { intros q f Hq0 Hqn Hne Hf Hhf. eapply holds_agree; [done|done|]. rewrite Hf, run_zlen by done. unfold lo in *. nia. }
  split.
  - intros q Hq Hq0 Hqn. destruct (decide (q = t)) as [->|Hne]; [done|].
    apply Hother; [done|done|done|by apply csort_zlen, run_sorted|]. apply Hdone; [set_solver|done|done].
  - intros q Hq Hq0 Hqn. apply Hother; [done|done|set_solver|done|]. apply Htodo; [set_solver|done|done].
Qed.
End pass.
End merge.

Section run.
Context `{Dispatcher} `{!DispatcherLaws} `{Workers} `{!WorkersLaws} `{Scratch}.
Context (cmp : Z → Z → Z).
Notation lt := (λ x y, 0 <? cmp y x).
Context `{!WeakOrder lt}.

(** Tasks [0 .. N) of a pool: each runs once. *)
Lemma dispatch_n_ok {S} (fn : Z → Z → S → option S) (P : list Z → S → Prop) N s :
  0 < N ≤ ring_cap → P [] s →
  (∀ pre t s, 0 ≤ t < N → t ∉ pre → P pre s → ∃ s', fn t (t + 1) s = Some s' ∧ P (pre ++ [t]) s') →
  ∃ s' l, ray_pool_dispatch_n fn N s = Some s' ∧ l ≡ₚ range 0 N ∧ P l s'.
Proof.
  intros HN Hinit Hstep. destruct (dispatch_n_order fn N s) as (l & Hl & ->); [done|].
  destruct (foldM_done (λ i, fn i (i + 1)) P l s) as (s' & -> & HP); [done| |by exists s', l].
  intros pre t post s1 Hlt HP. apply Hstep; [|intros Hin|done].
  - assert (Hin : t ∈ range 0 N) by (rewrite <- Hl, Hlt; set_solver). by apply elem_of_range in Hin.
  - assert (Hnd : NoDup l) by (rewrite Hl; apply NoDup_range). rewrite Hlt in Hnd.
    apply NoDup_app in Hnd as (_ & Hd & _). apply (Hd t Hin). by left.
Qed.

Lemma merge_pass_ok (l : list Z) pool n c src dst :
  n = zlen l → StronglySorted Z.lt l → 0 < c < n → n < 2 ^ 32 →
  runs_sorted cmp c l src → zlen dst = n →
  let n_pairs := (n + 2 * c - 1) / (2 * c) in
  (pool = true → n_pairs ≤ ring_cap) →
  ∃ dst', (if pool && (1 <? n_pairs) then ray_pool_dispatch_n (sort_merge_fn cmp src n c) (u32 n_pairs) dst
           else sort_merge_fn cmp src n c 0 n_pairs dst) = Some dst' ∧ runs_sorted cmp (c * 2) l dst'.
Proof.
  intros Hn Hl Hc Hmax Hs Hdst n_pairs Hcap.
  assert (Hnp : 1 ≤ n_pairs ∧ n ≤ n_pairs * (c * 2) ∧ n_pairs < 2 ^ 32).
  { unfold n_pairs. pose proof (Z.div_mod (n + 2 * c - 1) (2 * c)). pose proof (Z.mod_pos_bound (n + 2 * c - 1) (2 * c)). nia. }
  assert (∃ ds d, ds ≡ₚ range 0 n_pairs ∧ (if pool && (1 <? n_pairs) then ray_pool_dispatch_n (sort_merge_fn cmp src n c) (u32 n_pairs) dst
           else sort_merge_fn cmp src n c 0 n_pairs dst) = Some d ∧ pairs_done cmp l n c ds d) as (ds & d & Hds & Hrun & Hld & Hd).
  { destruct (pool && (1 <? n_pairs)) eqn:Hp.
    - apply andb_true_iff in Hp as [-> _]. rewrite wrap_id by (unfold in_u; lia).
      destruct (dispatch_n_ok (sort_merge_fn cmp src n c) (pairs_done cmp l n c) n_pairs dst) as (d & ds & Hrun & Hds & Hd).
      + specialize (Hcap eq_refl). lia.
      + split; [done|]. intros p Hp. by apply not_elem_of_nil in Hp.
      + intros pre t s Ht Hnin Hpre. apply (merge_pair_ok cmp l n Hn Hl); [lia|lia|done|done|done].
      + by exists ds, d.
    - destruct (foldM_done (λ p, sort_merge_fn cmp src n c p (p + 1)) (pairs_done cmp l n c) (range 0 n_pairs) dst) as (d & Hrun & Hd).
      + split; [done|]. intros p Hp0. by apply not_elem_of_nil in Hp0.
      + intros pre t post s Hrange Hpre. assert (Ht : t ∈ range 0 n_pairs) by (rewrite Hrange; set_solver). apply elem_of_range in Ht.
        pose proof (NoDup_range 0 n_pairs) as Hnd. rewrite Hrange in Hnd. apply NoDup_app in Hnd as (_ & Hdj & _).
        apply (merge_pair_ok cmp l n Hn Hl); [lia|lia| |done|done]. intros Hin. apply (Hdj t Hin). by left.
      + exists (range 0 n_pairs), d. split; [done|]. split; [|done]. rewrite <- Hrun. unfold sort_merge_fn at 1.
        apply foldM_ext. intros p a _. unfold sort_merge_fn. rewrite range_cons, range_empty by lia. cbn [foldM].
        by destruct (match _ with true => _ | false => _ end). }
  exists d. split; [done|]. split; [lia|]. intros r Hr Hrn. apply Hd; [|done|lia].
  rewrite Hds. apply elem_of_range. nia.
Qed.

(** A run that holds everything is the sorted list. *)
Lemma one_run (l : list Z) c src :
  StronglySorted Z.lt l → zlen l ≤ c → runs_sorted cmp c l src → src = csort cmp l.
Proof.
  intros Hl Hc [Hls Hs]. pose proof (zlen_nonneg l). destruct (decide (zlen l = 0)) as [Hz|Hne].
  - by rewrite (zlen_zero_nil l), (zlen_zero_nil src) by lia.
  - specialize (Hs 0 ltac:(lia) ltac:(lia)). rewrite run_all in Hs by lia. apply holds_whole; [done|]. by rewrite csort_zlen.
Qed.

Lemma merge_passes_ok (l : list Z) pool fuel : ∀ c src dst,
  StronglySorted Z.lt l → 0 < c → zlen l < 2 ^ 32 → zlen l ≤ c * 2 ^ Z.of_nat fuel →
  (pool = true → zlen l ≤ c * ring_cap) →
  runs_sorted cmp c l src → zlen dst = zlen l →
  merge_passes cmp fuel pool (zlen l) c src dst = Some (csort cmp l).
Proof.
  induction fuel as [|fuel IH]; intros c src dst Hl Hc Hmax Hf Hcap Hs Hdst; cbn [merge_passes];
    (destruct (Z.ltb_spec c (zlen l)) as [Hlt|Hge]; [|f_equal; by apply (one_run l c)]).
  - cbn in Hf. lia.
  - cbv zeta. destruct (merge_pass_ok l pool (zlen l) c src dst) as (d & -> & Hd); [done|done|lia|done|done|done| |].
    + intros Hp. specialize (Hcap Hp). pose proof (Z.div_mod (zlen l + 2 * c - 1) (2 * c)).
      pose proof (Z.mod_pos_bound (zlen l + 2 * c - 1) (2 * c)). nia.
    + cbn [mbind option_bind]. apply IH; [done|lia|done| |intros Hp; specialize (Hcap Hp); lia|done|apply Hs].
      rewrite Nat2Z.inj_succ, Z.pow_succ_r in Hf by lia. lia.
Qed.

Theorem merge_sort_ok pool (l : list Z) n :
  n = zlen l → StronglySorted Z.lt l → 0 < n < 2 ^ 32 → (pool = true → ray_pool_get = true) →
  ∃ r, merge_sort cmp pool l n = Some r ∧
    match r with Some s => s = csort cmp l | None => scratch_ok S_tmp (8 * n) = false end.
Proof.
  intros Hn Hl Hmax Hpool. pose proof total_workers_ok as Hw. unfold merge_sort.
  destruct (scratch_alloc S_tmp 8 n) as [tmp|] eqn:Htmp.
  2:{ exists None. split; [done|]. unfold scratch_alloc in Htmp. by destruct (scratch_ok S_tmp (8 * n)). }
  apply scratch_alloc_inv in Htmp. set (T := if pool then total_workers else 1).
  destruct (pool && (1 <? T) && (1024 <? n)) eqn:Hpar.
  - apply andb_true_iff in Hpar as [Hpar Hbig]. apply andb_true_iff in Hpar as [-> HT]. unfold T in *.
    apply Z.ltb_lt in Hbig, HT. set (c := (n + total_workers - 1) / total_workers).
    destruct (chunk_size n total_workers) as [Hc0 Hcov]; [lia|lia|]. fold c in Hc0, Hcov. assert (Hc : 0 < c) by nia.
    destruct (dispatch_n_ok (sort_phase1_fn cmp n total_workers) (chunks_inv cmp l n c) total_workers (l, tmp))
      as ([ix t] & ds & -> & Hds & Hli & Hlt & Hd & _); [lia| | |].
    + split; [done|]. split; [cbn [snd]; lia|]. split; [intros t Ht; by apply not_elem_of_nil in Ht|].
      intros t _ Ht _. by apply run_holds.
    + intros pre t st Ht Hnin Hpre. apply (phase1_chunk_ok cmp l n Hn Hl); [lia|done|lia|done|done].
    + cbn [mbind option_bind fst snd] in *. eexists. rewrite Hn in *. rewrite (merge_passes_ok l true 63 c ix t); [done|done|done|lia| | | |lia].
      * assert (2 ^ 32 < 2 ^ Z.of_nat 63) by done. nia.
      * intros _. nia.
      * split; [done|]. intros r Hr Hrn. apply Hd; [|done|done]. rewrite Hds. apply elem_of_range. nia.
  - destruct (sort_merge_recursive_ok cmp (Z.to_nat n) l tmp n) as (t' & -> & _); [done|lia|lia|done|].
    cbn [mbind option_bind]. by eexists.
Qed.
End run.
