(* ===== verification/SortEnc.v ===== *)
(** * Keys of cells

    The closed forms of the encoded keys, their order, and decoding. [rank] is
    what a row is worth to the comparator. *)

From stdpp Require Import sorting.
From S2P Require Import Prelude Pool PoolProofs Rowsel RowselProofs Sort SortOrder SortMsd SortMerge.
Local Open Scope Z_scope.

(** ** Bit operations as arithmetic *)
Lemma xor_top k u : 0 ≤ k → 0 ≤ u < 2 ^ (k + 1) → Z.lxor u (2 ^ k) = if u <? 2 ^ k then u + 2 ^ k else u - 2 ^ k.
Proof.
  intros Hk Hu. assert (Hp : 2 ^ (k + 1) = 2 * 2 ^ k) by (rewrite Z.pow_add_r by lia; lia).
  assert (Hlow : ∀ v, 0 ≤ v < 2 ^ k → Z.lxor v (2 ^ k) = v + 2 ^ k).
  { intros v Hv. symmetry. apply Z.add_nocarry_lxor. apply Z.bits_inj'. intros i Hi. rewrite Z.land_spec, Z.bits_0.
    rewrite Z.pow2_bits_eqb by done. destruct (Z.eqb_spec k i) as [<-|]; [|by rewrite andb_false_r].
    destruct (decide (v = 0)) as [->|]; [by rewrite Z.bits_0|].
    rewrite Z.bits_above_log2; [done|lia|apply Z.log2_lt_pow2; lia]. }
  destruct (Z.ltb_spec u (2 ^ k)); [apply Hlow; lia|].
  replace u with (Z.lxor (u - 2 ^ k) (2 ^ k)) at 1 by (rewrite Hlow by lia; lia).
  by rewrite Z.lxor_assoc, Z.lxor_nilpotent, Z.lxor_0_r.
Qed.
Lemma testbit_small k u i : 0 ≤ u < 2 ^ k → Z.testbit u i = true → 0 ≤ i < k.
Proof.
  intros Hu Hb. destruct (Z.lt_ge_cases i 0); [by rewrite Z.testbit_neg_r in Hb|]. split; [done|].
  destruct (Z.lt_ge_cases i k); [done|]. destruct (decide (u = 0)) as [->|]; [by rewrite Z.bits_0 in Hb|].
  rewrite Z.bits_above_log2 in Hb; [done|lia|]. apply Z.lt_le_trans with k; [apply Z.log2_lt_pow2; lia|done].
Qed.
Lemma xor_ones k u : 0 ≤ k → 0 ≤ u < 2 ^ k → Z.lxor u (2 ^ k - 1) = 2 ^ k - 1 - u.
Proof.
  intros Hk Hu. replace (2 ^ k - 1) with (Z.ones k) by (rewrite Z.ones_equiv; lia).
  assert (Hin : ∀ i, Z.testbit u i = true → Z.testbit (Z.ones k) i = true).
  { intros i Hb. apply Z.ones_spec_low. by apply (testbit_small k u). }
  rewrite Z.sub_nocarry_ldiff.
  - apply Z.bits_inj'. intros i Hi. rewrite Z.ldiff_spec, Z.lxor_spec. specialize (Hin i).
    destruct (Z.testbit u i); [by rewrite Hin|by destruct (Z.testbit (Z.ones k) i)].
  - apply Z.bits_inj'. intros i Hi. rewrite Z.ldiff_spec, Z.bits_0. specialize (Hin i).
    destruct (Z.testbit u i); [by rewrite Hin|done].
Qed.
Lemma lnot_wrap k u : 0 ≤ k → 0 ≤ u < 2 ^ k → wrap k (Z.lnot u) = 2 ^ k - 1 - u.
Proof.
  intros Hk Hu. unfold wrap. replace (Z.lnot u) with (2 ^ k - 1 - u + (-1) * 2 ^ k) by (unfold Z.lnot; lia).
  rewrite Z.mod_add by lia. apply Z.mod_small. lia.
Qed.
Lemma wrap_signed k v : 0 < k → in_s k v → wrap k v = if v <? 0 then v + 2 ^ k else v.
Proof.
  intros Hk Hv. unfold in_s in Hv. assert (2 ^ k = 2 * 2 ^ (k - 1)) by (rewrite <- Z.pow_succ_r by lia; f_equal; lia).
  unfold wrap. destruct (Z.ltb_spec v 0).
  - replace v with (v + 2 ^ k + (-1) * 2 ^ k) at 1 by lia. rewrite Z.mod_add by lia. apply Z.mod_small. lia.
  - apply Z.mod_small. lia.
Qed.
(** Flipping the sign bit of a two's complement number. *)
Lemma flip_sign k v : 0 ≤ k → in_s (k + 1) v → Z.lxor (wrap (k + 1) v) (2 ^ k) = v + 2 ^ k.
Proof.
  intros Hk Hv. assert (Hp : 2 ^ (k + 1) = 2 * 2 ^ k) by (rewrite Z.pow_add_r by lia; lia).
  unfold in_s in Hv. replace (k + 1 - 1) with k in Hv by lia. rewrite wrap_signed by (unfold in_s; replace (k + 1 - 1) with k by lia; lia).
  destruct (Z.ltb_spec v 0); rewrite xor_top by lia; zbool; lia.
Qed.

(** ** Keys in closed form *)
Definition cell_ok (t : sort_type) (v : Z) : Prop :=
  match t with
  | I64 | TIMESTAMP => in_s 64 v
  | I32 | DATE | TIME => in_s 32 v
  | I16 => in_s 16 v
  | BOOL | U8 => in_u 8 v
  | F64 => in_u 64 v
  | F32 => in_u 32 v
  end.

(** The ascending key; null keys are 0 or the largest. *)
Definition base_key (col : column) (first : bool) (v : Z) : Z :=
  let null := cell_is_null col v in
  match col_type col with
  | I64 | TIMESTAMP => if null then (if first then 0 else 2 ^ 64 - 1) else v + 2 ^ 63
  | F64 => if f64_is_nan v then (if first then 0 else 2 ^ 64 - 1)
           else if v <? 2 ^ 63 then v + 2 ^ 63 else 2 ^ 64 - 1 - v
  | F32 => if f32_is_nan v then (if first then 0 else 2 ^ 32 - 1)
           else if v <? 2 ^ 31 then v + 2 ^ 31 else 2 ^ 32 - 1 - v
  | I32 | DATE | TIME => if null then (if first then 0 else 2 ^ 64 - 1) else v + 2 ^ 31
  | I16 => if has_nulls col then (if null then (if first then 0 else 65537) else v + 2 ^ 15 + 1) else v + 2 ^ 15
  | BOOL | U8 => if has_nulls col then v + 1 else v
  end.
Definition key_width (t : sort_type) : Z := match t with F32 => 32 | _ => 64 end.

Lemma base_key_range col first v :
  cell_ok (col_type col) v → 0 ≤ base_key col first v < 2 ^ key_width (col_type col).
Proof.
  unfold cell_ok, base_key, key_width, in_s, in_u. cbv zeta.
  destruct (col_type col), (cell_is_null col v), (has_nulls col), first, (f64_is_nan v), (f32_is_nan v); zbool; lia.
Qed.

(** The mask of a floating-point number flips its sign bit or all its bits. *)
Lemma float_key k v :
  0 ≤ k → 0 ≤ v < 2 ^ (k + 1) →
  Z.lxor v (Z.lor (wrap (k + 1) (- Z.shiftr v k)) (2 ^ k)) = if v <? 2 ^ k then v + 2 ^ k else 2 ^ (k + 1) - 1 - v.
Proof.
  intros Hk Hv. assert (Hp : 2 ^ (k + 1) = 2 * 2 ^ k) by (rewrite Z.pow_add_r by lia; lia).
  assert (0 < 2 ^ k) by (apply Z.pow_pos_nonneg; lia). rewrite Z.shiftr_div_pow2 by done.
  destruct (Z.ltb_spec v (2 ^ k)).
  - rewrite Z.div_small by lia. change (wrap (k + 1) (-0)) with (wrap (k + 1) 0). rewrite wrap_id by (unfold in_u; lia).
    rewrite Z.lor_0_l, xor_top by lia. zbool; lia.
  - assert (v / 2 ^ k = 1) as ->. { symmetry. apply Z.div_unique with (v - 2 ^ k); lia. }
    assert (wrap (k + 1) (- (1)) = 2 ^ (k + 1) - 1) as ->.
    { unfold wrap. replace (- (1)) with (2 ^ (k + 1) - 1 + (-1) * 2 ^ (k + 1)) by lia. rewrite Z.mod_add by lia. apply Z.mod_small. lia. }
    assert (Z.lor (2 ^ (k + 1) - 1) (2 ^ k) = 2 ^ (k + 1) - 1) as ->; [|by rewrite xor_ones by lia].
    replace (2 ^ (k + 1) - 1) with (Z.ones (k + 1)) by (rewrite Z.ones_equiv; lia).
    apply Z.bits_inj'. intros i Hi. rewrite Z.lor_spec, Z.pow2_bits_eqb by done.
    destruct (Z.eqb_spec k i) as [<-|]; [|by rewrite orb_false_r]. rewrite Z.ones_spec_low by lia. done.
Qed.

Lemma encode_closed col desc nf v :
  cell_ok (col_type col) v →
  encode_cell col desc nf v =
    (let e := base_key col (xorb nf desc) v in if desc then 2 ^ key_width (col_type col) - 1 - e else e).
Proof.
  intros Hv. pose proof (base_key_range col (xorb nf desc) v Hv) as Hr. revert Hv Hr.
  unfold encode_cell, base_key, cell_ok, key_width, not64, not32. cbv zeta. set (first := xorb nf desc).
  assert (Hf64 : in_u 64 v → Z.lxor v (Z.lor (u64 (- Z.shiftr v 63)) (2 ^ 63)) = if v <? 2 ^ 63 then v + 2 ^ 63 else 2 ^ 64 - 1 - v)
    by (intros; by apply (float_key 63)).
  assert (Hf32 : in_u 32 v → Z.lxor v (Z.lor (u32 (- Z.shiftr v 31)) (2 ^ 31)) = if v <? 2 ^ 31 then v + 2 ^ 31 else 2 ^ 32 - 1 - v)
    by (intros; by apply (float_key 31)).
  assert (H64 : in_s 64 v → Z.lxor (u64 v) (2 ^ 63) = v + 2 ^ 63) by (apply (flip_sign 63); lia).
  assert (H32 : in_s 32 v → Z.lxor (u32 v) (2 ^ 31) = v + 2 ^ 31) by (apply (flip_sign 31); lia).
  assert (H16 : in_s 16 v → Z.lxor (u16 v) (2 ^ 15) = v + 2 ^ 15) by (apply (flip_sign 15); lia).
  assert (Hnull : (col_type col = BOOL ∨ col_type col = U8) → cell_is_null col v = false).
  { unfold cell_is_null. destruct (negb (has_nulls col)); [done|]. by intros [-> | ->]. }
  change UINT64_MAX with (2 ^ 64 - 1). change 0x10001 with 65537.
  destruct (col_type col) eqn:Ht; intros Hv Hr; rewrite ?Hf64, ?Hf32, ?H64, ?H32, ?H16, ?(Hnull (or_introl eq_refl)), ?(Hnull (or_intror eq_refl)) by done;
    destruct desc; try done;
    try (destruct (has_nulls col)); try (destruct (f64_is_nan v)); rewrite lnot_wrap by lia; done.
Qed.

(** ** The comparator as an order of ranks *)
Definition cell_ord (t : sort_type) (v : Z) : Z :=
  match t with F64 => f64_ord v | F32 => f32_ord v | _ => v end.
Definition is_float (t : sort_type) : bool := match t with F64 | F32 => true | _ => false end.
Definition NULL_RANK : Z := 2 ^ 70.

(** Ascending; [first] puts nulls below every value. *)
Definition up_rank (col : column) (first : bool) (v : Z) : Z :=
  if cell_is_null col v then (if first then - NULL_RANK else NULL_RANK) else cell_ord (col_type col) v.
Definition cell_rank (col : column) (desc nf : bool) (v : Z) : Z :=
  let r := up_rank col (xorb nf desc) v in if desc then - r else r.
Definition row_rank (k : sort_key) (i : Z) : Z := cell_rank (sk_col k) (sk_desc k) (sk_nf k) (cell_at (sk_col k) i).

(** A floating-point column with a NaN is marked as having nulls. *)
Definition nan_marked (col : column) : Prop :=
  has_nulls col = false → Forall (λ v, sentinel_is_null (col_type col) v = false) (cells col) ∨ is_float (col_type col) = false.

Lemma cell_at_cases (P : Z → Prop) col i : P 0 → Forall P (cells col) → P (cell_at col i).
Proof.
  intros H0 Hall. unfold cell_at. destruct ((cells col).[i]) as [v|] eqn:Hv; [|done].
  rewrite Forall_forall in Hall. apply Hall, elem_of_zget. exists i. split; [by apply zget_Some in Hv|done].
Qed.
Lemma is_null_cell col i : ray_vec_is_null col i = cell_is_null col (cell_at col i).
Proof.
  unfold ray_vec_is_null, cell_at. destruct ((cells col).[i]) as [v|] eqn:Hv.
  - apply zget_Some in Hv. rewrite (proj2 (Z.ltb_ge _ _)), (proj2 (Z.leb_gt _ _)) by lia. done.
  - cbn [default]. assert (cell_is_null col 0 = false) as ->; [|by destruct (_ || _)].
    unfold cell_is_null. by destruct (negb _), (col_type col).
Qed.
Lemma cmp3_opp a b : cmp3 (- a) (- b) = - cmp3 a b.
Proof. unfold cmp3. zbool; lia. Qed.
Lemma cmp3_neg a b : cmp3 a b < 0 ↔ a < b.
Proof. unfold cmp3. zbool; lia. Qed.
Lemma cmp3_zero a b : cmp3 a b = 0 ↔ a = b.
Proof. unfold cmp3. zbool; lia. Qed.
Lemma cmp3_pos a b : 0 < cmp3 a b ↔ b < a.
Proof. unfold cmp3. zbool; lia. Qed.

Lemma cell_ord_range col v : cell_ok (col_type col) v → - NULL_RANK < cell_ord (col_type col) v < NULL_RANK.
Proof.
  unfold cell_ok, cell_ord, NULL_RANK, in_s, in_u, f64_ord, f32_ord. destruct (col_type col); zbool; lia.
Qed.

(** One key of [sort_cmp] compares ranks. *)
Lemma key_cmp k a b :
  let col := sk_col k in
  Forall (cell_ok (col_type col)) (cells col) → nan_marked col →
  sort_cmp [k] a b = cmp3 (row_rank k a) (row_rank k b).
Proof.
  intros col Hok Hnan. cbn [sort_cmp]. fold col. rewrite !is_null_cell.
  assert (Hca : ∀ i, cell_ok (col_type col) (cell_at col i)).
  { intros i. apply (cell_at_cases (cell_ok (col_type col))); [|done]. unfold cell_ok, in_s, in_u. destruct (col_type col); lia. }
  assert (Hnn : ∀ i, is_float (col_type col) = true → cell_is_null col (cell_at col i) = false →
             sentinel_is_null (col_type col) (cell_at col i) = false).
  { intros i Hfl Hnull. unfold cell_is_null in Hnull. destruct (has_nulls col) eqn:Hh; [done|].
    destruct (Hnan Hh) as [Hall|]; [|congruence]. apply (cell_at_cases (λ v, sentinel_is_null (col_type col) v = false)); [|done].
    by destruct (col_type col). }
  pose proof (Hca a) as Hoa. pose proof (Hca b) as Hob. pose proof (Hnn a) as Hna. pose proof (Hnn b) as Hnb.
  pose proof (cell_ord_range col _ Hoa). pose proof (cell_ord_range col _ Hob).
  unfold row_rank, cell_rank, up_rank. fold col. set (va := cell_at col a) in *. set (vb := cell_at col b) in *. clearbody va vb.
  assert (Hcmp : is_float (col_type col) = false ∨
    (sentinel_is_null (col_type col) va = false ∧ sentinel_is_null (col_type col) vb = false) →
    cell_cmp (col_type col) va vb = cmp3 (cell_ord (col_type col) va) (cell_ord (col_type col) vb)).
  { intros Hc. unfold cell_cmp, cell_ord. destruct (col_type col); try done; destruct Hc as [?|[Ha Hb]]; try done;
      cbn [sentinel_is_null] in Ha, Hb; by rewrite Ha, Hb. }
  set (c := cell_cmp _ va vb) in *. clearbody c.
  assert (Hfin : ∀ z, (if negb (z =? 0) then z else 0) = z) by (intros; destruct (Z.eqb_spec z 0); [subst|]; done).
  rewrite Hfin. destruct (cell_is_null col va), (cell_is_null col vb); cbn [orb andb].
  - symmetry. by apply cmp3_zero.
  - destruct (sk_desc k), (sk_nf k); cbn [xorb]; unfold cmp3; zbool; lia.
  - destruct (sk_desc k), (sk_nf k); cbn [xorb]; unfold cmp3; zbool; lia.
  - rewrite Hcmp. { destruct (sk_desc k); [by rewrite cmp3_opp|done]. }
    destruct (is_float (col_type col)); [right; split; [by apply Hna|by apply Hnb]|by left].
Qed.

(** A comparator of ranks is a weak order. *)
Lemma rank_order (cmp : Z → Z → Z) (r : Z → Z) :
  (∀ a b, cmp a b = cmp3 (r a) (r b)) → WeakOrder (λ x y, 0 <? cmp y x).
Proof.
  intros Hr. split; intros *; rewrite !Hr; unfold cmp3; zbool; intros; zbool; try done; lia.
Qed.

(** ** Keys are in the order of the ranks

    What the encoding tells apart: not the two zeros of a floating-point type,
    and not a null placed last from the largest number of its type. *)
Definition cell_plain (col : column) (first : bool) (v : Z) : Prop :=
  cell_ok (col_type col) v ∧
  match col_type col with
  | F64 => v ≠ 2 ^ 63 ∧ (has_nulls col = false → f64_is_nan v = false)
  | F32 => v ≠ 2 ^ 31 ∧ (has_nulls col = false → f32_is_nan v = false)
  | I64 | TIMESTAMP => has_nulls col = true → first = false → v ≠ 2 ^ 63 - 1
  | I32 | DATE | TIME => has_nulls col = true → first = false → v ≠ 2 ^ 31 - 1
  | _ => True
  end.

(** The low bytes of a key. *)
Definition low_base (col : column) (first : bool) (v : Z) : Z :=
  match col_type col with
  | I32 | DATE | TIME => if cell_is_null col v && negb first then 2 ^ 32 - 1 else base_key col first v
  | _ => base_key col first v
  end.

Lemma null_cases col v :
  cell_is_null col v = has_nulls col && sentinel_is_null (col_type col) v.
Proof. unfold cell_is_null. by destruct (has_nulls col). Qed.

Lemma low_base_spec col first v :
  cell_ok (col_type col) v → base_key col first v mod 2 ^ (8 * key_nbytes_max col) = low_base col first v.
Proof.
  intros Hok. unfold low_base, base_key, key_nbytes_max. rewrite null_cases. unfold cell_ok, in_s, in_u in Hok. cbv zeta.
  destruct (col_type col); cbn [radix_key_bytes sentinel_is_null] in *; destruct (has_nulls col); cbn [andb negb Z.ltb];
    repeat match goal with |- context [if ?b then _ else _] => destruct b eqn:? end; try discriminate;
    zbool; try (apply Z.mod_small; lia); try done.
Qed.

Lemma base_rank_order col first v w :
  cell_plain col first v → cell_plain col first w →
  (base_key col first v < base_key col first w ↔ up_rank col first v < up_rank col first w) ∧
  (low_base col first v < low_base col first w ↔ up_rank col first v < up_rank col first w).
Proof.
  intros [Hv Hv'] [Hw Hw']. unfold low_base, base_key, up_rank, cell_ord, f64_ord, f32_ord, NULL_RANK. rewrite !null_cases.
  unfold cell_ok, in_s, in_u in *. cbv zeta.
  assert (Hn1 : ∀ v, f64_is_nan v = false → v ≠ 2 ^ 63 - 1 ∧ v ≠ 2 ^ 64 - 1) by (intros ? Hn; split; intros ->; done).
  assert (Hn2 : ∀ v, f32_is_nan v = false → v ≠ 2 ^ 31 - 1 ∧ v ≠ 2 ^ 32 - 1) by (intros ? Hn; split; intros ->; done).
  pose proof (Hn1 v). pose proof (Hn1 w). pose proof (Hn2 v). pose proof (Hn2 w). clear Hn1 Hn2.
  destruct (col_type col) eqn:Ht; cbn [sentinel_is_null] in *; destruct (has_nulls col); cbn [andb negb] in *;
    destruct first; cbn [andb negb] in *; unfold NULL_I64, NULL_I32, NULL_I16 in *;
    repeat match goal with
    | |- context [f64_is_nan ?x] => destruct (f64_is_nan x)
    | |- context [f32_is_nan ?x] => destruct (f32_is_nan x)
    | |- context [?a =? ?b] => destruct (Z.eqb_spec a b)
    | H : ?a = ?a → _ |- _ => specialize (H eq_refl)
    | H : _ ∧ _ |- _ => destruct H
    end; try discriminate; cbn [andb]; zbool; lia.
Qed.

Lemma complement_mod w m e : 0 ≤ m ≤ w → (2 ^ w - 1 - e) mod 2 ^ m = 2 ^ m - 1 - e mod 2 ^ m.
Proof.
  intros Hm. assert (0 < 2 ^ m) by (apply Z.pow_pos_nonneg; lia).
  pose proof (Z.div_mod e (2 ^ m) ltac:(lia)). pose proof (Z.mod_pos_bound e (2 ^ m) ltac:(lia)).
  replace w with (w - m + m) by lia. rewrite Z.pow_add_r by lia. symmetry.
  apply Z.mod_unique with (2 ^ (w - m) - 1 - e / 2 ^ m); nia.
Qed.
Lemma key_nbytes_width col : 0 < key_nbytes_max col ≤ 8 ∧ 8 * key_nbytes_max col ≤ key_width (col_type col).
Proof. unfold key_nbytes_max. by destruct (col_type col), (has_nulls col). Qed.

(** The keys, in full and in their low bytes, are in the order of the ranks. *)
Theorem encode_order col desc nf v w :
  cell_plain col (xorb nf desc) v → cell_plain col (xorb nf desc) w →
  let enc := encode_cell col desc nf in
  let m := 8 * key_nbytes_max col in
  (enc v < enc w ↔ cell_rank col desc nf v < cell_rank col desc nf w) ∧
  (enc v mod 2 ^ m < enc w mod 2 ^ m ↔ cell_rank col desc nf v < cell_rank col desc nf w).
Proof.
  intros Hv Hw enc m. unfold enc. rewrite !encode_closed by apply Hv || apply Hw. cbv zeta. unfold cell_rank. cbv zeta.
  pose proof (key_nbytes_width col) as [_ Hm].
  pose proof (base_rank_order col _ v w Hv Hw) as [Hb Hl]. pose proof (base_rank_order col _ w v Hw Hv) as [Hb' Hl'].
  pose proof (low_base_spec col (xorb nf desc) v (proj1 Hv)) as Hlv. pose proof (low_base_spec col (xorb nf desc) w (proj1 Hw)) as Hlw.
  fold m in Hlv, Hlw, Hm. destruct desc; [rewrite !complement_mod by (unfold m in *; pose proof (key_nbytes_width col); lia)|]; rewrite ?Hlv, ?Hlw; lia.
Qed.
Lemma encode_eq col desc nf v w :
  cell_plain col (xorb nf desc) v → cell_plain col (xorb nf desc) w →
  let m := 8 * key_nbytes_max col in
  (encode_cell col desc nf v = encode_cell col desc nf w ↔ cell_rank col desc nf v = cell_rank col desc nf w) ∧
  (encode_cell col desc nf v mod 2 ^ m = encode_cell col desc nf w mod 2 ^ m ↔ cell_rank col desc nf v = cell_rank col desc nf w).
Proof.
  intros Hv Hw m. destruct (encode_order col desc nf v w Hv Hw) as [H1 H2]. destruct (encode_order col desc nf w v Hw Hv) as [H3 H4].
  fold m in H2, H4. lia.
Qed.
Lemma encode_range col desc nf v :
  cell_ok (col_type col) v → 0 ≤ encode_cell col desc nf v < 2 ^ key_width (col_type col).
Proof.
  intros Hv. rewrite encode_closed by done. pose proof (base_key_range col (xorb nf desc) v Hv). cbv zeta. destruct desc; lia.
Qed.

(** ** Decoding *)
Definition shifted (col : column) : bool :=
  has_nulls col && match col_type col with BOOL | U8 | I16 => true | _ => false end.

Lemma xor_sign k v : 0 ≤ k → in_s (k + 1) v → swrap (k + 1) (Z.lxor (v + 2 ^ k) (2 ^ k)) = v.
Proof.
  intros Hk Hv. rewrite <- flip_sign by done. rewrite Z.lxor_assoc, Z.lxor_nilpotent, Z.lxor_0_r.
  apply swrap_wrap; [lia|done].
Qed.
Lemma float_unkey k v :
  0 ≤ k → 0 ≤ v < 2 ^ (k + 1) →
  let e := if v <? 2 ^ k then v + 2 ^ k else 2 ^ (k + 1) - 1 - v in
  Z.lxor e (if Z.shiftr e k =? 0 then 2 ^ (k + 1) - 1 else 2 ^ k) = v.
Proof.
  intros Hk Hv e. assert (Hp : 2 ^ (k + 1) = 2 * 2 ^ k) by (rewrite Z.pow_add_r by lia; lia).
  assert (0 < 2 ^ k) by (apply Z.pow_pos_nonneg; lia). rewrite Z.shiftr_div_pow2 by done. unfold e.
  destruct (Z.ltb_spec v (2 ^ k)).
  - assert ((v + 2 ^ k) / 2 ^ k = 1) as ->. { symmetry. apply Z.div_unique with v; lia. }
    cbn [Z.eqb]. rewrite xor_top by lia. zbool; lia.
  - rewrite Z.div_small by lia. cbn [Z.eqb]. rewrite xor_ones by lia. lia.
Qed.
Lemma not_undo k (desc : bool) e :
  0 ≤ k → 0 ≤ e < 2 ^ k →
  (if desc then wrap k (Z.lnot (if desc then 2 ^ k - 1 - e else e)) else if desc then 2 ^ k - 1 - e else e) = e.
Proof. intros Hk He. destruct desc; [|done]. rewrite lnot_wrap by lia. lia. Qed.

Lemma decode_encode col desc nf v :
  cell_plain col (xorb nf desc) v → cell_is_null col v = false → shifted col = false →
  decode_key (col_type col) desc (encode_cell col desc nf v) = v.
Proof.
  intros [Hok Hpl] Hnull Hsh. rewrite encode_closed by done. cbv zeta. set (first := xorb nf desc) in *.
  pose proof (base_key_range col first v Hok) as Hr.
  assert (Hb : base_key col first v = match col_type col with
     | I64 | TIMESTAMP => v + 2 ^ 63 | I32 | DATE | TIME => v + 2 ^ 31 | I16 => v + 2 ^ 15 | BOOL | U8 => v
     | F64 => if v <? 2 ^ 63 then v + 2 ^ 63 else 2 ^ 64 - 1 - v
     | F32 => if v <? 2 ^ 31 then v + 2 ^ 31 else 2 ^ 32 - 1 - v end).
  { unfold base_key. rewrite Hnull. rewrite null_cases in Hnull. unfold shifted in Hsh.
    destruct (col_type col), (has_nulls col); cbn [sentinel_is_null andb] in *; try done;
      destruct Hpl as [_ Hpl]; (by rewrite Hnull) || by rewrite Hpl. }
  rewrite Hb in *. clear Hb Hpl Hnull Hsh. unfold decode_key, key_width, not64, not32, cell_ok in *. unfold in_u in Hok.
  destruct (col_type col); cbv zeta; try rewrite (not_undo 64 desc) by lia.
  all: try (by apply (xor_sign 63)). all: try (rewrite (wrap_id _ (v + _)) by (unfold in_u, in_s in *; lia)).
  all: try (by apply (xor_sign 31)). all: try (by apply (xor_sign 15)).
  - by apply (float_unkey 63).
  - rewrite (wrap_id 32 (if desc then _ else _)) by (unfold in_u; destruct desc; lia). rewrite (not_undo 32 desc) by lia. by apply (float_unkey 31).
  - by apply wrap_id.
  - by apply wrap_id.
Qed.
