(* ===== verification/SortPar.v ===== *)
(** * Loops over the rows, on the pool or in one thread

    Loops that write one element per row give the same array in any order of
    tasks; the scans of the keys (significant bytes, pairs out of order) are
    characterised by what a result of theirs implies. *)

From stdpp Require Import sorting.
From S2P Require Import Prelude Pool PoolProofs Rowsel RowselProofs Sort SortOrder SortRadix SortScatter SortLsd.
Local Open Scope Z_scope.

Lemma zget_table {A} (g : Z → A) n i : 0 ≤ i < n → (map g (range 0 n)).[i] = Some (g i).
Proof.
  intros Hi. rewrite zget_nat by lia. rewrite list_lookup_fmap. unfold range.
  rewrite lookup_seqZ_lt by lia. cbn. do 2 f_equal. lia.
Qed.
Lemma zlen_table {A} (g : Z → A) n : 0 ≤ n → zlen (map g (range 0 n)) = n.
Proof. intros Hn. rewrite zlen_map, zlen_range. lia. Qed.

Lemma elem_of_table {A} (g : Z → A) n i : 0 ≤ i < n → g i ∈ map g (range 0 n).
Proof. intros Hi. apply list_elem_of_fmap. exists i. split; [done|]. by apply elem_of_range. Qed.
Lemma table_of_list {A} (g : Z → A) l n : zlen l = n → map (λ i, g (default 0 l.[i])) (range 0 n) = map g l.
Proof.
  intros Hl. pose proof (zlen_nonneg l). apply zlist_ext; [by rewrite zlen_table, zlen_map by lia|]. intros j Hj.
  rewrite zlen_table in Hj by lia. rewrite zget_table by done. rewrite (zget_nat (map _ _)) by lia.
  rewrite list_lookup_fmap, <- zget_nat by lia. by destruct (zget_is_Some l j) as [r ->]; [lia|].
Qed.

(** Every row is written once. *)
Lemma fill_ok {A} (body : Z → list A → option (list A)) (g : Z → A) l n a :
  0 ≤ n → l ≡ₚ range 0 n → zlen a = n → (∀ i a, 0 ≤ i < n → body i a = zset a i (g i)) →
  foldM body l a = Some (map g (range 0 n)).
Proof.
  intros Hn Hl Ha Hb.
  destruct (foldM_done body (λ pre a', zlen a' = n ∧ ∀ i, i ∈ pre → a'.[i] = Some (g i)) l a) as (a' & -> & Hla & Hg).
  - split; [done|]. intros i []%not_elem_of_nil.
  - intros pre i post a1 Hsplit [Hl1 Hpre]. assert (Hi : 0 ≤ i < n).
    { apply elem_of_range. rewrite <- Hl, Hsplit. set_solver. }
    rewrite Hb by done. destruct (zset_total a1 i (g i)) as [a2 Ha2]; [lia|]. exists a2. split; [done|].
    split; [by rewrite (zlen_zset _ _ _ _ Ha2)|]. intros j Hj. destruct (decide (j = i)) as [->|Hne]; [by eapply zget_zset_eq|].
    rewrite (zget_zset_ne _ _ _ _ _ Ha2) by done. apply Hpre. set_solver.
  - f_equal. apply zlist_ext; [by rewrite zlen_table|]. intros j Hj. rewrite zget_table by lia. apply Hg. rewrite Hl. apply elem_of_range. lia.
Qed.

(** The bounds of tasks of the usual grain, or of the one task without a pool. *)
Definition aligned (pool : bool) (a b : Z) : Prop := a mod TASK_GRAIN = 0 ∧ (pool = true → b ≤ a + TASK_GRAIN).
Lemma grain_value : TASK_GRAIN = 8192.
Proof. done. Qed.

Section pool.
Context `{Dispatcher} `{!DispatcherLaws} `{Workers} `{!WorkersLaws}.

(** The ring has room for one task per grain, so tasks are not enlarged. *)
Definition grain_kept (n : Z) : Prop :=
  let k := (n + TASK_GRAIN - 1) / TASK_GRAIN in k ≤ ring_reserve ring_realloc_ok ring_cap k.

Definition pool_workers (pool : bool) : Z := if pool then total_workers else 1.
Lemma pool_workers_pos pool : 1 ≤ pool_workers pool.
Proof. pose proof total_workers_ok. destruct pool; cbn; lia. Qed.

(** A loop body run on every row. *)
Lemma par_each {S} pool (fn : Z → Z → Z → S → option S) (body : Z → S → option S) n s :
  0 ≤ n ≤ 2 ^ 44 → (∀ w a b s, fn w a b s = foldM body (range a b) s) →
  ∃ l, l ≡ₚ range 0 n ∧ par pool fn n s = foldM body l s.
Proof.
  intros Hn Hfn. destruct pool; [|exists (range 0 n); split; [done|apply Hfn]]. cbn. unfold ray_pool_dispatch_w.
  destruct ring_cap_ok as (k & Hk & Hrc). destruct (dispatch_tasks ring_realloc_ok ring_cap 0 n) as [cap ts] eqn:Hd. rewrite Hrc in Hd. cbn [snd].
  exists (mjoin (map task_elems (run_order ts))). split.
  - rewrite <- (dispatch_tasks_cover _ _ _ _ _ _ Hk Hn Hd). apply mjoin_map_Permutation, run_order_perm.
  - rewrite <- foldM_tasks. apply foldM_ext. intros. apply Hfn.
Qed.
Lemma par_fill {A} pool (fn : Z → Z → Z → list A → option (list A)) (body : Z → list A → option (list A)) (g : Z → A) n a :
  0 ≤ n ≤ 2 ^ 44 → (∀ w x y s, fn w x y s = foldM body (range x y) s) → zlen a = n →
  (∀ i a, 0 ≤ i < n → body i a = zset a i (g i)) → par pool fn n a = Some (map g (range 0 n)).
Proof.
  intros Hn Hfn Ha Hb. destruct (par_each pool fn body n a Hn Hfn) as (l & Hl & ->). by apply fill_ok; [lia|..].
Qed.

(** A dispatch whose work function keeps an invariant of the rows done. *)
Lemma par_tasks {S} pool (fn : Z → Z → Z → S → option S) (P : list Z → S → Prop) n s :
  0 < n ≤ 2 ^ 40 → (pool = true → grain_kept n) → P [] s →
  (∀ pre w a b s, 0 ≤ a < b → b ≤ n → aligned pool a b → (∀ i, i ∈ pre → ¬ a ≤ i < b) → 0 ≤ w < pool_workers pool → P pre s →
     ∃ s', fn w a b s = Some s' ∧ P (pre ++ range a b) s') →
  ∃ s' l, par pool fn n s = Some s' ∧ l ≡ₚ range 0 n ∧ P l s'.
Proof.
  intros Hn Hgrain Hinit Hstep. destruct pool; cbn.
  2:{ destruct (Hstep [] 0 0 n s) as (s' & ? & ?); [lia|lia|by split|by intros ? []%not_elem_of_nil|done|done|].
      by exists s', (range 0 n). }
  specialize (Hgrain eq_refl). unfold grain_kept in Hgrain. cbv zeta in Hgrain. rewrite grain_value in *.
  set (k := (n + 8192 - 1) / 8192) in *.
  assert (Hk : n ≤ k * 8192 < n + 8192).
  { unfold k. pose proof (Z.div_mod (n + 8192 - 1) 8192). pose proof (Z.mod_pos_bound (n + 8192 - 1) 8192). lia. }
  set (ts := map (mk_task 0 8192 n) (range 0 k)).
  assert (Hd : dispatch_tasks ring_realloc_ok ring_cap 0 n = (ring_reserve ring_realloc_ok ring_cap k, ts)).
  { unfold dispatch_tasks. rewrite (proj2 (Z.leb_gt n 0)) by lia. cbv zeta.
    change (INT64_MAX - TASK_GRAIN + 1) with (2 ^ 63 - 8192). rewrite (proj2 (Z.ltb_ge (2 ^ 63 - 8192) n)) by lia.
    rewrite grain_value. fold k. rewrite (wrap_id 32 k) by (unfold in_u; lia). by rewrite (proj2 (Z.ltb_ge _ _)) by done. }
  unfold ray_pool_dispatch_w. rewrite Hd. cbn [snd].
  pose proof (run_order_perm ts) as Hp. apply Permutation_map_inv in Hp as (l & -> & Hp). rewrite foldM_map.
  destruct (foldM_done (λ j, let t := mk_task 0 8192 n j in fn (task_wid t) (t_start t) (t_end t))
    (λ pre, P (mjoin (map (λ j, task_elems (mk_task 0 8192 n j)) pre))) l s) as (s' & Hrun & HP); [done| |].
  - intros pre j post s1 Hsplit HP. assert (Hj : 0 ≤ j < k). { apply elem_of_range. rewrite Hp, Hsplit. set_solver. }
    set (t := mk_task 0 8192 n j). assert (Ht : t_start t = j * 8192 ∧ t_end t = Z.min n (j * 8192 + 8192)).
    { unfold t, mk_task. cbn. zbool; lia. }
    destruct Ht as [Hts Hte]. destruct (Hstep (mjoin (map (λ j, task_elems (mk_task 0 8192 n j)) pre)) (task_wid t) (t_start t) (t_end t) s1) as (s2 & ? & ?); [lia|lia| | |by apply task_wid_ok|exact HP|].
    + split; [rewrite Hts; rewrite grain_value; apply Z.mod_mul; lia|]. intros _. rewrite grain_value. lia.
    + intros i (js & Hi & Hjs)%list_elem_of_join Hin. apply list_elem_of_fmap in Hjs as (j' & -> & Hj').
      unfold task_elems in Hi. apply elem_of_range in Hi. cbn in Hi.
      assert (j' = j) as ->. { revert Hi. zbool; lia. }
      assert (Hnd : NoDup l) by (rewrite <- Hp; apply NoDup_range). rewrite Hsplit in Hnd.
      apply NoDup_app in Hnd as (_ & Hdj & _). apply (Hdj j Hj'). by left.
    + exists s2. split; [done|]. rewrite map_app, join_app. cbn [map]. rewrite mjoin_cons, app_nil_r. done.
  - exists s', (mjoin (map (λ j, task_elems (mk_task 0 8192 n j)) l)). split; [exact Hrun|]. split; [|exact HP].
    rewrite <- (map_map (mk_task 0 8192 n) task_elems). destruct ring_cap_ok as (c & Hc & Hrc). rewrite Hrc in Hd.
    assert (Hcov : mjoin (map task_elems ts) = range 0 n) by (eapply dispatch_tasks_cover; [exact Hc| |exact Hd]; lia).
    rewrite <- Hcov. apply mjoin_map_Permutation. unfold ts. by rewrite Hp.
Qed.
End pool.

(** ** Significant bytes *)
Lemma byte_count_spec fuel diff :
  0 ≤ diff < 2 ^ (8 * Z.of_nat fuel) → 0 ≤ byte_count fuel diff ∧ Z.shiftr diff (8 * byte_count fuel diff) = 0.
Proof.
  revert diff. induction fuel as [|fuel IH]; intros diff Hd; cbn [byte_count].
  { cbn in Hd. split; [lia|]. assert (diff = 0) as -> by lia. done. }
  destruct (Z.eqb_spec diff 0) as [->|Hne]; [split; [lia|by rewrite Z.shiftr_0_l]|].
  destruct (IH (Z.shiftr diff 8)) as [Hb Hs].
  { rewrite Z.shiftr_div_pow2 by lia. split; [by apply Z.div_pos; lia|]. apply Z.div_lt_upper_bound; [lia|].
    rewrite <- Z.pow_add_r by lia. replace (8 + 8 * Z.of_nat fuel) with (8 * Z.of_nat (S fuel)) by lia. lia. }
  split; [lia|]. rewrite Z.shiftr_shiftr in Hs by lia. rewrite <- Hs. f_equal. lia.
Qed.
Lemma byte_count_bounds fuel diff : 0 ≤ byte_count fuel diff ≤ Z.of_nat fuel.
Proof.
  revert diff. induction fuel as [|fuel IH]; intros diff; cbn [byte_count]; [lia|].
  destruct (_ =? _); [lia|]. specialize (IH (Z.shiftr diff 8)). lia.
Qed.
Lemma xor_shift a b m : 0 ≤ m → Z.shiftr (Z.lxor a b) m = 0 → a / 2 ^ m = b / 2 ^ m.
Proof. intros Hm. rewrite Z.shiftr_lxor, Z.lxor_eq_0_iff, !Z.shiftr_div_pow2 by done. done. Qed.

(** Every bit in which [k] differs from [first] is a bit of [diff]. *)
Definition covers (first diff k : Z) : Prop := ∀ m, 0 ≤ m → Z.shiftr diff m = 0 → Z.shiftr (Z.lxor k first) m = 0.
Lemma covers_lor first diff k k' : covers first diff k → covers first (Z.lor diff k') k.
Proof. intros Hc m Hm. rewrite Z.shiftr_lor, Z.lor_eq_0_iff. intros [Hd _]. by apply Hc. Qed.
Lemma covers_new first diff k : covers first (Z.lor diff (Z.lxor k first)) k.
Proof. intros m Hm. rewrite Z.shiftr_lor, Z.lor_eq_0_iff. by intros [_ Hd]. Qed.

(** Counts of pairs out of order *)
Lemma add_at_spec a k d :
  0 ≤ k < zlen a → ∃ a', add_at a k d = Some a' ∧ zlen a' = zlen a ∧ zsum a' = zsum a + d.
Proof.
  intros Hk. unfold add_at. destruct (zget_is_Some a k Hk) as [x Hx]. rewrite Hx. cbn [mbind option_bind].
  destruct (zset_total a k (x + d) Hk) as [a' Ha']. exists a'. split; [done|]. split; [by eapply zlen_zset|].
  apply zset_inv in Ha' as [_ ->]. rewrite zget_nat in Hx by lia.
  rewrite <- (take_drop_middle a (Z.to_nat k) x Hx) at 2. rewrite insert_take_drop by (unfold zlen in *; lia).
  rewrite !zsum_app. unfold zsum. cbn. lia.
Qed.
Lemma count_unsorted_spec keys at_ n0 :
  (∀ i, i ∈ at_ → 1 ≤ i < zlen keys) →
  ∃ c, count_unsorted keys at_ n0 = Some c ∧ n0 ≤ c ∧
    (c = n0 → ∀ i x y, i ∈ at_ → keys.[i - 1] = Some x → keys.[i] = Some y → x ≤ y).
Proof.
  intros Hin. unfold count_unsorted.
  apply (foldM_done _ (λ pre c, n0 ≤ c ∧ (c = n0 → ∀ i x y, i ∈ pre → keys.[i - 1] = Some x → keys.[i] = Some y → x ≤ y))).
  - split; [lia|]. intros _ i x y []%not_elem_of_nil.
  - intros pre i post c Hsplit [Hle Hc]. assert (1 ≤ i < zlen keys) by (apply Hin; set_solver).
    destruct (zget_is_Some keys (i - 1)) as [x Hx]; [lia|]. destruct (zget_is_Some keys i) as [y Hy]; [lia|].
    rewrite Hx, Hy. cbn [mbind option_bind]. eexists. split; [done|]. destruct (Z.ltb_spec y x); (split; [lia|]); [lia|].
    intros Hc0 j x' y' Hj Hx' Hy'. apply elem_of_app in Hj as [Hj|Hj%list_elem_of_singleton].
    + eapply Hc; [lia|done|done|done].
    + subst j. simplify_eq. lia.
Qed.
Lemma elem_of_task_bounds b n : b ∈ task_bounds n ↔ 0 < b < n ∧ b mod TASK_GRAIN = 0.
Proof.
  unfold task_bounds. rewrite list_elem_of_In, filter_In, <- list_elem_of_In, list_elem_of_fmap, grain_value.
  pose proof (Z.div_mod b 8192). pose proof (Z.mod_pos_bound b 8192).
  pose proof (Z.div_mod n 8192). pose proof (Z.mod_pos_bound n 8192). rewrite Z.ltb_lt. split.
  - intros [(k & -> & Hk) Hlt]. apply elem_of_range in Hk. split; [lia|]. apply Z.mod_mul. lia.
  - intros [Hb Hm]. split; [|lia]. exists (b / 8192). split; [lia|]. apply elem_of_range. nia.
Qed.

(** The low [nb] of [w] bytes tell the keys apart. *)
Definition bytes_suffice (w nb : Z) (keys : list Z) : Prop :=
  ∀ x y, x ∈ keys → y ∈ keys → nb < w → x / 2 ^ (8 * nb) = y / 2 ^ (8 * nb).

Section scans.
Context `{Dispatcher} `{!DispatcherLaws} `{Workers} `{!WorkersLaws}.

Lemma nbytes_of_diff keys first diff w :
  1 ≤ w ≤ 8 → 0 ≤ diff < 2 ^ 64 → (∀ k, k ∈ keys → covers first diff k) →
  let nb := let nb := byte_count 8 diff in let nb := if nb <? 1 then 1 else nb in if nb <? w then nb else w in
  bytes_suffice w nb keys.
Proof.
  intros Hw Hd Hc nb x y Hx Hy Hlt. destruct (byte_count_spec 8 diff Hd) as [Hb Hs].
  assert (Hnb : byte_count 8 diff ≤ nb ∧ 0 ≤ nb) by (revert Hlt Hb; unfold nb; clear; generalize (byte_count 8 diff) as bc; cbv zeta; intros bc; zbool; lia).
  assert (Hz : Z.shiftr diff (8 * nb) = 0).
  { replace (8 * nb) with (8 * byte_count 8 diff + (8 * nb - 8 * byte_count 8 diff)) by lia.
    rewrite <- Z.shiftr_shiftr by lia. by rewrite Hs, Z.shiftr_0_l. }
  transitivity (first / 2 ^ (8 * nb)); [|symmetry]; (apply xor_shift; [lia|]); apply Hc; [done|lia|done|done|lia|done].
Qed.

Lemma lor_keys_total (f : Z → Z → option Z) (l : list Z) acc :
  (∀ i a, i ∈ l → is_Some (f i a)) → is_Some (foldM f l acc).
Proof.
  intros Hf. destruct (foldM_done f (λ _ _, True) l acc) as (s & -> & _); [done| |done].
  intros pre i post a Hs _. destruct (Hf i a) as [a' ->]; [set_solver|]. by exists a'.
Qed.

Lemma in_u64_shift x : in_u 64 x ↔ 0 ≤ x ∧ Z.shiftr x 64 = 0.
Proof.
  unfold in_u. rewrite Z.shiftr_div_pow2 by lia. split.
  - intros Hx. split; [lia|]. apply Z.div_small. lia.
  - intros [H0' Hd]. pose proof (Z.div_mod x (2 ^ 64) ltac:(lia)). pose proof (Z.mod_pos_bound x (2 ^ 64) ltac:(lia)). lia.
Qed.
Lemma in_u64_lor_xor d k f : in_u 64 d → in_u 64 k → in_u 64 f → in_u 64 (Z.lor d (Z.lxor k f)).
Proof.
  rewrite !in_u64_shift. intros [? Hd] [? Hk] [? Hf]. split.
  - apply Z.lor_nonneg. split; [done|]. by apply Z.lxor_nonneg.
  - by rewrite Z.shiftr_lor, Z.shiftr_lxor, Hd, Hk, Hf.
Qed.

Lemma compute_key_nbytes_ok pool keys n w :
  n = zlen keys → 0 < n ≤ 2 ^ 40 → (pool = true → grain_kept n) → 1 ≤ w ≤ 8 → Forall (in_u 64) keys →
  ∃ nb, compute_key_nbytes pool keys n w = Some nb ∧ 1 ≤ nb ≤ w ∧
    (pool && (SMALL_POOL_THRESHOLD <? n) = false → bytes_suffice w nb keys).
Proof.
  intros Hn Hmax Hgrain Hw Hk. rewrite Forall_forall in Hk. unfold compute_key_nbytes.
  assert (Hget : ∀ i, 0 ≤ i < n → ∃ k, keys.[i] = Some k ∧ in_u 64 k ∧ k ∈ keys).
  { intros i Hi. destruct (zget_is_Some keys i) as [k Hki]; [lia|]. assert (k ∈ keys) by (apply elem_of_zget; exists i; split; [lia|done]).
    exists k. split; [done|]. split; [by apply Hk|done]. }
  destruct (Z.leb_spec n 1).
  { exists 1. split; [done|]. split; [lia|]. intros _ x y Hx Hy _. apply elem_of_zget in Hx as (i & Hi & Hx), Hy as (j & Hj & Hy).
    assert (i = j) as -> by lia. congruence. }
  assert (Hnb : ∀ diff, 1 ≤ (let nb := byte_count 8 diff in let nb := if nb <? 1 then 1 else nb in if nb <? w then nb else w) ≤ w).
  { intros diff. pose proof (byte_count_bounds 8 diff) as Hbc. revert Hbc. generalize (byte_count 8 diff) as bc. cbv zeta. intros bc. zbool; lia. }
  destruct (Hget 0) as (first & Hfirst & Hf64 & _); [lia|].
  destruct (pool && (SMALL_POOL_THRESHOLD <? n)) eqn:Hpool.
  - assert (pool = true) as -> by (by destruct pool). pose proof total_workers_ok as HT.
    destruct (par_tasks true (key_range_fn keys) (λ _ pw, zlen pw = total_workers) n (replicate (Z.to_nat total_workers) 0))
      as (pw & l & Hrun & _ & Hpw); [lia|done|autorewrite with zlen; lia| |].
    { intros pre wid a b s Ha Hb _ _ Hwid Hs. unfold key_range_fn. cbn in Hwid.
      destruct (zget_is_Some s wid) as [o ->]; [lia|]. destruct (Hget a) as (ka & -> & _); [lia|]. cbn [mbind option_bind].
      destruct (lor_keys_total (λ i acc, k ← keys.[i]; Some (Z.lor acc (Z.lxor k ka))) (range a b) o) as [o' ->].
      { intros i acc Hi%elem_of_range. destruct (Hget i) as (k & -> & _); [lia|done]. }
      destruct (zset_total s wid o') as [s' Hs']; [lia|]. exists s'. split; [done|]. by rewrite (zlen_zset _ _ _ _ Hs'). }
    cbn [par] in Hrun. cbv zeta. rewrite Hrun, Hfirst. cbn [mbind option_bind].
    destruct (lor_keys_total (λ w0 diff, if w0 * ((n + total_workers - 1) / total_workers) <? n
          then k ← keys.[w0 * ((n + total_workers - 1) / total_workers)]; Some (Z.lor diff (Z.lxor k first)) else Some diff)
      (range 1 total_workers) (foldl Z.lor 0 pw)) as [diff Hd].
    { intros i acc Hi%elem_of_range. destruct (Z.ltb_spec (i * ((n + total_workers - 1) / total_workers)) n); [|done].
      destruct (Hget (i * ((n + total_workers - 1) / total_workers))) as (k & -> & _); [|done].
      split; [|done]. assert (0 ≤ (n + total_workers - 1) / total_workers) by (apply Z.div_pos; lia). nia. }
    rewrite Hd. cbn [mbind option_bind]. eexists. split; [done|]. split; [apply Hnb|done].
  - rewrite Hfirst. cbn [mbind option_bind].
    destruct (foldM_range (λ i diff, k ← keys.[i]; Some (Z.lor diff (Z.lxor k first)))
      (λ i diff, in_u 64 diff ∧ ∀ j k, 0 ≤ j < i → keys.[j] = Some k → covers first diff k) 1 n 0) as (diff & Hd & Hd64 & Hc); [lia| | |].
    + split; [done|]. intros j k Hj Hkj m _ _. assert (j = 0) as -> by lia. assert (k = first) as -> by congruence.
      by rewrite Z.lxor_nilpotent, Z.shiftr_0_l.
    + intros i d Hi [Hd Hc]. destruct (Hget i) as (k & Hki & Hk64 & _); [lia|]. rewrite Hki. cbn [mbind option_bind]. eexists. split; [done|].
      split; [by apply in_u64_lor_xor|]. intros j k' Hj Hkj. destruct (decide (j = i)) as [->|Hne].
      * assert (k' = k) as -> by congruence. apply covers_new.
      * apply covers_lor. apply (Hc j); [lia|done].
    + rewrite Hd. cbn [mbind option_bind]. eexists. split; [done|]. split; [apply Hnb|]. intros _.
      apply (nbytes_of_diff keys first diff w); [done|exact Hd64|]. intros k (j & Hj & Hkj)%elem_of_zget. apply (Hc j); [lia|done].
Qed.

(** No pair out of order: the keys are in order. *)
Lemma detect_sortedness_ok pool keys n :
  n = zlen keys → 0 < n ≤ 2 ^ 40 → (pool = true → grain_kept n) →
  ∃ c, detect_sortedness pool keys n = Some c ∧
    (c = 0 → ∀ i x y, 1 ≤ i < n → keys.[i - 1] = Some x → keys.[i] = Some y → x ≤ y).
Proof.
  intros Hn Hmax Hgrain. unfold detect_sortedness. destruct (Z.leb_spec n 1); [exists 0; split; [done|lia]|].
  destruct (pool && (SMALL_POOL_THRESHOLD <? n)) eqn:Hpool.
  - assert (pool = true) as -> by (by destruct pool). pose proof total_workers_ok as HT.
    set (ordered := λ i, ∀ x y, keys.[i - 1] = Some x → keys.[i] = Some y → x ≤ y).
    destruct (par_tasks true (sortedness_fn keys)
      (λ pre pw, zlen pw = total_workers ∧ 0 ≤ zsum pw ∧ (zsum pw = 0 → ∀ i, i ∈ pre → i mod TASK_GRAIN ≠ 0 → ordered i)) n
      (replicate (Z.to_nat total_workers) 0)) as (pw & l & Hrun & Hl & Hlpw & Hpos & Hz); [lia|done| | |].
    + autorewrite with zlen. split; [lia|]. assert (∀ m, zsum (replicate m 0) = 0) as -> by (by intros m; induction m).
      split; [lia|]. intros _ i []%not_elem_of_nil.
    + intros pre wid a b s Ha Hb [Hal _] _ Hwid (Hls & Hs & Hord). cbn in Hwid. unfold sortedness_fn.
      destruct (count_unsorted_spec keys (range (a + 1) b) 0) as (c & -> & Hc & Hco).
      { intros i Hi%elem_of_range. lia. }
      cbn [mbind option_bind]. destruct (add_at_spec s wid c) as (s' & -> & Hl' & Hs'); [lia|]. exists s'. split; [done|].
      split; [lia|]. split; [lia|]. intros Hs0 i Hi Hm. apply elem_of_app in Hi as [Hi|Hi%elem_of_range].
      * apply Hord; [lia|done|done].
      * intros x y Hx Hy. apply (Hco ltac:(lia) i x y); [|done|done]. apply elem_of_range.
        destruct (decide (i = a)) as [->|]; [done|lia].
    + cbn [par] in Hrun. cbv zeta. rewrite Hrun. cbn [mbind option_bind].
      destruct (count_unsorted_spec keys (task_bounds n) (zsum pw)) as (c & -> & Hc & Hco).
      { intros i Hi%elem_of_task_bounds. lia. }
      exists c. split; [done|]. intros -> i x y Hi Hx Hy. destruct (decide (i mod TASK_GRAIN = 0)) as [Hm|Hm].
      * apply (Hco ltac:(lia) i x y); [|done|done]. apply elem_of_task_bounds. split; [lia|done].
      * apply (Hz ltac:(lia) i); [|done|done|done]. rewrite Hl. apply elem_of_range. lia.
  - destruct (count_unsorted_spec keys (range 1 n) 0) as (c & -> & Hc & Hco). { intros i Hi%elem_of_range. lia. }
    exists c. split; [done|]. intros -> i x y Hi Hx Hy. apply (Hco eq_refl i x y); [|done|done]. by apply elem_of_range.
Qed.
End scans.

Section blind.
Context `{Dispatcher} `{!DispatcherLaws} `{Workers} `{!WorkersLaws}.

Lemma lor_same keys first lo hi acc :
  (∀ i, lo ≤ i < hi → keys.[i] = Some first) →
  foldM (λ i acc, k ← keys.[i]; Some (Z.lor acc (Z.lxor k first))) (range lo hi) acc = Some acc.
Proof.
  intros Hk. rewrite (foldM_pure _ (λ acc _, acc)).
  - f_equal. induction (range lo hi) as [|i l IH]; [done|exact IH].
  - intros i a Hi%elem_of_range. rewrite Hk by done. cbn [mbind option_bind]. by rewrite Z.lxor_nilpotent, Z.lor_0_r.
Qed.

(** Keys that differ only between tasks, and not where the chunks of the
    workers start, are found to have no significant byte. *)
Lemma scan_blind (f : Z → Z) n w :
  let chunk := (n + total_workers - 1) / total_workers in
  SMALL_POOL_THRESHOLD < n ≤ 2 ^ 40 → 1 ≤ w → grain_kept n →
  (∀ i, 0 ≤ i < n → f i = f (i / TASK_GRAIN * TASK_GRAIN)) →
  (∀ j, 0 ≤ j < total_workers → j * chunk < n → f (j * chunk) = f 0) →
  compute_key_nbytes true (map f (range 0 n)) n w = Some 1.
Proof.
  intros chunk Hn Hw Hg Hgrain Hstart. unfold SMALL_POOL_THRESHOLD in Hn. rewrite grain_value in Hgrain. pose proof total_workers_ok as HT.
  unfold compute_key_nbytes. rewrite (proj2 (Z.leb_gt n 1)) by lia. cbn [andb].
  change SMALL_POOL_THRESHOLD with 8192. rewrite (proj2 (Z.ltb_lt 8192 n)) by lia. cbv zeta. fold chunk.
  set (keys := map f (range 0 n)). assert (Hkey : ∀ i, 0 ≤ i < n → keys.[i] = Some (f i)) by (intros; by apply zget_table).
  set (zeros := replicate (Z.to_nat total_workers) 0).
  assert (Hz : ∀ i, 0 ≤ i < total_workers → zeros.[i] = Some 0).
  { intros i Hi. unfold zeros. rewrite zget_nat by lia. apply lookup_replicate_2. lia. }
  destruct (par_tasks true (key_range_fn keys) (λ _ pw, pw = zeros) n zeros) as (pw & l & Hrun & _ & ->); [lia|done|done| |].
  { intros pre wid a b s Ha Hb [Hal Hab] _ Hwid ->. exists zeros. split; [|done]. specialize (Hab eq_refl). rewrite grain_value in Hal, Hab.
    cbn in Hwid. unfold key_range_fn. rewrite Hz by done. cbn [mbind option_bind]. rewrite (Hkey a) by lia. cbn [mbind option_bind].
    rewrite lor_same.
    - cbn [mbind option_bind]. rewrite zset_Some by (unfold zeros; autorewrite with zlen; lia). f_equal. apply list_insert_id.
      rewrite <- zget_nat by lia. by apply Hz.
    - intros i Hi. rewrite Hkey by lia. f_equal. rewrite (Hgrain i), (Hgrain a) by lia. do 2 f_equal.
      pose proof (Z.div_mod a 8192). pose proof (Z.div_mod i 8192). pose proof (Z.mod_pos_bound i 8192). lia. }
  cbn [par] in Hrun. rewrite Hrun, (Hkey 0) by lia. cbn [mbind option_bind].
  assert (Hor : foldl Z.lor 0 zeros = 0) by (unfold zeros; clear; induction (Z.to_nat total_workers) as [|m IH]; [done|exact IH]). rewrite Hor.
  rewrite (foldM_pure _ (λ d _, d)).
  - assert (Hid : ∀ l : list Z, foldl (λ d (_ : Z), d) 0 l = 0) by (intros l'; by induction l').
    rewrite Hid. cbn -[Z.ltb]. f_equal. change (if 0 <? 1 then 1 else 0) with 1. destruct (Z.ltb_spec 1 w); lia.
  - intros j d Hj%elem_of_range. destruct (Z.ltb_spec (j * chunk) n); [|done].
    assert (0 ≤ chunk) by (apply Z.div_pos; lia). rewrite Hkey by nia. cbn [mbind option_bind]. rewrite Hstart by lia.
    by rewrite Z.lxor_nilpotent, Z.lor_0_r.
Qed.
End blind.
