(* ===== verification/SortPacked.v ===== *)
(** * Sorting the encoded keys

    The radix branch of a one-column sort on the keys [f i] of the rows [i]:
    packed words when a key is at most three bytes, pairs of keys and rows
    otherwise. *)

From stdpp Require Import sorting.
From S2P Require Import Prelude Pool PoolProofs Rowsel RowselProofs Sort SortOrder SortRadix SortScatter SortLsd SortMsd SortPar.
Local Open Scope Z_scope.

(** Rows by [g], then by number. *)
Definition row_before (g : Z → Z) (i j : Z) : Prop := g i < g j ∨ g i = g j ∧ i < j.

Lemma adjacent_le (g : Z → Z) n :
  (∀ i, 1 ≤ i < n → g (i - 1) ≤ g i) → ∀ i j, 0 ≤ i ≤ j → j < n → g i ≤ g j.
Proof.
  intros Hadj i j Hij. replace j with (i + Z.of_nat (Z.to_nat (j - i))) by lia. generalize (Z.to_nat (j - i)) as m.
  induction m as [|m IH]; intros Hj; [by rewrite Z.add_0_r|]. specialize (Hadj (i + Z.of_nat (S m)) ltac:(lia)).
  replace (i + Z.of_nat (S m) - 1) with (i + Z.of_nat m) in Hadj by lia. specialize (IH ltac:(lia)). lia.
Qed.
Lemma zget_range n i : 0 ≤ i < n → (range 0 n).[i] = Some i.
Proof. intros Hi. rewrite <- (map_id (range 0 n)). by apply (zget_table (λ i, i)). Qed.
Lemma identity_sorted g n :
  (∀ i, 1 ≤ i < n → g (i - 1) ≤ g i) → StronglySorted (row_before g) (range 0 n).
Proof.
  intros Hadj. apply StronglySorted_zget. intros j k x y Hjk Hx Hy. pose proof (zget_Some _ _ _ Hy) as Hk. rewrite zlen_range in Hk.
  rewrite zget_range in Hx, Hy by lia. simplify_eq. pose proof (adjacent_le g n Hadj x y). unfold row_before. lia.
Qed.
Lemma pairs_rows (f : Z → Z) l : map snd (map (λ i, (f i, i)) l) = l.
Proof. rewrite map_map. apply map_id. Qed.
Lemma pairs_row_lt (f : Z → Z) n : StronglySorted row_lt (map (λ i, (f i, i)) (range 0 n)).
Proof.
  apply StronglySorted_zget. intros j k x y Hjk Hx Hy. pose proof (zget_Some _ _ _ Hy) as Hk. rewrite zlen_map, zlen_range in Hk.
  rewrite zget_table in Hx, Hy by lia. simplify_eq. unfold row_lt. cbn. lia.
Qed.

(** Pairs of a key and its row. *)
Lemma pairs_perm (f : Z → Z) n (s : list kv) :
  s ≡ₚ map (λ i, (f i, i)) (range 0 n) →
  map snd s ≡ₚ range 0 n ∧ map fst s = map f (map snd s) ∧ ∀ x, x ∈ s → x = (f x.2, x.2).
Proof.
  intros Hp. assert (Hx : ∀ x, x ∈ s → x = (f x.2, x.2)).
  { intros x Hx. rewrite Hp in Hx. by apply list_elem_of_fmap in Hx as (i & -> & _). }
  split; [by rewrite Hp, pairs_rows|]. split; [|done]. rewrite map_map. apply map_ext_in. intros x Hin%list_elem_of_In.
  by rewrite (Hx x Hin).
Qed.
Lemma pairs_sorted (R : kv → kv → Prop) (Q : Z → Z → Prop) (f : Z → Z) (s : list kv) :
  (∀ x, x ∈ s → x = (f x.2, x.2)) → (∀ i j, R (f i, i) (f j, j) → Q i j) →
  StronglySorted R s → StronglySorted Q (map snd s).
Proof.
  intros Hx HR. induction 1 as [|x s Hs IH Hf]; [constructor|]. cbn [map]. constructor.
  - apply IH. intros y Hy. apply Hx. by right.
  - apply Forall_forall. intros j (y & -> & Hy)%list_elem_of_fmap. rewrite Forall_forall in Hf. specialize (Hf y Hy).
    apply HR. rewrite <- (Hx x), <- (Hx y); [done|by right|by left].
Qed.

(** ** Packed words *)
Lemma low_mask_mod bits x : 0 ≤ bits < 64 → Z.land x (low_mask bits) = x mod 2 ^ bits.
Proof.
  intros Hb. unfold low_mask. rewrite (proj2 (Z.ltb_lt _ _)) by lia. rewrite <- Z.land_ones by lia. f_equal.
Qed.
Lemma bit_count_spec fuel n : 0 ≤ n < 2 ^ Z.of_nat fuel → 0 ≤ bit_count fuel n ∧ n < 2 ^ bit_count fuel n.
Proof.
  revert n. induction fuel as [|fuel IH]; intros n Hn; cbn [bit_count]; [cbn in Hn |- *; lia|].
  destruct (Z.ltb_spec 0 n); [|lia]. rewrite Z.shiftr_div_pow2 by lia. change (2 ^ 1) with 2.
  pose proof (half_bounds n). destruct (IH (n / 2)) as [Hb Hlt].
  { split; [lia|]. replace (Z.of_nat (S fuel)) with (Z.of_nat fuel + 1) in Hn by lia. rewrite Z.pow_add_r in Hn by lia. lia. }
  split; [lia|]. rewrite Z.pow_add_r by lia. lia.
Qed.

Section packed.
Context `{Dispatcher} `{!DispatcherLaws} `{Workers} `{!WorkersLaws} `{Scratch}.
Context (pool : bool) (f : Z → Z) (n nb : Z).
Context (Hn : 0 < n < 2 ^ 32) (Hgrain : pool = true → grain_kept n).
Let kb := nb * 8.
Context (Hnb : 1 ≤ nb ≤ 3) (Hfit : kb + bit_count 63 n ≤ 64).
Let low i := f i mod 2 ^ (8 * nb).
Let pack i := low i + i * 2 ^ kb.

Lemma kb_range : 8 ≤ kb ≤ 24.
Proof. unfold kb. lia. Qed.
Lemma low_range i : 0 ≤ low i < 2 ^ kb.
Proof. unfold low, kb. replace (nb * 8) with (8 * nb) by lia. apply Z.mod_pos_bound. apply Z.pow_pos_nonneg; lia. Qed.
Lemma row_fits i : 0 ≤ i < n → i * 2 ^ kb < 2 ^ 64 - 2 ^ kb.
Proof.
  intros Hi. destruct (bit_count_spec 63 n) as [Hb Hlt]; [lia|]. pose proof kb_range.
  assert (0 < 2 ^ kb) by (apply Z.pow_pos_nonneg; lia).
  assert (2 ^ kb * 2 ^ bit_count 63 n ≤ 2 ^ 64).
  { rewrite <- Z.pow_add_r by lia. apply Z.pow_le_mono_r; lia. }
  nia.
Qed.
Lemma lor_shifted a i : 0 ≤ a < 2 ^ kb → 0 ≤ i < n → Z.lor a (u64 (Z.shiftl i kb)) = a + i * 2 ^ kb.
Proof.
  intros Ha Hi. pose proof kb_range. pose proof (row_fits i Hi). assert (0 < 2 ^ kb) by (apply Z.pow_pos_nonneg; lia).
  rewrite Z.shiftl_mul_pow2 by lia. rewrite wrap_id by (unfold in_u; nia).
  enough (Hand : Z.land a (i * 2 ^ kb) = 0) by (rewrite Z.add_nocarry_lxor by done; by rewrite Z.lxor_lor).
  apply Z.bits_inj'. intros j Hj. rewrite Z.land_spec, Z.bits_0. destruct (Z.lt_ge_cases j kb).
  { rewrite (Z.mul_pow2_bits_low i) by lia. by rewrite andb_false_r. }
  destruct (decide (a = 0)) as [->|]; [by rewrite Z.bits_0|].
  rewrite Z.bits_above_log2; [done|lia|]. apply Z.lt_le_trans with kb; [apply Z.log2_lt_pow2; lia|done].
Qed.
Lemma pack_low i : 0 ≤ i → Z.land (pack i) (low_mask kb) = low i.
Proof.
  intros Hi. pose proof kb_range. pose proof (low_range i). rewrite low_mask_mod by lia. unfold pack.
  rewrite Z.mod_add by lia. by apply Z.mod_small.
Qed.
Lemma key_low i : Z.land (f i) (low_mask kb) = low i.
Proof. pose proof kb_range. rewrite low_mask_mod by lia. unfold low, kb. do 2 f_equal. lia. Qed.

(** Inside a task: rows before [i] are packed. *)
Let unord (P : Z → Prop) (c : Z) : Prop := 0 ≤ c ∧ (c = 0 → ∀ j, P j → low (j - 1) ≤ low j).
Let unrev (P : Z → Prop) (c : Z) : Prop := 0 ≤ c ∧ (c = 0 → ∀ j, P j → low j ≤ low (j - 1)).
Definition masked_keys (k : list Z) : Prop :=
  zlen k = n ∧ ∀ i, 0 ≤ i < n → ∃ x, k.[i] = Some x ∧ Z.land x (low_mask (nb * 8)) = f i mod 2 ^ (8 * nb).

Lemma unord_weaken (P Q : Z → Prop) c : (∀ j, Q j → P j) → unord P c → unord Q c.
Proof. intros HPQ [Hc HP]. split; [done|]. intros H0' j Hj. by apply HP, HPQ. Qed.
Lemma unrev_weaken (P Q : Z → Prop) c : (∀ j, Q j → P j) → unrev P c → unrev Q c.
Proof. intros HPQ [Hc HP]. split; [done|]. intros H0' j Hj. by apply HP, HPQ. Qed.
Lemma unord_add (P Q R : Z → Prop) c d : (∀ j, R j → P j ∨ Q j) → unord P c → unord Q d → unord R (c + d).
Proof.
  intros HR [Hc HP] [Hd HQ]. split; [lia|]. intros H0' j [Hj|Hj]%HR; [apply HP|apply HQ]; (lia || done).
Qed.
Lemma unrev_add (P Q R : Z → Prop) c d : (∀ j, R j → P j ∨ Q j) → unrev P c → unrev Q d → unrev R (c + d).
Proof.
  intros HR [Hc HP] [Hd HQ]. split; [lia|]. intros H0' j [Hj|Hj]%HR; [apply HP|apply HQ]; (lia || done).
Qed.

Lemma detect_loop a b k0 prev0 :
  0 ≤ a ≤ b → b ≤ n → masked_keys k0 →
  ∃ k prev u r,
    foldM (λ i '(k, prev, unsorted, not_rev),
      x ← k.[i];
      let cur := Z.land x (low_mask kb) in
      let unsorted := if (a <? i) && (cur <? prev) then unsorted + 1 else unsorted in
      let not_rev := if (a <? i) && (prev <? cur) then not_rev + 1 else not_rev in
      k ← zset k i (Z.lor cur (u64 (Z.shiftl i kb)));
      Some (k, cur, unsorted, not_rev)) (range a b) (k0, prev0, 0, 0) = Some (k, prev, u, r) ∧
    zlen k = n ∧ (∀ j, 0 ≤ j < n → k.[j] = if (a <=? j) && (j <? b) then Some (pack j) else k0.[j]) ∧
    unord (λ j, a < j < b) u ∧ unrev (λ j, a < j < b) r.
Proof.
  intros Ha Hb [Hl0 Hk0].
  destruct (foldM_range (λ i '(k, prev, unsorted, not_rev),
      x ← k.[i];
      let cur := Z.land x (low_mask kb) in
      let unsorted := if (a <? i) && (cur <? prev) then unsorted + 1 else unsorted in
      let not_rev := if (a <? i) && (prev <? cur) then not_rev + 1 else not_rev in
      k ← zset k i (Z.lor cur (u64 (Z.shiftl i kb)));
      Some (k, cur, unsorted, not_rev))
    (λ i '(k, prev, u, r), zlen k = n ∧ (∀ j, 0 ≤ j < n → k.[j] = if (a <=? j) && (j <? i) then Some (pack j) else k0.[j]) ∧
       (a < i → prev = low (i - 1)) ∧ unord (λ j, a < j < i) u ∧ unrev (λ j, a < j < i) r) a b (k0, prev0, 0, 0))
    as ([[[k prev] u] r] & -> & Hl & Hk & _ & Hu & Hr); [lia| | |by exists k, prev, u, r].
  - split; [done|]. split; [intros j Hj; by destruct (Z.leb_spec a j), (Z.ltb_spec j a); [lia|..]|].
    split; [lia|]. split; (split; [lia|]; intros _ j; lia).
  - intros i [[[k prev] u] r] Hi (Hl & Hk & Hp & Hu & Hr). rewrite Hk by lia.
    rewrite (proj2 (Z.ltb_ge i i)) by lia. rewrite andb_false_r. destruct (Hk0 i) as (x & -> & Hx); [lia|]. cbn [mbind option_bind].
    fold kb in Hx. rewrite Hx. fold (low i). cbv zeta.
    destruct (zset_total k i (Z.lor (low i) (u64 (Z.shiftl i kb)))) as [k' Hk']; [lia|]. rewrite Hk'. cbn [mbind option_bind].
    eexists. split; [done|]. split; [by rewrite (zlen_zset _ _ _ _ Hk')|]. split; [|split; [intros _; f_equal; lia|]].
    + intros j Hj. destruct (decide (j = i)) as [->|Hne].
      * rewrite (zget_zset_eq _ _ _ _ Hk'). rewrite (proj2 (Z.leb_le _ _)), (proj2 (Z.ltb_lt _ _)) by lia. cbn [andb].
        by rewrite lor_shifted by (apply low_range || lia).
      * rewrite (zget_zset_ne _ _ _ _ _ Hk') by done. rewrite Hk by done. by replace (j <? i + 1) with (j <? i) by (zbool; lia).
    + destruct (Z.ltb_spec a i) as [Hai|Hai]; cbn [andb].
      * rewrite (Hp Hai). destruct Hu as [Hu0 Hu], Hr as [Hr0 Hr].
        destruct (Z.ltb_spec (low i) (low (i - 1))), (Z.ltb_spec (low (i - 1)) (low i)); (split; (split; [lia|]; intros Hz j Hj)); try lia;
          (destruct (decide (j = i)) as [->|]; [lia|]; (apply Hu || apply Hr); lia).
      * split; [eapply unord_weaken; [|exact Hu]|eapply unrev_weaken; [|exact Hr]]; intros j Hj; lia.
Qed.

(** All tasks. *)
Let words (pre : list Z) (k : list Z) : Prop :=
  zlen k = n ∧ ∀ j, 0 ≤ j < n → (j ∈ pre → k.[j] = Some (pack j)) ∧ (j ∉ pre → k.[j] = Some (f j)).
Lemma words_masked pre k : words pre k → masked_keys k.
Proof.
  intros [Hl Hk]. split; [done|]. intros i Hi. destruct (Hk i Hi) as [Hin Hout]. destruct (decide (i ∈ pre)) as [Hd|Hd].
  - exists (pack i). split; [by apply Hin|]. apply pack_low. lia.
  - exists (f i). split; [by apply Hout|apply key_low].
Qed.
Let detected (W : Z) (pre : list Z) (st : list Z * list Z * list Z) : Prop :=
  let '(k, us, rs) := st in
  words pre k ∧ zlen us = W ∧ zlen rs = W ∧
  unord (λ j, j ∈ pre ∧ j mod TASK_GRAIN ≠ 0) (zsum us) ∧ unrev (λ j, j ∈ pre ∧ j mod TASK_GRAIN ≠ 0) (zsum rs).

Lemma detect_task W pre w a b st :
  0 ≤ a < b → b ≤ n → a mod TASK_GRAIN = 0 → (∀ i, i ∈ pre → ¬ a ≤ i < b) → 0 ≤ w < W → detected W pre st →
  ∃ st', packed_detect_fn kb (low_mask kb) w a b st = Some st' ∧ detected W (pre ++ range a b) st'.
Proof.
  intros Ha Hb Hal Hdis Hw. destruct st as [[k us] rs]. intros (Hk & Hlu & Hlr & Hu & Hr). pose proof (words_masked _ _ Hk) as Hm.
  unfold packed_detect_fn. assert (∃ prev, (if 0 <? a then x ← k.[a - 1]; Some (Z.land x (low_mask kb)) else Some 0) = Some prev) as [prev ->].
  { destruct (Z.ltb_spec 0 a); [|by exists 0]. destruct Hm as [_ Hm]. destruct (Hm (a - 1)) as (x & -> & _); [lia|]. by eexists. }
  cbn [mbind option_bind]. destruct (detect_loop a b k prev) as (k' & prev' & u & r & Hrun & Hl' & Hk' & Hu' & Hr'); [lia|lia|done|].
  cbv zeta in Hrun |- *. rewrite Hrun. cbn [mbind option_bind]. destruct (add_at_spec us w u) as (us' & -> & Hlu' & Hsu); [lia|]. cbn [mbind option_bind].
  destruct (add_at_spec rs w r) as (rs' & -> & Hlr' & Hsr); [lia|]. cbn [mbind option_bind].
  eexists. split; [done|]. split; [|split; [lia|split; [lia|]]].
  - split; [done|]. intros j Hj. rewrite Hk' by done. destruct Hk as [_ Hk]. destruct (Hk j Hj) as [Hin Hout].
    destruct (Z.leb_spec a j), (Z.ltb_spec j b); cbn [andb]; (split; [intros Hjp|intros Hjn]);
      try (apply elem_of_app in Hjp as [Hjp|Hjp%elem_of_range]); try done; try lia.
    all: try (by apply Hin). all: try (exfalso; apply Hjn, elem_of_app; right; by apply elem_of_range).
    all: try (apply Hout; intros ?; apply Hjn, elem_of_app; by left).
  - rewrite Hsu, Hsr.
    assert (Hcase : ∀ j, j ∈ pre ++ range a b ∧ j mod TASK_GRAIN ≠ 0 → (j ∈ pre ∧ j mod TASK_GRAIN ≠ 0) ∨ a < j < b).
    { intros j [[Hj|Hj%elem_of_range]%elem_of_app Hjm]; [by left|right]. destruct (decide (j = a)) as [->|]; [done|lia]. }
    split; [eapply unord_add; [exact Hcase|exact Hu|exact Hu']|eapply unrev_add; [exact Hcase|exact Hr|exact Hr']].
Qed.

Lemma across_ok k u0 r0 :
  masked_keys k → unord (λ j, 0 < j < n ∧ j mod TASK_GRAIN ≠ 0) u0 → unrev (λ j, 0 < j < n ∧ j mod TASK_GRAIN ≠ 0) r0 →
  ∃ u r, across_tasks k (low_mask kb) n (u0, r0) = Some (u, r) ∧ unord (λ j, 0 < j < n) u ∧ unrev (λ j, 0 < j < n) r.
Proof.
  intros [Hl Hk] Hu Hr. unfold across_tasks.
  destruct (foldM_done (λ b '(u, r),
           ka ← k.[b - 1]; kb0 ← k.[b];
           let ka := Z.land ka (low_mask kb) in let kb0 := Z.land kb0 (low_mask kb) in
           Some (if kb0 <? ka then u + 1 else u, if ka <? kb0 then r + 1 else r))
    (λ pre '(u, r), unord (λ j, 0 < j < n ∧ (j mod TASK_GRAIN ≠ 0 ∨ j ∈ pre)) u ∧
                    unrev (λ j, 0 < j < n ∧ (j mod TASK_GRAIN ≠ 0 ∨ j ∈ pre)) r) (task_bounds n) (u0, r0))
    as ([u r] & Hrun & Hu' & Hr').
  - split; [eapply unord_weaken; [|exact Hu]|eapply unrev_weaken; [|exact Hr]];
      intros j [Hj [Hm|[]%not_elem_of_nil]]; done.
  - intros pre b post [u r] Hs [Hu1 Hr1]. assert (Hb : 0 < b < n) by (apply elem_of_task_bounds; rewrite Hs; apply elem_of_app; right; by left).
    destruct (Hk (b - 1)) as (x & -> & Hx); [lia|]. destruct (Hk b) as (y & -> & Hy); [lia|]. cbn [mbind option_bind].
    cbv zeta. eexists. split; [done|]. fold kb in Hx, Hy. rewrite Hx, Hy. fold (low (b - 1)) (low b).
    assert (Hcase : ∀ j, 0 < j < n ∧ (j mod TASK_GRAIN ≠ 0 ∨ j ∈ pre ++ [b]) →
              (0 < j < n ∧ (j mod TASK_GRAIN ≠ 0 ∨ j ∈ pre)) ∨ j = b).
    { intros j [Hj [Hm|Hm%elem_of_app]]; [by auto|]. destruct Hm as [?|?%list_elem_of_singleton]; [by auto|by right]. }
    assert (Hone : ∀ c (t : bool), (if t then c + 1 else c) = c + (if t then 1 else 0)) by (intros c []; lia).
    rewrite !Hone. split; [eapply unord_add|eapply unrev_add]; [exact Hcase|exact Hu1| |exact Hcase|exact Hr1|];
      (split; [zbool; lia|]; intros Hz j ->; revert Hz; zbool; lia).
  - exists u, r. split; [exact Hrun|]. split; [eapply unord_weaken; [|exact Hu']|eapply unrev_weaken; [|exact Hr']]; intros j Hj;
      (split; [done|]); (destruct (decide (j mod TASK_GRAIN = 0)); [right; by apply elem_of_task_bounds|by left]).
Qed.

(** ** The packed path *)
Let unpack (w : Z) : Z := Z.land (Z.shiftr w kb) (low_mask (bit_count 63 n)).
Lemma unpack_pack i : 0 ≤ i < n → unpack (pack i) = i.
Proof.
  intros Hi. pose proof kb_range. pose proof (low_range i). destruct (bit_count_spec 63 n) as [Hb Hlt]; [lia|].
  unfold unpack. rewrite low_mask_mod by lia. rewrite Z.shiftr_div_pow2 by lia. unfold pack.
  rewrite Z.div_add by (apply Z.pow_nonzero; lia). rewrite Z.div_small by done. apply Z.mod_small. lia.
Qed.
Lemma unpack_sorted s :
  s ≡ₚ map pack (range 0 n) → StronglySorted (low_lt (λ w, w) nb (λ x y, unpack x < unpack y)) s →
  map unpack s ≡ₚ range 0 n ∧ StronglySorted (row_before low) (map unpack s).
Proof.
  intros Hp Hs. split.
  - rewrite Hp, map_map. rewrite <- (map_id (range 0 n)) at 2. apply Permutation_refl'. apply map_ext_in.
    intros i Hi%list_elem_of_In%elem_of_range. by apply unpack_pack.
  - assert (Hx : ∀ w, w ∈ s → w mod 2 ^ (8 * nb) = low (unpack w)).
    { intros w Hw. rewrite Hp in Hw. apply list_elem_of_fmap in Hw as (i & -> & Hi%elem_of_range). rewrite unpack_pack by done.
      pose proof (low_range i). replace (8 * nb) with kb by (unfold kb; lia). unfold pack. rewrite Z.mod_add by (apply Z.pow_nonzero; lia).
      by apply Z.mod_small. }
    clear Hp. induction Hs as [|x s Hs IH Hf]; [constructor|]. cbn [map]. constructor; [apply IH; intros; apply Hx; by right|].
    apply Forall_forall. intros j (y & -> & Hy)%list_elem_of_fmap. rewrite Forall_forall in Hf. specialize (Hf y Hy).
    unfold low_lt in Hf. rewrite !Hx in Hf by (by left || by right). exact Hf.
Qed.

Definition reversed_rows (g : Z → Z) (idx : list Z) : Prop :=
  idx = map (λ i, n - 1 - i) (range 0 n) ∧ ∀ i, 1 ≤ i < n → g i ≤ g (i - 1).

(** Sorting the words, and the rows they carry. *)
Lemma sort_words k ptmp :
  k = map pack (range 0 n) → zlen ptmp = n →
  ∃ r, packed_radix_sort_run pool k ptmp n nb = Some r ∧
    match r with
    | Some (s, _, _) =>
        ∃ idx, par pool (λ _, packed_unpack_fn s kb (low_mask (bit_count 63 n))) n (range 0 n) = Some idx ∧
          idx ≡ₚ range 0 n ∧ StronglySorted (row_before low) idx
    | None => True
    end.
Proof.
  intros Hk Hptmp. assert (Hlk : zlen k = n) by (by rewrite Hk, zlen_table by lia).
  destruct (lsd_run_ok (λ w : Z, w) pool k ptmp n nb) as (r & Hr & Hres); [lia|lia|done|lia|].
  exists r. split; [exact Hr|]. destruct r as [[[s d] sw]|]; [|done]. destruct Hres as [Hs _].
  assert (Hp : s ≡ₚ k) by (rewrite Hs; apply lsd_ref_perm; lia).
  assert (Hls : zlen s = n) by (unfold zlen in *; rewrite (Permutation_length Hp); done).
  assert (Hso : StronglySorted (low_lt (λ w, w) nb (λ x y, unpack x < unpack y)) s).
  { rewrite Hs. apply lsd_ref_sorted; [lia|]. rewrite Hk. apply StronglySorted_zget. intros i j x y Hij Hx Hy.
    pose proof (zget_Some _ _ _ Hy) as Hj. rewrite zlen_table in Hj by lia. rewrite zget_table in Hx, Hy by lia.
    assert (Hx' : x = pack i) by congruence. assert (Hy' : y = pack j) by congruence. rewrite Hx', Hy', !unpack_pack by lia. lia. }
  destruct (unpack_sorted s) as [Hpm Hst]; [by rewrite Hp, Hk|done|]. exists (map unpack s). split; [|done].
  rewrite (par_fill pool _ (λ i indices, v ← s.[i]; zset indices i (unpack v)) (λ i, unpack (default 0 s.[i]))).
  - f_equal. by apply (table_of_list unpack).
  - lia.
  - done.
  - rewrite zlen_range. lia.
  - intros i ix Hi. destruct (zget_is_Some s i) as [v ->]; [lia|]. done.
Qed.

Lemma packed_path_ok :
  ∃ r, packed_path pool (map (λ i, (f i, i)) (range 0 n)) n nb (bit_count 63 n) = Some r ∧
    match r with
    | RadixDone idx sk => sk = None ∧
        (idx ≡ₚ range 0 n ∧ StronglySorted (row_before (λ i, f i mod 2 ^ (8 * nb))) idx ∨
         reversed_rows (λ i, f i mod 2 ^ (8 * nb)) idx)
    | RadixDeclined idx io => idx = range 0 n ∧ io = true
    | RadixNull _ => False
    end.
Proof.
  pose proof kb_range as Hkb. pose proof (pool_workers_pos pool) as HW. unfold packed_path. fold kb.
  rewrite pairs_rows. rewrite map_map. cbn [fst]. cbv zeta.
  destruct (scratch_alloc S_ptmp 8 n) as [ptmp|] eqn:Hptmp; [|by eexists].
  apply scratch_alloc_inv in Hptmp. rewrite Z.max_r in Hptmp by lia. fold (pool_workers pool). set (W := pool_workers pool) in *.
  change (map (λ x, f x) (range 0 n)) with (map f (range 0 n)).
  destruct (par_tasks pool (packed_detect_fn kb (low_mask kb)) (detected W) n (map f (range 0 n), replicate (Z.to_nat W) 0, replicate (Z.to_nat W) 0))
    as ([[k us] rs] & l & -> & Hl & Hk & _ & _ & Hu & Hr); [lia|done| | |].
  { assert (∀ m, zsum (replicate m 0) = 0) as Hz by (by intros m; induction m). cbn. rewrite Hz. autorewrite with zlen.
    split; [|split; [lia|split; [lia|]]]; [|split; (split; [lia|]; intros _ j [[]%not_elem_of_nil _])].
    split; [apply zlen_table; lia|]. intros j Hj. split; [by intros ?%not_elem_of_nil|]. intros _. by apply zget_table. }
  { intros pre w a b s Ha Hb [Hal _] Hdis Hw Hs. by apply detect_task. }
  cbn [mbind option_bind]. pose proof (words_masked _ _ Hk) as Hm.
  destruct (across_ok k (zsum us) (zsum rs) Hm) as (u & r & -> & Hu' & Hr').
  { eapply unord_weaken; [|exact Hu]. intros j [Hj ?]. split; [|done]. rewrite Hl. apply elem_of_range. lia. }
  { eapply unrev_weaken; [|exact Hr]. intros j [Hj ?]. split; [|done]. rewrite Hl. apply elem_of_range. lia. }
  cbn [mbind option_bind]. destruct (Z.eqb_spec u 0) as [Hu0|_].
  { eexists. split; [done|]. split; [done|]. left. split; [done|]. apply identity_sorted. intros i Hi. apply Hu'; [done|lia]. }
  destruct (Z.eqb_spec r 0) as [Hr0|_]; [destruct (Z.ltb_spec 1 n) as [Hn1|]|]; cbn [andb].
  1:{ rewrite (fill_ok _ (λ i, n - 1 - i) (range 0 n) n); [|lia|done|rewrite zlen_range; lia|done]. cbn [mbind option_bind].
      eexists. split; [done|]. split; [done|]. right. split; [done|]. intros i Hi. apply Hr'; [done|lia]. }
  all: assert (Hwords : k = map pack (range 0 n)).
  1, 3: destruct Hk as [Hlk Hk]; apply zlist_ext; [by rewrite zlen_table by lia|]; intros j Hj; rewrite zget_table by lia;
    apply (Hk j ltac:(lia)); rewrite Hl; apply elem_of_range; lia.
  all: destruct (sort_words k ptmp Hwords Hptmp) as (r' & -> & Hr''); cbn [mbind option_bind].
  all: destruct r' as [[[s d] sw]|]; [|by eexists].
  all: destruct Hr'' as (idx & Hrun & Hpm & Hst); rewrite Hrun; cbn [mbind option_bind]; eexists; split; [done|]; split; [done|]; by left.
Qed.
End packed.
