(* ===== verification/SortColumn.v ===== *)
(** * Sorting one column

    Every branch of [sort_indices_ex] gives the rows in the order of the
    comparator: the stable sort [csort], except that a column the packed path
    finds in descending order is reversed as a whole. *)

From stdpp Require Import sorting.
From S2P Require Import Prelude Pool PoolProofs Rowsel RowselProofs Sort SortOrder SortRadix SortScatter SortLsd SortMsd SortMerge.
From S2P Require Import SortEnc SortPar SortPacked.
Local Open Scope Z_scope.

Lemma range_increasing lo hi : StronglySorted Z.lt (range lo hi).
Proof.
  unfold range. generalize (Z.to_nat (hi - lo)) as m. intros m. apply StronglySorted_zget. intros j k x y Hjk Hx Hy.
  rewrite zget_nat in Hx, Hy by lia. apply lookup_seqZ in Hx, Hy. lia.
Qed.

Section column.
Context `{Dispatcher} `{!DispatcherLaws} `{Workers} `{!WorkersLaws} `{Scratch}.
Context (col : column) (desc nf : bool) (n : Z).

Definition enc_row (i : Z) : Z := encode_cell col desc nf (cell_at col i).
Definition the_cmp : Z → Z → Z := sort_cmp [SortKey col desc nf].
Definition rank (i : Z) : Z := cell_rank col desc nf (cell_at col i).
Definition key_pairs : list kv := map (λ i, (enc_row i, i)) (range 0 n).

(** What the theorems assume of the column: its cells are of its type, the
    keys tell them apart ([cell_plain]); tasks keep the usual grain; and, when
    the keys are scanned by several tasks, the number of bytes they find is
    enough. *)
Definition column_plain : Prop := zlen (cells col) = n ∧ Forall (cell_plain col (xorb nf desc)) (cells col).
Definition bytes_scanned : Prop :=
  let pool := (SMALL_POOL_THRESHOLD <=? n) && ray_pool_get in
  pool && (SMALL_POOL_THRESHOLD <? n) = true →
  ∀ nb, compute_key_nbytes pool (map enc_row (range 0 n)) n (key_nbytes_max col) = Some nb →
    bytes_suffice (key_nbytes_max col) nb (map enc_row (range 0 n)).

Section plain.
Context (Hn : 0 < n < 2 ^ 32) (Hgrain : ray_pool_get = true → grain_kept n).
Context (Hcol : column_plain) (Hscan : bytes_scanned).
Let w := key_nbytes_max col.

Lemma plain_row i : 0 ≤ i < n → cell_plain col (xorb nf desc) (cell_at col i).
Proof.
  intros Hi. destruct Hcol as [Hl Hall]. rewrite Forall_forall in Hall. unfold cell_at.
  destruct (zget_is_Some (cells col) i) as [v Hv]; [lia|]. rewrite Hv. apply Hall, elem_of_zget. exists i. split; [lia|done].
Qed.
Lemma cells_ok : Forall (cell_ok (col_type col)) (cells col).
Proof. destruct Hcol as [_ Hall]. eapply Forall_impl; [exact Hall|]. by intros v [Hv _]. Qed.
Lemma marked : nan_marked col.
Proof.
  intros Hh. destruct (is_float (col_type col)) eqn:Hf; [left|by right]. destruct Hcol as [_ Hall].
  eapply Forall_impl; [exact Hall|]. intros v [_ Hv]. cbn beta in Hv |- *. unfold sentinel_is_null.
  by destruct (col_type col); try done; apply Hv.
Qed.
Lemma the_cmp_rank a b : the_cmp a b = cmp3 (rank a) (rank b).
Proof. apply (key_cmp (SortKey col desc nf)); [apply cells_ok|apply marked]. Qed.
#[local] Instance the_order : WeakOrder (λ x y, 0 <? the_cmp y x).
Proof. apply (rank_order the_cmp rank), the_cmp_rank. Qed.

Lemma before_rank i j : before the_cmp i j ↔ rank i < rank j ∨ rank i = rank j ∧ i < j.
Proof.
  unfold before, stable_lt. rewrite !the_cmp_rank, Z.ltb_lt, Z.ltb_ge, cmp3_pos.
  pose proof (cmp3_pos (rank i) (rank j)). lia.
Qed.
Lemma enc_rank i j :
  0 ≤ i < n → 0 ≤ j < n → (enc_row i < enc_row j ↔ rank i < rank j) ∧ (enc_row i = enc_row j ↔ rank i = rank j).
Proof.
  intros Hi Hj. pose proof (plain_row i Hi) as Hpi. pose proof (plain_row j Hj) as Hpj. split.
  - by apply (encode_order col desc nf).
  - by apply (encode_eq col desc nf).
Qed.
Lemma enc_u64 : Forall (in_u 64) (map enc_row (range 0 n)).
Proof.
  apply Forall_forall. intros k (i & -> & Hi%elem_of_range)%list_elem_of_fmap.
  pose proof (encode_range col desc nf _ (proj1 (plain_row i Hi))) as Hr. fold (enc_row i) in Hr.
  unfold in_u, key_width in *. destruct (col_type col); lia.
Qed.

(** The low bytes of the keys, when they are enough. *)
Lemma low_rank nb i j :
  1 ≤ nb ≤ w → bytes_suffice w nb (map enc_row (range 0 n)) → 0 ≤ i < n → 0 ≤ j < n →
  (enc_row i mod 2 ^ (8 * nb) < enc_row j mod 2 ^ (8 * nb) ↔ rank i < rank j) ∧
  (enc_row i mod 2 ^ (8 * nb) = enc_row j mod 2 ^ (8 * nb) ↔ rank i = rank j).
Proof.
  intros Hnb Hs Hi Hj. destruct (decide (nb = w)) as [->|Hne].
  - pose proof (plain_row i Hi) as Hpi. pose proof (plain_row j Hj) as Hpj. split.
    + by apply (encode_order col desc nf).
    + by apply (encode_eq col desc nf).
  - destruct (enc_rank i j Hi Hj) as [<- <-]. apply div_mod_lt; [lia|].
    apply Hs; [| |lia]; apply list_elem_of_fmap; eexists; (split; [done|]); by apply elem_of_range.
Qed.

(** Rows in the order of keys that agree with the ranks. *)
Lemma rows_csort g idx :
  (∀ i j, 0 ≤ i < n → 0 ≤ j < n → (g i < g j ↔ rank i < rank j) ∧ (g i = g j ↔ rank i = rank j)) →
  idx ≡ₚ range 0 n → StronglySorted (row_before g) idx → idx = csort the_cmp (range 0 n).
Proof.
  intros Hg Hp Hs. apply csort_unique; [apply _|apply range_increasing|done|].
  eapply StronglySorted_impl; [|exact Hs]. intros i j Hi Hj Hij. rewrite Hp in Hi, Hj. apply elem_of_range in Hi, Hj.
  apply before_rank. destruct (Hg i j Hi Hj) as [<- <-]. exact Hij.
Qed.

(** ** The branches *)
Lemma pairs_ksort : map snd (ksort key_pairs) = csort the_cmp (range 0 n) ∧ map fst (ksort key_pairs) = map enc_row (map snd (ksort key_pairs)).
Proof.
  destruct (ksort_spec key_pairs) as (_ & Hp & _). destruct (pairs_perm enc_row n _ Hp) as (Hpm & Hfst & Hx). split; [|done].
  apply (rows_csort enc_row); [intros i j Hi Hj; by apply enc_rank|done|].
  apply (pairs_sorted key_before _ enc_row); [done|by intros i j ?%key_lt_spec|].
  apply ksort_strict. unfold key_pairs. rewrite pairs_rows. apply NoDup_range.
Qed.

(** A result with the rows sorted, and with their keys if any. *)
Definition done_right (idx : list Z) (sk : option (list Z)) : Prop :=
  idx = csort the_cmp (range 0 n) ∧ (∀ ks, sk = Some ks → ks = map enc_row idx).

Lemma wide_path_ok pool want_sk nb :
  (pool = true → grain_kept n) → 1 ≤ nb ≤ w → bytes_suffice w nb (map enc_row (range 0 n)) →
  ∃ r, wide_path pool want_sk key_pairs n nb = Some r ∧
    match r with
    | RadixDone idx sk => done_right idx sk
    | RadixDeclined idx io => idx = range 0 n ∧ io = true
    | RadixNull idx => idx = range 0 n ∧ ¬ hist_granted pool
    end.
Proof.
  intros Hg Hnb Hs. pose proof (key_nbytes_width col) as [Hw _]. fold w in Hw. unfold wide_path.
  assert (Hrows : map snd key_pairs = range 0 n) by apply pairs_rows.
  assert (Hkeys : map fst key_pairs = map enc_row (range 0 n)) by (unfold key_pairs; by rewrite map_map).
  assert (Hlp : zlen key_pairs = n) by (unfold key_pairs; by rewrite zlen_table by lia).
  rewrite Hrows, Hkeys. destruct (detect_sortedness_ok pool (map enc_row (range 0 n)) n) as (c & -> & Hc); [by rewrite zlen_table by lia|lia|done|].
  cbn [mbind option_bind]. destruct (Z.eqb_spec c 0) as [Hc0|_].
  { eexists. split; [done|]. split; [|done]. apply (rows_csort enc_row); [intros i j Hi Hj; by apply enc_rank|done|].
    apply identity_sorted. intros i Hi. apply (Hc Hc0 i); [done|apply zget_table; lia|apply zget_table; lia]. }
  destruct (scratch_alloc S_ktmp 8 n) as [kt|] eqn:Hkt; [|by eexists].
  destruct (scratch_alloc S_itmp 8 n) as [it|] eqn:Hit; [|by eexists]. apply scratch_alloc_inv in Hkt, Hit.
  assert (Hlz : zlen (zip kt it) = n). { unfold zlen in *. rewrite length_zip_with. lia. }
  assert (Hsort : ∃ r, msd_radix_sort_run pool key_pairs (zip kt it) n (Z.to_nat nb) = Some r ∧
    match r with Some (s, _, _) => map snd s = csort the_cmp (range 0 n) ∧ map fst s = map enc_row (map snd s) | None => ¬ hist_granted pool end).
  2:{ destruct Hsort as (r & -> & Hr). cbn [mbind option_bind]. destruct r as [[[s d] sw]|]; [|by eexists].
      destruct Hr as [Hidx Hks]. eexists. split; [done|]. split; [done|]. intros ks. destruct want_sk; [|done]. by intros [= <-]. }
  destruct (Z.le_gt_cases nb 5) as [Hle|Hgt].
  - assert (Hmsd : ∀ m : nat, (m ≤ 5)%nat → ∀ d, msd_radix_sort_run pool key_pairs d n m = radix_sort_run pool key_pairs d n (Z.of_nat m)).
    { intros m Hm d. destruct m; cbn [msd_radix_sort_run]; by rewrite (proj2 (Nat.leb_le _ _)) by lia. }
    rewrite Hmsd by lia. rewrite Z2Nat.id by lia.
    destruct (lsd_run_ok fst pool key_pairs (zip kt it) n nb) as (r & Hr & Hres); [done|lia|done|lia|].
    exists r. split; [exact Hr|]. destruct r as [[[s d] sw]|]; [|done]. destruct Hres as [-> _].
    destruct (pairs_perm enc_row n _ (lsd_ref_perm fst nb key_pairs ltac:(lia))) as (Hpm & Hfst & Hx). split; [|done].
    apply (rows_csort (λ i, enc_row i mod 2 ^ (8 * nb))); [intros i j Hi Hj; by apply low_rank|done|].
    apply (pairs_sorted (low_lt fst nb row_lt) _ enc_row); [done|by intros i j|].
    apply lsd_ref_sorted; [lia|apply pairs_row_lt].
  - destruct (msd_radix_sort_run_ok pool key_pairs (zip kt it) n (Z.to_nat nb)) as (r & Hr & Hres); [done|lia|done|lia| |apply pairs_row_lt|].
    + rewrite Z2Nat.id by lia. intros x y Hx Hy. destruct (decide (nb < w)) as [Hlt|Hnlt].
      * apply Hs; [..|done]; rewrite <- Hkeys; by apply (list_elem_of_fmap_2 fst).
      * assert (nb = 8) as -> by (unfold w, key_nbytes_max in *; destruct (col_type col), (has_nulls col); cbn in *; lia).
        pose proof enc_u64 as Hu. rewrite <- Hkeys, Forall_forall in Hu. unfold in_u in Hu. change (8 * 8) with 64.
        rewrite !Z.div_small; [done|apply Hu|apply Hu]; by apply (list_elem_of_fmap_2 fst).
    + exists r. split; [exact Hr|]. destruct r as [[[s d] sw]|]; [|done]. cbn in Hres. subst s. apply pairs_ksort.
Qed.

(** The shortcut on a column in descending order turns it round, ties too. *)
Definition turned_round (idx : list Z) : Prop :=
  idx = map (λ i, n - 1 - i) (range 0 n) ∧ ∀ i, 1 ≤ i < n → rank i ≤ rank (i - 1).

Lemma encode_pass pool keys indices :
  zlen keys = n → zlen indices = n →
  par pool (radix_encode_fn col desc nf) n (zip keys indices) = Some key_pairs.
Proof.
  intros Hk Hi. apply (par_fill pool _ (λ i a, v ← (cells col).[i]; zset a i (encode_cell col desc nf v, i))); [lia|done| |].
  - unfold zlen in *. rewrite length_zip_with. lia.
  - intros i a Hi'. unfold enc_row, cell_at. destruct Hcol as [Hl _]. by destruct (zget_is_Some (cells col) i) as [v ->]; [lia|].
Qed.

Lemma radix_single_ok want_sk indices :
  zlen indices = n →
  ∃ r, radix_single col desc nf want_sk n indices = Some r ∧
    match r with
    | RadixDone idx sk => done_right idx sk ∨ turned_round idx ∧ sk = None
    | RadixDeclined idx io => zlen idx = n ∧ (io = true → idx = range 0 n)
    | RadixNull idx => idx = range 0 n ∧ ¬ hist_granted ((SMALL_POOL_THRESHOLD <=? n) && ray_pool_get)
    end.
Proof.
  intros Hix. unfold radix_single. destruct (n <=? 64); [by eexists|]. destruct (negb _); [by eexists|].
  destruct (scratch_alloc S_keys 8 n) as [keys|] eqn:Hkeys; [|by eexists]. apply scratch_alloc_inv in Hkeys.
  cbv zeta. set (pool := (SMALL_POOL_THRESHOLD <=? n) && ray_pool_get) in *.
  assert (Hgk : pool = true → grain_kept n) by (intros [_ ?]%andb_true_iff; by apply Hgrain).
  rewrite encode_pass by (done || lia). cbn [mbind option_bind].
  destruct (Z.leb_spec n RADIX_SORT_THRESHOLD).
  { destruct (ksort_spec key_pairs) as (Hrun & _). assert (Hi : key_introsort key_pairs = Some (ksort key_pairs)) by exact Hrun.
    rewrite Hi. cbn [mbind option_bind]. eexists. split; [done|]. left. split; [apply pairs_ksort|done]. }
  assert (Hk1 : map fst key_pairs = map enc_row (range 0 n)) by (unfold key_pairs; by rewrite map_map). rewrite Hk1.
  pose proof (key_nbytes_width col) as [Hw _]. fold w in Hw |- *.
  destruct (compute_key_nbytes_ok pool (map enc_row (range 0 n)) n w) as (nb & Hnb & Hnbw & Hseq);
    [by rewrite zlen_table by lia|lia|done|lia|apply enc_u64|].
  assert (Hs : bytes_suffice w nb (map enc_row (range 0 n))).
  { destruct (pool && (SMALL_POOL_THRESHOLD <? n)) eqn:Hp; [by apply (Hscan Hp)|by apply Hseq]. }
  rewrite Hnb. cbn [mbind option_bind].
  destruct (Z.leb_spec nb 3) as [Hnb3|]; cbn [andb].
  2:{ destruct (wide_path_ok pool want_sk nb Hgk Hnbw Hs) as (r & -> & Hr). exists r. split; [done|].
      destruct r as [idx sk|idx io|idx]; [by left| |done]. destruct Hr as [-> ->]. split; [rewrite zlen_range; lia|done]. }
  destruct (Z.leb_spec (nb * 8 + bit_count 63 n) 64) as [Hfit|].
  2:{ destruct (wide_path_ok pool want_sk nb Hgk Hnbw Hs) as (r & -> & Hr). exists r. split; [done|].
      destruct r as [idx sk|idx io|idx]; [by left| |done]. destruct Hr as [-> ->]. split; [rewrite zlen_range; lia|done]. }
  destruct (packed_path_ok pool enc_row n nb Hn Hgk ltac:(lia) Hfit) as (r & Hr & Hres).
  fold key_pairs in Hr. exists r. split; [exact Hr|]. destruct r as [idx sk|idx io|idx]; [| |done].
  - destruct Hres as [-> [[Hp Hst]|[Hidx Hrev]]].
    + left. split; [|done]. apply (rows_csort (λ i, enc_row i mod 2 ^ (8 * nb))); [intros i j Hi Hj; by apply low_rank|done|done].
    + right. split; [|done]. split; [done|]. intros i Hi. specialize (Hrev i Hi).
      pose proof (low_rank nb (i - 1) i Hnbw Hs ltac:(lia) ltac:(lia)). lia.
  - destruct Hres as [-> ->]. split; [rewrite zlen_range; lia|done].
Qed.

Lemma sort_fallback_ok nulls_first indices io :
  nf = default (negb desc) nulls_first → zlen indices = n → (io = true → indices = range 0 n) →
  ∃ m, sort_fallback col desc nulls_first n indices io = Some m ∧
    match m with
    | Some idx => idx = csort the_cmp (range 0 n)
    | None => scratch_ok S_tmp (8 * n) = false ∨ scratch_ok S_default_nf 1 = false
    end.
Proof.
  intros Hnf Hl Hio. unfold sort_fallback.
  assert (Hiota : (if io then Some indices else foldM (λ i indices, zset indices i i) (range 0 n) indices) = Some (range 0 n)).
  { destruct io; [by rewrite Hio|]. rewrite (fill_ok _ (λ i, i) (range 0 n) n); [by rewrite map_id|lia|done|done|done]. }
  rewrite Hiota. cbn [mbind option_bind]. destruct (match nulls_first with None => _ | Some _ => _ end) eqn:Hdef.
  { exists None. split; [done|]. right. destruct nulls_first; [done|]. by apply negb_true_iff in Hdef. }
  cbv zeta. rewrite <- Hnf. fold the_cmp. pose proof the_order as Hord. assert (Hzl : zlen (range 0 n) = n) by (rewrite zlen_range; lia).
  destruct (n <=? 64).
  - destruct (csort_spec the_cmp (range 0 n)) as (Hrun & _); [apply range_increasing|]. rewrite Hzl in Hrun. rewrite Hrun. by eexists.
  - destruct (merge_sort_ok the_cmp ray_pool_get (range 0 n) n) as (m & Hm & Hres); [done|apply range_increasing|lia|done|].
    exists m. split; [exact Hm|]. destruct m; [done|by left].
Qed.

(** Whatever memory is refused: the rows in order, out of memory, or, when
    only the histograms were refused, the undefined copy from [NULL]. *)
Lemma sort_indices_ex_ok nulls_first want_sk :
  nf = default (negb desc) nulls_first →
  match sort_indices_ex col desc nulls_first n want_sk with
  | Some (inr (idx, sk)) => done_right idx sk ∨ turned_round idx ∧ sk = None
  | Some (inl SORT_OOM) => ∃ s m, scratch_ok s m = false
  | None => ¬ hist_granted ((SMALL_POOL_THRESHOLD <=? n) && ray_pool_get)
  end.
Proof.
  intros Hnf. unfold sort_indices_ex. rewrite (proj2 (Z.leb_gt n 0)) by lia. cbv zeta.
  destruct (scratch_alloc S_indices 8 n) as [indices|] eqn:Hix.
  2:{ exists S_indices, (8 * n). unfold scratch_alloc in Hix. by destruct (scratch_ok S_indices (8 * n)). }
  apply scratch_alloc_inv in Hix. rewrite Z.max_r in Hix by lia.
  destruct (scratch_ok S_rank_hdrs 8) eqn:Hrh; cbn [negb]; [|by eexists _, _].
  rewrite <- Hnf. destruct (radix_single_ok want_sk indices Hix) as (r & -> & Hr). cbn [mbind option_bind].
  assert (Hres : ∀ idx sk, (done_right idx sk ∨ turned_round idx ∧ sk = None) →
    match (if scratch_ok S_result (8 * n) then inr (idx, sk) else inl SORT_OOM : sort_err + list Z * option (list Z)) with
    | inr (idx, sk) => done_right idx sk ∨ turned_round idx ∧ sk = None
    | inl SORT_OOM => ∃ s m, scratch_ok s m = false
    end).
  { intros idx sk Hd. destruct (scratch_ok S_result (8 * n)) eqn:Hsr; [done|by eexists _, _]. }
  destruct r as [idx sk|idx io|idx].
  - by apply Hres.
  - destruct Hr as [Hl Hio]. destruct (sort_fallback_ok nulls_first idx io Hnf Hl Hio) as (m & -> & Hm). cbn [mbind option_bind].
    destruct m as [idx'|]; [|destruct Hm; by eexists _, _]. apply Hres. left. by split.
  - destruct Hr as [-> Hnull]. destruct (sort_fallback_ok nulls_first (range 0 n) true Hnf) as (m & -> & Hm); [rewrite zlen_range; lia|done|].
    cbn [mbind option_bind]. destruct m as [idx'|]; [|destruct Hm; by eexists _, _].
    destruct (scratch_ok S_result (8 * n)) eqn:Hsr; [done|by eexists _, _].
Qed.
End plain.
End column.

(** * The sorted column

    [ray_sort] gathers the cells by row, or decodes the sorted keys; the
    result does not depend on which. Nulls are written anew, so a NaN comes
    back as the canonical one. *)
(** A cell as a sort gives it back. *)
Definition canon (col : column) (v : Z) : Z :=
  if cell_is_null col v then default v (null_of (col_type col)) else v.

(** The rank determines the cell. *)
Lemma canon_rank col desc nf v u :
  cell_plain col (xorb nf desc) v → cell_plain col (xorb nf desc) u →
  cell_rank col desc nf v = cell_rank col desc nf u → canon col v = canon col u.
Proof.
  intros [Hv Hv'] [Hu Hu']. pose proof (cell_ord_range col v Hv) as Hrv. pose proof (cell_ord_range col u Hu) as Hru.
  unfold cell_rank, up_rank, canon. set (first := xorb nf desc) in *. cbv zeta.
  assert (Hs : ∀ a b : Z, (if desc then - a else a) = (if desc then - b else b) → a = b) by (intros; destruct desc; lia).
  intros Hr%Hs. clear Hs. assert (NULL_RANK = 2 ^ 70) as HN by done.
  destruct (cell_is_null col v) eqn:Hnv, (cell_is_null col u) eqn:Hnu; [|destruct first; lia|destruct first; lia|].
  - rewrite null_cases in Hnv, Hnu. apply andb_true_iff in Hnv as [_ Hnv], Hnu as [_ Hnu].
    unfold null_of, sentinel_is_null in *. destruct (col_type col); cbn [default]; try done;
      apply Z.eqb_eq in Hnv, Hnu; congruence.
  - revert Hr. unfold cell_ord, f64_ord, f32_ord, cell_ok, in_u in *. destruct (col_type col); zbool; lia.
Qed.

Section cells.
Context `{Dispatcher} `{!DispatcherLaws} `{Workers} `{!WorkersLaws} `{Scratch}.
Context (col : column) (desc nf : bool) (n : Z).
Context (Hn : 0 < n < 2 ^ 32) (Hgrain : ray_pool_get = true → grain_kept n).
Context (Hcol : column_plain col desc nf n).
Notation cell r := (canon col (cell_at col r)).
Notation cmp := (the_cmp col desc nf).

Definition sorted_cells : list Z := map (λ r, cell r) (csort cmp (range 0 n)).

Lemma set_null_ok data i r :
  0 ≤ i < zlen data → ray_vec_is_null col r = true →
  ∃ d, ray_vec_set_null (col_type col) data i = Some d ∧ zset data i (cell r) = Some d.
Proof.
  intros Hi Hnull. unfold ray_vec_set_null. rewrite (proj2 (Z.ltb_ge _ _)), (proj2 (Z.leb_gt _ _)) by lia. cbn [orb].
  rewrite is_null_cell in Hnull. unfold canon. rewrite Hnull. rewrite null_cases in Hnull. apply andb_true_iff in Hnull as [_ Hs].
  destruct (zset_total data i (default (cell_at col r) (null_of (col_type col)))) as [d Hd]; [done|].
  exists d. split; [|done]. revert Hs Hd. unfold null_of, sentinel_is_null. by destruct (col_type col).
Qed.

Lemma copy_nulls_ok (h : Z → Z) idx :
  zlen idx = n → (∀ r, r ∈ idx → cell_is_null col (cell_at col r) = false → h r = cell_at col r) →
  copy_nulls col idx n (map h idx) = Some (map (λ r, cell r) idx).
Proof.
  intros Hl Hh. unfold copy_nulls. destruct (has_nulls col) eqn:Hnulls.
  2:{ f_equal. apply map_ext_in. intros r Hr%list_elem_of_In. assert (Hn0 : cell_is_null col (cell_at col r) = false) by (rewrite null_cases; by rewrite Hnulls).
      rewrite Hh by done. unfold canon. by rewrite Hn0. }
  destruct (foldM_range (λ i data, r ← idx.[i]; if ray_vec_is_null col r then ray_vec_set_null (col_type col) data i else Some data)
    (λ i d, zlen d = n ∧ ∀ j, 0 ≤ j < n → d.[j] = (r ← idx.[j]; Some (if j <? i then cell r else h r))) 0 n (map h idx))
    as (d & -> & Hld & Hd); [lia| | |].
  - split; [by rewrite zlen_map|]. intros j Hj. rewrite (proj2 (Z.ltb_ge _ _)) by lia. rewrite !zget_nat by lia. rewrite list_lookup_fmap.
    by destruct (idx !! Z.to_nat j).
  - intros i d Hi [Hld Hd]. destruct (zget_is_Some idx i) as [r Hr]; [lia|]. rewrite Hr. cbn [mbind option_bind].
    destruct (ray_vec_is_null col r) eqn:Hnull.
    + destruct (set_null_ok d i r) as (d' & -> & Hd'); [lia|done|]. exists d'. split; [done|]. split; [by rewrite (zlen_zset _ _ _ _ Hd')|].
      intros j Hj. destruct (decide (j = i)) as [->|Hne].
      * rewrite (zget_zset_eq _ _ _ _ Hd'), Hr. cbn [mbind option_bind]. by rewrite (proj2 (Z.ltb_lt _ _)) by lia.
      * rewrite (zget_zset_ne _ _ _ _ _ Hd') by done. rewrite Hd by done. by replace (j <? i + 1) with (j <? i) by (zbool; lia).
    + exists d. split; [done|]. split; [done|]. intros j Hj. rewrite Hd by done. destruct (decide (j = i)) as [->|Hne].
      * rewrite Hr. cbn [mbind option_bind]. rewrite (proj2 (Z.ltb_ge i i)), (proj2 (Z.ltb_lt i (i + 1))) by lia.
        rewrite is_null_cell in Hnull. rewrite Hh; [unfold canon; by rewrite Hnull| |done]. apply elem_of_zget. exists i. split; [lia|done].
      * by replace (j <? i + 1) with (j <? i) by (zbool; lia).
  - f_equal. apply zlist_ext; [by rewrite zlen_map, Hld|]. intros j Hj. rewrite Hd by lia. rewrite (zget_nat (map _ _)) by lia.
    rewrite list_lookup_fmap, <- zget_nat by lia. destruct (zget_is_Some idx j) as [r ->]; [lia|]. cbn [mbind option_bind].
    by rewrite (proj2 (Z.ltb_lt _ _)) by lia.
Qed.

Lemma gather_ok idx :
  idx ≡ₚ range 0 n →
  ∃ r, gather_by_idx col idx n = Some r ∧
    match r with inr v => v = map (λ r, cell r) idx | inl SORT_OOM => scratch_ok S_gather (8 * n) = false end.
Proof.
  intros Hp. assert (Hl : zlen idx = n) by (unfold zlen; rewrite (Permutation_length Hp); change (zlen (range 0 n) = n); rewrite zlen_range; lia).
  unfold gather_by_idx. destruct (scratch_alloc S_gather 8 n) as [dst|] eqn:Hdst.
  2:{ eexists. split; [done|]. unfold scratch_alloc in Hdst. cbn. by destruct (scratch_ok S_gather (8 * n)). }
  apply scratch_alloc_inv in Hdst. rewrite Z.max_r in Hdst by lia.
  assert (Hpar : ∀ pool, par pool (gbi_fill_fn col idx) n dst = Some (map (cell_at col) idx)).
  { intros pool. rewrite (par_fill pool _ (λ i dst, r ← idx.[i]; v ← (cells col).[r]; zset dst i v) (λ i, cell_at col (default 0 idx.[i])));
      [|lia|done|done|].
    - f_equal. by apply (table_of_list (cell_at col)).
    - intros i d Hi. destruct (zget_is_Some idx i) as [r Hr]; [lia|]. rewrite Hr. change (default 0 (Some r)) with r. cbn [mbind option_bind].
      assert (0 ≤ r < n). { apply elem_of_range. rewrite <- Hp. apply elem_of_zget. exists i. split; [lia|done]. }
      destruct Hcol as [Hlc _]. unfold cell_at. by destruct (zget_is_Some (cells col) r) as [v ->]; [lia|]. }
  rewrite Hpar. cbn [mbind option_bind]. rewrite (copy_nulls_ok (cell_at col)) by done. cbn [mbind option_bind]. by eexists.
Qed.

(** Rows of equal rank have equal cells, so ties do not show. *)
Lemma row_in idx r : idx ≡ₚ range 0 n → r ∈ idx → 0 ≤ r < n.
Proof. intros Hp Hr. rewrite Hp in Hr. by apply elem_of_range in Hr. Qed.
Lemma equal_ranks_cells a b :
  a ≡ₚ range 0 n → b ≡ₚ range 0 n → map (rank col desc nf) a = map (rank col desc nf) b →
  map (λ r, cell r) a = map (λ r, cell r) b.
Proof.
  intros Ha Hb. assert (Hra : ∀ r, r ∈ a → 0 ≤ r < n) by (intros; by apply (row_in a)).
  assert (Hrb : ∀ r, r ∈ b → 0 ≤ r < n) by (intros; by apply (row_in b)). clear Ha Hb.
  revert b Hrb. induction a as [|x a IH]; intros [|y b] Hrb; cbn [map]; intros Heq; try done. injection Heq as Hxy Heq.
  f_equal.
  - apply (canon_rank col desc nf); [| |exact Hxy]; apply (plain_row col desc nf n); try done; [apply Hra|apply Hrb]; by left.
  - apply IH; [intros; apply Hra; by right|intros; apply Hrb; by right|done].
Qed.

Lemma csort_rows : csort cmp (range 0 n) ≡ₚ range 0 n ∧ StronglySorted (before cmp) (csort cmp (range 0 n)).
Proof.
  pose proof (the_order col desc nf n Hcol). destruct (csort_spec cmp (range 0 n)) as (_ & Hp & Hs); [apply range_increasing|done].
Qed.
Lemma turned_ranks idx i j x y :
  turned_round col desc nf n idx → 0 ≤ i < j → idx.[i] = Some x → idx.[j] = Some y → rank col desc nf x ≤ rank col desc nf y.
Proof.
  intros [-> Hrev] Hij Hx Hy. pose proof (zget_Some _ _ _ Hy) as Hj. rewrite zlen_map, zlen_range in Hj.
  rewrite zget_table in Hx, Hy by lia. injection Hx as <-. injection Hy as <-.
  apply (adjacent_le (λ i, rank col desc nf (n - 1 - i)) n); [|lia|lia]. intros k Hk.
  replace (n - 1 - k) with (n - 1 - (k - 1) - 1) by lia. apply Hrev. lia.
Qed.
Lemma turned_perm idx : turned_round col desc nf n idx → idx ≡ₚ range 0 n.
Proof.
  intros [-> _]. apply NoDup_Permutation.
  - apply NoDup_fmap_2_strong; [intros; lia|apply NoDup_range].
  - apply NoDup_range.
  - intros x. rewrite list_elem_of_fmap, elem_of_range. split; [intros (i & -> & Hi%elem_of_range); lia|].
    intros Hx. exists (n - 1 - x). split; [lia|]. apply elem_of_range. lia.
Qed.
Lemma turned_cells idx : turned_round col desc nf n idx → idx ≡ₚ range 0 n ∧ map (λ r, cell r) idx = sorted_cells.
Proof.
  intros Ht. pose proof (turned_perm idx Ht) as Hp. split; [done|]. destruct csort_rows as [Hcp Hcs].
  apply equal_ranks_cells; [done|done|]. apply (StronglySorted_unique Z.le).
  - apply StronglySorted_zget. intros j k x y Hjk Hx Hy. rewrite zget_nat, list_lookup_fmap in Hx, Hy by lia. rewrite <- zget_nat in Hx, Hy by lia.
    destruct (idx.[j]) as [x'|] eqn:Hxj; [|done]. destruct (idx.[k]) as [y'|] eqn:Hyk; [|done]. injection Hx as <-. injection Hy as <-.
    by apply (turned_ranks idx j k).
  - clear Hcp. induction Hcs as [|x l Hl IH Hx]; [constructor|]. cbn [map]. constructor; [done|].
    apply Forall_forall. intros k (y & -> & Hy)%list_elem_of_fmap. rewrite Forall_forall in Hx. specialize (Hx y Hy).
    apply (before_rank col desc nf n Hcol) in Hx. lia.
  - by rewrite Hp, Hcp.
Qed.

(** Whatever happens to memory, the cells in order. *)
Lemma ray_sort_ok nulls_first :
  nf = default (negb desc) nulls_first → bytes_scanned col desc nf n →
  match ray_sort col desc nulls_first n with
  | Some (inr cells') => cells' = sorted_cells
  | Some (inl SORT_OOM) => ∃ s m, scratch_ok s m = false
  | None => ¬ hist_granted ((SMALL_POOL_THRESHOLD <=? n) && ray_pool_get)
  end.
Proof.
  intros Hnf Hscan. pose proof (sort_indices_ex_ok col desc nf n Hn Hgrain Hcol Hscan nulls_first true Hnf) as Hidx.
  unfold ray_sort. destruct (sort_indices_ex col desc nulls_first n true) as [[[]|[idx sk]]|]; [done| |done]. cbn [mbind option_bind].
  assert (Hidx' : idx ≡ₚ range 0 n ∧ map (λ r, cell r) idx = sorted_cells ∧ ∀ ks, sk = Some ks → ks = map (enc_row col desc nf) idx).
  { destruct Hidx as [[-> Hks]|[Ht ->]]; [split; [apply csort_rows|done]|].
    destruct (turned_cells idx Ht) as [Hp Hc]. by split. }
  clear Hidx. destruct Hidx' as (Hp & Hcells & Hks).
  assert (Hl : zlen idx = n) by (unfold zlen; rewrite (Permutation_length Hp); change (zlen (range 0 n) = n); rewrite zlen_range; lia).
  assert (Hg : match gather_by_idx col idx n with
     | Some (inr cells') => cells' = sorted_cells | Some (inl SORT_OOM) => ∃ s m, scratch_ok s m = false
     | None => ¬ hist_granted ((SMALL_POOL_THRESHOLD <=? n) && ray_pool_get) end).
  { destruct (gather_ok idx Hp) as (r & -> & Hr). destruct r as [[]|v]; [by eexists _, _|]. by rewrite Hr. }
  destruct sk as [ks|]; [|done]. fold (shifted col). destruct (shifted col) eqn:Hsh; [done|].
  destruct (scratch_alloc S_decoded 8 n) as [dst|] eqn:Hdst.
  2:{ exists S_decoded, (8 * n). unfold scratch_alloc in Hdst. by destruct (scratch_ok S_decoded (8 * n)). }
  apply scratch_alloc_inv in Hdst. rewrite Z.max_r in Hdst by lia. rewrite (Hks ks eq_refl).
  unfold radix_decode_into.
  rewrite (fill_ok _ (λ i, decode_key (col_type col) desc (default 0 (map (enc_row col desc nf) idx).[i])) (range 0 n) n); [|lia|done|done|].
  2:{ intros i d Hi. by destruct (zget_is_Some (map (enc_row col desc nf) idx) i) as [k ->]; [rewrite zlen_map; lia|]. }
  rewrite (table_of_list (decode_key (col_type col) desc)) by (by rewrite zlen_map). cbn [mbind option_bind]. rewrite map_map.
  rewrite (copy_nulls_ok (λ r, decode_key (col_type col) desc (enc_row col desc nf r))); [done|done|].
  intros r Hr Hnull. apply decode_encode; [|done|done]. apply (plain_row col desc nf n); [done|by apply (row_in idx)].
Qed.
End cells.
