(* ===== verification/SortTopk.v ===== *)
(** * The first rows of the sorted order

    A heap of the [k] best rows so far, the worst at its root: a row that is
    not better than the root is passed over, another replaces it. *)

From stdpp Require Import sorting.
From S2P Require Import Prelude Pool PoolProofs Rowsel RowselProofs Sort SortOrder SortRadix SortScatter SortLsd SortMsd SortMerge.
From S2P Require Import SortEnc SortPar SortPacked SortColumn.
Local Open Scope Z_scope.

Section select.
Context {A : Type} (lt : A → A → bool) `{!WeakOrder lt}.
Context (total_order : ∀ x y, lt x y = false → lt y x = false → x = y).
Context (item : Z → A) (n k : Z) (Hk : 0 < k < n).

Definition best (i : Z) (h : list A) : Prop :=
  zlen h = k ∧ heap_from lt h k 0 ∧
  ∃ rest, h ++ rest ≡ₚ map item (range 0 i) ∧ ∀ x y, x ∈ h → y ∈ rest → lt y x = false.

Lemma root_worst h root x : zlen h = k → heap_from lt h k 0 → h.[0] = Some root → x ∈ h → lt root x = false.
Proof.
  intros Hl Hh Hroot (j & Hj & Hx)%elem_of_zget. by apply (heap_root lt h k j); [done|lia|lia|..].
Qed.
Lemma best_init h : h ≡ₚ map item (range 0 k) → heap_from lt h k 0 → best k h.
Proof.
  intros Hp Hh. split; [|split; [done|]].
  - unfold zlen. rewrite (Permutation_length Hp). change (zlen (map item (range 0 k)) = k). apply zlen_table. lia.
  - exists []. split; [by rewrite app_nil_r|]. intros x y _ []%not_elem_of_nil.
Qed.
Lemma best_keep i h root :
  0 ≤ i → best i h → h.[0] = Some root → lt (item i) root = false → best (i + 1) h.
Proof.
  intros Hi (Hl & Hh & rest & Hp & Hle) Hroot Hge. split; [done|]. split; [done|]. exists (rest ++ [item i]). split.
  - rewrite range_snoc, map_app, app_assoc by done. by rewrite Hp.
  - intros x y Hx Hy. apply elem_of_app in Hy as [Hy|Hy%list_elem_of_singleton]; [by apply Hle|]. subst y.
    apply (le_trans (lt := lt) x root (item i)); [by apply (root_worst h)|done].
Qed.
Lemma best_replace i h root :
  0 ≤ i → best i h → h.[0] = Some root → lt root (item i) = false →
  ∃ h', (h1 ← zset h 0 (item i); sift_down lt (Z.to_nat k + 1) h1 k 0) = Some h' ∧ best (i + 1) h'.
Proof.
  intros Hi (Hl & Hh & rest & Hp & Hle) Hroot Hlt. destruct h as [|r t]; [done|]. assert (r = root) as -> by (by injection Hroot).
  destruct (zset_total (root :: t) 0 (item i)) as [h1 Hh1]; [lia|].
  assert (h1 = item i :: t) as -> by (by apply zset_inv in Hh1 as [_ ->]).
  rewrite Hh1. cbn [mbind option_bind]. assert (Hl1 : zlen (item i :: t) = k) by (rewrite zlen_cons in *; done).
  destruct (sift_down_spec lt (Z.to_nat k + 1) (item i :: t) k 0 0) as (h' & -> & (Hph & Hlh & _) & Hhh); [lia|lia|lia|lia| |].
  { split; [|unfold child; lia]. intros p Hp0 Hpne c x y Hc Hcn Hx Hy. unfold child in Hc.
    apply (Hh p Hp0 c x y); [done|done| |]; [rewrite <- Hx|rewrite <- Hy]; symmetry; eapply zget_zset_ne; (exact Hh1 || lia). }
  exists h'. split; [done|]. split; [lia|]. split; [done|]. exists (root :: rest). split.
  - rewrite Hph, range_snoc, map_app by done. cbn [map]. rewrite <- Hp. cbn [app].
    by rewrite <- Permutation_middle, <- Permutation_cons_append, (perm_swap root).
  - assert (Hrw : ∀ x, x ∈ root :: t → lt root x = false) by (intros x; by apply root_worst).
    intros x y Hx Hy. rewrite Hph in Hx. apply elem_of_cons in Hx as [->|Hx], Hy as [->|Hy]; [done| | |].
    + apply (le_trans (lt := lt) (item i) root y); [done|]. apply Hle; [by left|done].
    + apply Hrw. by right.
    + apply Hle; [by right|done].
Qed.

(** The rows kept, in order, are the first of all rows in order. *)
Lemma best_done h s total :
  best n h → s ≡ₚ h → sorted_by lt s → total ≡ₚ map item (range 0 n) → sorted_by lt total → s = take (Z.to_nat k) total.
Proof.
  intros (Hl & _ & rest & Hp & Hle) Hs Hsort Ht Htot. destruct (heapsort_spec lt rest) as (rest' & _ & Hpr & Hsr).
  assert (Heq : s ++ rest' = total).
  { apply (StronglySorted_unique_strong (λ x y, lt y x = false)); [by intros; apply total_order| |exact Htot|].
    - apply StronglySorted_app. split; [|done]. intros x y Hx Hy. rewrite Hs in Hx. rewrite Hpr in Hy. by apply Hle.
    - by rewrite Hs, Hpr, Hp, Ht. }
  rewrite <- Heq. rewrite take_app_le by (apply Permutation_length in Hs; unfold zlen in Hl; lia).
  symmetry. apply take_ge. apply Permutation_length in Hs. unfold zlen in Hl. lia.
Qed.
End select.

(** ** Comparators *)
Definition good_cmp (c : Z → Z → Z) : Prop :=
  (∀ a b, c b a = - c a b) ∧ ∀ a b d, c a b ≤ 0 → c b d ≤ 0 → c a d ≤ 0.
Definition lex_cmp (c d : Z → Z → Z) (a b : Z) : Z := if negb (c a b =? 0) then c a b else d a b.

Lemma good_rank (r : Z → Z) : good_cmp (λ a b, cmp3 (r a) (r b)).
Proof. split; intros *; unfold cmp3; zbool; lia. Qed.
Lemma good_ext c d : (∀ a b, c a b = d a b) → good_cmp d → good_cmp c.
Proof. intros He [Ho Ht]. split; intros *; rewrite !He; [apply Ho|apply Ht]. Qed.
Lemma good_lex c d : good_cmp c → good_cmp d → good_cmp (lex_cmp c d).
Proof.
  intros [Hco Hct] [Hdo Hdt]. split.
  - intros a b. unfold lex_cmp. specialize (Hco a b). specialize (Hdo a b). zbool; cbn; lia.
  - intros a b e. unfold lex_cmp. pose proof (Hct a b e). pose proof (Hct e a b). pose proof (Hct b e a).
    pose proof (Hco a b). pose proof (Hco b e). pose proof (Hco a e). pose proof (Hdt a b e).
    destruct (Z.eqb_spec (c a b) 0), (Z.eqb_spec (c b e) 0), (Z.eqb_spec (c a e) 0); cbn; lia.
Qed.
Lemma good_order c : good_cmp c → WeakOrder (λ x y, 0 <? c y x) ∧ WeakOrder (λ x y, c x y <? 0).
Proof.
  intros [Ho Ht]. split; (split; intros x y; [|intros z]); rewrite ?Z.ltb_lt, ?Z.ltb_ge; specialize (Ho x y) as Hxy.
  - lia.
  - intros. apply (Ht x y z); lia.
  - lia.
  - pose proof (Ho y z). pose proof (Ho x z). intros. pose proof (Ht x y z). lia.
Qed.

Definition key_fine (k : sort_key) : Prop :=
  Forall (cell_ok (col_type (sk_col k))) (cells (sk_col k)) ∧ nan_marked (sk_col k).
Lemma sort_cmp_cons k ks a b : sort_cmp (k :: ks) a b = lex_cmp (sort_cmp [k]) (sort_cmp ks) a b.
Proof.
  unfold lex_cmp. cbn [sort_cmp]. match goal with |- (if negb (?x =? 0) then _ else _) = _ => generalize x end.
  intros c. destruct (Z.eqb_spec c 0); cbn; [done|]. by rewrite (proj2 (Z.eqb_neq _ _)).
Qed.
Lemma good_sort_cmp keys : Forall key_fine keys → good_cmp (sort_cmp keys).
Proof.
  induction 1 as [|k ks [Hok Hm] _ IH]; [by split; intros *; cbn|].
  eapply good_ext; [intros; apply sort_cmp_cons|]. apply good_lex; [|done].
  eapply good_ext; [intros; by apply key_cmp|]. apply good_rank.
Qed.
Lemma good_topk_pos keys : Forall key_fine keys → good_cmp (topk_cmp_pos keys).
Proof.
  intros Hk. apply (good_ext _ (lex_cmp (sort_cmp keys) cmp3)); [done|].
  apply good_lex; [by apply good_sort_cmp|apply (good_rank (λ i, i))].
Qed.

Section topk.
Context `{Dispatcher} `{!DispatcherLaws} `{Workers} `{!WorkersLaws} `{Scratch}.

Lemma topk_cmp_ok keys n k :
  Forall key_fine keys → keys ≠ [] → 0 < k < n →
  ∃ r, topk_indices_cmp keys n k = Some (Some r) ∧
    match r with
    | inl SORT_OOM => scratch_ok S_result (8 * k) = false
    | inr idx => idx = take (Z.to_nat k) (csort (sort_cmp keys) (range 0 n))
    end.
Proof.
  intros Hkeys Hne Hk. unfold topk_indices_cmp.
  destruct keys as [|key keys']; [done|]. set (keys := key :: keys') in *.
  rewrite (proj2 (Z.eqb_neq (zlen keys) 0)) by (unfold keys; rewrite zlen_cons; pose proof (zlen_nonneg keys'); lia).
  clearbody keys. clear Hne key keys'.
  rewrite !(proj2 (Z.leb_gt _ _)) by lia. cbn [orb].
  destruct (scratch_alloc S_result 8 k) as [heap|] eqn:Hheap.
  2:{ eexists. split; [done|]. unfold scratch_alloc in Hheap. cbn. by destruct (scratch_ok S_result (8 * k)). }
  apply scratch_alloc_inv in Hheap. rewrite Z.max_r in Hheap by lia.
  rewrite (fill_ok _ (λ i, i) (range 0 k) k) by (done || lia). rewrite map_id. cbn [mbind option_bind].
  pose proof (good_topk_pos keys Hkeys) as Hpos. pose proof (good_sort_cmp keys Hkeys) as Hcmp.
  destruct (good_order _ Hpos) as [Ho1 Ho2]. destruct (good_order _ Hcmp) as [Ho3 _].
  set (lt := λ worst c, 0 <? topk_cmp_pos keys c worst) in *.
  assert (Htotal : ∀ x y, lt x y = false → lt y x = false → x = y).
  { intros x y. unfold lt. rewrite !Z.ltb_ge. destruct Hpos as [Hop _]. rewrite (Hop x y). unfold topk_cmp_pos, cmp3.
    destruct (Z.eqb_spec (sort_cmp keys x y) 0); cbn [negb]; zbool; lia. }
  destruct (heapify_spec lt (range 0 k) k) as (h & Hh & (Hph & _) & Hhh); [rewrite zlen_range; lia|].
  assert (Hrun : foldM (λ i h, topk_cmp_sift_down keys (Z.to_nat k + 1) h k i) (rev (range 0 (k / 2))) (range 0 k) = Some h) by exact Hh.
  rewrite Hrun. cbn [mbind option_bind].
  destruct (foldM_range (λ i heap, root ← heap.[0];
      if 0 <=? sort_cmp keys i root then Some heap
      else heap ← zset heap 0 i; topk_cmp_sift_down keys (Z.to_nat k + 1) heap k 0)
    (λ i h, best lt (λ i, i) k i h) k n h) as (h2 & Hrun2 & Hbest); [lia| | |].
  - apply (best_init lt (λ i, i) n k Hk); [by rewrite map_id|done].
  - intros i h1 Hi Hb. pose proof Hb as (Hl1 & _). destruct (zget_is_Some h1 0) as [root Hroot]; [lia|]. rewrite Hroot. cbn [mbind option_bind].
    assert (Hri : root < i).
    { destruct Hb as (_ & _ & rest & Hpr & _). rewrite map_id in Hpr. assert (Hin : root ∈ range 0 i).
      { rewrite <- Hpr. apply elem_of_app. left. apply elem_of_zget. exists 0. split; [lia|done]. }
      apply elem_of_range in Hin. lia. }
    destruct Hcmp as [Hco _]. specialize (Hco i root).
    assert (Hposi : topk_cmp_pos keys i root ≤ 0 ↔ sort_cmp keys i root < 0).
    { unfold topk_cmp_pos, cmp3. destruct (Z.eqb_spec (sort_cmp keys i root) 0); cbn [negb]; zbool; lia. }
    destruct Hpos as [Hop _]. specialize (Hop i root). destruct (Z.leb_spec 0 (sort_cmp keys i root)).
    + exists h1. split; [done|]. apply (best_keep lt (λ i, i) k i h1 root); [lia|done|done|]. unfold lt. apply Z.ltb_ge. lia.
    + apply (best_replace lt (λ i, i) n k Hk i h1 root); [lia|done|done|]. unfold lt. apply Z.ltb_ge. lia.
  - rewrite Hrun2. cbn [mbind option_bind]. pose proof Hbest as (Hl2 & _).
    destruct (insertion_sort_spec (λ v x, topk_cmp_pos keys v x <? 0) (λ _ _, True) h2 k) as (s & -> & Hps & Hss); [done|by apply StronglySorted_const|].
    cbn [mbind option_bind]. eexists. split; [done|]. destruct (csort_spec (sort_cmp keys) (range 0 n)) as (_ & Hpc & Hsc); [apply range_increasing|].
    apply (best_done lt Htotal (λ i, i) n k Hk h2); [done|done| |by rewrite map_id|].
    + eapply StronglySorted_impl; [|exact Hss]. intros x y _ _ Hxy. apply stable_lt_le in Hxy; [|done]. unfold lt.
      apply Z.ltb_ge in Hxy. apply Z.ltb_ge. destruct Hpos as [Hop _]. specialize (Hop y x). lia.
    + eapply StronglySorted_impl; [|exact Hsc]. intros x y _ _ Hxy. unfold lt. apply Z.ltb_ge.
      destruct Hcmp as [Hco _]. specialize (Hco x y). unfold topk_cmp_pos, cmp3.
      destruct Hxy as [Hxy%Z.ltb_lt|[Hxy%Z.ltb_ge Hlt]]; destruct (Z.eqb_spec (sort_cmp keys x y) 0); cbn [negb]; zbool; lia.
Qed.

Section single.
Context (col : column) (desc nf : bool) (n k : Z) (Hn : 0 < n < 2 ^ 32) (Hk : 0 < k < n) (Hcol : column_plain col desc nf n).
Notation pair i := (enc_row col desc nf i%Z, i%Z).

Lemma key_lt_total (x y : kv) : key_lt x y = false → key_lt y x = false → x = y.
Proof. rewrite !key_lt_false. destruct x, y. cbn. intros. f_equal; lia. Qed.

(** [None] is the answer that makes the caller sort. *)
Lemma topk_single_ok :
  match topk_indices_single col desc nf n k with
  | Some (Some (inr idx)) => idx = take (Z.to_nat k) (csort (the_cmp col desc nf) (range 0 n))
  | Some (Some (inl SORT_OOM)) | Some None => ∃ s m, scratch_ok s m = false
  | None => False
  end.
Proof.
  assert (Hrefused : ∀ s m, scratch_alloc s 8 m = None → ∃ s m, scratch_ok s m = false).
  { intros s m Hs. exists s, (8 * m). unfold scratch_alloc in Hs. by destruct (scratch_ok s (8 * m)). }
  unfold topk_indices_single. rewrite !(proj2 (Z.leb_gt _ _)) by lia. cbn [orb].
  destruct (scratch_alloc S_keys 8 n) as [keys|] eqn:Hkeys; [|by eapply Hrefused]. apply scratch_alloc_inv in Hkeys.
  pose proof (encode_pass col desc nf n Hn Hcol false keys (range 0 n)) as Henc. cbn [par] in Henc.
  rewrite Henc by (rewrite ?zlen_range; lia). cbn [mbind option_bind]. cbv zeta.
  destruct (scratch_alloc S_heap_keys 8 k) as [hk|] eqn:Hhk; [|by eapply Hrefused].
  destruct (scratch_alloc S_heap_idx 8 k) as [hi|] eqn:Hhi; [|by eapply Hrefused]. apply scratch_alloc_inv in Hhk, Hhi.
  assert (Hkey : ∀ i, 0 ≤ i < n → (map fst (key_pairs col desc nf n)).[i] = Some (enc_row col desc nf i)).
  { intros i Hi. unfold key_pairs. rewrite map_map. by apply (zget_table (enc_row col desc nf)). }
  rewrite (fill_ok _ (λ i, pair i) (range 0 k) k).
  2, 3: done || lia. 2: unfold zlen in *; rewrite length_zip_with; lia. 2: intros i a Hi; by rewrite Hkey by lia.
  cbn [mbind option_bind]. set (h0 := map (λ i, pair i) (range 0 k)).
  destruct (heapify_spec key_lt h0 k) as (h & -> & (Hph & _) & Hhh); [unfold h0; rewrite zlen_table; lia|]. cbn [mbind option_bind].
  destruct (foldM_range (λ i h, x ← (map fst (key_pairs col desc nf n)).[i]; root ← h.[0];
      if fst root <=? x then Some h
      else h ← zset h 0 (x, i); sift_down key_lt (Z.to_nat k + 1) h k 0)
    (λ i h, best key_lt (λ i, pair i) k i h) k n h) as (h2 & -> & Hbest); [lia| | |].
  - by apply (best_init key_lt (λ i, pair i) n k Hk).
  - intros i h1 Hi Hb. rewrite Hkey by lia. cbn [mbind option_bind]. pose proof Hb as (Hl1 & _).
    destruct (zget_is_Some h1 0) as [root Hroot]; [lia|]. rewrite Hroot. cbn [mbind option_bind].
    assert (Hri : snd root < i).
    { destruct Hb as (_ & _ & rest & Hpr & _). assert (Hin : root ∈ map (λ i, pair i) (range 0 i)).
      { rewrite <- Hpr. apply elem_of_app. left. apply elem_of_zget. exists 0. split; [lia|done]. }
      apply list_elem_of_fmap in Hin as (j & -> & Hj%elem_of_range). cbn. lia. }
    destruct (Z.leb_spec (fst root) (enc_row col desc nf i)).
    + exists h1. split; [done|]. apply (best_keep key_lt (λ i, pair i) k i h1 root); [lia|done|done|]. apply key_lt_false. cbn. lia.
    + apply (best_replace key_lt (λ i, pair i) n k Hk i h1 root); [lia|done|done|]. apply key_lt_false. cbn. lia.
  - cbn [mbind option_bind]. destruct (heapsort_spec key_lt h2) as (s & Hs & Hps & Hss).
    assert (Hrun : key_heapsort h2 = Some s) by exact Hs. rewrite Hrun. cbn [mbind option_bind].
    destruct (scratch_ok S_result (8 * k)) eqn:Hres; [|by eexists _, _].
    destruct (ksort_spec (key_pairs col desc nf n)) as (_ & Hpk & Hsk).
    rewrite (best_done key_lt key_lt_total (λ i, pair i) n k Hk h2 s (ksort (key_pairs col desc nf n))) by done.
    rewrite <- firstn_map. f_equal. by apply pairs_ksort.
Qed.
End single.
End topk.

(** [csort] in terms of the comparator. *)
Lemma before_stable c s :
  good_cmp c → StronglySorted (before c) s → StronglySorted (λ i j, c i j < 0 ∨ c i j = 0 ∧ i < j) s.
Proof.
  intros [Ho _] Hs. eapply StronglySorted_impl; [|exact Hs]. intros i j _ _ Hb. specialize (Ho i j).
  destruct Hb as [Hb%Z.ltb_lt|[Hb%Z.ltb_ge Hij]]; lia.
Qed.
Lemma stable_before c s :
  good_cmp c → StronglySorted (λ i j, c i j < 0 ∨ c i j = 0 ∧ i < j) s → StronglySorted (before c) s.
Proof.
  intros [Ho _] Hs. eapply StronglySorted_impl; [|exact Hs]. intros i j _ _ Hb. specialize (Ho i j).
  destruct Hb as [Hb|[Hb Hij]]; [left; apply Z.ltb_lt; lia|right; split; [apply Z.ltb_ge; lia|done]].
Qed.
