(* ===== verification/SortProps.v ===== *)
(** * What the sorts guarantee *)

From stdpp Require Import sorting.
From S2P Require Import Prelude Pool PoolProofs Rowsel RowselProofs Sort SortOrder SortRadix SortScatter SortLsd SortMsd SortMerge.
From S2P Require Import SortEnc SortPar SortPacked SortColumn SortTopk.
Local Open Scope Z_scope.

(** A pool of two threads that runs its tasks backwards, the odd ones on the
    second thread; all memory is granted, with junk in it. *)
Module Bench.
#[global] Instance pool : Dispatcher :=
  {| ray_pool_get := true; ring_cap := 1024; ring_realloc_ok := true; run_order := @reverse task |}.
#[global] Instance threads : Workers := {| total_workers := 2; task_wid t := t_start t / 8192 mod 2 |}.
#[global] Instance memory : Scratch := {| scratch_ok _ _ := true; scratch_junk i := 7 * i - 3 |}.
Lemma bench_pool_laws : DispatcherLaws.
Proof. split; [intros ts; apply reverse_Permutation|by exists 10]. Qed.
#[global] Instance threads_laws : WorkersLaws.
Proof. split; [done|intros t; apply Z.mod_pos_bound; done|done]. Qed.

(** 70 distinct numbers and a null. *)
Definition numbers : column := Column I64 true (map (λ i, if i =? 5 then NULL_I64 else i * 37 mod 71 - 30) (range 0 71)).
Lemma numbers_plain : column_plain numbers false true 71.
Proof.
  split; [done|]. apply Forall_forall. intros v (i & -> & _)%list_elem_of_fmap.
  pose proof (Z.mod_pos_bound (i * 37) 71 eq_refl). unfold cell_plain. change (col_type numbers) with I64. split; [|by intros _].
  unfold cell_ok, in_s, NULL_I64. destruct (i =? 5); lia.
Qed.
End Bench.





(** The introsort of keys ends within its depth and its heaps, inside the
    array, with the same pairs in order of key and then of row. *)
Theorem key_introsort_sorts (a : list kv) :
  ∃ a', key_introsort a = Some a' ∧ a' ≡ₚ a ∧
    StronglySorted (λ x y, fst x < fst y ∨ fst x = fst y ∧ snd x ≤ snd y) a'.
Proof.
  destruct (key_introsort_spec a) as (a' & Hrun & Hp & Hs). exists a'. split; [done|]. split; [done|].
  eapply StronglySorted_impl; [|exact Hs]. intros x y _ _ Hxy. apply key_lt_false in Hxy. lia.
Qed.

(** C13. The radix sort of keys, in parallel or not, by digits from the lowest
    or by buckets of the highest first, leaves exactly what a comparison sort
    leaves, when the keys agree above the bytes it looks at; it gives up only
    when its histograms are refused. *)
Theorem msd_radix_sort_run_sorts (D : Dispatcher) (W : Workers) (M : Scratch) (pool : bool) (l tmp : list kv)
    (n_bytes : nat) :
  DispatcherLaws → WorkersLaws → zlen l < 2 ^ 32 → zlen tmp = zlen l → (n_bytes ≤ 8)%nat →
  agree_above (Z.of_nat n_bytes) l → StronglySorted (λ x y, snd x < snd y) l →
  ∃ r, msd_radix_sort_run pool l tmp (zlen l) n_bytes = Some r ∧
    match r with Some (s, _, _) => key_introsort l = Some s | None => ¬ hist_granted pool end.
Proof.
  intros DL WL Hn Ht Hb Ha Hl. destruct (msd_radix_sort_run_ok pool l tmp (zlen l) n_bytes) as (r & Hr & Hs); [done..|].
  exists r. split; [done|]. destruct r as [[[s d] sw]|]; [|done]. cbn in Hs. subst s.
  destruct (ksort_spec l) as (Hk & _). exact Hk.
Qed.

Lemma msd_radix_sort_run_sorts_witness :
  let l : list kv := map (λ i, ((i * 7919 + 13) mod 65536, i)) (range 0 300) in
  (∃ r, msd_radix_sort_run true l l (zlen l) 2 = Some r ∧
    match r with Some (s, _, _) => key_introsort l = Some s | None => ¬ hist_granted true end) ∧
  (match msd_radix_sort_run true l l (zlen l) 2 with Some (Some (s, _, _)) => take 3 s | _ => [] end)
    = [(13, 0); (29, 240); (296, 149)].
Proof.
  intros l. split; [|by vm_compute].
  apply (msd_radix_sort_run_sorts _ _ _ true l l 2); [apply Bench.bench_pool_laws|apply _|done|done|lia| |].
  - intros x y (i & -> & _)%list_elem_of_fmap (j & -> & _)%list_elem_of_fmap. cbn [fst].
    rewrite !Z.div_small by (apply Z.mod_pos_bound; done). done.
  - apply pairs_row_lt.
Defined.

(** Keys are in the order of the comparator, in full and in the low bytes
    the radix sort is given. *)
Theorem encode_cell_orders (col : column) (desc nf : bool) (n i j : Z) :
  column_plain col desc nf n → 0 ≤ i < n → 0 ≤ j < n →
  let enc := λ r, encode_cell col desc nf (cell_at col r) in
  let low := λ r, enc r mod 2 ^ (8 * key_nbytes_max col) in
  let cmp := sort_cmp [SortKey col desc nf] in
  (enc i < enc j ↔ cmp i j < 0) ∧ (enc i = enc j ↔ cmp i j = 0) ∧ (low i < low j ↔ cmp i j < 0) ∧ (low i = low j ↔ cmp i j = 0).
Proof.
  intros Hcol Hi Hj enc low cmp. assert (Hc : cmp i j = cmp3 (rank col desc nf i) (rank col desc nf j)) by (apply (the_cmp_rank col desc nf n Hcol)).
  pose proof (plain_row col desc nf n Hcol i Hi) as Hpi. pose proof (plain_row col desc nf n Hcol j Hj) as Hpj.
  rewrite !Hc, cmp3_neg, cmp3_zero. destruct (encode_order col desc nf _ _ Hpi Hpj) as [H1 H2].
  destruct (encode_eq col desc nf _ _ Hpi Hpj) as [H3 H4]. done.
Qed.

Lemma encode_cell_orders_witness :
  let enc := λ r, encode_cell Bench.numbers false true (cell_at Bench.numbers r) in
  let low := λ r, enc r mod 2 ^ (8 * key_nbytes_max Bench.numbers) in
  let cmp := sort_cmp [SortKey Bench.numbers false true] in
  (enc 5 < enc 0 ↔ cmp 5 0 < 0) ∧ (enc 5 = enc 0 ↔ cmp 5 0 = 0) ∧ (low 5 < low 0 ↔ cmp 5 0 < 0) ∧ (low 5 = low 0 ↔ cmp 5 0 = 0).
Proof. apply (encode_cell_orders Bench.numbers false true 71); [apply Bench.numbers_plain|lia|lia]. Defined.

(** A cell that is not null comes back from its key, where keys are not
    shifted by one for a null. *)
Theorem decode_key_encode (col : column) (desc nf : bool) (v : Z) :
  cell_plain col (xorb nf desc) v → cell_is_null col v = false →
  has_nulls col && match col_type col with BOOL | U8 | I16 => true | _ => false end = false →
  decode_key (col_type col) desc (encode_cell col desc nf v) = v.
Proof. apply decode_encode. Qed.

Lemma decode_key_encode_witness :
  let col := Column F64 true [] in
  decode_key F64 true (encode_cell col true false 0xC045000000000000) = 0xC045000000000000 ∧
  encode_cell col true false 0xC045000000000000 = 0xC045000000000000.
Proof.
  intros col. split; [|by vm_compute]. apply (decode_key_encode col true false); [|done|done]. split; [by vm_compute|]. by split.
Defined.

(** C28. The merge sort, by any number of keys, on the pool or not, returns the
    rows in the order of the comparator with ties in their order, unless its
    temporary is refused. *)
Theorem merge_sort_stable (D : Dispatcher) (W : Workers) (M : Scratch) (keys : list sort_key) (rows : list Z) :
  DispatcherLaws → WorkersLaws → Forall key_fine keys → StronglySorted Z.lt rows → 0 < zlen rows < 2 ^ 32 →
  ∃ r, merge_sort (sort_cmp keys) ray_pool_get rows (zlen rows) = Some r ∧
    match r with
    | Some s => s ≡ₚ rows ∧ StronglySorted (λ i j, sort_cmp keys i j < 0 ∨ sort_cmp keys i j = 0 ∧ i < j) s
    | None => scratch_ok S_tmp (8 * zlen rows) = false
    end.
Proof.
  intros DL WL Hk Hr Hn. pose proof (good_sort_cmp keys Hk) as Hc. destruct (good_order _ Hc) as [Ho _].
  destruct (merge_sort_ok (sort_cmp keys) ray_pool_get rows (zlen rows)) as (r & Hrun & Hres); [done..|].
  exists r. split; [done|]. destruct r as [s|]; [|done]. subst s. destruct (csort_spec (sort_cmp keys) rows Hr) as (_ & Hp & Hs).
  split; [done|]. by apply before_stable.
Qed.

Lemma merge_sort_stable_witness :
  let c1 := Column U8 false (map (λ i, i mod 3) (range 0 1200)) in
  let c2 := Column I16 true (map (λ i, if i mod 100 =? 0 then NULL_I16 else i mod 7 - 3) (range 0 1200)) in
  let keys := [SortKey c1 true false; SortKey c2 false true] in
  (∃ r, merge_sort (sort_cmp keys) ray_pool_get (range 0 1200) (zlen (range 0 1200)) = Some r ∧
    match r with
    | Some s => s ≡ₚ range 0 1200 ∧ StronglySorted (λ i j, sort_cmp keys i j < 0 ∨ sort_cmp keys i j = 0 ∧ i < j) s
    | None => scratch_ok S_tmp (8 * zlen (range 0 1200)) = false
    end).
Proof.
  intros c1 c2 keys. apply (merge_sort_stable _ _ _ keys (range 0 1200)); [apply Bench.bench_pool_laws|apply _| |apply range_increasing|done].
  apply Forall_cons_2; [|apply Forall_singleton]; (split; [|by right || done]); cbn [sk_col].
  - apply Forall_forall. intros v (i & -> & _)%list_elem_of_fmap. pose proof (Z.mod_pos_bound i 3 eq_refl).
    change (in_u 8 (i mod 3)). unfold in_u. lia.
  - apply Forall_forall. intros v (i & -> & _)%list_elem_of_fmap. pose proof (Z.mod_pos_bound i 7 eq_refl).
    unfold cell_ok. cbn [col_type c2]. unfold in_s, NULL_I16. destruct (i mod 100 =? 0); lia.
Defined.

(** C27. Top-k of one column, when it does not hand over to a sort, is the
    first [k] rows of the stable order. *)
Theorem topk_indices_single_prefix (D : Dispatcher) (W : Workers) (M : Scratch) (col : column) (desc nf : bool) (n k : Z)
    (sorted : list Z) :
  let cmp := sort_cmp [SortKey col desc nf] in
  DispatcherLaws → WorkersLaws → 0 < k < n → n < 2 ^ 32 → column_plain col desc nf n →
  sorted ≡ₚ range 0 n → StronglySorted (λ i j, cmp i j < 0 ∨ cmp i j = 0 ∧ i < j) sorted →
  match topk_indices_single col desc nf n k with
  | Some (Some (inr idx)) => idx = take (Z.to_nat k) sorted
  | Some (Some (inl SORT_OOM)) | Some None => ∃ s m, scratch_ok s m = false
  | None => False
  end.
Proof.
  intros cmp DL WL Hk Hn Hcol Hp Hs. pose proof (topk_single_ok col desc nf n k ltac:(lia) Hk Hcol) as Hok.
  assert (Hsort : sorted = csort (the_cmp col desc nf) (range 0 n)).
  { pose proof (the_order col desc nf n Hcol). apply csort_unique; [apply _|apply range_increasing|done|].
    apply stable_before; [|exact Hs]. eapply good_ext; [apply (the_cmp_rank col desc nf n Hcol)|apply good_rank]. }
  by rewrite Hsort.
Qed.

Lemma topk_indices_single_prefix_witness :
  (match topk_indices_single Bench.numbers false true 71 3 with
   | Some (Some (inr idx)) => idx = take 3 (csort (the_cmp Bench.numbers false true) (range 0 71))
   | Some (Some (inl SORT_OOM)) | Some None => ∃ s m, scratch_ok s m = false
   | None => False
   end) ∧ topk_indices_single Bench.numbers false true 71 3 = Some (Some (inr [5; 0; 48])).
Proof.
  split; [|by vm_compute]. destruct (csort_rows Bench.numbers false true 71 Bench.numbers_plain) as [Hp Hs].
  apply (topk_indices_single_prefix _ _ _ Bench.numbers false true 71 3); [apply Bench.bench_pool_laws|apply _|lia|lia|apply Bench.numbers_plain|exact Hp|].
  apply before_stable; [|exact Hs]. eapply good_ext; [apply (the_cmp_rank _ _ _ 71 Bench.numbers_plain)|apply good_rank].
Defined.

(** Top-k by any number of keys is the first [k] rows of the stable
    order, or out of memory. *)
Theorem topk_indices_cmp_prefix (D : Dispatcher) (M : Scratch) (keys : list sort_key) (n k : Z) (sorted : list Z) :
  Forall key_fine keys → keys ≠ [] → 0 < k < n →
  sorted ≡ₚ range 0 n → StronglySorted (λ i j, sort_cmp keys i j < 0 ∨ sort_cmp keys i j = 0 ∧ i < j) sorted →
  ∃ r, topk_indices_cmp keys n k = Some (Some r) ∧
    match r with
    | inl SORT_OOM => scratch_ok S_result (8 * k) = false
    | inr idx => idx = take (Z.to_nat k) sorted
    end.
Proof.
  intros Hkeys Hne Hk Hp Hs. destruct (topk_cmp_ok keys n k Hkeys Hne Hk) as (r & Hr & Hres). exists r. split; [done|].
  pose proof (good_sort_cmp keys Hkeys) as Hg. destruct (good_order _ Hg) as [Ho _].
  assert (sorted = csort (sort_cmp keys) (range 0 n)) as ->; [|done].
  apply csort_unique; [done|apply range_increasing|done|]. by apply stable_before.
Qed.

Lemma topk_indices_cmp_prefix_witness :
  let keys := [SortKey (Column BOOL false [1; 0; 1; 0]) true false; SortKey (Column F64 true [0; 0; 0x7FF8000000000000; 0]) true true] in
  (∃ r, topk_indices_cmp keys 4 3 = Some (Some r) ∧
    match r with
    | inl SORT_OOM => scratch_ok S_result (8 * 3) = false
    | inr idx => idx = take (Z.to_nat 3) [2; 0; 1; 3]
    end).
Proof.
  intros keys. apply (topk_indices_cmp_prefix _ _ keys 4 3 [2; 0; 1; 3]); [|done|done| |].
  - apply Forall_cons_2; [|apply Forall_singleton]; (split; [repeat constructor; by vm_compute|by right || done]).
  - apply (bool_decide_unpack _). by vm_compute.
  - repeat constructor; vm_compute; by (left + right).
Defined.

(** The parallel scan for significant bytes compares the keys of a task
    with each other, but not the tasks: keys that differ only between tasks,
    and not where the workers' shares start, pass for keys of one byte. *)
Theorem compute_key_nbytes_blind (D : Dispatcher) (W : Workers) (f : Z → Z) (n type_max : Z) :
  let chunk := (n + total_workers - 1) / total_workers in
  DispatcherLaws → WorkersLaws → SMALL_POOL_THRESHOLD < n ≤ 2 ^ 40 → 1 ≤ type_max → grain_kept n →
  (∀ i, 0 ≤ i < n → f i = f (i / TASK_GRAIN * TASK_GRAIN)) →
  (∀ w, 0 ≤ w < total_workers → w * chunk < n → f (w * chunk) = f 0) →
  compute_key_nbytes true (map f (range 0 n)) n type_max = Some 1.
Proof. intros chunk DL WL Hn Hw Hg Hf Hs. by apply scan_blind. Qed.

(** 32768 keys: the second 8192 are 256, which takes two bytes. *)
Lemma compute_key_nbytes_blind_witness :
  let f := λ i, if i / 8192 =? 1 then 256 else 0 in
  compute_key_nbytes true (map f (range 0 32768)) 32768 8 = Some 1 ∧ ¬ bytes_suffice 8 1 (map f (range 0 32768)).
Proof.
  intros f. split.
  - apply (compute_key_nbytes_blind _ _ f 32768 8); [apply Bench.bench_pool_laws|apply _|done|done|by vm_compute| |].
    + intros i Hi. unfold f. rewrite grain_value, Z.div_mul by lia. done.
    + intros w Hw _. cbn in Hw. assert (w = 0 ∨ w = 1) as [-> | ->] by lia; by vm_compute.
  - intros Hb. pose proof (Hb (f 0) (f 8192) (elem_of_table f 32768 0 ltac:(lia)) (elem_of_table f 32768 8192 ltac:(lia)) eq_refl) as He.
    vm_compute in He. discriminate He.
Defined.
