(* ===== verification/Cal.v ===== *)
(** * Dates and times ([src/src/lang/cal.h], [src/src/ops/temporal.c])

    Dates are days, times milliseconds and timestamps nanoseconds, from
    2000-01-01. Two calendars turn a day into year, month and day: the one that
    prints and parses, with a division of [double]s, and the one that extracts
    fields and truncates, in integers. Signed overflow is undefined. *)

From stdpp Require Import strings.
From S2P Require Import Prelude Rowsel Sort.
Local Open Scope Z_scope.

(** [z] computed in a signed type of 32 or 64 bits *)
Definition in32 (z : Z) : option Z := if (- 2 ^ 31 <=? z) && (z <? 2 ^ 31) then Some z else None.
Definition in64 (z : Z) : option Z := if (- 2 ^ 63 <=? z) && (z <? 2 ^ 63) then Some z else None.

(** ** The calendar of the formatter and the parser *)
Definition RAY_DATE_EPOCH : Z := 2000.
Definition MONTHDAYS : list (list Z) :=
  [[0; 31; 59; 90; 120; 151; 181; 212; 243; 273; 304; 334; 365];
   [0; 31; 60; 91; 121; 152; 182; 213; 244; 274; 305; 335; 366]].
Definition monthdays (leap : bool) (mid : Z) : option Z := row ← MONTHDAYS.[Z.b2z leap]; row.[mid].

Definition date_leap_year (year : Z) : bool :=
  ((Z.rem year 4 =? 0) && negb (Z.rem year 100 =? 0)) || (Z.rem year 400 =? 0).
Definition date_years_by_days (yy : Z) : Z :=
  s32 (yy * 365 + Z.quot yy 4 - Z.quot yy 100 + Z.quot yy 400).

(** A positive [double] in [2^-11, 2^53) is [m / 2^k] with [2^52 <= m < 2^53];
    [round_quot n d] is the one nearest to [n / d], ties to even. *)
Definition round_half_even (n d : Z) : Z :=
  let q := n / d in
  let r := n mod d in
  if 2 * r <? d then q else if d <? 2 * r then q + 1 else if Z.even q then q else q + 1.
Definition round_quot (n d : Z) : Z * Z :=
  if n =? 0 then (0, 0) else
  let k := 53 - (Z.log2 n - Z.log2 d) in
  let k := if 2 ^ 53 * d <=? n * 2 ^ k then k - 1 else k in
  (round_half_even (n * 2 ^ k) d, k).
(** The [double] 365.2425 *)
Definition DAYS_PER_YEAR : Z * Z := (6425414011327611, 44).
Definition ddiv_days (n : Z) : Z * Z := let '(m, k) := DAYS_PER_YEAR in round_quot (n * 2 ^ k) m.
Definition dadd_half (x : Z * Z) : Z * Z := let '(m, k) := x in round_quot (2 * m + 2 ^ k) (2 ^ (k + 1)).
Definition dtrunc (x : Z * Z) : Z := let '(m, k) := x in m / 2 ^ k.

(** [(int32_t)(approx >= 0.0 ? approx + 0.5 : approx - 0.5)] of the quotient:
    division, addition and rounding are symmetric in the sign. *)
Definition approx_years (offset : Z) : Z :=
  if 0 <=? offset then dtrunc (dadd_half (ddiv_days offset)) else - dtrunc (dadd_half (ddiv_days (- offset))).

(** [for (mid = 12; mid > 0; mid--)] and the [break] *)
Fixpoint find_month (fuel : nat) (leap : bool) (rem mid : Z) : option Z :=
  match fuel with
  | O => None
  | S fuel =>
      if 0 <? mid then
        d ← monthdays leap mid;
        if negb (d =? 0) && negb (Z.quot rem d =? 0) then Some mid else find_month fuel leap rem (mid - 1)
      else Some mid
  end.

Definition date_to_ymd (days : Z) : option (Z * Z * Z) :=
  offset ← in32 (days + date_years_by_days (RAY_DATE_EPOCH - 1));
  let years := approx_years offset in
  let years := if offset <? date_years_by_days years then years - 1 else years in
  rem ← in32 (offset - date_years_by_days years);
  let yy := years + 1 in
  let leap := date_leap_year yy in
  mid ← find_month 13 leap rem 12;
  let mid := if (mid =? 12) || (mid <? 0) then 0 else mid in
  start ← monthdays leap mid;
  Some (yy, 1 + Z.rem mid 12, 1 + rem - start).

Definition ymd_to_date (year month day : Z) : option Z :=
  let yy := if 0 <? year then year - 1 else 0 in
  let ydays := date_years_by_days yy in
  let leap := date_leap_year year in
  let mm := if 0 <? month then month - 1 else 0 in
  let mm := if 12 <? mm then 12 else mm in
  mdays ← monthdays leap mm;
  d ← in32 (ydays - date_years_by_days (RAY_DATE_EPOCH - 1));
  d ← in32 (d + mdays); d ← in32 (d + day); in32 (d - 1).

(** ** Fields of a time *)
Inductive field :=
| F_YEAR | F_MONTH | F_DAY | F_HOUR | F_MINUTE | F_SECOND | F_DOW | F_DOY | F_EPOCH | F_OTHER.

Definition RTE_USEC_PER_SEC : Z := 1000000.
Definition RTE_USEC_PER_MIN : Z := 60 * RTE_USEC_PER_SEC.
Definition RTE_USEC_PER_HOUR : Z := 3600 * RTE_USEC_PER_SEC.
Definition RTE_USEC_PER_DAY : Z := 86400 * RTE_USEC_PER_SEC.

(** Hinnant's civil_from_days on days since 2000-01-01 *)
Definition civil_from_days (days_since_2000 : Z) : Z * Z * Z :=
  let z := days_since_2000 + 10957 + 719468 in
  let era := Z.quot (if 0 <=? z then z else z - 146096) 146097 in
  let doe := u64 (z - era * 146097) in
  let yoe := u64 (u64 (u64 (doe - doe / 1460) + doe / 36524) - doe / 146096) / 365 in
  let y := yoe + era * 400 in
  let doy_mar := u64 (doe - u64 (u64 (u64 (365 * yoe) + yoe / 4) - yoe / 100)) in
  let mp := u64 (5 * doy_mar + 2) / 153 in
  let d := u64 (doy_mar - u64 (153 * mp + 2) / 5 + 1) in
  let mo := if mp <? 10 then mp + 3 else mp - 9 in
  (y + (if mo <=? 2 then 1 else 0), mo, d).

Definition day_of_us (us : Z) : Z :=
  let days := Z.quot us RTE_USEC_PER_DAY in
  if (us <? 0) && negb (Z.rem us RTE_USEC_PER_DAY =? 0) then days - 1 else days.
Definition us_of_day (us : Z) : Z :=
  let day_us := Z.rem us RTE_USEC_PER_DAY in
  if day_us <? 0 then day_us + RTE_USEC_PER_DAY else day_us.

Definition dbm : list Z := [0; 0; 31; 59; 90; 120; 151; 181; 212; 243; 273; 304; 334].

Definition rte_extract_one (us : Z) (f : field) : option Z :=
  let '(y, mo, d) := civil_from_days (day_of_us us) in
  match f with
  | F_EPOCH => Some us
  | F_HOUR => Some (Z.quot (us_of_day us) RTE_USEC_PER_HOUR)
  | F_MINUTE => Some (Z.quot (Z.rem (us_of_day us) RTE_USEC_PER_HOUR) RTE_USEC_PER_MIN)
  | F_SECOND => Some (Z.quot (Z.rem (us_of_day us) RTE_USEC_PER_MIN) RTE_USEC_PER_SEC)
  | F_YEAR => Some y
  | F_MONTH => Some mo
  | F_DAY => Some d
  | F_DOW => Some (Z.rem (Z.rem (day_of_us us) 7 + 7 + 5) 7 + 1)
  | F_DOY =>
      if (mo <? 1) || (12 <? mo) then Some 0 else
      let leap := (Z.rem y 4 =? 0) && (negb (Z.rem y 100 =? 0) || (Z.rem y 400 =? 0)) in
      before ← dbm.[mo];
      let doy_jan := before + d in
      Some (if (2 <? mo) && leap then doy_jan + 1 else doy_jan)
  | F_OTHER => Some 0
  end.

(** A raw value in microseconds *)
Definition ns_to_us (ns : Z) : option Z :=
  if 0 <=? ns then Some (Z.quot ns 1000)
  else n ← in64 (- ns); n ← in64 (n + 999); Some (- Z.quot n 1000).
Definition rte_to_us (t : sort_type) (raw : Z) : option Z :=
  match t with
  | DATE => in64 (raw * RTE_USEC_PER_DAY)
  | TIME => in64 (raw * 1000)
  | _ => ns_to_us raw
  end.
Definition rte_us_to_ts_raw (us : Z) : option Z := in64 (us * 1000).

Inductive temporal_err := T_TYPE | T_OOM.
Definition is_temporal (t : sort_type) : bool := match t with DATE | TIME | TIMESTAMP => true | _ => false end.

(** An atom of type [t], [None] if it is null *)
Definition ray_temporal_extract_atom (t : sort_type) (v : option Z) (f : field) :
    option (temporal_err + option Z) :=
  if negb (is_temporal t) then Some (inl T_TYPE) else
  match v with
  | None => Some (inr None)
  | Some raw => us ← rte_to_us t raw; x ← rte_extract_one us f; Some (inr (Some x))
  end.

(** The field a name stands for; the name is what [ray_sym_str] gives. *)
Definition bytes_of (s : string) : list Z := map (λ a, Z.of_nat (Ascii.nat_of_ascii a)) (String.list_ascii_of_string s).
Definition names (l : list (string * field)) (name : list Z) : option field :=
  snd <$> find (λ p, bool_decide (name = bytes_of (fst p))) l.
Definition ray_temporal_field_from_sym : list Z → option field :=
  names [("yyyy", F_YEAR); ("mm", F_MONTH); ("dd", F_DAY); ("hh", F_HOUR); ("minute", F_MINUTE); ("ss", F_SECOND);
         ("dow", F_DOW); ("doy", F_DOY)]%string.
Definition ray_temporal_trunc_from_sym : list Z → option field :=
  names [("date", F_DAY); ("time", F_SECOND); ("month", F_MONTH); ("hour", F_HOUR); ("year", F_YEAR)]%string.

(** The vector under construction: a null sets its flag. *)
Definition set_null_at (i : Z) (out : column) : option column :=
  data ← ray_vec_set_null (col_type out) (cells out) i;
  Some (Column (col_type out) true data).
Definition set_cell (i v : Z) (out : column) : option column :=
  data ← zset (cells out) i v; Some (Column (col_type out) (has_nulls out) data).

(** One row of a kernel that maps the cells that are not null. *)
Definition map_cell (v : column) (fn : Z → option Z) (i : Z) (out : column) : option column :=
  if has_nulls v && ray_vec_is_null v i then out ← set_cell i NULL_I64 out; set_null_at i out
  else raw ← (cells v).[i]; x ← fn raw; set_cell i x out.

Definition floor_to (bucket us : Z) : option Z :=
  let r := Z.rem us bucket in in64 (us - r - (if r <? 0 then bucket else 0)).
Definition truncate_one (t : sort_type) (kind : field) (raw : Z) : option Z :=
  us ← rte_to_us t raw;
  us ← floor_to (match kind with F_DAY => RTE_USEC_PER_DAY | _ => RTE_USEC_PER_SEC end) us;
  rte_us_to_ts_raw us.
Definition ray_temporal_truncate_atom (t : sort_type) (v : option Z) (kind : field) :
    option (temporal_err + option Z) :=
  if negb (is_temporal t) then Some (inl T_TYPE) else
  match v with
  | None => Some (inr None)
  | Some raw => x ← truncate_one t kind raw; Some (inr (Some x))
  end.

Section vectors.
Context `{Heap}.

Definition new_result (t : sort_type) (len : Z) : option column :=
  data ← new_array 8 len; Some (Column t false data).

Definition ray_temporal_extract (v : column) (f : field) : option (temporal_err + column) :=
  if negb (is_temporal (col_type v)) then Some (inl T_TYPE) else
  let len := zlen (cells v) in
  match new_result I64 len with
  | None => Some (inl T_OOM)
  | Some out =>
      out ← foldM (map_cell v (λ raw, us ← rte_to_us (col_type v) raw; rte_extract_one us f)) (range 0 len) out;
      Some (inr out)
  end.

(** *** Truncation *)
Definition ray_temporal_truncate (v : column) (kind : field) : option (temporal_err + column) :=
  if negb (is_temporal (col_type v)) then Some (inl T_TYPE) else
  let len := zlen (cells v) in
  match new_result TIMESTAMP len with
  | None => Some (inl T_OOM)
  | Some out =>
      out ← foldM (map_cell v (truncate_one (col_type v) kind)) (range 0 len) out;
      Some (inr out)
  end.

(** ** The same in the graph executor, a morsel at a time *)
Definition RAY_MORSEL_ELEMS : Z := 1024.
(** [while (ray_morsel_next(&m))] with [off] at the start of the morsel *)
Fixpoint morsel_loop {S} (fuel : nat) (len offset : Z) (body : Z → S → option S) (s : S) : option S :=
  if len <=? offset then Some s else
  match fuel with
  | O => None
  | S fuel =>
      let remaining := len - offset in
      let n := if remaining <? RAY_MORSEL_ELEMS then remaining else RAY_MORSEL_ELEMS in
      s ← foldM body (range offset (offset + n)) s;
      morsel_loop fuel len (offset + n) body s
  end.

(** The cells are read as 32 bits for a date or a time and as 64 otherwise,
    whatever the type: out of bounds in a column of smaller cells. *)
Definition exec_to_us (t : sort_type) (raw : Z) : option Z :=
  match t with
  | DATE => in64 (raw * RTE_USEC_PER_DAY)
  | TIME => in64 (raw * 1000)
  | I64 | TIMESTAMP | F64 => ns_to_us (s64 raw)
  | _ => None
  end.

Definition exec_extract (v : column) (f : field) : option (temporal_err + column) :=
  let len := zlen (cells v) in
  match new_result I64 len with
  | None => Some (inl T_OOM)
  | Some out =>
      out ← morsel_loop (length (cells v)) len 0
        (map_cell v (λ raw, us ← exec_to_us (col_type v) raw; rte_extract_one us f)) out;
      Some (inr out)
  end.

Definition days_from_civil (y m d : Z) : Z :=
  let y := if m <=? 2 then y - 1 else y in
  let era := Z.quot (if 0 <=? y then y else y - 399) 400 in
  let yoe := u64 (y - era * 400) in
  let doy := u64 (u64 (153 * (if 2 <? m then u64 (m - 3) else u64 (m + 9)) + 2) / 5 + d - 1) in
  let doe := u64 (u64 (yoe * 365 + yoe / 4) - yoe / 100 + doy) in
  era * 146097 + doe - 719468 - 10957.

Definition date_trunc_us (f : field) (us : Z) : option Z :=
  let '(y, mo, _) := civil_from_days (day_of_us us) in
  match f with
  | F_SECOND => floor_to RTE_USEC_PER_SEC us
  | F_MINUTE => floor_to RTE_USEC_PER_MIN us
  | F_HOUR => floor_to RTE_USEC_PER_HOUR us
  | F_DAY => floor_to RTE_USEC_PER_DAY us
  | F_MONTH => in64 (days_from_civil y mo 1 * RTE_USEC_PER_DAY)
  | F_YEAR => in64 (days_from_civil y 1 1 * RTE_USEC_PER_DAY)
  | _ => Some us
  end.

Definition exec_date_trunc (v : column) (f : field) : option (temporal_err + column) :=
  let len := zlen (cells v) in
  match new_result TIMESTAMP len with
  | None => Some (inl T_OOM)
  | Some out =>
      out ← morsel_loop (length (cells v)) len 0
        (map_cell v (λ raw, us ← exec_to_us (col_type v) raw; us ← date_trunc_us f us; in64 (us * 1000))) out;
      Some (inr out)
  end.
End vectors.
