(* ===== verification/CalProofs.v ===== *)
(** * The calendar: a reference, and that both calendars of the code agree with it *)

From S2P Require Import Prelude Rowsel Sort Cal.
From S2P Require Import SortEnc SortPar.
Local Open Scope Z_scope.

(** Quotients and remainders by their equations *)
Ltac divs := Z.div_mod_to_equations; lia.
Ltac quots := Z.to_euclidean_division_equations; lia.

(** A boolean statement about the numbers of an interval, by evaluation. *)
Lemma by_range (P : Z → bool) lo hi : forallb P (range lo hi) = true → ∀ i, lo ≤ i < hi → P i = true.
Proof. intros H i Hi. rewrite forallb_forall in H. apply H, list_elem_of_In, elem_of_range. lia. Qed.

(** ** The Gregorian calendar, extended to all years *)
Definition leap (y : Z) : bool := ((y mod 4 =? 0) && negb (y mod 100 =? 0)) || (y mod 400 =? 0).
Definition month_len (l : bool) (m : Z) : Z :=
  if m =? 2 then if l then 29 else 28
  else if (m =? 4) || (m =? 6) || (m =? 9) || (m =? 11) then 30 else 31.
(** Days of the months before [m] *)
Definition month_start (l : bool) (m : Z) : Z := zsum (map (month_len l) (range 1 m)).
Definition year_len (y : Z) : Z := if leap y then 366 else 365.
(** Days of the years before [y] from year 1 *)
Definition year_start (y : Z) : Z := 365 * (y - 1) + (y - 1) / 4 - (y - 1) / 100 + (y - 1) / 400.

Definition valid_date (t : Z * Z * Z) : Prop :=
  let '(y, m, d) := t in 1 ≤ m ≤ 12 ∧ 1 ≤ d ≤ month_len (leap y) m.
(** The day of a date, from 2000-01-01 *)
Definition day_of (t : Z * Z * Z) : Z :=
  let '(y, m, d) := t in year_start y + month_start (leap y) m + (d - 1) - 730119.

Lemma leap_period y e : leap (y + 400 * e) = leap y.
Proof.
  unfold leap. replace ((y + 400 * e) mod 4) with (y mod 4) by divs.
  replace ((y + 400 * e) mod 100) with (y mod 100) by divs. by replace ((y + 400 * e) mod 400) with (y mod 400) by divs.
Qed.
Lemma year_start_period y e : year_start (y + 400 * e) = year_start y + 146097 * e.
Proof. unfold year_start. divs. Qed.
Lemma day_of_period y e m d : day_of (y + 400 * e, m, d) = day_of (y, m, d) + 146097 * e.
Proof. unfold day_of. rewrite year_start_period, leap_period. lia. Qed.

Lemma year_start_next y : year_start (y + 1) = year_start y + year_len y.
Proof.
  unfold year_start, year_len, leap. replace (y + 1 - 1) with y by lia.
  destruct (Z.eqb_spec (y mod 4) 0), (Z.eqb_spec (y mod 100) 0), (Z.eqb_spec (y mod 400) 0); cbn [andb negb orb]; divs.
Qed.
Lemma year_start_mono y y' : y < y' → year_start y + 365 ≤ year_start y'.
Proof. unfold year_start. intros. divs. Qed.
Lemma year_of_day y y' k : year_start y ≤ k < year_start (y + 1) → year_start y' ≤ k < year_start (y' + 1) → y = y'.
Proof.
  intros H H'. destruct (Z.lt_trichotomy y y') as [Hl|[Hl|Hl]]; [|done|].
  - pose proof (year_start_mono (y + 1) y'). destruct (decide (y + 1 = y')); [subst; lia|lia].
  - pose proof (year_start_mono (y' + 1) y). destruct (decide (y' + 1 = y)); [subst; lia|lia].
Qed.

(** The months follow each other and make up the year. *)
Lemma months_disjoint l m m' : 1 ≤ m ≤ 12 → 1 ≤ m' ≤ 12 → m < m' → month_start l m + month_len l m ≤ month_start l m'.
Proof.
  intros Hm Hm' Hlt.
  assert (Hall : forallb (λ m, forallb (λ m', negb (m <? m') || (month_start l m + month_len l m <=? month_start l m')) (range 1 13)) (range 1 13) = true)
    by (destruct l; by vm_compute).
  pose proof (by_range _ _ _ Hall m ltac:(lia)) as H. pose proof (by_range _ _ _ H m' ltac:(lia)) as H'. cbn beta in H'.
  rewrite (proj2 (Z.ltb_lt m m')) in H' by done. by apply Z.leb_le.
Qed.
Lemma months_in_year l m : 1 ≤ m ≤ 12 → 0 ≤ month_start l m ∧ month_start l m + month_len l m ≤ if l then 366 else 365.
Proof.
  intros Hm.
  assert (Hall : forallb (λ m, (0 <=? month_start l m) && (month_start l m + month_len l m <=? if l then 366 else 365)) (range 1 13) = true)
    by (destruct l; by vm_compute).
  pose proof (by_range _ _ _ Hall m ltac:(lia)) as H. cbn beta in H. destruct l; lia.
Qed.

Lemma day_in_year y m d : valid_date (y, m, d) →
  year_start y ≤ day_of (y, m, d) + 730119 < year_start (y + 1).
Proof.
  intros [Hm Hd]. pose proof (months_in_year (leap y) m Hm). rewrite year_start_next. unfold day_of, year_len in *.
  destruct (leap y); lia.
Qed.
Lemma day_of_inj t t' : valid_date t → valid_date t' → day_of t = day_of t' → t = t'.
Proof.
  destruct t as [[y m] d], t' as [[y' m'] d']. intros Hv Hv' He.
  pose proof (day_in_year y m d Hv). pose proof (day_in_year y' m' d' Hv').
  assert (y = y') as <- by (apply (year_of_day y y' (day_of (y, m, d) + 730119)); lia).
  destruct Hv as [Hm Hd], Hv' as [Hm' Hd']. unfold day_of in He.
  assert (m = m') as <-; [|f_equal; lia].
  pose proof (months_disjoint (leap y) m m' Hm Hm'). pose proof (months_disjoint (leap y) m' m Hm' Hm). lia.
Qed.

(** ** civil_from_days

    In an era of 400 years that starts on the first of March, [march_start y]
    days come before the year [y]. *)
Definition march_start (y : Z) : Z := 365 * y + y / 4 - y / 100 + y / 400.
Lemma march_year_start y : march_start y = year_start (y + 1).
Proof. unfold march_start, year_start. by replace (y + 1 - 1) with y by lia. Qed.

Definition scaled (doe : Z) : Z := doe - doe / 1460 + doe / 36524 - doe / 146096.
Lemma scaled_mono a b : 0 ≤ a ≤ b → scaled a ≤ scaled b.
Proof.
  intros Hab. unfold scaled.
  assert (H4 : ∀ x, x / 146096 = x / 36524 / 4) by (intros x; by rewrite Z.div_div by lia).
  rewrite !H4. assert (a - a / 1460 ≤ b - b / 1460) by divs.
  assert (a / 36524 ≤ b / 36524) by (apply Z.div_le_mono; lia).
  generalize dependent (a / 36524). generalize dependent (b / 36524). intros u w Hu. divs.
Qed.
Lemma scaled_years y : 0 ≤ y < 400 → 365 * y ≤ scaled (march_start y) ∧ scaled (march_start (y + 1) - 1) < 365 * (y + 1).
Proof.
  intros Hy.
  assert (Hall : forallb (λ y, (365 * y <=? scaled (march_start y)) && (scaled (march_start (y + 1) - 1) <? 365 * (y + 1))) (range 0 400) = true)
    by (by vm_compute).
  pose proof (by_range _ _ _ Hall y Hy) as H. cbn beta in H. lia.
Qed.
Lemma march_start_mono y y' : y ≤ y' → march_start y ≤ march_start y'.
Proof. unfold march_start. intros. divs. Qed.
Lemma march_year doe : 0 ≤ doe < 146097 → ∃ y, 0 ≤ y < 400 ∧ march_start y ≤ doe < march_start (y + 1).
Proof.
  intros Hd.
  assert (H : ∀ n : nat, doe < march_start (Z.of_nat n) → ∃ y, 0 ≤ y < Z.of_nat n ∧ march_start y ≤ doe < march_start (y + 1)).
  { induction n as [|n IH]; intros Hn; [change (march_start (Z.of_nat 0)) with 0 in Hn; lia|].
    destruct (decide (doe < march_start (Z.of_nat n))) as [Hlt|Hge].
    - destruct (IH Hlt) as (y & Hy & Hys). exists y. split; [lia|done].
    - exists (Z.of_nat n). split; [lia|]. replace (Z.of_nat n + 1) with (Z.of_nat (S n)) by lia. lia. }
  apply (H 400%nat). change (march_start (Z.of_nat 400)) with 146097. lia.
Qed.

(** Months of a year that starts in March; [l] is the year of its end. *)
Definition march_month_ok (l : bool) (doy : Z) : bool :=
  let mp := (5 * doy + 2) / 153 in
  let d := doy - (153 * mp + 2) / 5 + 1 in
  let mo := if mp <? 10 then mp + 3 else mp - 9 in
  (0 <=? mp) && (mp <? 12) && (0 <=? d) && (1 <=? d) && (d <=? month_len l mo) &&
  if mo <=? 2 then (month_start l mo + (d - 1) =? doy - 306)
  else (month_start l mo + (d - 1) =? doy + 59 + Z.b2z l).
Lemma march_months l doy : 0 ≤ doy < 365 + Z.b2z l ∨ 0 ≤ doy < 306 → march_month_ok l doy = true.
Proof.
  intros Hd. assert (Hall : forallb (march_month_ok l) (range 0 (365 + Z.b2z l)) = true) by (destruct l; by vm_compute).
  apply (by_range _ _ _ Hall). destruct l; cbn [Z.b2z] in *; lia.
Qed.
Lemma march_month_bounds doy : 0 ≤ doy < 366 →
  let mp := (5 * doy + 2) / 153 in 0 ≤ mp < 12 ∧ (mp < 10 ↔ doy < 306) ∧ 1 ≤ doy - (153 * mp + 2) / 5 + 1 ≤ 31.
Proof. intros Hd mp. unfold mp. divs. Qed.

(** The two parts of civil_from_days *)
Lemma civil_year z : 0 ≤ z < 146097 → ∃ y, 0 ≤ y < 400 ∧ march_start y ≤ z < march_start (y + 1) ∧
  u64 (u64 (u64 (z - z / 1460) + z / 36524) - z / 146096) / 365 = y ∧
  u64 (z - u64 (u64 (u64 (365 * y) + y / 4) - y / 100)) = z - march_start y.
Proof.
  intros Hz. destruct (march_year z Hz) as (y & Hy & Hys). exists y. split_and!; [lia|lia|lia|lia| |].
  - rewrite (wrap_id 64 (z - _)), (wrap_id 64 (_ + z / 36524)), (wrap_id 64 (_ - z / 146096)) by (unfold in_u; divs).
    change (z - z / 1460 + z / 36524 - z / 146096) with (scaled z). destruct (scaled_years y Hy) as [H1 H2].
    pose proof (march_start_mono 0 y ltac:(lia)) as H0. change (march_start 0) with 0 in H0.
    pose proof (scaled_mono (march_start y) z ltac:(lia)). pose proof (scaled_mono z (march_start (y + 1) - 1) ltac:(lia)).
    symmetry. apply (Z.div_unique _ _ _ (scaled z - 365 * y)); lia.
  - unfold march_start in *. rewrite (Z.div_small y 400) in * by lia.
    rewrite (wrap_id 64 (365 * y)), (wrap_id 64 (_ + y / 4)), (wrap_id 64 (_ - y / 100)) by (unfold in_u; divs).
    rewrite wrap_id; [lia|unfold in_u; divs].
Qed.

Lemma civil_from_days_ok k : let t := civil_from_days k in valid_date t ∧ day_of t = k.
Proof.
  unfold civil_from_days. cbv zeta. set (z := k + 10957 + 719468).
  assert (Hera : Z.quot (if 0 <=? z then z else z - 146096) 146097 = z / 146097) by (zbool; quots).
  rewrite Hera. set (e := z / 146097). assert (Hdoe : 0 ≤ z - e * 146097 < 146097) by (unfold e; divs).
  rewrite (wrap_id 64 (z - e * 146097)) by (unfold in_u; lia). destruct (civil_year _ Hdoe) as (y & Hy & Hys & Hyoe & Hdoy).
  rewrite Hyoe, Hdoy. rewrite !march_year_start in Hys. rewrite march_year_start. clear Hyoe Hdoy Hera.
  pose proof (year_start_next (y + 1)) as Hnext. remember (z - e * 146097 - year_start (y + 1)) as doy eqn:Hdoy.
  assert (Hlen : 0 ≤ doy < year_len (y + 1)) by lia.
  assert (H366 : 0 ≤ doy < 366) by (unfold year_len in Hlen; destruct (leap (y + 1)); lia).
  pose proof (march_month_bounds doy H366) as (Hmp & Hmp10 & Hday).
  rewrite (wrap_id 64 (5 * doy + 2)), (wrap_id 64 (153 * _ + 2)) by (unfold in_u; lia).
  set (mp := (5 * doy + 2) / 153) in *. rewrite (wrap_id 64 (doy - _ + 1)) by (unfold in_u; lia).
  set (l := leap (y + 400 * e + (if (if mp <? 10 then mp + 3 else mp - 9) <=? 2 then 1 else 0))).
  assert (Hok : march_month_ok l doy = true).
  { apply march_months. destruct (decide (doy < 306)); [right; lia|left].
    unfold l. rewrite (proj2 (Z.ltb_ge mp 10)) by lia. rewrite (proj2 (Z.leb_le (mp - 9) 2)) by lia.
    replace (y + 400 * e + 1) with (y + 1 + 400 * e) by lia. rewrite leap_period.
    unfold year_len in Hlen. destruct (leap (y + 1)); cbn [Z.b2z]; lia. }
  pose proof (year_start_period (y + 1) e) as Hper. replace (y + 1 + 400 * e) with (y + 400 * e + 1) in Hper by lia.
  pose proof (year_start_next (y + 400 * e)) as Hstart.
  replace (y + e * 400) with (y + 400 * e) by lia.
  unfold march_month_ok in Hok. fold mp in Hok. unfold valid_date, day_of. fold l.
  unfold l, year_len in *. clear l.
  destruct (Z.ltb_spec mp 10) as [Hm|Hm].
  - rewrite (proj2 (Z.leb_gt (mp + 3) 2)) in * by lia. rewrite Z.add_0_r in *.
    destruct (leap (y + 400 * e)); cbn [Z.b2z] in *; lia.
  - rewrite (proj2 (Z.leb_le (mp - 9) 2)) in * by lia. lia.
Qed.
Lemma civil_unique k t : valid_date t → day_of t = k → civil_from_days k = t.
Proof. intros Hv Hd. destruct (civil_from_days_ok k) as [Hv' Hd']. apply day_of_inj; [done..|congruence]. Qed.

(** ** date_to_ymd: the division of doubles finds the year, or the next one *)
Lemma round_half_even_ok n d : 0 < d → 2 * Z.abs (round_half_even n d * d - n) ≤ d.
Proof.
  intros Hd. unfold round_half_even. pose proof (Z.div_mod n d ltac:(lia)). pose proof (Z.mod_pos_bound n d Hd).
  destruct (Z.ltb_spec (2 * (n mod d)) d); [nia|]. destruct (Z.ltb_spec d (2 * (n mod d))); [nia|].
  destruct (Z.even (n / d)); nia.
Qed.
Lemma round_quot_ok n d b : 0 < n → 0 < d → Z.log2 n - Z.log2 d ≤ b →
  ∃ m k, round_quot n d = (m, k) ∧ 2 * Z.abs (m * d - n * 2 ^ k) ≤ d ∧ 52 - b ≤ k.
Proof.
  intros Hn Hd Hb. unfold round_quot. rewrite (proj2 (Z.eqb_neq n 0)) by lia. cbv zeta.
  eexists _, _. split; [done|]. split; [by apply round_half_even_ok|]. zbool; lia.
Qed.

Lemma year_start_bounds y : 0 ≤ y → 10000 * year_start (y + 1) ≤ 3652425 * y + 9900 ∧ 3652425 * y - 17475 ≤ 10000 * year_start (y + 1).
Proof. intros Hy. unfold year_start. replace (y + 1 - 1) with y by lia. divs. Qed.

Lemma log2_le_pow n b : 0 < n → n < 2 ^ (b + 1) → Z.log2 n ≤ b.
Proof. intros Hn Hlt. apply Z.log2_lt_pow2 in Hlt; lia. Qed.

Lemma ddiv_days_ok offset y : 0 < offset < 2 ^ 31 → 0 ≤ y → year_start (y + 1) ≤ offset < year_start (y + 2) →
  ∃ m k, ddiv_days offset = (m, k) ∧ 30 ≤ k ∧ (4 * y - 1) * 2 ^ k ≤ 4 * m ≤ (4 * y + 5) * 2 ^ k ∧ 0 ≤ m.
Proof.
  intros Ho Hy Hyear. unfold ddiv_days, DAYS_PER_YEAR.
  destruct (round_quot_ok (offset * 2 ^ 44) 6425414011327611 22) as (m & k & -> & Hm & Hk); [lia|lia| |].
  { change (Z.log2 6425414011327611) with 52. enough (Z.log2 (offset * 2 ^ 44) ≤ 74) by lia. apply log2_le_pow; lia. }
  exists m, k. split; [done|]. split; [lia|].
  assert (HK : 2 ^ 10 ≤ 2 ^ k) by (apply Z.pow_le_mono_r; lia). set (K := 2 ^ k) in *. clearbody K.
  pose proof (year_start_bounds y Hy) as [_ Hlo]. pose proof (year_start_bounds (y + 1) ltac:(lia)) as [Hhi _].
  replace (y + 1 + 1) with (y + 2) in Hhi by lia.
  assert (Hp : 2 * 6425414011327611 ≤ (4 * (offset * 2 ^ 44) - (4 * y - 1) * 6425414011327611) * K) by nia.
  assert (Hq : 2 * 6425414011327611 ≤ ((4 * y + 5) * 6425414011327611 - 4 * (offset * 2 ^ 44)) * K) by nia.
  split; [split; nia|]. nia.
Qed.

Lemma dadd_half_ok m k y : 10 ≤ k → 0 ≤ y < 2 ^ 23 → (4 * y - 1) * 2 ^ k ≤ 4 * m ≤ (4 * y + 5) * 2 ^ k → 0 ≤ m →
  y ≤ dtrunc (dadd_half (m, k)) ≤ y + 1.
Proof.
  intros Hk Hy Hm Hm0. unfold dadd_half. assert (HK : 2 ^ 10 ≤ 2 ^ k) by (apply Z.pow_le_mono_r; lia).
  pose proof (Z.pow_succ_r 2 k ltac:(lia)) as Hs. replace (Z.succ k) with (k + 1) in Hs by lia.
  destruct (round_quot_ok (2 * m + 2 ^ k) (2 ^ (k + 1)) 24) as (m' & k' & -> & Hm' & Hk'); [lia|lia| |].
  { rewrite Z.log2_pow2 by lia. enough (Z.log2 (2 * m + 2 ^ k) ≤ k + 25) by lia. apply log2_le_pow; [lia|].
    replace (k + 25 + 1) with (26 + k) by lia. rewrite Z.pow_add_r by lia. nia. }
  unfold dtrunc. assert (HK' : 2 ^ 10 ≤ 2 ^ k') by (apply Z.pow_le_mono_r; lia).
  rewrite Hs in Hm'. set (K := 2 ^ k) in *. set (K' := 2 ^ k') in *. clearbody K K'.
  assert (H1 : K * ((4 * y + 1) * K' - 2) ≤ K * (4 * m')) by nia.
  assert (H2 : K * (4 * m') ≤ K * ((4 * y + 7) * K' + 2)) by nia.
  assert ((4 * y + 1) * K' - 2 ≤ 4 * m') by nia. assert (4 * m' ≤ (4 * y + 7) * K' + 2) by nia.
  split; [apply Z.div_le_lower_bound; nia|]. apply Z.lt_succ_r, Z.div_lt_upper_bound; nia.
Qed.

Lemma approx_years_ok offset y : 0 ≤ offset < 2 ^ 31 → 0 ≤ y → year_start (y + 1) ≤ offset < year_start (y + 2) →
  y ≤ approx_years offset ≤ y + 1.
Proof.
  intros Ho Hy Hyear. unfold approx_years. rewrite (proj2 (Z.leb_le 0 offset)) by lia.
  destruct (decide (offset = 0)) as [->|Hne].
  - change (dtrunc (dadd_half (ddiv_days 0))) with 0. pose proof (year_start_bounds y Hy). lia.
  - destruct (ddiv_days_ok offset y) as (m & k & -> & Hk & Hm & Hm0); [lia|lia|lia|].
    apply dadd_half_ok; [lia| |lia|lia]. pose proof (year_start_bounds y Hy). lia.
Qed.

Lemma date_leap_year_ok y : date_leap_year y = leap y.
Proof.
  unfold date_leap_year, leap.
  assert (H : ∀ d, 0 < d → (Z.rem y d =? 0) = (y mod d =? 0)).
  { intros d Hd. destruct (Z.eqb_spec (Z.rem y d) 0) as [Hr|Hr], (Z.eqb_spec (y mod d) 0) as [Hm|Hm]; [done| | |done].
    - apply Z.rem_divide in Hr; [|lia]. by apply Z.mod_divide in Hr; [|lia].
    - apply Z.mod_divide in Hm; [|lia]. by apply Z.rem_divide in Hm; [|lia]. }
  by rewrite !H by lia.
Qed.
Lemma date_years_by_days_ok yy : 0 ≤ yy → year_start (yy + 1) < 2 ^ 31 → date_years_by_days yy = year_start (yy + 1).
Proof.
  intros Hy Hlt. unfold date_years_by_days, year_start in *. replace (yy + 1 - 1) with yy in * by lia.
  rewrite !Z.quot_div_nonneg by lia. rewrite swrap_id; [lia|lia|]. unfold in_s. divs.
Qed.

Definition ymd_month_ok (l : bool) (rem : Z) : bool :=
  match find_month 13 l rem 12 with
  | None => false
  | Some mid =>
      let mid := if (mid =? 12) || (mid <? 0) then 0 else mid in
      match monthdays l mid with
      | None => false
      | Some start =>
          let '(m, d) := (1 + Z.rem mid 12, 1 + rem - start) in
          (1 <=? m) && (m <=? 12) && (1 <=? d) && (d <=? month_len l m) && (month_start l m + (d - 1) =? rem)
      end
  end.
Lemma ymd_months l rem : 0 ≤ rem < 365 + Z.b2z l → ymd_month_ok l rem = true.
Proof. apply by_range. destruct l; by vm_compute. Qed.

Lemma in32_Some z : - 2 ^ 31 ≤ z < 2 ^ 31 → in32 z = Some z.
Proof. intros H. unfold in32. zbool; lia || done. Qed.
Lemma in64_Some z : - 2 ^ 63 ≤ z < 2 ^ 63 → in64 z = Some z.
Proof. intros H. unfold in64. zbool; lia || done. Qed.

(** The days [date_to_ymd] converts: from year 1 on, as long as the start of
    the next year is an [int32_t]. *)
Definition calendar_day (days : Z) : Prop := - 730119 ≤ days < 2 ^ 31 - 730119 - 366.

Lemma date_to_ymd_ok days : calendar_day days → ∃ t, date_to_ymd days = Some t ∧ valid_date t ∧ day_of t = days.
Proof.
  intros [Hlo Hhi]. unfold date_to_ymd, RAY_DATE_EPOCH. change (date_years_by_days (2000 - 1)) with 730119.
  rewrite in32_Some by lia. cbn [mbind option_bind]. cbv zeta. set (o := days + 730119). assert (Ho : 0 ≤ o < 2 ^ 31 - 366) by lia.
  assert (∃ y, 0 ≤ y ∧ year_start (y + 1) ≤ o < year_start (y + 2)) as (y & Hy & Hyear).
  { pose proof (civil_from_days_ok days) as [Hv Hd]. destruct (civil_from_days days) as [[y m] d].
    apply day_in_year in Hv. rewrite Hd in Hv. exists (y - 1). replace (y - 1 + 1) with y by lia. replace (y - 1 + 2) with (y + 1) by lia.
    split; [|done]. unfold year_start in Hv. divs. }
  pose proof (approx_years_ok o y ltac:(lia) Hy Hyear) as Happ.
  pose proof (year_start_next (y + 1)) as Hnext. replace (y + 1 + 1) with (y + 2) in Hnext by lia.
  assert (Hlen : 365 ≤ year_len (y + 1) ≤ 366) by (unfold year_len; destruct (leap (y + 1)); lia).
  assert (Hyears : (if o <? date_years_by_days (approx_years o) then approx_years o - 1 else approx_years o) = y).
  { assert (approx_years o = y ∨ approx_years o = y + 1) as [-> | ->] by lia.
    - rewrite date_years_by_days_ok by lia. zbool; lia.
    - rewrite date_years_by_days_ok by (try lia; replace (y + 1 + 1) with (y + 2) by lia; lia).
      replace (y + 1 + 1) with (y + 2) by lia. zbool; lia. }
  rewrite Hyears, date_years_by_days_ok, in32_Some by lia. cbn [mbind option_bind].
  rewrite date_leap_year_ok. set (rem := o - year_start (y + 1)).
  assert (Hrem : 0 ≤ rem < 365 + Z.b2z (leap (y + 1))) by (unfold rem, year_len in *; destruct (leap (y + 1)); cbn [Z.b2z]; lia).
  pose proof (ymd_months _ _ Hrem) as Hok. unfold ymd_month_ok in Hok.
  destruct (find_month 13 (leap (y + 1)) rem 12) as [mid|]; [|done]. cbn [mbind option_bind].
  destruct (monthdays (leap (y + 1)) (if (mid =? 12) || (mid <? 0) then 0 else mid)) as [start|]; [|done]. cbn [mbind option_bind].
  eexists. split; [done|]. unfold valid_date, day_of, rem in *. lia.
Qed.

(** ymd_to_date on the dates of the calendar from year 1 on *)
Lemma ymd_to_date_ok y m d : 1 ≤ y → year_start y < 2 ^ 31 - 366 → valid_date (y, m, d) → ymd_to_date y m d = Some (day_of (y, m, d)).
Proof.
  intros Hy Hlt [Hm Hd]. unfold ymd_to_date, RAY_DATE_EPOCH. change (date_years_by_days (2000 - 1)) with 730119.
  rewrite (proj2 (Z.ltb_lt 0 y)), (proj2 (Z.ltb_lt 0 m)), (proj2 (Z.ltb_ge 12 (m - 1))) by lia. cbv zeta.
  assert (date_years_by_days (y - 1) = year_start y) as ->.
  { rewrite date_years_by_days_ok; replace (y - 1 + 1) with y by lia; (done || lia). }
  rewrite date_leap_year_ok.
  assert (Hmd : monthdays (leap y) (m - 1) = Some (month_start (leap y) m)).
  { assert (Hall : forallb (λ m, bool_decide (monthdays (leap y) (m - 1) = Some (month_start (leap y) m))) (range 1 13) = true)
      by (destruct (leap y); by vm_compute).
    apply (bool_decide_eq_true_1 _). exact (by_range _ _ _ Hall m ltac:(lia)). }
  rewrite Hmd. pose proof (months_in_year (leap y) m Hm) as Hmy. pose proof (year_start_bounds (y - 1) ltac:(lia)) as Hb.
  replace (y - 1 + 1) with y in Hb by lia. assert (Hy0 : 0 ≤ year_start y) by (unfold year_start; divs).
  assert (month_len (leap y) m ≤ 31) by (unfold month_len; repeat case_match; lia).
  assert ((if leap y then 366 else 365) ≤ 366) by (destruct (leap y); lia).
  cbn [mbind option_bind]. rewrite !in32_Some by lia. cbn [mbind option_bind]. rewrite !in32_Some by lia. cbn [mbind option_bind].
  rewrite !in32_Some by lia. unfold day_of. cbn [mbind option_bind]. rewrite !in32_Some by lia. f_equal. lia.
Qed.

(** * Extracting fields and truncating: the meaning of the kernels *)
Ltac usecs := unfold RTE_USEC_PER_DAY, RTE_USEC_PER_HOUR, RTE_USEC_PER_MIN, RTE_USEC_PER_SEC in *.

Lemma day_of_us_ok us : day_of_us us = us / RTE_USEC_PER_DAY.
Proof. unfold day_of_us. usecs. change (86400 * 1000000) with 86400000000. zbool; quots. Qed.
Lemma us_of_day_ok us : us_of_day us = us mod RTE_USEC_PER_DAY.
Proof. unfold us_of_day. usecs. change (86400 * 1000000) with 86400000000. zbool; quots. Qed.
Lemma ns_to_us_ok ns : - 2 ^ 63 + 999 < ns < 2 ^ 63 → ns_to_us ns = Some (ns / 1000).
Proof.
  intros Hn. unfold ns_to_us. destruct (Z.leb_spec 0 ns).
  - by rewrite Z.quot_div_nonneg by lia.
  - rewrite in64_Some by lia. cbn [mbind option_bind]. rewrite in64_Some by lia. cbn [mbind option_bind]. f_equal. quots.
Qed.

(** ** Fields *)
(** What a field of the microsecond [us] of the date [t] is *)
Definition field_of (us : Z) (t : Z * Z * Z) (f : field) : Z :=
  let '(y, m, d) := t in
  match f with
  | F_YEAR => y
  | F_MONTH => m
  | F_DAY => d
  | F_HOUR => us / RTE_USEC_PER_HOUR mod 24
  | F_MINUTE => us / RTE_USEC_PER_MIN mod 60
  | F_SECOND => us / RTE_USEC_PER_SEC mod 60
  | F_DOW => (us / RTE_USEC_PER_DAY + 5) mod 7 + 1
  | F_DOY => us / RTE_USEC_PER_DAY - day_of (y, 1, 1) + 1
  | F_EPOCH => us
  | F_OTHER => 0
  end.

Lemma dbm_ok l m : 1 ≤ m ≤ 12 → dbm.[m] = Some (month_start l m - (if (2 <? m) && l then 1 else 0)).
Proof.
  intros Hm.
  assert (Hall : forallb (λ m, bool_decide (dbm.[m] = Some (month_start l m - (if (2 <? m) && l then 1 else 0)))) (range 1 13) = true)
    by (destruct l; by vm_compute).
  apply (bool_decide_eq_true_1 _). exact (by_range _ _ _ Hall m ltac:(lia)).
Qed.
Lemma leap_again y : (Z.rem y 4 =? 0) && (negb (Z.rem y 100 =? 0) || (Z.rem y 400 =? 0)) = leap y.
Proof.
  rewrite <- date_leap_year_ok. unfold date_leap_year.
  destruct (Z.eqb_spec (Z.rem y 4) 0), (Z.eqb_spec (Z.rem y 100) 0), (Z.eqb_spec (Z.rem y 400) 0); cbn [andb orb negb]; try done.
  all: quots.
Qed.

Lemma rte_extract_one_ok us f t : valid_date t → day_of t = us / RTE_USEC_PER_DAY →
  rte_extract_one us f = Some (field_of us t f).
Proof.
  intros Hv Hd. unfold rte_extract_one. rewrite day_of_us_ok, us_of_day_ok.
  rewrite (civil_unique _ t Hv Hd).
  destruct t as [[y m] d]. destruct f; cbn [field_of]; try done; try (f_equal; usecs; quots).
  destruct Hv as [Hm Hdm]. rewrite (proj2 (Z.ltb_ge m 1)), (proj2 (Z.ltb_ge 12 m)) by lia. cbn [orb].
  rewrite (dbm_ok (leap y)) by done. cbn [mbind option_bind]. rewrite leap_again. rewrite <- Hd. unfold day_of.
  change (month_start (leap y) 1) with 0. f_equal. destruct ((2 <? m) && leap y); lia.
Qed.

(** ** Truncation *)
Definition floor_unit (bucket us : Z) : Z := us - us mod bucket.
(** C division corrected to round down *)
Lemma floor_split b z : 0 < b →
  (if Z.rem z b <? 0 then (Z.quot z b - 1, Z.rem z b + b) else (Z.quot z b, Z.rem z b)) = (z / b, z mod b).
Proof.
  intros Hb. pose proof (Z.quot_rem z b ltac:(lia)) as Hq. pose proof (Z.rem_bound_abs z b ltac:(lia)) as Hr.
  destruct (Z.ltb_spec (Z.rem z b) 0); f_equal.
  - apply (Z.div_unique _ _ _ (Z.rem z b + b)); lia.
  - apply (Z.mod_unique _ _ (Z.quot z b - 1)); lia.
  - apply (Z.div_unique _ _ _ (Z.rem z b)); lia.
  - apply (Z.mod_unique _ _ (Z.quot z b)); lia.
Qed.
Lemma floor_to_ok bucket us : 0 < bucket → floor_to bucket us = in64 (floor_unit bucket us).
Proof.
  intros Hb. unfold floor_to, floor_unit. cbv zeta. f_equal. pose proof (floor_split bucket us Hb) as Hf.
  destruct (Z.ltb_spec (Z.rem us bucket) 0); injection Hf as _ <-; lia.
Qed.

Definition civil_month_ok (l : bool) (m : Z) : bool :=
  (153 * (if 2 <? m then m - 3 else m + 9) + 2) / 5 =? month_start l m + (if 2 <? m then - 59 - Z.b2z l else 306).
Lemma civil_months l m : 1 ≤ m ≤ 12 → civil_month_ok l m = true.
Proof. intros Hm. apply (by_range _ 1 13); [destruct l; by vm_compute|lia]. Qed.

Lemma days_from_civil_ok y m d : 1 ≤ m ≤ 12 → 1 ≤ d ≤ 31 → days_from_civil y m d = day_of (y, m, d).
Proof.
  intros Hm Hd. unfold days_from_civil. cbv zeta. set (Y := if m <=? 2 then y - 1 else y).
  assert (Hera : Z.quot (if 0 <=? Y then Y else Y - 399) 400 = Y / 400) by (zbool; quots). rewrite Hera.
  set (e := Y / 400). assert (Hyoe : 0 ≤ Y - e * 400 < 400) by (unfold e; divs).
  rewrite (wrap_id 64 (Y - e * 400)) by (unfold in_u; lia). set (yoe := Y - e * 400) in *.
  assert (Hmm : (if 2 <? m then u64 (m - 3) else u64 (m + 9)) = if 2 <? m then m - 3 else m + 9)
    by (zbool; apply wrap_id; unfold in_u; lia).
  rewrite Hmm. pose proof (civil_months (leap y) m Hm) as Hok. unfold civil_month_ok in Hok. apply Z.eqb_eq in Hok.
  assert (0 ≤ (if 2 <? m then m - 3 else m + 9) ≤ 11) by (zbool; lia).
  rewrite (wrap_id 64 (153 * _ + 2)) by (unfold in_u; lia). set (md := (153 * _ + 2) / 5) in *.
  assert (0 ≤ md ≤ 365) by (unfold md; divs).
  rewrite (wrap_id 64 (md + d - 1)), (wrap_id 64 (yoe * 365 + yoe / 4)) by (unfold in_u; divs).
  rewrite (wrap_id 64 (_ - yoe / 100 + _)) by (unfold in_u; divs).
  pose proof (year_start_period (yoe + 1) e) as Hp. replace (yoe + 1 + 400 * e) with (Y + 1) in Hp by lia.
  assert (Hys : year_start (yoe + 1) = 365 * yoe + yoe / 4 - yoe / 100)
    by (unfold year_start; replace (yoe + 1 - 1) with yoe by lia; rewrite (Z.div_small yoe 400) by lia; lia).
  pose proof (year_start_next y) as Hn. unfold year_len in Hn. unfold day_of. unfold Y in Hp.
  destruct (Z.leb_spec m 2) as [H2|H2].
  - rewrite (proj2 (Z.ltb_ge 2 m)) in Hok by lia. replace (y - 1 + 1) with y in Hp by lia. lia.
  - rewrite (proj2 (Z.ltb_lt 2 m)) in Hok by lia. destruct (leap y); cbn [Z.b2z] in Hok; lia.
Qed.

(** The start of the unit of time around [us], in the date [t] *)
Definition unit_start (f : field) (us : Z) (t : Z * Z * Z) : Z :=
  let '(y, m, _) := t in
  match f with
  | F_SECOND => floor_unit RTE_USEC_PER_SEC us
  | F_MINUTE => floor_unit RTE_USEC_PER_MIN us
  | F_HOUR => floor_unit RTE_USEC_PER_HOUR us
  | F_DAY => floor_unit RTE_USEC_PER_DAY us
  | F_MONTH => day_of (y, m, 1) * RTE_USEC_PER_DAY
  | F_YEAR => day_of (y, 1, 1) * RTE_USEC_PER_DAY
  | _ => us
  end.
Lemma date_trunc_us_ok f us t : valid_date t → day_of t = us / RTE_USEC_PER_DAY → in_s 64 us →
  date_trunc_us f us = in64 (unit_start f us t).
Proof.
  intros Hv Hd Hus. unfold date_trunc_us. rewrite day_of_us_ok.
  rewrite (civil_unique _ t Hv Hd).
  destruct t as [[y m] d]. destruct Hv as [Hm _]. destruct f; cbn [unit_start]; try (apply floor_to_ok; usecs; lia);
    try (symmetry; apply in64_Some; unfold in_s in Hus; lia).
  all: by rewrite days_from_civil_ok by lia.
Qed.

(** ** Columns *)
Definition map_one (v : column) (fn : Z → option Z) (x : Z) : option Z :=
  if cell_is_null v x then Some NULL_I64 else fn x.
(** The column whose cells are those of [v] through [fn], the nulls as they are *)
Definition mapped (v : column) (fn : Z → option Z) (t : sort_type) : option column :=
  l ← mapM (map_one v fn) (cells v);
  Some (Column t (existsb (cell_is_null v) (cells v)) l).

Section arrays.
Context {A : Type}.
Lemma zget_mid3 (pre : list A) x k : (pre ++ x :: k).[zlen pre] = Some x.
Proof. rewrite zget_app_r by lia. by rewrite Z.sub_diag. Qed.
Lemma zset_middle (pre : list A) x y k : zset (pre ++ x :: k) (zlen pre) y = Some (pre ++ y :: k).
Proof.
  rewrite zset_Some by (autorewrite with zlen; pose proof (zlen_nonneg pre); pose proof (zlen_nonneg k); lia).
  f_equal. rewrite to_nat_zlen, insert_app_r_alt, Nat.sub_diag by lia. done.
Qed.
End arrays.

Lemma map_cell_ok v fn t (pre done_ junk rest : list Z) x j b :
  null_of t = Some NULL_I64 → cells v = done_ ++ x :: rest → zlen done_ = zlen pre →
  map_cell v fn (zlen pre) (Column t b (pre ++ j :: junk)) =
  y ← map_one v fn x; Some (Column t (b || cell_is_null v x) (pre ++ y :: junk)).
Proof.
  intros Ht Hv Hl. unfold map_cell, map_one.
  assert (Hx : (cells v).[zlen pre] = Some x) by (rewrite Hv, <- Hl; apply zget_mid3).
  assert (Hn : has_nulls v && ray_vec_is_null v (zlen pre) = cell_is_null v x).
  { rewrite is_null_cell. unfold cell_at. rewrite Hx. cbn. unfold cell_is_null. by destruct (has_nulls v). }
  rewrite Hn. destruct (cell_is_null v x).
  - unfold set_cell, set_null_at. cbn [cells col_type has_nulls]. rewrite zset_middle. cbn [mbind option_bind cells col_type].
    unfold ray_vec_set_null. rewrite Ht. pose proof (zlen_nonneg pre) as Hp. pose proof (zlen_nonneg junk) as Hj.
    rewrite (proj2 (Z.ltb_ge (zlen pre) 0)) by lia. rewrite (proj2 (Z.leb_gt _ (zlen pre))) by (autorewrite with zlen; lia).
    cbn [orb]. rewrite zset_middle. cbn [mbind option_bind]. by rewrite orb_true_r.
  - rewrite Hx. cbn [mbind option_bind]. destruct (fn x) as [y|]; [|done]. cbn [mbind option_bind].
    unfold set_cell. cbn [cells col_type has_nulls]. rewrite zset_middle. cbn [mbind option_bind]. by rewrite orb_false_r.
Qed.

Lemma map_cells v fn t rest : null_of t = Some NULL_I64 → ∀ (pre done_ junk : list Z) b,
  cells v = done_ ++ rest → zlen done_ = zlen pre → zlen junk = zlen rest →
  foldM (map_cell v fn) (range (zlen pre) (zlen (cells v))) (Column t b (pre ++ junk)) =
  l ← mapM (map_one v fn) rest; Some (Column t (b || existsb (cell_is_null v) rest) (pre ++ l)).
Proof.
  intros Ht. induction rest as [|x rest IH]; intros pre done_ junk b Hv Hl Hj.
  - rewrite Hv, app_nil_r, Hl, range_empty by lia. rewrite (zlen_zero_nil junk) by exact Hj. cbn [foldM mapM existsb mbind option_bind].
    by rewrite orb_false_r.
  - destruct junk as [|j junk]; [rewrite zlen_cons, zlen_nil in Hj; pose proof (zlen_nonneg rest); lia|]. rewrite !zlen_cons in Hj.
    rewrite range_cons by (rewrite Hv, zlen_app, zlen_cons; pose proof (zlen_nonneg rest); lia).
    cbn [foldM mapM existsb]. rewrite (map_cell_ok v fn t pre done_ junk rest x j b Ht Hv Hl).
    destruct (map_one v fn x) as [y|]; [|done]. cbn [mbind option_bind].
    pose proof (IH (pre ++ [y]) (done_ ++ [x]) junk (b || cell_is_null v x)) as IH'.
    rewrite <- !app_assoc, !zlen_app in IH'. change (zlen [y]) with 1 in IH'. change (zlen [x]) with 1 in IH'.
    cbn [app] in IH'. rewrite IH' by (done || lia).
    destruct (mapM (map_one v fn) rest) as [l|]; [|done]. cbn [mbind option_bind]. by rewrite <- app_assoc, orb_assoc.
Qed.

Lemma map_column v fn t junk : null_of t = Some NULL_I64 → zlen junk = zlen (cells v) →
  foldM (map_cell v fn) (range 0 (zlen (cells v))) (Column t false junk) = mapped v fn t.
Proof. intros Ht Hj. by apply (map_cells v fn t (cells v) Ht [] [] junk false). Qed.

Lemma morsel_loop_ok {S} fuel len offset (body : Z → S → option S) s :
  0 ≤ offset → len ≤ offset + Z.of_nat fuel →
  morsel_loop fuel len offset body s = foldM body (range offset len) s.
Proof.
  revert offset s. induction fuel as [|fuel IH]; intros offset s Ho Hf.
  - cbn [morsel_loop]. rewrite (proj2 (Z.leb_le len offset)) by lia. by rewrite range_empty by lia.
  - cbn [morsel_loop]. destruct (Z.leb_spec len offset); [by rewrite range_empty by lia|].
    unfold RAY_MORSEL_ELEMS. set (n := if len - offset <? 1024 then len - offset else 1024).
    assert (Hn : 1 ≤ n ≤ len - offset) by (unfold n; zbool; lia).
    rewrite <- (range_app offset (offset + n) len), foldM_app by lia. destruct (foldM body (range offset (offset + n)) s); [|done].
    cbn [mbind option_bind]. apply IH; lia.
Qed.

Lemma mapM_ext {A B} (f g : A → option B) l : (∀ x, x ∈ l → f x = g x) → mapM f l = mapM g l.
Proof.
  induction l as [|x l IH]; intros H; [done|]. cbn [mapM]. rewrite H by (left; done).
  destruct (g x); [|done]. cbn [mbind option_bind]. by rewrite IH by (intros y Hy; apply H; by right).
Qed.
Lemma mapped_ext v f g t : (∀ x, x ∈ cells v → cell_is_null v x = false → f x = g x) → mapped v f t = mapped v g t.
Proof.
  intros H. unfold mapped. by rewrite (mapM_ext _ (map_one v g)) by
    (intros x Hx; unfold map_one; destruct (cell_is_null v x) eqn:E; [done|by apply H]).
Qed.

Section results.
Context `{Heap}.
(** An answer of [t] cells for [v]: no memory, or the mapped column *)
Definition answer (v : column) (t : sort_type) (r : option column) : option (temporal_err + column) :=
  if alloc_ok (8 * zlen (cells v)) then out ← r; Some (inr out) else Some (inl T_OOM).

Lemma ray_temporal_extract_ok v f : is_temporal (col_type v) = true →
  ray_temporal_extract v f = answer v I64 (mapped v (λ raw, us ← rte_to_us (col_type v) raw; rte_extract_one us f) I64).
Proof.
  intros Ht. unfold ray_temporal_extract, answer, new_result, new_array. rewrite Ht. cbn [negb]. cbv zeta.
  destruct (alloc_ok _); [|done]. cbn [mbind option_bind]. rewrite map_column; [done|done|].
  rewrite zlen_fresh. pose proof (zlen_nonneg (cells v)). lia.
Qed.
Lemma exec_column v t fn : null_of t = Some NULL_I64 →
  match new_result t (zlen (cells v)) with
  | None => Some (inl T_OOM)
  | Some out => out ← morsel_loop (length (cells v)) (zlen (cells v)) 0 (map_cell v fn) out; Some (inr out)
  end = answer v t (mapped v fn t).
Proof.
  intros Ht. unfold answer, new_result, new_array. destruct (alloc_ok _); [|done]. cbn [mbind option_bind].
  rewrite morsel_loop_ok by (unfold zlen; lia). rewrite map_column; [done|done|].
  rewrite zlen_fresh. pose proof (zlen_nonneg (cells v)). lia.
Qed.
Lemma exec_extract_ok v f :
  exec_extract v f = answer v I64 (mapped v (λ raw, us ← exec_to_us (col_type v) raw; rte_extract_one us f) I64).
Proof. exact (exec_column v I64 _ eq_refl). Qed.
Lemma exec_date_trunc_ok v f :
  exec_date_trunc v f =
    answer v TIMESTAMP (mapped v (λ raw, us ← exec_to_us (col_type v) raw; us ← date_trunc_us f us; in64 (us * 1000)) TIMESTAMP).
Proof. exact (exec_column v TIMESTAMP _ eq_refl). Qed.
Lemma ray_temporal_truncate_ok v kind : is_temporal (col_type v) = true →
  ray_temporal_truncate v kind = answer v TIMESTAMP (mapped v (truncate_one (col_type v) kind) TIMESTAMP).
Proof.
  intros Ht. unfold ray_temporal_truncate, answer, new_result, new_array. rewrite Ht. cbn [negb]. cbv zeta.
  destruct (alloc_ok _); [|done]. cbn [mbind option_bind]. rewrite map_column; [done|done|].
  rewrite zlen_fresh. pose proof (zlen_nonneg (cells v)). lia.
Qed.

Lemma exec_to_us_ok t raw : is_temporal t = true → cell_ok t raw → exec_to_us t raw = rte_to_us t raw.
Proof. destruct t; try done. intros _ Hr. cbn. by rewrite swrap_id by done. Qed.
End results.

(** ** Cell by cell *)
Lemma in64_inv z x : in64 z = Some x → x = z ∧ in_s 64 z.
Proof. unfold in64, in_s. intros H. change (64 - 1) with 63. destruct ((- 2 ^ 63 <=? z) && (z <? 2 ^ 63)) eqn:E; [injection H as <-; lia|done]. Qed.
Lemma in64_out z : in64 z = None ↔ ¬ in_s 64 z.
Proof.
  unfold in64, in_s. change (64 - 1) with 63. destruct ((- 2 ^ 63 <=? z) && (z <? 2 ^ 63)) eqn:E; split; try done; lia.
Qed.
Lemma exec_us_range t raw us : exec_to_us t raw = Some us → in_s 64 us.
Proof.
  assert (Hns : ∀ ns, in_s 64 ns → ns_to_us ns = Some us → in_s 64 us).
  { intros ns Hns. unfold ns_to_us. unfold in_s in *. change (64 - 1) with 63 in *. destruct (Z.leb_spec 0 ns).
    - intros [= <-]. quots.
    - destruct (in64 (- ns)) as [n|] eqn:En; [|done]. cbn [mbind option_bind]. apply in64_inv in En as [-> _].
      destruct (in64 (- ns + 999)) as [n|] eqn:En; [|done]. cbn [mbind option_bind]. apply in64_inv in En as [-> Hn].
      unfold in_s in Hn. change (64 - 1) with 63 in Hn. intros [= <-]. quots. }
  assert (Hs : ∀ z, in_s 64 (s64 z)) by (intros z; unfold in_s, swrap; pose proof (Z.mod_pos_bound (z + 2 ^ (64 - 1)) (2 ^ 64)); lia).
  destruct t; cbn [exec_to_us]; try done; try (by apply Hns); by intros [-> ?]%in64_inv.
Qed.

(** What the columns [out] and [v] have to do with each other: a null is a null
    and the other cells are as [P] says. *)
Definition cellwise (v out : column) (P : Z → Z → Prop) : Prop :=
  zlen (cells out) = zlen (cells v) ∧ has_nulls out = existsb (cell_is_null v) (cells v) ∧
  ∀ i x, (cells v).[i] = Some x → ∃ y, (cells out).[i] = Some y ∧ if cell_is_null v x then y = NULL_I64 else P x y.

Lemma mapped_cellwise v fn t :
  match mapped v fn t with
  | Some out => col_type out = t ∧ cellwise v out (λ x y, fn x = Some y)
  | None => ∃ x, x ∈ cells v ∧ cell_is_null v x = false ∧ fn x = None
  end.
Proof.
  unfold mapped. destruct (mapM (map_one v fn) (cells v)) as [l|] eqn:E; cbn [mbind option_bind].
  - apply mapM_Some in E. split; [done|]. split; [unfold zlen; cbn [cells]; by rewrite (Forall2_length _ _ _ E)|]. split; [done|].
    intros i x Hi. pose proof (zget_Some _ _ _ Hi) as Hb. rewrite zget_nat in Hi by lia.
    destruct (Forall2_lookup_l _ _ _ _ _ E Hi) as (y & Hy & Hxy). exists y. cbn [cells]. rewrite zget_nat by lia. split; [done|].
    unfold map_one in Hxy. destruct (cell_is_null v x); [by injection Hxy|done].
  - apply mapM_None, Exists_exists in E as (x & Hx & Hn). exists x. split; [done|]. unfold map_one in Hn. by destruct (cell_is_null v x).
Qed.

(** The date of a microsecond *)
Lemma date_at us : ∃ t, valid_date t ∧ day_of t = us / RTE_USEC_PER_DAY.
Proof. destruct (civil_from_days_ok (us / RTE_USEC_PER_DAY)) as [Hv Hd]. by eexists. Qed.
