(* ===== verification/CalText.v ===== *)
(** * Number and time literals ([src/src/lang/parse.c], [src/src/lang/format.c])

    Printing dates, times, timestamps, integers and nulls, and the parser of
    literals that begin with a digit or a sign. A text is a list of bytes, as
    an array with a zero after its last byte. *)

From S2P Require Import Prelude NumParse Rowsel Sort Cal.
Local Open Scope Z_scope.

(** ** Printing *)

(** The decimal digits of a number below [10 ^ fuel] *)
Fixpoint decimal (fuel : nat) (n : Z) : list Z :=
  match fuel with
  | O => []
  | S fuel => if n <? 10 then [48 + n] else decimal fuel (n / 10) ++ [48 + n mod 10]
  end.
(** [%d], and [%0wd]: zeros between the sign and the digits, up to [w] bytes *)
Definition printf_d (w z : Z) : list Z :=
  let ds := decimal 20 (Z.abs z) in
  let sign := if z <? 0 then [45] else [] in
  sign ++ replicate (Z.to_nat (w - zlen sign - zlen ds)) 48 ++ ds.

Definition hex_char (d : Z) : Z := if d <? 10 then 48 + d else 97 + (d - 10).
Definition fmt_u8 (v : Z) : list Z := [48; 120; hex_char (v / 16); hex_char (v mod 16)].
Definition fmt_i64 (v : Z) : list Z := printf_d 0 v.

Definition null_literal (t : sort_type) : list Z :=
  [48; 78; match t with
           | BOOL => 98 | U8 => 117 | I16 => 104 | I32 => 105 | I64 => 108 | F64 => 102 | F32 => 101
           | DATE => 100 | TIME => 116 | TIMESTAMP => 112
           end].

Definition time_to_hms (ms : Z) : option (Z * Z * Z * Z) :=
  let mask := - Z.shiftr (u32 ms) 31 in
  val ← in32 (Z.lxor mask ms - mask);
  let secs := Z.quot val 1000 in
  let rem := Z.rem secs 3600 in
  Some (Z.quot secs 3600, Z.quot rem 60, Z.rem rem 60, Z.rem val 1000).

Definition NSECS_IN_DAY : Z := 24 * 60 * 60 * 1000000000.
Definition ts_to_parts (ns : Z) : option (Z * Z * Z * (Z * Z * Z * Z)) :=
  let days := Z.quot ns NSECS_IN_DAY in
  let span := Z.rem ns NSECS_IN_DAY in
  let '(days, span) := if span <? 0 then (days - 1, span + NSECS_IN_DAY) else (days, span) in
  ymd ← date_to_ymd (s32 days);
  let secs := Z.quot span 1000000000 in
  let rem := Z.rem secs 3600 in
  Some (ymd, (Z.quot secs 3600, Z.quot rem 60, Z.rem rem 60, Z.rem span 1000000000)).

Definition print_ymd (ymd : Z * Z * Z) : list Z :=
  let '(y, m, d) := ymd in printf_d 4 y ++ 46 :: printf_d 2 m ++ 46 :: printf_d 2 d.
Definition print_hms (h m s : Z) : list Z := printf_d 2 h ++ 58 :: printf_d 2 m ++ 58 :: printf_d 2 s.

Definition fmt_date (val : Z) : option (list Z) := ymd ← date_to_ymd val; Some (print_ymd ymd).
Definition fmt_time (val : Z) : option (list Z) :=
  '(h, m, s, ms) ← time_to_hms val;
  Some ((if val <? 0 then [45] else []) ++ print_hms h m s ++ 46 :: printf_d 3 ms).
Definition fmt_timestamp (val : Z) : option (list Z) :=
  '(ymd, (h, mi, s, ns)) ← ts_to_parts val;
  Some (print_ymd ymd ++ 68 :: print_hms h mi s ++ 46 :: printf_d 9 ns).

(** ** Parsing *)
Inductive literal :=
| LitU8 (v : Z) | LitI16 (v : Z) | LitI32 (v : Z) | LitI64 (v : Z)
| LitDate (days : Z) | LitTime (ms : Z) | LitTimestamp (ns : Z)
| LitNull (t : sort_type)
| LitFloat (text : list Z). (** what [ray_parse_f64] makes of the text, or an error if nothing *)
(** A literal and the position after it. *)
Inductive parsed := Parsed (l : literal) (pos : Z) | ParseError.

Section parser.
Variable src : list Z.

Definition at_ (i : Z) : option Z := (src ++ [0]).[i].
Definition is_digit (c : Z) : bool := (48 <=? c) && (c <=? 57).
Definition digit_at (i : Z) : option bool := c ← at_ i; Some (is_digit c).
(** [&&] of C *)
Definition and_then (a b : option bool) : option bool := x ← a; if (x : bool) then b else Some false.
Definition two_digits (i : Z) : option bool := and_then (digit_at i) (digit_at (i + 1)).
Definition two (i : Z) : option Z := a ← at_ i; b ← at_ (i + 1); Some ((a - 48) * 10 + (b - 48)).
Definition char_at (i c : Z) : option bool := x ← at_ i; Some (x =? c).
(** [if (!b) return error;] *)
Definition require {A} (b : option bool) (err : A) (k : option A) : option A :=
  x ← b; if (x : bool) then k else Some err.

Fixpoint skip_digits (fuel : nat) (i : Z) : option Z :=
  d ← digit_at i;
  if (d : bool) then match fuel with O => None | S fuel => skip_digits fuel (i + 1) end else Some i.

(** [if digit { ms = ms * 10 + digit; c++; }] *)
Definition more_ms (st : Z * Z) : option (Z * Z) :=
  let '(ms, c) := st in
  x ← at_ c; Some (if is_digit x then (ms * 10 + (x - 48), c + 1) else (ms, c)).

Definition time_fraction (c : Z) : option (option (Z * Z)) :=
  x ← at_ c;
  if x =? 46 then
    let c := c + 1 in
    require (digit_at c) None
      (x ← at_ c; st ← more_ms (x - 48, c + 1); st ← more_ms st; Some (Some st))
  else Some (Some (0, c)).

(** The milliseconds and the end; the inner [None] is [NULL]. *)
Definition try_parse_time (start : Z) : option (option (Z * Z)) :=
  x ← at_ start;
  let '(sign, c) := if x =? 45 then (-1, start + 1) else (1, start) in
  require (two_digits c) None (
  hh ← two c; let c := c + 2 in
  require (char_at c 58) None (let c := c + 1 in
  require (two_digits c) None (
  mm ← two c; let c := c + 2 in
  require (char_at c 58) None (let c := c + 1 in
  require (two_digits c) None (
  ss ← two c; let c := c + 2 in
  f ← time_fraction c;
  match f with
  | None => Some None
  | Some (ms, c) => Some (Some (sign * ((hh * 3600 + mm * 60 + ss) * 1000 + ms), c))
  end))))).

(** The first [n] digits of the fraction, and zeros up to nine *)
Definition fraction_nanos (fstart flen : Z) : option Z :=
  nanos ← foldM (λ i nanos, x ← at_ (fstart + i); Some (u64 (u64 (nanos * 10) + (x - 48)))) (range 0 (Z.min flen 9)) 0;
  Some (foldl (λ n _, u64 (n * 10)) nanos (range flen 9)).

Definition PARSE_NSECS_IN_DAY : Z := 24 * 60 * 60 * 1000000000.

(** After the [D] of a timestamp *)
Definition parse_timestamp (days pos : Z) : option parsed :=
  require (two_digits pos) ParseError (
  hh ← two pos; let pos := pos + 2 in
  require (char_at pos 58) ParseError (let pos := pos + 1 in
  require (two_digits pos) ParseError (
  mi ← two pos; let pos := pos + 2 in
  require (char_at pos 58) ParseError (let pos := pos + 1 in
  require (two_digits pos) ParseError (
  ss ← two pos; let pos := pos + 2 in
  require (char_at pos 46) ParseError (let pos := pos + 1 in
  if (23 <? hh) || (59 <? mi) || (59 <? ss) then Some ParseError else
  fend ← skip_digits (length src) pos;
  nanos ← fraction_nanos pos (fend - pos);
  if (Z.quot INT64_MAX PARSE_NSECS_IN_DAY <? days) || (days <? Z.quot INT64_MIN PARSE_NSECS_IN_DAY) then Some ParseError else
  day_ns ← in64 (days * PARSE_NSECS_IN_DAY);
  time_ns ← in64 ((hh * 3600 + mi * 60 + ss) * 1000000000 + nanos);
  ns ← in64 (day_ns + time_ns);
  Some (Parsed (LitTimestamp ns) fend))))))).

(** From the label [plain_number] *)
Definition plain_number (start pos : Z) : option parsed :=
  dot ← and_then (char_at pos 46) (digit_at (pos + 1));
  pos ← (if (dot : bool) then skip_digits (length src) (pos + 1) else Some pos);
  x ← at_ pos;
  let exp := (x =? 101) || (x =? 69) in
  pos ← (if exp then
           let pos := pos + 1 in
           y ← at_ pos;
           skip_digits (length src) (if (y =? 43) || (y =? 45) then pos + 1 else pos)
         else Some pos);
  let text := take (Z.to_nat (pos - start)) (drop (Z.to_nat start) src) in
  if dot || exp then Some (Parsed (LitFloat text) pos) else
  '(n, v) ← ray_parse_i64 text;
  match v with
  | None => Some (Parsed (LitFloat text) pos)
  | Some v =>
      x ← at_ pos;
      if x =? 104 then
        Some (if (v <? -32767) || (32767 <? v) then ParseError else Parsed (LitI16 v) (pos + 1))
      else if x =? 105 then
        Some (if (v <? -2147483647) || (2147483647 <? v) then ParseError else Parsed (LitI32 v) (pos + 1))
      else Some (Parsed (LitI64 v) pos)
  end.

(** [YYYY.MM.DD], at its first dot *)
Definition parse_date (start dstart pos : Z) : option parsed :=
  year ← ray_parse_4_digits src dstart;
  let pos := pos + 1 in
  month ← two pos;
  let pos := pos + 2 in
  dot ← char_at pos 46;
  if negb dot then plain_number start start else
  let pos := pos + 1 in
  dd ← two_digits pos;
  if negb dd then plain_number start start else
  day ← two pos;
  let pos := pos + 2 in
  if (month <? 1) || (12 <? month) || (day <? 1) || (31 <? day) then Some ParseError else
  days ← ymd_to_date year month day;
  d ← char_at pos 68;
  if (d : bool) then parse_timestamp days (pos + 1) else Some (Parsed (LitDate days) pos).

Definition null_type (c : Z) : option sort_type :=
  if c =? 104 then Some I16 else if c =? 105 then Some I32 else if c =? 100 then Some DATE
  else if c =? 116 then Some TIME else if c =? 112 then Some TIMESTAMP else if c =? 108 then Some I64
  else if c =? 102 then Some F64 else None.
Definition ident_char (c : Z) : bool :=
  ((97 <=? c) && (c <=? 122)) || ((65 <=? c) && (c <=? 90)) || is_digit c || (c =? 95).

(** From the first digit on: a date, a time, a number *)
Definition parse_digits (start : Z) (is_neg : bool) (dstart : Z) : option parsed :=
  pos ← skip_digits (length src) dstart;
  let ndigits := pos - dstart in
  is_date ← (if (ndigits =? 4) && negb is_neg then
               and_then (char_at pos 46) (and_then (digit_at (pos + 1)) (and_then (digit_at (pos + 2)) (char_at (pos + 3) 46)))
             else Some false);
  if (is_date : bool) then parse_date start dstart pos else
  is_time ← (if ndigits =? 2 then char_at pos 58 else Some false);
  if (is_time : bool) then
    t ← try_parse_time start;
    match t with
    | Some (ms, end_) => Some (Parsed (LitTime ms) end_)
    | None => pos ← skip_digits (length src) (if is_neg then start + 1 else start); plain_number start pos
    end
  else plain_number start pos.

Definition parse_number (start : Z) : option parsed :=
  x ← at_ start;
  let is_neg := x =? 45 in
  let pos := if is_neg then start + 1 else start in
  hex ← and_then (char_at pos 48) (char_at (pos + 1) 120);
  if (hex : bool) then
    '(n, v) ← ray_parse_u64_hex (drop (Z.to_nat (pos + 2)) src);
    Some (match v with None => ParseError | Some v => Parsed (LitU8 (u8 v)) (pos + 2 + n) end)
  else
  nul ← (if negb is_neg then and_then (char_at pos 48) (char_at (pos + 1) 78) else Some false);
  if (nul : bool) then
    c ← at_ (pos + 2);
    match null_type c with
    | Some t => Some (Parsed (LitNull t) (pos + 3))
    | None => if ident_char c then parse_digits start is_neg pos else Some (Parsed (LitNull I64) (pos + 2))
    end
  else parse_digits start is_neg pos.
End parser.

(** ** The text of an atom

    A null is the sentinel of its type. The text of a [double] is not
    modelled. *)
Definition or_null (t : sort_type) (v : Z) (text : option (list Z)) : option (list Z) :=
  if sentinel_is_null t v then Some (null_literal t) else text.
Definition fmt_literal (l : literal) : option (list Z) :=
  match l with
  | LitU8 v => Some (fmt_u8 v)
  | LitI16 v => or_null I16 v (Some (printf_d 0 v))
  | LitI32 v => or_null I32 v (Some (printf_d 0 v))
  | LitI64 v => or_null I64 v (Some (fmt_i64 v))
  | LitDate days => or_null DATE days (fmt_date days)
  | LitTime ms => or_null TIME ms (fmt_time ms)
  | LitTimestamp ns => or_null TIMESTAMP ns (fmt_timestamp ns)
  | LitNull t => Some (null_literal t)
  | LitFloat _ => None
  end.
