(* ===== verification/CalTextProofs.v ===== *)
(** * What is printed is read back *)

From S2P Require Import Prelude Rowsel Sort NumParse NumParseProofs Cal CalProofs CalText.
Local Open Scope Z_scope.

(** ** Digits *)
(** The last [w] decimal digits *)
Fixpoint fixed (w : nat) (n : Z) : list Z :=
  match w with O => [] | S w => fixed w (n / 10) ++ [48 + n mod 10] end.
Lemma zlen_fixed w n : zlen (fixed w n) = Z.of_nat w.
Proof. revert n. induction w as [|w IH]; intros n; [done|]. cbn [fixed]. rewrite zlen_app, IH. change (zlen [_]) with 1. lia. Qed.
Lemma fixed_zero w : fixed w 0 = replicate w 48.
Proof.
  induction w as [|w IH]; [done|]. cbn [fixed]. change (0 / 10) with 0. rewrite IH. change (48 + 0 mod 10) with 48.
  by rewrite <- replicate_cons_app.
Qed.
Lemma zget_fixed w n i : 0 ≤ i < Z.of_nat w → (fixed w n).[i] = Some (48 + n / 10 ^ (Z.of_nat w - 1 - i) mod 10).
Proof.
  revert n. induction w as [|w IH]; intros n Hi; [lia|]. cbn [fixed]. destruct (decide (i = Z.of_nat w)) as [->|].
  - rewrite zget_app_r by (rewrite zlen_fixed; lia). rewrite zlen_fixed, Z.sub_diag.
    replace (Z.of_nat (S w) - 1 - Z.of_nat w) with 0 by lia. by rewrite Z.pow_0_r, Z.div_1_r.
  - rewrite zget_app_l by (rewrite zlen_fixed; lia). rewrite IH by lia. do 2 f_equal.
    rewrite Z.div_div by lia. replace (Z.of_nat (S w) - 1 - i) with (1 + (Z.of_nat w - 1 - i)) by lia.
    by rewrite Z.pow_add_r by lia.
Qed.
Lemma fixed_digits w n : Forall digit (fixed w n).
Proof.
  revert n. induction w as [|w IH]; intros n; [constructor|]. cbn [fixed]. apply Forall_app. split; [apply IH|].
  constructor; [|constructor]. unfold digit. pose proof (Z.mod_pos_bound n 10). lia.
Qed.
Lemma dval_snoc l c : dval (l ++ [c]) = dval l * 10 + (c - 48).
Proof. unfold dval. by rewrite dval_from_app. Qed.
Lemma dval_fixed w n : 0 ≤ n < 10 ^ Z.of_nat w → dval (fixed w n) = n.
Proof.
  revert n. induction w as [|w IH]; intros n Hn; [change (10 ^ Z.of_nat 0) with 1 in Hn; change (dval (fixed 0 n)) with 0; lia|].
  cbn [fixed]. rewrite dval_snoc. rewrite Nat2Z.inj_succ, Z.pow_succ_r in Hn by lia.
  rewrite IH by (split; [apply Z.div_pos; lia|apply Z.div_lt_upper_bound; lia]).
  pose proof (Z.div_mod n 10). lia.
Qed.

(** [decimal] prints the digits up to the first one. *)
Lemma decimal_fixed fuel n : 0 ≤ n < 10 ^ Z.of_nat fuel → (0 < fuel)%nat →
  ∃ w, (0 < w ≤ fuel)%nat ∧ decimal fuel n = fixed w n ∧ n < 10 ^ Z.of_nat w ∧ ((1 < w)%nat → 10 ^ (Z.of_nat w - 1) ≤ n).
Proof.
  revert n. induction fuel as [|fuel IH]; intros n Hn Hf; [lia|]. cbn [decimal]. destruct (Z.ltb_spec n 10).
  - exists 1%nat. cbn [fixed app]. rewrite Z.mod_small by lia. split; [lia|]. split; [done|]. split; [lia|]. lia.
  - destruct fuel as [|fuel]; [change (10 ^ Z.of_nat 1) with 10 in Hn; lia|].
    rewrite Nat2Z.inj_succ, Z.pow_succ_r in Hn by lia.
    destruct (IH (n / 10)) as (w & Hw & Hd & Hlt & Hge);
      [split; [apply Z.div_pos; lia|apply Z.div_lt_upper_bound; lia]|lia|].
    exists (S w). cbn [fixed]. rewrite Hd. split; [lia|]. split; [done|].
    rewrite Nat2Z.inj_succ, Z.pow_succ_r by lia. pose proof (Z.div_mod n 10). pose proof (Z.mod_pos_bound n 10).
    split; [lia|]. intros _. replace (Z.succ (Z.of_nat w) - 1) with (Z.of_nat w) by lia.
    destruct (decide (w = 1%nat)) as [->|]; [change (10 ^ Z.of_nat 1) with 10; lia|].
    replace (Z.of_nat w) with (Z.succ (Z.of_nat w - 1)) by lia. rewrite Z.pow_succ_r by lia. specialize (Hge ltac:(lia)). lia.
Qed.
Lemma fixed_wider k w n : n < 10 ^ Z.of_nat w → 0 ≤ n → fixed (k + w) n = replicate k 48 ++ fixed w n.
Proof.
  revert n. induction w as [|w IH]; intros n Hn H0.
  - change (10 ^ Z.of_nat 0) with 1 in Hn. replace n with 0 by lia. rewrite Nat.add_0_r, fixed_zero. by rewrite app_nil_r.
  - rewrite Nat.add_succ_r. cbn [fixed]. rewrite Nat2Z.inj_succ, Z.pow_succ_r in Hn by lia.
    rewrite IH; [by rewrite app_assoc|apply Z.div_lt_upper_bound; lia|apply Z.div_pos; lia].
Qed.
(** [%0wd] of a number of at most [w] digits *)
Lemma printf_fixed (w : nat) z : (0 < w ≤ 20)%nat → 0 ≤ z < 10 ^ Z.of_nat w → printf_d (Z.of_nat w) z = fixed w z.
Proof.
  intros Hw Hz. unfold printf_d. rewrite (proj2 (Z.ltb_ge z 0)), Z.abs_eq by lia. cbn [app]. rewrite zlen_nil.
  assert (Hp : 10 ^ Z.of_nat w ≤ 10 ^ Z.of_nat 20) by (apply Z.pow_le_mono_r; lia).
  destruct (decimal_fixed 20 z) as (v & Hv & -> & Hlt & Hge); [lia|lia|]. rewrite zlen_fixed.
  assert (v ≤ w)%nat.
  { destruct (decide (v ≤ w)%nat); [done|]. assert (10 ^ Z.of_nat w ≤ 10 ^ (Z.of_nat v - 1)) by (apply Z.pow_le_mono_r; lia).
    specialize (Hge ltac:(lia)). lia. }
  rewrite <- fixed_wider by lia. f_equal. lia.
Qed.
Lemma printf_width k (w : nat) z : k = Z.of_nat w → (0 < w ≤ 20)%nat → 0 ≤ z < 10 ^ k → printf_d k z = fixed w z.
Proof. intros -> . apply printf_fixed. Qed.

(** ** Reading *)
Section reading.
Variable src : list Z.
Local Notation at_ := (at_ src).

Lemma at_zget i c : src.[i] = Some c → at_ i = Some c.
Proof. intros H. unfold at_. rewrite zget_app_l; [done|]. apply zget_Some in H. lia. Qed.
Lemma at_end : at_ (zlen src) = Some 0.
Proof. unfold at_. apply zget_mid3. Qed.
Lemma at_holds i l j c : holds src i l → l.[j] = Some c → at_ (i + j) = Some c.
Proof. intros Hh Hj. apply at_zget. rewrite Hh; [done|]. by apply zget_Some in Hj. Qed.
Lemma at_head i c l : holds src i (c :: l) → at_ i = Some c.
Proof. intros [H _]%holds_inv. by apply at_zget. Qed.
Lemma char_at_head i c l x : holds src i (c :: l) → char_at src i x = Some (c =? x).
Proof. intros H%at_head. unfold char_at. by rewrite H. Qed.

Lemma is_digit_true c : digit c → is_digit c = true.
Proof. unfold digit, is_digit. intros H. lia. Qed.
Lemma is_digit_fixed d : is_digit (48 + d mod 10) = true.
Proof. apply is_digit_true. unfold digit. pose proof (Z.mod_pos_bound d 10). lia. Qed.

Lemma digit_at_fixed i w n j : holds src i (fixed w n) → 0 ≤ j < Z.of_nat w → digit_at src (i + j) = Some true.
Proof.
  intros Hh Hj. unfold digit_at. rewrite (at_holds i (fixed w n) j _ Hh (zget_fixed w n j Hj)). cbn [mbind option_bind].
  by rewrite is_digit_fixed.
Qed.
Lemma two_fixed i v : holds src i (fixed 2 v) → 0 ≤ v < 100 → two_digits src i = Some true ∧ two src i = Some v.
Proof.
  intros Hh Hv. pose proof (digit_at_fixed i 2 v 0 Hh ltac:(lia)) as H0. pose proof (digit_at_fixed i 2 v 1 Hh ltac:(lia)) as H1.
  rewrite Z.add_0_r in H0. unfold two_digits, and_then, two. rewrite H0, H1. split; [done|].
  pose proof (at_holds i _ 0 _ Hh (zget_fixed 2 v 0 ltac:(lia))) as A0. pose proof (at_holds i _ 1 _ Hh (zget_fixed 2 v 1 ltac:(lia))) as A1.
  rewrite Z.add_0_r in A0. rewrite A0, A1. cbn [mbind option_bind]. f_equal.
  change (10 ^ (Z.of_nat 2 - 1 - 0)) with 10. change (10 ^ (Z.of_nat 2 - 1 - 1)) with 1. divs.
Qed.

Lemma skip_digits_ok l : ∀ fuel i c, holds src i l → Forall digit l → at_ (i + zlen l) = Some c → is_digit c = false →
  (length l ≤ fuel)%nat → skip_digits src fuel i = Some (i + zlen l).
Proof.
  induction l as [|x l IH]; intros fuel i c Hh Hd Hc Hn Hf.
  - rewrite zlen_nil, Z.add_0_r in *. destruct fuel; cbn [skip_digits]; unfold digit_at; rewrite Hc; cbn [mbind option_bind]; by rewrite Hn.
  - apply Forall_cons in Hd as [Hx Hd]. pose proof (at_head i x l Hh) as Ha. apply holds_inv in Hh as [_ Hh].
    destruct fuel as [|fuel]; [cbn in Hf; lia|]. cbn [skip_digits]. unfold digit_at. rewrite Ha. cbn [mbind option_bind].
    rewrite is_digit_true by done. rewrite zlen_cons in *. rewrite (IH fuel (i + 1) c Hh Hd); [f_equal; lia| |done|cbn in Hf; lia].
    rewrite <- Hc. f_equal. lia.
Qed.

(** A literal is followed by something that does not go on with it. *)
Definition delimiter (c : Z) : Prop := ident_char c = false ∧ c ≠ 46 ∧ c ≠ 58.
Lemma delimiter_not_digit c : delimiter c → is_digit c = false.
Proof. intros [H _]. unfold ident_char in H. by apply orb_false_iff in H as [[_ H]%orb_false_iff _]. Qed.
Lemma delimiter_not c x : delimiter c → ident_char x = true → (c =? x) = false.
Proof. intros [H _] Hx. apply Z.eqb_neq. intros ->. congruence. Qed.

(** [hh:mm:ss] *)
Definition hms (h m s : Z) : list Z := fixed 2 h ++ 58 :: fixed 2 m ++ 58 :: fixed 2 s.
Lemma zlen_hms h m s : zlen (hms h m s) = 8.
Proof. unfold hms. autorewrite with zlen. rewrite !zlen_fixed. done. Qed.
Lemma holds_two_sep i v c l : holds src i (fixed 2 v ++ c :: l) → 0 ≤ v < 100 →
  two_digits src i = Some true ∧ two src i = Some v ∧ (∀ x, char_at src (i + 2) x = Some (c =? x)) ∧ holds src (i + 2 + 1) l.
Proof.
  intros [Hv Hl]%holds_app_inv Hb. rewrite zlen_fixed in Hl. change (Z.of_nat 2) with 2 in Hl.
  destruct (two_fixed i v Hv Hb) as [H1 H2]. split_and!; [done|done| |].
  - intros x. exact (char_at_head _ _ _ x Hl).
  - by apply holds_inv in Hl as [_ Hl].
Qed.

Lemma more_ms_digit ms c d l : holds src c (48 + d :: l) → 0 ≤ d < 10 → more_ms src (ms, c) = Some (ms * 10 + d, c + 1).
Proof.
  intros Hh Hd. unfold more_ms. rewrite (at_head _ _ _ Hh). cbn [mbind option_bind].
  rewrite is_digit_true by (unfold digit; lia). do 2 f_equal. lia.
Qed.
Lemma time_fraction_ok c ms : holds src c (46 :: fixed 3 ms) → 0 ≤ ms < 1000 → time_fraction src c = Some (Some (ms, c + 4)).
Proof.
  intros Hh Hms. unfold time_fraction. rewrite (at_head _ _ _ Hh). cbn [mbind option_bind]. rewrite Z.eqb_refl.
  apply holds_inv in Hh as [_ Hh]. assert (Hf : fixed 3 ms = [48 + ms / 100; 48 + ms / 10 mod 10; 48 + ms mod 10]).
  { cbn [fixed app]. rewrite Z.div_div by lia. change (10 * 10) with 100. by rewrite (Z.mod_small (ms / 100)) by divs. }
  rewrite Hf in Hh. unfold digit_at, require. rewrite (at_head _ _ _ Hh). cbn [mbind option_bind].
  rewrite is_digit_true by (unfold digit; divs). apply holds_inv in Hh as [_ Hh]. cbn [mbind option_bind].
  rewrite (more_ms_digit _ _ (ms / 10 mod 10) [48 + ms mod 10]) by (done || divs). apply holds_inv in Hh as [_ Hh].
  cbn [mbind option_bind]. rewrite (more_ms_digit _ _ (ms mod 10) []) by (done || divs). cbn [mbind option_bind].
  do 3 f_equal; [divs|lia].
Qed.

Lemma try_parse_time_ok i neg h m s ms :
  holds src i ((if neg : bool then [45] else []) ++ hms h m s ++ 46 :: fixed 3 ms) →
  0 ≤ h < 100 → 0 ≤ m < 100 → 0 ≤ s < 100 → 0 ≤ ms < 1000 →
  try_parse_time src i = Some (Some ((if neg then -1 else 1) * ((h * 3600 + m * 60 + s) * 1000 + ms), i + (if neg then 13 else 12))).
Proof.
  intros Hh Bh Bm Bs Bms. unfold try_parse_time.
  set (c := if neg then i + 1 else i). assert (Hc : holds src c (hms h m s ++ 46 :: fixed 3 ms)).
  { unfold c. destruct neg; [by apply holds_inv in Hh as [_ Hh]|done]. }
  assert (Hx : ∃ x, at_ i = Some x ∧ (if x =? 45 then (-1, i + 1) else (1, i)) = (if neg then -1 else 1, c)).
  { unfold c. destruct neg; [exists 45; split; [exact (at_head _ _ _ Hh)|done]|].
    pose proof Hc as Hd. unfold hms in Hd. cbn [fixed app] in Hd.
    eexists. split; [exact (at_head _ _ _ Hd)|]. pose proof (Z.mod_pos_bound (h / 10) 10).
    by rewrite (proj2 (Z.eqb_neq _ 45)) by lia. }
  destruct Hx as (x & -> & Hx). cbn [mbind option_bind]. rewrite Hx. clear Hx.
  unfold hms in Hc. rewrite <- !app_assoc in Hc. cbn [app] in Hc.
  destruct (holds_two_sep c h _ _ Hc Bh) as (E1 & E2 & E3 & Hm). rewrite <- app_assoc in Hm. cbn [app] in Hm.
  destruct (holds_two_sep _ m _ _ Hm Bm) as (E4 & E5 & E6 & Hs). apply holds_app_inv in Hs as [Hs Hf].
  destruct (two_fixed _ s Hs Bs) as [E7 E8]. rewrite zlen_fixed in Hf. change (Z.of_nat 2) with 2 in Hf.
  unfold require. rewrite E1, E2. cbn [mbind option_bind]. cbv zeta. rewrite E3. cbn [mbind option_bind].
  change (58 =? 58) with true. cbv iota. rewrite E4, E5. cbn [mbind option_bind]. rewrite E6. cbn [mbind option_bind].
  change (58 =? 58) with true. cbv iota. rewrite E7, E8. cbn [mbind option_bind].
  rewrite (time_fraction_ok _ ms Hf Bms). cbn [mbind option_bind]. do 3 f_equal. unfold c. destruct neg; lia.
Qed.

Lemma fraction_nanos_ok f ns : holds src f (fixed 9 ns) → 0 ≤ ns < 10 ^ 9 → fraction_nanos src f 9 = Some ns.
Proof.
  intros Hh Hns. unfold fraction_nanos. change (Z.min 9 9) with 9. rewrite (range_empty 9 9) by lia.
  destruct (foldM_range (λ i nanos, x ← at_ (f + i); Some (u64 (u64 (nanos * 10) + (x - 48)))) (λ i nanos, nanos = ns / 10 ^ (9 - i)) 0 9 0)
    as (n & -> & ->); [lia| | |].
  - symmetry. apply Z.div_small. exact Hns.
  - intros i n Hi ->. rewrite (at_holds f _ i _ Hh (zget_fixed 9 ns i Hi)). cbn [mbind option_bind]. eexists. split; [done|].
    change (Z.of_nat 9 - 1 - i) with (8 - i). replace (9 - (i + 1)) with (8 - i) by lia.
    replace (9 - i) with ((8 - i) + 1) by lia. rewrite Z.pow_add_r, <- Z.div_div by lia. change (10 ^ 1) with 10.
    set (q := ns / 10 ^ (8 - i)). assert (Hq : 0 ≤ q ≤ ns).
    { assert (1 ≤ 10 ^ (8 - i)) by (apply (Z.pow_le_mono_r 10 0); lia).
      unfold q. split; [apply Z.div_pos; lia|]. apply Z.div_le_upper_bound; nia. }
    rewrite (wrap_id 64 (q / 10 * 10)) by (unfold in_u; divs). rewrite wrap_id; [divs|]. unfold in_u. divs.
  - cbn [mbind option_bind foldl]. change (9 - 9) with 0. by rewrite Z.pow_0_r, Z.div_1_r.
Qed.

(** The nanosecond of a time of the day [days] *)
Definition instant (days h mi s ns : Z) : Z := days * NSECS_IN_DAY + ((h * 3600 + mi * 60 + s) * 1000000000 + ns).

Lemma parse_timestamp_ok days pos h mi s ns c :
  holds src pos (hms h mi s ++ 46 :: fixed 9 ns) → at_ (pos + 18) = Some c → is_digit c = false →
  0 ≤ h < 24 → 0 ≤ mi < 60 → 0 ≤ s < 60 → 0 ≤ ns < 10 ^ 9 → -106751 ≤ days ≤ 106751 →
  parse_timestamp src days pos = x ← in64 (instant days h mi s ns); Some (Parsed (LitTimestamp x) (pos + 18)).
Proof.
  intros Hh Hc Hnd Bh Bm Bs Bn Bd. unfold parse_timestamp, require.
  unfold hms in Hh. rewrite <- !app_assoc in Hh. cbn [app] in Hh. rewrite <- app_assoc in Hh.
  destruct (holds_two_sep pos h _ _ Hh ltac:(lia)) as (E1 & E2 & E3 & Hm). cbn [app] in Hm.
  destruct (holds_two_sep _ mi _ _ Hm ltac:(lia)) as (E4 & E5 & E6 & Hs).
  destruct (holds_two_sep _ s _ _ Hs ltac:(lia)) as (E7 & E8 & E9 & Hn).
  rewrite E1, E2. cbn [mbind option_bind]. cbv zeta. rewrite E3. change (58 =? 58) with true. cbn [mbind option_bind]. cbv iota.
  rewrite E4, E5. cbn [mbind option_bind]. rewrite E6. change (58 =? 58) with true. cbn [mbind option_bind]. cbv iota.
  rewrite E7, E8. cbn [mbind option_bind]. rewrite E9. change (46 =? 46) with true. cbn [mbind option_bind]. cbv iota.
  rewrite (proj2 (Z.ltb_ge 23 h)), (proj2 (Z.ltb_ge 59 mi)), (proj2 (Z.ltb_ge 59 s)) by lia. cbn [orb].
  set (q := pos + 2 + 1 + 2 + 1 + 2 + 1) in *. assert (Hq : q = pos + 9) by (unfold q; lia).
  pose proof (holds_bound _ _ _ Hn ltac:(discriminate)) as Hb. rewrite zlen_fixed in Hb.
  rewrite (skip_digits_ok (fixed 9 ns) (length src) q c Hn (fixed_digits 9 ns)); [| |done|unfold zlen in Hb; cbn [length fixed app]; lia].
  2: { rewrite zlen_fixed, <- Hc. f_equal. lia. }
  rewrite zlen_fixed. cbn [mbind option_bind]. replace (q + Z.of_nat 9 - q) with 9 by lia.
  rewrite (fraction_nanos_ok q ns Hn Bn). cbn [mbind option_bind].
  change (Z.quot INT64_MAX PARSE_NSECS_IN_DAY) with 106751. change (Z.quot INT64_MIN PARSE_NSECS_IN_DAY) with (-106751).
  rewrite (proj2 (Z.ltb_ge 106751 days)), (proj2 (Z.ltb_ge days (-106751))) by lia. cbn [orb].
  unfold instant, NSECS_IN_DAY, PARSE_NSECS_IN_DAY in *. rewrite in64_Some by lia. cbn [mbind option_bind].
  rewrite in64_Some by lia. cbn [mbind option_bind].
  destruct (in64 (days * _ + _)); [|done]. cbn [mbind option_bind]. do 2 f_equal. lia.
Qed.

(** [YYYY.MM.DD] *)
Definition ymd_text (y m d : Z) : list Z := fixed 4 y ++ 46 :: fixed 2 m ++ 46 :: fixed 2 d.
Lemma zlen_ymd y m d : zlen (ymd_text y m d) = 10.
Proof. unfold ymd_text. autorewrite with zlen. rewrite !zlen_fixed. done. Qed.

Lemma slice_holds i l : holds src i l → 0 ≤ i → slice (length l) src i = l.
Proof.
  intros Hh Hi. apply zlist_ext.
  - destruct l as [|x l]; [done|]. pose proof (holds_bound _ _ _ Hh ltac:(discriminate)) as Hb. unfold zlen. rewrite length_slice; unfold zlen in *; lia.
  - intros j Hj. unfold slice in *. rewrite zlen_take in Hj. rewrite !zget_nat by lia.
    rewrite lookup_take_lt, lookup_drop by lia. rewrite <- zget_nat, <- Hh by (unfold zlen; lia). rewrite zget_nat by lia. f_equal. lia.
Qed.

Lemma parse_date_ok start y m d c l : holds src start (ymd_text y m d ++ l) → at_ (start + 10) = Some c → 0 ≤ start →
  0 ≤ y < 10000 → 1 ≤ m ≤ 12 → 1 ≤ d ≤ 31 →
  parse_date src start start (start + 4) =
    days ← ymd_to_date y m d;
    if c =? 68 then parse_timestamp src days (start + 11) else Some (Parsed (LitDate days) (start + 10)).
Proof.
  intros Hh Hc H0 By Bm Bd. unfold parse_date. unfold ymd_text in Hh. rewrite <- !app_assoc in Hh. cbn [app] in Hh. rewrite <- app_assoc in Hh. cbn [app] in Hh.
  apply holds_app_inv in Hh as [Hy Hh]. rewrite zlen_fixed in Hh. change (Z.of_nat 4) with 4 in Hh.
  pose proof (holds_bound _ _ _ Hy ltac:(discriminate)) as Hb. rewrite zlen_fixed in Hb.
  pose proof (slice_holds start (fixed 4 y) Hy H0) as Hs. change (length (fixed 4 y)) with 4%nat in Hs.
  rewrite ray_parse_4_spec; [|done|lia|rewrite Hs; apply fixed_digits]. rewrite Hs, dval_fixed by exact By.
  cbn [mbind option_bind]. cbv zeta. apply holds_inv in Hh as [_ Hm].
  destruct (holds_two_sep _ m _ _ Hm ltac:(lia)) as (_ & E2 & E3 & Hd). apply holds_app_inv in Hd as [Hd _].
  destruct (two_fixed _ d Hd ltac:(lia)) as [E4 E5].
  rewrite E2. cbn [mbind option_bind]. rewrite E3. change (46 =? 46) with true. cbn [mbind option_bind negb]. rewrite E4. cbn [mbind option_bind negb].
  rewrite E5. cbn [mbind option_bind]. rewrite (proj2 (Z.ltb_ge m 1)), (proj2 (Z.ltb_ge 12 m)), (proj2 (Z.ltb_ge d 1)), (proj2 (Z.ltb_ge 31 d)) by lia.
  cbn [orb]. destruct (ymd_to_date y m d) as [days|]; [|done]. cbn [mbind option_bind]. unfold char_at.
  replace (start + 4 + 1 + 2 + 1 + 2) with (start + 10) by lia. rewrite Hc. cbn [mbind option_bind].
  replace (start + 10 + 1) with (start + 11) by lia. done.
Qed.

(** Where a literal that is not a null nor in hexadecimal starts *)
Lemma parse_number_start start (neg : bool) d l c1 :
  holds src start ((if neg then [45] else []) ++ 48 + d :: l) → 0 ≤ d < 10 →
  at_ (start + (if neg then 2 else 1)) = Some c1 → c1 ≠ 120 → c1 ≠ 78 →
  parse_number src start = parse_digits src start neg (start + (if neg then 1 else 0)).
Proof.
  intros Hh Hd Hc H1 H2. unfold parse_number.
  assert (Hx : ∃ x, at_ start = Some x ∧ (x =? 45) = neg).
  { destruct neg; cbn [app] in Hh; eexists; (split; [exact (at_head _ _ _ Hh)|]); [done|]. apply Z.eqb_neq. lia. }
  destruct Hx as (x & Ha & Hx). rewrite Ha. cbn [mbind option_bind]. cbv zeta. rewrite Hx.
  replace (if neg then start + 1 else start) with (start + (if neg then 1 else 0)) by (destruct neg; lia).
  set (pos := start + (if neg then 1 else 0)) in *.
  assert (Hpos : holds src pos (48 + d :: l)).
  { unfold pos. destruct neg; [by apply holds_inv in Hh as [_ Hh]|by rewrite Z.add_0_r]. }
  unfold and_then. rewrite !(char_at_head _ _ _ _ Hpos). cbn [mbind option_bind]. unfold char_at.
  replace (pos + 1) with (start + (if neg then 2 else 1)) by (unfold pos; destruct neg; lia). rewrite Hc. cbn [mbind option_bind].
  rewrite (proj2 (Z.eqb_neq c1 120)), (proj2 (Z.eqb_neq c1 78)) by done.
  destruct (48 + d =? 48), neg; done.
Qed.

Lemma fixed_cons w n : (0 < w)%nat → ∃ d l, fixed w n = 48 + d :: l ∧ 0 ≤ d < 10.
Proof.
  intros Hw. pose proof (zget_fixed w n 0 ltac:(lia)) as H0. destruct (fixed w n) as [|x l]; [done|].
  rewrite zget_cons_0 in H0. injection H0 as ->. eexists _, l. split; [done|]. apply Z.mod_pos_bound. lia.
Qed.
(** The byte after the first digit *)
Lemma second_byte i w n c : (0 < w)%nat → holds src i (fixed w n) → at_ (i + Z.of_nat w) = Some c →
  ∃ x, at_ (i + 1) = Some x ∧ (is_digit x = true ∨ x = c).
Proof.
  intros Hw Hh Hc. destruct (decide (w = 1%nat)) as [->|]; [exists c; split; [exact Hc|by right]|].
  eexists. split; [exact (at_holds i _ 1 _ Hh (zget_fixed w n 1 ltac:(lia)))|]. left. apply is_digit_fixed.
Qed.
Lemma skip_fixed i w n c : holds src i (fixed w n) → at_ (i + Z.of_nat w) = Some c → is_digit c = false → (0 < w)%nat →
  skip_digits src (length src) i = Some (i + Z.of_nat w).
Proof.
  intros Hh Hc Hd Hw. destruct (fixed_cons w n Hw) as (d & l & Hf & _).
  pose proof (holds_bound _ _ _ Hh ltac:(rewrite Hf; discriminate)) as Hb. rewrite zlen_fixed in Hb.
  rewrite <- (zlen_fixed w n) in *. apply (skip_digits_ok _ _ _ c Hh (fixed_digits w n) Hc Hd).
  rewrite <- (Nat2Z.id (length (fixed w n))). fold (zlen (fixed w n)). rewrite zlen_fixed in *. unfold zlen in Hb. lia.
Qed.

(** *** Integers *)
Lemma parse_i64_digits (neg : bool) w n : (0 < w)%nat → 0 ≤ n < 10 ^ Z.of_nat w → n ≤ INT64_MAX →
  ray_parse_i64 ((if neg then [45] else []) ++ fixed w n) =
    Some ((if neg then 1 else 0) + Z.of_nat w, Some (if neg then - n else n)).
Proof.
  intros Hw Hn Hmax. destruct (fixed_cons w n Hw) as (d & l & Hf & Hd).
  assert (Hb : byte_list (fixed w n)) by (eapply Forall_impl; [apply fixed_digits|]; intros x; unfold digit, in_u; lia).
  assert (Hds : digits (fixed w n) = fixed w n) by (rewrite <- (app_nil_r (fixed w n)) at 1; rewrite digits_app by apply fixed_digits; apply app_nil_r).
  assert (Hval : ∀ k, ref_value k neg (fixed w n) = (k + Z.of_nat w, Some (if neg then - n else n))).
  { intros k. unfold ref_value. rewrite dval_fixed by done. rewrite bool_decide_eq_true_2 by (rewrite Hf; discriminate).
    cbn [andb]. rewrite zlen_fixed. change INT64_MAX with (2 ^ 63 - 1) in *. change INT64_MIN with (- 2 ^ 63).
    destruct neg; rewrite (proj2 (Z.leb_le (- 2 ^ 63) _)), (proj2 (Z.leb_le _ (2 ^ 63 - 1))) by lia; done. }
  destruct neg; cbn [app].
  - rewrite parse_i64_after_sign. change (45 =? 45) with true. cbv iota.
    rewrite (after_sign_spec [45] (fixed w n) true : _ → after_sign (45 :: fixed w n) true 1 = _) by (constructor; [unfold in_u; lia|done]).
    rewrite Hds. by rewrite Hval.
  - rewrite Hf at 1. rewrite parse_i64_after_sign. rewrite (proj2 (Z.eqb_neq _ 45)), (proj2 (Z.eqb_neq _ 43)) by lia.
    rewrite <- Hf. rewrite (after_sign_spec [] (fixed w n) false : _ → after_sign (fixed w n) false 0 = _) by done.
    rewrite Hds. by rewrite Hval.
Qed.

Lemma plain_number_ok start (neg : bool) w n c :
  holds src start ((if neg then [45] else []) ++ fixed w n) → 0 ≤ start → (0 < w)%nat →
  at_ (start + (if neg then 1 else 0) + Z.of_nat w) = Some c → delimiter c → 0 ≤ n < 10 ^ Z.of_nat w → n ≤ INT64_MAX →
  plain_number src start (start + (if neg then 1 else 0) + Z.of_nat w) =
    Some (Parsed (LitI64 (if neg then - n else n)) (start + (if neg then 1 else 0) + Z.of_nat w)).
Proof.
  intros Hh H0 Hw Hc Hdel Hn Hmax. unfold plain_number. set (e := start + _ + Z.of_nat w) in *.
  pose proof (delimiter_not c 101 Hdel eq_refl) as X1. pose proof (delimiter_not c 69 Hdel eq_refl) as X2.
  pose proof (delimiter_not c 104 Hdel eq_refl) as X3. pose proof (delimiter_not c 105 Hdel eq_refl) as X4.
  unfold and_then, char_at. rewrite Hc. cbn [mbind option_bind]. destruct Hdel as (_ & H46 & _).
  rewrite (proj2 (Z.eqb_neq c 46)) by done. cbn [mbind option_bind]. rewrite Hc. cbn [mbind option_bind]. cbv zeta. rewrite X1, X2. cbn [orb mbind option_bind].
  assert (Htext : take (Z.to_nat (e - start)) (drop (Z.to_nat start) src) = (if neg then [45] else []) ++ fixed w n).
  { rewrite <- (slice_holds start _ Hh H0) at 1. unfold slice. f_equal. rewrite length_app.
    pose proof (zlen_fixed w n) as Hz. unfold zlen in Hz. unfold e. destruct neg; cbn [length]; lia. }
  rewrite Htext, parse_i64_digits by done. cbn [mbind option_bind]. rewrite Hc. cbn [mbind option_bind]. by rewrite X3, X4.
Qed.

Lemma read_int start v c : holds src start (fmt_i64 v) → 0 ≤ start → at_ (start + zlen (fmt_i64 v)) = Some c → delimiter c →
  - 2 ^ 63 < v < 2 ^ 63 → parse_number src start = Some (Parsed (LitI64 v) (start + zlen (fmt_i64 v))).
Proof.
  intros Hh H0 Hc Hdel Hv. set (neg := v <? 0). destruct (decimal_fixed 20 (Z.abs v)) as (w & Hw & Hdec & Hlt & _); [lia|lia|].
  assert (Htext : fmt_i64 v = (if neg then [45] else []) ++ fixed w (Z.abs v)).
  { unfold fmt_i64, printf_d. fold neg. rewrite Hdec. f_equal. rewrite zlen_fixed.
    replace (Z.to_nat _) with O; [done|]. pose proof (zlen_nonneg (if neg then [45] else [])). lia. }
  rewrite Htext in *. assert (Hlen : zlen ((if neg then [45] else []) ++ fixed w (Z.abs v)) = (if neg then 1 else 0) + Z.of_nat w)
    by (rewrite zlen_app, zlen_fixed; by destruct neg).
  rewrite Hlen, Z.add_assoc in *. clear Htext Hlen. set (p := start + (if neg then 1 else 0)) in *.
  assert (Hp : holds src p (fixed w (Z.abs v))).
  { unfold p. destruct neg; [by apply holds_inv in Hh as [_ Hh]|by rewrite Z.add_0_r]. }
  destruct (fixed_cons w (Z.abs v) ltac:(lia)) as (d & l & Hf & Hd).
  destruct (second_byte p w _ c ltac:(lia) Hp Hc) as (x & Hx & Hxc).
  assert (Hnot : ∀ y, is_digit y = false → ident_char y = true → x ≠ y).
  { intros y Hy Hi ->. destruct Hxc as [Hxc | ->]; [congruence|]. destruct Hdel as [Hi' _]. congruence. }
  rewrite (parse_number_start start neg d l x); [|by rewrite <- Hf|done| |by apply Hnot|by apply Hnot].
  2: { rewrite <- Hx. f_equal. unfold p. destruct neg; lia. }
  unfold parse_digits. fold p. rewrite (skip_fixed p w _ c Hp Hc (delimiter_not_digit c Hdel)) by lia.
  cbn [mbind option_bind]. cbv zeta. unfold and_then, char_at. rewrite Hc. cbn [mbind option_bind].
  rewrite (proj2 (Z.eqb_neq c 46)), (proj2 (Z.eqb_neq c 58)) by apply Hdel.
  assert (Hif : ∀ b : bool, (if b then Some false else Some false) = Some false) by (by intros []).
  cbn [mbind option_bind] in *. rewrite ?Hif. cbn [mbind option_bind]. rewrite ?Hif. cbn [mbind option_bind].
  unfold p. rewrite plain_number_ok with (n := Z.abs v) (c := c); try done; [|lia|lia|change INT64_MAX with (2 ^ 63 - 1); lia].
  do 3 f_equal. unfold neg. zbool; lia.
Qed.

(** *** Bytes and nulls *)
Lemma hex_text v : in_u 8 v →
  hex_digit (hex_char (v / 16)) = Some (v / 16) ∧ hex_digit (hex_char (v mod 16)) = Some (v mod 16).
Proof.
  intros Hv. assert (Hall : forallb (λ d, bool_decide (hex_digit (hex_char d) = Some d)) (range 0 16) = true) by (by vm_compute).
  unfold in_u in Hv. change (2 ^ 8) with 256 in Hv.
  split; apply (bool_decide_eq_true_1 _); refine (by_range _ _ _ Hall _ _); divs.
Qed.
Lemma hex_digit_ident c d : hex_digit c = Some d → ident_char c = true.
Proof.
  unfold hex_digit, ident_char, is_digit.
  destruct ((48 <=? c) && (c <=? 57)) eqn:E1; [intros _; lia|]. destruct ((97 <=? c) && (c <=? 102)) eqn:E2; [intros _; lia|].
  destruct ((65 <=? c) && (c <=? 70)) eqn:E3; [intros _; lia|done].
Qed.
Lemma holds_split i l c : holds src i l → 0 ≤ i → l ≠ [] → at_ (i + zlen l) = Some c →
  ∃ tl, drop (Z.to_nat i) src = l ++ tl ∧ (tl = [] ∨ head tl = Some c).
Proof.
  intros Hh Hi Hne Hc. exists (drop (length l) (drop (Z.to_nat i) src)). split.
  - rewrite <- (slice_holds i l Hh Hi) at 1. unfold slice. by rewrite take_drop.
  - pose proof (holds_bound _ _ _ Hh Hne) as Hb. rewrite drop_drop. destruct (decide (i + zlen l = zlen src)).
    + left. apply drop_ge. unfold zlen in *. lia.
    + right. rewrite head_lookup, lookup_drop, Nat.add_0_r. unfold at_ in Hc. rewrite zget_app_l in Hc by lia.
      rewrite <- Hc, zget_nat by (unfold zlen; lia). f_equal. unfold zlen. lia.
Qed.

Lemma read_u8 start v c : holds src start (fmt_u8 v) → 0 ≤ start → at_ (start + 4) = Some c → delimiter c → in_u 8 v →
  parse_number src start = Some (Parsed (LitU8 v) (start + 4)).
Proof.
  intros Hh H0 Hc Hdel Hv. unfold parse_number. rewrite (at_head _ _ _ Hh). cbn [mbind option_bind]. change (48 =? 45) with false. cbv iota zeta.
  unfold and_then. rewrite (char_at_head _ _ _ _ Hh). apply holds_inv in Hh as [_ Hh]. rewrite (char_at_head _ _ _ 120 Hh).
  change (48 =? 48) with true. change (120 =? 120) with true. cbn [mbind option_bind]. cbv iota. apply holds_inv in Hh as [_ Hh].
  destruct (hex_text v Hv) as [D1 D2].
  replace (start + 1 + 1) with (start + 2) in Hh by lia.
  destruct (holds_split (start + 2) _ c Hh ltac:(lia) ltac:(discriminate)) as (tl & -> & Htl).
  { rewrite <- Hc. f_equal. rewrite !zlen_cons, zlen_nil. lia. }
  unfold ray_parse_u64_hex.
  change (hex_loop 16 ?l 0 0) with (hex_loop 16 ([] ++ l) (zlen (@nil Z)) 0).
  rewrite (hex_loop_spec _ [] 16 0 ltac:(done) ltac:(done)). cbn [mbind option_bind app].
  assert (Hrun : hex_run 16 (hex_char (v / 16) :: hex_char (v mod 16) :: tl) = [v / 16; v mod 16]).
  { cbn [hex_run]. rewrite D1, D2. do 2 f_equal. destruct tl as [|x tl]; [done|]. destruct Htl as [|Htl]; [done|]. injection Htl as ->.
    cbn [hex_run]. destruct (hex_digit c) eqn:E; [|done]. apply hex_digit_ident in E. destruct Hdel as [Hi _]. congruence. }
  rewrite Hrun. change (zlen (@nil Z)) with 0. change (zlen [v / 16; v mod 16]) with 2. change (0 + 2 =? 0) with false. cbv iota. change (hval_from 0 [v / 16; v mod 16]) with ((0 * 16 + v / 16) * 16 + v mod 16).
  unfold in_u in Hv. change (2 ^ 8) with 256 in Hv. cbn [mbind option_bind].
  replace ((0 * 16 + v / 16) * 16 + v mod 16) with v by divs. rewrite wrap_id by (unfold in_u; lia).
  do 2 f_equal. lia.
Qed.

Definition null_reads (t : sort_type) : bool := match t with I16 | I32 | I64 | F64 | DATE | TIME | TIMESTAMP => true | _ => false end.
Lemma read_null start t : holds src start (null_literal t) → null_reads t = true →
  parse_number src start = Some (Parsed (LitNull t) (start + 3)).
Proof.
  intros Hh Ht. unfold parse_number. rewrite (at_head _ _ _ Hh). cbn [mbind option_bind]. change (48 =? 45) with false. cbv iota zeta.
  unfold and_then. rewrite !(char_at_head _ _ _ _ Hh). apply holds_inv in Hh as [_ Hh]. rewrite !(char_at_head _ _ _ _ Hh).
  apply holds_inv in Hh as [_ Hh]. replace (start + 1 + 1) with (start + 2) in Hh by lia.
  cbn -[at_ Z.add]. rewrite (at_head _ _ _ Hh). by destruct t.
Qed.

(** *** Dates and times *)
Lemma print_ymd_ok y m d : 0 ≤ y < 10000 → 1 ≤ m ≤ 12 → 1 ≤ d ≤ 31 → print_ymd (y, m, d) = ymd_text y m d.
Proof. intros. unfold print_ymd, ymd_text. by rewrite (printf_width 4 4 y), (printf_width 2 2 m), (printf_width 2 2 d) by lia. Qed.
Lemma print_hms_ok h m s : 0 ≤ h < 100 → 0 ≤ m < 100 → 0 ≤ s < 100 → print_hms h m s = hms h m s.
Proof. intros. unfold print_hms, hms. by rewrite (printf_width 2 2 h), (printf_width 2 2 m), (printf_width 2 2 s) by lia. Qed.

Lemma read_ymd start y m d l c : holds src start (ymd_text y m d ++ l) → 0 ≤ start → at_ (start + 10) = Some c →
  0 ≤ y < 10000 → 1 ≤ m ≤ 12 → 1 ≤ d ≤ 31 →
  parse_number src start = days ← ymd_to_date y m d;
    if c =? 68 then parse_timestamp src days (start + 11) else Some (Parsed (LitDate days) (start + 10)).
Proof.
  intros Hh H0 Hc By Bm Bd. pose proof Hh as Hparts. unfold ymd_text in Hparts. rewrite <- !app_assoc in Hparts. cbn [app] in Hparts.
  rewrite <- app_assoc in Hparts. apply holds_app_inv in Hparts as [Hy Hsep]. rewrite zlen_fixed in Hsep. change (Z.of_nat 4) with 4 in Hsep.
  destruct (fixed_cons 4 y ltac:(lia)) as (d0 & l0 & Hf & Hd0).
  pose proof (at_head _ _ _ Hsep) as H46.
  destruct (second_byte start 4 y 46 ltac:(lia) Hy H46) as (x & Hx & Hxc).
  assert (x ≠ 120 ∧ x ≠ 78) as [Hx1 Hx2] by (unfold is_digit in Hxc; lia).
  rewrite (parse_number_start start false d0 l0 x); [|by cbn [app]; rewrite <- Hf|done|exact Hx|done|done].
  unfold parse_digits. rewrite Z.add_0_r. rewrite (skip_fixed start 4 y 46 Hy H46) by (done || lia). change (Z.of_nat 4) with 4.
  cbn [mbind option_bind]. cbv zeta. replace (start + 4 - start) with 4 by lia. change ((4 =? 4) && negb false) with true. cbv iota.
  unfold and_then. rewrite (char_at_head _ _ _ 46 Hsep). apply holds_inv in Hsep as [_ Hm]. cbn [mbind option_bind]. change (46 =? 46) with true. cbv iota.
  destruct (holds_two_sep _ m _ _ Hm ltac:(lia)) as (E1 & _ & E3 & _). unfold two_digits, and_then in E1.
  replace (start + 4 + 2) with (start + 4 + 1 + 1) by lia. replace (start + 4 + 3) with (start + 4 + 1 + 2) by lia.
  destruct (digit_at src (start + 4 + 1)) as [[]|]; cbn [mbind option_bind] in E1; try discriminate E1.
  rewrite E1, E3. cbn [mbind option_bind]. change (46 =? 46) with true. cbv iota.
  cbn [mbind option_bind]. exact (parse_date_ok start y m d c l Hh Hc H0 By Bm Bd).
Qed.

Lemma read_hms start (neg : bool) h m s ms :
  holds src start ((if neg then [45] else []) ++ hms h m s ++ 46 :: fixed 3 ms) →
  0 ≤ h < 100 → 0 ≤ m < 100 → 0 ≤ s < 100 → 0 ≤ ms < 1000 →
  parse_number src start = Some (Parsed (LitTime ((if neg then -1 else 1) * ((h * 3600 + m * 60 + s) * 1000 + ms))) (start + (if neg then 13 else 12))).
Proof.
  intros Hh Bh Bm Bs Bms. set (p := start + (if neg then 1 else 0)).
  assert (Hp : holds src p (fixed 2 h ++ 58 :: fixed 2 m ++ 58 :: fixed 2 s ++ 46 :: fixed 3 ms)).
  { apply holds_app_inv in Hh as [_ Hh]. replace p with (start + zlen (A := Z) (if neg then [45] else [])) by (unfold p; destruct neg; done).
    unfold hms in Hh. rewrite <- !app_assoc in Hh. cbn [app] in Hh. by rewrite <- app_assoc in Hh. }
  apply holds_app_inv in Hp as [Hp Hsep]. rewrite zlen_fixed in Hsep. pose proof (at_head _ _ _ Hsep) as H58.
  destruct (fixed_cons 2 h ltac:(lia)) as (d0 & l0 & Hf & Hd0).
  destruct (second_byte p 2 h 58 ltac:(lia) Hp H58) as (x & Hx & Hxc).
  assert (x ≠ 120 ∧ x ≠ 78) as [Hx1 Hx2] by (unfold is_digit in Hxc; lia).
  rewrite (parse_number_start start neg d0 (l0 ++ 58 :: fixed 2 m ++ 58 :: fixed 2 s ++ 46 :: fixed 3 ms) x); [|
    unfold hms in Hh; rewrite Hf, <- !app_assoc in Hh; cbn [app] in Hh; rewrite <- app_assoc in Hh; exact Hh|
    done|rewrite <- Hx; f_equal; unfold p; destruct neg; lia|done|done].
  unfold parse_digits. fold p. rewrite (skip_fixed p 2 h 58 Hp H58) by (done || lia). change (Z.of_nat 2) with 2 in *.
  cbn [mbind option_bind]. cbv zeta. replace (p + 2 - p) with 2 by lia. change ((2 =? 4) && negb neg) with false. change (2 =? 2) with true. cbn [mbind option_bind]. cbv iota.
  unfold char_at. rewrite H58. cbn [mbind option_bind]. change (58 =? 58) with true. cbv iota.
  rewrite (try_parse_time_ok start neg h m s ms Hh Bh Bm Bs Bms). done.
Qed.
End reading.

(** ** What prints and is read back *)
Definition reads_back (l : literal) : Prop :=
  match l with
  | LitU8 v => in_u 8 v
  | LitI64 v => - 2 ^ 63 < v < 2 ^ 63
  | LitDate days => - 730119 ≤ days ≤ 2921939
  | LitTime ms => Z.abs ms < 360000000
  | LitTimestamp ns => - 106751 * NSECS_IN_DAY ≤ ns < 2 ^ 63
  | LitNull t => null_reads t = true
  | LitI16 _ | LitI32 _ | LitFloat _ => False
  end.

Lemma ymd_bounds days y m d : valid_date (y, m, d) → day_of (y, m, d) = days → -730119 ≤ days ≤ 2921939 →
  1 ≤ y < 10000 ∧ 1 ≤ m ≤ 12 ∧ 1 ≤ d ≤ 31.
Proof.
  intros Hv Hd Hb. pose proof (day_in_year y m d Hv) as Hy. rewrite Hd in Hy. destruct Hv as [Hm Hdm].
  assert (month_len (leap y) m ≤ 31) by (unfold month_len; repeat case_match; lia). unfold year_start in Hy. divs.
Qed.

(** Hours, minutes and seconds of [v] units of which a second has [u] *)
Lemma secs_parts v u : 0 ≤ v → 0 < u →
  (Z.quot (Z.quot v u) 3600, Z.quot (Z.rem (Z.quot v u) 3600) 60, Z.rem (Z.rem (Z.quot v u) 3600) 60) =
  (v / (u * 3600), v / (u * 60) mod 60, v / u mod 60).
Proof.
  intros Hv Hu. rewrite (Z.quot_div_nonneg v u) by lia. rewrite <- !Z.div_div by lia.
  assert (H0 : 0 ≤ v / u) by (apply Z.div_pos; lia). generalize dependent (v / u). intros q Hq.
  f_equal; [f_equal|]; quots.
Qed.
Lemma time_to_hms_ok ms : Z.abs ms < 2 ^ 31 →
  time_to_hms ms = Some (Z.abs ms / 3600000, Z.abs ms / 60000 mod 60, Z.abs ms / 1000 mod 60, Z.abs ms mod 1000).
Proof.
  intros Hms. unfold time_to_hms. cbv zeta.
  assert (Hv : Z.lxor (- Z.shiftr (u32 ms) 31) ms - (- Z.shiftr (u32 ms) 31) = Z.abs ms).
  { rewrite Z.shiftr_div_pow2 by lia. destruct (Z.leb_spec 0 ms).
    - rewrite wrap_id by (unfold in_u; lia). rewrite Z.div_small by lia. cbn [Z.opp]. rewrite Z.lxor_0_l. lia.
    - assert (u32 ms / 2 ^ 31 = 1) as ->.
      { unfold wrap. rewrite <- (Z.mod_unique ms (2 ^ 32) (-1) (ms + 2 ^ 32)) by lia. symmetry. apply (Z.div_unique _ _ _ (ms + 2 ^ 31)); lia. }
      rewrite Z.lxor_m1_l. unfold Z.lnot. lia. }
  rewrite Hv, in32_Some by lia. cbn [mbind option_bind]. by rewrite secs_parts, Z.rem_mod_nonneg by lia.
Qed.

Lemma ts_to_parts_ok ns t : valid_date t → day_of t = ns / NSECS_IN_DAY → - 2 ^ 63 ≤ ns < 2 ^ 63 →
  let span := ns mod NSECS_IN_DAY in
  ts_to_parts ns = Some (t, (span / 3600000000000, span / 60000000000 mod 60, span / 1000000000 mod 60, span mod 1000000000)).
Proof.
  intros Hv Hd Hns span. unfold ts_to_parts.
  assert (Hfl : (if Z.rem ns NSECS_IN_DAY <? 0 then (Z.quot ns NSECS_IN_DAY - 1, Z.rem ns NSECS_IN_DAY + NSECS_IN_DAY)
                 else (Z.quot ns NSECS_IN_DAY, Z.rem ns NSECS_IN_DAY)) = (ns / NSECS_IN_DAY, span)).
  { apply floor_split. unfold NSECS_IN_DAY. lia. }
  cbv zeta. rewrite Hfl. assert (Hb : -106752 ≤ ns / NSECS_IN_DAY ≤ 106752)
    by (unfold NSECS_IN_DAY; change (24 * 60 * 60 * 1000000000) with 86400000000000; divs).
  rewrite swrap_id by (unfold in_s; lia).
  destruct (date_to_ymd_ok (ns / NSECS_IN_DAY)) as (t' & -> & Hv' & Hd'); [unfold calendar_day; lia|].
  assert (t' = t) as -> by (apply day_of_inj; [done..|congruence]). cbn [mbind option_bind].
  assert (0 ≤ span < 86400000000000) by (unfold span, NSECS_IN_DAY; apply Z.mod_pos_bound; lia).
  by rewrite secs_parts, Z.rem_mod_nonneg by lia.
Qed.

Lemma or_null_not t v text : sentinel_is_null t v = false → or_null t v text = text.
Proof. unfold or_null. by intros ->. Qed.

(** A printed text that reads back as [l] before any delimiter *)
Definition prints_back (l : literal) (r : option (list Z)) : Prop :=
  ∃ text, r = Some text ∧
    ∀ src start c, 0 ≤ start → holds src start text → at_ src (start + zlen text) = Some c → delimiter c →
      parse_number src start = Some (Parsed l (start + zlen text)).

Lemma date_reads_back d : -730119 ≤ d ≤ 2921939 → prints_back (LitDate d) (or_null DATE d (fmt_date d)).
Proof.
  intros Hd. rewrite or_null_not by (cbn; unfold NULL_I32; lia). unfold fmt_date.
  destruct (date_to_ymd_ok d) as (((y & m) & dd) & -> & Hv & Hday); [unfold calendar_day; lia|]. cbn [mbind option_bind].
  destruct (ymd_bounds d y m dd Hv Hday Hd) as (By & Bm & Bd). rewrite print_ymd_ok by lia.
  eexists. split; [done|]. rewrite zlen_ymd. intros src start c H0 Hh Hc Hdel.
  rewrite (read_ymd src start y m dd [] c) by (try rewrite app_nil_r; done || lia).
  rewrite ymd_to_date_ok; [|lia|unfold year_start; divs|done]. rewrite Hday. cbn [mbind option_bind].
  by rewrite (delimiter_not c 68 Hdel eq_refl).
Qed.

Lemma time_reads_back ms : Z.abs ms < 360000000 → prints_back (LitTime ms) (or_null TIME ms (fmt_time ms)).
Proof.
  intros Hms. rewrite or_null_not by (cbn; unfold NULL_I32; lia). unfold fmt_time. rewrite time_to_hms_ok by lia. cbn [mbind option_bind].
  set (a := Z.abs ms) in *. assert (Bh : 0 ≤ a / 3600000 < 100) by divs.
  pose proof (Z.mod_pos_bound (a / 60000) 60 ltac:(lia)) as Bm. pose proof (Z.mod_pos_bound (a / 1000) 60 ltac:(lia)) as Bs.
  pose proof (Z.mod_pos_bound a 1000 ltac:(lia)) as Bms. rewrite print_hms_ok, (printf_width 3 3) by lia.
  eexists. split; [done|]. intros src start c H0 Hh Hc Hdel.
  rewrite (read_hms src start (ms <? 0) _ _ _ _ Hh) by lia.
  assert (Hlen : zlen ((if ms <? 0 then [45] else []) ++ hms (a / 3600000) (a / 60000 mod 60) (a / 1000 mod 60) ++ 46 :: fixed 3 (a mod 1000))
    = if ms <? 0 then 13 else 12) by (rewrite zlen_app, zlen_app, zlen_hms, zlen_cons, zlen_fixed; by destruct (ms <? 0)).
  rewrite Hlen. do 3 f_equal. assert (Ha : (a / 3600000 * 3600 + a / 60000 mod 60 * 60 + a / 1000 mod 60) * 1000 + a mod 1000 = a) by divs.
  rewrite Ha. unfold a. zbool; lia.
Qed.

Lemma timestamp_reads_back ns : - 106751 * NSECS_IN_DAY ≤ ns < 2 ^ 63 →
  prints_back (LitTimestamp ns) (or_null TIMESTAMP ns (fmt_timestamp ns)).
Proof.
  intros Hns. rewrite or_null_not by (cbn; unfold NULL_I64, NSECS_IN_DAY in *; lia). unfold fmt_timestamp.
  set (days := ns / NSECS_IN_DAY). set (span := ns mod NSECS_IN_DAY).
  assert (Hday : -106751 ≤ days ≤ 106751) by (unfold days, NSECS_IN_DAY in *; change (24 * 60 * 60 * 1000000000) with 86400000000000 in *; divs).
  assert (Hspan : 0 ≤ span < 86400000000000) by (apply Z.mod_pos_bound; unfold NSECS_IN_DAY; lia).
  destruct (date_to_ymd_ok days) as (((y & m) & d) & _ & Hv & Hd); [unfold calendar_day; lia|].
  rewrite (ts_to_parts_ok ns (y, m, d) Hv Hd) by (unfold NSECS_IN_DAY in Hns; lia). fold span. cbn [mbind option_bind].
  destruct (ymd_bounds days y m d Hv Hd ltac:(lia)) as (By & Bm & Bd). rewrite print_ymd_ok by lia.
  set (h := span / 3600000000000). set (mi := span / 60000000000 mod 60). set (s := span / 1000000000 mod 60). set (n := span mod 1000000000).
  assert (Bh : 0 ≤ h < 24) by (unfold h; divs). assert (Bmi : 0 ≤ mi < 60) by (apply Z.mod_pos_bound; lia).
  assert (Bs : 0 ≤ s < 60) by (apply Z.mod_pos_bound; lia). assert (Bn : 0 ≤ n < 10 ^ 9) by (apply Z.mod_pos_bound; lia).
  rewrite print_hms_ok, (printf_width 9 9) by lia. eexists. split; [done|]. intros src start c H0 Hh Hc Hdel.
  assert (Hlen : zlen (ymd_text y m d ++ 68 :: hms h mi s ++ 46 :: fixed 9 n) = 29)
    by (rewrite zlen_app, zlen_cons, zlen_app, zlen_cons, zlen_ymd, zlen_hms, zlen_fixed; done).
  rewrite Hlen in *. apply holds_app_inv in Hh as Hparts. destruct Hparts as [_ Hparts]. rewrite zlen_ymd in Hparts.
  rewrite (read_ymd src start y m d _ 68 Hh H0 (at_head _ _ _ _ Hparts)) by lia.
  apply holds_inv in Hparts as [_ Ht]. rewrite ymd_to_date_ok; [|lia|unfold year_start; divs|done]. rewrite Hd. cbn [mbind option_bind].
  change (68 =? 68) with true. cbv iota. replace (start + 10 + 1) with (start + 11) in Ht by lia.
  rewrite (parse_timestamp_ok src days (start + 11) h mi s n c Ht); [|rewrite <- Hc; f_equal; lia|by apply delimiter_not_digit|lia..].
  assert (Hin : instant days h mi s n = ns).
  { unfold instant. assert (Hs : (h * 3600 + mi * 60 + s) * 1000000000 + n = span) by (unfold h, mi, s, n; clear -Hspan; divs).
    rewrite Hs. unfold days, span. pose proof (Z.div_mod ns NSECS_IN_DAY ltac:(unfold NSECS_IN_DAY; lia)). lia. }
  rewrite Hin, in64_Some by (unfold NSECS_IN_DAY in Hns; lia). cbn [mbind option_bind]. do 2 f_equal. lia.
Qed.
