(* ===== verification/CalProps.v ===== *)
(** * What the calendar, the kernels and the literals guarantee *)

From S2P Require Import Prelude Rowsel Sort SortEnc NumParse NumParseProofs.
From S2P Require Import Cal CalProofs CalText CalTextProofs.
Local Open Scope Z_scope.

(** C24. From year 1 on the formatter's calendar, with its division of doubles,
    and the parser's are inverse to each other: every day has one date of the
    Gregorian calendar, and no other, which converts back to it. *)
Theorem calendar_roundtrip (days : Z) :
  calendar_day days →
  ∃ y m d, date_to_ymd days = Some (y, m, d) ∧ valid_date (y, m, d) ∧ ymd_to_date y m d = Some days ∧
    ∀ t, valid_date t → day_of t = days → t = (y, m, d).
Proof.
  intros Hc. destruct (date_to_ymd_ok days Hc) as (((y & m) & d) & Ht & Hv & Hd). exists y, m, d.
  split; [done|]. split; [done|]. pose proof (day_in_year y m d Hv) as Hy. rewrite Hd in Hy. unfold calendar_day in Hc. split.
  - rewrite <- Hd. apply ymd_to_date_ok; [|lia|done]. destruct (decide (1 ≤ y)); [done|].
    pose proof (year_start_mono y 1). change (year_start 1) with 0 in *. pose proof (year_start_next y).
    assert (y + 1 = 1 ∨ y + 1 < 1) as [He|He] by lia; [rewrite He in Hy; change (year_start 1) with 0 in Hy; lia|].
    pose proof (year_start_mono (y + 1) 1 He). change (year_start 1) with 0 in *. lia.
  - intros t Hvt Hdt. apply day_of_inj; [done..|congruence].
Qed.
Lemma calendar_roundtrip_witness :
  (∃ y m d, date_to_ymd 8825 = Some (y, m, d) ∧ valid_date (y, m, d) ∧ ymd_to_date y m d = Some 8825 ∧
    ∀ t, valid_date t → day_of t = 8825 → t = (y, m, d)) ∧ date_to_ymd 8825 = Some (2024, 2, 29).
Proof. split; [|by vm_compute]. apply (calendar_roundtrip 8825). unfold calendar_day. lia. Defined.

(** The two calendars agree: the year, month and day extracted from a date
    are those it prints with, from year 1 on and as long as the microseconds
    fit 64 bits. *)
Theorem extract_agrees_with_calendar (days : Z) :
  calendar_day days → Z.abs days ≤ 106751991 →
  ∃ y m d, date_to_ymd days = Some (y, m, d) ∧
    (us ← rte_to_us DATE days; rte_extract_one us F_YEAR) = Some y ∧
    (us ← rte_to_us DATE days; rte_extract_one us F_MONTH) = Some m ∧
    (us ← rte_to_us DATE days; rte_extract_one us F_DAY) = Some d.
Proof.
  intros Hc Hb. destruct (date_to_ymd_ok days Hc) as (((y & m) & d) & Ht & Hv & Hd). exists y, m, d. split; [done|].
  assert (Hus : rte_to_us DATE days = Some (days * RTE_USEC_PER_DAY)) by (apply in64_Some; usecs; lia).
  rewrite Hus. cbn [mbind option_bind].
  assert (Hday : day_of (y, m, d) = days * RTE_USEC_PER_DAY / RTE_USEC_PER_DAY) by (rewrite Z.div_mul; [done|usecs; lia]).
  split_and!; by rewrite (rte_extract_one_ok _ _ (y, m, d) Hv Hday).
Qed.
Lemma extract_agrees_with_calendar_witness :
  (∃ y m d, date_to_ymd (-1) = Some (y, m, d) ∧
    (us ← rte_to_us DATE (-1); rte_extract_one us F_YEAR) = Some y ∧
    (us ← rte_to_us DATE (-1); rte_extract_one us F_MONTH) = Some m ∧
    (us ← rte_to_us DATE (-1); rte_extract_one us F_DAY) = Some d) ∧ date_to_ymd (-1) = Some (1999, 12, 31).
Proof. split; [|by vm_compute]. apply (extract_agrees_with_calendar (-1)); [unfold calendar_day; lia|lia]. Defined.

(** C25. Extracting a field of a column in the graph executor, morsel by morsel,
    answers the same as the evaluator's function: a column of 64-bit integers
    with a cell for each cell, null where the input is, and otherwise the field
    of the Gregorian date and time of day. It fails only for want of memory and
    is undefined only where a cell overflows in microseconds. *)
Theorem extract_columns (H : Heap) (v : column) (f : field) :
  is_temporal (col_type v) = true → Forall (cell_ok (col_type v)) (cells v) →
  exec_extract v f = ray_temporal_extract v f ∧
  match exec_extract v f with
  | Some (inr out) => col_type out = I64 ∧
      cellwise v out (λ raw y, ∃ us t, rte_to_us (col_type v) raw = Some us ∧
        valid_date t ∧ day_of t = us / RTE_USEC_PER_DAY ∧ y = field_of us t f)
  | Some (inl e) => e = T_OOM ∧ alloc_ok (8 * zlen (cells v)) = false
  | None => ∃ raw, raw ∈ cells v ∧ cell_is_null v raw = false ∧ rte_to_us (col_type v) raw = None
  end.
Proof.
  intros Ht Hcells. rewrite Forall_forall in Hcells.
  assert (Hm : exec_extract v f = ray_temporal_extract v f).
  { rewrite exec_extract_ok, (ray_temporal_extract_ok v f Ht). f_equal. apply mapped_ext. intros x Hx _.
    by rewrite (exec_to_us_ok _ _ Ht (Hcells x Hx)). }
  split; [done|]. rewrite Hm, (ray_temporal_extract_ok v f Ht). unfold answer. destruct (alloc_ok _); [|done].
  pose proof (mapped_cellwise v (λ raw, us ← rte_to_us (col_type v) raw; rte_extract_one us f) I64) as Hw.
  destruct (mapped _ _ _) as [out|]; cbn [mbind option_bind].
  - destruct Hw as (Hty & Hl & Hn & Hc). split; [done|]. split; [done|]. split; [done|]. intros i x Hi. destruct (Hc i x Hi) as (y & Hy & Hxy).
    exists y. split; [done|]. destruct (cell_is_null v x); [done|]. destruct (rte_to_us (col_type v) x) as [us|]; [|done].
    destruct (date_at us) as (t & Hv & Hd). exists us, t. cbn [mbind option_bind] in Hxy. rewrite (rte_extract_one_ok us f t Hv Hd) in Hxy.
    by injection Hxy as <-.
  - destruct Hw as (x & Hx & Hnull & Hfn). exists x. split; [done|]. split; [done|].
    destruct (rte_to_us (col_type v) x) as [us|]; [|done]. cbn [mbind option_bind] in Hfn.
    destruct (date_at us) as (t & Hv & Hd). by rewrite (rte_extract_one_ok us f t Hv Hd) in Hfn.
Qed.

(** Memory enough, with a pattern in it. *)
Module CalBench.
#[global] Instance memory : Heap := {| alloc_ok _ := true; alloc_junk i := 3 * i + 1 |}.
Definition days : column := Column DATE true [0; 59; NULL_I32; -1; 8825].
Definition stamps : column := Column TIMESTAMP true [NULL_I64; -1; 86400000000000; 763000000000000000].
End CalBench.

Lemma extract_columns_witness :
  (exec_extract CalBench.days F_DOY = ray_temporal_extract CalBench.days F_DOY ∧
   match exec_extract CalBench.days F_DOY with
   | Some (inr out) => col_type out = I64 ∧
       cellwise CalBench.days out (λ raw y, ∃ us t, rte_to_us DATE raw = Some us ∧
         valid_date t ∧ day_of t = us / RTE_USEC_PER_DAY ∧ y = field_of us t F_DOY)
   | Some (inl e) => e = T_OOM ∧ alloc_ok (8 * zlen (cells CalBench.days)) = false
   | None => ∃ raw, raw ∈ cells CalBench.days ∧ cell_is_null CalBench.days raw = false ∧ rte_to_us DATE raw = None
   end) ∧
  exec_extract CalBench.days F_DOY = Some (inr (Column I64 true [1; 60; NULL_I64; 365; 60])).
Proof.
  split; [|by vm_compute]. apply (extract_columns _ CalBench.days F_DOY); [done|].
  apply Forall_forall. intros x Hx. cbn in Hx. unfold cell_ok, in_s, NULL_I32 in *. cbn. set_unfold. lia.
Defined.

(** C26. Truncating a column gives timestamps, null where the input is, and
    otherwise the nanosecond at which the second, minute, hour, day, month or
    year around the cell starts. It is undefined only where a cell overflows in
    microseconds or the start in nanoseconds. *)
Theorem date_trunc_columns (H : Heap) (v : column) (f : field) :
  is_temporal (col_type v) = true → Forall (cell_ok (col_type v)) (cells v) →
  match exec_date_trunc v f with
  | Some (inr out) => col_type out = TIMESTAMP ∧
      cellwise v out (λ raw y, ∃ us t, rte_to_us (col_type v) raw = Some us ∧
        valid_date t ∧ day_of t = us / RTE_USEC_PER_DAY ∧ y = 1000 * unit_start f us t)
  | Some (inl e) => e = T_OOM ∧ alloc_ok (8 * zlen (cells v)) = false
  | None => ∃ raw, raw ∈ cells v ∧ cell_is_null v raw = false ∧
      ∀ us t, rte_to_us (col_type v) raw = Some us → valid_date t → day_of t = us / RTE_USEC_PER_DAY →
        ¬ in_s 64 (1000 * unit_start f us t)
  end.
Proof.
  intros Ht Hcells. rewrite Forall_forall in Hcells. rewrite exec_date_trunc_ok. unfold answer. destruct (alloc_ok _); [|done].
  set (fn := λ raw, us ← exec_to_us (col_type v) raw; us ← date_trunc_us f us; in64 (us * 1000)).
  assert (Hfn : ∀ raw us t, rte_to_us (col_type v) raw = Some us → cell_ok (col_type v) raw → valid_date t → day_of t = us / RTE_USEC_PER_DAY →
    fn raw = in64 (1000 * unit_start f us t)).
  { intros raw us t Hus Hraw Hv Hd. unfold fn. rewrite exec_to_us_ok, Hus by done. cbn [mbind option_bind].
    rewrite (date_trunc_us_ok f us t Hv Hd) by (apply (exec_us_range (col_type v) raw); by rewrite exec_to_us_ok).
    rewrite (Z.mul_comm 1000). destruct (in64 (unit_start f us t)) as [u|] eqn:E; cbn [mbind option_bind].
    - by apply in64_inv in E as [-> _].
    - symmetry. apply in64_out in E. apply in64_out. unfold in_s in *. lia. }
  pose proof (mapped_cellwise v fn TIMESTAMP) as Hw. destruct (mapped v fn TIMESTAMP) as [out|]; cbn [mbind option_bind].
  - destruct Hw as (Hty & Hl & Hn & Hc). split; [done|]. split; [done|]. split; [done|]. intros i x Hi. destruct (Hc i x Hi) as (y & Hy & Hxy).
    exists y. split; [done|]. destruct (cell_is_null v x); [done|]. pose proof (Hcells x (zget_elem _ _ _ Hi)) as Hx.
    destruct (rte_to_us (col_type v) x) as [us|] eqn:Hus.
    + destruct (date_at us) as (t & Hv & Hd). exists us, t. rewrite (Hfn x us t Hus Hx Hv Hd) in Hxy. by apply in64_inv in Hxy as [-> _].
    + unfold fn in Hxy. by rewrite exec_to_us_ok, Hus in Hxy.
  - destruct Hw as (x & Hx & Hnull & Hnone). exists x. split; [done|]. split; [done|]. intros us t Hus Hv Hd Hin.
    rewrite (Hfn x us t Hus (Hcells x Hx) Hv Hd), in64_Some in Hnone by exact Hin. done.
Qed.
Lemma date_trunc_columns_witness :
  (match exec_date_trunc CalBench.stamps F_MONTH with
   | Some (inr out) => col_type out = TIMESTAMP ∧
       cellwise CalBench.stamps out (λ raw y, ∃ us t, rte_to_us TIMESTAMP raw = Some us ∧
         valid_date t ∧ day_of t = us / RTE_USEC_PER_DAY ∧ y = 1000 * unit_start F_MONTH us t)
   | Some (inl e) => e = T_OOM ∧ alloc_ok (8 * zlen (cells CalBench.stamps)) = false
   | None => ∃ raw, raw ∈ cells CalBench.stamps ∧ cell_is_null CalBench.stamps raw = false ∧
       ∀ us t, rte_to_us TIMESTAMP raw = Some us → valid_date t → day_of t = us / RTE_USEC_PER_DAY →
         ¬ in_s 64 (1000 * unit_start F_MONTH us t)
   end) ∧
  exec_date_trunc CalBench.stamps F_MONTH = Some (inr (Column TIMESTAMP true [NULL_I64; -2678400000000000; 0; 762566400000000000])).
Proof.
  split; [|by vm_compute]. apply (date_trunc_columns _ CalBench.stamps F_MONTH); [done|].
  apply Forall_forall. intros x Hx. cbn in Hx. unfold cell_ok, in_s, NULL_I64 in *. cbn. set_unfold. lia.
Defined.


(** A timestamp literal of the last day that timestamps reach overflows
    when its time of day lies beyond the last nanosecond: the parser tests the
    day only. *)
Theorem timestamp_literal_overflow (src : list Z) (start h mi s ns c : Z) :
  0 ≤ start → holds src start (ymd_text 2292 4 10 ++ 68 :: hms h mi s ++ 46 :: fixed 9 ns) →
  at_ src (start + 29) = Some c → is_digit c = false →
  0 ≤ h < 24 → 0 ≤ mi < 60 → 0 ≤ s < 60 → 0 ≤ ns < 10 ^ 9 → 2 ^ 63 ≤ instant 106751 h mi s ns →
  parse_number src start = None.
Proof.
  intros H0 Hh Hc Hd Bh Bm Bs Bn Hover. apply holds_app_inv in Hh as Hparts. destruct Hparts as [_ Hparts]. rewrite zlen_ymd in Hparts.
  rewrite (read_ymd src start 2292 4 10 (68 :: hms h mi s ++ 46 :: fixed 9 ns) 68 Hh H0 (at_head _ _ _ _ Hparts)) by lia.
  apply holds_inv in Hparts as [_ Ht]. change (ymd_to_date 2292 4 10) with (Some 106751). cbn [mbind option_bind]. change (68 =? 68) with true. cbv iota.
  replace (start + 10 + 1) with (start + 11) in Ht by lia.
  rewrite (parse_timestamp_ok src 106751 (start + 11) h mi s ns c Ht); [|rewrite <- Hc; f_equal; lia|done|lia..].
  rewrite (proj2 (in64_out _)); [done|unfold in_s; lia].
Qed.
(** 2292.04.10D23:59:59.000000000 *)
Lemma timestamp_literal_overflow_witness :
  parse_number (ymd_text 2292 4 10 ++ 68 :: hms 23 59 59 ++ 46 :: fixed 9 0) 0 = None.
Proof. apply (timestamp_literal_overflow _ 0 23 59 59 0 0); [lia|by intros j Hj|by vm_compute|done|lia|lia|lia|lia|by vm_compute]. Defined.
