(* ===== verification/Join.v ===== *)
(** * Hash joins ([src/src/ops/join.c])

    The index phase of [exec_join_flat] and [exec_antijoin_flat]: which row of
    the left table meets which row of the right one. Small right sides are
    chained in a hash table built with compare-and-swap; large ones are cut by
    the high bits of their hashes, and every partition builds and probes an
    open-addressing table of its own.

    - Key columns are the columns of [Sort], symbol columns over a dictionary,
      and strings, which the code declines; [None] is a key that names no
      column. Reads at a width that is not the column's are reads of its bytes.
    - The interleaved array of hashes and rows of the open-addressing table is
      one array of pairs, since both halves are accessed together.
    - Which requests for memory are served, what fresh memory holds, when the
      user cancels and the test knobs are the class [JoinEnv]. The two tables'
      tasks run in the order the pool's dispatcher gives; the step relation
      [build_step] is the building of the chained table with all interleavings. *)

From S2P Require Import Prelude Pool Rowsel Hash Sort.
Local Open Scope Z_scope.

(** ** Keys *)

(** The domain of a symbol column: the global one, or a file's, with the table
    that translates its identifiers to global ones once it has been built. *)
Inductive domain := Runtime | File (id : Z) (lut : option (list Z)).
Inductive key_vec := KNum (c : column) | KSym (d : domain) (width : nat) (ids : list Z) | KStr.

Definition same_domain (d e : domain) : bool :=
  match d, e with Runtime, Runtime => true | File i _, File j _ => i =? j | _, _ => false end.

Definition sym_id_runtime (d : domain) (id : Z) : Z :=
  match d with
  | Runtime => id
  | File _ None => -1
  | File _ (Some lut) => if (id <? 0) || (zlen lut <=? id) then -1 else default (-1) lut.[id]
  end.

(** The bytes of a column. *)
Definition esz (t : sort_type) : nat := Z.to_nat (radix_key_bytes t).
Definition mem (v : key_vec) : list Z :=
  match v with
  | KNum c => mjoin (map (le_enc (esz (col_type c))) (cells c))
  | KSym _ w ids => mjoin (map (le_enc w) ids)
  | KStr => []
  end.
(** [((int64_t* )ray_data(v))[row]], as the bits of a [double] too *)
Definition raw64 (v : key_vec) (row : Z) : option Z := rd_at 8 (mem v) (8 * row).

(** Types that are not integers are read as bytes. *)
Definition read_col_i64 (v : key_vec) (row : Z) : option Z :=
  match v with
  | KNum c => match col_type c with F64 | F32 => rd_at 1 (mem v) row | _ => (cells c).[row] end
  | KSym _ _ ids => ids.[row]
  | KStr => None
  end.
Definition key_is_null (v : key_vec) (row : Z) : bool :=
  match v with KNum c => ray_vec_is_null c row | _ => false end.
Definition is_f64 (v : key_vec) : bool :=
  match v with KNum c => match col_type c with F64 => true | _ => false end | _ => false end.
Definition is_i64 (v : key_vec) : bool :=
  match v with KNum c => match col_type c with I64 => true | _ => false end | _ => false end.
Definition is_str (v : option key_vec) : bool := match v with Some KStr => true | _ => false end.

Definition hash_cell (v : key_vec) (row : Z) : option Z :=
  if is_f64 v then ray_hash_f64 <$> raw64 v row
  else
    kv ← read_col_i64 v row;
    Some (ray_hash_i64 (match v with KSym d _ _ => sym_id_runtime d kv | _ => kv end)).

Fixpoint hash_keys_from (first : bool) (vs : list (option key_vec)) (row h : Z) : option Z :=
  match vs with
  | [] => Some h
  | None :: vs => hash_keys_from false vs row h
  | Some v :: vs =>
      if key_is_null v row then Some (Z.lxor h (u64 (row * 0x9E3779B97F4A7C15)))
      else
        kh ← hash_cell v row;
        hash_keys_from false vs row (if first then kh else ray_hash_combine h kh)
  end.
Definition hash_row_keys (vs : list (option key_vec)) (row : Z) : option Z := hash_keys_from true vs row 0.

(** [x == y] of two [double]s *)
Definition f64_eqb (x y : Z) : bool :=
  negb (f64_is_nan x) && negb (f64_is_nan y) && (f64_ord x =? f64_ord y).

Definition key_eq (lc rc : key_vec) (l r : Z) : option bool :=
  if key_is_null lc l || key_is_null rc r then Some false
  else if is_f64 lc then x ← raw64 lc l; y ← raw64 rc r; Some (f64_eqb x y)
  else
    lv ← read_col_i64 lc l; rv ← read_col_i64 rc r;
    match lc, rc with
    | KSym d _ _, KSym e _ _ =>
        if same_domain d e then Some (lv =? rv) else Some (sym_id_runtime d lv =? sym_id_runtime e rv)
    | _, _ => Some (lv =? rv)
    end.

(** Both sides have the same number of keys. *)
Fixpoint join_keys_eq (lvs rvs : list (option key_vec)) (l r : Z) : option bool :=
  match lvs, rvs with
  | Some lc :: lvs, Some rc :: rvs =>
      eq ← key_eq lc rc l r;
      if eq : bool then join_keys_eq lvs rvs l r else Some false
  | _ :: _, _ :: _ => Some false
  | _, _ => Some true
  end.

(** [false] when the table of a file's domain could not be built. *)
Definition lut_ready (v : option key_vec) : bool :=
  match v with Some (KSym (File _ None) _ _) => false | _ => true end.
Definition join_warm_sym_luts (lvs rvs : list (option key_vec)) : bool :=
  forallb lut_ready lvs && forallb lut_ready rvs.

(** ** Memory, cancellation, knobs *)
Inductive request :=
| R_key_vecs | R_build_hash | R_probe_hash
| R_parts (probe : bool) | R_hist (probe : bool) | R_entries (probe : bool) (p : Z) (again : bool)
| R_offsets (probe : bool) | R_wcb_cnt (probe : bool) (task : Z) | R_wcb (probe : bool) (task : Z)
| R_matched | R_part_counts | R_pp_meta
| R_pp_l (p : Z) | R_pp_r (p : Z) | R_grow_l (p cap : Z) | R_grow_r (p cap : Z) | R_ht (p : Z)
| R_l_idx | R_r_idx | R_ht_next | R_ht_heads | R_asp_sel | R_sjoin_sel | R_counts
| R_matched_chained | R_l_idx_chained | R_r_idx_chained | R_new_l | R_new_r
| R_anti_keys | R_anti_next | R_anti_heads | R_anti_out.
Inductive checkpoint := C_hashed | C_partitioned | C_probed | C_built | C_filled | C_anti_built | C_anti_row (l : Z).
Class JoinEnv := {
  served : request → Z → bool;
  junk : Z → Z;
  cancelled_at : checkpoint → bool;
  ray_join_no_build_swap : bool;
  ray_join_force_dup_fallback : bool;
  ray_join_no_dup_fallback : bool;
}.

(** An entry of a partition: a row and its hash. *)
Abbreviation entry := (Z * Z)%type.

Section join.
Context `{Dispatcher} `{Workers} `{JoinEnv}.

Definition fresh_mem (n : Z) : list Z := map junk (range 0 n).
Definition alloc (s : request) (size n : Z) : option (list Z) :=
  if served s (size * n) then Some (fresh_mem n) else None.
Definition calloc (s : request) (size n : Z) : option (list Z) :=
  if served s (size * n) then Some (replicate (Z.to_nat n) 0) else None.

(** ** Filters by key: a bitmap of the keys one side has *)
Definition bit_test (bits : list Z) (k : Z) : option bool :=
  w ← bits.[Z.shiftr k 6]; Some (Z.testbit w (Z.land k 63)).
Definition bit_set (bits : list Z) (k : Z) : option (list Z) :=
  w ← bits.[Z.shiftr k 6]; zset bits (Z.shiftr k 6) (Z.lor w (Z.shiftl 1 (Z.land k 63))).
Record key_filter := KeyFilter { kf_bits : list Z; kf_max : Z }.

(** Is the row passed over? The column is read as 64-bit integers; it is not
    tested that there is one. *)
Definition filtered (f : option key_filter) (vs : list (option key_vec)) (row : Z) : option bool :=
  match f, vs with
  | Some f, [v] =>
      v ← v; k ← raw64 v row;
      let k := s64 k in
      if (0 <=? k) && (k <=? kf_max f) then t ← bit_test (kf_bits f) k; Some (negb t) else Some false
  | _, _ => Some false
  end.

Definition sel_data_size (nrows : Z) : Z :=
  let n_segs := (nrows + RAY_MORSEL_ELEMS - 1) / RAY_MORSEL_ELEMS in
  16 + pad8 n_segs + pad8 (n_segs * 2) + (nrows + 63) / 64 * 8.
Definition key_max (v : key_vec) (n : Z) : option Z :=
  foldM (λ i m, k ← raw64 v i; Some (if m <? s64 k then s64 k else m)) (range 0 n) 0.
(** The keys of a column; inner [None] is no filter. *)
Definition make_filter (s : request) (v : key_vec) (n : Z) : option (option key_filter) :=
  m ← key_max v n;
  if negb (m <? Z.shiftl 1 24) then Some None
  else if negb (served s (sel_data_size (m + 1))) then Some None
  else
    bits ← foldM (λ i bits, k ← raw64 v i; let k := s64 k in
                    if (0 <=? k) && (k <=? m) then bit_set bits k else Some bits)
             (range 0 n) (replicate (Z.to_nat ((m + 1 + 63) / 64)) 0);
    Some (Some (KeyFilter bits m)).

(** ** The chained table *)
Definition JHT_EMPTY : Z := 2 ^ 32 - 1.
Definition JOIN_MORSEL : Z := 8192.
Definition INT32_MAX : Z := 2 ^ 31 - 1.

Record chained := Chained { ht_heads : list Z; ht_next : list Z }.

Definition chain_slot (vs : list (option key_vec)) (mask row : Z) : option Z :=
  h ← hash_row_keys vs row; Some (Z.land h mask).

(** One row: skipped, or pushed at the head of its chain. Without other
    threads the compare-and-swap succeeds. *)
Definition build_row (asp : option key_filter) (rvs : list (option key_vec)) (mask r : Z) (t : chained) :
    option chained :=
  skip ← filtered asp rvs r;
  if skip : bool then next ← zset (ht_next t) r JHT_EMPTY; Some (Chained (ht_heads t) next)
  else
    slot ← chain_slot rvs mask r;
    old ← (ht_heads t).[slot];
    next ← zset (ht_next t) r old;
    heads ← zset (ht_heads t) slot r;
    Some (Chained heads next).
Definition join_build_fn (asp : option key_filter) (rvs : list (option key_vec)) (mask wid start end_ : Z)
    (t : chained) : option chained :=
  foldM (build_row asp rvs mask) (range start end_) t.

(** *** The same with other threads

    A worker's rows, and where it is with one of them: before the load of the
    head, before the write of the link, before the compare-and-swap. *)
Inductive builder :=
| Todo (rows : list Z)
| Loaded (r slot old : Z) (rows : list Z)
| Linked (r slot old : Z) (rows : list Z).
Record build_state := BuildState { bs_table : chained; bs_builders : list builder }.

Inductive build_step (asp : option key_filter) (rvs : list (option key_vec)) (mask : Z) :
    build_state → build_state → Prop :=
| bs_skip heads next next' bs w r rows :
    bs !! w = Some (Todo (r :: rows)) → filtered asp rvs r = Some true → zset next r JHT_EMPTY = Some next' →
    build_step asp rvs mask (BuildState (Chained heads next) bs)
      (BuildState (Chained heads next') (<[w := Todo rows]> bs))
| bs_load heads next bs w r slot old rows :
    bs !! w = Some (Todo (r :: rows)) → filtered asp rvs r = Some false → chain_slot rvs mask r = Some slot →
    heads.[slot] = Some old →
    build_step asp rvs mask (BuildState (Chained heads next) bs)
      (BuildState (Chained heads next) (<[w := Loaded r slot old rows]> bs))
| bs_link heads next next' bs w r slot old rows :
    bs !! w = Some (Loaded r slot old rows) → zset next r old = Some next' →
    build_step asp rvs mask (BuildState (Chained heads next) bs)
      (BuildState (Chained heads next') (<[w := Linked r slot old rows]> bs))
| bs_swap heads heads' next bs w r slot old rows :
    bs !! w = Some (Linked r slot old rows) → heads.[slot] = Some old → zset heads slot r = Some heads' →
    build_step asp rvs mask (BuildState (Chained heads next) bs)
      (BuildState (Chained heads' next) (<[w := Todo rows]> bs))
(** A weak compare-and-swap may also fail for no reason. *)
| bs_retry heads next bs w r slot old cur rows :
    bs !! w = Some (Linked r slot old rows) → heads.[slot] = Some cur →
    build_step asp rvs mask (BuildState (Chained heads next) bs)
      (BuildState (Chained heads next) (<[w := Loaded r slot cur rows]> bs)).

(** *** Probing *)
Fixpoint walk {S} (fuel : nat) (next : list Z) (r : Z) (f : Z → S → option S) (s : S) : option S :=
  if r =? JHT_EMPTY then Some s
  else match fuel with O => None | S fuel => s ← f r s; r ← next.[r]; walk fuel next r f s end.

(** What is written: pairs of rows, and which right rows were met. *)
Record out := Out { o_l : list Z; o_r : list Z; o_matched : option (list Z) }.
Definition mark (r : Z) (m : option (list Z)) : option (option (list Z)) :=
  match m with None => Some None | Some m => m ← zset m r 1; Some (Some m) end.
Definition emit (l r : Z) (st : out * Z) : option (out * Z) :=
  let '(Out li ri m, off) := st in
  li ← zset li off l; ri ← zset ri off r; Some (Out li ri m, off + 1).

Section probe.
Context (t : chained) (ht_cap : Z) (lvs rvs : list (option key_vec)) (join_type left_rows : Z)
  (sjoin : option key_filter).

Definition count_match (l r : Z) (st : Z * bool) : option (Z * bool) :=
  eq ← join_keys_eq lvs rvs l r; Some (if eq : bool then (fst st + 1, true) else st).
Definition count_row (l count : Z) : option Z :=
  skip ← filtered sjoin lvs l;
  if skip : bool then Some (if 1 <=? join_type then count + 1 else count)
  else
    slot ← chain_slot lvs (ht_cap - 1) l;
    r ← (ht_heads t).[slot];
    '(count, matched) ← walk (length (ht_next t)) (ht_next t) r (count_match l) (count, false);
    Some (if negb matched && (1 <=? join_type) then count + 1 else count).

Definition morsel (tid : Z) : list Z :=
  let row_start := tid * JOIN_MORSEL in
  let row_end := row_start + JOIN_MORSEL in
  range row_start (if left_rows <? row_end then left_rows else row_end).
Definition join_count_fn (tid _end : Z) (counts : list Z) : option (list Z) :=
  count ← foldM count_row (morsel tid) 0; zset counts tid count.

Definition fill_match (l r : Z) (st : out * Z * bool) : option (out * Z * bool) :=
  eq ← join_keys_eq lvs rvs l r;
  if eq : bool then
    '(o, off) ← emit l r (fst st);
    m ← mark r (o_matched o);
    Some (Out (o_l o) (o_r o) m, off, true)
  else Some st.
Definition fill_row (l : Z) (st : out * Z) : option (out * Z) :=
  skip ← filtered sjoin lvs l;
  if skip : bool then (if 1 <=? join_type then emit l (-1) st else Some st)
  else
    slot ← chain_slot lvs (ht_cap - 1) l;
    r ← (ht_heads t).[slot];
    '(st, matched) ← walk (length (ht_next t)) (ht_next t) r (fill_match l) (st, false);
    if negb matched && (1 <=? join_type) then emit l (-1) st else Some st.
Definition join_fill_fn (offsets : list Z) (tid _end : Z) (o : out) : option out :=
  off ← offsets.[tid];
  '(o, _) ← foldM fill_row (morsel tid) (o, off);
  Some o.
End probe.

(** A dispatch of numbered tasks when there is a pool and more than one. *)
Definition run_tasks {S} (n : Z) (fn : Z → Z → S → option S) (s : S) : option S :=
  if ray_pool_get && (1 <? n) then ray_pool_dispatch_n fn n s
  else foldM (λ t, fn t (t + 1)) (range 0 n) s.

(** *** The chained path *)
Inductive join_err := JOIN_NYI | JOIN_OOM | JOIN_CANCEL | JOIN_NULL.
Record index := Index { l_idx : list Z; r_idx : list Z; pair_count : Z; full_right_only_start : Z }.

(** [while (ht_cap64 < target) ht_cap64 *= 2;] *)
Fixpoint grow_to (fuel : nat) (cap target : Z) : Z :=
  match fuel with O => cap | S fuel => if cap <? target then grow_to fuel (cap * 2) target else cap end.
Definition chained_cap (right_rows : Z) : Z :=
  let cap := grow_to 56 256 (right_rows * 2) in
  if 2 ^ 32 - 1 <? cap then Z.shiftl 1 31 else cap.

Definition prefix_offsets (n_tasks : Z) (counts : list Z) : option (list Z * Z) :=
  foldM (λ t '(counts, total), cnt ← counts.[t]; counts ← zset counts t total; Some (counts, total + cnt))
    (range 0 n_tasks) (counts, 0).

(** The right rows never met, for a full join. *)
Definition unmatched_count (matched : list Z) (right_rows : Z) : option Z :=
  foldM (λ r n, m ← matched.[r]; Some (if m =? 0 then n + 1 else n)) (range 0 right_rows) 0.
Definition append_unmatched (matched : list Z) (right_rows off : Z) (li ri : list Z) : option (list Z * list Z) :=
  '(o, _) ← foldM (λ r st, m ← matched.[r]; if m =? 0 then emit (-1) r st else Some st)
    (range 0 right_rows) (Out li ri None, off);
  Some (o_l o, o_r o).
Definition copy_prefix (src : list Z) (n : Z) (dst : list Z) : option (list Z) :=
  foldM (λ j dst, x ← src.[j]; zset dst j x) (range 0 n) dst.

Definition add_right_only (o : out) (join_type right_rows pairs : Z) : option (join_err + index) :=
  match o_matched o with
  | Some matched =>
      if negb (join_type =? 2) then Some (inr (Index (o_l o) (o_r o) pairs (-1))) else
      unmatched ← unmatched_count matched right_rows;
      if unmatched <=? 0 then Some (inr (Index (o_l o) (o_r o) pairs (-1))) else
      let total := pairs + unmatched in
      match alloc R_new_l 8 total, alloc R_new_r 8 total with
      | Some new_l, Some new_r =>
          new_l ← (if 0 <? pairs then copy_prefix (o_l o) pairs new_l else Some new_l);
          new_r ← (if 0 <? pairs then copy_prefix (o_r o) pairs new_r else Some new_r);
          '(li, ri) ← append_unmatched matched right_rows pairs new_l new_r;
          Some (inr (Index li ri total pairs))
      | _, _ => Some (inl JOIN_NULL)
      end
  | None => Some (inr (Index (o_l o) (o_r o) pairs (-1)))
  end.

(** [factorized]: the left table has a column named [_count]. *)
Definition asp_filter (factorized : bool) (join_type : Z) (lvs : list (option key_vec)) (left_rows right_rows : Z) :
    option (option key_filter) :=
  match lvs with
  | [Some v] =>
      if (join_type =? 0) && is_i64 v && (left_rows * 2 <? right_rows) && factorized
      then make_filter R_asp_sel v left_rows else Some None
  | _ => Some None
  end.
Definition sjoin_filter (join_type : Z) (lvs rvs : list (option key_vec)) (left_rows right_rows : Z) :
    option (option key_filter) :=
  match lvs, rvs with
  | [Some l], [Some r] =>
      if (join_type =? 0) && is_i64 l && is_i64 r && (right_rows * 2 <? left_rows)
      then make_filter R_sjoin_sel r right_rows else Some None
  | _, _ => Some None
  end.

(** Counting, prefix sums, filling: from the table to the pairs. *)
Definition chained_probe (t : chained) (ht_cap join_type : Z) (lvs rvs : list (option key_vec)) (left_rows right_rows : Z) :
    option (join_err + index) :=
  sjoin ← sjoin_filter join_type lvs rvs left_rows right_rows;
  let n_tasks := u32 ((left_rows + JOIN_MORSEL - 1) / JOIN_MORSEL) in
  let n_tasks := if n_tasks =? 0 then 1 else n_tasks in
  match calloc R_counts 8 (n_tasks + 1) with
  | None => Some (inl JOIN_OOM)
  | Some counts =>
      let full := (join_type =? 2) && (0 <? right_rows) in
      let matched := if full then calloc R_matched_chained 1 right_rows else None in
      if full && negb (bool_decide (is_Some matched)) then Some (inl JOIN_NULL) else
      counts ← run_tasks n_tasks (join_count_fn t ht_cap lvs rvs join_type left_rows sjoin) counts;
      '(offsets, pairs) ← prefix_offsets n_tasks counts;
      match (if 0 <? pairs then alloc R_l_idx_chained 8 pairs else Some []),
            (if 0 <? pairs then alloc R_r_idx_chained 8 pairs else Some []) with
      | Some li, Some ri =>
          o ← (if 0 <? pairs
               then run_tasks n_tasks (join_fill_fn t ht_cap lvs rvs join_type left_rows sjoin offsets) (Out li ri matched)
               else Some (Out li ri matched));
          if cancelled_at C_filled then Some (inl JOIN_CANCEL)
          else add_right_only o join_type right_rows pairs
      | _, _ => Some (inl JOIN_NULL)
      end
  end.

Definition chained_build (asp : option key_filter) (rvs : list (option key_vec)) (ht_cap right_rows : Z)
    (heads next : list Z) : option chained :=
  par (ray_pool_get && (RAY_PARALLEL_THRESHOLD <? right_rows))
    (join_build_fn asp rvs (ht_cap - 1)) right_rows (Chained heads next).

Definition chained_join (factorized : bool) (join_type : Z) (lvs rvs : list (option key_vec)) (left_rows right_rows : Z) :
    option (join_err + index) :=
  let ht_cap := chained_cap right_rows in
  match alloc R_ht_next 4 right_rows, alloc R_ht_heads 4 ht_cap with
  | Some next, Some heads =>
      let heads := map (λ _, JHT_EMPTY) heads in
      asp ← asp_filter factorized join_type lvs left_rows right_rows;
      t ← chained_build asp rvs ht_cap right_rows heads next;
      if cancelled_at C_built then Some (inl JOIN_CANCEL)
      else chained_probe t ht_cap join_type lvs rvs left_rows right_rows
  | _, _ => Some (inl JOIN_OOM)
  end.

(** ** The radix path *)
Definition RAY_JOIN_L2_TARGET : Z := 256 * 1024.
Definition RAY_JOIN_MIN_RADIX : Z := 2.
Definition RAY_JOIN_MAX_RADIX : Z := 14.

(** [while (target < right_bytes && r < RAY_JOIN_MAX_RADIX)] *)
Fixpoint radix_bits_loop (fuel : nat) (target right_bytes r : Z) : Z :=
  match fuel with
  | O => r
  | S fuel =>
      if (target <? right_bytes) && (r <? RAY_JOIN_MAX_RADIX)
      then radix_bits_loop fuel (target * 2) right_bytes (r + 1) else r
  end.
Definition radix_join_bits (right_rows : Z) : Z :=
  let right_bytes := right_rows * 16 in
  if right_bytes <=? RAY_JOIN_L2_TARGET then RAY_JOIN_MIN_RADIX
  else
    let r := radix_bits_loop 14 RAY_JOIN_L2_TARGET right_bytes 0 in
    if r <? RAY_JOIN_MIN_RADIX then RAY_JOIN_MIN_RADIX else r.

Definition join_radix_hash_fn (vs : list (option key_vec)) (wid start end_ : Z) (hashes : list Z) : option (list Z) :=
  foldM (λ r hashes, h ← hash_row_keys vs r; zset hashes r (u32 h)) (range start end_) hashes.

Section partition.
Context (probe : bool) (hashes : list Z) (bits nrows : Z).
Let n_parts := Z.shiftl 1 bits.

Definition part_of (h : Z) : Z := Z.land (Z.shiftr h (32 - bits)) (n_parts - 1).

Section tasks.
Context (n_workers : Z).

Definition join_radix_hist_fn (tid _end : Z) (hist : list Z) : option (list Z) :=
  let '(start, end_) := task_chunk nrows n_workers tid in
  if nrows <=? start then Some hist else
  foldM (λ r hist, h ← hashes.[r];
           let j := tid * n_parts + part_of h in
           c ← hist.[j]; zset hist j (u32 (c + 1)))
    (range start end_) hist.

(** The scatter: how many entries wait in each write-combining buffer, the
    buffers, the write positions of all workers, and the partitions. *)
Definition WCB_SIZE : Z := 64.
Record wcb := Wcb { w_cnt : list Z; w_buf : list entry; w_off : list Z; w_parts : list (list entry) }.

(** [memcpy] of the first [n] entries of a partition's buffer *)
Definition copy_entries (buf : list entry) (p n pos : Z) (parts : list (list entry)) : option (list (list entry)) :=
  es ← parts.[p];
  es ← foldM (λ j es, e ← buf.[p * WCB_SIZE + j]; zset es (pos + j) e) (range 0 n) es;
  zset parts p es.

Definition wcb_row (tid r : Z) (s : wcb) : option wcb :=
  let '(Wcb cnt buf off parts) := s in
  h ← hashes.[r];
  let part := part_of h in
  idx ← cnt.[part];
  buf ← zset buf (part * WCB_SIZE + idx) (u32 r, h);
  let idx := idx + 1 in
  if idx =? WCB_SIZE then
    pos ← off.[tid * n_parts + part];
    parts ← copy_entries buf part WCB_SIZE pos parts;
    off ← zset off (tid * n_parts + part) (u32 (pos + WCB_SIZE));
    cnt ← zset cnt part 0;
    Some (Wcb cnt buf off parts)
  else cnt ← zset cnt part idx; Some (Wcb cnt buf off parts).
(** Flush remaining entries *)
Definition wcb_rest (tid p : Z) (s : wcb) : option wcb :=
  let '(Wcb cnt buf off parts) := s in
  n ← cnt.[p];
  if 0 <? n then
    pos ← off.[tid * n_parts + p];
    parts ← copy_entries buf p n pos parts;
    off ← zset off (tid * n_parts + p) (u32 (pos + n));
    Some (Wcb cnt buf off parts)
  else Some s.
(** Without buffers. *)
Definition direct_row (tid r : Z) (st : list Z * list (list entry)) : option (list Z * list (list entry)) :=
  let '(off, parts) := st in
  h ← hashes.[r];
  let part := part_of h in
  pos ← off.[tid * n_parts + part];
  off ← zset off (tid * n_parts + part) (u32 (pos + 1));
  es ← parts.[part]; es ← zset es pos (u32 r, h); parts ← zset parts part es;
  Some (off, parts).

Definition junk_entries (n : Z) : list entry := map (λ j, (junk (2 * j), junk (2 * j + 1))) (range 0 n).

(** The last component: did some worker run out of memory? *)
Definition join_radix_scatter_fn (tid _end : Z) (st : list Z * list (list entry) * bool) :
    option (list Z * list (list entry) * bool) :=
  let '(off, parts, had_error) := st in
  let '(start, end_) := task_chunk nrows n_workers tid in
  if nrows <=? start then Some st else
  if (1024 <? n_parts) && negb (served (R_wcb_cnt probe tid) (n_parts * 4)) then Some (off, parts, true)
  else if negb (served (R_wcb probe tid) (n_parts * WCB_SIZE * 8)) then
    '(off, parts) ← foldM (direct_row tid) (range start end_) (off, parts);
    Some (off, parts, had_error)
  else
    s ← foldM (wcb_row tid) (range start end_)
          (Wcb (replicate (Z.to_nat n_parts) 0) (junk_entries (n_parts * WCB_SIZE)) off parts);
    s ← foldM (wcb_rest tid) (range 0 n_parts) s;
    Some (w_off s, w_parts s, had_error).

Definition part_counts_of (hist : list Z) : option (list Z) :=
  mapM (λ p, foldM (λ w total, c ← hist.[w * n_parts + p]; Some (u32 (total + c))) (range 0 n_workers) 0)
    (range 0 n_parts).

(** A second attempt follows a garbage collection. *)
Definition alloc_part (pc : Z * Z) : option (list entry) :=
  let '(p, count) := pc in
  if count =? 0 then Some []
  else if served (R_entries probe p false) (count * 8) || served (R_entries probe p true) (count * 8)
  then Some (junk_entries count) else None.

Definition part_offsets (hist offsets : list Z) : option (list Z) :=
  foldM (λ p offsets,
           '(offsets, _) ← foldM (λ w '(offsets, running),
               offsets ← zset offsets (w * n_parts + p) running;
               c ← hist.[w * n_parts + p];
               Some (offsets, u32 (running + c))) (range 0 n_workers) (offsets, 0);
           Some offsets)
    (range 0 n_parts) offsets.
End tasks.

(** The numbered tasks of a partitioning: on the pool when the side is large. *)
Definition part_tasks {S} (fn : Z → Z → S → option S) (n_workers : Z) (s : S) : option S :=
  if ray_pool_get && (RAY_PARALLEL_THRESHOLD <? nrows) then ray_pool_dispatch_n fn n_workers s else fn 0 1 s.

(** Inner [None]: memory ran out. *)
Definition join_radix_partition : option (option (list (list entry))) :=
  if negb (served (R_parts probe) (n_parts * 24)) then Some None else
  let n_workers := if ray_pool_get && (RAY_PARALLEL_THRESHOLD <? nrows) then total_workers else 1 in
  match calloc (R_hist probe) 4 (n_workers * n_parts) with
  | None => Some None
  | Some hist =>
      hist ← part_tasks (join_radix_hist_fn n_workers) n_workers hist;
      counts ← part_counts_of n_workers hist;
      match mapM alloc_part (zip (range 0 n_parts) counts) with
      | None => Some None
      | Some parts =>
          match alloc (R_offsets probe) 4 (n_workers * n_parts) with
          | None => Some None
          | Some offsets =>
              offsets ← part_offsets n_workers hist offsets;
              '(_, parts, had_error) ← part_tasks (join_radix_scatter_fn n_workers) n_workers (offsets, parts, false);
              Some (if had_error : bool then None else Some parts)
          end
      end
  end.
End partition.

(** *** Building and probing a partition *)
Definition UINT32_MAX : Z := 2 ^ 32 - 1.
Definition RADIX_HT_EMPTY : Z := UINT32_MAX.
Definition RADIX_DUP_RUN_MAX : Z := 512.

(** A slot is a hash and a row. *)
Fixpoint oa_find (fuel : nat) (ht : list (Z * Z)) (mask slot h same : Z) : option (Z * Z) :=
  match fuel with
  | O => None
  | S fuel =>
      e ← ht.[slot];
      if snd e =? RADIX_HT_EMPTY then Some (slot, same)
      else oa_find fuel ht mask (Z.land (slot + 1) mask) h (if fst e =? h then same + 1 else same)
  end.
(** Inner [None]: one hash has too many rows. *)
Fixpoint oa_build (es : list entry) (ht : list (Z * Z)) (mask : Z) : option (option (list (Z * Z))) :=
  match es with
  | [] => Some (Some ht)
  | (row, h) :: es =>
      '(slot, same) ← oa_find (length ht) ht mask (Z.land h mask) h 0;
      if (RADIX_DUP_RUN_MAX <? same) && negb ray_join_no_dup_fallback then Some None
      else ht ← zset ht slot (h, row); oa_build es ht mask
  end.

(** The output of a partition: rows of the probing side and of the building
    side, as 32-bit integers. *)
Record pairs := Pairs { pl : list Z; pr : list Z; p_cap : Z; p_cnt : Z }.

(** Inner [None]: out of memory. *)
Definition bp_grow_bufs (p : Z) (b : pairs) : option (option pairs) :=
  let '(Pairs pl pr cap cnt) := b in
  if cnt <? cap then Some (Some b)
  else if UINT32_MAX / 2 <? cap then Some None
  else
    let new_cap := cap * 2 in
    match alloc (R_grow_l p cap) 4 new_cap, alloc (R_grow_r p cap) 4 new_cap with
    | Some nl, Some nr =>
        nl ← copy_prefix pl cnt nl; nr ← copy_prefix pr cnt nr;
        Some (Some (Pairs nl nr new_cap cnt))
    | _, _ => Some None
    end.
Definition push_pair (p l r : Z) (b : pairs) : option (option pairs) :=
  b ← bp_grow_bufs p b;
  match b with
  | None => Some None
  | Some (Pairs pl pr cap cnt) =>
      pl ← zset pl cnt (s32 l); pr ← zset pr cnt (s32 r);
      Some (Some (Pairs pl pr cap (u32 (cnt + 1))))
  end.

(** The pairs so far, the right rows met, and whether this row met one. *)
Abbreviation bp_state := (pairs * option (list Z) * bool)%type.

(** A probe of the table by one row; [eq] compares it with a row there. *)
Section oa_probe.
Context (eq : Z → option bool) (ht : list (Z * Z)) (mask p l h : Z).
Fixpoint oa_probe (fuel : nat) (slot : Z) (st : bp_state) : option (option bp_state) :=
  match fuel with
  | O => None
  | S fuel =>
      e ← ht.[slot];
      if snd e =? RADIX_HT_EMPTY then Some (Some st)
      else
        st ← (if fst e =? h then
                same ← eq (snd e);
                if same : bool then
                  let '(b, m, _) := st in
                  b ← push_pair p l (snd e) b;
                  match b with
                  | None => Some None
                  | Some b => m ← mark (snd e) m; Some (Some (b, m, true))
                  end
                else Some (Some st)
              else Some (Some st));
        match st with
        | None => Some None
        | Some st => oa_probe fuel (Z.land (slot + 1) mask) st
        end
  end.
End oa_probe.

Section build_probe.
Context (l_parts r_parts : list (list entry)) (lvs rvs : list (option key_vec)) (join_type : Z).

Definition oa_probe_row (ht : list (Z * Z)) (mask p : Z) (e : entry) (st : pairs * option (list Z)) :
    option (option (pairs * option (list Z))) :=
  let '(l, h) := e in
  st ← oa_probe (join_keys_eq lvs rvs l) ht mask p l h (length ht) (Z.land h mask) (st, false);
  match st with
  | None => Some None
  | Some (b, m, matched) =>
      if negb matched && (1 <=? join_type) then
        b ← push_pair p l (-1) b;
        match b with None => Some None | Some b => Some (Some (b, m)) end
      else Some (Some (b, m))
  end.
Fixpoint oa_probe_all (ht : list (Z * Z)) (mask p : Z) (es : list entry) (st : pairs * option (list Z)) :
    option (option (pairs * option (list Z))) :=
  match es with
  | [] => Some (Some st)
  | e :: es =>
      st ← oa_probe_row ht mask p e st;
      match st with None => Some None | Some st => oa_probe_all ht mask p es st end
  end.

(** [while (ht_cap < ht_target && ht_cap <= (UINT32_MAX >> 1)) ht_cap *= 2;] *)
Fixpoint oa_cap (fuel : nat) (cap target : Z) : Z :=
  match fuel with
  | O => cap
  | S fuel => if (cap <? target) && (cap <=? UINT32_MAX / 2) then oa_cap fuel (cap * 2) target else cap
  end.

(** The shared state: each partition's output when it has one, the right rows
    met, and the two flags. What a partition leaves behind when it sets a flag
    is only released. *)
Record bp := Bp { bp_out : list (option pairs); bp_matched : option (list Z); had_error : bool; pathological : bool }.
Definition fail_memory (s : bp) : option bp := Some (Bp (bp_out s) (bp_matched s) true (pathological s)).
Definition fail_duplicates (s : bp) : option bp := Some (Bp (bp_out s) (bp_matched s) (had_error s) true).

Definition join_radix_build_probe_fn (p _end : Z) (s : bp) : option bp :=
  rp ← r_parts.[p]; lp ← l_parts.[p];
  let lc := zlen lp in let rc := zlen rp in
  if ray_join_force_dup_fallback then fail_duplicates s
  else if rc =? 0 then
    if (1 <=? join_type) && (0 <? lc) then
      match alloc (R_pp_l p) 4 lc, alloc (R_pp_r p) 4 lc with
      | Some pl, Some pr =>
          '(pl, pr) ← foldM (λ i '(pl, pr), e ← lp.[i]; pl ← zset pl i (s32 (fst e)); pr ← zset pr i (-1); Some (pl, pr))
            (range 0 lc) (pl, pr);
          o ← zset (bp_out s) p (Some (Pairs pl pr lc lc));
          Some (Bp o (bp_matched s) (had_error s) (pathological s))
      | _, _ => fail_memory s
      end
    else Some s
  else
    let init_cap := if rc <? lc then lc else rc in
    let init_cap := if init_cap <? 64 then 64 else init_cap in
    match alloc (R_pp_l p) 4 init_cap, alloc (R_pp_r p) 4 init_cap with
    | Some pl, Some pr =>
        let ht_cap := oa_cap 32 256 (rc * 2) in
        if ht_cap <? rc * 2 then fail_memory s
        else if negb (served (R_ht p) (ht_cap * 2 * 4)) then fail_memory s
        else
          let mask := ht_cap - 1 in
          ht ← oa_build rp (replicate (Z.to_nat ht_cap) (0, RADIX_HT_EMPTY)) mask;
          match ht with
          | None => fail_duplicates s
          | Some ht =>
              st ← oa_probe_all ht mask p lp (Pairs pl pr init_cap 0, bp_matched s);
              match st with
              | None => fail_memory s
              | Some (b, m) =>
                  o ← zset (bp_out s) p (Some b);
                  Some (Bp o m (had_error s) (pathological s))
              end
          end
    | _, _ => fail_memory s
    end.
End build_probe.

Definition pairs_of (b : option pairs) : Z := match b with Some b => p_cnt b | None => 0 end.

(** Copying the partitions' pairs behind each other, the sides put back. *)
Definition consolidate (swap : bool) (outs : list (option pairs)) (li ri : list Z) : option (out * Z) :=
  foldM (λ b st,
           match b with
           | None => Some st
           | Some b =>
               foldM (λ j st, x ← (pl b).[j]; y ← (pr b).[j];
                        if swap then emit y x st else emit x y st) (range 0 (p_cnt b)) st
           end) outs (Out li ri None, 0).

(** The pairs of all partitions, then the right rows that met none. *)
Definition radix_result (swap : bool) (join_type right_rows : Z) (s : bp) : option (join_err + index) :=
  let pairs := zsum (map pairs_of (bp_out s)) in
  unmatched ← match bp_matched s with
              | Some m => if join_type =? 2 then unmatched_count m right_rows else Some 0
              | None => Some 0
              end;
  let total_out := pairs + unmatched in
  if 0 <? total_out then
    match alloc R_l_idx 8 total_out, alloc R_r_idx 8 total_out with
    | Some li, Some ri =>
        '(o, off) ← consolidate swap (bp_out s) li ri;
        match bp_matched s with
        | Some m =>
            if 0 <? unmatched then
              '(li, ri) ← append_unmatched m right_rows off (o_l o) (o_r o);
              Some (inr (Index li ri total_out pairs))
            else Some (inr (Index (o_l o) (o_r o) total_out (-1)))
        | None => Some (inr (Index (o_l o) (o_r o) total_out (-1)))
        end
    | _, _ => Some (inl JOIN_OOM)
    end
  else Some (inr (Index [] [] 0 (-1))).

(** The radix path; inner [None] falls back to the chained one. *)
Definition radix_join (join_type : Z) (lvs rvs : list (option key_vec)) (left_rows right_rows : Z) :
    option (option (join_err + index)) :=
  let swap := (join_type =? 0) && negb ray_join_no_build_swap && (left_rows * 1 <? right_rows) in
  let build_rows := if swap then left_rows else right_rows in
  let probe_rows := if swap then right_rows else left_rows in
  let build_keys := if swap then lvs else rvs in
  let probe_keys := if swap then rvs else lvs in
  let bits := radix_join_bits build_rows in
  let n_rparts := Z.shiftl 1 bits in
  match alloc R_build_hash 4 build_rows, alloc R_probe_hash 4 probe_rows with
  | Some r_hashes, Some l_hashes =>
      r_hashes ← par ray_pool_get (join_radix_hash_fn build_keys) build_rows r_hashes;
      l_hashes ← par ray_pool_get (join_radix_hash_fn probe_keys) probe_rows l_hashes;
      if cancelled_at C_hashed then Some (Some (inl JOIN_CANCEL)) else
      r_parts ← join_radix_partition false r_hashes bits build_rows;
      l_parts ← join_radix_partition true l_hashes bits probe_rows;
      match r_parts, l_parts with
      | Some r_parts, Some l_parts =>
          if cancelled_at C_partitioned then Some (Some (inl JOIN_CANCEL)) else
          let full := (join_type =? 2) && (0 <? right_rows) in
          let matched := if full then calloc R_matched 1 right_rows else None in
          if full && negb (bool_decide (is_Some matched)) then Some None else
          if negb (served R_part_counts (n_rparts * 8)) || negb (served R_pp_meta (n_rparts * 36)) then Some None else
          s ← run_tasks n_rparts (join_radix_build_probe_fn l_parts r_parts probe_keys build_keys join_type)
                (Bp (replicate (Z.to_nat n_rparts) None) matched false false);
          if cancelled_at C_probed then Some (Some (inl JOIN_CANCEL))
          else if had_error s || pathological s then Some None
          else
            r ← radix_result swap join_type right_rows s; Some (Some r)
      | _, _ => Some None
      end
  | _, _ => Some None
  end.

(** ** The joins: which rows meet *)
Definition join_indices (factorized : bool) (join_type : Z) (lvs rvs : list (option key_vec)) (left_rows right_rows : Z) :
    option (join_err + index) :=
  if (INT32_MAX <? right_rows) || (INT32_MAX <? left_rows) then Some (inl JOIN_NYI)
  else if negb (served R_key_vecs (Z.max 1 (zlen lvs) * 2 * 8)) then Some (inl JOIN_OOM)
  else if existsb is_str lvs || existsb is_str rvs then Some (inl JOIN_NYI)
  else if negb (join_warm_sym_luts lvs rvs) then Some (inl JOIN_OOM)
  else if RAY_PARALLEL_THRESHOLD <? right_rows then
    r ← radix_join join_type lvs rvs left_rows right_rows;
    match r with
    | Some r => Some r
    | None => chained_join factorized join_type lvs rvs left_rows right_rows
    end
  else chained_join factorized join_type lvs rvs left_rows right_rows.

(** Does the row meet none? The walk stops at the first match. *)
Fixpoint walk_none (fuel : nat) (next : list Z) (eq : Z → option bool) (r : Z) : option bool :=
  if r =? JHT_EMPTY then Some true
  else
    match fuel with
    | O => None
    | S fuel =>
        same ← eq r;
        if same : bool then Some false else r ← next.[r]; walk_none fuel next eq r
    end.

(** The rows kept so far are the first [cnt] of [idx]; inner [None] is a
    cancellation. *)
Fixpoint anti_rows (ls : list Z) (t : chained) (ht_cap : Z) (lvs rvs : list (option key_vec)) (idx : list Z) (cnt : Z) :
    option (option (list Z * Z)) :=
  match ls with
  | [] => Some (Some (idx, cnt))
  | l :: ls =>
      if (Z.land l 0xFFFF =? 0) && cancelled_at (C_anti_row l) then Some None else
      slot ← chain_slot lvs (ht_cap - 1) l;
      r ← (ht_heads t).[slot];
      none ← walk_none (length (ht_next t)) (ht_next t) (join_keys_eq lvs rvs l) r;
      if none : bool then idx ← zset idx cnt l; anti_rows ls t ht_cap lvs rvs idx (cnt + 1)
      else anti_rows ls t ht_cap lvs rvs idx cnt
  end.

(** The whole left table, or some of its rows. *)
Inductive anti_result := WholeLeft | LeftRows (rows : list Z).

Definition antijoin_indices (lvs rvs : list (option key_vec)) (left_rows right_rows : Z) :
    option (join_err + anti_result) :=
  if (INT32_MAX <? right_rows) || (INT32_MAX <? left_rows) then Some (inl JOIN_NYI)
  else if (right_rows =? 0) || (left_rows =? 0) then Some (inr WholeLeft)
  else if negb (served R_anti_keys (Z.max 1 (zlen lvs) * 2 * 8)) then Some (inl JOIN_OOM)
  else if existsb is_str lvs || existsb is_str rvs then Some (inl JOIN_NYI)
  else if negb (join_warm_sym_luts lvs rvs) then Some (inl JOIN_OOM)
  else
    let ht_cap := chained_cap right_rows in
    match alloc R_anti_next 4 right_rows, alloc R_anti_heads 4 ht_cap with
    | Some next, Some heads =>
        let heads := map (λ _, JHT_EMPTY) heads in
        t ← chained_build None rvs ht_cap right_rows heads next;
        if cancelled_at C_anti_built then Some (inl JOIN_CANCEL) else
        match alloc R_anti_out 8 left_rows with
        | None => Some (inl JOIN_OOM)
        | Some idx =>
            r ← anti_rows (range 0 left_rows) t ht_cap lvs rvs idx 0;
            match r with
            | None => Some (inl JOIN_CANCEL)
            | Some (idx, cnt) => Some (inr (LeftRows (take (Z.to_nat cnt) idx)))
            end
        end
    | _, _ => Some (inl JOIN_OOM)
    end.
End join.
