(* ===== verification/JoinKeys.v ===== *)
(** * Hash joins: what the keys mean, and the building of the chained table *)

From S2P Require Import Prelude Pool PoolProofs Rowsel RowselProofs Hash HashProofs Sort SortOrder SortRadix SortEnc SortPar Join.
Local Open Scope Z_scope.

(** ** Keys

    The value of a key cell; two rows meet when all their values are there and
    are equal. *)
Inductive value := VInt (z : Z) | VFloat (z : Z) | VSym (id : Z).
#[global] Instance value_eq_dec : EqDecision value.
Proof. solve_decision. Defined.
#[global] Instance sort_type_eq_dec : EqDecision sort_type.
Proof. solve_decision. Defined.

Definition key_value (v : key_vec) (row : Z) : option value :=
  match v with
  | KNum c =>
      x ← (cells c).[row];
      if cell_is_null c x then None
      else match col_type c with F64 => if f64_is_nan x then None else Some (VFloat (f64_ord x)) | _ => Some (VInt x) end
  | KSym d _ ids => id ← ids.[row]; Some (VSym (sym_id_runtime d id))
  | KStr => None
  end.
Definition value_at (v : option key_vec) (row : Z) : option value := v ← v; key_value v row.
Definition values_meet (x y : option value) : bool := bool_decide (x = y) && bool_decide (is_Some x).
Fixpoint rows_meet (lvs rvs : list (option key_vec)) (l r : Z) : bool :=
  match lvs, rvs with
  | lc :: lvs, rc :: rvs => values_meet (value_at lc l) (value_at rc r) && rows_meet lvs rvs l r
  | _, _ => true
  end.

(** What the code takes for granted of a key column of [n] rows: cells of its
    type; identifiers within its domain. A column of 32-bit floats is read as
    bytes and is excluded. *)
Definition key_ok (n : Z) (v : key_vec) : Prop :=
  match v with
  | KNum c => zlen (cells c) = n ∧ Forall (cell_ok (col_type c)) (cells c) ∧ col_type c ≠ F32
  | KSym d _ ids => zlen ids = n ∧
      match d with
      | Runtime => True
      | File _ None => False
      | File _ (Some lut) => NoDup lut ∧ Forall (λ id, 0 ≤ id < zlen lut) ids
      end
  | KStr => False
  end.
Definition keys_compatible (lc rc : key_vec) : Prop :=
  match lc, rc with
  | KNum c, KNum d => col_type c = F64 ↔ col_type d = F64
  | KSym d _ _, KSym e _ _ => same_domain d e = true → d = e
  | _, _ => False
  end.
Definition key_pair_ok (nl nr : Z) (lc rc : option key_vec) : Prop :=
  ∃ l r, lc = Some l ∧ rc = Some r ∧ key_ok nl l ∧ key_ok nr r ∧ keys_compatible l r.
Definition keys_ok (nl nr : Z) (lvs rvs : list (option key_vec)) : Prop := Forall2 (key_pair_ok nl nr) lvs rvs.
Definition side_ok (n : Z) (vs : list (option key_vec)) : Prop := Forall (λ v, ∃ k, v = Some k ∧ key_ok n k) vs.

Lemma keys_ok_l nl nr lvs rvs : keys_ok nl nr lvs rvs → side_ok nl lvs.
Proof. induction 1 as [|?? lvs rvs (l & r & -> & -> & ? & _) _ IH]; constructor; [by exists l|done]. Qed.
Lemma keys_ok_r nl nr lvs rvs : keys_ok nl nr lvs rvs → side_ok nr rvs.
Proof. induction 1 as [|?? lvs rvs (l & r & -> & -> & _ & ? & _) _ IH]; constructor; [by exists r|done]. Qed.
Lemma keys_compatible_sym l r : keys_compatible l r → keys_compatible r l.
Proof.
  destruct l as [c|d ? ?|], r as [c'|e ? ?|]; try done; cbn; [tauto|].
  intros Hs He. symmetry. apply Hs. revert He. destruct d as [|i li], e as [|j lj]; cbn; try done.
  rewrite !Z.eqb_eq. done.
Qed.
Lemma keys_ok_swap nl nr lvs rvs : keys_ok nl nr lvs rvs → keys_ok nr nl rvs lvs.
Proof.
  induction 1 as [|?? lvs rvs (l & r & -> & -> & ? & ? & ?) _ IH]; constructor; [|done].
  exists r, l. repeat (split; [done|]). by apply keys_compatible_sym.
Qed.
Lemma rows_meet_swap lvs rvs l r : rows_meet lvs rvs l r = rows_meet rvs lvs r l.
Proof.
  revert rvs. induction lvs as [|lc lvs IH]; intros [|rc rvs]; try done. cbn. rewrite IH. f_equal.
  unfold values_meet. apply eq_true_iff_eq. rewrite !andb_true_iff, !bool_decide_eq_true.
  split; intros [-> ?]; done.
Qed.

(** *** Reads *)
Lemma mem_read (w : nat) (l : list Z) row x :
  l.[row] = Some x → rd_at w (mjoin (map (le_enc w) l)) (Z.of_nat w * row) = Some (wrap (8 * Z.of_nat w) x).
Proof.
  intros Hx. pose proof (zget_Some _ _ _ Hx) as Hr. unfold rd_at. rewrite (proj2 (Z.ltb_ge _ _)) by nia.
  enough (drop (Z.to_nat (Z.of_nat w * row)) (mjoin (map (le_enc w) l)) =
          le_enc w x ++ drop (Z.to_nat (Z.of_nat w * (row + 1))) (mjoin (map (le_enc w) l))) as ->.
  { rewrite rd_app by (by rewrite length_le_enc). cbn. by rewrite le_dec_enc. }
  rewrite zget_nat in Hx by lia. replace (Z.to_nat (Z.of_nat w * row)) with (w * Z.to_nat row)%nat by nia.
  replace (Z.to_nat (Z.of_nat w * (row + 1))) with (w * S (Z.to_nat row))%nat by nia.
  clear Hr. revert Hx. generalize (Z.to_nat row) as i. clear row. induction l as [|y l IH]; intros i Hx; [done|].
  cbn [map]. rewrite mjoin_cons. destruct i as [|i].
  - cbn in Hx. injection Hx as ->. rewrite Nat.mul_0_r, Nat.mul_1_r, drop_0.
    f_equal. symmetry. apply drop_app_length'. by rewrite length_le_enc.
  - rewrite drop_app_ge by (rewrite length_le_enc; nia). rewrite (drop_app_ge _ _ (w * S (S i))) by (rewrite length_le_enc; nia).
    rewrite !length_le_enc. replace (w * S i - w)%nat with (w * i)%nat by nia.
    replace (w * S (S i) - w)%nat with (w * S i)%nat by nia. by apply IH.
Qed.
Lemma raw64_wide c row x :
  radix_key_bytes (col_type c) = 8 → (cells c).[row] = Some x → raw64 (KNum c) row = Some (u64 x).
Proof. intros Hw Hx. unfold raw64, mem, esz. rewrite Hw. by apply (mem_read 8). Qed.

(** *** Hashes *)
Lemma in_u_lxor n a b : 0 ≤ n → in_u n a → in_u n b → in_u n (Z.lxor a b).
Proof.
  intros Hn Ha Hb. assert (Hs : ∀ x, in_u n x ↔ Z.shiftr x n = 0 ∧ 0 ≤ x).
  { intros x. rewrite Z.shiftr_div_pow2 by done. unfold in_u. assert (0 < 2 ^ n) by (apply Z.pow_pos_nonneg; lia).
    split; [intros []; split; [by apply Z.div_small|done]|]. intros [Hd Hx]. split; [done|].
    pose proof (Z.div_mod x (2 ^ n)). pose proof (Z.mod_pos_bound x (2 ^ n)). lia. }
  apply Hs in Ha as [Ha ?], Hb as [Hb ?]. apply Hs. rewrite Z.shiftr_lxor, Ha, Hb. split; [done|]. by apply Z.lxor_nonneg.
Qed.
Lemma wymix_range a b : in_u 64 a → in_u 64 b → in_u 64 (ray__wymix a b).
Proof.
  intros Ha Hb. unfold ray__wymix, wymum_lo, wymum_hi. apply in_u_lxor; [done|by apply wrap_range|].
  rewrite Z.shiftr_div_pow2 by done. unfold in_u in *. split; [apply Z.div_pos; nia|].
  apply Z.div_lt_upper_bound; [done|]. nia.
Qed.
Ltac u64s := first [apply wymix_range | apply in_u_lxor | apply wrap_range]; try done; try (unfold in_u; lia).
Lemma wymum_hi_range a b : in_u 64 a → in_u 64 b → in_u 64 (wymum_hi a b).
Proof.
  intros Ha Hb. unfold wymum_hi. rewrite Z.shiftr_div_pow2 by done. unfold in_u in *.
  split; [apply Z.div_pos; nia|apply Z.div_lt_upper_bound; nia].
Qed.
Lemma mix_range a b : in_u 64 a → in_u 64 b →
  in_u 64 (ray__wymix (Z.lxor (wymum_lo a b) 0x2d358dccaa6c78a5) (Z.lxor (wymum_hi a b) 0x8bb84b93962eacc9)).
Proof.
  intros Ha Hb. apply wymix_range; apply in_u_lxor; [done|by apply wrap_range|unfold in_u; lia|done|by apply wymum_hi_range|unfold in_u; lia].
Qed.
Lemma hash_i64_range v : in_u 64 (ray_hash_i64 v).
Proof. apply mix_range; repeat u64s. Qed.
Lemma hash_f64_range v : in_u 64 v → in_u 64 (ray_hash_f64 v).
Proof. intros Hv. unfold ray_hash_f64. apply mix_range; apply in_u_lxor; try done; try (unfold in_u; lia); zbool; try done; unfold in_u; lia. Qed.
Lemma hash_combine_range a b : in_u 64 a → in_u 64 b → in_u 64 (ray_hash_combine a b).
Proof. intros Ha Hb. apply mix_range; apply in_u_lxor; try done; unfold in_u; lia. Qed.
Lemma hash_f64_ord x y : in_u 64 x → in_u 64 y → f64_ord x = f64_ord y → ray_hash_f64 x = ray_hash_f64 y.
Proof.
  intros Hx Hy Ho. unfold ray_hash_f64.
  assert ((if x =? 0x8000000000000000 then 0 else x) = (if y =? 0x8000000000000000 then 0 else y)) as ->; [|done].
  revert Ho. unfold f64_ord, in_u in *. zbool; lia.
Qed.

Lemma key_null_cell c row x : (cells c).[row] = Some x → key_is_null (KNum c) row = cell_is_null c x.
Proof.
  intros Hx. pose proof (zget_Some _ _ _ Hx). cbn. unfold ray_vec_is_null. rewrite Hx.
  rewrite (proj2 (Z.ltb_ge _ _)), (proj2 (Z.leb_gt _ _)) by lia. done.
Qed.
Lemma key_null_value v row : key_is_null v row = true → key_value v row = None.
Proof.
  destruct v as [c| |]; [|done..]. intros Hn. cbn. destruct ((cells c).[row]) as [x|] eqn:Hx; [|done].
  rewrite (key_null_cell c row x Hx) in Hn. cbn [mbind option_bind]. by rewrite Hn.
Qed.

(** A cell of a key column, by its kind *)
Lemma num_cell n c row : key_ok n (KNum c) → 0 ≤ row < n →
  ∃ x, (cells c).[row] = Some x ∧ cell_ok (col_type c) x ∧ col_type c ≠ F32 ∧
    (col_type c = F64 → in_u 64 x ∧ raw64 (KNum c) row = Some x) ∧
    (col_type c ≠ F64 → read_col_i64 (KNum c) row = Some x ∧ is_f64 (KNum c) = false).
Proof.
  intros (Hl & Hc & Ht) Hr. destruct (zget_is_Some (cells c) row) as [x Hx]; [lia|]. exists x. split; [done|].
  assert (Hok : cell_ok (col_type c) x). { rewrite Forall_forall in Hc. apply Hc. by eapply zget_elem. }
  split; [done|]. split; [done|]. split.
  - intros HF. rewrite HF in Hok. split; [done|]. rewrite (raw64_wide c row x); [|by rewrite HF|done]. f_equal. by apply wrap_id.
  - intros HF. cbn. by destruct (col_type c).
Qed.

Lemma hash_cell_total n v row : key_ok n v → 0 ≤ row < n → ∃ h, hash_cell v row = Some h ∧ in_u 64 h.
Proof.
  intros Hv Hr. destruct v as [c|d w ids|]; [| |done].
  - destruct (num_cell n c row Hv Hr) as (x & Hx & Hok & Ht & HF & HI). unfold hash_cell.
    destruct (decide (col_type c = F64)) as [Hf|Hf].
    + destruct (HF Hf) as [Hu ->]. unfold is_f64. rewrite Hf. eexists. split; [done|]. by apply hash_f64_range.
    + destruct (HI Hf) as [-> ->]. eexists. split; [done|]. apply hash_i64_range.
  - destruct Hv as [Hl _]. destruct (zget_is_Some ids row) as [x Hx]; [lia|]. unfold hash_cell, is_f64, read_col_i64.
    rewrite Hx. eexists. split; [done|]. apply hash_i64_range.
Qed.

Lemma values_meet_Some x y : values_meet x y = true ↔ ∃ z, x = Some z ∧ y = Some z.
Proof.
  unfold values_meet. rewrite andb_true_iff, !bool_decide_eq_true. split.
  - intros [-> [z ->]]. by exists z.
  - intros (z & -> & ->). split; [done|by exists z].
Qed.

Lemma values_meet_sym x y : values_meet x y = values_meet y x.
Proof. apply eq_true_iff_eq. rewrite !values_meet_Some. naive_solver. Qed.

Lemma values_meet_None y : values_meet None y = false.
Proof. unfold values_meet. rewrite (bool_decide_false (is_Some None)) by by intros []. apply andb_false_r. Qed.

(** Both columns hold floats, both integers, or both symbols. *)
Lemma key_pair_cases nl nr lc rc l r : key_ok nl lc → key_ok nr rc → keys_compatible lc rc → 0 ≤ l < nl → 0 ≤ r < nr →
  (∃ c d x y, lc = KNum c ∧ rc = KNum d ∧ (cells c).[l] = Some x ∧ (cells d).[r] = Some y ∧
     ((col_type c = F64 ∧ col_type d = F64 ∧ in_u 64 x ∧ in_u 64 y ∧ raw64 lc l = Some x ∧ raw64 rc r = Some y) ∨
      (is_f64 lc = false ∧ is_f64 rc = false ∧ read_col_i64 lc l = Some x ∧ read_col_i64 rc r = Some y ∧
       col_type c ≠ F64 ∧ col_type d ≠ F64))) ∨
  (∃ d e w w' us vs x y, lc = KSym d w us ∧ rc = KSym e w' vs ∧ us.[l] = Some x ∧ vs.[r] = Some y).
Proof.
  intros Hl Hr Hc Hi Hj. destruct lc as [c|d w us|], rc as [c'|e w' vs|]; try done.
  - left. destruct (num_cell nl c l Hl Hi) as (x & Hx & _ & _ & HF & HI).
    destruct (num_cell nr c' r Hr Hj) as (y & Hy & _ & _ & HF' & HI'). exists c, c', x, y. repeat (split; [done|]).
    cbn in Hc. destruct (decide (col_type c = F64)) as [Ht|Ht].
    + left. destruct (HF Ht), (HF' (proj1 Hc Ht)). repeat (split; [naive_solver|]). done.
    + right. assert (col_type c' ≠ F64) as Ht' by tauto. destruct (HI Ht), (HI' Ht'). done.
  - right. destruct Hl as [Hl _], Hr as [Hr _]. destruct (zget_is_Some us l) as [x Hx]; [lia|]. destruct (zget_is_Some vs r) as [y Hy]; [lia|].
    exists d, e, w, w', us, vs, x, y. done.
Qed.

Lemma int_value c row x : (cells c).[row] = Some x → col_type c ≠ F64 →
  key_value (KNum c) row = if cell_is_null c x then None else Some (VInt x).
Proof. intros Hx Ht. cbn. rewrite Hx. cbn [mbind option_bind]. by destruct (col_type c). Qed.
Lemma float_value c row x : (cells c).[row] = Some x → col_type c = F64 →
  key_value (KNum c) row = if f64_is_nan x then None else Some (VFloat (f64_ord x)).
Proof.
  intros Hx Ht. cbn. rewrite Hx. cbn [mbind option_bind]. unfold cell_is_null. rewrite Ht. cbn [sentinel_is_null].
  destruct (has_nulls c), (f64_is_nan x); done.
Qed.

Lemma sym_translate nl nr d e w w' us vs l r x y :
  key_ok nl (KSym d w us) → key_ok nr (KSym e w' vs) → same_domain d e = true → d = e →
  us.[l] = Some x → vs.[r] = Some y → sym_id_runtime d x = sym_id_runtime e y → x = y.
Proof.
  intros [_ Hd] [_ He] Hs <- Hx Hy. destruct d as [|i [lut|]]; [done| |done]. destruct Hd as [Hnd Hr], He as [_ Hr'].
  rewrite Forall_forall in Hr, Hr'. specialize (Hr x ltac:(by eapply zget_elem)). specialize (Hr' y ltac:(by eapply zget_elem)).
  cbn. rewrite !(proj2 (Z.ltb_ge _ _)) by lia. rewrite !(proj2 (Z.leb_gt _ _)) by lia. cbn [orb].
  destruct (zget_is_Some lut x) as [a Ha]; [lia|]. destruct (zget_is_Some lut y) as [b Hb]; [lia|]. rewrite Ha, Hb. cbn. intros ->.
  rewrite zget_nat in Ha, Hb by lia. pose proof (NoDup_lookup _ _ _ _ Hnd Ha Hb). lia.
Qed.

Lemma key_eq_ok nl nr lc rc l r : key_ok nl lc → key_ok nr rc → keys_compatible lc rc → 0 ≤ l < nl → 0 ≤ r < nr →
  key_eq lc rc l r = Some (values_meet (key_value lc l) (key_value rc r)).
Proof.
  intros Hl Hr Hc Hi Hj. unfold key_eq. destruct (key_is_null lc l) eqn:Hnl.
  { cbn [orb]. by rewrite (key_null_value _ _ Hnl), values_meet_None. }
  destruct (key_is_null rc r) eqn:Hnr.
  { cbn [orb]. by rewrite (key_null_value _ _ Hnr), values_meet_sym, values_meet_None. }
  cbn [orb]. destruct (key_pair_cases nl nr lc rc l r) as [(c & d & x & y & -> & -> & Hx & Hy & Hcase)|(d & e & w & w' & us & vs & x & y & -> & -> & Hx & Hy)]; [done..| |].
  - destruct Hcase as [(Ht & Ht' & Hu & Hu' & Hrx & Hry)|(Hf & Hf' & Hrx & Hry & Ht & Ht')].
    + unfold is_f64. rewrite Ht, Hrx. cbn [mbind option_bind]. rewrite Hry. cbn [mbind option_bind]. f_equal.
      rewrite (float_value c l x Hx Ht), (float_value d r y Hy Ht'). unfold f64_eqb.
      destruct (f64_is_nan x), (f64_is_nan y); try done. unfold values_meet. cbn [negb andb].
      destruct (Z.eqb_spec (f64_ord x) (f64_ord y)) as [->|Hne]; [by rewrite bool_decide_true|].
      rewrite bool_decide_false by congruence. done.
    + rewrite Hf, Hrx. cbn [mbind option_bind]. rewrite Hry. cbn [mbind option_bind]. f_equal.
      rewrite (key_null_cell c l x Hx) in Hnl. rewrite (key_null_cell d r y Hy) in Hnr.
      rewrite (int_value c l x Hx Ht), (int_value d r y Hy Ht'), Hnl, Hnr. unfold values_meet.
      destruct (Z.eqb_spec x y) as [->|Hne]; [by rewrite bool_decide_true|]. rewrite bool_decide_false by congruence. done.
  - cbn [is_f64 read_col_i64 key_value]. rewrite Hx, Hy. cbn [mbind option_bind].
    assert (∀ b, b = bool_decide (sym_id_runtime d x = sym_id_runtime e y) →
      Some b = Some (values_meet (Some (VSym (sym_id_runtime d x))) (Some (VSym (sym_id_runtime e y))))) as Hb.
    { intros b ->. f_equal. unfold values_meet. case_bool_decide as He; [rewrite He; by rewrite bool_decide_true|].
      rewrite bool_decide_false by congruence. done. }
    destruct (same_domain d e) eqn:Hs; apply Hb; apply eq_true_iff_eq; rewrite Z.eqb_eq, bool_decide_eq_true; [|done].
    split; [intros ->; by rewrite (Hc Hs)|]. by apply (sym_translate nl nr d e w w' us vs l r x y Hl Hr Hs (Hc Hs)).
Qed.

Lemma hash_cell_meet nl nr lc rc l r : key_ok nl lc → key_ok nr rc → keys_compatible lc rc → 0 ≤ l < nl → 0 ≤ r < nr →
  values_meet (key_value lc l) (key_value rc r) = true → hash_cell lc l = hash_cell rc r.
Proof.
  intros Hl Hr Hc Hi Hj (z & Hvl & Hvr)%values_meet_Some. unfold hash_cell.
  destruct (key_pair_cases nl nr lc rc l r) as [(c & d & x & y & -> & -> & Hx & Hy & Hcase)|(d & e & w & w' & us & vs & x & y & -> & -> & Hx & Hy)]; [done..| |].
  - destruct Hcase as [(Ht & Ht' & Hu & Hu' & Hrx & Hry)|(Hf & Hf' & Hrx & Hry & Ht & Ht')].
    + rewrite (float_value c l x Hx Ht) in Hvl. rewrite (float_value d r y Hy Ht') in Hvr. unfold is_f64. rewrite Ht, Ht', Hrx, Hry. cbn. f_equal.
      apply hash_f64_ord; [done..|]. destruct (f64_is_nan x), (f64_is_nan y); naive_solver.
    + rewrite Hf, Hf', Hrx, Hry. rewrite (int_value c l x Hx Ht) in Hvl. rewrite (int_value d r y Hy Ht') in Hvr.
      destruct (cell_is_null c x), (cell_is_null d y); naive_solver.
  - cbn in Hvl, Hvr |- *. rewrite Hx in Hvl |- *. rewrite Hy in Hvr |- *. cbn [mbind option_bind] in *.
    assert (sym_id_runtime d x = sym_id_runtime e y) as ->; [congruence|done].
Qed.

(** *** Rows *)
Lemma hash_from_total n vs row : side_ok n vs → 0 ≤ row < n → ∀ first h, in_u 64 h →
  ∃ h', hash_keys_from first vs row h = Some h' ∧ in_u 64 h'.
Proof.
  intros Hs Hr. induction Hs as [|? vs (k & -> & Hk) _ IH]; intros first h Hh; [by exists h|]. cbn [hash_keys_from].
  destruct (key_is_null k row).
  - eexists. split; [done|]. apply in_u_lxor; [done|done|by apply wrap_range].
  - destruct (hash_cell_total n k row Hk Hr) as (kh & -> & Hkh). cbn [mbind option_bind]. apply IH.
    destruct first; [done|by apply hash_combine_range].
Qed.
Lemma hash_row_total n vs row : side_ok n vs → 0 ≤ row < n → ∃ h, hash_row_keys vs row = Some h ∧ in_u 64 h.
Proof. intros Hs Hr. by apply (hash_from_total n vs row Hs Hr true 0). Qed.

Lemma hash_rows_meet nl nr lvs rvs l r : keys_ok nl nr lvs rvs → 0 ≤ l < nl → 0 ≤ r < nr →
  rows_meet lvs rvs l r = true → hash_row_keys lvs l = hash_row_keys rvs r.
Proof.
  intros Hk Hl Hr. unfold hash_row_keys.
  enough (rows_meet lvs rvs l r = true → ∀ first h, hash_keys_from first lvs l h = hash_keys_from first rvs r h) by auto.
  induction Hk as [|?? lvs rvs (lc & rc & -> & -> & Hlc & Hrc & Hc) _ IH]; intros Hm first h; [done|].
  cbn in Hm. apply andb_true_iff in Hm as [Hv Hm]. cbn [hash_keys_from].
  rewrite (hash_cell_meet nl nr lc rc l r Hlc Hrc Hc Hl Hr Hv). apply values_meet_Some in Hv as (z & Hx & Hy).
  destruct (key_is_null lc l) eqn:Hn; [by rewrite (key_null_value _ _ Hn) in Hx|].
  destruct (key_is_null rc r) eqn:Hn'; [by rewrite (key_null_value _ _ Hn') in Hy|].
  destruct (hash_cell rc r); cbn [mbind option_bind]; [by apply IH|done].
Qed.

Lemma join_keys_eq_ok nl nr lvs rvs l r : keys_ok nl nr lvs rvs → 0 ≤ l < nl → 0 ≤ r < nr →
  join_keys_eq lvs rvs l r = Some (rows_meet lvs rvs l r).
Proof.
  intros Hk Hl Hr. induction Hk as [|?? lvs rvs (lc & rc & -> & -> & Hlc & Hrc & Hc) _ IH]; [done|].
  cbn [join_keys_eq rows_meet value_at mbind option_bind]. rewrite (key_eq_ok nl nr) by done. cbn [mbind option_bind].
  by destruct (values_meet _ _).
Qed.

Lemma keys_warm nl nr lvs rvs : keys_ok nl nr lvs rvs →
  existsb is_str lvs || existsb is_str rvs = false ∧ join_warm_sym_luts lvs rvs = true.
Proof.
  intros Hk. unfold join_warm_sym_luts. rewrite orb_false_iff, andb_true_iff.
  induction Hk as [|?? lvs rvs (lc & rc & -> & -> & Hlc & Hrc & Hc) _ [[IH1 IH2] [IH3 IH4]]]; [done|]. cbn.
  rewrite IH1, IH2, IH3, IH4.
  destruct lc as [|[|? []] ? ?|], rc as [|[|? []] ? ?|]; cbn in *; tauto.
Qed.

(** ** The specification *)
Section spec.
Context (lvs rvs : list (option key_vec)) (nl nr : Z).

Definition partners (l : Z) : list Z := List.filter (rows_meet lvs rvs l) (range 0 nr).
(** What a left row that meets the rows [ms] contributes to a join: 0 is inner,
    1 left, 2 full. *)
Definition emitted (join_type l : Z) (ms : list Z) : list (Z * Z) :=
  match ms with [] => if 1 <=? join_type then [(l, -1)] else [] | _ => map (pair l) ms end.
Definition joined (join_type : Z) : list (Z * Z) :=
  mjoin (map (λ l, emitted join_type l (partners l)) (range 0 nl)).
Definition right_only : list Z :=
  List.filter (λ r, forallb (λ l, negb (rows_meet lvs rvs l r)) (range 0 nl)) (range 0 nr).
Definition join_spec (join_type : Z) : list (Z * Z) :=
  joined join_type ++ (if join_type =? 2 then map (pair (-1)) right_only else []).
Definition left_only : list Z := List.filter (λ l, forallb (λ r, negb (rows_meet lvs rvs l r)) (range 0 nr)) (range 0 nl).
End spec.

Lemma emitted_perm jt l ms ms' : ms ≡ₚ ms' → emitted jt l ms ≡ₚ emitted jt l ms'.
Proof.
  intros Hp. destruct ms as [|m ms].
  - apply Permutation_nil in Hp as ->. done.
  - destruct ms' as [|m' ms']; [by apply Permutation_sym, Permutation_nil in Hp|].
    unfold emitted. by apply Permutation_map.
Qed.

(** ** Filters by key *)
Definition is_wide (v : key_vec) : Prop := ∃ c, v = KNum c ∧ (col_type c = I64 ∨ col_type c = TIMESTAMP).
Definition wide_cell (v : key_vec) (row : Z) : Z := match v with KNum c => default 0 (cells c).[row] | _ => 0 end.

Lemma wide_raw n v row : is_wide v → key_ok n v → 0 ≤ row < n →
  raw64 v row = Some (u64 (wide_cell v row)) ∧ s64 (u64 (wide_cell v row)) = wide_cell v row ∧
  (key_value v row = None ∨ key_value v row = Some (VInt (wide_cell v row))).
Proof.
  intros (c & -> & Ht) Hv Hr. destruct (num_cell n c row Hv Hr) as (x & Hx & Hok & _ & _ & _).
  assert (Hw : radix_key_bytes (col_type c) = 8 ∧ in_s 64 x ∧ col_type c ≠ F64) by (destruct Ht as [Ht|Ht]; rewrite Ht in *; done).
  destruct Hw as (Hw & Hs & Hf). unfold wide_cell. rewrite Hx. cbn [default]. split; [by apply raw64_wide|]. split.
  - by apply swrap_wrap.
  - rewrite (int_value c row x Hx Hf). destruct (cell_is_null c x); [by left|by right].
Qed.

Lemma key_max_ok n v : is_wide v → key_ok n v → 0 ≤ n →
  ∃ m, key_max v n = Some m ∧ 0 ≤ m.
Proof.
  intros Hw Hv Hn. unfold key_max.
  destruct (foldM_range (λ i m, k ← raw64 v i; Some (if m <? s64 k then s64 k else m)) (λ _ m, 0 ≤ m) 0 n 0) as (m & Hm & Hm0); [done|done| |by exists m].
  intros i m Hi Hm. destruct (wide_raw n v i Hw Hv Hi) as (-> & Hs & _). cbn [mbind option_bind]. rewrite Hs.
  eexists. split; [done|]. zbool; lia.
Qed.

Lemma bit_set_ok bits k m : 0 ≤ k ≤ m → zlen bits = (m + 1 + 63) / 64 →
  ∃ bits', bit_set bits k = Some bits' ∧ zlen bits' = zlen bits ∧ bit_test bits' k = Some true ∧
    ∀ j, bit_test bits j = Some true → bit_test bits' j = Some true.
Proof.
  intros Hk Hl. unfold bit_set, bit_test. rewrite Z.shiftr_div_pow2 by done. change (2 ^ 6) with 64.
  assert (Hq : 0 ≤ k / 64 < zlen bits) by (rewrite Hl; Z.to_euclidean_division_equations; lia).
  destruct (zget_is_Some bits (k / 64) Hq) as [w Hw]. rewrite Hw. cbn [mbind option_bind].
  destruct (zset_total bits (k / 64) (Z.lor w (Z.shiftl 1 (Z.land k 63)))) as [bits' Hs]; [done|]. exists bits'. split; [done|].
  split; [by apply zlen_zset in Hs|]. change 63 with (Z.ones 6). rewrite !Z.land_ones by done.
  assert (Hm : 0 ≤ k mod 2 ^ 6 < 2 ^ 6) by by apply Z.mod_pos_bound. split.
  - rewrite (zget_zset_eq _ _ _ _ Hs). cbn [mbind option_bind]. change 63 with (Z.ones 6). rewrite Z.land_ones by done.
    by rewrite Z.lor_spec, Z.shiftl_spec, Z.sub_diag, orb_true_r by lia.
  - intros j. rewrite Z.shiftr_div_pow2 by done. change (2 ^ 6) with 64. destruct (decide (j / 64 = k / 64)) as [He|Hne].
    + rewrite He, Hw, (zget_zset_eq _ _ _ _ Hs). cbn [mbind option_bind]. intros [= Ht]. by rewrite Z.lor_spec, Ht.
    + by rewrite (zget_zset_ne _ _ _ _ _ Hs) by done.
Qed.
Lemma bit_test_total bits k m : 0 ≤ k ≤ m → zlen bits = (m + 1 + 63) / 64 → ∃ b, bit_test bits k = Some b.
Proof.
  intros Hk Hl. unfold bit_test. rewrite Z.shiftr_div_pow2 by done. change (2 ^ 6) with 64.
  destruct (zget_is_Some bits (k / 64)) as [w ->]; [rewrite Hl; Z.to_euclidean_division_equations; lia|]. by eexists.
Qed.

(** A filter of the keys of [v], on another column: what it passes over meets
    nothing in [v]. *)
Definition filter_of (n : Z) (v : key_vec) (f : key_filter) : Prop :=
  zlen (kf_bits f) = (kf_max f + 1 + 63) / 64 ∧
  ∀ i, 0 ≤ i < n → 0 ≤ wide_cell v i ≤ kf_max f → bit_test (kf_bits f) (wide_cell v i) = Some true.

Lemma make_filter_ok `{JoinEnv} s n v : is_wide v → key_ok n v → 0 ≤ n →
  ∃ f, make_filter s v n = Some f ∧ ∀ f', f = Some f' → filter_of n v f'.
Proof.
  intros Hw Hv Hn. unfold make_filter. destruct (key_max_ok n v Hw Hv Hn) as (m & -> & Hm). cbn [mbind option_bind].
  destruct (negb _); [by exists None|]. destruct (negb _); [by exists None|].
  destruct (foldM_range (λ i bits, k ← raw64 v i; if (0 <=? s64 k) && (s64 k <=? m) then bit_set bits (s64 k) else Some bits)
    (λ i bits, filter_of i v (KeyFilter bits m)) 0 n (replicate (Z.to_nat ((m + 1 + 63) / 64)) 0)) as (bits & -> & Hb).
  - done.
  - split; [|lia]. cbn. rewrite zlen_replicate, Z2Nat.id; [done|apply Z.div_pos; lia].
  - intros i bits Hi [Hl Hb]. cbn in Hl, Hb. destruct (wide_raw n v i Hw Hv Hi) as (-> & Hs & _). cbn [mbind option_bind].
    rewrite Hs. destruct ((0 <=? wide_cell v i) && (wide_cell v i <=? m)) eqn:Hc.
    + apply andb_true_iff in Hc as [H0%Z.leb_le H1%Z.leb_le]. destruct (bit_set_ok bits (wide_cell v i) m) as (bits' & -> & Hl' & Ht & Hk); [done..|].
      exists bits'. split; [done|]. split; cbn; [congruence|]. intros j Hj Hc. destruct (decide (j = i)) as [->|]; [done|]. apply Hk, Hb; lia.
    + exists bits. split; [done|]. split; cbn; [done|]. intros j Hj Hc'. destruct (decide (j = i)) as [->|]; [|apply Hb; lia].
      apply andb_false_iff in Hc as [?%Z.leb_gt|?%Z.leb_gt]; lia.
  - exists (Some (KeyFilter bits m)). split; [done|]. by intros ? [= <-].
Qed.

Lemma filtered_ok n n' v w f row : is_wide v → key_ok n v → is_wide w → key_ok n' w → filter_of n v f → 0 ≤ row < n' →
  ∃ skip, filtered (Some f) [Some w] row = Some skip ∧
    (skip = true → ∀ i, 0 ≤ i < n → values_meet (key_value v i) (key_value w row) = false).
Proof.
  intros Hv Hkv Hw Hkw [Hl Hb] Hr. unfold filtered. cbn [mbind option_bind]. destruct (wide_raw n' w row Hw Hkw Hr) as (-> & Hs & Hval).
  cbn [mbind option_bind]. cbv zeta. rewrite Hs. destruct ((0 <=? wide_cell w row) && (wide_cell w row <=? kf_max f)) eqn:Hc; [|by exists false].
  apply andb_true_iff in Hc as [H0%Z.leb_le H1%Z.leb_le]. destruct (bit_test_total (kf_bits f) (wide_cell w row) (kf_max f)) as [t Ht]; [done..|].
  rewrite Ht. cbn [mbind option_bind]. exists (negb t). split; [done|]. intros Hn i Hi. apply negb_true_iff in Hn as ->.
  apply not_true_iff_false. intros (z & Hx & Hy)%values_meet_Some.
  destruct (wide_raw n v i Hv Hkv Hi) as (_ & _ & [Hn'|Hval']); [congruence|]. destruct Hval as [Hn'|Hval]; [congruence|].
  assert (wide_cell v i = wide_cell w row) as He by congruence. specialize (Hb i Hi). rewrite He, Ht in Hb. specialize (Hb (conj H0 H1)). done.
Qed.

(** ** Chains *)
Fixpoint chain (next : list Z) (h : Z) (l : list Z) : Prop :=
  match l with
  | [] => h = JHT_EMPTY
  | r :: l => h = r ∧ 0 ≤ r < JHT_EMPTY ∧ ∃ h', next.[r] = Some h' ∧ chain next h' l
  end.

Lemma chain_agree next next' h l : (∀ r, r ∈ l → next'.[r] = next.[r]) → chain next h l → chain next' h l.
Proof.
  revert h. induction l as [|r l IH]; intros h Ha Hc; [done|]. destruct Hc as (-> & Hr & h' & Hn & Hc).
  split; [done|]. split; [done|]. exists h'. split; [rewrite Ha by set_solver; done|]. apply IH; [set_solver|done].
Qed.
Lemma walk_chain {S} (f : Z → S → option S) next l : ∀ (fuel : nat) h s, (length l ≤ fuel)%nat → chain next h l →
  walk fuel next h f s = foldM f l s.
Proof.
  induction l as [|r l IH]; intros fuel h s Hf Hc.
  - cbn in Hc. subst h. by destruct fuel.
  - destruct Hc as (-> & Hr & h' & Hn & Hc). destruct fuel as [|fuel]; [cbn in Hf; lia|]. cbn [walk foldM].
    rewrite (proj2 (Z.eqb_neq _ _)) by lia. destruct (f r s) as [s'|]; cbn [mbind option_bind]; [|done].
    rewrite Hn. cbn [mbind option_bind]. apply IH; [cbn in Hf; lia|done].
Qed.
Lemma walk_none_chain (eq : Z → option bool) (p : Z → bool) next l : ∀ (fuel : nat) h, (length l ≤ fuel)%nat → chain next h l →
  (∀ r, r ∈ l → eq r = Some (p r)) → walk_none fuel next eq h = Some (forallb (λ r, negb (p r)) l).
Proof.
  induction l as [|r l IH]; intros fuel h Hf Hc Heq.
  - cbn in Hc. subst h. by destruct fuel.
  - destruct Hc as (-> & Hr & h' & Hn & Hc). destruct fuel as [|fuel]; [cbn in Hf; lia|]. cbn [walk_none forallb].
    rewrite (proj2 (Z.eqb_neq _ _)) by lia. rewrite Heq by set_solver. cbn [mbind option_bind]. destruct (p r); [done|].
    cbn [negb andb]. rewrite Hn. cbn [mbind option_bind]. apply IH; [cbn in Hf; lia|done|set_solver].
Qed.

Section table.
Context (slot : Z → Z) (cap : Z).

(** The rows in the table, each in the chain of its slot. *)
Definition table_holds (t : chained) (rows : list Z) : Prop :=
  zlen (ht_heads t) = cap ∧ NoDup rows ∧
  ∃ g : Z → list Z, ∀ s, 0 ≤ s < cap →
    (∃ h, (ht_heads t).[s] = Some h ∧ chain (ht_next t) h (g s)) ∧ g s ≡ₚ List.filter (λ r, slot r =? s) rows.

Lemma table_empty (heads : list Z) next : zlen heads = cap → table_holds (Chained (map (λ _, JHT_EMPTY) heads) next) [].
Proof.
  intros Hl. split; [cbn [ht_heads]; by rewrite zlen_map|]. split; [constructor|]. exists (λ _, []). intros s Hs. split; [|done].
  destruct (zget_is_Some heads s) as [x Hx]; [lia|]. exists JHT_EMPTY. split; [|done]. cbn.
  rewrite zget_nat in Hx |- * by lia. by rewrite list_lookup_fmap, Hx.
Qed.
(** A write to the link of a row that is not in the table *)
Lemma table_link heads next next' r v rows :
  table_holds (Chained heads next) rows → r ∉ rows → zset next r v = Some next' → table_holds (Chained heads next') rows.
Proof.
  intros (Hl & Hn & g & Hg) Hr Hz. split; [done|]. split; [done|]. exists g. intros s Hs. destruct (Hg s Hs) as [(h & Hh & Hc) Hp].
  split; [|done]. exists h. split; [done|]. cbn [ht_next] in *. eapply chain_agree; [|done]. intros q Hq.
  apply (zget_zset_ne _ _ _ _ _ Hz). intros ->. apply Hr. rewrite Hp in Hq. apply list_elem_of_In, List.filter_In in Hq as [Hq _]. by apply list_elem_of_In.
Qed.
(** The compare-and-swap that puts a linked row in front of its chain *)
Lemma table_push heads heads' next r rows old :
  table_holds (Chained heads next) rows → r ∉ rows → 0 ≤ r < JHT_EMPTY → 0 ≤ slot r < cap →
  heads.[slot r] = Some old → next.[r] = Some old → zset heads (slot r) r = Some heads' →
  table_holds (Chained heads' next) (r :: rows).
Proof.
  intros (Hl & Hn & g & Hg) Hr Hb Hsl Ho Hnx Hz. split; [cbn; by rewrite (zlen_zset _ _ _ _ Hz)|]. split; [by constructor|].
  exists (λ s, if s =? slot r then r :: g s else g s). intros s Hs. destruct (Hg s Hs) as [(h & Hh & Hc) Hp].
  cbn [ht_next ht_heads List.filter] in *. destruct (Z.eqb_spec s (slot r)) as [->|Hne].
  - rewrite Z.eqb_refl. split; [|by rewrite Hp]. exists r. split; [by eapply zget_zset_eq|]. split; [done|]. split; [done|].
    exists old. split; [done|]. by simplify_eq.
  - rewrite (proj2 (Z.eqb_neq _ _)) by done. split; [|done]. exists h. split; [|done]. by rewrite (zget_zset_ne _ _ _ _ _ Hz) by done.
Qed.
Lemma table_perm t rows rows' : rows ≡ₚ rows' → table_holds t rows → table_holds t rows'.
Proof.
  intros Hp (Hl & Hn & g & Hg). split; [done|]. split; [by rewrite <- Hp|]. exists g. intros s Hs. destruct (Hg s Hs) as [? Hq].
  split; [done|]. rewrite Hq. by apply filter_perm.
Qed.
End table.

(** ** Building the chained table *)
Section build.
Context (asp : option key_filter) (rvs : list (option key_vec)) (cap nr : Z) (slot : Z → Z) (skip : Z → bool)
  (Hnr : 0 ≤ nr ≤ INT32_MAX)
  (Hslot : ∀ r, 0 ≤ r < nr → chain_slot rvs (cap - 1) r = Some (slot r) ∧ 0 ≤ slot r < cap)
  (Hskip : ∀ r, 0 ≤ r < nr → filtered asp rvs r = Some (skip r)).

Definition kept (rows : list Z) : list Z := List.filter (λ r, negb (skip r)) rows.

Lemma build_row_ok t r rows : 0 ≤ r < nr → r ∉ rows → zlen (ht_next t) = nr → table_holds slot cap t rows →
  ∃ t', build_row asp rvs (cap - 1) r t = Some t' ∧ zlen (ht_next t') = nr ∧
    table_holds slot cap t' (if skip r then rows else r :: rows).
Proof.
  intros Hr Hn Hl Ht. destruct t as [heads next]. cbn [ht_next] in Hl. unfold build_row. cbn [ht_heads ht_next].
  rewrite Hskip by done. cbn [mbind option_bind]. destruct (skip r).
  - destruct (zset_total next r JHT_EMPTY) as [next' Hz]; [lia|]. rewrite Hz. cbn [mbind option_bind]. eexists. split; [done|].
    split; [cbn; by rewrite (zlen_zset _ _ _ _ Hz)|]. by eapply table_link.
  - destruct (Hslot r Hr) as [-> Hs]. cbn [mbind option_bind]. pose proof Ht as (Hlh & _). cbn in Hlh.
    destruct (zget_is_Some heads (slot r)) as [old Ho]; [lia|]. rewrite Ho. cbn [mbind option_bind].
    destruct (zset_total next r old) as [next' Hz]; [lia|]. rewrite Hz. cbn [mbind option_bind].
    destruct (zset_total heads (slot r) r) as [heads' Hz']; [lia|]. rewrite Hz'. cbn [mbind option_bind]. eexists. split; [done|].
    split; [cbn; by rewrite (zlen_zset _ _ _ _ Hz)|]. unfold JHT_EMPTY, INT32_MAX in *.
    apply (table_push slot cap heads heads' next' r rows old); [by eapply table_link|done|unfold JHT_EMPTY; lia|done|done|by eapply zget_zset_eq|done].
Qed.

(** The rows of any duplicate-free list, one after the other *)
Lemma build_rows_ok l t : NoDup l → Forall (λ r, 0 ≤ r < nr) l → zlen (ht_next t) = nr → table_holds slot cap t [] →
  ∃ t', foldM (build_row asp rvs (cap - 1)) l t = Some t' ∧ zlen (ht_next t') = nr ∧ table_holds slot cap t' (kept l).
Proof.
  intros Hd Hl Hlen Ht.
  destruct (foldM_done (build_row asp rvs (cap - 1)) (λ pre t, zlen (ht_next t) = nr ∧ table_holds slot cap t (kept pre)) l t) as (t' & Hf & ? & ?); [done| |by exists t'].
  intros pre r post t1 Hsplit [Hlen1 Ht1]. rewrite Hsplit in Hd, Hl. apply Forall_app in Hl as [_ [Hr _]%Forall_cons].
  assert (Hnin : r ∉ kept pre).
  { intros [Hin _]%list_elem_of_In%List.filter_In. apply NoDup_app in Hd as (_ & Hd & _). apply (Hd r); [by apply list_elem_of_In|by left]. }
  destruct (build_row_ok t1 r (kept pre) Hr Hnin Hlen1 Ht1) as (t2 & Hb & Hl2 & Ht2). exists t2. split; [done|]. split; [done|].
  unfold kept in *. rewrite List.filter_app. cbn [List.filter]. destruct (skip r); cbn [negb]; [by rewrite app_nil_r|].
  eapply table_perm; [|done]. by rewrite Permutation_app_comm.
Qed.

(** *** All interleavings *)
Definition rows_left (b : builder) : list Z :=
  match b with Todo rows => rows | Loaded r _ _ rows | Linked r _ _ rows => r :: rows end.
Definition builder_ok (next : list Z) (b : builder) : Prop :=
  match b with
  | Todo _ => True
  | Loaded r s _ _ => s = slot r ∧ skip r = false
  | Linked r s old _ => s = slot r ∧ skip r = false ∧ next.[r] = Some old
  end.
Record building (s : build_state) (rows : list Z) : Prop := {
  b_len : zlen (ht_next (bs_table s)) = nr;
  b_holds : table_holds slot cap (bs_table s) rows;
  b_builders_ok : ∀ w b, bs_builders s !! w = Some b → builder_ok (ht_next (bs_table s)) b;
  b_rows : ∃ skipped, Forall (λ r, skip r = true) skipped ∧ Forall (λ r, skip r = false) rows ∧
    rows ++ skipped ++ mjoin (map rows_left (bs_builders s)) ≡ₚ range 0 nr;
}.

Lemma left_split (bs : list builder) w b : bs !! w = Some b →
  ∃ rest, mjoin (map rows_left bs) ≡ₚ rows_left b ++ rest ∧
    (∀ b', mjoin (map rows_left (<[w := b']> bs)) ≡ₚ rows_left b' ++ rest) ∧
    ∀ w' b', w' ≠ w → bs !! w' = Some b' → rows_left b' ⊆ rest.
Proof.
  revert w. induction bs as [|c bs IH]; intros w Hw; [done|]. destruct w as [|w].
  - injection Hw as ->. exists (mjoin (map rows_left bs)). split; [done|]. split; [done|].
    intros [|w'] b' Hne Hb'; [done|]. intros r Hr. apply list_elem_of_join. exists (rows_left b'). split; [done|].
    apply list_elem_of_fmap. exists b'. split; [done|]. by eapply list_elem_of_lookup_2.
  - destruct (IH w Hw) as (rest & Hp & Hi & Ho). exists (rows_left c ++ rest). cbn [map]. rewrite mjoin_cons. split; [|split].
    + rewrite Hp. rewrite !app_assoc. apply Permutation_app_tail, Permutation_app_comm.
    + intros b'. cbn [insert list_insert map]. rewrite mjoin_cons, (Hi b'). rewrite !app_assoc. apply Permutation_app_tail, Permutation_app_comm.
    + intros [|w'] b' Hne Hb'; [injection Hb' as ->; set_solver|]. specialize (Ho w' b'). set_solver.
Qed.

Lemma building_range s rows w b r : building s rows → bs_builders s !! w = Some b → r ∈ rows_left b →
  0 ≤ r < nr ∧ (r ∉ rows) ∧ ∀ w' b', w' ≠ w → bs_builders s !! w' = Some b' → r ∉ rows_left b'.
Proof.
  intros [_ _ _ (sk & _ & _ & Hp)] Hw Hr. destruct (left_split _ _ _ Hw) as (rest & Hb & _ & Ho). rewrite Hb in Hp.
  assert (Hnd : NoDup (rows ++ sk ++ rows_left b ++ rest)) by (rewrite Hp; apply NoDup_range).
  split; [apply elem_of_range; rewrite <- Hp; set_solver|]. apply NoDup_app in Hnd as (_ & Hd & Hnd).
  split; [intros Hin; apply (Hd r Hin); set_solver|]. intros w' b' Hne Hb' Hin. apply NoDup_app in Hnd as (_ & _ & Hnd).
  apply NoDup_app in Hnd as (_ & Hd' & _). apply (Hd' r Hr). by apply (Ho w' b').
Qed.

(** A step of one builder leaves the others as they are. *)
Lemma builders_step (bs : list builder) w b b' next next' r :
  bs !! w = Some b → (∀ w' b', bs !! w' = Some b' → builder_ok next b') →
  (∀ q, q ≠ r → next'.[q] = next.[q]) → (∀ w' c, w' ≠ w → bs !! w' = Some c → r ∉ rows_left c) → builder_ok next' b' →
  ∀ w' c, (<[w := b']> bs) !! w' = Some c → builder_ok next' c.
Proof.
  intros Hw Hok Hag Hn Hb' w' c Hc. destruct (decide (w' = w)) as [->|Hne].
  - rewrite list_lookup_insert_eq in Hc by (by eapply lookup_lt_Some). by injection Hc as <-.
  - rewrite list_lookup_insert_ne in Hc by done. specialize (Hok w' c Hc). specialize (Hn w' c Hne Hc).
    destruct c as [|q s old|q s old]; [done..|]. cbn in *. rewrite Hag; [done|]. set_solver.
Qed.

(** The rows after a step: a row is skipped, or moves on, or is in the table. *)
Lemma building_move heads next next' bs w b b' rows r :
  building (BuildState (Chained heads next) bs) rows → bs !! w = Some b → r ∈ rows_left b →
  (next' = next ∨ ∃ v, zset next r v = Some next') → builder_ok next' b' → rows_left b' = rows_left b →
  building (BuildState (Chained heads next') (<[w := b']> bs)) rows.
Proof.
  intros Hb Hw Hr Hnext Hok Hleft. destruct (building_range _ _ w b r Hb Hw Hr) as (Hrange & Hnin & Hothers).
  destruct Hb as [Hl Ht Hbs (sk & Hs1 & Hs2 & Hp)]. cbn [bs_table bs_builders ht_next] in *.
  assert (Hag : ∀ q, q ≠ r → next'.[q] = next.[q]).
  { intros q Hq. destruct Hnext as [->|[v Hz]]; [done|]. by rewrite (zget_zset_ne _ _ _ _ _ Hz) by done. }
  split; cbn [bs_table bs_builders ht_next].
  - destruct Hnext as [->|[v Hz]]; [done|]. by rewrite (zlen_zset _ _ _ _ Hz).
  - destruct Hnext as [->|[v Hz]]; [done|]. by eapply table_link.
  - by apply (builders_step bs w b b' next next' r).
  - exists sk. split; [done|]. split; [done|]. destruct (left_split bs w b Hw) as (rest & Hb & Hi & _). rewrite Hi, Hleft, <- Hb. done.
Qed.

Lemma building_step s s' rows :
  building s rows → build_step asp rvs (cap - 1) s s' → ∃ rows', building s' rows'.
Proof.
  intros Hb Hstep. destruct Hstep as [heads next next' bs w r todo Hw Hf Hz|heads next bs w r sl old todo Hw Hf Hs Ho
    |heads next next' bs w r sl old todo Hw Hz|heads heads' next bs w r sl old todo Hw Ho Hz|heads next bs w r sl old cur todo Hw Hc].
  - destruct (building_range _ _ w _ r Hb Hw ltac:(cbn; set_solver)) as (Hr & Hnin & Hothers).
    assert (Hsk : skip r = true) by (rewrite Hskip in Hf by done; by injection Hf).
    destruct Hb as [Hl Ht Hbs (sk & Hs1 & Hs2 & Hp)]. cbn [bs_table bs_builders ht_next] in *. exists rows.
    split; cbn [bs_table bs_builders ht_next]; [by rewrite (zlen_zset _ _ _ _ Hz)|by eapply table_link| |].
    + apply (builders_step bs w (Todo (r :: todo)) (Todo todo) next next' r); try done. intros q Hq. by apply (zget_zset_ne _ _ _ _ _ Hz).
    + exists (r :: sk). split; [by constructor|]. split; [done|]. destruct (left_split bs w _ Hw) as (rest & Hb & Hi & _).
      rewrite Hi. rewrite Hb in Hp. rewrite <- Hp. cbn [rows_left]. apply Permutation_app_head.
      cbn [app]. rewrite <- !Permutation_middle. done.
  - destruct (building_range _ _ w _ r Hb Hw ltac:(cbn; set_solver)) as (Hr & _). destruct (Hslot r Hr) as [Hsl _].
    exists rows. apply (building_move heads next next bs w (Todo (r :: todo)) _ rows r Hb Hw); [cbn; set_solver|by left| |done].
    rewrite Hskip in Hf by done. cbn. split; congruence.
  - exists rows. assert (builder_ok next (Loaded r sl old todo)) as [Hsl Hk] by by apply (b_builders_ok _ _ Hb w).
    apply (building_move heads next next' bs w (Loaded r sl old todo) _ rows r Hb Hw); [cbn; set_solver|right; by exists old| |done].
    split; [done|]. split; [done|]. by eapply zget_zset_eq.
  - destruct (building_range _ _ w _ r Hb Hw ltac:(cbn; set_solver)) as (Hr & Hnin & Hothers). destruct (Hslot r Hr) as [_ Hrange].
    assert (builder_ok next (Linked r sl old todo)) as (-> & Hk & Hn) by by apply (b_builders_ok _ _ Hb w).
    destruct Hb as [Hl Ht Hbs (sk & Hs1 & Hs2 & Hp)]. cbn [bs_table bs_builders ht_next] in *. exists (r :: rows).
    split; cbn [bs_table bs_builders ht_next]; [done| | |].
    + unfold JHT_EMPTY, INT32_MAX in *. apply (table_push slot cap heads heads' next r rows old); try done. unfold JHT_EMPTY. lia.
    + by apply (builders_step bs w (Linked r (slot r) old todo) (Todo todo) next next r).
    + exists sk. split; [done|]. split; [by constructor|]. destruct (left_split bs w _ Hw) as (rest & Hb & Hi & _).
      rewrite Hi. rewrite Hb in Hp. rewrite <- Hp. cbn [rows_left app]. rewrite (Permutation_middle rows). apply Permutation_app_head.
      by rewrite Permutation_middle.
  - exists rows. assert (builder_ok next (Linked r sl old todo)) as (Hsl & Hk & _) by by apply (b_builders_ok _ _ Hb w).
    apply (building_move heads next next bs w (Linked r sl old todo) _ rows r Hb Hw); [cbn; set_solver|by left|done|done].
Qed.

(** No builder is ever stuck. *)
Lemma building_progress s rows w b r : building s rows → bs_builders s !! w = Some b → r ∈ rows_left b →
  ∃ s', build_step asp rvs (cap - 1) s s'.
Proof.
  intros Hb Hw Hr. destruct s as [[heads next] bs]. cbn [bs_builders] in Hw.
  assert (Hhead : ∃ q, match b with Todo rows => q ∈ rows ∧ head rows = Some q | Loaded q' _ _ _ | Linked q' _ _ _ => q = q' end).
  { destruct b as [[|q todo]|q ? ? ?|q ? ? ?]; [by apply not_elem_of_nil in Hr| |by exists q..]. exists q. set_solver. }
  destruct Hhead as [q Hq].
  assert (Hq' : q ∈ rows_left b) by (destruct b as [todo|? ? ? ?|? ? ? ?]; [apply Hq|subst; cbn; set_solver..]).
  destruct (building_range _ _ w b q Hb Hw Hq') as (Hrange & _). destruct (Hslot q Hrange) as [Hs Hs'].
  destruct Hb as [Hl (Hlh & _) Hbs _]. cbn [bs_table bs_builders ht_next ht_heads] in *. specialize (Hbs w b Hw).
  destruct (zget_is_Some heads (slot q)) as [old Ho]; [lia|].
  destruct b as [todo|q' sl old' todo|q' sl old' todo].
  - destruct Hq as [_ Hq]. destruct todo as [|? todo]; [done|]. injection Hq as ->. destruct (skip q) eqn:Hk.
    + destruct (zset_total next q JHT_EMPTY) as [next' Hz]; [lia|]. eexists. eapply bs_skip; [done|by rewrite Hskip, Hk by done|done].
    + eexists. eapply bs_load; [done|by rewrite Hskip, Hk by done|done|done].
  - subst q'. destruct (zset_total next q old') as [next' Hz]; [lia|]. eexists. eapply bs_link; done.
  - subst q'. destruct Hbs as (-> & _). eexists. by eapply bs_retry.
Qed.

Lemma building_done s rows : building s rows → (∀ w b, bs_builders s !! w = Some b → rows_left b = []) →
  table_holds slot cap (bs_table s) (kept (range 0 nr)).
Proof.
  intros [Hl Ht _ (sk & Hs1 & Hs2 & Hp)] Hdone. assert (mjoin (map rows_left (bs_builders s)) = []) as He.
  { clear - Hdone. induction (bs_builders s) as [|b bs IH]; [done|]. cbn [map]. rewrite mjoin_cons, (Hdone 0%nat b eq_refl). cbn [app].
    apply IH. intros w c Hw. by apply (Hdone (S w)). }
  rewrite He, app_nil_r in Hp. eapply table_perm; [|done]. unfold kept. rewrite <- (filter_perm _ _ _ Hp), List.filter_app.
  rewrite (filter_true _ rows) by (intros r Hr; rewrite Forall_forall in Hs2; by rewrite Hs2).
  assert (List.filter (λ r, negb (skip r)) sk = []) as ->; [|by rewrite app_nil_r].
  clear - Hs1. induction Hs1 as [|r sk Hr _ IH]; [done|]. cbn. by rewrite Hr.
Qed.

(** *** Runs *)
Notation steps := (rtc (build_step asp rvs (cap - 1))).
Definition built (s : build_state) : Prop := ∀ w b, bs_builders s !! w = Some b → rows_left b = [].
Definition left_to_do (s : build_state) : nat := length (mjoin (map rows_left (bs_builders s))).

Lemma building_steps s s' rows : building s rows → steps s s' → ∃ rows', building s' rows'.
Proof.
  intros Hb Hs. revert rows Hb. induction Hs as [s|s s1 s' Hstep _ IH]; intros rows Hb; [by exists rows|].
  destruct (building_step s s1 rows Hb Hstep) as [rows1 Hb1]. by eapply IH.
Qed.

Lemma left_insert (bs : list builder) w b b' : bs !! w = Some b → (length (rows_left b') < length (rows_left b))%nat →
  (length (mjoin (map rows_left (<[w := b']> bs))) < length (mjoin (map rows_left bs)))%nat.
Proof.
  intros Hw Hl. destruct (left_split bs w b Hw) as (rest & Hb & Hi & _).
  rewrite (Permutation_length (Hi b')), (Permutation_length Hb), !length_app. lia.
Qed.

Lemma head_read s rows r : building s rows → 0 ≤ r < nr → ∃ old, (ht_heads (bs_table s)).[slot r] = Some old.
Proof. intros [_ (Hl & _) _ _] Hr. apply zget_is_Some. destruct (Hslot r Hr). lia. Qed.

(** A builder that has just read the head of its slot puts its row in. *)
Lemma fresh_links heads next bs w r old todo rows :
  building (BuildState (Chained heads next) bs) rows → bs !! w = Some (Loaded r (slot r) old todo) → heads.[slot r] = Some old →
  ∃ s', steps (BuildState (Chained heads next) bs) s' ∧ bs_builders s' = <[w := Todo todo]> bs.
Proof.
  intros Hb Hw Ho. destruct (building_range _ _ w _ r Hb Hw ltac:(cbn; set_solver)) as (Hr & _).
  assert (Hl : zlen next = nr) by apply Hb.
  destruct (zset_total next r old) as [next' Hz]; [lia|]. destruct (zset_total heads (slot r) r) as [heads' Hz']; [by eapply zget_Some|].
  exists (BuildState (Chained heads' next') (<[w := Todo todo]> bs)). split; [|done].
  eapply rtc_l; [exact (bs_link asp rvs (cap - 1) heads next next' bs w r (slot r) old todo Hw Hz)|]. apply rtc_once.
  rewrite <- (list_insert_insert_eq bs w (Todo todo) (Linked r (slot r) old todo)). apply (bs_swap asp rvs (cap - 1) heads heads' next' _ w r (slot r) old todo); [|done|done].
  apply list_lookup_insert_eq. by eapply lookup_lt_Some.
Qed.
Lemma linked_retries heads next bs w r old todo rows :
  building (BuildState (Chained heads next) bs) rows → bs !! w = Some (Linked r (slot r) old todo) →
  ∃ s', steps (BuildState (Chained heads next) bs) s' ∧ bs_builders s' = <[w := Todo todo]> bs.
Proof.
  intros Hb Hw. destruct (building_range _ _ w _ r Hb Hw ltac:(cbn; set_solver)) as (Hr & _).
  destruct (head_read _ _ r Hb Hr) as [cur Hc]. cbn [bs_table ht_heads] in Hc.
  pose proof (bs_retry asp rvs (cap - 1) heads next bs w r (slot r) old cur todo Hw Hc) as Hstep.
  destruct (building_step _ _ rows Hb Hstep) as [rows' Hb'].
  destruct (fresh_links heads next _ w r cur todo rows' Hb') as (s' & Hs & Hbs); [|done|].
  { apply list_lookup_insert_eq. by eapply lookup_lt_Some. }
  exists s'. split; [by eapply rtc_l|]. by rewrite Hbs, list_insert_insert_eq.
Qed.
(** A builder left alone finishes its row. *)
Lemma row_finishes s rows w b : building s rows → bs_builders s !! w = Some b → rows_left b ≠ [] →
  ∃ s', steps s s' ∧ (left_to_do s' < left_to_do s)%nat.
Proof.
  intros Hb Hw Hne. destruct s as [[heads next] bs]. cbn [bs_builders] in Hw. unfold left_to_do. cbn [bs_builders].
  enough (∃ s' todo, steps (BuildState (Chained heads next) bs) s' ∧ bs_builders s' = <[w := Todo todo]> bs ∧ (length todo < length (rows_left b))%nat) as (s' & todo & Hs & Hbs & Hl).
  { exists s'. split; [done|]. rewrite Hbs. by eapply left_insert. }
  pose proof (b_builders_ok _ _ Hb w b Hw) as Hok. cbn [bs_table ht_next] in Hok.
  destruct b as [[|r todo]|r sl old todo|r sl old todo]; [done| | |].
  - destruct (building_range _ _ w _ r Hb Hw ltac:(cbn; set_solver)) as (Hr & _). destruct (Hslot r Hr) as [Hsl _].
    destruct (skip r) eqn:Hk.
    + assert (Hl : zlen next = nr) by apply Hb. destruct (zset_total next r JHT_EMPTY) as [next' Hz]; [lia|].
      eexists _, todo. split; [apply rtc_once; eapply bs_skip; [done|by rewrite Hskip, Hk|done]|]. cbn. split; [done|lia].
    + destruct (head_read _ _ r Hb Hr) as [old Ho]. cbn [bs_table ht_heads] in Ho.
      pose proof (bs_load asp rvs (cap - 1) heads next bs w r (slot r) old todo Hw ltac:(by rewrite Hskip, Hk) Hsl Ho) as Hstep.
      destruct (building_step _ _ rows Hb Hstep) as [rows' Hb'].
      destruct (fresh_links heads next _ w r old todo rows' Hb') as (s' & Hs & Hbs); [apply list_lookup_insert_eq; by eapply lookup_lt_Some|done|].
      exists s', todo. split; [by eapply rtc_l|]. rewrite Hbs, list_insert_insert_eq. cbn. split; [done|lia].
  - destruct Hok as [-> Hk]. destruct (building_range _ _ w _ r Hb Hw ltac:(cbn; set_solver)) as (Hr & _).
    assert (Hl : zlen next = nr) by apply Hb. destruct (zset_total next r old) as [next' Hz]; [lia|].
    pose proof (bs_link asp rvs (cap - 1) heads next next' bs w r (slot r) old todo Hw Hz) as Hstep.
    destruct (building_step _ _ rows Hb Hstep) as [rows' Hb'].
    destruct (linked_retries heads next' _ w r old todo rows' Hb') as (s' & Hs & Hbs); [apply list_lookup_insert_eq; by eapply lookup_lt_Some|].
    exists s', todo. split; [by eapply rtc_l|]. rewrite Hbs, list_insert_insert_eq. cbn. split; [done|lia].
  - destruct Hok as (-> & Hk & _). destruct (linked_retries heads next bs w r old todo rows Hb Hw) as (s' & Hs & Hbs).
    exists s', todo. split; [done|]. rewrite Hbs. cbn. split; [done|lia].
Qed.
(** Every run can be completed. *)
Lemma building_completes s rows : building s rows → ∃ s', steps s s' ∧ built s'.
Proof.
  remember (left_to_do s) as n eqn:Hn. revert s rows Hn. induction (lt_wf n) as [n _ IH]. intros s rows -> Hb.
  destruct (decide (Forall (λ b, rows_left b = []) (bs_builders s))) as [Hall|Hnot].
  { exists s. split; [done|]. intros w b Hw. rewrite Forall_lookup in Hall. by eapply Hall. }
  apply not_Forall_Exists in Hnot; [|intros b; apply _]. apply Exists_exists in Hnot as (b & [w Hw]%list_elem_of_lookup & Hne).
  destruct (row_finishes s rows w b Hb Hw Hne) as (s1 & Hs1 & Hlt). destruct (building_steps s s1 rows Hb Hs1) as [rows1 Hb1].
  destruct (IH _ Hlt s1 rows1 eq_refl Hb1) as (s' & Hs' & Hd). exists s'. split; [by etrans|done].
Qed.
(** The start: an empty table, and the rows dealt out. *)
Lemma building_start (heads next : list Z) (ws : list (list Z)) : zlen heads = cap → zlen next = nr →
  mjoin ws ≡ₚ range 0 nr → building (BuildState (Chained (map (λ _, JHT_EMPTY) heads) next) (map Todo ws)) [].
Proof.
  intros Hh Hn Hws. split; cbn [bs_table bs_builders ht_next]; [done|by apply table_empty| |].
  - intros w b Hw. apply list_elem_of_lookup_2, list_elem_of_fmap in Hw as (rows & -> & _). done.
  - exists []. split; [done|]. split; [done|]. rewrite map_map. cbn. by rewrite map_id.
Qed.
End build.
