(* ===== verification/JoinChain.v ===== *)
(** * Hash joins: probing chains, and the chained path *)

From S2P Require Import Prelude Pool PoolProofs Rowsel RowselProofs Hash Sort SortOrder SortRadix SortEnc SortPar Join JoinKeys.
Local Open Scope Z_scope.

(** ** Writing pairs *)
Definition put (e : Z * Z) (st : out * Z) : option (out * Z) :=
  '(o, off) ← emit (fst e) (snd e) st;
  m ← (if 0 <=? snd e then mark (snd e) (o_matched o) else Some (o_matched o));
  Some (Out (o_l o) (o_r o) m, off).

(** The rows met so far *)
Definition marked (nr : Z) (m0 : option (list Z)) (met : list Z) (m : option (list Z)) : Prop :=
  match m0, m with
  | None, None => True
  | Some _, Some m => zlen m = nr ∧ ∀ r, 0 ≤ r < nr → m.[r] = Some (if bool_decide (r ∈ met) then 1 else 0)
  | _, _ => False
  end.

Lemma mark_ext (P Q : Prop) `{Decision P} `{Decision Q} : (P ↔ Q) →
  Some (if bool_decide P then 1 else 0) = Some (if bool_decide Q then 1 else 0).
Proof. intros Hpq. by rewrite (bool_decide_ext P Q Hpq). Qed.

Lemma marked_none nr met : marked nr None met None.
Proof. done. Qed.
Lemma marked_start nr : 0 ≤ nr → marked nr (Some []) [] (Some (replicate (Z.to_nat nr) 0)).
Proof.
  intros Hn. split; [rewrite zlen_replicate; lia|]. intros r Hr. rewrite bool_decide_false by apply not_elem_of_nil.
  rewrite zget_nat by lia. apply lookup_replicate_2. lia.
Qed.
Lemma marked_perm nr m0 met met' m : met ≡ₚ met' → marked nr m0 met m → marked nr m0 met' m.
Proof.
  intros Hp. destruct m0, m; try done. intros [Hl Hm]. split; [done|]. intros r Hr. rewrite Hm by done.
  apply mark_ext. by rewrite Hp.
Qed.
(** Rows that are no rows do not matter. *)
Lemma marked_app_neg nr m0 met met' m : Forall (λ r, r < 0) met' → marked nr m0 met m → marked nr m0 (met ++ met') m.
Proof.
  intros Hneg. destruct m0, m; try done. intros [Hl Hm]. split; [done|]. intros r Hr. rewrite Hm by done.
  apply mark_ext. rewrite elem_of_app. rewrite Forall_forall in Hneg. split; [by left|].
  intros [|Hin]; [done|]. specialize (Hneg r Hin). lia.
Qed.
Lemma marked_mark nr m0 met m r : 0 ≤ r < nr → marked nr m0 met m → ∃ m', mark r m = Some m' ∧ marked nr m0 (met ++ [r]) m'.
Proof.
  intros Hr. destruct m0 as [l0|], m as [m|]; try done; [|by exists None]. intros [Hl Hm]. unfold mark.
  destruct (zset_total m r 1) as [m' Hz]; [lia|]. rewrite Hz. cbn [mbind option_bind]. exists (Some m'). split; [done|].
  split; [by rewrite (zlen_zset _ _ _ _ Hz)|]. intros q Hq. destruct (decide (r = q)) as [<-|Hne].
  - rewrite (zget_zset_eq _ _ _ _ Hz), bool_decide_true; [done|set_solver].
  - rewrite (zget_zset_ne _ _ _ _ _ Hz) by done. rewrite Hm by done. apply mark_ext. set_solver.
Qed.

Definition out_marked (nr : Z) (m0 : option (list Z)) (met : list Z) (o : out) : Prop := marked nr m0 met (o_matched o).

(** One more write in front of a run of writes *)
Lemma write_step (a a1 a' : list Z) x k off n : 0 ≤ n → zset a off x = Some a1 → holds a' (off + 1) k → agree_off a1 a' (off + 1) n →
  holds a' off (x :: k) ∧ agree_off a a' off (1 + n).
Proof.
  intros Hn Hz Hh Hag. split.
  - apply holds_cons; [|done]. destruct Hag as [_ Hag]. rewrite Hag by lia. by eapply zget_zset_eq.
  - eapply agree_off_trans; [eapply agree_off_mono; [by eapply agree_off_zset|lia|lia]|]. eapply agree_off_mono; [done|lia|lia].
Qed.

Definition emit_pair (e : Z * Z) (st : out * Z) : option (out * Z) := emit (fst e) (snd e) st.
Lemma emit_all es : ∀ li ri m off, 0 ≤ off → off + zlen es ≤ zlen li → zlen ri = zlen li →
  ∃ li' ri', foldM emit_pair es (Out li ri m, off) = Some (Out li' ri' m, off + zlen es) ∧
    holds li' off (map fst es) ∧ holds ri' off (map snd es) ∧ agree_off li li' off (zlen es) ∧ agree_off ri ri' off (zlen es).
Proof.
  induction es as [|[l r] es IH]; intros li ri m off Hoff Hlen Hri.
  { exists li, ri. rewrite zlen_nil, Z.add_0_r. repeat (split; [done || apply holds_nil|]). done. }
  rewrite zlen_cons in *. pose proof (zlen_nonneg es).
  destruct (zset_total li off l) as [li1 Hl1]; [lia|]. destruct (zset_total ri off r) as [ri1 Hr1]; [lia|].
  assert (Hput : emit_pair (l, r) (Out li ri m, off) = Some (Out li1 ri1 m, off + 1)).
  { unfold emit_pair, emit. cbn [fst snd]. rewrite Hl1. cbn [mbind option_bind]. by rewrite Hr1. }
  cbn [foldM]. rewrite Hput. cbn [mbind option_bind]. pose proof (zlen_zset _ _ _ _ Hl1). pose proof (zlen_zset _ _ _ _ Hr1).
  destruct (IH li1 ri1 m (off + 1)) as (li' & ri' & Hf & Hhl & Hhr & Hal & Har); [lia..|].
  exists li', ri'. rewrite Hf. split; [do 2 f_equal; lia|]. cbn [map fst snd].
  destruct (write_step li li1 li' l (map fst es) off (zlen es)), (write_step ri ri1 ri' r (map snd es) off (zlen es)); done.
Qed.

Lemma put_all nr m0 es : ∀ met li ri m off, 0 ≤ off → off + zlen es ≤ zlen li → zlen ri = zlen li →
  Forall (λ e, snd e < nr) es → marked nr m0 met m →
  ∃ li' ri' m', foldM put es (Out li ri m, off) = Some (Out li' ri' m', off + zlen es) ∧
    holds li' off (map fst es) ∧ holds ri' off (map snd es) ∧ agree_off li li' off (zlen es) ∧ agree_off ri ri' off (zlen es) ∧
    marked nr m0 (met ++ map snd es) m'.
Proof.
  induction es as [|[l r] es IH]; intros met li ri m off Hoff Hlen Hri Hes Hm.
  { exists li, ri, m. rewrite zlen_nil, Z.add_0_r, app_nil_r. repeat (split; [done || apply holds_nil|]). done. }
  rewrite zlen_cons in *. pose proof (zlen_nonneg es). apply Forall_cons in Hes as [Hr Hes]. cbn [snd] in Hr.
  destruct (zset_total li off l) as [li1 Hl1]; [lia|]. destruct (zset_total ri off r) as [ri1 Hr1]; [lia|].
  assert (∃ m1, (if 0 <=? r then mark r m else Some m) = Some m1 ∧ marked nr m0 (met ++ [r]) m1) as (m1 & Hmark & Hm1).
  { destruct (Z.leb_spec 0 r); [by apply marked_mark|]. exists m. split; [done|]. apply marked_app_neg; [by repeat constructor|done]. }
  assert (Hput : put (l, r) (Out li ri m, off) = Some (Out li1 ri1 m1, off + 1)).
  { unfold put, emit. cbn [fst snd]. rewrite Hl1. cbn [mbind option_bind]. rewrite Hr1. cbn [mbind option_bind o_matched o_l o_r]. by rewrite Hmark. }
  cbn [foldM]. rewrite Hput.
  cbn [mbind option_bind]. pose proof (zlen_zset _ _ _ _ Hl1). pose proof (zlen_zset _ _ _ _ Hr1).
  destruct (IH (met ++ [r]) li1 ri1 m1 (off + 1)) as (li' & ri' & m' & Hf & Hhl & Hhr & Hal & Har & Hm'); [lia|lia|lia|done|done|].
  exists li', ri', m'. rewrite Hf. split; [do 2 f_equal; lia|]. cbn [map fst snd].
  destruct (write_step li li1 li' l (map fst es) off (zlen es)), (write_step ri ri1 ri' r (map snd es) off (zlen es)); try done.
  repeat (split; [done|]). by rewrite <- app_assoc in Hm'.
Qed.

(** ** Numbered tasks *)
Section tasks.
Context `{Dispatcher} `{!DispatcherLaws}.

(** The ring has room for [n] tasks, perhaps after it has grown. *)
Definition tasks_fit (n : Z) : Prop := n ≤ ring_reserve ring_realloc_ok ring_cap n.

Lemma run_tasks_ok {S} n (fn : Z → Z → S → option S) (P : list Z → S → Prop) s :
  0 < n → (ray_pool_get = true → tasks_fit n) → P [] s →
  (∀ pre t s, 0 ≤ t < n → t ∉ pre → P pre s → ∃ s', fn t (t + 1) s = Some s' ∧ P (pre ++ [t]) s') →
  ∃ s' l, run_tasks n fn s = Some s' ∧ l ≡ₚ range 0 n ∧ P l s'.
Proof.
  intros Hn Hfit Hinit Hstep. unfold run_tasks.
  assert (∃ l, l ≡ₚ range 0 n ∧ (if ray_pool_get && (1 <? n) then ray_pool_dispatch_n fn n s else foldM (λ t, fn t (t + 1)) (range 0 n) s)
    = foldM (λ t, fn t (t + 1)) l s) as (l & Hl & ->).
  { destruct (ray_pool_get && (1 <? n)) eqn:Hp; [|by exists (range 0 n)]. apply andb_true_iff in Hp as [Hp _].
    specialize (Hfit Hp). unfold tasks_fit in Hfit. unfold ray_pool_dispatch_n, dispatch_n_tasks. rewrite (proj2 (Z.eqb_neq _ _)) by lia.
    cbv zeta. rewrite (proj2 (Z.ltb_ge _ _)) by done. cbn [snd].
    pose proof (run_order_perm (map (λ i, Task 0 i (i + 1)) (range 0 n))) as Hperm. apply Permutation_map_inv in Hperm as (l & -> & Hperm).
    exists l. split; [done|]. by rewrite foldM_map. }
  destruct (foldM_done (λ t, fn t (t + 1)) P l s) as (s' & -> & HP); [done| |by exists s', l].
  intros pre t post s1 Hsplit HP. apply Hstep; [|intros Hin|done].
  - apply elem_of_range. rewrite <- Hl, Hsplit. set_solver.
  - assert (Hnd : NoDup l) by (rewrite Hl; apply NoDup_range). rewrite Hsplit in Hnd. apply NoDup_app in Hnd as (_ & Hd & _).
    apply (Hd t Hin). by left.
Qed.
End tasks.

(** ** One left row

    [slot] and [lslot] are the slots of right and left rows; [skip] and
    [lskip] say which the filters pass over. *)
Section probe.
Context (t : chained) (cap : Z) (lvs rvs : list (option key_vec)) (jt nl nr : Z) (sjoin : option key_filter)
  (slot lslot : Z → Z) (skip lskip : Z → bool)
  (Hkeys : keys_ok nl nr lvs rvs) (Hnl : 0 ≤ nl ≤ INT32_MAX) (Hnr : 0 ≤ nr ≤ INT32_MAX)
  (Hlen : zlen (ht_next t) = nr) (Htable : table_holds slot cap t (kept skip (range 0 nr)))
  (Hlslot : ∀ l, 0 ≤ l < nl → chain_slot lvs (cap - 1) l = Some (lslot l) ∧ 0 ≤ lslot l < cap)
  (Hsame : ∀ l r, 0 ≤ l < nl → 0 ≤ r < nr → rows_meet lvs rvs l r = true → slot r = lslot l ∧ skip r = false)
  (Hlskip : ∀ l, 0 ≤ l < nl → filtered sjoin lvs l = Some (lskip l) ∧
     (lskip l = true → ∀ r, 0 ≤ r < nr → rows_meet lvs rvs l r = false)).
Notation meets l := (rows_meet lvs rvs l).

(** The chain a left row walks, and what the row emits. *)
Definition cands (l : Z) : list Z :=
  default [] (s ← chain_slot lvs (cap - 1) l; h ← (ht_heads t).[s];
              walk (length (ht_next t)) (ht_next t) h (λ r acc, Some (acc ++ [r])) []).
Definition emits (l : Z) : list (Z * Z) :=
  emitted jt l (if lskip l then [] else List.filter (meets l) (cands l)).

Lemma cands_ok l : 0 ≤ l < nl →
  ∃ h, (ht_heads t).[lslot l] = Some h ∧ chain (ht_next t) h (cands l) ∧ (length (cands l) ≤ length (ht_next t))%nat ∧
    cands l ≡ₚ List.filter (λ r, slot r =? lslot l) (kept skip (range 0 nr)).
Proof.
  intros Hl. destruct Htable as (_ & _ & g & Hg). destruct (Hlslot l Hl) as [Hs Hsr]. destruct (Hg _ Hsr) as [(h & Hh & Hc) Hp].
  assert (Hlg : (length (g (lslot l)) ≤ length (ht_next t))%nat).
  { apply Permutation_length in Hp. rewrite Hp. pose proof (filter_zlen_le (λ r, slot r =? lslot l) (kept skip (range 0 nr))).
    pose proof (filter_zlen_le (λ r, negb (skip r)) (range 0 nr)). rewrite zlen_range in *. unfold kept, zlen in *. lia. }
  assert (cands l = g (lslot l)) as ->; [|by exists h].
  unfold cands. rewrite Hs. cbn [mbind option_bind]. rewrite Hh. cbn [mbind option_bind]. rewrite (walk_chain _ _ (g (lslot l))) by done.
  rewrite (foldM_pure _ (λ acc r, acc ++ [r])) by done. cbn [default from_option id].
  enough (∀ (k acc : list Z), foldl (λ acc r, acc ++ [r]) acc k = acc ++ k) as -> by done.
  intros k. induction k as [|x k IH]; intros acc; [by rewrite app_nil_r|]. cbn [foldl]. by rewrite IH, <- app_assoc.
Qed.
Lemma cands_row l r : 0 ≤ l < nl → r ∈ cands l → 0 ≤ r < nr.
Proof.
  intros Hl Hr. destruct (cands_ok l Hl) as (_ & _ & _ & _ & Hp). rewrite Hp in Hr.
  apply list_elem_of_In, List.filter_In in Hr as [[Hr _]%List.filter_In _]. apply elem_of_range. by apply list_elem_of_In.
Qed.
Lemma cands_partners l : 0 ≤ l < nl → List.filter (meets l) (cands l) ≡ₚ partners lvs rvs nr l.
Proof.
  intros Hl. destruct (cands_ok l Hl) as (_ & _ & _ & _ & Hp). rewrite (filter_perm _ _ _ Hp). unfold kept, partners.
  rewrite !filter_and. erewrite filter_ext_in'; [done|]. intros r Hr%elem_of_range. apply eq_true_iff_eq.
  rewrite !andb_true_iff, negb_true_iff, Z.eqb_eq. split; [tauto|]. intros Hm. destruct (Hsame l r); tauto.
Qed.
Lemma emits_perm l : 0 ≤ l < nl → emits l ≡ₚ emitted jt l (partners lvs rvs nr l).
Proof.
  intros Hl. unfold emits. apply emitted_perm. destruct (lskip l) eqn:Hk; [|by apply cands_partners].
  destruct (Hlskip l Hl) as [_ Hno]. specialize (Hno Hk). unfold partners.
  assert (List.filter (meets l) (range 0 nr) = []) as ->; [|done].
  apply List.incl_l_nil. intros r [Hr Hm]%List.filter_In. rewrite Hno in Hm; [done|]. by apply elem_of_range, list_elem_of_In.
Qed.
Lemma emits_rows l : 0 ≤ l < nl → Forall (λ e, snd e < nr) (emits l).
Proof.
  intros Hl. apply Forall_forall. intros e He. unfold emits, emitted in He.
  destruct (if lskip l then [] else List.filter (meets l) (cands l)) as [|r rs] eqn:Hms.
  - destruct (1 <=? jt); [|by apply not_elem_of_nil in He]. apply list_elem_of_singleton in He as ->. cbn. lia.
  - apply list_elem_of_fmap in He as (q & -> & Hq). cbn. destruct (lskip l); [done|]. rewrite <- Hms in Hq.
    apply list_elem_of_In, List.filter_In in Hq as [Hq _]. apply (cands_row l q Hl). by apply list_elem_of_In.
Qed.

Lemma keys_eq_cands l r : 0 ≤ l < nl → r ∈ cands l → join_keys_eq lvs rvs l r = Some (meets l r).
Proof. intros Hl Hr. apply (join_keys_eq_ok nl nr); [done..|]. by apply (cands_row l). Qed.

(** A row that emits nothing of its own emits itself alone in an outer join. *)
Lemma zlen_emitted l ms : zlen (emitted jt l ms) = zlen ms + (if bool_decide (ms = []) && (1 <=? jt) then 1 else 0).
Proof.
  destruct ms as [|m ms].
  - rewrite bool_decide_true by done. cbn [emitted andb]. by destruct (1 <=? jt).
  - rewrite bool_decide_false by done. cbn [emitted andb]. autorewrite with zlen. lia.
Qed.

Lemma count_match_ok l r st : 0 ≤ l < nl → r ∈ cands l →
  count_match lvs rvs l r st = Some (if meets l r then (fst st + 1, true) else st).
Proof. intros Hl Hr. unfold count_match. by rewrite keys_eq_cands. Qed.
Lemma fill_match_ok l r st b : 0 ≤ l < nl → r ∈ cands l →
  fill_match lvs rvs l r (st, b) = if meets l r then st' ← put (l, r) st; Some (st', true) else Some (st, b).
Proof.
  intros Hl Hr. unfold fill_match. rewrite keys_eq_cands by done. cbn [mbind option_bind]. destruct (meets l r); [|done].
  unfold put. cbn [fst snd]. rewrite (proj2 (Z.leb_le 0 r)) by by apply (cands_row l).
  destruct (emit l r st) as [[o off]|]; [|done]. cbn [mbind option_bind]. by destruct (mark r (o_matched o)).
Qed.

Lemma count_row_ok l n : 0 ≤ l < nl → count_row t cap lvs rvs jt sjoin l n = Some (n + zlen (emits l)).
Proof.
  intros Hl. unfold count_row, emits. destruct (Hlskip l Hl) as [-> _]. cbn [mbind option_bind]. destruct (lskip l).
  { cbn. destruct (1 <=? jt); f_equal; autorewrite with zlen; lia. }
  destruct (Hlslot l Hl) as [-> _]. cbn [mbind option_bind]. destruct (cands_ok l Hl) as (h & -> & Hc & Hle & _). cbn [mbind option_bind].
  rewrite (walk_chain _ _ (cands l)) by done.
  assert (∀ c (st : Z * bool), (∀ r, r ∈ c → r ∈ cands l) → foldM (count_match lvs rvs l) c st =
    Some (fst st + zlen (List.filter (meets l) c), snd st || negb (bool_decide (List.filter (meets l) c = [])))) as ->.
  - intros c. induction c as [|r c IH]; intros [k b] Hin.
    { cbn [foldM List.filter]. rewrite bool_decide_true by done. cbn. by rewrite orb_false_r, Z.add_0_r. }
    cbn [foldM List.filter]. rewrite count_match_ok by (done || apply Hin; by left). cbn [mbind option_bind].
    destruct (meets l r); (rewrite IH by (intros; apply Hin; by right)); cbn [fst snd]; [|done].
    rewrite zlen_cons. rewrite (bool_decide_false (r :: _ = [])) by done. rewrite orb_true_l, orb_true_r. do 2 f_equal. lia.
  - cbn [mbind option_bind fst snd orb]. rewrite negb_involutive, zlen_emitted. destruct (_ && _); f_equal; lia.
  - done.
Qed.

Lemma fill_row_ok l st : 0 ≤ l < nl → fill_row t cap lvs rvs jt sjoin l st = foldM put (emits l) st.
Proof.
  intros Hl. unfold fill_row, emits.
  assert (Hself : ∀ st : out * Z, emit l (-1) st = put (l, -1) st).
  { intros [[li ri m] off]. unfold put, emit. cbn [fst snd]. destruct (zset li off l); [|done]. cbn. by destruct (zset ri off (-1)). }
  assert (Hone : ∀ e st, foldM put [e] st = put e st) by (intros e st0; cbn; by destruct (put e st0)).
  destruct (Hlskip l Hl) as [-> _]. cbn [mbind option_bind]. destruct (lskip l).
  { cbn [emitted]. destruct (1 <=? jt); [|done]. by rewrite Hone. }
  destruct (Hlslot l Hl) as [-> _]. cbn [mbind option_bind]. destruct (cands_ok l Hl) as (h & -> & Hc & Hle & _). cbn [mbind option_bind].
  rewrite (walk_chain _ _ (cands l)) by done.
  assert (∀ c (st : out * Z) (b : bool), (∀ r, r ∈ c → r ∈ cands l) → foldM (fill_match lvs rvs l) c (st, b) =
    st' ← foldM put (map (pair l) (List.filter (meets l) c)) st;
    Some (st', b || negb (bool_decide (List.filter (meets l) c = [])))) as ->; [| |done].
  - clear st. intros c. induction c as [|r c IH]; intros st b Hin.
    { cbn [foldM List.filter map mbind option_bind]. rewrite bool_decide_true by done. cbn. by rewrite orb_false_r. }
    cbn [foldM List.filter]. assert (Hr : r ∈ cands l) by (apply Hin; by left). rewrite fill_match_ok by done.
    destruct (meets l r); [|cbn [mbind option_bind]; by rewrite IH by (intros; apply Hin; by right)].
    cbn [map foldM]. destruct (put (l, r) st) as [st'|]; cbn [mbind option_bind]; [|done].
    rewrite IH by (intros; apply Hin; by right). rewrite (bool_decide_false (r :: _ = [])) by done. cbn [negb orb]. by rewrite orb_true_r.
  - cbn [orb]. destruct (List.filter (meets l) (cands l)) as [|r rs]; cbn [emitted].
    + cbn [map foldM mbind option_bind]. rewrite bool_decide_true by done. cbn [negb andb]. destruct (1 <=? jt); [|done]. by rewrite Hself, Hone.
    + destruct (foldM put (map (pair l) (r :: rs)) st); [|done]. cbn [mbind option_bind]. rewrite bool_decide_false by done. done.
Qed.
End probe.

Lemma forallb_filter_none {A} (p : A → bool) l : forallb (λ x, negb (p x)) l = true ↔ List.filter p l = [].
Proof. induction l as [|x l IH]; [done|]. cbn. destruct (p x); [done|]. apply IH. Qed.

(** ** The chained path *)
Lemma foldM_mjoin {A B S} (f : B → S → option S) (g : A → list B) l s :
  foldM (λ a, foldM f (g a)) l s = foldM f (mjoin (map g l)) s.
Proof.
  revert s. induction l as [|a l IH]; intros s; [done|]. cbn [map]. rewrite mjoin_cons, foldM_app. cbn [foldM].
  destruct (foldM f (g a) s); cbn [mbind option_bind]; [apply IH|done].
Qed.
Lemma mjoin_mjoin {A B C} (f : B → list C) (g : A → list B) l :
  mjoin (map (λ a, mjoin (map f (g a))) l) = mjoin (map f (mjoin (map g l))).
Proof. induction l as [|a l IH]; [done|]. cbn [map]. rewrite !mjoin_cons, IH, map_app, join_app. done. Qed.
Lemma mjoin_map_pointwise {A B} (f g : A → list B) l : (∀ x, x ∈ l → f x ≡ₚ g x) → mjoin (map f l) ≡ₚ mjoin (map g l).
Proof.
  induction l as [|x l IH]; intros H; [done|]. cbn [map]. rewrite !mjoin_cons.
  apply Permutation_app; [apply H; by left|apply IH; intros; apply H; by right].
Qed.
Lemma map_mjoin {A B} (f : A → B) (ls : list (list A)) : map f (mjoin ls) = mjoin (map (map f) ls).
Proof. induction ls as [|l ls IH]; [done|]. cbn [map]. by rewrite !mjoin_cons, map_app, IH. Qed.

Definition morsels (nl : Z) : Z := let n := (nl + JOIN_MORSEL - 1) / JOIN_MORSEL in if n =? 0 then 1 else n.
Lemma morsels_bound nl : 0 ≤ nl → 0 < morsels nl ∧ nl ≤ morsels nl * JOIN_MORSEL ∧ morsels nl ≤ nl + 1.
Proof. intros Hn. unfold morsels, JOIN_MORSEL. cbv zeta. zbool; Z.to_euclidean_division_equations; lia. Qed.
Lemma morsel_range nl t : morsel nl t = range (t * JOIN_MORSEL) (Z.min nl (t * JOIN_MORSEL + JOIN_MORSEL)).
Proof. unfold morsel. cbv zeta. f_equal. zbool; lia. Qed.
Lemma morsel_rows nl t l : 0 ≤ t → l ∈ morsel nl t → 0 ≤ l < nl.
Proof. intros Ht. rewrite morsel_range, elem_of_range. unfold JOIN_MORSEL. lia. Qed.
Lemma mjoin_morsels nl : 0 ≤ nl → mjoin (map (morsel nl) (range 0 (morsels nl))) = range 0 nl.
Proof.
  intros Hn. destruct (morsels_bound nl Hn) as (H0 & Hle & _).
  enough (∀ k, 0 ≤ k → mjoin (map (morsel nl) (range 0 k)) = range 0 (Z.min nl (k * JOIN_MORSEL))) as Hk.
  { rewrite Hk by lia. by rewrite Z.min_l by lia. }
  unfold JOIN_MORSEL in *. intros k Hk. pattern k. apply natlike_ind; [|clear k Hk; intros k Hk IH|done].
  { by rewrite Z.min_r by lia. }
  unfold Z.succ. rewrite range_snoc, map_app, join_app, IH by lia. cbn [map]. rewrite mjoin_cons, app_nil_r, morsel_range.
  unfold JOIN_MORSEL. replace ((k + 1) * 8192) with (k * 8192 + 8192) by lia. destruct (Z.le_ge_cases nl (k * 8192)).
  - rewrite (range_empty (k * 8192)), app_nil_r by lia. f_equal. lia.
  - rewrite Z.min_r by lia. apply range_app. lia.
Qed.

(** *** What a join answers *)
Section result.
Context `{JoinEnv} (lvs rvs : list (option key_vec)) (nl nr jt : Z).

Definition right_rest : list (Z * Z) := if jt =? 2 then map (pair (-1)) (right_only lvs rvs nl nr) else [].
(** Pairs of the specification, those of the right side alone at the end *)
Definition join_result (ix : index) : Prop :=
  ∃ ps, ps ≡ₚ joined lvs rvs nl nr jt ∧
    l_idx ix = map fst (ps ++ right_rest) ∧ r_idx ix = map snd (ps ++ right_rest) ∧ pair_count ix = zlen (ps ++ right_rest) ∧
    full_right_only_start ix = match right_rest with [] => -1 | _ => zlen ps end.
(** An error has its cause. *)
Definition join_error (e : join_err) : Prop :=
  match e with
  | JOIN_NYI => False
  | JOIN_OOM | JOIN_NULL => ∃ s n, served s n = false
  | JOIN_CANCEL => ∃ c, cancelled_at c = true
  end.
Definition join_outcome (res : option (join_err + index)) : Prop :=
  match res with Some (inr ix) => join_result ix | Some (inl e) => join_error e | None => False end.

Lemma alloc_cases s size n : 0 ≤ n →
  (∃ l, alloc s size n = Some l ∧ zlen l = n) ∨ alloc s size n = None ∧ ∃ s n, served s n = false.
Proof.
  intros Hn. unfold alloc. destruct (served s (size * n)) eqn:Hs; [left|right; split; [done|by eexists _, _]].
  eexists. split; [done|]. unfold fresh_mem. rewrite zlen_map, zlen_range. lia.
Qed.

(** *** The right rows that met nobody *)
Lemma met_joined r : 0 ≤ r < nr →
  r ∈ map snd (joined lvs rvs nl nr jt) ↔ forallb (λ l, negb (rows_meet lvs rvs l r)) (range 0 nl) = false.
Proof.
  intros Hr. unfold joined. rewrite map_mjoin, list_elem_of_join. split.
  - intros (k & Hrk & Hk). apply list_elem_of_fmap in Hk as (es & -> & Hes). apply list_elem_of_fmap in Hes as (l & -> & Hl).
    apply not_true_iff_false. intros Hall. rewrite forallb_forall in Hall.
    apply list_elem_of_fmap in Hrk as ([l' r'] & -> & He). cbn [snd] in *.
    unfold emitted in He. destruct (partners lvs rvs nr l) as [|m ms] eqn:Hms.
    { destruct (1 <=? jt); [|by apply not_elem_of_nil in He]. apply list_elem_of_singleton in He. simplify_eq. lia. }
    apply list_elem_of_fmap in He as (q & [= -> ->] & Hq). rewrite <- Hms in Hq.
    apply list_elem_of_In, List.filter_In in Hq as [_ Hq]. specialize (Hall l ltac:(by apply list_elem_of_In)). by rewrite Hq in Hall.
  - intros (l & Hl & Hm)%forallb_false. apply negb_false_iff in Hm.
    exists (map snd (emitted jt l (partners lvs rvs nr l))). split.
    + assert (Hin : r ∈ partners lvs rvs nr l).
      { apply list_elem_of_In, List.filter_In. split; [by apply list_elem_of_In, elem_of_range|done]. }
      unfold emitted. destruct (partners lvs rvs nr l) as [|m ms]; [by apply not_elem_of_nil in Hin|].
      rewrite map_map. apply list_elem_of_fmap. by exists r.
    + apply list_elem_of_fmap. eexists. split; [done|]. apply list_elem_of_fmap. by exists l.
Qed.

Lemma unmatched_rows m ps : 0 ≤ nr → ps ≡ₚ joined lvs rvs nl nr jt → marked nr (Some []) (map snd ps) (Some m) →
  unmatched_count m nr = Some (zlen (right_only lvs rvs nl nr)) ∧
  ∀ off li ri, 0 ≤ off → off + zlen (right_only lvs rvs nl nr) = zlen li → zlen ri = zlen li →
    ∃ li' ri', append_unmatched m nr off li ri = Some (li', ri') ∧ agree_off li li' off (zlen li - off) ∧ agree_off ri ri' off (zlen li - off) ∧
      holds li' off (map fst (map (pair (-1)) (right_only lvs rvs nl nr))) ∧ holds ri' off (right_only lvs rvs nl nr).
Proof.
  intros Hn Hps [Hl Hm].
  assert (Hz : ∀ r, 0 ≤ r < nr → ∃ v, m.[r] = Some v ∧ (v =? 0) = forallb (λ l, negb (rows_meet lvs rvs l r)) (range 0 nl)).
  { intros r Hr. rewrite Hm by done. eexists. split; [done|]. pose proof (met_joined r Hr) as Hmet.
    rewrite <- Hps in Hmet. case_bool_decide as Hin; [apply Hmet in Hin as ->; done|].
    symmetry. apply not_false_iff_true. by rewrite <- Hmet. }
  split.
  - unfold unmatched_count. rewrite (foldM_ext _ (λ r n, if forallb (λ l, negb (rows_meet lvs rvs l r)) (range 0 nl) then Some (n + 1) else Some n)).
    + rewrite (foldM_filter (λ r, forallb (λ l, negb (rows_meet lvs rvs l r)) (range 0 nl)) (λ r, r) (λ _ n, Some (n + 1))).
      rewrite foldM_count, map_id. done.
    + intros r n Hr%elem_of_range. destruct (Hz r Hr) as (v & -> & Hv). cbn [mbind option_bind]. rewrite Hv. by destruct (forallb _ _).
  - intros off li ri Hoff Hlen Hri. unfold append_unmatched.
    rewrite (foldM_ext _ (λ r st, if forallb (λ l, negb (rows_meet lvs rvs l r)) (range 0 nl) then emit_pair (-1, r) st else Some st)).
    2:{ intros r st Hr%elem_of_range. destruct (Hz r Hr) as (v & -> & Hv). cbn [mbind option_bind]. by rewrite Hv. }
    rewrite (foldM_filter (λ r, forallb (λ l, negb (rows_meet lvs rvs l r)) (range 0 nl)) (pair (-1)) emit_pair).
    fold (right_only lvs rvs nl nr). set (R := right_only lvs rvs nl nr) in *.
    destruct (emit_all (map (pair (-1)) R) li ri None off) as (li' & ri' & -> & Hhl & Hhr & Hal & Har); [lia|rewrite zlen_map; lia|lia|].
    cbn [mbind option_bind o_l o_r]. rewrite zlen_map in *. replace (zlen li - off) with (zlen R) by lia. exists li', ri'.
    repeat (split; [done|]). rewrite map_map in Hhr. by rewrite map_id in Hhr.
Qed.

Lemma copy_prefix_ok (src dst : list Z) n : 0 ≤ n ≤ zlen src → n ≤ zlen dst →
  ∃ dst', copy_prefix src n dst = Some dst' ∧ zlen dst' = zlen dst ∧ holds dst' 0 (take (Z.to_nat n) src).
Proof.
  intros Hn Hd. unfold copy_prefix.
  destruct (foldM_range (λ j dst, x ← src.[j]; zset dst j x) (λ j d, zlen d = zlen dst ∧ holds d 0 (take (Z.to_nat j) src)) 0 n dst) as (d & -> & Hl & Hh).
  - lia.
  - split; [done|apply holds_nil].
  - intros j d Hj [Hl Hh]. destruct (zget_is_Some src j) as [x Hx]; [lia|]. rewrite Hx. cbn [mbind option_bind].
    destruct (zset_total d j x) as [d' Hz]; [lia|]. exists d'. split; [done|]. split; [by rewrite (zlen_zset _ _ _ _ Hz)|].
    replace (Z.to_nat (j + 1)) with (S (Z.to_nat j)) by lia. rewrite zget_nat in Hx by lia. rewrite (take_S_r _ _ x Hx).
    eapply holds_snoc_write; [done|]. rewrite zlen_take. replace (0 + _) with j by lia. done.
  - by exists d.
Qed.

(** The pairs and then the rest, in arrays that had room for both *)
Lemma result_whole (a a' l k : list Z) :
  zlen a = zlen l + zlen k → holds a 0 l → agree_off a a' (zlen l) (zlen a - zlen l) → holds a' (zlen l) k → a' = l ++ k.
Proof.
  intros Hl Hh Hag Hk. apply holds_whole; [|rewrite zlen_app; destruct Hag as [-> _]; lia].
  apply holds_app; [|by rewrite Z.add_0_l]. eapply holds_agree; [done|done|lia].
Qed.

Lemma add_right_only_ok o ps :
  0 ≤ nr → ps ≡ₚ joined lvs rvs nl nr jt → o_l o = map fst ps → o_r o = map snd ps →
  marked nr (if (jt =? 2) && (0 <? nr) then Some [] else None) (map snd ps) (o_matched o) →
  join_outcome (add_right_only o jt nr (zlen ps)).
Proof.
  intros Hn Hps Hol Hor Hm.
  assert (Hnone : right_rest = [] → join_result (Index (o_l o) (o_r o) (zlen ps) (-1))).
  { intros Hr. exists ps. rewrite Hr, app_nil_r. cbn. done. }
  unfold add_right_only. destruct (o_matched o) as [m|] eqn:Hom.
  2:{ apply Hnone. unfold right_rest. destruct (jt =? 2); [|done]. cbn in Hm. destruct (Z.ltb_spec 0 nr); [done|].
      unfold right_only. by rewrite (range_empty 0 nr) by lia. }
  destruct (jt =? 2) eqn:Hjt; [|done]. cbn [negb andb] in *. destruct (0 <? nr); [|done].
  destruct (unmatched_rows m ps Hn Hps Hm) as [-> Happ]. cbn [mbind option_bind]. set (R := right_only lvs rvs nl nr) in *.
  assert (HR : right_rest = map (pair (-1)) R) by (unfold right_rest; by rewrite Hjt).
  pose proof (zlen_nonneg R). pose proof (zlen_nonneg ps). destruct (Z.leb_spec (zlen R) 0).
  { apply Hnone. rewrite HR. by rewrite (zlen_zero_nil R) by lia. }
  destruct (alloc_cases R_new_l 8 (zlen ps + zlen R)) as [(nl' & -> & Hl)|[-> ?]]; [lia| |done].
  destruct (alloc_cases R_new_r 8 (zlen ps + zlen R)) as [(nr' & -> & Hr)|[-> ?]]; [lia| |done].
  assert (∀ (src dst : list Z), zlen src = zlen ps → zlen dst = zlen ps + zlen R →
    ∃ dst', (if 0 <? zlen ps then copy_prefix src (zlen ps) dst else Some dst) = Some dst' ∧ zlen dst' = zlen dst ∧ holds dst' 0 src) as Hcopy.
  { intros src dst Hs Hd. destruct (Z.ltb_spec 0 (zlen ps)).
    - destruct (copy_prefix_ok src dst (zlen ps)) as (dst' & -> & Hl' & Hh); [lia|lia|]. exists dst'. split; [done|]. split; [done|].
      by rewrite take_ge in Hh by (unfold zlen in *; lia).
    - exists dst. split; [done|]. split; [done|]. rewrite (zlen_zero_nil src) by lia. apply holds_nil. }
  destruct (Hcopy (o_l o) nl') as (l1 & -> & Hl1 & Hh1); [rewrite Hol; apply zlen_map|lia|].
  destruct (Hcopy (o_r o) nr') as (r1 & -> & Hr1 & Hh2); [rewrite Hor; apply zlen_map|lia|]. cbn [mbind option_bind].
  destruct (Happ (zlen ps) l1 r1) as (li & ri & -> & Hal & Har & Hhl & Hhr); [lia|lia|lia|]. cbn [mbind option_bind join_outcome].
  exists ps. rewrite HR. split; [done|]. cbn [l_idx r_idx pair_count full_right_only_start]. rewrite !map_app, zlen_app, zlen_map.
  assert (Hlp : zlen (map fst ps) = zlen ps) by apply zlen_map. assert (Hrp : zlen (map snd ps) = zlen ps) by apply zlen_map.
  split; [|split; [|split; [done|]]].
  - rewrite Hol in Hh1. apply (result_whole l1); rewrite ?Hlp, ?zlen_map; [lia|done|done|done].
  - rewrite Hor in Hh2. rewrite map_map, map_id. apply (result_whole r1); rewrite ?Hrp; [lia|done| |done].
    replace (zlen r1 - zlen ps) with (zlen l1 - zlen ps) by lia. done.
  - destruct R as [|x R'] eqn:HRe; [|done]. rewrite zlen_nil in *. lia.
Qed.
End result.

Section chained_path.
Context `{Dispatcher} `{!DispatcherLaws} `{Workers} `{!WorkersLaws} `{JoinEnv}.

(** *** From the rows' emissions to the arrays, whatever the rows emit *)
Section arrays.
Context (t : chained) (cap : Z) (lvs rvs : list (option key_vec)) (jt nl nr : Z) (sjoin : option key_filter) (E : Z → list (Z * Z))
  (Hnl : 0 ≤ nl) (Hfit : ray_pool_get = true → tasks_fit (morsels nl))
  (Hcount : ∀ l n, 0 ≤ l < nl → count_row t cap lvs rvs jt sjoin l n = Some (n + zlen (E l)))
  (Hfill : ∀ l st, 0 ≤ l < nl → fill_row t cap lvs rvs jt sjoin l st = foldM put (E l) st)
  (Hrows : ∀ l, 0 ≤ l < nl → Forall (λ e, snd e < nr) (E l)).

Definition block (tid : Z) : list (Z * Z) := mjoin (map E (morsel nl tid)).

Lemma blocks_all : mjoin (map block (range 0 (morsels nl))) = mjoin (map E (range 0 nl)).
Proof. unfold block. by rewrite mjoin_mjoin, mjoin_morsels. Qed.
Lemma block_rows tid : 0 ≤ tid → Forall (λ e, snd e < nr) (block tid).
Proof.
  intros Ht. apply Forall_forall. intros e (es & He & Hes)%list_elem_of_join. apply list_elem_of_fmap in Hes as (l & -> & Hl).
  specialize (Hrows l (morsel_rows nl tid l Ht Hl)). rewrite Forall_forall in Hrows. by apply Hrows.
Qed.

Lemma count_phase counts : zlen counts = morsels nl + 1 →
  ∃ counts', run_tasks (morsels nl) (join_count_fn t cap lvs rvs jt nl sjoin) counts = Some counts' ∧
    zlen counts' = morsels nl + 1 ∧ ∀ k, 0 ≤ k < morsels nl → counts'.[k] = Some (zlen (block k)).
Proof.
  intros Hl. destruct (morsels_bound nl Hnl) as (Hpos & _).
  destruct (run_tasks_ok (morsels nl) (join_count_fn t cap lvs rvs jt nl sjoin)
    (λ done cs, zlen cs = morsels nl + 1 ∧ ∀ k, k ∈ done → cs.[k] = Some (zlen (block k))) counts) as (cs & l & -> & Hp & Hlc & Hc); [done|done| | |].
  - split; [done|]. by intros k ?%not_elem_of_nil.
  - intros pre k cs Hk Hnin [Hlc Hc]. unfold join_count_fn.
    rewrite (foldM_pure _ (λ n l, n + zlen (E l))) by (intros r n Hr; apply Hcount; apply (morsel_rows nl k r); [lia|done]).
    cbn [mbind option_bind]. rewrite foldl_zsum, Z.add_0_l. destruct (zset_total cs k (zsum (map (λ l, zlen (E l)) (morsel nl k)))) as [cs' Hz]; [lia|].
    rewrite Hz. exists cs'. split; [done|]. split; [by rewrite (zlen_zset _ _ _ _ Hz)|]. intros j [Hj|Hj]%elem_of_app.
    + rewrite (zget_zset_ne _ _ _ _ _ Hz); [by apply Hc|]. by intros ->.
    + apply list_elem_of_singleton in Hj as ->. rewrite (zget_zset_eq _ _ _ _ Hz). f_equal. unfold block. by rewrite zlen_mjoin, map_map.
  - exists cs. split; [done|]. split; [done|]. intros k Hk. apply Hc. rewrite Hp. by apply elem_of_range.
Qed.

Lemma offsets_phase counts : zlen counts = morsels nl + 1 → (∀ k, 0 ≤ k < morsels nl → counts.[k] = Some (zlen (block k))) →
  ∃ offs, prefix_offsets (morsels nl) counts = Some (offs, starts block (morsels nl)) ∧
    ∀ k, 0 ≤ k < morsels nl → offs.[k] = Some (starts block k).
Proof.
  intros Hl Hc. destruct (morsels_bound nl Hnl) as (Hpos & _). unfold prefix_offsets.
  destruct (foldM_range (λ t '(counts, total), cnt ← counts.[t]; counts ← zset counts t total; Some (counts, total + cnt))
    (λ k st, zlen (fst st) = morsels nl + 1 ∧ snd st = starts block k ∧
       ∀ j, 0 ≤ j < morsels nl → (fst st).[j] = Some (if j <? k then starts block j else zlen (block j)))
    0 (morsels nl) (counts, 0)) as ([offs tot] & -> & _ & Htot & Ho).
  - lia.
  - split; [done|]. split; [done|]. intros j Hj. rewrite (proj2 (Z.ltb_ge _ _)) by lia. by apply Hc.
  - intros k [cs tot] Hk (Hlc & Htot & Hj). cbn [fst snd] in *. rewrite Hj by done. rewrite Z.ltb_irrefl. cbn [mbind option_bind].
    destruct (zset_total cs k tot) as [cs' Hz]; [lia|]. rewrite Hz. cbn [mbind option_bind]. eexists. split; [done|]. cbn [fst snd].
    split; [by rewrite (zlen_zset _ _ _ _ Hz)|]. split; [rewrite starts_S by lia; lia|]. intros j Hjr. destruct (decide (j = k)) as [->|Hne].
    + rewrite (zget_zset_eq _ _ _ _ Hz), (proj2 (Z.ltb_lt _ _)) by lia. by rewrite Htot.
    + rewrite (zget_zset_ne _ _ _ _ _ Hz), Hj by done. f_equal. zbool; try done; lia.
  - cbn [fst snd] in *. exists offs. rewrite Htot. split; [done|]. intros k Hk. rewrite Ho by done. by rewrite (proj2 (Z.ltb_lt _ _)) by lia.
Qed.

Lemma fill_phase offs m0 m li ri : (∀ k, 0 ≤ k < morsels nl → offs.[k] = Some (starts block k)) →
  zlen li = starts block (morsels nl) → zlen ri = zlen li → marked nr m0 [] m →
  ∃ o, run_tasks (morsels nl) (join_fill_fn t cap lvs rvs jt nl sjoin offs) (Out li ri m) = Some o ∧
    let ps := mjoin (map E (range 0 nl)) in
    o_l o = map fst ps ∧ o_r o = map snd ps ∧ marked nr m0 (map snd ps) (o_matched o).
Proof.
  intros Ho Hli Hri Hm. destruct (morsels_bound nl Hnl) as (Hpos & _). set (N := morsels nl) in *.
  destruct (run_tasks_ok N (join_fill_fn t cap lvs rvs jt nl sjoin offs)
    (λ done o, zlen (o_l o) = starts block N ∧ zlen (o_r o) = starts block N ∧
       marked nr m0 (map snd (mjoin (map block done))) (o_matched o) ∧
       ∀ k, k ∈ done → 0 ≤ k < N ∧ holds (o_l o) (starts block k) (map fst (block k)) ∧ holds (o_r o) (starts block k) (map snd (block k)))
    (Out li ri m)) as (o & l & -> & Hp & Hl1 & Hl2 & Hmk & Hh); [done|done| | |].
  - split; [done|]. split; [cbn; lia|]. split; [done|]. by intros k ?%not_elem_of_nil.
  - intros pre k [li1 ri1 m1] Hk Hnin (Hl1 & Hl2 & Hmk & Hh). cbn [o_l o_r o_matched] in *. unfold join_fill_fn. rewrite Ho by done. cbn [mbind option_bind].
    rewrite (foldM_ext _ (λ l, foldM put (E l))) by (intros r st Hr; apply Hfill; apply (morsel_rows nl k r); [lia|done]).
    rewrite foldM_mjoin. fold (block k). pose proof (starts_mono block (k + 1) N ltac:(lia)) as Hmono. rewrite starts_S in Hmono by lia.
    pose proof (starts_nonneg block k). pose proof (zlen_nonneg (block k)).
    destruct (put_all nr m0 (block k) (map snd (mjoin (map block pre))) li1 ri1 m1 (starts block k)) as (li2 & ri2 & m2 & -> & Hhl & Hhr & Hal & Har & Hm2);
      [lia|lia|lia|apply block_rows; lia|done|]. cbn [mbind option_bind]. eexists. split; [done|]. cbn [o_l o_r o_matched].
    split; [destruct Hal as [-> _]; done|]. split; [destruct Har as [-> _]; done|]. split.
    { rewrite map_app, join_app. cbn [map]. rewrite mjoin_cons, app_nil_r, map_app. done. }
    intros j [Hj|Hj]%elem_of_app; [|apply list_elem_of_singleton in Hj as ->; done].
    destruct (Hh j Hj) as (Hjr & Hjl & Hjr'). split; [done|]. assert (j ≠ k) as Hne by by intros ->.
    pose proof (starts_disjoint block j k ltac:(lia) ltac:(lia) Hne).
    split; eapply holds_agree; try done; rewrite zlen_map; lia.
  - exists o. split; [done|]. cbv zeta. rewrite <- blocks_all. fold N.
    assert (Hwhole : ∀ (f : Z * Z → Z) a, zlen a = starts block N → (∀ k, 0 ≤ k < N → holds a (starts block k) (map f (block k))) →
      a = map f (mjoin (map block (range 0 N)))).
    { intros f a Ha Hk. rewrite map_mjoin, map_map. apply (chunks_whole a (λ k, map f (block k)) (starts block) N); [lia|done| |done|done].
      intros s Hs. rewrite zlen_map. apply starts_S. lia. }
    assert (Hall : ∀ k, 0 ≤ k < N → k ∈ l) by (intros k Hk; rewrite Hp; by apply elem_of_range).
    split; [apply Hwhole; [done|]; intros k Hk; by apply Hh, Hall|]. split; [apply Hwhole; [done|]; intros k Hk; by apply Hh, Hall|].
    eapply marked_perm; [|done]. apply Permutation_map. by apply mjoin_map_Permutation.
Qed.

Lemma starts_all : starts block (morsels nl) = zlen (mjoin (map E (range 0 nl))).
Proof. by rewrite starts_total, blocks_all. Qed.
End arrays.

(** *** Slots and filters *)

(** The right key of a factorized join is read as 64-bit integers. *)
Definition asp_safe (lvs rvs : list (option key_vec)) (factorized : bool) : Prop :=
  factorized = true → ∀ v, lvs = [Some v] → is_i64 v = true → ∃ w, rvs = [Some w] ∧ is_wide w.

Section path.
Context (lvs rvs : list (option key_vec)) (jt nl nr : Z)
  (Hkeys : keys_ok nl nr lvs rvs) (Hnl : 0 ≤ nl ≤ INT32_MAX) (Hnr : 0 ≤ nr ≤ INT32_MAX).

Definition slot_of (vs : list (option key_vec)) (cap row : Z) : Z := default 0 (chain_slot vs (cap - 1) row).

Lemma slot_ok n vs k row : 0 ≤ k → side_ok n vs → 0 ≤ row < n →
  chain_slot vs (2 ^ k - 1) row = Some (slot_of vs (2 ^ k) row) ∧ 0 ≤ slot_of vs (2 ^ k) row < 2 ^ k.
Proof.
  intros Hk Hs Hr. destruct (hash_row_total n vs row Hs Hr) as (h & Hh & _). unfold slot_of, chain_slot. rewrite Hh.
  cbn [mbind option_bind default from_option id]. split; [done|].
  replace (2 ^ k - 1) with (Z.ones k) by (rewrite Z.ones_equiv; lia). rewrite Z.land_ones by done. apply Z.mod_pos_bound, Z.pow_pos_nonneg; lia.
Qed.
Lemma slots_meet cap l r : 0 ≤ l < nl → 0 ≤ r < nr → rows_meet lvs rvs l r = true → slot_of rvs cap r = slot_of lvs cap l.
Proof. intros Hl Hr Hm. unfold slot_of, chain_slot. by rewrite (hash_rows_meet nl nr lvs rvs l r). Qed.

Lemma grow_to_pow fuel : ∀ k target, 0 ≤ k → ∃ j, 0 ≤ j ∧ k ≤ j ∧ grow_to fuel (2 ^ k) target = 2 ^ j.
Proof.
  induction fuel as [|fuel IH]; intros k target Hk; [by exists k|]. cbn. destruct (2 ^ k <? target); [|by exists k].
  rewrite Z.mul_comm, <- Z.pow_succ_r by done. destruct (IH (Z.succ k) target) as (j & ? & ? & ->); [lia|]. exists j. split; [done|]. split; [lia|done].
Qed.
Lemma chained_cap_ok n : ∃ k, 8 ≤ k ≤ 31 ∧ chained_cap n = 2 ^ k.
Proof.
  unfold chained_cap. change 256 with (2 ^ 8). destruct (grow_to_pow 56 8 (n * 2)) as (k & Hk & Hk' & ->); [done|]. destruct (Z.ltb_spec (2 ^ 32 - 1) (2 ^ k)); [by exists 31|].
  exists k. split; [|done]. split; [done|]. destruct (Z.le_gt_cases k 31); [done|]. pose proof (Z.pow_le_mono_r 2 32 k). lia.
Qed.

(** The left rows a filter of the right keys passes over *)
Lemma wide_of_i64 v : is_i64 v = true → is_wide v.
Proof. destruct v as [c| |]; [|done..]. cbn. intros Hc. exists c. split; [done|]. left. by destruct (col_type c). Qed.

Lemma sjoin_ok : ∃ sj, sjoin_filter jt lvs rvs nl nr = Some sj ∧
  ∀ l, 0 ≤ l < nl → ∃ b, filtered sj lvs l = Some b ∧ (b = true → ∀ r, 0 ≤ r < nr → rows_meet lvs rvs l r = false).
Proof.
  assert (Hnone : ∀ l, 0 ≤ l < nl → ∃ b, filtered None lvs l = Some b ∧ (b = true → ∀ r, 0 ≤ r < nr → rows_meet lvs rvs l r = false)).
  { intros l Hl. by exists false. }
  destruct Hkeys as [|? ? lvs' rvs' (lc & rc & -> & -> & Hlc & Hrc & Hc) Hrest]; [by exists None|].
  destruct Hrest as [|]; [|by exists None]. unfold sjoin_filter.
  destruct ((jt =? 0) && is_i64 lc && is_i64 rc && (nr * 2 <? nl)) eqn:Hcond; [|by exists None].
  apply andb_true_iff in Hcond as [[[_ Hil]%andb_true_iff Hir]%andb_true_iff _].
  destruct (make_filter_ok R_sjoin_sel nr rc) as (f & -> & Hf); [by apply wide_of_i64|done|lia|].
  destruct f as [f|]; [|by exists None]. exists (Some f). split; [done|]. intros l Hl.
  destruct (filtered_ok nr nl rc lc f l) as (b & Hb & Hno); [by apply wide_of_i64|done|by apply wide_of_i64|done|by apply Hf|done|].
  exists b. split; [done|]. intros Hbt r Hr. cbn. rewrite values_meet_sym, Hno by done. done.
Qed.

Lemma asp_ok factorized : asp_safe lvs rvs factorized → ∃ asp, asp_filter factorized jt lvs nl nr = Some asp ∧
  ∀ r, 0 ≤ r < nr → ∃ b, filtered asp rvs r = Some b ∧ (b = true → ∀ l, 0 ≤ l < nl → rows_meet lvs rvs l r = false).
Proof.
  intros Hsafe.
  assert (Hnone : ∀ r, 0 ≤ r < nr → ∃ b, filtered None rvs r = Some b ∧ (b = true → ∀ l, 0 ≤ l < nl → rows_meet lvs rvs l r = false)).
  { intros r Hr. by exists false. }
  destruct Hkeys as [|? ? lvs' rvs' (lc & rc & -> & -> & Hlc & Hrc & Hc) Hrest]; [by exists None|].
  destruct Hrest as [|]; [|by exists None]. unfold asp_filter.
  destruct ((jt =? 0) && is_i64 lc && (nl * 2 <? nr) && factorized) eqn:Hcond; [|by exists None].
  apply andb_true_iff in Hcond as [[[_ Hil]%andb_true_iff _]%andb_true_iff Hfac].
  destruct (Hsafe Hfac lc eq_refl Hil) as (w & [= <-] & Hw).
  destruct (make_filter_ok R_asp_sel nl lc) as (f & -> & Hf); [by apply wide_of_i64|done|lia|].
  destruct f as [f|]; [|by exists None]. exists (Some f). split; [done|]. intros r Hr.
  destruct (filtered_ok nl nr lc rc f r) as (b & Hb & Hno); [by apply wide_of_i64|done|done|done|by apply Hf|done|].
  exists b. split; [done|]. intros Hbt l Hl. cbn. by rewrite Hno.
Qed.

(** *** Probing *)
Lemma chained_probe_ok t k skip : 8 ≤ k ≤ 31 → (ray_pool_get = true → tasks_fit (morsels nl)) →
  zlen (ht_next t) = nr → table_holds (slot_of rvs (2 ^ k)) (2 ^ k) t (kept skip (range 0 nr)) →
  (∀ l r, 0 ≤ l < nl → 0 ≤ r < nr → rows_meet lvs rvs l r = true → skip r = false) →
  join_outcome lvs rvs nl nr jt (chained_probe t (2 ^ k) jt lvs rvs nl nr).
Proof.
  intros Hk Hfit Hlen Ht Hskip. unfold chained_probe. destruct sjoin_ok as (sj & -> & Hsj). cbn [mbind option_bind].
  set (lskip := λ l, default false (filtered sj lvs l)). set (N := u32 _). assert (HN : (if N =? 0 then 1 else N) = morsels nl).
  { unfold N. rewrite wrap_id; [done|]. unfold in_u, JOIN_MORSEL, INT32_MAX in *. Z.to_euclidean_division_equations; lia. }
  rewrite HN. clear N HN. destruct (morsels_bound nl ltac:(lia)) as (Hpos & _).
  unfold calloc at 1. destruct (served R_counts _) eqn:Hserve; [|by eexists _, _].
  set (m0 := if (jt =? 2) && (0 <? nr) then Some ([] : list Z) else None).
  assert (Hfull : (∃ m, (if (jt =? 2) && (0 <? nr) then calloc R_matched_chained 1 nr else None) = m ∧ marked nr m0 [] m) ∧
      (jt =? 2) && (0 <? nr) && negb (bool_decide (is_Some (if (jt =? 2) && (0 <? nr) then calloc R_matched_chained 1 nr else None))) = false ∨
    (jt =? 2) && (0 <? nr) && negb (bool_decide (is_Some (if (jt =? 2) && (0 <? nr) then calloc R_matched_chained 1 nr else None))) = true ∧ ∃ s n, served s n = false).
  { unfold m0. destruct ((jt =? 2) && (0 <? nr)); [|left; split; [by exists None|done]]. unfold calloc.
    destruct (served R_matched_chained (1 * nr)) eqn:Hs; [left|right; split; [done|by eexists _, _]]. split; [|done].
    eexists. split; [done|]. apply marked_start. lia. }
  destruct Hfull as [[(m & Hmd & Hm) ->]|[-> ?]]; [|done]. rewrite Hmd. clear Hmd.
  assert (Hls : ∀ l, 0 ≤ l < nl → filtered sj lvs l = Some (lskip l) ∧ (lskip l = true → ∀ r, 0 ≤ r < nr → rows_meet lvs rvs l r = false)).
  { intros l Hl. destruct (Hsj l Hl) as (b & Hb & Hno). unfold lskip. rewrite Hb. done. }
  assert (Hlslot : ∀ l, 0 ≤ l < nl → chain_slot lvs (2 ^ k - 1) l = Some (slot_of lvs (2 ^ k) l) ∧ 0 ≤ slot_of lvs (2 ^ k) l < 2 ^ k).
  { intros l Hl. apply (slot_ok nl); [lia|by eapply keys_ok_l|done]. }
  assert (Hsame : ∀ l r, 0 ≤ l < nl → 0 ≤ r < nr → rows_meet lvs rvs l r = true → slot_of rvs (2 ^ k) r = slot_of lvs (2 ^ k) l ∧ skip r = false).
  { intros l r Hl Hr Hmt. split; [by apply slots_meet|by apply (Hskip l r)]. }
  set (E := emits t (2 ^ k) lvs rvs jt lskip).
  assert (Hc : ∀ l n, 0 ≤ l < nl → count_row t (2 ^ k) lvs rvs jt sj l n = Some (n + zlen (E l))).
  { intros l n Hl. by eapply (count_row_ok t (2 ^ k) lvs rvs jt nl nr). }
  assert (Hf : ∀ l st, 0 ≤ l < nl → fill_row t (2 ^ k) lvs rvs jt sj l st = foldM put (E l) st).
  { intros l st Hl. by eapply (fill_row_ok t (2 ^ k) lvs rvs jt nl nr). }
  assert (Hr : ∀ l, 0 ≤ l < nl → Forall (λ e, snd e < nr) (E l)).
  { intros l Hl. by eapply (emits_rows t (2 ^ k) lvs rvs jt nl nr). }
  assert (Hps : mjoin (map E (range 0 nl)) ≡ₚ joined lvs rvs nl nr jt).
  { unfold joined. apply mjoin_map_pointwise. intros l Hl%elem_of_range. by eapply (emits_perm t (2 ^ k) lvs rvs jt nl nr). }
  destruct (count_phase t (2 ^ k) lvs rvs jt nl sj E) with (counts := replicate (Z.to_nat (morsels nl + 1)) 0) as (cs & -> & Hlc & Hcs);
    [lia|done|done|rewrite zlen_replicate; lia|]. cbn [mbind option_bind].
  destruct (offsets_phase nl E) with (counts := cs) as (offs & -> & Hoffs); [lia|done|done|]. cbn [mbind option_bind].
  rewrite (starts_all nl E) by lia. set (ps := mjoin (map E (range 0 nl))) in *. pose proof (zlen_nonneg ps).
  assert (Hend : ∀ o, o_l o = map fst ps → o_r o = map snd ps → marked nr m0 (map snd ps) (o_matched o) →
    join_outcome lvs rvs nl nr jt (if cancelled_at C_filled then Some (inl JOIN_CANCEL) else add_right_only o jt nr (zlen ps))).
  { intros o Hol Hor Hom. destruct (cancelled_at C_filled) eqn:Hcan; [by eexists|]. apply add_right_only_ok; [lia|done..]. }
  destruct (Z.ltb_spec 0 (zlen ps)).
  - destruct (alloc_cases R_l_idx_chained 8 (zlen ps)) as [(li & -> & Hli)|[-> ?]]; [lia| |done].
    destruct (alloc_cases R_r_idx_chained 8 (zlen ps)) as [(ri & -> & Hri)|[-> ?]]; [lia| |done].
    destruct (fill_phase t (2 ^ k) lvs rvs jt nl nr sj E) with (offs := offs) (m0 := m0) (m := m) (li := li) (ri := ri) as (o & -> & Ho1 & Ho2 & Ho3);
      [lia|done|done|done|done|rewrite starts_all by lia; done|lia|done|]. cbn [mbind option_bind]. by apply Hend.
  - cbn [mbind option_bind]. assert (Hnil : ps = []) by (apply zlen_zero_nil; lia). apply Hend; rewrite Hnil; done.
Qed.

Lemma chained_build_ok asp skip k (heads next : list Z) : 8 ≤ k ≤ 31 → zlen heads = 2 ^ k → zlen next = nr →
  (∀ r, 0 ≤ r < nr → filtered asp rvs r = Some (skip r)) →
  ∃ t, chained_build asp rvs (2 ^ k) nr (map (λ _, JHT_EMPTY) heads) next = Some t ∧ zlen (ht_next t) = nr ∧
    table_holds (slot_of rvs (2 ^ k)) (2 ^ k) t (kept skip (range 0 nr)).
Proof.
  intros Hk Hh Hn Hskip. unfold chained_build.
  destruct (par_each (ray_pool_get && (RAY_PARALLEL_THRESHOLD <? nr)) (join_build_fn asp rvs (2 ^ k - 1)) (build_row asp rvs (2 ^ k - 1))
    nr (Chained (map (λ _, JHT_EMPTY) heads) next)) as (l & Hl & ->); [unfold INT32_MAX in *; lia|done|].
  destruct (build_rows_ok asp rvs (2 ^ k) nr (slot_of rvs (2 ^ k)) skip Hnr) with (l := l) (t := Chained (map (λ _, JHT_EMPTY) heads) next) as (t & -> & Hln & Ht).
  - intros r Hr. apply (slot_ok nr); [lia|by eapply keys_ok_r|done].
  - done.
  - rewrite Hl. apply NoDup_range.
  - rewrite Hl. apply Forall_forall. intros r. apply elem_of_range.
  - done.
  - by apply table_empty.
  - exists t. split; [done|]. split; [done|]. eapply table_perm; [|done]. unfold kept. by apply filter_perm.
Qed.

Lemma chained_join_ok factorized : asp_safe lvs rvs factorized → (ray_pool_get = true → tasks_fit (morsels nl)) →
  join_outcome lvs rvs nl nr jt (chained_join factorized jt lvs rvs nl nr).
Proof.
  intros Hsafe Hfit. unfold chained_join. destruct (chained_cap_ok nr) as (k & Hk & ->).
  destruct (alloc_cases R_ht_next 4 nr) as [(next & -> & Hln)|[-> ?]]; [lia| |done].
  destruct (alloc_cases R_ht_heads 4 (2 ^ k)) as [(heads & -> & Hlh)|[-> ?]]; [apply Z.pow_nonneg; lia| |done].
  cbv zeta. destruct (asp_ok factorized Hsafe) as (asp & -> & Hasp). cbn [mbind option_bind].
  set (skip := λ r, default false (filtered asp rvs r)).
  assert (Hskip : ∀ r, 0 ≤ r < nr → filtered asp rvs r = Some (skip r) ∧ (skip r = true → ∀ l, 0 ≤ l < nl → rows_meet lvs rvs l r = false)).
  { intros r Hr. destruct (Hasp r Hr) as (b & Hb & Hno). unfold skip. rewrite Hb. done. }
  destruct (chained_build_ok asp skip k heads next) as (t & -> & Ht1 & Ht2); [done..|by intros r Hr; apply Hskip|]. cbn [mbind option_bind].
  destruct (cancelled_at C_built) eqn:Hcan; [by eexists|]. apply (chained_probe_ok t k skip); [done..|].
  intros l r Hl Hr Hm. apply not_true_iff_false. intros Hs. destruct (Hskip r Hr) as [_ Hno]. by rewrite (Hno Hs l Hl) in Hm.
Qed.

(** *** The antijoin *)
Definition anti_outcome (res : option (join_err + anti_result)) : Prop :=
  match res with
  | Some (inr (LeftRows rows)) => rows = left_only lvs rvs nl nr
  | Some (inr WholeLeft) => left_only lvs rvs nl nr = range 0 nl
  | Some (inl e) => join_error e
  | None => False
  end.

Lemma anti_rows_ok t k (kp : list Z) : 8 ≤ k ≤ 31 → zlen (ht_next t) = nr →
  table_holds (slot_of rvs (2 ^ k)) (2 ^ k) t (kept (λ _, false) (range 0 nr)) →
  ∀ ls idx cnt, Forall (λ l, 0 ≤ l < nl) ls → holds idx 0 kp → cnt = zlen kp → cnt + zlen ls ≤ zlen idx →
  match anti_rows ls t (2 ^ k) lvs rvs idx cnt with
  | Some (Some (idx', cnt')) => cnt' ≤ zlen idx' ∧
      take (Z.to_nat cnt') idx' = kp ++ List.filter (λ l, forallb (λ r, negb (rows_meet lvs rvs l r)) (range 0 nr)) ls
  | Some None => ∃ c, cancelled_at c = true
  | None => False
  end.
Proof.
  intros Hk Hlen Ht ls. revert kp. induction ls as [|l ls IH]; intros kp idx cnt Hls Hh -> Hroom.
  { cbn. rewrite zlen_nil in Hroom. split; [lia|]. rewrite app_nil_r. apply zlist_ext; [autorewrite with zlen; pose proof (zlen_nonneg kp); lia|].
    intros i Hi. autorewrite with zlen in Hi. rewrite zget_take by lia. rewrite <- (Hh i) by lia. f_equal. }
  apply Forall_cons in Hls as [Hl Hls]. rewrite zlen_cons in Hroom. pose proof (zlen_nonneg ls). pose proof (zlen_nonneg kp). cbn [anti_rows].
  destruct ((Z.land l 0xFFFF =? 0) && cancelled_at (C_anti_row l)) eqn:Hcan; [apply andb_true_iff in Hcan as [_ Hcan]; by eexists|].
  assert (Hlslot : ∀ l, 0 ≤ l < nl → chain_slot lvs (2 ^ k - 1) l = Some (slot_of lvs (2 ^ k) l) ∧ 0 ≤ slot_of lvs (2 ^ k) l < 2 ^ k).
  { intros q Hq. apply (slot_ok nl); [lia|by eapply keys_ok_l|done]. }
  assert (Hsame : ∀ l r, 0 ≤ l < nl → 0 ≤ r < nr → rows_meet lvs rvs l r = true → slot_of rvs (2 ^ k) r = slot_of lvs (2 ^ k) l ∧ false = false).
  { intros q r Hq Hr Hmt. split; [by apply slots_meet|done]. }
  destruct (Hlslot l Hl) as [-> _]. cbn [mbind option_bind].
  destruct (cands_ok t (2 ^ k) lvs nl nr (slot_of rvs (2 ^ k)) (slot_of lvs (2 ^ k)) (λ _, false)) with (l := l) as (h & -> & Hc & Hle & _); [done..|].
  cbn [mbind option_bind]. set (cs := cands t (2 ^ k) lvs l) in *.
  rewrite (walk_none_chain _ (rows_meet lvs rvs l) _ cs) by
    (done || intros r Hr; by eapply (keys_eq_cands t (2 ^ k) lvs rvs nl nr (slot_of rvs (2 ^ k)) (slot_of lvs (2 ^ k)) (λ _, false))).
  cbn [mbind option_bind].
  assert (Hall : forallb (λ r, negb (rows_meet lvs rvs l r)) cs = forallb (λ r, negb (rows_meet lvs rvs l r)) (range 0 nr)).
  { assert (Hp : List.filter (rows_meet lvs rvs l) cs ≡ₚ partners lvs rvs nr l).
    { by eapply (cands_partners t (2 ^ k) lvs rvs nl nr (slot_of rvs (2 ^ k)) (slot_of lvs (2 ^ k)) (λ _, false)). }
    unfold partners in Hp. apply eq_true_iff_eq. rewrite !forallb_filter_none. split; intros He; rewrite He in Hp;
      [by apply Permutation_nil in Hp|by apply Permutation_sym, Permutation_nil in Hp]. }
  rewrite Hall. cbn [List.filter]. destruct (forallb _ (range 0 nr)).
  - destruct (zset_total idx (zlen kp) l) as [idx' Hz]; [lia|]. rewrite Hz. cbn [mbind option_bind].
    specialize (IH (kp ++ [l]) idx' (zlen kp + 1) Hls). rewrite <- app_assoc in IH. apply IH.
    + by eapply holds_snoc_write; [|rewrite Z.add_0_l].
    + rewrite zlen_app. by rewrite zlen_cons, zlen_nil.
    + rewrite (zlen_zset _ _ _ _ Hz). lia.
  - apply (IH kp idx (zlen kp) Hls Hh eq_refl). lia.
Qed.

Lemma antijoin_ok : anti_outcome (antijoin_indices lvs rvs nl nr).
Proof.
  unfold antijoin_indices. rewrite !(proj2 (Z.ltb_ge _ _)) by lia. cbn [orb].
  destruct ((nr =? 0) || (nl =? 0)) eqn:Hz.
  { cbn. unfold left_only. apply orb_true_iff in Hz as [Hz%Z.eqb_eq|Hz%Z.eqb_eq].
    - rewrite (range_empty 0 nr) by lia. by apply filter_true.
    - rewrite (range_empty 0 nl) by lia. done. }
  destruct (negb (served R_anti_keys _)) eqn:Hs; [apply negb_true_iff in Hs; by eexists _, _|].
  destruct (keys_warm nl nr lvs rvs Hkeys) as [-> ->]. cbn [negb]. destruct (chained_cap_ok nr) as (k & Hk & ->).
  destruct (alloc_cases R_anti_next 4 nr) as [(next & -> & Hln)|[-> ?]]; [lia| |done].
  destruct (alloc_cases R_anti_heads 4 (2 ^ k)) as [(heads & -> & Hlh)|[-> ?]]; [apply Z.pow_nonneg; lia| |done].
  cbv zeta. destruct (chained_build_ok None (λ _, false) k heads next) as (t & -> & Ht1 & Ht2); [done..|]. cbn [mbind option_bind].
  destruct (cancelled_at C_anti_built) eqn:Hcan; [by eexists|].
  destruct (alloc_cases R_anti_out 8 nl) as [(idx & -> & Hli)|[-> ?]]; [lia| |done].
  pose proof (anti_rows_ok t k [] Hk Ht1 Ht2 (range 0 nl) idx 0) as Hrows.
  destruct (anti_rows (range 0 nl) t (2 ^ k) lvs rvs idx 0) as [[[idx' cnt]|]|]; cbn [mbind option_bind anti_outcome join_error].
  - apply Hrows; [apply Forall_forall; intros l; apply elem_of_range|apply holds_nil|done|rewrite zlen_range; lia].
  - apply Hrows; [apply Forall_forall; intros l; apply elem_of_range|apply holds_nil|done|rewrite zlen_range; lia].
  - apply Hrows; [apply Forall_forall; intros l; apply elem_of_range|apply holds_nil|done|rewrite zlen_range; lia].
Qed.
End path.
End chained_path.
