(* ===== verification/JoinRadix.v ===== *)
(** * Hash joins: the radix path

    Partitioning by the high bits of the hashes, with per-worker histograms
    and buffered scatters, and the open-addressing tables of the partitions. *)

From S2P Require Import Prelude Pool PoolProofs Rowsel RowselProofs Hash HashProofs Arena Sym SymRing Sort SortOrder SortRadix SortEnc SortPar.
From S2P Require Import Join JoinKeys JoinChain.
Local Open Scope Z_scope.

Lemma filter_mjoin {A} (f : A → bool) ls : List.filter f (mjoin ls) = mjoin (map (List.filter f) ls).
Proof. induction ls as [|l ls IH]; [done|]. cbn [map]. by rewrite !mjoin_cons, List.filter_app, IH. Qed.

Lemma mapM_map {A B} (f : A → option B) (g : A → B) l : (∀ x, x ∈ l → f x = Some (g x)) → mapM f l = Some (map g l).
Proof.
  induction l as [|x l IH]; intros Hf; [done|]. cbn. rewrite Hf by (by left). cbn [mbind option_bind].
  rewrite IH; [done|]. intros y Hy. apply Hf. by right.
Qed.
Lemma zip_map_self {A B} (g : A → B) l : zip l (map g l) = map (λ x, (x, g x)) l.
Proof. induction l as [|x l IH]; [done|]. cbn. by f_equal. Qed.

(** ** Partitioning *)
Section partitioning.
Context `{Dispatcher} `{!DispatcherLaws} `{Workers} `{!WorkersLaws} `{JoinEnv}.
Context (probe : bool) (hashes : list Z) (bits nrows : Z) (hash : Z → Z)
  (Hbits : 2 ≤ bits ≤ 14) (Hnrows : 0 ≤ nrows ≤ INT32_MAX)
  (Hhash : ∀ r, 0 ≤ r < nrows → hashes.[r] = Some (hash r)).
Notation np := (Z.shiftl 1 bits).
Notation part r := (part_of bits (hash r)).
Notation ent := (λ r, (r, hash r)).

Lemma np_pow : np = 2 ^ bits ∧ 4 ≤ np ≤ 16384.
Proof.
  rewrite Z.shiftl_1_l. split; [done|]. pose proof (Z.pow_le_mono_r 2 2 bits). pose proof (Z.pow_le_mono_r 2 bits 14). lia.
Qed.
Lemma part_range h : 0 ≤ part_of bits h < np.
Proof.
  unfold part_of. destruct np_pow as [-> Hb]. replace (2 ^ bits - 1) with (Z.ones bits) by (rewrite Z.ones_equiv; lia).
  rewrite Z.land_ones by lia. apply Z.mod_pos_bound. apply Z.pow_pos_nonneg; lia.
Qed.

(** The rows of [l] that belong to partition [p] *)
Definition of_part (p : Z) (l : list Z) : list Z := List.filter (λ r, part r =? p) l.
Lemma of_part_app p l k : of_part p (l ++ k) = of_part p l ++ of_part p k.
Proof. apply List.filter_app. Qed.
Lemma of_part_snoc p l r : of_part p (l ++ [r]) = if part r =? p then of_part p l ++ [r] else of_part p l.
Proof. rewrite of_part_app. unfold of_part. cbn. destruct (part r =? p); [done|apply app_nil_r]. Qed.
Lemma of_part_zlen p l : zlen (of_part p l) ≤ zlen l.
Proof. apply filter_zlen_le. Qed.

Section tasks.
Context (T : Z) (HT : 1 ≤ T).

(** The rows of a task, and those of them in a partition. *)
Definition task_rows (t : Z) : list Z := let '(lo, hi) := task_chunk nrows T t in range lo hi.
Definition cell (p t : Z) : list Z := of_part p (task_rows t).

Lemma task_rows_chunk t : 0 ≤ t → task_rows t = chunk (range 0 nrows) nrows T t.
Proof.
  intros Ht. unfold task_rows, chunk. destruct (chunk_size nrows T) as [Hc _]; [lia|done|].
  assert (Htake : ∀ n lo hi, 0 ≤ n → 0 ≤ lo → hi ≤ n → range lo hi = take (Z.to_nat (hi - lo)) (drop (Z.to_nat lo) (range 0 n))).
  { intros n lo hi Hn Hlo Hhi. destruct (Z.le_gt_cases hi lo); [rewrite range_empty by lia; by replace (Z.to_nat (hi - lo)) with 0%nat by lia|].
    rewrite <- (range_app 0 lo n) by lia. rewrite drop_app_length' by (unfold range; rewrite length_seqZ; lia).
    rewrite <- (range_app lo hi n) by lia. symmetry. apply take_app_length'. unfold range. rewrite length_seqZ. lia. }
  unfold task_chunk. cbv zeta. apply Htake; [lia|nia|]. zbool; lia.
Qed.
Lemma tasks_rows : mjoin (map task_rows (range 0 T)) = range 0 nrows.
Proof.
  transitivity (mjoin (map (chunk (range 0 nrows) nrows T) (range 0 T))).
  - f_equal. apply map_ext_in. intros t Ht%list_elem_of_In%elem_of_range. apply task_rows_chunk. lia.
  - apply mjoin_chunks; [rewrite zlen_range; lia|done].
Qed.
Lemma task_row t r : 0 ≤ t < T → r ∈ task_rows t → 0 ≤ r < nrows.
Proof.
  intros Ht Hr. apply elem_of_range. rewrite <- tasks_rows. apply list_elem_of_join. exists (task_rows t). split; [done|].
  apply list_elem_of_fmap. exists t. split; [done|]. by apply elem_of_range.
Qed.
Lemma cells_part p : mjoin (map (cell p) (range 0 T)) = of_part p (range 0 nrows).
Proof. rewrite <- tasks_rows. unfold cell, of_part. rewrite filter_mjoin, map_map. done. Qed.
Lemma cell_room p t : 0 ≤ t < T → 0 ≤ starts (cell p) t ∧ starts (cell p) t + zlen (cell p t) ≤ zlen (of_part p (range 0 nrows)).
Proof.
  intros Ht. split; [apply starts_nonneg; lia|]. rewrite <- starts_S by lia. rewrite <- cells_part, <- starts_total. apply starts_mono. lia.
Qed.
Lemma part_size p : 0 ≤ zlen (of_part p (range 0 nrows)) ≤ nrows.
Proof. pose proof (of_part_zlen p (range 0 nrows)). rewrite zlen_range in *. pose proof (zlen_nonneg (of_part p (range 0 nrows))). lia. Qed.

(** A task with nothing to do is the loop over no rows. *)
Lemma task_loop {S} (f : Z → S → option S) t s : 0 ≤ t →
  (let '(start, end_) := task_chunk nrows T t in if nrows <=? start then Some s else foldM f (range start end_) s) = foldM f (task_rows t) s.
Proof.
  intros Ht. unfold task_rows, task_chunk. cbv zeta. destruct (Z.leb_spec nrows (t * ((nrows + T - 1) / T))); [|done].
  rewrite range_empty; [done|]. zbool; lia.
Qed.

(** *** Histograms *)
Lemma table_index p t p' t' : 0 ≤ p < np → 0 ≤ p' < np → t * np + p = t' * np + p' ↔ t = t' ∧ p = p'.
Proof. intros Hp Hp'. split; [apply table_inj; lia|by intros [-> ->]]. Qed.

Definition hist_row (t r : Z) (hist : list Z) : option (list Z) :=
  h ← hashes.[r]; c ← hist.[t * np + part_of bits h]; zset hist (t * np + part_of bits h) (u32 (c + 1)).
Definition hist_inv (done : list Z) (hist : list Z) : Prop :=
  zlen hist = T * np ∧ ∀ t p, 0 ≤ t < T → 0 ≤ p < np → hist.[t * np + p] = Some (if bool_decide (t ∈ done) then zlen (cell p t) else 0).

Lemma hist_task t hist done : 0 ≤ t < T → t ∉ done → hist_inv done hist →
  ∃ hist', join_radix_hist_fn hashes bits nrows T t (t + 1) hist = Some hist' ∧ hist_inv (done ++ [t]) hist'.
Proof.
  intros Ht Hnin [Hl Hh]. unfold join_radix_hist_fn. cbv zeta. fold (hist_row t). rewrite (task_loop (hist_row t)) by lia.
  destruct (foldM_done (hist_row t) (λ pre h, zlen h = T * np ∧ ∀ t' p, 0 ≤ t' < T → 0 ≤ p < np →
     h.[t' * np + p] = Some (if t' =? t then zlen (of_part p pre) else if bool_decide (t' ∈ done) then zlen (cell p t') else 0))
     (task_rows t) hist) as (h' & -> & Hl' & Hh').
  - split; [done|]. intros t' p Ht' Hp. rewrite Hh by done. destruct (Z.eqb_spec t' t) as [->|]; [|done]. by rewrite bool_decide_false.
  - intros pre r post h Hsplit [Hlh Hhh]. assert (Hr : 0 ≤ r < nrows) by (apply (task_row t); [done|rewrite Hsplit; set_solver]).
    unfold hist_row. rewrite Hhash by done. cbn [mbind option_bind]. pose proof (part_range (hash r)) as Hp.
    rewrite Hhh by done. rewrite Z.eqb_refl. cbn [mbind option_bind].
    assert (Hsmall : 0 ≤ zlen (of_part (part r) pre) + 1 < 2 ^ 32).
    { pose proof (of_part_zlen (part r) pre). pose proof (zlen_nonneg (of_part (part r) pre)). pose proof (zlen_nonneg post).
      assert (zlen pre + (1 + zlen post) ≤ nrows).
      { rewrite <- (zlen_cons r), <- zlen_app, <- Hsplit. rewrite task_rows_chunk by lia. unfold chunk. destruct (task_chunk nrows T t) as [a b].
        rewrite zlen_take, zlen_drop, zlen_range. lia. }
      unfold INT32_MAX in *. lia. }
    rewrite (wrap_id 32) by done. assert (Hi : 0 ≤ t * np + part r < zlen h) by (rewrite Hlh; nia).
    destruct (zset_total h (t * np + part r) (zlen (of_part (part r) pre) + 1) Hi) as [h2 Hz]. exists h2. split; [done|].
    split; [by rewrite (zlen_zset _ _ _ _ Hz)|]. intros t' p Ht' Hp'. destruct (decide (t * np + part r = t' * np + p)) as [He|Hne].
    + rewrite <- He, (zget_zset_eq _ _ _ _ Hz). apply (table_index (part r) t p t') in He as [<- <-]; [|done..]. rewrite Z.eqb_refl, of_part_snoc, Z.eqb_refl.
      by rewrite zlen_app, zlen_cons, zlen_nil.
    + rewrite (zget_zset_ne _ _ _ _ _ Hz) by done. rewrite Hhh by done. destruct (Z.eqb_spec t' t) as [->|]; [|done].
      rewrite of_part_snoc. destruct (Z.eqb_spec (part r) p) as [<-|]; done.
  - exists h'. split; [done|]. split; [done|]. intros t' p Ht' Hp. rewrite Hh' by done. destruct (Z.eqb_spec t' t) as [->|Hne].
    + rewrite bool_decide_true by set_solver. done.
    + rewrite (bool_decide_ext (t' ∈ done) (t' ∈ done ++ [t])) by set_solver. done.
Qed.

Definition hist_full (hist : list Z) : Prop := ∀ t p, 0 ≤ t < T → 0 ≤ p < np → hist.[t * np + p] = Some (zlen (cell p t)).
Definition size (p : Z) : Z := zlen (of_part p (range 0 nrows)).

Lemma starts_size p t : 0 ≤ t ≤ T → 0 ≤ starts (cell p) t ≤ size p ∧ size p < 2 ^ 32.
Proof.
  intros Ht. pose proof (part_size p). unfold size. split; [|unfold INT32_MAX in *; lia]. split; [apply starts_nonneg; lia|].
  rewrite <- cells_part, <- starts_total. apply starts_mono. lia.
Qed.

Lemma part_counts_ok hist : hist_full hist → part_counts_of bits T hist = Some (map size (range 0 np)).
Proof.
  intros Hh. unfold part_counts_of. apply mapM_map. intros p Hp%elem_of_range.
  destruct (foldM_range (λ w total, c ← hist.[w * np + p]; Some (u32 (total + c))) (λ w n, n = starts (cell p) w) 0 T 0) as (n & -> & ->); [lia|done| |].
  - intros w n Hw ->. rewrite Hh by done. cbn [mbind option_bind]. eexists. split; [done|]. rewrite <- starts_S by lia.
    pose proof (starts_size p (w + 1)). apply wrap_id. unfold in_u. lia.
  - f_equal. unfold size. by rewrite <- cells_part, <- starts_total.
Qed.

Definition sized (parts : list (list entry)) : Prop := zlen parts = np ∧ ∀ p, 0 ≤ p < np → ∃ es, parts.[p] = Some es ∧ zlen es = size p.
Lemma alloc_parts_ok parts :
  mapM (alloc_part probe) (zip (range 0 np) (map size (range 0 np))) = Some parts → sized parts.
Proof.
  intros Hp. rewrite zip_map_self in Hp. apply mapM_Some_1 in Hp. pose proof np_pow as [_ Hnp]. split.
  - apply Forall2_length in Hp. unfold zlen. rewrite <- Hp. rewrite length_map. pose proof (zlen_range 0 np). unfold zlen in *. lia.
  - intros p Hpr. assert (Hx : map (λ p, (p, size p)) (range 0 np) !! Z.to_nat p = Some (p, size p)).
    { rewrite <- zget_nat by lia. by apply (zget_table (λ p, (p, size p)) np). }
    destruct (Forall2_lookup_l _ _ _ _ _ Hp Hx) as (es & Hes & Ha). exists es. rewrite zget_nat by lia. split; [done|].
    unfold alloc_part in Ha. pose proof (part_size p). fold (size p) in *. destruct (Z.eqb_spec (size p) 0) as [->|]; [by injection Ha as <-|].
    destruct (_ || _); [|done]. injection Ha as <-. unfold junk_entries. rewrite zlen_map, zlen_range. lia.
Qed.

Definition offsets_full (offs : list Z) : Prop :=
  zlen offs = T * np ∧ ∀ t p, 0 ≤ t < T → 0 ≤ p < np → offs.[t * np + p] = Some (starts (cell p) t).
Lemma part_offsets_ok hist offsets : hist_full hist → zlen offsets = T * np →
  ∃ offs, part_offsets bits T hist offsets = Some offs ∧ offsets_full offs.
Proof.
  intros Hh Hl. unfold part_offsets. pose proof np_pow as [_ Hnp].
  destruct (foldM_range (λ p offsets, '(offsets, _) ← foldM (λ w '(offsets, running), offsets ← zset offsets (w * np + p) running;
        c ← hist.[w * np + p]; Some (offsets, u32 (running + c))) (range 0 T) (offsets, 0); Some offsets)
    (λ k o, zlen o = T * np ∧ ∀ t p, 0 ≤ t < T → 0 ≤ p < k → o.[t * np + p] = Some (starts (cell p) t)) 0 np offsets) as (o & -> & Ho).
  - lia.
  - split; [done|]. lia.
  - intros p o Hp [Hlo Ho].
    destruct (foldM_range (λ w '(offsets, running), offsets ← zset offsets (w * np + p) running; c ← hist.[w * np + p]; Some (offsets, u32 (running + c)))
      (λ w st, snd st = starts (cell p) w ∧ zlen (fst st) = T * np ∧
         (∀ t q, 0 ≤ t < T → 0 ≤ q < p → (fst st).[t * np + q] = Some (starts (cell q) t)) ∧
         ∀ t, 0 ≤ t < w → (fst st).[t * np + p] = Some (starts (cell p) t)) 0 T (o, 0)) as ([o1 r1] & -> & _ & Hl1 & Hq & Ht1).
    + lia.
    + split; [done|]. split; [done|]. split; [done|]. lia.
    + intros w [o1 r1] Hw (Hr & Hl1 & Hq & Ht1). cbn [fst snd] in *. subst r1.
      destruct (zset_total o1 (w * np + p) (starts (cell p) w)) as [o2 Hz]; [nia|]. rewrite Hz. cbn [mbind option_bind].
      rewrite Hh by done. cbn [mbind option_bind]. eexists. split; [done|]. cbn [fst snd]. split.
      { rewrite <- starts_S by lia. pose proof (starts_size p (w + 1)). apply wrap_id. unfold in_u. lia. }
      split; [by rewrite (zlen_zset _ _ _ _ Hz)|]. split.
      * intros t q Ht Hqr. rewrite (zget_zset_ne _ _ _ _ _ Hz); [by apply Hq|]. intros He. apply table_inj in He; lia.
      * intros t Ht. destruct (decide (t = w)) as [->|]; [by rewrite (zget_zset_eq _ _ _ _ Hz)|].
        rewrite (zget_zset_ne _ _ _ _ _ Hz); [apply Ht1; lia|]. intros He. apply table_inj in He; lia.
    + cbn [mbind option_bind fst snd] in *. eexists. split; [done|]. split; [done|]. intros t q Ht Hqr.
      destruct (decide (q = p)) as [->|]; [by apply Ht1|]. apply Hq; lia.
  - by exists o.
Qed.

(** *** One task of the scatter, from the offsets [off0] and partitions [parts0] *)
Section task.
Context (t : Z) (Ht : 0 ≤ t < T) (off0 : list Z) (parts0 : list (list entry))
  (Hoff0 : zlen off0 = T * np) (Hoff : ∀ p, 0 ≤ p < np → off0.[t * np + p] = Some (starts (cell p) t)) (Hsized : sized parts0).
Notation o p := (starts (cell p) t).

Definition off_frame (off : list Z) : Prop :=
  zlen off = T * np ∧ ∀ t' p, t' ≠ t → 0 ≤ t' < T → 0 ≤ p < np → off.[t' * np + p] = off0.[t' * np + p].
(** The rows [F] have been written to partition [p], at its offset. *)
Definition flushed (off : list Z) (parts : list (list entry)) (p : Z) (F : list Z) : Prop :=
  off.[t * np + p] = Some (o p + zlen F) ∧
  ∃ es0 es, parts0.[p] = Some es0 ∧ parts.[p] = Some es ∧ agree_off es0 es (o p) (zlen (cell p t)) ∧ holds es (o p) (map ent F).

Lemma flushed_other off off' parts parts' p q F :
  0 ≤ p < np → 0 ≤ q < np → p ≠ q → agree_off off off' (t * np + q) 1 → parts'.[p] = parts.[p] → flushed off parts p F → flushed off' parts' p F.
Proof.
  intros Hp Hq Hne [_ Ha] Hps [Ho Hes]. unfold flushed. rewrite Hps. split; [|done]. rewrite Ha; [done|lia].
Qed.
Lemma frame_step off off' q : 0 ≤ q < np → off_frame off → agree_off off off' (t * np + q) 1 → off_frame off'.
Proof.
  intros Hq [Hl Ho] [Hl' Ha]. split; [lia|]. intros t' p Hne Ht' Hp. rewrite Ha; [by apply Ho|].
  destruct (decide (t' * np + p = t * np + q)) as [He|]; [apply table_inj in He; lia|lia].
Qed.
Lemma cell_prefix pre post p : task_rows t = pre ++ post → zlen (of_part p pre) ≤ zlen (cell p t).
Proof. intros Hc. unfold cell. rewrite Hc, of_part_app, zlen_app. pose proof (zlen_nonneg (of_part p post)). lia. Qed.
Lemma room p : o p + zlen (cell p t) ≤ size p ∧ 0 ≤ o p.
Proof. destruct (cell_room p t Ht). done. Qed.

(** One more row of a partition, written at its offset *)
Lemma flushed_more off parts p F G es' : 0 ≤ p < np → flushed off parts p F → zlen (F ++ G) ≤ zlen (cell p t) →
  (∃ es, parts.[p] = Some es ∧ agree_off es es' (o p + zlen F) (zlen G) ∧ holds es' (o p + zlen F) (map ent G)) →
  ∀ off' parts', off'.[t * np + p] = Some (o p + zlen (F ++ G)) → parts'.[p] = Some es' → flushed off' parts' p (F ++ G).
Proof.
  intros Hp (Ho & es0 & es & He0 & Hes & Hag & Hh) Hle (es1 & He1 & Hag' & Hh') off' parts' Ho' Hp'. simplify_eq. split; [done|].
  exists es0, es'. split; [done|]. split; [done|]. rewrite zlen_app in Hle. pose proof (zlen_nonneg F). pose proof (zlen_nonneg G). split.
  - eapply agree_off_trans; [done|]. eapply agree_off_mono; [done|lia|lia].
  - rewrite map_app. apply holds_app; [eapply holds_agree; [done|done|rewrite zlen_map; lia]|by rewrite zlen_map].
Qed.

(** **** Without buffers *)
Definition direct_inv (pre : list Z) (st : list Z * list (list entry)) : Prop :=
  off_frame (fst st) ∧ zlen (snd st) = np ∧ ∀ p, 0 ≤ p < np → flushed (fst st) (snd st) p (of_part p pre).

Lemma flushed_start p : 0 ≤ p < np → flushed off0 parts0 p [].
Proof.
  intros Hp. split; [rewrite zlen_nil, Z.add_0_r; by apply Hoff|]. destruct Hsized as [_ Hs]. destruct (Hs p Hp) as (es & Hes & _).
  exists es, es. repeat (split; [done|]). apply holds_nil.
Qed.
Lemma flushed_room off parts p F : 0 ≤ p < np → flushed off parts p F → ∃ es, parts.[p] = Some es ∧ zlen es = size p.
Proof.
  intros Hp (_ & es0 & es & He0 & Hes & [Hl _] & _). exists es. split; [done|]. destruct Hsized as [_ Hs]. destruct (Hs p Hp) as (es1 & He1 & Hl1).
  simplify_eq. lia.
Qed.

Lemma direct_step pre r post st : task_rows t = pre ++ r :: post → direct_inv pre st →
  ∃ st', direct_row hashes bits t r st = Some st' ∧ direct_inv (pre ++ [r]) st'.
Proof.
  intros Hc (Hfr & Hlp & Hall). destruct st as [off parts]. cbn [fst snd] in *. assert (Hr : 0 ≤ r < nrows) by (apply (task_row t); [done|rewrite Hc; set_solver]).
  unfold direct_row. rewrite Hhash by done. cbn [mbind option_bind]. pose proof (part_range (hash r)) as Hp. set (p := part r) in *.
  pose proof (Hall p Hp) as Hfl. pose proof Hfl as (Ho & _). rewrite Ho. cbn [mbind option_bind].
  assert (Hof : of_part p (pre ++ [r]) = of_part p pre ++ [r]) by (rewrite of_part_snoc; unfold p; by rewrite Z.eqb_refl).
  pose proof (cell_prefix (pre ++ [r]) post p ltac:(by rewrite <- app_assoc)) as Hle. rewrite Hof in Hle. pose proof (room p) as [Hroom Hop].
  rewrite zlen_app, zlen_cons, zlen_nil in Hle. pose proof (zlen_nonneg (of_part p pre)). pose proof (starts_size p t ltac:(lia)).
  rewrite (wrap_id 32 (_ + _ + 1)) by (unfold in_u; lia). destruct (zset_total off (t * np + p) (o p + zlen (of_part p pre) + 1)) as [off' Hz]; [destruct Hfr; nia|].
  rewrite Hz. cbn [mbind option_bind]. destruct (flushed_room off parts p _ Hp Hfl) as (es & Hes & Hles). rewrite Hes. cbn [mbind option_bind].
  rewrite (wrap_id 32 r) by (unfold in_u, INT32_MAX in *; lia).
  destruct (zset_total es (o p + zlen (of_part p pre)) (r, hash r)) as [es' Hz']; [lia|]. rewrite Hz'. cbn [mbind option_bind].
  destruct (zset_total parts p es') as [parts' Hzp]; [lia|]. rewrite Hzp. cbn [mbind option_bind]. eexists. split; [done|].
  split; [by eapply frame_step; [|done|eapply agree_off_zset]|]. cbn [fst snd]. split; [by rewrite (zlen_zset _ _ _ _ Hzp)|].
  intros q Hq. destruct (decide (q = p)) as [->|Hne].
  - rewrite Hof. eapply flushed_more; [done|done|rewrite zlen_app, zlen_cons, zlen_nil; lia| | |by eapply zget_zset_eq].
    + exists es. split; [done|]. split; [by eapply agree_off_zset|]. apply holds_single. by eapply zget_zset_eq.
    + rewrite (zget_zset_eq _ _ _ _ Hz), zlen_app, zlen_cons, zlen_nil. f_equal. lia.
  - rewrite of_part_snoc. fold p. rewrite (proj2 (Z.eqb_neq p q)) by congruence.
    eapply flushed_other; [done|exact Hp|done|by eapply agree_off_zset|by eapply zget_zset_ne|by apply Hall].
Qed.

Lemma direct_ok : ∃ off parts, foldM (direct_row hashes bits t) (task_rows t) (off0, parts0) = Some (off, parts) ∧ direct_inv (task_rows t) (off, parts).
Proof.
  destruct (foldM_done (direct_row hashes bits t) direct_inv (task_rows t) (off0, parts0)) as ([off parts] & Hf & Hi).
  - split; [by split|]. destruct Hsized. split; [done|]. intros p Hp. by apply flushed_start.
  - intros pre r post st Hc Hi. by apply (direct_step pre r post).
  - by exists off, parts.
Qed.

(** **** With write-combining buffers *)
Lemma copy_entries_ok (buf : list entry) p pos (G : list entry) parts es : 0 ≤ pos → pos + zlen G ≤ zlen es →
  holds buf (p * WCB_SIZE) G → parts.[p] = Some es →
  ∃ parts' es', copy_entries buf p (zlen G) pos parts = Some parts' ∧ zlen parts' = zlen parts ∧ parts'.[p] = Some es' ∧
    (∀ q, q ≠ p → parts'.[q] = parts.[q]) ∧ agree_off es es' pos (zlen G) ∧ holds es' pos G.
Proof.
  intros Hpos Hroom Hb Hes. unfold copy_entries. rewrite Hes. cbn [mbind option_bind]. pose proof (zlen_nonneg G).
  destruct (foldM_range (λ j es, e ← buf.[p * WCB_SIZE + j]; zset es (pos + j) e)
    (λ j es', agree_off es es' pos j ∧ holds es' pos (take (Z.to_nat j) G)) 0 (zlen G) es) as (es' & -> & Hag & Hh).
  - done.
  - split; [done|apply holds_nil].
  - intros j es1 Hj [Hag Hh]. destruct (zget_is_Some G j) as [x Hx]; [lia|]. rewrite Hb by lia. rewrite Hx. cbn [mbind option_bind].
    destruct (zset_total es1 (pos + j) x) as [es2 Hz]; [destruct Hag; lia|]. exists es2. split; [done|]. split.
    + eapply agree_off_trans; [eapply agree_off_mono; [done|lia|lia]|]. eapply agree_off_mono; [by eapply agree_off_zset|lia|lia].
    + replace (Z.to_nat (j + 1)) with (S (Z.to_nat j)) by lia. rewrite zget_nat in Hx by lia. rewrite (take_S_r _ _ x Hx).
      eapply holds_snoc_write; [done|]. rewrite zlen_take. by replace (Z.min (Z.of_nat (Z.to_nat j)) (zlen G)) with j by lia.
  - cbn [mbind option_bind]. rewrite take_ge in Hh by (unfold zlen; lia). apply zget_Some in Hes as Hr.
    destruct (zset_total parts p es' Hr) as [parts' Hz]. exists parts', es'. rewrite Hz. split; [done|]. split; [by rewrite (zlen_zset _ _ _ _ Hz)|].
    split; [by eapply zget_zset_eq|]. split; [|done]. intros q Hq. eapply zget_zset_ne; [done|congruence].
Qed.

Definition buffered (s : wcb) (p : Z) (F : list Z) : Prop :=
  ∃ F1 F2, F = F1 ++ F2 ∧ zlen F2 < WCB_SIZE ∧ (w_cnt s).[p] = Some (zlen F2) ∧ holds (w_buf s) (p * WCB_SIZE) (map ent F2) ∧
    flushed (w_off s) (w_parts s) p F1.
Definition wcb_frame (s : wcb) : Prop :=
  off_frame (w_off s) ∧ zlen (w_parts s) = np ∧ zlen (w_cnt s) = np ∧ zlen (w_buf s) = np * WCB_SIZE.
Definition wcb_inv (pre : list Z) (s : wcb) : Prop := wcb_frame s ∧ ∀ p, 0 ≤ p < np → buffered s p (of_part p pre).

(** The other partitions do not notice. *)
Lemma buffered_other s s' p q F : 0 ≤ p < np → 0 ≤ q < np → p ≠ q → buffered s p F →
  (w_cnt s').[p] = (w_cnt s).[p] → agree_off (w_buf s) (w_buf s') (q * WCB_SIZE) WCB_SIZE →
  agree_off (w_off s) (w_off s') (t * np + q) 1 → (w_parts s').[p] = (w_parts s).[p] → buffered s' p F.
Proof.
  intros Hp Hq Hne (F1 & F2 & HF & Hl & Hc & Hb & Hfl) Hcnt Hbuf Hof Hps. exists F1, F2. split; [done|]. split; [done|].
  split; [by rewrite Hcnt|]. split; [|by eapply flushed_other]. eapply holds_agree; [done|done|].
  rewrite zlen_map. unfold WCB_SIZE in *. pose proof (zlen_nonneg F2). lia.
Qed.

(** A flush of [n] buffered rows *)
Lemma flush_part off parts buf p F1 F2 : 0 ≤ p < np → off_frame off → zlen parts = np →
  flushed off parts p F1 → zlen (F1 ++ F2) ≤ zlen (cell p t) → holds buf (p * WCB_SIZE) (map ent F2) →
  ∃ parts' off', off.[t * np + p] = Some (o p + zlen F1) ∧ copy_entries buf p (zlen F2) (o p + zlen F1) parts = Some parts' ∧
    zset off (t * np + p) (u32 (o p + zlen F1 + zlen F2)) = Some off' ∧ off_frame off' ∧ zlen parts' = np ∧
    flushed off' parts' p (F1 ++ F2) ∧ agree_off off off' (t * np + p) 1 ∧ ∀ q, q ≠ p → parts'.[q] = parts.[q].
Proof.
  intros Hp Hfr Hlp Hfl Hle Hb. pose proof Hfl as (Ho & _). pose proof (room p) as [Hroom Hop]. pose proof (zlen_nonneg F1). pose proof (zlen_nonneg F2).
  pose proof Hle as Hle'. rewrite zlen_app in Hle'. pose proof (starts_size p t ltac:(lia)).
  destruct (flushed_room off parts p F1 Hp Hfl) as (es & Hes & Hles).
  destruct (copy_entries_ok buf p (o p + zlen F1) (map ent F2) parts es) as (parts' & es' & Hcp & Hlp' & Hes' & Hother & Hag & Hh);
    [lia|rewrite zlen_map; lia|done|done|]. rewrite zlen_map in *.
  rewrite (wrap_id 32) by (unfold in_u; lia).
  destruct (zset_total off (t * np + p) (o p + zlen F1 + zlen F2)) as [off' Hz]; [destruct Hfr; nia|].
  exists parts', off'. split; [done|]. split; [done|]. split; [done|]. split; [by eapply frame_step; [|done|eapply agree_off_zset]|]. split; [lia|].
  split; [|split; [by eapply agree_off_zset|done]]. eapply flushed_more; [done|exact Hfl|done| | |exact Hes'].
  - exists es. done.
  - rewrite (zget_zset_eq _ _ _ _ Hz), zlen_app. f_equal. lia.
Qed.

Lemma wcb_step pre r post s : task_rows t = pre ++ r :: post → wcb_inv pre s →
  ∃ s', wcb_row hashes bits t r s = Some s' ∧ wcb_inv (pre ++ [r]) s'.
Proof.
  intros Hc [(Hfr & Hlp & Hlc & Hlb) Hall]. destruct s as [cnt buf off parts]. cbn [w_cnt w_buf w_off w_parts] in *.
  assert (Hr : 0 ≤ r < nrows) by (apply (task_row t); [done|rewrite Hc; set_solver]).
  unfold wcb_row. rewrite Hhash by done. cbn [mbind option_bind]. pose proof (part_range (hash r)) as Hp. set (p := part r) in *.
  destruct (Hall p Hp) as (F1 & F2 & HF & Hl2 & Hcnt & Hb & Hfl). cbn [w_cnt w_buf w_off w_parts] in *. rewrite Hcnt. cbn [mbind option_bind].
  rewrite (wrap_id 32 r) by (unfold in_u, INT32_MAX in *; lia). pose proof (zlen_nonneg F1). pose proof (zlen_nonneg F2).
  destruct (zset_total buf (p * WCB_SIZE + zlen F2) (r, hash r)) as [buf' Hzb]; [unfold WCB_SIZE in *; lia|]. rewrite Hzb. cbn [mbind option_bind].
  assert (Hof : of_part p (pre ++ [r]) = F1 ++ F2 ++ [r]) by (rewrite of_part_snoc; unfold p; rewrite Z.eqb_refl, app_assoc; fold p; by rewrite HF).
  pose proof (cell_prefix (pre ++ [r]) post p ltac:(by rewrite <- app_assoc)) as Hle. rewrite Hof in Hle.
  assert (Hb' : holds buf' (p * WCB_SIZE) (map ent (F2 ++ [r]))).
  { rewrite map_app. eapply holds_snoc_write; [done|]. by rewrite zlen_map. }
  assert (Hag : agree_off buf buf' (p * WCB_SIZE) WCB_SIZE).
  { eapply agree_off_mono; [by eapply agree_off_zset|lia|unfold WCB_SIZE in *; lia]. }
  assert (Hothers : ∀ cnt' off' parts', (∀ q, q ≠ p → cnt'.[q] = cnt.[q]) → agree_off off off' (t * np + p) 1 → (∀ q, q ≠ p → parts'.[q] = parts.[q]) →
    ∀ q, 0 ≤ q < np → q ≠ p → buffered (Wcb cnt' buf' off' parts') q (of_part q (pre ++ [r]))).
  { intros cnt' off' parts' Hcn Hao Hpa q Hq Hne. rewrite of_part_snoc. fold p. rewrite (proj2 (Z.eqb_neq p q)) by congruence.
    eapply (buffered_other (Wcb cnt buf off parts)); [done|exact Hp|done|by apply Hall|by apply Hcn|done|done|by apply Hpa]. }
  destruct (Z.eqb_spec (zlen F2 + 1) WCB_SIZE) as [He|He].
  - destruct (flush_part off parts buf' p F1 (F2 ++ [r]) Hp Hfr Hlp Hfl Hle Hb') as (parts' & off' & -> & Hcp & Hzo & Hfr' & Hlp' & Hfl' & Hao & Hpa).
    rewrite zlen_app, zlen_cons, zlen_nil in Hcp, Hzo. replace (zlen F2 + (1 + 0)) with WCB_SIZE in Hcp, Hzo by lia.
    cbn [mbind option_bind]. rewrite Hcp. cbn [mbind option_bind]. rewrite Hzo. cbn [mbind option_bind].
    destruct (zset_total cnt p 0) as [cnt' Hzc]; [lia|]. rewrite Hzc. cbn [mbind option_bind]. eexists. split; [done|]. split.
    { split; [done|]. split; [done|]. cbn. split; [by rewrite (zlen_zset _ _ _ _ Hzc)|by rewrite (zlen_zset _ _ _ _ Hzb)]. }
    intros q Hq. destruct (decide (q = p)) as [->|Hne]; [|apply Hothers; try done; intros z Hz; eapply zget_zset_ne; [done|congruence]].
    rewrite Hof. exists (F1 ++ F2 ++ [r]), []. rewrite app_nil_r. cbn [w_cnt w_buf w_off w_parts]. split; [done|]. split; [done|].
    split; [by eapply zget_zset_eq|]. split; [apply holds_nil|done].
  - destruct (zset_total cnt p (zlen F2 + 1)) as [cnt' Hzc]; [lia|]. rewrite Hzc. cbn [mbind option_bind]. eexists. split; [done|]. split.
    { split; [done|]. split; [done|]. cbn. split; [by rewrite (zlen_zset _ _ _ _ Hzc)|by rewrite (zlen_zset _ _ _ _ Hzb)]. }
    intros q Hq. destruct (decide (q = p)) as [->|Hne]; [|apply Hothers; try done; intros z Hz; eapply zget_zset_ne; [done|congruence]].
    rewrite Hof. exists F1, (F2 ++ [r]). cbn [w_cnt w_buf w_off w_parts]. rewrite zlen_app, zlen_cons, zlen_nil. split; [done|]. split; [lia|].
    split; [rewrite (zget_zset_eq _ _ _ _ Hzc); f_equal; lia|]. done.
Qed.

(** The last flushes complete one partition after the other. *)
Definition rest_inv (k : Z) (s : wcb) : Prop :=
  wcb_frame s ∧ (∀ p, 0 ≤ p < k → flushed (w_off s) (w_parts s) p (cell p t)) ∧ ∀ p, k ≤ p < np → buffered s p (cell p t).
Lemma rest_step k s : 0 ≤ k < np → rest_inv k s → ∃ s', wcb_rest bits t k s = Some s' ∧ rest_inv (k + 1) s'.
Proof.
  intros Hk ((Hfr & Hlp & Hlc & Hlb) & Hdone & Hrest). destruct s as [cnt buf off parts]. cbn [w_cnt w_buf w_off w_parts] in *.
  destruct (Hrest k) as (F1 & F2 & HF & Hl2 & Hcnt & Hb & Hfl); [lia|]. cbn [w_cnt w_buf w_off w_parts] in *. unfold wcb_rest. rewrite Hcnt. cbn [mbind option_bind].
  destruct (Z.ltb_spec 0 (zlen F2)).
  - destruct (flush_part off parts buf k F1 F2 Hk Hfr Hlp Hfl) as (parts' & off' & -> & Hcp & Hzo & Hfr' & Hlp' & Hfl' & Hao & Hpa); [by rewrite <- HF|done|].
    cbn [mbind option_bind]. rewrite Hcp. cbn [mbind option_bind]. rewrite Hzo. cbn [mbind option_bind]. eexists. split; [done|]. split; [done|]. cbn [w_cnt w_buf w_off w_parts]. split.
    + intros p Hp. destruct (decide (p = k)) as [->|Hne]; [by rewrite HF|]. eapply flushed_other; [lia|exact Hk|done|done|by apply Hpa|apply Hdone; lia].
    + intros p Hp. eapply (buffered_other (Wcb cnt buf off parts)); [lia|exact Hk|lia|apply Hrest; lia|done|done|done|apply Hpa; lia].
  - exists (Wcb cnt buf off parts). split; [done|]. split; [done|]. cbn [w_cnt w_buf w_off w_parts]. split; [|intros p Hp; apply Hrest; lia].
    intros p Hp. destruct (decide (p = k)) as [->|Hne]; [|apply Hdone; lia]. pose proof (zlen_nonneg F2). rewrite HF, (zlen_zero_nil F2), app_nil_r by lia. done.
Qed.

Lemma buffered_ok : ∃ s, (s ← foldM (wcb_row hashes bits t) (task_rows t) (Wcb (replicate (Z.to_nat np) 0) (junk_entries (np * WCB_SIZE)) off0 parts0);
    foldM (wcb_rest bits t) (range 0 np) s) = Some s ∧ direct_inv (task_rows t) (w_off s, w_parts s).
Proof.
  pose proof np_pow as [_ Hnp].
  destruct (foldM_done (wcb_row hashes bits t) wcb_inv (task_rows t) (Wcb (replicate (Z.to_nat np) 0) (junk_entries (np * WCB_SIZE)) off0 parts0)) as (s1 & -> & Hfr & Hi).
  - split.
    + destruct Hsized as [Hlp _]. split; [by split|]. split; [done|]. cbn. rewrite zlen_replicate. unfold junk_entries. rewrite zlen_map, zlen_range. unfold WCB_SIZE. lia.
    + intros p Hp. exists [], []. split; [done|]. split; [done|]. cbn [w_cnt w_buf w_off w_parts]. split; [|split; [apply holds_nil|by apply flushed_start]].
      rewrite zget_nat by lia. rewrite lookup_replicate_2 by lia. done.
  - intros pre r post s Hc Hi. by apply (wcb_step pre r post).
  - cbn [mbind option_bind]. destruct (foldM_range (wcb_rest bits t) rest_inv 0 np s1) as (s2 & -> & (Hfr2 & Hlp2 & _) & Hd & _); [lia| | |].
    + split; [done|]. split; [lia|]. done.
    + intros k s Hk Hs. by apply rest_step.
    + exists s2. split; [done|]. split; [done|]. split; [done|]. done.
Qed.
End task.

(** *** All tasks *)
Definition scat_inv (done : list Z) (st : list Z * list (list entry) * bool) : Prop :=
  let '(off, parts, err) := st in
  zlen off = T * np ∧ (∀ t p, 0 ≤ t < T → t ∉ done → 0 ≤ p < np → off.[t * np + p] = Some (starts (cell p) t)) ∧ sized parts ∧
  (err = false → ∀ t p, t ∈ done → 0 ≤ t < T → 0 ≤ p < np → ∃ es, parts.[p] = Some es ∧ holds es (starts (cell p) t) (map ent (cell p t))).

Lemma scat_done done t off parts err off' parts' : 0 ≤ t < T → t ∉ done → scat_inv done (off, parts, err) →
  direct_inv t off parts (task_rows t) (off', parts') → scat_inv (done ++ [t]) (off', parts', err).
Proof.
  intros Ht Hnin (Hl & Ho & [Hlp Hs] & Hd) ([Hl' Hfr] & Hlp' & Hf). cbn [fst snd] in *. split; [done|]. split; [|split; [split; [done|]|]].
  - intros t' p Ht' Hnin' Hp. rewrite Hfr; [apply Ho; [done|set_solver|done]|set_solver|done|done].
  - intros p Hp. destruct (Hf p Hp) as (_ & es0 & es & H0' & Hes & [Hle _] & _). destruct (Hs p Hp) as (es1 & H1' & Hl1). simplify_eq. exists es. split; [done|lia].
  - intros He t' p Hin Ht' Hp. destruct (Hf p Hp) as (_ & es0 & es & H0' & Hes & Hag & Hh). exists es. split; [done|].
    apply elem_of_app in Hin as [Hin|Hin%list_elem_of_singleton]; [|by rewrite Hin].
    destruct (Hd He t' p Hin Ht' Hp) as (es1 & H1' & Hh1). simplify_eq. assert (t' ≠ t) as Hne by by intros ->.
    pose proof (starts_disjoint (cell p) t' t ltac:(lia) ltac:(lia) Hne). eapply holds_agree; [done|done|rewrite zlen_map; lia].
Qed.

Lemma scatter_part_task t st done : 0 ≤ t < T → t ∉ done → scat_inv done st →
  ∃ st', join_radix_scatter_fn probe hashes bits nrows T t (t + 1) st = Some st' ∧ scat_inv (done ++ [t]) st'.
Proof.
  intros Ht Hnin Hst. destruct st as [[off parts] err]. pose proof Hst as (Hl & Ho & Hs & Hd). unfold join_radix_scatter_fn.
  assert (Hloop : ∀ lo hi, task_chunk nrows T t = (lo, hi) → task_rows t = range lo hi ∧ (nrows ≤ lo → task_rows t = [])).
  { intros lo hi Hc. unfold task_rows. rewrite Hc. split; [done|]. intros Hle. apply range_empty.
    unfold task_chunk in Hc. cbv zeta in Hc. injection Hc as <- <-. zbool; lia. }
  destruct (task_chunk nrows T t) as [lo hi]. destruct (Hloop lo hi eq_refl) as [<- Hempty].
  assert (Hoffs : ∀ p, 0 ≤ p < np → off.[t * np + p] = Some (starts (cell p) t)) by (intros p Hp; by apply Ho).
  destruct (Z.leb_spec nrows lo) as [Hle|_].
  { exists (off, parts, err). split; [done|]. apply (scat_done done t off parts err); [done..|]. rewrite (Hempty Hle).
    split; [by split|]. destruct Hs as [Hlp Hs]. split; [done|]. intros p Hp. by apply flushed_start. }
  destruct ((1024 <? np) && _).
  { eexists. split; [done|]. split; [done|]. split; [intros; apply Ho; set_solver|]. by split. }
  destruct (negb _).
  - destruct (direct_ok t Ht off parts Hl Hoffs Hs) as (off' & parts' & -> & Hi). cbn [mbind option_bind]. eexists. split; [done|].
    by apply (scat_done done t off parts).
  - destruct (buffered_ok t Ht off parts Hl Hoffs Hs) as (s & Hf & Hi). destruct (foldM (wcb_row hashes bits t) _ _) as [s1|]; [|done].
    cbn [mbind option_bind] in *. rewrite Hf. cbn [mbind option_bind]. eexists. split; [done|]. by apply (scat_done done t off parts).
Qed.
End tasks.

(** *** The result *)
Definition parts_ok (parts : list (list entry)) : Prop :=
  parts = map (λ p, map ent (of_part p (range 0 nrows))) (range 0 np).

Definition n_tasks : Z := if ray_pool_get && (RAY_PARALLEL_THRESHOLD <? nrows) then total_workers else 1.
Lemma part_tasks_ok {S} (fn : Z → Z → S → option S) (P : list Z → S → Prop) s :
  P [] s →
  (∀ pre t s, 0 ≤ t < n_tasks → t ∉ pre → P pre s → ∃ s', fn t (t + 1) s = Some s' ∧ P (pre ++ [t]) s') →
  ∃ s' l, part_tasks nrows fn n_tasks s = Some s' ∧ l ≡ₚ range 0 n_tasks ∧ P l s'.
Proof.
  intros Hinit Hstep. unfold part_tasks. pose proof total_workers_ok. unfold n_tasks in *.
  destruct (ray_pool_get && _).
  - destruct (dispatch_n_order fn total_workers s) as (l & Hl & ->); [lia|].
    destruct (foldM_done (λ i, fn i (i + 1)) P l s) as (s' & -> & HP); [done| |by exists s', l].
    intros pre t post s1 Hsplit HP. apply Hstep; [|intros Hin|done].
    + apply elem_of_range. rewrite <- Hl, Hsplit. set_solver.
    + assert (Hnd : NoDup l) by (rewrite Hl; apply NoDup_range). rewrite Hsplit in Hnd. apply NoDup_app in Hnd as (_ & Hd & _). apply (Hd t Hin). by left.
  - destruct (Hstep [] 0 s) as (s' & Hf & HP); [lia|by apply not_elem_of_nil|done|]. exists s', [0]. by split.
Qed.

Lemma join_radix_partition_ok :
  ∃ res, join_radix_partition probe hashes bits nrows = Some res ∧ ∀ parts, res = Some parts → parts_ok parts.
Proof.
  assert (HT : 1 ≤ n_tasks) by (unfold n_tasks; pose proof total_workers_ok; destruct (_ && _); lia). pose proof np_pow as [_ Hnp].
  unfold join_radix_partition. destruct (negb _); [by exists None|]. fold n_tasks. unfold calloc. destruct (served (R_hist probe) _); [|by exists None].
  destruct (part_tasks_ok (join_radix_hist_fn hashes bits nrows n_tasks) (hist_inv n_tasks) (replicate (Z.to_nat (n_tasks * np)) 0)) as (hist & l & -> & Hl & [_ Hh]).
  { split; [rewrite zlen_replicate; nia|]. intros t p Ht Hp. rewrite bool_decide_false by apply not_elem_of_nil.
    rewrite zget_nat by nia. apply lookup_replicate_2. nia. }
  { intros pre t s Ht Hnin Hs. by apply hist_task. }
  cbn [mbind option_bind].
  assert (Hfull : hist_full n_tasks hist).
  { intros t p Ht Hp. rewrite Hh by done. rewrite bool_decide_true; [done|]. rewrite Hl. by apply elem_of_range. }
  rewrite (part_counts_ok n_tasks HT hist Hfull). cbn [mbind option_bind].
  destruct (mapM (alloc_part probe) _) as [parts|] eqn:Hparts; [|by exists None].
  apply alloc_parts_ok in Hparts. destruct (alloc_cases (R_offsets probe) 4 (n_tasks * np)) as [(offs0 & -> & Hlo)|[-> _]]; [nia| |by exists None].
  destruct (part_offsets_ok n_tasks HT hist offs0 Hfull Hlo) as (offs & -> & Hlo' & Ho). cbn [mbind option_bind].
  destruct (part_tasks_ok (join_radix_scatter_fn probe hashes bits nrows n_tasks) (scat_inv n_tasks) (offs, parts, false)) as ([[off parts'] err] & l' & -> & Hl' & Hi).
  { split; [done|]. split; [intros; by apply Ho|]. split; [done|]. by intros _ t p ?%not_elem_of_nil. }
  { intros pre t st Ht Hnin Hst. by apply scatter_part_task. }
  cbn [mbind option_bind]. eexists. split; [done|]. intros ps Hps. destruct err; [done|]. injection Hps as <-.
  destruct Hi as (_ & _ & [Hlp Hs] & Hd). unfold parts_ok. apply zlist_ext; [rewrite zlen_table; lia|]. intros p Hp. rewrite Hlp in Hp.
  rewrite (zget_table (λ p, map ent (of_part p (range 0 nrows)))) by done. destruct (Hs p Hp) as (es & Hes & Hles). rewrite Hes. f_equal.
  rewrite <- (cells_part n_tasks HT p), map_mjoin, map_map.
  apply (chunks_whole es (λ t, map ent (cell n_tasks p t)) (starts (cell n_tasks p)) n_tasks); [lia|done| | |].
  - intros t Ht. rewrite zlen_map. apply starts_S. lia.
  - intros t Ht. destruct (Hd eq_refl t p) as (es' & Hes' & Hh'); [rewrite Hl'; by apply elem_of_range|done|done|]. by simplify_eq.
  - rewrite Hles. unfold size. by rewrite <- (cells_part n_tasks HT p), <- starts_total.
Qed.
End partitioning.
