(* ===== verification/JoinTable.v ===== *)
(** * Hash joins: the open-addressing tables *)

From S2P Require Import Prelude Pool PoolProofs Rowsel RowselProofs Hash HashProofs Arena Sym SymRing Sort SortOrder SortRadix SortEnc SortPar.
From S2P Require Import Join JoinKeys JoinChain JoinRadix.
Local Open Scope Z_scope.

#[export] Instance zlen_Permutation {A} : Proper ((≡ₚ) ==> (=)) (@zlen A).
Proof. intros l k Hlk. unfold zlen. by rewrite Hlk. Qed.

(** ** Lists of lists *)
Lemma filter_none {A} (p : A → bool) l : (∀ x, x ∈ l → p x = false) → List.filter p l = [].
Proof. induction l as [|x l IH]; intros Hp; [done|]. cbn. rewrite Hp by (by left). apply IH. intros y Hy. apply Hp. by right. Qed.
Lemma filter_every {A} (p : A → bool) l : (∀ x, x ∈ l → p x = true) → List.filter p l = l.
Proof. induction l as [|x l IH]; intros Hp; [done|]. cbn. rewrite Hp by (by left). f_equal. apply IH. intros y Hy. apply Hp. by right. Qed.
Lemma mjoin_map_app {A B} (f g : A → list B) l :
  mjoin (map (λ x, f x ++ g x) l) ≡ₚ mjoin (map f l) ++ mjoin (map g l).
Proof. induction l as [|x l IH]; [done|]. cbn [map]. rewrite !mjoin_cons, IH. solve_Permutation. Qed.
Lemma mjoin_map_nil {A B} (l : list A) : mjoin (map (λ _, @nil B) l) = [].
Proof. by induction l. Qed.
Lemma mjoin_map_if {A B} (p : A → bool) (f : A → B) l :
  mjoin (map (λ x, if p x then [f x] else []) l) = map f (List.filter p l).
Proof. induction l as [|x l IH]; [done|]. cbn [map List.filter]. rewrite mjoin_cons, IH. by destruct (p x). Qed.
Lemma filter_eqb_range n k : 0 ≤ k < n → List.filter (Z.eqb k) (range 0 n) = [k].
Proof.
  intros Hk. rewrite <- (range_app 0 k n), (range_cons k) by lia.
  rewrite List.filter_app. cbn [List.filter]. rewrite Z.eqb_refl.
  rewrite !filter_none; [done|intros x Hx%elem_of_range; lia..].
Qed.
(** Sorting a list into [n] classes loses nothing. *)
Lemma classes_perm {A} (c : A → Z) n l : (∀ x, x ∈ l → 0 ≤ c x < n) →
  mjoin (map (λ p, List.filter (λ x, c x =? p) l) (range 0 n)) ≡ₚ l.
Proof.
  induction l as [|x l IH]; intros Hc; [apply reflexive_eq, mjoin_map_nil|].
  assert (Hx : mjoin (map (λ p, if c x =? p then [x] else []) (range 0 n)) = [x]).
  { rewrite (mjoin_map_if (Z.eqb (c x)) (λ _, x)), filter_eqb_range by (apply Hc; by left). done. }
  trans ([x] ++ l); [|done]. rewrite <- IH by (intros y Hy; apply Hc; by right). rewrite <- Hx.
  rewrite <- mjoin_map_app. apply reflexive_eq. f_equal. apply map_ext. intros p. cbn. by destruct (c x =? p).
Qed.
(** The pairs of a relation, by either side. *)
Lemma pairs_swap {A B} (f : A → B → bool) xs ys :
  mjoin (map (λ x, map (pair x) (List.filter (f x) ys)) xs) ≡ₚ
  map (λ e, (snd e, fst e)) (mjoin (map (λ y, map (pair y) (List.filter (λ x, f x y) xs)) ys)).
Proof.
  induction xs as [|x xs IH]; [symmetry; apply reflexive_eq, (f_equal (map (λ e, (snd e, fst e))) (mjoin_map_nil ys))|]. cbn [map]. rewrite mjoin_cons, IH.
  rewrite <- (mjoin_map_if (f x) (pair x)), !map_mjoin, !map_map, <- mjoin_map_app. apply mjoin_map_pointwise.
  intros y _. cbn. by destruct (f x y).
Qed.

Lemma table_default {A} (d : A) l n : zlen l = n → map (λ i, default d l.[i]) (range 0 n) = l.
Proof.
  intros Hl. pose proof (zlen_nonneg l). apply zlist_ext; [by rewrite zlen_table by lia|]. intros j Hj.
  rewrite zlen_table in Hj by lia. rewrite zget_table by done. by destruct (zget_is_Some l j) as [r ->]; [lia|].
Qed.

(** ** The ring *)
Definition oa_free (e : Z * Z) : bool := snd e =? RADIX_HT_EMPTY.
Definition oa_contents (ht : list (Z * Z)) : list (Z * Z) := List.filter (λ e, negb (oa_free e)) ht.
Definition oa_flags (ht : list (Z * Z)) : list Z := map (λ e, if oa_free e then 0 else 1) ht.

Lemma oa_flags_get ht p : (oa_flags ht).[p] = (λ e, if oa_free e then 0 else 1) <$> ht.[p].
Proof. unfold oa_flags, zget. destruct (0 <=? p); [|done]. apply list_lookup_fmap. Qed.
Lemma oa_flags_entries ht : zlen (entries (oa_flags ht)) = zlen (oa_contents ht).
Proof.
  unfold entries, oa_contents, oa_flags. induction ht as [|e ht IH]; [done|]. cbn. destruct (oa_free e); cbn; [done|]. by rewrite !zlen_cons, IH.
Qed.
Definition oa_full (ht : list (Z * Z)) (p : Z) : Prop := ∃ e, ht.[p] = Some e ∧ oa_free e = false.

(** A probe meets a free slot. *)
Lemma oa_first_free n ht h : 0 < n → zlen ht = n → zlen (oa_contents ht) < n →
  ∃ d, 0 ≤ d < n ∧ (∃ e, ht.[(h + d) mod n] = Some e ∧ oa_free e = true) ∧ ∀ j, 0 ≤ j < d → oa_full ht ((h + j) mod n).
Proof.
  intros Hn Hl Hc. destruct (first_empty n (oa_flags ht) h) as (d & Hd & Hfree & Hocc); [done|by unfold oa_flags; rewrite zlen_map|by rewrite oa_flags_entries|].
  exists d. split; [done|]. split.
  - rewrite oa_flags_get in Hfree. destruct (ht.[(h + d) mod n]) as [e|]; [|done]. exists e. split; [done|].
    cbn in Hfree. by destruct (oa_free e).
  - intros j Hj. destruct (Hocc j Hj) as (x & Hx & Hx0). rewrite oa_flags_get in Hx. unfold oa_full.
    destruct (ht.[(h + j) mod n]) as [e|]; [|done]. exists e. split; [done|]. cbn in Hx. destruct (oa_free e); [|done]. by simplify_eq.
Qed.

Section ring.
Context (lo hi n : Z) (Hlo : 0 ≤ lo) (Hpow : pow2 lo hi n).

(** Slots lie behind their home without a free slot between. *)
Record oa_ring (ht : list (Z * Z)) (es : list entry) : Prop := OaRing {
  or_len : zlen ht = n;
  or_contents : oa_contents ht ≡ₚ map (λ e, (snd e, fst e)) es;
  or_home : ∀ p e, ht.[p] = Some e → oa_free e = false →
    ∃ d, 0 ≤ d < n ∧ p = (fst e + d) mod n ∧ ∀ j, 0 ≤ j < d → oa_full ht ((fst e + j) mod n);
}.

Lemma oa_find_ok ht h d : zlen ht = n → (∃ e, ht.[(h + d) mod n] = Some e ∧ oa_free e = true) →
  ∀ fuel j same, 0 ≤ j ≤ d → d - j < Z.of_nat fuel → (∀ i, j ≤ i < d → oa_full ht ((h + i) mod n)) →
  ∃ same', oa_find fuel ht (n - 1) ((h + j) mod n) h same = Some ((h + d) mod n, same').
Proof.
  intros Hl (e & He & Hfree). induction fuel as [|fuel IH]; intros j same Hj Hf Hfull; [lia|]. cbn [oa_find].
  destruct (decide (j = d)) as [->|Hne].
  - rewrite He. cbn [mbind option_bind]. unfold oa_free in Hfree. rewrite Hfree. by exists same.
  - destruct (Hfull j) as (x & Hx & Hx0); [lia|]. rewrite Hx. cbn [mbind option_bind]. unfold oa_free in Hx0. rewrite Hx0.
    rewrite (probe_slot lo hi) by done. apply IH; [lia|lia|]. intros i Hi. apply Hfull. lia.
Qed.

Lemma oa_contents_insert ht p e x : ht.[p] = Some e → oa_free e = true → oa_free x = false →
  oa_contents (<[Z.to_nat p := x]> ht) ≡ₚ x :: oa_contents ht.
Proof.
  intros Hp He Hx. pose proof (zget_Some _ _ _ Hp). rewrite zget_nat in Hp by lia.
  unfold oa_contents. rewrite <- (take_drop_middle ht _ _ Hp) at 2. rewrite insert_take_drop by (apply lookup_lt_Some in Hp; lia).
  rewrite !List.filter_app. cbn [List.filter]. rewrite He, Hx. cbn [negb]. by rewrite Permutation_middle.
Qed.
Lemma oa_full_insert ht p e x q : ht.[p] = Some e → oa_free x = false →
  oa_full ht q ∨ q = p → oa_full (<[Z.to_nat p := x]> ht) q.
Proof.
  intros Hp Hx Hq. pose proof (zget_Some _ _ _ Hp). unfold oa_full. rewrite zget_insert by done.
  destruct (Z.eqb_spec p q) as [->|Hne]; [by exists x|]. destruct Hq as [Hq|]; [done|congruence].
Qed.

Lemma oa_build_ok `{JoinEnv} es : ∀ ht es0, oa_ring ht es0 → zlen es0 + zlen es < n →
  Forall (λ e, fst e ≠ RADIX_HT_EMPTY) es →
  ∃ res, oa_build es ht (n - 1) = Some res ∧ ∀ ht', res = Some ht' → oa_ring ht' (es0 ++ es).
Proof.
  pose proof (ring_pow2_pos _ _ _ Hlo Hpow) as Hpos.
  induction es as [|[row h] es IH]; intros ht es0 Hr Hlen Hes.
  { exists (Some ht). split; [done|]. intros ? [= <-]. by rewrite app_nil_r. }
  rewrite zlen_cons in Hlen. apply Forall_cons in Hes as [Hrow Hes]. cbn [fst] in Hrow. destruct Hr as [Hl Hc Hh].
  pose proof (zlen_nonneg es). assert (Hcl : zlen (oa_contents ht) = zlen es0) by (rewrite Hc; apply zlen_map).
  destruct (oa_first_free n ht h) as (d & Hd & Hfree & Hfull); [done|done|lia|].
  cbn [oa_build]. rewrite (land_mask lo hi) by done.
  replace (h mod n) with ((h + 0) mod n) by (f_equal; lia).
  destruct (oa_find_ok ht h d Hl Hfree (length ht) 0 0) as [same ->]; [lia|unfold zlen in *; lia|intros; apply Hfull; lia|].
  cbn [mbind option_bind]. destruct (_ && _); [by exists None|]. destruct Hfree as (e & He & Hfree).
  pose proof (zget_Some _ _ _ He). rewrite zset_Some by done. cbn [mbind option_bind].
  assert (Hx : oa_free (h, row) = false) by (unfold oa_free; cbn; by apply Z.eqb_neq).
  destruct (IH (<[Z.to_nat ((h + d) mod n) := (h, row)]> ht) (es0 ++ [(row, h)])) as (res & -> & Hres).
  - split.
    + unfold zlen. by rewrite length_insert.
    + rewrite (oa_contents_insert ht _ e) by done. rewrite Hc, map_app. cbn. apply Permutation_cons_append.
    + intros p x Hp Hxf. rewrite zget_insert in Hp by done.
      assert (Hmono : ∀ k q, 0 ≤ q → (∀ j, 0 ≤ j < q → oa_full ht ((k + j) mod n)) →
        ∀ j, 0 ≤ j < q → oa_full (<[Z.to_nat ((h + d) mod n):=(h, row)]> ht) ((k + j) mod n)).
      { intros k q Hq Hk j Hj. apply (oa_full_insert ht _ e); [done..|]. left. by apply Hk. }
      destruct (Z.eqb_spec ((h + d) mod n) p) as [<-|Hne].
      * injection Hp as <-. exists d. cbn [fst]. split; [done|]. split; [done|]. apply Hmono; [lia|done].
      * destruct (Hh p x Hp Hxf) as (d' & Hd' & Hp' & Hfull'). exists d'. split; [done|]. split; [done|]. apply Hmono; [lia|done].
  - rewrite zlen_app, zlen_cons, zlen_nil. lia.
  - done.
  - exists res. split; [done|]. intros ht' Heq. specialize (Hres ht' Heq). by rewrite <- app_assoc in Hres.
Qed.

(** The slots a probe from [h] visits, and those of them with that hash *)
Definition oa_slot (ht : list (Z * Z)) (h j : Z) : Z * Z := default (0, RADIX_HT_EMPTY) ht.[(h + j) mod n].
Definition oa_hits (ht : list (Z * Z)) (h d : Z) : list (Z * Z) := List.filter (λ e, fst e =? h) (map (oa_slot ht h) (range 0 d)).

Lemma oa_slot_inj h x y : 0 ≤ x < n → 0 ≤ y < n → (h + x) mod n = (h + y) mod n → x = y.
Proof.
  intros Hx Hy Heq. pose proof (Z.div_mod (h + x) n ltac:(lia)). pose proof (Z.div_mod (h + y) n ltac:(lia)). rewrite Heq in *.
  assert (Hq : x - y = n * ((h + x) / n - (h + y) / n)) by lia. revert Hq. generalize ((h + x) / n - (h + y) / n). intros q Hq.
  destruct (Z.lt_trichotomy q 0) as [|[->|]]; [nia|lia|nia].
Qed.
Lemma oa_slots_perm ht h : zlen ht = n → map (oa_slot ht h) (range 0 n) ≡ₚ ht.
Proof.
  pose proof (ring_pow2_pos _ _ _ Hlo Hpow) as Hpos. intros Hl.
  assert (Hrot : map (λ j, (h + j) mod n) (range 0 n) ≡ₚ range 0 n).
  { apply NoDup_Permutation; [|apply NoDup_range|].
    - apply NoDup_fmap_2_strong; [|apply NoDup_range]. intros x y Hx%elem_of_range Hy%elem_of_range. by apply oa_slot_inj.
    - intros x. rewrite elem_of_range. split.
      + intros (j & -> & _)%list_elem_of_fmap. by apply Z.mod_pos_bound.
      + intros Hx. apply list_elem_of_fmap. exists ((x - h) mod n). rewrite elem_of_range. split; [|by apply Z.mod_pos_bound].
        rewrite Zplus_mod_idemp_r. replace (h + (x - h)) with x by lia. by rewrite Z.mod_small. }
  trans (map (λ i, default (0, RADIX_HT_EMPTY) ht.[i]) (range 0 n)); [|by rewrite table_default]. 
  trans (map (λ i, default (0, RADIX_HT_EMPTY) ht.[i]) (map (λ j, (h + j) mod n) (range 0 n))); [by rewrite map_map|by rewrite Hrot].
Qed.
Lemma oa_slot_get ht h j : zlen ht = n → ht.[(h + j) mod n] = Some (oa_slot ht h j).
Proof.
  pose proof (ring_pow2_pos _ _ _ Hlo Hpow) as Hpos. intros Hl. unfold oa_slot.
  destruct (zget_is_Some ht ((h + j) mod n)) as [e He]; [rewrite Hl; by apply Z.mod_pos_bound|]. by rewrite He.
Qed.
(** Where a probe from [h] ends *)
Definition oa_end (ht : list (Z * Z)) (h d : Z) : Prop :=
  0 ≤ d < n ∧ oa_free (oa_slot ht h d) = true ∧ ∀ j, 0 ≤ j < d → oa_free (oa_slot ht h j) = false.
Lemma oa_ends ht es h : oa_ring ht es → zlen es < n → ∃ d, oa_end ht h d.
Proof.
  pose proof (ring_pow2_pos _ _ _ Hlo Hpow) as Hpos. intros [Hl Hc _] Hlen.
  destruct (oa_first_free n ht h) as (d & Hd & (e & He & Hf) & Hfull); [done|done|by rewrite Hc, zlen_map|].
  exists d. rewrite oa_slot_get in He by done. simplify_eq. split; [done|]. split; [done|].
  intros j Hj. destruct (Hfull j Hj) as (x & Hx & Hxf). rewrite oa_slot_get in Hx by done. by simplify_eq.
Qed.

(** The probe sees every entry of its hash. *)
Lemma oa_hits_perm ht es h d : oa_ring ht es → oa_end ht h d →
  oa_hits ht h d ≡ₚ map (λ e, (snd e, fst e)) (List.filter (λ e, snd e =? h) es).
Proof.
  intros [Hl Hc Hh] (Hd & Hfree & Hfull).
  assert (Hin : oa_hits ht h d = List.filter (λ e, fst e =? h) (oa_contents (map (oa_slot ht h) (range 0 n)))).
  { unfold oa_hits, oa_contents. rewrite <- (range_app 0 d n) by lia. rewrite map_app, !List.filter_app.
    rewrite (filter_every (λ e, negb (oa_free e)) (map _ (range 0 d))) by
      (intros ? (j & -> & Hj%elem_of_range)%list_elem_of_fmap; by rewrite Hfull).
    rewrite <- (app_nil_r (List.filter _ (map (oa_slot ht h) (range 0 d)))) at 1. f_equal. symmetry.
    apply filter_none. intros e He. apply not_true_iff_false. intros Heq. rewrite list_elem_of_In, filter_In, <- list_elem_of_In in He. destruct He as [He Hef].
    apply list_elem_of_fmap in He as (j & -> & Hj%elem_of_range). apply negb_true_iff in Hef. apply Z.eqb_eq in Heq.
    destruct (Hh ((h + j) mod n) (oa_slot ht h j)) as (d' & Hd' & Hp & Hfull'); [by apply oa_slot_get|done|]. rewrite Heq in *.
    apply oa_slot_inj in Hp as <-; [|lia|done]. destruct (decide (j = d)) as [->|Hne]; [congruence|].
    destruct (Hfull' d) as (x & Hx & Hxf); [lia|]. rewrite oa_slot_get in Hx by done. simplify_eq. congruence. }
  rewrite Hin. unfold oa_contents. etrans; [apply filter_perm, filter_perm, oa_slots_perm; done|]. fold (oa_contents ht).
  etrans; [apply filter_perm, Hc|]. clear. apply reflexive_eq. induction es as [|[r k] es IH]; [done|]. cbn. rewrite IH. by destruct (k =? h).
Qed.
End ring.

(** ** Loops that stop at a failure *)
Fixpoint foldE {A S} (f : A → S → option (option S)) (l : list A) (s : S) : option (option S) :=
  match l with
  | [] => Some (Some s)
  | x :: l => s ← f x s; match s with None => Some None | Some s => foldE f l s end
  end.
Lemma foldE_ok {A S} (f : A → S → option (option S)) (P : list A → S → Prop) l s :
  P [] s →
  (∀ pre x post s, l = pre ++ x :: post → P pre s → ∃ res, f x s = Some res ∧ ∀ s', res = Some s' → P (pre ++ [x]) s') →
  ∃ res, foldE f l s = Some res ∧ ∀ s', res = Some s' → P l s'.
Proof.
  enough (∀ post pre s, l = pre ++ post → P pre s →
    (∀ pre x post s, l = pre ++ x :: post → P pre s → ∃ res, f x s = Some res ∧ ∀ s', res = Some s' → P (pre ++ [x]) s') →
    ∃ res, foldE f post s = Some res ∧ ∀ s', res = Some s' → P l s') as Hgen by (intros Hs Hf; by apply (Hgen l [])).
  clear s. induction post as [|x post IH]; intros pre s Hl Hs Hf.
  { exists (Some s). split; [done|]. intros ? [= <-]. by rewrite Hl, app_nil_r. }
  cbn. destruct (Hf pre x post s Hl Hs) as (res & -> & Hres). cbn [mbind option_bind]. destruct res as [s1|]; [|by exists None].
  apply (IH (pre ++ [x])); [by rewrite <- app_assoc|by apply Hres|done].
Qed.

(** ** The output of a partition *)
Definition pairs_ok (b : pairs) (P : list (Z * Z)) : Prop :=
  p_cnt b = zlen P ∧ zlen (pl b) = p_cap b ∧ zlen (pr b) = p_cap b ∧ zlen P ≤ p_cap b ∧ 1 ≤ p_cap b ≤ UINT32_MAX ∧
  holds (pl b) 0 (map fst P) ∧ holds (pr b) 0 (map snd P).
Definition row32 (r : Z) : Prop := -1 ≤ r ≤ INT32_MAX.

Lemma row32_s32 r : row32 r → s32 r = r.
Proof. intros Hr. unfold row32, INT32_MAX in Hr. apply swrap_id; [done|]. unfold in_s. lia. Qed.

Section output.
Context `{JoinEnv}.

Lemma bp_grow_bufs_ok p b P : pairs_ok b P →
  ∃ res, bp_grow_bufs p b = Some res ∧ ∀ b', res = Some b' → pairs_ok b' P ∧ zlen P < p_cap b'.
Proof.
  destruct b as [l r cap cnt]. intros (Hcnt & Hl & Hr & Hle & Hcap & Hhl & Hhr). cbn in *. pose proof (zlen_nonneg P).
  unfold bp_grow_bufs. destruct (Z.ltb_spec cnt cap).
  { eexists. split; [done|]. intros ? [= <-]. split; [done|]. cbn. lia. }
  assert (cnt = cap) as -> by lia. change (UINT32_MAX / 2) with 2147483647. change UINT32_MAX with 4294967295 in *. destruct (Z.ltb_spec 2147483647 cap); [by exists None|]. cbv zeta.
  destruct (alloc_cases (R_grow_l p cap) 4 (cap * 2)) as [(l1 & -> & Hl1)|[-> _]]; [lia| |by exists None].
  destruct (alloc_cases (R_grow_r p cap) 4 (cap * 2)) as [(r1 & -> & Hr1)|[-> _]]; [lia| |by exists None].
  destruct (copy_prefix_ok l l1 cap) as (l2 & -> & Hl2 & Hh2); [lia|lia|]. cbn [mbind option_bind].
  destruct (copy_prefix_ok r r1 cap) as (r2 & -> & Hr2 & Hh3); [lia|lia|]. cbn [mbind option_bind].
  rewrite !take_ge in Hh2, Hh3 by (unfold zlen in *; lia).
  eexists. split; [done|]. intros ? [= <-]. 
  unfold pairs_ok. assert (Heq : l = map fst P) by (apply holds_whole; [done|rewrite zlen_map; lia]).
  assert (Heq' : r = map snd P) by (apply holds_whole; [done|rewrite zlen_map; lia]).
  rewrite <- Heq, <- Heq'. cbn. change UINT32_MAX with 4294967295. repeat split; done || lia.
Qed.

Lemma push_pair_ok p l r b P : row32 l → row32 r → pairs_ok b P →
  ∃ res, push_pair p l r b = Some res ∧ ∀ b', res = Some b' → pairs_ok b' (P ++ [(l, r)]).
Proof.
  intros Hl Hr Hb. unfold push_pair. destruct (bp_grow_bufs_ok p b P Hb) as (res & -> & Hres). cbn [mbind option_bind].
  destruct res as [[pl0 pr0 cap cnt]|]; [|by exists None]. destruct (Hres _ eq_refl) as [(Hcnt & Hll & Hlr & _ & Hcap & Hhl & Hhr) Hroom].
  cbn in *. subst cnt. pose proof (zlen_nonneg P). rewrite !row32_s32 by done.
  destruct (zset_total pl0 (zlen P) l) as [l1 Hz1]; [lia|]. destruct (zset_total pr0 (zlen P) r) as [r1 Hz2]; [lia|].
  rewrite Hz1. cbn [mbind option_bind]. rewrite Hz2. cbn [mbind option_bind]. eexists. split; [done|]. intros ? [= <-].
  unfold pairs_ok. cbn. rewrite (zlen_zset _ _ _ _ Hz1), (zlen_zset _ _ _ _ Hz2), zlen_app, !map_app.
  change (zlen [(l, r)]) with 1. change UINT32_MAX with 4294967295 in Hcap. rewrite wrap_id by (unfold in_u; lia).
  repeat (split; [done || lia|]). split; (eapply holds_snoc_write; [done|]); rewrite zlen_map; by rewrite Z.add_0_l.
Qed.
End output.

(** ** Probing *)
Local Abbreviation bp_state := (pairs * option (list Z) * bool)%type.
Section hits.
Context `{JoinEnv} (meets : Z → bool) (eq : Z → option bool) (p l h nr : Z) (m0 : option (list Z)).

(** What a slot of the right hash does *)
Definition oa_hit (e : Z * Z) (st : bp_state) : option (option bp_state) :=
  same ← eq (snd e);
  if same : bool then
    let '(b, m, _) := st in
    b ← push_pair p l (snd e) b;
    match b with
    | None => Some None
    | Some b => m ← mark (snd e) m; Some (Some (b, m, true))
    end
  else Some (Some st).

Lemma oa_probe_hits lo hi n ht d : 0 ≤ lo → pow2 lo hi n → zlen ht = n → oa_end n ht h d →
  ∀ fuel j st, 0 ≤ j ≤ d → d - j < Z.of_nat fuel →
  oa_probe eq ht (n - 1) p l h fuel ((h + j) mod n) st = foldE oa_hit (List.filter (λ e, fst e =? h) (map (oa_slot n ht h) (range j d))) st.
Proof.
  intros Hlo Hpow Hl (Hd & Hfree & Hfull). induction fuel as [|fuel IH]; intros j st Hj Hf; [lia|]. cbn [oa_probe].
  rewrite (oa_slot_get lo hi n) by done. cbn [mbind option_bind].
  change (snd (oa_slot n ht h j) =? RADIX_HT_EMPTY) with (oa_free (oa_slot n ht h j)).
  destruct (decide (j = d)) as [->|Hne]; [by rewrite Hfree, (range_empty d d) by lia|].
  rewrite Hfull by lia. rewrite (range_cons j d) by lia. cbn [map List.filter]. rewrite (probe_slot lo hi) by done.
  destruct (fst (oa_slot n ht h j) =? h).
  - cbn [foldE]. change (same ← eq (snd (oa_slot n ht h j)); _) with (oa_hit (oa_slot n ht h j) st).
    destruct (oa_hit (oa_slot n ht h j) st) as [[st'|]|]; [|done..]. apply IH; lia.
  - cbn [mbind option_bind]. apply IH; lia.
Qed.

Definition hit_rows (es : list (Z * Z)) : list Z := List.filter meets (map snd es).
Definition any (R : list Z) : bool := match R with [] => false | _ => true end.
Definition hits_done (P : list (Z * Z)) (met : list Z) (es : list (Z * Z)) (st : bp_state) : Prop :=
  ∃ b m, st = (b, m, any (hit_rows es)) ∧ pairs_ok b (P ++ map (pair l) (hit_rows es)) ∧ marked nr m0 (met ++ hit_rows es) m.

Lemma oa_hits_ok es b m P met :
  (∀ e, e ∈ es → eq (snd e) = Some (meets (snd e)) ∧ 0 ≤ snd e < nr) → nr ≤ INT32_MAX → row32 l →
  pairs_ok b P → marked nr m0 met m →
  ∃ res, foldE oa_hit es (b, m, false) = Some res ∧ ∀ st, res = Some st → hits_done P met es st.
Proof.
  intros Hes Hnr Hl Hb Hm. apply (foldE_ok oa_hit (hits_done P met)).
  { exists b, m. cbn. by rewrite !app_nil_r. }
  unfold hits_done, hit_rows. intros pre e post st -> (b1 & m1 & -> & Hb1 & Hm1). destruct (Hes e) as [Heq Hr]; [set_solver|].
  unfold oa_hit. rewrite Heq. cbn [mbind option_bind]. rewrite map_app, List.filter_app. cbn [map List.filter].
  destruct (meets (snd e)).
  2:{ eexists. split; [done|]. intros ? [= <-]. exists b1, m1. by rewrite app_nil_r. }
  destruct (push_pair_ok p l (snd e) b1 _ Hl ltac:(unfold row32; lia) Hb1) as (res & -> & Hres). cbn [mbind option_bind].
  destruct res as [b2|]; [|by exists None]. destruct (marked_mark nr m0 _ m1 (snd e) Hr Hm1) as (m2 & -> & Hm2). cbn [mbind option_bind].
  eexists. split; [done|]. intros ? [= <-]. exists b2, m2. split.
  - by destruct (List.filter meets (map snd pre)).
  - rewrite map_app, !app_assoc. split; [by apply Hres|done].
Qed.
End hits.

(** ** A partition *)
Lemma filter_sub {A} (p q : A → bool) l : (∀ x, x ∈ l → p x = true → q x = true) → List.filter p (List.filter q l) = List.filter p l.
Proof.
  induction l as [|x l IH]; intros Hpq; [done|]. cbn. specialize (IH ltac:(intros y Hy; apply Hpq; by right)).
  destruct (q x) eqn:Hq; cbn; [by rewrite IH|]. destruct (p x) eqn:Hp; [|done]. rewrite (Hpq x) in Hq; [done|by left|done].
Qed.

Section build_probe.
Context `{JoinEnv} (lvs rvs : list (option key_vec)) (jt nl nr bits : Z)
  (Hkeys : keys_ok nl nr lvs rvs) (Hnl : 0 ≤ nl ≤ INT32_MAX) (Hnr : 0 ≤ nr ≤ INT32_MAX) (Hbits : 2 ≤ bits ≤ 14).
Notation np := (Z.shiftl 1 bits).

Definition row_hash (vs : list (option key_vec)) (r : Z) : Z := u32 (default 0 (hash_row_keys vs r)).
Definition part_rows (vs : list (option key_vec)) (n p : Z) : list Z := of_part bits (row_hash vs) p (range 0 n).
Definition hashed (vs : list (option key_vec)) (rows : list Z) : list entry := map (λ r, (r, row_hash vs r)) rows.
(** The pairs of the rows of a partition *)
Definition part_pairs (p : Z) : list (Z * Z) := mjoin (map (λ l, emitted jt l (partners lvs rvs nr l)) (part_rows lvs nl p)).

Lemma part_rows_elem vs n p r : r ∈ part_rows vs n p ↔ 0 ≤ r < n ∧ part_of bits (row_hash vs r) = p.
Proof.
  unfold part_rows, of_part. rewrite list_elem_of_In, filter_In, <- list_elem_of_In, elem_of_range, Z.eqb_eq. done.
Qed.
Lemma part_rows_zlen vs n p : 0 ≤ n → zlen (part_rows vs n p) ≤ n.
Proof. intros Hn. etrans; [apply of_part_zlen|]. rewrite zlen_range. lia. Qed.
Lemma meet_hash l r : 0 ≤ l < nl → 0 ≤ r < nr → rows_meet lvs rvs l r = true → row_hash rvs r = row_hash lvs l.
Proof. intros Hl Hr Hm. unfold row_hash. by rewrite (hash_rows_meet nl nr lvs rvs l r). Qed.

(** Partners are in the partition of the same number. *)
Lemma partners_part l p : l ∈ part_rows lvs nl p →
  List.filter (rows_meet lvs rvs l) (part_rows rvs nr p) = partners lvs rvs nr l.
Proof.
  intros [Hl Hp]%part_rows_elem. apply filter_sub. intros r Hr%elem_of_range Hm. apply Z.eqb_eq. by rewrite (meet_hash l r).
Qed.

Section probe_part.
Context (p lo hi n : Z) (ht : list (Z * Z)) (Hlo : 0 ≤ lo) (Hpow : pow2 lo hi n)
  (Hring : oa_ring n ht (hashed rvs (part_rows rvs nr p))) (Hroom : zlen (part_rows rvs nr p) < n) (m0 : option (list Z)).

Lemma hits_partners l d : l ∈ part_rows lvs nl p → oa_end n ht (row_hash lvs l) d →
  hit_rows (rows_meet lvs rvs l) (oa_hits n ht (row_hash lvs l) d) ≡ₚ partners lvs rvs nr l.
Proof.
  intros Hl Hd. rewrite <- (partners_part l p) by done. unfold hit_rows. apply part_rows_elem in Hl as [Hl _].
  etrans; [apply filter_perm, Permutation_map, (oa_hits_perm lo hi n Hlo Hpow ht _ _ d Hring Hd)|].
  unfold hashed. rewrite !filter_map_comm, !map_map, map_id. cbn. apply reflexive_eq, filter_sub.
  intros r [Hr _]%part_rows_elem Hm. apply Z.eqb_eq. by apply meet_hash.
Qed.

Definition probed (P : list (Z * Z)) (met : list Z) (E : list (Z * Z)) (st : pairs * option (list Z)) : Prop :=
  pairs_ok (fst st) (P ++ E) ∧ marked nr m0 (met ++ map snd E) (snd st).

Lemma oa_probe_row_ok l b m P met : l ∈ part_rows lvs nl p → probed P met [] (b, m) →
  ∃ res, oa_probe_row lvs rvs jt ht (n - 1) p (l, row_hash lvs l) (b, m) = Some res ∧
    ∀ st, res = Some st → ∃ E, E ≡ₚ emitted jt l (partners lvs rvs nr l) ∧ probed P met E st.
Proof.
  intros Hl [Hb Hm]. cbn in Hb, Hm. rewrite !app_nil_r in *. pose proof Hl as [Hln _]%part_rows_elem.
  assert (Hzl : zlen (hashed rvs (part_rows rvs nr p)) < n) by (unfold hashed; by rewrite zlen_map).
  destruct (oa_ends lo hi n Hlo Hpow ht _ (row_hash lvs l) Hring Hzl) as [d Hd].
  pose proof (hits_partners l d Hl Hd) as Hhits. set (R := hit_rows _ _) in Hhits.
  assert (Hrow : row32 l) by (unfold row32; lia).
  unfold oa_probe_row. rewrite (land_mask lo hi) by done. replace (row_hash lvs l mod n) with ((row_hash lvs l + 0) mod n) by (f_equal; lia).
  rewrite (oa_probe_hits _ p l _ lo hi n ht d) by (done || (destruct Hd, Hring; unfold zlen in *; lia)). fold (oa_hits n ht (row_hash lvs l) d).
  destruct (oa_hits_ok (rows_meet lvs rvs l) (join_keys_eq lvs rvs l) p l nr m0 (oa_hits n ht (row_hash lvs l) d) b m P met) as (res & -> & Hres); [|lia|done..|].
  { intros e He. assert (Hr : 0 ≤ snd e < nr); [|split; [by apply (join_keys_eq_ok nl nr)|done]].
    rewrite (oa_hits_perm lo hi n Hlo Hpow ht _ _ d Hring Hd) in He. apply list_elem_of_fmap in He as (x & -> & Hx).
    rewrite list_elem_of_In, filter_In, <- list_elem_of_In in Hx. destruct Hx as [Hx _]. apply list_elem_of_fmap in Hx as (r & -> & Hr).
    by apply part_rows_elem in Hr as [? _]. }
  cbn [mbind option_bind]. destruct res as [st|]; [|by exists None]. destruct (Hres _ eq_refl) as (b' & m' & -> & Hb' & Hm'). fold R in Hb', Hm' |- *.
  pose proof (emitted_perm jt l _ _ Hhits) as HE. destruct R as [|r R'] eqn:HR; cbn [any negb andb].
  - unfold emitted in HE at 1. cbn [map] in Hb'. rewrite app_nil_r in Hb', Hm'. destruct (1 <=? jt) eqn:Hjt.
    + destruct (push_pair_ok p l (-1) b' P Hrow ltac:(unfold row32, INT32_MAX; lia) Hb') as (res & -> & Hr2). cbn [mbind option_bind].
      destruct res as [b2|]; [|by exists None]. eexists. split; [done|]. intros ? [= <-]. exists [(l, -1)]. split; [done|].
      split; [by apply Hr2|]. cbn. apply marked_app_neg; [by repeat constructor|done].
    + eexists. split; [done|]. intros ? [= <-]. exists []. split; [done|]. unfold probed. cbn. by rewrite !app_nil_r.
  - eexists. split; [done|]. intros ? [= <-]. exists (map (pair l) (r :: R')). split; [done|]. split; [done|]. cbn [snd]. by rewrite map_map, map_id.
Qed.

Lemma oa_probe_all_foldE es : ∀ st, oa_probe_all lvs rvs jt ht (n - 1) p es st = foldE (oa_probe_row lvs rvs jt ht (n - 1) p) es st.
Proof.
  induction es as [|e es IH]; intros st; [done|]. cbn [oa_probe_all foldE].
  destruct (oa_probe_row _ _ _ _ _ _ _ _) as [[s|]|]; [|done..]. apply IH.
Qed.
Lemma oa_probe_all_ok b m met : probed [] met [] (b, m) →
  ∃ res, oa_probe_all lvs rvs jt ht (n - 1) p (hashed lvs (part_rows lvs nl p)) (b, m) = Some res ∧
    ∀ st, res = Some st → ∃ E, E ≡ₚ part_pairs p ∧ probed [] met E st.
Proof.
  intros Hst. rewrite oa_probe_all_foldE. unfold part_pairs.
  destruct (foldE_ok (oa_probe_row lvs rvs jt ht (n - 1) p) (λ pre st, ∃ E, E ≡ₚ mjoin (map (λ l, emitted jt l (partners lvs rvs nr l)) (map fst pre)) ∧ probed [] met E st)
    (hashed lvs (part_rows lvs nl p)) (b, m)) as (res & -> & Hres).
  - by exists [].
  - intros pre e post [b1 m1] Hsplit (E & HE & Hb1 & Hm1).
    assert (∃ l, l ∈ part_rows lvs nl p ∧ e = (l, row_hash lvs l)) as (l & Hl & ->).
    { assert (e ∈ hashed lvs (part_rows lvs nl p)) as (l & -> & ?)%list_elem_of_fmap by (rewrite Hsplit; set_solver). by exists l. }
    destruct (oa_probe_row_ok l b1 m1 E (met ++ map snd E) Hl) as (res & -> & Hres).
    { split; cbn; by rewrite app_nil_r. }
    exists res. split; [done|]. intros st Heq. destruct (Hres st Heq) as (E' & HE' & Hb' & Hm'). exists (E ++ E').
    split; [rewrite map_app, map_app, join_app; cbn; by rewrite HE, HE', app_nil_r|]. split; [done|]. by rewrite map_app, app_assoc.
  - exists res. split; [done|]. intros st Heq. destruct (Hres st Heq) as (E & HE & Hp). exists E. split; [|done].
    rewrite HE. unfold hashed. by rewrite !map_map.
Qed.
End probe_part.

(** *** Its task *)
Lemma oa_cap_ok fuel : ∀ k target, 8 ≤ k ≤ 31 → pow2 8 31 (oa_cap fuel (2 ^ k) target).
Proof.
  induction fuel as [|fuel IH]; intros k target Hk; [by exists k|]. cbn. destruct ((2 ^ k <? target) && _) eqn:Hc; [|by exists k].
  apply andb_true_iff in Hc as [_ Hc]. apply Z.leb_le in Hc. change (UINT32_MAX / 2) with (2 ^ 31 - 1) in Hc.
  rewrite Z.mul_comm, <- Z.pow_succ_r by lia. apply IH. split; [lia|]. destruct (Z.le_gt_cases (Z.succ k) 31); [done|].
  assert (k = 31) as -> by lia. lia.
Qed.

Definition out_ok (o : option pairs) (Q : list (Z * Z)) : Prop := match o with None => Q = [] | Some b => pairs_ok b Q end.
Definition failed (s : bp) : bool := had_error s || pathological s.
(** While nothing has failed, the partitions done have their pairs. *)
Record bp_inv (m0 : option (list Z)) (done : list Z) (s : bp) : Prop := BpInv {
  bi_len : zlen (bp_out s) = np;
  bi_marked : ∃ met, marked nr m0 met (bp_matched s) ∧ (failed s = false → met ≡ₚ map snd (mjoin (map part_pairs done)));
  bi_out : failed s = false → ∀ p, 0 ≤ p < np → ∃ o Q, (bp_out s).[p] = Some o ∧ out_ok o Q ∧ Q ≡ₚ (if bool_decide (p ∈ done) then part_pairs p else []);
}.

Lemma bp_inv_fail m0 done p s s' : bp_inv m0 done s → bp_out s' = bp_out s → bp_matched s' = bp_matched s → failed s' = true →
  bp_inv m0 (done ++ [p]) s'.
Proof.
  intros [Hl (met & Hm & _) _] Ho Hm' Hf. split; [by rewrite Ho| |congruence]. exists met. rewrite Hm'. split; [done|]. congruence.
Qed.
Lemma bp_inv_done m0 done p s out m o Q : 0 ≤ p < np → p ∉ done → bp_inv m0 done s →
  zlen out = np → out.[p] = Some o → (∀ q, q ≠ p → out.[q] = (bp_out s).[q]) → out_ok o Q → Q ≡ₚ part_pairs p →
  (∃ met, marked nr m0 (met ++ map snd Q) m ∧ (failed s = false → met ≡ₚ map snd (mjoin (map part_pairs done)))) →
  bp_inv m0 (done ++ [p]) (Bp out m (had_error s) (pathological s)).
Proof.
  intros Hp Hnin [Hl _ Hout] Hlo Ho Hoth Hok HQ (met & Hm & Hmet). split; [done| |].
  - exists (met ++ map snd Q). split; [done|]. intros Hf. rewrite Hmet by done. rewrite map_app, join_app, map_app. cbn [map].
    by rewrite mjoin_cons, app_nil_r, HQ.
  - intros Hf q Hq. destruct (decide (q = p)) as [->|Hne].
    + exists o, Q. rewrite bool_decide_true by set_solver. done.
    + cbn [bp_out]. rewrite Hoth by done. destruct (Hout Hf q Hq) as (o' & Q' & ? & ? & HQ'). exists o', Q'. split; [done|]. split; [done|]. rewrite HQ'.
      rewrite (bool_decide_ext (q ∈ done) (q ∈ done ++ [p])); [done|set_solver].
Qed.
Lemma bp_inv_zset m0 done p s m b Q : 0 ≤ p < np → p ∉ done → bp_inv m0 done s → pairs_ok b Q → Q ≡ₚ part_pairs p →
  (∃ met, marked nr m0 (met ++ map snd Q) m ∧ (failed s = false → met ≡ₚ map snd (mjoin (map part_pairs done)))) →
  ∃ out, zset (bp_out s) p (Some b) = Some out ∧ bp_inv m0 (done ++ [p]) (Bp out m (had_error s) (pathological s)).
Proof.
  intros Hp Hnin Hi Hb HQ Hm. destruct (zset_total (bp_out s) p (Some b)) as [out Hz]; [by rewrite (bi_len _ _ _ Hi)|].
  exists out. split; [done|]. apply (bp_inv_done m0 done p s out m (Some b) Q); [done..| | | |done|done|done].
  - by rewrite (zlen_zset _ _ _ _ Hz), (bi_len _ _ _ Hi).
  - by eapply zget_zset_eq.
  - intros q Hq. by apply (zget_zset_ne _ _ _ _ _ Hz).
Qed.

(** A partition without right rows *)
Lemma part_pairs_alone p : part_rows rvs nr p = [] → part_pairs p = if 1 <=? jt then map (λ l, (l, -1)) (part_rows lvs nl p) else [].
Proof.
  intros Hr. unfold part_pairs. assert (Hno : ∀ l, l ∈ part_rows lvs nl p → emitted jt l (partners lvs rvs nr l) = if 1 <=? jt then [(l, -1)] else []).
  { intros l Hl. rewrite <- (partners_part l p) by done. by rewrite Hr. }
  transitivity (mjoin (map (λ l : Z, if 1 <=? jt then [(l, -1)] else []) (part_rows lvs nl p))).
  { f_equal. apply map_ext_in. intros l Hl. apply Hno. by apply list_elem_of_In. }
  destruct (1 <=? jt); [|apply mjoin_map_nil]. rewrite (mjoin_map_if (λ _, true) (λ l, (l, -1))). f_equal. by apply filter_every.
Qed.
Lemma lone_rows_ok rows (l0 r0 : list Z) : Forall row32 rows → zlen l0 = zlen rows → zlen r0 = zlen rows →
  1 ≤ zlen rows ≤ UINT32_MAX →
  ∃ l r, foldM (λ i '(pl, pr), e ← (hashed lvs rows).[i]; pl ← zset pl i (s32 (fst e)); pr ← zset pr i (-1); Some (pl, pr))
            (range 0 (zlen rows)) (l0, r0) = Some (l, r) ∧ pairs_ok (Pairs l r (zlen rows) (zlen rows)) (map (λ l, (l, -1)) rows).
Proof.
  intros Hrows Hl0 Hr0 Hlen.
  destruct (foldM_range (λ i '(pl, pr), e ← (hashed lvs rows).[i]; pl ← zset pl i (s32 (fst e)); pr ← zset pr i (-1); Some (pl, pr))
    (λ k '(pl, pr), zlen pl = zlen rows ∧ zlen pr = zlen rows ∧ holds pl 0 (take (Z.to_nat k) rows) ∧ holds pr 0 (take (Z.to_nat k) (map (λ _, -1) rows)))
    0 (zlen rows) (l0, r0)) as ([l r] & Hf & Hl & Hr & Hhl & Hhr).
  - lia.
  - repeat (split; [done|]). split; apply holds_nil.
  - intros i [l r] Hi (Hl & Hr & Hhl & Hhr). destruct (zget_is_Some rows i) as [x Hx]; [lia|].
    assert (Hxr : row32 x) by (rewrite Forall_forall in Hrows; apply Hrows; by eapply zget_elem).
    rewrite zget_nat in Hx by lia. unfold hashed. rewrite zget_nat by lia. rewrite list_lookup_fmap, Hx. cbn [fmap option_fmap option_map mbind option_bind fst].
    rewrite row32_s32 by done. destruct (zset_total l i x) as [l' Hz]; [lia|]. rewrite Hz. cbn [mbind option_bind].
    destruct (zset_total r i (-1)) as [r' Hz']; [lia|]. rewrite Hz'. cbn [mbind option_bind]. eexists. split; [done|].
    cbv beta iota. rewrite (zlen_zset _ _ _ _ Hz), (zlen_zset _ _ _ _ Hz'). do 2 (split; [done|]).
    replace (Z.to_nat (i + 1)) with (S (Z.to_nat i)) by lia. rewrite (take_S_r _ _ x Hx), (take_S_r _ _ (-1)) by (by rewrite list_lookup_fmap, Hx).
    split; (eapply holds_snoc_write; [done|]); rewrite zlen_take, ?zlen_map; by replace (0 + _) with i by lia.
  - exists l, r. split; [done|]. unfold pairs_ok. cbn [p_cnt p_cap pl pr]. rewrite !zlen_map, !map_map. cbn.
    rewrite !take_ge in Hhl, Hhr by (rewrite ?length_map; unfold zlen in *; lia). repeat (split; [done || lia|]). rewrite map_id. by split.
Qed.

Definition table_parts (vs : list (option key_vec)) (n : Z) : list (list entry) := map (λ p, hashed vs (part_rows vs n p)) (range 0 np).
Lemma table_parts_get vs n p : 0 ≤ p < np → (table_parts vs n).[p] = Some (hashed vs (part_rows vs n p)).
Proof. intros Hp. unfold table_parts. by rewrite (zget_table (λ p, hashed vs (part_rows vs n p))). Qed.

Lemma build_probe_lone m0 done p s : 0 ≤ p < np → p ∉ done → bp_inv m0 done s → part_rows rvs nr p = [] →
  ray_join_force_dup_fallback = false →
  ∃ s', join_radix_build_probe_fn (table_parts lvs nl) (table_parts rvs nr) lvs rvs jt p (p + 1) s = Some s' ∧ bp_inv m0 (done ++ [p]) s'.
Proof.
  intros Hp Hnin Hi Hr Hforce. unfold join_radix_build_probe_fn. rewrite !table_parts_get by done. cbn [mbind option_bind]. rewrite Hforce, Hr.
  change (zlen (hashed rvs [])) with 0. cbn [Z.eqb]. pose proof (part_pairs_alone p Hr) as Hpp.
  assert (Hzl : zlen (hashed lvs (part_rows lvs nl p)) = zlen (part_rows lvs nl p)) by (unfold hashed; apply zlen_map). rewrite Hzl.
  pose proof (zlen_nonneg (part_rows lvs nl p)). pose proof (part_rows_zlen lvs nl p ltac:(lia)).
  destruct ((1 <=? jt) && (0 <? zlen (part_rows lvs nl p))) eqn:Hc.
  - apply andb_true_iff in Hc as [Hjt Hlc%Z.ltb_lt]. rewrite Hjt in Hpp.
    destruct (alloc_cases (R_pp_l p) 4 (zlen (part_rows lvs nl p))) as [(l & -> & Hl)|[-> _]]; [lia| |by eexists; split; [done|]; by apply (bp_inv_fail _ _ _ s)].
    destruct (alloc_cases (R_pp_r p) 4 (zlen (part_rows lvs nl p))) as [(r & -> & Hlr)|[-> _]]; [lia| |by eexists; split; [done|]; by apply (bp_inv_fail _ _ _ s)].
    destruct (lone_rows_ok (part_rows lvs nl p) l r) as (l' & r' & Hf & Hok); [|done|done| |].
    { apply Forall_forall. intros x [Hx _]%part_rows_elem. unfold row32. lia. }
    { unfold UINT32_MAX. unfold INT32_MAX in *. lia. }
    rewrite Hf. cbn [mbind option_bind].
    destruct (bp_inv_zset m0 done p s (bp_matched s) _ _ Hp Hnin Hi Hok) as (out & -> & Hi'); [by rewrite Hpp| |by eexists].
    destruct (bi_marked _ _ _ Hi) as (met & Hm & Hmet). exists met. split; [|done]. rewrite map_map. apply marked_app_neg; [|done]. apply Forall_map, Forall_true. cbn. lia.
  - exists s. split; [done|]. destruct (failed s) eqn:Hfail; [by apply (bp_inv_fail _ _ _ s)|].
    destruct (bi_out _ _ _ Hi Hfail p Hp) as (o & Q & Ho & Hok & HQ). rewrite bool_decide_false in HQ by done.
    apply Permutation_nil_r in HQ as ->. destruct s as [out m e f].
    apply (bp_inv_done m0 done p (Bp out m e f) out m o []); try done; [apply Hi| |destruct (bi_marked _ _ _ Hi) as (met & ? & ?); exists met; cbn; by rewrite app_nil_r].
    rewrite Hpp. destruct (1 <=? jt); [|done]. apply Z.ltb_ge in Hc. by rewrite (zlen_zero_nil (part_rows lvs nl p)) by lia.
Qed.

Lemma build_probe_task m0 done p s : 0 ≤ p < np → p ∉ done → bp_inv m0 done s →
  ∃ s', join_radix_build_probe_fn (table_parts lvs nl) (table_parts rvs nr) lvs rvs jt p (p + 1) s = Some s' ∧ bp_inv m0 (done ++ [p]) s'.
Proof.
  intros Hp Hnin Hi. set (rows := part_rows rvs nr p).
  assert (Hmem : ∃ s', fail_memory s = Some s' ∧ bp_inv m0 (done ++ [p]) s') by (eexists; split; [done|]; by apply (bp_inv_fail _ _ _ s)).
  assert (Hdup : ∃ s', fail_duplicates s = Some s' ∧ bp_inv m0 (done ++ [p]) s').
  { eexists. split; [done|]. apply (bp_inv_fail _ _ _ s); [done..|]. apply orb_true_r. }
  destruct ray_join_force_dup_fallback eqn:Hforce.
  { unfold join_radix_build_probe_fn. rewrite !table_parts_get by done. cbn [mbind option_bind]. by rewrite Hforce. }
  destruct (decide (rows = [])) as [Hr|Hr]; [by apply build_probe_lone|].
  unfold join_radix_build_probe_fn. rewrite !table_parts_get by done. cbn [mbind option_bind]. rewrite Hforce. fold rows.
  assert (Hzr : zlen (hashed rvs rows) = zlen rows) by (unfold hashed; apply zlen_map).
  assert (Hzl : zlen (hashed lvs (part_rows lvs nl p)) = zlen (part_rows lvs nl p)) by (unfold hashed; apply zlen_map). rewrite Hzr, Hzl. cbv zeta.
  pose proof (zlen_nonneg rows). destruct (Z.eqb_spec (zlen rows) 0) as [H0'|_]; [by apply zlen_zero_nil in H0'|].
  set (cap0 := if _ <? 64 then 64 else _). assert (Hcap : 1 ≤ cap0 ≤ UINT32_MAX).
  { pose proof (part_rows_zlen lvs nl p ltac:(lia)). pose proof (part_rows_zlen rvs nr p ltac:(lia)). subst cap0 rows.
    unfold UINT32_MAX, INT32_MAX in *. repeat case_match; lia. }
  destruct (alloc_cases (R_pp_l p) 4 cap0) as [(l & -> & Hl)|[-> _]]; [lia| |done].
  destruct (alloc_cases (R_pp_r p) 4 cap0) as [(r & -> & Hlr)|[-> _]]; [lia| |done].
  pose proof (oa_cap_ok 32 8 (zlen rows * 2) ltac:(lia)) as Hpow. change (2 ^ 8) with 256 in Hpow. generalize dependent (oa_cap 32 256 (zlen rows * 2)). intros n Hpow.
  destruct (Z.ltb_spec n (zlen rows * 2)); [done|]. destruct (negb _); [done|].
  pose proof (ring_pow2_pos 8 31 n ltac:(lia) Hpow).
  destruct (oa_build_ok 8 31 n ltac:(lia) Hpow (hashed rvs rows) (replicate (Z.to_nat n) (0, RADIX_HT_EMPTY)) []) as (res & -> & Hres).
  { split; [rewrite zlen_replicate; lia| |].
    - unfold oa_contents. rewrite filter_none; [done|]. intros x [-> _]%elem_of_replicate. done.
    - intros q e He Hf. apply zget_elem, elem_of_replicate in He as [-> _]. done. }
  { rewrite Hzr, zlen_nil. assert (zlen rows ≠ 0) by (intros Hz; by apply zlen_zero_nil in Hz). lia. }
  { apply Forall_forall. intros e (x & -> & Hx)%list_elem_of_fmap. cbn. apply part_rows_elem in Hx as [Hx _].
    unfold RADIX_HT_EMPTY, UINT32_MAX. unfold INT32_MAX in *. lia. }
  cbn [mbind option_bind]. destruct res as [ht|]; [|done]. specialize (Hres ht eq_refl). rewrite app_nil_l in Hres.
  destruct (bi_marked _ _ _ Hi) as (met & Hm & Hmet).
  destruct (oa_probe_all_ok p 8 31 n ht ltac:(lia) Hpow Hres ltac:(fold rows; lia) m0 (Pairs l r cap0 0) (bp_matched s) met) as (res & -> & Hres').
  { split; [|cbn [snd map]; rewrite app_nil_r; done]. unfold pairs_ok. cbn [fst app p_cnt pl pr p_cap map]. change (@zlen (Z * Z) []) with 0.
    repeat (split; [done || lia|]). split; apply holds_nil. }
  cbn [mbind option_bind]. destruct res as [[b m]|]; [|done]. destruct (Hres' _ eq_refl) as (E & HE & Hb & Hm'). cbn in Hb, Hm'.
  destruct (bp_inv_zset m0 done p s m b E Hp Hnin Hi Hb HE) as (out & -> & Hi'); [by exists met|by eexists].
Qed.

(** *** All partitions *)
Lemma part_pairs_all : mjoin (map part_pairs (range 0 np)) ≡ₚ joined lvs rvs nl nr jt.
Proof.
  unfold part_pairs. rewrite (mjoin_mjoin (λ l, emitted jt l (partners lvs rvs nr l)) (part_rows lvs nl)). unfold joined. apply mjoin_map_Permutation.
  apply (classes_perm (λ l, part_of bits (row_hash lvs l))). intros l _. by apply part_range.
Qed.
Lemma outs_choice outs : ∀ k, (∀ i, 0 ≤ i < zlen outs → ∃ o Q, outs.[i] = Some o ∧ out_ok o Q ∧ Q ≡ₚ part_pairs (k + i)) →
  ∃ Qs, Forall2 out_ok outs Qs ∧ mjoin Qs ≡ₚ mjoin (map part_pairs (range k (k + zlen outs))).
Proof.
  induction outs as [|o outs IH]; intros k Hi.
  { exists []. split; [done|]. rewrite zlen_nil, (range_empty k) by lia. done. }
  pose proof (zlen_nonneg outs). rewrite zlen_cons in *. destruct (Hi 0) as (o' & Q & [= <-] & Hok & HQ); [lia|].
  destruct (IH (k + 1)) as (Qs & HQs & Hperm).
  { intros i Hr. destruct (Hi (i + 1)) as (o' & Q' & Ho & ? & ?); [lia|]. exists o', Q'. rewrite zget_cons_succ in Ho by lia.
    split; [done|]. split; [done|]. by replace (k + 1 + i) with (k + (i + 1)) by lia. }
  exists (Q :: Qs). split; [by constructor|]. rewrite (range_cons k) by lia. cbn [map]. rewrite !mjoin_cons, Hperm, HQ.
  rewrite Z.add_0_r. by replace (k + (1 + zlen outs)) with (k + 1 + zlen outs) by lia.
Qed.
Lemma outs_ok m0 done s : bp_inv m0 done s → failed s = false → done ≡ₚ range 0 np →
  ∃ Qs, Forall2 out_ok (bp_out s) Qs ∧ mjoin Qs ≡ₚ joined lvs rvs nl nr jt ∧ marked nr m0 (map snd (mjoin Qs)) (bp_matched s).
Proof.
  intros [Hl (met & Hm & Hmet) Hout] Hf Hdone.
  assert (Hall : mjoin (map part_pairs done) ≡ₚ joined lvs rvs nl nr jt) by (rewrite <- part_pairs_all; by apply mjoin_map_Permutation).
  destruct (outs_choice (bp_out s) 0) as (Qs & HQs & Hperm).
  { intros i Hi. destruct (Hout Hf i) as (o & Q & ? & ? & HQ); [lia|]. rewrite bool_decide_true in HQ by (rewrite Hdone; apply elem_of_range; lia). by exists o, Q. }
  rewrite Hl, Z.add_0_l, part_pairs_all in Hperm. exists Qs. split; [done|]. split; [done|].
  eapply marked_perm; [|done]. by rewrite (Hmet Hf), Hall, Hperm.
Qed.
End build_probe.

Section consolidation.
Context (swap : bool).
Definition side_pair (e : Z * Z) : Z * Z := if swap then (snd e, fst e) else e.

Lemma pairs_total outs Qs : Forall2 out_ok outs Qs → zsum (map pairs_of outs) = zlen (mjoin Qs).
Proof.
  induction 1 as [|o Q outs Qs Ho _ IH]; [done|]. rewrite mjoin_cons, zlen_app. cbn [map]. change (zsum (pairs_of o :: ?l)) with (pairs_of o + zsum l).
  rewrite IH. f_equal. destruct o as [b|]; cbn in *; [by destruct Ho|]. by rewrite Ho.
Qed.
Lemma consolidate_foldM outs Qs li ri : Forall2 out_ok outs Qs →
  consolidate swap outs li ri = foldM emit_pair (map side_pair (mjoin Qs)) (Out li ri None, 0).
Proof.
  unfold consolidate. generalize (Out li ri None, 0) as st. intros st Ho. revert st.
  induction Ho as [|o Q outs Qs Ho _ IH]; intros st; [done|]. cbn [foldM]. rewrite mjoin_cons, map_app, foldM_app.
  assert (Hone : match o with None => Some st | Some b => foldM (λ j st, x ← (pl b).[j]; y ← (pr b).[j]; if swap then emit y x st else emit x y st) (range 0 (p_cnt b)) st end
    = foldM emit_pair (map side_pair Q) st); [|rewrite Hone; destruct (foldM emit_pair _ st); [apply IH|done]].
  destruct o as [b|]; cbn in Ho; [|by rewrite Ho]. destruct Ho as (-> & _ & _ & _ & _ & Hl & Hr). rewrite foldM_map.
  rewrite <- (holds_loop (λ e, emit_pair (side_pair e)) Q 0 Q) by (intros j Hj; by rewrite Z.add_0_l).
  apply foldM_ext. intros j st' Hj%elem_of_range. rewrite Z.add_0_l. destruct (zget_is_Some Q j) as [[x y] Hq]; [lia|]. rewrite Hq.
  specialize (Hl j). specialize (Hr j). rewrite Z.add_0_l, zlen_map in Hl, Hr. rewrite Hl, Hr by lia.
  rewrite !(zget_nat (map _ _)) by lia. rewrite !list_lookup_fmap, <- !zget_nat, Hq by lia. cbn. unfold emit_pair, side_pair. by destruct swap.
Qed.
End consolidation.

(** ** Swapping the sides of an inner join *)
Lemma joined_inner lvs rvs nl nr : joined lvs rvs nl nr 0 = mjoin (map (λ l, map (pair l) (partners lvs rvs nr l)) (range 0 nl)).
Proof. unfold joined. f_equal. apply map_ext. intros l. unfold emitted. by destruct (partners lvs rvs nr l). Qed.
Lemma joined_swap lvs rvs nl nr : map (side_pair true) (joined rvs lvs nr nl 0) ≡ₚ joined lvs rvs nl nr 0.
Proof.
  rewrite !joined_inner. unfold partners. rewrite (pairs_swap (rows_meet lvs rvs)). apply reflexive_eq. unfold side_pair. f_equal. f_equal.
  apply map_ext. intros r. f_equal. apply filter_ext. intros l. apply rows_meet_swap.
Qed.

(** ** The result *)
Section result.
Context `{JoinEnv} (lvs rvs : list (option key_vec)) (nl nr jt : Z) (Hnr : 0 ≤ nr).

Lemma radix_result_ok swap s Qs : let ps := map (side_pair swap) (mjoin Qs) in
  Forall2 out_ok (bp_out s) Qs → ps ≡ₚ joined lvs rvs nl nr jt →
  marked nr (if (jt =? 2) && (0 <? nr) then Some [] else None) (map snd ps) (bp_matched s) →
  join_outcome lvs rvs nl nr jt (radix_result swap jt nr s).
Proof.
  intros ps Hout Hps Hm. unfold radix_result. rewrite (pairs_total _ Qs) by done.
  assert (Hlen : zlen (mjoin Qs) = zlen ps) by (unfold ps; by rewrite zlen_map). rewrite Hlen. cbv zeta.
  set (R := right_only lvs rvs nl nr). pose proof (zlen_nonneg R). pose proof (zlen_nonneg ps).
  pose proof (zlen_nonneg (right_rest lvs rvs nl nr jt)).
  assert (∃ u, (match bp_matched s with Some m => if jt =? 2 then unmatched_count m nr else Some 0 | None => Some 0 end) = Some u ∧
    u = zlen (right_rest lvs rvs nl nr jt) ∧ (u = 0 → right_rest lvs rvs nl nr jt = []) ∧
    (0 < u → ∃ m, bp_matched s = Some m ∧ right_rest lvs rvs nl nr jt = map (pair (-1)) R ∧ marked nr (Some []) (map snd ps) (Some m))) as (u & -> & Hu & Hu0 & Hpos).
  { unfold right_rest. fold R. destruct (jt =? 2) eqn:Hjt; cbn [andb] in Hm.
    - destruct (Z.ltb_spec 0 nr).
      + destruct (bp_matched s) as [m|]; [|done]. destruct (unmatched_rows lvs rvs nl nr jt m ps Hnr Hps Hm) as [-> _]. fold R.
        exists (zlen R). rewrite zlen_map. split; [done|]. split; [done|]. split; [intros Hz; by rewrite (zlen_zero_nil R)|]. intros _. by exists m.
      + destruct (bp_matched s) as [m|]; [done|]. exists 0. unfold R, right_only. rewrite (range_empty 0 nr) by lia. done.
    - exists 0. split; [by destruct (bp_matched s)|]. done. }
  cbn [mbind option_bind]. destruct (Z.ltb_spec 0 (zlen ps + u)).
  2:{ exists []. rewrite (Hu0 ltac:(lia)). rewrite <- Hps, (zlen_zero_nil ps) by lia. done. }
  destruct (alloc_cases R_l_idx 8 (zlen ps + u)) as [(li & -> & Hli)|[-> ?]]; [lia| |done].
  destruct (alloc_cases R_r_idx 8 (zlen ps + u)) as [(ri & -> & Hri)|[-> ?]]; [lia| |done].
  rewrite (consolidate_foldM swap _ Qs) by done. fold ps.
  destruct (emit_all ps li ri None 0) as (li1 & ri1 & -> & Hhl & Hhr & Hal & Har); [lia..|]. cbn [mbind option_bind o_l o_r]. rewrite Z.add_0_l.
  destruct Hal as [Hl1 _], Har as [Hr1 _].
  assert (Hwhole : u = 0 → join_result lvs rvs nl nr jt (Index li1 ri1 (zlen ps + u) (-1))).
  { intros ->. exists ps. rewrite Hu0, app_nil_r by done. cbn. rewrite Z.add_0_r in *. split; [done|].
    split; [apply holds_whole; rewrite ?zlen_map; [done|lia]|]. split; [apply holds_whole; rewrite ?zlen_map; [done|lia]|]. done. }
  destruct (bp_matched s) as [m|] eqn:Hbm.
  2:{ apply Hwhole. destruct (Z.lt_trichotomy u 0) as [|[?|?]]; [lia|done|]. by destruct (Hpos ltac:(done)) as (? & ? & _). }
  destruct (Z.ltb_spec 0 u); [|apply Hwhole; lia]. destruct (Hpos ltac:(done)) as (m' & [= <-] & HR & Hm').
  destruct (unmatched_rows lvs rvs nl nr jt m ps Hnr Hps Hm') as [_ Happ]. fold R in Happ. rewrite HR, zlen_map in Hu.
  destruct (Happ (zlen ps) li1 ri1) as (li2 & ri2 & -> & Hal & Har & Hhl2 & Hhr2); [lia..|]. cbn [mbind option_bind join_outcome].
  exists ps. rewrite HR. cbn [l_idx r_idx pair_count full_right_only_start]. rewrite !map_app, zlen_app, zlen_map, Hu. split; [done|].
  assert (Hlp : zlen (map fst ps) = zlen ps) by apply zlen_map. assert (Hrp : zlen (map snd ps) = zlen ps) by apply zlen_map.
  split; [|split; [|split; [done|]]].
  - apply (result_whole li1); rewrite ?Hlp, ?zlen_map; [lia|done|done|done].
  - rewrite map_map, map_id. apply (result_whole ri1); rewrite ?Hrp; [lia|done| |done].
    replace (zlen ri1 - zlen ps) with (zlen li1 - zlen ps) by lia. done.
  - destruct R as [|x R'] eqn:HRe; [rewrite zlen_nil in *; lia|done].
Qed.
End result.

(** ** The radix path *)
Lemma radix_bits_loop_ok fuel : ∀ target bytes r, 0 ≤ r ≤ 14 → 0 ≤ radix_bits_loop fuel target bytes r ≤ 14.
Proof.
  induction fuel as [|fuel IH]; intros target bytes r Hr; [done|]. cbn. destruct (_ && _) eqn:Hc; [|done].
  apply IH. apply andb_true_iff in Hc as [_ Hc%Z.ltb_lt]. unfold RAY_JOIN_MAX_RADIX in Hc. lia.
Qed.
Lemma radix_join_bits_ok n : 2 ≤ radix_join_bits n ≤ 14.
Proof.
  unfold radix_join_bits, RAY_JOIN_MIN_RADIX. pose proof (radix_bits_loop_ok 14 RAY_JOIN_L2_TARGET (n * 16) 0 ltac:(lia)).
  cbv zeta. destruct (_ <=? _); [lia|]. case_match; lia.
Qed.

Section radix_path.
Context `{Dispatcher} `{!DispatcherLaws} `{Workers} `{!WorkersLaws} `{JoinEnv}.

Lemma hash_phase vs n hashes : side_ok n vs → 0 ≤ n ≤ INT32_MAX → zlen hashes = n →
  par ray_pool_get (join_radix_hash_fn vs) n hashes = Some (map (row_hash vs) (range 0 n)).
Proof.
  intros Hs Hn Hl. unfold INT32_MAX in Hn.
  apply (par_fill ray_pool_get _ (λ r hashes, h ← hash_row_keys vs r; zset hashes r (u32 h))); [lia|done|done|].
  intros r a Hr. destruct (hash_row_total n vs r Hs Hr) as (h & Hh & _). unfold row_hash. by rewrite Hh.
Qed.

(** The probed partitions, whichever side is which *)
Lemma probe_phase lvs rvs jt nl nr bits m0 m l_parts r_parts :
  keys_ok nl nr lvs rvs → 0 ≤ nl ≤ INT32_MAX → 0 ≤ nr ≤ INT32_MAX → 2 ≤ bits ≤ 14 →
  (ray_pool_get = true → tasks_fit (Z.shiftl 1 bits)) → marked nr m0 [] m →
  l_parts = table_parts bits lvs nl → r_parts = table_parts bits rvs nr →
  ∃ s, run_tasks (Z.shiftl 1 bits) (join_radix_build_probe_fn l_parts r_parts lvs rvs jt)
         (Bp (replicate (Z.to_nat (Z.shiftl 1 bits)) None) m false false) = Some s ∧
    (failed s = false → ∃ Qs, Forall2 out_ok (bp_out s) Qs ∧ mjoin Qs ≡ₚ joined lvs rvs nl nr jt ∧ marked nr m0 (map snd (mjoin Qs)) (bp_matched s)).
Proof.
  intros Hk Hnl Hnr Hb Hfit Hm -> ->. destruct (np_pow bits Hb) as [_ Hnp].
  destruct (run_tasks_ok (Z.shiftl 1 bits) (join_radix_build_probe_fn (table_parts bits lvs nl) (table_parts bits rvs nr) lvs rvs jt)
    (bp_inv lvs rvs jt nl nr bits m0) (Bp (replicate (Z.to_nat (Z.shiftl 1 bits)) None) m false false)) as (s & l & -> & Hl & Hi); [lia|done| | |].
  - split; cbn [bp_out bp_matched]; [rewrite zlen_replicate; lia|by exists []|]. intros _ p Hp. exists None, []. split; [|done].
    rewrite zget_nat by lia. apply lookup_replicate_2. lia.
  - intros pre t s Ht Hnin Hs. by apply build_probe_task.
  - exists s. split; [done|]. intros Hf. by eapply outs_ok.
Qed.

Lemma partition_phase probe vs n bits : side_ok n vs → 0 ≤ n ≤ INT32_MAX → 2 ≤ bits ≤ 14 →
  ∃ res, join_radix_partition probe (map (row_hash vs) (range 0 n)) bits n = Some res ∧ ∀ parts, res = Some parts → parts = table_parts bits vs n.
Proof.
  intros Hs Hn Hb. apply (join_radix_partition_ok probe (map (row_hash vs) (range 0 n)) bits n (row_hash vs)); [done|done|].
  intros r Hr. by rewrite (zget_table (row_hash vs)).
Qed.

Definition build_rows (jt nl nr : Z) : Z := if (jt =? 0) && negb ray_join_no_build_swap && (nl * 1 <? nr) then nl else nr.

Lemma radix_join_ok lvs rvs jt nl nr :
  keys_ok nl nr lvs rvs → 0 ≤ nl ≤ INT32_MAX → 0 ≤ nr ≤ INT32_MAX →
  (ray_pool_get = true → tasks_fit (Z.shiftl 1 (radix_join_bits (build_rows jt nl nr)))) →
  ∃ res, radix_join jt lvs rvs nl nr = Some res ∧ ∀ r, res = Some r → join_outcome lvs rvs nl nr jt (Some r).
Proof.
  intros Hk Hnl Hnr Hfit. unfold radix_join. unfold build_rows in Hfit.
  set (swap := (jt =? 0) && negb ray_join_no_build_swap && (nl * 1 <? nr)) in *.
  set (bn := if swap then nl else nr) in *. set (pn := if swap then nr else nl).
  set (bk := if swap then lvs else rvs). set (pk := if swap then rvs else lvs). cbv zeta.
  pose proof (radix_join_bits_ok bn) as Hb. set (bits := radix_join_bits bn) in *.
  assert (Hpk : keys_ok pn bn pk bk) by (subst pn bn pk bk; destruct swap; [by apply keys_ok_swap|done]).
  assert (Hpn : 0 ≤ pn ≤ INT32_MAX) by (subst pn; by destruct swap). assert (Hbn : 0 ≤ bn ≤ INT32_MAX) by (subst bn; by destruct swap).
  assert (Hswap : swap = true → jt = 0).
  { subst swap. intros [[Hj _]%andb_true_iff _]%andb_true_iff. by apply Z.eqb_eq. }
  assert (HNone : ∃ res, Some (@None (join_err + index)) = Some res ∧ ∀ r, res = Some r → join_outcome lvs rvs nl nr jt (Some r)) by (by exists None).
  assert (Hcancel : ∀ c, cancelled_at c = true → ∃ res, Some (Some (@inl _ index JOIN_CANCEL)) = Some res ∧ ∀ r, res = Some r → join_outcome lvs rvs nl nr jt (Some r)).
  { intros c Hc. eexists. split; [done|]. intros ? [= <-]. by exists c. }
  destruct (alloc_cases R_build_hash 4 bn) as [(rh & -> & Hrh)|[-> _]]; [lia| |done].
  destruct (alloc_cases R_probe_hash 4 pn) as [(lh & -> & Hlh)|[-> _]]; [lia| |done].
  pose proof (keys_ok_l _ _ _ _ Hpk) as Hps. pose proof (keys_ok_r _ _ _ _ Hpk) as Hbs.
  rewrite hash_phase by done. cbn [mbind option_bind]. rewrite hash_phase by done. cbn [mbind option_bind].
  destruct (cancelled_at C_hashed) eqn:?; [by eapply Hcancel|].
  destruct (partition_phase false bk bn bits Hbs Hbn Hb) as (r_parts & -> & Hr). cbn [mbind option_bind].
  destruct (partition_phase true pk pn bits Hps Hpn Hb) as (l_parts & -> & Hl). cbn [mbind option_bind].
  destruct r_parts as [r_parts|]; [|done]. destruct l_parts as [l_parts|]; [|done].
  destruct (cancelled_at C_partitioned) eqn:?; [by eapply Hcancel|].
  remember ((jt =? 2) && (0 <? nr)) as full eqn:Hfull. set (m := if full then _ else None).
  destruct (full && negb _) eqn:Hmat; [done|]. destruct (_ || _); [done|].
  set (m0 := if full then Some [] else None : option (list Z)).
  assert (marked bn m0 [] m ∧ (full = true → bn = nr)) as [Hm Hbnr].
  { subst m m0. destruct full; [|done]. cbn [andb] in Hmat. symmetry in Hfull. unfold calloc in *. destruct (served R_matched _); [|done].
    assert (bn = nr) as ->; [|split; [apply marked_start; lia|done]].
    subst bn. destruct swap eqn:Hsw; [|done]. specialize (Hswap eq_refl). by subst jt. }
  destruct (probe_phase pk bk jt pn bn bits m0 m l_parts r_parts) as (s & -> & Hs); [done..|by apply Hl|by apply Hr|]. cbn [mbind option_bind].
  destruct (cancelled_at C_probed) eqn:?; [by eapply Hcancel|].
  destruct (had_error s || pathological s) eqn:Hfail; [done|]. destruct (Hs Hfail) as (Qs & HQs & Hperm & Hmark).
  assert (join_outcome lvs rvs nl nr jt (radix_result swap jt nr s)) as Hres.
  { apply (radix_result_ok lvs rvs nl nr jt ltac:(lia) swap s Qs HQs).
    - rewrite Hperm. subst pk bk pn bn. destruct swap eqn:Hsw; [rewrite (Hswap eq_refl); apply joined_swap|]. unfold side_pair. by rewrite map_id.
    - rewrite <- Hfull. fold m0. destruct full; symmetry in Hfull.
      + assert (swap = false) as -> by (destruct swap; [|done]; specialize (Hswap eq_refl); subst jt; done). unfold side_pair.
        rewrite map_id. by rewrite <- Hbnr.
      + subst m0. cbn in *. destruct (bp_matched s); [done|]. done. }
  destruct (radix_result swap jt nr s) as [r|]; [|done]. eexists. split; [done|]. by intros ? [= <-].
Qed.
End radix_path.

(** ** Joins *)
Section joins.
Context `{Dispatcher} `{!DispatcherLaws} `{Workers} `{!WorkersLaws} `{JoinEnv}.

(** There is room in the ring for the tasks a join posts. *)
Definition join_fits (jt nl nr : Z) : Prop :=
  ray_pool_get = true → tasks_fit (morsels nl) ∧ tasks_fit (Z.shiftl 1 (radix_join_bits (build_rows jt nl nr))).

Lemma join_indices_ok factorized lvs rvs jt nl nr :
  keys_ok nl nr lvs rvs → 0 ≤ nl ≤ INT32_MAX → 0 ≤ nr ≤ INT32_MAX → asp_safe lvs rvs factorized → join_fits jt nl nr →
  join_outcome lvs rvs nl nr jt (join_indices factorized jt lvs rvs nl nr).
Proof.
  intros Hk Hnl Hnr Hsafe Hfit. unfold join_indices.
  rewrite (proj2 (Z.ltb_ge INT32_MAX nr)), (proj2 (Z.ltb_ge INT32_MAX nl)) by lia. cbn [orb].
  destruct (served R_key_vecs _) eqn:Hsv; [|do 2 eexists; exact Hsv]. cbn [negb].
  destruct (keys_warm nl nr lvs rvs Hk) as [-> ->]. cbn [negb].
  assert (Hchain : join_outcome lvs rvs nl nr jt (chained_join factorized jt lvs rvs nl nr)).
  { apply (chained_join_ok lvs rvs jt nl nr Hk Hnl Hnr factorized Hsafe). intros Hp. apply (proj1 (Hfit Hp)). }
  destruct (RAY_PARALLEL_THRESHOLD <? nr); [|done].
  destruct (radix_join_ok lvs rvs jt nl nr Hk Hnl Hnr) as (res & -> & Hres); [intros Hp; by apply Hfit|]. cbn [mbind option_bind].
  destruct res as [r|]; [|done]. by apply Hres.
Qed.
End joins.
