(* ===== verification/JoinProps.v ===== *)
(** * What the joins guarantee *)

From S2P Require Import Prelude Pool PoolProofs Rowsel RowselProofs Hash Sort SortOrder SortRadix SortEnc SortPar.
From S2P Require Import Join JoinKeys JoinChain JoinRadix JoinTable.
Local Open Scope Z_scope.

(** Two tables of a few rows, with a key of numbers, one of them null, and a
    key of symbols; a pool of two threads that runs its tasks backwards; memory
    is granted, with junk in it. *)
Module JoinBench.
#[global] Instance pool : Dispatcher :=
  {| ray_pool_get := true; ring_cap := 1024; ring_realloc_ok := true; run_order := @reverse task |}.
#[global] Instance threads : Workers := {| total_workers := 2; task_wid t := t_start t / 8192 mod 2 |}.
#[global] Instance env : JoinEnv :=
  {| served _ _ := true; junk i := 11 * i - 5; cancelled_at _ := false;
     ray_join_no_build_swap := false; ray_join_force_dup_fallback := false; ray_join_no_dup_fallback := false |}.
Lemma join_pool_laws : DispatcherLaws.
Proof. split; [intros ts; apply reverse_Permutation|by exists 10]. Qed.
Lemma join_threads_laws : WorkersLaws.
Proof. split; [done|intros t; apply Z.mod_pos_bound; done|done]. Qed.

Definition left_keys : list (option key_vec) :=
  [Some (KNum (Column I64 true [7; 3; NULL_I64; 7; 9])); Some (KSym Runtime 4 [1; 2; 1; 1; 4])].
Definition right_keys : list (option key_vec) :=
  [Some (KNum (Column I32 true [3; 7; 7; 5; NULL_I32; 7])); Some (KSym Runtime 4 [2; 1; 2; 1; 1; 1])].
Lemma keys_good : keys_ok 5 6 left_keys right_keys.
Proof.
  constructor; [|constructor; [|constructor]].
  - eexists _, _. do 2 (split; [done|]). repeat split; try done; repeat constructor; vm_compute; intuition discriminate.
  - eexists _, _. repeat split; done.
Qed.
End JoinBench.

(** C10. A join answers the pairs its rows should give: every left row with
    each of the right rows whose keys are all equal and not null, or alone in a
    left or full join, and after them the right rows of a full join that met
    nobody, in order. This holds on the radix path and on the chained one, with
    any schedule of the pool, whichever side is built and whichever requests
    for memory are refused: the answer is an error only if a table has more
    rows than fit, a request was refused or the user cancelled, and is never
    undefined. *)
Theorem join_indices_pairs (D : Dispatcher) (W : Workers) (J : JoinEnv) (factorized : bool)
    (lvs rvs : list (option key_vec)) (join_type left_rows right_rows : Z) :
  DispatcherLaws → WorkersLaws → 0 ≤ left_rows → 0 ≤ right_rows → keys_ok left_rows right_rows lvs rvs →
  asp_safe lvs rvs factorized → join_fits join_type left_rows right_rows →
  match join_indices factorized join_type lvs rvs left_rows right_rows with
  | Some (inr ix) => join_result lvs rvs left_rows right_rows join_type ix
  | Some (inl JOIN_NYI) => INT32_MAX < left_rows ∨ INT32_MAX < right_rows
  | Some (inl JOIN_CANCEL) => ∃ c, cancelled_at c = true
  | Some (inl (JOIN_OOM | JOIN_NULL)) => ∃ s n, served s n = false
  | None => False
  end.
Proof.
  intros DL WL Hl Hr Hk Hsafe Hfit. destruct (Z.lt_ge_cases INT32_MAX left_rows) as [Hbig|Hnl].
  { unfold join_indices. rewrite (proj2 (Z.ltb_lt INT32_MAX left_rows)), orb_true_r by done. by left. }
  destruct (Z.lt_ge_cases INT32_MAX right_rows) as [Hbig|Hnr].
  { unfold join_indices. rewrite (proj2 (Z.ltb_lt INT32_MAX right_rows)) by done. by right. }
  pose proof (join_indices_ok factorized lvs rvs join_type left_rows right_rows Hk (conj Hl Hnl) (conj Hr Hnr) Hsafe Hfit) as Hok.
  unfold join_outcome in Hok. by destruct (join_indices _ _ _ _ _ _) as [[[]|ix]|].
Qed.

Lemma join_indices_pairs_witness :
  (match join_indices false 2 JoinBench.left_keys JoinBench.right_keys 5 6 with
   | Some (inr ix) => join_result JoinBench.left_keys JoinBench.right_keys 5 6 2 ix
   | Some (inl JOIN_NYI) => INT32_MAX < 5 ∨ INT32_MAX < 6
   | Some (inl JOIN_CANCEL) => ∃ c, cancelled_at c = true
   | Some (inl (JOIN_OOM | JOIN_NULL)) => ∃ s n, served s n = false
   | None => False
   end) ∧
  (match join_indices false 2 JoinBench.left_keys JoinBench.right_keys 5 6 with
   | Some (inr ix) => (zip (l_idx ix) (r_idx ix), full_right_only_start ix) | _ => ([], 0) end) =
  ([(0, 5); (0, 1); (1, 0); (2, -1); (3, 5); (3, 1); (4, -1); (-1, 2); (-1, 3); (-1, 4)], 7).
Proof.
  split; [|by vm_compute].
  apply (join_indices_pairs JoinBench.pool JoinBench.threads JoinBench.env false JoinBench.left_keys JoinBench.right_keys 2 5 6).
  - apply JoinBench.join_pool_laws.
  - apply JoinBench.join_threads_laws.
  - lia.
  - lia.
  - apply JoinBench.keys_good.
  - intros [=].
  - intros _. by vm_compute.
Defined.

(** C11. However the compare-and-swaps of the workers that build the chained
    table interleave, with each worker given any share of the rows in any
    order and a weak swap free to fail: from every state they can reach the
    table can be completed, and once it is complete the probe of it answers
    the join. *)
Theorem interleaved_build_joins (D : Dispatcher) (J : JoinEnv) (factorized : bool) (lvs rvs : list (option key_vec))
    (join_type left_rows right_rows : Z) (asp : option key_filter) (shares : list (list Z)) (heads next : list Z) (s : build_state) :
  let ht_cap := chained_cap right_rows in
  let step := build_step asp rvs (ht_cap - 1) in
  DispatcherLaws → 0 ≤ left_rows ≤ INT32_MAX → 0 ≤ right_rows ≤ INT32_MAX → keys_ok left_rows right_rows lvs rvs →
  asp_safe lvs rvs factorized → asp_filter factorized join_type lvs left_rows right_rows = Some asp →
  (ray_pool_get = true → tasks_fit (morsels left_rows)) →
  zlen heads = ht_cap → zlen next = right_rows → mjoin shares ≡ₚ range 0 right_rows →
  rtc step (BuildState (Chained (map (λ _, JHT_EMPTY) heads) next) (map Todo shares)) s →
  (∃ s', rtc step s s' ∧ built s') ∧
  (built s → join_outcome lvs rvs left_rows right_rows join_type
    (chained_probe (bs_table s) ht_cap join_type lvs rvs left_rows right_rows)).
Proof.
  intros ht_cap step DL Hnl Hnr Hk Hsafe Hasp Hfit Hh Hn Hsh Hs. destruct (chained_cap_ok right_rows) as (k & Hk' & Hcap). fold ht_cap in Hcap.
  destruct (asp_ok lvs rvs join_type left_rows right_rows Hk ltac:(lia) factorized Hsafe) as (asp' & Hasp' & Hno). rewrite Hasp in Hasp'. injection Hasp' as <-.
  set (skip := λ r, default false (filtered asp rvs r)).
  assert (Hskip : ∀ r, 0 ≤ r < right_rows → filtered asp rvs r = Some (skip r) ∧ (skip r = true → ∀ l, 0 ≤ l < left_rows → rows_meet lvs rvs l r = false)).
  { intros r Hr. destruct (Hno r Hr) as (b & Hb & Hmeet). unfold skip. by rewrite Hb. }
  assert (Hslot : ∀ r, 0 ≤ r < right_rows → chain_slot rvs (ht_cap - 1) r = Some (slot_of rvs ht_cap r) ∧ 0 ≤ slot_of rvs ht_cap r < ht_cap).
  { intros r Hr. rewrite Hcap. apply (slot_ok right_rows); [lia|by eapply keys_ok_r|done]. }
  assert (Hsk : ∀ r, 0 ≤ r < right_rows → filtered asp rvs r = Some (skip r)) by (intros r Hr; by apply Hskip).
  destruct (building_steps asp rvs ht_cap right_rows (slot_of rvs ht_cap) skip Hnr Hslot Hsk _ s [] (building_start ht_cap right_rows _ skip heads next shares Hh Hn Hsh) Hs) as [rows Hb].
  split; [by eapply building_completes|]. intros Hdone. pose proof (building_done _ _ _ _ _ _ Hb Hdone) as Ht. rewrite Hcap in Ht |- *.
  apply (chained_probe_ok lvs rvs join_type left_rows right_rows Hk Hnl Hnr (bs_table s) k skip Hk' Hfit); [apply Hb|done|].
  intros l r Hl Hr Hm. apply not_true_iff_false. intros Hst. destruct (Hskip r Hr) as [_ Hmeet]. by rewrite (Hmeet Hst l Hl) in Hm.
Qed.

Lemma interleaved_build_joins_witness :
  let ht_cap := chained_cap 6 in
  let step := build_step None JoinBench.right_keys (ht_cap - 1) in
  ∃ s, rtc step (BuildState (Chained (map (λ _, JHT_EMPTY) (replicate 256 0)) [0; 0; 0; 0; 0; 0]) (map Todo [[4; 1; 0]; []; [5; 2; 3]])) s ∧ built s ∧
    join_outcome JoinBench.left_keys JoinBench.right_keys 5 6 1 (chained_probe (bs_table s) ht_cap 1 JoinBench.left_keys JoinBench.right_keys 5 6).
Proof.
  intros ht_cap step.
  assert (Hfit : ray_pool_get = true → tasks_fit (morsels 5)) by (intros _; by vm_compute).
  assert (Hsh : mjoin [[4; 1; 0]; []; [5; 2; 3]] ≡ₚ range 0 6).
  { apply NoDup_Permutation; [by apply (bool_decide_eq_true_1 (NoDup (mjoin [[4; 1; 0]; []; [5; 2; 3]]))); vm_compute|apply NoDup_range|].
    intros x. change (x ∈ [4; 1; 0; 5; 2; 3] ↔ x ∈ [0; 1; 2; 3; 4; 5]). set_solver. }
  assert (Hsafe : asp_safe JoinBench.left_keys JoinBench.right_keys false) by (intros [=]).
  assert (Hn : 0 ≤ 6 ≤ INT32_MAX) by (by vm_compute). assert (Hn' : 0 ≤ 5 ≤ INT32_MAX) by (by vm_compute).
  pose proof (λ s, interleaved_build_joins JoinBench.pool JoinBench.env false JoinBench.left_keys JoinBench.right_keys 1 5 6 None
    [[4; 1; 0]; []; [5; 2; 3]] (replicate 256 0) [0; 0; 0; 0; 0; 0] s JoinBench.join_pool_laws Hn' Hn JoinBench.keys_good Hsafe eq_refl Hfit eq_refl eq_refl Hsh) as Hall.
  destruct (Hall _ (rtc_refl _ _)) as [(s & Hs & Hb) _]. exists s. split; [done|]. split; [done|]. by apply (Hall s Hs).
Defined.

(** C22. The antijoin keeps exactly the left rows whose keys meet no right row,
    in order; when one side is empty it is the whole left table. It is an error
    only if a table has more rows than fit, a request for memory was refused or
    the user cancelled, and is never undefined. *)
Theorem antijoin_rows (D : Dispatcher) (W : Workers) (J : JoinEnv) (lvs rvs : list (option key_vec)) (left_rows right_rows : Z) :
  DispatcherLaws → WorkersLaws → 0 ≤ left_rows → 0 ≤ right_rows → keys_ok left_rows right_rows lvs rvs →
  match antijoin_indices lvs rvs left_rows right_rows with
  | Some (inr (LeftRows rows)) => rows = left_only lvs rvs left_rows right_rows
  | Some (inr WholeLeft) => left_only lvs rvs left_rows right_rows = range 0 left_rows
  | Some (inl JOIN_NYI) => INT32_MAX < left_rows ∨ INT32_MAX < right_rows
  | Some (inl JOIN_CANCEL) => ∃ c, cancelled_at c = true
  | Some (inl (JOIN_OOM | JOIN_NULL)) => ∃ s n, served s n = false
  | None => False
  end.
Proof.
  intros DL WL Hl Hr Hk. destruct (Z.lt_ge_cases INT32_MAX left_rows) as [Hbig|Hnl].
  { unfold antijoin_indices. rewrite (proj2 (Z.ltb_lt INT32_MAX left_rows)), orb_true_r by done. by left. }
  destruct (Z.lt_ge_cases INT32_MAX right_rows) as [Hbig|Hnr].
  { unfold antijoin_indices. rewrite (proj2 (Z.ltb_lt INT32_MAX right_rows)) by done. by right. }
  pose proof (antijoin_ok lvs rvs left_rows right_rows Hk (conj Hl Hnl) (conj Hr Hnr)) as Hok.
  unfold anti_outcome in Hok. by destruct (antijoin_indices _ _ _ _) as [[[]|[]]|].
Qed.

Lemma antijoin_rows_witness :
  (match antijoin_indices JoinBench.left_keys JoinBench.right_keys 5 6 with
   | Some (inr (LeftRows rows)) => rows = left_only JoinBench.left_keys JoinBench.right_keys 5 6
   | Some (inr WholeLeft) => left_only JoinBench.left_keys JoinBench.right_keys 5 6 = range 0 5
   | Some (inl JOIN_NYI) => INT32_MAX < 5 ∨ INT32_MAX < 6
   | Some (inl JOIN_CANCEL) => ∃ c, cancelled_at c = true
   | Some (inl (JOIN_OOM | JOIN_NULL)) => ∃ s n, served s n = false
   | None => False
   end) ∧ antijoin_indices JoinBench.left_keys JoinBench.right_keys 5 6 = Some (inr (LeftRows [2; 4])).
Proof.
  split; [|by vm_compute].
  apply (antijoin_rows JoinBench.pool JoinBench.threads JoinBench.env JoinBench.left_keys JoinBench.right_keys 5 6).
  - apply JoinBench.join_pool_laws.
  - apply JoinBench.join_threads_laws.
  - lia.
  - lia.
  - apply JoinBench.keys_good.
Defined.

(** C12. The partitioned radix path and the chained path are interchangeable:
    the radix path gives up, or fails for a reason, or answers the same pairs
    as the chained one as often each, with the same number of them and the
    same place where the lone right rows start. *)
Theorem radix_join_agrees (D : Dispatcher) (W : Workers) (J : JoinEnv) (factorized : bool) (lvs rvs : list (option key_vec))
    (join_type left_rows right_rows : Z) (ix : index) :
  DispatcherLaws → WorkersLaws → 0 ≤ left_rows ≤ INT32_MAX → 0 ≤ right_rows ≤ INT32_MAX → keys_ok left_rows right_rows lvs rvs →
  asp_safe lvs rvs factorized → join_fits join_type left_rows right_rows →
  chained_join factorized join_type lvs rvs left_rows right_rows = Some (inr ix) →
  match radix_join join_type lvs rvs left_rows right_rows with
  | Some (Some (inr ix')) => zip (l_idx ix') (r_idx ix') ≡ₚ zip (l_idx ix) (r_idx ix) ∧
      pair_count ix' = pair_count ix ∧ full_right_only_start ix' = full_right_only_start ix
  | Some (Some (inl e)) => join_error e
  | Some None => True
  | None => False
  end.
Proof.
  intros DL WL Hnl Hnr Hk Hsafe Hfit Hc.
  pose proof (chained_join_ok lvs rvs join_type left_rows right_rows Hk Hnl Hnr factorized Hsafe (λ Hp, proj1 (Hfit Hp))) as Hch.
  rewrite Hc in Hch. destruct Hch as (ps & Hps & Hl & Hr & Hn & Hs).
  destruct (radix_join_ok lvs rvs join_type left_rows right_rows Hk Hnl Hnr (λ Hp, proj2 (Hfit Hp))) as (res & -> & Hres).
  destruct res as [r|]; [|done]. specialize (Hres r eq_refl). destruct r as [e|ix']; [done|].
  destruct Hres as (ps' & Hps' & Hl' & Hr' & Hn' & Hs'). rewrite Hl, Hr, Hl', Hr', !zip_fst_snd.
  assert (Hperm : ps' ≡ₚ ps) by (by rewrite Hps, Hps'). split; [by rewrite Hperm|]. split; [by rewrite Hn, Hn', Hperm|].
  rewrite Hs, Hs'. destruct (right_rest _ _ _ _ _); [done|]. by rewrite Hperm.
Qed.

Lemma radix_join_agrees_witness :
  match radix_join 0 JoinBench.left_keys JoinBench.right_keys 5 6, chained_join false 0 JoinBench.left_keys JoinBench.right_keys 5 6 with
  | Some (Some (inr ix')), Some (inr ix) => zip (l_idx ix') (r_idx ix') ≡ₚ zip (l_idx ix) (r_idx ix) ∧ zip (l_idx ix') (r_idx ix') = [(1, 0); (0, 1); (3, 1); (0, 5); (3, 5)]
  | _, _ => False
  end.
Proof.
  assert (Hn : 0 ≤ 6 ≤ INT32_MAX) by (by vm_compute). assert (Hn' : 0 ≤ 5 ≤ INT32_MAX) by (by vm_compute).
  assert (Hsafe : asp_safe JoinBench.left_keys JoinBench.right_keys false) by (intros [=]).
  assert (Hfit : join_fits 0 5 6) by (intros _; by vm_compute).
  pose proof (λ ix, radix_join_agrees JoinBench.pool JoinBench.threads JoinBench.env false JoinBench.left_keys JoinBench.right_keys 0 5 6 ix
    JoinBench.join_pool_laws JoinBench.join_threads_laws Hn' Hn JoinBench.keys_good Hsafe Hfit) as Hall.
  assert (Hv : (λ r, match r with Some (Some (inr ix)) => zip (l_idx ix) (r_idx ix) | _ => [] end)
    (radix_join 0 JoinBench.left_keys JoinBench.right_keys 5 6) = [(1, 0); (0, 1); (3, 1); (0, 5); (3, 5)]) by (by vm_compute).
  assert (Hc : (match chained_join false 0 JoinBench.left_keys JoinBench.right_keys 5 6 with Some (inr _) => true | _ => false end) = true) by (by vm_compute).
  destruct (chained_join false 0 JoinBench.left_keys JoinBench.right_keys 5 6) as [[|ix]|]; [discriminate Hc| |discriminate Hc]. specialize (Hall ix eq_refl).
  destruct (radix_join 0 JoinBench.left_keys JoinBench.right_keys 5 6) as [[[|ix']|]|]; [discriminate Hv| |discriminate Hv|discriminate Hv]. split; [apply Hall|exact Hv].
Defined.
